(* ===== verification/_CoqProject ===== *)
-Q . S2P
Prelude.v
Search.v
SortNet.v
QuickSort.v
RadixSort.v
Bits.v
Alloc.v
Pnl.v
PnlOrder.v
PnlSets.v
Rkl.v
RklProofs.v
RklIter.v
KeyCodec.v
Meta.v
MetaSync.v
MetaSeize.v
Mvcc.v
Txl.v
Dpl.v
DplProofs.v
Bytes.v
Cmp.v
Page.v
Node.v
NodeProofs.v
TreeSearch.v
Cogs.v
Geometry.v
PageCheck.v
PageCheckProofs.v
Spill.v
PageGet.v
Cursor.v
CursorProofs.v
Lookup.v
Dbi.v
Refund.v
RefundProofs.v
Retire.v
RetireProofs.v
Nested.v
NestedDirty.v
NestedCount.v
NestedSpill.v
NestedRetired.v
NestedProofs.v
Transcode.v
TranscodeProofs.v
Base58.v
Utf8.v
