(* ===== verification/Prelude.v ===== *)
(** * libmdbx: a verification of its core

    libmdbx is an embedded transactional key-value store: a B+tree of pages in
    one memory-mapped file, shared by processes, with a single writer at a time,
    multi-version snapshots for readers and three alternating meta pages instead
    of a log. This development translates the parts of it that decide what is
    stored where, and proves what they promise to each other. Names follow the C
    code; every file names the sources it translates.

    ** Parts of the program and their files

    - Algorithms generated by macros ([src/src/sort.h]). [Search]: the binary
      search [SEARCH_IMPL]. [SortNet]: the networks for up to eight cells.
      [QuickSort]: [SORT_IMPL]. [RadixSort]: [RADIXSORT_IMPL]. They work on
      arrays inside of the lists below.
    - Words and memory. [Bits]: rounding, bit counts, wide multiplication
      ([utils.h], [utils.c]). [Alloc]: blocks and the allocator, a parameter of
      all operations that allocate, with the laws of the class [AllocOk].
      [Bytes]: the unaligned accessors ([unaligned.h]) on lists of bytes, over a
      machine that may fault on accesses that are not aligned.
    - Lists of pages and of transaction ids. [Pnl], [PnlOrder], [PnlSets]: page
      number lists ([pnl.c]: storage; order and search; union, difference,
      ranges). [Rkl], [RklProofs], [RklIter]: sets of transaction ids, an
      interval with a sorted list ([rkl.c]). [Txl]: lists of ids ([txl.c]).
      [Dpl], [DplProofs]: the lazily sorted list of the dirty pages of a write
      transaction ([dpl.c]). [Spill]: the list of spilled pages ([spill.c]).
      [Refund], [RefundProofs]: giving free pages at the end of the file back
      ([refund.c]), which composes the page list, the dirty list, the loose
      pages and the spilled list. [Retire], [RetireProofs]: releasing a page
      ([page_retire_ex]) and registering a dirty one ([page_dirty], [page-ops.c]),
      which compose all of these. [Nested]: the commit of a nested transaction
      into its parent ([nested_merge], [txn-nested.c]); [NestedDirty]: its merge
      of the dirty lists in place; [NestedCount]: the number of pages, which it
      recomputes; [NestedSpill]: the spilled lists; [NestedRetired]: the retired
      and the reclaimed pages; [NestedProofs]: all steps together.
    - Meta pages. [Meta]: the choice of the recent, the steady and the tail page
      ([meta.c]). [MetaSync]: the stores of an update ([dxb_sync_locked] of
      [dxb.c]), and crashes. [MetaSeize]: the loads of a starting reader
      ([ro_seize] and what checks its result, [txn-ro.c], [coherency.c],
      [txn.c]) among the stores of any number of commits.
    - Snapshots. [Mvcc]: the table of readers as shared memory, with the
      programs of readers ([mvcc_bind_slot], [ro_seize], [txn_ro_park],
      [txn_ro_unpark], [ro_slot_clean], [ro_slot_release], [txn_ro_clone]) and of
      the writer ([mvcc_snapshot_oldest_rw] and the eviction of parked readers in
      [mvcc_kick_laggards], [mvcc-readers.c]) as steps that interleave.
    - Keys. [KeyCodec]: keys made from numbers ([api-key-transform.c], inline
      functions of [mdbx.h]). [Cmp]: the comparators ([comparators.c]).
    - Pages. [Page]: the layout of pages and nodes ([layout-dxb.h], [node.h],
      [cogs.h]). [Node], [NodeProofs]: adding and deleting nodes ([node.c]).
      [TreeSearch]: search inside of a page ([tree-search.c]). [Cursor],
      [CursorProofs]: the stack of a cursor, the descent and the movement from
      item to item ([cursor-nav.c], [cursor.h], [tree-search.c]). [Lookup]: the
      search of a key in a whole tree, which composes the two. [PageCheck],
      [PageCheckProofs]: validation of a page that was read; [PageGet]: finding
      its current version ([page-get.c]).
    - Sizes. [Cogs]: limits of keys, values and nodes, packed page counts
      ([cogs.c], [cogs.h], [env.c], [page-ops.c], [tree-ops.c]). [Geometry]:
      [mdbx_env_set_geometry] ([api-env.c]).
    - [Dbi]: the table handles of a transaction ([dbi.h]).
    - Texts of slices in the C++ interface. [Transcode]: the encoders and
      decoders of hexadecimal, base64 and base58 and the test for printable
      text ([mdbx.c++], [decl-transcoders.h++]). [TranscodeProofs]: hexadecimal
      and base64. [Base58]: base58, an in-place change of the number base.
      [Utf8]: the table-driven UTF-8 test.

    ** Conventions

    Integers are [Z]; wrap-around is written out where the C type can overflow
    ([u32], [u64], ...). An array is a [list] with [Z] indices ([zget], [zset]);
    an access outside of it is [None], so that a theorem which gives [Some]
    states memory safety. Stateful code passes records; [rc] are the return
    codes. The option monad ([x <- e; k], written with an arrow) threads both.
    [None] also stands for an exhausted fuel; every theorem about a function
    with fuel gives [Some], so that the fuel is enough. Loops, searches and the
    partitions of the sort take a fuel computed from the length of the array
    they work on, the rounds of the refund one from the first unallocated page,
    a loop over the bits of a word one from its width, the descent in a tree
    the size of the stack.
    Modelled is a 64-bit little-endian release build: assertions are not
    executed, [MDBX_PNL_ASCENDING] is 0, [MDBX_ENABLE_DBI_SPARSE] is 1;
    [MDBX_UNALIGNED_OK] and [MDBX_HAVE_CMOV] are arguments, [MDBX_AVOID_MSYNC] is
    one in [Dpl] and [Nested] and 0 in [Retire]. Shared memory is sequentially
    consistent: the barriers of the code and TSO give this for the accesses
    modelled.

    ** What the theorems show

    - Durability and isolation: [sync_crash_safe], [reader_takes_one_version],
      [meta_tap_selects]: a crash at any store of an update leaves the old or
      the new version and a steady one; a reader that starts among commits ends
      in a bounded number of steps and takes all its values from one version,
      the recent one when nobody commits; the selection is right for all
      contents of the meta pages.
      [readers_keep_their_snapshot]: in every interleaving the writer never
      takes a snapshot for the oldest one that is younger than that of a running
      reader; [oldest_advances]: an undisturbed scan ends with the true oldest,
      or with the cached answer when no reader has come or gone.
    - Pages: [node_add_inserts] and [node_del_removes] refine insertion into and
      deletion from a sequence of nodes, on bytes, in every branch of the code
      (keyless branch nodes, data on large pages, reserved space, refusals);
      [node_add_page_full] has the error branch once more; [page_get_validates] states what a validated page promises;
      [tree_search_finds] and [branchless_search_equivalent] that the optimised
      searches find; [lookup_finds] that a key is found in a tree exactly if it is
      there, at its place among all keys; [cursor_refines_list] that a cursor
      walks a tree as a list; [builtin_comparators_order], [eq_fast_is_equality] and
      [unaligned_access_uniform] what they rely on.
    - Lists: sorting and searching for every strict weak order; the lists of
      pages and ids are the sets they stand for, the invariants survive every
      operation, errors of the allocator leave them unchanged.
    - Transactions: [txn_refund_gives_back] that only free pages at the end are
      given back and all lists stay consistent; [page_retire_accounts] and
      [page_dirty_accounts] that every page has one place, that a released page
      becomes free in exactly one way and that pages of committed versions are
      only retired; [nested_commit_merges] that the commit of a nested transaction
      unites the lists of both and loses no page; [spill_list_refines];
      [foreach_visits] that the walk over the handles ends and visits all.
    - Arithmetic: [set_geometry_unmapped_sound], [page_limits_fit],
      [pages2pv_roundtrip], [double_keys], [json_integer_keys].
    - Texts: [transcoders_invert], [decoders_are_safe]: every decoder gives back
      what its encoder was given, whatever the width of lines, and on any text
      and any destination stays inside of its buffers, with the exception the
      text deserves; [printable_is_utf8]: the table accepts the
      well-formed sequences of printable characters and nothing else.

    Lemmas whose name says what goes wrong ([ctz_fallback_powers_only],
    [pnl_contains_span_stale], [rkl_check_accepts_touching],
    [mapped_growth_step_panics], [mapped_maximal_upper_panics],
    [nested_order_reads_outside], [spill_intersect_counts_removed],
    [clone_misses_the_scan], [extended_letters_refused],
    [padding_then_newline_refused], [rest_of_large_page_stays_retired],
    [size_read_for_a_page]) prove
    deviations of the code.

    ** Not modelled

    Cursors with a nested one (tables with duplicates), changes through cursors
    and what is built on them (splitting and rebalancing of pages, the garbage
    collector, deletion of ranges, defragmentation, the integrity check): they
    change the stacks of all cursors of a table at once. The life cycle of
    environments and write transactions, locks, the detection of dead processes,
    the mapping and the I/O: their behaviour is that of the operating system. The
    recovery mode with a chosen meta page, and databases of an older format. The
    public API beyond the functions above checks arguments and calls these
    parts. Tools, logging and the C++ interface beyond its texts: wrappers around the
    C functions. *)

From stdpp Require Import base list numbers option sorting.
From Stdlib Require Import ZArith Lia.

#[global] Open Scope Z_scope.

(** ** Machine integers

    A [w]-bit unsigned integer of the C code is a [Z] in [0, 2^w); the
    operations that can leave the range are followed by the wrap-around the
    C standard prescribes. *)

Definition wrap (w x : Z) : Z := x mod 2 ^ w.
Definition u8 (x : Z) : Z := wrap 8 x.
Definition u16 (x : Z) : Z := wrap 16 x.
Definition u32 (x : Z) : Z := wrap 32 x.
Definition u64 (x : Z) : Z := wrap 64 x.

(** The two's complement reading of a [w]-bit pattern. *)
Definition signed (w x : Z) : Z :=
  let x := wrap w x in if x <? 2 ^ (w - 1) then x else x - 2 ^ w.
Definition i32 (x : Z) : Z := signed 32 x.
Definition i64 (x : Z) : Z := signed 64 x.

Definition UINT32_MAX : Z := 4294967295.
Definition UINT64_MAX : Z := 18446744073709551615.

Lemma wrap_small w x : 0 <= x < 2 ^ w -> wrap w x = x.
Proof. intros H. unfold wrap. by apply Z.mod_small. Qed.

Lemma wrap_range w x : 0 <= w -> 0 <= wrap w x < 2 ^ w.
Proof. intros H. unfold wrap. apply Z.mod_pos_bound. lia. Qed.

Lemma u32_small x : 0 <= x <= UINT32_MAX -> u32 x = x.
Proof. intros H. apply wrap_small. unfold UINT32_MAX in H. lia. Qed.

Lemma u64_small x : 0 <= x <= UINT64_MAX -> u64 x = x.
Proof. intros H. apply wrap_small. unfold UINT64_MAX in H. lia. Qed.

(** ** Return codes *)

Inductive rc : Set :=
  | MDBX_SUCCESS
  | MDBX_RESULT_TRUE
  | MDBX_ENOMEM
  | MDBX_TXN_FULL
  | MDBX_PROBLEM
  | MDBX_PAGE_FULL
  | MDBX_EINVAL
  | MDBX_MAP_FULL
  | MDBX_TOO_LARGE
  | MDBX_PANIC
  | MDBX_CORRUPTED
  | MDBX_PAGE_NOTFOUND
  | MDBX_NOTFOUND
  | MDBX_ENODATA
  | MDBX_CURSOR_FULL
  | MDBX_BAD_TXN
  | MDBX_INCOMPATIBLE.

#[global] Instance rc_eq_dec : EqDecision rc.
Proof. solve_decision. Defined.

(** ** Arrays

    A C array (or heap block) is the list of its cells. Reading or writing
    outside of the block is undefined behaviour and yields [None]: that an
    operation of the model returns [Some] includes that every access it makes
    stays inside of the block, and that its loops terminate. *)

Definition zlen {A} (m : list A) : Z := Z.of_nat (length m).

Definition zget {A} (m : list A) (i : Z) : option A :=
  if 0 <=? i then m !! Z.to_nat i else None.

Definition zupd {A} (m : list A) (i : Z) (v : A) : list A :=
  <[Z.to_nat i := v]> m.

Definition zset {A} (m : list A) (i : Z) (v : A) : option (list A) :=
  if (0 <=? i) && (i <? zlen m) then Some (zupd m i v) else None.

(** The cells [i], [i+1], ..., [i+n-1]. *)
Definition zslice {A} (m : list A) (i n : Z) : list A :=
  take (Z.to_nat n) (drop (Z.to_nat i) m).

Section Arrays.
Context {A : Type}.
Implicit Types (m l : list A) (i j : Z) (x v : A).

Lemma zlen_nonneg m : 0 <= zlen m.
Proof. unfold zlen. lia. Qed.

Lemma zlen_nil : zlen (@nil A) = 0.
Proof. done. Qed.

Lemma zlen_cons x m : zlen (x :: m) = zlen m + 1.
Proof. unfold zlen. simpl. lia. Qed.

Lemma zlen_app l m : zlen (l ++ m) = zlen l + zlen m.
Proof. unfold zlen. rewrite length_app. lia. Qed.

Lemma zlen_zupd m i v : zlen (zupd m i v) = zlen m.
Proof. unfold zlen, zupd. by rewrite length_insert. Qed.

Lemma zlen_0_nil m : zlen m = 0 -> m = [].
Proof. unfold zlen. destruct m; simpl; [done | lia]. Qed.

Lemma zget_range m i x : zget m i = Some x -> 0 <= i < zlen m.
Proof.
  unfold zget, zlen. destruct (Z.leb_spec 0 i); [|done].
  intros Hl%lookup_lt_Some. lia.
Qed.

Lemma zget_in m i : 0 <= i < zlen m -> exists x, zget m i = Some x.
Proof.
  unfold zget, zlen. intros H. destruct (Z.leb_spec 0 i); [|lia].
  apply lookup_lt_is_Some_2. lia.
Qed.

Lemma zget_lookup m (n : nat) : zget m (Z.of_nat n) = m !! n.
Proof. unfold zget. destruct (Z.leb_spec 0 (Z.of_nat n)); [|lia]. by rewrite Nat2Z.id. Qed.

Lemma zget_elem m i x : zget m i = Some x -> x ∈ m.
Proof.
  unfold zget. destruct (0 <=? i); [|done].
  intros H. apply list_elem_of_lookup. eauto.
Qed.

Lemma elem_zget m x : x ∈ m -> exists i, 0 <= i < zlen m /\ zget m i = Some x.
Proof.
  intros [n Hn]%list_elem_of_lookup. exists (Z.of_nat n).
  rewrite zget_lookup. split; [|done]. apply lookup_lt_Some in Hn. unfold zlen. lia.
Qed.

Lemma zset_ok m i v : 0 <= i < zlen m -> zset m i v = Some (zupd m i v).
Proof.
  intros H. unfold zset.
  destruct (Z.leb_spec 0 i), (Z.ltb_spec i (zlen m)); simpl; done || lia.
Qed.

Lemma zset_inv m i v m' : zset m i v = Some m' -> 0 <= i < zlen m /\ m' = zupd m i v.
Proof.
  unfold zset.
  destruct (Z.leb_spec 0 i), (Z.ltb_spec i (zlen m)); simpl; naive_solver lia.
Qed.

Lemma zget_zupd_eq m i v : 0 <= i < zlen m -> zget (zupd m i v) i = Some v.
Proof.
  intros H. unfold zget, zupd, zlen in *. destruct (Z.leb_spec 0 i); [|lia].
  apply list_lookup_insert_eq. lia.
Qed.

Lemma zget_zupd_ne m i j v : 0 <= i -> i <> j -> zget (zupd m i v) j = zget m j.
Proof.
  intros Hi Hne. unfold zget, zupd. destruct (Z.leb_spec 0 j); [|done].
  apply list_lookup_insert_ne. lia.
Qed.

Lemma zget_zupd m i j v : 0 <= i < zlen m ->
  zget (zupd m i v) j = if i =? j then Some v else zget m j.
Proof.
  intros H. destruct (Z.eqb_spec i j) as [<-|Hne].
  - by apply zget_zupd_eq.
  - apply zget_zupd_ne; lia.
Qed.

Lemma zget_app_l l m i : i < zlen l -> zget (l ++ m) i = zget l i.
Proof.
  unfold zget, zlen. intros H. destruct (Z.leb_spec 0 i); [|done].
  apply lookup_app_l. lia.
Qed.

Lemma zget_app_r l m i : zlen l <= i -> zget (l ++ m) i = zget m (i - zlen l).
Proof.
  unfold zget, zlen. intros H.
  destruct (Z.leb_spec 0 i), (Z.leb_spec 0 (i - Z.of_nat (length l))); try lia.
  rewrite lookup_app_r by lia. f_equal. lia.
Qed.

Lemma zget_app_skip l m k i : k = zlen l + i -> 0 <= i -> zget (l ++ m) k = zget m i.
Proof. intros -> H. rewrite zget_app_r by lia. f_equal. lia. Qed.

Lemma zget_cons_0 x m : zget (x :: m) 0 = Some x.
Proof. done. Qed.

Lemma zget_cons_pos x m i : 0 < i -> zget (x :: m) i = zget m (i - 1).
Proof.
  intros H. change (x :: m) with ([x] ++ m). rewrite zget_app_r; [done|].
  unfold zlen. simpl. lia.
Qed.

Lemma zget_app_mid l m x i : i = zlen l -> zget (l ++ x :: m) i = Some x.
Proof. intros ->. rewrite zget_app_r by lia. by rewrite Z.sub_diag. Qed.

Lemma zupd_app_mid l m x v i : i = zlen l -> zupd (l ++ x :: m) i v = l ++ v :: m.
Proof.
  intros ->. unfold zupd, zlen. rewrite Nat2Z.id.
  rewrite insert_app_r_alt by lia. by rewrite Nat.sub_diag.
Qed.

Lemma zset_app_mid l m x v i :
  i = zlen l -> zset (l ++ x :: m) i v = Some (l ++ v :: m).
Proof.
  intros ->. rewrite zset_ok.
  - by rewrite zupd_app_mid.
  - rewrite zlen_app, zlen_cons. pose proof (zlen_nonneg l). pose proof (zlen_nonneg m). lia.
Qed.

Lemma zupd_id m i x : zget m i = Some x -> zupd m i x = m.
Proof.
  unfold zget, zupd. destruct (Z.leb_spec 0 i); [|done].
  intros H'. by apply list_insert_id.
Qed.

Lemma zget_ext m m' :
  zlen m = zlen m' -> (forall i, 0 <= i < zlen m -> zget m i = zget m' i) -> m = m'.
Proof.
  intros Hlen H. apply list_eq. intros n.
  rewrite <- !zget_lookup.
  destruct (decide (Z.of_nat n < zlen m)) as [Hlt|Hge].
  - apply H. lia.
  - assert (zget m (Z.of_nat n) = None) as ->.
    { destruct (zget m (Z.of_nat n)) eqn:E; [|done]. apply zget_range in E. lia. }
    destruct (zget m' (Z.of_nat n)) eqn:E; [|done]. apply zget_range in E. lia.
Qed.

(** A list of at least [n] cells splits after its first [n]. *)
Lemma zsplit m i : 0 <= i <= zlen m ->
  exists l r, m = l ++ r /\ zlen l = i.
Proof.
  intros H. exists (take (Z.to_nat i) m), (drop (Z.to_nat i) m).
  rewrite take_drop. split; [done|]. unfold zlen in *. rewrite length_take. lia.
Qed.

Lemma zsplit_mid m i : 0 <= i < zlen m ->
  exists l x r, m = l ++ x :: r /\ zlen l = i.
Proof.
  intros H. destruct (zsplit m i) as (l & r & -> & Hl); [lia|].
  destruct r as [|x r].
  - rewrite zlen_app, zlen_nil in H. lia.
  - eauto.
Qed.

Lemma zlen_snoc l x : zlen (l ++ [x]) = zlen l + 1.
Proof. rewrite zlen_app, zlen_cons, zlen_nil. lia. Qed.

Lemma zsplit_snoc l : 0 < zlen l -> exists l' x, l = l' ++ [x].
Proof.
  intros H. destruct l as [|x l] using rev_ind.
  - rewrite zlen_nil in H. lia.
  - eauto.
Qed.

Lemma StronglySorted_zget (R : A -> A -> Prop) l :
  StronglySorted R l <->
  (forall i j x y, i < j -> zget l i = Some x -> zget l j = Some y -> R x y).
Proof.
  induction l as [|z l IH]; split.
  - intros _ i j x y _ Hx. apply zget_range in Hx. rewrite zlen_nil in Hx. lia.
  - constructor.
  - intros Hs i j x y Hij Hx Hy. inversion Hs as [|?? Hs' Hall]; subst.
    pose proof (zget_range _ _ _ Hx) as Hi. rewrite (zget_cons_pos z l j) in Hy by lia.
    destruct (decide (i = 0)) as [->|Hne].
    + rewrite zget_cons_0 in Hx. simplify_eq. rewrite Forall_forall in Hall.
      apply Hall. by eapply zget_elem.
    + rewrite (zget_cons_pos z l i) in Hx by lia.
      rewrite IH in Hs'. apply (Hs' (i - 1) (j - 1)); done || lia.
  - intros H. constructor.
    + apply IH. intros i j x y Hij Hx Hy.
      pose proof (zget_range _ _ _ Hx). pose proof (zget_range _ _ _ Hy).
      apply (H (i + 1) (j + 1)); [lia| |];
        by rewrite zget_cons_pos, Z.add_simpl_r by lia.
    + apply Forall_forall. intros x Hx. apply elem_zget in Hx as (i & Hi & Hx).
      apply (H 0 (i + 1)); [lia|done|]. by rewrite zget_cons_pos, Z.add_simpl_r by lia.
Qed.

Lemma StronglySorted_filter (R : A -> A -> Prop) (P : A -> Prop) `{!forall x, Decision (P x)} l :
  StronglySorted R l -> StronglySorted R (filter P l).
Proof.
  induction 1 as [|x l Hs IH Hall]; [constructor|]. rewrite filter_cons.
  destruct (decide (P x)); [|done]. constructor; [done|].
  apply Forall_forall. intros y Hy. apply list_elem_of_filter in Hy as [_ Hy].
  by rewrite Forall_forall in Hall; apply Hall.
Qed.

Lemma filter_all (P : A -> Prop) `{!forall x, Decision (P x)} l :
  (forall x, x ∈ l -> P x) -> filter P l = l.
Proof.
  induction l as [|x l IH]; intros Hl; [done|]. rewrite filter_cons_True by (apply Hl; constructor).
  f_equal. apply IH. intros y Hy. apply Hl. by constructor.
Qed.

Lemma filter_none (P : A -> Prop) `{!forall x, Decision (P x)} l :
  (forall x, x ∈ l -> ~ P x) -> filter P l = [].
Proof.
  induction l as [|x l IH]; intros Hl; [done|]. rewrite filter_cons_False by (apply Hl; constructor).
  apply IH. intros y Hy. apply Hl. by constructor.
Qed.

Lemma StronglySorted_app_iff (R : A -> A -> Prop) (a b : list A) :
  StronglySorted R (a ++ b) <->
  StronglySorted R a /\ StronglySorted R b /\ (forall x y, x ∈ a -> y ∈ b -> R x y).
Proof.
  induction a as [|z a IH]; cbn.
  - split; [|naive_solver]. intros H. split_and!; [constructor|done|]. by intros x y ?%elem_of_nil.
  - split.
    + intros H. inversion H as [|?? Hs Hall]; subst. apply IH in Hs as (Ha & Hb & Hab).
      rewrite Forall_app, !Forall_forall in Hall. destruct Hall as [H1 H2]. split_and!; [|done|].
      * constructor; [done|]. by apply Forall_forall.
      * intros x y [->|Hx]%elem_of_cons Hy; auto.
    + intros (Ha & Hb & Hab). inversion Ha as [|?? Hs Hall]; subst. constructor.
      * apply IH. split_and!; [done..|]. intros x y Hx Hy. apply Hab; [|done]. by constructor.
      * rewrite Forall_app. split; [done|]. apply Forall_forall. intros y Hy. apply Hab; [constructor|done].
Qed.

(** Moving the cell after a gap to its beginning, and the cell before a gap to
    its end. *)
Lemma zmove_down kept gap x todo : exists gap', zlen gap' = zlen gap /\
  zset (kept ++ gap ++ x :: todo) (zlen kept) x = Some ((kept ++ [x]) ++ gap' ++ todo).
Proof.
  destruct (gap ++ [x]) as [|g gap1] eqn:EG; [by destruct gap|].
  exists gap1. split.
  - apply (f_equal zlen) in EG. rewrite zlen_snoc, zlen_cons in EG. lia.
  - assert (gap ++ x :: todo = g :: gap1 ++ todo) as -> by (rewrite (cons_middle x), app_assoc, EG; done).
    rewrite zset_app_mid by done. by rewrite <- app_assoc.
Qed.

Lemma zmove_up a x gap r : exists gap', zlen gap' = zlen gap /\
  zset (a ++ x :: gap ++ r) (zlen a + zlen gap) x = Some (a ++ gap' ++ x :: r).
Proof.
  destruct (zsplit_snoc (x :: gap)) as (gap1 & g & EG).
  { rewrite zlen_cons. pose proof (zlen_nonneg gap). lia. }
  assert (zlen gap1 = zlen gap) as HG.
  { apply (f_equal zlen) in EG. rewrite zlen_snoc, zlen_cons in EG. lia. }
  exists gap1. split; [done|]. rewrite (app_comm_cons gap r x), EG, <- app_assoc. cbn [app]. rewrite app_assoc.
  rewrite zset_app_mid by (rewrite zlen_app; lia). by rewrite <- app_assoc.
Qed.

Lemma StronglySorted_impl (R S : A -> A -> Prop) l :
  (forall x y, R x y -> S x y) -> StronglySorted R l -> StronglySorted S l.
Proof.
  intros H. induction 1 as [|x l Hs IH Hall]; constructor; [done|].
  eapply Forall_impl; [done|]. auto.
Qed.
End Arrays.

Lemma zlen_fmap {A B} (f : A -> B) (l : list A) : zlen (f <$> l) = zlen l.
Proof. unfold zlen. by rewrite length_fmap. Qed.

(** ** Automation

    [zlia] decides goals about lengths and indices: it normalises the lengths
    of compound lists, adds that lengths are non-negative and calls [lia]. *)

Create HintDb zlen.
#[export] Hint Rewrite @zlen_app @zlen_cons @zlen_nil @zlen_zupd @zlen_snoc @zlen_fmap : zlen.

Tactic Notation "case_if" "as" ident(E) := match goal with |- context [if ?b then _ else _] => destruct b eqn:E end.
Ltac zlen_pos :=
  repeat match goal with
  | |- context [zlen ?m] =>
      lazymatch goal with
      | _ : 0 <= zlen m |- _ => fail
      | _ => pose proof (zlen_nonneg m)
      end
  | _ : context [zlen ?m] |- _ =>
      lazymatch goal with
      | _ : 0 <= zlen m |- _ => fail
      | _ => pose proof (zlen_nonneg m)
      end
  end.

Ltac zlia := autorewrite with zlen in *; zlen_pos; lia.

(** Removes the wrap-arounds that [lia] can show to be no-ops, inner ones first. *)
Ltac u64s :=
  repeat match goal with
  | |- context [u64 ?x] =>
      lazymatch x with
      | context [u64 _] => fail
      | _ => rewrite (u64_small x) by (unfold UINT64_MAX, UINT32_MAX in *; lia)
      end
  end.

Ltac u32s :=
  repeat match goal with
  | |- context [u32 ?x] =>
      lazymatch x with
      | context [u32 _] => fail
      | _ => rewrite (u32_small x) by (unfold UINT64_MAX, UINT32_MAX in *; lia)
      end
  end.

(** Case analysis on the boolean comparisons of [Z] in the goal or context. *)
Ltac zcase :=
  match goal with
  | |- context [?a <? ?b] => destruct (Z.ltb_spec a b)
  | |- context [?a <=? ?b] => destruct (Z.leb_spec a b)
  | |- context [?a =? ?b] => destruct (Z.eqb_spec a b)
  | _ : context [?a <? ?b] |- _ => destruct (Z.ltb_spec a b)
  | _ : context [?a <=? ?b] |- _ => destruct (Z.leb_spec a b)
  | _ : context [?a =? ?b] |- _ => destruct (Z.eqb_spec a b)
  end.
