(* ===== verification/Search.v ===== *)
(** * Binary search ([src/src/sort.h], macro [SEARCH_IMPL])

    The macro is instantiated for page-number lists, dirty-page lists and
    lists of transaction ids. [CMP x item] says that [x] is ordered before the
    searched item; the array must be partitioned: the cells ordered before the
    item precede the others. Both variants of the macro are modelled, the one
    for processors with a conditional move ([MDBX_HAVE_CMOV]) and the one with
    a conditional jump. *)

From stdpp Require Import base list numbers option.
From Stdlib Require Import ZArith Lia.
From S2P Require Import Prelude.

Section Search.
Context {A B : Type} (CMP : A -> B -> bool).
Implicit Types (m : list A) (item : B).

(** The [do ... while (length > 2)] loop of the branch-free variant. It runs
    at least once, also when [length] is 0: the cell after the end is read
    then, but its value does not matter. *)
Fixpoint search_cmov_loop (fuel : nat) m (it length : Z) item : option (Z * Z) :=
match fuel with
| O => None
| S fuel =>
    let middle := it + Z.shiftr length 1 in
    let length := Z.shiftr (length + 1) 1 in
    v ← zget m middle;
    let it := if CMP v item then middle else it in
    if 2 <? length then search_cmov_loop fuel m it length item
    else Some (it, length)
end.

(** The [while (length > 2)] loop of the variant with a conditional jump. *)
Fixpoint search_jump_loop (fuel : nat) m (it length : Z) item : option (Z * Z) :=
match fuel with
| O => None
| S fuel =>
    if 2 <? length then
      let middle := it + Z.shiftr length 1 in
      let length := Z.shiftr (length + 1) 1 in
      v ← zget m middle;
      if CMP v item then search_jump_loop fuel m (middle + 1) (length - 1) item
      else search_jump_loop fuel m it length item
    else Some (it, length)
end.

(** [it += cond && CMP( *it, item)]: the cell is read only when [cond]. *)
Definition search_step (cond : bool) m (it : Z) item : option Z :=
if cond then v ← zget m it; Some (if CMP v item then it + 1 else it)
else Some it.

(** The search among [length] cells starting at [it]. *)
Definition search_impl (have_cmov : bool) m (it length : Z) item : option Z :=
let fuel := S (Z.to_nat length) in
'(it, length) ← (if have_cmov then search_cmov_loop fuel m it length item
                 else search_jump_loop fuel m it length item);
it ← search_step (1 <? length) m it item;
search_step (0 <? length) m it item.

(** ** Specification *)

(** [lower_bound m lo hi item r]: [r] is the first cell of [lo, hi) that is
    not ordered before [item], or [hi] if there is none. *)
Definition lower_bound m (lo hi : Z) item (r : Z) : Prop :=
lo <= r <= hi /\
(forall j v, lo <= j < r -> zget m j = Some v -> CMP v item = true) /\
(forall j v, r <= j < hi -> zget m j = Some v -> CMP v item = false).

(** The cells of [lo, hi) ordered before [item] precede the others. *)
Definition partitioned m (lo hi : Z) item : Prop :=
forall i j x y, lo <= i < j -> j < hi ->
  zget m i = Some x -> zget m j = Some y ->
  CMP y item = true -> CMP x item = true.

Lemma lower_bound_unique m lo hi item r r' :
  0 <= lo -> hi <= zlen m ->
  lower_bound m lo hi item r -> lower_bound m lo hi item r' -> r = r'.
Proof.
  intros Hlo Hhi (Hr & Ht & Hf) (Hr' & Ht' & Hf').
  destruct (Z.lt_trichotomy r r') as [Hlt|[?|Hlt]]; [|done|].
  - destruct (zget_in m r) as [v Hv]; [lia|].
    specialize (Hf r v ltac:(lia) Hv). specialize (Ht' r v ltac:(lia) Hv). congruence.
  - destruct (zget_in m r') as [v Hv]; [lia|].
    specialize (Hf' r' v ltac:(lia) Hv). specialize (Ht r' v ltac:(lia) Hv). congruence.
Qed.

(** The loop invariant: everything before the window is ordered before the
    item, nothing after it is. *)
Definition window m lo hi item it len : Prop :=
  lo <= it /\ 0 <= len /\ it + len <= hi /\
  (forall j v, lo <= j < it -> zget m j = Some v -> CMP v item = true) /\
  (forall j v, it + len <= j < hi -> zget m j = Some v -> CMP v item = false).

Lemma half_spec n : 0 <= n ->
  Z.shiftr n 1 + Z.shiftr (n + 1) 1 = n /\ 0 <= Z.shiftr n 1 <= Z.shiftr (n + 1) 1 /\ Z.shiftr (n + 1) 1 <= Z.shiftr n 1 + 1.
Proof.
  intros H. rewrite !Z.shiftr_div_pow2 by lia. change (2 ^ 1) with 2.
  pose proof (Z.div_mod n 2). pose proof (Z.mod_pos_bound n 2).
  pose proof (Z.div_mod (n + 1) 2). pose proof (Z.mod_pos_bound (n + 1) 2). lia.
Qed.

Section Loops.
Context (m : list A) (lo hi : Z) (item : B).
Context (Hlo : 0 <= lo) (Hhi : hi <= zlen m) (Hpart : partitioned m lo hi item).

Lemma window_right it len k v :
  window m lo hi item it len -> 0 <= k < len ->
  zget m (it + k) = Some v -> CMP v item = true ->
  forall e, 0 <= e <= 1 -> window m lo hi item (it + k + e) (len - k - e).
Proof using Hlo Hpart.
  intros (H1 & H2 & H3 & Ht & Hf) Hk Hv Hc e He. split_and!; [lia..| |].
  - intros j w Hj Hw. destruct (Z.eq_dec j (it + k)) as [->|Hne]; [congruence|].
    destruct (decide (j < it)); [by apply (Ht j); [lia|]|].
    eapply (Hpart j (it + k)); eauto; lia.
  - intros j w Hj Hw. eapply Hf; [|done]. lia.
Qed.

Lemma window_left it len k v len' :
  window m lo hi item it len -> 0 <= k < len ->
  zget m (it + k) = Some v -> CMP v item = false ->
  k <= len' <= len -> window m lo hi item it len'.
Proof using Hlo Hpart.
  intros (H1 & H2 & H3 & Ht & Hf) Hk Hv Hc Hlen'. split_and!; [lia..|done|].
  intros j w Hj Hw. destruct (Z.eq_dec j (it + k)) as [->|Hne]; [congruence|].
  destruct (decide (it + len <= j)); [eapply Hf; [|done]; lia|].
  destruct (CMP w item) eqn:Hcw; [|done]. exfalso.
  rewrite (Hpart (it + k) j v w) in Hc; try done; lia.
Qed.

Lemma search_cmov_loop_spec fuel it len :
  window m lo hi item it len -> (Z.to_nat len < fuel)%nat ->
  it < zlen m ->
  exists it' len', search_cmov_loop fuel m it len item = Some (it', len') /\
    window m lo hi item it' len' /\ 0 <= len' <= 2.
Proof using Hlo Hhi Hpart.
  revert it len. induction fuel as [|fuel IH]; intros it len Hw Hfuel Hit; [lia|].
  cbn [search_cmov_loop]. pose proof Hw as (H1 & H2 & H3 & Ht & Hf).
  destruct (half_spec len H2) as (Hsum & Hhalf & Hhalf1).
  destruct (zget_in m (it + Z.shiftr len 1)) as [v Hv].
  { destruct (Z.eq_dec len 0) as [->|]; [cbn; lia|]. lia. }
  rewrite Hv. cbn [mbind option_bind].
  set (it' := if CMP v item then _ else _).
  assert (window m lo hi item it' (Z.shiftr (len + 1) 1)) as Hw'.
  { subst it'. destruct (Z.eq_dec len 0) as [->|Hlen0].
    { cbn. rewrite Z.add_0_r. by destruct (CMP v item). }
    destruct (CMP v item) eqn:Hc.
    - pose proof (window_right it len (Z.shiftr len 1) v Hw ltac:(lia) Hv Hc 0 ltac:(lia)) as HR.
      rewrite Z.add_0_r in HR. by replace (Z.shiftr (len + 1) 1) with (len - Z.shiftr len 1 - 0) by lia.
    - eapply window_left; eauto; lia. }
  destruct (Z.ltb_spec 2 (Z.shiftr (len + 1) 1)).
  - apply IH; [done|lia|]. destruct Hw'; lia.
  - eexists _, _. split; [done|]. split; [done|]. lia.
Qed.

Lemma search_jump_loop_spec fuel it len :
  window m lo hi item it len -> (Z.to_nat len < fuel)%nat ->
  exists it' len', search_jump_loop fuel m it len item = Some (it', len') /\
    window m lo hi item it' len' /\ 0 <= len' <= 2.
Proof using Hlo Hhi Hpart.
  revert it len. induction fuel as [|fuel IH]; intros it len Hw Hfuel; [lia|].
  cbn [search_jump_loop]. pose proof Hw as (H1 & H2 & H3 & Ht & Hf).
  destruct (Z.ltb_spec 2 len) as [Hgt|Hle].
  2:{ eexists _, _. split; [done|]. split; [done|]. lia. }
  destruct (half_spec len H2) as (Hsum & Hhalf & Hhalf1).
  destruct (zget_in m (it + Z.shiftr len 1)) as [v Hv]; [lia|].
  rewrite Hv. cbn [mbind option_bind].
  destruct (CMP v item) eqn:Hc.
  - apply IH; [|lia].
    pose proof (window_right it len (Z.shiftr len 1) v Hw ltac:(lia) Hv Hc 1 ltac:(lia)) as HR.
    by replace (Z.shiftr (len + 1) 1 - 1) with (len - Z.shiftr len 1 - 1) by lia.
  - apply IH; [|lia]. eapply window_left; eauto; lia.
Qed.

(** One of the two final steps. *)
Lemma search_step_spec it len :
  window m lo hi item it len -> 0 < len ->
  exists it', search_step true m it item = Some it' /\
    window m lo hi item it' (len - 1).
Proof using Hlo Hhi Hpart.
  intros Hw Hn0. pose proof Hw as (H1 & H2 & H3 & Ht & Hf). unfold search_step.
  destruct (zget_in m it) as [v Hv]; [lia|]. rewrite Hv. cbn [mbind option_bind].
  eexists. split; [done|]. rewrite <- (Z.add_0_r it) in Hv.
  destruct (CMP v item) eqn:Hc.
  - pose proof (window_right it len 0 v Hw ltac:(lia) Hv Hc 1 ltac:(lia)) as HR.
    by rewrite Z.add_0_r, Z.sub_0_r in HR.
  - eapply window_left; eauto; lia.
Qed.
End Loops.

(** The search returns the lower bound of the item; the only cell it may
    read outside of the window is the one at its start, when the window is
    empty and the branch-free variant is used. *)
Lemma search_impl_spec cm m lo len item :
  0 <= lo -> 0 <= len -> lo + len <= zlen m ->
  (cm = true -> lo < zlen m) ->
  partitioned m lo (lo + len) item ->
  exists r, search_impl cm m lo len item = Some r /\
    lower_bound m lo (lo + len) item r.
Proof.
  intros Hlo Hlen Hhi Hcm Hpart. unfold search_impl.
  assert (window m lo (lo + len) item lo len) as Hw.
  { split_and!; try lia; intros; lia. }
  assert (exists it' len',
    (if cm then search_cmov_loop (S (Z.to_nat len)) m lo len item
     else search_jump_loop (S (Z.to_nat len)) m lo len item) = Some (it', len') /\
    window m lo (lo + len) item it' len' /\ 0 <= len' <= 2) as (it1 & len1 & -> & Hw1 & Hl1).
  { destruct cm.
    - eapply search_cmov_loop_spec; eauto.
    - eapply search_jump_loop_spec; eauto. }
  cbn [mbind option_bind].
  pose proof (search_step_spec m lo (lo + len) item Hlo Hhi Hpart) as Hstep.
  assert (exists it3, (it ← search_step (1 <? len1) m it1 item;
                       search_step (0 <? len1) m it item) = Some it3 /\
    window m lo (lo + len) item it3 0) as (it3 & -> & Hw3).
  { assert (len1 = 0 \/ len1 = 1 \/ len1 = 2) as [->|[->| ->]] by lia; cbn -[search_step].
    - eauto.
    - by apply (Hstep it1 1).
    - destruct (Hstep it1 2 Hw1) as (it2 & -> & Hw2); [lia|]. by apply (Hstep it2 1). }
  exists it3. split; [done|]. destruct Hw3 as (?&?&?&?&Hf3).
  split_and!; [lia..|done|]. intros j v Hj. apply Hf3. lia.
Qed.
End Search.

(** ** Claims *)

(** In an array whose cells ordered before the item come first, both
    variants of the binary search read only cells of the array (the
    branch-free one may read the cell at the begin of an empty range), end,
    and return the lower bound: the first cell not ordered before the item. *)
Theorem search_impl_lower_bound {A B} (CMP : A -> B -> bool) cm m lo len item :
  0 <= lo -> 0 <= len -> lo + len <= zlen m -> (cm = true -> lo < zlen m) ->
  partitioned CMP m lo (lo + len) item ->
  exists r, search_impl CMP cm m lo len item = Some r /\ lower_bound CMP m lo (lo + len) item r.
Proof. apply search_impl_spec. Qed.

Lemma search_impl_lower_bound_witness :
  exists r, search_impl Z.ltb true [1; 3; 5; 7] 0 4 4 = Some r /\ lower_bound Z.ltb [1; 3; 5; 7] 0 4 4 r.
Proof.
  apply (search_impl_lower_bound Z.ltb true [1; 3; 5; 7] 0 4 4); [lia|lia|by vm_compute|done|].
  intros i j x y Hi Hj Hx Hy.
  assert (i = 0 \/ i = 1 \/ i = 2) as [->|[->| ->]] by lia; injection Hx as <-;
    assert (j = 1 \/ j = 2 \/ j = 3) as [->|[->| ->]] by lia; injection Hy as <-; cbn; try done; lia.
Defined.
