(* ===== verification/SortNet.v ===== *)
(** * Sorting networks ([src/src/sort.h], [SORT_CMP_SWAP] ... [SORT_INNER])

    Chunks of at most eight cells are sorted by networks of compare-and-swap
    steps. The networks are proved by the zero-one principle: a network that
    sorts every list of booleans of its width sorts every list of its width,
    for every strict weak order. *)

From stdpp Require Import base list numbers option sorting.
From Stdlib Require Import ZArith Lia.
From S2P Require Import Prelude.

(** What the sorting code needs from its comparator. *)
Class StrictWeak {A} (CMP : A -> A -> bool) : Prop := {
  sw_irrefl x : CMP x x = false;
  sw_trans x y z : CMP x y = true -> CMP y z = true -> CMP x z = true;
  sw_neg_trans x y z : CMP x y = false -> CMP y z = false -> CMP x z = false;
}.

Lemma sw_asym {A} (CMP : A -> A -> bool) `{!StrictWeak CMP} x y :
  CMP x y = true -> CMP y x = false.
Proof.
  intros H. destruct (CMP y x) eqn:E; [|done].
  pose proof (sw_trans _ _ _ H E) as F. by rewrite sw_irrefl in F.
Qed.

#[export] Instance Zlt_strict_weak : StrictWeak Z.ltb.
Proof. split; intros; lia. Qed.

#[export] Instance Zgt_strict_weak : StrictWeak (fun x y => y <? x).
Proof. split; intros; lia. Qed.

Lemma strict_weak_key {A} (key : A -> Z) : StrictWeak (fun x y => key x <? key y).
Proof. split; intros; lia. Qed.

Definition bool_cmp (x y : bool) : bool := negb x && y.

#[export] Instance bool_cmp_strict_weak : StrictWeak bool_cmp.
Proof. split; intros; repeat match goal with b : bool |- _ => destruct b end; done. Qed.

(** Sorted up to the ties of [CMP]: no cell is ordered before an earlier one. *)
Definition sorted_by {A} (CMP : A -> A -> bool) : list A -> Prop :=
  StronglySorted (fun x y => CMP y x = false).

Section Networks.
Context {A : Type} (CMP : A -> A -> bool).
Implicit Types (m l seg pre post : list A).

(** [SORT_CMP_SWAP]: the variant with conditional moves stores both cells,
    the other one exchanges them only when they are not ordered. *)
Definition sort_cmp_swap (have_cmov : bool) m (a b : Z) : option (list A) :=
  swap_tmp ← zget m a;
  y ← zget m b;
  let swap_cmp := CMP swap_tmp y in
  if have_cmov then
    m ← zset m a (if swap_cmp then swap_tmp else y);
    y ← zget m b;
    zset m b (if swap_cmp then y else swap_tmp)
  else if negb swap_cmp then
    m ← zset m a y;
    zset m b swap_tmp
  else Some m.

(** A sequence of compare-and-swap steps on the cells [begin[i]], [begin[j]]. *)
Fixpoint sort_network (have_cmov : bool) (ps : list (Z * Z)) m (begin : Z) : option (list A) :=
  match ps with
  | [] => Some m
  | (i, j) :: ps =>
      m ← sort_cmp_swap have_cmov m (begin + i) (begin + j);
      sort_network have_cmov ps m begin
  end.
End Networks.

Definition SORT_NETWORK_2 : list (Z * Z) := [(0,1)].

Definition SORT_NETWORK_3 : list (Z * Z) := [(1,2); (0,2); (0,1)].

Definition SORT_NETWORK_4 : list (Z * Z) := [(0,1); (2,3); (0,2); (1,3); (1,2)].

Definition SORT_NETWORK_5 : list (Z * Z) :=
  [(0,4); (1,3); (0,2); (2,4); (0,1); (2,3); (1,4); (1,2); (3,4)].

Definition SORT_NETWORK_6 : list (Z * Z) :=
  [(1,2); (4,5); (0,2); (3,5); (0,1); (3,4); (2,5); (0,3); (1,4); (2,4); (1,3); (2,3)].

Definition SORT_NETWORK_7 : list (Z * Z) :=
  [(0,4); (1,5); (2,6); (0,2); (1,3); (4,6); (2,4); (3,5); (0,1); (2,3); (4,5);
   (1,4); (3,6); (1,2); (3,4); (5,6)].

Definition SORT_NETWORK_8 : list (Z * Z) :=
  [(0,4); (1,5); (2,6); (3,7); (0,2); (1,3); (4,6); (5,7); (2,4); (3,5); (0,1);
   (6,7); (2,3); (4,5); (1,4); (3,6); (1,2); (3,4); (5,6)].

(** [SORT_INNER]: the [switch] on the number of cells; its [default] is
    unreachable code. *)
Definition sort_inner {A} (CMP : A -> A -> bool) (have_cmov : bool)
    (m : list A) (begin len : Z) : option (list A) :=
  let net ps := sort_network CMP have_cmov ps m begin in
  match len with
  | 0 | 1 => Some m
  | 2 => net SORT_NETWORK_2
  | 3 => net SORT_NETWORK_3
  | 4 => net SORT_NETWORK_4
  | 5 => net SORT_NETWORK_5
  | 6 => net SORT_NETWORK_6
  | 7 => net SORT_NETWORK_7
  | 8 => net SORT_NETWORK_8
  | _ => None
  end.

(** ** Segments of an array *)

Section Segments.
Context {A : Type}.
Implicit Types (pre seg post : list A).

Lemma zget_seg pre seg post i : 0 <= i < zlen seg ->
  zget (pre ++ seg ++ post) (zlen pre + i) = zget seg i.
Proof.
  intros H. rewrite zget_app_r by lia. rewrite zget_app_l by zlia. f_equal. lia.
Qed.

Lemma zupd_seg pre seg post i v : 0 <= i < zlen seg ->
  zupd (pre ++ seg ++ post) (zlen pre + i) v = pre ++ zupd seg i v ++ post.
Proof.
  intros H. destruct (zsplit_mid seg i H) as (l & x & r & -> & Hl).
  rewrite zupd_app_mid by done. rewrite <- !app_assoc. cbn.
  rewrite (app_assoc pre). rewrite zupd_app_mid by zlia. by rewrite <- app_assoc.
Qed.

Lemma zsplit_two (l : list A) i j x y : i < j ->
  zget l i = Some x -> zget l j = Some y ->
  exists a b c, l = a ++ x :: b ++ y :: c /\ zlen a = i /\ zlen a + 1 + zlen b = j.
Proof.
  intros Hij Hx Hy. pose proof (zget_range _ _ _ Hx) as Hi. pose proof (zget_range _ _ _ Hy).
  destruct (zsplit_mid l i Hi) as (a & x' & r & -> & Ha).
  rewrite zget_app_mid in Hx by done. simplify_eq.
  rewrite zget_app_r, zget_cons_pos in Hy by lia.
  destruct (zsplit_mid r (j - zlen a - 1)) as (b & y' & c & -> & Hb); [zlia|].
  rewrite zget_app_mid in Hy by done. simplify_eq.
  exists a, b, c. split_and!; done || lia.
Qed.

Lemma zupd_swap_split a b c (x y : A) i j :
  zlen a = i -> zlen a + 1 + zlen b = j ->
  zupd (zupd (a ++ x :: b ++ y :: c) i y) j x = a ++ y :: b ++ x :: c /\
  zupd (zupd (a ++ x :: b ++ y :: c) j x) i y = a ++ y :: b ++ x :: c.
Proof.
  intros <- <-. rewrite zupd_app_mid by done.
  assert (forall u w, a ++ u :: b ++ w :: c = (a ++ u :: b) ++ w :: c) as E.
  { intros. by rewrite <- app_assoc. }
  rewrite !E. rewrite !zupd_app_mid by zlia. rewrite <- !E. by rewrite zupd_app_mid.
Qed.

Lemma zupd_swap_perm (l : list A) i j x y : i <> j ->
  zget l i = Some x -> zget l j = Some y -> zupd (zupd l i y) j x ≡ₚ l.
Proof.
  intros Hne Hx Hy.
  assert (forall a b c (u w : A), a ++ u :: b ++ w :: c ≡ₚ a ++ w :: b ++ u :: c) as P.
  { intros. apply Permutation_app_head. rewrite <- !Permutation_middle. constructor. }
  destruct (decide (i < j)).
  - destruct (zsplit_two l i j x y) as (a & b & c & -> & Ha & Hb); [done..|].
    destruct (zupd_swap_split a b c x y i j) as [-> _]; [done..|]. apply P.
  - destruct (zsplit_two l j i y x) as (a & b & c & -> & Ha & Hb); [lia|done..|].
    destruct (zupd_swap_split a b c y x j i) as [_ ->]; [done..|]. apply P.
Qed.
End Segments.

(** ** Compare-and-swap *)

Section Swap.
Context {A : Type} (CMP : A -> A -> bool).
Implicit Types (m l seg pre post : list A).

(** The effect of a compare-and-swap step on the cells. *)
Definition cswap l (i j : Z) : list A :=
  match zget l i, zget l j with
  | Some x, Some y => if CMP x y then l else zupd (zupd l i y) j x
  | _, _ => l
  end.

Fixpoint cnet (ps : list (Z * Z)) l : list A :=
  match ps with
  | [] => l
  | (i, j) :: ps => cnet ps (cswap l i j)
  end.

Definition net_wf (n : Z) (ps : list (Z * Z)) : bool :=
  forallb (fun '(i, j) => (0 <=? i) && (i <? n) && (0 <=? j) && (j <? n) && negb (i =? j)) ps.

Lemma zlen_cswap l i j : zlen (cswap l i j) = zlen l.
Proof.
  unfold cswap. destruct (zget l i), (zget l j); try done.
  destruct (CMP _ _); [done|]. by autorewrite with zlen.
Qed.

Lemma cswap_perm l i j : i <> j -> cswap l i j ≡ₚ l.
Proof.
  intros Hne. unfold cswap. destruct (zget l i) eqn:Hx, (zget l j) eqn:Hy; try done.
  destruct (CMP _ _); [done|]. by apply zupd_swap_perm.
Qed.

(** Both variants of [SORT_CMP_SWAP] perform the step, inside of the array. *)
Lemma sort_cmp_swap_spec cm m a b : a <> b ->
  0 <= a < zlen m -> 0 <= b < zlen m -> sort_cmp_swap CMP cm m a b = Some (cswap m a b).
Proof.
  intros Hne Ha Hb. unfold sort_cmp_swap, cswap.
  destruct (zget_in m a Ha) as [x Hx], (zget_in m b Hb) as [y Hy].
  rewrite Hx, Hy. cbn [mbind option_bind].
  destruct cm, (CMP x y); cbn [negb];
    rewrite ?(zset_ok m) by done; cbn [mbind option_bind];
    rewrite ?zget_zupd_ne, ?Hy by lia; cbn [mbind option_bind];
    rewrite ?zset_ok by zlia; try done.
  f_equal. rewrite (zupd_id m a x) by done. by apply zupd_id.
Qed.

Lemma cswap_seg pre seg post i j :
  0 <= i < zlen seg -> 0 <= j < zlen seg ->
  cswap (pre ++ seg ++ post) (zlen pre + i) (zlen pre + j) = pre ++ cswap seg i j ++ post.
Proof.
  intros Hi Hj. unfold cswap. rewrite !zget_seg by done.
  destruct (zget_in seg i Hi) as [x ->], (zget_in seg j Hj) as [y ->].
  destruct (CMP x y); [done|]. by rewrite !zupd_seg by zlia.
Qed.

(** A network of width [n] applied to a segment of [n] cells changes only
    this segment. *)
Lemma sort_network_spec cm ps pre seg post begin :
  begin = zlen pre -> net_wf (zlen seg) ps = true ->
  sort_network CMP cm ps (pre ++ seg ++ post) begin = Some (pre ++ cnet ps seg ++ post).
Proof.
  intros ->. revert seg. induction ps as [|[i j] ps IH]; intros seg Hwf; [done|].
  cbn [net_wf forallb] in Hwf. apply andb_true_iff in Hwf as [Hij Hwf].
  assert (0 <= i < zlen seg /\ 0 <= j < zlen seg /\ i <> j) as (Hi & Hj & Hne) by lia.
  cbn [sort_network cnet].
  rewrite sort_cmp_swap_spec by zlia. cbn [mbind option_bind].
  rewrite cswap_seg by done. apply IH. by rewrite zlen_cswap.
Qed.

Lemma cnet_perm n ps l : net_wf n ps = true -> cnet ps l ≡ₚ l.
Proof.
  revert l. induction ps as [|[i j] ps IH]; intros l Hwf; [done|].
  cbn [net_wf forallb] in Hwf. apply andb_true_iff in Hwf as [Hij Hwf].
  cbn [cnet]. rewrite IH by done. apply cswap_perm. lia.
Qed.
End Swap.

(** ** The zero-one principle *)

Section ZeroOne.
Context {A : Type} (CMP : A -> A -> bool) `{!StrictWeak CMP}.

(** Monotone maps to the booleans commute with networks. *)
Definition monotone (f : A -> bool) : Prop := forall x y, CMP y x = false -> f x = true -> f y = true.

Lemma zget_fmap {B C} (f : B -> C) (l : list B) i : zget (f <$> l) i = f <$> zget l i.
Proof. unfold zget. destruct (0 <=? i); [|done]. by rewrite list_lookup_fmap. Qed.

Lemma zupd_fmap {B C} (f : B -> C) (l : list B) i v : f <$> zupd l i v = zupd (f <$> l) i (f v).
Proof. unfold zupd. apply list_fmap_insert. Qed.

Lemma cswap_fmap f l i j : monotone f ->
  f <$> cswap CMP l i j = cswap bool_cmp (f <$> l) i j.
Proof.
  intros Hf. unfold cswap. rewrite !zget_fmap.
  destruct (zget l i) as [x|] eqn:Hx, (zget l j) as [y|] eqn:Hy; cbn; try done.
  destruct (CMP x y) eqn:Hc.
  - apply sw_asym in Hc; [|done]. unfold bool_cmp.
    destruct (f x) eqn:Fx; cbn; [|destruct (f y) eqn:Fy; cbn; [done|]].
    + pose proof (Hf x y Hc Fx) as Fy. rewrite Fy.
      rewrite (zupd_id _ i) by (rewrite zget_fmap, Hx; cbn; congruence).
      rewrite zupd_id; [done|]. rewrite zget_fmap, Hy. cbn. congruence.
    + rewrite (zupd_id _ i) by (rewrite zget_fmap, Hx; cbn; congruence).
      rewrite zupd_id; [done|]. rewrite zget_fmap, Hy. cbn. congruence.
  - unfold bool_cmp. rewrite !zupd_fmap.
    destruct (f x) eqn:Fx, (f y) eqn:Fy; cbn; try done.
    pose proof (Hf y x Hc Fy). congruence.
Qed.

Lemma cnet_fmap f ps l : monotone f -> f <$> cnet CMP ps l = cnet bool_cmp ps (f <$> l).
Proof.
  intros Hf. revert l. induction ps as [|[i j] ps IH]; intros l; [done|].
  cbn [cnet]. by rewrite IH, cswap_fmap.
Qed.

Lemma threshold_monotone t : monotone (fun x => negb (CMP x t)).
Proof.
  intros x y Hyx Hx. apply negb_true_iff in Hx. apply negb_true_iff.
  by eapply sw_neg_trans.
Qed.
End ZeroOne.

Fixpoint all_bools (n : nat) : list (list bool) :=
  match n with
  | O => [[]]
  | S n => let r := all_bools n in map (cons false) r ++ map (cons true) r
  end.

Fixpoint bool_sorted (l : list bool) : bool :=
  match l with
  | [] => true
  | b :: l => forallb (fun c => negb b || c) l && bool_sorted l
  end.

Lemma all_bools_complete l : l ∈ all_bools (length l).
Proof.
  induction l as [|b l IH]; [by left|]. cbn [all_bools length].
  apply elem_of_app. destruct b; [right|left]; apply list_elem_of_fmap; eauto.
Qed.

Definition net_sorts_bools (n : nat) (ps : list (Z * Z)) : bool :=
  forallb (fun l => bool_sorted (cnet bool_cmp ps l)) (all_bools n).

Lemma bool_sorted_spec l : bool_sorted l = true ->
  StronglySorted (fun x y => x = true -> y = true) l.
Proof.
  induction l as [|b l IH]; cbn [bool_sorted]; [constructor|].
  intros [Hb Hl]%andb_true_iff. constructor; [by apply IH|].
  apply Forall_forall. intros c Hc ->. rewrite forallb_forall in Hb.
  apply list_elem_of_In in Hc. by apply Hb in Hc.
Qed.

Lemma zero_one {A} (CMP : A -> A -> bool) `{!StrictWeak CMP} ps l :
  net_sorts_bools (length l) ps = true -> sorted_by CMP (cnet CMP ps l).
Proof.
  intros Hb. unfold sorted_by.
  assert (forall t, StronglySorted (fun x y => CMP x t = false -> CMP y t = false) (cnet CMP ps l)) as H.
  { intros t. pose proof (threshold_monotone CMP t) as Hm.
    unfold net_sorts_bools in Hb. rewrite forallb_forall in Hb.
    specialize (Hb ((fun x => negb (CMP x t)) <$> l)).
    rewrite <- (cnet_fmap CMP) in Hb by done.
    assert (bool_sorted ((fun x => negb (CMP x t)) <$> cnet CMP ps l) = true) as Hs.
    { apply Hb. apply list_elem_of_In. rewrite <- (length_fmap (fun x => negb (CMP x t)) l).
      apply all_bools_complete. }
    apply bool_sorted_spec in Hs. revert Hs. generalize (cnet CMP ps l).
    induction l0 as [|x k IH]; cbn; intros Hs; constructor.
    - apply IH. by inversion Hs.
    - inversion Hs as [|?? _ Hall]; subst. apply Forall_forall. intros y Hy Hx.
      rewrite Forall_fmap, Forall_forall in Hall. specialize (Hall y Hy). cbn in Hall.
      destruct (CMP y t), (CMP x t); naive_solver. }
  revert H. generalize (cnet CMP ps l). clear Hb.
  induction l0 as [|x k IH]; intros H; constructor.
  - apply IH. intros t. specialize (H t). by inversion H.
  - specialize (H x). inversion H as [|?? _ Hall]; subst.
    apply Forall_forall. intros y Hy. rewrite Forall_forall in Hall. apply Hall; [done|].
    apply sw_irrefl.
Qed.

(** The table of the networks by width. *)
Definition network (n : nat) : list (Z * Z) :=
  match n with
  | 2 => SORT_NETWORK_2 | 3 => SORT_NETWORK_3 | 4 => SORT_NETWORK_4 | 5 => SORT_NETWORK_5
  | 6 => SORT_NETWORK_6 | 7 => SORT_NETWORK_7 | 8 => SORT_NETWORK_8
  | _ => []
  end%nat.

Lemma networks_ok : forallb (fun n => net_sorts_bools n (network n) && net_wf (Z.of_nat n) (network n))
  (seq 0 9) = true.
Proof. vm_compute. reflexivity. Qed.

(** [SORT_INNER] sorts a segment of at most eight cells in place. *)
Lemma sort_inner_spec {A} (CMP : A -> A -> bool) `{!StrictWeak CMP} cm pre seg post :
  zlen seg <= 8 ->
  exists seg', sort_inner CMP cm (pre ++ seg ++ post) (zlen pre) (zlen seg) =
      Some (pre ++ seg' ++ post) /\
    seg' ≡ₚ seg /\ sorted_by CMP seg'.
Proof.
  intros Hlen. pose proof networks_ok as Hok. rewrite forallb_forall in Hok.
  specialize (Hok (length seg)). rewrite <- list_elem_of_In, elem_of_seq in Hok.
  unfold zlen in Hlen. apply andb_true_iff in Hok as [Hb Hwf]; [|lia].
  exists (cnet CMP (network (length seg)) seg).
  split; [|split; [by eapply cnet_perm | by apply zero_one]].
  assert (sort_inner CMP cm (pre ++ seg ++ post) (zlen pre) (zlen seg) =
    sort_network CMP cm (network (length seg)) (pre ++ seg ++ post) (zlen pre)) as ->.
  { unfold sort_inner, zlen.
    do 9 (destruct seg as [|? seg]; [done|]). cbn in Hlen. lia. }
  by apply sort_network_spec.
Qed.
