(* ===== verification/QuickSort.v ===== *)
(** * Quicksort with an explicit stack ([src/src/sort.h], macro [SORT_IMPL])

    The macro sorts an array in place: partitions of more than eight cells are
    split around a median-of-three pivot, the larger part is pushed on a stack
    of [sizeof(size_t) * CHAR_BIT] entries and the smaller one is processed
    next; small parts are sorted by the networks. All instances in the sources
    pass [false] for [EXPECT_LOW_CARDINALITY_OR_PRESORTED], so the code under
    this constant is not modelled. *)

From stdpp Require Import base list numbers option sorting.
From Stdlib Require Import ZArith Lia.
From S2P Require Import Prelude SortNet.

(** The number of entries of the stack, [sizeof(size_t) * CHAR_BIT]. *)
Definition sort_stack_size : Z := 64.

Section QuickSort.
Context {A : Type} (CMP : A -> A -> bool) (have_cmov : bool).
Implicit Types (m : list A).

(** [while (CMP( *left, *mid)) ++left;] *)
Fixpoint scan_left (fuel : nat) m (left mid : Z) : option Z :=
  match fuel with
  | O => None
  | S fuel =>
      x ← zget m left;
      p ← zget m mid;
      if CMP x p then scan_left fuel m (left + 1) mid else Some left
  end.

(** [while (CMP( *mid, *right)) --right;] *)
Fixpoint scan_right (fuel : nat) m (right mid : Z) : option Z :=
  match fuel with
  | O => None
  | S fuel =>
      p ← zget m mid;
      x ← zget m right;
      if CMP p x then scan_right fuel m (right - 1) mid else Some right
  end.

(** [SORT_SWAP]. *)
Definition sort_swap m (a b : Z) : option (list A) :=
  swap_tmp ← zget m a;
  y ← zget m b;
  m ← zset m a y;
  zset m b swap_tmp.

(** The [while (1)] loop that partitions; the pivot cell is followed when it
    is exchanged. Returns the array and the final [left] and [right]. *)
Fixpoint partition_loop (fuel : nat) m (left right mid : Z) : option (list A * Z * Z) :=
  match fuel with
  | O => None
  | S fuel =>
      left ← scan_left (S (length m)) m left mid;
      right ← scan_right (S (length m)) m right mid;
      if right <? left then Some (m, left, right)
      else
        m ← sort_swap m left right;
        let mid := if mid =? left then right else if mid =? right then left else mid in
        partition_loop fuel m (left + 1) (right - 1) mid
  end.

(** Median of three and partition of [lo, hi]. *)
Definition sort_partition m (lo hi : Z) : option (list A * Z * Z) :=
  let mid := lo + Z.shiftr (hi - lo) 1 in
  m ← sort_cmp_swap CMP have_cmov m lo mid;
  m ← sort_cmp_swap CMP have_cmov m mid hi;
  m ← sort_cmp_swap CMP have_cmov m lo mid;
  partition_loop (S (length m)) m (lo + 1) (hi - 1) mid.

(** [SORT_PUSH]: a push on the full stack would write after its end. *)
Definition sort_push (stack : list (Z * Z)) (low high : Z) : option (list (Z * Z)) :=
  if zlen stack <? sort_stack_size then Some ((low, high) :: stack) else None.

(** The main loop; [stack] is the content of the stack, top first. *)
Fixpoint sort_loop (fuel : nat) m (lo hi : Z) (stack : list (Z * Z)) : option (list A) :=
  match fuel with
  | O => None
  | S fuel =>
      let len := hi - lo in
      if len <? 8 then
        m ← sort_inner CMP have_cmov m lo (len + 1);
        match stack with
        | [] => Some m
        | (lo, hi) :: stack => sort_loop fuel m lo hi stack
        end
      else
        '(m, left_, right_) ← sort_partition m lo hi;
        if hi - left_ <? right_ - lo then
          stack ← sort_push stack lo right_;
          sort_loop fuel m left_ hi stack
        else
          stack ← sort_push stack left_ hi;
          sort_loop fuel m lo right_ stack
  end.

(** The function [NAME(begin, end)]; twice the number of cells bounds the
    number of iterations of the main loop. *)
Definition sort_impl m (begin end_ : Z) : option (list A) :=
  sort_loop (S (2 * Z.to_nat (end_ - begin))) m begin (end_ - 1) [].

(** ** Permutations of a segment *)

(** [m'] is a permutation of [m] that differs at most in the cells [lo .. hi]. *)
Definition seg_perm (lo hi : Z) (m m' : list A) : Prop :=
  m ≡ₚ m' /\ forall i, ~ (lo <= i <= hi) -> zget m' i = zget m i.

Lemma seg_perm_refl lo hi m : seg_perm lo hi m m.
Proof. done. Qed.

Lemma seg_perm_trans lo hi m1 m2 m3 :
  seg_perm lo hi m1 m2 -> seg_perm lo hi m2 m3 -> seg_perm lo hi m1 m3.
Proof.
  intros [P1 E1] [P2 E2]. split; [by rewrite P1|].
  intros i Hi. by rewrite E2, E1.
Qed.

Lemma seg_perm_widen lo hi lo' hi' m m' :
  seg_perm lo hi m m' -> lo' <= lo -> hi <= hi' -> seg_perm lo' hi' m m'.
Proof. intros [P E] ??. split; [done|]. intros i Hi. apply E. lia. Qed.

Lemma seg_perm_zlen lo hi m m' : seg_perm lo hi m m' -> zlen m' = zlen m.
Proof. intros [P _]. unfold zlen. by rewrite P. Qed.

(** The segments themselves are permutations of each other. *)
Lemma seg_perm_split lo hi m m' :
  seg_perm lo hi m m' -> 0 <= lo <= hi + 1 -> hi < zlen m ->
  exists pre seg seg' post, m = pre ++ seg ++ post /\ m' = pre ++ seg' ++ post /\
    zlen pre = lo /\ zlen seg = hi + 1 - lo /\ seg ≡ₚ seg'.
Proof.
  intros Hp Hlo Hhi. pose proof (seg_perm_zlen _ _ _ _ Hp) as Hlen. destruct Hp as [P E].
  destruct (zsplit m lo) as (pre & r & -> & Hpre); [lia|].
  destruct (zsplit r (hi + 1 - lo)) as (seg & post & -> & Hseg); [zlia|].
  destruct (zsplit m' lo) as (pre' & r' & -> & Hpre'); [zlia|].
  destruct (zsplit r' (hi + 1 - lo)) as (seg' & post' & -> & Hseg'); [zlia|].
  assert (pre' = pre) as ->.
  { apply zget_ext; [lia|]. intros i Hi. specialize (E i ltac:(lia)).
    by rewrite !zget_app_l in E by zlia. }
  assert (post' = post) as ->.
  { apply zget_ext; [zlia|]. intros i Hi. specialize (E (hi + 1 + i) ltac:(lia)).
    rewrite !zget_app_r in E by zlia.
    replace (hi + 1 + i - zlen pre - zlen seg') with i in E by lia.
    by replace (hi + 1 + i - zlen pre - zlen seg) with i in E by lia. }
  exists pre, seg, seg', post. split_and!; try done.
  apply Permutation_app_inv_l in P. by apply Permutation_app_inv_r in P.
Qed.

(** What holds of all cells of the segment still holds after it is permuted. *)
Lemma seg_perm_forall lo hi m m' (P : A -> Prop) :
  seg_perm lo hi m m' -> 0 <= lo <= hi + 1 -> hi < zlen m ->
  (forall i x, lo <= i <= hi -> zget m i = Some x -> P x) ->
  forall i x, lo <= i <= hi -> zget m' i = Some x -> P x.
Proof.
  intros Hp Hlo Hhi HP i x Hi Hx.
  destruct (seg_perm_split _ _ _ _ Hp Hlo Hhi) as (pre & seg & seg' & post & -> & -> & Hpre & Hseg & Pm).
  replace i with (zlen pre + (i - lo)) in Hx by lia.
  assert (zlen seg' = zlen seg) as Hl by (unfold zlen; by rewrite Pm).
  rewrite zget_seg in Hx by lia. apply zget_elem in Hx. rewrite <- Pm in Hx.
  apply elem_zget in Hx as (j & Hj & Hx). apply (HP (lo + j)); [lia|].
  rewrite <- Hpre. by rewrite zget_seg by lia.
Qed.

Lemma seg_perm_swap lo hi m a b x y : a <> b ->
  lo <= a <= hi -> lo <= b <= hi ->
  zget m a = Some x -> zget m b = Some y -> seg_perm lo hi m (zupd (zupd m a y) b x).
Proof.
  intros Hne Ha Hb Hx Hy. split; [by rewrite zupd_swap_perm|].
  apply zget_range in Hx, Hy.
  intros i Hi. by rewrite !zget_zupd_ne by lia.
Qed.

Lemma seg_perm_cswap lo hi m a b : a <> b ->
  lo <= a <= hi -> lo <= b <= hi -> seg_perm lo hi m (cswap CMP m a b).
Proof.
  intros Hne Ha Hb. unfold cswap. destruct (zget m a) eqn:Hx, (zget m b) eqn:Hy; try done.
  destruct (CMP _ _); [done|]. by apply seg_perm_swap.
Qed.

Lemma sort_swap_spec m a b x y :
  zget m a = Some x -> zget m b = Some y ->
  sort_swap m a b = Some (zupd (zupd m a y) b x).
Proof.
  intros Hx Hy. unfold sort_swap. rewrite Hx, Hy. cbn [mbind option_bind].
  apply zget_range in Hx, Hy. by rewrite zset_ok by done; cbn; rewrite zset_ok by zlia.
Qed.

(** ** Partition *)

Context `{!StrictWeak CMP}.

Notation le x y := (CMP y x = false).

Definition all_le m (lo hi : Z) (p : A) : Prop :=
  forall i x, lo <= i <= hi -> zget m i = Some x -> le x p.
Definition all_ge m (lo hi : Z) (p : A) : Prop :=
  forall i x, lo <= i <= hi -> zget m i = Some x -> le p x.

Lemma scan_left_spec fuel m left mid hi p q :
  0 <= left <= hi -> hi < zlen m -> (Z.to_nat (hi - left) < fuel)%nat ->
  zget m mid = Some p -> zget m hi = Some q -> le p q ->
  exists left' y, scan_left fuel m left mid = Some left' /\
    left <= left' <= hi /\ zget m left' = Some y /\ le p y /\ all_le m left (left' - 1) p.
Proof.
  revert left. induction fuel as [|fuel IH]; intros left Hl Hhi Hf Hmid Hq Hpq; [lia|].
  cbn [scan_left]. destruct (zget_in m left) as [x Hx]; [lia|].
  rewrite Hx, Hmid. cbn [mbind option_bind].
  destruct (CMP x p) eqn:Hc.
  - assert (left <> hi) by congruence.
    destruct (IH (left + 1)) as (l' & y & -> & Hl' & Hy & Hle & Hall); [done || lia..|].
    exists l', y. split_and!; try done; [lia..|].
    intros i z Hi Hz. destruct (Z.eq_dec i left) as [->|]; [|apply (Hall i z); [lia|done]].
    simplify_eq. by apply sw_asym.
  - exists left, x. split_and!; try done; [lia..|]. intros i z Hi. lia.
Qed.

Lemma scan_right_spec fuel m right mid lo p q :
  0 <= lo <= right -> right < zlen m -> (Z.to_nat (right - lo) < fuel)%nat ->
  zget m mid = Some p -> zget m lo = Some q -> le q p ->
  exists right' y, scan_right fuel m right mid = Some right' /\
    lo <= right' <= right /\ zget m right' = Some y /\ le y p /\ all_ge m (right' + 1) right p.
Proof.
  revert right. induction fuel as [|fuel IH]; intros right Hl Hhi Hf Hmid Hq Hpq; [lia|].
  cbn [scan_right]. destruct (zget_in m right) as [x Hx]; [lia|].
  rewrite Hx, Hmid. cbn [mbind option_bind].
  destruct (CMP p x) eqn:Hc.
  - assert (right <> lo) by congruence.
    destruct (IH (right - 1)) as (r' & y & -> & Hl' & Hy & Hle & Hall); [done || lia..|].
    exists r', y. split_and!; try done; [lia..|].
    intros i z Hi Hz. destruct (Z.eq_dec i right) as [->|]; [|apply (Hall i z); [lia|done]].
    simplify_eq. by apply sw_asym.
  - exists right, x. split_and!; try done; [lia..|]. intros i z Hi. lia.
Qed.

(** The invariant of the partitioning loop. *)
Definition part_inv (lo hi : Z) (p : A) m left right mid : Prop :=
  lo < left <= hi /\ lo <= right < hi /\ lo <= mid <= hi /\
  zget m mid = Some p /\ all_le m lo (left - 1) p /\ all_ge m (right + 1) hi p.

Lemma part_inv_swap lo hi p m left right mid x y :
  0 <= lo -> hi < zlen m ->
  part_inv lo hi p m left right mid -> left <= right ->
  zget m left = Some y -> le p y -> zget m right = Some x -> le x p ->
  part_inv lo hi p (zupd (zupd m left x) right y) (left + 1) (right - 1)
    (if mid =? left then right else if mid =? right then left else mid).
Proof.
  intros Hlo Hhi (Hl & Hr & Hm & Hp & Hle & Hge) Hlr Hy Hpy Hx Hxp.
  assert (forall i z, zget (zupd (zupd m left x) right y) i = Some z ->
    (i = right /\ z = y) \/ (i <> right /\ i = left /\ z = x) \/
    (i <> right /\ i <> left /\ zget m i = Some z)) as Hget.
  { intros i z. rewrite zget_zupd, zget_zupd by zlia.
    repeat zcase; naive_solver. }
  split; [lia|]. split; [lia|]. split; [repeat zcase; lia|]. split_and!.
  - repeat zcase; subst; repeat (rewrite zget_zupd by zlia); repeat zcase; congruence || lia.
  - intros i z Hi Hz. destruct (Hget i z Hz) as [[-> ->]|[(_ & -> & ->)|(_ & ? & Hz')]]; [|done|].
    + assert (right = left) as -> by lia. simplify_eq. done.
    + apply (Hle i); [lia|done].
  - intros i z Hi Hz. destruct (Hget i z Hz) as [[-> ->]|[(? & -> & ->)|(? & ? & Hz')]]; [done|lia|].
    apply (Hge i); [lia|done].
Qed.

(** What the partition of [lo, hi] establishes for its two parts. *)
Definition partitioned_at m lo hi left right p : Prop :=
  lo <= right < left /\ left <= hi /\ all_le m lo (left - 1) p /\ all_ge m (right + 1) hi p.

Lemma partition_loop_spec fuel m lo hi left right mid p :
  0 <= lo -> hi < zlen m -> part_inv lo hi p m left right mid ->
  (Z.to_nat (right - left + 1) < fuel)%nat ->
  exists m' left' right', partition_loop fuel m left right mid = Some (m', left', right') /\
    seg_perm lo hi m m' /\ partitioned_at m' lo hi left' right' p.
Proof.
  intros Hlo. revert m left right mid.
  induction fuel as [|fuel IH]; intros m left right mid Hhi Hinv Hf; [lia|].
  pose proof Hinv as (Hl & Hr & Hm & Hp & Hle & Hge). cbn [partition_loop].
  destruct (zget_in m hi) as [q Hq]; [lia|]. destruct (zget_in m lo) as [o Ho]; [lia|].
  destruct (scan_left_spec (S (length m)) m left mid hi p q) as (l' & y & -> & Hl' & Hy & Hpy & Hall);
    [lia|lia| |done|done|apply (Hge hi); [lia|done]|].
  { unfold zlen in Hhi. lia. }
  cbn [mbind option_bind].
  destruct (scan_right_spec (S (length m)) m right mid lo p o) as (r' & x & -> & Hr' & Hx & Hxp & Hall');
    [lia|lia| |done|done|apply (Hle lo); [lia|done]|].
  { unfold zlen in Hhi. lia. }
  cbn [mbind option_bind].
  assert (part_inv lo hi p m l' r' mid) as Hinv'.
  { split; [lia|]. split; [lia|]. split; [done|]. split; [done|]. split.
    - intros i z Hi Hz. destruct (decide (i < left)); [apply (Hle i)|apply (Hall i)]; done || lia.
    - intros i z Hi Hz. destruct (decide (right < i)); [apply (Hge i)|apply (Hall' i)]; done || lia. }
  destruct (Z.ltb_spec r' l') as [Hlt|Hge'].
  - exists m, l', r'. split_and!; try done. destruct Hinv' as (?&?&?&?&?&?). unfold partitioned_at. split_and!; done || lia.
  - rewrite (sort_swap_spec m l' r' y x) by done. cbn [mbind option_bind].
    destruct (IH (zupd (zupd m l' x) r' y) (l' + 1) (r' - 1)
      (if mid =? l' then r' else if mid =? r' then l' else mid))
      as (m' & l2 & r2 & -> & Hsp & Hpa); [zlia|by apply part_inv_swap|lia|].
    exists m', l2, r2. split_and!; try done.
    eapply seg_perm_trans; [|done].
    destruct (Z.eq_dec l' r') as [->|Hne].
    + simplify_eq. rewrite !zupd_id; try done. by rewrite zupd_id.
    + apply seg_perm_swap; done || lia.
Qed.

Lemma cswap_get m i j x y k : i <> j -> zget m i = Some x -> zget m j = Some y ->
  zget (cswap CMP m i j) k =
    if k =? i then Some (if CMP x y then x else y)
    else if k =? j then Some (if CMP x y then y else x) else zget m k.
Proof.
  intros Hne Hx Hy. unfold cswap. rewrite Hx, Hy. pose proof (zget_range _ _ _ Hx).
  pose proof (zget_range _ _ _ Hy).
  destruct (CMP x y); rewrite ?zget_zupd by zlia; repeat zcase; congruence.
Qed.

Lemma cswap_le m i j x y : i <> j -> zget m i = Some x -> zget m j = Some y ->
  exists x' y', zget (cswap CMP m i j) i = Some x' /\ zget (cswap CMP m i j) j = Some y' /\
    le x' y' /\ le y y' /\ le x y' /\ (x' = x \/ x' = y).
Proof.
  intros Hne Hx Hy. eexists _, _. rewrite !(cswap_get m i j x y) by done.
  rewrite Z.eqb_refl. split; [done|]. repeat zcase; try lia. split; [done|].
  destruct (CMP x y) eqn:E; split_and!; auto using sw_irrefl, sw_asym.
Qed.

Lemma cswap_ne m i j k : i <> j -> i <> k -> j <> k -> 0 <= i < zlen m -> 0 <= j < zlen m ->
  zget (cswap CMP m i j) k = zget m k.
Proof.
  intros ??? Hi Hj. destruct (zget_in m i Hi) as [x Hx], (zget_in m j Hj) as [y Hy].
  rewrite (cswap_get m i j x y) by done. by repeat zcase.
Qed.

(** The three compare-and-swap steps order the cells [lo], [mid], [hi]. *)
Lemma median3 m lo mid hi : 0 <= lo < mid -> mid < hi < zlen m ->
  let m3 := cswap CMP (cswap CMP (cswap CMP m lo mid) mid hi) lo mid in
  exists x p y, zget m3 lo = Some x /\ zget m3 mid = Some p /\ zget m3 hi = Some y /\
    le x p /\ le p y.
Proof.
  intros Hlo Hhi. cbn zeta.
  destruct (zget_in m lo) as [a Ha]; [lia|]. destruct (zget_in m mid) as [b Hb]; [lia|].
  destruct (zget_in m hi) as [c Hc]; [lia|].
  destruct (cswap_le m lo mid a b) as (a1 & b1 & Ha1 & Hb1 & Hab1 & _); [lia|done..|].
  rewrite <- (cswap_ne m lo mid hi) in Hc by lia.
  pose proof (zlen_cswap CMP m lo mid) as Hl1.
  revert Hl1 Ha1 Hb1 Hc. generalize (cswap CMP m lo mid). intros m1 Hl1 Ha1 Hb1 Hc.
  destruct (cswap_le m1 mid hi b1 c) as (b2 & c2 & Hb2 & Hc2 & Hbc2 & _ & Hbc2' & _); [lia|done..|].
  rewrite <- (cswap_ne m1 mid hi lo) in Ha1 by lia.
  pose proof (zlen_cswap CMP m1 mid hi) as Hl2.
  revert Hl2 Hb2 Hc2 Ha1. generalize (cswap CMP m1 mid hi). intros m2 Hl2 Hb2 Hc2 Ha1.
  pose proof (cswap_get m2 lo mid a1 b2) as G.
  rewrite !G by (done || lia). exists (if CMP a1 b2 then a1 else b2), (if CMP a1 b2 then b2 else a1), c2.
  split_and!; [by repeat zcase; try lia..| |].
  - destruct (CMP a1 b2) eqn:E; [by apply sw_asym|done].
  - destruct (CMP a1 b2) eqn:E; [done|]. eapply sw_neg_trans; [exact Hbc2'|done].
Qed.

Lemma sort_partition_spec m lo hi :
  0 <= lo -> hi < zlen m -> 8 <= hi - lo ->
  exists m' left' right' p, sort_partition m lo hi = Some (m', left', right') /\
    seg_perm lo hi m m' /\ partitioned_at m' lo hi left' right' p.
Proof.
  intros Hlo Hhi Hlen. unfold sort_partition. set (mid := lo + Z.shiftr (hi - lo) 1).
  assert (lo < mid < hi) as Hmid.
  { subst mid. rewrite Z.shiftr_div_pow2 by lia. change (2 ^ 1) with 2.
    pose proof (Z.div_mod (hi - lo) 2). pose proof (Z.mod_pos_bound (hi - lo) 2). lia. }
  destruct (median3 m lo mid hi) as (x & p & y & Hx & Hp & Hy & Hxp & Hpy); [lia..|].
  rewrite !sort_cmp_swap_spec by (rewrite ?zlen_cswap; lia). cbn [mbind option_bind].
  rewrite !sort_cmp_swap_spec by (rewrite ?zlen_cswap; lia). cbn [mbind option_bind].
  rewrite !sort_cmp_swap_spec by (rewrite ?zlen_cswap; lia). cbn [mbind option_bind].
  assert (seg_perm lo hi m (cswap CMP (cswap CMP (cswap CMP m lo mid) mid hi) lo mid)) as Hsp.
  { eapply seg_perm_trans; [eapply seg_perm_trans|]; apply seg_perm_cswap; lia. }
  pose proof (seg_perm_zlen _ _ _ _ Hsp) as Hl3.
  revert Hx Hp Hy Hsp Hl3. generalize (cswap CMP (cswap CMP (cswap CMP m lo mid) mid hi) lo mid).
  intros m3 Hx Hp Hy Hsp Hl3.
  destruct (partition_loop_spec (S (length m3)) m3 lo hi (lo + 1) (hi - 1) mid p)
    as (m' & l' & r' & E & Hsp' & Hpa); [lia..| | |].
  - split; [lia|]. split; [lia|]. split; [lia|]. split_and!; [done| |];
      intros i z Hi Hz; [replace i with lo in Hz by lia|replace i with hi in Hz by lia]; congruence.
  - unfold zlen in *. lia.
  - exists m', l', r', p. split_and!; try done. by eapply seg_perm_trans.
Qed.

(** ** The main loop *)

Definition seg_sorted m (lo hi : Z) : Prop :=
  forall i j x y, lo <= i < j -> j <= hi -> zget m i = Some x -> zget m j = Some y -> le x y.

(** What remains to do when the segment at hand is sorted. *)
Definition resume (fuel : nat) m (stack : list (Z * Z)) : option (list A) :=
  match stack with
  | [] => Some m
  | (lo, hi) :: stack => sort_loop fuel m lo hi stack
  end.

Lemma sort_loop_small m lo hi stack :
  0 <= lo -> -1 <= hi - lo < 8 -> hi < zlen m ->
  exists m', (forall fuel, sort_loop (S fuel) m lo hi stack = resume fuel m' stack) /\
    seg_perm lo hi m m' /\ seg_sorted m' lo hi.
Proof.
  intros Hlo Hlen Hhi. cbn [sort_loop]. destruct (Z.ltb_spec (hi - lo) 8); [|lia].
  destruct (zsplit m lo) as (pre & r & -> & <-); [lia|].
  destruct (zsplit r (hi - zlen pre + 1)) as (seg & post & -> & Hseg); [zlia|].
  destruct (sort_inner_spec CMP have_cmov pre seg post) as (seg' & E & Hp & Hs); [lia|].
  assert (zlen seg' = zlen seg) as Hl by (unfold zlen; by rewrite Hp).
  rewrite <- Hseg, E. cbn [mbind option_bind].
  exists (pre ++ seg' ++ post). split_and!; [by destruct stack as [|[]]; intros|split|].
  - by rewrite Hp.
  - intros i Hi. destruct (decide (i < zlen pre)).
    + by rewrite !zget_app_l.
    + rewrite !zget_app_r by lia. f_equal. lia.
  - intros i j x y Hi Hj Hx Hy.
    replace i with (zlen pre + (i - zlen pre)) in Hx by lia.
    replace j with (zlen pre + (j - zlen pre)) in Hy by lia.
    rewrite zget_seg in Hx, Hy by lia. unfold sorted_by in Hs. rewrite StronglySorted_zget in Hs.
    by apply (Hs (i - zlen pre) (j - zlen pre)); [lia|..].
Qed.

Lemma all_le_perm m m' lo hi p a b :
  seg_perm a b m m' -> 0 <= a <= b + 1 -> b < zlen m ->
  (lo <= a /\ b <= hi) \/ hi < a \/ b < lo ->
  all_le m lo hi p -> all_le m' lo hi p.
Proof.
  intros Hsp Ha Hb Hcase H i x Hi Hx. destruct (decide (a <= i <= b)) as [Hin|Hout].
  - eapply (seg_perm_forall a b m m' (fun x => le x p) Hsp); eauto.
    intros j y Hj Hy. apply (H j); [lia|done].
  - rewrite (proj2 Hsp i Hout) in Hx. by apply (H i).
Qed.

Lemma all_ge_perm m m' lo hi p a b :
  seg_perm a b m m' -> 0 <= a <= b + 1 -> b < zlen m ->
  (lo <= a /\ b <= hi) \/ hi < a \/ b < lo ->
  all_ge m lo hi p -> all_ge m' lo hi p.
Proof.
  intros Hsp Ha Hb Hcase H i x Hi Hx. destruct (decide (a <= i <= b)) as [Hin|Hout].
  - eapply (seg_perm_forall a b m m' (fun x => le p x) Hsp); eauto.
    intros j y Hj Hy. apply (H j); [lia|done].
  - rewrite (proj2 Hsp i Hout) in Hx. by apply (H i).
Qed.

Lemma partitioned_at_perm m m' lo hi left right p a b :
  seg_perm a b m m' -> (a = lo /\ b = right) \/ (a = left /\ b = hi) ->
  0 <= lo -> hi < zlen m ->
  partitioned_at m lo hi left right p -> partitioned_at m' lo hi left right p.
Proof.
  intros Hsp Hab Hlo Hhi (H1 & H2 & Hle & Hge).
  split_and!; [lia..| |].
  - eapply (all_le_perm m m' lo (left - 1) p a b); try done; lia.
  - eapply (all_ge_perm m m' (right + 1) hi p a b); try done; lia.
Qed.

Lemma seg_sorted_perm m m' lo hi a b :
  seg_perm a b m m' -> hi < a \/ b < lo -> seg_sorted m lo hi -> seg_sorted m' lo hi.
Proof.
  intros [_ E] Hd Hs i j x y Hi Hj Hx Hy. rewrite E in Hx, Hy by lia. by apply (Hs i j).
Qed.

Lemma partitioned_sorted m lo hi left right p :
  partitioned_at m lo hi left right p -> seg_sorted m lo right -> seg_sorted m left hi ->
  seg_sorted m lo hi.
Proof.
  intros (H1 & H2 & Hle & Hge) Hsl Hsr i j x y Hi Hj Hx Hy.
  destruct (decide (j <= right)) as [|Hjr]; [by apply (Hsl i j)|].
  destruct (decide (left <= i)) as [|Hil]; [by apply (Hsr i j); [lia|..]|].
  assert (le x p) by (apply (Hle i); [lia|done]).
  assert (le p y) by (apply (Hge j); [lia|done]). by eapply sw_neg_trans.
Qed.

(** The segment at hand is sorted, in at most twice its length steps, and the
    stack is enough for it. *)
Lemma sort_loop_spec (n : nat) m lo hi stack :
  0 <= lo -> hi < zlen m -> hi - lo + 1 = Z.of_nat n ->
  zlen stack <= sort_stack_size -> Z.of_nat n <= 8 * 2 ^ (sort_stack_size - zlen stack) ->
  exists m' k, (k <= Nat.max 1 (2 * n - 1))%nat /\
    (forall fuel, sort_loop (k + fuel) m lo hi stack = resume fuel m' stack) /\
    seg_perm lo hi m m' /\ seg_sorted m' lo hi.
Proof.
  revert m lo hi stack. induction n as [n IH] using lt_wf_ind.
  intros m lo hi stack Hlo Hhi Hn Hst Hcap.
  destruct (decide (n <= 8)%nat) as [Hsmall|Hbig].
  { destruct (sort_loop_small m lo hi stack) as (m' & Hrun & Hsp & Hso); [lia..|].
    exists m', 1%nat. split_and!; done || lia. }
  destruct (sort_partition_spec m lo hi) as (m1 & l & r & p & Hpart & Hsp1 & Hpa); [lia..|].
  pose proof Hpa as (Hb1 & Hb2 & _). pose proof (seg_perm_zlen _ _ _ _ Hsp1) as Hl1.
  assert (1 <= sort_stack_size - zlen stack) as Hroom.
  { destruct (decide (sort_stack_size - zlen stack = 0)) as [E|]; [rewrite E in Hcap; lia|lia]. }
  assert (2 ^ (sort_stack_size - zlen stack) = 2 * 2 ^ (sort_stack_size - zlen stack - 1)) as Hpow.
  { rewrite <- Z.pow_succ_r by lia. f_equal. lia. }
  (* the two parts: [a, b] is processed first, [c, d] is pushed *)
  assert (exists a b c d,
    (forall fuel, sort_loop (S fuel) m lo hi stack = sort_loop fuel m1 a b ((c, d) :: stack)) /\
    ((a = lo /\ b = r /\ c = l /\ d = hi) \/ (a = l /\ b = hi /\ c = lo /\ d = r)) /\
    b - a <= d - c) as (a & b & c & d & Hstep & Hcase & Hle).
  { assert (sort_push stack lo r = Some ((lo, r) :: stack) /\
      sort_push stack l hi = Some ((l, hi) :: stack)) as [P1 P2].
    { unfold sort_push. destruct (Z.ltb_spec (zlen stack) sort_stack_size); [done|lia]. }
    destruct (Z.ltb_spec (hi - l) (r - lo)) as [Hlt|Hge].
    - exists l, hi, lo, r. split_and!; [|naive_solver|lia]. intros fuel.
      cbn [sort_loop]. destruct (Z.ltb_spec (hi - lo) 8); [lia|].
      rewrite Hpart. cbn [mbind option_bind]. destruct (Z.ltb_spec (hi - l) (r - lo)); [|lia].
      by rewrite P1.
    - exists lo, r, l, hi. split_and!; [|naive_solver|lia]. intros fuel.
      cbn [sort_loop]. destruct (Z.ltb_spec (hi - lo) 8); [lia|].
      rewrite Hpart. cbn [mbind option_bind]. destruct (Z.ltb_spec (hi - l) (r - lo)); [lia|].
      by rewrite P2. }
  destruct (IH (Z.to_nat (b - a + 1)) ltac:(lia) m1 a b ((c, d) :: stack))
    as (m2 & k2 & Hk2 & Hrun2 & Hsp2 & Hso2); [lia..| | |].
  { rewrite zlen_cons. lia. }
  { rewrite zlen_cons. replace (sort_stack_size - (zlen stack + 1)) with (sort_stack_size - zlen stack - 1) by lia. lia. }
  pose proof (seg_perm_zlen _ _ _ _ Hsp2) as Hl2.
  destruct (IH (Z.to_nat (d - c + 1)) ltac:(lia) m2 c d stack)
    as (m3 & k3 & Hk3 & Hrun3 & Hsp3 & Hso3); [lia..|].
  exists m3, (S (k2 + k3))%nat. split_and!; [lia| | |].
  - intros fuel. cbn [Nat.add]. rewrite Hstep, <- Nat.add_assoc, Hrun2. cbn [resume]. apply Hrun3.
  - eapply seg_perm_trans; [done|]. eapply seg_perm_trans; eapply seg_perm_widen; try done; lia.
  - apply (partitioned_at_perm _ m2 lo hi l r p a b Hsp2) in Hpa; [|naive_solver|lia..].
    apply (partitioned_at_perm _ m3 lo hi l r p c d Hsp3) in Hpa; [|naive_solver|lia..].
    apply (seg_sorted_perm _ m3 _ _ c d Hsp3) in Hso2; [|lia].
    eapply partitioned_sorted; [done|..]; naive_solver.
Qed.

(** The whole function sorts [begin, end): it returns (so every access is in
    bounds, the stack does not overflow and the loops terminate), the result
    is a permutation that differs from the argument in this range only, and
    the range is sorted. *)
Lemma sort_impl_spec pre seg post :
  zlen seg <= 8 * 2 ^ sort_stack_size ->
  exists seg', sort_impl (pre ++ seg ++ post) (zlen pre) (zlen pre + zlen seg) =
      Some (pre ++ seg' ++ post) /\ seg' ≡ₚ seg /\ sorted_by CMP seg'.
Proof.
  intros Hcap. unfold sort_impl. set (m := pre ++ seg ++ post).
  replace (zlen pre + zlen seg - zlen pre) with (zlen seg) by lia.
  destruct (sort_loop_spec (length seg) m (zlen pre) (zlen pre + zlen seg - 1) [])
    as (m' & k & Hk & Hrun & Hsp & Hso).
  { zlia. } { subst m. zlia. } { unfold zlen. lia. } { done. } { done. }
  assert (S (2 * Z.to_nat (zlen seg)) = k + (S (2 * length seg) - k))%nat as ->.
  { unfold zlen. lia. }
  rewrite Hrun. cbn [resume].
  destruct (seg_perm_split _ _ _ _ Hsp) as (pre' & sg & sg' & post' & E & -> & Hpre & Hsg & P).
  { zlia. } { subst m. zlia. }
  subst m. apply app_inj_1 in E as [-> E]; [|unfold zlen in *; lia].
  apply app_inj_1 in E as [-> ->]; [|unfold zlen in *; lia].
  exists sg'. split_and!; [done|done|].
  assert (zlen sg' = zlen sg) as Hl by (unfold zlen; by rewrite P).
  apply StronglySorted_zget. intros i j x y Hij Hx Hy.
  pose proof (zget_range _ _ _ Hx). pose proof (zget_range _ _ _ Hy).
  apply (Hso (zlen pre' + i) (zlen pre' + j)); [lia|lia|..]; by rewrite zget_seg by lia.
Qed.
End QuickSort.

(** ** Claims *)

(** C38: the generic sort puts the cells of the range in order and touches no
    other cell; the explicit stack of 64 ranges never overflows, no cell
    outside of the range is read, and the loop ends. It holds for every strict
    weak order and for both variants of the compare-and-swap. *)
Theorem sort_impl_sorts {A} (CMP : A -> A -> bool) cm `{!StrictWeak CMP} pre seg post :
  zlen seg <= 8 * 2 ^ sort_stack_size ->
  exists seg', sort_impl CMP cm (pre ++ seg ++ post) (zlen pre) (zlen pre + zlen seg) =
      Some (pre ++ seg' ++ post) /\ seg' ≡ₚ seg /\ sorted_by CMP seg'.
Proof. by apply sort_impl_spec. Qed.

Lemma sort_impl_sorts_witness : exists seg',
  sort_impl Z.ltb true ([0] ++ [9; 4; 7; 1; 8; 2; 6; 3; 5; 11; 10; 4] ++ [0]) 1 13 = Some ([0] ++ seg' ++ [0]) /\
  seg' ≡ₚ [9; 4; 7; 1; 8; 2; 6; 3; 5; 11; 10; 4] /\ sorted_by Z.ltb seg'.
Proof.
  apply (sort_impl_sorts Z.ltb true (StrictWeak0 := ltac:(split; intros *; rewrite ?Z.ltb_lt, ?Z.ltb_ge; lia))
    [0] [9; 4; 7; 1; 8; 2; 6; 3; 5; 11; 10; 4] [0]). by vm_compute.
Defined.
