(* ===== verification/RadixSort.v ===== *)
(** * Radix sort ([src/src/sort.h], macro [RADIXSORT_IMPL])

    Long lists are sorted by a least-significant-digit radix sort that
    processes two 8-bit digits per round, with the second half of the block as
    the buffer ([BUFFER_PREALLOCATED]): the buffer starts [END_GAP] cells after
    the end of the list. A round ends the sort as soon as the differing key
    bits show that the higher digits are all equal. *)

From stdpp Require Import base list numbers option sorting.
From Stdlib Require Import ZArith Lia.
From S2P Require Import Prelude SortNet.

Section Radix.
Context {A : Type} (EXTRACT_KEY : A -> Z) (END_GAP : Z).
Implicit Types (m l : list A).

(** [counters.a[i]++] on an array of 32-bit counters. *)
Definition counter_inc (c : list Z) (i : Z) : option (list Z) :=
  v ← zget c i; zset c i (u32 (v + 1)).

(** The counting loop: both digit histograms and the mask of differing bits. *)
Fixpoint radix_count (n : nat) m (r key_shift : Z) (ca cb : list Z) (key_diff_mask prev_key : Z)
    : option (list Z * list Z * Z) :=
  match n with
  | O => Some (ca, cb, key_diff_mask)
  | S n =>
      x ← zget m r;
      let key := Z.shiftr (EXTRACT_KEY x) key_shift in
      ca ← counter_inc ca (Z.land key 255);
      cb ← counter_inc cb (Z.land (Z.shiftr key 8) 255);
      radix_count n m (r + 1) key_shift ca cb (Z.lor key_diff_mask (Z.lxor prev_key key)) key
  end.

(** The loop that turns counts into start positions. *)
Fixpoint radix_prefix (n : nat) (i : Z) (c : list Z) (t : Z) : option (list Z) :=
  match n with
  | O => Some c
  | S n =>
      v ← zget c i;
      c ← zset c i t;
      radix_prefix n (i + 1) c (u32 (t + v))
  end.

(** A distribution loop: [dst[counters[digit]++] = *r] for [n] cells. *)
Fixpoint radix_scatter (n : nat) m (r dst : Z) (digit : A -> Z) (c : list Z) : option (list A) :=
  match n with
  | O => Some m
  | S n =>
      x ← zget m r;
      v ← zget c (digit x);
      m ← zset m (dst + v) x;
      c ← zset c (digit x) (u32 (v + 1));
      radix_scatter n m (r + 1) dst digit c
  end.

(** [memcpy] of [n] cells between disjoint ranges. *)
Fixpoint cells_copy (n : nat) m (dst src : Z) : option (list A) :=
  match n with
  | O => Some m
  | S n => x ← zget m src; m ← zset m dst x; cells_copy n m (dst + 1) (src + 1)
  end.

Definition digit_a (key_shift : Z) (x : A) : Z :=
  Z.land (Z.shiftr (EXTRACT_KEY x) key_shift) 255.
Definition digit_b (key_shift : Z) (x : A) : Z :=
  Z.land (Z.shiftr (Z.shiftr (EXTRACT_KEY x) key_shift) 8) 255.

(** The rounds; four of them cover keys of 64 bits. *)
Fixpoint radix_rounds (fuel : nat) m (begin : Z) (length : nat) (key_shift : Z) : option (list A) :=
  match fuel with
  | O => None
  | S fuel =>
      let tmp := begin + Z.of_nat length + END_GAP in
      first ← zget m begin;
      let zeros := replicate 256 0 in
      '(ca, cb, key_diff_mask) ←
        radix_count length m begin key_shift zeros zeros 0 (Z.shiftr (EXTRACT_KEY first) key_shift);
      ca ← radix_prefix 256 0 ca 0;
      cb ← radix_prefix 256 0 cb 0;
      m ← radix_scatter length m begin tmp (digit_a key_shift) ca;
      if key_diff_mask <? 256 then cells_copy length m begin tmp
      else
        m ← radix_scatter length m tmp begin (digit_b key_shift) cb;
        if negb (Z.shiftr key_diff_mask 16 =? 0)
        then radix_rounds fuel m begin length (key_shift + 16)
        else Some m
  end.

Definition radixsort m (begin : Z) (length : nat) : option (list A) :=
  radix_rounds 4 m begin length 0.

(** ** Stable distribution into buckets *)

Definition count (d : A -> Z) (v : Z) l : Z := zlen (filter (fun x => d x = v) l).

Definition digits : list Z := seqZ 0 256.

(** The list in the order of the digit, stable. *)
Definition buckets (d : A -> Z) l : list A :=
  concat ((fun v => filter (fun x => d x = v) l) <$> digits).

(** The number of elements with a digit below [v]. *)
Definition below (d : A -> Z) (v : Z) l : Z := zlen (filter (fun x => d x < v) l).

Lemma count_snoc d v l x : count d v (l ++ [x]) = count d v l + (if d x =? v then 1 else 0).
Proof.
  unfold count. rewrite filter_app, zlen_app, filter_cons, filter_nil.
  destruct (Z.eqb_spec (d x) v), (decide (d x = v)); try done; rewrite ?zlen_cons, ?zlen_nil; lia.
Qed.

Lemma count_nil d v : count d v [] = 0.
Proof. done. Qed.

Lemma count_nonneg d v l : 0 <= count d v l.
Proof. apply zlen_nonneg. Qed.

Lemma count_le d v l : count d v l <= zlen l.
Proof. unfold count, zlen. pose proof (length_filter (fun x => d x = v) l). lia. Qed.

Lemma below_succ d v l : below d (v + 1) l = below d v l + count d v l.
Proof.
  unfold below, count. induction l as [|x l IH]; [done|].
  rewrite !filter_cons.
  destruct (decide (d x < v + 1)), (decide (d x < v)), (decide (d x = v)); try lia;
    autorewrite with zlen; lia.
Qed.

Lemma below_0 d l : (forall x, x ∈ l -> 0 <= d x) -> below d 0 l = 0.
Proof.
  intros H. unfold below. induction l as [|x l IH]; [done|].
  rewrite filter_cons. destruct (decide (d x < 0)) as [Hx|].
  - specialize (H x). rewrite elem_of_cons in H. specialize (H (or_introl eq_refl)). lia.
  - apply IH. intros y Hy. apply H. by constructor.
Qed.

Lemma below_le d v l : below d v l <= zlen l.
Proof. unfold below, zlen. pose proof (length_filter (fun x => d x < v) l). lia. Qed.

Lemma below_nonneg d v l : 0 <= below d v l.
Proof. apply zlen_nonneg. Qed.

Lemma below_mono d v w l : v <= w -> below d v l <= below d w l.
Proof.
  intros H. replace w with (v + Z.of_nat (Z.to_nat (w - v))) by lia.
  induction (Z.to_nat (w - v)) as [|k IH]; [rewrite Z.add_0_r; lia|].
  replace (v + Z.of_nat (S k)) with (v + Z.of_nat k + 1) by lia.
  rewrite below_succ. pose proof (count_nonneg d (v + Z.of_nat k) l). lia.
Qed.

Definition digit_ok (d : A -> Z) : Prop := forall x, 0 <= d x < 256.

Lemma below_256 d l : digit_ok d -> below d 256 l = zlen l.
Proof.
  intros Hd. unfold below. f_equal. induction l as [|x l IH]; [done|].
  rewrite filter_cons. pose proof (Hd x). destruct (decide (d x < 256)); [|lia]. by rewrite IH.
Qed.

Lemma zlen_bucket_prefix d (n : nat) l : digit_ok d ->
  zlen (concat ((fun v => filter (fun x => d x = v) l) <$> seqZ 0 (Z.of_nat n))) = below d (Z.of_nat n) l.
Proof.
  intros Hd. induction n as [|n IH].
  - rewrite below_0; [done|]. intros x _. apply Hd.
  - rewrite Nat2Z.inj_succ, <- Z.add_1_r, seqZ_app by lia.
    rewrite fmap_app, concat_app, zlen_app, IH, below_succ. f_equal.
    rewrite (seqZ_cons _ 1), seqZ_nil by lia. cbn. by rewrite app_nil_r.
Qed.

Lemma zlen_buckets d l : digit_ok d -> zlen (buckets d l) = zlen l.
Proof. intros Hd. rewrite <- (below_256 d l Hd). apply (zlen_bucket_prefix d 256 l Hd). Qed.

Lemma buckets_get d l v k : digit_ok d -> 0 <= v < 256 -> 0 <= k < count d v l ->
  zget (buckets d l) (below d v l + k) = zget (filter (fun x => d x = v) l) k.
Proof.
  intros Hd Hv Hk. unfold buckets, digits.
  replace 256 with (v + (1 + (255 - v))) by lia. rewrite !seqZ_app by lia.
  rewrite !fmap_app, !concat_app, (seqZ_cons _ 1), (seqZ_nil _ (Z.pred 1)) by lia.
  cbn [fmap list_fmap concat]. rewrite app_nil_r.
  pose proof (zlen_bucket_prefix d (Z.to_nat v) l Hd) as Hp. rewrite Z2Nat.id in Hp by lia.
  rewrite <- Hp. by apply zget_seg.
Qed.

(** Every position belongs to one of the buckets. *)
Lemma bucket_cover d l (n : nat) i : digit_ok d -> 0 <= i < below d (Z.of_nat n) l ->
  exists v, 0 <= v < Z.of_nat n /\ below d v l <= i < below d (v + 1) l.
Proof.
  intros Hd. induction n as [|n IH]; intros Hi.
  - rewrite below_0 in Hi; [lia|]. intros x _. apply Hd.
  - destruct (decide (i < below d (Z.of_nat n) l)) as [Hlt|Hge].
    + destruct IH as (v & ? & ?); [lia|]. exists v. lia.
    + exists (Z.of_nat n). rewrite Nat2Z.inj_succ, <- Z.add_1_r in Hi. lia.
Qed.

(** ** The counting loop *)

Definition is_counts (c : list Z) d l : Prop :=
  zlen c = 256 /\ forall v, 0 <= v < 256 -> zget c v = Some (count d v l).

Lemma counter_inc_spec c d l x : digit_ok d -> zlen l < UINT32_MAX ->
  is_counts c d l -> exists c', counter_inc c (d x) = Some c' /\ is_counts c' d (l ++ [x]).
Proof.
  intros Hd Hl [Hlen Hc]. pose proof (Hd x) as Hx. unfold counter_inc.
  rewrite Hc by done. cbn [mbind option_bind]. rewrite zset_ok by lia.
  eexists. split; [done|]. split; [by rewrite zlen_zupd|].
  intros v Hv. rewrite zget_zupd by lia. rewrite count_snoc.
  pose proof (count_le d (d x) l). pose proof (count_nonneg d (d x) l).
  destruct (Z.eqb_spec (d x) v) as [<-|].
  - by rewrite u32_small by lia.
  - by rewrite Hc, Z.add_0_r.
Qed.

Lemma digit_a_ok s : digit_ok (digit_a s).
Proof.
  intros x. unfold digit_a. change 255 with (Z.ones 8). rewrite Z.land_ones by lia.
  apply Z.mod_pos_bound. lia.
Qed.

Lemma digit_b_ok s : digit_ok (digit_b s).
Proof.
  intros x. unfold digit_b. change 255 with (Z.ones 8). rewrite Z.land_ones by lia.
  apply Z.mod_pos_bound. lia.
Qed.

(** [high_equal]: the mask covers every bit in which two keys differ. *)
Definition mask_covers (s mask prev : Z) l : Prop :=
  forall k, 0 <= k -> Z.shiftr mask k = 0 ->
  forall x, x ∈ l -> Z.shiftr (Z.shiftr (EXTRACT_KEY x) s) k = Z.shiftr prev k.

Lemma radix_count_spec l2 : forall m r s ca cb mask prev l1,
  (forall i, 0 <= i < zlen l2 -> zget m (r + i) = zget l2 i) ->
  zlen l1 + zlen l2 <= UINT32_MAX ->
  is_counts ca (digit_a s) l1 -> is_counts cb (digit_b s) l1 ->
  exists ca' cb' mask', radix_count (length l2) m r s ca cb mask prev = Some (ca', cb', mask') /\
    is_counts ca' (digit_a s) (l1 ++ l2) /\ is_counts cb' (digit_b s) (l1 ++ l2) /\
    (forall k, 0 <= k -> Z.shiftr mask' k = 0 -> Z.shiftr mask k = 0) /\
    mask_covers s mask' prev l2 /\
    (forall k, Z.shiftr mask k = 0 -> Z.shiftr prev k = 0 ->
       (forall x, x ∈ l2 -> Z.shiftr (Z.shiftr (EXTRACT_KEY x) s) k = 0) -> Z.shiftr mask' k = 0).
Proof.
  induction l2 as [|x l2 IH]; intros m r s ca cb mask prev l1 Hm Hlen Ha Hb.
  - exists ca, cb, mask. rewrite app_nil_r. split_and!; try done. intros k _ _ y Hy. by apply not_elem_of_nil in Hy.
  - cbn [radix_count length].
    rewrite <- (Z.add_0_r r), Hm by zlia. rewrite zget_cons_0. cbn [mbind option_bind].
    rewrite Z.add_0_r.
    destruct (counter_inc_spec ca (digit_a s) l1 x (digit_a_ok s)) as (ca' & Ea & Ha'); [zlia|done|].
    destruct (counter_inc_spec cb (digit_b s) l1 x (digit_b_ok s)) as (cb' & Eb & Hb'); [zlia|done|].
    unfold digit_a at 1 in Ea. unfold digit_b at 1 in Eb. rewrite Ea. cbn [mbind option_bind].
    rewrite Eb. cbn [mbind option_bind].
    destruct (IH m (r + 1) s ca' cb' (Z.lor mask (Z.lxor prev (Z.shiftr (EXTRACT_KEY x) s)))
      (Z.shiftr (EXTRACT_KEY x) s) (l1 ++ [x])) as (ca2 & cb2 & mask2 & -> & Ha2 & Hb2 & Hmono & Hcov & Hup);
      [|zlia|done|done|].
    { intros i Hi. rewrite <- Z.add_assoc, Hm, zget_cons_pos by zlia. f_equal. lia. }
    rewrite <- !app_assoc in *. exists ca2, cb2, mask2. split_and!; try done.
    + intros k Hk Hz. apply Hmono in Hz; [|done]. rewrite Z.shiftr_lor, Z.lor_eq_0_iff in Hz. tauto.
    + intros k Hk Hz y Hy. pose proof (Hmono k Hk Hz) as Hz'.
      rewrite Z.shiftr_lor, Z.lor_eq_0_iff, Z.shiftr_lxor in Hz'. destruct Hz' as [_ Hx].
      apply Z.lxor_eq in Hx. apply elem_of_cons in Hy as [->|Hy]; [done|].
      rewrite Hx. by apply (Hcov k Hk Hz).
    + intros k Hz Hp Hall. apply Hup.
      * rewrite Z.shiftr_lor, Hz, Z.shiftr_lxor, Hp, Hall by constructor. done.
      * apply Hall. constructor.
      * intros y Hy. apply Hall. by constructor.
Qed.

Lemma radix_prefix_spec d l (n : nat) : forall i c,
  zlen l <= UINT32_MAX -> digit_ok d -> i + Z.of_nat n = 256 -> 0 <= i -> zlen c = 256 ->
  (forall v, 0 <= v < i -> zget c v = Some (below d v l)) ->
  (forall v, i <= v < 256 -> zget c v = Some (count d v l)) ->
  exists c', radix_prefix n i c (below d i l) = Some c' /\ zlen c' = 256 /\
    forall v, 0 <= v < 256 -> zget c' v = Some (below d v l).
Proof.
  induction n as [|n IH]; intros i c Hl Hd Hn Hi Hlen Hlo Hhi.
  - exists c. split_and!; try done. intros v Hv. apply Hlo. lia.
  - cbn [radix_prefix]. rewrite Hhi by lia. cbn [mbind option_bind].
    rewrite zset_ok by lia. cbn [mbind option_bind].
    pose proof (below_nonneg d (i + 1) l). pose proof (below_le d (i + 1) l).
    rewrite <- below_succ, u32_small by lia.
    apply IH; try done; [lia..|by rewrite zlen_zupd| |].
    + intros v Hv. rewrite zget_zupd by lia. destruct (Z.eqb_spec i v) as [<-|]; [done|]. apply Hlo. lia.
    + intros v Hv. rewrite zget_zupd_ne by lia. apply Hhi. lia.
Qed.

(** ** The distribution loop *)

Lemma filter_snoc_get d v l x k : 0 <= k < count d v l ->
  zget (filter (fun x => d x = v) (l ++ [x])) k = zget (filter (fun x => d x = v) l) k.
Proof. intros Hk. rewrite filter_app. apply zget_app_l. apply Hk. Qed.

Lemma count_app d v l1 l2 : count d v (l1 ++ l2) = count d v l1 + count d v l2.
Proof. unfold count. by rewrite filter_app, zlen_app. Qed.

Lemma radix_scatter_spec d l src dst : forall l2 l1 m c,
  l = l1 ++ l2 -> digit_ok d -> zlen l <= UINT32_MAX ->
  0 <= src -> src + zlen l <= zlen m -> 0 <= dst -> dst + zlen l <= zlen m ->
  src + zlen l <= dst \/ dst + zlen l <= src ->
  (forall i, 0 <= i < zlen l -> zget m (src + i) = zget l i) ->
  zlen c = 256 ->
  (forall v, 0 <= v < 256 -> zget c v = Some (below d v l + count d v l1)) ->
  (forall v k, 0 <= v < 256 -> 0 <= k < count d v l1 ->
     zget m (dst + (below d v l + k)) = zget (filter (fun x => d x = v) l1) k) ->
  exists m', radix_scatter (length l2) m (src + zlen l1) dst d c = Some m' /\
    zlen m' = zlen m /\
    (forall i, ~ (dst <= i < dst + zlen l) -> zget m' i = zget m i) /\
    (forall i, 0 <= i < zlen l -> zget m' (dst + i) = zget (buckets d l) i).
Proof.
  induction l2 as [|x l2 IH]; intros l1 m c Hl Hd H32 Hs1 Hs2 Hd1 Hd2 Hdis Hsrc Hlc Hc Hdst.
  - rewrite app_nil_r in Hl. subst l1. exists m. split_and!; try done.
    intros i Hi. destruct (bucket_cover d l 256 i Hd) as (v & Hv & Hiv).
    { change (Z.of_nat 256) with 256. by rewrite below_256. }
    rewrite below_succ in Hiv. replace i with (below d v l + (i - below d v l)) by lia.
    rewrite buckets_get by (done || lia). apply Hdst; lia.
  - cbn [radix_scatter length]. pose proof (Hd x) as Hx.
    assert (zlen l = zlen l1 + 1 + zlen l2) as Hll by (subst l; zlia).
    rewrite Hsrc by zlia. subst l. rewrite zget_app_mid by done. cbn [mbind option_bind].
    set (l := l1 ++ x :: l2) in *. rewrite Hc by done. cbn [mbind option_bind].
    assert (count d (d x) l = count d (d x) l1 + 1 + count d (d x) l2) as Hcnt.
    { subst l. replace (l1 ++ x :: l2) with ((l1 ++ [x]) ++ l2) by (by rewrite <- app_assoc).
      rewrite count_app, count_snoc. rewrite Z.eqb_refl. lia. }
    pose proof (count_nonneg d (d x) l1). pose proof (count_nonneg d (d x) l2).
    pose proof (below_nonneg d (d x) l). pose proof (below_le d (d x + 1) l) as Hle.
    rewrite below_succ in Hle.
    rewrite zset_ok by lia. cbn [mbind option_bind].
    rewrite zset_ok by lia. cbn [mbind option_bind].
    replace (src + zlen l1 + 1) with (src + zlen (l1 ++ [x])) by zlia.
    rewrite u32_small by lia.
    edestruct (IH (l1 ++ [x])) as (m' & -> & Hlen' & Hout & Hin);
      [subst l; by rewrite <- app_assoc|done|done|done|by rewrite zlen_zupd|done|by rewrite zlen_zupd
      |done| |by rewrite zlen_zupd| | |].
    + intros i Hi. rewrite zget_zupd_ne by lia. by apply Hsrc.
    + intros v Hv. rewrite zget_zupd by lia. rewrite count_snoc.
      destruct (Z.eqb_spec (d x) v) as [<-|]; [f_equal; lia|]. rewrite Hc by done. f_equal. lia.
    + intros v k Hv Hk. rewrite count_snoc in Hk.
      destruct (Z.eqb_spec (d x) v) as [<-|Hne].
      * destruct (decide (k = count d (d x) l1)) as [->|].
        -- rewrite zget_zupd_eq by lia. rewrite filter_app, filter_cons, filter_nil.
           rewrite decide_True by done. by rewrite zget_app_mid.
        -- rewrite zget_zupd_ne by lia. rewrite filter_snoc_get by lia. apply Hdst; lia.
      * rewrite zget_zupd_ne; [| lia |].
        -- rewrite filter_snoc_get by lia. apply Hdst; lia.
        -- assert (count d v l1 <= count d v l).
           { subst l. rewrite count_app. pose proof (count_nonneg d v (x :: l2)). lia. }
           destruct (Z.lt_trichotomy v (d x)) as [Hlt|[?|Hgt]]; [|lia|].
           ++ pose proof (below_mono d (v + 1) (d x) l ltac:(lia)) as Hm. rewrite below_succ in Hm. lia.
           ++ pose proof (below_mono d (d x + 1) v l ltac:(lia)) as Hm. rewrite below_succ in Hm. lia.
    + exists m'. split_and!; [done|by rewrite Hlen', zlen_zupd| |done].
      intros i Hi. rewrite Hout by done. rewrite zget_zupd_ne; [done|lia|]. lia.
Qed.

(** ** Stable sorting *)

Lemma buckets_prefix_perm d (n : nat) l : digit_ok d ->
  concat ((fun v => filter (fun x => d x = v) l) <$> seqZ 0 (Z.of_nat n)) ≡ₚ
  filter (fun x => d x < Z.of_nat n) l.
Proof.
  intros Hd. induction n as [|n IH].
  - replace (filter (fun x => d x < Z.of_nat 0) l) with (@nil A); [done|].
    symmetry. apply zlen_0_nil. apply below_0. intros x _. apply Hd.
  - rewrite Nat2Z.inj_succ, <- Z.add_1_r, seqZ_app by lia.
    rewrite fmap_app, concat_app, IH, (seqZ_cons _ 1), seqZ_nil by lia. cbn [fmap list_fmap concat].
    rewrite app_nil_r, Z.add_0_l. clear IH. induction l as [|x l IH]; [done|].
    rewrite !filter_cons.
    destruct (decide (d x < Z.of_nat n + 1)), (decide (d x < Z.of_nat n)), (decide (d x = Z.of_nat n));
      try lia; cbn; rewrite <- ?Permutation_middle, <- IH; done.
Qed.

Lemma buckets_perm d l : digit_ok d -> buckets d l ≡ₚ l.
Proof.
  intros Hd. unfold buckets, digits. rewrite (buckets_prefix_perm d 256 l Hd).
  change (Z.of_nat 256) with 256.
  induction l as [|x l IH]; [done|]. rewrite filter_cons. pose proof (Hd x).
  destruct (decide (d x < 256)); [|lia]. by rewrite IH.
Qed.

Lemma buckets_sorted d (R : A -> A -> Prop) l : digit_ok d -> StronglySorted R l ->
  StronglySorted (fun x y => d x < d y \/ (d x = d y /\ R x y)) (buckets d l).
Proof.
  intros Hd Hs. unfold buckets, digits. change 256 with (Z.of_nat 256).
  generalize 256%nat. intros n. induction n as [|n IH]; [constructor|].
  rewrite Nat2Z.inj_succ, <- Z.add_1_r, seqZ_app by lia.
  rewrite fmap_app, concat_app, (seqZ_cons _ 1), (seqZ_nil _ (Z.pred 1)) by lia. cbn [fmap list_fmap concat].
  rewrite app_nil_r. apply StronglySorted_app_2; [|done|].
  - intros x y Hx Hy. left. apply list_elem_of_filter in Hy as [-> _].
    rewrite buckets_prefix_perm in Hx by done. apply list_elem_of_filter in Hx as [? _]. lia.
  - apply (StronglySorted_filter _ (fun x => d x = 0 + Z.of_nat n)) in Hs.
    pose proof (proj1 (Forall_forall (fun x => d x = 0 + Z.of_nat n) (filter (fun x => d x = 0 + Z.of_nat n) l))) as Hf.
    assert (Forall (fun x => d x = 0 + Z.of_nat n) (filter (fun x => d x = 0 + Z.of_nat n) l)) as Hall.
    { apply Forall_forall. intros x Hx. by apply list_elem_of_filter in Hx as [? _]. }
    clear Hf IH. induction Hs as [|x k Hk IHk Hx]; constructor.
    + apply IHk. by inversion Hall.
    + inversion Hall as [|?? Hdx Hdk]; subst. rewrite Forall_forall in *.
      intros y Hy. right. split; [|by apply Hx]. rewrite Hdx. symmetry. by apply Hdk.
Qed.

(** Sorted by the [s] lowest bits of the key. *)
Definition sorted_low (s : Z) l : Prop :=
  StronglySorted (fun x y => EXTRACT_KEY x mod 2 ^ s <= EXTRACT_KEY y mod 2 ^ s) l.

Lemma mod_pow2_step k s : 0 <= s -> k mod 2 ^ (s + 8) = (k / 2 ^ s) mod 256 * 2 ^ s + k mod 2 ^ s.
Proof.
  intros Hs. rewrite Z.pow_add_r by lia. change (2 ^ 8) with 256.
  rewrite Z.rem_mul_r by lia. lia.
Qed.

Lemma sorted_low_buckets d s l : 0 <= s -> digit_ok d ->
  (forall x, d x = (EXTRACT_KEY x / 2 ^ s) mod 256) ->
  sorted_low s l -> sorted_low (s + 8) (buckets d l).
Proof.
  intros Hs Hok Hd Hl. pose proof (buckets_sorted d _ l Hok Hl) as Hb. unfold sorted_low.
  eapply StronglySorted_impl; [|exact Hb]. intros x y. cbn.
  rewrite !Hd, !mod_pow2_step by done.
  pose proof (Z.mod_pos_bound (EXTRACT_KEY x) (2 ^ s) ltac:(lia)).
  pose proof (Z.mod_pos_bound (EXTRACT_KEY y) (2 ^ s) ltac:(lia)). nia.
Qed.

Lemma digit_a_div s x : 0 <= s -> digit_a s x = (EXTRACT_KEY x / 2 ^ s) mod 256.
Proof.
  intros Hs. unfold digit_a. change 255 with (Z.ones 8).
  by rewrite Z.land_ones, Z.shiftr_div_pow2 by lia.
Qed.

Lemma digit_b_div s x : 0 <= s -> digit_b s x = (EXTRACT_KEY x / 2 ^ (s + 8)) mod 256.
Proof.
  intros Hs. unfold digit_b. change 255 with (Z.ones 8).
  by rewrite Z.land_ones, Z.shiftr_shiftr, Z.shiftr_div_pow2 by lia.
Qed.

Definition sorted_key l : Prop := StronglySorted (fun x y => EXTRACT_KEY x <= EXTRACT_KEY y) l.

(** When the bits from [t] on are all equal, the low bits decide. *)
Lemma sorted_low_key t c l : 0 <= t ->
  (forall x, x ∈ l -> EXTRACT_KEY x / 2 ^ t = c) -> sorted_low t l -> sorted_key l.
Proof.
  intros Ht. induction l as [|x l IH]; intros Hc Hs; [constructor|].
  inversion Hs as [|?? Hs' Hall]; subst. constructor.
  - apply IH; [|done]. intros y Hy. apply Hc. by constructor.
  - rewrite Forall_forall in *. intros y Hy. specialize (Hall y Hy). cbn in Hall.
    pose proof (Hc x ltac:(by constructor)). pose proof (Hc y ltac:(by constructor)).
    rewrite (Z.div_mod (EXTRACT_KEY x) (2 ^ t)), (Z.div_mod (EXTRACT_KEY y) (2 ^ t)) by lia. lia.
Qed.

(** ** The rounds *)

Lemma cells_copy_spec (n : nat) : forall m dst src,
  0 <= dst -> 0 <= src -> dst + Z.of_nat n <= zlen m -> src + Z.of_nat n <= zlen m ->
  dst + Z.of_nat n <= src \/ src + Z.of_nat n <= dst ->
  exists m', cells_copy n m dst src = Some m' /\ zlen m' = zlen m /\
    (forall i, ~ (dst <= i < dst + Z.of_nat n) -> zget m' i = zget m i) /\
    (forall i, 0 <= i < Z.of_nat n -> zget m' (dst + i) = zget m (src + i)).
Proof.
  induction n as [|n IH]; intros m dst src H1 H2 H3 H4 Hdis; cbn [cells_copy].
  - exists m. split_and!; try done. intros i Hi. lia.
  - destruct (zget_in m src) as [x Hx]; [lia|]. rewrite Hx. cbn [mbind option_bind].
    rewrite zset_ok by lia. cbn [mbind option_bind].
    destruct (IH (zupd m dst x) (dst + 1) (src + 1)) as (m' & -> & Hl & Hout & Hin);
      [rewrite ?zlen_zupd; lia..|].
    exists m'. split_and!; [done|by rewrite Hl, zlen_zupd| |].
    + intros i Hi. rewrite Hout by lia. apply zget_zupd_ne; lia.
    + intros i Hi. destruct (decide (i = 0)) as [->|].
      * rewrite !Z.add_0_r. rewrite Hout by lia. by rewrite zget_zupd_eq by lia.
      * replace (dst + i) with (dst + 1 + (i - 1)) by lia. rewrite Hin by lia.
        rewrite zget_zupd_ne by lia. f_equal. lia.
Qed.

Lemma is_counts_zeros d : is_counts (replicate 256 0) d [].
Proof.
  split; [done|]. intros v Hv. unfold zget. destruct (Z.leb_spec 0 v); [|lia].
  rewrite lookup_replicate_2 by lia. done.
Qed.

(** [m] holds [l] in the cells from [b] on. *)
Definition holds m (b : Z) l : Prop := forall i, 0 <= i < zlen l -> zget m (b + i) = zget l i.

Section Rounds.
Context (begin n : Z) (Hbegin : 0 <= begin) (Hn : 0 < n <= UINT32_MAX) (Hgap : 0 <= END_GAP).
Let tmp := begin + n + END_GAP.

(** The effect of a distribution pass between the two halves. *)
Lemma radix_pass m l src dst d c : (src = begin /\ dst = tmp) \/ (src = tmp /\ dst = begin) ->
  digit_ok d -> zlen l = n -> tmp + n <= zlen m -> holds m src l -> is_counts c d l ->
  exists m', (c ← radix_prefix 256 0 c 0; radix_scatter (length l) m src dst d c) = Some m' /\
    zlen m' = zlen m /\ (forall i, ~ (dst <= i < dst + n) -> zget m' i = zget m i) /\
    holds m' dst (buckets d l).
Proof using Hbegin Hn Hgap.
  intros Hsd Hd Hl Hm Hsrc [Hlc Hc]. subst tmp.
  destruct (radix_prefix_spec d l 256 0 c) as (c' & E & Hlc' & Hc'); try done; [lia| |].
  { intros v Hv. lia. }
  rewrite below_0 in E by (intros x _; apply Hd). rewrite E. cbn [mbind option_bind].
  destruct (radix_scatter_spec d l src dst l [] m c') as (m' & E' & Hl' & Hout & Hin);
    try done; try lia.
  { intros v Hv. rewrite Hc' by done. f_equal. rewrite count_nil. lia. }
  { intros v k Hv Hk. rewrite count_nil in Hk. lia. }
  rewrite zlen_nil, Z.add_0_r in E'. exists m'. split_and!; try done.
  - intros i Hi. apply Hout. lia.
  - intros i Hi. rewrite zlen_buckets in Hi by done. apply Hin. lia.
Qed.

Lemma radix_rounds_spec fuel : forall m l s,
  0 <= s -> zlen l = n -> tmp + n <= zlen m -> holds m begin l -> sorted_low s l ->
  (forall x, x ∈ l -> 0 <= EXTRACT_KEY x < 2 ^ (s + 16 * Z.of_nat fuel)) -> (0 < fuel)%nat ->
  exists m' l', radix_rounds fuel m begin (length l) s = Some m' /\ zlen m' = zlen m /\
    (forall i, ~ (begin <= i < begin + n) -> ~ (tmp <= i < tmp + n) -> zget m' i = zget m i) /\
    holds m' begin l' /\ l' ≡ₚ l /\ sorted_key l'.
Proof using Hbegin Hn Hgap.
  induction fuel as [|fuel IH]; intros m l s Hs Hl Hm Hh Hsl Hkey Hfuel; [lia|].
  destruct l as [|x0 l0] eqn:El; [rewrite zlen_nil in Hl; lia|]. rewrite <- El in *.
  assert (zget m begin = Some x0) as H0.
  { rewrite <- (Z.add_0_r begin), Hh by lia. by rewrite El. }
  cbn [radix_rounds]. rewrite H0. cbn [mbind option_bind].
  set (prev := Z.shiftr (EXTRACT_KEY x0) s).
  destruct (radix_count_spec l m begin s (replicate 256 0) (replicate 256 0) 0 prev [])
    as (ca & cb & mask & -> & Ha & Hb & _ & Hcov & Hup); [done|zlia|apply is_counts_zeros..|].
  cbn [mbind option_bind]. rewrite app_nil_l in *.
  assert (begin + Z.of_nat (length l) + END_GAP = tmp) as -> by (unfold tmp, zlen in *; lia).
  destruct (radix_pass m l begin tmp (digit_a s) ca) as (m1 & E1 & Hl1 & Hout1 & Hh1);
    [by left|apply digit_a_ok|done..|].
  destruct (radix_prefix 256 0 ca 0) as [ca'|] eqn:Eca; [|done]. cbn [mbind option_bind] in E1 |- *.
  set (l1 := buckets (digit_a s) l) in *.
  assert (l1 ≡ₚ l) as P1 by (apply buckets_perm, digit_a_ok).
  assert (zlen l1 = n) as Hn1 by (unfold zlen; rewrite P1; done).
  assert (sorted_low (s + 8) l1) as S1.
  { apply sorted_low_buckets; [done|apply digit_a_ok|intros; by apply digit_a_div|done]. }
  assert (is_counts cb (digit_b s) l1) as Hb1.
  { destruct Hb as [? Hb]. split; [done|]. intros v Hv. rewrite Hb by done.
    unfold count, zlen. by rewrite P1. }
  destruct (radix_pass m1 l1 tmp begin (digit_b s) cb) as (m2 & E2 & Hl2 & Hout2 & Hh2);
    [by right|apply digit_b_ok|done|by rewrite Hl1|done|done|].
  destruct (radix_prefix 256 0 cb 0) as [cb'|] eqn:Ecb; [|done]. cbn [mbind option_bind] in E2 |- *.
  rewrite E1. cbn [mbind option_bind].
  assert (forall t, 0 <= t -> Z.shiftr mask t = 0 -> forall x, x ∈ l ->
    EXTRACT_KEY x / 2 ^ (s + t) = Z.shiftr prev t) as Heq.
  { intros t Ht Hz x Hx. specialize (Hcov t Ht Hz x Hx).
    by rewrite Z.shiftr_shiftr, Z.shiftr_div_pow2 in Hcov by lia. }
  assert (Z.shiftr mask (16 * Z.of_nat (S fuel)) = 0) as Hmask.
  { assert (forall x, x ∈ l -> Z.shiftr (Z.shiftr (EXTRACT_KEY x) s) (16 * Z.of_nat (S fuel)) = 0) as Hz.
    { intros x Hx. specialize (Hkey x Hx).
      rewrite Z.shiftr_shiftr, Z.shiftr_div_pow2 by lia. by apply Z.div_small. }
    apply Hup; [by rewrite Z.shiftr_0_l| |done]. apply Hz. rewrite El. constructor. }
  assert (length l1 = length l) as Hll by (unfold zlen in *; lia).
  destruct (Z.ltb_spec mask 256) as [Hsmall|Hbig].
  { destruct (cells_copy_spec (length l) m1 begin tmp) as (m' & -> & Hl' & Hout' & Hin');
      try (unfold tmp, zlen in *; lia).
    exists m', l1. split_and!; [done|congruence| |..|done|].
    - intros i Hi1 Hi2. rewrite Hout' by (unfold zlen in *; lia). by apply Hout1.
    - intros i Hi. rewrite Hin' by (unfold zlen in *; lia). by apply Hh1.
    - apply (sorted_low_key (s + 8) (Z.shiftr prev 8)); [lia| |done].
      intros x Hx. apply Heq; [lia| |by rewrite <- P1].
      rewrite Z.shiftr_div_pow2 in Hmask |- * by lia. apply Z.div_small.
      apply Z.div_small_iff in Hmask; lia. }
  rewrite <- Hll, E2. cbn [mbind option_bind].
  set (l2 := buckets (digit_b s) l1) in *.
  assert (l2 ≡ₚ l) as P2 by (rewrite <- P1; apply buckets_perm, digit_b_ok).
  assert (zlen l2 = n) as Hn2 by (unfold zlen; rewrite P2; done).
  assert (sorted_low (s + 16) l2) as S2.
  { replace (s + 16) with (s + 8 + 8) by lia.
    apply sorted_low_buckets; [lia|apply digit_b_ok|intros; by apply digit_b_div|done]. }
  assert (forall i, ~ (begin <= i < begin + n) -> ~ (tmp <= i < tmp + n) -> zget m2 i = zget m i) as Hout12.
  { intros i Hi1 Hi2. rewrite Hout2 by done. by apply Hout1. }
  destruct (Z.eqb_spec (Z.shiftr mask 16) 0) as [Hz|Hnz]; cbn [negb].
  { exists m2, l2. split_and!; [done|congruence|done|done|done|].
    apply (sorted_low_key (s + 16) (Z.shiftr prev 16)); [lia| |done].
    intros x Hx. apply Heq; [lia|done|by rewrite <- P2]. }
  destruct (IH m2 l2 (s + 16)) as (m' & l' & E' & Hl' & Hout' & Hh' & P' & S');
    try done; try lia.
  { intros x Hx. rewrite P2 in Hx. specialize (Hkey x Hx).
    by replace (s + 16 + 16 * Z.of_nat fuel) with (s + 16 * Z.of_nat (S fuel)) by lia. }
  { destruct fuel; [by exfalso; apply Hnz|lia]. }
  exists m', l'. rewrite <- E'. replace (length l1) with (length l2) by (unfold zlen in *; lia).
  split_and!; [done|congruence| |done|by rewrite P'|done].
  intros i Hi1 Hi2. rewrite Hout' by done. by apply Hout12.
Qed.
End Rounds.

(** The radix sort of a list followed by its buffer: it returns, sorts the
    list by the key, and touches nothing else but the buffer. *)
Lemma radixsort_spec pre seg gap buf post :
  0 < zlen seg <= UINT32_MAX -> zlen gap = END_GAP -> zlen buf = zlen seg ->
  (forall x, x ∈ seg -> 0 <= EXTRACT_KEY x < 2 ^ 64) ->
  exists seg' buf', radixsort (pre ++ seg ++ gap ++ buf ++ post) (zlen pre) (length seg) =
      Some (pre ++ seg' ++ gap ++ buf' ++ post) /\
    seg' ≡ₚ seg /\ zlen buf' = zlen buf /\ sorted_key seg'.
Proof.
  intros Hn Hg Hb Hk. set (m := pre ++ seg ++ gap ++ buf ++ post).
  destruct (radix_rounds_spec (zlen pre) (zlen seg) (zlen_nonneg pre) Hn ltac:(zlia) 4 m seg 0)
    as (m' & l' & E & Hl & Hout & Hin & P & S); try done; [subst m; zlia| | |lia|].
  { intros i Hi. subst m. by rewrite zget_seg. }
  { apply StronglySorted_zget. intros i j x y Hij Hx Hy. by rewrite !Z.mod_1_r. }
  assert (zlen l' = zlen seg) as Hl' by (unfold zlen; by rewrite P).
  destruct (zsplit m' (zlen pre + zlen seg + zlen gap)) as (h & r & Em & Hh); [subst m; zlia|].
  destruct (zsplit r (zlen seg)) as (buf' & post' & -> & Hbuf'); [subst m m'; zlia|].
  exists l', buf'. split_and!; [|done|congruence|done].
  unfold radixsort. rewrite E. f_equal.
  assert (h = pre ++ l' ++ gap) as ->.
  { apply zget_ext; [zlia|]. intros i Hi. rewrite <- (zget_app_l h (buf' ++ post')) by lia.
    rewrite <- Em. destruct (decide (zlen pre <= i < zlen pre + zlen seg)) as [Hi'|Hi'].
    - replace i with (zlen pre + (i - zlen pre)) by lia. rewrite Hin, zget_seg by lia. done.
    - rewrite Hout by (lia). subst m. destruct (decide (i < zlen pre)).
      + by rewrite !zget_app_l by lia.
      + rewrite !(zget_app_r pre), (zget_app_r l'), (zget_app_r seg) by lia. rewrite (zget_app_l gap) by lia. by rewrite Hl'. }
  assert (post' = post) as ->.
  { apply zget_ext; [subst m m'; zlia|]. intros i Hi.
    assert (zget m' (zlen pre + zlen seg + zlen gap + zlen seg + i) =
            zget m (zlen pre + zlen seg + zlen gap + zlen seg + i)) as Hbi by (apply Hout; zlen_pos; lia).
    subst m' m. rewrite (app_assoc _ buf'), (zget_app_skip _ _ _ i) in Hbi by zlia.
    rewrite !(app_assoc _ _ post), (zget_app_skip _ _ _ i) in Hbi by zlia. done. }
  rewrite Em. by rewrite <- !app_assoc.
Qed.
End Radix.

(** ** Claims *)

(** The radix sort, with the second half of the block as its buffer, orders
    the cells by their 64-bit key: a round distributes them by two digits of 8
    bits, the gap between the halves and everything outside stay as they are,
    and stopping at the highest bit in which keys differ skips no round that
    matters. *)
Theorem radixsort_sorts {A} (EXTRACT_KEY : A -> Z) END_GAP pre seg gap buf post :
  0 < zlen seg <= UINT32_MAX -> zlen gap = END_GAP -> zlen buf = zlen seg ->
  (forall x, x ∈ seg -> 0 <= EXTRACT_KEY x < 2 ^ 64) ->
  exists seg' buf', radixsort EXTRACT_KEY END_GAP (pre ++ seg ++ gap ++ buf ++ post) (zlen pre) (length seg) =
      Some (pre ++ seg' ++ gap ++ buf' ++ post) /\
    seg' ≡ₚ seg /\ zlen buf' = zlen buf /\ sorted_key EXTRACT_KEY seg'.
Proof. apply radixsort_spec. Qed.

Lemma radixsort_sorts_witness : exists seg' buf',
  radixsort (fun x => x) 1 ([7] ++ [300; 2; 70000; 5] ++ [8] ++ [0; 0; 0; 0] ++ []) 1 4 =
    Some ([7] ++ seg' ++ [8] ++ buf' ++ []) /\
  seg' ≡ₚ [300; 2; 70000; 5] /\ zlen buf' = 4 /\ sorted_key (fun x => x) seg'.
Proof.
  apply (radixsort_sorts (fun x => x) 1 [7] [300; 2; 70000; 5] [8] [0; 0; 0; 0] []); [by vm_compute|done|done|].
  intros x Hx. rewrite !elem_of_cons, elem_of_nil in Hx. lia.
Defined.
