(* ===== verification/Bits.v ===== *)
(** * Word-level helpers ([src/src/utils.h], [src/src/utils.c])

    Rounding to powers of two, the portable count-leading/trailing-zeros
    fallbacks, [ceil_log2n] and the 64x64 to 128 bit arithmetic. [size_t] and
    [uintptr_t] are 64 bits wide. *)

From stdpp Require Import base list numbers option.
From Stdlib Require Import ZArith Lia.
From S2P Require Import Prelude.

(** ** Rounding *)

Definition is_powerof2 (x : Z) : bool := Z.land x (u64 (x - 1)) =? 0.

(** [value & ~(granularity - 1)] *)
Definition floor_powerof2 (value granularity : Z) : Z :=
  Z.land value (u64 (Z.lnot (u64 (granularity - 1)))).

Definition ceil_powerof2 (value granularity : Z) : Z :=
  floor_powerof2 (u64 (value + granularity - 1)) granularity.

Definition max_unsigned (a b : Z) : Z := if b <? a then a else b.
Definition min_unsigned (a b : Z) : Z := if a <? b then a else b.
Definition clamp_unsigned (v min max : Z) : Z := min_unsigned (max_unsigned v min) max.

(** [branchless_abs] of a 64-bit signed value; the result is unsigned. *)
Definition branchless_abs (value : Z) : Z :=
  let expanded_sign := u64 (Z.shiftr value 63) in
  Z.lxor (u64 (u64 value + expanded_sign)) expanded_sign.

(** ** Leading and trailing zeros *)

Definition deBruijn_clz64 : list Z :=
  [63; 16; 62; 7;  15; 36; 61; 3;  6;  14; 22; 26; 35; 47; 60; 2;
   9;  5;  28; 11; 13; 21; 42; 19; 25; 31; 34; 40; 46; 52; 59; 1;
   17; 8;  37; 4;  23; 27; 48; 10; 29; 12; 43; 20; 32; 41; 53; 18;
   38; 24; 49; 30; 44; 33; 54; 39; 50; 45; 55; 51; 56; 57; 58; 0].

Definition smear (value shift : Z) : Z := Z.lor value (Z.shiftr value shift).

Definition clz64_fallback (value : Z) : option Z :=
  let value := smear value 1 in
  let value := smear value 2 in
  let value := smear value 4 in
  let value := smear value 8 in
  let value := smear value 16 in
  let value := smear value 32 in
  zget deBruijn_clz64 (Z.shiftr (u64 (value * 0x03F79D71B4CB0A89)) 58).

Definition deBruijn_clz32 : list Z :=
  [31; 22; 30; 21; 18; 10; 29; 2;  20; 17; 15; 13; 9; 6;  28; 1;
   23; 19; 11; 3;  16; 14; 7;  24; 12; 4;  8;  25; 5; 26; 27; 0].

Definition clz32_fallback (value : Z) : option Z :=
  let value := smear value 1 in
  let value := smear value 2 in
  let value := smear value 4 in
  let value := smear value 8 in
  let value := smear value 16 in
  zget deBruijn_clz32 (Z.shiftr (u32 (value * 0x07C4ACDD)) 27).

Definition deBruijn_ctz64 : list Z :=
  [0;  1;  2;  53; 3;  7;  54; 27; 4;  38; 41; 8;  34; 55; 48; 28;
   62; 5;  39; 46; 44; 42; 22; 9;  24; 35; 59; 56; 49; 18; 29; 11;
   63; 52; 6;  26; 37; 40; 33; 47; 61; 45; 43; 21; 23; 58; 17; 10;
   51; 25; 36; 32; 60; 20; 57; 16; 50; 31; 19; 15; 30; 14; 13; 12].

Definition ctz64_fallback (value : Z) : option Z :=
  zget deBruijn_ctz64 (Z.shiftr (u64 (0x022FDD63CC95386D * value)) 58).

Definition deBruijn_ctz32 : list Z :=
  [0;  1;  28; 2;  29; 14; 24; 3; 30; 22; 20; 15; 25; 17; 4;  8;
   31; 27; 13; 23; 21; 19; 16; 7; 26; 12; 18; 6;  11; 5;  10; 9].

Definition ctz32_fallback (value : Z) : option Z :=
  zget deBruijn_ctz32 (Z.shiftr (u32 (0x077CB531 * value)) 27).

(** [log2n_powerof2], with the portable [ctz64]. *)
Definition log2n_powerof2 (value : Z) : option Z := ctz64_fallback value.

Definition ceil_log2n (value : Z) : option Z :=
  let value := u64 (value - 1) in
  let value := smear value 1 in
  let value := smear value 2 in
  let value := smear value 4 in
  let value := smear value 8 in
  let value := smear value 16 in
  log2n_powerof2 (u64 (value + 1)).

(** ** 128-bit arithmetic *)

Record bin128 : Set := mk128 { lo64 : Z; hi64 : Z }.

Definition val128 (x : bin128) : Z := hi64 x * 2 ^ 64 + lo64 x.
Definition wf128 (x : bin128) : Prop := 0 <= lo64 x < 2 ^ 64 /\ 0 <= hi64 x < 2 ^ 64.

Definition mul64x64_128_fallback (x y : Z) : bin128 :=
  let mask := 0xFFFFFFFF in
  let xl := Z.land x mask in
  let xh := Z.shiftr x 32 in
  let yl := Z.land y mask in
  let yh := Z.shiftr y 32 in
  let ll := u64 (xl * yl) in
  let hh := u64 (xh * yh) in
  let hl := u64 (u64 (xh * yl) + Z.shiftr ll 32) in
  let lh := u64 (u64 (xl * yh) + Z.land hl mask) in
  mk128 (Z.lor (u64 (Z.shiftl lh 32)) (Z.land ll mask))
        (u64 (u64 (hh + Z.shiftr hl 32) + Z.shiftr lh 32)).

Definition u128_eq (x y : bin128) : bool := (lo64 x =? lo64 y) && (hi64 x =? hi64 y).

Definition u128_add (x y : bin128) : bin128 :=
  let l := u64 (lo64 x + lo64 y) in
  mk128 l (u64 (u64 (hi64 x + hi64 y) + (if l <? lo64 x then 1 else 0))).

Definition CMP2INT (a b : Z) : Z := if a =? b then 0 else if a <? b then -1 else 1.

Definition u128_cmp (x y : bin128) : Z :=
  let a := if hi64 x =? hi64 y then lo64 x else hi64 x in
  let b := if hi64 x =? hi64 y then lo64 y else hi64 y in
  CMP2INT a b.

Definition u128_gt (x y : bin128) : bool :=
  (hi64 y <? hi64 x) || ((hi64 x =? hi64 y) && (lo64 y <? lo64 x)).

Definition u128_lt (x y : bin128) : bool :=
  (hi64 x <? hi64 y) || ((hi64 x =? hi64 y) && (lo64 x <? lo64 y)).

Definition u128 (v : Z) : bin128 := mk128 v 0.
Definition u128_max : bin128 := mk128 UINT64_MAX UINT64_MAX.

(** ** Rounding: proofs *)

Lemma land_lnot_pow2 v k : 0 <= k -> Z.land v (Z.lnot (2 ^ k - 1)) = v - v mod 2 ^ k.
Proof.
  intros Hk.
  replace (2 ^ k - 1) with (Z.ones k) by (rewrite Z.ones_equiv; lia).
  rewrite <- Z.ldiff_land, Z.ldiff_ones_r by lia.
  rewrite Z.shiftl_mul_pow2, Z.shiftr_div_pow2 by lia.
  rewrite (Z.div_mod v (2 ^ k)) at 2 by lia. lia.
Qed.

Lemma floor_powerof2_spec value k : 0 <= value < 2 ^ 64 -> 0 <= k < 64 ->
  floor_powerof2 value (2 ^ k) = value - value mod 2 ^ k.
Proof.
  intros Hv Hk. unfold floor_powerof2.
  assert (0 < 2 ^ k < 2 ^ 64) as Hg by (split; [lia|]; apply Z.pow_lt_mono_r; lia).
  rewrite (u64_small (2 ^ k - 1)) by (unfold UINT64_MAX; lia).
  rewrite <- land_lnot_pow2 by lia. unfold u64, wrap.
  rewrite <- Z.land_ones, Z.land_assoc by lia.
  rewrite (Z.land_comm _ (Z.ones 64)), Z.land_assoc. rewrite (Z.land_comm (Z.ones 64)).
  rewrite Z.land_ones, (Z.mod_small value) by lia. done.
Qed.

Lemma ceil_powerof2_spec value k :
  0 <= value -> 0 <= k < 64 -> value + 2 ^ k - 1 < 2 ^ 64 ->
  let r := ceil_powerof2 value (2 ^ k) in
  value <= r < value + 2 ^ k /\ r mod 2 ^ k = 0.
Proof.
  intros Hv Hk Hof. cbn zeta. unfold ceil_powerof2.
  rewrite u64_small by (unfold UINT64_MAX; lia).
  rewrite floor_powerof2_spec by lia.
  pose proof (Z.mod_pos_bound (value + 2 ^ k - 1) (2 ^ k) ltac:(lia)).
  split; [lia|]. rewrite Zminus_mod_idemp_r, Z.sub_diag. by apply Z.mod_0_l; lia.
Qed.

Lemma is_powerof2_pow2 k : 0 <= k < 64 -> is_powerof2 (2 ^ k) = true.
Proof.
  intros Hk. unfold is_powerof2.
  assert (0 < 2 ^ k < 2 ^ 64) as Hg by (split; [lia|]; apply Z.pow_lt_mono_r; lia).
  rewrite u64_small by (unfold UINT64_MAX; lia).
  replace (2 ^ k - 1) with (Z.ones k) by (rewrite Z.ones_equiv; lia).
  rewrite Z.land_ones, Z.mod_same by lia. done.
Qed.

Lemma branchless_abs_spec v : - 2 ^ 63 < v < 2 ^ 63 -> branchless_abs v = Z.abs v.
Proof.
  intros Hv. unfold branchless_abs. rewrite Z.shiftr_div_pow2 by lia.
  destruct (decide (0 <= v)) as [Hp|Hn].
  - rewrite Z.div_small by lia. change (u64 0) with 0.
    rewrite Z.add_0_r, Z.lxor_0_r, !(u64_small v) by (unfold UINT64_MAX; lia). lia.
  - assert (v / 2 ^ 63 = -1) as -> by (symmetry; apply (Z.div_unique _ _ _ (v + 2 ^ 63)); lia).
    change (u64 (-1)) with (Z.ones 64). unfold u64, wrap.
    rewrite Zplus_mod_idemp_l.
    replace (v + Z.ones 64) with (v - 1 + 1 * 2 ^ 64) by (rewrite Z.ones_equiv; lia).
    rewrite Z.mod_add by lia.
    assert ((v - 1) mod 2 ^ 64 = Z.ones 64 - (- v)) as ->.
    { symmetry. apply (Z.mod_unique _ _ (-1)); rewrite Z.ones_equiv; lia. }
    assert (forall a, 0 <= a < 2 ^ 64 -> Z.lxor (Z.ones 64 - a) (Z.ones 64) = a) as Hx.
    { intros a Ha. apply Z.bits_inj'. intros i Hi. rewrite Z.lxor_spec.
      destruct (decide (i < 64)).
      - rewrite (Z.ones_spec_low 64 i) by lia.
        replace (Z.ones 64 - a) with (Z.lnot a + 1 * 2 ^ 64)
          by (rewrite Z.ones_equiv; unfold Z.lnot; lia).
        rewrite <- (Z.mod_pow2_bits_low _ 64 i), Z.mod_add, Z.mod_pow2_bits_low, Z.lnot_spec by lia.
        by destruct (Z.testbit a i).
      - rewrite (Z.ones_spec_high 64 i) by lia. rewrite xorb_false_r.
        assert (forall z, 0 <= z < 2 ^ 64 -> Z.testbit z i = false) as Hh.
        { intros z Hz. rewrite <- (Z.mod_small z (2 ^ 64)) by lia. apply Z.mod_pow2_bits_high. lia. }
        rewrite !Hh; [done|lia|rewrite Z.ones_equiv; lia]. }
    rewrite Hx; lia.
Qed.

(** ** Leading and trailing zeros: proofs *)

Definition smeared (n v w : Z) : Prop :=
  forall i, 0 <= i -> Z.testbit w i = true <-> exists j, 0 <= j < n /\ Z.testbit v (i + j) = true.

Lemma smeared_1 v : smeared 1 v v.
Proof.
  intros i Hi. split.
  - intros H. exists 0. rewrite Z.add_0_r. split; [lia|done].
  - intros (j & Hj & H). replace j with 0 in H by lia. by rewrite Z.add_0_r in H.
Qed.

Lemma smeared_double n v w : 0 < n -> smeared n v w -> smeared (2 * n) v (smear w n).
Proof.
  intros Hn H i Hi. unfold smear. rewrite Z.lor_spec, orb_true_iff, Z.shiftr_spec by lia.
  rewrite (H i Hi), (H (i + n)) by lia. split.
  - intros [(j & Hj & Ht)|(j & Hj & Ht)]; [exists j|exists (n + j)]; (split; [lia|]);
      [done|by rewrite Z.add_assoc].
  - intros (j & Hj & Ht). destruct (decide (j < n)).
    + left. exists j. split; [lia|done].
    + right. exists (j - n). split; [lia|]. by replace (i + n + (j - n)) with (i + j) by lia.
Qed.

Lemma smeared_ones n v w : 0 <= w -> 0 < v < 2 ^ n -> 0 <= n -> smeared n v w -> w = Z.ones (Z.log2 v + 1).
Proof.
  intros Hw Hv Hn H. pose proof (Z.log2_nonneg v) as Hl.
  assert (Z.log2 v < n) as Hln by (apply Z.log2_lt_pow2; lia).
  apply Z.bits_inj'. intros i Hi. apply eq_true_iff_eq. rewrite (H i Hi). split.
  - intros (j & Hj & Ht). apply Z.ones_spec_low.
    destruct (decide (Z.log2 v < i + j)) as [Hlt|]; [|lia].
    rewrite Z.bits_above_log2 in Ht by lia. done.
  - intros Ht. destruct (decide (i < Z.log2 v + 1)).
    + exists (Z.log2 v - i). split; [lia|]. replace (i + (Z.log2 v - i)) with (Z.log2 v) by lia.
      apply Z.bit_log2. lia.
    + rewrite Z.ones_spec_high in Ht by lia. done.
Qed.

Lemma smear_nonneg v n : 0 <= v -> 0 <= smear v n.
Proof. intros H. unfold smear. apply Z.lor_nonneg. split; [done|]. by apply Z.shiftr_nonneg. Qed.

Lemma smear_chain32 v : 0 < v < 2 ^ 32 ->
  smear (smear (smear (smear (smear v 1) 2) 4) 8) 16 = Z.ones (Z.log2 v + 1).
Proof.
  intros Hv. apply (smeared_ones 32); [|done|lia|].
  - do 5 apply smear_nonneg. lia.
  - do 5 (match goal with |- smeared ?n _ (smear _ ?k) => change n with (2 * k) end;
      apply smeared_double; [lia|]). apply smeared_1.
Qed.

Lemma smear_chain64 v : 0 < v < 2 ^ 64 ->
  smear (smear (smear (smear (smear (smear v 1) 2) 4) 8) 16) 32 = Z.ones (Z.log2 v + 1).
Proof.
  intros Hv. apply (smeared_ones 64); [|done|lia|].
  - do 6 apply smear_nonneg. lia.
  - do 6 (match goal with |- smeared ?n _ (smear _ ?k) => change n with (2 * k) end;
      apply smeared_double; [lia|]). apply smeared_1.
Qed.

(** A decidable statement about all [k] in [0, n). *)
Lemma forall_lt_check (n : nat) (P : Z -> bool) :
  forallb (fun i => P (Z.of_nat i)) (seq 0 n) = true -> forall k, 0 <= k < Z.of_nat n -> P k = true.
Proof.
  intros H k Hk. rewrite forallb_forall in H. specialize (H (Z.to_nat k)).
  rewrite Z2Nat.id in H by lia. apply H. apply in_seq. lia.
Qed.

Definition is_Some_eq (o : option Z) (v : Z) : bool :=
  match o with Some x => x =? v | None => false end.

Lemma is_Some_eq_true o v : is_Some_eq o v = true -> o = Some v.
Proof. destruct o; cbn; [|done]. intros ->%Z.eqb_eq. done. Qed.

Lemma clz64_fallback_log2 v : 0 < v < 2 ^ 64 -> clz64_fallback v = Some (63 - Z.log2 v).
Proof.
  intros Hv. unfold clz64_fallback. cbn zeta. rewrite smear_chain64 by done.
  assert (Z.log2 v < 64) by (apply Z.log2_lt_pow2; lia). pose proof (Z.log2_nonneg v).
  generalize dependent (Z.log2 v). intros k Hk1 Hk2. clear v Hv.
  apply is_Some_eq_true. revert k Hk1 Hk2.
  assert (forall k, 0 <= k < Z.of_nat 64 ->
    is_Some_eq (zget deBruijn_clz64 (Z.shiftr (u64 (Z.ones (k + 1) * 0x03F79D71B4CB0A89)) 58)) (63 - k) = true) as H.
  { apply forall_lt_check. vm_compute. reflexivity. }
  intros k H1 H2. apply H. lia.
Qed.

Lemma clz32_fallback_log2 v : 0 < v < 2 ^ 32 -> clz32_fallback v = Some (31 - Z.log2 v).
Proof.
  intros Hv. unfold clz32_fallback. cbn zeta. rewrite smear_chain32 by done.
  assert (Z.log2 v < 32) by (apply Z.log2_lt_pow2; lia). pose proof (Z.log2_nonneg v).
  generalize dependent (Z.log2 v). intros k Hk1 Hk2. clear v Hv.
  apply is_Some_eq_true. revert k Hk1 Hk2.
  assert (forall k, 0 <= k < Z.of_nat 32 ->
    is_Some_eq (zget deBruijn_clz32 (Z.shiftr (u32 (Z.ones (k + 1) * 0x07C4ACDD)) 27)) (31 - k) = true) as H.
  { apply forall_lt_check. vm_compute. reflexivity. }
  intros k H1 H2. apply H. lia.
Qed.

Lemma ctz64_fallback_pow2 k : 0 <= k < 64 -> ctz64_fallback (2 ^ k) = Some k.
Proof.
  intros Hk. apply is_Some_eq_true. revert k Hk.
  change 64 with (Z.of_nat 64). apply forall_lt_check. vm_compute. reflexivity.
Qed.

Lemma ctz32_fallback_pow2 k : 0 <= k < 32 -> ctz32_fallback (2 ^ k) = Some k.
Proof.
  intros Hk. apply is_Some_eq_true. revert k Hk.
  change 32 with (Z.of_nat 32). apply forall_lt_check. vm_compute. reflexivity.
Qed.

Lemma ceil_log2n_log2_up v : 0 < v < 2 ^ 31 - 1 -> ceil_log2n v = Some (Z.log2_up v).
Proof.
  intros Hv. unfold ceil_log2n, log2n_powerof2. cbn zeta.
  rewrite !(u64_small (v - 1)) by (unfold UINT64_MAX; lia).
  destruct (decide (v = 1)) as [->|Hne]; [reflexivity|].
  rewrite smear_chain32 by lia. rewrite Z.ones_equiv.
  assert (Z.log2 (v - 1) + 1 = Z.log2_up v) as ->.
  { rewrite <- Z.add_1_r || idtac. rewrite Z.log2_up_eqn by lia. by rewrite Z.sub_1_r. }
  assert (Z.log2_up v <= 31).
  { change 31 with (Z.log2_up (2 ^ 31)). apply Z.log2_up_le_mono. lia. }
  pose proof (Z.log2_up_nonneg v).
  assert (0 < 2 ^ Z.log2_up v <= 2 ^ 31) by (split; [lia|apply Z.pow_le_mono_r; lia]).
  rewrite u64_small by (unfold UINT64_MAX; lia).
  replace (Z.pred (2 ^ Z.log2_up v) + 1) with (2 ^ Z.log2_up v) by lia.
  apply ctz64_fallback_pow2. lia.
Qed.

(** ** 128-bit arithmetic: proofs *)

Lemma u128_add_val x y : wf128 x -> wf128 y ->
  wf128 (u128_add x y) /\ val128 (u128_add x y) = (val128 x + val128 y) mod 2 ^ 128.
Proof.
  destruct x as [xl xh], y as [yl yh]. unfold wf128, val128, u128_add. cbn. intros [Hxl Hxh] [Hyl Hyh].
  assert (forall z, 0 <= u64 z < 2 ^ 64) as Hr by (intros; apply wrap_range; lia).
  split; [split; apply Hr|].
  assert (u64 (xl + yl) = xl + yl /\ xl + yl < 2 ^ 64 \/
          u64 (xl + yl) = xl + yl - 2 ^ 64 /\ 2 ^ 64 <= xl + yl) as Hl.
  { destruct (decide (xl + yl < 2 ^ 64)); [left|right]; (split; [|lia]).
    - apply u64_small. unfold UINT64_MAX. lia.
    - unfold u64, wrap. symmetry. apply (Z.mod_unique _ _ 1); lia. }
  assert (exists c, (if u64 (xl + yl) <? xl then 1 else 0) = c /\ u64 (xl + yl) = xl + yl - c * 2 ^ 64) as (c & -> & El).
  { eexists. split; [done|]. destruct (Z.ltb_spec (u64 (xl + yl)) xl); lia. }
  rewrite El. unfold u64, wrap. rewrite Zplus_mod_idemp_l.
  remember (xh + yh + c) as h eqn:Eh.
  change (2 ^ 128) with (2 ^ 64 * 2 ^ 64).
  rewrite Z.rem_mul_r by lia.
  assert ((xh * 2 ^ 64 + xl + (yh * 2 ^ 64 + yl)) = (xl + yl - c * 2 ^ 64) + h * 2 ^ 64) as -> by (rewrite Eh; ring).
  assert (0 <= xl + yl - c * 2 ^ 64 < 2 ^ 64) by (rewrite <- El; apply Hr).
  rewrite Z.mod_add, Z.div_add by lia. rewrite (Z.mod_small (xl + yl - c * 2 ^ 64)), (Z.div_small (xl + yl - c * 2 ^ 64)) by lia.
  rewrite Z.add_0_l. lia.
Qed.

Lemma u128_cmp_val x y : wf128 x -> wf128 y -> u128_cmp x y = CMP2INT (val128 x) (val128 y).
Proof.
  destruct x as [xl xh], y as [yl yh]. unfold wf128, val128, u128_cmp, CMP2INT. cbn.
  intros [Hxl Hxh] [Hyl Hyh]. repeat zcase; nia.
Qed.

Lemma u128_lt_val x y : wf128 x -> wf128 y -> u128_lt x y = (val128 x <? val128 y).
Proof.
  destruct x as [xl xh], y as [yl yh]. unfold wf128, val128, u128_lt. cbn.
  intros [Hxl Hxh] [Hyl Hyh]. repeat zcase; cbn; nia.
Qed.

Lemma u128_gt_val x y : wf128 x -> wf128 y -> u128_gt x y = (val128 y <? val128 x).
Proof.
  destruct x as [xl xh], y as [yl yh]. unfold wf128, val128, u128_gt. cbn.
  intros [Hxl Hxh] [Hyl Hyh]. repeat zcase; cbn; nia.
Qed.

Lemma mul64x64_128_val x y : 0 <= x < 2 ^ 64 -> 0 <= y < 2 ^ 64 ->
  wf128 (mul64x64_128_fallback x y) /\ val128 (mul64x64_128_fallback x y) = x * y.
Proof.
  intros Hx Hy. unfold mul64x64_128_fallback. cbn zeta.
  change 0xFFFFFFFF with (Z.ones 32). rewrite !Z.land_ones, !Z.shiftr_div_pow2 by lia.
  pose proof (Z.div_mod x (2 ^ 32) ltac:(lia)) as Ex. pose proof (Z.div_mod y (2 ^ 32) ltac:(lia)) as Ey.
  pose proof (Z.mod_pos_bound x (2 ^ 32) ltac:(lia)) as Bxl. pose proof (Z.mod_pos_bound y (2 ^ 32) ltac:(lia)) as Byl.
  assert (0 <= x / 2 ^ 32 < 2 ^ 32) as Bxh by (split; [apply Z.div_pos|apply Z.div_lt_upper_bound]; lia).
  assert (0 <= y / 2 ^ 32 < 2 ^ 32) as Byh by (split; [apply Z.div_pos|apply Z.div_lt_upper_bound]; lia).
  set (xl := x mod 2 ^ 32) in *. set (xh := x / 2 ^ 32) in *.
  set (yl := y mod 2 ^ 32) in *. set (yh := y / 2 ^ 32) in *.
  rewrite (u64_small (xl * yl)), (u64_small (xh * yh)), (u64_small (xh * yl)), (u64_small (xl * yh))
    by (unfold UINT64_MAX; nia).
  set (ll := xl * yl). assert (0 <= ll <= (2 ^ 32 - 1) * (2 ^ 32 - 1)) as Bll by (subst ll; nia).
  pose proof (Z.div_mod ll (2 ^ 32) ltac:(lia)) as Ell. pose proof (Z.mod_pos_bound ll (2 ^ 32) ltac:(lia)) as Bll'.
  assert (0 <= ll / 2 ^ 32 < 2 ^ 32) by (split; [apply Z.div_pos|apply Z.div_lt_upper_bound]; lia).
  rewrite (u64_small (xh * yl + ll / 2 ^ 32)) by (unfold UINT64_MAX; nia).
  set (hl := xh * yl + ll / 2 ^ 32).
  assert (0 <= hl < 2 ^ 64) as Bhl by (subst hl; nia).
  pose proof (Z.div_mod hl (2 ^ 32) ltac:(lia)) as Ehl. pose proof (Z.mod_pos_bound hl (2 ^ 32) ltac:(lia)) as Bhl'.
  assert (0 <= hl / 2 ^ 32 < 2 ^ 32) by (split; [apply Z.div_pos|apply Z.div_lt_upper_bound]; lia).
  rewrite (u64_small (xl * yh + hl mod 2 ^ 32)) by (unfold UINT64_MAX; nia).
  set (lh := xl * yh + hl mod 2 ^ 32).
  assert (0 <= lh < 2 ^ 64) as Blh by (subst lh; nia).
  pose proof (Z.div_mod lh (2 ^ 32) ltac:(lia)) as Elh. pose proof (Z.mod_pos_bound lh (2 ^ 32) ltac:(lia)) as Blh'.
  assert (0 <= lh / 2 ^ 32 < 2 ^ 32) by (split; [apply Z.div_pos|apply Z.div_lt_upper_bound]; lia).
  assert (u64 (Z.shiftl lh 32) = lh mod 2 ^ 32 * 2 ^ 32) as ->.
  { rewrite Z.shiftl_mul_pow2 by lia. unfold u64, wrap. symmetry.
    apply (Z.mod_unique _ _ (lh / 2 ^ 32)); nia. }
  assert (Z.lor (lh mod 2 ^ 32 * 2 ^ 32) (ll mod 2 ^ 32) = lh mod 2 ^ 32 * 2 ^ 32 + ll mod 2 ^ 32) as ->.
  { rewrite <- Z.shiftl_mul_pow2 by lia. rewrite Z.add_nocarry_lxor, <- Z.lxor_lor; [done|..];
      apply Z.bits_inj'; intros i Hi; rewrite Z.land_spec, Z.bits_0.
    all: destruct (decide (i < 32));
      [rewrite Z.shiftl_spec_low by lia; done
      |rewrite (Z.mod_pow2_bits_high ll) by lia; by rewrite andb_false_r]. }
  assert (x * y = hl / 2 ^ 32 * 2 ^ 64 + lh * 2 ^ 32 + xh * yh * 2 ^ 64 + ll mod 2 ^ 32) as Hxy.
  { assert (x * y = xh * yh * 2 ^ 64 + (xh * yl + xl * yh) * 2 ^ 32 + ll) as -> by (subst ll; rewrite Ex, Ey; ring).
    subst lh. nia. }
  assert (x * y < 2 ^ 128) by nia.
  assert (0 <= xh * yh) by nia.
  rewrite (u64_small (xh * yh + hl / 2 ^ 32)) by (unfold UINT64_MAX; nia).
  rewrite u64_small by (unfold UINT64_MAX; nia).
  unfold wf128, val128. cbn. split; [split; nia|]. nia.
Qed.

(** ** Claims *)

(** The portable count of leading zeros, a table look-up indexed by a
    de Bruijn product, stays inside of its table and returns the number of
    zeros above the highest set bit, for every non-zero 64- and 32-bit value. *)
Theorem clz_fallback_right v : 0 < v ->
  (v < 2 ^ 64 -> clz64_fallback v = Some (63 - Z.log2 v)) /\
  (v < 2 ^ 32 -> clz32_fallback v = Some (31 - Z.log2 v)).
Proof. intros Hv. split; intros; [by apply clz64_fallback_log2|by apply clz32_fallback_log2]. Qed.

Lemma clz_fallback_right_witness :
  clz64_fallback 1000 = Some (63 - Z.log2 1000) /\ clz32_fallback 1000 = Some (31 - Z.log2 1000).
Proof. destruct (clz_fallback_right 1000 ltac:(lia)) as [H1 H2]. split; [apply H1|apply H2]; lia. Defined.

(** The portable count of trailing zeros is right for powers of two only.
    It multiplies the value itself, not its lowest set bit, by the de Bruijn
    constant: for 6 it returns 53 (64-bit) and 14 (32-bit) instead of 1. *)
Theorem ctz_fallback_powers_only k : 0 <= k < 64 ->
  ctz64_fallback (2 ^ k) = Some k /\ (k < 32 -> ctz32_fallback (2 ^ k) = Some k) /\
  Z.testbit 6 0 = false /\ Z.testbit 6 1 = true /\
  ctz64_fallback 6 = Some 53 /\ ctz32_fallback 6 = Some 14.
Proof.
  intros Hk. split_and!; [by apply ctz64_fallback_pow2|intros; apply ctz32_fallback_pow2; lia|done|done|by vm_compute|by vm_compute].
Qed.

Lemma ctz_fallback_powers_only_witness : ctz64_fallback (2 ^ 5) = Some 5 /\ ctz64_fallback 6 = Some 53.
Proof. destruct (ctz_fallback_powers_only 5 ltac:(lia)) as (H1 & _ & _ & _ & H2 & _). by split. Defined.

(** The portable product of two 64-bit numbers, made of 32-bit halves with
    the carries between them, is the exact 128-bit product, and the addition
    and comparison of 128-bit numbers agree with those of the values they
    stand for. *)
Theorem u128_arithmetic x y a b : 0 <= x < 2 ^ 64 -> 0 <= y < 2 ^ 64 -> wf128 a -> wf128 b ->
  val128 (mul64x64_128_fallback x y) = x * y /\
  val128 (u128_add a b) = (val128 a + val128 b) mod 2 ^ 128 /\
  (u128_lt a b = true <-> val128 a < val128 b) /\ (u128_gt a b = true <-> val128 b < val128 a).
Proof.
  intros Hx Hy Ha Hb. split_and!; [by apply mul64x64_128_val|by apply u128_add_val|rewrite u128_lt_val by done; lia|rewrite u128_gt_val by done; lia].
Qed.

Lemma u128_arithmetic_witness :
  val128 (mul64x64_128_fallback (2 ^ 64 - 1) 12345) = (2 ^ 64 - 1) * 12345.
Proof.
  apply (u128_arithmetic (2 ^ 64 - 1) 12345 (mk128 0 1) (mk128 0 2)); [lia|lia|by vm_compute|by vm_compute].
Defined.
