(* ===== verification/Alloc.v ===== *)
(** * Memory blocks and the allocator

    A heap block is the list of its words. [osal_malloc] and [osal_realloc]
    ([src/src/osal/osal.h]: the C library's functions) are fields of a record,
    so that an operation takes the allocator it runs with as an argument; the
    laws of [AllocOk] are what the C standard and [malloc_usable_size] promise.
    The length of a returned block is its usable size. *)

From stdpp Require Import base list numbers option.
From Stdlib Require Import ZArith Lia.
From S2P Require Import Prelude.

Record allocator : Type := {
  osal_malloc : Z -> option (list Z);
  osal_realloc : list Z -> Z -> option (list Z);
}.

(** [n] cells copied from [src] (at [si]) to [dst] (at [di]): [memcpy] between
    two objects, or [memmove] inside of one. *)
Definition blit {A} (src : list A) (si : Z) (dst : list A) (di n : Z) : option (list A) :=
  if (0 <=? n) && (0 <=? si) && (si + n <=? zlen src) && (0 <=? di) && (di + n <=? zlen dst)
  then Some (take (Z.to_nat di) dst ++ zslice src si n ++ drop (Z.to_nat (di + n)) dst)
  else None.

(** Blocks of [W]-byte words: the usable size is at least the requested one
    and exceeds it by less than 4 GiB; [realloc] keeps the contents up to the
    smaller of both sizes. *)
Class AllocOk (W : Z) (al : allocator) : Prop := {
  malloc_usable bytes blk : 0 <= bytes -> osal_malloc al bytes = Some blk ->
    bytes <= W * zlen blk <= bytes + 2 ^ 32;
  realloc_usable old bytes blk : 0 <= bytes -> osal_realloc al old bytes = Some blk ->
    bytes <= W * zlen blk <= bytes + 2 ^ 32;
  realloc_contents old bytes blk i : 0 <= bytes -> osal_realloc al old bytes = Some blk ->
    0 <= i < zlen old -> i < zlen blk -> zget blk i = zget old i;
}.

(** Some request is answered by a null pointer. *)
Definition alloc_fails (al : allocator) : Prop :=
  exists old bytes, osal_malloc al bytes = None \/ osal_realloc al old bytes = None.

(** The allocator that never fails and returns zeroed blocks of exactly the
    requested size. *)
Definition exact_allocator (W : Z) : allocator := {|
  osal_malloc bytes := Some (replicate (Z.to_nat ((bytes + W - 1) / W)) 0);
  osal_realloc old bytes :=
    let n := Z.to_nat ((bytes + W - 1) / W) in
    Some (take n old ++ replicate (n - length old) 0);
|}.

(** The allocator that always fails. *)
Definition failing_allocator : allocator := {|
  osal_malloc _ := None;
  osal_realloc _ _ := None;
|}.

Lemma blit_split {A} (d1 d2 d3 s1 s2 s3 : list A) si di n :
  si = zlen s1 -> di = zlen d1 -> n = zlen s2 -> zlen d2 = n ->
  blit (s1 ++ s2 ++ s3) si (d1 ++ d2 ++ d3) di n = Some (d1 ++ s2 ++ d3).
Proof.
  intros -> -> -> H. unfold blit.
  assert (((0 <=? zlen s2) && (0 <=? zlen s1) && (zlen s1 + zlen s2 <=? zlen (s1 ++ s2 ++ s3)) &&
    (0 <=? zlen d1) && (zlen d1 + zlen s2 <=? zlen (d1 ++ d2 ++ d3))) = true) as ->.
  { rewrite !andb_true_iff, !Z.leb_le. zlia. }
  f_equal. unfold zslice, zlen in *. f_equal; [|f_equal].
  - rewrite Nat2Z.id. by rewrite take_app_length.
  - rewrite !Nat2Z.id. rewrite drop_app_length. by rewrite take_app_length.
  - rewrite app_assoc, drop_app_length'; [done|]. rewrite length_app. lia.
Qed.

#[export] Instance failing_allocator_ok W : AllocOk W failing_allocator.
Proof. split; done. Qed.

Lemma exact_allocator_total W : ~ alloc_fails (exact_allocator W).
Proof. intros (old & bytes & [H|H]); done. Qed.

#[export] Instance exact_allocator_ok W : 0 < W < 2 ^ 32 -> AllocOk W (exact_allocator W).
Proof.
  intros HW.
  assert (forall bytes, 0 <= bytes -> bytes <= W * ((bytes + W - 1) / W) <= bytes + 2 ^ 32) as Hr.
  { intros bytes Hb. pose proof (Z.div_mod (bytes + W - 1) W ltac:(lia)).
    pose proof (Z.mod_pos_bound (bytes + W - 1) W ltac:(lia)). lia. }
  assert (forall bytes, 0 <= bytes -> 0 <= (bytes + W - 1) / W) as Hp.
  { intros. apply Z.div_pos; lia. }
  split; cbn [osal_malloc osal_realloc exact_allocator].
  - intros bytes blk Hb [= <-]. unfold zlen. rewrite length_replicate.
    specialize (Hp bytes Hb). rewrite Z2Nat.id by done. by apply Hr.
  - intros old bytes blk Hb [= <-]. specialize (Hp bytes Hb). specialize (Hr bytes Hb).
    unfold zlen. rewrite length_app, length_take, length_replicate.
    replace (Z.of_nat _) with ((bytes + W - 1) / W) by lia. done.
  - intros old bytes blk i Hb [= <-] Hi Hlt. unfold zlen in *.
    rewrite length_app, length_take, length_replicate in Hlt.
    rewrite zget_app_l by (unfold zlen; rewrite length_take; lia).
    unfold zget. destruct (0 <=? i); [|done]. rewrite lookup_take_lt by lia. done.
Qed.
