(* ===== verification/Pnl.v ===== *)
(** * Page number lists: storage ([src/src/pnl.h], [src/src/pnl.c])

    A PNL is a block of 32-bit words. The pointer the code passes around
    points to its second word: [pnl[-1]] is the capacity, [pnl[0]] the length
    and [pnl[1]], ... the page numbers, in descending order by convention
    ([MDBX_PNL_ASCENDING == 0]). The block is a half larger than the capacity
    says, to make room for the buffer of the radix sort. This file holds
    allocation, growth, appending, insertion and cutting; the operations that
    rely on the order are in [PnlOrder]. A nullable pointer is an [option]. *)

From stdpp Require Import base list numbers option sorting.
From Stdlib Require Import ZArith Lia.
From S2P Require Import Prelude Bits Alloc.

Definition PAGELIST_LIMIT : Z := 0x7FFFffff.
Definition MAX_PAGENO : Z := 0x7FFFffff.
Definition MIN_PAGENO : Z := 3.
Definition P_INVALID : Z := UINT32_MAX.

Definition MDBX_ASSUME_MALLOC_OVERHEAD : Z := 16.
Definition MDBX_CACHELINE_SIZE : Z := 64.
Definition MDBX_PNL_GRANULATE : Z := Z.shiftl 1 10.
Definition MDBX_PNL_INITIAL : Z := MDBX_PNL_GRANULATE - 2 - MDBX_ASSUME_MALLOC_OVERHEAD / 4.

Definition pnl : Type := list Z.

Definition pnl_alloclen (p : pnl) : option Z := zget p 0.

(** [pnl[i]] as an rvalue and as an lvalue. *)
Definition pnl_at (p : pnl) (i : Z) : option Z := zget p (i + 1).
Definition pnl_put (p : pnl) (i v : Z) : option pnl := zset p (i + 1) v.

Definition pnl_size (p : pnl) : option Z := pnl_at p 0.
Definition pnl_setsize (p : pnl) (len : Z) : option pnl := pnl_put p 0 (u32 len).
Definition pnl_clear (p : pnl) : option pnl := pnl_setsize p 0.

Definition MDBX_PNL_ORDERED (first last : Z) : bool := last <? first.
Definition MDBX_PNL_DISORDERED (first last : Z) : bool := first <=? last.
Definition MDBX_PNL_REVERSED (first last : Z) : bool := first <? last.

(** The difference of two [pgno_t] is 32 bits wide. *)
Definition MDBX_PNL_CONTIGUOUS (prev next span : Z) : bool := u32 (prev - next) =? span.

Definition pnl_bytes2size (bytes : Z) : Z :=
  let size := bytes / 4 in
  let size := u64 (size - 3) in
  let size := Z.shiftr size 1 in
  u32 size.

Definition pnl_size2bytes (wanna_size : Z) : Z :=
  let size := u64 (wanna_size + wanna_size) in
  u64 (ceil_powerof2 (u64 (MDBX_ASSUME_MALLOC_OVERHEAD + 4 * (size + 3))) (MDBX_PNL_GRANULATE * 4)
       - MDBX_ASSUME_MALLOC_OVERHEAD).

Section Storage.
Context (al : allocator).

Definition pnl_alloc (size : Z) : option (option pnl) :=
let bytes := pnl_size2bytes size in
match osal_malloc al bytes with
| Some p =>
    let bytes := 4 * zlen p in
    p ← zset p 0 (pnl_bytes2size bytes);
    p ← zset p 1 0;
    Some (Some p)
| None => Some None
end.

Definition pnl_clone (src : pnl) : option (option pnl) :=
len ← pnl_alloclen src;
pl ← pnl_alloc len;
match pl with
| Some pl => sz ← pnl_size src; pl ← blit src 1 pl 1 (sz + 1); Some (Some pl)
| None => Some None
end.

Definition pnl_shrink (p : pnl) : option pnl :=
p ← pnl_setsize p 0;
len ← pnl_alloclen p;
if MDBX_PNL_INITIAL * 8 - MDBX_CACHELINE_SIZE / 4 <? len then
  let bytes := pnl_size2bytes (MDBX_PNL_INITIAL * 2) in
  match osal_realloc al p bytes with
  | Some p => zset p 0 (pnl_bytes2size (4 * zlen p))
  | None => Some p
  end
else Some p.

Definition pnl_reserve (ppnl : option pnl) (wanna : Z) : option (rc * option pnl) :=
match ppnl with
| None =>
    r ← pnl_alloc wanna;
    Some (match r with Some _ => MDBX_SUCCESS | None => MDBX_ENOMEM end, r)
| Some p =>
    allocated ← pnl_alloclen p;
    if wanna <=? allocated then Some (MDBX_SUCCESS, ppnl)
    else if PAGELIST_LIMIT <? wanna then Some (MDBX_TXN_FULL, ppnl)
    else
      let size := if u64 (wanna + wanna - allocated) <? PAGELIST_LIMIT
                  then u64 (wanna + wanna - allocated) else PAGELIST_LIMIT in
      let bytes := pnl_size2bytes size in
      match osal_realloc al p bytes with
      | Some p =>
          p ← zset p 0 (pnl_bytes2size (4 * zlen p));
          Some (MDBX_SUCCESS, Some p)
      | None => Some (MDBX_ENOMEM, ppnl)
      end
end.

Definition pnl_need (ppnl : option pnl) (more : Z) : option (rc * option pnl) :=
match ppnl with
| Some p =>
    sz ← pnl_size p;
    len ← pnl_alloclen p;
    let more := u64 (more + sz) in
    if more <=? len then Some (MDBX_SUCCESS, ppnl) else pnl_reserve ppnl more
| None => pnl_reserve ppnl more
end.

Definition pnl_append_prereserved (p : pnl) (pgno : Z) : option pnl :=
sz ← pnl_size p;
p ← pnl_put p 0 (u32 (sz + 1));
sz ← pnl_size p;
pnl_put p sz pgno.

Definition pnl_append (ppnl : option pnl) (pgno : Z) : option (rc * option pnl) :=
'(rc, ppnl) ← pnl_need ppnl 1;
if decide (rc = MDBX_SUCCESS) then
  p ← ppnl;
  p ← pnl_append_prereserved p pgno;
  Some (rc, Some p)
else Some (rc, ppnl).

(** The [do ... while (--n)] loop; for [n == 0] it would not stop inside of
    the block. *)
Fixpoint append_stepped_loop (n : nat) (step : Z) (p : pnl) (w pgno : Z) : option pnl :=
match n with
| O => None
| S n =>
    p ← pnl_put p w pgno;
    match n with
    | O => Some p
    | S _ => append_stepped_loop n step p (w - 1) (u32 (pgno + step))
    end
end.

Definition pnl_append_stepped (step : Z) (ppnl : option pnl) (pgno n : Z) : option (rc * option pnl) :=
'(rc, ppnl) ← pnl_need ppnl n;
if decide (rc <> MDBX_SUCCESS) then Some (rc, ppnl)
else
  p ← ppnl;
  if n =? 1 then p ← pnl_append_prereserved p pgno; Some (MDBX_SUCCESS, Some p)
  else
    sz ← pnl_size p;
    let w := sz + n in
    p ← pnl_setsize p w;
    p ← append_stepped_loop (Z.to_nat n) step p w pgno;
    Some (MDBX_SUCCESS, Some p).

Definition spill_append_span (ppnl : option pnl) (pgno n : Z) : option (rc * option pnl) :=
pnl_append_stepped 2 ppnl (u32 (Z.shiftl pgno 1)) n.

Definition pnl_append_span (ppnl : option pnl) (pgno n : Z) : option (rc * option pnl) :=
pnl_append_stepped 1 ppnl pgno n.

Definition pnl_append_pnl (dst : pnl) (src : pnl) : option (rc * option pnl) :=
n ← pnl_size src;
if 0 <? n then
  m ← pnl_size dst;
  let size := m + n in
  '(err, pdst) ← pnl_reserve (Some dst) size;
  if decide (err <> MDBX_SUCCESS) then Some (err, pdst)
  else
    dst ← pdst;
    dst ← blit src 2 dst (m + 2) n;
    dst ← pnl_setsize dst size;
    Some (MDBX_SUCCESS, Some dst)
else Some (MDBX_SUCCESS, Some dst).

(** [while (r && MDBX_PNL_DISORDERED(pnl[r], pgno)) pnl[w--] = pnl[r--];] *)
Fixpoint insert_shift (fuel : nat) (p : pnl) (r w pgno : Z) : option (pnl * Z * Z) :=
match fuel with
| O => None
| S fuel =>
    if r =? 0 then Some (p, r, w)
    else
      x ← pnl_at p r;
      if MDBX_PNL_DISORDERED x pgno then
        p ← pnl_put p w x;
        insert_shift fuel p (r - 1) (w - 1) pgno
      else Some (p, r, w)
end.

(** [for (fill = pgno; w > r; --w) pnl[w] = fill++;] *)
Fixpoint insert_fill (fuel : nat) (p : pnl) (r w fill : Z) : option pnl :=
match fuel with
| O => None
| S fuel =>
    if r <? w then
      p ← pnl_put p w fill;
      insert_fill fuel p r (w - 1) (u32 (fill + 1))
    else Some p
end.

Definition pnl_insert_span (ppnl : option pnl) (pgno n : Z) : option (rc * option pnl) :=
'(rc, ppnl) ← pnl_need ppnl n;
if decide (rc <> MDBX_SUCCESS) then Some (rc, ppnl)
else
  p ← ppnl;
  r ← pnl_size p;
  let w := r + n in
  p ← pnl_setsize p w;
  '(p, r, w) ← insert_shift (S (Z.to_nat r)) p r w pgno;
  p ← insert_fill (S (Z.to_nat n)) p r w pgno;
  Some (MDBX_SUCCESS, Some p).
End Storage.

(** [for (i = pos; i <= len; ++i) pnl[i] = pnl[i + span];] *)
Fixpoint cut_loop (fuel : nat) (p : pnl) (i len span : Z) : option pnl :=
  match fuel with
  | O => None
  | S fuel =>
      if i <=? len then
        x ← pnl_at p (i + span);
        p ← pnl_put p i x;
        cut_loop fuel p (i + 1) len span
      else Some p
  end.

Definition pnl_cut (p : pnl) (pos span : Z) : option pnl :=
  len ← pnl_size p;
  if 0 <? span then
    let len := len - span in
    p ← pnl_setsize p len;
    cut_loop (S (Z.to_nat (len - pos + 1))) p pos len span
  else Some p.

(** ** Representation *)

(** The block [p] represents the list [l]: capacity, length, the elements and
    the unused rest, which has room for the buffer of the radix sort. *)
Definition pnl_rep (p : pnl) (l : list Z) : Prop :=
  exists len rest, p = len :: zlen l :: l ++ rest /\
    zlen l <= len <= UINT32_MAX /\ 2 * len + 3 <= zlen p.

Definition has_capacity (p : pnl) (n : Z) : Prop := exists len, pnl_alloclen p = Some len /\ n <= len.

Definition pnl_rep_opt (ppnl : option pnl) (l : list Z) : Prop :=
  match ppnl with Some p => pnl_rep p l | None => l = [] end.

(** What a call that makes room for [n] elements returns: the list is kept,
    and either there is room or an error code says why not. *)
Definition reserved (al : allocator) (l : list Z) (n : Z) (r : option (rc * option pnl)) : Prop :=
  exists rc' pp, r = Some (rc', pp) /\ pnl_rep_opt pp l /\
    ((rc' = MDBX_SUCCESS /\ exists p, pp = Some p /\ has_capacity p n) \/
     (rc' = MDBX_ENOMEM /\ alloc_fails al) \/ (rc' = MDBX_TXN_FULL /\ PAGELIST_LIMIT < n)).

(** The same for a call that also changes the list from [l] to [l']. *)
Definition appended (al : allocator) (l l' : list Z) (r : option (rc * option pnl)) : Prop :=
  exists rc' pp, r = Some (rc', pp) /\
    ((rc' = MDBX_SUCCESS /\ (exists p, pp = Some p /\ pnl_rep p l')) \/
     ((rc' = MDBX_ENOMEM /\ alloc_fails al \/ rc' = MDBX_TXN_FULL /\ PAGELIST_LIMIT < zlen l') /\ pnl_rep_opt pp l)).

(** The pages [pgno], [pgno + step], ..., [n] of them, in the order they are
    stored: the last one first. *)
Fixpoint desc_run (n : nat) (step pgno : Z) : list Z :=
  match n with
  | O => []
  | S n => desc_run n step (u32 (pgno + step)) ++ [pgno]
  end.

(** ** Access to the words *)

(** The words determine the list. *)
Lemma pnl_rep_inj p l l' : pnl_rep p l -> pnl_rep p l' -> l = l'.
Proof.
  intros (a & ra & -> & _) (b & rb & E & _). injection E as _ Ez El. apply app_inj_1 in El as [-> _]; [done|]. unfold zlen in Ez. lia.
Qed.

Lemma zget_cons2 (a b : Z) (cells : list Z) i : 0 < i -> zget (a :: b :: cells) (i + 1) = zget cells (i - 1).
Proof. intros H. rewrite !zget_cons_pos by lia. f_equal. lia. Qed.

Lemma zset_first (a v : Z) m : zset (a :: m) 0 v = Some (v :: m).
Proof. reflexivity. Qed.

Lemma zset_second (a b v : Z) m : zset (a :: b :: m) 1 v = Some (a :: v :: m).
Proof. by rewrite zset_ok by zlia. Qed.

Lemma pnl_at_cells a n cells i : 0 < i -> pnl_at (a :: n :: cells) i = zget cells (i - 1).
Proof. apply zget_cons2. Qed.

Lemma pnl_put_cells a n cells i v : 1 <= i <= zlen cells ->
  pnl_put (a :: n :: cells) i v = Some (a :: n :: zupd cells (i - 1) v).
Proof.
  intros H. unfold pnl_put. rewrite zset_ok by zlia. unfold zupd.
  replace (Z.to_nat (i + 1)) with (S (S (Z.to_nat (i - 1)))) by lia. done.
Qed.

Lemma pnl_put_mid a n l x r i v : i = zlen l + 1 ->
  pnl_put (a :: n :: l ++ x :: r) i v = Some (a :: n :: l ++ v :: r).
Proof.
  intros ->. rewrite pnl_put_cells by zlia. by rewrite zupd_app_mid by lia.
Qed.

Lemma pnl_setsize_cells a n cells len : 0 <= len <= UINT32_MAX ->
  pnl_setsize (a :: n :: cells) len = Some (a :: len :: cells).
Proof.
  intros H. unfold pnl_setsize, pnl_put. rewrite zset_ok by zlia.
  rewrite u32_small by done. done.
Qed.

Lemma pnl_size_cells a n cells : pnl_size (a :: n :: cells) = Some n.
Proof. done. Qed.

Lemma pnl_rep_size p l : pnl_rep p l -> pnl_size p = Some (zlen l).
Proof. by intros (len & rest & -> & _). Qed.

Lemma pnl_rep_at p l i : pnl_rep p l -> 1 <= i <= zlen l -> pnl_at p i = zget l (i - 1).
Proof.
  intros (len & rest & -> & _) Hi. rewrite pnl_at_cells by lia. by rewrite zget_app_l by lia.
Qed.

Lemma zprefix {A} (a b : list A) : zlen a <= zlen b ->
  (forall i, 0 <= i < zlen a -> zget b i = zget a i) -> exists r, b = a ++ r.
Proof.
  intros Hl H. destruct (zsplit b (zlen a)) as (b1 & b2 & -> & Hb); [zlia|].
  exists b2. f_equal. apply zget_ext; [done|]. intros i Hi. rewrite <- H by lia.
  by rewrite zget_app_l by lia.
Qed.

(** ** Allocation *)

Lemma pnl_size2bytes_spec w : 0 <= w <= PAGELIST_LIMIT ->
  8 * w + 12 <= pnl_size2bytes w < 8 * w + 12 + 4096.
Proof.
  unfold PAGELIST_LIMIT. intros Hw. unfold pnl_size2bytes, MDBX_ASSUME_MALLOC_OVERHEAD.
  change (MDBX_PNL_GRANULATE * 4) with (2 ^ 12). cbn zeta. u64s.
  destruct (ceil_powerof2_spec (16 + 4 * (w + w + 3)) 12) as [H _]; [lia..|].
  rewrite u64_small by (unfold UINT64_MAX; lia). lia.
Qed.

Lemma pnl_bytes2size_spec z : 3 <= z <= 2 ^ 33 -> pnl_bytes2size (4 * z) = (z - 3) / 2.
Proof.
  intros Hz. unfold pnl_bytes2size. cbn zeta.
  rewrite Z.mul_comm, Z.div_mul by lia. u64s. rewrite Z.shiftr_div_pow2 by lia.
  change (2 ^ 1) with 2. apply u32_small. unfold UINT32_MAX.
  pose proof (Z.div_mod (z - 3) 2). pose proof (Z.mod_pos_bound (z - 3) 2). lia.
Qed.

(** A block of the usable size that was asked for holds [w] elements. *)
Lemma pnl_capacity w z : 0 <= w <= PAGELIST_LIMIT ->
  pnl_size2bytes w <= 4 * z <= pnl_size2bytes w + 2 ^ 32 ->
  w <= pnl_bytes2size (4 * z) <= UINT32_MAX /\ 2 * pnl_bytes2size (4 * z) + 3 <= z.
Proof.
  intros Hw Hz. pose proof (pnl_size2bytes_spec w Hw). unfold PAGELIST_LIMIT in Hw.
  rewrite pnl_bytes2size_spec by lia. unfold UINT32_MAX.
  pose proof (Z.div_mod (z - 3) 2). pose proof (Z.mod_pos_bound (z - 3) 2). lia.
Qed.

(** ** Room for more elements *)

Lemma pnl_rep_room p l k : pnl_rep p l -> has_capacity p (zlen l + k) -> 0 <= k ->
  exists len mid rest, p = len :: zlen l :: l ++ mid ++ rest /\ zlen mid = k /\
    zlen l + k <= UINT32_MAX /\
    (forall l', zlen l' = zlen l + k -> pnl_rep (len :: zlen l' :: l' ++ rest) l').
Proof.
  intros (len & rest & -> & Hlen & Hroom) (c & [= <-] & Hc) Hk. zlen_pos.
  destruct (zsplit rest k) as (mid & rest' & -> & Hmid); [zlia|].
  exists len, mid, rest'. split_and!; [done|done|lia|].
  intros l' Hl'. exists len, rest'. split; [done|]. zlia.
Qed.

Lemma zlen_desc_run n step : forall pgno, zlen (desc_run n step pgno) = Z.of_nat n.
Proof. induction n as [|n IH]; intros pgno; [done|]. cbn [desc_run]. rewrite zlen_snoc, IH. lia. Qed.

Lemma desc_run_seq (n : nat) step : 0 <= step -> forall pgno, 0 <= pgno ->
  pgno + step * (Z.of_nat n - 1) <= UINT32_MAX ->
  desc_run n step pgno = reverse ((fun k => pgno + step * k) <$> seqZ 0 (Z.of_nat n)).
Proof.
  intros Hst. induction n as [|n IH]; intros pgno H0 Hmax; [done|]. cbn [desc_run].
  rewrite (seqZ_cons 0) by lia. rewrite fmap_cons, reverse_cons. f_equal; [|f_equal; lia].
  destruct n as [|n]; [done|].
  rewrite u32_small by nia. rewrite IH by nia. f_equal.
  replace (Z.pred (Z.of_nat (S (S n)))) with (Z.of_nat (S n)) by lia.
  replace (Z.succ 0) with (1 + 0) by lia. rewrite <- (fmap_add_seqZ 1 0). rewrite <- list_fmap_compose.
  apply list_fmap_ext. intros i x _. cbn. lia.
Qed.

Lemma append_stepped_loop_spec len n step : forall mid A rest k pgno,
  zlen mid = Z.of_nat (S k) ->
  append_stepped_loop (S k) step (len :: n :: A ++ mid ++ rest) (zlen A + zlen mid) pgno =
    Some (len :: n :: A ++ desc_run (S k) step pgno ++ rest).
Proof.
  intros mid A rest k. revert mid A rest. induction k as [|k IH]; intros mid A rest pgno Hmid.
  - destruct mid as [|x [|]]; [done| |exfalso; zlia]. cbn [append_stepped_loop].
    cbn [app]. rewrite pnl_put_mid by zlia. done.
  - destruct (zsplit_snoc mid) as (mid' & x & ->); [lia|].
    remember (S k) as k' eqn:Ek. cbn [append_stepped_loop]. subst k'.
    rewrite <- app_assoc, (app_assoc A). cbn [app]. rewrite pnl_put_mid by zlia. cbn [mbind option_bind].
    rewrite <- app_assoc. replace (zlen A + zlen (mid' ++ [x]) - 1) with (zlen A + zlen mid') by zlia.
    rewrite IH by zlia. f_equal. do 3 f_equal. cbn [desc_run]. by rewrite <- !app_assoc.
Qed.

Lemma insert_fill_spec len n r : forall (k : nat) mid A rest pgno fuel,
  zlen mid = Z.of_nat k -> zlen A = r -> (k < fuel)%nat ->
  insert_fill fuel (len :: n :: A ++ mid ++ rest) r (r + Z.of_nat k) pgno =
    Some (len :: n :: A ++ desc_run k 1 pgno ++ rest).
Proof.
  induction k as [|k IH]; intros mid A rest pgno fuel Hmid HA Hf; (destruct fuel as [|fuel]; [lia|]);
    cbn [insert_fill].
  - apply zlen_0_nil in Hmid. subst mid. destruct (Z.ltb_spec r (r + Z.of_nat 0)); [lia|]. done.
  - destruct (Z.ltb_spec r (r + Z.of_nat (S k))); [|lia].
    destruct (zsplit_snoc mid) as (mid' & x & ->); [lia|].
    rewrite <- app_assoc, (app_assoc A). cbn [app]. rewrite pnl_put_mid by zlia. cbn [mbind option_bind].
    rewrite <- app_assoc. replace (r + Z.of_nat (S k) - 1) with (r + Z.of_nat k) by lia.
    rewrite IH by (done || zlia). cbn [desc_run]. by rewrite <- !app_assoc.
Qed.

(** The elements up to [pgno] at the end of the list are shifted. *)
Lemma insert_shift_spec len n pgno : forall A G B fuel, (length A < fuel)%nat ->
  exists hi lo G', A = hi ++ lo /\ zlen G' = zlen G /\ Forall (fun x => x <= pgno) lo /\
    (forall x, last hi = Some x -> pgno < x) /\
    insert_shift fuel (len :: n :: A ++ G ++ B) (zlen A) (zlen A + zlen G) pgno =
      Some (len :: n :: hi ++ G' ++ lo ++ B, zlen hi, zlen hi + zlen G).
Proof.
  induction A as [|x A IH] using rev_ind; intros G B fuel Hf; (destruct fuel as [|fuel]; [lia|]).
  { exists [], [], G. by split_and!. }
  cbn [insert_shift]. destruct (Z.eqb_spec (zlen (A ++ [x])) 0); [zlia|].
  rewrite pnl_at_cells by zlia. rewrite <- !app_assoc. cbn [app]. rewrite zget_app_mid by zlia.
  cbn [mbind option_bind]. unfold MDBX_PNL_DISORDERED. destruct (Z.leb_spec x pgno).
  - destruct (zsplit_snoc (x :: G)) as (G1 & g & EG); [zlia|].
    assert (zlen G1 = zlen G) as HG by (apply (f_equal zlen) in EG; zlia).
    assert (x :: G ++ B = G1 ++ g :: B) as ->.
    { rewrite app_comm_cons, EG. by rewrite <- app_assoc. }
    rewrite app_assoc. rewrite pnl_put_mid by zlia. cbn [mbind option_bind].
    rewrite <- app_assoc.
    replace (zlen (A ++ [x]) - 1) with (zlen A) by zlia.
    replace (zlen (A ++ [x]) + zlen G - 1) with (zlen A + zlen G1) by zlia.
    destruct (IH G1 (x :: B) fuel) as (hi & lo & G' & -> & HG' & Hlo & Hhi & E).
    { rewrite length_app in Hf. cbn in Hf. lia. }
    exists hi, (lo ++ [x]), G'. rewrite E. split_and!; try done.
    + by rewrite app_assoc.
    + lia.
    + apply Forall_app. split; [done|]. by constructor.
    + by rewrite <- app_assoc, HG.
  - exists (A ++ [x]), [], G. split_and!; try done.
    + by rewrite app_nil_r.
    + intros y. rewrite last_snoc. by intros [= ->].
    + by rewrite <- !app_assoc.
Qed.

(** Moving the cell after a gap to its beginning. *)
Lemma pnl_move_cell len n kept gap x todo : exists gap', zlen gap' = zlen gap /\
  pnl_put (len :: n :: kept ++ gap ++ x :: todo) (zlen kept + 1) x =
    Some (len :: n :: (kept ++ [x]) ++ gap' ++ todo).
Proof.
  destruct (gap ++ [x]) as [|g gap1] eqn:EG; [by destruct gap|].
  exists gap1. split; [apply (f_equal zlen) in EG; zlia|].
  assert (gap ++ x :: todo = g :: gap1 ++ todo) as -> by (rewrite (cons_middle x), app_assoc, EG; done).
  rewrite pnl_put_mid by zlia. by rewrite <- app_assoc.
Qed.

Lemma pnl_at_after_gap len n kept gap x todo i : i = zlen kept + zlen gap + 1 ->
  pnl_at (len :: n :: kept ++ gap ++ x :: todo) i = Some x.
Proof. intros ->. rewrite pnl_at_cells by zlia. rewrite app_assoc. apply zget_app_mid. zlia. Qed.

Lemma cut_loop_spec len n : forall C A B rest fuel, (length C < fuel)%nat ->
  exists B', zlen B' = zlen B /\
    cut_loop fuel (len :: n :: A ++ B ++ C ++ rest) (zlen A + 1) (zlen A + zlen C) (zlen B) =
      Some (len :: n :: A ++ C ++ B' ++ rest).
Proof.
  induction C as [|c C IH]; intros A B rest fuel Hf; (destruct fuel as [|fuel]; [lia|]); cbn [cut_loop].
  { exists B. split; [done|]. zcase; [zlia|done]. }
  zcase; [|zlia]. cbn [app]. rewrite pnl_at_after_gap by lia. cbn [mbind option_bind].
  destruct (pnl_move_cell len n A B c (C ++ rest)) as (B1 & HB & ->). cbn [mbind option_bind].
  destruct (IH (A ++ [c]) B1 rest fuel) as (B' & HB' & E); [cbn in Hf; lia|].
  exists B'. split; [lia|].
  replace (zlen A + 1 + 1) with (zlen (A ++ [c]) + 1) by zlia.
  replace (zlen A + zlen (c :: C)) with (zlen (A ++ [c]) + zlen C) by zlia.
  rewrite <- HB, E. by rewrite <- app_assoc.
Qed.

Lemma pnl_cut_spec p A B C : pnl_rep p (A ++ B ++ C) ->
  exists p', pnl_cut p (zlen A + 1) (zlen B) = Some p' /\ pnl_rep p' (A ++ C).
Proof.
  intros Hrep. pose proof Hrep as (len & rest & Hp & Hlen & Hroom). unfold pnl_cut.
  rewrite (pnl_rep_size p _ Hrep). cbn [mbind option_bind].
  destruct (Z.ltb_spec 0 (zlen B)).
  - zlen_pos. replace (zlen (A ++ B ++ C) - zlen B) with (zlen A + zlen C) by zlia.
    subst p. rewrite pnl_setsize_cells by zlia. cbn [mbind option_bind].
    rewrite <- !app_assoc.
    destruct (cut_loop_spec len (zlen A + zlen C) C A B rest
      (S (Z.to_nat (zlen A + zlen C - (zlen A + 1) + 1)))) as (B' & HB' & E); [unfold zlen; lia|].
    rewrite E. eexists. split; [done|]. exists len, (B' ++ rest).
    rewrite <- app_assoc. split; [by rewrite zlen_app|]. zlia.
  - assert (B = []) as -> by (apply zlen_0_nil; zlia). eexists. by split.
Qed.

Section Growth.
Context (al : allocator) `{!AllocOk 4 al}.

Lemma pnl_alloc_spec size : 0 <= size <= PAGELIST_LIMIT ->
  exists r, pnl_alloc al size = Some r /\
    match r with
    | Some p => pnl_rep p [] /\ has_capacity p size
    | None => osal_malloc al (pnl_size2bytes size) = None
    end.
Proof.
  intros Hs. unfold pnl_alloc. pose proof (pnl_size2bytes_spec size Hs) as Hb.
  destruct (osal_malloc al (pnl_size2bytes size)) as [blk|] eqn:E; [|by exists None].
  pose proof (malloc_usable (pnl_size2bytes size) _ ltac:(lia) E) as Hu.
  destruct (pnl_capacity size (zlen blk)) as [Hc Hr]; [lia..|].
  assert (3 <= zlen blk) as H3 by lia.
  destruct blk as [|a [|b rest]]; [by cbn in H3..|].
  rewrite zset_first. cbn [mbind option_bind]. rewrite zset_second. cbn [mbind option_bind].
  eexists. split; [done|]. cbv beta iota. split.
  - eexists _, rest. split; [done|]. autorewrite with zlen in *. split; [|lia].
    change (zlen (@nil Z)) with 0. lia.
  - eexists. split; [done|]. lia.
Qed.

(** A successful [realloc] of a list. *)
Lemma pnl_realloc_rep p l w p' : pnl_rep p l -> zlen l <= w <= PAGELIST_LIMIT ->
  osal_realloc al p (pnl_size2bytes w) = Some p' ->
  exists p'', zset p' 0 (pnl_bytes2size (4 * zlen p')) = Some p'' /\ pnl_rep p'' l /\ has_capacity p'' w.
Proof.
  intros (len & rest & Hp & Hlen & Hroom) Hw E. pose proof (zlen_nonneg l).
  pose proof (pnl_size2bytes_spec w ltac:(lia)) as Hb.
  pose proof (realloc_usable _ (pnl_size2bytes w) _ ltac:(lia) E) as Hu.
  destruct (pnl_capacity w (zlen p')) as [Hc Hr]; [lia..|].
  destruct (zprefix (len :: zlen l :: l) p') as [rest' ->].
  { autorewrite with zlen. lia. }
  { intros i Hi. rewrite (realloc_contents _ (pnl_size2bytes w) _ _ ltac:(lia) E); [|subst p; zlia|zlia].
    subst p. by rewrite (app_comm_cons l), (app_comm_cons (zlen l :: l)), zget_app_l by zlia. }
  exists (pnl_bytes2size (4 * zlen ((len :: zlen l :: l) ++ rest')) :: zlen l :: l ++ rest').
  split; [by rewrite <- app_comm_cons, zset_first|]. split.
  - eexists _, rest'. split; [done|]. autorewrite with zlen in *. lia.
  - eexists. split; [done|]. lia.
Qed.

Lemma pnl_reserve_spec ppnl l wanna : pnl_rep_opt ppnl l -> 0 <= wanna ->
  (ppnl = None -> wanna <= PAGELIST_LIMIT) ->
  reserved al l wanna (pnl_reserve al ppnl wanna).
Proof.
  intros Hrep Hw Hnull. unfold pnl_reserve. destruct ppnl as [p|]; cbn in Hrep.
  - pose proof Hrep as (len & rest & Hp & Hlen & Hroom). pose proof (zlen_nonneg l).
    assert (pnl_alloclen p = Some len) as El by (by subst p). rewrite El. cbn [mbind option_bind].
    destruct (Z.leb_spec wanna len).
    { exists MDBX_SUCCESS, (Some p). split; [done|]. split; [done|]. left. split; [done|].
      exists p. split; [done|]. exists len. done. }
    destruct (Z.ltb_spec PAGELIST_LIMIT wanna) as [|Hlim].
    { exists MDBX_TXN_FULL, (Some p). split; [done|]. split; [done|]. auto. }
    unfold PAGELIST_LIMIT in Hlim. rewrite (u64_small (wanna + wanna - len)) by (unfold UINT64_MAX; lia).
    set (size := if _ <? _ then _ else _).
    assert (wanna <= size <= PAGELIST_LIMIT) by (subst size; unfold PAGELIST_LIMIT; zcase; lia).
    destruct (osal_realloc al p (pnl_size2bytes size)) as [p'|] eqn:E.
    + destruct (pnl_realloc_rep p l size p') as (p'' & -> & Hrep' & (c & Hc & Hle)); [done|lia|done|].
      exists MDBX_SUCCESS, (Some p''). split; [done|]. split; [done|]. left. split; [done|].
      exists p''. split; [done|]. exists c. split; [done|lia].
    + exists MDBX_ENOMEM, (Some p). split; [done|]. split; [done|]. right. left. split; [done|]. exists p, (pnl_size2bytes size). by right.
  - subst l. destruct (pnl_alloc_spec wanna) as (r & -> & Hr); [auto|]. cbn.
    destruct r as [p|]; eexists _, _; (split; [done|]).
    + destruct Hr as [Hr Hc]. split; [done|]. left. eauto.
    + split; [done|]. right. left. split; [done|]. exists [], (pnl_size2bytes wanna). by left.
Qed.

Lemma pnl_need_spec ppnl l more : pnl_rep_opt ppnl l -> 0 <= more <= PAGELIST_LIMIT ->
  reserved al l (zlen l + more) (pnl_need al ppnl more).
Proof.
  intros Hrep Hm. unfold pnl_need. destruct ppnl as [p|].
  - pose proof Hrep as (len & rest & Hp & Hlen & Hroom). pose proof (zlen_nonneg l).
    rewrite (pnl_rep_size p l) by done. cbn [mbind option_bind].
    assert (pnl_alloclen p = Some len) as El by (by subst p). rewrite El. cbn [mbind option_bind].
    rewrite u64_small by (unfold UINT64_MAX, UINT32_MAX, PAGELIST_LIMIT in *; lia).
    rewrite (Z.add_comm more). destruct (Z.leb_spec (zlen l + more) len).
    + exists MDBX_SUCCESS, (Some p). split; [done|]. split; [done|]. left. split; [done|].
      exists p. split; [done|]. exists len. done.
    + apply pnl_reserve_spec; [done|lia|done].
  - cbn in Hrep. subst l. rewrite zlen_nil, Z.add_0_l. apply pnl_reserve_spec; [done|lia|lia].
Qed.

Lemma pnl_append_prereserved_spec p l x : pnl_rep p l -> has_capacity p (zlen l + 1) ->
  exists p', pnl_append_prereserved p x = Some p' /\ pnl_rep p' (l ++ [x]).
Proof using.
  intros Hrep Hcap.
  destruct (pnl_rep_room p l 1 Hrep Hcap) as (len & mid & rest & -> & Hmid & Hmax & Hl'); [lia|].
  destruct mid as [|y [|]]; [done| |exfalso; zlia]. zlen_pos.
  unfold pnl_append_prereserved. rewrite pnl_size_cells. cbn [mbind option_bind].
  change (pnl_put (len :: zlen l :: l ++ [y] ++ rest) 0 (u32 (zlen l + 1)))
    with (pnl_setsize (len :: zlen l :: l ++ [y] ++ rest) (zlen l + 1)).
  rewrite pnl_setsize_cells by lia. cbn [mbind option_bind]. rewrite pnl_size_cells. cbn [mbind option_bind app].
  rewrite pnl_put_mid by lia. eexists. split; [done|].
  specialize (Hl' (l ++ [x])). rewrite zlen_snoc, <- app_assoc in Hl'. by apply Hl'.
Qed.

(** The shape of every function that first makes room: errors are passed on
    and leave the list as it was. *)
Lemma reserved_bind l l' n r (k : pnl -> option (rc * option pnl)) :
  reserved al l n r -> zlen l' = n ->
  (forall p, pnl_rep p l -> has_capacity p n ->
    exists p', k p = Some (MDBX_SUCCESS, Some p') /\ pnl_rep p' l') ->
  appended al l l' ('(rc, ppnl) ← r;
    if decide (rc <> MDBX_SUCCESS) then Some (rc, ppnl) else p ← ppnl; k p).
Proof using.
  intros (rc' & pp & -> & Hrep & Hres) Hn Hk. cbn [mbind option_bind].
  destruct Hres as [(-> & p & -> & Hc)|He].
  - rewrite decide_False by (by intros H; apply H). cbn [mbind option_bind].
    destruct (Hk p Hrep Hc) as (p' & -> & Hp'). exists MDBX_SUCCESS, (Some p'). split; [done|]. left. eauto.
  - rewrite decide_True by (destruct He as [[-> _]|[-> _]]; done). exists rc', pp. split; [done|].
    right. split; [|done]. by rewrite Hn.
Qed.

Lemma pnl_append_spec ppnl l x : pnl_rep_opt ppnl l -> appended al l (l ++ [x]) (pnl_append al ppnl x).
Proof.
  intros Hrep. unfold pnl_append.
  destruct (pnl_need_spec ppnl l 1) as (rc' & pp & -> & Hrep' & Hres); [done|unfold PAGELIST_LIMIT; lia|].
  cbn [mbind option_bind]. destruct Hres as [(-> & p & -> & Hc)|He].
  - rewrite decide_True by done. cbn [mbind option_bind].
    destruct (pnl_append_prereserved_spec p l x) as (p' & -> & Hp'); [done..|].
    exists MDBX_SUCCESS, (Some p'). split; [done|]. left. eauto.
  - rewrite decide_False by (destruct He as [[-> _]|[-> _]]; done).
    exists rc', pp. split; [done|]. right. split; [|done]. by rewrite zlen_snoc.
Qed.

Lemma pnl_append_stepped_spec step ppnl l pgno n : pnl_rep_opt ppnl l -> 0 < n <= PAGELIST_LIMIT ->
  appended al l (l ++ desc_run (Z.to_nat n) step pgno) (pnl_append_stepped al step ppnl pgno n).
Proof.
  intros Hrep Hn. unfold pnl_append_stepped.
  apply (reserved_bind _ _ (zlen l + n)); [by apply pnl_need_spec; [|lia]|rewrite zlen_app, zlen_desc_run; lia|].
  intros p Hp Hc. destruct (Z.eqb_spec n 1) as [->|Hne].
  - destruct (pnl_append_prereserved_spec p l pgno) as (p' & -> & Hp'); [done..|]. by exists p'.
  - destruct (pnl_rep_room p l n Hp Hc) as (len & mid & rest & -> & Hmid & Hmax & Hl'); [lia|]. zlen_pos.
    rewrite pnl_size_cells. cbn [mbind option_bind]. rewrite pnl_setsize_cells by lia. cbn [mbind option_bind].
    subst n. destruct (Z.to_nat (zlen mid)) as [|k] eqn:Ek; [lia|].
    rewrite append_stepped_loop_spec by lia. cbn [mbind option_bind]. eexists. split; [done|].
    specialize (Hl' (l ++ desc_run (S k) step pgno)).
    rewrite zlen_app, zlen_desc_run, <- app_assoc in Hl'.
    replace (zlen l + Z.of_nat (S k)) with (zlen l + zlen mid) in Hl' by lia. by apply Hl'.
Qed.

Lemma pnl_append_pnl_spec dst src l ls : pnl_rep dst l -> pnl_rep src ls ->
  appended al l (l ++ ls) (pnl_append_pnl al dst src).
Proof.
  intros Hd Hs. unfold pnl_append_pnl. rewrite (pnl_rep_size src ls Hs). cbn [mbind option_bind].
  destruct (Z.ltb_spec 0 (zlen ls)) as [Hn|Hn].
  - rewrite (pnl_rep_size dst l Hd). cbn [mbind option_bind]. zlen_pos.
    apply (reserved_bind _ _ (zlen l + zlen ls)); [by apply pnl_reserve_spec; [|lia|]|zlia|].
    intros p Hp Hc.
    destruct (pnl_rep_room p l (zlen ls) Hp Hc) as (len & mid & rest & -> & Hmid & Hmax & Hl'); [lia|].
    destruct Hs as (slen & srest & -> & _).
    rewrite (blit_split (len :: zlen l :: l) mid rest [slen; zlen ls] ls srest); [|done || zlia..].
    cbn [mbind option_bind app]. rewrite pnl_setsize_cells by lia. cbn [mbind option_bind].
    eexists. split; [done|]. specialize (Hl' (l ++ ls)). rewrite zlen_app, <- app_assoc in Hl'. by apply Hl'.
  - assert (ls = []) as -> by (apply zlen_0_nil; zlia). rewrite app_nil_r.
    exists MDBX_SUCCESS, (Some dst). split; [done|]. left. eauto.
Qed.

(** The longest tail of elements up to [pgno] is unique. *)
Lemma tail_split_unique_le pgno h1 l1 h2 l2 : h1 ++ l1 = h2 ++ l2 -> (length h1 <= length h2)%nat ->
  Forall (fun x => x <= pgno) l1 -> (forall x, last h2 = Some x -> pgno < x) -> h2 = h1 /\ l2 = l1.
Proof using.
  intros Heq Hle Hl1 Hh2.
  destruct (app_eq_inv _ _ _ _ Heq) as [(k & -> & ->)|(k & -> & ->)].
  - rewrite length_app in Hle. destruct k; [|cbn in Hle; lia]. by rewrite app_nil_r.
  - destruct k as [|y k] using rev_ind; [by rewrite app_nil_r|].
    rewrite app_assoc, last_snoc in Hh2. specialize (Hh2 y eq_refl).
    rewrite !Forall_app, Forall_singleton in Hl1. lia.
Qed.

Lemma tail_split_unique pgno h1 l1 h2 l2 : h1 ++ l1 = h2 ++ l2 ->
  Forall (fun x => x <= pgno) l1 -> (forall x, last h1 = Some x -> pgno < x) ->
  Forall (fun x => x <= pgno) l2 -> (forall x, last h2 = Some x -> pgno < x) -> h2 = h1 /\ l2 = l1.
Proof using.
  intros Heq Hl1 Hh1 Hl2 Hh2. destruct (Nat.le_ge_cases (length h1) (length h2)).
  - by apply (tail_split_unique_le pgno).
  - destruct (tail_split_unique_le pgno h2 l2 h1 l1) as [-> ->]; done.
Qed.

(** The new run is put before the elements up to [pgno] at the end. *)
Lemma pnl_insert_span_spec ppnl l pgno n : pnl_rep_opt ppnl l -> 0 <= n <= PAGELIST_LIMIT ->
  exists hi lo, l = hi ++ lo /\ Forall (fun x => x <= pgno) lo /\
    (forall x, last hi = Some x -> pgno < x) /\
    appended al l (hi ++ desc_run (Z.to_nat n) 1 pgno ++ lo) (pnl_insert_span al ppnl pgno n).
Proof.
  intros Hrep Hn.
  destruct (insert_shift_spec 0 0 pgno l [] [] (S (length l))) as (hi & lo & G0 & El & _ & Hlo & Hhi & _); [lia|].
  exists hi, lo. split_and!; [done..|]. unfold pnl_insert_span.
  apply (reserved_bind _ _ (zlen l + n)); [by apply pnl_need_spec; [|lia]| |].
  { rewrite El. autorewrite with zlen. rewrite zlen_desc_run. lia. }
  intros p Hp Hc.
  destruct (pnl_rep_room p l n Hp Hc) as (len & mid & rest & -> & Hmid & Hmax & Hl'); [lia|]. zlen_pos.
  rewrite pnl_size_cells. cbn [mbind option_bind]. rewrite pnl_setsize_cells by lia. cbn [mbind option_bind].
  destruct (insert_shift_spec len (zlen l + n) pgno l mid rest (S (Z.to_nat (zlen l))))
    as (hi' & lo' & G & El' & HG & Hlo' & Hhi' & E); [unfold zlen; lia|].
  rewrite Hmid in E. rewrite E. cbn [mbind option_bind].
  rewrite El in El'. destruct (tail_split_unique pgno hi lo hi' lo') as [-> ->]; [done..|].
  replace (zlen hi + n) with (zlen hi + Z.of_nat (Z.to_nat n)) by lia.
  rewrite insert_fill_spec by lia. cbn [mbind option_bind]. eexists. split; [done|].
  specialize (Hl' (hi ++ desc_run (Z.to_nat n) 1 pgno ++ lo)).
  autorewrite with zlen in Hl'. rewrite zlen_desc_run in Hl'. rewrite El, zlen_app in Hl' |- *.
  replace (zlen hi + (Z.of_nat (Z.to_nat n) + zlen lo)) with (zlen hi + zlen lo + n) in Hl' by lia.
  rewrite <- !app_assoc in Hl'. by apply Hl'.
Qed.

Lemma pnl_clone_spec p l : pnl_rep p l -> (forall len, pnl_alloclen p = Some len -> len <= PAGELIST_LIMIT) ->
  exists r, pnl_clone al p = Some r /\ match r with Some p' => pnl_rep p' l | None => alloc_fails al end.
Proof.
  intros Hrep Hlim. pose proof Hrep as (len & rest & -> & Hlen & Hroom). zlen_pos.
  specialize (Hlim len eq_refl). unfold pnl_clone. change (pnl_alloclen _) with (Some len).
  cbn [mbind option_bind]. destruct (pnl_alloc_spec len) as (r & -> & Hr); [lia|]. cbn [mbind option_bind].
  destruct r as [p'|]; [|exists None; split; [done|]; exists [], (pnl_size2bytes len); by left]. destruct Hr as [Hrep' Hcap].
  destruct (pnl_rep_room p' [] (zlen l)) as (len' & mid & rest' & -> & Hmid & _ & Hl'); [done| |lia|].
  { destruct Hcap as (c & Hc & ?). exists c. split; [done|]. rewrite zlen_nil. lia. }
  rewrite pnl_size_cells. cbn [mbind option_bind app].
  rewrite (blit_split [len'] (0 :: mid) rest' [len] (zlen l :: l) rest); [|done || zlia..].
  eexists. split; [done|]. by apply Hl'.
Qed.

Lemma pnl_shrink_spec p l : pnl_rep p l -> exists p', pnl_shrink al p = Some p' /\ pnl_rep p' [].
Proof.
  intros (len & rest & -> & Hlen & Hroom). zlen_pos. unfold pnl_shrink.
  rewrite pnl_setsize_cells by (unfold UINT32_MAX; lia). cbn [mbind option_bind].
  change (pnl_alloclen _) with (Some len). cbn [mbind option_bind].
  assert (pnl_rep (len :: 0 :: l ++ rest) []) as Hnil.
  { exists len, (l ++ rest). split; [done|]. autorewrite with zlen in *. lia. }
  destruct (_ <? len); [|by eexists].
  destruct (osal_realloc al (len :: 0 :: l ++ rest) _) as [p'|] eqn:E; [|by eexists].
  destruct (pnl_realloc_rep _ [] (MDBX_PNL_INITIAL * 2) p' Hnil) as (p'' & -> & Hr & _);
    [by vm_compute|done|]. by exists p''.
Qed.
End Growth.

(** ** Claims *)

(** C36: adding a run of [n] pages to a page-number list, at its end or at the
    place its order asks for, and adding a whole list. The cells written are
    those of the block the list owns; when it has to grow, the elements survive
    [realloc]; the codes are [MDBX_SUCCESS] with the new elements in place,
    [MDBX_ENOMEM] only when the allocator failed, and [MDBX_TXN_FULL] only when
    the result would exceed the limit, and the latter two leave the list as it
    was. *)
Theorem pnl_additions al `{!AllocOk 4 al} ppnl l pgno n src ls :
  pnl_rep_opt ppnl l -> 0 < n <= PAGELIST_LIMIT -> pnl_rep src ls ->
  appended al l (l ++ [pgno]) (pnl_append al ppnl pgno) /\
  appended al l (l ++ desc_run (Z.to_nat n) 1 pgno) (pnl_append_span al ppnl pgno n) /\
  appended al l (l ++ desc_run (Z.to_nat n) 2 (u32 (Z.shiftl pgno 1))) (spill_append_span al ppnl pgno n) /\
  (forall dst, ppnl = Some dst -> appended al l (l ++ ls) (pnl_append_pnl al dst src)) /\
  exists hi lo, l = hi ++ lo /\ Forall (fun x => x <= pgno) lo /\ (forall x, last hi = Some x -> pgno < x) /\
    appended al l (hi ++ desc_run (Z.to_nat n) 1 pgno ++ lo) (pnl_insert_span al ppnl pgno n).
Proof.
  intros Hrep Hn Hsrc. split_and!.
  - by apply pnl_append_spec.
  - by apply pnl_append_stepped_spec.
  - by apply pnl_append_stepped_spec.
  - intros dst ->. by apply pnl_append_pnl_spec.
  - by apply pnl_insert_span_spec; [..|lia].
Qed.

(** The block of a list with room for [cap] elements. *)
Definition sample_pnl (l : list Z) (cap : nat) : pnl :=
  Z.of_nat cap :: zlen l :: l ++ replicate (2 * cap + 1 - length l) 0.

Lemma sample_pnl_rep l cap : (length l <=? cap)%nat && (Z.of_nat cap <=? UINT32_MAX) = true -> pnl_rep (sample_pnl l cap) l.
Proof.
  intros [Hl%Nat.leb_le Hcap%Z.leb_le]%andb_true_iff. exists (Z.of_nat cap), (replicate (2 * cap + 1 - length l) 0). split; [done|].
  unfold sample_pnl. autorewrite with zlen. unfold zlen. rewrite length_replicate. lia.
Qed.

Lemma pnl_additions_witness :
  appended (exact_allocator 4) [9; 8] ([9; 8] ++ [5]) (pnl_append (exact_allocator 4) (Some (sample_pnl [9; 8] 2)) 5) /\
  pnl_append (exact_allocator 4) (Some (sample_pnl [9; 8] 2)) 5 <> None.
Proof.
  split; [|by vm_compute].
  apply (pnl_additions (exact_allocator 4) (AllocOk0 := exact_allocator_ok 4 ltac:(lia)) (Some (sample_pnl [9; 8] 2)) [9; 8] 5 3
    (sample_pnl [3] 1) [3]); [by apply sample_pnl_rep|done|by apply sample_pnl_rep].
Defined.
