(* ===== verification/PnlOrder.v ===== *)
(** * Page number lists: ordered operations ([src/src/pnl.c], [src/src/pnl.h])

    Checking, searching, sorting, merging, intersecting, sifting and the
    search for contiguous runs of pages, for lists in descending order. *)

From stdpp Require Import base list numbers option sorting.
From Stdlib Require Import ZArith Lia.
From S2P Require Import Prelude Search SortNet QuickSort RadixSort Bits Alloc Pnl.

Definition MDBX_RADIXSORT_THRESHOLD : Z := 142.

(** ** Checks *)

Definition pnl_check_lite (p : pnl) (limit : Z) : option bool :=
  sz ← pnl_size p;
  if sz =? 0 then Some true
  else if PAGELIST_LIMIT <? sz then Some false
  else
    least ← pnl_at p sz;
    most ← pnl_at p 1;
    if (1 <? sz) && (most <=? least) then Some false
    else if least <? MIN_PAGENO then Some false
    else if limit <=? most then Some false
    else Some true.

Fixpoint check_full_loop (fuel : nat) (p : pnl) (prev scan end_ : Z) : option bool :=
  match fuel with
  | O => None
  | S fuel =>
      x ← pnl_at p scan;
      if negb (MDBX_PNL_ORDERED prev x) then Some false
      else if scan + 1 =? end_ then Some true
      else check_full_loop fuel p x (scan + 1) end_
  end.

Definition pnl_check_full (p : pnl) (limit : Z) : option bool :=
  ok ← pnl_check_lite p limit;
  if negb ok then Some false
  else
    sz ← pnl_size p;
    if 1 <? sz then
      prev ← pnl_at p 1;
      check_full_loop (Z.to_nat sz) p prev 2 (sz + 1)
    else Some true.

Definition pnl_check_allocated (ppnl : option pnl) (limit : Z) : option bool :=
  match ppnl with
  | None => Some true
  | Some p =>
      len ← pnl_alloclen p;
      sz ← pnl_size p;
      if sz <=? len then pnl_check_lite p limit else Some false
  end.

Definition pnl_check_full_allocated (ppnl : option pnl) (limit : Z) : option bool :=
  match ppnl with
  | None => Some true
  | Some p =>
      len ← pnl_alloclen p;
      sz ← pnl_size p;
      if sz <=? len then pnl_check_full p limit else Some false
  end.

(** ** Sorting and searching *)

Definition MDBX_PNL_EXTRACT_KEY (x : Z) : Z := u32 (P_INVALID - x).

Section Cmov.
Context (have_cmov : bool).

Definition pnl_sort_nochk (p : pnl) : option pnl :=
sz ← pnl_size p;
if sz <? MDBX_RADIXSORT_THRESHOLD
then sort_impl MDBX_PNL_ORDERED have_cmov p 2 (sz + 2)
else radixsort MDBX_PNL_EXTRACT_KEY 0 p 2 (Z.to_nat sz).

Definition pnl_search_nochk (p : pnl) (pgno : Z) : option Z :=
sz ← pnl_size p;
it ← search_impl MDBX_PNL_ORDERED have_cmov p 2 sz pgno;
Some (it - 2 + 1).

Definition pnl_search_exact (p : pnl) (pgno : Z) : option Z :=
n ← pnl_search_nochk p pgno;
sz ← pnl_size p;
if n <=? sz then x ← pnl_at p n; Some (if x =? pgno then n else 0) else Some 0.

Definition pnl_contains (p : pnl) (pgno : Z) : option bool :=
n ← pnl_search_nochk p pgno;
sz ← pnl_size p;
if n <=? sz then x ← pnl_at p n; Some (x =? pgno) else Some false.

Definition pnl_contains_span (p : pnl) (pgno span : Z) : option bool :=
n ← pnl_search_nochk p pgno;
if span <=? n then
  x ← pnl_at p n;
  if x =? pgno then
    y ← pnl_at p (n - span + 1);
    Some (MDBX_PNL_CONTIGUOUS y x (u32 (span - 1)))
  else Some false
else Some false.

(** ** Merging *)

(** The loop of [pnl_merge_inner] with conditional moves: the last elements
    of both lists are compared, the lower one is stored. *)
Fixpoint merge_cmov_loop (fuel : nat) (d s : pnl) (di ai bi : Z) : option pnl :=
match fuel with
| O => None
| S fuel =>
    b ← pnl_at s bi;
    a ← pnl_at d ai;
    let flag := MDBX_PNL_ORDERED b a in
    d ← pnl_put d di (if flag then a else b);
    let bi := if flag then bi else bi - 1 in
    let ai := if flag then ai - 1 else ai in
    if 0 <? bi then merge_cmov_loop fuel d s (di - 1) ai bi else Some d
end.

(** [while (MDBX_PNL_ORDERED( *src_b, *src_a)) *dst-- = *src_a--;] *)
Fixpoint merge_drain (fuel : nat) (d : pnl) (b di ai : Z) : option (pnl * Z * Z) :=
match fuel with
| O => None
| S fuel =>
    a ← pnl_at d ai;
    if MDBX_PNL_ORDERED b a then
      d ← pnl_put d di a;
      merge_drain fuel d b (di - 1) (ai - 1)
    else Some (d, di, ai)
end.

(** The loop without conditional moves. *)
Fixpoint merge_jump_loop (fuel : nat) (d s : pnl) (di ai bi : Z) : option pnl :=
match fuel with
| O => None
| S fuel =>
    b ← pnl_at s bi;
    '(d, di, ai) ← merge_drain (S (Z.to_nat ai)) d b di ai;
    d ← pnl_put d di b;
    if 0 <? bi - 1 then merge_jump_loop fuel d s (di - 1) ai (bi - 1) else Some d
end.

Definition pnl_merge_inner (d s : pnl) (di ai bi : Z) : option pnl :=
if have_cmov then merge_cmov_loop (Z.to_nat di) d s di ai bi
else merge_jump_loop (Z.to_nat bi) d s di ai bi.

Definition pnl_merge (dst src : pnl) : option (pnl * Z) :=
src_len ← pnl_size src;
dst_len ← pnl_size dst;
if 0 <? src_len then
  let total := dst_len + src_len in
  let inner :=
    d ← pnl_put dst 0 P_INVALID;
    pnl_merge_inner d src total dst_len src_len in
  d ←
    (if total <? (if have_cmov then 21 else 12) then inner
     else
       after ← (if dst_len =? 0 then Some true
                else d_last ← pnl_at dst dst_len;
                     s_first ← pnl_at src 1;
                     Some (MDBX_PNL_ORDERED d_last s_first));
       if (after : bool) then blit src 2 dst (dst_len + 2) src_len
       else
         s_last ← pnl_at src src_len;
         d_first ← pnl_at dst 1;
         if MDBX_PNL_ORDERED s_last d_first then
           d ← blit dst 2 dst (2 + src_len) dst_len;
           blit src 2 d 2 src_len
         else inner);
  d ← pnl_setsize d total;
  Some (d, total)
else Some (dst, dst_len).

(** ** Sifting *)

(** [while (r <= len) pnl[w++] = pnl[r++];] *)
Fixpoint sift_tail (fuel : nat) (p : pnl) (w r len : Z) : option (pnl * Z) :=
match fuel with
| O => None
| S fuel =>
    if r <=? len then
      x ← pnl_at p r;
      p ← pnl_put p w x;
      sift_tail fuel p (w + 1) (r + 1) len
    else Some (p, w)
end.

(** The update loop. [sift_next] starts at the label [next], [sift_update] at
    the head of the inner loop. *)
Fixpoint sift_next (fuel : nat) (p fo : pnl) (w r f len fe : Z) {struct fuel} : option pnl :=
match fuel with
| O => None
| S fuel =>
    let f := f + 1 in
    if f =? fe then
      '(p, w) ← sift_tail (S (Z.to_nat len)) p w r len;
      pnl_setsize p (w - 1)
    else sift_update fuel p fo w r f len fe
end
with sift_update (fuel : nat) (p fo : pnl) (w r f len fe : Z) {struct fuel} : option pnl :=
match fuel with
| O => None
| S fuel =>
    if r <=? len then
      fo_pgno ← pnl_at fo f;
      pl_pgno ← pnl_at p r;
      if MDBX_PNL_ORDERED pl_pgno fo_pgno then
        p ← pnl_put p w pl_pgno;
        sift_update fuel p fo (w + 1) (r + 1) f len fe
      else if MDBX_PNL_REVERSED pl_pgno fo_pgno then sift_next fuel p fo w r f len fe
      else sift_next fuel p fo w (r + 1) f len fe
    else pnl_setsize p (w - 1)
end.

(** The scan loop: nothing is changed until the first common page. *)
Fixpoint sift_scan (fuel : nat) (p fo : pnl) (r f len fe : Z) : option pnl :=
match fuel with
| O => None
| S fuel =>
    if r <=? len then
      fo_pgno ← pnl_at fo f;
      pl_pgno ← pnl_at p r;
      if negb (pl_pgno =? fo_pgno) then
        let cmp := MDBX_PNL_ORDERED pl_pgno fo_pgno in
        let r := if cmp then r + 1 else r in
        let f := if cmp then f else f + 1 in
        if negb (f =? fe) then sift_scan fuel p fo r f len fe else Some p
      else sift_next (2 * Z.to_nat (len + fe)) p fo r (r + 1) f len fe
    else Some p
end.

Definition pnl_sift (p fo : pnl) : option pnl :=
sz ← pnl_size p;
fsz ← pnl_size fo;
if negb (sz =? 0) && negb (fsz =? 0) then
  let fe := fsz + 1 in
  let len := sz in
  fo1 ← pnl_at fo 1;
  r ← pnl_search_nochk p fo1;
  sift_scan (S (Z.to_nat (len + fe))) p fo r 1 len fe
else Some p.

(** ** A range of pages moved to another list *)

Fixpoint cut_range_loop (al : allocator) (fuel : nat) (p : pnl) (pdest : option pnl)
  (to len range_begin : Z) : option (rc * option pnl * Z) :=
match fuel with
| O => None
| S fuel =>
    if to <=? len then
      pgno ← pnl_at p to;
      if pgno <? range_begin then Some (MDBX_SUCCESS, pdest, to)
      else
        '(err, pdest) ← pnl_append al pdest pgno;
        if decide (err <> MDBX_SUCCESS) then Some (err, pdest, to)
        else cut_range_loop al fuel p pdest (to + 1) len range_begin
    else Some (MDBX_SUCCESS, pdest, to)
end.

Definition pnl_cut_range (al : allocator) (p : pnl) (pdest : option pnl) (range_begin range_end : Z) :
  option (rc * pnl * option pnl) :=
from ← pnl_search_nochk p (u32 (range_end - 1));
len ← pnl_size p;
'(err, pdest, to) ← cut_range_loop al (S (Z.to_nat len)) p pdest from len range_begin;
if decide (err <> MDBX_SUCCESS) then Some (err, p, pdest)
else
  p ← (if from <? to then pnl_cut p from (to - from) else Some p);
  Some (MDBX_SUCCESS, p, pdest).
End Cmov.

(** ** Intersection *)

Fixpoint intersect_loop (fuel : nat) (a b : pnl) (ia ib a_len b_len : Z) : option bool :=
  match fuel with
  | O => None
  | S fuel =>
      if (ia <=? a_len) && (ib <=? b_len) then
        x ← pnl_at a ia;
        y ← pnl_at b ib;
        if y <? x then intersect_loop fuel a b (ia + 1) ib a_len b_len
        else if x <? y then intersect_loop fuel a b ia (ib + 1) a_len b_len
        else Some true
      else Some false
  end.

Definition pnl_intersect (a b : pnl) : option bool :=
  a_len ← pnl_size a;
  b_len ← pnl_size b;
  if (a_len =? 0) || (b_len =? 0) then Some false
  else intersect_loop (S (Z.to_nat (a_len + b_len))) a b 1 1 a_len b_len.

(** ** Runs of contiguous pages *)

Fixpoint maxspan_loop (left_ : nat) (p : pnl) (scan span : Z) : option Z :=
  match left_ with
  | O => None
  | S left_ =>
      x ← pnl_at p scan;
      y ← pnl_at p (scan + span);
      let contiguous := MDBX_PNL_CONTIGUOUS x y span in
      let span' := if contiguous then span + 1 else span in
      let scan' := if contiguous then scan else scan + 1 in
      match left_ with
      | O => Some span'
      | S _ => maxspan_loop left_ p scan' span'
      end
  end.

Definition pnl_maxspan (p : pnl) : option Z :=
  len ← pnl_size p;
  if 1 <? len then maxspan_loop (Z.to_nat (len - 1)) p 1 1 else Some len.

(** [while (from + span <= size && CONTIGUOUS(pnl[from], pnl[from + span], span)) ++span;] *)
Fixpoint scan_span_loop (fuel : nat) (p : pnl) (from span : Z) : option Z :=
  match fuel with
  | O => None
  | S fuel =>
      sz ← pnl_size p;
      if from + span <=? sz then
        x ← pnl_at p from;
        y ← pnl_at p (from + span);
        if MDBX_PNL_CONTIGUOUS x y span then scan_span_loop fuel p from (span + 1) else Some span
      else Some span
  end.

Definition pnl_scan_span (p : pnl) (from : Z) : option Z :=
  sz ← pnl_size p;
  scan_span_loop (S (Z.to_nat sz)) p from 1.

Definition pnl_crop_tail_sequence (p : pnl) : option (pnl * Z) :=
  len ← pnl_size p;
  span ← scan_span_loop (S (Z.to_nat len)) p 1 1;
  p ← pnl_cut p 1 span;
  Some (p, u32 span).

(** The length of the run that ends at [i], looking towards the head. The
    length cell [pnl[0]] may be read, but is not used then. *)
Fixpoint best_span_loop (fuel : nat) (p : pnl) (i span : Z) : option Z :=
  match fuel with
  | O => None
  | S fuel =>
      x ← pnl_at p (i - span);
      y ← pnl_at p i;
      if MDBX_PNL_CONTIGUOUS x y span && (0 <? i - span)
      then best_span_loop fuel p i (span + 1)
      else Some span
  end.

Fixpoint best_loop (fuel : nat) (p : pnl) (seq defrag_detent i best_pos best_extra : Z) : option Z :=
  match fuel with
  | O => None
  | S fuel =>
      if seq <=? i then
        x ← pnl_at p i;
        if x <=? u64 (defrag_detent - seq) then
          span ← best_span_loop (S (Z.to_nat i)) p i 1;
          if (seq <=? span) && (span - seq <? best_extra) then
            if span - seq =? 0 then Some i
            else best_loop fuel p seq defrag_detent (i - span) i (span - seq)
          else best_loop fuel p seq defrag_detent (i - span) best_pos best_extra
        else Some best_pos
      else Some best_pos
  end.

Definition pnl_get_best_sequence (p : pnl) (seq defrag_detent : Z) : option (pnl * Z) :=
  len ← pnl_size p;
  best_pos ← best_loop (S (Z.to_nat len)) p seq defrag_detent len 0 MAX_PAGENO;
  if negb (best_pos =? 0) then
    pgno ← pnl_at p best_pos;
    p ← pnl_cut p (best_pos - seq + 1) seq;
    Some (p, pgno)
  else Some (p, 0).

(** ** Order *)

(** Strictly descending: what every list in use is; and descending with
    possible duplicates. *)
Definition desc : list Z -> Prop := StronglySorted (fun x y => y < x).
Definition desc_weak : list Z -> Prop := StronglySorted (fun x y => y <= x).

Lemma desc_desc_weak l : desc l -> desc_weak l.
Proof. apply StronglySorted_impl. lia. Qed.

#[export] Hint Resolve desc_desc_weak : core.

Lemma desc_NoDup l : desc l -> NoDup l.
Proof.
  induction 1 as [|x l Hs IH Hall]; constructor; [|done].
  intros Hx. rewrite Forall_forall in Hall. specialize (Hall x Hx). lia.
Qed.

Lemma desc_weak_NoDup l : desc_weak l -> NoDup l -> desc l.
Proof.
  induction 1 as [|x l Hs IH Hall]; [constructor|]. rewrite NoDup_cons. intros [Hn Hnd].
  constructor; [by apply IH|]. rewrite Forall_forall in Hall. apply Forall_forall. intros y Hy. specialize (Hall y Hy).
  assert (y <> x) by (intros ->; done). lia.
Qed.

#[export] Instance Zge_antisymm : AntiSymm (=) (fun x y : Z => y <= x).
Proof. intros x y. lia. Qed.

(** Two weakly descending lists with the same elements are equal. *)
Lemma desc_weak_unique l l' : desc_weak l -> desc_weak l' -> l ≡ₚ l' -> l = l'.
Proof.
  intros Hl Hl' HP. apply (StronglySorted_unique (fun x y => y <= x)); done.
Qed.

(** ** Searching *)

Section Searching.
Context (cm : bool).

Lemma pnl_search_nochk_spec p l pgno : pnl_rep p l -> desc_weak l ->
  exists hi lo, l = hi ++ lo /\ Forall (fun x => pgno < x) hi /\ Forall (fun x => x <= pgno) lo /\
    pnl_search_nochk cm p pgno = Some (zlen hi + 1).
Proof.
  intros Hrep Hs. pose proof Hrep as (len & rest & Hp & Hlen & Hroom). zlen_pos.
  assert (forall i, 2 <= i < 2 + zlen l -> zget p i = zget l (i - 2)) as Hg.
  { intros i Hi. subst p. rewrite !zget_cons_pos by lia. rewrite zget_app_l by lia. f_equal. lia. }
  unfold pnl_search_nochk. rewrite (pnl_rep_size p l Hrep). cbn [mbind option_bind].
  destruct (search_impl_spec MDBX_PNL_ORDERED cm p 2 (zlen l) pgno) as (r & -> & Hr & Hlt & Hge); [lia|lia| |lia| |].
  { subst p. zlia. }
  { intros i j x y Hij Hj. rewrite !Hg by lia. intros Hx Hy. unfold MDBX_PNL_ORDERED.
    unfold desc_weak in Hs. rewrite StronglySorted_zget in Hs. specialize (Hs (i - 2) (j - 2) x y ltac:(lia) Hx Hy). lia. }
  destruct (zsplit l (r - 2)) as (hi & lo & -> & Hhi); [lia|].
  exists hi, lo. cbn [mbind option_bind]. split_and!; [done| | |f_equal; lia].
  - apply Forall_forall. intros x (i & Hi & Hx)%elem_zget. specialize (Hlt (i + 2) x ltac:(lia)).
    rewrite Hg in Hlt by lia. replace (i + 2 - 2) with i in Hlt by lia. rewrite zget_app_l in Hlt by lia.
    unfold MDBX_PNL_ORDERED in Hlt. specialize (Hlt Hx). lia.
  - apply Forall_forall. intros x (i & Hi & Hx)%elem_zget. autorewrite with zlen in *.
    specialize (Hge (i + r) x ltac:(lia)). rewrite Hg in Hge by lia.
    rewrite (zget_app_skip _ _ _ i) in Hge by lia. unfold MDBX_PNL_ORDERED in Hge. specialize (Hge Hx). lia.
Qed.

(** In a descending list the searched page can only be the first of the
    elements that are not above it. *)
Lemma split_elem pgno hi lo : desc (hi ++ lo) -> Forall (fun x => pgno < x) hi -> Forall (fun x => x <= pgno) lo ->
  pgno ∈ hi ++ lo <-> exists lo', lo = pgno :: lo'.
Proof using.
  intros Hd Hhi Hlo. rewrite Forall_forall in Hhi, Hlo. rewrite elem_of_app. split.
  - intros [H|H]; [specialize (Hhi _ H); lia|]. destruct lo as [|y lo]; [by apply elem_of_nil in H|].
    apply StronglySorted_app_iff in Hd as (_ & Hd & _). inversion Hd as [|?? Hs Hall]; subst.
    rewrite Forall_forall in Hall. apply elem_of_cons in H as [->|H]; [eauto|].
    specialize (Hall _ H). specialize (Hlo y ltac:(constructor)). lia.
  - intros [lo' ->]. right. constructor.
Qed.

Lemma pnl_search_exact_spec p l pgno : pnl_rep p l -> desc l ->
  exists n, pnl_search_exact cm p pgno = Some n /\ 0 <= n <= zlen l /\
    (n <> 0 -> zget l (n - 1) = Some pgno) /\ (n = 0 -> pgno ∉ l).
Proof.
  intros Hrep Hd. destruct (pnl_search_nochk_spec p l pgno) as (hi & lo & -> & Hhi & Hlo & E); [auto..|].
  pose proof (split_elem pgno hi lo Hd Hhi Hlo) as Hin. unfold pnl_search_exact. rewrite E.
  cbn [mbind option_bind]. rewrite (pnl_rep_size _ _ Hrep). cbn [mbind option_bind]. zlen_pos.
  destruct (Z.leb_spec (zlen hi + 1) (zlen (hi ++ lo))) as [Hle|Hgt].
  - rewrite (pnl_rep_at _ _ _ Hrep) by lia. destruct lo as [|y lo]; [zlia|].
    rewrite zget_app_mid by lia. cbn [mbind option_bind]. destruct (Z.eqb_spec y pgno) as [->|Hne].
    + exists (zlen hi + 1). split_and!; [done|lia..| |lia]. intros _. by rewrite zget_app_mid by lia.
    + exists 0. split_and!; [done|lia..|]. intros _ Hn. apply Hin in Hn as [? [= ??]]. done.
  - exists 0. split_and!; [done|lia..|]. intros _ Hn. apply Hin in Hn as [? ->]. zlia.
Qed.

Lemma pnl_contains_spec p l pgno : pnl_rep p l -> desc l ->
  exists b, pnl_contains cm p pgno = Some b /\ (b = true <-> pgno ∈ l).
Proof.
  intros Hrep Hd. destruct (pnl_search_exact_spec p l pgno Hrep Hd) as (n & E & Hn & Hyes & Hno).
  unfold pnl_search_exact in E. unfold pnl_contains.
  destruct (pnl_search_nochk cm p pgno) as [k|] eqn:Ek; [|done]. cbn [mbind option_bind] in *.
  rewrite (pnl_rep_size _ _ Hrep) in *. cbn [mbind option_bind] in *.
  destruct (Z.leb_spec k (zlen l)).
  - destruct (pnl_at p k) as [x|]; [|done]. cbn [mbind option_bind] in *. simplify_eq.
    exists (x =? pgno). split; [done|]. destruct (Z.eqb_spec x pgno).
    + split; [intros _|done]. destruct (decide (k = 0)) as [->|Hk0].
      * destruct (pnl_search_nochk_spec p l pgno Hrep) as (hi & lo & -> & _ & _ & E'); [auto|].
        rewrite Ek in E'. injection E' as E'. zlia.
      * eapply zget_elem; eauto.
    + split; [done|]. intros Hin. by apply Hno in Hin.
  - simplify_eq. exists false. split; [done|]. split; [done|]. intros Hin. by apply Hno in Hin.
Qed.

End Searching.

(** ** Runs: the specification *)

(** The pages [pgno], ..., [pgno + n - 1] are in the list. *)
Definition run_in (l : list Z) (pgno n : Z) : Prop := forall k, 0 <= k < n -> pgno + k ∈ l.

(** A run that can not be extended on either side. *)
Definition maximal_run (l : list Z) (pgno n : Z) : Prop :=
  run_in l pgno n /\ pgno - 1 ∉ l /\ pgno + n ∉ l.

Definition pages (l : list Z) : Prop := Forall (fun x => 0 <= x <= UINT32_MAX) l.

(** The cells [i], ..., [i + n - 1] hold contiguous page numbers, [y] last. *)
Definition cells_run (l : list Z) (i n y : Z) : Prop :=
  zget l i = Some (y + n - 1) /\ zget l (i + n - 1) = Some y.

Section Runs.
Context (l : list Z) (Hd : desc l).

Lemma desc_gap i j x y : zget l i = Some x -> zget l j = Some y -> i <= j -> j - i <= x - y.
Proof using Hd.
  intros Hx Hy Hij. replace j with (i + Z.of_nat (Z.to_nat (j - i))) in * by lia.
  revert y Hy. generalize (Z.to_nat (j - i)). clear j Hij. intros n.
  induction n as [|n IH]; intros y Hy.
  - rewrite Z.add_0_r in *. simplify_eq. lia.
  - pose proof (zget_range _ _ _ Hx). pose proof (zget_range _ _ _ Hy).
    destruct (zget_in l (i + Z.of_nat n)) as [z Hz]; [lia|]. specialize (IH z Hz).
    unfold desc in Hd. rewrite StronglySorted_zget in Hd.
    specialize (Hd (i + Z.of_nat n) (i + Z.of_nat (S n)) z y ltac:(lia) Hz Hy). lia.
Qed.

Lemma window_cells i n y : 1 <= n -> cells_run l i n y ->
  forall t, 0 <= t < n -> zget l (i + n - 1 - t) = Some (y + t).
Proof using Hd.
  intros Hn [Hx Hy] t Ht. pose proof (zget_range _ _ _ Hx). pose proof (zget_range _ _ _ Hy).
  destruct (zget_in l (i + n - 1 - t)) as [z Hz]; [lia|].
  pose proof (desc_gap _ _ _ _ Hx Hz ltac:(lia)). pose proof (desc_gap _ _ _ _ Hz Hy ltac:(lia)).
  rewrite Hz. f_equal. lia.
Qed.

Lemma window_run i n y : 1 <= n -> cells_run l i n y -> run_in l y n.
Proof using Hd. intros Hn Hw k Hk. eapply zget_elem. by apply (window_cells i n). Qed.

Lemma run_window n y : 1 <= n -> run_in l y n -> exists i, cells_run l i n y.
Proof using Hd.
  intros Hn Hrun. destruct (elem_zget l y) as (j & Hj & Hy).
  { specialize (Hrun 0 ltac:(lia)). by rewrite Z.add_0_r in Hrun. }
  assert (forall k : nat, Z.of_nat k < n -> zget l (j - Z.of_nat k) = Some (y + Z.of_nat k)) as Hk.
  { induction k as [|k IH]; intros Hlt; [by rewrite Z.sub_0_r, Z.add_0_r|].
    specialize (IH ltac:(lia)). destruct (elem_zget l (y + Z.of_nat (S k))) as (i & Hi & Hz); [apply Hrun; lia|].
    destruct (Z.le_gt_cases i (j - Z.of_nat k)) as [Hle|Hgt].
    - pose proof (desc_gap _ _ _ _ Hz IH Hle).
      assert (i <> j - Z.of_nat k) by (intros ->; rewrite Hz in IH; simplify_eq; lia).
      by replace (j - Z.of_nat (S k)) with i by lia.
    - pose proof (desc_gap _ _ _ _ IH Hz ltac:(lia)). lia. }
  exists (j - (n - 1)). specialize (Hk (Z.to_nat (n - 1)) ltac:(lia)). rewrite Z2Nat.id in Hk by lia.
  split; [rewrite Hk; f_equal; lia|]. by replace (j - (n - 1) + n - 1) with j by lia.
Qed.

Lemma window_shrink i n y : 1 <= n -> cells_run l i (n + 1) y -> cells_run l i n (y + 1).
Proof using Hd.
  intros Hn Hw. pose proof (window_cells i (n + 1) y ltac:(lia) Hw 1 ltac:(lia)) as H1.
  destruct Hw as [Hx _]. split; [rewrite Hx; f_equal; lia|]. rewrite <- H1. f_equal. lia.
Qed.

(** Inside of a window neighbours are neighbours. *)
Lemma window_inside i n y b u v : 1 <= n -> cells_run l i n y -> i < b < i + n ->
  zget l (b - 1) = Some u -> zget l b = Some v -> u = v + 1.
Proof using Hd.
  intros Hn Hw Hb Hu Hv.
  pose proof (window_cells _ _ _ Hn Hw (i + n - 1 - b) ltac:(lia)) as H1.
  pose proof (window_cells _ _ _ Hn Hw (i + n - b) ltac:(lia)) as H2.
  replace (i + n - 1 - (i + n - 1 - b)) with b in H1 by lia.
  replace (i + n - 1 - (i + n - b)) with (b - 1) in H2 by lia. simplify_eq. lia.
Qed.

Lemma contiguous_window (Hpg : pages l) i n x y : 0 <= n ->
  zget l i = Some x -> zget l (i + n) = Some y ->
  MDBX_PNL_CONTIGUOUS x y n = true <-> cells_run l i (n + 1) y.
Proof using Hd.
  intros Hn Hx Hy. unfold MDBX_PNL_CONTIGUOUS, cells_run.
  unfold pages in Hpg. rewrite Forall_forall in Hpg.
  pose proof (Hpg _ (zget_elem _ _ _ Hx)). pose proof (Hpg _ (zget_elem _ _ _ Hy)).
  pose proof (desc_gap _ _ _ _ Hx Hy ltac:(lia)). rewrite u32_small by lia. rewrite Z.eqb_eq.
  replace (i + (n + 1) - 1) with (i + n) by lia. rewrite Hx, Hy. split.
  - intros <-. split; f_equal; lia.
  - intros [E _]. injection E. lia.
Qed.

(** A maximal run is the window between two boundaries. *)
Lemma maximal_window q m : 1 <= m -> maximal_run l q m -> exists j, cells_run l (j - m) m q /\ m <= j <= zlen l /\
  (forall v, zget l j = Some v -> v < q - 1) /\ (forall u, zget l (j - m - 1) = Some u -> q + m < u).
Proof using Hd.
  intros Hm (Hrun & Hlo & Hhi). destruct (run_window m q Hm Hrun) as [i Hw].
  pose proof (zget_range _ _ _ (proj1 Hw)). pose proof (zget_range _ _ _ (proj2 Hw)).
  exists (i + m). replace (i + m - m) with i by lia. split_and!; [done|lia|lia| |].
  - intros v Hv. pose proof (desc_gap _ _ _ _ (proj2 Hw) Hv ltac:(lia)).
    assert (v <> q - 1) by (intros ->; by apply zget_elem in Hv). lia.
  - intros u Hu. pose proof (desc_gap _ _ _ _ Hu (proj1 Hw) ltac:(lia)).
    assert (u <> q + m) by (intros ->; by apply zget_elem in Hu). lia.
Qed.

Lemma window_maximal i m q : 1 <= m -> cells_run l i m q ->
  (forall v, zget l (i + m) = Some v -> v < q - 1) -> (forall u, zget l (i - 1) = Some u -> q + m < u) ->
  maximal_run l q m.
Proof using Hd.
  intros Hm Hw Hlo Hhi. split; [by eapply window_run|].
  split; intros (k & Hk & Hz)%elem_zget.
  - assert (i + m - 1 < k) as Hlt.
    { destruct (Z.le_gt_cases k (i + m - 1)) as [Hle|]; [|lia].
      pose proof (desc_gap _ _ _ _ Hz (proj2 Hw) Hle). lia. }
    pose proof (zget_range _ _ _ (proj2 Hw)).
    destruct (zget_in l (i + m)) as [v Hv]; [lia|]. specialize (Hlo v Hv).
    pose proof (desc_gap _ _ _ _ Hv Hz ltac:(lia)). lia.
  - assert (k < i) as Hlt.
    { destruct (Z.le_gt_cases i k) as [Hle|]; [|lia].
      pose proof (desc_gap _ _ _ _ (proj1 Hw) Hz Hle). lia. }
    pose proof (zget_range _ _ _ (proj1 Hw)).
    destruct (zget_in l (i - 1)) as [u Hu]; [lia|]. specialize (Hhi u Hu).
    pose proof (desc_gap _ _ _ _ Hz Hu ltac:(lia)). lia.
Qed.
End Runs.

(** ** Runs: the loops *)

Section RunLoops.
Context (p : pnl) (l : list Z) (Hrep : pnl_rep p l) (Hd : desc l) (Hpg : pages l).

Lemma pnl_at_rep_some i : 1 <= i <= zlen l -> exists x, pnl_at p i = Some x /\ zget l (i - 1) = Some x.
Proof using Hrep.
  intros Hi. rewrite (pnl_rep_at p l i Hrep Hi). destruct (zget_in l (i - 1)) as [x Hx]; [lia|]. eauto.
Qed.

(** The invariant of [pnl_maxspan]: a run of length [span] is known, and no
    longer one starts before the cell [i]. *)
Definition span_inv (i span : Z) : Prop :=
  0 <= i /\ 1 <= span /\ (exists y, run_in l y span) /\
  (forall i' y, 0 <= i' < i -> ~ cells_run l i' (span + 1) y).

Lemma span_inv_step i span x y : span_inv i span -> zget l i = Some x -> zget l (i + span) = Some y ->
  let c := MDBX_PNL_CONTIGUOUS x y span in
  span_inv (if c then i else i + 1) (if c then span + 1 else span).
Proof using Hd Hpg.
  intros (Hi & Hs & Hach & Hmax) Hx Hy. cbn zeta.
  pose proof (contiguous_window l Hd Hpg i span x y ltac:(lia) Hx Hy) as Hc.
  destruct (MDBX_PNL_CONTIGUOUS x y span).
  - split_and!; [lia..| |].
    + exists y. eapply window_run; [done|lia|by apply Hc].
    + intros i' y' Hi' Hw. apply (Hmax i' (y' + 1) Hi'). apply window_shrink; [done|lia|done].
  - split_and!; [lia..|done|]. intros i' y' Hi' Hw.
    destruct (decide (i' = i)) as [->|]; [|by apply (Hmax i' y'); [lia|]].
    assert (y' = y) as ->; [|by apply Hc in Hw].
    destruct Hw as [_ Hw]. replace (i + (span + 1) - 1) with (i + span) in Hw by lia. by simplify_eq.
Qed.

Lemma maxspan_loop_spec (left_ : nat) : forall i span,
  span_inv i span -> i + span + Z.of_nat (S left_) = zlen l ->
  exists s, maxspan_loop (S left_) p (i + 1) span = Some s /\
    (exists y, run_in l y s) /\ (forall y, ~ run_in l y (s + 1)).
Proof using Hrep Hd Hpg.
  induction left_ as [|k IH]; intros i span Hinv Hleft; pose proof Hinv as (Hi & Hs & _ & _).
  all: remember (S _) as n eqn:En in Hleft.
  all: cbn [maxspan_loop]; destruct (pnl_at_rep_some (i + 1)) as (x & -> & Hx); [lia|]; cbn [mbind option_bind].
  all: destruct (pnl_at_rep_some (i + 1 + span)) as (y & -> & Hy); [lia|]; cbn [mbind option_bind].
  all: replace (i + 1 - 1) with i in Hx by lia; replace (i + 1 + span - 1) with (i + span) in Hy by lia.
  all: pose proof (span_inv_step i span x y Hinv Hx Hy) as Hinv'; cbn zeta in Hinv'.
  - eexists. split; [done|]. destruct Hinv' as (_ & Hs' & Hach & Hmax). split; [done|].
    intros q Hq. edestruct (run_window l Hd) as [i' Hw]; [|exact Hq|]; [lia|].
    pose proof (zget_range _ _ _ (proj1 Hw)). pose proof (zget_range _ _ _ (proj2 Hw)).
    apply (Hmax i' q); [|done]. destruct (MDBX_PNL_CONTIGUOUS x y span); lia.
  - apply IH in Hinv' as (s & Es & Hs'); [|destruct (MDBX_PNL_CONTIGUOUS x y span); lia].
    exists s. rewrite <- Es. split; [|done]. by destruct (MDBX_PNL_CONTIGUOUS x y span).
Qed.

Lemma scan_span_loop_spec (fuel : nat) : forall i span y,
  0 <= i -> 1 <= span -> cells_run l i span y -> zlen l < i + span + Z.of_nat fuel ->
  exists s y', scan_span_loop fuel p (i + 1) span = Some s /\ 1 <= s /\ cells_run l i s y' /\
    (forall z, ~ cells_run l i (s + 1) z).
Proof using Hrep Hd Hpg.
  induction fuel as [|fuel IH]; intros i span y0 Hi Hs Hw Hf.
  { pose proof (zget_range _ _ _ (proj2 Hw)). lia. }
  cbn [scan_span_loop]. rewrite (pnl_rep_size p l Hrep). cbn [mbind option_bind].
  destruct (Z.leb_spec (i + 1 + span) (zlen l)).
  - destruct (pnl_at_rep_some (i + 1)) as (x & -> & Hx); [lia|]. cbn [mbind option_bind].
    destruct (pnl_at_rep_some (i + 1 + span)) as (y & -> & Hy); [lia|]. cbn [mbind option_bind].
    replace (i + 1 - 1) with i in Hx by lia. replace (i + 1 + span - 1) with (i + span) in Hy by lia.
    pose proof (contiguous_window l Hd Hpg i span x y ltac:(lia) Hx Hy) as Hc.
    destruct (MDBX_PNL_CONTIGUOUS x y span).
    + apply (IH i (span + 1) y); [lia..|by apply Hc|lia].
    + exists span, y0. split_and!; [done..|]. intros z Hz. 
      assert (z = y) as ->; [|by apply Hc in Hz].
      destruct Hz as [_ Hz]. replace (i + (span + 1) - 1) with (i + span) in Hz by lia. by simplify_eq.
  - exists span, y0. split_and!; [done..|]. intros z Hz. pose proof (zget_range _ _ _ (proj2 Hz)). lia.
Qed.

Lemma best_span_loop_spec (fuel : nat) : forall i span y,
  1 <= span <= i -> i <= zlen l -> cells_run l (i - span) span y -> i - span < Z.of_nat fuel ->
  exists s, best_span_loop fuel p i span = Some s /\ 1 <= s <= i /\ cells_run l (i - s) s y /\
    (forall u, zget l (i - s - 1) = Some u -> y + s < u).
Proof using Hrep Hd Hpg.
  induction fuel as [|fuel IH]; intros i span y Hs Hi Hw Hf; [lia|]. cbn [best_span_loop].
  assert (pnl_at p i = Some y) as Ey.
  { destruct (pnl_at_rep_some i) as (y' & -> & Hy'); [lia|]. destruct Hw as [_ Hw].
    replace (i - span + span - 1) with (i - 1) in Hw by lia. by rewrite <- Hw, <- Hy'. }
  destruct (decide (i - span = 0)) as [E0|Hne].
  - destruct (zget_in p (i - span + 1)) as [x Hx].
    { destruct Hrep as (len & rest & -> & _). zlia. }
    change (pnl_at p (i - span)) with (zget p (i - span + 1)). rewrite Hx. cbn [mbind option_bind]. rewrite Ey. cbn [mbind option_bind].
    destruct (Z.ltb_spec 0 (i - span)); [lia|]. rewrite andb_false_r.
    exists span. split_and!; [done|lia|lia|done|]. intros u Hu%zget_range. lia.
  - destruct (pnl_at_rep_some (i - span)) as (x & -> & Hx); [lia|]. cbn [mbind option_bind].
    rewrite Ey. cbn [mbind option_bind].
    destruct (Z.ltb_spec 0 (i - span)); [|lia]. rewrite andb_true_r.
    assert (zget l (i - span - 1 + span) = Some y) as Hy.
    { destruct Hw as [_ Hw]. rewrite <- Hw. f_equal. lia. }
    pose proof (contiguous_window l Hd Hpg (i - span - 1) span x y ltac:(lia) Hx Hy) as Hc.
    destruct (MDBX_PNL_CONTIGUOUS x y span).
    + apply IH; [lia..| |lia]. replace (i - (span + 1)) with (i - span - 1) by lia. by apply Hc.
    + exists span. split_and!; [done|lia|lia|done|]. intros u Hu. rewrite Hx in Hu. injection Hu as <-.
      pose proof (desc_gap l Hd _ _ _ _ Hx Hy ltac:(lia)).
      destruct (decide (x = y + span)) as [->|]; [|lia].
      assert (false = true); [|done]. apply Hc. split; [rewrite Hx; f_equal; lia|].
      rewrite <- Hy. f_equal. lia.
Qed.

(** The invariant of [pnl_get_best_sequence]: everything after the cell [i] was
    examined. *)
Definition boundary (i : Z) : Prop :=
  forall u v, zget l (i - 1) = Some u -> zget l i = Some v -> v + 1 < u.

(** The maximal run of length [n] and lowest page [q] ends before the cell [j]. *)
Definition run_end (j n q : Z) : Prop :=
  1 <= n <= j /\ cells_run l (j - n) n q /\ boundary j /\ boundary (j - n).

Lemma run_end_inside i s q b : 1 <= s -> cells_run l (i - s) s q -> i - s < b < i -> ~ boundary b.
Proof using Hd.
  intros Hs Hw Hbb Hbd. pose proof (zget_range _ _ _ (proj1 Hw)). pose proof (zget_range _ _ _ (proj2 Hw)).
  destruct (zget_in l (b - 1)) as [u Hu]; [lia|]. destruct (zget_in l b) as [v Hv]; [lia|].
  pose proof (window_inside l Hd _ _ _ b u v Hs Hw ltac:(lia) Hu Hv). specialize (Hbd u v Hu Hv). lia.
Qed.

(** Between the ends of a maximal run no other one ends. *)
Lemma run_end_between i s q j n q' : run_end i s q -> run_end j n q' -> i - s < j <= i ->
  j = i /\ n = s /\ q' = q.
Proof using Hd.
  intros (Hs & Hw & Hb & Hbs) (Hn & Hw' & Hbj & Hbn) Hj.
  assert (j = i) as ->.
  { destruct (decide (j = i)); [done|]. exfalso. apply (run_end_inside i s q j); [lia|done|lia|done]. }
  assert (n = s) as ->.
  { destruct (Z.lt_trichotomy n s) as [Hlt|[?|Hgt]]; [|done|]; exfalso.
    - apply (run_end_inside i s q (i - n)); [lia|done|lia|done].
    - apply (run_end_inside i n q' (i - s)); [lia|done|lia|done]. }
  split_and!; [done..|]. destruct Hw as [_ Hw], Hw' as [_ Hw']. rewrite Hw in Hw'. by simplify_eq.
Qed.

(** The invariant of [pnl_get_best_sequence]: the runs that end after the cell
    [i] were examined, and the best one of them is known. *)
Definition best_inv (seq detent i best_pos best_extra : Z) : Prop :=
  (best_pos = 0 /\ best_extra = MAX_PAGENO /\ (forall j n q, i < j -> run_end j n q -> n < seq)) \/
  (0 < best_pos /\ 0 <= best_extra /\
   (exists q, run_end best_pos (best_extra + seq) q /\ q + seq <= detent) /\
   (forall j n q, i < j -> run_end j n q -> seq <= n -> best_extra + seq <= n)).

(** What the search returns. *)
Definition best_result (seq detent pos : Z) : Prop :=
  (pos = 0 /\ (forall j n q, run_end j n q -> seq <= n -> detent < q + seq)) \/
  (0 < pos /\ exists n q, run_end pos n q /\ seq <= n /\ q + seq <= detent /\
     (forall j m q', run_end j m q' -> seq <= m -> q' + seq <= detent -> n <= m)).

(** When no run that is left can be taken, the invariant is the result. *)
Lemma best_inv_result seq detent i pos extra : best_inv seq detent i pos extra -> 0 <= extra ->
  (forall j n q, j <= i -> run_end j n q -> seq <= n -> detent < q + seq) ->
  best_result seq detent pos.
Proof using.
  intros Hinv He Hrest. destruct Hinv as [(-> & -> & Hno)|(Hp & _ & (q & Hq & Hdet) & Hbest)].
  - left. split; [done|]. intros j n q Hr Hn. destruct (Z.le_gt_cases j i); [by eapply Hrest|].
    specialize (Hno j n q ltac:(lia) Hr). lia.
  - right. split; [done|]. exists (extra + seq), q. split_and!; [done|lia|done|].
    intros j m q' Hr Hm Hd'. destruct (Z.le_gt_cases j i) as [Hle|]; [|by apply (Hbest j m q'); [lia|..]].
    specialize (Hrest j m q' Hle Hr Hm). lia.
Qed.

(** Examining the run that ends at [i]. *)
Lemma best_inv_step seq detent i s q pos extra : best_inv seq detent i pos extra ->
  run_end i s q -> q + seq <= detent -> s - seq < MAX_PAGENO ->
  if (seq <=? s) && (s - seq <? extra) then best_inv seq detent (i - s) i (s - seq)
  else best_inv seq detent (i - s) pos extra.
Proof using Hd.
  intros Hinv Hrun Hdet Hbig.
  assert (forall j n q', i - s < j -> run_end j n q' -> i < j \/ n = s) as Hcase.
  { intros j n q' Hj Hr. destruct (Z.le_gt_cases j i); [|left; lia]. right.
    by destruct (run_end_between i s q j n q') as (_ & ? & _); [done|done|lia|]. }
  assert (0 < i) by (destruct Hrun; lia).
  destruct (Z.leb_spec seq s), (Z.ltb_spec (s - seq) extra); cbn [andb].
  - right. split_and!; [lia..| |].
    + exists q. by replace (s - seq + seq) with s by lia.
    + intros j n q' Hj Hr Hn. destruct (Hcase j n q' Hj Hr) as [Hlt| ->]; [|lia].
      destruct Hinv as [(_ & _ & Hno)|(_ & _ & _ & Hbest)].
      * specialize (Hno _ _ _ Hlt Hr). lia.
      * specialize (Hbest _ _ _ Hlt Hr Hn). lia.
  - destruct Hinv as [(-> & -> & Hno)|(? & ? & ? & Hbest)]; [lia|]. right. split_and!; [done..|].
    intros j n q' Hj Hr Hn. destruct (Hcase j n q' Hj Hr) as [Hlt| ->]; [eauto|lia].
  - destruct Hinv as [(-> & -> & Hno)|(? & ? & ? & Hbest)]; [left|right]; (split_and!; [done..|]);
      intros j n q' Hj Hr; destruct (Hcase j n q' Hj Hr) as [Hlt| ->]; eauto; lia.
  - destruct Hinv as [(-> & -> & Hno)|(? & ? & ? & Hbest)]; [left|right]; (split_and!; [done..|]);
      intros j n q' Hj Hr; destruct (Hcase j n q' Hj Hr) as [Hlt| ->]; eauto; lia.
Qed.

Lemma best_loop_spec seq detent : 1 <= seq <= detent -> detent <= UINT32_MAX -> zlen l <= PAGELIST_LIMIT ->
  forall (fuel : nat) i pos extra, 0 <= i <= zlen l -> boundary i -> i < Z.of_nat fuel ->
  best_inv seq detent i pos extra ->
  exists pos', best_loop fuel p seq detent i pos extra = Some pos' /\ best_result seq detent pos'.
Proof using Hrep Hd Hpg.
  intros Hseq Hdet Hlim. induction fuel as [|fuel IH]; intros i pos extra Hi Hb Hf Hinv; [lia|].
  assert (0 <= extra) by (destruct Hinv as [(_ & -> & _)|(_ & ? & _)]; [done|lia]).
  cbn [best_loop]. destruct (Z.leb_spec seq i) as [Hle|Hlt].
  2: { exists pos. split; [done|]. eapply best_inv_result; [done..|]. intros j n q Hj [Hn _] Hsn. lia. }
  destruct (pnl_at_rep_some i) as (x & -> & Hx); [lia|]. cbn [mbind option_bind].
  rewrite u64_small by (unfold UINT64_MAX, UINT32_MAX in *; lia).
  destruct (Z.leb_spec x (detent - seq)) as [Hin|Hout].
  2: { exists pos. split; [done|]. eapply best_inv_result; [done..|]. intros j n q Hj (Hn & Hw & _) Hsn.
    destruct Hw as [_ Hw]. pose proof (desc_gap l Hd _ _ _ _ Hw Hx ltac:(lia)). lia. }
  destruct (best_span_loop_spec (S (Z.to_nat i)) i 1 x) as (s & -> & Hs & Hw & Hup); [lia..| |lia|].
  { split; [rewrite Hx|rewrite <- Hx]; f_equal; lia. }
  cbn [mbind option_bind].
  assert (boundary (i - s)) as Hbs.
  { intros u v Hu Hv. destruct Hw as [Hw _]. rewrite Hv in Hw. simplify_eq. specialize (Hup u Hu). lia. }
  assert (run_end i s x) as Hrun by done.
  unfold PAGELIST_LIMIT in Hlim.
  pose proof (best_inv_step seq detent i s x pos extra Hinv Hrun ltac:(lia) ltac:(unfold MAX_PAGENO; lia)) as Hstep.
  destruct ((seq <=? s) && (s - seq <? extra)) eqn:Ec.
  - destruct (Z.eqb_spec (s - seq) 0) as [E0|Hne]; [|by apply IH; [lia|done|lia|]].
    exists i. split; [done|]. right. split; [lia|]. exists s, x. split_and!; [done|lia|lia|].
    intros j m q' _ Hm _. lia.
  - by apply IH; [lia|done|lia|].
Qed.

Lemma run_end_maximal j n q : run_end j n q -> maximal_run l q n.
Proof using Hd.
  intros (Hn & Hw & Hbj & Hbn). apply (window_maximal l Hd (j - n)); [lia|done|..].
  - intros v Hv. replace (j - n + n) with j in Hv by lia. destruct Hw as [_ Hw].
    replace (j - n + n - 1) with (j - 1) in Hw by lia. specialize (Hbj q v Hw Hv). lia.
  - intros u Hu. specialize (Hbn u _ Hu (proj1 Hw)). lia.
Qed.

Lemma maximal_run_end n q : 1 <= n -> maximal_run l q n -> exists j, run_end j n q.
Proof using Hd.
  intros Hn Hm. destruct (maximal_window l Hd q n Hn Hm) as (j & Hw & Hj & Hlo & Hhi).
  exists j. split_and!; [lia..|done| |].
  - intros u v Hu Hv. destruct Hw as [_ Hw]. replace (j - n + n - 1) with (j - 1) in Hw by lia.
    rewrite Hu in Hw. simplify_eq. specialize (Hlo v Hv). lia.
  - intros u v Hu Hv. destruct Hw as [Hw _]. rewrite Hv in Hw. simplify_eq. specialize (Hhi u Hu). lia.
Qed.

Lemma run_in_extend_down (k : nat) : forall q n, 1 <= n -> q <= Z.of_nat k -> run_in l q n ->
  exists q', q' <= q /\ run_in l q' (q + n - q') /\ q' - 1 ∉ l.
Proof using Hpg.
  unfold pages in Hpg. rewrite Forall_forall in Hpg.
  induction k as [|k IH]; intros q n Hn Hq Hrun; destruct (decide (q - 1 ∈ l)) as [Hin|Hout].
  - specialize (Hpg _ Hin). lia.
  - exists q. split_and!; [lia| |done]. by replace (q + n - q) with n by lia.
  - destruct (IH (q - 1) (n + 1)) as (q' & Hle & Hr & Hn'); [lia..| |].
    { intros t Ht. destruct (decide (t = 0)) as [->|]; [by rewrite Z.add_0_r|].
      replace (q - 1 + t) with (q + (t - 1)) by lia. apply Hrun. lia. }
    exists q'. split_and!; [lia| |done]. by replace (q + n - q') with (q - 1 + (n + 1) - q') by lia.
  - exists q. split_and!; [lia| |done]. by replace (q + n - q) with n by lia.
Qed.

Lemma run_in_extend_up (k : nat) : forall q n, 0 <= n -> UINT32_MAX < q + n + Z.of_nat k -> run_in l q n ->
  exists n', n <= n' /\ run_in l q n' /\ q + n' ∉ l.
Proof using Hpg.
  unfold pages in Hpg. rewrite Forall_forall in Hpg.
  induction k as [|k IH]; intros q n Hn Hq Hrun; destruct (decide (q + n ∈ l)) as [Hin|Hout].
  - specialize (Hpg _ Hin). lia.
  - exists n. split_and!; [lia|done|done].
  - destruct (IH q (n + 1)) as (n' & Hle & Hr & Hn'); [lia..| |].
    { intros t Ht. destruct (decide (t = n)) as [->|]; [done|]. apply Hrun. lia. }
    exists n'. split_and!; [lia|done|done].
  - exists n. split_and!; [lia|done|done].
Qed.

(** Every run is part of a maximal one. *)
Lemma run_in_maximal q n : 1 <= n -> run_in l q n ->
  exists q' n', maximal_run l q' n' /\ q' <= q /\ n <= n'.
Proof using Hpg.
  intros Hn Hrun.
  destruct (run_in_extend_down (Z.to_nat q) q n) as (q' & Hle & Hr & Hlo); [done|lia|done|].
  destruct (run_in_extend_up (Z.to_nat (UINT32_MAX + 1 - (q + n))) q' (q + n - q')) as (n' & Hle' & Hr' & Hhi);
    [lia..|done|].
  exists q', n'. split_and!; [by split; [|split]|lia|lia].
Qed.

Lemma pnl_maxspan_spec : exists s, pnl_maxspan p = Some s /\
  (exists y, run_in l y s) /\ (forall y n, run_in l y n -> n <= s).
Proof using Hrep Hd Hpg.
  unfold pnl_maxspan. rewrite (pnl_rep_size p l Hrep). cbn [mbind option_bind]. zlen_pos.
  assert (forall s, (exists y, run_in l y s) /\ (forall y, ~ run_in l y (s + 1)) ->
    (exists y, run_in l y s) /\ (forall y n, run_in l y n -> n <= s)) as Hfin.
  { intros s [Hs Hn]. split; [done|]. intros y n Hr. destruct (Z.le_gt_cases n s); [done|]. exfalso.
    apply (Hn y). intros k Hk. apply Hr. lia. }
  assert (zlen l <> 0 -> exists y, run_in l y 1) as H1.
  { intros Hne. destruct (zget_in l 0) as [y Hy]; [lia|]. exists y. intros k Hk.
    replace (y + k) with y by lia. by eapply zget_elem. }
  destruct (Z.ltb_spec 1 (zlen l)) as [Hlt|Hle].
  - replace (Z.to_nat (zlen l - 1)) with (S (Z.to_nat (zlen l - 2))) by lia.
    destruct (maxspan_loop_spec (Z.to_nat (zlen l - 2)) 0 1) as (s & E & Hs); [|lia|].
    { split_and!; [lia..|apply H1; lia|]. intros i' y Hi'. lia. }
    exists s. split; [done|]. by apply Hfin.
  - exists (zlen l). split; [done|]. apply Hfin. split.
    + destruct (decide (zlen l = 0)) as [E|Hne]; [|replace (zlen l) with 1 by lia; by apply H1].
      exists 0. intros k Hk. lia.
    + intros y Hr. destruct (run_window l Hd (zlen l + 1) y ltac:(lia) Hr) as [i Hw].
      pose proof (zget_range _ _ _ (proj1 Hw)). pose proof (zget_range _ _ _ (proj2 Hw)). lia.
Qed.

Lemma pnl_scan_span_spec from : 1 <= from <= zlen l -> exists s y, pnl_scan_span p from = Some s /\
  1 <= s /\ cells_run l (from - 1) s y /\ (forall z, ~ cells_run l (from - 1) (s + 1) z).
Proof using Hrep Hd Hpg.
  intros Hf. unfold pnl_scan_span. rewrite (pnl_rep_size p l Hrep). cbn [mbind option_bind].
  destruct (zget_in l (from - 1)) as [y Hy]; [lia|].
  destruct (scan_span_loop_spec (S (Z.to_nat (zlen l))) (from - 1) 1 y) as (s & y' & E & Hs); [lia..| |lia|].
  { split; [rewrite Hy|rewrite <- Hy]; f_equal; lia. }
  rewrite Z.sub_add in E. eauto.
Qed.

(** Cutting a window removes its pages and nothing else. *)
Lemma cut_run_filter i n y : 1 <= n -> cells_run l i n y ->
  exists p', pnl_cut p (i + 1) n = Some p' /\ pnl_rep p' (filter (fun x => ~ (y <= x < y + n)) l).
Proof using Hrep Hd Hpg.
  intros Hn Hw. pose proof (window_cells l Hd _ _ _ Hn Hw) as Hcells.
  pose proof (zget_range _ _ _ (proj1 Hw)). pose proof (zget_range _ _ _ (proj2 Hw)).
  destruct (zsplit l i) as (A & r & El & HA); [lia|].
  destruct (zsplit r n) as (B & C & -> & HB); [subst l; zlia|].
  pose proof Hrep as Hrep'. rewrite El in Hrep'.
  destruct (pnl_cut_spec p A B C Hrep') as (p' & E & Hp'). rewrite HA, HB in E.
  exists p'. split; [done|].
  assert (forall x, x ∈ A -> y + n <= x) as H1.
  { intros x (k & Hk & Hx)%elem_zget. assert (zget l k = Some x) as Hlx by (subst l; by rewrite zget_app_l by lia).
    pose proof (desc_gap l Hd _ _ _ _ Hlx (proj1 Hw) ltac:(lia)). lia. }
  assert (forall x, x ∈ B -> y <= x < y + n) as H2.
  { intros x (k & Hk & Hx)%elem_zget.
    assert (zget l (i + k) = Some x) as Hlx by (subst l; rewrite (zget_app_skip _ _ _ k), zget_app_l by lia; done).
    pose proof (Hcells (n - 1 - k) ltac:(lia)) as Hc. replace (i + n - 1 - (n - 1 - k)) with (i + k) in Hc by lia.
    rewrite Hlx in Hc. injection Hc. lia. }
  assert (forall x, x ∈ C -> x < y) as H3.
  { intros x (k & Hk & Hx)%elem_zget.
    assert (zget l (i + n + k) = Some x) as Hlx
      by (subst l; rewrite (zget_app_skip _ _ _ (n + k)), (zget_app_skip _ _ _ k) by lia; done).
    pose proof (desc_gap l Hd _ _ _ _ (proj2 Hw) Hlx ltac:(lia)). lia. }
  rewrite El, !filter_app.
  rewrite (filter_all _ A), (filter_all _ C), (filter_none _ B); [done|intros x Hx..].
  - specialize (H2 x Hx). lia.
  - specialize (H3 x Hx). lia.
  - specialize (H1 x Hx). lia.
Qed.

Lemma pnl_crop_tail_sequence_spec : 0 < zlen l ->
  exists p' n y, pnl_crop_tail_sequence p = Some (p', n) /\ 1 <= n /\ cells_run l 0 n y /\
    (forall z, ~ cells_run l 0 (n + 1) z) /\ pnl_rep p' (filter (fun x => ~ (y <= x < y + n)) l).
Proof using Hrep Hd Hpg.
  intros Hne. destruct (pnl_scan_span_spec 1) as (s & y & E & Hs & Hw & Hmax); [lia|].
  unfold pnl_crop_tail_sequence. unfold pnl_scan_span in E.
  rewrite (pnl_rep_size p l Hrep) in *. cbn [mbind option_bind] in *. rewrite E. cbn [mbind option_bind].
  destruct (cut_run_filter 0 s y Hs Hw) as (p' & Ep & Hp'). change (0 + 1) with 1 in Ep. rewrite Ep. cbn [mbind option_bind].
  pose proof (zget_range _ _ _ (proj2 Hw)).
  assert (zlen l <= UINT32_MAX) by (destruct Hrep as (len & rest & _ & Hlen & _); lia).
  rewrite u32_small by lia. eauto 10.
Qed.

Lemma pnl_get_best_sequence_spec seq detent : 1 <= seq <= detent -> detent <= UINT32_MAX ->
  zlen l <= PAGELIST_LIMIT -> 0 ∉ l ->
  exists p' pgno, pnl_get_best_sequence p seq detent = Some (p', pgno) /\
    ((pgno = 0 /\ p' = p /\ (forall q, run_in l q seq -> detent < q + seq)) \/
     (pgno <> 0 /\ run_in l pgno seq /\ pgno + seq <= detent /\
      pnl_rep p' (filter (fun x => ~ (pgno <= x < pgno + seq)) l) /\
      exists n, maximal_run l pgno n /\ seq <= n /\
        (forall q m, maximal_run l q m -> seq <= m -> q + seq <= detent -> n <= m))).
Proof using Hrep Hd Hpg.
  intros Hseq Hdet Hlim Hnz. unfold pnl_get_best_sequence. rewrite (pnl_rep_size p l Hrep).
  cbn [mbind option_bind]. zlen_pos.
  destruct (best_loop_spec seq detent Hseq Hdet Hlim (S (Z.to_nat (zlen l))) (zlen l) 0 MAX_PAGENO)
    as (pos & -> & Hres); [lia| |lia| |].
  { intros u v _ Hv%zget_range. lia. }
  { left. split_and!; [done..|]. intros j n q Hj (Hn & Hw & _). pose proof (zget_range _ _ _ (proj2 Hw)). lia. }
  cbn [mbind option_bind]. destruct Hres as [(-> & Hno)|(Hpos & n & q & Hrun & Hn & Hq & Hbest)].
  - exists p, 0. split; [done|]. left. split_and!; [done..|]. intros q Hr.
    destruct (run_in_maximal q seq) as (q' & n' & Hm & Hq' & Hn'); [lia|done|].
    destruct (maximal_run_end n' q' ltac:(lia) Hm) as [j Hj]. specialize (Hno j n' q' Hj Hn'). lia.
  - destruct (Z.eqb_spec pos 0); [lia|]. cbn [negb].
    pose proof (run_end_maximal pos n q Hrun) as Hm. destruct Hrun as (Hnp & Hw & _).
    pose proof (window_cells l Hd (pos - n) n q ltac:(lia) Hw) as Hc. pose proof (zget_range _ _ _ (proj2 Hw)).
    assert (cells_run l (pos - seq) seq q) as Hws.
    { split.
      - pose proof (Hc (seq - 1) ltac:(lia)) as E. replace (q + seq - 1) with (q + (seq - 1)) by lia.
        rewrite <- E. f_equal. lia.
      - destruct Hw as [_ Hw]. rewrite <- Hw. f_equal. lia. }
    rewrite (pnl_rep_at p l pos Hrep) by lia. destruct Hw as [_ Hw].
    replace (pos - n + n - 1) with (pos - 1) in Hw by lia. rewrite Hw. cbn [mbind option_bind].
    destruct (cut_run_filter (pos - seq) seq q ltac:(lia) Hws) as (p' & -> & Hp').
    exists p', q. split; [done|]. right. split_and!; [|by eapply window_run; [..|exact Hws]; done || lia|done..|].
    + intros ->. by apply zget_elem in Hw.
    + exists n. split_and!; [done..|]. intros q' m Hm' Hsm Hq'.
      destruct (maximal_run_end m q' ltac:(lia) Hm') as [j Hj]. by eapply Hbest.
Qed.
End RunLoops.

(** ** Sorting *)

#[export] Instance MDBX_PNL_ORDERED_strict_weak : StrictWeak MDBX_PNL_ORDERED.
Proof. apply Zgt_strict_weak. Qed.

Lemma pnl_sort_nochk_spec cm p l : pnl_rep p l -> pages l ->
  exists p' l', pnl_sort_nochk cm p = Some p' /\ pnl_rep p' l' /\ l' ≡ₚ l /\ desc_weak l'.
Proof.
  intros Hrep Hpg. pose proof Hrep as (len & rest & Hp & Hlen & Hroom). zlen_pos.
  unfold pnl_sort_nochk. rewrite (pnl_rep_size p l Hrep). cbn [mbind option_bind].
  assert (forall l' rest', l' ≡ₚ l -> zlen rest' = zlen rest ->
    pnl_rep ([len; zlen l] ++ l' ++ rest') l') as Hre.
  { intros l' rest' HP Hr. assert (zlen l' = zlen l) as El by (unfold zlen; by rewrite HP).
    exists len, rest'. rewrite El. split; [done|]. subst p. zlia. }
  destruct (Z.ltb_spec (zlen l) MDBX_RADIXSORT_THRESHOLD) as [Hlt|Hge].
  - destruct (sort_impl_spec MDBX_PNL_ORDERED cm [len; zlen l] l rest) as (l' & E & HP & Hs).
    { unfold MDBX_RADIXSORT_THRESHOLD, sort_stack_size in *. lia. }
    subst p. exists ([len; zlen l] ++ l' ++ rest), l'. split_and!; [|by apply Hre|done|].
    + change (zlen [len; zlen l]) with 2 in E. rewrite (Z.add_comm 2) in E. exact E.
    + eapply StronglySorted_impl; [|exact Hs]. intros x y Hxy. unfold MDBX_PNL_ORDERED in Hxy. lia.
  - unfold MDBX_RADIXSORT_THRESHOLD in Hge.
    destruct (zsplit rest (zlen l)) as (buf & post & -> & Hbuf); [subst p; zlia|].
    destruct (radixsort_spec MDBX_PNL_EXTRACT_KEY 0 [len; zlen l] l [] buf post) as (l' & buf' & E & HP & Hb & Hs);
      [lia|done|done|..].
    { intros x Hx. unfold MDBX_PNL_EXTRACT_KEY, u32. pose proof (wrap_range 32 (P_INVALID - x)). lia. }
    subst p. exists ([len; zlen l] ++ l' ++ buf' ++ post), l'. split_and!; [|apply Hre; [done|zlia]|done|].
    + replace (Z.to_nat (zlen l)) with (length l) by (unfold zlen; lia). exact E.
    + unfold pages in Hpg. rewrite <- HP in Hpg. rewrite Forall_forall in Hpg.
      apply StronglySorted_zget. unfold sorted_key in Hs. rewrite StronglySorted_zget in Hs.
      intros i j x y Hij Hx Hy. specialize (Hs i j x y Hij Hx Hy).
      pose proof (Hpg x (zget_elem _ _ _ Hx)). pose proof (Hpg y (zget_elem _ _ _ Hy)).
      unfold MDBX_PNL_EXTRACT_KEY, P_INVALID in Hs. rewrite !u32_small in Hs by lia. lia.
Qed.

(** ** Checks *)

(** What [pnl_check_lite] and [pnl_check_full] accept. *)
Definition lite_ok (l : list Z) (limit : Z) : Prop :=
  zlen l <= PAGELIST_LIMIT /\
  (forall least most, last l = Some least -> head l = Some most ->
    MIN_PAGENO <= least /\ most < limit /\ (1 < zlen l -> least < most)).

Lemma zget_last {A} (l : list A) : zget l (zlen l - 1) = last l.
Proof.
  destruct l as [|x l] using rev_ind; [done|]. rewrite last_snoc. apply zget_app_mid. zlia.
Qed.

Lemma zget_head {A} (l : list A) : zget l 0 = head l.
Proof. by destruct l. Qed.

Lemma pnl_check_lite_spec p l limit : pnl_rep p l ->
  exists b, pnl_check_lite p limit = Some b /\ (b = true <-> lite_ok l limit).
Proof.
  intros Hrep. unfold pnl_check_lite, lite_ok. rewrite (pnl_rep_size p l Hrep). cbn [mbind option_bind]. zlen_pos.
  destruct (Z.eqb_spec (zlen l) 0) as [E|Hne].
  { apply zlen_0_nil in E. subst l. exists true. split; [done|]. split; [|done]. intros _. split; done. }
  destruct (Z.ltb_spec PAGELIST_LIMIT (zlen l)).
  { exists false. split; [done|]. split; [done|]. intros [? _]. lia. }
  rewrite !(pnl_rep_at p l _ Hrep) by lia. rewrite zget_last. change (1 - 1) with 0. rewrite zget_head.
  destruct l as [|most l]; [done|]. destruct (last (most :: l)) as [least|] eqn:El.
  2: { by apply last_None in El. }
  cbn [mbind option_bind head].
  unfold MIN_PAGENO.
  destruct (Z.ltb_spec 1 (zlen (most :: l))), (Z.leb_spec most least); cbn [andb];
    try (destruct (Z.ltb_spec least 3); [|destruct (Z.leb_spec limit most)]);
    eexists; (split; [done|]); split;
    first [ intros ?; done
          | intros _; split; [lia|intros a b [= <-] [= <-]; split_and!; lia]
          | intros [? Hx]; specialize (Hx least most eq_refl eq_refl); done || lia ].
Qed.

Lemma desc_cons_iff x y l : desc (x :: y :: l) <-> y < x /\ desc (y :: l).
Proof.
  split.
  - intros H. inversion H as [|?? Hs Hall]; subst. split; [|done]. by inversion Hall.
  - intros [Hxy H]. constructor; [done|]. inversion H as [|?? Hs Hall]; subst. constructor; [done|].
    eapply Forall_impl; [done|]. cbn. lia.
Qed.

Lemma check_full_loop_spec p l : pnl_rep p l -> forall B A prev fuel, l = A ++ prev :: B -> B <> [] ->
  (length B <= fuel)%nat ->
  exists b, check_full_loop fuel p prev (zlen A + 2) (zlen l + 1) = Some b /\ (b = true <-> desc (prev :: B)).
Proof.
  intros Hrep. induction B as [|x B IH]; intros A prev fuel El HB Hf; [done|].
  destruct fuel as [|fuel]; [cbn in Hf; lia|]. cbn [check_full_loop].
  rewrite (pnl_rep_at p l _ Hrep) by (subst l; zlia).
  assert (zget l (zlen A + 2 - 1) = Some x) as ->.
  { subst l. rewrite (cons_middle prev), app_assoc. apply zget_app_mid. zlia. }
  cbn [mbind option_bind]. setoid_rewrite desc_cons_iff. unfold MDBX_PNL_ORDERED.
  destruct (Z.ltb_spec x prev); cbn [negb].
  2: { exists false. split; [done|]. split; [done|]. lia. }
  destruct (Z.eqb_spec (zlen A + 2 + 1) (zlen l + 1)) as [E|Hne].
  - assert (B = []) as -> by (apply zlen_0_nil; subst l; zlia).
    exists true. split; [done|]. split; [intros _|done]. split; [done|]. repeat constructor.
  - destruct (IH (A ++ [prev]) x fuel) as (b & E & Hb).
    + subst l. by rewrite <- app_assoc.
    + intros ->. apply Hne. subst l. zlia.
    + cbn in Hf. lia.
    + exists b. rewrite zlen_snoc in E. replace (zlen A + 1 + 2) with (zlen A + 2 + 1) in E by lia.
      split; [done|]. rewrite Hb. naive_solver.
Qed.

Lemma pnl_check_full_spec p l limit : pnl_rep p l ->
  exists b, pnl_check_full p limit = Some b /\
    (b = true <-> zlen l <= PAGELIST_LIMIT /\ desc l /\ Forall (fun x => MIN_PAGENO <= x < limit) l).
Proof.
  intros Hrep. unfold pnl_check_full.
  destruct (pnl_check_lite_spec p l limit Hrep) as (ok & -> & Hok). cbn [mbind option_bind].
  assert (desc l -> zlen l <= PAGELIST_LIMIT -> lite_ok l limit <-> Forall (fun x => MIN_PAGENO <= x < limit) l) as Hlite.
  { intros Hd Hlen. unfold lite_ok. rewrite <- zget_last, <- zget_head. split.
    - intros [_ H]. apply Forall_forall. intros x (i & Hi & Hx)%elem_zget.
      destruct (zget_in l 0) as [most Hm]; [lia|]. destruct (zget_in l (zlen l - 1)) as [least Hl]; [lia|].
      destruct (H least most Hl Hm) as (? & ? & _).
      pose proof (desc_gap l Hd _ _ _ _ Hm Hx ltac:(lia)). pose proof (desc_gap l Hd _ _ _ _ Hx Hl ltac:(lia)). lia.
    - intros H. rewrite Forall_forall in H. split; [done|]. intros least most Hl Hm.
      pose proof (H _ (zget_elem _ _ _ Hl)). pose proof (H _ (zget_elem _ _ _ Hm)). split_and!; [lia..|].
      intros ?. pose proof (desc_gap l Hd _ _ _ _ Hm Hl ltac:(lia)). lia. }
  destruct ok; cbn [negb].
  - rewrite (pnl_rep_size p l Hrep). cbn [mbind option_bind].
    assert (lite_ok l limit) as Hl by (by apply Hok). pose proof Hl as [Hlen _].
    destruct (Z.ltb_spec 1 (zlen l)).
    + destruct l as [|prev [|x B]]; [zlia..|]. rewrite (pnl_rep_at p _ 1 Hrep) by zlia. cbn [mbind option_bind].
      destruct (check_full_loop_spec p _ Hrep (x :: B) [] prev (Z.to_nat (zlen (prev :: x :: B)))) as (b & E & Hb);
        [done|done|unfold zlen; cbn; lia|].
      exists b. split; [done|]. rewrite Hb. naive_solver.
    + exists true. split; [done|]. split; [intros _|done]. 
      assert (desc l) as Hd.
      { destruct l as [|x [|y l]]; [constructor|repeat constructor|zlia]. }
      naive_solver.
  - exists false. split; [done|]. split; [done|]. intros (Hlen & Hd & Hall). apply Hok. by apply Hlite.
Qed.

(** ** Claims *)

(** C35: sorting a page-number list, by the radix sort into the spare half of
    its block from 142 elements on and by the generic sort below, gives the
    same pages in descending order and keeps the block. *)
Theorem pnl_sort_nochk_sorts cm p l : pnl_rep p l -> pages l ->
  exists p' l', pnl_sort_nochk cm p = Some p' /\ pnl_rep p' l' /\ l' ≡ₚ l /\ desc_weak l'.
Proof. apply pnl_sort_nochk_spec. Qed.

Lemma pnl_sort_nochk_sorts_witness : exists p' l',
  pnl_sort_nochk true (sample_pnl [3; 9; 4] 4) = Some p' /\ pnl_rep p' l' /\ l' ≡ₚ [3; 9; 4] /\ desc_weak l'.
Proof.
  apply (pnl_sort_nochk_sorts true (sample_pnl [3; 9; 4] 4) [3; 9; 4]); [by apply sample_pnl_rep|].
  repeat constructor; by vm_compute.
Defined.

(** C37: on a descending list the search returns the 1-based index of the first
    element not above the page, the exact search returns the index of the page
    or 0, and the membership test decides membership. *)
Theorem pnl_search_right cm p l pgno : pnl_rep p l -> desc l ->
  (exists hi lo, l = hi ++ lo /\ Forall (fun x => pgno < x) hi /\ Forall (fun x => x <= pgno) lo /\
    pnl_search_nochk cm p pgno = Some (zlen hi + 1)) /\
  (exists n, pnl_search_exact cm p pgno = Some n /\ 0 <= n <= zlen l /\
    (n <> 0 -> zget l (n - 1) = Some pgno) /\ (n = 0 -> pgno ∉ l)) /\
  (exists b, pnl_contains cm p pgno = Some b /\ (b = true <-> pgno ∈ l)).
Proof.
  intros Hrep Hd. split_and!; [apply pnl_search_nochk_spec; auto|by apply pnl_search_exact_spec|by apply pnl_contains_spec].
Qed.

Lemma pnl_search_right_witness :
  exists b, pnl_contains false (sample_pnl [9; 4; 3] 3) 4 = Some b /\ (b = true <-> 4 ∈ [9; 4; 3]).
Proof.
  apply (pnl_search_right false (sample_pnl [9; 4; 3] 3) [9; 4; 3] 4); [by apply sample_pnl_rep|].
  repeat constructor; lia.
Defined.

(** C33: the best-fit search for [seq] consecutive pages below [detent] returns
    0 and leaves the list alone exactly when it has no such run; otherwise it
    returns the first page of a maximal run that is the shortest among those
    long enough, and cuts exactly the [seq] pages out of the list. *)
Theorem pnl_get_best_sequence_best p l seq detent : pnl_rep p l -> desc l -> pages l ->
  1 <= seq <= detent -> detent <= UINT32_MAX -> zlen l <= PAGELIST_LIMIT -> 0 ∉ l ->
  exists p' pgno, pnl_get_best_sequence p seq detent = Some (p', pgno) /\
    ((pgno = 0 /\ p' = p /\ (forall q, run_in l q seq -> detent < q + seq)) \/
     (pgno <> 0 /\ run_in l pgno seq /\ pgno + seq <= detent /\
      pnl_rep p' (filter (fun x => ~ (pgno <= x < pgno + seq)) l) /\
      exists n, maximal_run l pgno n /\ seq <= n /\
        (forall q m, maximal_run l q m -> seq <= m -> q + seq <= detent -> n <= m))).
Proof. intros. by apply pnl_get_best_sequence_spec. Qed.

Lemma pnl_get_best_sequence_best_witness : exists p' pgno,
  pnl_get_best_sequence (sample_pnl [20; 19; 18; 12; 11; 5] 6) 2 100 = Some (p', pgno) /\ pgno = 11.
Proof.
  destruct (pnl_get_best_sequence_best (sample_pnl [20; 19; 18; 12; 11; 5] 6) [20; 19; 18; 12; 11; 5] 2 100) as (p' & pgno & E & _).
  - by apply sample_pnl_rep.
  - repeat constructor; lia.
  - repeat constructor; by vm_compute.
  - lia.
  - by vm_compute.
  - by vm_compute.
  - rewrite !elem_of_cons, elem_of_nil. lia.
  - exists p', pgno. split; [done|]. vm_compute in E. by injection E.
Defined.

(** The full check of a list returns true exactly on lists within the size
    limit, strictly descending, with all pages between the first data page and
    the limit; and the longest run it reports for a correct list is one of the
    list's and no run is longer. *)
Theorem pnl_check_full_right p l limit : pnl_rep p l ->
  (exists b, pnl_check_full p limit = Some b /\
    (b = true <-> zlen l <= PAGELIST_LIMIT /\ desc l /\ Forall (fun x => MIN_PAGENO <= x < limit) l)) /\
  (desc l -> pages l ->
   exists s, pnl_maxspan p = Some s /\ (exists y, run_in l y s) /\ (forall y n, run_in l y n -> n <= s)).
Proof. intros Hrep. split; [by apply pnl_check_full_spec|intros; by apply pnl_maxspan_spec]. Qed.

Lemma pnl_check_full_right_witness :
  exists b, pnl_check_full (sample_pnl [9; 4; 3] 3) 100 = Some b /\
    (b = true <-> zlen [9; 4; 3] <= PAGELIST_LIMIT /\ desc [9; 4; 3] /\ Forall (fun x => MIN_PAGENO <= x < 100) [9; 4; 3]).
Proof. apply (pnl_check_full_right (sample_pnl [9; 4; 3] 3) [9; 4; 3] 100). by apply sample_pnl_rep. Defined.
