(* ===== verification/PnlSets.v ===== *)
(** * Page number lists as sets: proofs

    The merge, the intersection test, the sift and the range cut of
    [PnlOrder], related to the union, intersection and difference of the sets
    of pages the lists stand for. *)

From stdpp Require Import base list numbers option sorting.
From Stdlib Require Import ZArith Lia.
From S2P Require Import Prelude Search SortNet QuickSort RadixSort Bits Alloc Pnl PnlOrder.

(** ** Merging *)

(** The state of the merge: [A] and [B] are left to be merged, [R] is the
    merged tail. *)
Definition merge_inv (A B R : list Z) : Prop :=
  desc_weak A /\ desc_weak B /\ desc_weak R /\
  (forall x y, x ∈ A \/ x ∈ B -> y ∈ R -> y <= x) /\ Forall (fun x => x <= P_INVALID) B.

Lemma desc_weak_snoc l x : desc_weak (l ++ [x]) <-> desc_weak l /\ (forall y, y ∈ l -> x <= y).
Proof.
  unfold desc_weak. rewrite StronglySorted_app_iff. split.
  - intros (H & _ & Hxy). split; [done|]. intros y Hy. by apply Hxy; [|constructor].
  - intros [H Hxy]. split_and!; [done|repeat constructor|]. intros y z Hy Hz%list_elem_of_singleton. subst z. auto.
Qed.

Lemma desc_weak_cons l x : (forall y, y ∈ l -> y <= x) -> desc_weak l -> desc_weak (x :: l).
Proof. intros H Hl. constructor; [done|]. by apply Forall_forall. Qed.

Lemma merge_inv_take_a A B R a b : merge_inv (A ++ [a]) (B ++ [b]) R -> a < b -> merge_inv A (B ++ [b]) (a :: R).
Proof.
  intros (HA & HB & HR & Hx & Hp) Hab. apply desc_weak_snoc in HA as [HA Ha].
  pose proof HB as [_ Hb]%desc_weak_snoc. split_and!; [done..| | |done].
  - apply desc_weak_cons; [|done]. intros y Hy. apply Hx; [|done]. left. apply elem_of_app. right. constructor.
  - intros x y Hxy [->|Hy]%elem_of_cons.
    + destruct Hxy as [Hxa|Hxb]; [auto|]. apply elem_of_app in Hxb as [Hxb|Hxb%list_elem_of_singleton].
      * specialize (Hb x Hxb). lia.
      * lia.
    + apply Hx; [|done]. rewrite elem_of_app. tauto.
Qed.

Lemma merge_inv_take_b A B R b : merge_inv A (B ++ [b]) R -> (forall a, last A = Some a -> b <= a) ->
  merge_inv A B (b :: R).
Proof.
  intros (HA & HB & HR & Hx & Hp) Hab. apply desc_weak_snoc in HB as [HB Hb].
  apply Forall_app in Hp as [Hp _]. split_and!; [done..| | |done].
  - apply desc_weak_cons; [|done]. intros y Hy. apply Hx; [|done]. right. apply elem_of_app. right. constructor.
  - intros x y Hxy [->|Hy]%elem_of_cons.
    + destruct Hxy as [Hxa|Hxb]; [|auto]. destruct A as [|a A] using rev_ind; [by apply elem_of_nil in Hxa|].
      specialize (Hab a). rewrite last_snoc in Hab. specialize (Hab eq_refl).
      apply desc_weak_snoc in HA as [_ Ha]. apply elem_of_app in Hxa as [Hxa|Hxa%list_elem_of_singleton].
      * specialize (Ha x Hxa). lia.
      * lia.
    + apply Hx; [|done]. rewrite elem_of_app. tauto.
Qed.

Lemma merge_inv_done A R : merge_inv A [] R -> desc_weak (A ++ R).
Proof.
  intros (HA & _ & HR & Hx & _). apply StronglySorted_app_iff. split_and!; [done..|].
  intros x y Hxa Hy. apply Hx; auto.
Qed.

(** The two stores of the loop. *)
Lemma merge_store_a len n A a J R : exists J', zlen J' = zlen J /\
  pnl_put (len :: n :: (A ++ [a]) ++ J ++ R) (zlen A + 1 + zlen J) a = Some (len :: n :: A ++ J' ++ a :: R).
Proof.
  destruct (zsplit_snoc (a :: J)) as (J' & j & EJ); [zlia|].
  assert (zlen J' = zlen J) as HJ by (apply (f_equal zlen) in EJ; zlia).
  exists J'. split; [done|]. rewrite <- app_assoc. cbn [app]. rewrite (app_comm_cons J R a), EJ, <- app_assoc.
  cbn [app]. rewrite app_assoc. rewrite pnl_put_mid by zlia. by rewrite <- app_assoc.
Qed.

Lemma merge_store_b len n A J j b R :
  pnl_put (len :: n :: A ++ (J ++ [j]) ++ R) (zlen A + zlen J + 1) b = Some (len :: n :: A ++ J ++ b :: R).
Proof.
  rewrite <- app_assoc. cbn [app]. rewrite app_assoc. rewrite pnl_put_mid by zlia. by rewrite <- app_assoc.
Qed.

Section Merge.
Context (s : pnl) (ls : list Z) (Hs : pnl_rep s ls) (len : Z).

(** The list merged so far, in the block. *)
Let blk (A J R : list Z) : pnl := len :: P_INVALID :: A ++ J ++ R.

Lemma src_last B b rest : ls = (B ++ [b]) ++ rest -> pnl_at s (zlen B + 1) = Some b.
Proof using Hs.
  intros El. rewrite (pnl_rep_at s ls _ Hs) by (subst ls; zlia).
  rewrite El, zget_app_l by zlia. apply zget_app_mid. lia.
Qed.

Lemma blk_last A J R : exists a, pnl_at (blk A J R) (zlen A) = Some a /\
  (forall b, b <= P_INVALID -> a < b -> exists A', A = A' ++ [a]) /\
  (forall b, ~ a < b -> forall a', last A = Some a' -> b <= a').
Proof using.
  destruct A as [|a A] using rev_ind.
  - exists P_INVALID. split_and!; [done|lia|done].
  - exists a. unfold blk. rewrite pnl_at_cells by zlia. rewrite zget_app_l by zlia.
    rewrite zget_app_mid by zlia. split_and!; [done|eauto|]. intros b Hb a'. rewrite last_snoc. intros [= <-]. lia.
Qed.

Definition merged (A B R : list Z) (rest : list Z) (r : option pnl) : Prop :=
  exists l', r = Some (len :: P_INVALID :: l' ++ rest) /\ l' ≡ₚ A ++ B ++ R /\ desc_weak l'.

Lemma merge_cmov_loop_spec rest : forall (fuel : nat) A B b J R B',
  ls = (B ++ [b]) ++ B' -> zlen J = zlen B + 1 -> merge_inv A (B ++ [b]) R ->
  (length A + length B < fuel)%nat ->
  merged A (B ++ [b]) R rest
    (merge_cmov_loop fuel (blk A J (R ++ rest)) s (zlen A + zlen B + 1) (zlen A) (zlen B + 1)).
Proof using Hs.
  induction fuel as [|fuel IH]; intros A B b J R B' El HJ Hinv Hf; [lia|]. cbn [merge_cmov_loop].
  rewrite (src_last B b B' El). cbn [mbind option_bind].
  destruct (blk_last A J (R ++ rest)) as (a & -> & Hlt & Hge). cbn [mbind option_bind]. unfold MDBX_PNL_ORDERED.
  assert (b <= P_INVALID) as Hb.
  { destruct Hinv as (_ & _ & _ & _ & Hp). apply Forall_app in Hp as [_ Hp]. by inversion Hp. }
  destruct (Z.ltb_spec a b) as [Hab|Hab].
  - destruct (Hlt b Hb Hab) as [A' ->].
    destruct (merge_store_a len P_INVALID A' a J (R ++ rest)) as (J' & HJ' & Est).
    replace (zlen (A' ++ [a]) + zlen B + 1) with (zlen A' + 1 + zlen J) by zlia.
    unfold blk. rewrite Est. cbn [mbind option_bind]. destruct (Z.ltb_spec 0 (zlen B + 1)); [|zlia].
    replace (zlen A' + 1 + zlen J - 1) with (zlen A' + zlen B + 1) by lia.
    replace (zlen (A' ++ [a]) - 1) with (zlen A') by zlia.
    destruct (IH A' B b J' (a :: R) B') as (l' & E & HP & Hl'); [done|lia|by apply merge_inv_take_a| |].
    { rewrite length_app in Hf. cbn in Hf. lia. }
    exists l'. split; [exact E|]. split; [|done]. rewrite HP. solve_Permutation.
  - specialize (Hge b ltac:(lia)). destruct (zsplit_snoc J) as (J' & j & ->); [zlia|].
    replace (zlen A + zlen B + 1) with (zlen A + zlen J' + 1) by zlia.
    unfold blk. rewrite merge_store_b. cbn [mbind option_bind].
    apply (merge_inv_take_b A B R b) in Hinv; [|done].
    destruct (Z.ltb_spec 0 (zlen B + 1 - 1)) as [HB|HB].
    + destruct (zsplit_snoc B) as (B1 & b1 & ->); [lia|].
      replace (zlen A + zlen J' + 1 - 1) with (zlen A + zlen B1 + 1) by zlia.
      replace (zlen (B1 ++ [b1]) + 1 - 1) with (zlen B1 + 1) by zlia.
      destruct (IH A B1 b1 J' (b :: R) (b :: B')) as (l' & E & HP & Hl'); [|zlia|done| |].
      { rewrite El. by rewrite <- !app_assoc. }
      { rewrite length_app in Hf. cbn in Hf. lia. }
      exists l'. split; [exact E|]. split; [|done]. rewrite HP. solve_Permutation.
    + assert (B = []) as -> by (apply zlen_0_nil; zlia). assert (J' = []) as -> by (apply zlen_0_nil; zlia).
      exists (A ++ b :: R). split; [by rewrite <- app_assoc|]. split; [done|]. by apply merge_inv_done.
Qed.

Lemma merge_drain_spec rest B b : forall (fuel : nat) A J R,
  merge_inv A (B ++ [b]) R -> (length A < fuel)%nat ->
  exists A' J' R', merge_drain fuel (blk A J (R ++ rest)) b (zlen A + zlen J) (zlen A) =
      Some (blk A' J' (R' ++ rest), zlen A' + zlen J, zlen A') /\
    zlen J' = zlen J /\ merge_inv A' (B ++ [b]) R' /\ A' ++ R' ≡ₚ A ++ R /\
    (forall a, last A' = Some a -> b <= a).
Proof using.
  induction fuel as [|fuel IH]; intros A J R Hinv Hf; [lia|]. cbn [merge_drain].
  destruct (blk_last A J (R ++ rest)) as (a & -> & Hlt & Hge). cbn [mbind option_bind]. unfold MDBX_PNL_ORDERED.
  assert (b <= P_INVALID) as Hb.
  { destruct Hinv as (_ & _ & _ & _ & Hp). apply Forall_app in Hp as [_ Hp]. by inversion Hp. }
  destruct (Z.ltb_spec a b) as [Hab|Hab].
  - destruct (Hlt b Hb Hab) as [A1 ->].
    destruct (merge_store_a len P_INVALID A1 a J (R ++ rest)) as (J1 & HJ1 & Est).
    replace (zlen (A1 ++ [a]) + zlen J) with (zlen A1 + 1 + zlen J) by zlia.
    unfold blk. rewrite Est. cbn [mbind option_bind].
    replace (zlen A1 + 1 + zlen J - 1) with (zlen A1 + zlen J1) by lia.
    replace (zlen (A1 ++ [a]) - 1) with (zlen A1) by zlia.
    destruct (IH A1 J1 (a :: R)) as (A' & J' & R' & E & HJ' & Hinv' & HP & Hge'); [by apply merge_inv_take_a| |].
    { rewrite length_app in Hf. cbn in Hf. lia. }
    exists A', J', R'. rewrite <- HJ1. split_and!; [exact E|lia|done| |done].
    rewrite HP. solve_Permutation.
  - exists A, J, R. split_and!; [done..|]. apply Hge. lia.
Qed.

Lemma merge_jump_loop_spec rest : forall (fuel : nat) A B b J R B',
  ls = (B ++ [b]) ++ B' -> zlen J = zlen B + 1 -> merge_inv A (B ++ [b]) R ->
  (length B < fuel)%nat ->
  merged A (B ++ [b]) R rest
    (merge_jump_loop fuel (blk A J (R ++ rest)) s (zlen A + zlen B + 1) (zlen A) (zlen B + 1)).
Proof using Hs.
  induction fuel as [|fuel IH]; intros A B b J R B' El HJ Hinv Hf; [lia|]. cbn [merge_jump_loop].
  rewrite (src_last B b B' El). cbn [mbind option_bind].
  destruct (merge_drain_spec rest B b (S (Z.to_nat (zlen A))) A J R Hinv) as (A1 & J1 & R1 & E1 & HJ1 & Hinv1 & HP1 & Hge).
  { unfold zlen. lia. }
  replace (zlen A + zlen B + 1) with (zlen A + zlen J) by lia. rewrite E1. cbn [mbind option_bind].
  destruct (zsplit_snoc J1) as (J2 & j & ->); [zlia|].
  replace (zlen A1 + zlen J) with (zlen A1 + zlen J2 + 1) by zlia.
  unfold blk. rewrite merge_store_b. cbn [mbind option_bind].
  apply (merge_inv_take_b A1 B R1 b) in Hinv1; [|done].
  destruct (Z.ltb_spec 0 (zlen B + 1 - 1)) as [HB|HB].
  + destruct (zsplit_snoc B) as (B1 & b1 & ->); [lia|].
    replace (zlen A1 + zlen J2 + 1 - 1) with (zlen A1 + zlen B1 + 1) by zlia.
    replace (zlen (B1 ++ [b1]) + 1 - 1) with (zlen B1 + 1) by zlia.
    destruct (IH A1 B1 b1 J2 (b :: R1) (b :: B')) as (l' & E & HP & Hl'); [|zlia|done| |].
    { rewrite El. by rewrite <- !app_assoc. }
    { rewrite length_app in Hf. cbn in Hf. lia. }
    exists l'. split; [exact E|]. split; [|done]. rewrite HP.
    transitivity ((A1 ++ R1) ++ (B1 ++ [b1]) ++ [b]); [solve_Permutation|]. rewrite HP1. solve_Permutation.
  + assert (B = []) as -> by (apply zlen_0_nil; zlia). assert (J2 = []) as -> by (apply zlen_0_nil; zlia).
    exists (A1 ++ b :: R1). split; [by rewrite <- app_assoc|]. split; [|by apply merge_inv_done].
    transitivity ((A1 ++ R1) ++ [b]); [solve_Permutation|]. rewrite HP1. solve_Permutation.
Qed.

Lemma pnl_merge_inner_spec cm rest ld J : ls <> [] -> zlen J = zlen ls ->
  desc_weak ld -> desc_weak ls -> Forall (fun x => x <= P_INVALID) ls ->
  merged ld ls [] rest
    (pnl_merge_inner cm (blk ld J rest) s (zlen ld + zlen ls) (zlen ld) (zlen ls)).
Proof using Hs.
  intros Hne HJ Hd Hls Hp. destruct (zsplit_snoc ls) as (B & b & El).
  { destruct ls; [done|zlia]. }
  rewrite El in HJ, Hls, Hp |- *.
  assert (merge_inv ld (B ++ [b]) []) as Hinv.
  { split_and!; [done..|constructor| |done]. by intros x y _ ?%elem_of_nil. }
  unfold pnl_merge_inner. rewrite zlen_snoc in HJ |- *. rewrite Z.add_assoc.
  destruct cm.
  - apply (merge_cmov_loop_spec rest _ ld B b J [] []); [by rewrite El, app_nil_r|done|done|].
    unfold zlen. lia.
  - apply (merge_jump_loop_spec rest _ ld B b J [] []); [by rewrite El, app_nil_r|done|done|].
    unfold zlen. lia.
Qed.
End Merge.

Lemma desc_weak_app a b : desc_weak a -> desc_weak b ->
  (forall x y, last a = Some x -> head b = Some y -> y <= x) -> desc_weak (a ++ b).
Proof.
  intros Ha Hb Hab. apply StronglySorted_app_iff. split_and!; [done..|]. intros x y Hx Hy.
  destruct a as [|x' a _] using rev_ind; [by apply elem_of_nil in Hx|].
  destruct b as [|y' b]; [by apply elem_of_nil in Hy|].
  specialize (Hab x' y'). rewrite last_snoc in Hab. specialize (Hab eq_refl eq_refl).
  apply desc_weak_snoc in Ha as [_ Ha]. inversion Hb as [|?? _ Hall]; subst. rewrite Forall_forall in Hall.
  apply elem_of_app in Hx as [Hx|Hx%list_elem_of_singleton]; apply elem_of_cons in Hy as [->|Hy];
    try specialize (Ha _ Hx); try specialize (Hall _ Hy); lia.
Qed.

(** The branches that copy whole lists. *)
Lemma merge_append len mid rest ld ls src : pnl_rep src ls -> zlen mid = zlen ls ->
  blit src 2 (len :: zlen ld :: ld ++ mid ++ rest) (zlen ld + 2) (zlen ls) =
    Some (len :: zlen ld :: (ld ++ ls) ++ rest).
Proof.
  intros (slen & srest & -> & _) Hmid.
  rewrite (blit_split (len :: zlen ld :: ld) mid rest [slen; zlen ls] ls srest); [|done || zlia..].
  by rewrite <- app_assoc.
Qed.

Lemma merge_prepend len n mid rest ld ls src : pnl_rep src ls -> zlen mid = zlen ls ->
  (d ← blit (len :: n :: ld ++ mid ++ rest) 2 (len :: n :: ld ++ mid ++ rest) (2 + zlen ls) (zlen ld);
   blit src 2 d 2 (zlen ls)) = Some (len :: n :: (ls ++ ld) ++ rest).
Proof.
  intros (slen & srest & -> & _) Hmid.
  destruct (zsplit (ld ++ mid) (zlen ls)) as (e1 & e2 & E & He1); [zlia|].
  assert (zlen e2 = zlen ld) as He2 by (apply (f_equal zlen) in E; zlia).
  replace (len :: n :: ld ++ mid ++ rest) with ((len :: n :: e1) ++ e2 ++ rest) at 2
    by (cbn; by rewrite (app_assoc ld), E, <- app_assoc).
  rewrite (blit_split (len :: n :: e1) e2 rest [len; n] ld (mid ++ rest)); [|done || zlia..].
  cbn [mbind option_bind].
  change ((len :: n :: e1) ++ ld ++ rest) with ([len; n] ++ e1 ++ (ld ++ rest)).
  rewrite (blit_split [len; n] e1 (ld ++ rest) [slen; zlen ls] ls srest); [|done || zlia..].
  by rewrite <- app_assoc.
Qed.

Lemma pnl_rep_last p l : pnl_rep p l -> 0 < zlen l -> exists x, pnl_at p (zlen l) = Some x /\ last l = Some x.
Proof.
  intros Hrep Hl. rewrite (pnl_rep_at p l _ Hrep) by lia. rewrite zget_last.
  destruct (last l) as [x|] eqn:E; [eauto|]. apply last_None in E. subst l. done.
Qed.

Lemma pnl_rep_head p l : pnl_rep p l -> 0 < zlen l -> exists x, pnl_at p 1 = Some x /\ head l = Some x.
Proof.
  intros Hrep Hl. rewrite (pnl_rep_at p l _ Hrep) by lia. change (1 - 1) with 0. rewrite zget_head.
  destruct l as [|x l]; [done|]. eauto.
Qed.

Lemma pnl_merge_spec cm dst src ld ls : pnl_rep dst ld -> pnl_rep src ls ->
  has_capacity dst (zlen ld + zlen ls) -> desc_weak ld -> desc_weak ls -> Forall (fun x => x <= P_INVALID) ls ->
  exists d' l', pnl_merge cm dst src = Some (d', zlen l') /\ pnl_rep d' l' /\
    l' ≡ₚ ld ++ ls /\ desc_weak l'.
Proof.
  intros Hd Hs Hcap Hld Hls Hp. unfold pnl_merge.
  rewrite (pnl_rep_size src ls Hs). cbn [mbind option_bind]. rewrite (pnl_rep_size dst ld Hd). cbn [mbind option_bind].
  destruct (Z.ltb_spec 0 (zlen ls)) as [Hlt|Hle].
  2: { assert (ls = []) as -> by (apply zlen_0_nil; zlia). exists dst, ld. rewrite app_nil_r. by split_and!. }
  zlen_pos.
  destruct (pnl_rep_room dst ld (zlen ls) Hd Hcap) as (len & mid & rest & Edst & Hmid & Hmax & Hre); [lia|].
  set (r := if _ <? _ then _ else _).
  assert (exists n l', r = Some (len :: n :: l' ++ rest) /\ l' ≡ₚ ld ++ ls /\ desc_weak l') as (n & l' & -> & HP & Hl').
  2: { assert (zlen l' = zlen ld + zlen ls) as Hlen by (unfold zlen; rewrite HP, length_app; lia).
    cbn [mbind option_bind]. rewrite pnl_setsize_cells by lia. cbn [mbind option_bind].
    eexists _, l'. rewrite <- Hlen. split_and!; [done|by apply Hre|done..]. }
  assert (exists n l', (d ← pnl_put dst 0 P_INVALID;
      pnl_merge_inner cm d src (zlen ld + zlen ls) (zlen ld) (zlen ls)) = Some (len :: n :: l' ++ rest) /\
      l' ≡ₚ ld ++ ls /\ desc_weak l') as Hinner.
  { subst dst. rewrite <- (u32_small P_INVALID) by (unfold P_INVALID, UINT32_MAX; lia).
    change (pnl_put ?x 0 (u32 P_INVALID)) with (pnl_setsize x P_INVALID).
    rewrite pnl_setsize_cells by (unfold P_INVALID, UINT32_MAX; lia). cbn [mbind option_bind].
    destruct (pnl_merge_inner_spec src ls Hs len cm rest ld mid) as (l' & E & HP & Hdw); [|done..|].
    { intros ->. done. }
    exists P_INVALID, l'. split; [exact E|]. by rewrite app_nil_r in HP. }
  subst r. destruct (_ <? (if cm then 21 else 12)); [done|].
  destruct (pnl_rep_head src ls Hs Hlt) as (sf & -> & Esf).
  destruct (pnl_rep_last src ls Hs Hlt) as (sl & -> & Esl). cbn [mbind option_bind].
  destruct (Z.eqb_spec (zlen ld) 0) as [E0|Hne].
  - apply zlen_0_nil in E0. subst ld dst. cbn [mbind option_bind].
    rewrite merge_append by done. by eexists _, _.
  - destruct (pnl_rep_head dst ld Hd) as (df & -> & Edf); [lia|].
    destruct (pnl_rep_last dst ld Hd) as (dl & -> & Edl); [lia|]. cbn [mbind option_bind].
    unfold MDBX_PNL_ORDERED. destruct (Z.ltb_spec sf dl).
    + subst dst. rewrite merge_append by done. eexists _, _. split; [done|]. split; [done|].
      apply desc_weak_app; [done..|]. intros x y Hx Hy. simplify_eq. lia.
    + destruct (Z.ltb_spec df sl); [|done].
      subst dst. rewrite merge_prepend by done. eexists _, _. split; [done|].
      split; [by rewrite Permutation_app_comm|]. apply desc_weak_app; [done..|]. intros x y Hx Hy. simplify_eq. lia.
Qed.

(** ** Intersection *)

Lemma desc_weak_head x l y : desc_weak (x :: l) -> y ∈ x :: l -> y <= x.
Proof.
  intros H. inversion H as [|?? _ Hall]; subst. rewrite Forall_forall in Hall.
  intros [->|Hy]%elem_of_cons; [lia|auto].
Qed.

Lemma desc_weak_tail l1 l2 : desc_weak (l1 ++ l2) -> desc_weak l2.
Proof. intros H. by apply StronglySorted_app_iff in H as (_ & ? & _). Qed.

(** The element after the first [zlen l1] ones. *)
Lemma pnl_rep_at_mid p l1 x l2 i : pnl_rep p (l1 ++ x :: l2) -> i = zlen l1 + 1 -> pnl_at p i = Some x.
Proof.
  intros Hrep ->. rewrite (pnl_rep_at _ _ _ Hrep) by zlia. apply zget_app_mid. lia.
Qed.

Lemma intersect_loop_spec a b la lb : pnl_rep a la -> pnl_rep b lb -> desc_weak la -> desc_weak lb ->
  forall (fuel : nat) A1 A2 B1 B2, la = A1 ++ A2 -> lb = B1 ++ B2 -> (length A2 + length B2 < fuel)%nat ->
  (forall z, z ∈ la -> z ∈ lb -> z ∈ A2 /\ z ∈ B2) ->
  exists r, intersect_loop fuel a b (zlen A1 + 1) (zlen B1 + 1) (zlen la) (zlen lb) = Some r /\
    (r = true <-> exists z, z ∈ la /\ z ∈ lb).
Proof.
  intros Ha Hb Hda Hdb. induction fuel as [|fuel IH]; intros A1 A2 B1 B2 EA EB Hf Hinv; [lia|].
  cbn [intersect_loop].
  assert (forall z, (z ∈ A2 -> z ∈ B2 -> False) -> z ∈ la -> z ∈ lb -> False) as Hno by naive_solver.
  destruct A2 as [|x A2].
  { destruct (Z.leb_spec (zlen A1 + 1) (zlen la)); [subst la; zlia|]. cbn [andb]. exists false. split; [done|].
    split; [done|]. intros (z & Hza & Hzb). destruct (Hinv z Hza Hzb) as [[]%elem_of_nil _]. }
  destruct B2 as [|y B2].
  { destruct (Z.leb_spec (zlen B1 + 1) (zlen lb)); [subst lb; zlia|]. rewrite andb_false_r. exists false.
    split; [done|]. split; [done|]. intros (z & Hza & Hzb). destruct (Hinv z Hza Hzb) as [_ []%elem_of_nil]. }
  destruct (Z.leb_spec (zlen A1 + 1) (zlen la)); [|subst la; zlia].
  destruct (Z.leb_spec (zlen B1 + 1) (zlen lb)); [|subst lb; zlia]. cbn [andb].
  rewrite EA in Ha. rewrite EB in Hb.
  rewrite (pnl_rep_at_mid a A1 x A2) by done. cbn [mbind option_bind].
  rewrite (pnl_rep_at_mid b B1 y B2) by done. cbn [mbind option_bind].
  rewrite EA in Hda. apply desc_weak_tail in Hda. rewrite EB in Hdb. apply desc_weak_tail in Hdb.
  destruct (Z.ltb_spec y x); [|destruct (Z.ltb_spec x y)].
  - replace (zlen A1 + 1 + 1) with (zlen (A1 ++ [x]) + 1) by zlia.
    apply (IH _ A2 B1 (y :: B2)); [by rewrite <- app_assoc|done|cbn in *; lia|].
    intros z Hza Hzb. destruct (Hinv z Hza Hzb) as [Hz1 Hz2]. split; [|done].
    pose proof (desc_weak_head _ _ _ Hdb Hz2). apply elem_of_cons in Hz1 as [->|]; [lia|done].
  - replace (zlen B1 + 1 + 1) with (zlen (B1 ++ [y]) + 1) by zlia.
    apply (IH A1 (x :: A2) _ B2); [done|by rewrite <- app_assoc|cbn in *; lia|].
    intros z Hza Hzb. destruct (Hinv z Hza Hzb) as [Hz1 Hz2]. split; [done|].
    pose proof (desc_weak_head _ _ _ Hda Hz1). apply elem_of_cons in Hz2 as [->|]; [lia|done].
  - assert (x = y) as -> by lia. exists true. split; [done|]. split; [intros _|done].
    exists y. subst la lb. rewrite !elem_of_app. split; right; constructor.
Qed.

Lemma pnl_intersect_spec a b la lb : pnl_rep a la -> pnl_rep b lb -> desc_weak la -> desc_weak lb ->
  exists r, pnl_intersect a b = Some r /\ (r = true <-> exists z, z ∈ la /\ z ∈ lb).
Proof.
  intros Ha Hb Hda Hdb. unfold pnl_intersect.
  rewrite (pnl_rep_size a la Ha). cbn [mbind option_bind]. rewrite (pnl_rep_size b lb Hb). cbn [mbind option_bind].
  destruct (Z.eqb_spec (zlen la) 0) as [E|_].
  { apply zlen_0_nil in E. subst la. exists false. split; [done|]. split; [done|]. by intros (z & []%elem_of_nil & _). }
  destruct (Z.eqb_spec (zlen lb) 0) as [E|_].
  { apply zlen_0_nil in E. subst lb. exists false. split; [done|]. split; [done|]. by intros (z & _ & []%elem_of_nil). }
  apply (intersect_loop_spec a b la lb Ha Hb Hda Hdb _ [] la [] lb); [done..| |done]. unfold zlen. lia.
Qed.

(** ** Sifting *)

(** [kept] has been written, [gap] is free, [todo] is still to be read. *)
Lemma sift_tail_spec len n : forall todo kept gap rest (fuel : nat), (length todo < fuel)%nat ->
  exists gap', zlen gap' = zlen gap /\
    sift_tail fuel (len :: n :: kept ++ gap ++ todo ++ rest) (zlen kept + 1) (zlen kept + zlen gap + 1)
      (zlen kept + zlen gap + zlen todo) =
    Some (len :: n :: (kept ++ todo) ++ gap' ++ rest, zlen (kept ++ todo) + 1).
Proof.
  induction todo as [|x todo IH]; intros kept gap rest fuel Hf; (destruct fuel as [|fuel]; [cbn in Hf; lia|]); cbn [sift_tail].
  { exists gap. split; [done|]. zcase; [zlia|]. by rewrite app_nil_r. }
  zcase; [|zlia]. cbn [app]. rewrite pnl_at_after_gap by lia. cbn [mbind option_bind].
  destruct (pnl_move_cell len n kept gap x (todo ++ rest)) as (gap1 & HG & ->). cbn [mbind option_bind].
  destruct (IH (kept ++ [x]) gap1 rest fuel) as (gap' & HG' & E); [cbn in Hf; lia|].
  exists gap'. split; [lia|].
  replace (zlen kept + 1 + 1) with (zlen (kept ++ [x]) + 1) by zlia.
  replace (zlen kept + zlen gap + 1 + 1) with (zlen (kept ++ [x]) + zlen gap1 + 1) by zlia.
  replace (zlen kept + zlen gap + zlen (x :: todo)) with (zlen (kept ++ [x]) + zlen gap1 + zlen todo) by zlia.
  rewrite E. by rewrite <- !app_assoc.
Qed.

Section Sift.
Context (fo : pnl) (lf : list Z) (Hfo : pnl_rep fo lf) (Hdf : desc_weak lf).
Context (len total : Z) (Htotal : total <= UINT32_MAX).

(** The list without the pages of [lf]. *)
Definition difference (l : list Z) : list Z := filter (fun x => x ∉ lf) l.

Definition sifted (l' : list Z) (rest : list Z) (r : option pnl) : Prop :=
  exists gap, r = Some (len :: zlen l' :: l' ++ gap ++ rest) /\ zlen l' + zlen gap = total.

(** Everything in [F1] lies above the elements that are left. *)
Definition passed (F1 todo : list Z) : Prop := forall x y, x ∈ todo -> y ∈ F1 -> x < y.

Lemma sift_finish n l' gap rest : zlen l' + zlen gap = total ->
  sifted l' rest (pnl_setsize (len :: n :: l' ++ gap ++ rest) (zlen l' + 1 - 1)).
Proof using Htotal.
  intros Hl. exists gap. zlen_pos. rewrite Z.add_simpl_r, pnl_setsize_cells by lia. done.
Qed.

Lemma passed_keep F1 y F2 x todo : lf = F1 ++ y :: F2 -> passed F1 (x :: todo) -> y < x -> x ∉ lf.
Proof using Hdf.
  intros El Hp Hyx Hin. rewrite El in Hin, Hdf. apply elem_of_app in Hin as [Hin|Hin].
  - specialize (Hp x x ltac:(constructor) Hin). lia.
  - apply desc_weak_tail in Hdf. pose proof (desc_weak_head _ _ _ Hdf Hin). lia.
Qed.

Lemma passed_next F1 y todo : passed F1 todo -> (forall x, x ∈ todo -> x < y) -> passed (F1 ++ [y]) todo.
Proof using.
  intros Hp Hy x z Hx [Hz|Hz%list_elem_of_singleton]%elem_of_app; [by apply Hp|]. subst. auto.
Qed.

Lemma desc_cons_lt x l y : desc (x :: l) -> y ∈ l -> y < x.
Proof using. intros H. inversion H as [|?? _ Hall]; subst. rewrite Forall_forall in Hall. auto. Qed.

(** The result of both loops, with enough fuel. *)
Definition sift_state (kept gap todo F1 F2 : list Z) : Prop :=
  lf = F1 ++ F2 /\ desc todo /\ passed F1 todo /\ zlen kept + zlen gap + zlen todo = total.

Definition sift_next_ok (rest : list Z) (fuel : nat) : Prop :=
  forall n kept gap todo F1 F2, sift_state kept gap todo F1 F2 ->
  (length todo + 2 * length F2 + 1 <= fuel)%nat ->
  sifted (kept ++ difference todo) rest
    (sift_next fuel (len :: n :: kept ++ gap ++ todo ++ rest) fo (zlen kept + 1)
       (zlen kept + zlen gap + 1) (zlen F1) total (zlen lf + 1)).

Definition sift_update_ok (rest : list Z) (fuel : nat) : Prop :=
  forall n kept gap todo F1 F2, sift_state kept gap todo F1 F2 ->
  (length todo + 2 * length F2 <= fuel)%nat -> F2 <> [] ->
  sifted (kept ++ difference todo) rest
    (sift_update fuel (len :: n :: kept ++ gap ++ todo ++ rest) fo (zlen kept + 1)
       (zlen kept + zlen gap + 1) (zlen F1 + 1) total (zlen lf + 1)).

Lemma sift_next_step rest fuel : sift_update_ok rest fuel -> sift_next_ok rest (S fuel).
Proof using Htotal.
  intros IH n kept gap todo F1 F2 Hst Hf. pose proof Hst as (El & Hd & Hp & Htot). cbn [sift_next].
  destruct (Z.eqb_spec (zlen F1 + 1) (zlen lf + 1)) as [E|Hne].
  - assert (F2 = []) as -> by (apply zlen_0_nil; rewrite El in E; zlia).
    rewrite app_nil_r in El.
    destruct (sift_tail_spec len n todo kept gap rest (S (Z.to_nat total))) as (gap' & HG & Et).
    { unfold zlen in *. lia. }
    rewrite Htot in Et. rewrite Et. cbn [mbind option_bind].
    assert (difference todo = todo) as ->.
    { apply filter_all. intros x Hx Hin. rewrite El in Hin. specialize (Hp x x Hx Hin). lia. }
    apply sift_finish. zlia.
  - apply (IH n kept gap todo F1 F2 Hst); [lia|]. intros ->. rewrite app_nil_r in El. congruence.
Qed.

Lemma sift_update_step rest fuel : sift_next_ok rest fuel -> sift_update_ok rest fuel -> sift_update_ok rest (S fuel).
Proof using Hfo Hdf Htotal.
  intros IHn IHu n kept gap todo F1 F2 (El & Hd & Hp & Htot) Hf HF.
  destruct F2 as [|y F2]; [done|]. cbn [sift_update].
  assert (pnl_at fo (zlen F1 + 1) = Some y) as Ey.
  { rewrite El in Hfo. by apply (pnl_rep_at_mid fo F1 y F2). }
  destruct todo as [|x todo].
  { zcase; [zlia|]. change (difference []) with (@nil Z). rewrite app_nil_r. apply sift_finish. zlia. }
  zcase; [|zlia]. rewrite Ey. cbn [mbind option_bind app].
  rewrite pnl_at_after_gap by lia. cbn [mbind option_bind].
  unfold MDBX_PNL_ORDERED, MDBX_PNL_REVERSED. cbn [length] in Hf.
  assert (desc todo) as Hd' by (by inversion Hd).
  assert (passed F1 todo) as Hp' by (intros u v Hu; apply Hp; by constructor).
  assert (lf = (F1 ++ [y]) ++ F2) as El' by (by rewrite <- app_assoc).
  destruct (Z.ltb_spec y x); [|destruct (Z.ltb_spec x y)].
  - destruct (pnl_move_cell len n kept gap x (todo ++ rest)) as (gap1 & HG & ->). cbn [mbind option_bind].
    unfold difference. rewrite filter_cons_True by (by eapply passed_keep). rewrite cons_middle, app_assoc.
    replace (zlen kept + 1 + 1) with (zlen (kept ++ [x]) + 1) by zlia.
    replace (zlen kept + zlen gap + 1 + 1) with (zlen (kept ++ [x]) + zlen gap1 + 1) by zlia.
    apply (IHu n (kept ++ [x]) gap1 todo F1 (y :: F2)); [by split_and!; [..|zlia]|cbn; lia|done].
  - rewrite <- (zlen_snoc F1 y). apply (IHn n kept gap (x :: todo) (F1 ++ [y]) F2); [|cbn; lia].
    split_and!; [done|done| |zlia]. apply passed_next; [done|]. intros z [->|Hz]%elem_of_cons; [lia|].
    pose proof (desc_cons_lt x todo z Hd Hz). lia.
  - assert (x = y) as -> by lia. unfold difference. rewrite filter_cons_False.
    2: { intros Hn. apply Hn. rewrite El. apply elem_of_app. right. constructor. }
    rewrite <- (zlen_snoc F1 y), (cons_middle y gap).
    replace (zlen kept + zlen gap + 1 + 1) with (zlen kept + zlen (gap ++ [y]) + 1) by zlia.
    rewrite (app_assoc gap). apply (IHn n kept (gap ++ [y]) todo (F1 ++ [y]) F2); [|lia].
    split_and!; [done|done| |zlia]. apply passed_next; [done|]. intros z Hz. by apply (desc_cons_lt y todo).
Qed.

Lemma sift_loops_spec rest fuel : sift_next_ok rest fuel /\ sift_update_ok rest fuel.
Proof using Hfo Hdf Htotal.
  induction fuel as [|fuel [IHn IHu]].
  - split; intros n kept gap todo F1 F2 _ Hf; [lia|]. intros HF. destruct F2; [done|cbn in Hf; lia].
  - split; [by apply sift_next_step|by apply sift_update_step].
Qed.
End Sift.

(** A page that is not in the list stays; the whole block is the result. *)
Lemma sifted_rep fo lf len rest n p l l' : p = len :: n :: l ++ rest -> zlen l <= len <= UINT32_MAX ->
  2 * len + 3 <= zlen p -> sifted len (zlen l) l' rest fo -> l' = difference lf l ->
  exists p', fo = Some p' /\ pnl_rep p' (difference lf l).
Proof.
  intros -> Hlen Hroom (gap & -> & Hgap) ->. eexists. split; [done|].
  exists len, (gap ++ rest). split; [done|]. zlia.
Qed.

Lemma difference_app lf a b : difference lf (a ++ b) = difference lf a ++ difference lf b.
Proof. apply filter_app. Qed.

Lemma difference_keep lf a : (forall x, x ∈ a -> x ∉ lf) -> difference lf a = a.
Proof. apply filter_all. Qed.

Lemma sift_scan_spec p fo l lf : pnl_rep p l -> pnl_rep fo lf -> desc l -> desc_weak lf ->
  forall (fuel : nat) K T F1 F2, l = K ++ T -> lf = F1 ++ F2 -> F2 <> [] -> (length T + length F2 < fuel)%nat ->
  (forall x, x ∈ K -> x ∉ lf) -> passed F1 T ->
  exists p', sift_scan fuel p fo (zlen K + 1) (zlen F1 + 1) (zlen l) (zlen lf + 1) = Some p' /\
    pnl_rep p' (difference lf l).
Proof.
  intros Hrep Hfo Hd Hdf. induction fuel as [|fuel IH]; intros K T F1 F2 El Ef HF Hf HK Hp; [lia|].
  cbn [sift_scan]. destruct F2 as [|y F2]; [done|].
  destruct T as [|x T].
  { rewrite app_nil_r in El. subst K. zcase; [lia|]. exists p. split; [done|]. by rewrite difference_keep. }
  zcase; [|subst l; zlia].
  assert (pnl_at fo (zlen F1 + 1) = Some y) as ->.
  { rewrite Ef in Hfo. by apply (pnl_rep_at_mid fo F1 y F2). }
  cbn [mbind option_bind]. pose proof Hrep as Hrep0. rewrite El in Hrep0.
  rewrite (pnl_rep_at_mid p K x T) by done. cbn [mbind option_bind].
  pose proof Hd as Hd0. rewrite El in Hd0. apply StronglySorted_app_iff in Hd0 as (_ & HdT & _).
  assert (desc T) as HdT' by (by inversion HdT).
  assert (passed F1 T) as Hp' by (intros u v Hu; apply Hp; by constructor).
  assert (lf = (F1 ++ [y]) ++ F2) as Ef' by (by rewrite <- app_assoc).
  destruct (Z.eqb_spec x y) as [->|Hne]; cbn [negb].
  - destruct Hrep as (len & rest & Ep & Hlen & Hroom). rewrite <- (zlen_snoc F1 y).
    destruct (sift_loops_spec fo lf Hfo Hdf len (zlen l) ltac:(lia) rest (2 * Z.to_nat (zlen l + (zlen lf + 1)))) as [Hn _].
    specialize (Hn (zlen l) K [y] T (F1 ++ [y]) F2).
    eapply sifted_rep; [exact Ep|done|done| |].
    + rewrite Ep, El, <- app_assoc. cbn [app]. rewrite <- El. apply Hn.
      * split_and!; [done|done| |subst l; zlia]. apply passed_next; [done|].
        intros z Hz. by apply (desc_cons_lt y T).
      * subst l lf. unfold zlen. rewrite !length_app. cbn. lia.
    + rewrite El, difference_app. f_equal; [by rewrite difference_keep|].
      unfold difference. rewrite filter_cons_False; [done|]. intros Hn'. apply Hn'.
      rewrite Ef. apply elem_of_app. right. constructor.
  - unfold MDBX_PNL_ORDERED. destruct (Z.ltb_spec y x).
    + destruct (Z.eqb_spec (zlen F1 + 1) (zlen lf + 1)); [subst lf; zlia|]. cbn [negb].
      rewrite <- (zlen_snoc K x). apply (IH _ T F1 (y :: F2)); [by subst l; rewrite <- app_assoc|done|done|cbn in *; lia| |done].
      intros z [Hz|Hz%list_elem_of_singleton]%elem_of_app; [auto|]. subst z. by eapply passed_keep.
    + assert (passed (F1 ++ [y]) (x :: T)) as Hp2.
      { apply passed_next; [done|]. intros z [->|Hz]%elem_of_cons; [lia|]. pose proof (desc_cons_lt x T z HdT Hz). lia. }
      destruct (Z.eqb_spec (zlen F1 + 1 + 1) (zlen lf + 1)); cbn [negb].
      * exists p. split; [done|]. rewrite difference_keep; [done|].
        assert (F2 = []) as -> by (apply zlen_0_nil; subst lf; zlia).
        rewrite app_nil_r in Ef'. intros z. rewrite El, elem_of_app. intros [Hz|Hz]; [auto|].
        rewrite Ef'. intros Hz'. specialize (Hp2 z z Hz Hz'). lia.
      * rewrite <- (zlen_snoc F1 y). apply (IH K (x :: T) _ F2); [done..| |cbn in *; lia|done|done].
        intros ->. rewrite app_nil_r in Ef'. subst lf. zlia.
Qed.

Lemma pnl_sift_spec cm p fo l lf : pnl_rep p l -> pnl_rep fo lf -> desc l -> desc_weak lf ->
  exists p', pnl_sift cm p fo = Some p' /\ pnl_rep p' (difference lf l).
Proof.
  intros Hrep Hfo Hd Hdf. unfold pnl_sift.
  rewrite (pnl_rep_size p l Hrep). cbn [mbind option_bind]. rewrite (pnl_rep_size fo lf Hfo). cbn [mbind option_bind].
  destruct (Z.eqb_spec (zlen l) 0) as [E|_].
  { apply zlen_0_nil in E. subst l. by exists p. }
  destruct lf as [|y lf].
  { exists p. split; [done|]. rewrite difference_keep; [done|]. by intros x _ ?%elem_of_nil. }
  destruct (Z.eqb_spec (zlen (y :: lf)) 0); [zlia|]. cbn [negb andb].
  rewrite (pnl_rep_at_mid fo [] y lf) by done. cbn [mbind option_bind].
  destruct (pnl_search_nochk_spec cm p l y) as (hi & lo & El & Hhi & Hlo & ->); [done|auto|].
  cbn [mbind option_bind]. rewrite Forall_forall in Hhi.
  apply (sift_scan_spec p fo l (y :: lf) Hrep Hfo Hd Hdf _ hi lo [] (y :: lf)); [done..| | |].
  - subst l. unfold zlen. rewrite length_app. lia.
  - intros x Hx Hin. specialize (Hhi x Hx). pose proof (desc_weak_head _ _ _ Hdf Hin). lia.
  - by intros x z _ ?%elem_of_nil.
Qed.

(** ** Moving a range to another list *)

Lemma cut_range_loop_spec al `{!AllocOk 4 al} p l rb : pnl_rep p l ->
  forall T (fuel : nat) A pdest ld, l = A ++ T -> (length T < fuel)%nat -> pnl_rep_opt pdest ld ->
  exists err pd M R, T = M ++ R /\ Forall (fun x => rb <= x) M /\
    cut_range_loop al fuel p pdest (zlen A + 1) (zlen l) rb = Some (err, pd, zlen A + zlen M + 1) /\
    pnl_rep_opt pd (ld ++ M) /\
    (err = MDBX_SUCCESS -> forall x, head R = Some x -> x < rb) /\
    (err = MDBX_SUCCESS \/ err = MDBX_ENOMEM /\ alloc_fails al \/
     err = MDBX_TXN_FULL /\ PAGELIST_LIMIT < zlen ld + zlen T).
Proof.
  intros Hrep. induction T as [|x T IH]; intros fuel A pdest ld El Hf Hd; (destruct fuel as [|fuel]; [lia|]);
    cbn [cut_range_loop].
  { zcase; [subst l; zlia|]. exists MDBX_SUCCESS, pdest, [], []. rewrite zlen_nil, Z.add_0_r, (app_nil_r ld).
    split_and!; [done|by apply Forall_nil|done..|by left]. }
  zcase; [|subst l; zlia]. rewrite El in Hrep. rewrite (pnl_rep_at_mid p A x T) by done. cbn [mbind option_bind].
  destruct (Z.ltb_spec x rb).
  { exists MDBX_SUCCESS, pdest, [], (x :: T). rewrite zlen_nil, Z.add_0_r, (app_nil_r ld). split_and!; [done|by apply Forall_nil|done|done| |by left].
    intros _ y [= <-]. done. }
  destruct (pnl_append_spec al pdest ld x Hd) as (err & pp & -> & Hres). cbn [mbind option_bind].
  destruct Hres as [(-> & pd & -> & Hpd)|(He & Hpd)].
  - rewrite decide_False by (intros Hn; by apply Hn).
    destruct (IH fuel (A ++ [x]) (Some pd) (ld ++ [x])) as (err & pd' & M & R & ET & HM & E & Hpd' & Hend & Herr);
      [by subst l; rewrite <- app_assoc|cbn in Hf; lia|done|].
    exists err, pd', (x :: M), R. rewrite zlen_snoc in E. rewrite E. split_and!; [by rewrite ET|by constructor| | |done|].
    + do 2 f_equal. zlia.
    + by rewrite <- app_assoc in Hpd'.
    + destruct Herr as [?|[?|[? ?]]]; [auto..|]. right. right. split; [done|zlia].
  - rewrite decide_True by (destruct He as [[-> _]|[-> _]]; done).
    exists err, pp, [], (x :: T). rewrite zlen_nil, Z.add_0_r, (app_nil_r ld). split_and!; [done|by apply Forall_nil|done|done| |].
    + intros ->. by destruct He as [[? _]|[? _]].
    + zlen_pos. destruct He as [[-> ?]|[-> ?]]; [auto|]. right. right. split; [done|zlia].
Qed.

Lemma pnl_cut_range_spec cm al `{!AllocOk 4 al} p l pdest ld rb re :
  pnl_rep p l -> desc l -> pnl_rep_opt pdest ld -> 0 <= rb < re -> re <= UINT32_MAX ->
  exists err p' pd, pnl_cut_range cm al p pdest rb re = Some (err, p', pd) /\
    ((err = MDBX_SUCCESS /\ pnl_rep p' (filter (fun x => ~ (rb <= x < re)) l) /\
      pnl_rep_opt pd (ld ++ filter (fun x => rb <= x < re) l)) \/
     ((err = MDBX_ENOMEM /\ alloc_fails al \/ err = MDBX_TXN_FULL /\ PAGELIST_LIMIT < zlen ld + zlen l) /\ p' = p /\
      exists k, pnl_rep_opt pd (ld ++ take k (filter (fun x => rb <= x < re) l)))).
Proof.
  intros Hrep Hd Hdest Hrange Hmax. unfold pnl_cut_range. rewrite u32_small by lia.
  destruct (pnl_search_nochk_spec cm p l (re - 1)) as (A & T & El & HA & HT & ->); [done|auto|].
  cbn [mbind option_bind]. rewrite (pnl_rep_size p l Hrep). cbn [mbind option_bind].
  destruct (cut_range_loop_spec al p l rb Hrep T (S (Z.to_nat (zlen l))) A pdest ld)
    as (err & pd & M & R & ET & HM & -> & Hpd & Hend & Herr); [done|subst l; unfold zlen; rewrite length_app; lia|done|].
  cbn [mbind option_bind]. rewrite Forall_forall in HA, HT, HM.
  assert (forall x, x ∈ M -> rb <= x < re) as HM'.
  { intros x Hx. specialize (HM x Hx). specialize (HT x). rewrite ET, elem_of_app in HT. specialize (HT ltac:(auto)). lia. }
  assert (filter (fun x => rb <= x < re) A = []) as FA.
  { apply filter_none. intros x Hx. specialize (HA x Hx). lia. }
  assert (filter (fun x => rb <= x < re) M = M) as FM by (by apply filter_all).
  destruct (decide (err = MDBX_SUCCESS)) as [->|Hne].
  - rewrite decide_False by (intros Hn; by apply Hn).
    assert (forall x, x ∈ R -> x < rb) as HR.
    { destruct R as [|y R]; [by intros x ?%elem_of_nil|]. specialize (Hend eq_refl y eq_refl).
      rewrite El, ET in Hd. apply desc_desc_weak, desc_weak_tail, desc_weak_tail in Hd.
      intros x Hx. pose proof (desc_weak_head _ _ _ Hd Hx). lia. }
    assert (filter (fun x => rb <= x < re) l = M) as Fl.
    { rewrite El, ET, !filter_app, FA, FM, (filter_none _ R); [by rewrite app_nil_r|].
      intros x Hx. specialize (HR x Hx). lia. }
    assert (filter (fun x => ~ (rb <= x < re)) l = A ++ R) as Fn.
    { rewrite El, ET, !filter_app, (filter_none _ M), (filter_all _ A), (filter_all _ R); [done|..];
        intros x Hx; [specialize (HR x Hx)|specialize (HA x Hx)|specialize (HM' x Hx)]; lia. }
    rewrite Fl, Fn.
    destruct (pnl_cut_spec p A M R) as (p' & Ecut & Hp'); [by rewrite <- ET, <- El|].
    destruct (Z.ltb_spec (zlen A + 1) (zlen A + zlen M + 1)) as [Hlt|Hge].
    + replace (zlen A + zlen M + 1 - (zlen A + 1)) with (zlen M) by lia. rewrite Ecut. cbn [mbind option_bind].
      exists MDBX_SUCCESS, p', pd. split; [done|]. left. auto.
    + assert (M = []) as -> by (apply zlen_0_nil; zlia). cbn [mbind option_bind].
      exists MDBX_SUCCESS, p, pd. split; [done|]. left. split_and!; [done| |done].
      by rewrite El, ET in Hrep.
  - rewrite decide_True by done. exists err, p, pd. split; [done|]. right. split; [|split; [done|]].
    { destruct Herr as [?|[?|[? ?]]]; [done|by left|right]. split; [done|]. rewrite El. zlen_pos. zlia. }
    exists (length M). rewrite El, ET, !filter_app, FA, FM. cbn [app]. by rewrite take_app_length.
Qed.

(** ** Membership of a whole run *)

(** The test is right when the cell after the end does not happen to hold the
    searched page: that cell is read when every element lies above it. *)
Lemma pnl_contains_span_spec cm p l pgno span : pnl_rep p l -> desc l -> pages l -> 1 <= span <= UINT32_MAX ->
  pnl_at p (zlen l + 1) <> Some pgno ->
  exists b, pnl_contains_span cm p pgno span = Some b /\ (b = true <-> run_in l pgno span).
Proof.
  intros Hrep Hd Hpg Hspan Hstale. unfold pnl_contains_span.
  destruct (pnl_search_nochk_spec cm p l pgno) as (hi & lo & El & Hhi & Hlo & ->); [done|auto|].
  cbn [mbind option_bind]. zlen_pos.
  pose proof (split_elem pgno hi lo) as Hin. rewrite <- El in Hin. specialize (Hin Hd Hhi Hlo).
  assert (run_in l pgno span -> pgno ∈ l) as Hrun1.
  { intros Hr. specialize (Hr 0 ltac:(lia)). by rewrite Z.add_0_r in Hr. }
  assert (forall lo', lo = pgno :: lo' -> run_in l pgno span <-> cells_run l (zlen hi + 1 - span) span pgno) as Hrun2.
  { intros lo' ->. split; [|intros; eapply window_run; [done|lia|done]].
    intros Hr. destruct (run_window l Hd span pgno ltac:(lia) Hr) as [i Hw].
    assert (zget l (zlen hi) = Some pgno) as Hg by (rewrite El; by apply zget_app_mid).
    pose proof (desc_gap l Hd _ _ _ _ (proj2 Hw) Hg). pose proof (desc_gap l Hd _ _ _ _ Hg (proj2 Hw)).
    by replace (zlen hi + 1 - span) with i by lia. }
  destruct (Z.leb_spec span (zlen hi + 1)) as [Hle|Hgt].
  2: { exists false. split; [done|]. split; [done|]. intros Hr. destruct (proj1 Hin (Hrun1 Hr)) as [lo' E].
    apply (Hrun2 lo' E) in Hr. pose proof (zget_range _ _ _ (proj1 Hr)). lia. }
  destruct lo as [|x lo].
  - rewrite app_nil_r in El. subst hi. destruct (zget_in p (zlen l + 1 + 1)) as [z Hz].
    { destruct Hrep as (len & rest & -> & Hlen & Hroom). zlia. }
    unfold pnl_at in Hstale |- *. rewrite Hz in *. cbn [mbind option_bind].
    destruct (Z.eqb_spec z pgno) as [->|]; [done|]. exists false. split; [done|]. split; [done|].
    intros Hr. by destruct (proj1 Hin (Hrun1 Hr)).
  - assert (pnl_at p (zlen hi + 1) = Some x) as Ex by (rewrite El in Hrep; by eapply pnl_rep_at_mid).
    rewrite Ex. cbn [mbind option_bind]. destruct (Z.eqb_spec x pgno) as [->|Hne].
    + rewrite (pnl_rep_at p l _ Hrep) by (subst l; zlia).
      destruct (zget_in l (zlen hi + 1 - span + 1 - 1)) as [y Hy]; [subst l; zlia|]. rewrite Hy. cbn [mbind option_bind].
      rewrite u32_small by lia. eexists. split; [done|]. rewrite (Hrun2 lo eq_refl).
      replace (zlen hi + 1 - span + 1 - 1) with (zlen hi + 1 - span) in Hy by lia.
      rewrite (contiguous_window l Hd Hpg (zlen hi + 1 - span) (span - 1) y pgno); [by rewrite Z.sub_add|lia|done|].
      rewrite El. apply zget_app_mid. lia.
    + exists false. split; [done|]. split; [done|]. intros Hr. destruct (proj1 Hin (Hrun1 Hr)) as [lo' [= -> ->]]. done.
Qed.

(** ** Claims *)

(** C34: merging a descending list into another with enough room, from the high
    end down and in place, gives the descending list of the pages of both and
    returns its length, in both variants of the inner loop. *)
Theorem pnl_merge_merges cm dst src ld ls : pnl_rep dst ld -> pnl_rep src ls ->
  has_capacity dst (zlen ld + zlen ls) -> desc_weak ld -> desc_weak ls -> Forall (fun x => x <= P_INVALID) ls ->
  exists d' l', pnl_merge cm dst src = Some (d', zlen l') /\ pnl_rep d' l' /\ l' ≡ₚ ld ++ ls /\ desc_weak l'.
Proof. apply pnl_merge_spec. Qed.

Lemma pnl_merge_merges_witness : exists d' l',
  pnl_merge true (sample_pnl [9; 4] 6) (sample_pnl [7; 2; 1] 3) = Some (d', zlen l') /\
  pnl_rep d' l' /\ l' ≡ₚ [9; 4] ++ [7; 2; 1] /\ desc_weak l'.
Proof.
  apply (pnl_merge_merges true (sample_pnl [9; 4] 6) (sample_pnl [7; 2; 1] 3)).
  - by apply sample_pnl_rep.
  - by apply sample_pnl_rep.
  - exists 6. by split.
  - repeat constructor; lia.
  - repeat constructor; lia.
  - repeat constructor; by vm_compute.
Defined.

(** Sifting removes from a descending list exactly the pages of the other
    list, in one pass over both and in place. *)
Theorem pnl_sift_difference cm p fo l lf : pnl_rep p l -> pnl_rep fo lf -> desc l -> desc_weak lf ->
  exists p', pnl_sift cm p fo = Some p' /\ pnl_rep p' (filter (fun x => x ∉ lf) l).
Proof. apply pnl_sift_spec. Qed.

Lemma pnl_sift_difference_witness : exists p',
  pnl_sift false (sample_pnl [9; 7; 4; 2] 4) (sample_pnl [8; 7; 2] 3) = Some p' /\
  pnl_rep p' (filter (fun x => x ∉ [8; 7; 2]) [9; 7; 4; 2]).
Proof.
  apply (pnl_sift_difference false (sample_pnl [9; 7; 4; 2] 4) (sample_pnl [8; 7; 2] 3));
    [by apply sample_pnl_rep|by apply sample_pnl_rep|repeat constructor; lia|repeat constructor; lia].
Defined.

(** Cutting a range of pages moves exactly the pages of the range, in order,
    to the end of the other list; after a failed allocation the source is
    unchanged, and the other list has got some first part of the range (which
    is then in both lists). The test for common pages decides whether there
    are any. *)
Theorem pnl_cut_range_moves cm al `{!AllocOk 4 al} p l pdest ld rb re b lb :
  pnl_rep p l -> desc l -> pnl_rep_opt pdest ld -> 0 <= rb < re -> re <= UINT32_MAX ->
  pnl_rep b lb -> desc_weak lb ->
  (exists err p' pd, pnl_cut_range cm al p pdest rb re = Some (err, p', pd) /\
    ((err = MDBX_SUCCESS /\ pnl_rep p' (filter (fun x => ~ (rb <= x < re)) l) /\
      pnl_rep_opt pd (ld ++ filter (fun x => rb <= x < re) l)) \/
     ((err = MDBX_ENOMEM /\ alloc_fails al \/ err = MDBX_TXN_FULL /\ PAGELIST_LIMIT < zlen ld + zlen l) /\ p' = p /\
      exists k, pnl_rep_opt pd (ld ++ take k (filter (fun x => rb <= x < re) l))))) /\
  (exists r, pnl_intersect p b = Some r /\ (r = true <-> exists z, z ∈ l /\ z ∈ lb)).
Proof.
  intros. split; [by apply pnl_cut_range_spec|by apply pnl_intersect_spec; auto].
Qed.

Lemma pnl_cut_range_moves_witness : exists r,
  pnl_intersect (sample_pnl [9; 7; 4; 2] 4) (sample_pnl [8; 7; 3] 3) = Some r /\
  (r = true <-> exists z, z ∈ [9; 7; 4; 2] /\ z ∈ [8; 7; 3]).
Proof.
  apply (pnl_cut_range_moves true (exact_allocator 4) (AllocOk0 := exact_allocator_ok 4 ltac:(lia))
    (sample_pnl [9; 7; 4; 2] 4) [9; 7; 4; 2] (Some (sample_pnl [1] 4)) [1] 3 8 (sample_pnl [8; 7; 3] 3) [8; 7; 3]);
    [by apply sample_pnl_rep|repeat constructor; lia|by apply sample_pnl_rep|lia|by vm_compute|by apply sample_pnl_rep|repeat constructor; lia].
Defined.

(** The cell after the end is taken for an element: with [3] left in the cell
    after [[5; 4]], the list is said to contain page 3. *)
Lemma pnl_contains_span_stale :
  let p := [2; 2; 5; 4; 3; 0; 0] in
  pnl_rep p [5; 4] /\ pnl_contains_span true p 3 1 = Some true /\ pnl_contains_span false p 3 1 = Some true.
Proof.
  split_and!; [|by vm_compute..]. exists 2, [3; 0; 0]. split; [done|]. by vm_compute.
Qed.
