(* ===== verification/Rkl.v ===== *)
(** * Sets of transaction ids ([src/src/rkl.h], [src/src/rkl.c])

    A [rkl_t] holds a set of transaction ids as one solid interval
    [solid_begin .. solid_end - 1] and an ascending list of the others. The
    list lives in the small array [inplace] of the structure or in a heap
    block; [heap] is the block, [None] when [list == inplace]. This file holds
    the data and the operations, [RklProofs] shows that they implement a set. *)

From stdpp Require Import base list numbers option sorting.
From Stdlib Require Import ZArith Lia.
From S2P Require Import Prelude Search Bits Alloc Pnl.

Definition txl_granulate : Z := 32.
Definition txl_max : Z := Z.shiftl 1 26 - 2 - MDBX_ASSUME_MALLOC_OVERHEAD / 8.
Definition inplace_length : Z := 4 + 8.

Definition MIN_TXNID : Z := 1.
Definition INVALID_TXNID : Z := UINT64_MAX.
Definition SAFE64_INVALID_THRESHOLD : Z := 0xffffFFFF00000000.
Definition MAX_TXNID : Z := SAFE64_INVALID_THRESHOLD - 1.

Record rkl : Type := mk_rkl {
  solid_begin : Z;
  solid_end : Z;
  list_length : Z;
  list_limit : Z;
  heap : option (list Z);
  inplace : list Z;
}.

(** [rkl->list] *)
Definition rkl_list (r : rkl) : list Z := match heap r with Some b => b | None => inplace r end.

Definition with_list (r : rkl) (b : list Z) : rkl :=
  match heap r with
  | Some _ => mk_rkl (solid_begin r) (solid_end r) (list_length r) (list_limit r) (Some b) (inplace r)
  | None => mk_rkl (solid_begin r) (solid_end r) (list_length r) (list_limit r) None b
  end.

Definition with_solid (r : rkl) (b e : Z) : rkl :=
  mk_rkl b e (list_length r) (list_limit r) (heap r) (inplace r).

Definition with_length (r : rkl) (n : Z) : rkl :=
  mk_rkl (solid_begin r) (solid_end r) n (list_limit r) (heap r) (inplace r).

(** [rkl->list[i] = v] *)
Definition rkl_put (r : rkl) (i v : Z) : option rkl :=
  b ← zset (rkl_list r) i v; Some (with_list r b).

Definition rkl_size2bytes (size : Z) : Z :=
  u64 (ceil_powerof2 (u64 (MDBX_ASSUME_MALLOC_OVERHEAD + 8 * size)) (txl_granulate * 8) - MDBX_ASSUME_MALLOC_OVERHEAD).

Definition rkl_bytes2size (bytes : Z) : Z := bytes / 8.

Definition rkl_clear (r : rkl) : rkl :=
  mk_rkl UINT64_MAX 0 0 (list_limit r) (heap r) (inplace r).

Definition rkl_init (r : rkl) : rkl :=
  rkl_clear (mk_rkl (solid_begin r) (solid_end r) (list_length r) inplace_length None (inplace r)).

Definition rkl_clear_and_shrink (r : rkl) : rkl :=
  match heap r with
  | Some _ => rkl_clear (mk_rkl (solid_begin r) (solid_end r) (list_length r) inplace_length None (inplace r))
  | None => rkl_clear r
  end.

Definition solid_empty (r : rkl) : bool := negb (solid_begin r <? solid_end r).
Definition rkl_empty (r : rkl) : bool := solid_end r <? solid_begin r.
Definition RKL_ORDERED (first last : Z) : bool := first <? last.

(** The new values of [*src] and [*dst]. *)
Definition rkl_destructive_move (src dst : rkl) : option (rkl * rkl) :=
  match heap src with
  | Some b =>
      Some (rkl_init src, mk_rkl (solid_begin src) (solid_end src) (list_length src) (list_limit src) (Some b) (inplace dst))
  | None =>
      b ← blit (inplace src) 0 (inplace dst) 0 inplace_length;
      Some (rkl_init src, mk_rkl (solid_begin src) (solid_end src) (list_length src) inplace_length None b)
  end.

Definition rkl_len (r : rkl) : Z :=
  if rkl_empty r then 0 else u64 (solid_end r - solid_begin r) + list_length r.

Definition rkl_resize (al : allocator) (r : rkl) (wanna_size : Z) : option (rc * rkl) :=
  if txl_max <? wanna_size then Some (MDBX_TXN_FULL, r)
  else if wanna_size <? list_length r then Some (MDBX_PROBLEM, r)
  else if wanna_size <=? inplace_length then
    match heap r with
    | Some b =>
        i ← blit b 0 (inplace r) 0 inplace_length;
        Some (MDBX_SUCCESS, mk_rkl (solid_begin r) (solid_end r) (list_length r) inplace_length None i)
    | None => Some (MDBX_SUCCESS, r)
    end
  else if negb (wanna_size =? list_limit r) then
    let bytes := rkl_size2bytes wanna_size in
    match heap r with
    | None =>
        match osal_malloc al bytes with
        | None => Some (MDBX_ENOMEM, r)
        | Some ptr =>
            let limit := u32 (rkl_bytes2size (8 * zlen ptr)) in
            ptr ← blit (inplace r) 0 ptr 0 inplace_length;
            Some (MDBX_SUCCESS, mk_rkl (solid_begin r) (solid_end r) (list_length r) limit (Some ptr) (inplace r))
        end
    | Some b =>
        match osal_realloc al b bytes with
        | None => Some (MDBX_ENOMEM, r)
        | Some ptr =>
            let limit := u32 (rkl_bytes2size (8 * zlen ptr)) in
            Some (MDBX_SUCCESS, mk_rkl (solid_begin r) (solid_end r) (list_length r) limit (Some ptr) (inplace r))
        end
    end
  else Some (MDBX_SUCCESS, r).

Definition rkl_reserve (al : allocator) (r : rkl) (wanna_size : Z) : option (rc * rkl) :=
  if list_limit r <? wanna_size then rkl_resize al r wanna_size else Some (MDBX_SUCCESS, r).

Definition rkl_copy (al : allocator) (src dst : rkl) : option (rc * rkl) :=
  let dst := rkl_init dst in
  if negb (rkl_empty src) then
    '(err, dst) ← (if list_limit dst <? list_length src then rkl_resize al dst (list_limit src)
                   else Some (MDBX_SUCCESS, dst));
    if decide (err <> MDBX_SUCCESS) then Some (err, dst)
    else
      b ← blit (rkl_list src) 0 (rkl_list dst) 0 (list_length src);
      Some (MDBX_SUCCESS, with_solid (with_length (with_list dst b) (list_length src)) (solid_begin src) (solid_end src))
  else Some (MDBX_SUCCESS, dst).

(** [do list[i] = list[i + 1]; while (++i < length);] *)
Fixpoint remove_first_loop (fuel : nat) (b : list Z) (i length : Z) : option (list Z) :=
  match fuel with
  | O => None
  | S fuel =>
      x ← zget b (i + 1);
      b ← zset b i x;
      if i + 1 <? length then remove_first_loop fuel b (i + 1) length else Some b
  end.

Definition list_remove_first (r : rkl) : option (rkl * Z) :=
  first ← zget (rkl_list r) 0;
  let r := with_length r (list_length r - 1) in
  if negb (list_length r =? 0) then
    b ← remove_first_loop (Z.to_nat (list_length r)) (rkl_list r) 0 (list_length r);
    Some (with_list r b, first)
  else Some (r, first).

Definition after_cut (r : rkl) : rkl :=
  if (list_length r =? 0) && (solid_begin r =? solid_end r)
  then with_solid r UINT64_MAX 0 else r.

(** The new state and the id. *)
Definition rkl_pop (r : rkl) (highest_not_lowest : bool) : option (rkl * Z) :=
  let solid :=
    if negb (solid_empty r) then
      if highest_not_lowest
      then let e := solid_end r - 1 in Some (after_cut (with_solid r (solid_begin r) e), e)
      else Some (after_cut (with_solid r (solid_begin r + 1) (solid_end r)), solid_begin r)
    else Some (r, 0) in
  if negb (list_length r =? 0) then
    if highest_not_lowest then
      last ← zget (rkl_list r) (list_length r - 1);
      if solid_empty r || (solid_end r <? last)
      then Some (after_cut (with_length r (list_length r - 1)), last)
      else solid
    else
      first ← zget (rkl_list r) 0;
      if solid_empty r || (first <? solid_begin r)
      then '(r, out) ← list_remove_first r; Some (after_cut r, out)
      else solid
  else solid.

Definition rkl_lowest (r : rkl) : option Z :=
  if negb (list_length r =? 0) then
    first ← zget (rkl_list r) 0;
    Some (if solid_empty r || (first <? solid_begin r) then first else solid_begin r)
  else Some (if negb (solid_empty r) then solid_begin r else INVALID_TXNID).

Definition rkl_highest (r : rkl) : option Z :=
  if negb (list_length r =? 0) then
    last ← zget (rkl_list r) (list_length r - 1);
    Some (if solid_empty r || (solid_end r <=? last) then last else solid_end r - 1)
  else Some (if negb (solid_empty r) then solid_end r - 1 else 0).

Section Cmov.
Context (have_cmov : bool).

Definition rkl_bsearch (b : list Z) (length id : Z) : option Z := search_impl RKL_ORDERED have_cmov b 0 length id.

Definition rkl_contain (r : rkl) (id : Z) : option bool :=
if (solid_begin r <=? id) && (id <? solid_end r) then Some true
else if negb (list_length r =? 0) then
  it ← rkl_bsearch (rkl_list r) (list_length r) id;
  if negb (it =? list_length r) then x ← zget (rkl_list r) it; Some (x =? id) else Some false
else Some false.

(** ** Adding an id *)

(** [while (f > list && f[-1] >= solid_begin - 1) ...]; [None] inside of the
    result is the return of [MDBX_RESULT_TRUE]. *)
Fixpoint extend_head (fuel : nat) (b : list Z) (f sb : Z) : option (option (Z * Z)) :=
match fuel with
| O => None
| S fuel =>
    if 0 <? f then
      x ← zget b (f - 1);
      if u64 (sb - 1) <=? x then
        let sb := u64 (sb - 1) in
        if negb (x =? sb) then Some None else extend_head fuel b (f - 1) sb
      else Some (Some (f, sb))
    else Some (Some (f, sb))
end.

(** [while (t < end && *t <= solid_end) ...] *)
Fixpoint extend_tail (fuel : nat) (b : list Z) (t end_ se : Z) : option (option (Z * Z)) :=
match fuel with
| O => None
| S fuel =>
    if t <? end_ then
      x ← zget b t;
      if x <=? se then
        if negb (x =? se) then Some None else extend_tail fuel b (t + 1) end_ (u64 (se + 1))
      else Some (Some (t, se))
    else Some (Some (t, se))
end.

(** [while (t < end) *f++ = *t++;] *)
Fixpoint move_down (fuel : nat) (b : list Z) (f t end_ : Z) : option (list Z) :=
match fuel with
| O => None
| S fuel =>
    if t <? end_ then x ← zget b t; b ← zset b f x; move_down fuel b (f + 1) (t + 1) end_
    else Some b
end.

Definition extend_solid (r : rkl) (sb se id : Z) : option (rc * rkl) :=
if negb (list_length r =? 0) then
  i ← rkl_bsearch (rkl_list r) (list_length r) id;
  let end_ := list_length r in
  head ← extend_head (S (Z.to_nat i)) (rkl_list r) i sb;
  match head with
  | None => Some (MDBX_RESULT_TRUE, r)
  | Some (f, sb) =>
      tail ← extend_tail (S (Z.to_nat (end_ - i))) (rkl_list r) i end_ se;
      match tail with
      | None => Some (MDBX_RESULT_TRUE, r)
      | Some (t, se) =>
          r ← (if f <? t then
                 let r := with_length r (list_length r - (t - f)) in
                 b ← move_down (S (Z.to_nat (end_ - t))) (rkl_list r) f t end_;
                 Some (with_list r b)
               else Some r);
          Some (MDBX_SUCCESS, with_solid r sb se)
      end
  end
else Some (MDBX_SUCCESS, with_solid r sb se).

(** The search for the place of insertion, from the end, which moves the
    elements on the way. [inl] is the place, [inr] the restored list when the
    id is present. *)
Fixpoint push_restore (fuel : nat) (b : list Z) (i length : Z) : option (list Z) :=
match fuel with
| O => None
| S fuel =>
    if i <? length then x ← zget b (i + 1); b ← zset b i x; push_restore fuel b (i + 1) length
    else Some b
end.

Fixpoint push_place (fuel : nat) (b : list Z) (i length id : Z) : option (list Z * Z + list Z) :=
match fuel with
| O => None
| S fuel =>
    if 0 <? i then
      x ← zget b (i - 1);
      if RKL_ORDERED id x then b ← zset b i x; push_place fuel b (i - 1) length id
      else if id =? x then
        b ← push_restore (S (Z.to_nat (length - i))) b i length;
        Some (inr b)
      else Some (inl (b, i))
    else Some (inl (b, i))
end.

(** The run of consecutive ids around the place of insertion. *)
Fixpoint swap_from (fuel : nat) (b : list Z) (from nsb : Z) : option (Z * Z) :=
match fuel with
| O => None
| S fuel =>
    if 0 <? from then
      x ← zget b (from - 1);
      if x =? u64 (nsb - 1) then swap_from fuel b (from - 1) (u64 (nsb - 1)) else Some (from, nsb)
    else Some (from, nsb)
end.

Fixpoint swap_to (fuel : nat) (b : list Z) (to length nse : Z) : option (Z * Z) :=
match fuel with
| O => None
| S fuel =>
    if to <? length then
      x ← zget b to;
      if x =? nse then swap_to fuel b (to + 1) length (u64 (nse + 1)) else Some (to, nse)
    else Some (to, nse)
end.

(** [do { from -= 1; list[from + len] = list[from]; } while (from > pos);] *)
Fixpoint swap_spread (fuel : nat) (b : list Z) (from len pos : Z) : option (list Z * Z) :=
match fuel with
| O => None
| S fuel =>
    let from := from - 1 in
    x ← zget b from;
    b ← zset b (from + len) x;
    if pos <? from then swap_spread fuel b from len pos else Some (b, from)
end.

(** [do list[from++] = list[to++]; while (from < limit);] *)
Fixpoint swap_pull (fuel : nat) (b : list Z) (from to limit : Z) : option (list Z * Z * Z) :=
match fuel with
| O => None
| S fuel =>
    x ← zget b to;
    b ← zset b from x;
    if from + 1 <? limit then swap_pull fuel b (from + 1) (to + 1) limit else Some (b, from + 1, to + 1)
end.

(** [do list[from++] = solid_begin + i++; while (i != len);] *)
Fixpoint swap_fill (fuel : nat) (b : list Z) (from sb i len : Z) : option (list Z * Z) :=
match fuel with
| O => None
| S fuel =>
    b ← zset b from (u64 (sb + i));
    if negb (i + 1 =? len) then swap_fill fuel b (from + 1) sb (i + 1) len else Some (b, from + 1)
end.

(** The exchange of the solid interval with the run [from .. to - 1] of the
    list. *)
Definition rkl_swap (r : rkl) (from to nsb nse : Z) (old_solid_pos old_solid_len : Z) : option rkl :=
let new_solid_len := to - from in
let b := rkl_list r in
'(b, from, to, moved) ←
  (if old_solid_pos <? from then
     let moved := from - old_solid_pos in
     '(b, from) ← swap_spread (Z.to_nat moved) b from old_solid_len old_solid_pos;
     Some (b, from, to, moved)
   else if from + new_solid_len <? old_solid_pos then
     '(b, from, to) ← swap_pull (Z.to_nat (list_length r)) b from to (old_solid_pos - new_solid_len);
     Some (b, from, to, 0)
   else Some (b, from, to, 0));
'(b, from) ← swap_fill (Z.to_nat old_solid_len) b from (solid_begin r) 0 old_solid_len;
b ← move_down (S (Z.to_nat (list_length r))) b (moved + from) to (list_length r);
Some (with_solid (with_length (with_list r b) (list_length r - new_solid_len + old_solid_len)) nsb nse).

(** What follows the insertion of [id] at the position [i]. *)
Definition push_swap (r : rkl) (i id : Z) : option rkl :=
if 16 <? list_length r then
  low ← (if 0 <? i then x ← zget (rkl_list r) (i - 1); Some (x =? u64 (id - 1)) else Some false);
  high ← (if (low : bool) then Some true
          else if i + 1 <? list_length r then x ← zget (rkl_list r) (i + 1); Some (x =? u64 (id + 1)) else Some false);
  if (high : bool) then
    '(from, nsb) ← swap_from (S (Z.to_nat i)) (rkl_list r) i id;
    '(to, nse) ← swap_to (S (Z.to_nat (list_length r))) (rkl_list r) (i + 1) (list_length r) (u64 (id + 1));
    let new_solid_len := to - from in
    if 3 <? new_solid_len then
      let old_solid_len := u64 (solid_end r - solid_begin r) in
      if old_solid_len <? new_solid_len then
        old_solid_pos ← rkl_bsearch (rkl_list r) (list_length r) (solid_begin r);
        let swap_cost := list_length r - to + (if old_solid_pos <? from then from - old_solid_pos else 0) + old_solid_len in
        let new_insert_cost := list_length r - i in
        if swap_cost <? new_insert_cost then rkl_swap r from to nsb nse old_solid_pos old_solid_len
        else Some r
      else Some r
    else Some r
  else Some r
else Some r.

(** Room for one more element: the buffer is doubled when it is full. *)
Definition push_grow (al : allocator) (r : rkl) : option (rc * rkl) :=
if list_length r =? list_limit r then
  let x2 := u32 (Z.shiftl (u32 (list_limit r + 1)) 1) in
  let x2 := if 62 <? x2 then x2 else 62 in
  let x2 := if x2 <? txl_max then x2 else txl_max in
  let x2 := if list_length r <? x2 then x2 else u32 (list_length r + 42) in
  rkl_resize al r x2
else Some (MDBX_SUCCESS, r).

(** The insertion into the list. *)
Definition push_list (al : allocator) (r : rkl) (id : Z) : option (rc * rkl) :=
'(err, r) ← push_grow al r;
if decide (err <> MDBX_SUCCESS) then Some (err, r)
else
  place ← push_place (S (Z.to_nat (list_length r))) (rkl_list r) (list_length r) (list_length r) id;
  match place with
  | inr b => Some (MDBX_RESULT_TRUE, with_list r b)
  | inl (b, i) =>
      b ← zset b i id;
      let r := with_length (with_list r b) (list_length r + 1) in
      r ← push_swap r i id;
      Some (MDBX_SUCCESS, r)
  end.

Definition rkl_push (al : allocator) (r : rkl) (id : Z) : option (rc * rkl) :=
let insert :=
  couple ←
    (if (list_length r =? 1) && (solid_end r =? u64 (solid_begin r + 1)) then
       x ← zget (rkl_list r) 0;
       Some (if (x =? u64 (id + 1)) || (x =? u64 (id - 1))
             then Some (if x =? u64 (id - 1) then u64 (id - 1) else id) else None)
     else Some None);
  match couple with
  | Some couple =>
      r' ← rkl_put r 0 (solid_begin r);
      Some (MDBX_SUCCESS, with_solid r' couple (u64 (couple + 2)))
  | None => push_list al r id
  end in
if solid_end r <=? solid_begin r then extend_solid r id (u64 (id + 1)) id
else if id <? solid_begin r then
  if u64 (id + 1) =? solid_begin r then extend_solid r id (solid_end r) id else insert
else if solid_end r <=? id then
  if id =? solid_end r then extend_solid r (solid_begin r) (u64 (id + 1)) id else insert
else Some (MDBX_RESULT_TRUE, r).

(** ** Merging two sets *)

(** Whether [rkl_merge] stops on the result of a push. *)
Definition merge_stop (ignore_duplicates : bool) (err : rc) : bool :=
if decide (err = MDBX_SUCCESS) then false
else negb ignore_duplicates || (if decide (err = MDBX_RESULT_TRUE) then false else true).

Fixpoint merge_list_loop (al : allocator) (i : nat) (src : list Z) (dst : rkl) (ignore_duplicates : bool) : option (rc * rkl) :=
match i with
| O => Some (MDBX_SUCCESS, dst)
| S i =>
    x ← zget src (Z.of_nat i);
    '(err, dst) ← rkl_push al dst x;
    if merge_stop ignore_duplicates err then Some (err, dst)
    else merge_list_loop al i src dst ignore_duplicates
end.

Fixpoint merge_solid_loop (al : allocator) (n : nat) (id : Z) (dst : rkl) (ignore_duplicates : bool) : option (rc * rkl) :=
match n with
| O => Some (MDBX_SUCCESS, dst)
| S n =>
    '(err, dst) ← rkl_push al dst id;
    if merge_stop ignore_duplicates err then Some (err, dst)
    else merge_solid_loop al n (id + 1) dst ignore_duplicates
end.

Definition rkl_merge (al : allocator) (src dst : rkl) (ignore_duplicates : bool) : option (rc * rkl) :=
'(err, dst) ← merge_list_loop al (Z.to_nat (list_length src)) (rkl_list src) dst ignore_duplicates;
if decide (err <> MDBX_SUCCESS) then Some (err, dst)
else merge_solid_loop al (Z.to_nat (solid_end src - solid_begin src)) (solid_begin src) dst ignore_duplicates.

(** [*src] is destroyed: it is not a value of the result. *)
Definition rkl_destructive_merge (al : allocator) (src dst : rkl) (ignore_duplicates : bool) : option (rc * rkl) :=
rkl_merge al src dst ignore_duplicates.

(** ** Iteration *)

(** The iterator without its pointer to the [rkl_t], which is an argument of
    the operations. *)
Record rkl_iter : Type := mk_iter { pos : Z; solid_offset : Z }.

Definition rkl_iterator (r : rkl) (reverse : bool) : option rkl_iter :=
let p := if reverse then u32 (rkl_len r) else 0 in
if negb (solid_empty r) && negb (list_length r =? 0) then
  it ← rkl_bsearch (rkl_list r) (list_length r) (solid_begin r);
  Some (mk_iter p (u32 it))
else Some (mk_iter p 0).

Definition rkl_find (r : rkl) (id : Z) : option (bool * rkl_iter) :=
iter ← rkl_iterator r false;
if (solid_begin r <=? id) && (id <? solid_end r) then
  Some (true, mk_iter (u32 (solid_offset iter + u32 (id - solid_begin r))) (solid_offset iter))
else
  let p := if solid_begin r <=? id then u32 (solid_end r - solid_begin r) else pos iter in
  if negb (list_length r =? 0) then
    it ← rkl_bsearch (rkl_list r) (list_length r) id;
    let iter := mk_iter (u32 (p + u32 it)) (solid_offset iter) in
    if negb (it =? list_length r) then x ← zget (rkl_list r) it; Some (x =? id, iter)
    else Some (false, iter)
  else Some (false, mk_iter p (solid_offset iter)).
End Cmov.

Definition rkl_turn (r : rkl) (iter : rkl_iter) (reverse : bool) : option (rkl_iter * Z) :=
  let p := u32 (pos iter - (if reverse then 1 else 0)) in
  if rkl_len r <=? p then Some (iter, 0)
  else
    let iter' := mk_iter (u32 (p + (if reverse then 0 else 1))) (solid_offset iter) in
    let solid_len := u64 (solid_end r - solid_begin r) in
    if negb (list_length r =? 0) then
      if p <? solid_offset iter then x ← zget (rkl_list r) p; Some (iter', x)
      else if p <? solid_offset iter + solid_len
      then Some (iter', u64 (solid_begin r + p - solid_offset iter))
      else x ← zget (rkl_list r) (p - solid_len); Some (iter', x)
    else Some (iter', u64 (solid_begin r + p)).

Definition rkl_left (r : rkl) (iter : rkl_iter) (reverse : bool) : Z :=
  if reverse then pos iter else u64 (rkl_len r - pos iter).

Record rkl_hole_t : Type := mk_hole { hole_begin : Z; hole_end : Z }.

(** The search loop of [rkl_hole], with the new position of the iterator. *)
Fixpoint hole_loop (fuel : nat) (r : rkl) (so len solid_len p : Z) (reverse : bool) : option (rkl_hole_t * Z) :=
  match fuel with
  | O => None
  | S fuel =>
      let at_end here :=
        Some (if reverse then (mk_hole 1 here, 0) else (mk_hole (u64 (here + 1)) MAX_TXNID, len)) in
      let gap here there next :=
        let hb := u64 ((if reverse then there else here) + 1) in
        let he := if reverse then here else there in
        if hb <? he then Some (mk_hole hb he, next) else hole_loop fuel r so len solid_len next reverse in
      let next := if reverse then u64 (p - 1) else u64 (p + 1) in
      if p <? so then
        here ← zget (rkl_list r) p;
        if next =? so then Some (mk_hole (u64 (here + 1)) (solid_begin r), next + solid_len - 1)
        else if len <=? next then at_end here
        else there ← zget (rkl_list r) next; gap here there next
      else if so + solid_len <=? p then
        here ← (if p <? len then zget (rkl_list r) (p - solid_len) else Some MAX_TXNID);
        if len <=? next then at_end here
        else if next =? u64 (so + solid_len - 1) then Some (mk_hole (solid_end r) here, so)
        else there ← zget (rkl_list r) (u64 (next - solid_len)); gap here there next
      else if reverse then
        let next := u32 (so - 1) in
        let here := solid_begin r in
        if len <=? next then at_end here
        else there ← zget (rkl_list r) next; gap here there next
      else
        let next := so + solid_len in
        let here := u64 (solid_end r - 1) in
        if len <=? next then at_end here
        else there ← zget (rkl_list r) (next - solid_len); gap here there next
  end.

Definition rkl_hole (r : rkl) (iter : rkl_iter) (reverse : bool) : option (rkl_hole_t * rkl_iter) :=
  let len := rkl_len r in
  let p := pos iter in
  let ret hole newpos := Some (hole, mk_iter (u32 newpos) (solid_offset iter)) in
  if (len <=? p) && (len =? 0) then ret (mk_hole 1 MAX_TXNID) 0
  else if (len <=? p) && negb ((p =? len) && reverse) then
    if reverse then ret (mk_hole 1 1) 0 else ret (mk_hole MAX_TXNID MAX_TXNID) len
  else
    let solid_len := u64 (solid_end r - solid_begin r) in
    if negb (list_length r =? 0) then
      '(hole, newpos) ← hole_loop (S (S (Z.to_nat len))) r (solid_offset iter) len solid_len p reverse;
      ret hole newpos
    else
      let newpos := if reverse then 0 else len in
      if reverse && (p <? len) then ret (mk_hole 1 (solid_begin r)) newpos
      else ret (mk_hole (solid_end r) MAX_TXNID) newpos.

(** ** The check *)

Fixpoint check_ordered (fuel : nat) (b : list Z) (i length : Z) : option bool :=
  match fuel with
  | O => None
  | S fuel =>
      if i <? length then
        x ← zget b (i - 1);
        y ← zget b i;
        if negb (RKL_ORDERED x y) then Some false else check_ordered fuel b (i + 1) length
      else Some true
  end.

Definition rkl_check (have_cmov : bool) (r : rkl) : option bool :=
  if (match heap r with None => true | Some _ => false end) && negb (list_limit r =? inplace_length) then Some false
  else if list_limit r <? inplace_length then Some false
  else if rkl_empty r then Some ((list_length r =? 0) && solid_empty r)
  else if negb (list_length r =? 0) then
    ok ← check_ordered (S (Z.to_nat (list_length r))) (rkl_list r) 1 (list_length r);
    if negb (ok : bool) then Some false
    else
      last ← zget (rkl_list r) (list_length r - 1);
      first ← zget (rkl_list r) 0;
      if negb (solid_empty r) && (u64 (solid_begin r - 1) <=? last) && (first <=? solid_end r) then
        it ← rkl_bsearch have_cmov (rkl_list r) (list_length r) (solid_begin r);
        low ← (if 0 <? it then x ← zget (rkl_list r) (it - 1); Some (solid_begin r <=? x) else Some false);
        if (low : bool) then Some false
        else
          high ← (if it <? list_length r then x ← zget (rkl_list r) it; Some (x <=? solid_end r) else Some false);
          Some (negb high)
      else Some true
  else Some true.
