(* ===== verification/RklProofs.v ===== *)
(** * Sets of transaction ids: the operations of [Rkl] implement a set

    [rkl_ok r L] is the invariant of the structure, with [L] the list part;
    [rkl_mem] is the set it stands for and [rkl_ids] its elements in
    ascending order. *)

From stdpp Require Import base list numbers option sorting.
From Stdlib Require Import ZArith Lia.
From S2P Require Import Prelude Search Bits Alloc Pnl Rkl.

Definition asc : list Z -> Prop := StronglySorted (fun x y => x < y).

Record rkl_ok (r : rkl) (L : list Z) : Prop := {
  ok_list : exists junk, rkl_list r = L ++ junk;
  ok_len : list_length r = zlen L;
  ok_room : list_length r <= list_limit r <= zlen (rkl_list r);
  ok_width : list_limit r < 2 ^ 30;
  ok_inplace : zlen (inplace r) = inplace_length;
  ok_limit : inplace_length <= list_limit r;
  ok_inplace_limit : heap r = None -> list_limit r = inplace_length;
  ok_asc : asc L;
  ok_ids : Forall (fun x => MIN_TXNID <= x < INVALID_TXNID) L;
  ok_solid :
    (L = [] /\ solid_begin r = UINT64_MAX /\ solid_end r = 0) \/
    (MIN_TXNID <= solid_begin r <= solid_end r /\ solid_end r <= INVALID_TXNID /\
     (solid_begin r = solid_end r -> L <> []) /\
     (solid_begin r < solid_end r -> forall x, x ∈ L -> x + 1 < solid_begin r \/ solid_end r < x));
}.

(** The set. *)
Definition rkl_mem (r : rkl) (L : list Z) (x : Z) : Prop := solid_begin r <= x < solid_end r \/ x ∈ L.

(** Its elements, ascending. *)
Definition rkl_ids (r : rkl) (L : list Z) : list Z :=
  filter (fun x => x < solid_begin r) L ++ seqZ (solid_begin r) (solid_end r - solid_begin r) ++
  filter (fun x => ~ x < solid_begin r) L.

Ltac uids := unfold MIN_TXNID, INVALID_TXNID, UINT64_MAX in *.

(** ** Ascending lists *)

Lemma asc_app_iff a b : asc (a ++ b) <-> asc a /\ asc b /\ (forall x y, x ∈ a -> y ∈ b -> x < y).
Proof. apply StronglySorted_app_iff. Qed.

Lemma asc_cons_iff x l : asc (x :: l) <-> asc l /\ (forall y, y ∈ l -> x < y).
Proof.
  split.
  - intros H. inversion H as [|?? Hs Hall]; subst. rewrite Forall_forall in Hall. auto.
  - intros [H1 H2]. constructor; [done|]. by apply Forall_forall.
Qed.

Lemma asc_snoc_iff x l : asc (l ++ [x]) <-> asc l /\ (forall y, y ∈ l -> y < x).
Proof.
  rewrite asc_app_iff. split.
  - intros (H & _ & Hx). split; [done|]. intros y Hy. by apply Hx; [|constructor].
  - intros [H Hx]. split_and!; [done|repeat constructor|]. intros y z Hy Hz%list_elem_of_singleton. subst z. auto.
Qed.

Lemma rkl_bsearch_spec cm L junk id : asc L -> (cm = true -> 0 < zlen (L ++ junk)) ->
  exists A B, L = A ++ B /\ (forall x, x ∈ A -> x < id) /\ (forall x, x ∈ B -> id <= x) /\
    rkl_bsearch cm (L ++ junk) (zlen L) id = Some (zlen A).
Proof.
  intros Hs Hcm. unfold rkl_bsearch. zlen_pos.
  destruct (search_impl_spec RKL_ORDERED cm (L ++ junk) 0 (zlen L) id) as (r & -> & Hr & Hlt & Hge);
    [lia|lia|zlia|done| |].
  { intros i j x y Hij Hj. rewrite !zget_app_l by lia. intros Hx Hy. unfold RKL_ORDERED.
    unfold asc in Hs. rewrite StronglySorted_zget in Hs. specialize (Hs i j x y ltac:(lia) Hx Hy). lia. }
  destruct (zsplit L r) as (A & B & -> & HA); [lia|]. exists A, B. split_and!; [done| | |by f_equal].
  - intros x (i & Hi & Hx)%elem_zget. specialize (Hlt i x ltac:(lia)).
    rewrite !zget_app_l in Hlt by zlia. unfold RKL_ORDERED in Hlt. specialize (Hlt Hx). lia.
  - intros x (i & Hi & Hx)%elem_zget. specialize (Hge (zlen A + i) x). autorewrite with zlen in *.
    rewrite (zget_app_l (A ++ B)), (zget_app_skip _ _ _ i) in Hge by zlia.
    specialize (Hge ltac:(lia) Hx). unfold RKL_ORDERED in Hge. lia.
Qed.

(** ** Changing parts of the structure *)

Lemma rkl_list_with_list r b : rkl_list (with_list r b) = b.
Proof. unfold with_list, rkl_list. by destruct (heap r). Qed.

Lemma rkl_ok_buffer r L : rkl_ok r L -> exists junk, rkl_list r = L ++ junk /\ list_length r = zlen L /\
  0 < zlen (rkl_list r) /\ zlen L < 2 ^ 30.
Proof.
  intros [[junk Hj] Hlen Hroom Hw Hin Hlim Hinl _ _ _]. exists junk. unfold inplace_length in *.
  split_and!; [done|done|lia|lia].
Qed.

(** A new list of no more than [list_limit] elements and a new interval. *)
Lemma rkl_ok_update r L L' junk' sb se : rkl_ok r L ->
  zlen (L' ++ junk') = zlen (rkl_list r) -> zlen L' <= list_limit r ->
  asc L' -> Forall (fun x => MIN_TXNID <= x < INVALID_TXNID) L' ->
  MIN_TXNID <= sb <= se -> se <= INVALID_TXNID -> (sb = se -> L' <> []) ->
  (sb < se -> forall x, x ∈ L' -> x + 1 < sb \/ se < x) ->
  rkl_ok (with_solid (with_length (with_list r (L' ++ junk')) (zlen L')) sb se) L'.
Proof.
  intros [_ Hlen Hroom Hw Hin Hlim Hinl _ _ _] Hz Hle Hasc Hids H1 H2 H3 H4.
  assert (forall b, zlen b = zlen (rkl_list r) -> zlen (inplace (with_list r b)) = inplace_length) as Hi.
  { intros b Hb. unfold with_list, rkl_list in *. destruct (heap r); cbn; [done|congruence]. }
  assert (forall b, heap (with_list r b) = None -> heap r = None) as Hh.
  { intros b. unfold with_list. by destruct (heap r). }
  assert (forall b, list_limit (with_list r b) = list_limit r) as Hll.
  { intros b. unfold with_list. by destruct (heap r). }
  assert (forall b n x y, rkl_list (with_solid (with_length (with_list r b) n) x y) = b) as Hrl.
  { intros b n x y. rewrite <- (rkl_list_with_list r b) at 2. done. }
  split; rewrite ?Hrl; cbn; rewrite ?Hll; try done; try lia.
  - by exists junk'.
  - by apply Hi.
  - intros Hn. by apply Hinl, (Hh (L' ++ junk')).
  - right. done.
Qed.

Lemma with_solid_id r : with_solid r (solid_begin r) (solid_end r) = r.
Proof. by destruct r. Qed.

Lemma with_length_id r : with_length r (list_length r) = r.
Proof. by destruct r. Qed.

Lemma with_list_id r : with_list r (rkl_list r) = r.
Proof. destruct r as [? ? ? ? [b|] ?]; done. Qed.

(** ** Extending the interval *)

(** The loop over the tail of [A] takes the ids that continue the interval
    downwards. *)
Lemma extend_head_spec : forall A rest sb (fuel : nat), asc A -> (length A < fuel)%nat ->
  MIN_TXNID <= sb <= INVALID_TXNID -> (forall x, x ∈ A -> MIN_TXNID <= x < sb) ->
  exists A1 sb', A = A1 ++ seqZ sb' (sb - sb') /\ MIN_TXNID <= sb' <= sb /\
    (forall x, x ∈ A1 -> x + 1 < sb') /\
    extend_head fuel (A ++ rest) (zlen A) sb = Some (Some (zlen A1, sb')).
Proof.
  induction A as [|x A IH] using rev_ind; intros rest sb fuel Ha Hf Hsb Hlow; (destruct fuel as [|fuel]; [lia|]);
    cbn [extend_head].
  { exists [], sb. rewrite Z.sub_diag. split_and!; [done|lia..| |done]. by intros x ?%elem_of_nil. }
  destruct (Z.ltb_spec 0 (zlen (A ++ [x]))); [|zlia].
  rewrite <- app_assoc. cbn [app]. rewrite zget_app_mid by zlia. cbn [mbind option_bind].
  pose proof (Hlow x ltac:(apply elem_of_app; right; constructor)) as Hx. uids.
  rewrite u64_small by (unfold UINT64_MAX; lia).
  apply asc_snoc_iff in Ha as [Ha Hax].
  destruct (Z.leb_spec (sb - 1) x).
  - assert (x = sb - 1) as -> by lia. rewrite Z.eqb_refl. cbn [negb].
    destruct (IH ((sb - 1) :: rest) (sb - 1) fuel) as (A1 & sb' & -> & Hsb' & HA1 & E).
    + done.
    + rewrite length_app in Hf. cbn in Hf. lia.
    + lia.
    + intros y Hy. specialize (Hlow y ltac:(apply elem_of_app; by left)). specialize (Hax y Hy). lia.
    + exists A1, sb'. split_and!; [|lia..|done|].
      * rewrite <- app_assoc. f_equal.
        replace (sb - sb') with ((sb - 1 - sb') + 1) by lia. rewrite seqZ_app by lia.
        f_equal. cbn. replace (sb' + (sb - 1 - sb')) with (sb - 1) by lia. done.
      * rewrite <- E. f_equal. zlia.
  - exists (A ++ [x]), sb. rewrite Z.sub_diag, app_nil_r. split_and!; [done|lia..| |done].
    intros y [Hy|Hy%list_elem_of_singleton]%elem_of_app; [|lia]. specialize (Hax y Hy). lia.
Qed.

Lemma extend_tail_spec : forall B A rest se (fuel : nat), asc B -> (length B < fuel)%nat ->
  se <= INVALID_TXNID -> 0 <= se -> (forall x, x ∈ B -> se <= x < INVALID_TXNID) ->
  exists B2 se', B = seqZ se (se' - se) ++ B2 /\ se <= se' <= INVALID_TXNID /\
    (forall x, x ∈ B2 -> se' < x) /\
    extend_tail fuel (A ++ B ++ rest) (zlen A) (zlen A + zlen B) se = Some (Some (zlen A + (se' - se), se')).
Proof.
  induction B as [|x B IH]; intros A rest se fuel Hb Hf Hse Hse0 Hhigh; (destruct fuel as [|fuel]; [cbn in Hf; lia|]);
    cbn [extend_tail].
  { exists [], se. rewrite Z.sub_diag. split_and!; [done|lia..|by intros x ?%elem_of_nil|].
    zcase; [zlia|]. by rewrite Z.add_0_r. }
  zcase; [|zlia]. cbn [app]. rewrite zget_app_mid by done. cbn [mbind option_bind].
  pose proof (Hhigh x ltac:(constructor)) as Hx. apply asc_cons_iff in Hb as [Hb Hxb].
  destruct (Z.leb_spec x se).
  - assert (x = se) as -> by lia. rewrite Z.eqb_refl. cbn [negb].
    rewrite u64_small by (uids; lia).
    destruct (IH (A ++ [se]) rest (se + 1) fuel) as (B2 & se' & -> & Hse' & HB2 & E).
    + done.
    + cbn in Hf. lia.
    + lia.
    + lia.
    + intros y Hy. specialize (Hhigh y ltac:(by constructor)). specialize (Hxb y Hy). lia.
    + exists B2, se'. split_and!; [|lia..|done|].
      * rewrite (seqZ_cons se) by lia. cbn. do 2 f_equal. f_equal; lia.
      * rewrite <- app_assoc in E. cbn [app] in E. rewrite zlen_snoc in E.
        rewrite zlen_cons. replace (zlen A + (zlen (seqZ (se + 1) (se' - (se + 1)) ++ B2) + 1))
          with (zlen A + 1 + zlen (seqZ (se + 1) (se' - (se + 1)) ++ B2)) by lia.
        rewrite E. do 3 f_equal. lia.
  - exists (x :: B), se. rewrite Z.sub_diag, Z.add_0_r. split_and!; [done|lia..| |done].
    intros y [->|Hy]%elem_of_cons; [lia|]. specialize (Hxb y Hy). lia.
Qed.

Lemma move_down_spec : forall T P G R (fuel : nat), (length T < fuel)%nat ->
  exists G', zlen G' = zlen G /\
    move_down fuel (P ++ G ++ T ++ R) (zlen P) (zlen P + zlen G) (zlen P + zlen G + zlen T) = Some (P ++ T ++ G' ++ R).
Proof.
  induction T as [|x T IH]; intros P G R fuel Hf; (destruct fuel as [|fuel]; [cbn in Hf; lia|]); cbn [move_down].
  { exists G. split; [done|]. zcase; [zlia|done]. }
  zcase; [|zlia]. cbn [app].
  assert (zget (P ++ G ++ x :: T ++ R) (zlen P + zlen G) = Some x) as ->.
  { rewrite app_assoc. apply zget_app_mid. zlia. }
  cbn [mbind option_bind]. destruct (zmove_down P G x (T ++ R)) as (G1 & HG & ->). cbn [mbind option_bind].
  destruct (IH (P ++ [x]) G1 R fuel) as (G' & HG' & E); [cbn in Hf; lia|].
  exists G'. split; [lia|].
  replace (zlen P + zlen G + zlen (x :: T)) with (zlen (P ++ [x]) + zlen G1 + zlen T) by zlia.
  replace (zlen P + 1) with (zlen (P ++ [x])) by zlia.
  replace (zlen P + zlen G + 1) with (zlen (P ++ [x]) + zlen G1) by zlia.
  rewrite E. by rewrite <- app_assoc.
Qed.

Lemma zlen_seqZ a n : 0 <= n -> zlen (seqZ a n) = n.
Proof. intros H. unfold zlen. rewrite length_seqZ. lia. Qed.

(** The element [id] of the list lies inside of the interval. *)
Lemma extend_tail_dup id B A rest se (fuel : nat) : (0 < fuel)%nat -> id < se ->
  extend_tail fuel (A ++ (id :: B) ++ rest) (zlen A) (zlen A + zlen (id :: B)) se = Some None.
Proof.
  intros Hf Hse. destruct fuel as [|fuel]; [lia|]. cbn [extend_tail].
  zcase; [|zlia]. cbn [app]. rewrite zget_app_mid by done. cbn [mbind option_bind].
  destruct (Z.leb_spec id se); [|lia]. by destruct (Z.eqb_spec id se); [lia|].
Qed.

(** The list without the elements that the interval absorbed. *)
Lemma extend_solid_ok r L A1 B2 sb sb' se se' junk : rkl_ok r L -> rkl_list r = L ++ junk ->
  L = (A1 ++ seqZ sb' (sb - sb')) ++ seqZ se (se' - se) ++ B2 ->
  MIN_TXNID <= sb' <= sb -> sb < se -> se <= se' <= INVALID_TXNID ->
  (forall x, x ∈ A1 -> x + 1 < sb') -> (forall x, x ∈ B2 -> se' < x) ->
  exists r', (r ← (if zlen A1 <? zlen A1 + (sb - sb') + (se' - se) then
       let r := with_length r (zlen L - (zlen A1 + (sb - sb') + (se' - se) - zlen A1)) in
       b ← move_down (S (Z.to_nat (zlen L - (zlen A1 + (sb - sb') + (se' - se))))) (rkl_list r) (zlen A1)
             (zlen A1 + (sb - sb') + (se' - se)) (zlen L);
       Some (with_list r b)
     else Some r); Some (MDBX_SUCCESS, with_solid r sb' se')) = Some (MDBX_SUCCESS, r') /\
    rkl_ok r' (A1 ++ B2) /\
    (forall x, rkl_mem r' (A1 ++ B2) x <-> sb <= x < se \/ x ∈ L).
Proof.
  intros Hok Hj EL Hsb' Hlt Hse' HA1 HB2. pose proof (ok_len r L Hok) as Hlen.
  assert (asc (A1 ++ B2)) as Hasc.
  { pose proof (ok_asc r L Hok) as H. rewrite EL, !asc_app_iff in H. destruct H as ((Ha & _ & _) & (_ & Hb & _) & _).
    apply asc_app_iff. split_and!; [done..|]. intros x y Hx Hy. specialize (HA1 x Hx). specialize (HB2 y Hy). lia. }
  assert (Forall (fun x => MIN_TXNID <= x < INVALID_TXNID) (A1 ++ B2)) as Hids.
  { pose proof (ok_ids r L Hok) as H. rewrite EL, !Forall_app in H. apply Forall_app. tauto. }
  assert (zlen L = zlen A1 + (sb - sb') + ((se' - se) + zlen B2)) as HzL.
  { rewrite EL. autorewrite with zlen. rewrite !zlen_seqZ by lia. lia. }
  assert (forall x, rkl_mem (with_solid (with_length (with_list r []) 0) sb' se') (A1 ++ B2) x <->
    sb <= x < se \/ x ∈ L) as Hmem.
  { intros x. unfold rkl_mem. cbn. rewrite EL, !elem_of_app, !elem_of_seqZ. split; [|lia || naive_solver lia].
    intros [?|[?|?]]; [|tauto..]. destruct (decide (x < sb)); [right; left; right; lia|].
    destruct (decide (x < se)); [left; lia|right; right; left; lia]. }
  set (G := seqZ sb' (sb - sb') ++ seqZ se (se' - se)).
  assert (zlen G = (sb - sb') + (se' - se)) as HG by (subst G; rewrite zlen_app, !zlen_seqZ by lia; lia).
  assert (rkl_list r = A1 ++ G ++ B2 ++ junk) as Hbuf by (rewrite Hj, EL; subst G; by rewrite <- !app_assoc).
  assert (forall G', zlen G' = zlen G -> rkl_ok (with_solid (with_length (with_list r (A1 ++ B2 ++ G' ++ junk)) (zlen (A1 ++ B2))) sb' se') (A1 ++ B2)) as Hfin.
  { intros G' HG'. rewrite (app_assoc A1 B2). apply (rkl_ok_update r L); try done; try lia.
    - rewrite Hbuf. zlia.
    - destruct (ok_room r L Hok). zlia.
    - intros _ x [Hx|Hx]%elem_of_app; [left; by apply HA1|right; by apply HB2]. }
  destruct (Z.ltb_spec (zlen A1) (zlen A1 + (sb - sb') + (se' - se))).
  - destruct (move_down_spec B2 A1 G junk (S (Z.to_nat (zlen L - (zlen A1 + (sb - sb') + (se' - se)))))) as (G' & HG' & E).
    { unfold zlen in *. lia. }
    cbn zeta. change (rkl_list (with_length r ?n)) with (rkl_list r). rewrite Hbuf.
    replace (zlen A1 + (sb - sb') + (se' - se)) with (zlen A1 + zlen G) in * by lia.
    replace (zlen L) with (zlen A1 + zlen G + zlen B2) in * by lia. rewrite E. cbn [mbind option_bind].
    eexists. split; [done|].
    replace (with_solid (with_list (with_length r (zlen A1 + zlen G + zlen B2 - (zlen A1 + zlen G - zlen A1))) (A1 ++ B2 ++ G' ++ junk)) sb' se')
      with (with_solid (with_length (with_list r (A1 ++ B2 ++ G' ++ junk)) (zlen (A1 ++ B2))) sb' se').
    + split; [by apply Hfin|]. exact Hmem.
    + rewrite zlen_app. replace (zlen A1 + zlen G + zlen B2 - (zlen A1 + zlen G - zlen A1)) with (zlen A1 + zlen B2) by lia.
      unfold with_list. by destruct r as [? ? ? ? [|] ?].
  - cbn [mbind option_bind]. eexists. split; [done|].
    assert (zlen G = 0) as HG0 by lia. apply zlen_0_nil in HG0.
    split; [|exact Hmem]. specialize (Hfin [] ltac:(by rewrite HG0)).
    replace (with_list r (A1 ++ B2 ++ [] ++ junk)) with r in Hfin.
    + replace (zlen (A1 ++ B2)) with (list_length r) in Hfin by (rewrite Hlen, HzL, zlen_app; lia).
      by rewrite with_length_id in Hfin.
    + rewrite <- (with_list_id r) at 1. by rewrite Hbuf, HG0.
Qed.

(** The interval [sb, se) contains [id], and of the list at most [id] lies in
    it: the interval absorbs the ids of the list that touch it. *)
Lemma extend_solid_spec cm r L sb se id : rkl_ok r L ->
  MIN_TXNID <= sb <= id -> id < se <= INVALID_TXNID -> (forall x, x ∈ L -> sb <= x < se -> x = id) ->
  (id ∈ L /\ extend_solid cm r sb se id = Some (MDBX_RESULT_TRUE, r)) \/
  (id ∉ L /\ exists r' L', extend_solid cm r sb se id = Some (MDBX_SUCCESS, r') /\ rkl_ok r' L' /\
    (forall x, rkl_mem r' L' x <-> sb <= x < se \/ x ∈ L)).
Proof.
  intros Hok Hsb Hse Hin. destruct (rkl_ok_buffer r L Hok) as (junk & Hj & Hlen & Hz & Hw).
  unfold extend_solid. rewrite Hlen.
  destruct (Z.eqb_spec (zlen L) 0) as [E0|Hne]; cbn [negb].
  { apply zlen_0_nil in E0. subst L. right. split; [by intros ?%elem_of_nil|].
    eexists _, []. split; [done|]. split; [|done].
    pose proof (rkl_ok_update r [] [] junk sb se Hok) as H. cbn [app] in *.
    rewrite <- Hj, with_list_id, <- Hlen, with_length_id in H.
    apply H; [done|destruct Hok; lia|repeat constructor|repeat constructor|lia|lia|lia|].
    by intros _ x ?%elem_of_nil. }
  rewrite Hj. pose proof (ok_asc r L Hok) as Hasc. pose proof (ok_ids r L Hok) as Hids. rewrite Forall_forall in Hids.
  destruct (rkl_bsearch_spec cm L junk id Hasc) as (A & B & EL & HA & HB & ->); [by rewrite <- Hj|].
  cbn [mbind option_bind]. rewrite EL in Hasc. apply asc_app_iff in Hasc as (HascA & HascB & HAB).
  assert (L ++ junk = A ++ B ++ junk) as -> by (by rewrite EL, <- app_assoc).
  destruct (extend_head_spec A (B ++ junk) sb (S (Z.to_nat (zlen A))) HascA) as (A1 & sb' & EA & Hsb' & HA1 & ->).
  { unfold zlen. lia. } { lia. }
  { intros x Hx. assert (x ∈ L) as HxL by (rewrite EL; apply elem_of_app; auto).
    specialize (Hids x HxL). specialize (HA x Hx). destruct (decide (sb <= x)); [|lia].
    specialize (Hin x HxL ltac:(lia)). lia. }
  cbn [mbind option_bind].
  assert (zlen L = zlen A + zlen B) as HzL by (by rewrite EL, zlen_app).
  assert (zlen A = zlen A1 + (sb - sb')) as HzA by (rewrite EA, zlen_app, zlen_seqZ by lia; done).
  destruct (decide (id ∈ L)) as [Hid|Hid]; [left; split; [done|]|right; split; [done|]].
  - assert (exists B', B = id :: B') as [B' ->].
    { rewrite EL in Hid. apply elem_of_app in Hid as [Hid|Hid]; [specialize (HA id Hid); lia|].
      destruct B as [|y B]; [by apply elem_of_nil in Hid|]. apply elem_of_cons in Hid as [->|Hid]; [eauto|].
      apply asc_cons_iff in HascB as [_ Hy]. specialize (Hy id Hid). specialize (HB y ltac:(constructor)). lia. }
    rewrite HzL, extend_tail_dup by lia. done.
  - rewrite HzL.
    destruct (extend_tail_spec B A junk se (S (Z.to_nat (zlen A + zlen B - zlen A))) HascB) as (B2 & se' & EB & Hse' & HB2 & E).
    { unfold zlen. lia. } { lia. } { uids. lia. }
    { intros x Hx. assert (x ∈ L) as HxL by (rewrite EL; apply elem_of_app; auto).
      specialize (Hids x HxL). specialize (HB x Hx). split; [|lia]. destruct (decide (x < se)); [|lia].
      specialize (Hin x HxL ltac:(lia)). subst x. done. }
    rewrite E. cbn [mbind option_bind]. rewrite <- HzL, HzA.
    destruct (extend_solid_ok r L A1 B2 sb sb' se se' junk) as (r' & Er & Hok' & Hmem); try done; [|lia|].
    { by rewrite EL, EA, EB. }
    exists r', (A1 ++ B2). split; [exact Er|]. done.
Qed.

(** ** The buffer *)

Lemma rkl_size2bytes_spec w : 0 <= w <= txl_max -> 8 * w <= rkl_size2bytes w < 8 * w + 512.
Proof.
  unfold txl_max, MDBX_ASSUME_MALLOC_OVERHEAD. change (Z.shiftl 1 26 - 2 - 16 / 8) with 67108860. intros Hw.
  unfold rkl_size2bytes, MDBX_ASSUME_MALLOC_OVERHEAD. change (txl_granulate * 8) with (2 ^ 8). u64s.
  destruct (ceil_powerof2_spec (16 + 8 * w) 8) as [H _]; [lia..|].
  rewrite u64_small by (unfold UINT64_MAX; lia). lia.
Qed.

Lemma blit_prefix {A} (src dst : list A) n : 0 <= n <= zlen src -> n <= zlen dst ->
  exists s1 s2 d2, src = s1 ++ s2 /\ zlen s1 = n /\ zlen d2 = zlen dst - n /\ blit src 0 dst 0 n = Some (s1 ++ d2).
Proof.
  intros Hs Hd. destruct (zsplit src n) as (s1 & s2 & -> & H1); [lia|].
  destruct (zsplit dst n) as (d1 & d2 & -> & H2); [lia|].
  exists s1, s2, d2. split_and!; [done|done|zlia|].
  by rewrite (blit_split [] d1 d2 [] s1 s2) by (done || lia).
Qed.

(** A list of length at most [n] is a prefix of the first [n] cells. *)
Lemma prefix_of_prefix {A} (L j s1 s2 : list A) : L ++ j = s1 ++ s2 -> zlen L <= zlen s1 -> exists j', s1 = L ++ j'.
Proof.
  intros E Hl. destruct (app_eq_inv _ _ _ _ E) as [(k & -> & ->)|(k & -> & ->)]; [|eauto].
  assert (k = []) as -> by (apply zlen_0_nil; zlia). exists []. by rewrite !app_nil_r.
Qed.

(** Only the place and the size of the list change. *)
Lemma rkl_ok_realloc r L limit h i : rkl_ok r L ->
  (exists junk, (match h with Some b => b | None => i end) = L ++ junk) ->
  list_length r <= limit <= zlen (match h with Some b => b | None => i end) -> limit < 2 ^ 30 ->
  zlen i = inplace_length -> inplace_length <= limit -> (h = None -> limit = inplace_length) ->
  rkl_ok (mk_rkl (solid_begin r) (solid_end r) (list_length r) limit h i) L.
Proof.
  intros [_ Hlen _ _ _ _ _ Hasc Hids Hsolid] Hl Hr Hw Hi Hli Hin. by split.
Qed.

Definition same_set (r r' : rkl) : Prop := solid_begin r' = solid_begin r /\ solid_end r' = solid_end r.

Lemma rkl_resize_spec al `{!AllocOk 8 al} r L wanna : rkl_ok r L -> zlen L <= wanna ->
  exists err r', rkl_resize al r wanna = Some (err, r') /\ rkl_ok r' L /\ same_set r r' /\
    ((err = MDBX_SUCCESS /\ wanna <= list_limit r') \/
     ((err = MDBX_ENOMEM /\ alloc_fails al \/ err = MDBX_TXN_FULL /\ txl_max < wanna) /\ r' = r)).
Proof.
  intros Hok Hw. destruct (rkl_ok_buffer r L Hok) as (junk & Hj & Hlen & Hz & Hwid).
  pose proof Hok as [_ _ Hroom Hwl Hin Hlim Hinl _ _ _]. unfold rkl_resize. zlen_pos.
  destruct (Z.ltb_spec txl_max wanna).
  { exists MDBX_TXN_FULL, r. split_and!; [done..|]. right. auto. }
  destruct (Z.ltb_spec wanna (list_length r)); [lia|].
  destruct (Z.leb_spec wanna inplace_length).
  { destruct (heap r) as [b|] eqn:Eh.
    - unfold rkl_list in *. rewrite Eh in *.
      destruct (blit_prefix b (inplace r) inplace_length) as (s1 & s2 & d2 & Eb & Hs1 & Hd2 & ->);
        [unfold inplace_length in *; lia|lia|].
      assert (d2 = []) as -> by (apply zlen_0_nil; lia). rewrite app_nil_r. cbn [mbind option_bind].
      eexists _, _. split; [done|]. split; [|split; [done|left; done]].
      rewrite Hj in Eb. destruct (prefix_of_prefix _ _ _ _ Eb) as [j' ->]; [lia|].
      apply rkl_ok_realloc; cbn; try done; [eauto|lia].
    - exists MDBX_SUCCESS, r. split_and!; [done..|]. left. specialize (Hinl eq_refl). split; [done|lia]. }
  destruct (Z.eqb_spec wanna (list_limit r)) as [->|Hne]; cbn [negb].
  { exists MDBX_SUCCESS, r. split_and!; [done..|]. left. done. }
  pose proof (rkl_size2bytes_spec wanna ltac:(lia)) as Hb.
  assert (txl_max < 2 ^ 26) as Hmax by (vm_compute; done).
  assert (forall z, rkl_size2bytes wanna <= 8 * z <= rkl_size2bytes wanna + 2 ^ 32 ->
    u32 (rkl_bytes2size (8 * z)) = z /\ wanna <= z < 2 ^ 30) as Hcap.
  { intros z Hzz. unfold rkl_bytes2size. rewrite Z.mul_comm, Z.div_mul by lia.
    rewrite u32_small by (unfold UINT32_MAX; lia). lia. }
  destruct (heap r) as [b|] eqn:Eh; unfold rkl_list in *; rewrite Eh in *.
  - destruct (osal_realloc al b (rkl_size2bytes wanna)) as [ptr|] eqn:Er.
    2: { exists MDBX_ENOMEM, r. split_and!; [done..|]. right. split; [left; split; [done|]|done]. eexists _, _. by right. }
    destruct (Hcap (zlen ptr)) as [El Hcp]; [by apply (realloc_usable b); [lia|]|]. rewrite El.
    eexists _, _. split; [done|]. split; [|split; [done|left; split; [done|cbn; lia]]].
    apply rkl_ok_realloc; try done; [|lia|lia|lia].
    destruct (zprefix L ptr) as [j' ->]; [lia| |eauto].
    intros i Hi. rewrite (realloc_contents b (rkl_size2bytes wanna) ptr i ltac:(lia) Er) by lia.
    rewrite Hj. by rewrite zget_app_l by lia.
  - destruct (osal_malloc al (rkl_size2bytes wanna)) as [ptr|] eqn:Er.
    2: { exists MDBX_ENOMEM, r. split_and!; [done..|]. right. split; [left; split; [done|]|done]. exists [], (rkl_size2bytes wanna). by left. }
    destruct (Hcap (zlen ptr)) as [El Hcp]; [by apply malloc_usable; [lia|]|]. rewrite El.
    destruct (blit_prefix (inplace r) ptr inplace_length) as (s1 & s2 & d2 & Eb & Hs1 & Hd2 & ->);
      [unfold inplace_length in *; lia|lia|]. cbn [mbind option_bind].
    eexists _, _. split; [done|]. split; [|split; [done|left; split; [done|cbn; lia]]].
    apply rkl_ok_realloc; try done; [|zlia|lia|lia].
    rewrite Hj in Eb. specialize (Hinl eq_refl).
    destruct (prefix_of_prefix _ _ _ _ Eb) as [j' ->]; [lia|]. exists (j' ++ d2). by rewrite <- app_assoc.
Qed.

(** ** The place of insertion *)

Lemma push_restore_spec : forall S A g rest (fuel : nat), (length S < fuel)%nat ->
  exists g', push_restore fuel (A ++ g :: S ++ rest) (zlen A) (zlen A + zlen S) = Some (A ++ S ++ g' :: rest).
Proof.
  induction S as [|x S IH]; intros A g rest fuel Hf; (destruct fuel as [|fuel]; [cbn in Hf; lia|]); cbn [push_restore].
  { exists g. zcase; [zlia|done]. }
  zcase; [|zlia]. assert (zget (A ++ g :: (x :: S) ++ rest) (zlen A + 1) = Some x) as ->.
  { rewrite (cons_middle g), app_assoc. apply zget_app_mid. zlia. }
  cbn [mbind option_bind]. rewrite zset_app_mid by done. cbn [mbind option_bind].
  destruct (IH (A ++ [x]) x rest fuel) as (g' & E); [cbn in Hf; lia|]. exists g'.
  rewrite <- !app_assoc in E. cbn [app] in *. rewrite zlen_snoc in E.
  replace (zlen A + zlen (x :: S)) with (zlen A + 1 + zlen S) by zlia. exact E.
Qed.

Lemma push_place_spec id rest : forall A S g (fuel : nat), asc (A ++ S) -> (forall x, x ∈ S -> id < x) ->
  (length A < fuel)%nat ->
  (id ∈ A /\ exists g', push_place fuel (A ++ g :: S ++ rest) (zlen A) (zlen A + zlen S) id =
     Some (inr (A ++ S ++ g' :: rest))) \/
  (id ∉ A /\ exists A1 A2 g', A = A1 ++ A2 /\ (forall x, x ∈ A1 -> x < id) /\ (forall x, x ∈ A2 -> id < x) /\
     push_place fuel (A ++ g :: S ++ rest) (zlen A) (zlen A + zlen S) id =
       Some (inl (A1 ++ g' :: A2 ++ S ++ rest, zlen A1))).
Proof.
  induction A as [|x A IH] using rev_ind; intros S g fuel Hasc HS Hf; (destruct fuel as [|fuel]; [lia|]); cbn [push_place].
  { right. split; [by intros ?%elem_of_nil|]. exists [], [], g. split_and!; [done|by intros x ?%elem_of_nil..|done]. }
  zcase; [|zlia]. rewrite <- app_assoc. cbn [app]. rewrite zget_app_mid by zlia. cbn [mbind option_bind].
  unfold RKL_ORDERED. pose proof Hasc as Hasc'. rewrite <- app_assoc in Hasc'.
  apply asc_app_iff in Hasc as (Ha & _ & _). apply asc_snoc_iff in Ha as [Ha Hx].
  destruct (Z.ltb_spec id x) as [Hlt|Hge].
  - assert (zset (A ++ x :: g :: S ++ rest) (zlen (A ++ [x])) x = Some (A ++ x :: x :: S ++ rest)) as ->.
    { rewrite (cons_middle x), app_assoc, zset_app_mid by done. by rewrite <- app_assoc. }
    cbn [mbind option_bind]. replace (zlen (A ++ [x]) - 1) with (zlen A) by zlia.
    replace (zlen (A ++ [x]) + zlen S) with (zlen A + zlen (x :: S)) by zlia.
    destruct (IH (x :: S) x fuel) as [(Hin & g' & E)|(Hin & A1 & A2 & g' & EA & H1 & H2 & E)].
    + done.
    + intros y [->|Hy]%elem_of_cons; auto.
    + rewrite length_app in Hf. cbn in Hf. lia.
    + left. split; [apply elem_of_app; auto|]. exists g'. rewrite <- app_assoc. exact E.
    + right. split; [rewrite elem_of_app, list_elem_of_singleton; intros [?|?]; [done|lia]|].
      exists A1, (A2 ++ [x]), g'. split_and!; [by rewrite EA, <- app_assoc|done| |].
      * intros y [Hy|Hy%list_elem_of_singleton]%elem_of_app; [auto|lia].
      * rewrite <- app_assoc. exact E.
  - destruct (Z.eqb_spec id x) as [->|Hne].
    + left. split; [apply elem_of_app; right; constructor|].
      destruct (push_restore_spec S (A ++ [x]) g rest (Datatypes.S (Z.to_nat (zlen (A ++ [x]) + zlen S - zlen (A ++ [x]))))) as (g' & E).
      { unfold zlen. lia. }
      exists g'. rewrite <- !app_assoc in E. cbn [app] in E. rewrite E. cbn [mbind option_bind]. by rewrite <- app_assoc.
    + right. split.
      * rewrite elem_of_app, list_elem_of_singleton. intros [Hin|?]; [|done]. specialize (Hx id Hin). lia.
      * exists (A ++ [x]), [], g. split_and!; [by rewrite app_nil_r| |by intros y ?%elem_of_nil|by rewrite <- app_assoc].
        intros y [Hy|Hy%list_elem_of_singleton]%elem_of_app; [specialize (Hx y Hy)|]; lia.
Qed.

(** ** The exchange of the interval with a run of the list *)

Lemma swap_from_spec : forall A rest nsb (fuel : nat), asc A -> (length A < fuel)%nat ->
  MIN_TXNID <= nsb <= INVALID_TXNID -> (forall x, x ∈ A -> MIN_TXNID <= x < nsb) ->
  exists A1 nsb', A = A1 ++ seqZ nsb' (nsb - nsb') /\ MIN_TXNID <= nsb' <= nsb /\
    (forall x, x ∈ A1 -> x + 1 < nsb') /\ swap_from fuel (A ++ rest) (zlen A) nsb = Some (zlen A1, nsb').
Proof.
  induction A as [|x A IH] using rev_ind; intros rest sb fuel Ha Hf Hsb Hlow; (destruct fuel as [|fuel]; [lia|]);
    cbn [swap_from].
  { exists [], sb. rewrite Z.sub_diag. split_and!; [done|lia..| |done]. by intros x ?%elem_of_nil. }
  zcase; [|zlia]. rewrite <- app_assoc. cbn [app]. rewrite zget_app_mid by zlia. cbn [mbind option_bind].
  pose proof (Hlow x ltac:(apply elem_of_app; right; constructor)) as Hx. uids.
  rewrite u64_small by (unfold UINT64_MAX; lia). apply asc_snoc_iff in Ha as [Ha Hax].
  destruct (Z.eqb_spec x (sb - 1)) as [->|Hne].
  - destruct (IH ((sb - 1) :: rest) (sb - 1) fuel) as (A1 & sb' & -> & Hsb' & HA1 & E).
    + done.
    + rewrite length_app in Hf. cbn in Hf. lia.
    + lia.
    + intros y Hy. specialize (Hlow y ltac:(apply elem_of_app; by left)). specialize (Hax y Hy). lia.
    + exists A1, sb'. split_and!; [|lia..|done|].
      * rewrite <- app_assoc. f_equal.
        replace (sb - sb') with ((sb - 1 - sb') + 1) by lia. rewrite seqZ_app by lia.
        f_equal. cbn. replace (sb' + (sb - 1 - sb')) with (sb - 1) by lia. done.
      * rewrite <- E. f_equal. zlia.
  - exists (A ++ [x]), sb. rewrite Z.sub_diag, app_nil_r. split_and!; [done|lia..| |done].
    intros y [Hy|Hy%list_elem_of_singleton]%elem_of_app; [|lia]. specialize (Hax y Hy). lia.
Qed.

Lemma swap_to_spec : forall B A rest nse (fuel : nat), asc B -> (length B < fuel)%nat ->
  nse <= INVALID_TXNID -> 0 <= nse -> (forall x, x ∈ B -> nse <= x < INVALID_TXNID) ->
  exists B2 nse', B = seqZ nse (nse' - nse) ++ B2 /\ nse <= nse' <= INVALID_TXNID /\
    (forall x, x ∈ B2 -> nse' < x) /\
    swap_to fuel (A ++ B ++ rest) (zlen A) (zlen A + zlen B) nse = Some (zlen A + (nse' - nse), nse').
Proof.
  induction B as [|x B IH]; intros A rest se fuel Hb Hf Hse Hse0 Hhigh; (destruct fuel as [|fuel]; [cbn in Hf; lia|]);
    cbn [swap_to].
  { exists [], se. rewrite Z.sub_diag. split_and!; [done|lia..|by intros x ?%elem_of_nil|].
    zcase; [zlia|]. by rewrite Z.add_0_r. }
  zcase; [|zlia]. cbn [app]. rewrite zget_app_mid by done. cbn [mbind option_bind].
  pose proof (Hhigh x ltac:(constructor)) as Hx. apply asc_cons_iff in Hb as [Hb Hxb].
  destruct (Z.eqb_spec x se) as [->|Hne].
  - rewrite u64_small by (uids; lia).
    destruct (IH (A ++ [se]) rest (se + 1) fuel) as (B2 & se' & -> & Hse' & HB2 & E).
    + done.
    + cbn in Hf. lia.
    + lia.
    + lia.
    + intros y Hy. specialize (Hhigh y ltac:(by constructor)). specialize (Hxb y Hy). lia.
    + exists B2, se'. split_and!; [|lia..|done|].
      * rewrite (seqZ_cons se) by lia. cbn. do 2 f_equal. f_equal; lia.
      * rewrite <- app_assoc in E. cbn [app] in E. rewrite zlen_snoc in E.
        rewrite zlen_cons. replace (zlen A + (zlen (seqZ (se + 1) (se' - (se + 1)) ++ B2) + 1))
          with (zlen A + 1 + zlen (seqZ (se + 1) (se' - (se + 1)) ++ B2)) by lia.
        rewrite E. do 2 f_equal. lia.
  - exists (x :: B), se. rewrite Z.sub_diag, Z.add_0_r. split_and!; [done|lia..| |done].
    intros y [->|Hy]%elem_of_cons; [lia|]. specialize (Hxb y Hy). lia.
Qed.

Lemma swap_spread_spec P1 : forall P2 G R (fuel : nat), P2 <> [] -> (length P2 <= fuel)%nat ->
  exists G', zlen G' = zlen G /\
    swap_spread fuel (P1 ++ P2 ++ G ++ R) (zlen P1 + zlen P2) (zlen G) (zlen P1) = Some (P1 ++ G' ++ P2 ++ R, zlen P1).
Proof.
  induction P2 as [|x P2 IH] using rev_ind; intros G R fuel Hne Hf; [done|].
  destruct fuel as [|fuel]; [rewrite length_app in Hf; cbn in Hf; lia|]. cbn [swap_spread].
  replace (zlen P1 + zlen (P2 ++ [x]) - 1) with (zlen (P1 ++ P2)) by zlia.
  rewrite <- !app_assoc. cbn [app]. rewrite app_assoc, zget_app_mid by done. cbn [mbind option_bind].
  destruct (zmove_up (P1 ++ P2) x G R) as (G1 & HG1 & ->). cbn [mbind option_bind].
  destruct (Z.ltb_spec (zlen P1) (zlen (P1 ++ P2))) as [Hlt|Hge].
  - destruct (IH G1 (x :: R) fuel) as (G' & HG' & E).
    + intros ->. zlia.
    + rewrite length_app in Hf. cbn in Hf. lia.
    + exists G'. split; [lia|]. rewrite <- HG1, zlen_app, <- app_assoc, E. done.
  - assert (P2 = []) as -> by (apply zlen_0_nil; zlia). exists G1. split; [done|].
    rewrite app_nil_r. done.
Qed.

Lemma swap_pull_spec : forall S P G R (fuel : nat), S <> [] -> (length S <= fuel)%nat ->
  exists G', zlen G' = zlen G /\
    swap_pull fuel (P ++ G ++ S ++ R) (zlen P) (zlen P + zlen G) (zlen P + zlen S) =
      Some (P ++ S ++ G' ++ R, zlen P + zlen S, zlen P + zlen S + zlen G).
Proof.
  induction S as [|x S IH]; intros P G R fuel Hne Hf; [done|].
  destruct fuel as [|fuel]; [cbn in Hf; lia|]. cbn [swap_pull]. cbn [app].
  assert (zget (P ++ G ++ x :: S ++ R) (zlen P + zlen G) = Some x) as ->.
  { rewrite app_assoc. apply zget_app_mid. zlia. }
  cbn [mbind option_bind]. destruct (zmove_down P G x (S ++ R)) as (G1 & HG & ->). cbn [mbind option_bind].
  destruct (Z.ltb_spec (zlen P + 1) (zlen P + zlen (x :: S))) as [Hlt|Hge].
  - destruct (IH (P ++ [x]) G1 R fuel) as (G' & HG' & E).
    + intros ->. zlia.
    + cbn in Hf. lia.
    + exists G'. split; [lia|].
      replace (zlen P + zlen (x :: S)) with (zlen (P ++ [x]) + zlen S) by zlia.
      replace (zlen P + 1) with (zlen (P ++ [x])) by zlia.
      replace (zlen P + zlen G + 1) with (zlen (P ++ [x]) + zlen G1) by zlia.
      rewrite E. rewrite <- !app_assoc. by rewrite HG.
  - assert (S = []) as -> by (apply zlen_0_nil; zlia). exists G1. split; [done|].
    rewrite <- app_assoc. cbn [app]. rewrite zlen_cons, zlen_nil.
    by replace (zlen P + zlen G + 1) with (zlen P + (0 + 1) + zlen G) by lia.
Qed.

Lemma swap_fill_S fuel b from sb i len : swap_fill (S fuel) b from sb i len =
  (b ← zset b from (u64 (sb + i));
   if negb (i + 1 =? len) then swap_fill fuel b (from + 1) sb (i + 1) len else Some (b, from + 1)).
Proof. done. Qed.

Lemma swap_fill_spec sb len : forall (n : nat) G P R i, zlen G = Z.of_nat (S n) -> i + Z.of_nat (S n) = len ->
  0 <= sb -> 0 <= i -> sb + len <= UINT64_MAX ->
  swap_fill (S n) (P ++ G ++ R) (zlen P) sb i len =
    Some (P ++ seqZ (sb + i) (Z.of_nat (S n)) ++ R, zlen P + Z.of_nat (S n)).
Proof.
  induction n as [|n IH]; intros G P R i HG Hi Hsb Hi0 Hmax; (destruct G as [|g G]; [done|]);
    rewrite swap_fill_S; cbn [app]; rewrite zset_app_mid by done; cbn [mbind option_bind]; rewrite u64_small by lia.
  - assert (G = []) as -> by (apply zlen_0_nil; zlia). destruct (Z.eqb_spec (i + 1) len); [|lia]. done.
  - destruct (Z.eqb_spec (i + 1) len); [lia|]. cbn [negb].
    specialize (IH G (P ++ [sb + i]) R (i + 1)). rewrite zlen_snoc, <- app_assoc in IH. cbn [app] in IH.
    rewrite IH by (done || zlia). rewrite (seqZ_cons (sb + i)) by lia. rewrite <- app_assoc. cbn [app].
    replace (sb + (i + 1)) with (Z.succ (sb + i)) by lia.
    replace (Z.pred (Z.of_nat (S (S n)))) with (Z.of_nat (S n)) by lia.
    by replace (zlen P + 1 + Z.of_nat (S n)) with (zlen P + Z.of_nat (S (S n))) by lia.
Qed.

(** Writing the old interval at [X] and closing the gap [H]. *)
Lemma swap_finish sb o X G M H T junk fuel : zlen G = o -> 0 < o -> 0 <= sb -> sb + o <= UINT64_MAX ->
  (length T < fuel)%nat ->
  exists H', zlen H' = zlen H /\
    ('(b, from) ← swap_fill (Z.to_nat o) (X ++ G ++ M ++ H ++ T ++ junk) (zlen X) sb 0 o;
     move_down fuel b (zlen M + from) (zlen X + o + zlen M + zlen H) (zlen X + o + zlen M + zlen H + zlen T)) =
      Some ((X ++ seqZ sb o ++ M ++ T) ++ H' ++ junk).
Proof.
  intros HG Ho Hsb Hmax Hf. destruct (Z.to_nat o) as [|n] eqn:En; [lia|].
  rewrite (swap_fill_spec sb o n G X) by lia. cbn [mbind option_bind]. rewrite Z.add_0_r.
  replace (Z.of_nat (S n)) with o by lia.
  destruct (move_down_spec T (X ++ seqZ sb o ++ M) H junk fuel Hf) as (H' & HH & E).
  exists H'. split; [done|]. rewrite !zlen_app, zlen_seqZ in E by lia. rewrite <- !app_assoc in E.
  replace (zlen M + (zlen X + o)) with (zlen X + (o + zlen M)) by lia.
  rewrite !Z.add_assoc in *. rewrite E. by rewrite <- !app_assoc.
Qed.

Lemma asc_seqZ a n : asc (seqZ a n).
Proof.
  apply StronglySorted_zget. intros i j x y Hij Hx Hy.
  pose proof (zget_range _ _ _ Hx) as Hi. pose proof (zget_range _ _ _ Hy) as Hj.
  unfold zget in Hx, Hy. repeat zcase; try lia. apply lookup_seqZ in Hx as [-> _], Hy as [-> _]. lia.
Qed.

(** The list after the exchange: the run is gone, the old interval is in its
    place in the order. *)
Lemma swap_ok r L P S nsb nse A' B' H : rkl_ok r L -> L = P ++ seqZ nsb (nse - nsb) ++ S ->
  solid_begin r < solid_end r -> MIN_TXNID <= nsb < nse -> nse <= INVALID_TXNID ->
  solid_end r - solid_begin r < nse - nsb ->
  (forall x, x ∈ P -> x + 1 < nsb) -> (forall x, x ∈ S -> nse < x) -> A' ++ B' = P ++ S ->
  (forall x, x ∈ A' -> x < solid_begin r) -> (forall x, x ∈ B' -> solid_begin r <= x) ->
  let L' := A' ++ seqZ (solid_begin r) (solid_end r - solid_begin r) ++ B' in
  zlen (L' ++ H) = zlen (rkl_list r) ->
  let r' := with_solid (with_length (with_list r (L' ++ H))
    (list_length r - (nse - nsb) + (solid_end r - solid_begin r))) nsb nse in
  rkl_ok r' L' /\ (forall x, rkl_mem r' L' x <-> rkl_mem r L x).
Proof.
  intros Hok EL Hsol Hnsb Hnse Hshort HP HS EAB HA' HB' L' Hz r'.
  pose proof Hok as [_ Hlen Hroom _ _ _ _ Hasc Hids [(-> & ? & ?)|(Hsb & Hse & _ & Hadj)]]; [uids; lia|].
  specialize (Hadj Hsol).
  assert (forall x, x ∈ A' \/ x ∈ B' <-> x ∈ P \/ x ∈ S) as Hin by (intros x; by rewrite <- !elem_of_app, EAB).
  assert (forall x, x ∈ P \/ x ∈ S -> x ∈ L) as HinL by (intros x Hx; rewrite EL, !elem_of_app; tauto).
  assert (forall x, x ∈ A' -> x + 1 < solid_begin r) as HA2.
  { intros x Hx. specialize (HA' x Hx). specialize (Hadj x ltac:(apply HinL, Hin; auto)). lia. }
  assert (forall x, x ∈ B' -> solid_end r < x) as HB2.
  { intros x Hx. specialize (HB' x Hx). specialize (Hadj x ltac:(apply HinL, Hin; auto)). lia. }
  assert (asc L') as HascL'.
  { rewrite EL, !asc_app_iff in Hasc. destruct Hasc as (HaP & (_ & HaS & _) & HPS).
    assert (asc (A' ++ B')) as HaAB.
    { rewrite EAB. apply asc_app_iff. split_and!; [done..|]. intros x y Hx Hy.
      specialize (HP x Hx). specialize (HS y Hy). lia. }
    apply asc_app_iff in HaAB as (HaA & HaB & HAB). subst L'. rewrite !asc_app_iff. split_and!; [done| |done|..].
    - apply asc_seqZ.
    - intros x y Hx%elem_of_seqZ Hy. specialize (HB2 y Hy). lia.
    - intros x y Hx [Hy%elem_of_seqZ|Hy]%elem_of_app; [|by apply HAB]. specialize (HA2 x Hx). lia. }
  assert (zlen L' = list_length r - (nse - nsb) + (solid_end r - solid_begin r)) as HzL'.
  { subst L'. apply (f_equal zlen) in EL, EAB. autorewrite with zlen in *. rewrite !zlen_seqZ in * by lia. lia. }
  assert (forall x, solid_begin r <= x < solid_end r -> x + 1 < nsb \/ nse < x) as Hnew.
  { intros x Hx.
    assert (forall y, nsb <= y < nse -> y + 1 < solid_begin r \/ solid_end r < y) as Hrun.
    { intros y Hy. apply Hadj. rewrite EL, !elem_of_app, elem_of_seqZ. right. left. lia. }
    pose proof (Hrun nsb ltac:(lia)). pose proof (Hrun (nse - 1) ltac:(lia)).
    destruct (decide (nsb <= solid_begin r - 1 < nse)) as [Hmid|]; [specialize (Hrun _ Hmid)|]; lia. }
  split.
  - subst r'. rewrite <- HzL'. apply (rkl_ok_update r L); [done..|lia|done| |lia|done|lia|].
    + rewrite EL, !Forall_app in Hids. subst L'. rewrite !Forall_app.
      assert (Forall (fun x => MIN_TXNID <= x < INVALID_TXNID) (A' ++ B')) as [HfA HfB]%Forall_app.
      { rewrite EAB. apply Forall_app. tauto. }
      split_and!; [done| |done]. apply Forall_forall. intros x Hx%elem_of_seqZ. lia.
    + intros _ x. subst L'. rewrite !elem_of_app, elem_of_seqZ. intros Hx.
      assert (x ∈ A' \/ x ∈ B' \/ solid_begin r <= x < solid_end r) as Hx' by (naive_solver lia).
      destruct Hx' as [HxA|[HxB|Hxs]]; [..|by apply Hnew].
      * destruct (proj1 (Hin x) (or_introl HxA)) as [Hp|Hs']; [left; by apply HP|right; by apply HS].
      * destruct (proj1 (Hin x) (or_intror HxB)) as [Hp|Hs']; [left; by apply HP|right; by apply HS].
  - intros x. unfold rkl_mem. subst r' L'. cbn. rewrite EL, !elem_of_app, !elem_of_seqZ. specialize (Hin x).
    split; intros Hx; (destruct (decide (nsb <= x < nse)); [first [left; lia|right; right; left; lia]|]);
      (destruct (decide (solid_begin r <= x < solid_end r)); [first [left; lia|right; right; left; lia]|]);
      naive_solver lia.
Qed.

(** Where the interval lies with respect to the run. *)
Lemma swap_cases L P R S A B sb : L = P ++ R ++ S -> L = A ++ B ->
  (forall x, x ∈ A -> x < sb) -> (forall x, x ∈ B -> sb <= x) ->
  (zlen A < zlen P /\ exists P2, P2 <> [] /\ P = A ++ P2 /\ (forall x, x ∈ P2 ++ S -> sb <= x)) \/
  (zlen P + zlen R < zlen A /\ exists S1, S1 <> [] /\ S = S1 ++ B /\ zlen A = zlen P + zlen R + zlen S1 /\
     (forall x, x ∈ P ++ S1 -> x < sb)) \/
  (zlen P <= zlen A <= zlen P + zlen R /\ (forall x, x ∈ P -> x < sb) /\ (forall x, x ∈ S -> sb <= x)).
Proof.
  intros E1 E2 HA HB. rewrite E1 in E2.
  destruct (decide (zlen A < zlen P)) as [Hlt|Hge].
  - left. split; [done|]. destruct (app_eq_inv _ _ _ _ E2) as [(k & -> & ->)|(k & EA & _)]; [|subst A; zlia].
    exists k. split_and!; [by intros ->; zlia|done|]. intros x Hx. apply HB. rewrite !elem_of_app in *. tauto.
  - destruct (decide (zlen P + zlen R < zlen A)) as [Hgt|Hle].
    + right. left. split; [done|]. rewrite app_assoc in E2.
      destruct (app_eq_inv _ _ _ _ E2) as [(k & EA & _)|(k & -> & ->)]; [apply (f_equal zlen) in EA; zlia|].
      exists k. split_and!; [by intros ->; zlia|done|zlia|]. intros x Hx. apply HA. rewrite !elem_of_app in *. tauto.
    + right. right. split; [lia|]. split.
      * destruct (app_eq_inv _ _ _ _ E2) as [(k & EA & _)|(k & -> & _)].
        -- assert (k = []) as -> by (apply zlen_0_nil; apply (f_equal zlen) in EA; zlia).
           rewrite app_nil_r in EA. by subst P.
        -- intros x Hx. apply HA. rewrite elem_of_app. tauto.
      * rewrite app_assoc in E2. destruct (app_eq_inv _ _ _ _ E2) as [(k & _ & ->)|(k & EA & ES)].
        -- intros x Hx. apply HB. rewrite elem_of_app. tauto.
        -- assert (k = []) as -> by (apply zlen_0_nil; apply (f_equal zlen) in EA; zlia). by rewrite ES.
Qed.

Lemma rkl_swap_spec r L P S nsb nse A B : rkl_ok r L -> L = P ++ seqZ nsb (nse - nsb) ++ S ->
  solid_begin r < solid_end r -> MIN_TXNID <= nsb < nse -> nse <= INVALID_TXNID ->
  solid_end r - solid_begin r < nse - nsb ->
  (forall x, x ∈ P -> x + 1 < nsb) -> (forall x, x ∈ S -> nse < x) -> L = A ++ B ->
  (forall x, x ∈ A -> x < solid_begin r) -> (forall x, x ∈ B -> solid_begin r <= x) ->
  exists r' L', rkl_swap r (zlen P) (zlen P + (nse - nsb)) nsb nse (zlen A) (solid_end r - solid_begin r) = Some r' /\
    rkl_ok r' L' /\ (forall x, rkl_mem r' L' x <-> rkl_mem r L x).
Proof.
  intros Hok EL Hsol Hnsb Hnse Hshort HP HS EAB HA HB.
  destruct (rkl_ok_buffer r L Hok) as (junk & Hj & Hlen & _ & _).
  pose proof (ok_solid r L Hok) as [(-> & ? & ?)|(Hsb & Hse & _ & _)]; [uids; lia|].
  set (n := nse - nsb) in *. set (o := solid_end r - solid_begin r) in *.
  assert (zlen (seqZ nsb n) = n) as Hrun by (apply zlen_seqZ; lia).
  assert (forall run : list Z, zlen run = n -> exists G H, run = G ++ H /\ zlen G = o /\ zlen H = n - o) as Hsplit.
  { intros run Hz. destruct (zsplit run o) as (G & H & -> & HG); [lia|]. exists G, H. split_and!; [done..|zlia]. }
  assert (zlen L = zlen P + n + zlen S) as HzL by (rewrite EL; autorewrite with zlen; lia).
  assert (rkl_list r = P ++ seqZ nsb n ++ S ++ junk) as Hbuf by (rewrite Hj, EL; by rewrite <- !app_assoc).
  unfold rkl_swap. cbn zeta. replace (zlen P + n - zlen P) with n by lia. rewrite Hbuf, Hlen.
  (** The last two loops, after the elements were brought into position. *)
  assert (forall X G M H T, X ++ M ++ T = P ++ S -> zlen G = o -> zlen H = n - o ->
    (forall x, x ∈ X -> x < solid_begin r) -> (forall x, x ∈ M ++ T -> solid_begin r <= x) ->
    exists r' L', ('(b, from) ← swap_fill (Z.to_nat o) (X ++ G ++ M ++ H ++ T ++ junk) (zlen X) (solid_begin r) 0 o;
      b ← move_down (Datatypes.S (Z.to_nat (zlen L))) b (zlen M + from) (zlen X + o + zlen M + zlen H) (zlen L);
      Some (with_solid (with_length (with_list r b) (zlen L - n + o)) nsb nse)) = Some r' /\
    rkl_ok r' L' /\ (forall x, rkl_mem r' L' x <-> rkl_mem r L x)) as Hfin.
  { intros X G M H T EX HG HH HX HMT.
    assert (zlen X + zlen M + zlen T = zlen P + zlen S) as Hz by (apply (f_equal zlen) in EX; zlia).
    destruct (swap_finish (solid_begin r) o X G M H T junk (Datatypes.S (Z.to_nat (zlen L)))) as (H' & HH' & E);
      [done|lia|uids; lia|uids; lia|unfold zlen in *; lia|].
    replace (zlen X + o + zlen M + zlen H + zlen T) with (zlen L) in E by lia.
    destruct (swap_fill _ _ _ _ _ _) as [[b from]|]; [|done]. cbn [mbind option_bind] in *. rewrite E. cbn [mbind option_bind].
    eexists _, _. split; [done|]. rewrite <- Hlen.
    apply (swap_ok r L P S nsb nse X (M ++ T) (H' ++ junk)); try done.
    rewrite Hj, EL. autorewrite with zlen. rewrite !zlen_seqZ by lia. lia. }
  destruct (swap_cases L P (seqZ nsb n) S A B (solid_begin r) EL EAB HA HB)
    as [(Hlt & P2 & HP2 & -> & Hhi)|[(Hgt & S1 & HS1 & -> & HzA & Hlo)|(Hle & HlP & HlS)]].
  - destruct (Z.ltb_spec (zlen A) (zlen (A ++ P2))); [|lia].
    destruct (Hsplit (seqZ nsb n) Hrun) as (G & Hg & -> & HG & HH). rewrite <- !app_assoc.
    destruct (swap_spread_spec A P2 G (Hg ++ S ++ junk) (Z.to_nat (zlen (A ++ P2) - zlen A))) as (G' & HG' & E); [done|unfold zlen; rewrite length_app; lia|].
    rewrite HG in E. rewrite zlen_app in E |- *. rewrite E. cbn [mbind option_bind].
    destruct (Hfin A G' P2 Hg S) as (r' & L' & Er & Hr'); [by rewrite <- app_assoc|lia|lia|done|done|].
    exists r', L'. split; [|done]. rewrite <- Er.
    replace (zlen A + zlen P2 - zlen A) with (zlen P2) by lia.
    by replace (zlen A + o + zlen P2 + zlen Hg) with (zlen A + zlen P2 + n) by lia.
  - destruct (Z.ltb_spec (zlen A) (zlen P)); [lia|].
    destruct (Z.ltb_spec (zlen P + n) (zlen A)); [|lia]. rewrite <- !app_assoc.
    destruct (swap_pull_spec S1 P (seqZ nsb n) (B ++ junk) (Z.to_nat (zlen L))) as (run' & Hrun' & E); [done|unfold zlen in *; rewrite length_app in HzL; lia|].
    rewrite Hrun in E. replace (zlen A - n) with (zlen P + zlen S1) by lia. rewrite E. cbn [mbind option_bind].
    destruct (Hsplit run') as (G & Hg & -> & HG & HH); [lia|].
    destruct (Hfin (P ++ S1) G [] Hg B) as (r' & L' & Er & Hr'); [by rewrite <- app_assoc|done|done|done|..].
    { intros x Hx. by apply HB. }
    exists r', L'. split; [|done]. rewrite <- Er. rewrite <- !app_assoc. cbn [app]. rewrite zlen_app.
    by replace (zlen P + zlen S1 + o + zlen [] + zlen Hg) with (zlen P + zlen S1 + n) by zlia.
  - destruct (Z.ltb_spec (zlen A) (zlen P)); [lia|].
    destruct (Z.ltb_spec (zlen P + n) (zlen A)); [lia|]. cbn [mbind option_bind].
    destruct (Hsplit (seqZ nsb n) Hrun) as (G & Hg & -> & HG & HH). rewrite <- !app_assoc.
    destruct (Hfin P G [] Hg S) as (r' & L' & Er & Hr'); [done|done|done|done|done|].
    exists r', L'. split; [|done]. rewrite <- Er.
    by replace (zlen P + o + zlen [] + zlen Hg) with (zlen P + n) by zlia.
Qed.

Lemma push_swap_spec cm r A id B : rkl_ok r (A ++ id :: B) -> solid_begin r < solid_end r ->
  exists r' L', push_swap cm r (zlen A) id = Some r' /\ rkl_ok r' L' /\
    (forall x, rkl_mem r' L' x <-> rkl_mem r (A ++ id :: B) x).
Proof.
  intros Hok Hsol. set (L := A ++ id :: B) in *.
  destruct (rkl_ok_buffer r L Hok) as (junk & Hj & Hlen & Hz & Hw).
  pose proof (ok_solid r L Hok) as [(? & ? & ?)|(Hsb & Hse & _ & _)]; [by destruct A|].
  pose proof (ok_asc r L Hok) as Hasc. pose proof (ok_ids r L Hok) as Hids.
  assert (zlen L = zlen A + 1 + zlen B) as HzL by (subst L; zlia).
  assert (exists r' L', Some r = Some r' /\ rkl_ok r' L' /\ (forall x, rkl_mem r' L' x <-> rkl_mem r L x)) as Hsame
    by (by exists r, L).
  unfold push_swap. rewrite Hlen. destruct (16 <? zlen L); [|done].
  assert (exists low, (if 0 <? zlen A then x ← zget (rkl_list r) (zlen A - 1); Some (x =? u64 (id - 1)) else Some false) = Some low) as [low ->].
  { zcase; [|eauto]. destruct (zget_in (rkl_list r) (zlen A - 1)) as [y ->]; [rewrite Hj; zlia|]. cbn. eauto. }
  cbn [mbind option_bind].
  assert (exists high, (if low then Some true else if zlen A + 1 <? zlen L then x ← zget (rkl_list r) (zlen A + 1); Some (x =? u64 (id + 1)) else Some false) = Some high) as [high ->].
  { destruct low; [eauto|]. zcase; [|eauto]. destruct (zget_in (rkl_list r) (zlen A + 1)) as [y ->]; [rewrite Hj; zlia|]. cbn. eauto. }
  cbn [mbind option_bind]. destruct high; [|done].
  assert (rkl_list r = A ++ (id :: B ++ junk)) as HbufA by (rewrite Hj; subst L; by rewrite <- app_assoc).
  assert (rkl_list r = (A ++ [id]) ++ B ++ junk) as HbufB by (rewrite HbufA; by rewrite <- app_assoc).
  subst L. rewrite asc_app_iff in Hasc. destruct Hasc as (HascA & HascB & HAB). apply asc_cons_iff in HascB as [HascB HidB].
  rewrite Forall_app, Forall_cons, !Forall_forall in Hids. destruct Hids as (HidsA & Hid & HidsB).
  destruct (swap_from_spec A (id :: B ++ junk) id (S (Z.to_nat (zlen A))) HascA) as (A1 & nsb & EA & Hnsb & HA1 & E1).
  { unfold zlen. lia. } { lia. }
  { intros x Hx. specialize (HidsA x Hx). specialize (HAB x id Hx ltac:(constructor)). lia. }
  rewrite HbufA, E1. cbn [mbind option_bind]. rewrite <- HbufA, HbufB.
  rewrite (u64_small (id + 1)) by (uids; lia).
  destruct (swap_to_spec B (A ++ [id]) junk (id + 1) (S (Z.to_nat (zlen (A ++ id :: B)))) HascB) as (B2 & nse & EB & Hnse & HB2 & E2).
  { unfold zlen. rewrite length_app. cbn. lia. } { lia. } { uids; lia. }
  { intros x Hx. specialize (HidsB x Hx). specialize (HidB x Hx). lia. }
  rewrite zlen_snoc in E2. replace (zlen A + 1 + zlen B) with (zlen (A ++ id :: B)) in E2 by zlia.
  rewrite E2. cbn [mbind option_bind]. rewrite <- HbufB.
  assert (zlen A = zlen A1 + (id - nsb)) as HzA by (rewrite EA, zlen_app, zlen_seqZ by lia; done).
  replace (zlen A + 1 + (nse - (id + 1))) with (zlen A1 + (nse - nsb)) by lia.
  assert (A ++ id :: B = A1 ++ seqZ nsb (nse - nsb) ++ B2) as EL.
  { rewrite EA, EB, <- app_assoc. f_equal. rewrite app_comm_cons, app_assoc. f_equal.
    replace (nse - nsb) with ((id - nsb) + (nse - id)) by lia. rewrite seqZ_app by lia.
    f_equal. replace (nsb + (id - nsb)) with id by lia. rewrite (seqZ_cons id) by lia. f_equal. f_equal; lia. }
  replace (zlen A1 + (nse - nsb) - zlen A1) with (nse - nsb) by lia.
  destruct (3 <? nse - nsb); [|done].
  rewrite (u64_small (solid_end r - solid_begin r)) by (uids; lia).
  destruct (Z.ltb_spec (solid_end r - solid_begin r) (nse - nsb)); [|done].
  destruct (rkl_bsearch_spec cm (A ++ id :: B) junk (solid_begin r) (ok_asc _ _ Hok)) as (A' & B' & EAB & HA' & HB' & E3); [by rewrite <- Hj|].
  rewrite Hj, E3. cbn [mbind option_bind]. destruct (_ <? zlen (A ++ id :: B) - zlen A); [|done].
  apply (rkl_swap_spec r (A ++ id :: B) A1 B2 nsb nse A' B'); try done; lia.
Qed.

Lemma rkl_ok_with_list r L junk : rkl_ok r L -> zlen (L ++ junk) = zlen (rkl_list r) ->
  rkl_ok (with_list r (L ++ junk)) L.
Proof.
  intros [_ Hlen Hroom Hw Hin Hlim Hinl Hasc Hids Hsol] Hz. unfold with_list, rkl_list in *.
  destruct (heap r) as [b|] eqn:Eh; split; cbn; try done; try (by exists junk); try lia; congruence.
Qed.

(** ** Adding an id *)

(** What a push returns: the set with the id, or the unchanged set and a code
    that says why. *)
Definition pushed (al : allocator) (r : rkl) (L : list Z) (id : Z) (res : option (rc * rkl)) : Prop :=
  exists err r' L', res = Some (err, r') /\ rkl_ok r' L' /\
    ((err = MDBX_SUCCESS /\ ~ rkl_mem r L id /\ (forall x, rkl_mem r' L' x <-> x = id \/ rkl_mem r L x)) \/
     (err = MDBX_RESULT_TRUE /\ rkl_mem r L id /\ (forall x, rkl_mem r' L' x <-> rkl_mem r L x)) \/
     ((err = MDBX_ENOMEM /\ alloc_fails al \/ err = MDBX_TXN_FULL /\ L' = L /\ txl_max <= zlen L) /\
      (forall x, rkl_mem r' L' x <-> rkl_mem r L x))).

Lemma push_grow_spec al `{!AllocOk 8 al} r L : rkl_ok r L ->
  exists err r1, push_grow al r = Some (err, r1) /\ rkl_ok r1 L /\ same_set r r1 /\
    ((err = MDBX_SUCCESS /\ list_length r1 < list_limit r1) \/ (err = MDBX_ENOMEM /\ alloc_fails al) \/
     (err = MDBX_TXN_FULL /\ txl_max <= zlen L)).
Proof.
  intros Hok. unfold push_grow. destruct (rkl_ok_buffer r L Hok) as (_ & _ & Hlen & _ & Hw). zlen_pos.
  destruct (Z.eqb_spec (list_length r) (list_limit r)) as [El|Hne].
  - cbn zeta. set (wanna := if list_length r <? _ then _ else _).
    assert (zlen L < wanna /\ (txl_max < wanna -> txl_max <= zlen L)) as [Hwanna Hfull].
    { subst wanna. rewrite <- El, Hlen in *. rewrite (u32_small (zlen L + 1)) by (unfold UINT32_MAX; lia).
      rewrite Z.shiftl_mul_pow2, u32_small by (unfold UINT32_MAX; lia).
      set (x2 := if 62 <? _ then _ else _).
      assert (zlen L < x2) by (subst x2; destruct (Z.ltb_spec 62 ((zlen L + 1) * 2 ^ 1)); lia).
      set (x3 := if x2 <? txl_max then _ else _).
      assert (x3 = Z.min x2 txl_max) as -> by (subst x3; destruct (Z.ltb_spec x2 txl_max); lia).
      destruct (Z.ltb_spec (zlen L) (Z.min x2 txl_max)); [lia|]. rewrite u32_small by (unfold UINT32_MAX; lia). lia. }
    destruct (rkl_resize_spec al r L wanna Hok) as (err & r1 & E & Hok1 & Hss & Hres); [lia|].
    exists err, r1. split_and!; [done|done|done|]. destruct Hres as [[-> ?]|[Hres _]]; [left|right; tauto].
    split; [done|]. rewrite (ok_len _ _ Hok1). lia.
  - exists MDBX_SUCCESS, r. split_and!; [done..|]. left. split; [done|]. destruct (ok_room _ _ Hok). lia.
Qed.

(** The structure with [id] put between [A1] and [A2]. *)
Lemma push_insert_ok r A1 A2 id g junk : rkl_ok r (A1 ++ A2) -> solid_begin r < solid_end r ->
  rkl_list r = (A1 ++ A2) ++ g :: junk -> list_length r < list_limit r ->
  MIN_TXNID <= id < INVALID_TXNID -> id + 1 < solid_begin r \/ solid_end r < id ->
  (forall x, x ∈ A1 -> x < id) -> (forall x, x ∈ A2 -> id < x) ->
  let r2 := with_length (with_list r (A1 ++ id :: A2 ++ junk)) (zlen (A1 ++ A2) + 1) in
  rkl_ok r2 (A1 ++ id :: A2) /\ same_set r r2.
Proof.
  intros Hok Hsol Hj Hroom Hid Hfar H1 H2. cbn zeta.
  assert (forall b n, with_length (with_list r b) n =
    with_solid (with_length (with_list r b) n) (solid_begin r) (solid_end r)) as Hws.
  { intros b n. unfold with_list. by destruct r as [? ? ? ? [|] ?]. }
  split; [|by rewrite Hws]. rewrite Hws.
  replace (zlen (A1 ++ A2) + 1) with (zlen (A1 ++ id :: A2)) by zlia.
  replace (A1 ++ id :: A2 ++ junk) with ((A1 ++ id :: A2) ++ junk) by (by rewrite <- app_assoc).
  pose proof Hok as [_ Hlen _ _ _ _ _ Hasc Hids [(_ & ? & ?)|(Hb & He & _ & Hadj)]]; [uids; lia|].
  apply (rkl_ok_update r (A1 ++ A2)); try done; [rewrite Hj; zlia|zlia|..|lia|].
  - rewrite asc_app_iff in Hasc |- *. rewrite asc_cons_iff. destruct Hasc as (? & ? & HA).
    split_and!; [done..|]. intros x y Hx [->|Hy]%elem_of_cons; auto.
  - rewrite Forall_app in Hids |- *. rewrite Forall_cons. tauto.
  - intros _ x. rewrite elem_of_app, elem_of_cons. intros Hx.
    assert (x = id \/ x ∈ A1 ++ A2) as [->|Hx'] by (rewrite elem_of_app; tauto); [lia|]. by apply Hadj.
Qed.

Lemma push_list_spec cm al `{!AllocOk 8 al} r L id : rkl_ok r L -> solid_begin r < solid_end r ->
  MIN_TXNID <= id < INVALID_TXNID -> id + 1 < solid_begin r \/ solid_end r < id ->
  pushed al r L id (push_list cm al r id).
Proof.
  intros Hok Hsol Hid Hfar. unfold push_list.
  destruct (push_grow_spec al r L Hok) as (err & r1 & -> & Hok1 & [Hs1 Hs2] & Herr). cbn [mbind option_bind].
  assert (forall x, rkl_mem r1 L x <-> rkl_mem r L x) as Hmem1 by (intros x; unfold rkl_mem; by rewrite Hs1, Hs2).
  destruct Herr as [[-> Hroom]|Herr].
  2: { rewrite decide_True by (by destruct Herr as [[-> _]|[-> _]]). exists err, r1, L. split_and!; [done..|]. right. right. tauto. }
  rewrite decide_False by (intros Hn; by apply Hn).
  destruct (rkl_ok_buffer r1 L Hok1) as (junk & Hj & Hlen1 & Hz & _).
  pose proof (ok_room _ _ Hok1) as Hroom1. destruct junk as [|g junk]; [rewrite Hj, app_nil_r in Hroom1; lia|].
  pose proof (ok_asc _ _ Hok1) as Hasc. pose proof (ok_ids _ _ Hok1) as Hids.
  rewrite Hj, Hlen1.
  pose proof (push_place_spec id junk L [] g (S (Z.to_nat (zlen L)))) as Hplace. cbn [app] in Hplace.
  rewrite app_nil_r, zlen_nil, Z.add_0_r in Hplace.
  destruct Hplace as [(Hin & g' & ->)|(Hin & A1 & A2 & g' & EL & H1 & H2 & ->)].
  - done.
  - by intros x ?%elem_of_nil.
  - unfold zlen. lia.
  - cbn [mbind option_bind]. exists MDBX_RESULT_TRUE, (with_list r1 (L ++ g' :: junk)), L. split; [done|]. split.
    + apply rkl_ok_with_list; [done|]. rewrite Hj. zlia.
    + right. left. split; [done|]. split; [by right|]. intros x. rewrite <- Hmem1. unfold rkl_mem.
      unfold with_list. by destruct (heap r1).
  - cbn [mbind option_bind]. rewrite zset_app_mid by done. cbn [mbind option_bind].
    subst L. destruct (push_insert_ok r1 A1 A2 id g junk) as [Hok2 [Hs3 Hs4]]; try done; [lia..|].
    destruct (push_swap_spec cm _ A1 id A2 Hok2) as (r' & L' & -> & Hok' & Hmem'); [lia|].
    cbn [mbind option_bind]. exists MDBX_SUCCESS, r', L'. split; [done|]. split; [done|]. left. split; [done|].
    split; [intros [?|?]; [lia|done]|]. intros x. rewrite Hmem'. rewrite <- Hmem1. unfold rkl_mem.
    rewrite Hs3, Hs4, !elem_of_app, elem_of_cons. tauto.
Qed.

(** One element in the interval, one in the list, and the new id touches the
    latter: they change places. *)
Lemma push_couple_spec al r e id couple : rkl_ok r [e] -> solid_end r = solid_begin r + 1 ->
  MIN_TXNID <= id < INVALID_TXNID -> id + 1 < solid_begin r \/ solid_end r < id ->
  (e = id + 1 /\ couple = id) \/ (e = id - 1 /\ couple = id - 1) ->
  pushed al r [e] id (r' ← rkl_put r 0 (solid_begin r); Some (MDBX_SUCCESS, with_solid r' couple (u64 (couple + 2)))).
Proof.
  intros Hok Hone Hid Hfar Hc. destruct (rkl_ok_buffer _ _ Hok) as (junk & Hj & Hlen & _ & _).
  pose proof Hok as [_ _ Hroom _ _ _ _ Hasc Hids [(? & _)|(Hsb & Hse & _ & Hadj)]]; [done|].
  specialize (Hadj ltac:(lia) e ltac:(constructor)). rewrite Forall_singleton in Hids.
  rewrite u64_small by (uids; lia). unfold rkl_put. rewrite Hj. cbn [app]. rewrite zset_first. cbn [mbind option_bind].
  eexists MDBX_SUCCESS, _, [solid_begin r]. split; [done|].
  assert (forall b, with_list r b = with_length (with_list r b) (zlen [solid_begin r])) as Hwl.
  { intros b. change (zlen [solid_begin r]) with (zlen [e]). rewrite <- Hlen. unfold with_list. by destruct r as [? ? ? ? [|] ?]. }
  split; [|left; split_and!; [done| |]].
  - rewrite Hwl. apply (rkl_ok_update r [e] [solid_begin r] junk); try done.
    + by rewrite Hj.
    + rewrite Hlen in Hroom. destruct Hroom. done.
    + repeat constructor.
    + rewrite Forall_singleton. lia.
    + lia.
    + lia.
    + intros _ x Hx%list_elem_of_singleton. subst x. lia.
  - unfold rkl_mem. rewrite list_elem_of_singleton. lia.
  - intros x. unfold rkl_mem. cbn. rewrite !list_elem_of_singleton. lia.
Qed.

Lemma rkl_push_spec cm al `{!AllocOk 8 al} r L id : rkl_ok r L -> MIN_TXNID <= id < INVALID_TXNID ->
  pushed al r L id (rkl_push cm al r id).
Proof.
  intros Hok Hid. unfold rkl_push. rewrite (u64_small (id + 1)) by (uids; lia).
  pose proof (ok_solid _ _ Hok) as Hsolid.
  (** Every call of [extend_solid] has this shape. *)
  assert (forall sb se, MIN_TXNID <= sb <= id -> id < se <= INVALID_TXNID ->
    (forall x, sb <= x < se <-> x = id \/ solid_begin r <= x < solid_end r) ->
    ~ (solid_begin r <= id < solid_end r) ->
    (forall x, x ∈ L -> ~ (solid_begin r <= x < solid_end r)) ->
    pushed al r L id (extend_solid cm r sb se id)) as Hext.
  { intros sb se Hsb Hse Hrange Hnid Hdis.
    destruct (extend_solid_spec cm r L sb se id Hok Hsb Hse) as [(Hin & ->)|(Hin & r' & L' & -> & Hok' & Hmem)].
    - intros x Hx Hr. apply Hrange in Hr as [->|Hr]; [done|]. by apply Hdis in Hx.
    - exists MDBX_RESULT_TRUE, r, L. split_and!; [done..|]. right. left. split_and!; [done|by right|done].
    - exists MDBX_SUCCESS, r', L'. split_and!; [done..|]. left. split_and!; [done| |].
      + intros [?|?]; [lia|done].
      + intros x. rewrite Hmem, Hrange. unfold rkl_mem. tauto. }
  assert (forall x, x ∈ L -> ~ (solid_begin r <= x < solid_end r)) as Hdis.
  { intros x Hx Hr. destruct Hsolid as [(-> & _)|(_ & _ & _ & Hadj)]; [by apply elem_of_nil in Hx|].
    specialize (Hadj ltac:(lia) x Hx). lia. }
  destruct (Z.leb_spec (solid_end r) (solid_begin r)).
  { apply Hext; [lia|lia|intros; lia|lia|done]. }
  destruct Hsolid as [(_ & ? & ?)|(Hsb & Hse & _ & Hadj)]; [uids; lia|]. specialize (Hadj ltac:(lia)).
  set (insert := couple ← _; _).
  assert (id + 1 < solid_begin r \/ solid_end r < id -> pushed al r L id insert) as Hins.
  { intros Hfar. subst insert. pose proof (push_list_spec cm al r L id Hok ltac:(lia) Hid Hfar) as Hlist.
    destruct ((list_length r =? 1) && (solid_end r =? u64 (solid_begin r + 1))) eqn:E1; [|done].
    apply andb_true_iff in E1 as [E1%Z.eqb_eq E2%Z.eqb_eq]. rewrite u64_small in E2 by (uids; lia).
    destruct (rkl_ok_buffer _ _ Hok) as (junk & Hj & Hlen & _ & _).
    destruct L as [|e [|? L]]; [zlia| |zlia].
    assert (zget (rkl_list r) 0 = Some e) as -> by (by rewrite Hj). cbn [mbind option_bind].
    rewrite u64_small by (uids; lia).
    destruct (Z.eqb_spec e (id + 1)), (Z.eqb_spec e (id - 1)); cbn [orb]; try lia; cbn [mbind option_bind];
      try (apply (push_couple_spec al r e); try done; lia). done. }
  destruct (Z.ltb_spec id (solid_begin r)).
  - destruct (Z.eqb_spec (id + 1) (solid_begin r)).
    + apply Hext; [lia|lia|intros; lia|lia|done].
    + apply Hins. lia.
  - destruct (Z.leb_spec (solid_end r) id).
    + destruct (Z.eqb_spec id (solid_end r)); [|apply Hins; lia].
      apply Hext; [lia|lia|intros; lia|lia|done].
    + exists MDBX_RESULT_TRUE, r, L. split_and!; [done..|]. right. left. split_and!; [done| |done]. left. lia.
Qed.

(** ** Removing the lowest or the highest id *)

Lemma rkl_ok_cut r L L' junk' sb se : rkl_ok r L ->
  zlen (L' ++ junk') = zlen (rkl_list r) -> zlen L' <= list_limit r ->
  asc L' -> Forall (fun x => MIN_TXNID <= x < INVALID_TXNID) L' ->
  MIN_TXNID <= sb <= se -> se <= INVALID_TXNID ->
  (sb < se -> forall x, x ∈ L' -> x + 1 < sb \/ se < x) ->
  let r' := with_solid (with_length (with_list r (L' ++ junk')) (zlen L')) sb se in
  rkl_ok (after_cut r') L' /\ (forall x, rkl_mem (after_cut r') L' x <-> rkl_mem r' L' x).
Proof.
  intros Hok Hz Hle Hasc Hids H1 H2 H3 r'. unfold after_cut.
  destruct ((list_length r' =? 0) && (solid_begin r' =? solid_end r')) eqn:E.
  - apply andb_true_iff in E as [E1%Z.eqb_eq E2%Z.eqb_eq].
    assert (L' = []) as -> by (by apply zlen_0_nil). cbn in E2. subst se.
    split.
    + destruct (rkl_ok_update r L [] junk' MIN_TXNID (MIN_TXNID + 1)) as [? ? ? ? ? ? ? ? ? _]; try done.
      { by intros _ x ?%elem_of_nil. }
      split; try done. by left.
    + intros x. unfold rkl_mem. subst r'. cbn. rewrite elem_of_nil. uids. lia.
  - split; [|done]. apply (rkl_ok_update r L); try done. intros Esb EL. subst r'. cbn in E. rewrite EL, Esb in E. change (zlen []) with 0 in E. by rewrite !Z.eqb_refl in E.
Qed.

Lemma remove_first_loop_spec : forall T P g R (fuel : nat), T <> [] -> (length T <= fuel)%nat ->
  exists g', remove_first_loop fuel (P ++ g :: T ++ R) (zlen P) (zlen P + zlen T) = Some (P ++ T ++ g' :: R).
Proof.
  induction T as [|x T IH]; intros P g R fuel Hne Hf; [done|].
  destruct fuel as [|fuel]; [cbn in Hf; lia|]. cbn [remove_first_loop].
  assert (zget (P ++ g :: (x :: T) ++ R) (zlen P + 1) = Some x) as ->.
  { rewrite (cons_middle g), app_assoc. apply zget_app_mid. zlia. }
  cbn [mbind option_bind]. rewrite zset_app_mid by done. cbn [mbind option_bind].
  destruct (Z.ltb_spec (zlen P + 1) (zlen P + zlen (x :: T))) as [Hlt|Hge].
  - destruct (IH (P ++ [x]) x R fuel) as (g' & E).
    + intros ->. zlia.
    + cbn in Hf. lia.
    + exists g'. rewrite <- !app_assoc in E. cbn [app] in *. rewrite zlen_snoc in E.
      replace (zlen P + zlen (x :: T)) with (zlen P + 1 + zlen T) by zlia. exact E.
  - assert (T = []) as -> by (apply zlen_0_nil; zlia). by exists x.
Qed.

(** What a pop returns. *)
Definition popped (r : rkl) (L : list Z) (highest : bool) (res : option (rkl * Z)) : Prop :=
  (res = Some (r, 0) /\ (forall x, ~ rkl_mem r L x)) \/
  (exists r' L' x, res = Some (r', x) /\ rkl_ok r' L' /\ rkl_mem r L x /\
     (forall y, rkl_mem r L y -> if highest then y <= x else x <= y) /\
     (forall y, rkl_mem r' L' y <-> rkl_mem r L y /\ y <> x)).

(** The three ways to remove an element. *)
Lemma pop_last_ok r L x junk : rkl_ok r (L ++ [x]) -> solid_begin r <= solid_end r -> rkl_list r = (L ++ [x]) ++ junk ->
  rkl_ok (after_cut (with_length r (list_length r - 1))) L /\
  (forall y, rkl_mem (after_cut (with_length r (list_length r - 1))) L y <-> rkl_mem r L y).
Proof.
  intros Hok Hle Hj. pose proof Hok as [_ Hlen Hroom _ _ _ _ Hasc Hids [(? & _)|(Hsb & Hse & _ & Hadj)]]; [by destruct L|].
  assert (with_length r (list_length r - 1) =
    with_solid (with_length (with_list r (L ++ x :: junk)) (zlen L)) (solid_begin r) (solid_end r)) as E.
  { replace (L ++ x :: junk) with (rkl_list r) by (rewrite Hj; by rewrite <- app_assoc).
    rewrite with_list_id, Hlen, zlen_snoc, Z.add_simpl_r. by destruct r. }
  rewrite E. apply asc_snoc_iff in Hasc as [Hasc _]. apply Forall_app in Hids as [Hids _].
  destruct (rkl_ok_cut r (L ++ [x]) L (x :: junk) (solid_begin r) (solid_end r)) as [H1 H2]; try done.
  - rewrite Hj. zlia.
  - zlia.
  - intros Hlt y Hy. apply Hadj; [done|]. rewrite elem_of_app. auto.
Qed.

Lemma pop_first_ok r L x : rkl_ok r (x :: L) -> solid_begin r <= solid_end r ->
  exists r', list_remove_first r = Some (r', x) /\ rkl_ok (after_cut r') L /\
  (forall y, rkl_mem (after_cut r') L y <-> rkl_mem r L y).
Proof.
  intros Hok Hle. pose proof Hok as [[junk Hj] Hlen Hroom _ _ _ _ Hasc Hids [(? & _)|(Hsb & Hse & _ & Hadj)]]; [done|].
  unfold list_remove_first. rewrite Hj. cbn [mbind option_bind app].
  change (zget (x :: L ++ junk) 0) with (Some x). cbn [mbind option_bind].
  change (rkl_list (with_length r ?n)) with (rkl_list r).
  change (list_length (with_length r ?n)) with n. rewrite Hlen, zlen_cons, Z.add_simpl_r.
  apply asc_cons_iff in Hasc as [Hasc _]. apply Forall_cons in Hids as [_ Hids].
  assert (forall junk', zlen (L ++ junk') = zlen (rkl_list r) ->
    let r' := with_solid (with_length (with_list r (L ++ junk')) (zlen L)) (solid_begin r) (solid_end r) in
    rkl_ok (after_cut r') L /\ (forall x, rkl_mem (after_cut r') L x <-> rkl_mem r L x)) as Hcut.
  { intros junk' Hz. destruct (rkl_ok_cut r (x :: L) L junk' (solid_begin r) (solid_end r)) as [H1 H2]; try done.
    - zlia.
    - intros Hlt y Hy. apply Hadj; [done|]. by constructor. }
  destruct (Z.eqb_spec (zlen L) 0) as [E0|Hne]; cbn [negb].
  - apply zlen_0_nil in E0. subst L. cbn [app] in *. eexists. split; [done|].
    specialize (Hcut (x :: junk) ltac:(by rewrite Hj)).
    replace (with_solid (with_length (with_list r (x :: junk)) (zlen (@nil Z))) (solid_begin r) (solid_end r))
      with (with_length r (zlen (@nil Z))) in Hcut; [done|]. rewrite <- Hj, with_list_id. by destruct r.
  - destruct (remove_first_loop_spec L [] x junk (Z.to_nat (zlen L))) as (g' & E).
    { by intros ->. } { unfold zlen. lia. }
    cbn [app] in E. change (zlen (@nil Z)) with 0 in E. rewrite Z.add_0_l in E. rewrite Hj. cbn [app]. rewrite E. cbn [mbind option_bind].
    eexists. split; [done|]. specialize (Hcut (g' :: junk) ltac:(rewrite Hj; zlia)).
    replace (with_solid (with_length (with_list r (L ++ g' :: junk)) (zlen L)) (solid_begin r) (solid_end r))
      with (with_list (with_length r (zlen L)) (L ++ g' :: junk)) in Hcut; [done|].
    unfold with_list. by destruct r as [? ? ? ? [|] ?].
Qed.

Lemma pop_solid_ok r L sb se : rkl_ok r L -> solid_begin r < solid_end r ->
  (sb = solid_begin r /\ se = solid_end r - 1) \/ (sb = solid_begin r + 1 /\ se = solid_end r) ->
  rkl_ok (after_cut (with_solid r sb se)) L /\
  (forall y, rkl_mem (after_cut (with_solid r sb se)) L y <-> sb <= y < se \/ y ∈ L).
Proof.
  intros Hok Hlt Hcase. pose proof Hok as [[junk Hj] Hlen Hroom _ _ _ _ Hasc Hids [(? & ? & ?)|(Hsb & Hse & _ & Hadj)]]; [uids; lia|].
  specialize (Hadj Hlt).
  destruct (rkl_ok_cut r L L junk sb se) as [H1 H2]; try done; [by rewrite Hj|lia|lia|lia|..].
  { intros Hs x Hx. specialize (Hadj x Hx). lia. }
  rewrite <- Hj, with_list_id, <- Hlen, with_length_id in H1, H2. done.
Qed.

Lemma rkl_ok_solid_le r L : rkl_ok r L -> L <> [] -> MIN_TXNID <= solid_begin r <= solid_end r /\
  (solid_begin r < solid_end r -> forall x, x ∈ L -> x + 1 < solid_begin r \/ solid_end r < x).
Proof. intros [_ _ _ _ _ _ _ _ _ [(? & _)|(? & _ & _ & ?)]] Hne; done. Qed.

Lemma solid_empty_spec r : if solid_empty r then solid_end r <= solid_begin r else solid_begin r < solid_end r.
Proof. unfold solid_empty. by destruct (Z.ltb_spec (solid_begin r) (solid_end r)). Qed.

Lemma pop_highest_spec r L : rkl_ok r L -> popped r L true (rkl_pop r true).
Proof.
  intros Hok. destruct (rkl_ok_buffer _ _ Hok) as (junk & Hj & Hlen & _ & _). unfold rkl_pop.
  set (solid := if negb (solid_empty r) then _ else _).
  assert ((forall x, x ∈ L -> solid_begin r < solid_end r /\ x < solid_end r) -> popped r L true solid) as Hsolid.
  { intros Hlow. subst solid. pose proof (solid_empty_spec r) as Hse. destruct (solid_empty r); cbn [negb].
    - left. split; [done|]. intros x [?|Hx]; [lia|]. specialize (Hlow x Hx). lia.
    - right. destruct (pop_solid_ok r L (solid_begin r) (solid_end r - 1) Hok) as [Hok' Hmem']; [lia|lia|].
      eexists _, L, (solid_end r - 1). split; [done|]. split; [done|]. split; [left; lia|]. split.
      + intros y [?|Hy]; [lia|]. specialize (Hlow y Hy). lia.
      + intros y. rewrite Hmem'. unfold rkl_mem.
        assert (y ∈ L -> y <> solid_end r - 1).
        { intros Hy. destruct (rkl_ok_solid_le r L Hok) as [_ Hadj]; [by intros ->; apply elem_of_nil in Hy|].
          specialize (Hadj ltac:(lia) y Hy). lia. }
        split; [intros [?|?]; split; [left; lia|lia|by right|auto]|intros [[?|?] ?]; [left; lia|by right]]. }
  destruct (Z.eqb_spec (list_length r) 0) as [E0|Hne]; cbn [negb].
  { apply Hsolid. rewrite Hlen in E0. apply zlen_0_nil in E0. subst L. by intros x ?%elem_of_nil. }
  destruct (zsplit_snoc L) as (L0 & x & ->); [zlia|].
  rewrite Hlen, zlen_snoc, Z.add_simpl_r, Hj, <- app_assoc. cbn [app]. rewrite zget_app_mid by done. cbn [mbind option_bind].
  destruct (rkl_ok_solid_le _ _ Hok) as [Hsb Hadj]; [by destruct L0|].
  pose proof (ok_asc _ _ Hok) as [Hasc Hx]%asc_snoc_iff. pose proof (solid_empty_spec r) as Hse.
  destruct (solid_empty r || (solid_end r <? x)) eqn:Ec.
  - right. destruct (pop_last_ok r L0 x junk) as [Hok' Hmem']; [done|lia|done|].
    rewrite Hlen, zlen_snoc, Z.add_simpl_r in Hok', Hmem'.
    eexists _, L0, x. split; [done|]. split; [done|]. split; [right; rewrite elem_of_app; right; constructor|].
    assert (forall y, rkl_mem r L0 y -> y < x) as Hmax.
    { intros y [Hy|Hy]; [|auto]. destruct (solid_empty r); [lia|]. cbn in Ec. lia. }
    split.
    + intros y. unfold rkl_mem. rewrite elem_of_app, list_elem_of_singleton. intros Hy.
      assert (y = x \/ rkl_mem r L0 y) as [->|Hy'] by (unfold rkl_mem; tauto); [lia|]. specialize (Hmax y Hy'). lia.
    + intros y. rewrite Hmem'. split.
      * intros Hy. specialize (Hmax y Hy). split; [|lia]. unfold rkl_mem in *. rewrite elem_of_app. tauto.
      * unfold rkl_mem. rewrite elem_of_app, list_elem_of_singleton. tauto.
  - apply orb_false_iff in Ec as [Ec1 Ec2%Z.ltb_ge]. rewrite Ec1 in Hse. apply Hsolid. intros y Hy. split; [done|].
    specialize (Hadj Hse y Hy).
    assert (y <= x) by (apply elem_of_app in Hy as [Hy|Hy%list_elem_of_singleton]; [specialize (Hx y Hy)|]; lia). lia.
Qed.

Lemma pop_lowest_spec r L : rkl_ok r L -> popped r L false (rkl_pop r false).
Proof.
  intros Hok. destruct (rkl_ok_buffer _ _ Hok) as (junk & Hj & Hlen & _ & _). unfold rkl_pop.
  set (solid := if negb (solid_empty r) then _ else _).
  assert ((forall x, x ∈ L -> solid_begin r < solid_end r /\ solid_begin r <= x) -> popped r L false solid) as Hsolid.
  { intros Hhigh. subst solid. pose proof (solid_empty_spec r) as Hse. destruct (solid_empty r); cbn [negb].
    - left. split; [done|]. intros x [?|Hx]; [lia|]. specialize (Hhigh x Hx). lia.
    - right. destruct (pop_solid_ok r L (solid_begin r + 1) (solid_end r) Hok) as [Hok' Hmem']; [lia|lia|].
      eexists _, L, (solid_begin r). split; [done|]. split; [done|]. split; [left; lia|]. split.
      + intros y [?|Hy]; [lia|]. specialize (Hhigh y Hy). lia.
      + intros y. rewrite Hmem'. unfold rkl_mem.
        assert (y ∈ L -> y <> solid_begin r).
        { intros Hy. destruct (rkl_ok_solid_le r L Hok) as [_ Hadj]; [by intros ->; apply elem_of_nil in Hy|].
          specialize (Hadj ltac:(lia) y Hy). lia. }
        split; [intros [?|?]; split; [left; lia|lia|by right|auto]|intros [[?|?] ?]; [left; lia|by right]]. }
  destruct (Z.eqb_spec (list_length r) 0) as [E0|Hne]; cbn [negb].
  { apply Hsolid. rewrite Hlen in E0. apply zlen_0_nil in E0. subst L. by intros x ?%elem_of_nil. }
  destruct L as [|x L]; [zlia|]. rewrite Hj. change (zget ((x :: L) ++ junk) 0) with (Some x). cbn [mbind option_bind].
  destruct (rkl_ok_solid_le _ _ Hok) as [Hsb Hadj]; [done|].
  pose proof (ok_asc _ _ Hok) as [Hasc Hx]%asc_cons_iff. pose proof (solid_empty_spec r) as Hse.
  destruct (solid_empty r || (x <? solid_begin r)) eqn:Ec.
  - right. destruct (pop_first_ok r L x) as (r' & -> & Hok' & Hmem'); [done|lia|]. cbn [mbind option_bind].
    eexists _, L, x. split; [done|]. split; [done|]. split; [right; constructor|].
    assert (forall y, rkl_mem r L y -> x < y) as Hmin.
    { intros y [Hy|Hy]; [|auto]. destruct (solid_empty r); [lia|]. cbn in Ec. lia. }
    split.
    + intros y. unfold rkl_mem. rewrite elem_of_cons. intros Hy.
      assert (y = x \/ rkl_mem r L y) as [->|Hy'] by (unfold rkl_mem; tauto); [lia|]. specialize (Hmin y Hy'). lia.
    + intros y. rewrite Hmem'. split.
      * intros Hy. specialize (Hmin y Hy). split; [|lia]. unfold rkl_mem in *. rewrite elem_of_cons. tauto.
      * unfold rkl_mem. rewrite elem_of_cons. tauto.
  - apply orb_false_iff in Ec as [Ec1 Ec2%Z.ltb_ge]. rewrite Ec1 in Hse. apply Hsolid. intros y Hy. split; [done|].
    assert (x <= y) by (apply elem_of_cons in Hy as [->|Hy]; [|specialize (Hx y Hy)]; lia). lia.
Qed.

(** ** Membership, extremes and merging *)

Lemma rkl_contain_spec cm r L id : rkl_ok r L ->
  exists b, rkl_contain cm r id = Some b /\ (b = true <-> rkl_mem r L id).
Proof.
  intros Hok. destruct (rkl_ok_buffer _ _ Hok) as (junk & Hj & Hlen & Hz & _). unfold rkl_contain, rkl_mem.
  destruct ((solid_begin r <=? id) && (id <? solid_end r)) eqn:E.
  { exists true. split; [done|]. split; [|done]. intros _. left. lia. }
  destruct (Z.eqb_spec (list_length r) 0) as [E0|Hne]; cbn [negb].
  { rewrite Hlen in E0. apply zlen_0_nil in E0. subst L. exists false. split; [done|]. rewrite elem_of_nil. lia. }
  rewrite Hj, Hlen.
  destruct (rkl_bsearch_spec cm L junk id (ok_asc _ _ Hok)) as (A & B & EL & HA & HB & ->); [by rewrite <- Hj|].
  cbn [mbind option_bind]. pose proof (ok_asc _ _ Hok) as Hasc. rewrite EL in Hasc |- *.
  apply asc_app_iff in Hasc as (_ & HascB & _).
  assert (id ∈ A ++ B <-> exists B', B = id :: B') as Hin.
  { rewrite elem_of_app. split.
    - intros [Hi|Hi]; [specialize (HA id Hi); lia|]. destruct B as [|y B]; [by apply elem_of_nil in Hi|].
      apply asc_cons_iff in HascB as [_ Hy]. apply elem_of_cons in Hi as [->|Hi]; [eauto|].
      specialize (Hy id Hi). specialize (HB y ltac:(constructor)). lia.
    - intros [B' ->]. right. constructor. }
  destruct B as [|y B].
  - rewrite app_nil_r, Z.eqb_refl. exists false. split; [done|]. split; [done|]. rewrite app_nil_r in Hin.
    intros [?|[? ?]%Hin]; [lia|done].
  - destruct (Z.eqb_spec (zlen A) (zlen (A ++ y :: B))); [zlia|]. cbn [negb].
    rewrite <- app_assoc. cbn [app]. rewrite zget_app_mid by done. cbn [mbind option_bind].
    exists (y =? id). split; [done|]. rewrite Hin. split.
    + intros ->%Z.eqb_eq. right. eauto.
    + intros [?|[? [= -> _]]]; [lia|]. apply Z.eqb_refl.
Qed.

Lemma rkl_lowest_spec r L : rkl_ok r L -> exists x, rkl_lowest r = Some x /\
  ((x = INVALID_TXNID /\ (forall y, ~ rkl_mem r L y)) \/
   (rkl_mem r L x /\ (forall y, rkl_mem r L y -> x <= y))).
Proof.
  intros Hok. destruct (rkl_ok_buffer _ _ Hok) as (junk & Hj & Hlen & _ & _). unfold rkl_lowest.
  pose proof (solid_empty_spec r) as Hse.
  destruct (Z.eqb_spec (list_length r) 0) as [E0|Hne]; cbn [negb] in *.
  - rewrite Hlen in E0. apply zlen_0_nil in E0. subst L. destruct (solid_empty r); cbn [negb] in *; eexists; (split; [done|]).
    + left. split; [done|]. intros y [?|?%elem_of_nil]; [lia|done].
    + right. split; [left; lia|]. intros y [?|?%elem_of_nil]; [lia|done].
  - destruct L as [|x L]; [zlia|]. rewrite Hj in *. change (zget ((x :: L) ++ junk) 0) with (Some x) in *. cbn [mbind option_bind] in *.
    eexists. split; [done|]. right. destruct (rkl_ok_solid_le _ _ Hok) as [Hsb Hadj]; [done|].
    pose proof (ok_asc _ _ Hok) as [Hasc Hx]%asc_cons_iff.
    assert (forall y, y ∈ x :: L -> x <= y) as Hmin by (intros y [->|Hy]%elem_of_cons; [|specialize (Hx y Hy)]; lia).
    destruct (solid_empty r || (x <? solid_begin r)) eqn:Ec.
    + split; [right; constructor|]. intros y [?|Hy]; [|auto]. destruct (solid_empty r); [lia|]. cbn in Ec. lia.
    + apply orb_false_iff in Ec as [Ec1 Ec2%Z.ltb_ge]. rewrite Ec1 in Hse. split; [left; lia|].
      intros y [?|Hy]; [lia|]. specialize (Hmin y Hy). lia.
Qed.

Lemma rkl_highest_spec r L : rkl_ok r L -> exists x, rkl_highest r = Some x /\
  ((x = 0 /\ (forall y, ~ rkl_mem r L y)) \/
   (rkl_mem r L x /\ (forall y, rkl_mem r L y -> y <= x))).
Proof.
  intros Hok. destruct (rkl_ok_buffer _ _ Hok) as (junk & Hj & Hlen & _ & _). unfold rkl_highest.
  pose proof (solid_empty_spec r) as Hse.
  destruct (Z.eqb_spec (list_length r) 0) as [E0|Hne]; cbn [negb] in *.
  - rewrite Hlen in E0. apply zlen_0_nil in E0. subst L. destruct (solid_empty r); cbn [negb] in *; eexists; (split; [done|]).
    + left. split; [done|]. intros y [?|?%elem_of_nil]; [lia|done].
    + right. split; [left; lia|]. intros y [?|?%elem_of_nil]; [lia|done].
  - destruct (zsplit_snoc L) as (L0 & x & ->); [zlia|].
    rewrite Hlen, zlen_snoc, Z.add_simpl_r, Hj, <- app_assoc. cbn [app]. rewrite zget_app_mid by done. cbn [mbind option_bind].
    eexists. split; [done|]. right. destruct (rkl_ok_solid_le _ _ Hok) as [Hsb Hadj]; [by destruct L0|].
    pose proof (ok_asc _ _ Hok) as [Hasc Hx]%asc_snoc_iff.
    assert (forall y, y ∈ L0 ++ [x] -> y <= x) as Hmax.
    { intros y [Hy|Hy%list_elem_of_singleton]%elem_of_app; [specialize (Hx y Hy)|]; lia. }
    destruct (solid_empty r || (solid_end r <=? x)) eqn:Ec.
    + split; [right; rewrite elem_of_app; right; constructor|]. intros y [?|Hy]; [|auto]. destruct (solid_empty r); [lia|]. cbn in Ec. lia.
    + apply orb_false_iff in Ec as [Ec1 Ec2%Z.leb_gt]. rewrite Ec1 in Hse. split; [left; lia|].
      intros y [?|Hy]; [lia|]. specialize (Hmax y Hy). lia.
Qed.

(** ** Claims *)

(** C15: adding a transaction id to a reclaimed-key list. The list stays well
    formed (an interval and a strictly ascending list outside of it that does
    not touch it from below). [MDBX_SUCCESS] says that the id was not there
    and is now, [MDBX_RESULT_TRUE] that it was there before; [MDBX_ENOMEM] comes
    from a failed allocation only and [MDBX_TXN_FULL] from a list at the limit
    only, and both keep the set. *)
Theorem rkl_push_adds cm al `{!AllocOk 8 al} r L id : rkl_ok r L -> MIN_TXNID <= id < INVALID_TXNID ->
  pushed al r L id (rkl_push cm al r id).
Proof. apply rkl_push_spec. done. Qed.

(** The interval [5, 8) and the ids 1 and 20. *)
Definition sample_rkl : rkl := mk_rkl 5 8 2 12 None [1; 20; 0; 0; 0; 0; 0; 0; 0; 0; 0; 0].

Lemma sample_rkl_ok : rkl_ok sample_rkl [1; 20].
Proof.
  split.
  - by exists [0; 0; 0; 0; 0; 0; 0; 0; 0; 0].
  - reflexivity.
  - by vm_compute.
  - by vm_compute.
  - reflexivity.
  - by vm_compute.
  - reflexivity.
  - repeat constructor; lia.
  - repeat constructor; by vm_compute.
  - right. split; [by vm_compute|]. split; [by vm_compute|]. split; [done|].
    intros _ x. cbn [solid_begin solid_end sample_rkl]. rewrite !elem_of_cons, elem_of_nil. lia.
Qed.

Lemma rkl_push_adds_witness : pushed (exact_allocator 8) sample_rkl [1; 20] 4 (rkl_push true (exact_allocator 8) sample_rkl 4) /\
  exists r', rkl_push true (exact_allocator 8) sample_rkl 4 = Some (MDBX_SUCCESS, r').
Proof.
  split; [|eexists; by vm_compute].
  apply (rkl_push_adds true (exact_allocator 8) (AllocOk0 := exact_allocator_ok 8 ltac:(lia)) sample_rkl [1; 20] 4);
    [apply sample_rkl_ok|by vm_compute].
Defined.

(** Taking an id off either end returns the greatest or the least id of the
    set and removes just that one, or returns 0 when the set is empty; the
    accessors for both ends return the same ids, and the membership test
    decides membership. *)
Theorem rkl_ends cm r L highest id : rkl_ok r L ->
  popped r L highest (rkl_pop r highest) /\
  (exists x, rkl_lowest r = Some x /\ ((x = INVALID_TXNID /\ (forall y, ~ rkl_mem r L y)) \/
    (rkl_mem r L x /\ (forall y, rkl_mem r L y -> x <= y)))) /\
  (exists x, rkl_highest r = Some x /\ ((x = 0 /\ (forall y, ~ rkl_mem r L y)) \/
    (rkl_mem r L x /\ (forall y, rkl_mem r L y -> y <= x)))) /\
  (exists b, rkl_contain cm r id = Some b /\ (b = true <-> rkl_mem r L id)).
Proof.
  intros Hok. split_and!; [destruct highest; [by apply pop_highest_spec|by apply pop_lowest_spec]|
    by apply rkl_lowest_spec|by apply rkl_highest_spec|by apply rkl_contain_spec].
Qed.

Lemma rkl_ends_witness : popped sample_rkl [1; 20] true (rkl_pop sample_rkl true) /\
  exists r', rkl_pop sample_rkl true = Some (r', 20).
Proof.
  split; [|eexists; by vm_compute]. apply (rkl_ends true sample_rkl [1; 20] true 6). apply sample_rkl_ok.
Defined.
