(* ===== verification/RklIter.v ===== *)
(** * Sets of transaction ids: iteration, search, merging and copying

    The ids of a set in ascending order are [rkl_ids]; an iterator is a
    position in this list. *)

From stdpp Require Import base list numbers option sorting.
From Stdlib Require Import ZArith Lia.
From S2P Require Import Prelude Search Bits Alloc Pnl Rkl RklProofs.

(** ** The ids in order *)

(** A list is split at a value in one way only. *)
Lemma split_unique (t : Z) A B A' B' : A ++ B = A' ++ B' ->
  (forall x, x ∈ A -> x < t) -> (forall x, x ∈ B -> t <= x) ->
  (forall x, x ∈ A' -> x < t) -> (forall x, x ∈ B' -> t <= x) -> A = A' /\ B = B'.
Proof.
  intros E HA HB HA' HB'.
  destruct (app_eq_inv _ _ _ _ E) as [(k & -> & ->)|(k & -> & ->)]; destruct k as [|y k]; rewrite ?app_nil_r; try done; exfalso.
  - specialize (HB' y). specialize (HA y). rewrite elem_of_app, elem_of_cons in HB'. rewrite elem_of_app, elem_of_cons in HA.
    specialize (HB' ltac:(auto)). specialize (HA ltac:(auto)). lia.
  - specialize (HA' y). specialize (HB y). rewrite elem_of_app, elem_of_cons in HA'. rewrite elem_of_app, elem_of_cons in HB.
    specialize (HA' ltac:(auto)). specialize (HB ltac:(auto)). lia.
Qed.

Lemma rkl_ids_split r L : rkl_ok r L -> exists A B, L = A ++ B /\
  (forall x, x ∈ A -> x < solid_begin r) /\ (forall x, x ∈ B -> solid_begin r <= x) /\
  rkl_ids r L = A ++ seqZ (solid_begin r) (solid_end r - solid_begin r) ++ B.
Proof.
  intros Hok. destruct (rkl_ok_buffer _ _ Hok) as (junk & Hj & _ & Hz & _).
  destruct (rkl_bsearch_spec false L junk (solid_begin r) (ok_asc _ _ Hok)) as (A & B & EL & HA & HB & _); [done|].
  exists A, B. split_and!; [done..|]. unfold rkl_ids. rewrite EL, !filter_app.
  rewrite (filter_all _ A), (filter_none _ B), (filter_none (fun x => ~ x < _) A), (filter_all (fun x => ~ x < _) B).
  - by rewrite app_nil_r.
  - intros x Hx. specialize (HB x Hx). lia.
  - intros x Hx. specialize (HA x Hx). lia.
  - intros x Hx. specialize (HB x Hx). lia.
  - intros x Hx. specialize (HA x Hx). lia.
Qed.

Lemma elem_rkl_ids r L x : rkl_ok r L -> x ∈ rkl_ids r L <-> rkl_mem r L x.
Proof.
  intros Hok. destruct (rkl_ids_split r L Hok) as (A & B & EL & _ & _ & ->).
  unfold rkl_mem. rewrite EL, !elem_of_app, elem_of_seqZ.
  replace (solid_begin r + (solid_end r - solid_begin r)) with (solid_end r) by lia. tauto.
Qed.

Lemma asc_rkl_ids r L : rkl_ok r L -> asc (rkl_ids r L).
Proof.
  intros Hok. destruct (rkl_ids_split r L Hok) as (A & B & EL & HA & HB & ->).
  pose proof (ok_asc _ _ Hok) as Hasc. rewrite EL in Hasc. apply asc_app_iff in Hasc as (HascA & HascB & HAB).
  rewrite !asc_app_iff. split_and!; [done|apply asc_seqZ|done|..].
  - intros x y Hx%elem_of_seqZ Hy. destruct (rkl_ok_solid_le _ _ Hok) as [_ Hadj].
    { rewrite EL. intros [-> ->]%app_eq_nil. by apply elem_of_nil in Hy. }
    specialize (HB y Hy). specialize (Hadj ltac:(lia) y). rewrite EL, elem_of_app in Hadj. specialize (Hadj ltac:(auto)). lia.
  - intros x y Hx [Hy%elem_of_seqZ|Hy]%elem_of_app; [|by apply HAB]. specialize (HA x Hx). lia.
Qed.

(** The interval is an empty one, or both ends are in order. *)
Lemma rkl_solid_cases r L : rkl_ok r L ->
  (L = [] /\ solid_begin r = UINT64_MAX /\ solid_end r = 0) \/
  (0 < solid_begin r <= solid_end r /\ solid_end r <= UINT64_MAX).
Proof. intros [_ _ _ _ _ _ _ _ _ [?|(? & ? & _)]]; [by left|right]. uids. lia. Qed.

Lemma rkl_len_spec r L : rkl_ok r L -> rkl_len r = zlen (rkl_ids r L).
Proof.
  intros Hok. destruct (rkl_ids_split r L Hok) as (A & B & EL & _ & _ & ->). unfold rkl_len, rkl_empty.
  pose proof (ok_len _ _ Hok) as Hlen. autorewrite with zlen.
  destruct (rkl_solid_cases r L Hok) as [(-> & -> & ->)|[Hsb Hse]].
  - symmetry in EL. apply app_eq_nil in EL as [-> ->]. done.
  - destruct (Z.ltb_spec (solid_end r) (solid_begin r)); [lia|]. rewrite u64_small by lia.
    rewrite zlen_seqZ by lia. rewrite Hlen, EL, zlen_app. lia.
Qed.

(** ** Iterators *)

(** The offset of the interval among the ids. *)
Definition offset_ok (r : rkl) (L : list Z) (so : Z) : Prop :=
  L = [] /\ so = 0 \/ L <> [] /\ solid_end r <= solid_begin r /\ so = 0 \/
  L <> [] /\ solid_begin r < solid_end r /\ exists A B, L = A ++ B /\ so = zlen A /\
    (forall x, x ∈ A -> x < solid_begin r) /\ (forall x, x ∈ B -> solid_begin r <= x).

Definition iter_ok (r : rkl) (L : list Z) (it : rkl_iter) : Prop :=
  0 <= pos it <= zlen (rkl_ids r L) /\ offset_ok r L (solid_offset it).

Lemma rkl_iterator_spec cm r L reverse : rkl_ok r L -> zlen (rkl_ids r L) <= UINT32_MAX ->
  exists it, rkl_iterator cm r reverse = Some it /\ iter_ok r L it /\
    pos it = if reverse then zlen (rkl_ids r L) else 0.
Proof.
  intros Hok Hw. destruct (rkl_ok_buffer _ _ Hok) as (junk & Hj & Hlen & Hz & Hlim).
  unfold rkl_iterator. rewrite (rkl_len_spec r L Hok). zlen_pos. rewrite u32_small by lia.
  pose proof (solid_empty_spec r) as Hse.
  assert (forall so, offset_ok r L so -> iter_ok r L (mk_iter (if reverse then zlen (rkl_ids r L) else 0) so)) as Hit.
  { intros so Hso. split; [|done]. cbn. destruct reverse; lia. }
  destruct (solid_empty r); cbn [negb andb].
  - eexists. split; [done|]. split; [|done]. apply Hit. destruct L; [by left|right; left]. done.
  - destruct (Z.eqb_spec (list_length r) 0) as [E0|Hne]; cbn [negb].
    + eexists. split; [done|]. split; [|done]. apply Hit. left. split; [|done]. apply zlen_0_nil. lia.
    + rewrite Hj, Hlen.
      destruct (rkl_bsearch_spec cm L junk (solid_begin r) (ok_asc _ _ Hok)) as (A & B & EL & HA & HB & ->); [by rewrite <- Hj|].
      cbn [mbind option_bind]. eexists. split; [done|]. split; [|done]. apply Hit. right. right.
      split; [by intros ->; rewrite zlen_nil in Hlen|]. split; [done|]. exists A, B. split_and!; try done.
      rewrite u32_small; [done|]. subst L. unfold UINT32_MAX. zlia.
Qed.

(** The id at a position, computed the way [rkl_turn] does. *)
Lemma rkl_ids_at r L so p : rkl_ok r L -> offset_ok r L so -> 0 <= p < zlen (rkl_ids r L) ->
  exists x, zget (rkl_ids r L) p = Some x /\
  (if negb (list_length r =? 0) then
     if p <? so then zget (rkl_list r) p
     else if p <? so + u64 (solid_end r - solid_begin r) then Some (u64 (solid_begin r + p - so))
     else zget (rkl_list r) (p - u64 (solid_end r - solid_begin r))
   else Some (u64 (solid_begin r + p))) = Some x.
Proof.
  intros Hok Hso Hp. destruct (rkl_ids_split r L Hok) as (A & B & EL & HA & HB & Eids). rewrite Eids in *.
  destruct (rkl_ok_buffer _ _ Hok) as (junk & Hj & Hlen & _ & _). rewrite Hlen, Hj.
  pose proof (rkl_solid_cases r L Hok) as Hsol.
  assert (forall k, 0 <= k < solid_end r - solid_begin r ->
    zget (seqZ (solid_begin r) (solid_end r - solid_begin r)) k = Some (solid_begin r + k)) as Hseq.
  { intros k Hk. unfold zget. zcase; [|lia]. apply lookup_seqZ. lia. }
  assert (forall k, 0 <= k < solid_end r - solid_begin r -> u64 (solid_begin r + k) = solid_begin r + k) as Hu.
  { intros k Hk. apply u64_small. destruct Hsol as [(_ & ? & ?)|?]; [unfold UINT64_MAX in *; lia|lia]. }
  destruct (decide (L = [])) as [->|Hne].
  - symmetry in EL. apply app_eq_nil in EL as [-> ->]. cbn [app] in *. rewrite app_nil_r in *.
    change (zlen (@nil Z) =? 0) with true. cbn [negb].
    assert (0 <= p < solid_end r - solid_begin r) as Hp'.
    { unfold zlen in Hp. rewrite length_seqZ in Hp. lia. }
    rewrite Hseq, Hu by done. eauto.
  - destruct Hsol as [(? & _)|[Hsb Hse]]; [done|].
    destruct (Z.eqb_spec (zlen L) 0) as [E0|_]; [by apply zlen_0_nil in E0|]. cbn [negb].
    rewrite u64_small by lia. autorewrite with zlen in Hp. rewrite zlen_seqZ in Hp by lia.
    destruct Hso as [(? & _)|[(_ & Hemp & ->)|(_ & Hlt & A' & B' & EL' & -> & HA' & HB')]]; [done| |].
    + destruct (Z.ltb_spec p 0); [lia|]. replace (solid_end r - solid_begin r) with 0 in * by lia.
      destruct (Z.ltb_spec p (0 + 0)); [lia|]. cbn [app seqZ fmap list_fmap]. rewrite Z.sub_0_r.
      change (seqZ (solid_begin r) 0) with (@nil Z). cbn [app]. rewrite <- EL. rewrite zget_app_l by (subst L; zlia).
      destruct (zget_in L p) as [x Hx]; [subst L; zlia|]. eauto.
    + assert (A' = A /\ B' = B) as [-> ->].
      { apply (split_unique (solid_begin r)); [congruence|done..]. }
      destruct (Z.ltb_spec p (zlen A)); [|destruct (Z.ltb_spec p (zlen A + (solid_end r - solid_begin r)))].
      * rewrite zget_app_l, EL, <- app_assoc, zget_app_l by lia. destruct (zget_in A p) as [x Hx]; [lia|]. eauto.
      * rewrite (zget_app_skip _ _ p (p - zlen A)) by lia. rewrite (zget_app_l (seqZ _ _)) by (rewrite zlen_seqZ; lia).
        rewrite Hseq by lia. replace (solid_begin r + p - zlen A) with (solid_begin r + (p - zlen A)) by lia.
        rewrite Hu by lia. eauto.
      * set (k := p - zlen A - (solid_end r - solid_begin r)).
        rewrite (zget_app_skip _ _ p (p - zlen A)) by lia.
        rewrite (zget_app_skip (seqZ _ _) _ (p - zlen A) k) by (rewrite ?zlen_seqZ; lia).
        rewrite EL, zget_app_l, (zget_app_skip _ _ _ k) by zlia.
        destruct (zget_in B k) as [x Hx]; [lia|]. eauto.
Qed.

Lemma rkl_turn_forward r L it : rkl_ok r L -> iter_ok r L it -> zlen (rkl_ids r L) <= UINT32_MAX ->
  (pos it = zlen (rkl_ids r L) /\ rkl_turn r it false = Some (it, 0)) \/
  (exists x, zget (rkl_ids r L) (pos it) = Some x /\
     rkl_turn r it false = Some (mk_iter (pos it + 1) (solid_offset it), x)).
Proof.
  intros Hok [Hpos Hso] Hw. unfold rkl_turn. rewrite (rkl_len_spec r L Hok), Z.sub_0_r, u32_small by lia.
  destruct (Z.leb_spec (zlen (rkl_ids r L)) (pos it)); [left; split; [lia|done]|right].
  rewrite u32_small by lia.
  destruct (rkl_ids_at r L (solid_offset it) (pos it) Hok Hso) as (x & Hx & E); [lia|]. exists x. split; [done|].
  destruct (negb (list_length r =? 0)); [|by injection E as ->].
  destruct (pos it <? solid_offset it); [by rewrite E|].
  destruct (pos it <? solid_offset it + u64 (solid_end r - solid_begin r)); [by injection E as ->|by rewrite E].
Qed.

Lemma rkl_turn_backward r L it : rkl_ok r L -> iter_ok r L it -> zlen (rkl_ids r L) <= UINT32_MAX ->
  (pos it = 0 /\ rkl_turn r it true = Some (it, 0)) \/
  (exists x, zget (rkl_ids r L) (pos it - 1) = Some x /\
     rkl_turn r it true = Some (mk_iter (pos it - 1) (solid_offset it), x)).
Proof.
  intros Hok [Hpos Hso] Hw. unfold rkl_turn. rewrite (rkl_len_spec r L Hok).
  destruct (decide (pos it = 0)) as [E0|Hne].
  - left. split; [done|]. rewrite E0. change (u32 (0 - 1)) with UINT32_MAX.
    destruct (Z.leb_spec (zlen (rkl_ids r L)) UINT32_MAX); [done|lia].
  - right. rewrite u32_small by lia. destruct (Z.leb_spec (zlen (rkl_ids r L)) (pos it - 1)); [lia|].
    rewrite Z.add_0_r, u32_small by lia.
    destruct (rkl_ids_at r L (solid_offset it) (pos it - 1) Hok Hso) as (x & Hx & E); [lia|]. exists x. split; [done|].
    destruct (negb (list_length r =? 0)); [|by injection E as ->].
    destruct (pos it - 1 <? solid_offset it); [by rewrite E|].
    destruct (pos it - 1 <? solid_offset it + u64 (solid_end r - solid_begin r)); [by injection E as ->|by rewrite E].
Qed.

(** ** Searching an id *)

(** The ids below [id] split between the list and the interval. *)
Lemma rkl_ids_Permutation r L : rkl_ids r L ≡ₚ L ++ seqZ (solid_begin r) (solid_end r - solid_begin r).
Proof.
  unfold rkl_ids. rewrite (Permutation_app_comm (seqZ _ _)), app_assoc. f_equiv. apply filter_app_complement.
Qed.

Lemma zlen_filter_seqZ id (n : nat) a :
  zlen (filter (fun x => x < id) (seqZ a (Z.of_nat n))) = Z.max 0 (Z.min id (a + Z.of_nat n) - a).
Proof.
  revert a. induction n as [|n IH]; intros a; [change (seqZ a (Z.of_nat 0)) with (@nil Z); rewrite filter_nil, zlen_nil; lia|].
  rewrite (seqZ_cons a) by lia. rewrite filter_cons. replace (Z.pred (Z.of_nat (S n))) with (Z.of_nat n) by lia.
  specialize (IH (Z.succ a)). destruct (decide (a < id)); [rewrite zlen_cons|]; rewrite IH; lia.
Qed.

Lemma rkl_ids_below r L id A B : L = A ++ B -> (forall x, x ∈ A -> x < id) -> (forall x, x ∈ B -> id <= x) ->
  zlen (filter (fun x => x < id) (rkl_ids r L)) =
    zlen A + Z.max 0 (Z.min id (solid_end r) - solid_begin r).
Proof.
  intros EL HA HB.
  assert (filter (fun x => x < id) (rkl_ids r L) ≡ₚ
    A ++ filter (fun x => x < id) (seqZ (solid_begin r) (solid_end r - solid_begin r))) as HP.
  { rewrite (rkl_ids_Permutation r L), EL, !filter_app. rewrite (filter_all _ A), (filter_none _ B), app_nil_r; [done| |done].
    intros x Hx. specialize (HB x Hx). lia. }
  unfold zlen at 1. rewrite HP. change (zlen (A ++ filter (fun x => x < id) (seqZ (solid_begin r) (solid_end r - solid_begin r))) =
    zlen A + Z.max 0 (Z.min id (solid_end r) - solid_begin r)).
  rewrite zlen_app. f_equal. destruct (Z.le_gt_cases (solid_begin r) (solid_end r)) as [Hle|Hgt].
  - rewrite <- (Z2Nat.id (solid_end r - solid_begin r)) by lia. rewrite zlen_filter_seqZ. lia.
  - assert (seqZ (solid_begin r) (solid_end r - solid_begin r) = []) as ->.
    { apply zlen_0_nil. unfold zlen. rewrite length_seqZ. lia. }
    rewrite filter_nil, zlen_nil. lia.
Qed.

Lemma rkl_find_spec cm r L id : rkl_ok r L -> zlen (rkl_ids r L) <= UINT32_MAX -> id < INVALID_TXNID ->
  exists b it, rkl_find cm r id = Some (b, it) /\ (b = true <-> rkl_mem r L id) /\ iter_ok r L it /\
    pos it = zlen (filter (fun x => x < id) (rkl_ids r L)).
Proof.
  intros Hok Hw Hid. unfold rkl_find.
  destruct (rkl_iterator_spec cm r L false Hok Hw) as (it0 & -> & [_ Hso] & Hpos0). cbn [mbind option_bind].
  destruct (rkl_ok_buffer _ _ Hok) as (junk & Hj & Hlen & Hz & Hlim).
  destruct (rkl_bsearch_spec cm L junk id (ok_asc _ _ Hok)) as (A & B & EL & HA & HB & Ebs); [by rewrite <- Hj|].
  pose proof (rkl_ids_below r L id A B EL HA HB) as Hrank.
  pose proof (rkl_len_spec r L Hok) as Hids. unfold rkl_len, rkl_empty in Hids. zlen_pos.
  assert (zlen L = zlen A + zlen B) as HzL by (by rewrite EL, zlen_app).
  assert (zlen (filter (fun x => x < id) (rkl_ids r L)) <= zlen (rkl_ids r L)) as Hle.
  { unfold zlen. pose proof (length_filter (fun x => x < id) (rkl_ids r L)). lia. }
  assert (forall p, p = zlen (filter (fun x => x < id) (rkl_ids r L)) -> iter_ok r L (mk_iter p (solid_offset it0))) as Hit.
  { intros p ->. split; [cbn; lia|done]. }
  assert (solid_begin r <= id -> 0 < solid_begin r <= solid_end r /\ solid_end r <= UINT64_MAX /\
    solid_end r - solid_begin r <= UINT32_MAX) as Hsb.
  { intros Hle'. destruct (rkl_solid_cases r L Hok) as [(_ & ? & ?)|[Hsb Hse]]; [uids; lia|].
    destruct (Z.ltb_spec (solid_end r) (solid_begin r)); [lia|]. rewrite u64_small in Hids by lia. lia. }
  destruct (rkl_contain_spec cm r L id Hok) as (b & Eb & Hb). unfold rkl_contain in Eb.
  destruct ((solid_begin r <=? id) && (id <? solid_end r)) eqn:Ein.
  - injection Eb as <-. specialize (Hsb ltac:(lia)).
    assert (solid_offset it0 = zlen A) as Eso.
    { destruct Hso as [(-> & ->)|[(_ & ? & _)|(HL & _ & A' & B' & EL' & -> & HA' & HB')]]; [zlia|lia|].
      destruct (rkl_ok_solid_le _ _ Hok HL) as [_ Hadj]. specialize (Hadj ltac:(lia)).
      enough (A' = A /\ B' = B) as [-> _] by done.
      apply (split_unique (solid_begin r)); [congruence|done|done| |].
      - intros x Hx. specialize (HA x Hx). specialize (Hadj x). rewrite EL, elem_of_app in Hadj. specialize (Hadj ltac:(auto)). lia.
      - intros x Hx. specialize (HB x Hx). lia. }
    rewrite Eso in *. rewrite (u32_small (id - solid_begin r)), u32_small by lia.
    eexists true, _. split; [done|]. split; [done|]. split; [apply Hit; lia|cbn; lia].
  - set (p := if solid_begin r <=? id then _ else _).
    assert (p = Z.max 0 (Z.min id (solid_end r) - solid_begin r)) as Ep.
    { subst p. destruct (Z.leb_spec (solid_begin r) id); [|lia]. specialize (Hsb ltac:(lia)). rewrite u32_small by lia. lia. }
    rewrite Hlen, Hj in *. destruct (Z.eqb_spec (zlen L) 0) as [E0|Hne]; cbn [negb] in *.
    + injection Eb as <-. eexists false, _. split; [done|]. split; [done|]. zlen_pos. split; [apply Hit; lia|cbn; lia].
    + rewrite Ebs in *. cbn [mbind option_bind] in *. zlen_pos. rewrite (u32_small (zlen A)), u32_small by (unfold UINT32_MAX in *; lia).
      assert (forall b', Some b' = Some b -> exists b0 it, Some (b', mk_iter (p + zlen A) (solid_offset it0)) = Some (b0, it) /\
        (b0 = true <-> rkl_mem r L id) /\ iter_ok r L it /\ pos it = zlen (filter (fun x => x < id) (rkl_ids r L))) as Hfin.
      { intros b' [= ->]. eexists b, _. split; [done|]. split; [done|]. split; [apply Hit; lia|cbn; lia]. }
      destruct (negb (zlen A =? zlen L)); [|by apply Hfin].
      destruct (zget (L ++ junk) (zlen A)) as [x|]; [|done]. cbn [mbind option_bind] in *. by apply Hfin.
Qed.

(** ** Merging *)

Lemma asc_NoDup l : asc l -> NoDup l.
Proof.
  induction 1 as [|x l Hs IH Hall]; [constructor|]. apply NoDup_cons. split; [|done].
  intros Hin. rewrite Forall_forall in Hall. specialize (Hall x Hin). lia.
Qed.

Section Merge.
Context (cm : bool) (al : allocator) `{!AllocOk 8 al}.

(** Adding the ids of a list in turn. *)
Fixpoint push_seq (ids : list Z) (dst : rkl) (ignore_duplicates : bool) : option (rc * rkl) :=
  match ids with
  | [] => Some (MDBX_SUCCESS, dst)
  | id :: ids =>
      '(err, dst) ← rkl_push cm al dst id;
      if merge_stop ignore_duplicates err then Some (err, dst) else push_seq ids dst ignore_duplicates
  end.

Lemma push_seq_app a b dst ign : push_seq (a ++ b) dst ign =
  ('(err, dst) ← push_seq a dst ign; if decide (err <> MDBX_SUCCESS) then Some (err, dst) else push_seq b dst ign).
Proof.
  revert dst. induction a as [|x a IH]; intros dst; [done|]. cbn [push_seq app].
  destruct (rkl_push cm al dst x) as [[err dst']|]; [|done]. cbn [mbind option_bind].
  destruct (merge_stop ign err) eqn:Es; [|apply IH]. cbn [mbind option_bind].
  case_decide; [done|]. unfold merge_stop in Es. destruct (decide (err = MDBX_SUCCESS)); done.
Qed.

Lemma merge_list_loop_seq i L junk dst ign : (i <= length L)%nat ->
  merge_list_loop cm al i (L ++ junk) dst ign = push_seq (reverse (take i L)) dst ign.
Proof.
  revert dst. induction i as [|i IH]; intros dst Hi; [done|]. cbn [merge_list_loop].
  destruct (lookup_lt_is_Some_2 L i) as [x Hx]; [lia|].
  rewrite (take_S_r L i x Hx), reverse_app. cbn [reverse rev_append app push_seq].
  assert (zget (L ++ junk) (Z.of_nat i) = Some x) as ->.
  { unfold zget. zcase; [|lia]. rewrite Nat2Z.id. by apply lookup_app_l_Some. }
  cbn [mbind option_bind]. destruct (rkl_push cm al dst x) as [[err dst']|]; [|done]. cbn [mbind option_bind].
  destruct (merge_stop ign err); [done|]. apply IH. lia.
Qed.

Lemma merge_solid_loop_seq n id dst ign :
  merge_solid_loop cm al n id dst ign = push_seq (seqZ id (Z.of_nat n)) dst ign.
Proof.
  revert id dst. induction n as [|n IH]; intros id dst; [done|]. cbn [merge_solid_loop].
  rewrite (seqZ_cons id) by lia. replace (Z.pred (Z.of_nat (S n))) with (Z.of_nat n) by lia. cbn [push_seq].
  destruct (rkl_push cm al dst id) as [[err dst']|]; [|done]. cbn [mbind option_bind].
  destruct (merge_stop ign err); [done|]. apply IH.
Qed.

Lemma rkl_merge_seq src L dst ign : rkl_ok src L ->
  rkl_merge cm al src dst ign =
    push_seq (reverse L ++ seqZ (solid_begin src) (solid_end src - solid_begin src)) dst ign.
Proof.
  intros Hok. destruct (rkl_ok_buffer _ _ Hok) as (junk & Hj & Hlen & _ & _). unfold rkl_merge.
  rewrite push_seq_app, Hj, Hlen. unfold zlen. rewrite Nat2Z.id, merge_list_loop_seq, take_ge by lia.
  destruct (push_seq (reverse L) dst ign) as [[err dst']|]; [|done]. cbn [mbind option_bind].
  case_decide; [done|]. rewrite merge_solid_loop_seq. f_equal.
  destruct (Z.le_gt_cases (solid_begin src) (solid_end src)); [by rewrite Z2Nat.id by lia|].
  replace (Z.to_nat (solid_end src - solid_begin src)) with 0%nat by lia.
  unfold seqZ. by replace (Z.to_nat (solid_end src - solid_begin src)) with 0%nat by lia.
Qed.

(** The outcome of adding the ids satisfying [S] to [dst]. *)
Definition merged (dst : rkl) (Ld : list Z) (S : Z -> Prop) (ign : bool) (res : option (rc * rkl)) : Prop :=
  exists err dst' L', res = Some (err, dst') /\ rkl_ok dst' L' /\
    (forall x, rkl_mem dst Ld x -> rkl_mem dst' L' x) /\
    (forall x, rkl_mem dst' L' x -> rkl_mem dst Ld x \/ S x) /\
    ((err = MDBX_SUCCESS /\ (forall x, S x -> rkl_mem dst' L' x) /\
        (ign = false -> forall x, S x -> ~ rkl_mem dst Ld x)) \/
     (err = MDBX_RESULT_TRUE /\ ign = false /\ exists x, S x /\ rkl_mem dst Ld x) \/
     (err = MDBX_ENOMEM /\ alloc_fails al) \/ (err = MDBX_TXN_FULL /\ txl_max <= zlen L')).

Lemma push_seq_spec ids dst Ld ign : rkl_ok dst Ld -> NoDup ids -> Forall (fun x => MIN_TXNID <= x < INVALID_TXNID) ids ->
  merged dst Ld (fun x => x ∈ ids) ign (push_seq ids dst ign).
Proof.
  revert dst Ld. induction ids as [|id ids IH]; intros dst Ld Hok Hnd Hids; cbn [push_seq].
  { eexists _, _, _. split; [done|]. split; [done|]. split_and!; [done|auto|]. left.
    split_and!; [done|by intros x ?%elem_of_nil|by intros _ x ?%elem_of_nil]. }
  apply NoDup_cons in Hnd as [Hnin Hnd]. apply Forall_cons in Hids as [Hid Hids].
  destruct (rkl_push_spec cm al dst Ld id Hok Hid) as (err & dst1 & L1 & -> & Hok1 & Hres). cbn [mbind option_bind].
  destruct (merge_stop ign err) eqn:Es.
  - eexists _, _, _. split; [done|]. split; [done|]. unfold merge_stop in Es.
    destruct Hres as [(-> & _)|[(-> & Hmem & Hsame)|(Herr & Hsame)]]; [done| |].
    + split_and!; [by intros; apply Hsame|by intros x ?%Hsame; left|]. right. left.
      split_and!; [done| |exists id; split; [by left|done]]. destruct ign; done.
    + split_and!; [by intros; apply Hsame|by intros x ?%Hsame; left|]. destruct Herr as [?|(? & -> & ?)]; auto.
  - assert ((forall x, rkl_mem dst1 L1 x <-> x = id \/ rkl_mem dst Ld x) /\ (ign = false -> ~ rkl_mem dst Ld id)) as [Hmem1 Hdup].
    { destruct Hres as [(-> & Hn & Hmem)|[(-> & Hin & Hsame)|([[-> _]|[-> _]] & _)]].
      - done.
      - split; [|by destruct ign]. intros x. rewrite Hsame. split; [by right|]. by intros [->|?].
      - by destruct ign.
      - by destruct ign. }
    destruct (IH dst1 L1 Hok1 Hnd Hids) as (err2 & dst2 & L2 & -> & Hok2 & Hkeep & Hsub & Hcase).
    exists err2, dst2, L2. split; [done|]. split; [done|]. split_and!.
    + intros x Hx. apply Hkeep, Hmem1. by right.
    + intros x [[->|?]%Hmem1|?]%Hsub; [right; by left|by left|right; by right].
    + destruct Hcase as [(-> & Hall & Hd)|[(-> & -> & y & Hy & Hym)|Herr]]; [left|right; left|auto].
      * split_and!; [done| |].
        { intros x [->|Hx]%elem_of_cons; [|by apply Hall]. apply Hkeep, Hmem1. by left. }
        { intros -> x [->|Hx]%elem_of_cons; [by apply Hdup|]. intros Hm. apply (Hd eq_refl x Hx), Hmem1. by right. }
      * split_and!; [done|done|]. exists y. split; [by right|]. apply Hmem1 in Hym as [->|?]; [done|done].
Qed.

Lemma rkl_merge_spec src Ls dst Ld ign : rkl_ok src Ls -> rkl_ok dst Ld ->
  merged dst Ld (rkl_mem src Ls) ign (rkl_merge cm al src dst ign).
Proof.
  intros Hs Hd. rewrite (rkl_merge_seq src Ls dst ign Hs).
  set (ids := reverse Ls ++ _).
  assert (ids ≡ₚ rkl_ids src Ls) as HP by (subst ids; by rewrite rkl_ids_Permutation, reverse_Permutation).
  assert (forall x, x ∈ ids <-> rkl_mem src Ls x) as Hin by (intros x; rewrite HP; by apply elem_rkl_ids).
  assert (NoDup ids) as Hnd by (rewrite HP; apply asc_NoDup, (asc_rkl_ids _ _ Hs)).
  destruct (push_seq_spec ids dst Ld ign Hd Hnd) as (err & dst' & L' & -> & Hok & Hkeep & Hsub & Hcase).
  { apply Forall_forall. intros x [Hx|Hx]%Hin.
    - destruct (ok_solid _ _ Hs) as [(_ & ? & ?)|?]; [uids; lia|]. lia.
    - pose proof (ok_ids _ _ Hs) as Hf. rewrite Forall_forall in Hf. by apply Hf. }
  exists err, dst', L'. split; [done|]. split; [done|]. setoid_rewrite Hin in Hsub. setoid_rewrite Hin in Hcase. done.
Qed.
End Merge.

(** ** The check *)

Lemma check_ordered_spec fuel L junk i : 1 <= i -> (Z.to_nat (zlen L + 1 - i) <= fuel)%nat -> (1 <= fuel)%nat ->
  exists b, check_ordered fuel (L ++ junk) i (zlen L) = Some b /\
    (b = true <-> forall j x y, i <= j -> zget L (j - 1) = Some x -> zget L j = Some y -> x < y).
Proof.
  revert i. induction fuel as [|fuel IH]; intros i Hi Hf Hf1; [lia|]. cbn [check_ordered].
  destruct (Z.ltb_spec i (zlen L)) as [Hlt|Hge].
  - destruct (zget_in L (i - 1)) as [x Hx]; [lia|]. destruct (zget_in L i) as [y Hy]; [lia|].
    rewrite !zget_app_l by lia. rewrite Hx, Hy. cbn [mbind option_bind]. unfold RKL_ORDERED.
    destruct (Z.ltb_spec x y); cbn [negb].
    + destruct (IH (i + 1)) as (b & -> & Hb); [lia..|]. exists b. split; [done|]. rewrite Hb. split.
      * intros H' j x' y' Hj. destruct (decide (j = i)) as [->|]; [congruence|]. apply H'. lia.
      * intros H' j x' y' Hj. apply H'. lia.
    + exists false. split; [done|]. split; [done|]. intros H'. specialize (H' i x y ltac:(lia) Hx Hy). lia.
  - exists true. split; [done|]. split; [|done]. intros _ j x y Hj _ [_ ?]%zget_range. lia.
Qed.

Lemma asc_adjacent L : asc L <-> forall j x y, 1 <= j -> zget L (j - 1) = Some x -> zget L j = Some y -> x < y.
Proof.
  unfold asc. rewrite StronglySorted_zget. split.
  - intros H j x y Hj Hx Hy. apply (H (j - 1) j); [|done..]. apply zget_range in Hx. lia.
  - intros H i j x y Hij Hx Hy. assert (exists k : nat, j = i + 1 + Z.of_nat k) as [k ->].
    { exists (Z.to_nat (j - i - 1)). lia. }
    clear Hij. revert y Hy. induction k as [|k IH]; intros y Hy.
    + apply (H (i + 1)); [apply zget_range in Hx; lia| |by replace (i + 1) with (i + 1 + Z.of_nat 0) by lia].
      by replace (i + 1 - 1) with i by lia.
    + destruct (zget_in L (i + 1 + Z.of_nat k)) as [z Hz]; [apply zget_range in Hx, Hy; lia|].
      specialize (IH z Hz). enough (z < y) by lia. apply (H (i + 1 + Z.of_nat (S k))); [apply zget_range in Hx; lia| |done].
      by replace (i + 1 + Z.of_nat (S k) - 1) with (i + 1 + Z.of_nat k) by lia.
Qed.

(** What the check of a set which is not empty accepts. *)
Lemma rkl_check_spec cm r L junk : rkl_list r = L ++ junk -> list_length r = zlen L -> 0 < zlen (rkl_list r) ->
  0 < solid_begin r <= solid_end r -> solid_end r <= UINT64_MAX ->
  exists b, rkl_check cm r = Some b /\
    (b = true <-> (heap r = None -> list_limit r = inplace_length) /\ inplace_length <= list_limit r /\ asc L /\
      (solid_begin r < solid_end r -> forall x, x ∈ L -> x < solid_begin r \/ solid_end r < x)).
Proof.
  intros Hj Hlen Hz Hsb Hse. unfold rkl_check.
  destruct (match heap r with None => true | Some _ => false end && negb (list_limit r =? inplace_length)) eqn:E1.
  { exists false. split; [done|]. split; [done|]. intros [H _]. destruct (heap r); [done|]. specialize (H eq_refl). lia. }
  destruct (Z.ltb_spec (list_limit r) inplace_length).
  { exists false. split; [done|]. split; [done|]. lia. }
  assert (heap r = None -> list_limit r = inplace_length) as Hlim by (intros Hh; rewrite Hh in E1; lia).
  unfold rkl_empty. destruct (Z.ltb_spec (solid_end r) (solid_begin r)); [lia|].
  destruct (Z.eqb_spec (list_length r) 0) as [E0|Hne]; cbn [negb].
  { rewrite Hlen in E0. apply zlen_0_nil in E0. subst L. exists true. split; [done|]. split; [|done]. intros _.
    split_and!; [done|done|constructor|]. by intros _ x ?%elem_of_nil. }
  rewrite Hj, Hlen. destruct (check_ordered_spec (S (Z.to_nat (zlen L))) L junk 1) as (b & -> & Hb); [lia..|].
  cbn [mbind option_bind]. rewrite <- asc_adjacent in Hb. destruct b; cbn [negb].
  2:{ exists false. split; [done|]. split; [done|]. intros (_ & _ & Ha & _). by apply Hb in Ha. }
  assert (asc L) as Hasc by (by apply Hb). zlen_pos.
  destruct (zget_in L (zlen L - 1)) as [last Hlast]; [lia|]. destruct (zget_in L 0) as [first Hfirst]; [lia|].
  rewrite !zget_app_l by lia. rewrite Hlast, Hfirst. cbn [mbind option_bind]. rewrite u64_small by lia.
  assert (forall x, x ∈ L -> first <= x <= last) as Hrange.
  { intros x (i & Hi & Hx)%elem_zget. unfold asc in Hasc. rewrite StronglySorted_zget in Hasc. split.
    - destruct (decide (i = 0)) as [->|]; [assert (first = x) by congruence; lia|].
      specialize (Hasc 0 i first x ltac:(lia) Hfirst Hx). lia.
    - destruct (decide (i = zlen L - 1)) as [->|]; [assert (last = x) by congruence; lia|].
      specialize (Hasc i (zlen L - 1) x last ltac:(lia) Hx Hlast). lia. }
  pose proof (solid_empty_spec r) as Hemp. destruct (solid_empty r); cbn [negb andb].
  { exists true. split; [done|]. split; [|done]. intros _. split_and!; [done|done|done|lia]. }
  destruct ((solid_begin r - 1 <=? last) && (first <=? solid_end r)) eqn:E2.
  2:{ exists true. split; [done|]. split; [|done]. intros _. split_and!; [done|done|done|].
      intros _ x Hx%Hrange. lia. }
  destruct (rkl_bsearch_spec cm L junk (solid_begin r) Hasc) as (A & B & EL & HA & HB & ->); [by rewrite <- Hj|].
  cbn [mbind option_bind].
  assert ((if 0 <? zlen A then x ← zget (L ++ junk) (zlen A - 1); Some (solid_begin r <=? x) else Some false) = Some false) as ->.
  { destruct (Z.ltb_spec 0 (zlen A)); [|done]. destruct (zget_in A (zlen A - 1)) as [x Hx]; [lia|].
    rewrite EL, <- app_assoc, zget_app_l, Hx by lia. cbn [mbind option_bind]. f_equal.
    specialize (HA x (zget_elem _ _ _ Hx)). lia. }
  cbn [mbind option_bind].
  assert (exists h, (if zlen A <? zlen L then x ← zget (L ++ junk) (zlen A); Some (x <=? solid_end r) else Some false) = Some h /\
    (h = false <-> forall x, x ∈ B -> solid_end r < x)) as (h & -> & Hh).
  { destruct B as [|y B].
    - exists false. rewrite app_nil_r in EL. subst A. destruct (Z.ltb_spec (zlen L) (zlen L)); [lia|].
      split; [done|]. split; [|done]. by intros _ x ?%elem_of_nil.
    - exists (y <=? solid_end r). destruct (Z.ltb_spec (zlen A) (zlen L)); [|subst L; zlia].
      rewrite EL, <- app_assoc. cbn [app]. rewrite zget_app_mid by done. cbn [mbind option_bind]. split; [done|].
      rewrite EL in Hasc. apply asc_app_iff in Hasc as (_ & Hasc & _). apply asc_cons_iff in Hasc as [_ Hy].
      rewrite Z.leb_gt. split.
      + intros Hlt x [->|Hx]%elem_of_cons; [done|]. specialize (Hy x Hx). lia.
      + intros Hall. apply Hall. by left. }
  cbn [mbind option_bind]. exists (negb h). split; [done|].
  transitivity (h = false); [by destruct h|]. rewrite Hh. split.
  - intros Hall. split_and!; [done|done|done|]. intros _ x. rewrite EL, elem_of_app. intros [Hx|Hx]; [left; by apply HA|right; by apply Hall].
  - intros (_ & _ & _ & Hall) x Hx. specialize (Hall ltac:(lia) x). rewrite EL, elem_of_app in Hall. specialize (Hall (or_intror Hx)).
    specialize (HB x Hx). lia.
Qed.

(** Every set of the invariant passes. *)
Lemma rkl_check_ok cm r L : rkl_ok r L -> rkl_check cm r = Some true.
Proof.
  intros Hok. destruct (rkl_ok_buffer _ _ Hok) as (junk & Hj & Hlen & Hz & _).
  pose proof (ok_limit _ _ Hok) as Hl. pose proof (ok_inplace_limit _ _ Hok) as Hil.
  destruct (rkl_solid_cases r L Hok) as [(-> & Hb & He)|[Hsb Hse]].
  - unfold rkl_check, rkl_empty, solid_empty. rewrite Hb, He. rewrite zlen_nil in Hlen. rewrite Hlen. cbn.
    destruct (heap r) as [buf|]; cbn [andb].
    + destruct (Z.ltb_spec (list_limit r) inplace_length); [lia|done].
    + rewrite Hil by done. done.
  - destruct (rkl_check_spec cm r L junk Hj Hlen Hz Hsb Hse) as (b & -> & Hb). f_equal. apply Hb.
    split_and!; [done|done|by apply (ok_asc _ _ Hok)|]. intros Hlt x Hx.
    destruct (rkl_ok_solid_le _ _ Hok) as [_ Hadj]; [by intros ->; apply elem_of_nil in Hx|].
    specialize (Hadj Hlt x Hx). lia.
Qed.

(** ** Initialisation, moving and copying *)

Lemma rkl_init_ok r : zlen (inplace r) = inplace_length -> rkl_ok (rkl_init r) [].
Proof.
  intros Hin. split; cbn; try done.
  - by exists (inplace r).
  - split; [done|]. unfold rkl_list. cbn. lia.
  - by constructor.
  - by left.
Qed.

Lemma rkl_clear_ok r L : rkl_ok r L -> rkl_ok (rkl_clear r) [].
Proof.
  intros [_ Hlen Hroom Hw Hin Hlim Hinl _ _ _]. zlen_pos. split; cbn; try done.
  - by exists (rkl_list r).
  - change (rkl_list (rkl_clear r)) with (rkl_list r). lia.
  - by constructor.
  - by left.
Qed.

Lemma rkl_mem_nil r x : solid_end r <= solid_begin r -> ~ rkl_mem r [] x.
Proof. intros H [?|?%elem_of_nil]; [lia|done]. Qed.

Lemma rkl_move_spec src L dst : rkl_ok src L -> zlen (inplace dst) = inplace_length ->
  exists src' dst', rkl_destructive_move src dst = Some (src', dst') /\ rkl_ok src' [] /\ rkl_ok dst' L /\
    (forall x, ~ rkl_mem src' [] x) /\ (forall x, rkl_mem dst' L x <-> rkl_mem src L x).
Proof.
  intros Hok Hd. pose proof Hok as [[junk Hj] Hlen Hroom Hw Hin Hlim Hinl Hasc Hids Hsol].
  pose proof (rkl_init_ok src Hin) as Hinit. unfold rkl_destructive_move. unfold rkl_list in *.
  assert (forall x, ~ rkl_mem (rkl_init src) [] x) as Hno by (intros x; by apply rkl_mem_nil).
  destruct (heap src) as [b|] eqn:Eh.
  - eexists _, _. split; [done|]. split_and!; [done| |done|done]. split; cbn; try done. by exists junk.
  - assert (blit (inplace src) 0 (inplace dst) 0 inplace_length = Some (inplace src)) as ->.
    { pose proof (blit_split [] (inplace dst) [] [] (inplace src) [] 0 0 inplace_length) as E.
      cbn [app] in E. rewrite !app_nil_r in E. by apply E. }
    cbn [mbind option_bind]. eexists _, _. split; [done|]. split_and!; [done| |done|done].
    rewrite Hinl in * by done. split; cbn; try done. by exists junk.
Qed.

Lemma rkl_copy_spec al `{!AllocOk 8 al} src L dst : rkl_ok src L -> zlen (inplace dst) = inplace_length ->
  exists err dst' L', rkl_copy al src dst = Some (err, dst') /\ rkl_ok dst' L' /\
    ((err = MDBX_SUCCESS /\ L' = L /\ (forall x, rkl_mem dst' L' x <-> rkl_mem src L x)) \/
     ((err = MDBX_ENOMEM /\ alloc_fails al \/ err = MDBX_TXN_FULL /\ txl_max < list_limit src) /\
      forall x, ~ rkl_mem dst' L' x)).
Proof.
  intros Hok Hd. pose proof (rkl_init_ok dst Hd) as Hinit. unfold rkl_copy. cbn zeta.
  destruct (rkl_ok_buffer _ _ Hok) as (junk & Hj & Hlen & _ & _).
  unfold rkl_empty. destruct (rkl_solid_cases src L Hok) as [(-> & Hb & He)|[Hsb Hse]].
  { rewrite Hb, He. cbn. exists MDBX_SUCCESS, (rkl_init dst), []. split; [done|]. split; [done|]. left.
    split_and!; [done|done|]. intros x. split; intros Hx; by apply rkl_mem_nil in Hx; [|rewrite ?Hb, ?He..]. }
  destruct (Z.ltb_spec (solid_end src) (solid_begin src)); [lia|]. cbn [negb].
  assert (exists err d, (if list_limit (rkl_init dst) <? list_length src then rkl_resize al (rkl_init dst) (list_limit src)
    else Some (MDBX_SUCCESS, rkl_init dst)) = Some (err, d) /\ rkl_ok d [] /\ same_set (rkl_init dst) d /\
    ((err = MDBX_SUCCESS /\ zlen L <= list_limit d) \/
     err = MDBX_ENOMEM /\ alloc_fails al \/ err = MDBX_TXN_FULL /\ txl_max < list_limit src)) as (err & d & -> & Hokd & [Hsb' Hse'] & Hc).
  { pose proof (ok_room _ _ Hok) as Hroom. zlen_pos. destruct (Z.ltb_spec (list_limit (rkl_init dst)) (list_length src)).
    - destruct (rkl_resize_spec al (rkl_init dst) [] (list_limit src) Hinit) as (err & d & -> & Hokd & Hss & Hc); [rewrite zlen_nil; lia|].
      exists err, d. split_and!; [done..|]. destruct Hc as [[-> ?]|[[?|?] _]]; [left; split; [done|lia]|auto|auto].
    - eexists _, _. split; [done|]. split_and!; [done|done|]. left. split; [done|lia]. }
  cbn [mbind option_bind]. destruct Hc as [[-> Hlim]|Herr].
  - rewrite decide_False by (intros H'; by apply H'). rewrite Hj, Hlen.
    pose proof (ok_room _ _ Hokd) as Hroom. destruct (zsplit (rkl_list d) (zlen L)) as (d2 & d3 & Ed & Hd2); [zlen_pos; lia|].
    assert (blit (L ++ junk) 0 (rkl_list d) 0 (zlen L) = Some (L ++ d3)) as ->.
    { rewrite Ed. apply (blit_split [] d2 d3 [] L junk 0 0 (zlen L)); done. }
    cbn [mbind option_bind]. eexists _, _, L. split; [done|]. split; [|by left].
    destruct (ok_solid _ _ Hok) as [(-> & ? & ?)|(H1 & H2 & H3 & H4)]; [uids; lia|].
    apply (rkl_ok_update d []); [done|rewrite Ed; zlia|done|apply (ok_asc _ _ Hok)|apply (ok_ids _ _ Hok)|done..].
  - rewrite decide_True by (by intros ->; destruct Herr as [[? _]|[? _]]). eexists _, _, []. split; [done|]. split; [done|]. right.
    split; [done|]. intros x. apply rkl_mem_nil. rewrite Hsb', Hse'. done.
Qed.

(** ** Claims *)

(** Merging one reclaimed-key list into another. The result has the ids of
    the target and only ids of both; with [MDBX_SUCCESS] it has all of them,
    and when duplicates are not to be ignored [MDBX_SUCCESS] says that the two
    were disjoint and [MDBX_RESULT_TRUE] that they were not. *)
Theorem rkl_merge_merges cm al `{!AllocOk 8 al} src Ls dst Ld ign : rkl_ok src Ls -> rkl_ok dst Ld ->
  merged al dst Ld (rkl_mem src Ls) ign (rkl_merge cm al src dst ign).
Proof. by apply rkl_merge_spec. Qed.

Lemma rkl_merge_merges_witness :
  merged (exact_allocator 8) (rkl_init sample_rkl) [] (rkl_mem sample_rkl [1; 20]) true
    (rkl_merge true (exact_allocator 8) sample_rkl (rkl_init sample_rkl) true) /\
  exists r', rkl_merge true (exact_allocator 8) sample_rkl (rkl_init sample_rkl) true = Some (MDBX_SUCCESS, r').
Proof.
  split; [|eexists; by vm_compute].
  apply (rkl_merge_merges true (exact_allocator 8) (AllocOk0 := exact_allocator_ok 8 ltac:(lia)));
    [apply sample_rkl_ok|by apply rkl_init_ok].
Defined.

(** C39: an iterator walks the ids of the set in ascending order, whether they
    are in the list below the interval, in the interval or in the list above
    it. A new one stands before the first or after the last id, each step
    forward or backward returns the id it passes, the end is told by 0, and
    [rkl_find] puts the iterator before the first id not below the sought
    one. *)
Theorem rkl_iteration cm r L it reverse id : rkl_ok r L -> zlen (rkl_ids r L) <= UINT32_MAX ->
  iter_ok r L it -> id < INVALID_TXNID ->
  asc (rkl_ids r L) /\ (forall x, x ∈ rkl_ids r L <-> rkl_mem r L x) /\
  (exists it0, rkl_iterator cm r reverse = Some it0 /\ iter_ok r L it0 /\
    pos it0 = if reverse then zlen (rkl_ids r L) else 0) /\
  ((pos it = zlen (rkl_ids r L) /\ rkl_turn r it false = Some (it, 0)) \/
   (exists x, zget (rkl_ids r L) (pos it) = Some x /\
      rkl_turn r it false = Some (mk_iter (pos it + 1) (solid_offset it), x))) /\
  ((pos it = 0 /\ rkl_turn r it true = Some (it, 0)) \/
   (exists x, zget (rkl_ids r L) (pos it - 1) = Some x /\
      rkl_turn r it true = Some (mk_iter (pos it - 1) (solid_offset it), x))) /\
  (exists b it1, rkl_find cm r id = Some (b, it1) /\ (b = true <-> rkl_mem r L id) /\ iter_ok r L it1 /\
    pos it1 = zlen (filter (fun x => x < id) (rkl_ids r L))).
Proof.
  intros Hok Hlen Hit Hid.
  split_and!; [by apply asc_rkl_ids|by intros; apply elem_rkl_ids|by apply rkl_iterator_spec|
    by apply rkl_turn_forward|by apply rkl_turn_backward|by apply rkl_find_spec].
Qed.

Lemma rkl_iteration_witness : exists b it1,
  rkl_find true sample_rkl 6 = Some (b, it1) /\ pos it1 = zlen (filter (fun x => x < 6) (rkl_ids sample_rkl [1; 20])).
Proof.
  destruct (rkl_iteration true sample_rkl [1; 20] (mk_iter 0 1) false 6) as (_ & _ & _ & _ & _ & b & it1 & E & _ & _ & Hp).
  - apply sample_rkl_ok.
  - by vm_compute.
  - split; [split; by vm_compute|]. right. right. split; [done|]. split; [by vm_compute|]. exists [1], [20].
    split_and!; [done|done|..]; intros x ->%list_elem_of_singleton; by vm_compute.
  - by vm_compute.
  - by exists b, it1.
Defined.

(** Copying and moving a reclaimed-key list keep the set (a move leaves the
    source empty, a failed copy the target), and every well-formed list passes
    the library's own check. *)
Theorem rkl_transfer cm al `{!AllocOk 8 al} src L dst : rkl_ok src L -> zlen (inplace dst) = inplace_length ->
  (exists err dst' L', rkl_copy al src dst = Some (err, dst') /\ rkl_ok dst' L' /\
    ((err = MDBX_SUCCESS /\ L' = L /\ (forall x, rkl_mem dst' L' x <-> rkl_mem src L x)) \/
     ((err = MDBX_ENOMEM /\ alloc_fails al \/ err = MDBX_TXN_FULL /\ txl_max < list_limit src) /\
      forall x, ~ rkl_mem dst' L' x))) /\
  (exists src' dst', rkl_destructive_move src dst = Some (src', dst') /\ rkl_ok src' [] /\ rkl_ok dst' L /\
    (forall x, ~ rkl_mem src' [] x) /\ (forall x, rkl_mem dst' L x <-> rkl_mem src L x)) /\
  rkl_check cm src = Some true /\ rkl_len src = zlen (rkl_ids src L).
Proof.
  intros Hok Hin. split_and!; [by apply rkl_copy_spec|by apply rkl_move_spec|by eapply rkl_check_ok|by apply rkl_len_spec].
Qed.

Lemma rkl_transfer_witness : rkl_check true sample_rkl = Some true /\ rkl_len sample_rkl = 5.
Proof.
  apply (rkl_transfer true (exact_allocator 8) (AllocOk0 := exact_allocator_ok 8 ltac:(lia)) sample_rkl [1; 20] sample_rkl);
    [apply sample_rkl_ok|done].
Defined.

(** The check accepts a list whose element touches the interval from below,
    which the insertion never leaves. *)
Lemma rkl_check_accepts_touching :
  let r := mk_rkl 5 6 1 12 None [4; 0; 0; 0; 0; 0; 0; 0; 0; 0; 0; 0] in
  rkl_check true r = Some true /\ ~ rkl_ok r [4].
Proof.
  split; [by vm_compute|]. intros Hok. pose proof (ok_solid _ _ Hok) as [(? & _)|(_ & _ & _ & H)]; [done|].
  specialize (H ltac:(cbn; lia) 4 ltac:(by left)). cbn in H. lia.
Qed.
