(* ===== verification/KeyCodec.v ===== *)
(** * Keys made from numbers

    [src/src/api-key-transform.c] and the inline functions of [src/mdbx.h]:
    integers, floats and JSON numbers turned into unsigned keys whose order is
    that of the numbers. A [double] or [float] is its IEEE 754 bit pattern;
    [clz64] is the portable [clz64_fallback], which agrees with the
    instruction on non-zero values. *)

From stdpp Require Import base list numbers option.
From Stdlib Require Import ZArith Lia.
From S2P Require Import Prelude Bits.

(** ** The transformations *)

Definition mdbx_key_from_int64 (i64 : Z) : Z := u64 (0x8000000000000000 + i64).
Definition mdbx_key_from_int32 (i32 : Z) : Z := u32 (0x80000000 + i32).
Definition mdbx_int64_from_key (key : Z) : Z := i64 (u64 (key - 0x8000000000000000)).
Definition mdbx_int32_from_key (key : Z) : Z := i32 (u32 (key - 0x80000000)).

(** The argument is the 64-bit key, read as signed. *)
Definition key2double (key : Z) : Z :=
  let key := i64 key in
  if key <? 0 then u64 (key + 0x8000000000000000) else u64 (0xffffFFFFffffFFFF - key).

Definition double2key (bits : Z) : Z :=
  let i64 := i64 bits in
  if i64 <? 0 then u64 (0xffffFFFFffffFFFF - i64) else u64 (i64 + 0x8000000000000000).

Definition key2float (key : Z) : Z :=
  let key := i32 key in
  if key <? 0 then u32 (key + 0x80000000) else u32 (0xffffFFFF - key).

Definition float2key (bits : Z) : Z :=
  let i32 := i32 bits in
  if i32 <? 0 then u32 (0xffffFFFF - i32) else u32 (i32 + 0x80000000).

Definition IEEE754_DOUBLE_MANTISSA_SIZE : Z := 52.
Definition IEEE754_DOUBLE_EXPONENTA_BIAS : Z := 0x3FF.
Definition IEEE754_DOUBLE_EXPONENTA_MAX : Z := 0x7FF.
Definition IEEE754_DOUBLE_IMPLICIT_LEAD : Z := 0x0010000000000000.
Definition IEEE754_DOUBLE_MANTISSA_MASK : Z := 0x000FFFFFFFFFFFFF.
Definition IEEE754_DOUBLE_MANTISSA_AMAX : Z := 0x001FFFFFFFFFFFFF.

Definition round_mantissa (u shift : Z) : Z :=
  let shift := - shift in
  let half := u64 (Z.shiftl 1 (shift - 1)) in
  let lsb := Z.land 1 (u32 (Z.shiftr u shift)) in
  let tie2even := Z.lxor 1 lsb in
  Z.shiftr (u64 (u + half - tie2even)) shift.

(** The exponent field and the mantissa with its leading one. *)
Definition json_parts (u : Z) : option (Z * Z) :=
  clz ← clz64_fallback u;
  let shift := clz - (64 - IEEE754_DOUBLE_MANTISSA_SIZE - 1) in
  let mantissa := if shift <? 0 then round_mantissa u shift else u64 (Z.shiftl u shift) in
  let '(shift, mantissa) :=
    if IEEE754_DOUBLE_MANTISSA_AMAX <? mantissa then (shift - 1, round_mantissa u (shift - 1)) else (shift, mantissa) in
  Some (u64 (IEEE754_DOUBLE_EXPONENTA_BIAS + IEEE754_DOUBLE_MANTISSA_SIZE - shift), mantissa).

Definition mdbx_key_from_jsonInteger (json_integer : Z) : option Z :=
  let bias := 0x8000000000000000 in
  if 0 <? json_integer then
    '(exponent, mantissa) ← json_parts (u64 json_integer);
    Some (u64 (bias + u64 (Z.shiftl exponent IEEE754_DOUBLE_MANTISSA_SIZE) + (mantissa - IEEE754_DOUBLE_IMPLICIT_LEAD)))
  else if json_integer <? 0 then
    '(exponent, mantissa) ← json_parts (u64 (0 - u64 json_integer));
    Some (u64 (bias - 1 - u64 (Z.shiftl exponent IEEE754_DOUBLE_MANTISSA_SIZE) - (mantissa - IEEE754_DOUBLE_IMPLICIT_LEAD)))
  else Some bias.

Definition INT64_MIN : Z := - 2 ^ 63.
Definition INT64_MAX : Z := 2 ^ 63 - 1.

Definition mdbx_jsonInteger_from_key (key : Z) : Z :=
  let bias := 0x8000000000000000 in
  let covalent := if bias <=? key then key - bias else bias - key - 1 in
  let shift := IEEE754_DOUBLE_EXPONENTA_BIAS + 63 -
               Z.land IEEE754_DOUBLE_EXPONENTA_MAX (i32 (Z.shiftr covalent IEEE754_DOUBLE_MANTISSA_SIZE)) in
  if shift <? 1 then if key <? bias then INT64_MIN else INT64_MAX
  else if 63 <? shift then 0
  else
    let unscaled :=
      u64 (u64 (Z.shiftl (Z.land covalent IEEE754_DOUBLE_MANTISSA_MASK) (63 - IEEE754_DOUBLE_MANTISSA_SIZE)) + bias) in
    let absolute := i64 (Z.shiftr unscaled shift) in
    if key <? bias then - absolute else absolute.

(** The [MDBX_val] of the C functions is the integer loaded from it
    ([unaligned_peek_u64], [unaligned_peek_u32]; see [Bytes]). *)
Definition mdbx_double_from_key (key : Z) : Z := key2double key.
Definition mdbx_float_from_key (key : Z) : Z := key2float key.

(** ** The values of bit patterns

    A finite [double] times [2^1074] is an integer. *)

Definition double_sign (bits : Z) : bool := 2 ^ 63 <=? bits.
Definition double_mag (bits : Z) : Z := bits mod 2 ^ 63.

Definition mag_scaled (mag : Z) : Z :=
  let e := mag / 2 ^ 52 in
  let m := mag mod 2 ^ 52 in
  if e =? 0 then m else (2 ^ 52 + m) * 2 ^ (e - 1).

Definition double_scaled (bits : Z) : Z :=
  if double_sign bits then - mag_scaled (double_mag bits) else mag_scaled (double_mag bits).

Definition double_finite (bits : Z) : Prop := 0 <= bits < 2 ^ 64 /\ double_mag bits < 0x7FF * 2 ^ 52.

(** Greater patterns of the magnitude are greater numbers. *)
Lemma mag_scaled_mono a b : 0 <= a < b -> mag_scaled a < mag_scaled b.
Proof.
  intros Hab. unfold mag_scaled. cbn zeta.
  pose proof (Z.div_mod a (2 ^ 52) ltac:(lia)) as Ea. pose proof (Z.mod_pos_bound a (2 ^ 52) ltac:(lia)) as Hma.
  pose proof (Z.div_mod b (2 ^ 52) ltac:(lia)) as Eb. pose proof (Z.mod_pos_bound b (2 ^ 52) ltac:(lia)) as Hmb.
  pose proof (Z.div_le_mono a b (2 ^ 52) ltac:(lia) ltac:(lia)) as Hle. pose proof (Z.div_pos a (2 ^ 52) ltac:(lia) ltac:(lia)) as Hpos.
  revert Ea Hma Eb Hmb Hle Hpos. generalize (a / 2 ^ 52) (b / 2 ^ 52) (a mod 2 ^ 52) (b mod 2 ^ 52).
  intros ea eb ma mb Ea Hma Eb Hmb Hle Hpos.
  destruct (Z.eqb_spec ea 0) as [E0|Hea], (Z.eqb_spec eb 0) as [E1|Heb]; try lia.
  destruct (Z.eq_dec ea eb) as [->|Hne].
  - apply Z.mul_lt_mono_pos_r; [apply Z.pow_pos_nonneg; lia|lia].
  - assert (2 * 2 ^ (ea - 1) <= 2 ^ (eb - 1)) as Hp.
    { rewrite <- Z.pow_succ_r by lia. apply Z.pow_le_mono_r; lia. }
      assert (0 < 2 ^ (ea - 1)) as HP by (apply Z.pow_pos_nonneg; lia).
      revert Hp HP. generalize (2 ^ (ea - 1)) as P, (2 ^ (eb - 1)) as Q. intros P Q Hp HP.
      pose proof (proj1 (Z.mul_lt_mono_pos_r P (2 ^ 52 + ma) (2 ^ 53) HP) ltac:(lia)).
      pose proof (Z.mul_le_mono_nonneg (2 ^ 52) (2 ^ 52 + mb) (2 * P) Q ltac:(lia) ltac:(lia) ltac:(lia) ltac:(lia)).
      lia.
Qed.

Lemma mag_scaled_nonneg a : 0 <= a -> 0 <= mag_scaled a.
Proof.
  intros Ha. destruct (Z.eq_dec a 0) as [->|]; [done|]. pose proof (mag_scaled_mono 0 a ltac:(lia)). change (mag_scaled 0) with 0 in *. lia.
Qed.

(** The key of a pattern: magnitudes upwards from the middle, those with the
    sign downwards. *)
Lemma i64_cases x : 0 <= x < 2 ^ 64 -> i64 x = if 2 ^ 63 <=? x then x - 2 ^ 64 else x.
Proof.
  intros Hx. unfold i64, signed. rewrite wrap_small by lia. change (2 ^ (64 - 1)) with (2 ^ 63).
  destruct (Z.ltb_spec x (2 ^ 63)), (Z.leb_spec (2 ^ 63) x); lia.
Qed.

Lemma double2key_eq bits : 0 <= bits < 2 ^ 64 ->
  double2key bits = if double_sign bits then 2 ^ 63 - 1 - double_mag bits else 2 ^ 63 + double_mag bits.
Proof.
  intros Hb. unfold double2key, double_sign, double_mag. cbn zeta. rewrite i64_cases by done.
  destruct (Z.leb_spec (2 ^ 63) bits).
  - destruct (Z.ltb_spec (bits - 2 ^ 64) 0); [|lia].
    rewrite (Z.mod_eq bits) by lia. replace (bits / 2 ^ 63) with 1 by (apply Z.div_unique with (bits - 2 ^ 63); lia).
    replace (0xffffFFFFffffFFFF - (bits - 2 ^ 64)) with ((2 ^ 64 - 1 - bits) + 1 * 2 ^ 64) by lia.
    unfold u64, wrap. rewrite Z.mod_add by lia. rewrite Z.mod_small; lia.
  - destruct (Z.ltb_spec bits 0); [lia|]. rewrite (Z.mod_small bits) by lia.
    unfold u64. rewrite wrap_small by lia. lia.
Qed.

Lemma double_mag_range bits : 0 <= double_mag bits < 2 ^ 63.
Proof. unfold double_mag. apply Z.mod_pos_bound. lia. Qed.

Lemma key2double_double2key bits : 0 <= bits < 2 ^ 64 -> key2double (double2key bits) = bits.
Proof.
  intros Hb. rewrite double2key_eq by done. pose proof (double_mag_range bits) as Hm. unfold key2double. cbn zeta.
  assert (bits = (if double_sign bits then 2 ^ 63 else 0) + double_mag bits) as E.
  { unfold double_sign, double_mag. pose proof (Z.div_mod bits (2 ^ 63) ltac:(lia)).
    destruct (Z.leb_spec (2 ^ 63) bits).
    - assert (bits / 2 ^ 63 = 1) by (symmetry; apply Z.div_unique with (bits - 2 ^ 63); lia). lia.
    - rewrite Z.mod_small by lia. lia. }
  destruct (double_sign bits).
  - rewrite i64_cases by lia. destruct (Z.leb_spec (2 ^ 63) (2 ^ 63 - 1 - double_mag bits)); [lia|].
    destruct (Z.ltb_spec (2 ^ 63 - 1 - double_mag bits) 0); [lia|]. unfold u64. rewrite wrap_small by lia. lia.
  - rewrite i64_cases by lia. destruct (Z.leb_spec (2 ^ 63) (2 ^ 63 + double_mag bits)); [|lia].
    destruct (Z.ltb_spec (2 ^ 63 + double_mag bits - 2 ^ 64) 0); [|lia].
    replace (2 ^ 63 + double_mag bits - 2 ^ 64 + 0x8000000000000000) with (double_mag bits) by lia.
    unfold u64. rewrite wrap_small by lia. lia.
Qed.

(** The order of keys is that of the numbers (of which the two zeros are one). *)
Lemma double2key_order a b : double_finite a -> double_finite b ->
  (double_scaled a < double_scaled b -> double2key a < double2key b) /\
  (double2key a < double2key b -> double_scaled a <= double_scaled b).
Proof.
  intros [Ha _] [Hb _]. rewrite !double2key_eq by done. unfold double_scaled.
  pose proof (double_mag_range a) as Hma. pose proof (double_mag_range b) as Hmb.
  pose proof (mag_scaled_nonneg (double_mag a) ltac:(lia)). pose proof (mag_scaled_nonneg (double_mag b) ltac:(lia)).
  assert (forall x y, 0 <= x -> 0 <= y -> mag_scaled x < mag_scaled y <-> x < y) as Hiff.
  { intros x y Hx Hy. split; [|intros; by apply mag_scaled_mono].
    intros Hlt. destruct (Z.lt_trichotomy x y) as [?|[->|Hgt]]; [done|lia|]. pose proof (mag_scaled_mono y x ltac:(lia)). lia. }
  pose proof (Hiff (double_mag a) (double_mag b) ltac:(lia) ltac:(lia)). pose proof (Hiff (double_mag b) (double_mag a) ltac:(lia) ltac:(lia)).
  destruct (double_sign a), (double_sign b); lia.
Qed.

(** ** JSON integers *)

(** [u / 2^s] rounded to the nearest, ties to even. *)
Definition rne (u s : Z) : Z :=
  let q := u / 2 ^ s in
  let f := u mod 2 ^ s in
  if 2 * f <? 2 ^ s then q else if 2 ^ s <? 2 * f then q + 1 else if Z.even q then q else q + 1.

Lemma lsb_cases q : Z.land 1 (u32 q) = if Z.even q then 0 else 1.
Proof.
  assert (Z.land 1 (u32 q) = Z.land 1 q) as ->.
  { apply Z.bits_inj'. intros n Hn. rewrite !Z.land_spec. unfold u32, wrap.
    destruct (Z.eq_dec n 0) as [->|]; [by rewrite Z.mod_pow2_bits_low by lia|].
    change 1 with (2 ^ 0). rewrite Z.pow2_bits_false by lia. done. }
  rewrite Z.land_comm. change 1 with (Z.ones 1) at 1. rewrite Z.land_ones by lia. change (2 ^ 1) with 2.
  rewrite Zmod_even. done.
Qed.

Lemma round_mantissa_rne u s : 0 <= u <= 2 ^ 63 -> 1 <= s <= 12 -> round_mantissa u (- s) = rne u s.
Proof.
  intros Hu Hs. unfold round_mantissa. cbn zeta. rewrite Z.opp_involutive, lsb_cases, !Z.shiftr_div_pow2, Z.shiftl_1_l by lia.
  assert (2 ^ s = 2 * 2 ^ (s - 1)) as Ep by (rewrite <- Z.pow_succ_r by lia; f_equal; lia).
  assert (1 <= 2 ^ (s - 1) <= 2 ^ 11) as Hh by (split; [apply (Z.pow_le_mono_r 2 0 (s - 1)); lia|apply Z.pow_le_mono_r; lia]).
  rewrite (u64_small (2 ^ (s - 1))) by (unfold UINT64_MAX; lia).
  unfold rne. cbn zeta. pose proof (Z.div_mod u (2 ^ s) ltac:(lia)) as Eu. pose proof (Z.mod_pos_bound u (2 ^ s) ltac:(lia)) as Hf.
  set (q := u / 2 ^ s) in *. set (f := u mod 2 ^ s) in *.
  assert (0 <= Z.lxor 1 (if Z.even q then 0 else 1) <= 1) as Ht by (destruct (Z.even q); done).
  rewrite u64_small by (unfold UINT64_MAX; lia). rewrite Eu.
  replace (2 ^ s * q + f + 2 ^ (s - 1) - Z.lxor 1 (if Z.even q then 0 else 1))
    with (f + 2 ^ (s - 1) - Z.lxor 1 (if Z.even q then 0 else 1) + q * 2 ^ s) by lia.
  rewrite Z.div_add by lia. rewrite Ep in *. set (h := 2 ^ (s - 1)) in *.
  assert (forall x, 0 <= x < 2 * h -> x / (2 * h) = 0) as H0 by (intros; by apply Z.div_small).
  assert (forall x, 2 * h <= x < 2 * (2 * h) -> x / (2 * h) = 1) as H1.
  { intros x Hx. symmetry. apply Z.div_unique with (x - 2 * h); lia. }
  destruct (Z.ltb_spec (2 * f) (2 * h)); [|destruct (Z.ltb_spec (2 * h) (2 * f))]; destruct (Z.even q); cbn [Z.lxor] in *;
    change (Z.lxor 1 0) with 1 in *; change (Z.lxor 1 1) with 0 in *;
    first [rewrite H0 by lia; lia | rewrite H1 by lia; lia].
Qed.

Lemma rne_bounds u s : 0 <= s -> u / 2 ^ s <= rne u s <= u / 2 ^ s + 1.
Proof.
  intros Hs. unfold rne. cbn zeta.
  destruct (2 * (u mod 2 ^ s) <? 2 ^ s), (2 ^ s <? 2 * (u mod 2 ^ s)), (Z.even (u / 2 ^ s)); lia.
Qed.

Lemma rne_mono u v s : 0 <= s -> u <= v -> rne u s <= rne v s.
Proof.
  intros Hs Huv. pose proof (Z.pow_pos_nonneg 2 s ltac:(lia) Hs) as Hp.
  pose proof (Z.div_le_mono u v (2 ^ s) Hp Huv) as Hq.
  destruct (Z.eq_dec (u / 2 ^ s) (v / 2 ^ s)) as [E|Hne].
  - unfold rne. cbn zeta. rewrite <- E. pose proof (Z.div_mod u (2 ^ s) ltac:(lia)). pose proof (Z.div_mod v (2 ^ s) ltac:(lia)).
    assert (u mod 2 ^ s <= v mod 2 ^ s) by (rewrite <- E in *; lia).
    destruct (Z.ltb_spec (2 * (u mod 2 ^ s)) (2 ^ s)), (Z.ltb_spec (2 * (v mod 2 ^ s)) (2 ^ s)),
      (Z.ltb_spec (2 ^ s) (2 * (u mod 2 ^ s))), (Z.ltb_spec (2 ^ s) (2 * (v mod 2 ^ s))), (Z.even (u / 2 ^ s)); lia.
  - pose proof (rne_bounds u s Hs). pose proof (rne_bounds v s Hs). lia.
Qed.

(** The error is half a unit at most. *)
Lemma rne_near u s : 0 <= s -> 2 * Z.abs (rne u s * 2 ^ s - u) <= 2 ^ s.
Proof.
  intros Hs. pose proof (Z.pow_pos_nonneg 2 s ltac:(lia) Hs) as Hp. unfold rne. cbn zeta.
  pose proof (Z.div_mod u (2 ^ s) ltac:(lia)) as E. pose proof (Z.mod_pos_bound u (2 ^ s) Hp).
  revert E H Hp. generalize (u / 2 ^ s) (u mod 2 ^ s). intros q f. generalize (2 ^ s) as p. intros p E Hf Hp.
  destruct (Z.ltb_spec (2 * f) p), (Z.ltb_spec p (2 * f)), (Z.even q); try lia.
Qed.

(** The nearest number a [double] can hold, as an integer. *)
Definition json_value (u : Z) : Z :=
  let l := Z.log2 u in
  if l <=? 52 then u else rne u (l - 52) * 2 ^ (l - 52).

(** The magnitude of its pattern. *)
Definition json_code (u : Z) : Z :=
  let l := Z.log2 u in
  2 ^ 52 * (1022 + l) + (if l <=? 52 then u * 2 ^ (52 - l) else rne u (l - 52)).

Lemma rne_range u l : 52 < l -> 2 ^ l <= u < 2 ^ (l + 1) -> 2 ^ 52 <= rne u (l - 52) <= 2 ^ 53.
Proof.
  intros Hl Hu. pose proof (rne_bounds u (l - 52) ltac:(lia)).
  assert (2 ^ 52 <= u / 2 ^ (l - 52)).
  { apply Z.div_le_lower_bound; [apply Z.pow_pos_nonneg; lia|]. rewrite <- Z.pow_add_r by lia. replace (l - 52 + 52) with l by lia. lia. }
  assert (u / 2 ^ (l - 52) < 2 ^ 53).
  { apply Z.div_lt_upper_bound; [apply Z.pow_pos_nonneg; lia|]. rewrite <- Z.pow_add_r by lia. replace (l - 52 + 53) with (l + 1) by lia. lia. }
  lia.
Qed.

Lemma json_log u : 0 < u <= 2 ^ 63 -> 0 <= Z.log2 u <= 63 /\ 2 ^ Z.log2 u <= u < 2 ^ (Z.log2 u + 1).
Proof.
  intros Hu. pose proof (Z.log2_spec u ltac:(lia)) as Hl. rewrite <- Z.add_1_r in Hl.
  pose proof (Z.log2_nonneg u). pose proof (Z.log2_le_mono u (2 ^ 63) ltac:(lia)) as Hm. rewrite Z.log2_pow2 in Hm by lia. lia.
Qed.

Lemma shl_range u l : 0 <= l <= 52 -> 2 ^ l <= u < 2 ^ (l + 1) -> 2 ^ 52 <= u * 2 ^ (52 - l) < 2 ^ 53.
Proof.
  intros Hl Hu. assert (2 ^ 52 = 2 ^ l * 2 ^ (52 - l)) as E1 by (rewrite <- Z.pow_add_r by lia; f_equal; lia).
  assert (2 ^ 53 = 2 ^ (l + 1) * 2 ^ (52 - l)) as E2 by (rewrite <- Z.pow_add_r by lia; f_equal; lia).
  assert (0 < 2 ^ (52 - l)) as Hp by (apply Z.pow_pos_nonneg; lia).
  rewrite E1, E2. split; [apply Z.mul_le_mono_nonneg_r; lia|apply Z.mul_lt_mono_pos_r; lia].
Qed.

(** The carry of the rounding into the next exponent. *)
Lemma rne_carry u l : 52 < l -> 2 ^ l <= u < 2 ^ (l + 1) -> rne u (l - 52) = 2 ^ 53 -> rne u (l - 51) = 2 ^ 52.
Proof.
  intros Hl Hu Er. pose proof (rne_near u (l - 52) ltac:(lia)) as Hn. rewrite Er in Hn.
  assert (2 ^ (l - 51) = 2 * 2 ^ (l - 52)) as Ep by (rewrite <- Z.pow_succ_r by lia; f_equal; lia).
  assert (2 ^ (l + 1) = 2 ^ 53 * 2 ^ (l - 52)) as El by (rewrite <- Z.pow_add_r by lia; f_equal; lia).
  assert (0 < 2 ^ (l - 52)) as Hp by (apply Z.pow_pos_nonneg; lia).
  revert Ep El Hp Hn Hu. generalize (2 ^ (l + 1)) as t, (2 ^ l) as t0. intros t t0. generalize (2 ^ (l - 52)) as p. intros p Ep El Hp Hn Hu.
  unfold rne. cbn zeta. rewrite Ep.
  assert (u / (2 * p) = 2 ^ 52 - 1) as Eq.
  { symmetry. apply Z.div_unique with (u - 2 * p * (2 ^ 52 - 1)); lia. }
  assert (u mod (2 * p) = u - 2 * p * (2 ^ 52 - 1)) as Em by (rewrite Z.mod_eq, Eq by lia; lia).
  rewrite Em, Eq. destruct (Z.ltb_spec (2 * (u - 2 * p * (2 ^ 52 - 1))) (2 * p)); [lia|].
  destruct (Z.ltb_spec (2 * p) (2 * (u - 2 * p * (2 ^ 52 - 1)))); [done|]. by vm_compute.
Qed.

Lemma json_parts_spec u : 0 < u <= 2 ^ 63 -> exists e m, json_parts u = Some (e, m) /\
  2 ^ 52 <= m < 2 ^ 53 /\ 1023 <= e <= 1087 /\ 2 ^ 52 * (e - 1) + m = json_code u.
Proof.
  intros Hu. destruct (json_log u Hu) as [Hl Hr]. unfold json_parts, json_code. rewrite clz64_fallback_log2 by lia.
  cbn [mbind option_bind]. cbn zeta. set (l := Z.log2 u) in *.
  unfold IEEE754_DOUBLE_MANTISSA_SIZE, IEEE754_DOUBLE_EXPONENTA_BIAS, IEEE754_DOUBLE_MANTISSA_AMAX.
  replace (63 - l - (64 - 52 - 1)) with (52 - l) by lia.
  assert (forall k, 1000 <= 0x3FF + 52 - k <= 1100 -> u64 (0x3FF + 52 - k) = 1075 - k) as He.
  { intros k Hk. rewrite u64_small by (unfold UINT64_MAX; lia). lia. }
  destruct (Z.ltb_spec (52 - l) 0) as [Hlt|Hge]; destruct (Z.leb_spec l 52) as [Hle|Hgt]; try lia.
  - pose proof (rne_range u l Hgt Hr) as Hrr. replace (52 - l) with (- (l - 52)) by lia.
    rewrite round_mantissa_rne by lia.
    destruct (Z.ltb_spec 0x001FFFFFFFFFFFFF (rne u (l - 52))) as [Hc|Hnc].
    + replace (- (l - 52) - 1) with (- (l - 51)) by lia. rewrite round_mantissa_rne by lia.
      rewrite (rne_carry u l) by lia. rewrite He by lia. eexists _, _. split; [done|]. lia.
    + rewrite He by lia. eexists _, _. split; [done|]. lia.
  - pose proof (shl_range u l ltac:(lia) Hr) as Hs. rewrite Z.shiftl_mul_pow2 by lia.
    rewrite (u64_small (u * 2 ^ (52 - l))) by (unfold UINT64_MAX; lia).
    destruct (Z.ltb_spec 0x001FFFFFFFFFFFFF (u * 2 ^ (52 - l))) as [Hc|Hnc]; [lia|].
    rewrite He by lia. eexists _, _. split; [done|]. lia.
Qed.

Lemma json_code_range u : 0 < u <= 2 ^ 63 -> 0 <= json_code u < 2 ^ 63 - 2 ^ 52.
Proof. intros Hu. destruct (json_parts_spec u Hu) as (e & m & _ & Hm & He & <-). lia. Qed.

Lemma json_key_eq i : - 2 ^ 63 <= i < 2 ^ 63 ->
  mdbx_key_from_jsonInteger i =
    Some (if 0 <? i then 2 ^ 63 + json_code i else if i <? 0 then 2 ^ 63 - 1 - json_code (- i) else 2 ^ 63).
Proof.
  intros Hi. unfold mdbx_key_from_jsonInteger, IEEE754_DOUBLE_MANTISSA_SIZE, IEEE754_DOUBLE_IMPLICIT_LEAD. cbn zeta.
  destruct (Z.ltb_spec 0 i); [|destruct (Z.ltb_spec i 0); [|done]].
  - rewrite u64_small by (unfold UINT64_MAX; lia). destruct (json_parts_spec i ltac:(lia)) as (e & m & -> & Hm & He & <-).
    cbn [mbind option_bind]. rewrite Z.shiftl_mul_pow2 by lia. rewrite (u64_small (e * 2 ^ 52)) by (unfold UINT64_MAX; lia).
    rewrite u64_small by (unfold UINT64_MAX; lia). f_equal. lia.
  - assert (u64 (0 - u64 i) = - i) as ->.
    { unfold u64, wrap. rewrite Zminus_mod_idemp_r. rewrite Z.mod_small; lia. }
    destruct (json_parts_spec (- i) ltac:(lia)) as (e & m & -> & Hm & He & <-).
    cbn [mbind option_bind]. rewrite Z.shiftl_mul_pow2 by lia. rewrite (u64_small (e * 2 ^ 52)) by (unfold UINT64_MAX; lia).
    rewrite u64_small by (unfold UINT64_MAX; lia). f_equal. lia.
Qed.

Lemma json_code_value u : 0 < u <= 2 ^ 63 -> mag_scaled (json_code u) = json_value u * 2 ^ 1074.
Proof.
  intros Hu. destruct (json_parts_spec u Hu) as (e & m & _ & Hm & He & Ec). destruct (json_log u Hu) as [Hl Hr].
  rewrite <- Ec. unfold mag_scaled. cbn zeta.
  assert ((2 ^ 52 * (e - 1) + m) / 2 ^ 52 = e) as -> by (symmetry; apply Z.div_unique with (m - 2 ^ 52); lia).
  assert ((2 ^ 52 * (e - 1) + m) mod 2 ^ 52 = m - 2 ^ 52) as -> by (symmetry; apply Z.mod_unique with e; lia).
  destruct (Z.eqb_spec e 0); [lia|]. replace (2 ^ 52 + (m - 2 ^ 52)) with m by lia.
  unfold json_code, json_value in *. cbn zeta in *. set (l := Z.log2 u) in *.
  destruct (Z.leb_spec l 52) as [Hle|Hgt].
  - pose proof (shl_range u l ltac:(lia) Hr). assert (e = 1023 + l /\ m = u * 2 ^ (52 - l)) as [-> ->] by lia.
    rewrite <- Z.mul_assoc, <- Z.pow_add_r by lia. f_equal. f_equal. lia.
  - pose proof (rne_range u l Hgt Hr). rewrite <- Z.mul_assoc, <- Z.pow_add_r by lia.
    assert (e = 1023 + l /\ m = rne u (l - 52) \/ e = 1024 + l /\ m = 2 ^ 52 /\ rne u (l - 52) = 2 ^ 53) as [[-> ->]|(-> & -> & ->)] by lia.
    + f_equal. f_equal. lia.
    + rewrite <- !Z.pow_add_r by lia. f_equal. lia.
Qed.

Lemma json_code_mono u v : 0 < u <= v -> v <= 2 ^ 63 -> json_code u <= json_code v.
Proof.
  intros Huv Hv. destruct (json_log u ltac:(lia)) as [Hl Hr]. destruct (json_log v ltac:(lia)) as [Hl' Hr'].
  pose proof (Z.log2_le_mono u v ltac:(lia)) as Hm. unfold json_code. cbn zeta.
  set (l := Z.log2 u) in *. set (l' := Z.log2 v) in *.
  assert (forall w k, 0 <= k -> 2 ^ k <= w < 2 ^ (k + 1) ->
    2 ^ 52 <= (if k <=? 52 then w * 2 ^ (52 - k) else rne w (k - 52)) <= 2 ^ 53) as Hb.
  { intros w k Hk Hw. destruct (Z.leb_spec k 52); [pose proof (shl_range w k ltac:(lia) Hw)|pose proof (rne_range w k ltac:(lia) Hw)]; lia. }
  destruct (Z.eq_dec l l') as [E|Hne].
  - rewrite <- E. destruct (Z.leb_spec l 52).
    + assert (0 < 2 ^ (52 - l)) by (apply Z.pow_pos_nonneg; lia).
      pose proof (Z.mul_le_mono_nonneg_r u v (2 ^ (52 - l)) ltac:(lia) ltac:(lia)). lia.
    + pose proof (rne_mono u v (l - 52) ltac:(lia) ltac:(lia)). lia.
  - pose proof (Hb u l ltac:(lia) Hr). pose proof (Hb v l' ltac:(lia) Hr'). lia.
Qed.

(** The nearest: exact up to [2^53], and half a unit off at most above. *)
Lemma json_value_exact u : 0 < u <= 2 ^ 53 -> json_value u = u.
Proof.
  intros Hu. unfold json_value. cbn zeta. destruct (Z.leb_spec (Z.log2 u) 52) as [|Hgt]; [done|].
  assert (u = 2 ^ 53) as ->; [|by vm_compute]. destruct (json_log u ltac:(lia)) as [_ Hr].
  pose proof (Z.pow_le_mono_r 2 53 (Z.log2 u) ltac:(lia) ltac:(lia)). lia.
Qed.

Lemma json_value_near u : 0 < u <= 2 ^ 63 -> 2 ^ 52 * (2 * Z.abs (json_value u - u)) <= u.
Proof.
  intros Hu. destruct (json_log u Hu) as [Hl Hr]. unfold json_value. cbn zeta. set (l := Z.log2 u) in *.
  destruct (Z.leb_spec l 52); [rewrite Z.sub_diag; lia|].
  pose proof (rne_near u (l - 52) ltac:(lia)) as Hn.
  assert (2 ^ l = 2 ^ 52 * 2 ^ (l - 52)) by (rewrite <- Z.pow_add_r by lia; f_equal; lia). lia.
Qed.

(** ** Keys of JSON integers are keys of doubles *)

Definition json_bits (i : Z) : Z :=
  if 0 <? i then json_code i else if i <? 0 then 2 ^ 63 + json_code (- i) else 0.

Lemma json_bits_finite i : - 2 ^ 63 <= i < 2 ^ 63 -> double_finite (json_bits i).
Proof.
  intros Hi. unfold double_finite, json_bits, double_mag.
  destruct (Z.ltb_spec 0 i); [|destruct (Z.ltb_spec i 0); [|done]].
  - pose proof (json_code_range i ltac:(lia)). rewrite Z.mod_small by lia. lia.
  - pose proof (json_code_range (- i) ltac:(lia)). split; [lia|].
    replace (2 ^ 63 + json_code (- i)) with (json_code (- i) + 1 * 2 ^ 63) by lia. rewrite Z.mod_add, Z.mod_small by lia. lia.
Qed.

Lemma json_key_double i : - 2 ^ 63 <= i < 2 ^ 63 ->
  mdbx_key_from_jsonInteger i = Some (double2key (json_bits i)) /\
  double_scaled (json_bits i) = Z.sgn i * json_value (Z.abs i) * 2 ^ 1074.
Proof.
  intros Hi. rewrite (json_key_eq i Hi). pose proof (json_bits_finite i Hi) as [Hb _]. rewrite (double2key_eq _ Hb).
  unfold double_scaled, double_sign, double_mag, json_bits in *.
  destruct (Z.ltb_spec 0 i); [|destruct (Z.ltb_spec i 0)].
  - pose proof (json_code_range i ltac:(lia)). destruct (Z.leb_spec (2 ^ 63) (json_code i)); [lia|]. rewrite Z.mod_small by lia.
    split; [done|]. rewrite Z.sgn_pos, Z.abs_eq, json_code_value by lia. lia.
  - pose proof (json_code_range (- i) ltac:(lia)). destruct (Z.leb_spec (2 ^ 63) (2 ^ 63 + json_code (- i))); [|lia].
    replace (2 ^ 63 + json_code (- i)) with (json_code (- i) + 1 * 2 ^ 63) by lia. rewrite Z.mod_add, Z.mod_small by lia.
    split; [done|]. rewrite Z.sgn_neg, Z.abs_neq, json_code_value by lia. lia.
  - assert (i = 0) as -> by lia. done.
Qed.

Lemma json_key_mono i j a b : - 2 ^ 63 <= i <= j -> j < 2 ^ 63 ->
  mdbx_key_from_jsonInteger i = Some a -> mdbx_key_from_jsonInteger j = Some b -> a <= b.
Proof.
  intros Hij Hj. rewrite !json_key_eq by lia. intros [= <-] [= <-].
  destruct (Z.ltb_spec 0 i), (Z.ltb_spec 0 j); try lia.
  - pose proof (json_code_mono i j). lia.
  - pose proof (json_code_range j ltac:(lia)). destruct (Z.ltb_spec i 0); [|lia]. pose proof (json_code_range (- i) ltac:(lia)). lia.
  - destruct (Z.ltb_spec i 0), (Z.ltb_spec j 0); try lia.
    + pose proof (json_code_mono (- j) (- i)). lia.
    + pose proof (json_code_range (- i) ltac:(lia)). lia.
Qed.

(** ** JSON integers from keys *)

(** A finite number is truncated towards zero; what does not fit saturates. *)
Lemma mag_trunc mag : 0 <= mag < 0x7FF * 2 ^ 52 ->
  let shift := 1086 - mag / 2 ^ 52 in
  (shift < 1 -> 2 ^ 63 * 2 ^ 1074 <= mag_scaled mag) /\
  (63 < shift -> mag_scaled mag < 2 ^ 1074) /\
  (1 <= shift <= 63 -> mag_scaled mag / 2 ^ 1074 = ((2 ^ 52 + mag mod 2 ^ 52) * 2 ^ 11) / 2 ^ shift /\
     mag_scaled mag < 2 ^ 63 * 2 ^ 1074).
Proof.
  intros Hm. cbn zeta. unfold mag_scaled. cbn zeta.
  pose proof (Z.mod_pos_bound mag (2 ^ 52) ltac:(lia)) as Hmm. pose proof (Z.div_pos mag (2 ^ 52) ltac:(lia) ltac:(lia)) as He.
  revert Hmm He. generalize (mag / 2 ^ 52) (mag mod 2 ^ 52). intros e m Hmm He. split_and!.
  - intros Hs. destruct (Z.eqb_spec e 0); [lia|].
    assert (2 ^ 63 * 2 ^ 1074 = 2 ^ 52 * 2 ^ 1085) as -> by by vm_compute.
    pose proof (Z.pow_le_mono_r 2 1085 (e - 1) ltac:(lia) ltac:(lia)) as Hp.
    apply Z.mul_le_mono_nonneg; [lia|lia|by vm_compute|done].
  - intros Hs. destruct (Z.eqb_spec e 0) as [->|He0].
    + assert (2 ^ 52 < 2 ^ 1074) by by vm_compute. lia.
    + assert (2 ^ 1074 = 2 ^ 53 * 2 ^ 1021) as -> by by vm_compute.
      pose proof (Z.pow_le_mono_r 2 (e - 1) 1021 ltac:(lia) ltac:(lia)) as Hp. pose proof (Z.pow_pos_nonneg 2 (e - 1) ltac:(lia) ltac:(lia)).
      apply Z.lt_le_trans with (2 ^ 53 * 2 ^ (e - 1)); [apply Z.mul_lt_mono_pos_r; lia|apply Z.mul_le_mono_nonneg_l; lia].
  - intros Hs. destruct (Z.eqb_spec e 0); [lia|]. split.
    + assert (2 ^ 1074 = 2 ^ (1086 - e) * 2 ^ (e - 12)) as -> by (rewrite <- Z.pow_add_r by lia; f_equal; lia).
      assert (2 ^ (e - 1) = 2 ^ 11 * 2 ^ (e - 12)) as -> by (rewrite <- Z.pow_add_r by lia; f_equal; lia).
      rewrite Z.mul_assoc. apply Z.div_mul_cancel_r; apply Z.pow_nonzero; lia.
    + assert (2 ^ 63 * 2 ^ 1074 = 2 ^ 53 * 2 ^ 1084) as -> by by vm_compute.
      pose proof (Z.pow_le_mono_r 2 (e - 1) 1084 ltac:(lia) ltac:(lia)) as Hp. pose proof (Z.pow_pos_nonneg 2 (e - 1) ltac:(lia) ltac:(lia)).
      apply Z.lt_le_trans with (2 ^ 53 * 2 ^ (e - 1)); [apply Z.mul_lt_mono_pos_r; lia|apply Z.mul_le_mono_nonneg_l; lia].
Qed.

Lemma jsonInteger_from_key_spec bits : double_finite bits ->
  mdbx_jsonInteger_from_key (double2key bits) =
    let v := Z.quot (double_scaled bits) (2 ^ 1074) in
    if 2 ^ 63 <=? Z.abs v then (if double_sign bits then INT64_MIN else INT64_MAX) else v.
Proof.
  intros [Hb Hf]. pose proof (double_mag_range bits) as Hm. rewrite double2key_eq by done.
  unfold mdbx_jsonInteger_from_key, double_scaled, IEEE754_DOUBLE_MANTISSA_SIZE, IEEE754_DOUBLE_EXPONENTA_BIAS,
    IEEE754_DOUBLE_EXPONENTA_MAX, IEEE754_DOUBLE_MANTISSA_MASK. cbn zeta. change 0x8000000000000000 with (2 ^ 63).
  set (mag := double_mag bits) in *.
  assert (forall key, key = (if double_sign bits then 2 ^ 63 - 1 - mag else 2 ^ 63 + mag) ->
    (if 2 ^ 63 <=? key then key - 2 ^ 63 else 2 ^ 63 - key - 1) = mag /\ (key <? 2 ^ 63) = double_sign bits) as Hk.
  { intros key ->. destruct (double_sign bits).
    - destruct (Z.leb_spec (2 ^ 63) (2 ^ 63 - 1 - mag)), (Z.ltb_spec (2 ^ 63 - 1 - mag) (2 ^ 63)); lia.
    - destruct (Z.leb_spec (2 ^ 63) (2 ^ 63 + mag)), (Z.ltb_spec (2 ^ 63 + mag) (2 ^ 63)); lia. }
  destruct (Hk _ eq_refl) as [-> ->]. clear Hk.
  rewrite Z.shiftr_div_pow2 by lia.
  pose proof (Z.div_pos mag (2 ^ 52) ltac:(lia) ltac:(lia)) as He0. pose proof (Z.div_lt_upper_bound mag (2 ^ 52) 0x7FF ltac:(lia) ltac:(lia)) as He1.
  assert (Z.land 0x7FF (i32 (mag / 2 ^ 52)) = mag / 2 ^ 52) as ->.
  { unfold i32, signed. rewrite wrap_small by lia. change (2 ^ (32 - 1)) with (2 ^ 31). destruct (Z.ltb_spec (mag / 2 ^ 52) (2 ^ 31)); [|lia].
    rewrite Z.land_comm. change 0x7FF with (Z.ones 11). rewrite Z.land_ones by lia. apply Z.mod_small. lia. }
  replace (0x3FF + 63 - mag / 2 ^ 52) with (1086 - mag / 2 ^ 52) by lia.
  destruct (mag_trunc mag ltac:(lia)) as (Hbig & Hsmall & Hmid). cbn zeta in *.
  pose proof (mag_scaled_nonneg mag ltac:(lia)) as Hn. assert (0 < 2 ^ 1074) as Hp by by vm_compute.
  assert (Z.abs (Z.quot (if double_sign bits then - mag_scaled mag else mag_scaled mag) (2 ^ 1074)) = mag_scaled mag / 2 ^ 1074) as Habs.
  { destruct (double_sign bits); rewrite ?Z.quot_opp_l, ?Z.abs_opp by lia; rewrite Z.quot_div_nonneg, Z.abs_eq by (try apply Z.div_pos; lia); done. }
  rewrite Habs. pose proof (Z.mod_pos_bound mag (2 ^ 52) ltac:(lia)) as Hmm.
  destruct (Z.ltb_spec (1086 - mag / 2 ^ 52) 1) as [H1|H1].
  { specialize (Hbig H1). destruct (Z.leb_spec (2 ^ 63) (mag_scaled mag / 2 ^ 1074)) as [_|Hlt]; [done|].
    pose proof (Z.div_le_lower_bound (mag_scaled mag) (2 ^ 1074) (2 ^ 63) Hp ltac:(lia)). lia. }
  destruct (Z.ltb_spec 63 (1086 - mag / 2 ^ 52)) as [H2|H2].
  { specialize (Hsmall H2). rewrite Z.div_small by lia. change (2 ^ 63 <=? 0) with false. cbn match.
    destruct (double_sign bits); rewrite ?Z.quot_opp_l by lia; rewrite Z.quot_small by lia; done. }
  destruct (Hmid ltac:(lia)) as [Ediv Hlt63].
  assert (0 <= mag_scaled mag / 2 ^ 1074 < 2 ^ 63) as Hr.
  { split; [apply Z.div_pos; lia|apply Z.div_lt_upper_bound; lia]. }
  destruct (Z.leb_spec (2 ^ 63) (mag_scaled mag / 2 ^ 1074)); [lia|].
  change 0x000FFFFFFFFFFFFF with (Z.ones 52). rewrite Z.land_ones, Z.shiftl_mul_pow2 by lia. change (63 - 52) with 11.
  rewrite (u64_small (mag mod 2 ^ 52 * 2 ^ 11)) by (unfold UINT64_MAX; lia). rewrite u64_small by (unfold UINT64_MAX; lia).
  rewrite Z.shiftr_div_pow2 by lia. replace (mag mod 2 ^ 52 * 2 ^ 11 + 2 ^ 63) with ((2 ^ 52 + mag mod 2 ^ 52) * 2 ^ 11) by lia.
  rewrite <- Ediv. rewrite i64_cases by lia. destruct (Z.leb_spec (2 ^ 63) (mag_scaled mag / 2 ^ 1074)); [lia|].
  destruct (double_sign bits); rewrite ?Z.quot_opp_l by lia; rewrite Z.quot_div_nonneg by lia; done.
Qed.

Lemma json_roundtrip i : - 2 ^ 53 <= i <= 2 ^ 53 ->
  exists key, mdbx_key_from_jsonInteger i = Some key /\ mdbx_jsonInteger_from_key key = i.
Proof.
  intros Hi. destruct (json_key_double i ltac:(lia)) as [E Es]. eexists. split; [exact E|].
  rewrite (jsonInteger_from_key_spec _ (json_bits_finite i ltac:(lia))). cbn zeta. rewrite Es.
  assert (Z.sgn i * json_value (Z.abs i) = i) as ->.
  { destruct (Z.eq_dec i 0) as [->|]; [done|]. rewrite json_value_exact by lia. rewrite Z.mul_comm, Z.abs_sgn. done. }
  rewrite Z.quot_mul by by vm_compute. destruct (Z.leb_spec (2 ^ 63) (Z.abs i)); [lia|done].
Qed.

(** ** Integers and floats *)

Lemma int64_key_roundtrip i : - 2 ^ 63 <= i < 2 ^ 63 ->
  mdbx_key_from_int64 i = i + 2 ^ 63 /\ mdbx_int64_from_key (mdbx_key_from_int64 i) = i.
Proof.
  intros Hi. unfold mdbx_int64_from_key, mdbx_key_from_int64. rewrite u64_small by (unfold UINT64_MAX; lia). split; [lia|].
  replace (0x8000000000000000 + i - 0x8000000000000000) with i by lia.
  unfold i64, signed, u64, wrap. rewrite Z.mod_mod by lia. change (2 ^ (64 - 1)) with (2 ^ 63).
  destruct (Z.le_gt_cases 0 i).
  - rewrite Z.mod_small by lia. destruct (Z.ltb_spec i (2 ^ 63)); lia.
  - assert (i mod 2 ^ 64 = i + 2 ^ 64) as -> by (symmetry; apply Z.mod_unique with (-1); lia).
    destruct (Z.ltb_spec (i + 2 ^ 64) (2 ^ 63)); lia.
Qed.

Lemma int32_key_roundtrip i : - 2 ^ 31 <= i < 2 ^ 31 ->
  mdbx_key_from_int32 i = i + 2 ^ 31 /\ mdbx_int32_from_key (mdbx_key_from_int32 i) = i.
Proof.
  intros Hi. unfold mdbx_int32_from_key, mdbx_key_from_int32. rewrite u32_small by (unfold UINT32_MAX; lia). split; [lia|].
  replace (0x80000000 + i - 0x80000000) with i by lia.
  unfold i32, signed, u32, wrap. rewrite Z.mod_mod by lia. change (2 ^ (32 - 1)) with (2 ^ 31).
  destruct (Z.le_gt_cases 0 i).
  - rewrite Z.mod_small by lia. destruct (Z.ltb_spec i (2 ^ 31)); lia.
  - assert (i mod 2 ^ 32 = i + 2 ^ 32) as -> by (symmetry; apply Z.mod_unique with (-1); lia).
    destruct (Z.ltb_spec (i + 2 ^ 32) (2 ^ 31)); lia.
Qed.

Lemma i32_cases x : 0 <= x < 2 ^ 32 -> i32 x = if 2 ^ 31 <=? x then x - 2 ^ 32 else x.
Proof.
  intros Hx. unfold i32, signed. rewrite wrap_small by lia. change (2 ^ (32 - 1)) with (2 ^ 31).
  destruct (Z.ltb_spec x (2 ^ 31)), (Z.leb_spec (2 ^ 31) x); lia.
Qed.

Lemma float2key_eq bits : 0 <= bits < 2 ^ 32 ->
  float2key bits = if 2 ^ 31 <=? bits then 2 ^ 32 - 1 - bits else 2 ^ 31 + bits.
Proof.
  intros Hb. unfold float2key. rewrite i32_cases by done. destruct (Z.leb_spec (2 ^ 31) bits).
  - destruct (Z.ltb_spec (bits - 2 ^ 32) 0); [|lia]. unfold u32, wrap. symmetry. apply Z.mod_unique with 1; lia.
  - destruct (Z.ltb_spec bits 0); [lia|]. unfold u32. rewrite wrap_small by lia. lia.
Qed.

Lemma key2float_float2key bits : 0 <= bits < 2 ^ 32 -> key2float (float2key bits) = bits.
Proof.
  intros Hb. rewrite float2key_eq by done. unfold key2float. rewrite i32_cases by (destruct (Z.leb_spec (2 ^ 31) bits); lia).
  destruct (Z.leb_spec (2 ^ 31) bits).
  - destruct (Z.leb_spec (2 ^ 31) (2 ^ 32 - 1 - bits)); [lia|]. destruct (Z.ltb_spec (2 ^ 32 - 1 - bits) 0); [lia|].
    unfold u32. rewrite wrap_small by lia. lia.
  - destruct (Z.leb_spec (2 ^ 31) (2 ^ 31 + bits)); [|lia]. destruct (Z.ltb_spec (2 ^ 31 + bits - 2 ^ 32) 0); [|lia].
    unfold u32. rewrite wrap_small by lia. lia.
Qed.

(** The magnitude of a [float] with its sign, an order isomorphic to that of
    the numbers. *)
Definition float_rank (bits : Z) : Z := if 2 ^ 31 <=? bits then - (bits - 2 ^ 31) else bits.

Lemma float2key_order a b : 0 <= a < 2 ^ 32 -> 0 <= b < 2 ^ 32 ->
  (float_rank a < float_rank b -> float2key a < float2key b) /\
  (float2key a < float2key b -> float_rank a <= float_rank b).
Proof.
  intros Ha Hb. rewrite !float2key_eq by done. unfold float_rank.
  destruct (Z.leb_spec (2 ^ 31) a), (Z.leb_spec (2 ^ 31) b); lia.
Qed.

(** ** Claims *)

(** C40: the key of a finite [double] is ordered as the number is, and the number
    is restored from the key bit by bit (also for infinities and NaNs). *)
Theorem double_keys a b bits : double_finite a -> double_finite b -> 0 <= bits < 2 ^ 64 ->
  (double_scaled a < double_scaled b -> double2key a < double2key b) /\
  (double2key a < double2key b -> double_scaled a <= double_scaled b) /\
  mdbx_double_from_key (double2key bits) = bits.
Proof. intros Ha Hb Hbits. split_and!; [by apply double2key_order|by apply double2key_order|by apply key2double_double2key]. Qed.

(** -1.5 and 2.0. *)
Lemma double_keys_witness : double2key 0xBFF8000000000000 < double2key 0x4000000000000000 /\
  mdbx_double_from_key (double2key 0x7FF0000000000000) = 0x7FF0000000000000.
Proof.
  assert (double_finite 0xBFF8000000000000) as Ha by (split; by vm_compute).
  assert (double_finite 0x4000000000000000) as Hb by (split; by vm_compute).
  destruct (double_keys _ _ 0x7FF0000000000000 Ha Hb ltac:(lia)) as (H1 & _ & H2).
  split; [apply H1; by vm_compute|exact H2].
Defined.

(** The key of an integer is the number plus half of the range, so that the
    order is kept, and gives the number back; the same holds for the bits of a
    [float], whose key is ordered by sign and magnitude. *)
Theorem integer_and_float_keys i j f g : - 2 ^ 63 <= i < 2 ^ 63 -> - 2 ^ 31 <= j < 2 ^ 31 ->
  0 <= f < 2 ^ 32 -> 0 <= g < 2 ^ 32 ->
  mdbx_key_from_int64 i = i + 2 ^ 63 /\ mdbx_int64_from_key (mdbx_key_from_int64 i) = i /\
  mdbx_key_from_int32 j = j + 2 ^ 31 /\ mdbx_int32_from_key (mdbx_key_from_int32 j) = j /\
  mdbx_float_from_key (float2key f) = f /\
  (float_rank f < float_rank g -> float2key f < float2key g) /\
  (float2key f < float2key g -> float_rank f <= float_rank g).
Proof.
  intros Hi Hj Hf Hg. split_and!; [by apply int64_key_roundtrip|by apply int64_key_roundtrip|by apply int32_key_roundtrip|by apply int32_key_roundtrip|
    by apply key2float_float2key|by apply float2key_order..].
Qed.

Lemma integer_and_float_keys_witness : mdbx_int64_from_key (mdbx_key_from_int64 (- 7)) = - 7.
Proof. apply (integer_and_float_keys (- 7) 5 0x3F800000 0xBF800000); lia. Defined.

(** The key of a 64-bit JSON integer is the key of the double nearest to it
    (ties to even): the distance is at most a 2^-53 part of it, integers up to
    2^53 are exact and come back from their keys, the order of integers is
    kept, and reading a double's key
    back as an integer truncates towards zero, saturating outside of the
    64-bit range. *)
Theorem json_integer_keys i j bits : - 2 ^ 63 <= i <= j -> j < 2 ^ 63 -> double_finite bits ->
  (exists b a, double_finite b /\ mdbx_key_from_jsonInteger i = Some (double2key b) /\
     double_scaled b = a * 2 ^ 1074 /\ 2 ^ 53 * Z.abs (a - i) <= Z.abs i /\ (Z.abs i <= 2 ^ 53 -> a = i)) /\
  (exists a b, mdbx_key_from_jsonInteger i = Some a /\ mdbx_key_from_jsonInteger j = Some b /\ a <= b) /\
  (Z.abs i <= 2 ^ 53 -> exists key, mdbx_key_from_jsonInteger i = Some key /\ mdbx_jsonInteger_from_key key = i) /\
  mdbx_jsonInteger_from_key (double2key bits) =
    (let v := Z.quot (double_scaled bits) (2 ^ 1074) in
     if 2 ^ 63 <=? Z.abs v then (if double_sign bits then INT64_MIN else INT64_MAX) else v).
Proof.
  intros Hij Hj Hb. split_and!.
  - destruct (json_key_double i ltac:(lia)) as [E Es].
    exists (json_bits i), (Z.sgn i * json_value (Z.abs i)). split; [apply json_bits_finite; lia|]. split_and!; [done|done|..].
    + destruct (Z.eq_dec i 0) as [->|]; [done|]. pose proof (json_value_near (Z.abs i) ltac:(lia)).
      replace (Z.abs (Z.sgn i * json_value (Z.abs i) - i)) with (Z.abs (json_value (Z.abs i) - Z.abs i)) by (destruct (Z.sgn_spec i) as [[? ->]|[[? ->]|[? ->]]]; lia). lia.
    + intros Hsmall. destruct (Z.eq_dec i 0) as [->|]; [done|]. rewrite json_value_exact by lia. rewrite Z.mul_comm. apply Z.abs_sgn.
  - destruct (json_key_double i ltac:(lia)) as [Ei _]. destruct (json_key_double j ltac:(lia)) as [Ej _].
    eexists _, _. split; [exact Ei|]. split; [exact Ej|]. exact (json_key_mono i j _ _ Hij Hj Ei Ej).
  - intros Hsmall. apply json_roundtrip. lia.
  - by apply jsonInteger_from_key_spec.
Qed.

Lemma json_integer_keys_witness : exists a b,
  mdbx_key_from_jsonInteger (- 9007199254740993) = Some a /\ mdbx_key_from_jsonInteger 42 = Some b /\ a <= b.
Proof.
  apply (json_integer_keys (- 9007199254740993) 42 0x4000000000000000); [lia|lia|split; by vm_compute].
Defined.
