(* ===== verification/Meta.v ===== *)
(** * Meta pages

    [src/src/meta.h], [src/src/meta.c] and the update of a meta page in
    [src/src/dxb.c]: each of the three meta pages describes a committed
    snapshot of the database; the state of the database is chosen among them
    by transaction id and by whether the page is steady (synced to disk). *)

From stdpp Require Import base list numbers option.
From Stdlib Require Import ZArith Lia.
From S2P Require Import Prelude Rkl.

Definition NUM_METAS : Z := 3.
Definition DATASIGN_NONE : Z := 0.
Definition DATASIGN_WEAK : Z := 1.
Definition SIGN_IS_STEADY (sign : Z) : bool := DATASIGN_WEAK <? sign.

(** A meta page. What is assigned as a whole (the geometry, the roots of both
    trees, the canary, the identifier of the boot) is one value. *)
Record meta : Type := mk_meta {
  txnid_a : Z;
  geometry : Z;
  trees_gc : Z;
  trees_main : Z;
  canary : Z;
  sign : Z;
  txnid_b : Z;
  pages_retired : Z;
  bootid : Z;
}.

(** ** Reading a meta page *)

Definition meta_sign_calculate (m : meta) : Z :=
  let sign := DATASIGN_NONE in
  if DATASIGN_WEAK <? sign then sign else u64 (Z.lnot sign).

Definition meta_is_steady (m : meta) : bool := SIGN_IS_STEADY (sign m).

Definition constmeta_txnid (m : meta) : Z :=
  if txnid_a m =? txnid_b m then txnid_a m else 0.

Record meta_snap_t : Type := mk_snap { snap_txnid : Z; snap_is_steady : bool }.

(** The snapshot from the three values read: [txnid_a], the sign, [txnid_b]. *)
Definition snap_of (a sign b : Z) : meta_snap_t :=
  let is_steady := SIGN_IS_STEADY sign && (MIN_TXNID <=? a) in
  if negb (a =? b) then mk_snap 0 false else mk_snap a is_steady.

(** When nobody writes to the page. *)
Definition meta_snap (m : meta) : meta_snap_t := snap_of (txnid_a m) (sign m) (txnid_b m).

Definition meta_txnid (m : meta) : Z := snap_txnid (meta_snap m).

(** ** Comparing meta pages *)

Definition meta_cmp2int (a b s : Z) : Z :=
  u8 (if a =? b then 1 * s else if b <? a then 2 * s else 0 * s).

(** [a > b] on booleans. *)
Definition bgt (a b : bool) : bool := a && negb b.

Definition meta_cmp2recent (ab_cmp2int : Z) (a_steady b_steady : bool) : bool :=
  (1 <? ab_cmp2int) || ((ab_cmp2int =? 1) && bgt a_steady b_steady).

Definition meta_cmp2steady (ab_cmp2int : Z) (a_steady b_steady : bool) : bool :=
  bgt a_steady b_steady || (Bool.eqb a_steady b_steady && (1 <? ab_cmp2int)).

Definition meta_choice_recent (a_txnid : Z) (a_steady : bool) (b_txnid : Z) (b_steady : bool) : bool :=
  meta_cmp2recent (meta_cmp2int a_txnid b_txnid 1) a_steady b_steady.

Definition meta_choice_steady (a_txnid : Z) (a_steady : bool) (b_txnid : Z) (b_steady : bool) : bool :=
  meta_cmp2steady (meta_cmp2int a_txnid b_txnid 1) a_steady b_steady.

Definition b2z (b : bool) : Z := if b then 1 else 0.

Definition meta_cmp2pack (c01 c02 c12 : Z) (s0 s1 s2 : bool) : Z :=
  let recent :=
    if meta_cmp2recent c01 s0 s1 then (if meta_cmp2recent c02 s0 s2 then 0 else 2)
    else (if meta_cmp2recent c12 s1 s2 then 1 else 2) in
  let prefer_steady :=
    if meta_cmp2steady c01 s0 s1 then (if meta_cmp2steady c02 s0 s2 then 0 else 2)
    else (if meta_cmp2steady c12 s1 s2 then 1 else 2) in
  let tail :=
    if recent =? 0 then (if meta_cmp2steady c12 s1 s2 then 2 else 1)
    else if recent =? 1 then (if meta_cmp2steady c02 s0 s2 then 2 else 0)
    else (if meta_cmp2steady c01 s0 s1 then 1 else 0) in
  let ne c s t := negb (c =? 1) || negb (Bool.eqb s t) in
  let valid := ne c01 s0 s1 || ne c02 s0 s2 || ne c12 s1 s2 in
  let strict := ne c01 s0 s1 && ne c02 s0 s2 && ne c12 s1 s2 in
  u8 (Z.lor (Z.lor (Z.lor (Z.lor tail (Z.shiftl recent 2)) (Z.shiftl prefer_steady 4)) (Z.shiftl (b2z strict) 6))
       (Z.shiftl (b2z valid) 7)).

(** ** The troika *)

Record troika_t : Type := mk_troika {
  fsm : Z;
  recent : Z;
  prefer_steady : Z;
  tail_and_flags : Z;
  txnid : list Z;
}.

Definition TROIKA_HAVE_STEADY (t : troika_t) : bool := negb (Z.land (fsm t) 7 =? 0).
Definition TROIKA_STRICT_VALID (t : troika_t) : bool := negb (Z.land (tail_and_flags t) 64 =? 0).
Definition TROIKA_VALID (t : troika_t) : bool := negb (Z.land (tail_and_flags t) 128 =? 0).
Definition TROIKA_TAIL (t : troika_t) : Z := Z.land (tail_and_flags t) 3.

Definition meta_troika_unpack (fsm : Z) (txnid : list Z) (packed : Z) : troika_t :=
  mk_troika fsm (Z.land (Z.shiftr packed 2) 3) (Z.land (Z.shiftr packed 4) 3) (Z.land packed 0xC3) txnid.

Definition troika_fsm_map : list Z := [
  232; 201; 216; 216; 232; 233; 232; 232; 168; 201; 216; 152; 168; 233; 232; 168; 233; 201; 216; 201; 233; 233;
  232; 233; 168; 201; 152; 216; 232; 169; 232; 168; 168; 193; 152; 152; 168; 169; 232; 168; 169; 193; 152; 194;
  233; 169; 232; 169; 232; 201; 216; 216; 232; 201; 232; 232; 168; 193; 216; 152; 168; 193; 232; 168; 193; 193;
  210; 194; 225; 193; 225; 193; 168; 137; 212; 214; 232; 233; 168; 168; 168; 137; 212; 150; 168; 233; 168; 168;
  169; 137; 216; 201; 233; 233; 168; 169; 168; 137; 148; 214; 232; 169; 168; 168; 40;  129; 148; 150; 168; 169;
  168; 40;  169; 129; 152; 194; 233; 169; 168; 169; 168; 137; 214; 214; 232; 201; 168; 168; 168; 129; 214; 150;
  168; 193; 168; 168; 129; 129; 210; 194; 225; 193; 161; 129; 212; 198; 212; 214; 228; 228; 212; 212; 148; 201;
  212; 150; 164; 233; 212; 148; 233; 201; 216; 201; 233; 233; 216; 233; 148; 198; 148; 214; 228; 164; 212; 148;
  148; 194; 148; 150; 164; 169; 212; 148; 169; 194; 152; 194; 233; 169; 216; 169; 214; 198; 214; 214; 228; 198;
  212; 214; 150; 194; 214; 150; 164; 193; 212; 150; 194; 194; 210; 194; 225; 193; 210; 194].

(** One step of the loop of [troika_verify_fsm]. *)
Definition troika_verify_step (i : Z) : bool :=
  let s0 := Z.testbit i 0 in
  let s1 := Z.testbit i 1 in
  let s2 := Z.testbit i 2 in
  let c01 := (i / (8 * 1)) mod 3 in
  let c02 := (i / (8 * 3)) mod 3 in
  let c12 := (i / (8 * 9)) mod 3 in
  let packed := meta_cmp2pack c01 c02 c12 s0 s1 s2 in
  let troika := meta_troika_unpack i [] packed in
  let recent_chk :=
    if meta_cmp2recent c01 s0 s1 then (if meta_cmp2recent c02 s0 s2 then 0 else 2)
    else (if meta_cmp2recent c12 s1 s2 then 1 else 2) in
  let prefer_steady_chk :=
    if meta_cmp2steady c01 s0 s1 then (if meta_cmp2steady c02 s0 s2 then 0 else 2)
    else (if meta_cmp2steady c12 s1 s2 then 1 else 2) in
  let tail_chk :=
    if recent_chk =? 0 then (if meta_cmp2steady c12 s1 s2 then 2 else 1)
    else if recent_chk =? 1 then (if meta_cmp2steady c02 s0 s2 then 2 else 0)
    else (if meta_cmp2steady c01 s0 s1 then 1 else 0) in
  let ne c s t := negb (c =? 1) || negb (Bool.eqb s t) in
  let valid_chk := ne c01 s0 s1 || ne c02 s0 s2 || ne c12 s1 s2 in
  let strict_chk := ne c01 s0 s1 && ne c02 s0 s2 && ne c12 s1 s2 in
  (recent troika =? recent_chk) && (prefer_steady troika =? prefer_steady_chk) && (TROIKA_TAIL troika =? tail_chk) &&
  Bool.eqb (TROIKA_VALID troika) valid_chk && Bool.eqb (TROIKA_STRICT_VALID troika) strict_chk &&
  match zget troika_fsm_map i with Some x => x =? packed | None => false end.

Definition troika_verify_fsm : bool := forallb troika_verify_step (seqZ 0 216).

(** [meta_tap] from the snapshots of the three pages. *)
Definition meta_tap_snaps (snap0 snap1 snap2 : meta_snap_t) : option troika_t :=
  let t0 := snap_txnid snap0 in
  let t1 := snap_txnid snap1 in
  let t2 := snap_txnid snap2 in
  let f := u8 (Z.shiftl (b2z (snap_is_steady snap0)) 0) in
  let f := u8 (f + Z.shiftl (b2z (snap_is_steady snap1)) 1) in
  let f := u8 (f + meta_cmp2int t0 t1 8) in
  let f := u8 (f + Z.shiftl (b2z (snap_is_steady snap2)) 2) in
  let f := u8 (f + meta_cmp2int t0 t2 (8 * 3)) in
  let f := u8 (f + meta_cmp2int t1 t2 (8 * 3 * 3)) in
  packed ← zget troika_fsm_map f;
  Some (meta_troika_unpack f [t0; t1; t2] packed).

Definition meta_tap (m0 m1 m2 : meta) : option troika_t :=
  meta_tap_snaps (meta_snap m0) (meta_snap m1) (meta_snap m2).

Definition recent_committed_txnid (env0 env1 env2 : meta) : Z :=
  let m0 := meta_txnid env0 in
  let m1 := meta_txnid env1 in
  let m2 := meta_txnid env2 in
  if m1 <? m0 then (if m2 <? m0 then m0 else m2) else (if m2 <? m1 then m1 else m2).

(** A [meta_ptr_t]: the id, the number of the page and its steadiness. *)
Record meta_ptr_t : Type := mk_ptr { ptr_txnid : Z; ptr_n : Z; ptr_is_steady : bool }.

Definition troika_ptr (t : troika_t) (n : Z) : option meta_ptr_t :=
  x ← zget (txnid t) n; Some (mk_ptr x n (Z.testbit (fsm t) n)).

Definition meta_recent (t : troika_t) : option meta_ptr_t := troika_ptr t (recent t).
Definition meta_prefer_steady (t : troika_t) : option meta_ptr_t := troika_ptr t (prefer_steady t).
Definition meta_tail (t : troika_t) : option meta_ptr_t := troika_ptr t (Z.land (tail_and_flags t) 3).

Definition meta_is_used (t : troika_t) (n : Z) : bool := (n =? recent t) || (n =? prefer_steady t).

Definition meta_eq (t : troika_t) (a b : Z) : option bool :=
  x ← zget (txnid t) a;
  y ← zget (txnid t) b;
  Some ((x =? y) && (Z.land (Z.lxor (Z.shiftr (fsm t) a) (Z.shiftr (fsm t) b)) 1 =? 0) && negb (x =? 0)).

Definition meta_eq_mask (t : troika_t) : option Z :=
  e01 ← meta_eq t 0 1;
  e12 ← meta_eq t 1 2;
  e20 ← meta_eq t 2 0;
  Some (Z.lor (Z.lor (b2z e01) (Z.shiftl (b2z e12) 1)) (Z.shiftl (b2z e20) 2)).

(** The result and the new troika. *)
Definition meta_should_retry (prev : troika_t) (m0 m1 m2 : meta) : option (bool * troika_t) :=
  t ← meta_tap m0 m1 m2;
  p0 ← zget (txnid prev) 0; p1 ← zget (txnid prev) 1; p2 ← zget (txnid prev) 2;
  t0 ← zget (txnid t) 0; t1 ← zget (txnid t) 1; t2 ← zget (txnid t) 2;
  Some (negb (fsm prev =? fsm t) || negb (p0 =? t0) || negb (p1 =? t1) || negb (p2 =? t2), t).

(** ** Which page a commit writes to

    [dxb_sync_locked]: the page of the same transaction when it only turns
    steady, else the tail. [None] of the inner option: nothing to write. *)
Definition sync_target (t : troika_t) (head : meta_ptr_t) (head_meta pending : meta) : option (option Z) :=
  let legal4overwrite :=
    (ptr_txnid head =? txnid_a pending) &&
    (trees_gc head_meta =? trees_gc pending) && (trees_main head_meta =? trees_main pending) &&
    (canary head_meta =? canary pending) && (geometry head_meta =? geometry pending) in
  if ptr_txnid head =? txnid_a pending then
    if negb legal4overwrite then None
    else if negb (ptr_is_steady head) && meta_is_steady pending then Some (Some (ptr_n head))
    else Some None
  else
    let troika_tail := Z.land (tail_and_flags t) 3 in
    if (troika_tail <? NUM_METAS) && negb (troika_tail =? recent t) && negb (troika_tail =? prefer_steady t)
    then Some (Some troika_tail)
    else None.

(** ** The choice of the troika *)

(** The table agrees with the comparisons it was generated from. *)
Lemma troika_verify_fsm_ok : troika_verify_fsm = true.
Proof. by vm_compute. Qed.

(** More recent: by transaction id, then steady before weak. *)
Definition recent_le (x y : meta_snap_t) : Prop :=
  snap_txnid x < snap_txnid y \/
  (snap_txnid x = snap_txnid y /\ (snap_is_steady x = true -> snap_is_steady y = true)).

(** Steady first, then by transaction id. *)
Definition steady_le (x y : meta_snap_t) : Prop :=
  (snap_is_steady x = false /\ snap_is_steady y = true) \/
  (snap_is_steady x = snap_is_steady y /\ snap_txnid x <= snap_txnid y).

Definition snap_same (x y : meta_snap_t) : Prop :=
  snap_txnid x = snap_txnid y /\ snap_is_steady x = snap_is_steady y.

Record troika_spec (snaps : list meta_snap_t) (t : troika_t) : Prop := {
  ts_txnid : txnid t = snap_txnid <$> snaps;
  ts_steady : forall i x, zget snaps i = Some x -> Z.testbit (fsm t) i = snap_is_steady x;
  ts_recent : exists r, zget snaps (recent t) = Some r /\ Forall (fun x => recent_le x r) snaps;
  ts_prefer_steady : exists r, zget snaps (prefer_steady t) = Some r /\ Forall (fun x => steady_le x r) snaps;
  ts_tail : 0 <= TROIKA_TAIL t < NUM_METAS /\ TROIKA_TAIL t <> recent t /\ TROIKA_TAIL t <> prefer_steady t;
  ts_have_steady : TROIKA_HAVE_STEADY t = existsb snap_is_steady snaps;
}.

Ltac solve_troika :=
  eexists; split; [reflexivity|]; split; cbn -[Z.testbit];
  [ done
  | intros i x Hx; pose proof (zget_range _ _ _ Hx) as Hi; change (zlen _) with 3 in Hi;
    assert (i = 0 \/ i = 1 \/ i = 2) as [->|[->| ->]] by lia; by injection Hx as <-
  | eexists; split; [reflexivity|]; repeat apply List.Forall_cons; try apply List.Forall_nil; unfold recent_le; cbn; (done || (left; lia) || (right; split; [lia|done]))
  | eexists; split; [reflexivity|]; repeat apply List.Forall_cons; try apply List.Forall_nil; unfold steady_le; cbn; (done || (by left) || (right; split; [done|lia]))
  | done
  | reflexivity ].

Lemma meta_tap_snaps_spec s0 s1 s2 : exists t, meta_tap_snaps s0 s1 s2 = Some t /\ troika_spec [s0; s1; s2] t.
Proof.
  destruct s0 as [t0 b0], s1 as [t1 b1], s2 as [t2 b2]. unfold meta_tap_snaps, meta_cmp2int. cbn [snap_txnid snap_is_steady].
  destruct (Z.eqb_spec t0 t1), (Z.eqb_spec t0 t2), (Z.eqb_spec t1 t2); try lia;
  destruct (Z.ltb_spec t1 t0), (Z.ltb_spec t2 t0), (Z.ltb_spec t2 t1); try lia;
  destruct b0, b1, b2; solve_troika.
Qed.

(** ** Claims *)

(** C6: the choice among three meta pages. For every combination of ids and
    steadiness the packed state of the automaton selects, as recent, a page
    with the greatest id (a steady one if there is one among those), as
    preferred steady, the greatest steady page (the greatest of all when none
    is steady), and as tail, the target of the next update, a page that is
    neither; and the table that the code derives at start agrees with the
    comparison functions in all its states. *)
Theorem meta_tap_selects m0 m1 m2 :
  (exists t, meta_tap m0 m1 m2 = Some t /\ troika_spec [meta_snap m0; meta_snap m1; meta_snap m2] t) /\
  troika_verify_fsm = true.
Proof. split; [apply meta_tap_snaps_spec|apply troika_verify_fsm_ok]. Qed.
