(* ===== verification/MetaSync.v ===== *)
(** * Updating a meta page

    The stores by which [dxb_sync_locked] ([src/src/dxb.c]) updates a mapped
    meta page, in the order of the program, and what a crash in the middle
    leaves. The ids are stored with barriers; the other fields are plain, and
    each is one indivisible value of the model. How the stores interleave with
    the loads of a starting reader is in [MetaSeize]. *)

From stdpp Require Import base list numbers option relations.
From Stdlib Require Import ZArith Lia.
From S2P Require Import Prelude Rkl Meta.

(** ** The stores of the writer *)

Inductive store : Type :=
  | StA (v : Z)
  | StB (v : Z)
  | StSign (v : Z)
  | StGeometry (v : Z)
  | StGc (v : Z)
  | StMain (v : Z)
  | StCanary (v : Z)
  | StRetired (v : Z)
  | StBootid (v : Z).

Definition apply_store (m : meta) (s : store) : meta :=
  match s with
  | StA v => mk_meta v (geometry m) (trees_gc m) (trees_main m) (canary m) (sign m) (txnid_b m) (pages_retired m) (bootid m)
  | StB v => mk_meta (txnid_a m) (geometry m) (trees_gc m) (trees_main m) (canary m) (sign m) v (pages_retired m) (bootid m)
  | StSign v => mk_meta (txnid_a m) (geometry m) (trees_gc m) (trees_main m) (canary m) v (txnid_b m) (pages_retired m) (bootid m)
  | StGeometry v => mk_meta (txnid_a m) v (trees_gc m) (trees_main m) (canary m) (sign m) (txnid_b m) (pages_retired m) (bootid m)
  | StGc v => mk_meta (txnid_a m) (geometry m) v (trees_main m) (canary m) (sign m) (txnid_b m) (pages_retired m) (bootid m)
  | StMain v => mk_meta (txnid_a m) (geometry m) (trees_gc m) v (canary m) (sign m) (txnid_b m) (pages_retired m) (bootid m)
  | StCanary v => mk_meta (txnid_a m) (geometry m) (trees_gc m) (trees_main m) v (sign m) (txnid_b m) (pages_retired m) (bootid m)
  | StRetired v => mk_meta (txnid_a m) (geometry m) (trees_gc m) (trees_main m) (canary m) (sign m) (txnid_b m) v (bootid m)
  | StBootid v => mk_meta (txnid_a m) (geometry m) (trees_gc m) (trees_main m) (canary m) (sign m) (txnid_b m) (pages_retired m) v
  end.

Definition run_stores (m : meta) (l : list store) : meta := fold_left apply_store l m.

Definition meta_update_begin (t : Z) : list store := [StB 0; StA t].
Definition meta_update_end (globals_bootid t : Z) : list store := [StBootid globals_bootid; StB t].

(** The page is mapped for writing and the target is not the head. *)
Definition sync_stores (globals_bootid : Z) (pending : meta) : list store :=
  meta_update_begin (txnid_a pending) ++
  [StSign DATASIGN_WEAK; StGeometry (geometry pending); StGc (trees_gc pending); StMain (trees_main pending);
   StCanary (canary pending); StRetired (pages_retired pending)] ++
  meta_update_end globals_bootid (txnid_b pending) ++ [StSign (sign pending)].

(** [meta_set_txnid]: on an image that is not mapped. *)
Definition meta_set_txnid (globals_bootid : Z) (m : meta) (t : Z) : meta :=
  run_stores m [StBootid globals_bootid; StA t; StB t].

(** ** Sequential effect, and what a crash leaves *)

Lemma sync_stores_run boot m pending : txnid_b pending = txnid_a pending ->
  run_stores m (sync_stores boot pending) = apply_store pending (StBootid boot).
Proof. intros E. destruct pending. cbn in *. by rewrite E. Qed.

(** The snapshot of a page that was updated up to its [k]-th store. *)
Lemma sync_prefix_snap boot m pending k : txnid_b pending = txnid_a pending -> 0 < txnid_a pending -> (1 <= k <= 11)%nat ->
  meta_snap (run_stores m (take k (sync_stores boot pending))) =
    if decide (k < 10)%nat then mk_snap 0 false
    else mk_snap (txnid_a pending) (if decide (k = 10)%nat then false else meta_is_steady pending).
Proof.
  intros Eb Ht Hk. unfold meta_snap.
  assert (k = 1 \/ k = 2 \/ k = 3 \/ k = 4 \/ k = 5 \/ k = 6 \/ k = 7 \/ k = 8 \/ k = 9 \/ k = 10 \/ k = 11)%nat as Hc by lia.
  assert (forall a sg, snap_of a sg 0 = mk_snap 0 false) as H0.
  { intros a sg. unfold snap_of. destruct (Z.eqb_spec a 0) as [->|]; cbn; [by rewrite andb_false_r|done]. }
  destruct Hc as [->|[->|[->|[->|[->|[->|[->|[->|[->|[->| ->]]]]]]]]]]; cbn; try apply H0; rewrite Eb; unfold snap_of;
    rewrite Z.eqb_refl; cbn [negb].
  - done.
  - f_equal. unfold meta_is_steady. destruct (Z.leb_spec MIN_TXNID (txnid_a pending)); [by rewrite andb_true_r|unfold MIN_TXNID in *; lia].
Qed.

Definition tap (ms : list meta) : option troika_t :=
  match ms with [m0; m1; m2] => meta_tap m0 m1 m2 | _ => None end.

Lemma tap_spec ms : zlen ms = 3 -> exists t, tap ms = Some t /\ troika_spec (meta_snap <$> ms) t.
Proof. intros H. destruct ms as [|m0 [|m1 [|m2 [|]]]]; try zlia. apply meta_tap_snaps_spec. Qed.

Lemma recent_le_antisym x y : recent_le x y -> recent_le y x -> snap_same x y.
Proof.
  intros [?|[? Hxy]] [?|[? Hyx]]; try lia. split; [done|]. destruct (snap_is_steady x), (snap_is_steady y); naive_solver.
Qed.

(** The greatest of a list in which the page [i] was replaced. *)
Lemma zget_snap_upd ms i m j x : 0 <= i < zlen ms -> zget (meta_snap <$> zupd ms i m) j = Some x ->
  (j = i /\ x = meta_snap m) \/ (j <> i /\ zget (meta_snap <$> ms) j = Some x).
Proof.
  intros Hi Hx. assert (meta_snap <$> zupd ms i m = zupd (meta_snap <$> ms) i (meta_snap m)) as E.
  { unfold zupd. by rewrite list_fmap_insert. }
  assert (zlen (meta_snap <$> ms) = zlen ms) as El by (unfold zlen; by rewrite length_fmap).
  rewrite E, zget_zupd in Hx by lia. destruct (Z.eqb_spec i j) as [->|]; [left|right]; split; congruence.
Qed.

Lemma zget_snap_keep ms i m j x : 0 <= i < zlen ms -> j <> i -> zget (meta_snap <$> ms) j = Some x ->
  zget (meta_snap <$> zupd ms i m) j = Some x.
Proof.
  intros Hi Hne Hx. rewrite <- Hx, <- (zget_zupd_ne (meta_snap <$> ms) i j (meta_snap m)) by lia.
  unfold zupd. by rewrite list_fmap_insert.
Qed.

Lemma zget_snap_new ms i m : 0 <= i < zlen ms -> zget (meta_snap <$> zupd ms i m) i = Some (meta_snap m).
Proof.
  intros Hi. rewrite <- (zget_zupd_eq (meta_snap <$> ms) i (meta_snap m)).
  - unfold zupd. by rewrite list_fmap_insert.
  - unfold zlen in *. by rewrite length_fmap.
Qed.

Lemma meta_snap_nonneg m : 0 <= txnid_a m -> 0 <= snap_txnid (meta_snap m).
Proof. intros H. unfold meta_snap, snap_of. destruct (negb _); cbn; lia. Qed.

(** The update of the tail page may stop after any store: the recent snapshot
    is the one before or the new transaction, and a steady point is never
    lost. *)
Lemma sync_crash boot ms t base pending k : zlen ms = 3 -> tap ms = Some t -> zget ms (TROIKA_TAIL t) = Some base ->
  txnid_b pending = txnid_a pending -> Forall (fun m => 0 <= txnid_a m /\ meta_txnid m < txnid_a pending) ms -> (1 <= k <= 11)%nat ->
  let ms' := zupd ms (TROIKA_TAIL t) (run_stores base (take k (sync_stores boot pending))) in
  exists t' r r' q q', tap ms' = Some t' /\
    zget (meta_snap <$> ms) (recent t) = Some r /\ zget (meta_snap <$> ms') (recent t') = Some r' /\
    zget (meta_snap <$> ms) (prefer_steady t) = Some q /\ zget (meta_snap <$> ms') (prefer_steady t') = Some q' /\
    (if decide (k < 10)%nat then snap_same r' r else snap_txnid r' = txnid_a pending) /\
    (snap_is_steady q = true -> snap_is_steady q' = true /\ snap_txnid q <= snap_txnid q') /\
    (k = 11%nat -> meta_is_steady pending = true -> snap_is_steady q' = true /\ snap_txnid q' = txnid_a pending).
Proof.
  intros Hz Ht Hbase Eb Hgt Hk ms'.
  destruct (tap_spec ms Hz) as (t0 & Et & Hs). assert (t0 = t) as -> by congruence.
  destruct (tap_spec ms') as (t' & Et' & Hs'). { unfold ms'. by rewrite zlen_zupd. }
  destruct (ts_recent _ _ Hs) as (r & Hr & Hmax). destruct (ts_prefer_steady _ _ Hs) as (q & Hq & Hqmax).
  destruct (ts_recent _ _ Hs') as (r' & Hr' & Hmax'). destruct (ts_prefer_steady _ _ Hs') as (q' & Hq' & Hqmax').
  destruct (ts_tail _ _ Hs) as (Htl & Htr & Htq). unfold NUM_METAS in Htl.
  rewrite Forall_forall in Hgt. rewrite Forall_forall in Hmax. rewrite Forall_forall in Hmax'. rewrite Forall_forall in Hqmax. rewrite Forall_forall in Hqmax'.
  assert (forall x, x ∈ meta_snap <$> ms -> 0 <= snap_txnid x < txnid_a pending) as Hold.
  { intros x (m & -> & Hm)%list_elem_of_fmap_1. destruct (Hgt m Hm). split; [by apply meta_snap_nonneg|done]. }
  assert (0 < txnid_a pending) as Hpos by (specialize (Hold r (zget_elem _ _ _ Hr)); lia).
  pose proof (sync_prefix_snap boot base pending k Eb Hpos Hk) as Hnw. set (nw := run_stores base _) in *.
  assert (forall j x, zget (meta_snap <$> ms') j = Some x -> x = meta_snap nw \/ x ∈ meta_snap <$> ms) as Hcases.
  { intros j x Hx. apply zget_snap_upd in Hx as [[_ ->]|[_ Hx]]; [by left|right|lia]. by eapply zget_elem. }
  assert (meta_snap nw ∈ meta_snap <$> ms') as Hin by (eapply zget_elem, (zget_snap_new ms (TROIKA_TAIL t) nw); lia).
  assert (r ∈ meta_snap <$> ms') as Hrin by (eapply zget_elem, (zget_snap_keep ms (TROIKA_TAIL t) nw (recent t)); [lia|done|exact Hr]).
  assert (q ∈ meta_snap <$> ms') as Hqin by (eapply zget_elem, (zget_snap_keep ms (TROIKA_TAIL t) nw (prefer_steady t)); [lia|done|exact Hq]).
  exists t', r, r', q, q'. split_and!; try done.
  - destruct (decide (k < 10)%nat) as [Hlt|Hge].
    + destruct (Hcases _ _ Hr') as [->|Hr'in].
      * apply recent_le_antisym; [|by apply Hmax']. rewrite Hnw. specialize (Hold r (zget_elem _ _ _ Hr)).
        destruct (Z.eq_dec (snap_txnid r) 0); [right; split; [done|done]|left; cbn; lia].
      * apply recent_le_antisym; [by apply Hmax|by apply Hmax'].
    + destruct (Hcases _ _ Hr') as [->|Hr'in]; [by rewrite Hnw|]. specialize (Hold r' Hr'in). specialize (Hmax' _ Hin).
      rewrite Hnw in Hmax'. unfold recent_le in Hmax'. cbn in Hmax'. lia.
  - intros Hst. destruct (Hqmax' q Hqin) as [[? _]|[E ?]]; [congruence|]. split; [congruence|done].
  - intros -> Hst. rewrite Hst in Hnw. rewrite !decide_False in Hnw by lia. specialize (Hqmax' _ Hin). rewrite Hnw in Hqmax'.
    destruct Hqmax' as [[? _]|[E Hle]]; [done|]. cbn in E, Hle. split; [done|].
    destruct (Hcases _ _ Hq') as [->|Hq'in]; [by rewrite Hnw|]. specialize (Hold q' Hq'in). lia.
Qed.

(** ** Claims *)

Definition sample_meta (t steady : Z) : meta := mk_meta t (10 * t) 3 4 5 steady t (100 * t) 1.

(** C1: a crash after any number of the stores of an update loses nothing that
    was there before: the recent version is the old one until the closing
    [txnid_b] is written and the new one from then on, a steady version that
    existed still exists, and after the last store the new version is steady
    if it is to be. *)
Theorem sync_crash_safe boot ms t base pending k : zlen ms = 3 -> tap ms = Some t -> zget ms (TROIKA_TAIL t) = Some base ->
  txnid_b pending = txnid_a pending -> Forall (fun m => 0 <= txnid_a m /\ meta_txnid m < txnid_a pending) ms -> (1 <= k <= 11)%nat ->
  let ms' := zupd ms (TROIKA_TAIL t) (run_stores base (take k (sync_stores boot pending))) in
  exists t' r r' q q', tap ms' = Some t' /\
    zget (meta_snap <$> ms) (recent t) = Some r /\ zget (meta_snap <$> ms') (recent t') = Some r' /\
    zget (meta_snap <$> ms) (prefer_steady t) = Some q /\ zget (meta_snap <$> ms') (prefer_steady t') = Some q' /\
    (if decide (k < 10)%nat then snap_same r' r else snap_txnid r' = txnid_a pending) /\
    (snap_is_steady q = true -> snap_is_steady q' = true /\ snap_txnid q <= snap_txnid q') /\
    (k = 11%nat -> meta_is_steady pending = true -> snap_is_steady q' = true /\ snap_txnid q' = txnid_a pending).
Proof. apply sync_crash. Qed.

Lemma sync_crash_safe_witness : exists t t' r r',
  tap [sample_meta 5 2; sample_meta 6 1; sample_meta 4 2] = Some t /\
  tap (zupd [sample_meta 5 2; sample_meta 6 1; sample_meta 4 2] (TROIKA_TAIL t)
    (run_stores (sample_meta 4 2) (take 6 (sync_stores 1 (sample_meta 7 2))))) = Some t' /\
  zget (meta_snap <$> [sample_meta 5 2; sample_meta 6 1; sample_meta 4 2]) (recent t) = Some r /\ snap_same r' r.
Proof.
  destruct (tap [sample_meta 5 2; sample_meta 6 1; sample_meta 4 2]) as [t|] eqn:E; [|by vm_compute in E].
  destruct (sync_crash_safe 1 [sample_meta 5 2; sample_meta 6 1; sample_meta 4 2] t (sample_meta 4 2) (sample_meta 7 2) 6)
    as (t' & r & r' & q & q' & E1 & E2 & _ & _ & _ & E3 & _).
  - done.
  - done.
  - vm_compute in E. injection E as <-. done.
  - done.
  - repeat constructor; by vm_compute.
  - lia.
  - exists t, t', r, r'. auto.
Defined.
