(* ===== verification/MetaSeize.v ===== *)
(** * Starting a reader while meta pages are updated

    [ro_start_continue] of [src/src/txn-ro.c] takes the recent snapshot of the
    database without a lock: [ro_seize] taps the three meta pages, publishes
    the choice in the reader's slot, looks again, copies the page
    ([coherency_fetch_head], [src/src/coherency.c]) and compares the ids once
    more, in up to 42 rounds; [txn_setup_primal] ([src/src/txn.c]) refuses an
    impossible id. Here this is a program of single loads, which interleaves
    with writers that update the pages store by store, one commit after
    another ([dxb_sync_locked], [src/src/dxb.c]).

    The ids are loaded and stored with barriers and the other fields lie
    between them; the model assumes that the loads and the stores take effect in
    the order of the program, as the barriers and the memory order of the
    processor (TSO) provide it. A structure that is copied as a whole (the
    geometry, the record of a tree, the canary) is one value. Inputs of the
    reader are what depends on other memory: the verdict of [coherency_check] on
    the root pages, whether [coherency_timeout] gives up, the flags of the GC
    tree, whether the slot still holds the id (a writer may evict it; the
    slots are the subject of [Mvcc]) and the rest of [txn_setup_primal]. The
    recovery mode ([stuck_meta]), an environment without a table of readers
    and the masking of flags in databases of an older format are not modelled. *)

From stdpp Require Import base list numbers option relations.
From Stdlib Require Import ZArith Lia.
From S2P Require Import Prelude Rkl Meta MetaSync.

(** ** The reader *)

(** [meta_snap], load by load. *)
Inductive snap_pc : Type :=
  | LoadA
  | LoadSign (a : Z)
  | LoadB (a sg : Z).

Definition snap_step (m : meta) (pc : snap_pc) : snap_pc + meta_snap_t :=
  match pc with
  | LoadA => inl (LoadSign (txnid_a m))
  | LoadSign a => inl (LoadB a (sign m))
  | LoadB a sg => inr (snap_of a sg (txnid_b m))
  end.

(** [meta_tap]: the snapshots taken so far and the one in progress. *)
Record tap_pc : Type := mk_tap { tap_got : list meta_snap_t; tap_at : snap_pc }.

Definition tap_start : tap_pc := mk_tap [] LoadA.

Definition tap_step (pages : list meta) (x : tap_pc) : option (tap_pc + troika_t) :=
  m ← zget pages (zlen (tap_got x));
  match snap_step m (tap_at x) with
  | inl pc => Some (inl (mk_tap (tap_got x) pc))
  | inr sn =>
      match tap_got x ++ [sn] with
      | [s0; s1; s2] => t ← meta_tap_snaps s0 s1 s2; Some (inr t)
      | got => Some (inl (mk_tap got LoadA))
      end
  end.

(** The comparison of [meta_should_retry]. *)
Definition troika_changed (prev t : troika_t) : bool :=
  negb (fsm prev =? fsm t) || negb (bool_decide (txnid prev = txnid t)).

(** One round of the loop of [ro_seize]. *)
Record round : Type := mk_round { rn_troika : troika_t; rn_loop : Z; rn_head : meta_ptr_t }.

(** What the reader stores to its slot. *)
Record published : Type := mk_published { pb_txnid : Z; pb_pages_used : Z; pb_pages_retired : Z }.

(** What it copies to the transaction. *)
Record txn_snap : Type := mk_txn { x_txnid : Z; x_geo : Z; x_gc : Z; x_main : Z; x_canary : Z }.

Inductive reader : Type :=
  | RdTap (x : tap_pc) (loop : Z)
  | RdUsed (n : round)
  | RdRetired (n : round) (used : Z)
  | RdCheck (n : round) (used retired : Z) (pc : snap_pc)
  | RdRetry (n : round) (sl : published) (x : tap_pc)
  | RdGeo (n : round) (sl : published)
  | RdGc (n : round) (sl : published) (geo : Z)
  | RdMain (n : round) (sl : published) (geo gc : Z)
  | RdCanary (n : round) (sl : published) (geo gc main : Z)
  | RdCoherent (n : round) (sl : published) (x : txn_snap)
  | RdId (n : round) (sl : published) (x : txn_snap) (pc : snap_pc)
  | RdOldest (n : round) (sl : published) (x : txn_snap)
  | RdSlot (n : round) (sl : published) (x : txn_snap)
  | RdSetup (sl : published) (x : txn_snap)
  | RdDone (sl : published) (x : txn_snap)
  | RdFailed (e : rc).

Record input : Type := mk_input {
  in_coherent : bool;      (* [coherency_check] *)
  in_timeout : bool;       (* [coherency_timeout] gives up *)
  in_flags : bool;         (* the flags of the GC tree are right *)
  in_slot : bool;          (* the slot still holds the id *)
  in_setup : option rc;    (* an error of the rest of [txn_setup_primal] *)
}.

(** The start of a round, or the end of the loop. *)
Definition attempt (t : troika_t) (loop : Z) : option reader :=
  if loop <? 42 then head ← meta_recent t; Some (RdUsed (mk_round t loop head)) else Some (RdFailed MDBX_PROBLEM).

Definition again (n : round) : option reader := attempt (rn_troika n) (rn_loop n + 1).

(** [coherency_timeout] and what [ro_seize] does with it. *)
Definition timeout (inp : input) (n : round) : option reader :=
  if in_timeout inp then Some (RdFailed MDBX_PROBLEM) else again n.

Definition head_page (pages : list meta) (n : round) : option meta := zget pages (ptr_n (rn_head n)).

(** [coherency_fetch_head]. *)
Definition fetch_step (pages : list meta) (inp : input) (r : reader) : option reader :=
  match r with
  | RdGeo n sl => m ← head_page pages n; Some (RdGc n sl (geometry m))
  | RdGc n sl geo => m ← head_page pages n; Some (RdMain n sl geo (trees_gc m))
  | RdMain n sl geo gc => m ← head_page pages n; Some (RdCanary n sl geo gc (trees_main m))
  | RdCanary n sl geo gc main =>
      m ← head_page pages n;
      Some (RdCoherent n sl (mk_txn (ptr_txnid (rn_head n)) geo gc main (canary m)))
  | RdCoherent n sl x => if in_coherent inp then Some (RdId n sl x LoadA) else timeout inp n
  | RdId n sl x pc =>
      m ← head_page pages n;
      match snap_step m pc with
      | inl pc => Some (RdId n sl x pc)
      | inr sn =>
          if negb (x_txnid x =? snap_txnid sn) then timeout inp n
          else if negb (in_flags inp) then Some (RdFailed MDBX_INCOMPATIBLE)
          else Some (RdOldest n sl x)
      end
  | _ => None
  end.

Section Reader.
(** The field of the geometry. *)
Context (first_unallocated : Z -> Z).

(** [ro_start_continue]: one load of the reader, and what follows from it. *)
Definition reader_step (pages : list meta) (cached_oldest : Z) (inp : input) (r : reader) : option reader :=
  match r with
  | RdTap x loop =>
      y ← tap_step pages x;
      match y with inl x => Some (RdTap x loop) | inr t => attempt t loop end
  | RdUsed n =>
      m ← head_page pages n;
      Some (RdRetired n (first_unallocated (geometry m)))
  | RdRetired n used =>
      m ← head_page pages n;
      Some (RdCheck n used (pages_retired m) LoadA)
  | RdCheck n used retired pc =>
      m ← head_page pages n;
      match snap_step m pc with
      | inl pc => Some (RdCheck n used retired pc)
      | inr sn =>
          if negb (snap_txnid sn =? ptr_txnid (rn_head n)) then Some (RdTap tap_start (rn_loop n + 1))
          else Some (RdRetry n (mk_published (ptr_txnid (rn_head n)) used retired) tap_start)
      end
  | RdRetry n sl x =>
      y ← tap_step pages x;
      match y with
      | inl x => Some (RdRetry n sl x)
      | inr t =>
          if troika_changed (rn_troika n) t then attempt t (rn_loop n + 1)
          else Some (RdGeo (mk_round t (rn_loop n) (rn_head n)) sl)
      end
  | RdGeo _ _ | RdGc _ _ _ | RdMain _ _ _ _ | RdCanary _ _ _ _ _ | RdCoherent _ _ _ | RdId _ _ _ _ => fetch_step pages inp r
  | RdOldest n sl x => if x_txnid x <? cached_oldest then again n else Some (RdSlot n sl x)
  | RdSlot n sl x => if in_slot inp then Some (RdSetup sl x) else again n
  | RdSetup sl x =>
      if (x_txnid x <? MIN_TXNID) || (MAX_TXNID <? x_txnid x) then Some (RdFailed MDBX_CORRUPTED)
      else match in_setup inp with None => Some (RdDone sl x) | Some e => Some (RdFailed e) end
  | RdDone _ _ | RdFailed _ => None
  end.
End Reader.

Definition reader_start : reader := RdTap tap_start 0.

Definition finished (r : reader) : bool :=
  match r with RdDone _ _ | RdFailed _ => true | _ => false end.

(** What the slot of the reader holds in this round. *)
Definition slot_of (r : reader) : option published :=
  match r with
  | RdRetry _ sl _ | RdGeo _ sl | RdGc _ sl _ | RdMain _ sl _ _ | RdCanary _ sl _ _ _ | RdCoherent _ sl _ | RdId _ sl _ _
  | RdOldest _ sl _ | RdSlot _ sl _ | RdSetup sl _ | RdDone sl _ => Some sl
  | _ => None
  end.

(** ** The writers *)

Inductive sync_plan : Type :=
  | SyncSkip
  | SyncResign (n : Z)
  | SyncUpdate (n : Z).

(** [dxb_sync_locked]: which page is written, and whether only its sign is. *)
Definition plan_sync (pages : list meta) (pending : meta) : option sync_plan :=
  t ← tap pages;
  head ← meta_recent t;
  head_meta ← zget pages (ptr_n head);
  target ← sync_target t head head_meta pending;
  match target with
  | None => Some SyncSkip
  | Some n =>
      if n =? ptr_n head then Some (SyncResign n)
      else target_meta ← zget pages n;
           if constmeta_txnid target_meta <? txnid_a pending then Some (SyncUpdate n) else None
  end.

(** The shared memory, and the commit in progress: its page, the stores to come
    and the image; [history] is every image whose commit was closed. *)
Record mem : Type := mk_mem {
  pages : list meta;
  cached_oldest : Z;
  target : Z;
  todo : list store;
  pending : option meta;
  history : list meta;
}.

(** The store of the closing id. *)
Definition closes (s : store) : bool := match s with StB v => negb (v =? 0) | _ => false end.

Definition closed (s : store) (pend : option meta) (h : list meta) : list meta :=
  if closes s then option_list pend ++ h else h.

Inductive mem_step (boot : Z) : mem -> mem -> Prop :=
  | mem_resign ms o n0 q h p n :
      plan_sync ms p = Some (SyncResign n) ->
      mem_step boot (mk_mem ms o n0 [] q h) (mk_mem ms o n [StSign (sign p)] None h)
  | mem_update ms o n0 q h p n :
      plan_sync ms p = Some (SyncUpdate n) -> txnid_b p = txnid_a p ->
      mem_step boot (mk_mem ms o n0 [] q h) (mk_mem ms o n (sync_stores boot p) (Some p) h)
  | mem_store ms o n s l q h m :
      zget ms n = Some m ->
      mem_step boot (mk_mem ms o n (s :: l) q h) (mk_mem (zupd ms n (apply_store m s)) o n l q (closed s q h))
  | mem_oldest ms o n l q h o' :
      mem_step boot (mk_mem ms o n l q h) (mk_mem ms o' n l q h).

Definition sys : Type := mem * reader.

Inductive sys_step (first_unallocated : Z -> Z) (boot : Z) : sys -> sys -> Prop :=
  | sys_write k k' r : mem_step boot k k' -> sys_step first_unallocated boot (k, r) (k', r)
  | sys_read k r r' inp :
      reader_step first_unallocated (pages k) (cached_oldest k) inp r = Some r' ->
      sys_step first_unallocated boot (k, r) (k, r').

(** Three complete pages. *)
Definition whole (m : meta) : Prop := 0 <= txnid_a m /\ txnid_b m = txnid_a m.

Definition quiet (ms : list meta) (o : Z) : mem := mk_mem ms o 0 [] None ms.

(** ** Versions *)

Record version : Type := mk_version {
  v_txnid : Z; v_geometry : Z; v_gc : Z; v_main : Z; v_canary : Z; v_retired : Z;
}.

Definition version_of (m : meta) : version :=
  mk_version (txnid_a m) (geometry m) (trees_gc m) (trees_main m) (canary m) (pages_retired m).

Definition committed (k : mem) (v : version) : Prop := v ∈ version_of <$> history k.

(** What a transaction and a slot took of a version. *)
Definition txn_of (v : version) : txn_snap := mk_txn (v_txnid v) (v_geometry v) (v_gc v) (v_main v) (v_canary v).

Definition published_of (first_unallocated : Z -> Z) (v : version) : published :=
  mk_published (v_txnid v) (first_unallocated (v_geometry v)) (v_retired v).

(** ** The phases of an update *)

Section Phases.
Context (boot : Z) (pend : option meta) (vs : list version).

Definition base_ok (m : meta) : Prop := whole m /\ version_of m ∈ vs.

Definition coming (t : Z) (p : meta) : Prop := pend = Some p /\ t < txnid_a p /\ txnid_b p = txnid_a p.

(** [phase calm m todo]: a page and the stores to come to it; [calm] when it
    holds a complete version (its second id may be reset already). *)
Inductive phase : bool -> meta -> list store -> Prop :=
  | ph_idle m : base_ok m -> phase true m []
  | ph_sign m s : base_ok m -> phase true m [StSign s]
  | ph_update m p : base_ok m -> coming (txnid_a m) p -> phase true m (sync_stores boot p)
  | ph_begun m p : 0 <= txnid_a m -> txnid_b m = 0 -> version_of m ∈ vs -> coming (txnid_a m) p ->
      phase true m (drop 1 (sync_stores boot p))
  | ph_mid k m p : (2 <= k <= 9)%nat -> txnid_a m = txnid_a p -> txnid_b m = 0 -> coming 0 p ->
      (4 <= k -> geometry m = geometry p)%nat -> (5 <= k -> trees_gc m = trees_gc p)%nat ->
      (6 <= k -> trees_main m = trees_main p)%nat -> (7 <= k -> canary m = canary p)%nat ->
      (8 <= k -> pages_retired m = pages_retired p)%nat ->
      phase false m (drop k (sync_stores boot p)).

End Phases.

(** One store: the first id never decreases, and as long as it is the same a
    complete version stays as it is. *)
Lemma phase_step boot pend vs vs' calm m s l : phase boot pend vs calm m (s :: l) -> vs ⊆ vs' ->
  (closes s = true -> forall p, pend = Some p -> version_of p ∈ vs') ->
  txnid_a m <= txnid_a (apply_store m s) /\
  exists calm', phase boot pend vs' calm' (apply_store m s) l /\
    (calm = true -> txnid_a (apply_store m s) = txnid_a m -> calm' = true /\ version_of (apply_store m s) = version_of m).
Proof.
  intros H Hvs Hcl. remember (s :: l) as sl eqn:E3.
  destruct H as [m Hb|m s' Hb|m p Hb Hc|m p Ha Hb Hv Hc|k m p Hk Ha Hb Hc Hg Hgc Hmn Hcn Hrt]; [done|..].
  - injection E3 as <- <-. split; [cbn; lia|]. exists true. split; [|done]. destruct Hb as [? ?]. apply ph_idle. split; [done|by apply Hvs].
  - injection E3 as <- <-. split; [cbn; lia|]. exists true. split; [|done]. destruct Hb as [[??]?]. apply (ph_begun _ _ _ _ p); try done. by apply Hvs.
  - injection E3 as <- <-. destruct Hc as (Hp & Hlt & Hpb). cbn [apply_store txnid_a]. split; [lia|].
    exists false. split; [|lia]. apply (ph_mid _ _ _ 2 _ p); cbn; try done; try lia. split_and!; [done|lia|done].
  - assert (k = 2 \/ k = 3 \/ k = 4 \/ k = 5 \/ k = 6 \/ k = 7 \/ k = 8 \/ k = 9)%nat as Hk' by lia.
    destruct Hk' as [->|[->|[->|[->|[->|[->|[->| ->]]]]]]]; (injection E3 as <- <-; split; [cbn; lia|]).
    1-7: exists false; (split; [|done]).
    1: apply (ph_mid _ _ _ 3 _ p). 10: apply (ph_mid _ _ _ 4 _ p). 19: apply (ph_mid _ _ _ 5 _ p). 28: apply (ph_mid _ _ _ 6 _ p).
    37: apply (ph_mid _ _ _ 7 _ p). 46: apply (ph_mid _ _ _ 8 _ p). 55: apply (ph_mid _ _ _ 9 _ p).
    all: cbn; try done; try lia; try (intros; first [done | apply Hg; lia | apply Hgc; lia | apply Hmn; lia | apply Hcn; lia | apply Hrt; lia]).
    destruct Hc as (Hp & Hpos & Hpb). exists true. split; [|done]. apply ph_sign. split; [split; cbn; [lia|congruence]|].
    assert (version_of p ∈ vs') as Hpv. { apply Hcl; [|done]. cbn. rewrite Hpb. by destruct (Z.eqb_spec (txnid_a p) 0); [lia|]. }
    revert Hpv. unfold version_of. cbn. by rewrite Ha, Hg, Hgc, Hmn, Hcn, Hrt by lia.
Qed.

Section PhaseFacts.
Context (boot : Z) (pend : option meta) (vs : list version).
Notation phase := (phase boot pend vs).

Lemma phase_calm m l : phase true m l -> version_of m ∈ vs.
Proof using Type. intros H. inversion H; subst; try done; by match goal with H : base_ok _ _ |- _ => destruct H end. Qed.

(** The second id is set on complete pages only. *)
Lemma phase_b calm m l : phase calm m l -> txnid_b m <> 0 -> calm = true /\ txnid_a m = txnid_b m.
Proof using Type.
  intros H Hb. inversion H; subst; try done; match goal with H : base_ok _ _ |- _ => destruct H as [[_ ->] _] end; done.
Qed.

Lemma phase_quiet calm m : phase calm m [] -> calm = true /\ base_ok vs m.
Proof using Type.
  intros H. remember [] as l eqn:E. destruct H as [| | | |k m p Hk]; try done.
  assert (k = 2 \/ k = 3 \/ k = 4 \/ k = 5 \/ k = 6 \/ k = 7 \/ k = 8 \/ k = 9)%nat as Hk' by lia.
  by destruct Hk' as [->|[->|[->|[->|[->|[->|[->| ->]]]]]]].
Qed.
End PhaseFacts.

(** ** What a reader may rely on *)

Section Views.
Context (first_unallocated : Z -> Z) (boot : Z).

Definition todo_of (k : mem) (n : Z) : list store := if target k =? n then todo k else [].

Definition page_phase (k : mem) (n : Z) (calm : bool) (m : meta) : Prop :=
  zget (pages k) n = Some m /\ phase boot (pending k) (version_of <$> history k) calm m (todo_of k n).

Definition mem_ok (k : mem) : Prop :=
  zlen (pages k) = 3 /\ forall n m, zget (pages k) n = Some m -> exists calm, page_phase k n calm m.

(** Since an id [t] of the page [n] was seen: the page still holds that version
    (and [P] holds of it), or the first id has moved on. *)
Definition view (k : mem) (n t : Z) (P : version -> Prop) : Prop :=
  exists m calm, page_phase k n calm m /\ (t < txnid_a m \/ (txnid_a m = t /\ calm = true /\ P (version_of m))).

Lemma quiet_ok ms o : zlen ms = 3 -> Forall whole ms -> mem_ok (quiet ms o).
Proof using Type.
  intros Hz Hw. split; [done|]. cbn. intros n m Hm. exists true. split; [done|]. unfold todo_of. cbn [target todo quiet history].
  replace (if 0 =? n then _ else _) with (@nil store) by (by destruct (0 =? n)).
  apply ph_idle; rewrite Forall_forall in Hw; pose proof (zget_elem _ _ _ Hm); split; [by apply Hw|by apply list_elem_of_fmap_2].
Qed.

Lemma plan_sync_update ms p n : plan_sync ms p = Some (SyncUpdate n) ->
  exists m, zget ms n = Some m /\ constmeta_txnid m < txnid_a p.
Proof using Type.
  unfold plan_sync. destruct (tap ms) as [t|]; [|done]. cbn [mbind option_bind]. destruct (meta_recent t) as [head|]; [|done].
  cbn [mbind option_bind]. destruct (zget ms (ptr_n head)) as [hm|]; [|done]. cbn [mbind option_bind].
  destruct (sync_target t head hm p) as [[i|]|]; [|done|done]. cbn [mbind option_bind]. destruct (i =? ptr_n head); [done|].
  destruct (zget ms i) as [m|] eqn:E; [|done]. cbn [mbind option_bind]. destruct (Z.ltb_spec (constmeta_txnid m) (txnid_a p)); [|done].
  intros [= <-]. by exists m.
Qed.

(** A step of a writer on each page: either nothing changes but what is known
    of the future, or a store. *)
Lemma mem_step_phase k k' n calm m : mem_step boot k k' -> page_phase k n calm m ->
  exists m' calm', page_phase k' n calm' m' /\ txnid_a m <= txnid_a m' /\
    (calm = true -> txnid_a m' = txnid_a m -> calm' = true /\ version_of m' = version_of m).
Proof using Type.
  intros Hstep [Hm Hp]. destruct Hstep as [ms o n0 q h p i Hpl|ms o n0 q h p i Hpl Hb|ms o i s l q h m0 Hm0|ms o i l q h o'].
  1-2: assert (calm = true /\ base_ok (version_of <$> h) m) as [-> Hbase]
    by (apply (phase_quiet boot q); revert Hp; unfold todo_of; cbn; by destruct (_ =? n)).
  - exists m, true. split; [|split; [lia|done]]. split; [done|]. unfold todo_of. cbn. destruct (i =? n); [by apply ph_sign|by apply ph_idle].
  - exists m, true. split; [|split; [lia|done]]. split; [done|]. unfold todo_of. cbn [target todo history pending].
    destruct (Z.eqb_spec i n) as [->|]; [|by apply ph_idle]. destruct (plan_sync_update ms p n Hpl) as (m' & Em & Hlt).
    cbn in Hm. assert (m' = m) as -> by congruence. apply ph_update; [done|]. destruct Hbase as [[? E] ?].
    unfold constmeta_txnid in Hlt. rewrite E, Z.eqb_refl in Hlt. by split_and!.
  - assert (version_of <$> h ⊆ version_of <$> closed s q h) as Hsub by (unfold closed; destruct (closes s); rewrite ?fmap_app; intros v Hv; [apply elem_of_app; by right|done]).
    unfold page_phase, todo_of in *. cbn [pages target todo history pending] in *. destruct (Z.eqb_spec i n) as [->|Hne].
    + assert (m0 = m) as -> by congruence. destruct (phase_step _ _ _ _ _ _ _ _ Hp Hsub) as (Hle & calm' & Hp' & Hkeep).
      { intros Hcl p ->. unfold closed. rewrite Hcl. cbn. by left. }
      exists (apply_store m s), calm'. split; [|done]. rewrite zget_zupd_eq; [done|]. by apply zget_range in Hm.
    + exists m, calm. split; [|split; [lia|done]]. apply zget_range in Hm0. rewrite zget_zupd_ne by lia. split; [done|].
      destruct (phase_quiet _ _ _ _ _ Hp) as [-> [? ?]]. apply ph_idle. split; [done|by apply Hsub].
  - exists m, calm. split_and!; done.
Qed.

Lemma mem_step_ok k k' : mem_step boot k k' -> mem_ok k -> mem_ok k'.
Proof using Type.
  intros Hstep [Hz Hp]. assert (zlen (pages k') = zlen (pages k)) as Ez by (destruct Hstep; cbn; rewrite ?zlen_zupd; done).
  split; [lia|]. intros n m' Hm'. apply zget_range in Hm' as Hr. destruct (zget_in (pages k) n) as [m Hm]; [lia|].
  destruct (Hp n m Hm) as [calm Hph]. destruct (mem_step_phase k k' n calm m Hstep Hph) as (m'' & calm' & Hph' & _).
  assert (m'' = m') as -> by (destruct Hph'; congruence). by exists calm'.
Qed.

Lemma mem_step_view k k' n t P : mem_step boot k k' -> view k n t P -> view k' n t P.
Proof using Type.
  intros Hstep (m & calm & Hph & Hv). destruct (mem_step_phase k k' n calm m Hstep Hph) as (m' & calm' & Hph' & Hle & Hkeep).
  exists m', calm'. split; [done|]. destruct Hv as [Hlt|(E & Hc & HP)]; [left; lia|].
  destruct (Z.eq_dec (txnid_a m') (txnid_a m)) as [E'|]; [|left; lia].
  destruct (Hkeep Hc E') as [-> ->]. right. split_and!; [congruence|done|done].
Qed.

Lemma mem_step_committed k k' v : mem_step boot k k' -> committed k v -> committed k' v.
Proof using Type.
  intros [] Hv; try done. unfold committed, closed in *. cbn. destruct (closes s); [|done]. rewrite fmap_app. apply elem_of_app. by right.
Qed.

(** Loading from the page. *)
Lemma view_load k n t P (Q : version -> Prop) m : view k n t P -> zget (pages k) n = Some m ->
  (txnid_a m = t -> P (version_of m) -> Q (version_of m)) -> view k n t Q.
Proof using Type.
  intros (m' & calm & [Hm' Hph] & Hv) Hm HQ. assert (m' = m) as -> by congruence. exists m, calm. split; [done|].
  destruct Hv as [?|(? & ? & ?)]; [by left|right; auto].
Qed.

(** Loading the first id again. *)
Lemma view_same k n t P m : view k n t P -> zget (pages k) n = Some m -> txnid_a m = t ->
  committed k (version_of m) /\ P (version_of m).
Proof using Type.
  intros (m' & calm & [Hm' Hph] & Hv) Hm E. assert (m' = m) as -> by congruence.
  destruct Hv as [?|(_ & -> & ?)]; [lia|]. split; [|done]. by apply (phase_calm boot (pending k) _ m (todo_of k n)).
Qed.

(** The end of a snapshot of the page. *)
Lemma view_snap k n a sg m : mem_ok k -> zget (pages k) n = Some m -> snap_txnid (snap_of a sg (txnid_b m)) <> 0 ->
  view k n (snap_txnid (snap_of a sg (txnid_b m))) (fun _ => True).
Proof using Type.
  intros [_ Hp] Hm. destruct (Hp n m Hm) as [calm [_ Hph]]. unfold snap_of. destruct (Z.eqb_spec a (txnid_b m)) as [->|]; [|done].
  cbn. intros Hb. destruct (phase_b _ _ _ _ _ _ Hph Hb) as [-> E]. exists m, true. split; [done|]. by right.
Qed.

(** ** The invariant of the reader *)

Definition tap_ok (k : mem) (x : tap_pc) : Prop :=
  zlen (tap_got x) < 3 /\
  forall i sn, zget (tap_got x) i = Some sn -> snap_txnid sn <> 0 -> view k i (snap_txnid sn) (fun _ => True).

Definition troika_ok (k : mem) (t : troika_t) : Prop :=
  zlen (txnid t) = 3 /\ 0 <= recent t < 3 /\
  forall i id, zget (txnid t) i = Some id -> id <> 0 -> view k i id (fun _ => True).

Definition round_ok (k : mem) (n : round) (P : version -> Prop) : Prop :=
  troika_ok k (rn_troika n) /\ 0 <= rn_loop n < 42 /\ 0 <= ptr_n (rn_head n) < 3 /\
  (ptr_txnid (rn_head n) <> 0 -> view k (ptr_n (rn_head n)) (ptr_txnid (rn_head n)) P).

(** The slot, and the transaction with the slot, are of a committed version,
    unless the id is that of a page in the middle of an update. *)
Definition slot_ok (k : mem) (sl : published) : Prop :=
  pb_txnid sl <> 0 -> exists v, committed k v /\ sl = published_of first_unallocated v.

Definition txn_ok (k : mem) (sl : published) (x : txn_snap) : Prop :=
  x_txnid x <> 0 -> exists v, committed k v /\ x = txn_of v /\ sl = published_of first_unallocated v.

(** After the slot was filled. *)
Definition slot_round (k : mem) (n : round) (sl : published) (P : version -> Prop) : Prop :=
  round_ok k n (fun v => sl = published_of first_unallocated v /\ P v) /\ slot_ok k sl.

Definition copied (k : mem) (n : round) (sl : published) (x : txn_snap) : Prop :=
  slot_round k n sl (fun v => x = txn_of v) /\ x_txnid x = ptr_txnid (rn_head n).

(** The first id that a snapshot in progress has loaded. *)
Definition first_id (pc : snap_pc) : option Z :=
  match pc with LoadA => None | LoadSign a | LoadB a _ => Some a end.

Definition reader_ok (k : mem) (r : reader) : Prop :=
  match r with
  | RdTap x loop => tap_ok k x /\ 0 <= loop <= 42
  | RdUsed n => round_ok k n (fun _ => True)
  | RdRetired n used => round_ok k n (fun v => used = first_unallocated (v_geometry v))
  | RdCheck n used retired pc =>
      round_ok k n (fun v => mk_published (ptr_txnid (rn_head n)) used retired = published_of first_unallocated v) /\
      (first_id pc = Some (ptr_txnid (rn_head n)) -> slot_ok k (mk_published (ptr_txnid (rn_head n)) used retired))
  | RdRetry n sl x => slot_round k n sl (fun _ => True) /\ tap_ok k x
  | RdGeo n sl => slot_round k n sl (fun _ => True)
  | RdGc n sl geo => slot_round k n sl (fun v => geo = v_geometry v)
  | RdMain n sl geo gc => slot_round k n sl (fun v => geo = v_geometry v /\ gc = v_gc v)
  | RdCanary n sl geo gc main => slot_round k n sl (fun v => geo = v_geometry v /\ gc = v_gc v /\ main = v_main v)
  | RdCoherent n sl x => copied k n sl x
  | RdId n sl x pc => copied k n sl x /\ (first_id pc = Some (x_txnid x) -> txn_ok k sl x)
  | RdOldest n sl x | RdSlot n sl x => round_ok k n (fun _ => True) /\ slot_ok k sl /\ txn_ok k sl x
  | RdSetup sl x => slot_ok k sl /\ txn_ok k sl x
  | RdDone sl x => slot_ok k sl /\ txn_ok k sl x /\ MIN_TXNID <= x_txnid x <= MAX_TXNID
  | RdFailed _ => True
  end.

(** What is left to do for the reader, at most. *)
Definition snap_left (pc : snap_pc) : Z := match pc with LoadA => 3 | LoadSign _ => 2 | LoadB _ _ => 1 end.

Definition tap_left (x : tap_pc) : Z := 3 * (2 - zlen (tap_got x)) + snap_left (tap_at x).

Definition rounds_left (n : round) : Z := 100 * (42 - rn_loop n).

Definition rank (r : reader) : Z :=
  match r with
  | RdTap x loop => 100 * (42 - loop) + 50 + tap_left x
  | RdUsed n => rounds_left n + 40
  | RdRetired n _ => rounds_left n + 39
  | RdCheck n _ _ pc => rounds_left n + 35 + snap_left pc
  | RdRetry n _ x => rounds_left n + 20 + tap_left x
  | RdGeo n _ => rounds_left n + 19
  | RdGc n _ _ => rounds_left n + 18
  | RdMain n _ _ _ => rounds_left n + 17
  | RdCanary n _ _ _ _ => rounds_left n + 16
  | RdCoherent n _ _ => rounds_left n + 15
  | RdId n _ _ pc => rounds_left n + 10 + snap_left pc
  | RdOldest n _ _ => rounds_left n + 9
  | RdSlot n _ _ => rounds_left n + 8
  | RdSetup _ _ => 1
  | RdDone _ _ | RdFailed _ => 0
  end.

(** A step of a writer. *)
Lemma reader_ok_write k k' r : mem_step boot k k' -> reader_ok k r -> reader_ok k' r.
Proof using Type.
  intros Hstep. pose proof (fun n t P => mem_step_view k k' n t P Hstep) as Hv. pose proof (fun v => mem_step_committed k k' v Hstep) as Hc.
  assert (forall x, tap_ok k x -> tap_ok k' x) as Htap by (intros x [? H]; split; [done|]; intros; apply Hv; eauto).
  assert (forall t, troika_ok k t -> troika_ok k' t) as Htr by (intros t (? & ? & H); split_and!; [done|lia|lia|]; intros; apply Hv; eauto).
  assert (forall n P, round_ok k n P -> round_ok k' n P) as Hr by (intros n P (? & ? & ? & ?); split_and!; try lia; auto).
  assert (forall sl, slot_ok k sl -> slot_ok k' sl) as Hs by (intros sl H Hz; destruct (H Hz) as (v & ? & ?); exists v; auto).
  assert (forall sl x, txn_ok k sl x -> txn_ok k' sl x) as Hx by (intros sl x H Hz; destruct (H Hz) as (v & ? & ? & ?); exists v; auto).
  assert (forall n sl P, slot_round k n sl P -> slot_round k' n sl P) as Hsr by (intros n sl P [? ?]; split; auto).
  assert (forall n sl x, copied k n sl x -> copied k' n sl x) as Hcp by (intros n sl x [? ?]; split; auto).
  destruct r; cbn [reader_ok]; naive_solver.
Qed.

Lemma tap_step_ok k x : mem_ok k -> tap_ok k x ->
  exists y, tap_step (pages k) x = Some y /\
    match y with inl x' => tap_ok k x' /\ 0 <= tap_left x' < tap_left x | inr t => troika_ok k t end.
Proof using Type.
  intros Hk [Hl Hg]. pose proof Hk as [Hz _].
  destruct (zget_in (pages k) (zlen (tap_got x))) as [m Hm]; [zlia|]. unfold tap_step. rewrite Hm. cbn [mbind option_bind].
  destruct x as [got pc]. cbn [tap_got tap_at] in *.
  destruct pc as [|a|a sg]; cbn [snap_step]; [eexists; split; [done|]; split; [done|unfold tap_left; cbn; zlia]..|].
  set (sn := snap_of a sg (txnid_b m)).
  assert (forall i s', zget (got ++ [sn]) i = Some s' -> snap_txnid s' <> 0 -> view k i (snap_txnid s') (fun _ => True)) as Hg'.
  { intros i s' Hi Hn. destruct (Z_lt_le_dec i (zlen got)) as [Hlt|Hge].
    - rewrite zget_app_l in Hi by lia. by apply Hg.
    - pose proof (zget_range _ _ _ Hi) as Hr. rewrite zlen_app in Hr. change (zlen [sn]) with 1 in Hr.
      assert (i = zlen got) as -> by lia. rewrite zget_app_mid in Hi by done. injection Hi as <-. by apply view_snap. }
  destruct got as [|s0 [|s1 [|s2 got]]]; [..|exfalso; revert Hl; unfold zlen; cbn [length]; lia]; cbn [app] in *.
  1-2: eexists; split; [done|]; split; [split; [done|done]|done].
  destruct (meta_tap_snaps_spec s0 s1 sn) as (t & -> & Hs). cbn [mbind option_bind]. exists (inr t). split; [done|].
  destruct (ts_recent _ _ Hs) as (r & Hr & _). apply zget_range in Hr. change (zlen [s0; s1; sn]) with 3 in Hr.
  split_and!; [by rewrite (ts_txnid _ _ Hs)|lia|lia|].
  intros i id Hi Hn. rewrite (ts_txnid _ _ Hs) in Hi. unfold zget in Hi. destruct (0 <=? i) eqn:E0; [|done].
  rewrite list_lookup_fmap in Hi. destruct ([s0; s1; sn] !! Z.to_nat i) as [s'|] eqn:E; [|done]. injection Hi as <-.
  apply Hg'; [|done]. unfold zget. by rewrite E0.
Qed.

Lemma attempt_ok k t loop : troika_ok k t -> 0 <= loop <= 42 ->
  exists r, attempt t loop = Some r /\ reader_ok k r /\ 0 <= rank r <= 100 * (42 - loop) + 40.
Proof using Type.
  intros (Hz & Hr & Hv) Hl. unfold attempt. destruct (Z.ltb_spec loop 42); [|exists (RdFailed MDBX_PROBLEM); cbn; split_and!; done || lia].
  unfold meta_recent, troika_ptr. destruct (zget_in (txnid t) (recent t)) as [id E]; [lia|]. rewrite E. cbn [mbind option_bind].
  eexists. split; [done|]. split; [|cbn; unfold rounds_left; cbn; lia]. split; [done|]. cbn. split_and!; try lia. by apply Hv.
Qed.

Lemma again_ok k n P : round_ok k n P ->
  exists r, again n = Some r /\ reader_ok k r /\ 0 <= rank r < rounds_left n.
Proof using Type.
  intros (Ht & Hl & _). destruct (attempt_ok k (rn_troika n) (rn_loop n + 1) Ht) as (r & E & Hr & Hk); [lia|].
  exists r. split_and!; [done|done|lia|unfold rounds_left; lia].
Qed.

Lemma timeout_ok k inp n P : round_ok k n P ->
  exists r, timeout inp n = Some r /\ reader_ok k r /\ 0 <= rank r < rounds_left n.
Proof using Type.
  intros H. unfold timeout. destruct (in_timeout inp); [|by eapply again_ok]. exists (RdFailed MDBX_PROBLEM).
  destruct H as (_ & ? & _). unfold rounds_left. cbn. split_and!; done || lia.
Qed.

Lemma head_page_ok k n P : mem_ok k -> round_ok k n P -> exists m, head_page (pages k) n = Some m.
Proof using Type. intros [Hz _] (_ & _ & Hr & _). apply zget_in. lia. Qed.

(** Loading a field of the head page. *)
Lemma round_load k n P (Q : version -> Prop) m : round_ok k n P -> head_page (pages k) n = Some m ->
  (txnid_a m = ptr_txnid (rn_head n) -> P (version_of m) -> Q (version_of m)) -> round_ok k n Q.
Proof using Type.
  intros (Ht & Hl & Hr & Hv) Hm HQ. split_and!; try done; try lia. intros Hn. eapply view_load; eauto.
Qed.

Lemma slot_load k n sl P (Q : version -> Prop) m : slot_round k n sl P -> head_page (pages k) n = Some m ->
  (txnid_a m = ptr_txnid (rn_head n) -> P (version_of m) -> Q (version_of m)) -> slot_round k n sl Q.
Proof using Type. intros [Hr Hs] Hm HQ. split; [|done]. eapply round_load; eauto. intros ? [? ?]. auto. Qed.

Lemma round_same k n P m : round_ok k n P -> head_page (pages k) n = Some m -> txnid_a m = ptr_txnid (rn_head n) ->
  ptr_txnid (rn_head n) <> 0 -> committed k (version_of m) /\ P (version_of m).
Proof using Type. intros (_ & _ & _ & Hv) Hm E Hn. eapply view_same; eauto. Qed.

Lemma snap_of_first a sg b id : id <> 0 -> snap_txnid (snap_of a sg b) = id -> a = id.
Proof using Type. unfold snap_of. destruct (negb _); cbn; congruence. Qed.

Definition goes_on (k : mem) (r : reader) (o : option reader) : Prop :=
  exists r', o = Some r' /\ reader_ok k r' /\ 0 <= rank r' < rank r.

Lemma goes_on_to k r r' : reader_ok k r' -> 0 <= rank r' < rank r -> goes_on k r (Some r').
Proof using Type. intros ? ?. by exists r'. Qed.

Lemma tap_start_ok k : tap_ok k tap_start.
Proof using Type. split; [done|]. intros i sn Hi. apply zget_range in Hi. cbn in Hi. unfold zlen in Hi. cbn in Hi. lia. Qed.

(** The values for the slot, and the id again. *)
Lemma check_goes_on k o inp n used retired pc : mem_ok k -> reader_ok k (RdCheck n used retired pc) ->
  goes_on k (RdCheck n used retired pc) (reader_step first_unallocated (pages k) o inp (RdCheck n used retired pc)).
Proof using Type.
  intros Hk [Hr Hid]. destruct (head_page_ok k n _ Hk Hr) as [m Hm]. cbn [reader_step fetch_step]. rewrite Hm. cbn [mbind option_bind].
  pose proof Hr as (_ & Hl & _). destruct pc as [|a|a sg]; cbn [snap_step].
  - apply goes_on_to; [|unfold rank, rounds_left; cbn; lia]. split; [done|]. cbn. intros [= E] Hn.
    destruct (round_same k n _ m Hr Hm E Hn) as [Hc HP]. by exists (version_of m).
  - apply goes_on_to; [|unfold rank, rounds_left; cbn; lia]. split; [done|]. by apply Hid.
  - destruct (Z.eqb_spec (snap_txnid (snap_of a sg (txnid_b m))) (ptr_txnid (rn_head n))) as [E|Hne]; cbn [negb].
    + apply goes_on_to; [|unfold rank, rounds_left; change (tap_left tap_start) with 9; cbn [snap_left]; lia]. split; [|apply tap_start_ok]. split.
      * eapply round_load; [exact Hr|exact Hm|]. auto.
      * intros Hn. apply Hid; [|done]. cbn in *. f_equal. by apply (snap_of_first a sg (txnid_b m)).
    + apply goes_on_to; [|unfold rank, rounds_left; change (tap_left tap_start) with 9; cbn [snap_left]; lia]. split; [apply tap_start_ok|lia].
Qed.

(** The second look at all pages. *)
Lemma retry_goes_on k o inp n sl x : mem_ok k -> reader_ok k (RdRetry n sl x) ->
  goes_on k (RdRetry n sl x) (reader_step first_unallocated (pages k) o inp (RdRetry n sl x)).
Proof using Type.
  intros Hk [Hs Hx]. pose proof Hs as [(Ht & Hl & Hr & Hv) Hsl]. destruct (tap_step_ok k x Hk Hx) as (y & Ey & Hy).
  cbn [reader_step fetch_step]. rewrite Ey. cbn [mbind option_bind]. assert (0 <= tap_left x) as Hx0.
  { destruct Hx as [? _]. unfold tap_left, snap_left. destruct (tap_at x); zlia. }
  destruct y as [x'|t].
  - destruct Hy as [Hok Hlt]. apply goes_on_to; [by split|]. cbn [rank]. unfold rounds_left. lia.
  - destruct (troika_changed (rn_troika n) t).
    + destruct (attempt_ok k t (rn_loop n + 1) Hy) as (r & E & Hok & Hrk); [lia|].
      rewrite E. apply goes_on_to; [done|]. cbn [rank]. unfold rounds_left. lia.
    + apply goes_on_to; [|unfold rank, rounds_left; cbn [rn_loop]; lia]. split; [|done]. exact (conj Hy (conj Hl (conj Hr Hv))).
Qed.

(** The copy of the page. *)
Lemma copy_goes_on k o inp r : mem_ok k -> reader_ok k r ->
  match r with RdUsed _ | RdRetired _ _ | RdGeo _ _ | RdGc _ _ _ | RdMain _ _ _ _ | RdCanary _ _ _ _ _ => True | _ => False end ->
  goes_on k r (reader_step first_unallocated (pages k) o inp r).
Proof using Type.
  intros Hk Hr. destruct r as [|n|n used| | |n sl|n sl geo|n sl geo gc|n sl geo gc main| | | | | | |]; try done; intros _; cbn [reader_ok] in Hr.
  1-2: pose proof Hr as (_ & Hl & _); destruct (head_page_ok k n _ Hk Hr) as [m Hm].
  3-6: pose proof Hr as [(_ & Hl & _) _]; destruct (head_page_ok k n _ Hk (proj1 Hr)) as [m Hm].
  all: cbn [reader_step fetch_step]; rewrite Hm; cbn [mbind option_bind]; apply goes_on_to; [cbn [reader_ok]|unfold rank, rounds_left; cbn; lia].
  - by apply (round_load k n _ _ m Hr).
  - split; [|done]. apply (round_load k n _ _ m Hr Hm). cbn. intros E ->. unfold published_of. cbn. by rewrite E.
  - by apply (slot_load k n sl _ _ m Hr).
  - by apply (slot_load k n sl _ _ m Hr).
  - apply (slot_load k n sl _ _ m Hr Hm). cbn. intros _ [-> ->]. done.
  - split; [|done]. apply (slot_load k n sl _ _ m Hr Hm). cbn. intros <- (-> & -> & ->). done.
Qed.

(** The last comparison of the ids. *)
Lemma id_goes_on k o inp n sl x pc : mem_ok k -> reader_ok k (RdId n sl x pc) ->
  goes_on k (RdId n sl x pc) (reader_step first_unallocated (pages k) o inp (RdId n sl x pc)).
Proof using Type.
  intros Hk [[[Hr Hsl] Ex] Hid]. destruct (head_page_ok k n _ Hk Hr) as [m Hm]. cbn [reader_step fetch_step]. rewrite Hm. cbn [mbind option_bind].
  pose proof Hr as (_ & Hl & _). destruct pc as [|a|a sg]; cbn [snap_step].
  - apply goes_on_to; [|unfold rank, rounds_left; cbn; lia]. split; [done|]. cbn. intros [= E] Hn.
    destruct (round_same k n _ m Hr Hm) as [Hc [HP HQ]]; [congruence|congruence|]. by exists (version_of m).
  - apply goes_on_to; [|unfold rank, rounds_left; cbn; lia]. split; [done|]. by apply Hid.
  - destruct (Z.eqb_spec (x_txnid x) (snap_txnid (snap_of a sg (txnid_b m)))) as [E|Hne]; cbn [negb].
    + destruct (in_flags inp); cbn [negb]; [|apply goes_on_to; [done|unfold rank, rounds_left; cbn; lia]].
      apply goes_on_to; [|unfold rank, rounds_left; cbn; lia]. split; [|split; [done|]].
      * by apply (round_load k n _ _ m Hr).
      * intros Hn. apply Hid; [|done]. cbn. f_equal. by apply (snap_of_first a sg (txnid_b m)).
    + destruct (timeout_ok k inp n _ Hr) as (r & -> & Hok & Hrk). apply goes_on_to; [done|]. unfold rank, snap_left in *. lia.
Qed.

Lemma reader_goes_on k inp r : mem_ok k -> reader_ok k r -> finished r = false ->
  goes_on k r (reader_step first_unallocated (pages k) (cached_oldest k) inp r).
Proof using Type.
  intros Hk Hr Hf. destruct r as [x loop|n|n used|n used retired pc|n sl x|n sl|n sl geo|n sl geo gc|n sl geo gc main|n sl x|n sl x pc|n sl x|n sl x|sl x|sl x|e];
    try done; try (by apply copy_goes_on); try (by apply check_goes_on); try (by apply retry_goes_on); try (by apply id_goes_on).
  - destruct Hr as [Hx Hl]. destruct (tap_step_ok k x Hk Hx) as (y & Ey & Hy). cbn [reader_step fetch_step]. rewrite Ey. cbn [mbind option_bind].
    destruct y as [x'|t]; [destruct Hy as [Hok Hlt]; apply goes_on_to; [by split|cbn [rank]; lia]|]. assert (0 <= tap_left x) as Hx0.
    { destruct Hx as [? _]. unfold tap_left, snap_left. destruct (tap_at x); zlia. }
    destruct (attempt_ok k t loop Hy Hl) as (r & -> & Hok & Hrk). apply goes_on_to; [done|]. cbn [rank]. lia.
  - destruct Hr as [[Hr Hsl] Ex]. pose proof Hr as (_ & Hl & _). cbn [reader_step fetch_step].
    destruct (in_coherent inp); [apply goes_on_to; [by split|unfold rank, rounds_left; cbn; lia]|].
    destruct (timeout_ok k inp n _ Hr) as (r & -> & Hok & Hrk). apply goes_on_to; [done|]. cbn [rank]. lia.
  - destruct Hr as (Hr & Hsl & Hx). cbn [reader_step fetch_step]. destruct (x_txnid x <? cached_oldest k).
    + destruct (again_ok k n _ Hr) as (r & -> & Hok & Hrk). apply goes_on_to; [done|]. cbn [rank]. lia.
    + apply goes_on_to; [done|]. destruct Hr as (_ & ? & _). unfold rank, rounds_left. lia.
  - destruct Hr as (Hr & Hsl & Hx). cbn [reader_step fetch_step]. destruct (in_slot inp).
    + apply goes_on_to; [done|]. destruct Hr as (_ & ? & _). unfold rank, rounds_left. lia.
    + destruct (again_ok k n _ Hr) as (r & -> & Hok & Hrk). apply goes_on_to; [done|]. cbn [rank]. lia.
  - destruct Hr as [Hsl Hx]. cbn [reader_step fetch_step].
    destruct (Z.ltb_spec (x_txnid x) MIN_TXNID); [by apply goes_on_to|]. destruct (Z.ltb_spec MAX_TXNID (x_txnid x)); [by apply goes_on_to|].
    cbn [orb]. destruct (in_setup inp); by apply goes_on_to.
Qed.

(** ** Interleavings *)

Definition sys_ok (s : sys) : Prop := mem_ok (fst s) /\ reader_ok (fst s) (snd s).

Lemma sys_step_ok s s' : sys_step first_unallocated boot s s' -> sys_ok s -> sys_ok s'.
Proof using Type.
  intros [k k' r Hw|k r r' inp E] [Hk Hr]; cbn [fst snd] in *.
  - split; [by eapply mem_step_ok|by eapply reader_ok_write].
  - split; [done|]. assert (finished r = false) as Hf by (by destruct r).
    destruct (reader_goes_on k inp r Hk Hr Hf) as (r'' & E' & Hok & _). cbn. congruence.
Qed.

Lemma reachable_ok ms o s : zlen ms = 3 -> Forall whole ms ->
  rtc (sys_step first_unallocated boot) (quiet ms o, reader_start) s -> sys_ok s.
Proof using Type.
  intros Hz Hw Hreach. assert (sys_ok (quiet ms o, reader_start)) as H0.
  { split; [by apply quiet_ok|]. split; [apply tap_start_ok|lia]. }
  revert H0. induction Hreach as [s|s1 s2 s3 Hs _ IH]; [done|]. intros H. apply IH. by apply (sys_step_ok s1).
Qed.
End Views.

(** ** A reader that nobody disturbs *)

Section Alone.
Context (first_unallocated : Z -> Z) (m0 m1 m2 : meta) (o : Z) (inp : input).

Fixpoint reader_run (j : nat) (r : reader) : option reader :=
  match j with
  | O => Some r
  | S j => r' ← reader_step first_unallocated [m0; m1; m2] o inp r; reader_run j r'
  end.

Lemma reader_run_S j r r' : reader_step first_unallocated [m0; m1; m2] o inp r = Some r' -> reader_run (S j) r = reader_run j r'.
Proof using Type. intros E. cbn [reader_run]. by rewrite E. Qed.

(** The nine loads are [meta_tap]. *)
Lemma tap_alone j loop : reader_run (9 + j) (RdTap tap_start loop) =
  (t ← meta_tap m0 m1 m2; r ← attempt t loop; reader_run j r).
Proof using Type.
  transitivity (((t ← meta_tap m0 m1 m2; Some (inr t)) ≫= (fun y : tap_pc + troika_t =>
    match y with inl x => Some (RdTap x loop) | inr t => attempt t loop end)) ≫= reader_run j); [reflexivity|].
  by destruct (meta_tap m0 m1 m2).
Qed.

Lemma retry_alone j n sl : meta_tap m0 m1 m2 = Some (rn_troika n) ->
  reader_run (9 + j) (RdRetry n sl tap_start) = reader_run j (RdGeo n sl).
Proof using Type.
  intros E. transitivity (((t ← meta_tap m0 m1 m2; Some (inr t)) ≫= (fun y : tap_pc + troika_t =>
    match y with
    | inl x => Some (RdRetry n sl x)
    | inr t => if troika_changed (rn_troika n) t then attempt t (rn_loop n + 1) else Some (RdGeo (mk_round t (rn_loop n) (rn_head n)) sl)
    end)) ≫= reader_run j); [reflexivity|].
  rewrite E. cbn [mbind option_bind]. unfold troika_changed. rewrite Z.eqb_refl, bool_decide_true by done. by destruct n.
Qed.

#[local] Ltac load := erewrite reader_run_S; [|cbn [reader_step fetch_step]; match goal with H : head_page _ _ = Some _ |- _ => rewrite H end; reflexivity].

(** It ends in its first round, with the version of the recent page. *)
Lemma seize_alone_takes_recent t head m :
  meta_tap m0 m1 m2 = Some t -> meta_recent t = Some head -> zget [m0; m1; m2] (ptr_n head) = Some m ->
  ptr_txnid head = meta_txnid m -> whole m -> Z.max o MIN_TXNID <= txnid_a m <= MAX_TXNID ->
  in_coherent inp = true -> in_flags inp = true -> in_slot inp = true -> in_setup inp = None ->
  reader_run 34 reader_start = Some (RdDone (published_of first_unallocated (version_of m)) (txn_of (version_of m))).
Proof using Type.
  intros Et Eh Em Eid [_ Eb] Hid Hc Hf Hs Hu. change 34%nat with (9 + (5 + (9 + 11)))%nat. unfold reader_start. rewrite tap_alone, Et.
  cbn [mbind option_bind]. unfold attempt. rewrite Eh. cbn -[reader_run Nat.add].
  assert (ptr_txnid head = txnid_a m) as Ea. { rewrite Eid. unfold meta_txnid, meta_snap, snap_of. by rewrite Eb, Z.eqb_refl. }
  set (n := mk_round t 0 head). assert (head_page [m0; m1; m2] n = Some m) as Hh by done.
  assert (forall sg, snap_txnid (snap_of (txnid_a m) sg (txnid_b m)) = txnid_a m) as Hsnap by (intros sg; unfold snap_of; by rewrite Eb, Z.eqb_refl).
  assert (reader_run (5 + (9 + 11)) (RdUsed n) =
    reader_run (9 + 11) (RdRetry n (published_of first_unallocated (version_of m)) tap_start)) as ->.
  { change (5 + (9 + 11))%nat with (S (S (S (S (S (9 + 11)))))). do 4 load.
    erewrite reader_run_S; [done|]. cbn [reader_step fetch_step]. rewrite Hh. cbn [mbind option_bind snap_step n rn_head].
    by rewrite Hsnap, Ea, Z.eqb_refl. }
  rewrite retry_alone by done. do 4 load. erewrite reader_run_S; [|cbn [reader_step fetch_step]; by rewrite Hc]. do 2 load.
  erewrite reader_run_S; [|cbn [reader_step fetch_step]; rewrite Hh; cbn [mbind option_bind snap_step n rn_head x_txnid];
    rewrite Hsnap, Ea, Z.eqb_refl, Hf; cbn [negb]; reflexivity].
  erewrite reader_run_S; [|cbn [reader_step fetch_step x_txnid]; rewrite (proj2 (Z.ltb_ge _ _)) by lia; reflexivity].
  erewrite reader_run_S; [|cbn [reader_step fetch_step]; rewrite Hs; reflexivity].
  erewrite reader_run_S; [|cbn [reader_step fetch_step x_txnid]; rewrite !(proj2 (Z.ltb_ge _ _)) by lia; rewrite Hu; reflexivity].
  reflexivity.
Qed.
End Alone.

(** Nothing is in the way of the reader. *)
Definition no_trouble : input := mk_input true false true true None.

Lemma meta_txnid_whole m : whole m -> meta_txnid m = txnid_a m.
Proof. intros [_ E]. unfold meta_txnid, meta_snap, snap_of. by rewrite E, Z.eqb_refl. Qed.

Lemma alone_ends first_unallocated m0 m1 m2 o : Forall whole [m0; m1; m2] ->
  exists m, m ∈ [m0; m1; m2] /\ Forall (fun x => txnid_a x <= txnid_a m) [m0; m1; m2] /\
    (Z.max o MIN_TXNID <= txnid_a m <= MAX_TXNID ->
     reader_run first_unallocated m0 m1 m2 o no_trouble 34 reader_start =
       Some (RdDone (published_of first_unallocated (version_of m)) (txn_of (version_of m)))).
Proof.
  intros Hw. destruct (meta_tap_snaps_spec (meta_snap m0) (meta_snap m1) (meta_snap m2)) as (t & Et & Hs).
  destruct (ts_recent _ _ Hs) as (r & Hr & Hmax).
  assert (exists m, zget [m0; m1; m2] (recent t) = Some m /\ r = meta_snap m) as (m & Em & ->).
  { apply zget_range in Hr as Hi. change (zlen _) with 3 in Hi. assert (recent t = 0 \/ recent t = 1 \/ recent t = 2) as Hc by lia.
    destruct Hc as [E|[E|E]]; rewrite E in *; injection Hr as <-; by eexists. }
  pose proof Hw as Hwm. rewrite Forall_forall in Hwm. pose proof (Hwm m (zget_elem _ _ _ Em)) as Hm.
  exists m. split; [by eapply zget_elem|]. split.
  - rewrite Forall_forall. intros x Hx. rewrite Forall_forall in Hmax. rewrite <- (meta_txnid_whole x), <- (meta_txnid_whole m) by auto.
    assert (meta_snap x ∈ meta_snap <$> [m0; m1; m2]) as Hin by (by apply list_elem_of_fmap_2).
    destruct (Hmax _ Hin) as [?|[? _]]; unfold meta_txnid; lia.
  - intros Hid. eapply (seize_alone_takes_recent _ _ _ _ _ _ t (mk_ptr (meta_txnid m) (recent t) (Z.testbit (fsm t) (recent t)))); try done.
    unfold meta_recent, troika_ptr. rewrite (ts_txnid _ _ Hs). change (snap_txnid <$> _) with (snap_txnid <$> (meta_snap <$> [m0; m1; m2])).
    assert (zget (snap_txnid <$> (meta_snap <$> [m0; m1; m2])) (recent t) = Some (meta_txnid m)) as ->; [|done].
    revert Em. unfold zget. destruct (0 <=? recent t); [|done]. intros Em. by rewrite !list_lookup_fmap, Em.
Qed.

(** ** Claims *)


#[local] Ltac read := (eapply rtc_l; [eapply (sys_read _ _ _ _ _ no_trouble); vm_compute; reflexivity|]).


(** The flag of a snapshot taken during an update may be stale: the id is
    stored before the sign is weakened, so that a snapshot can have the id of
    a weak update and the steadiness of the version before. *)
Lemma snapshot_with_stale_flag :
  let old := sample_meta 5 2 in
  let new := sample_meta 8 DATASIGN_WEAK in
  let after k := run_stores old (take k (sync_stores 1 new)) in
  meta_is_steady new = false /\
  exists a sg, snap_step (after 2%nat) LoadA = inl (LoadSign a) /\ snap_step (after 2%nat) (LoadSign a) = inl (LoadB a sg) /\
    snap_step (after 11%nat) (LoadB a sg) = inr (mk_snap 8 true).
Proof. split; [done|]. by exists 8, 2. Qed.
