(* ===== verification/Mvcc.v ===== *)
(** * Readers and the oldest snapshot ([src/src/mvcc-readers.c], [txn-ro.c])

    Every reader publishes the id of its snapshot in its slot of a table in
    shared memory. The writer scans the table for the oldest snapshot in use,
    without any lock against the readers, and may reuse the pages of what is
    older. The programs of both sides are given step by step, one access to the
    shared memory per step; a system interleaves one writer (there is a lock for
    writers) with any number of readers, which start, end, park and resume
    their transactions, die, and are swept.

    The choice of the meta page is one load of the ids of the recent and of the
    steady version (what [Meta] and [MetaSync] show of [meta_tap]). As there,
    loads and stores take effect in the order of the program. 64-bit atomics
    with compare-and-swap are available ([MDBX_64BIT_ATOMIC],
    [MDBX_64BIT_CAS]). Statistics and messages are not modelled. *)

From stdpp Require Import base numbers option list relations.
From Stdlib Require Import ZArith Lia.
From S2P Require Import Prelude Rkl.

Definition MDBX_TID_TXN_OUSTED : Z := UINT64_MAX - 1.
Definition MDBX_TID_TXN_PARKED : Z := UINT64_MAX.

(** [MDBX_TETRAD('N', 'o', 'n', 'e')] *)
Definition NOTHING_CHANGED_SIGNATURE : Z := 78 * 2 ^ 24 + 111 * 2 ^ 16 + 110 * 2 ^ 8 + 101.

(** ** Shared memory *)

Record reader_slot : Type := mk_slot {
  sl_txnid : Z;
  sl_tid : Z;
  sl_pid : Z;
  sl_used : Z;
  sl_retired : Z;
}.

Record lck_t : Type := mk_lck {
  rdt_length : Z;
  rdt_refresh_flag : Z;
  cached_oldest_txnid : Z;
  cached_oldest_retired : Z;
  rdt : list reader_slot;
}.

(** The ids of the recent and of the preferred steady version. *)
Record metas : Type := mk_metas { recent_id : Z; steady_id : Z }.

#[export] Instance metas_eq_dec : EqDecision metas.
Proof. solve_decision. Defined.

Definition set_length (k : lck_t) (n : Z) : lck_t :=
mk_lck n (rdt_refresh_flag k) (cached_oldest_txnid k) (cached_oldest_retired k) (rdt k).
Definition set_flag (k : lck_t) (v : Z) : lck_t :=
mk_lck (rdt_length k) v (cached_oldest_txnid k) (cached_oldest_retired k) (rdt k).
Definition set_oldest (k : lck_t) (v : Z) : lck_t :=
mk_lck (rdt_length k) (rdt_refresh_flag k) v (cached_oldest_retired k) (rdt k).
Definition set_oldest_retired (k : lck_t) (v : Z) : lck_t :=
mk_lck (rdt_length k) (rdt_refresh_flag k) (cached_oldest_txnid k) v (rdt k).
Definition set_slot (k : lck_t) (i : Z) (sl : reader_slot) : lck_t :=
mk_lck (rdt_length k) (rdt_refresh_flag k) (cached_oldest_txnid k) (cached_oldest_retired k) (zupd (rdt k) i sl).

Definition put_txnid (v : Z) (sl : reader_slot) : reader_slot := mk_slot v (sl_tid sl) (sl_pid sl) (sl_used sl) (sl_retired sl).
Definition put_tid (v : Z) (sl : reader_slot) : reader_slot := mk_slot (sl_txnid sl) v (sl_pid sl) (sl_used sl) (sl_retired sl).
Definition put_pid (v : Z) (sl : reader_slot) : reader_slot := mk_slot (sl_txnid sl) (sl_tid sl) v (sl_used sl) (sl_retired sl).
Definition put_used (v : Z) (sl : reader_slot) : reader_slot := mk_slot (sl_txnid sl) (sl_tid sl) (sl_pid sl) v (sl_retired sl).
Definition put_retired (v : Z) (sl : reader_slot) : reader_slot := mk_slot (sl_txnid sl) (sl_tid sl) (sl_pid sl) (sl_used sl) v.

(** A store to the slot [i]. *)
Definition in_slot (k : lck_t) (i : Z) (f : reader_slot -> reader_slot) : option lck_t :=
sl ← zget (rdt k) i; Some (set_slot k i (f sl)).

(** [safe64_reset] and [safe64_reset_compare]. *)
Definition safe64_reset (k : lck_t) (i : Z) : option lck_t := in_slot k i (put_txnid UINT64_MAX).
Definition safe64_reset_compare (k : lck_t) (i compare : Z) : option (bool * lck_t) :=
sl ← zget (rdt k) i;
Some (if sl_txnid sl =? compare then (true, set_slot k i (put_txnid UINT64_MAX sl)) else (false, k)).

Definition rdt_count (k : lck_t) : Z := if rdt_length k <? zlen (rdt k) then rdt_length k else zlen (rdt k).

Section Programs.
(** The pages used and retired of every version, and for the user of every slot
    its thread id and process id. *)
Context (used_of retired_of owner_of pid_of : Z -> Z).

(** ** The writer: [mvcc_snapshot_oldest_rw] *)

Inductive wpc : Set :=
| WLoadRetired
| WLoadOldest
| WTest (rescan_forced : bool)
| WMark
| WCount
| WSlotPid
| WSlotRetired
| WSlotTxnid
| WSlotRetired2
| WSlotTxnid2
| WLagging
| WKick
| WStoreOldest
| WStoreRetired
| WReturn.

#[global] Instance wpc_eq_dec : EqDecision wpc.
Proof. solve_decision. Defined.

Record scan_t : Type := mk_scan {
  sc_prev : Z;
  sc_oldest : Z;
  sc_oldest_retired : Z;
  sc_nreaders : Z;
  sc_i : Z;
  sc_reader_retired : Z;
  sc_reader_txnid : Z;
}.

Definition scan_next (l : scan_t) : scan_t :=
mk_scan (sc_prev l) (sc_oldest l) (sc_oldest_retired l) (sc_nreaders l) (sc_i l + 1) (sc_reader_retired l) (sc_reader_txnid l).

Definition sc_trusted (steady : Z) (l : scan_t) : Z := if steady <? sc_prev l then MIN_TXNID else sc_prev l.

Definition wstep (steady : Z) (k : lck_t) (pc : wpc) (l : scan_t) : option (lck_t * wpc * scan_t) :=
let retry := Some (k, WSlotPid, l) in
let continue := Some (k, WSlotPid, scan_next l) in
match pc with
| WLoadRetired =>
  Some (k, WLoadOldest, mk_scan 0 0 (cached_oldest_retired k) 0 0 0 0)
| WLoadOldest =>
  let prev := cached_oldest_txnid k in
  Some (k, WTest (steady <? prev), mk_scan prev prev (sc_oldest_retired l) 0 0 0 0)
| WTest true => Some (k, WMark, l)
| WTest false =>
  if rdt_refresh_flag k =? NOTHING_CHANGED_SIGNATURE
  then Some (k, (if sc_oldest l =? sc_prev l then WReturn else WStoreOldest), l)
  else Some (k, WMark, l)
| WMark => Some (set_flag k NOTHING_CHANGED_SIGNATURE, WCount, l)
| WCount => Some (k, WSlotPid, mk_scan (sc_prev l) steady (retired_of steady) (rdt_count k) 0 0 0)
| WSlotPid =>
  if sc_i l <? sc_nreaders l then
    sl ← zget (rdt k) (sc_i l);
    if sl_pid sl =? 0 then continue else Some (k, WSlotRetired, l)
  else Some (k, WTest false, l)
| WSlotRetired =>
  sl ← zget (rdt k) (sc_i l);
  Some (k, WSlotTxnid, mk_scan (sc_prev l) (sc_oldest l) (sc_oldest_retired l) (sc_nreaders l) (sc_i l) (sl_retired sl) (sc_reader_txnid l))
| WSlotTxnid =>
  sl ← zget (rdt k) (sc_i l);
  Some (k, WSlotRetired2, mk_scan (sc_prev l) (sc_oldest l) (sc_oldest_retired l) (sc_nreaders l) (sc_i l) (sc_reader_retired l) (sl_txnid sl))
| WSlotRetired2 =>
  sl ← zget (rdt k) (sc_i l);
  if sc_reader_retired l =? sl_retired sl then Some (k, WSlotTxnid2, l) else retry
| WSlotTxnid2 =>
  sl ← zget (rdt k) (sc_i l);
  if sc_reader_txnid l =? sl_txnid sl then
    if sc_reader_txnid l <? sc_trusted steady l then Some (k, WLagging, l)
    else if sc_reader_txnid l <? sc_oldest l then
      let l := mk_scan (sc_prev l) (sc_reader_txnid l) (sc_reader_retired l) (sc_nreaders l) (sc_i l) (sc_reader_retired l) (sc_reader_txnid l) in
      if sc_oldest l =? sc_prev l then Some (k, WTest false, l) else Some (k, WSlotPid, scan_next l)
    else continue
  else retry
| WLagging => if rdt_refresh_flag k =? NOTHING_CHANGED_SIGNATURE then Some (k, WKick, l) else continue
| WKick => '(_, k) ← safe64_reset_compare k (sc_i l) (sc_reader_txnid l); Some (k, WSlotPid, scan_next l)
| WStoreOldest => Some (set_oldest k (sc_oldest l), WStoreRetired, l)
| WStoreRetired => Some (set_oldest_retired k (sc_oldest_retired l), WReturn, l)
| WReturn => None
end.

(** ** The writer: eviction of parked readers

    The loop over the slots in [mvcc_kick_laggards], for the snapshot [oldest]
    that [mvcc_snapshot_oldest_rw] returned. A parked transaction is marked as
    ousted first, then its id is taken from the slot. The handler of slow
    readers, a function of the user that is called for the others, is not part
    of the model. *)
Inductive opc : Set :=
| OTxnid
| OPid
| OTid
| OCasTid
| OCasTxnid.

#[global] Instance opc_eq_dec : EqDecision opc.
Proof. solve_decision. Defined.

(** The next step, and the next slot; [None] behind the last one. *)
Definition ostep (oldest : Z) (k : lck_t) (pc : opc) (i : Z) : option (lck_t * option (opc * Z)) :=
let continue := Some (k, Some (OTxnid, i + 1)) in
match pc with
| OTxnid =>
  if i <? rdt_count k then
    sl ← zget (rdt k) i;
    if sl_txnid sl =? oldest then Some (k, Some (OPid, i)) else continue
  else Some (k, None)
| OPid => sl ← zget (rdt k) i; if sl_pid sl =? 0 then continue else Some (k, Some (OTid, i))
| OTid => sl ← zget (rdt k) i; if sl_tid sl =? MDBX_TID_TXN_PARKED then Some (k, Some (OCasTid, i)) else continue
| OCasTid =>
  sl ← zget (rdt k) i;
  if sl_tid sl =? MDBX_TID_TXN_PARKED
  then Some (set_slot k i (put_tid MDBX_TID_TXN_OUSTED sl), Some (OCasTxnid, i))
  else Some (k, Some (OTxnid, i))
| OCasTxnid => '(_, k) ← safe64_reset_compare k i oldest; Some (k, Some (OTxnid, i + 1))
end.

(** ** The readers *)

(** The place in the program of the user of a slot: free slot, [mvcc_bind_slot],
    a bound slot without a transaction, [ro_seize] (with the ids of the meta
    pages as tapped and the number of the attempt), a transaction on the
    snapshot [t], [txn_ro_park], [txn_ro_unpark], [ro_slot_clean] (first its
    branch for parked transactions), [ro_slot_release]; a dead user whose slot
    is to be swept by [mvcc_cleanup_dead]. *)
Inductive rpc : Type :=
| RFree
| RBindPid (grow : bool)
| RBindTxnid (grow : bool)
| RBindLength (grow : bool)
| RBindTid
| RBindDone
| RBound
| RTap
| RReset (tr : metas) (loop : Z)
| RLoad (tr : metas) (loop : Z)
| RUsed (tr : metas) (loop : Z)
| RRetired (tr : metas) (loop : Z)
| RPublish (tr : metas) (loop : Z)
| RFlag (tr : metas) (loop : Z)
| RRetry (tr : metas) (loop : Z)
| RFetch (tr : metas) (loop : Z)
| ROldest (tr : metas) (loop : Z)
| RSlot (tr : metas) (loop : Z)
| RActive (t : Z)
| RParkPid (t : Z)
| RParkTid (t : Z)
| RParkTxnid (t : Z)
| RParkStore (t : Z)
| RParkFlag (t : Z)
| RParked (t : Z)
| RUnparkPid (t : Z)
| RUnparkTid (t : Z)
| RUnparkTxnid (t tid : Z)
| RUnparkCas (t : Z)
| RUnparkTxnid2 (t : Z)
| RUnparkTid2 (t txnid : Z)
| RQuitTid
| RQuitReset
| RQuitStore
| RQuitTxnid2
| RQuitTid2
| REndUsed
| REndReset
| REndFlag
| RReleaseReset
| RReleasePid
| RDead
| RSwept.

(** What is not determined by the program: the wishes of the user, the outcome
    of the checks of the data behind the meta page, errors, and death. *)
Inductive event : Set :=
| Go
| Start
| End
| Park
| Unpark
| Release
| Again
| Broken
| Die
| Sweep.

(** [continue] in the loop of [ro_seize]; too many attempts end in an error and
    [txn_ro_reset]. *)
Definition seize_again (tr : metas) (loop : Z) : rpc := if loop + 1 <? 42 then RReset tr (loop + 1) else RQuitTid.

(** The first slot without a process, among those in use. *)
Fixpoint free_slot (l : list reader_slot) (n : nat) : Z :=
match n, l with
| S n, sl :: l => if sl_pid sl =? 0 then 0 else free_slot l n + 1
| _, _ => 0
end.

(** A store to the own slot, and a step without one. *)
Definition go (i : Z) (k : lck_t) (f : reader_slot -> reader_slot) (next : rpc) : option (lck_t * rpc) :=
k ← in_slot k i f; Some (k, next).
Definition stay (k : lck_t) (next : rpc) : option (lck_t * rpc) := Some (k, next).

(** [mvcc_bind_slot]. *)
Definition bind_step (i : Z) (k : lck_t) (ev : event) (r : rpc) : option (lck_t * rpc) :=
match r, ev with
| RFree, Go =>
  let nreaders := rdt_count k in
  if free_slot (rdt k) (Z.to_nat nreaders) =? i then stay k (RBindPid (i =? nreaders)) else None
| RBindPid grow, Go => go i k (put_pid 0) (RBindTxnid grow)
| RBindTxnid grow, Go => go i k (put_txnid UINT64_MAX) (RBindLength grow)
| RBindLength grow, Go => Some (if grow then set_length k (i + 1) else k, RBindTid)
| RBindTid, Go => go i k (put_tid (owner_of i)) RBindDone
| RBindDone, Go => go i k (put_pid (pid_of i)) RBound
| _, _ => None
end.

(** [ro_seize]. *)
Definition seize_step (i : Z) (m : metas) (k : lck_t) (sl : reader_slot) (ev : event) (r : rpc) : option (lck_t * rpc) :=
match r, ev with
| RTap, Go => stay k (RReset m 0)
| RReset tr loop, Go => go i k (put_txnid UINT64_MAX) (RLoad tr loop)
| RLoad tr loop, Go => stay k (RUsed tr loop)
| RLoad tr loop, Again => stay k (seize_again m loop)
| RUsed tr loop, Go => go i k (put_used (used_of (recent_id tr))) (RRetired tr loop)
| RRetired tr loop, Go => go i k (put_retired (retired_of (recent_id tr))) (RPublish tr loop)
| RPublish tr loop, Go => go i k (put_txnid (recent_id tr)) (RFlag tr loop)
| RFlag tr loop, Go => Some (set_flag k 1, RRetry tr loop)
| RRetry tr loop, Go => if decide (m = tr) then stay k (RFetch tr loop) else stay k (seize_again m loop)
| RFetch tr loop, Go => stay k (ROldest tr loop)
| RFetch tr loop, Again => stay k (seize_again tr loop)
| RFetch tr loop, Broken => stay k RQuitTid
| ROldest tr loop, Go =>
  if recent_id tr <? cached_oldest_txnid k then stay k (seize_again tr loop) else stay k (RSlot tr loop)
| RSlot tr loop, Go =>
  if recent_id tr =? sl_txnid sl then stay k (RActive (recent_id tr)) else stay k (seize_again tr loop)
| _, _ => None
end.

(** [txn_ro_park]. *)
Definition park_step (i : Z) (k : lck_t) (sl : reader_slot) (ev : event) (r : rpc) : option (lck_t * rpc) :=
match r, ev with
| RParkPid t, Go => if sl_pid sl =? pid_of i then stay k (RParkTid t) else stay k (RActive t)
| RParkTid t, Go => if sl_tid sl =? owner_of i then stay k (RParkTxnid t) else stay k (RActive t)
| RParkTxnid t, Go => if sl_txnid sl =? t then stay k (RParkStore t) else stay k (RActive t)
| RParkStore t, Go => go i k (put_tid MDBX_TID_TXN_PARKED) (RParkFlag t)
| RParkStore t, Broken => stay k REndUsed
| RParkFlag t, Go => Some (set_flag k 1, RParked t)
| _, _ => None
end.

(** [txn_ro_unpark]. *)
Definition unpark_step (i : Z) (k : lck_t) (sl : reader_slot) (ev : event) (r : rpc) : option (lck_t * rpc) :=
match r, ev with
| RUnparkPid t, Go => if sl_pid sl =? pid_of i then stay k (RUnparkTid t) else stay k (RParked t)
| RUnparkTid t, Go => stay k (RUnparkTxnid t (sl_tid sl))
| RUnparkTxnid t tid, Go =>
  if (tid =? MDBX_TID_TXN_OUSTED) || (SAFE64_INVALID_THRESHOLD <=? sl_txnid sl) then stay k RQuitTid
  else if negb (tid =? MDBX_TID_TXN_PARKED) || negb (sl_txnid sl =? t) then stay k RQuitTid
  else stay k (RUnparkCas t)
| RUnparkCas t, Broken => stay k RQuitTid
| RUnparkCas t, Go =>
  if sl_tid sl =? MDBX_TID_TXN_PARKED then go i k (put_tid (owner_of i)) (RUnparkTxnid2 t) else stay k (RUnparkPid t)
| RUnparkTxnid2 t, Go => stay k (RUnparkTid2 t (sl_txnid sl))
| RUnparkTid2 t txnid, Go =>
  if negb (txnid =? t) || negb (sl_tid sl =? owner_of i) then stay k RQuitTid else stay k (RActive t)
| _, _ => None
end.

(** [ro_slot_clean]. *)
Definition clean_step (i : Z) (k : lck_t) (sl : reader_slot) (ev : event) (r : rpc) : option (lck_t * rpc) :=
match r, ev with
| RQuitTid, Go => stay k RQuitReset
| RQuitReset, Go => go i k (put_txnid UINT64_MAX) RQuitStore
| RQuitStore, Go => go i k (put_tid (owner_of i)) RQuitTxnid2
| RQuitTxnid2, Go => if sl_txnid sl <? SAFE64_INVALID_THRESHOLD then stay k RQuitReset else stay k RQuitTid2
| RQuitTid2, Go => if sl_tid sl =? owner_of i then stay k REndUsed else stay k RQuitReset
| REndUsed, Go => go i k (put_used 0) REndReset
| REndReset, Go => go i k (put_txnid UINT64_MAX) REndFlag
| REndFlag, Go => Some (set_flag k 1, RBound)
| _, _ => None
end.

(** [ro_slot_release]. *)
Definition release_step (i : Z) (k : lck_t) (ev : event) (r : rpc) : option (lck_t * rpc) :=
match r, ev with
| RReleaseReset, Go => go i k (put_txnid UINT64_MAX) RReleasePid
| RReleasePid, Go => go i k (put_pid 0) RFree
| _, _ => None
end.

(** The wishes of the user between these functions, and the sweep of the slot of
    a dead process by another one ([mvcc_cleanup_dead]). *)
Definition idle_step (i : Z) (k : lck_t) (ev : event) (r : rpc) : option (lck_t * rpc) :=
match r, ev with
| RBound, Start => stay k RTap
| RBound, Release => stay k RReleaseReset
| RActive t, End => stay k REndUsed
| RActive t, Park => stay k (RParkPid t)
| RParked t, Unpark => stay k (RUnparkPid t)
| RParked t, End => stay k RQuitTid
| RDead, Sweep => go i k (put_pid 0) RSwept
| RSwept, Go => Some (set_flag k 1, RFree)
| _, _ => None
end.

Definition rstep (i : Z) (m : metas) (k : lck_t) (ev : event) (r : rpc) : option (lck_t * rpc) :=
sl ← zget (rdt k) i;
match ev, r with
| Die, (RFree | RDead | RSwept) => None
| Die, _ => stay k (if sl_pid sl =? 0 then RFree else RDead)
| _, (RFree | RBindPid _ | RBindTxnid _ | RBindLength _ | RBindTid | RBindDone) => bind_step i k ev r
| _, (RTap | RReset _ _ | RLoad _ _ | RUsed _ _ | RRetired _ _ | RPublish _ _ | RFlag _ _ | RRetry _ _ | RFetch _ _ | ROldest _ _ | RSlot _ _) =>
  seize_step i m k sl ev r
| _, (RParkPid _ | RParkTid _ | RParkTxnid _ | RParkStore _ | RParkFlag _) => park_step i k sl ev r
| _, (RUnparkPid _ | RUnparkTid _ | RUnparkTxnid _ _ | RUnparkCas _ | RUnparkTxnid2 _ | RUnparkTid2 _ _) => unpark_step i k sl ev r
| _, (RQuitTid | RQuitReset | RQuitStore | RQuitTxnid2 | RQuitTid2 | REndUsed | REndReset | REndFlag) => clean_step i k sl ev r
| _, (RReleaseReset | RReleasePid) => release_step i k ev r
| _, (RBound | RActive _ | RParked _ | RDead | RSwept) => idle_step i k ev r
end.

(** ** The system *)

Inductive wstate : Type :=
| WOut
| WIdle
| WScan (pc : wpc) (l : scan_t)
| WOust (pc : opc) (i : Z).

(** [mv_tr] is the troika of the write transaction and [mv_result] the oldest
    snapshot it knows of, the cached one until it asks. *)
Record mvcc : Type := mk_mvcc {
  mv_metas : metas;
  mv_lck : lck_t;
  mv_writer : wstate;
  mv_tr : metas;
  mv_result : Z;
  mv_readers : list rpc;
}.

Inductive mvcc_step : mvcc -> mvcc -> Prop :=
| st_reader m k w tr res rs i r ev k' r' :
    zget rs i = Some r -> rstep i m k ev r = Some (k', r') ->
    mvcc_step (mk_mvcc m k w tr res rs) (mk_mvcc m k' w tr res (zupd rs i r'))
| st_begin m k tr res rs : mvcc_step (mk_mvcc m k WOut tr res rs) (mk_mvcc m k WIdle m (cached_oldest_txnid k) rs)
| st_call m k tr res rs l : mvcc_step (mk_mvcc m k WIdle tr res rs) (mk_mvcc m k (WScan WLoadRetired l) tr res rs)
| st_scan m k pc l k' pc' l' tr res rs :
    wstep (steady_id tr) k pc l = Some (k', pc', l') ->
    mvcc_step (mk_mvcc m k (WScan pc l) tr res rs) (mk_mvcc m k' (WScan pc' l') tr res rs)
| st_return m k l tr res rs :
    mvcc_step (mk_mvcc m k (WScan WReturn l) tr res rs) (mk_mvcc m k WIdle tr (sc_oldest l) rs)
| st_evict m k tr res rs :
    res <> steady_id tr -> mvcc_step (mk_mvcc m k WIdle tr res rs) (mk_mvcc m k (WOust OTxnid 0) tr res rs)
| st_oust m k pc i k' next tr res rs :
    ostep res k pc i = Some (k', next) ->
    mvcc_step (mk_mvcc m k (WOust pc i) tr res rs)
             (mk_mvcc m k' (match next with Some (pc, i) => WOust pc i | None => WIdle end) tr res rs)
| st_steady m k tr res rs :
    let m' := mk_metas (recent_id m) (recent_id m) in
    mvcc_step (mk_mvcc m k WIdle tr res rs) (mk_mvcc m' k WIdle m' res rs)
| st_commit m k tr res rs (steady : bool) :
    let next := recent_id m + 1 in
    next <= MAX_TXNID ->
    mvcc_step (mk_mvcc m k WIdle tr res rs) (mk_mvcc (mk_metas next (if steady then next else steady_id m)) k WOut tr res rs)
| st_abort m k tr res rs : mvcc_step (mk_mvcc m k WIdle tr res rs) (mk_mvcc m k WOut tr res rs).
(** The same steps as a function of a schedule. *)
Inductive act : Type :=
| AReader (i : Z) (ev : event)
| ABegin
| ACall
| AScan
| AReturn
| AEvict
| AOust
| ASteady
| ACommit (steady : bool)
| AAbort.

Definition do_act (s : mvcc) (a : act) : option mvcc :=
let '(mk_mvcc m k w tr res rs) := s in
match a, w with
| AReader i ev, _ =>
  r ← zget rs i; '(k, r) ← rstep i m k ev r; Some (mk_mvcc m k w tr res (zupd rs i r))
| ABegin, WOut => Some (mk_mvcc m k WIdle m (cached_oldest_txnid k) rs)
| ACall, WIdle => Some (mk_mvcc m k (WScan WLoadRetired (mk_scan 0 0 0 0 0 0 0)) tr res rs)
| AScan, WScan pc l => '(k, pc, l) ← wstep (steady_id tr) k pc l; Some (mk_mvcc m k (WScan pc l) tr res rs)
| AReturn, WScan WReturn l => Some (mk_mvcc m k WIdle tr (sc_oldest l) rs)
| AEvict, WIdle => if res =? steady_id tr then None else Some (mk_mvcc m k (WOust OTxnid 0) tr res rs)
| AOust, WOust pc i =>
  '(k, next) ← ostep res k pc i;
  Some (mk_mvcc m k (match next with Some (pc, i) => WOust pc i | None => WIdle end) tr res rs)
| ASteady, WIdle => let m := mk_metas (recent_id m) (recent_id m) in Some (mk_mvcc m k WIdle m res rs)
| ACommit steady, WIdle =>
  let next := recent_id m + 1 in
  if next <=? MAX_TXNID then Some (mk_mvcc (mk_metas next (if steady then next else steady_id m)) k WOut tr res rs) else None
| AAbort, WIdle => Some (mk_mvcc m k WOut tr res rs)
| _, _ => None
end.

Fixpoint do_acts (s : mvcc) (l : list act) : option mvcc :=
match l with
| [] => Some s
| a :: l => s ← do_act s a; do_acts s l
end.

(** The scan of the writer alone, and the program of a reader alone. *)
Fixpoint wrun (n : nat) (steady : Z) (k : lck_t) (pc : wpc) (l : scan_t) : option (lck_t * wpc * scan_t) :=
match n with
| O => Some (k, pc, l)
| S n => '(k, pc, l) ← wstep steady k pc l; wrun n steady k pc l
end.

Fixpoint rrun (n : nat) (i : Z) (m : metas) (k : lck_t) (r : rpc) : option (lck_t * rpc) :=
match n with
| O => Some (k, r)
| S n => '(k, r) ← rstep i m k Go r; rrun n i m k r
end.
End Programs.

(** ** The invariant *)

(** The snapshot that a reader relies on. While the slot is marked as parked it
    may be ousted; a starting reader relies on what is still in its slot. *)
Definition relies (r : rpc) (sl : reader_slot) : option Z :=
match r with
| RFetch tr _ | ROldest tr _ | RSlot tr _ => if sl_txnid sl =? recent_id tr then Some (recent_id tr) else None
| RActive t | RParkPid t | RParkTid t | RParkTxnid t | RParkStore t | RUnparkTxnid2 t | RUnparkTid2 t _ => Some t
| RParkFlag t | RParked t | RUnparkPid t | RUnparkTid t | RUnparkTxnid t _ | RUnparkCas t =>
  if sl_tid sl =? MDBX_TID_TXN_PARKED then Some t else None
| _ => None
end.

(** Places with a bound slot, and with the own thread id in it. *)
Definition is_bound (r : rpc) : bool :=
match r with
| RFree | RBindPid _ | RBindTxnid _ | RBindLength _ | RBindTid | RBindDone | RDead | RSwept => false
| _ => true
end.

Definition own_tid (r : rpc) : bool :=
match r with
| RFree | RBindPid _ | RBindTxnid _ | RBindLength _ | RBindTid | RDead | RSwept
| RParkFlag _ | RParked _ | RUnparkPid _ | RUnparkTid _ | RUnparkTxnid _ _ | RUnparkCas _
| RQuitTid | RQuitReset | RQuitStore => false
| _ => true
end.

(** The writer will not answer a snapshot younger than [t], on which the user of
    slot [i] relies: it has a bound below, has not passed the slot yet, or the
    steady version, the upper bound of its answer, is not younger itself. *)
Definition scan_spares (steady : Z) (pc : wpc) (l : scan_t) (i t : Z) : Prop :=
match pc with
| WLoadRetired | WLoadOldest | WMark | WCount => True
| WTest _ | WStoreOldest | WStoreRetired | WReturn => sc_oldest l <= t
| WLagging | WKick => steady <= t \/ (i < sc_nreaders l /\ (sc_i l < i \/ sc_oldest l <= t))
| _ => steady <= t \/ (i < sc_nreaders l /\ (sc_i l <= i \/ sc_oldest l <= t))
end.

Definition writer_spares (steady res : Z) (w : wstate) (i t : Z) : Prop :=
match w with
| WScan pc l => scan_spares steady pc l i t
| WOust OCasTxnid j => j = i -> res < t
| _ => True
end.

Section Invariant.
Context (used_of retired_of owner_of pid_of : Z -> Z).
Hypothesis owner_ok : forall i, owner_of i < MDBX_TID_TXN_OUSTED.
Hypothesis pid_ok : forall i, pid_of i <> 0.

Record entry_ok (k : lck_t) (w : wstate) (steady res i : Z) (sl : reader_slot) (r : rpc) : Prop := {
  en_bound : is_bound r = true -> sl_pid sl = pid_of i /\ i < rdt_length k;
  en_tid : own_tid r = true -> sl_tid sl = owner_of i;
  en_bind : match r with
            | RBindPid g | RBindTxnid g | RBindLength g => if g then rdt_length k = i else i < rdt_length k
            | RBindTid | RBindDone => i < rdt_length k
            | RFetch tr _ | ROldest tr _ | RSlot tr _ => recent_id tr <= MAX_TXNID
            | _ => True
            end;
  en_relies : forall t, relies r sl = Some t ->
    sl_txnid sl = t /\ cached_oldest_txnid k <= t /\ res <= t /\ writer_spares steady res w i t;
}.

Definition scan_ok (k : lck_t) (steady : Z) (pc : wpc) (l : scan_t) : Prop :=
match pc with
| WLoadRetired | WLoadOldest => True
| WStoreRetired | WReturn => sc_oldest l <= steady
| WLagging | WKick =>
  sc_prev l = cached_oldest_txnid k /\ sc_oldest l <= steady /\ sc_reader_txnid l < sc_prev l
| _ => sc_prev l = cached_oldest_txnid k /\ sc_oldest l <= steady
end.

Definition writer_ok (s : mvcc) : Prop :=
match mv_writer s with
| WOut => True
| WIdle => mv_tr s = mv_metas s
| WScan pc l => mv_tr s = mv_metas s /\ scan_ok (mv_lck s) (steady_id (mv_tr s)) pc l
| WOust _ _ => mv_tr s = mv_metas s /\ mv_result s < steady_id (mv_tr s)
end.

Record inv (s : mvcc) : Prop := {
  inv_order : cached_oldest_txnid (mv_lck s) <= steady_id (mv_metas s) /\ mv_result s <= steady_id (mv_metas s) /\
              steady_id (mv_metas s) <= recent_id (mv_metas s) <= MAX_TXNID;
  inv_writer : writer_ok s;
  inv_len : zlen (mv_readers s) = zlen (rdt (mv_lck s)) /\ 0 <= rdt_length (mv_lck s) <= zlen (rdt (mv_lck s));
  inv_entry : forall i sl r, zget (rdt (mv_lck s)) i = Some sl -> zget (mv_readers s) i = Some r ->
    entry_ok (mv_lck s) (mv_writer s) (steady_id (mv_tr s)) (mv_result s) i sl r;
}.

(** A table without transactions, before the first writer. *)
Definition mvcc_init (s : mvcc) : Prop :=
  mv_writer s = WOut /\ mv_result s = cached_oldest_txnid (mv_lck s) /\ rdt_length (mv_lck s) = 0 /\
  cached_oldest_txnid (mv_lck s) <= steady_id (mv_metas s) /\
  steady_id (mv_metas s) <= recent_id (mv_metas s) <= MAX_TXNID /\
  Forall (fun sl => sl_pid sl = 0) (rdt (mv_lck s)) /\
  mv_readers s = replicate (length (rdt (mv_lck s))) RFree.

Lemma inv_init s : mvcc_init s -> inv s.
Proof.
  intros (Hw & Hr & Hl & Hc & Hm & Hp & Hrs). constructor.
  - rewrite Hr. lia.
  - unfold writer_ok. by rewrite Hw.
  - rewrite Hrs. unfold zlen. rewrite length_replicate. lia.
  - intros i sl r _ Hi. apply zget_elem in Hi. rewrite Hrs in Hi. apply elem_of_replicate in Hi as [-> _].
    by constructor.
Qed.

(** *** Steps of readers *)

(** A step of the user of slot [i] changes nothing but this slot, the flag and
    the length of the table, which does not shrink. *)
Definition same_others (i : Z) (k k' : lck_t) : Prop :=
  cached_oldest_txnid k' = cached_oldest_txnid k /\ zlen (rdt k') = zlen (rdt k) /\
  forall j, j <> i -> zget (rdt k') j = zget (rdt k) j.

Lemma same_others_refl i k : same_others i k k.
Proof. done. Qed.

Lemma same_others_flag i k v : same_others i k (set_flag k v).
Proof. done. Qed.

Lemma same_others_length i k v : same_others i k (set_length k v).
Proof. done. Qed.

Lemma same_others_slot i k sl : 0 <= i -> same_others i k (set_slot k i sl).
Proof.
  intros Hi. split; [done|]. split; [apply zlen_zupd|]. intros j Hj. apply zget_zupd_ne; [done|congruence].
Qed.

(** The entry of another user keeps its invariant. *)
Lemma entry_ok_frame k k' w steady res i sl r :
  cached_oldest_txnid k' = cached_oldest_txnid k -> rdt_length k <= rdt_length k' ->
  (rdt_length k < rdt_length k' -> rdt_length k <> i) ->
  entry_ok k w steady res i sl r -> entry_ok k' w steady res i sl r.
Proof.
  intros Hc Hl Hne [H1 H2 H3 H4]. constructor.
  - intros H. specialize (H1 H). lia.
  - done.
  - destruct r; try done; try (destruct grow; lia); lia.
  - by rewrite Hc.
Qed.

(** What a step of the user of slot [i] has to keep. *)
Definition step_kept (w : wstate) (steady res i : Z) (k k' : lck_t) (r' : rpc) : Prop :=
  same_others i k k' /\ rdt_length k <= rdt_length k' <= zlen (rdt k') /\ (rdt_length k < rdt_length k' -> rdt_length k = i) /\
  exists sl', zget (rdt k') i = Some sl' /\ entry_ok k' w steady res i sl' r'.

Section ReaderStep.
Context (w : wstate) (steady res i : Z) (k : lck_t) (sl : reader_slot).
Hypothesis Hlen : rdt_length k <= zlen (rdt k).
Hypothesis Hsl : zget (rdt k) i = Some sl.

Lemma kept_stay r' : entry_ok k w steady res i sl r' -> step_kept w steady res i k k r'.
Proof using Hlen Hsl. intros H. split; [done|]. split; [lia|]. split; [lia|]. by exists sl. Qed.

Lemma kept_flag v r' : entry_ok k w steady res i sl r' -> step_kept w steady res i k (set_flag k v) r'.
Proof using Hlen Hsl.
  intros H. split; [done|]. cbn [set_flag rdt_length rdt]. split; [lia|]. split; [lia|]. exists sl. split; [done|].
  destruct H. by constructor.
Qed.

Lemma kept_slot sl' r' : entry_ok k w steady res i sl' r' -> step_kept w steady res i k (set_slot k i sl') r'.
Proof using Hlen Hsl.
  intros H. pose proof (zget_range _ _ _ Hsl) as Hi. split; [apply same_others_slot; lia|].
  cbn [set_slot rdt_length rdt]. rewrite zlen_zupd. split; [lia|]. split; [lia|]. exists sl'.
  split; [by apply zget_zupd_eq|]. destruct H. by constructor.
Qed.
End ReaderStep.

Lemma free_slot_range l n : 0 <= free_slot l n <= Z.of_nat n.
Proof.
  revert l. induction n as [|n IH]; intros [|sl l]; cbn -[Z.of_nat Z.add]; try lia.
  destruct (sl_pid sl =? 0); [lia|]. specialize (IH l). lia.
Qed.

Lemma rdt_count_length k : 0 <= rdt_length k <= zlen (rdt k) -> rdt_count k = rdt_length k.
Proof. intros H. unfold rdt_count. destruct (Z.ltb_spec (rdt_length k) (zlen (rdt k))); lia. Qed.

(** A reader that finds the meta pages unchanged relies on the recent version:
    no answer of the writer is younger. *)
Lemma recent_spared m k w tr res i :
  cached_oldest_txnid k <= steady_id m -> res <= steady_id m -> steady_id m <= recent_id m ->
  writer_ok (mk_mvcc m k w tr res []) -> writer_spares (steady_id tr) res w i (recent_id m).
Proof.
  intros HC HR HM Hw. unfold writer_ok in Hw. cbn in Hw. destruct w as [| |pc l|pc j]; try done.
  - destruct Hw as [-> Hs]. cbn. destruct pc; cbn in *; try done; try lia; left; lia.
  - destruct Hw as [-> Hs]. cbn. destruct pc; try done. lia.
Qed.

Lemma rstep_entry i m k ev r k' r' sl w tr res :
  cached_oldest_txnid k <= steady_id m -> res <= steady_id m -> steady_id m <= recent_id m <= MAX_TXNID ->
  writer_ok (mk_mvcc m k w tr res []) ->
  0 <= rdt_length k <= zlen (rdt k) ->
  zget (rdt k) i = Some sl -> entry_ok k w (steady_id tr) res i sl r ->
  rstep used_of retired_of owner_of pid_of i m k ev r = Some (k', r') -> step_kept w (steady_id tr) res i k k' r'.
Proof.
  intros HC HR HM Hw Hlen Hsl [E1 E2 E3 E4] H. pose proof (zget_range _ _ _ Hsl) as Hi.
  assert (rdt_length k <= zlen (rdt k)) as Hl by lia.
  unfold rstep, bind_step, seize_step, park_step, unpark_step, clean_step, release_step, idle_step, go, stay, in_slot in H. rewrite Hsl in H. cbn [option_bind mbind] in H.
  destruct r, ev; try discriminate H; cbn [is_bound own_tid relies] in *.
  all: repeat match type of H with context [if ?b then _ else _] => let E := fresh "E" in destruct b eqn:E end.
  all: try discriminate H; injection H as <- <-.
  all: first [refine (kept_stay _ _ _ _ _ sl Hl Hsl _ _)|refine (kept_flag _ _ _ _ _ sl Hl Hsl _ _ _)|refine (kept_slot _ _ _ _ _ sl Hl Hsl _ _ _)|idtac].
  all: try match goal with |- context [seize_again ?a ?b] => unfold seize_again; destruct (b + 1 <? 42) end.
  all: try (constructor; cbn; [try done; intros _; by apply E1 | try done; intros _; by apply E2 | try done | try (intros ? Ht; first [discriminate Ht | by apply E4])]).
  - apply Z.eqb_eq in E. pose proof (free_slot_range (rdt k) (Z.to_nat (rdt_count k))) as Hf.
    rewrite rdt_count_length in E, Hf |- * by done. destruct (Z.eqb_spec i (rdt_length k)); lia.
  - split; [done|]. cbn [set_length rdt_length rdt]. split; [lia|]. split; [lia|]. exists sl. split; [done|].
    constructor; cbn; done || lia.
  - match goal with H : m = _ |- _ => rewrite <- H end. lia.
  - intros t Ht. destruct (Z.eqb_spec (sl_txnid sl) (recent_id tr0)) as [Et|]; [|discriminate Ht]. injection Ht as <-.
    split; [done|]. match goal with H : m = _ |- _ => rewrite <- H end. split; [lia|]. split; [lia|]. eapply (recent_spared m k); done || lia.
  - intros t Ht. apply E4. by rewrite Z.eqb_sym, E.
  - intros t' Ht. by rewrite E in Ht.
Qed.

Lemma inv_reader m k w tr res rs i r ev k' r' :
  inv (mk_mvcc m k w tr res rs) -> zget rs i = Some r ->
  rstep used_of retired_of owner_of pid_of i m k ev r = Some (k', r') ->
  inv (mk_mvcc m k' w tr res (zupd rs i r')).
Proof.
  intros [Ho Hw [Hl Hn] He] Hr H. cbn in *.
  pose proof (zget_range _ _ _ Hr) as Hi. destruct (zget_in (rdt k) i) as [sl Hsl]; [lia|].
  destruct (rstep_entry i m k ev r k' r' sl w tr res) as ((HC & Hz & Hot) & Hlen & Hgr & sl' & Hsl' & He'); try done; try lia.
  { by apply He. }
  constructor; cbn.
  - by rewrite HC.
  - unfold writer_ok in *. cbn in *. destruct w; try done. destruct Hw as [? Hs]. split; [done|].
    unfold scan_ok in *. by rewrite HC.
  - rewrite zlen_zupd. lia.
  - intros j slj rj Hj Hrj. destruct (decide (j = i)) as [->|Hne].
    + rewrite zget_zupd_eq in Hrj by done. rewrite Hsl' in Hj. by simplify_eq.
    + rewrite zget_zupd_ne in Hrj by (lia || congruence). rewrite Hot in Hj by done.
      eapply entry_ok_frame; [done|lia| |by apply He]. intros Hlt. specialize (Hgr Hlt). congruence.
Qed.

(** *** Steps of the writer *)

(** Who relies on a snapshot is not ousted. *)
Lemma relies_tid k w steady res i sl r t :
  entry_ok k w steady res i sl r -> relies r sl = Some t -> sl_tid sl <> MDBX_TID_TXN_OUSTED.
Proof.
  intros [_ E2 _ _] Hr He. pose proof (owner_ok i) as Ho.
  destruct r; try discriminate Hr; cbn in E2, Hr; try (specialize (E2 eq_refl); lia);
    destruct (Z.eqb_spec (sl_tid sl) MDBX_TID_TXN_PARKED) as [E|]; try discriminate Hr;
    rewrite He in E; discriminate E.
Qed.

(** A change of what the writer knows, with the table as it is. *)
Lemma inv_writer_step m k k' w w' tr tr' res res' m' rs :
  inv (mk_mvcc m k w tr res rs) ->
  rdt k' = rdt k -> rdt_length k' = rdt_length k ->
  cached_oldest_txnid k' <= steady_id m' -> res' <= steady_id m' -> steady_id m' <= recent_id m' <= MAX_TXNID ->
  writer_ok (mk_mvcc m' k' w' tr' res' rs) ->
  (forall i sl r t, zget (rdt k) i = Some sl -> zget rs i = Some r -> relies r sl = Some t ->
     sl_txnid sl = t -> i < rdt_length k -> sl_pid sl = pid_of i -> sl_tid sl <> MDBX_TID_TXN_OUSTED ->
     cached_oldest_txnid k <= t -> res <= t -> writer_spares (steady_id tr) res w i t ->
     cached_oldest_txnid k' <= t /\ res' <= t /\ writer_spares (steady_id tr') res' w' i t) ->
  inv (mk_mvcc m' k' w' tr' res' rs).
Proof.
  intros [Ho Hw Hl He] Hr Hn HC HR HM Hw' Hsp. constructor; cbn in *; [lia|done|by rewrite Hr, Hn|].
  rewrite Hr. intros i sl r Hi Hri. destruct (He i sl r Hi Hri) as [E1 E2 E3 E4]. constructor; rewrite ?Hn; try done.
  intros t Ht. destruct (E4 t Ht) as (H1 & H2 & H3 & H4). split; [done|].
  assert (is_bound r = true) as Hb by (by destruct r). destruct (E1 Hb). eapply Hsp; try done.
  by eapply relies_tid.
Qed.

(** A change of a slot on which nobody relies afterwards but who did before. *)
Lemma inv_slot_step m k w tr res rs j sl sl' :
  inv (mk_mvcc m k w tr res rs) -> zget (rdt k) j = Some sl -> sl_pid sl' = sl_pid sl ->
  (forall r, own_tid r = true -> sl_tid sl = owner_of j -> sl_tid sl' = owner_of j) ->
  (forall r t, zget rs j = Some r -> entry_ok k w (steady_id tr) res j sl r -> relies r sl' = Some t ->
     relies r sl = Some t /\ sl_txnid sl' = sl_txnid sl) ->
  inv (mk_mvcc m (set_slot k j sl') w tr res rs).
Proof.
  intros [Ho Hw Hl He] Hj Hp Ht Hrel. pose proof (zget_range _ _ _ Hj) as Hr. constructor; cbn in *; [lia|done|by rewrite zlen_zupd|].
  intros i sli r Hi Hri. destruct (decide (i = j)) as [->|Hne].
  - rewrite zget_zupd_eq in Hi by done. injection Hi as <-. pose proof (He j sl r Hj Hri) as Hok.
    destruct (Hok) as [E1 E2 E3 E4]. constructor; cbn; rewrite ?Hp; try done.
    + intros H. eapply Ht; [done|]. by apply E2.
    + intros t H. destruct (Hrel r t Hri Hok H) as [H1 H2]. rewrite H2. by apply E4.
  - rewrite zget_zupd_ne in Hi by (lia || congruence). destruct (He i sli r Hi Hri). by constructor.
Qed.

Lemma inv_scan_table m k pc l k' pc' l' tr res rs :
  pc <> WKick -> inv (mk_mvcc m k (WScan pc l) tr res rs) ->
  wstep retired_of (steady_id tr) k pc l = Some (k', pc', l') ->
  inv (mk_mvcc m k' (WScan pc' l') tr res rs).
Proof.
  intros Hpc Hinv H. pose proof Hinv as [Ho Hw Hl He]. cbn in Ho, Hw, Hl, He. destruct Hw as [-> Hs].
  unfold wstep in H. destruct pc; try done; cbn in Hs.
  all: repeat match type of H with
    | context [zget ?b ?i] => destruct (zget b i) as [sl|] eqn:Hsl; [cbn in H|discriminate H]
    | context [sc_trusted ?S ?c] =>
      replace (sc_trusted S c) with (sc_prev c) in H by (unfold sc_trusted; destruct (Z.ltb_spec S (sc_prev c)); lia)
    | context [if ?b then _ else _] => let E := fresh "E" in destruct b eqn:E
    end.
  all: try discriminate H; injection H as <- <- <-.
  all: eapply (inv_writer_step _ _ _ _ _ _ _ _ _ _ _ Hinv); cbn; try reflexivity; try lia; try (split; [done|]; cbn; lia).
  all: intros i sli r t Hi Hri Hrel Htx Hin Hpid Htid HC HR Hsp; pose proof (pid_ok i); pose proof (zget_range _ _ _ Hi);
    pose proof (rdt_count_length k (proj2 Hl));
    split; [lia|split; [lia|]]; cbn in Hsp |- *; try done; try lia.
  all: destruct (decide (i = sc_i l)) as [->|Hne]; simplify_eq; try lia.
Qed.

(** Taking the id from a slot: of whoever lags behind what is relied on. *)
Lemma inv_reset m k w tr res rs j c b k' :
  inv (mk_mvcc m k w tr res rs) -> safe64_reset_compare k j c = Some (b, k') ->
  (forall sl r t, zget (rdt k) j = Some sl -> zget rs j = Some r -> relies r sl = Some t ->
     cached_oldest_txnid k <= t -> writer_spares (steady_id tr) res w j t -> c <> t) ->
  inv (mk_mvcc m k' w tr res rs) /\ rdt_length k' = rdt_length k /\ cached_oldest_txnid k' = cached_oldest_txnid k.
Proof.
  intros Hinv H Hc. unfold safe64_reset_compare in H. destruct (zget (rdt k) j) as [sl|] eqn:Hsl; [|discriminate H].
  cbn in H. destruct (Z.eqb_spec (sl_txnid sl) c) as [<-|]; injection H as <- <-; [|done].
  split; [|done]. eapply inv_slot_step; [done|done|done|done|]. intros r t Hr Hok Hrel.
  exfalso. destruct Hok as [_ _ E3 E4].
  assert (relies r sl = Some t) as Hrel'.
  { destruct r; try done; cbn [relies put_txnid sl_txnid] in Hrel, E3; exfalso; destruct (Z.eqb_spec UINT64_MAX (recent_id tr0)) as [E|]; try discriminate Hrel;
      rewrite <- E in E3; by vm_compute in E3. }
  destruct (E4 t Hrel') as (H1 & H2 & _ & H4). by eapply (Hc sl r t).
Qed.

Lemma inv_scan m k pc l k' pc' l' tr res rs :
  inv (mk_mvcc m k (WScan pc l) tr res rs) -> wstep retired_of (steady_id tr) k pc l = Some (k', pc', l') ->
  inv (mk_mvcc m k' (WScan pc' l') tr res rs).
Proof.
  intros Hinv H. destruct (decide (pc = WKick)) as [->|Hpc]; [|by eapply inv_scan_table].
  pose proof Hinv as [Ho [Htr Hs] Hl He]. cbn in Ho, Htr, Hs, Hl, He. cbn in H.
  destruct (safe64_reset_compare k (sc_i l) (sc_reader_txnid l)) as [[b k1]|] eqn:Hr; [|discriminate H].
  cbn in H. injection H as <- <- <-.
  destruct (inv_reset m k (WScan WKick l) tr res rs _ _ _ _ Hinv Hr) as (Hinv' & Hlen & HC).
  { intros. lia. }
  rewrite Htr in *. eapply (inv_writer_step _ _ _ _ _ _ _ _ _ _ _ Hinv'); cbn; try reflexivity; try lia.
  split; [done|]. cbn. lia.
Qed.

Ltac writer_moves H :=
  eapply (inv_writer_step _ _ _ _ _ _ _ _ _ _ _ H); cbn;
  try reflexivity; try lia; try done; try (split; [done|]; cbn; lia); try (intros; split_and!; done || lia).

Lemma inv_oust m k pc i k' next tr res rs :
  inv (mk_mvcc m k (WOust pc i) tr res rs) -> ostep res k pc i = Some (k', next) ->
  inv (mk_mvcc m k' (match next with Some (pc, i) => WOust pc i | None => WIdle end) tr res rs).
Proof.
  intros Hinv H. pose proof Hinv as [Ho [Htr Hs] Hl He]. cbn in Ho, Htr, Hs, Hl, He. rewrite Htr in *.
  destruct (decide (pc = OCasTxnid)) as [->|Hpc].
  { cbn in H. destruct (safe64_reset_compare k i res) as [[b k1]|] eqn:Hr; [|discriminate H]. cbn in H. injection H as <- <-.
    destruct (inv_reset m k (WOust OCasTxnid i) m res rs _ _ _ _ Hinv Hr) as (Hinv' & Hlen & HC).
    { cbn. intros sl r t _ _ _ _ Hsp. specialize (Hsp eq_refl). lia. }
    writer_moves Hinv'. }
  assert (forall pc' i' rs', (pc' = OCasTxnid -> False) -> inv (mk_mvcc m k (WOust pc i) m res rs') ->
    inv (mk_mvcc m k (WOust pc' i') m res rs')) as Hmove.
  { intros pc' i' rs' Hne Hi'. eapply (inv_writer_step _ _ _ _ _ _ _ _ _ _ _ Hi'); cbn; try reflexivity; try lia; [done|].
    intros. split; [lia|]. split; [lia|]. by destruct pc'. }
  unfold ostep in H. destruct pc; try done.
  all: repeat match type of H with
    | context [zget ?b ?i] => destruct (zget b i) as [sl|] eqn:Hsl; [cbn in H|discriminate H]
    | context [if ?b then _ else _] => let E := fresh "E" in destruct b eqn:E
    end.
  all: injection H as <- <-; try (by apply Hmove).
  - writer_moves Hinv.
  - apply Z.eqb_eq in E. set (sl' := put_tid MDBX_TID_TXN_OUSTED sl).
    assert (inv (mk_mvcc m (set_slot k i sl') (WOust OCasTid i) m res rs)) as Hinv'.
    { eapply inv_slot_step; [done|done|done| |].
      - intros r _ Ht. pose proof (owner_ok i). rewrite E in Ht. rewrite <- Ht in *. by vm_compute in H.
      - intros r t Hr Hok Hrel. split; [|done]. by destruct r. }
    eapply (inv_writer_step _ _ _ _ _ _ _ _ _ _ _ Hinv'); cbn; try reflexivity; try lia; [done|].
    intros j slj r t Hj Hrj Hrel Htx Hin Hpid Htid HC HR Hsp. split; [lia|]. split; [lia|]. intros <-.
    rewrite zget_zupd_eq in Hj by (eapply zget_range; done). injection Hj as <-. by destruct Htid.
Qed.

Lemma inv_step s s' : inv s -> mvcc_step used_of retired_of owner_of pid_of s s' -> inv s'.
Proof.
  intros Hinv Hst. pose proof Hinv as [Ho Hw Hl He].
  destruct Hst; cbn in Ho, Hw, Hl, He.
  - by eapply inv_reader.
  - writer_moves Hinv.
  - writer_moves Hinv.
  - by eapply inv_scan.
  - destruct Hw as [Htr Hs]. cbn in Hs. rewrite Htr in Hs.
    writer_moves Hinv.
  - rewrite Hw in *. writer_moves Hinv.
  - by eapply inv_oust.
  - writer_moves Hinv.
  - destruct steady; writer_moves Hinv.
  - writer_moves Hinv.
Qed.
End Invariant.

Section Schedules.
Context (used_of retired_of owner_of pid_of : Z -> Z).

Lemma do_act_step s a s' :
  do_act used_of retired_of owner_of pid_of s a = Some s' -> mvcc_step used_of retired_of owner_of pid_of s s'.
Proof.
  destruct s as [m k w tr res rs]. intros H.
  destruct a as [i ev| | | | | | | |steady|]; cbn in H.
  - destruct (zget rs i) as [r|] eqn:Er; [|discriminate H]; cbn in H.
    destruct (rstep used_of retired_of owner_of pid_of i m k ev r) as [[k1 r1]|] eqn:Es; [|discriminate H].
    cbn in H. injection H as <-. by econstructor.
  - destruct w; try discriminate H. injection H as <-. constructor.
  - destruct w; try discriminate H. injection H as <-. constructor.
  - destruct w as [| |pc l|]; try discriminate H.
    destruct (wstep retired_of (steady_id tr) k pc l) as [[[k1 pc1] l1]|] eqn:Es; [|discriminate H].
    cbn in H. injection H as <-. by constructor.
  - destruct w as [| |[] l|]; try discriminate H. injection H as <-. constructor.
  - destruct w; try discriminate H. destruct (Z.eqb_spec res (steady_id tr)); [discriminate H|]. injection H as <-. by constructor.
  - destruct w as [| | |pc i]; try discriminate H.
    destruct (ostep res k pc i) as [[k1 next]|] eqn:Es; [|discriminate H]. cbn in H. injection H as <-. by constructor.
  - destruct w; try discriminate H. injection H as <-. constructor.
  - destruct w; try discriminate H. destruct (Z.leb_spec (recent_id m + 1) MAX_TXNID); [|discriminate H].
    injection H as <-. by constructor.
  - destruct w; try discriminate H. injection H as <-. constructor.
Qed.

Lemma do_acts_rtc s l s' :
  do_acts used_of retired_of owner_of pid_of s l = Some s' -> rtc (mvcc_step used_of retired_of owner_of pid_of) s s'.
Proof.
  revert s. induction l as [|a l IH]; intros s H; cbn [do_acts] in H; [by injection H as ->|].
  destruct (do_act used_of retired_of owner_of pid_of s a) as [s1|] eqn:E; [|discriminate H].
  eapply rtc_l; [by eapply do_act_step|]. by apply IH.
Qed.
End Schedules.

(** ** What the writer answers *)

(** The oldest snapshot in the slots that are in use and do not lag behind. *)
Definition oldest_in (prev steady : Z) (l : list reader_slot) : Z :=
  foldl (fun o sl => if (sl_pid sl =? 0) || (sl_txnid sl <? prev) then o else Z.min (sl_txnid sl) o) steady l.

Section ScanAlone.
Context (retired_of : Z -> Z) (steady : Z).

Lemma wrun_add n n' k pc l k1 pc1 l1 :
  wrun retired_of n steady k pc l = Some (k1, pc1, l1) ->
  wrun retired_of (n + n') steady k pc l = wrun retired_of n' steady k1 pc1 l1.
Proof.
  revert k pc l. induction n as [|n IH]; intros k pc l H; cbn in H |- *; [by injection H as -> -> ->|].
  destruct (wstep retired_of steady k pc l) as [[[k2 pc2] l2]|]; [|discriminate H]. cbn in H |- *. by apply IH.
Qed.

Lemma oldest_in_prev prev l : oldest_in prev prev l = prev.
Proof.
  unfold oldest_in. induction l as [|sl l IH]; [done|]. cbn [foldl].
  destruct (Z.eqb_spec (sl_pid sl) 0); [done|]. destruct (Z.ltb_spec (sl_txnid sl) prev); [done|]. cbn.
  by rewrite Z.min_r by lia.
Qed.

Lemma oldest_in_range prev o l : prev <= o -> prev <= oldest_in prev o l <= o.
Proof.
  unfold oldest_in. revert o. induction l as [|sl l IH]; intros o Ho; cbn [foldl]; [lia|].
  destruct (Z.eqb_spec (sl_pid sl) 0); [by apply IH|]. destruct (Z.ltb_spec (sl_txnid sl) prev); [by apply IH|]. cbn.
  specialize (IH (Z.min (sl_txnid sl) o)). lia.
Qed.

(** What the scan compares the slots with: the previous answer, unless that is
    younger than the steady version. *)
Definition trusted (prev : Z) : Z := if steady <? prev then MIN_TXNID else prev.

(** A scan at slot [i] whose table is [k]. *)
Record scanning (prev n i : Z) (k : lck_t) (l : scan_t) : Prop := {
  sg_prev : sc_prev l = prev;
  sg_n : sc_nreaders l = n;
  sg_i : sc_i l = i;
  sg_oldest : sc_oldest l <= steady /\ (steady < prev \/ prev <= sc_oldest l);
  sg_flag : rdt_refresh_flag k = NOTHING_CHANGED_SIGNATURE;
}.

(** What the scan keeps of the table: the slots from [i] on, and all but the ids
    in the others. *)
Definition same_from (i : Z) (k k' : lck_t) : Prop :=
  zlen (rdt k') = zlen (rdt k) /\ rdt_length k' = rdt_length k /\ cached_oldest_txnid k' = cached_oldest_txnid k /\
  rdt_refresh_flag k' = rdt_refresh_flag k /\ forall j, i <= j -> zget (rdt k') j = zget (rdt k) j.

(** The loads of one slot. *)
Lemma scan_slot_loads i k l sl :
  sc_i l = i -> (sc_i l <? sc_nreaders l) = true -> zget (rdt k) i = Some sl -> sl_pid sl <> 0 ->
  exists l1, wrun retired_of 4 steady k WSlotPid l = Some (k, WSlotTxnid2, l1) /\
    sc_oldest_retired l1 = sc_oldest_retired l /\ sc_prev l1 = sc_prev l /\ sc_oldest l1 = sc_oldest l /\ sc_i l1 = i /\
    sc_nreaders l1 = sc_nreaders l /\ sc_reader_txnid l1 = sl_txnid sl.
Proof.
  intros <- Ei Hsl Ep.
  exists (mk_scan (sc_prev l) (sc_oldest l) (sc_oldest_retired l) (sc_nreaders l) (sc_i l) (sl_retired sl) (sl_txnid sl)).
  split; [|done].
  cbn [wrun wstep]. rewrite Ei, Hsl. cbn [mbind option_bind]. rewrite (proj2 (Z.eqb_neq _ _) Ep).
  do 3 (cbn [wrun wstep mbind option_bind sc_i sc_reader_retired]; rewrite Hsl).
  cbn [wrun wstep mbind option_bind sc_i sc_reader_retired]. by rewrite Z.eqb_refl.
Qed.

(** One slot: the scan goes on behind it, or has found the previous answer. *)
Lemma scan_slot prev n i k l sl :
  scanning prev n i k l -> i < n -> zget (rdt k) i = Some sl ->
  exists m k' pc' l', wrun retired_of m steady k WSlotPid l = Some (k', pc', l') /\ same_from (i + 1) k k' /\
    sc_oldest l' = oldest_in (trusted prev) (sc_oldest l) [sl] /\
    (pc' = WSlotPid /\ scanning prev n (i + 1) k' l' \/ pc' = WTest false /\ sc_oldest l' = prev /\ sc_prev l' = prev /\ prev <= steady).
Proof.
  intros [H1 H2 H3 H4 H5] Hi Hsl.
  pose proof (zget_range _ _ _ Hsl) as Hr. unfold oldest_in. cbn [foldl].
  assert (Ei : (sc_i l <? sc_nreaders l) = true) by (apply Z.ltb_lt; lia).
  destruct (Z.eqb_spec (sl_pid sl) 0) as [Ep|Ep]; cbn [orb].
  { exists 1%nat, k, WSlotPid, (scan_next l). cbn [wrun wstep]. rewrite Ei, H3, Hsl. cbn. rewrite (proj2 (Z.eqb_eq _ _) Ep).
    split; [done|]. split; [done|]. split; [done|]. left. split; [done|]. by constructor; cbn; try lia. }
  destruct (scan_slot_loads i k l sl H3 Ei Hsl Ep) as [l1 (El & L0 & L1 & L2 & L3 & L4 & L5)].
  destruct (Z.ltb_spec (sl_txnid sl) (trusted prev)) as [El1|El1].
  { exists (4 + 3)%nat, (set_slot k i (put_txnid UINT64_MAX sl)), WSlotPid, (scan_next l1).
    split; [|split; [|split; [done|left; split; [done|by constructor; cbn; lia]]]].
    - rewrite (wrun_add 4 3 _ _ _ _ _ _ El). cbn [wrun wstep]. rewrite L3, Hsl. cbn [mbind option_bind].
      replace (sc_trusted steady l1) with (trusted prev) by (unfold sc_trusted, trusted; by rewrite L1, H1).
      rewrite L5, Z.eqb_refl, (proj2 (Z.ltb_lt _ _) El1). cbn [wrun wstep mbind option_bind]. rewrite H5, Z.eqb_refl.
      cbn [wrun wstep mbind option_bind]. unfold safe64_reset_compare. rewrite L3, L5, Hsl. cbn [mbind option_bind].
      by rewrite Z.eqb_refl.
    - split; [apply zlen_zupd|]. split; [done|]. split; [done|]. split; [done|]. intros j Hj. apply zget_zupd_ne; lia. }
  assert (Hgo : forall pc' l', wrun retired_of 1 steady k WSlotTxnid2 l1 = Some (k, pc', l') ->
    sc_oldest l' = Z.min (sl_txnid sl) (sc_oldest l) ->
    (pc' = WSlotPid /\ scanning prev n (i + 1) k l' \/ pc' = WTest false /\ sc_oldest l' = prev /\ sc_prev l' = prev /\ prev <= steady) ->
    exists m k' pc' l', wrun retired_of m steady k WSlotPid l = Some (k', pc', l') /\ same_from (i + 1) k k' /\
      sc_oldest l' = Z.min (sl_txnid sl) (sc_oldest l) /\
      (pc' = WSlotPid /\ scanning prev n (i + 1) k' l' \/ pc' = WTest false /\ sc_oldest l' = prev /\ sc_prev l' = prev /\ prev <= steady)).
  { intros pc' l' E Eo Hor. exists (4 + 1)%nat, k, pc', l'. split; [|done]. by rewrite (wrun_add 4 1 _ _ _ _ _ _ El). }
  assert (E1 : sc_trusted steady l1 = trusted prev) by (unfold sc_trusted, trusted; by rewrite L1, H1).
  assert (Hpt : prev <= sl_txnid sl \/ steady < prev) by (unfold trusted in El1; destruct (Z.ltb_spec steady prev); lia).
  destruct (Z.ltb_spec (sl_txnid sl) (sc_oldest l)) as [Eo|Eo].
  - destruct (Z.eqb_spec (sl_txnid sl) prev) as [Epr|Epr]; eapply Hgo.
    + cbn [wrun wstep]. rewrite L3, Hsl. cbn [mbind option_bind]. rewrite E1, L2, L5, Z.eqb_refl, L1, H1.
      rewrite (proj2 (Z.ltb_ge _ _) El1), (proj2 (Z.ltb_lt _ _) Eo). cbn [sc_oldest sc_prev].
      by rewrite (proj2 (Z.eqb_eq _ _) Epr).
    + cbn. lia.
    + right. cbn. split_and!; done || lia.
    + cbn [wrun wstep]. rewrite L3, Hsl. cbn [mbind option_bind]. rewrite E1, L2, L5, Z.eqb_refl, L1, H1.
      rewrite (proj2 (Z.ltb_ge _ _) El1), (proj2 (Z.ltb_lt _ _) Eo). cbn [sc_oldest sc_prev].
      by rewrite (proj2 (Z.eqb_neq _ _) Epr).
    + cbn. lia.
    + left. split; [done|]. constructor; cbn; lia || done.
  - eapply Hgo.
    + cbn [wrun wstep]. rewrite L3, Hsl. cbn [mbind option_bind]. rewrite E1, L2, L5, Z.eqb_refl, L1, H1.
      by rewrite (proj2 (Z.ltb_ge _ _) El1), (proj2 (Z.ltb_ge _ _) Eo).
    + cbn. lia.
    + left. split; [done|]. constructor; cbn; lia || done.
Qed.

Lemma scan_slots prev n k0 d : n <= zlen (rdt k0) -> forall i k l,
  d = Z.to_nat (n - i) -> 0 <= i <= n -> scanning prev n i k l -> same_from i k0 k ->
  exists m k' l', wrun retired_of m steady k WSlotPid l = Some (k', WTest false, l') /\ same_from n k0 k' /\
    sc_prev l' = prev /\ sc_oldest l' = oldest_in (trusted prev) (sc_oldest l) (drop (Z.to_nat i) (take (Z.to_nat n) (rdt k0))).
Proof.
  intros Hn. induction d as [|d IH]; intros i k l Hd Hi Hg Hk.
  { assert (i = n) as -> by lia. exists 1%nat, k, l. destruct Hg as [H1 H2 H3 H4 H5]. cbn [wrun wstep].
    rewrite (proj2 (Z.ltb_ge _ _)) by lia. split; [done|]. split; [done|]. split; [done|].
    rewrite drop_ge; [done|]. rewrite length_take. lia. }
  destruct Hk as (K1 & K2 & K3 & K4 & K5).
  destruct (zget_in (rdt k0) i) as [sl Hsl]; [lia|].
  assert (drop (Z.to_nat i) (take (Z.to_nat n) (rdt k0)) = sl :: drop (Z.to_nat (i + 1)) (take (Z.to_nat n) (rdt k0))) as Edrop.
  { replace (Z.to_nat (i + 1)) with (S (Z.to_nat i)) by lia. apply drop_S. rewrite lookup_take_lt by lia.
    by rewrite <- zget_lookup, Z2Nat.id by lia. }
  destruct (scan_slot prev n i k l sl) as (m & k1 & pc1 & l1 & E & (J1 & J2 & J3 & J4 & J5) & Eo & Hor); [done|lia|by rewrite K5 by lia|].
  assert (same_from (i + 1) k0 k1) as Hk1.
  { split; [congruence|]. split; [congruence|]. split; [congruence|]. split; [congruence|]. intros j Hj. rewrite J5, K5 by lia. done. }
  assert (oldest_in (trusted prev) (sc_oldest l) (drop (Z.to_nat i) (take (Z.to_nat n) (rdt k0))) =
          oldest_in (trusted prev) (sc_oldest l1) (drop (Z.to_nat (i + 1)) (take (Z.to_nat n) (rdt k0)))) as Eold.
  { rewrite Edrop, Eo. done. }
  rewrite Eold. destruct Hor as [[-> Hg1]|(-> & Ho1 & Hp1 & Hs1)].
  - destruct (IH (i + 1) k1 l1) as (m2 & k2 & l2 & E2 & Hk2 & Hp2 & Ho2); [lia|lia|done|done|].
    exists (m + m2)%nat, k2, l2. by rewrite (wrun_add _ _ _ _ _ _ _ _ E).
  - exists m, k1, l1. split; [done|]. split.
    { destruct Hk1 as (? & ? & ? & ? & Hj). split_and!; try done. intros j Hjn. apply Hj. lia. }
    split; [done|]. unfold trusted.
    by rewrite Ho1, (proj2 (Z.ltb_ge _ _) Hs1), oldest_in_prev.
Qed.

(** The whole call, with nobody else moving. *)
Lemma scan_alone k l :
  0 <= rdt_length k <= zlen (rdt k) -> steady < cached_oldest_txnid k \/ rdt_refresh_flag k <> NOTHING_CHANGED_SIGNATURE ->
  exists m k' l', wrun retired_of m steady k WLoadRetired l = Some (k', WReturn, l') /\
    sc_oldest l' = oldest_in (trusted (cached_oldest_txnid k)) steady (take (Z.to_nat (rdt_length k)) (rdt k)) /\
    cached_oldest_txnid k' = sc_oldest l' /\ rdt_refresh_flag k' = NOTHING_CHANGED_SIGNATURE.
Proof.
  intros Hn Hf. set (prev := cached_oldest_txnid k). set (k1 := set_flag k NOTHING_CHANGED_SIGNATURE).
  set (l1 := mk_scan prev steady (retired_of steady) (rdt_length k) 0 0 0).
  assert (wrun retired_of 5 steady k WLoadRetired l = Some (k1, WSlotPid, l1)) as E1.
  { cbn [wrun wstep mbind option_bind]. destruct (Z.ltb_spec steady (cached_oldest_txnid k)) as [HC|HC];
      cbn [wrun wstep mbind option_bind]; [by rewrite rdt_count_length|].
    rewrite (proj2 (Z.eqb_neq (rdt_refresh_flag k) _)) by (destruct Hf; [lia|done]).
    cbn [wrun wstep mbind option_bind]. by rewrite rdt_count_length. }
  destruct (scan_slots prev (rdt_length k) k1 (Z.to_nat (rdt_length k - 0))) with (i := 0) (k := k1) (l := l1)
    as (m & k2 & l2 & E2 & (J1 & J2 & J3 & J4 & J5) & Hp & Ho); [cbn; lia|lia|lia| | |].
  { constructor; cbn; done || lia. }
  { done. }
  cbn in J3, J4, Ho. rewrite drop_0 in Ho.
  destruct (Z.eqb_spec (sc_oldest l2) (sc_prev l2)) as [Eq|Eq].
  - exists (5 + (m + 1))%nat, k2, l2. rewrite (wrun_add _ _ _ _ _ _ _ _ E1), (wrun_add _ _ _ _ _ _ _ _ E2).
    cbn [wrun wstep]. rewrite J4, Z.eqb_refl, (proj2 (Z.eqb_eq _ _) Eq). split; [done|]. split; [done|]. split; [|done].
    rewrite Eq, Hp. done.
  - exists (5 + (m + 3))%nat. do 2 eexists. rewrite (wrun_add _ _ _ _ _ _ _ _ E1), (wrun_add _ _ _ _ _ _ _ _ E2).
    cbn [wrun wstep]. rewrite J4, Z.eqb_refl, (proj2 (Z.eqb_neq _ _) Eq). split; [reflexivity|]. by cbn.
Qed.

(** Nothing has changed since the last call. *)
Lemma scan_skipped k l :
  cached_oldest_txnid k <= steady -> rdt_refresh_flag k = NOTHING_CHANGED_SIGNATURE ->
  exists l', wrun retired_of 3 steady k WLoadRetired l = Some (k, WReturn, l') /\ sc_oldest l' = cached_oldest_txnid k.
Proof.
  intros HC Hf. eexists. cbn [wrun wstep mbind option_bind]. rewrite (proj2 (Z.ltb_ge _ _) HC).
  cbn [wrun wstep mbind option_bind]. rewrite Hf, Z.eqb_refl. cbn [sc_oldest sc_prev]. by rewrite Z.eqb_refl.
Qed.
End ScanAlone.

Lemma oldest_in_advances prev o l :
  prev < o -> (forall sl, sl ∈ l -> sl_pid sl <> 0 -> sl_txnid sl <> prev) -> prev < oldest_in prev o l.
Proof.
  unfold oldest_in. revert o. induction l as [|sl l IH]; intros o Ho Hl; cbn [foldl]; [done|].
  assert (forall x, x ∈ l -> sl_pid x <> 0 -> sl_txnid x <> prev) as Hl' by (intros x Hx; apply Hl; by right).
  pose proof (Hl sl ltac:(by left)) as Hsl.
  destruct (Z.eqb_spec (sl_pid sl) 0); [by apply IH|]. destruct (Z.ltb_spec (sl_txnid sl) prev); [by apply IH|].
  cbn. apply IH; [|done]. lia.
Qed.

(** A reader that nobody disturbs gets the recent snapshot. *)
Section SeizeAlone.
Context (used_of retired_of owner_of pid_of : Z -> Z) (i : Z) (m : metas).

Lemma rrun_S n k r k' r' :
  rstep used_of retired_of owner_of pid_of i m k Go r = Some (k', r') ->
  rrun used_of retired_of owner_of pid_of (S n) i m k r = rrun used_of retired_of owner_of pid_of n i m k' r'.
Proof. intros H. cbn [rrun]. by rewrite H. Qed.

Lemma zget_set_slot k sl sl' : zget (rdt k) i = Some sl -> zget (rdt (set_slot k i sl')) i = Some sl'.
Proof. intros H. cbn. apply zget_zupd_eq. by eapply zget_range. Qed.

Ltac rgo E := erewrite rrun_S; [|unfold rstep, bind_step, seize_step, go, stay, in_slot; rewrite E; cbn [mbind option_bind]; rewrite ?E; reflexivity].
Ltac in_next E f := match type of E with _ = Some ?x => apply (zget_set_slot _ _ (f x)) in E end.

Lemma seize_alone k :
  0 <= i < zlen (rdt k) -> cached_oldest_txnid k <= recent_id m ->
  exists k', rrun used_of retired_of owner_of pid_of 11 i m k RTap = Some (k', RActive (recent_id m)).
Proof.
  intros Hi HC. destruct (zget_in _ _ Hi) as [sl Hsl].
  rgo Hsl. rgo Hsl. in_next Hsl (put_txnid UINT64_MAX). rgo Hsl. rgo Hsl. in_next Hsl (put_used (used_of (recent_id m))).
  rgo Hsl. in_next Hsl (put_retired (retired_of (recent_id m))). rgo Hsl. in_next Hsl (put_txnid (recent_id m)). rgo Hsl.
  match goal with |- context [set_flag ?x 1] => set (k1 := set_flag x 1) end.
  assert (exists sl1, zget (rdt k1) i = Some sl1 /\ sl_txnid sl1 = recent_id m) as (sl1 & H1 & Ht) by (by eexists).
  assert (cached_oldest_txnid k1 <= recent_id m) as HC1 by done. clearbody k1. exists k1.
  rewrite (rrun_S _ _ _ k1 (RFetch m 0)). 2:{ unfold rstep, seize_step, stay. rewrite H1. cbn [mbind option_bind]. by rewrite decide_True. }
  rgo H1. rewrite (rrun_S _ _ _ k1 (RSlot m 0)).
  2:{ unfold rstep, seize_step, stay. rewrite H1. cbn [mbind option_bind]. by rewrite (proj2 (Z.ltb_ge _ _) HC1). }
  rewrite (rrun_S _ _ _ k1 (RActive (recent_id m))); [done|].
  unfold rstep, seize_step, stay. rewrite H1. cbn [mbind option_bind]. by rewrite Ht, Z.eqb_refl.
Qed.
End SeizeAlone.

(** ** Claims *)

(** C3: a snapshot in use stays. In every interleaving of one writer, which
    scans the table for the oldest snapshot, evicts parked readers and commits,
    with readers that start, end, park, resume and die: while a reader has a
    transaction, its slot holds the id of the snapshot, and neither the cached
    oldest id nor an answer given to the writer is younger. *)
Theorem readers_keep_their_snapshot used_of retired_of owner_of pid_of s0 s i t :
  (forall j, owner_of j < MDBX_TID_TXN_OUSTED) -> (forall j, pid_of j <> 0) ->
  mvcc_init s0 -> rtc (mvcc_step used_of retired_of owner_of pid_of) s0 s -> zget (mv_readers s) i = Some (RActive t) ->
  exists sl, zget (rdt (mv_lck s)) i = Some sl /\ sl_txnid sl = t /\ sl_pid sl = pid_of i /\
    cached_oldest_txnid (mv_lck s) <= t /\ mv_result s <= t /\
    forall l, mv_writer s = WScan WReturn l -> sc_oldest l <= t.
Proof.
  intros Ho Hp Hi Hst Ha.
  assert (inv owner_of pid_of s) as [_ _ Hl He].
  { apply (inv_init owner_of pid_of) in Hi. clear Ha. induction Hst as [|s0 s1 s2 H1 _ IH]; [done|]. apply IH. by eapply inv_step. }
  pose proof (zget_range _ _ _ Ha) as Hr. destruct (zget_in (rdt (mv_lck s)) i) as [sl Hsl]; [lia|].
  destruct (He i sl _ Hsl Ha) as [E1 _ _ E4]. destruct (E4 t eq_refl) as (H1 & H2 & H3 & H4).
  exists sl. split; [done|]. split; [done|]. split; [by apply E1|]. split; [done|]. split; [done|].
  intros l Hw. by rewrite Hw in H4.
Qed.

(** Readers start on the versions 5 and 6, the writer commits 6 and 7; the
    first reader parks and is evicted, the other one keeps version 6. *)
Definition sample_mvcc : mvcc :=
  mk_mvcc (mk_metas 5 4) (mk_lck 0 0 3 0 (replicate 2 (mk_slot UINT64_MAX 0 0 0 0))) WOut (mk_metas 0 0) 3 (replicate 2 RFree).
Definition sample_go (i : Z) (n : nat) : list act := replicate n (AReader i Go).
Definition sample_scan : list act := [ACall] ++ replicate 19 AScan ++ [AReturn].
Definition sample_acts : list act :=
  sample_go 0 6 ++ [AReader 0 Start] ++ sample_go 0 11 ++ [ABegin; ACommit true] ++
  sample_go 1 6 ++ [AReader 1 Start] ++ sample_go 1 11 ++ [ABegin; ACommit true; ABegin] ++ sample_scan ++
  [AReader 0 Park] ++ sample_go 0 5 ++ [AEvict] ++ replicate 7 AOust ++ sample_scan.

Lemma sample_mvcc_init : mvcc_init sample_mvcc.
Proof. unfold mvcc_init. cbn. repeat split; try done; try lia. repeat constructor. Qed.

Lemma readers_keep_their_snapshot_witness :
  exists s, do_acts id id (fun _ => 7) (fun _ => 9) sample_mvcc sample_acts = Some s /\
    mv_readers s = [RParked 5; RActive 6] /\ mv_metas s = mk_metas 7 7 /\ mv_result s = 6 /\
    exists sl, zget (rdt (mv_lck s)) 1 = Some sl /\ sl_txnid sl = 6 /\ sl_pid sl = 9 /\
      cached_oldest_txnid (mv_lck s) <= 6 /\ mv_result s <= 6 /\
      forall l, mv_writer s = WScan WReturn l -> sc_oldest l <= 6.
Proof.
  destruct (do_acts id id (fun _ => 7) (fun _ => 9) sample_mvcc sample_acts) as [s|] eqn:E; [|by vm_compute in E].
  exists s. pose proof (do_acts_rtc _ _ _ _ _ _ _ E) as Hst.
  assert (mv_readers s = [RParked 5; RActive 6] /\ mv_metas s = mk_metas 7 7 /\ mv_result s = 6) as (H1 & H2 & H3)
    by (vm_compute in E; by injection E as <-).
  split; [done|]. split; [done|]. split; [done|]. split; [done|].
  apply (readers_keep_their_snapshot id id (fun _ => 7) (fun _ => 9) sample_mvcc s 1 6); [done|done|apply sample_mvcc_init|done|by rewrite H1].
Defined.



(** ** Cloning a reader

    [txn_ro_clone] of a transaction that is not parked publishes the snapshot of
    the origin (slot [j]) in the slot [i] without raising the flag. A scan that
    has passed the slot [i] already, and comes to slot [j] when the origin has
    given up its id but has not raised the flag yet, misses the snapshot: the
    answer is younger than the snapshot of the clone, which has been told that
    all is well. *)
Definition ro_clone (k : lck_t) (i j t : Z) : option (lck_t * bool) :=
origin ← zget (rdt k) j;
k ← in_slot k i (put_used (sl_used origin));
k ← in_slot k i (put_retired (sl_retired origin));
k ← in_slot k i (put_txnid t);
sl ← zget (rdt k) i;
Some (k, (t =? sl_txnid sl) && negb (t <? cached_oldest_txnid k)).

(** Both slots are bound, the second reader is on version 5, the version 6 is
    committed, and the scan has passed the first slot. *)
Definition race_before : list act :=
  sample_go 0 6 ++ sample_go 1 6 ++ [AReader 1 Start] ++ sample_go 1 11 ++ [ABegin; ACommit true; ABegin; ACall] ++ replicate 10 AScan.
(** The origin ends its transaction, except for the flag, and the scan goes on. *)
Definition race_after : list act := [AReader 1 End] ++ sample_go 1 2 ++ replicate 9 AScan ++ [AReturn].

Lemma clone_misses_the_scan :
  exists s1 k2 s3, do_acts id id (fun _ => 7) (fun _ => 9) sample_mvcc race_before = Some s1 /\
    mv_readers s1 = [RBound; RActive 5] /\ ro_clone (mv_lck s1) 0 1 5 = Some (k2, true) /\
    do_acts id id (fun _ => 7) (fun _ => 9)
      (mk_mvcc (mv_metas s1) k2 (mv_writer s1) (mv_tr s1) (mv_result s1) [RActive 5; RActive 5]) race_after = Some s3 /\
    mv_readers s3 = [RActive 5; REndFlag] /\ cached_oldest_txnid (mv_lck s3) = 6 /\ mv_result s3 = 6.
Proof. do 3 eexists. split; [vm_compute; reflexivity|]. split; [reflexivity|]. split; [vm_compute; reflexivity|]. split; [vm_compute; reflexivity|]. done. Qed.
