(* ===== verification/Txl.v ===== *)
(** * Lists of transaction ids

    [src/src/txl.c], [src/src/txl.h]: a growing array of 64-bit ids. The block
    is [alloclen :: size :: ids ++ room]; a [txl_t] points to its second
    cell. *)

From stdpp Require Import base list numbers option sorting.
From Stdlib Require Import ZArith Lia.
From S2P Require Import Prelude SortNet QuickSort Bits Alloc Pnl Rkl.

Definition txl : Type := list Z.

Definition txl_initial : Z := txl_granulate - 2 - MDBX_ASSUME_MALLOC_OVERHEAD / 8.

Definition txl_at (p : txl) (i : Z) : option Z := zget p (i + 1).
Definition txl_put (p : txl) (i v : Z) : option txl := zset p (i + 1) v.
Definition txl_alloclen (p : txl) : option Z := txl_at p (-1).
Definition txl_size (p : txl) : option Z := txl_at p 0.

Definition txl_size2bytes (size : Z) : Z :=
  u64 (ceil_powerof2 (u64 (MDBX_ASSUME_MALLOC_OVERHEAD + 8 * (size + 2))) (txl_granulate * 8) - MDBX_ASSUME_MALLOC_OVERHEAD).

Definition txl_bytes2size (bytes : Z) : Z := u64 (bytes / 8 - 2).

(** The null pointer is [None] in the result. *)
Definition txl_alloc (al : allocator) : option (option txl) :=
  match osal_malloc al (txl_size2bytes txl_initial) with
  | None => Some None
  | Some p =>
      p ← zset p 0 (txl_bytes2size (8 * zlen p));
      p ← zset p 1 0;
      Some (Some p)
  end.

Definition txl_reserve (al : allocator) (p : txl) (wanna : Z) : option (rc * txl) :=
  allocated ← txl_alloclen p;
  if wanna <=? allocated then Some (MDBX_SUCCESS, p)
  else if txl_max <? wanna then Some (MDBX_TXN_FULL, p)
  else
    let size := if u64 (wanna + wanna - allocated) <? txl_max then u64 (wanna + wanna - allocated) else txl_max in
    match osal_realloc al p (txl_size2bytes size) with
    | None => Some (MDBX_ENOMEM, p)
    | Some p => p ← zset p 0 (txl_bytes2size (8 * zlen p)); Some (MDBX_SUCCESS, p)
    end.

Definition txl_need (al : allocator) (p : txl) (num : Z) : option (rc * txl) :=
  size ← txl_size p;
  let wanna := size + num in
  alloclen ← txl_alloclen p;
  if wanna <=? alloclen then Some (MDBX_SUCCESS, p) else txl_reserve al p wanna.

Definition txl_append_prereserved (p : txl) (id : Z) : option txl :=
  size ← txl_size p;
  let end_ := u64 (size + 1) in
  p ← txl_put p 0 end_;
  txl_put p end_ id.

Definition txl_append (al : allocator) (p : txl) (id : Z) : option (rc * txl) :=
  size ← txl_size p;
  alloclen ← txl_alloclen p;
  '(err, p) ← (if size =? alloclen then txl_need al p txl_granulate else Some (MDBX_SUCCESS, p));
  if decide (err <> MDBX_SUCCESS) then Some (err, p)
  else p ← txl_append_prereserved p id; Some (MDBX_SUCCESS, p).

Definition TXNID_SORT_CMP (first last : Z) : bool := last <? first.

Definition txl_sort (have_cmov : bool) (p : txl) : option txl :=
  size ← txl_size p;
  sort_impl TXNID_SORT_CMP have_cmov p (1 + 1) (size + 1 + 1).

(** [for (i = 1; i <= len; ++i) if (txl[i] == id) return true;] *)
Fixpoint txl_contain_loop (n : nat) (p : txl) (i id : Z) : option bool :=
  match n with
  | O => Some false
  | S n => x ← txl_at p i; if x =? id then Some true else txl_contain_loop n p (i + 1) id
  end.

Definition txl_contain (p : txl) (id : Z) : option bool :=
  len ← txl_size p;
  txl_contain_loop (Z.to_nat len) p 1 id.

(** ** The invariant *)

Definition txl_rep (p : txl) (l : list Z) : Prop :=
  exists len rest, p = len :: zlen l :: l ++ rest /\ zlen l <= len < 2 ^ 40 /\ len + 2 <= zlen p.

Lemma txl_rep_size p l : txl_rep p l -> txl_size p = Some (zlen l).
Proof. by intros (len & rest & -> & _). Qed.

Lemma txl_capacity n size : 0 < size <= txl_max -> txl_size2bytes size <= 8 * n <= txl_size2bytes size + 2 ^ 32 ->
  0 <= txl_size2bytes size /\ size <= txl_bytes2size (8 * n) < 2 ^ 40 /\ txl_bytes2size (8 * n) + 2 = n.
Proof.
  unfold txl_max, txl_size2bytes, txl_bytes2size, MDBX_ASSUME_MALLOC_OVERHEAD, txl_granulate. intros Hs Hn.
  change (Z.shiftl 1 26 - 2 - 16 / 8) with 67108860 in Hs.
  change (32 * 8) with (2 ^ 8) in *. rewrite (u64_small (16 + _)) in * by (unfold UINT64_MAX; lia).
  pose proof (ceil_powerof2_spec (16 + 8 * (size + 2)) 8) as Hc. cbn zeta in Hc.
  set (c := ceil_powerof2 _ _) in *. destruct Hc as [[H1 H2] _]; [lia|lia|lia|].
  rewrite (u64_small (c - 16)) in * by (unfold UINT64_MAX; lia).
  rewrite Z.mul_comm, Z.div_mul by lia. rewrite u64_small by (unfold UINT64_MAX; lia). lia.
Qed.

Lemma txl_alloc_spec al `{!AllocOk 8 al} :
  (txl_alloc al = Some None /\ alloc_fails al) \/ exists p, txl_alloc al = Some (Some p) /\ txl_rep p [].
Proof.
  unfold txl_alloc. destruct (osal_malloc al (txl_size2bytes txl_initial)) as [p|] eqn:E; [right|left; split; [done|]; exists [], (txl_size2bytes txl_initial); by left].
  assert (0 <= txl_size2bytes txl_initial) as Hb0 by by vm_compute.
  pose proof (malloc_usable _ _ Hb0 E) as Hu.
  destruct (txl_capacity (zlen p) txl_initial) as (_ & Hc & Hz); [by vm_compute|done|].
  assert (txl_initial = 28) as Ei by done. destruct p as [|c0 [|c1 p]]; [zlia|zlia|].
  pose proof (zset_app_mid [] (c1 :: p) c0 (txl_bytes2size (8 * zlen (c0 :: c1 :: p))) 0 eq_refl) as E0. cbn [app] in E0. rewrite E0.
  cbn [mbind option_bind].
  pose proof (zset_app_mid [txl_bytes2size (8 * zlen (c0 :: c1 :: p))] p c1 0 1 eq_refl) as E1. cbn [app] in E1. rewrite E1.
  cbn [mbind option_bind]. eexists. split; [done|]. eexists _, p. split; [done|]. zlia.
Qed.

Lemma txl_reserve_spec al `{!AllocOk 8 al} p l wanna : txl_rep p l -> zlen l <= wanna < 2 ^ 41 ->
  exists err p', txl_reserve al p wanna = Some (err, p') /\ txl_rep p' l /\
    ((err = MDBX_SUCCESS /\ exists len, txl_alloclen p' = Some len /\ wanna <= len) \/
     (err = MDBX_ENOMEM /\ p' = p /\ alloc_fails al) \/ (err = MDBX_TXN_FULL /\ p' = p /\ txl_max < wanna)).
Proof.
  intros Hrep Hw. pose proof Hrep as (len & rest & Hp & Hlen & Hz). unfold txl_reserve.
  assert (txl_alloclen p = Some len) as Hal by (by rewrite Hp). rewrite Hal. cbn [mbind option_bind]. zlen_pos.
  destruct (Z.leb_spec wanna len) as [Hle|Hgt].
  { eexists _, _. split; [done|]. split; [done|]. left. split; [done|]. by exists len. }
  destruct (Z.ltb_spec txl_max wanna) as [Hmax|Hmax].
  { eexists _, _. split; [done|]. split; [done|]. right. right. done. }
  rewrite u64_small by (unfold UINT64_MAX; lia).
  set (size := if wanna + wanna - len <? txl_max then _ else _).
  assert (wanna <= size <= txl_max) as Hsz by (subst size; destruct (Z.ltb_spec (wanna + wanna - len) txl_max); lia).
  destruct (osal_realloc al p (txl_size2bytes size)) as [p'|] eqn:E.
  2:{ eexists _, _. split; [done|]. split; [done|]. right. left. split_and!; [done|done|]. eexists _, _. by right. }
  assert (0 <= txl_size2bytes size) as Hb0 by (unfold txl_size2bytes, u64; apply wrap_range; lia).
  destruct (txl_capacity (zlen p') size) as (_ & Hc & Hzc); [lia|by apply (realloc_usable _ _ _ Hb0 E)|].
  destruct (zprefix (len :: zlen l :: l) p') as [rest' ->].
  { autorewrite with zlen. lia. }
  { intros i Hi. rewrite (realloc_contents _ _ _ i Hb0 E); [|rewrite Hp in Hz |- *; zlia|zlia].
    rewrite Hp. by rewrite (app_comm_cons l), (app_comm_cons (zlen l :: l)), zget_app_l by zlia. }
  pose proof (zset_app_mid [] (zlen l :: l ++ rest') len (txl_bytes2size (8 * zlen ((len :: zlen l :: l) ++ rest'))) 0 eq_refl) as E0.
  cbn [app] in E0 |- *. rewrite E0. cbn [mbind option_bind]. eexists _, _. split; [done|]. split.
  - eexists _, rest'. split; [done|]. cbn [app] in *. autorewrite with zlen in *. lia.
  - left. split; [done|]. eexists. split; [done|]. cbn [app] in *. lia.
Qed.

(** The id is added at the end, or the list is as it was. *)
Lemma txl_append_spec al `{!AllocOk 8 al} p l id : txl_rep p l ->
  exists err p', txl_append al p id = Some (err, p') /\
    ((err = MDBX_SUCCESS /\ txl_rep p' (l ++ [id])) \/
     ((err = MDBX_ENOMEM /\ alloc_fails al \/ err = MDBX_TXN_FULL /\ txl_max < zlen l + txl_granulate) /\ p' = p)).
Proof.
  intros Hrep. pose proof Hrep as (len & rest & Hp & Hlen & Hz). unfold txl_append.
  assert (txl_alloclen p = Some len) as Hal by (by rewrite Hp).
  rewrite (txl_rep_size p l Hrep), Hal. cbn [mbind option_bind]. zlen_pos.
  assert (forall p1 len1, txl_rep p1 l -> txl_alloclen p1 = Some len1 -> zlen l < len1 ->
    exists p2, txl_append_prereserved p1 id = Some p2 /\ txl_rep p2 (l ++ [id])) as Happ.
  { intros p1 len1 (len' & rest1 & -> & Hl1 & Hz1) [= ->] Hlt. unfold txl_append_prereserved, txl_size, txl_at, txl_put.
    change (zget (len1 :: zlen l :: l ++ rest1) (0 + 1)) with (Some (zlen l)). cbn [mbind option_bind].
    rewrite u64_small by (unfold UINT64_MAX; lia).
    pose proof (zset_app_mid [len1] (l ++ rest1) (zlen l) (zlen l + 1) (0 + 1) eq_refl) as E0. cbn [app] in E0. rewrite E0. cbn [mbind option_bind].
    destruct rest1 as [|c rest1]; [zlia|].
    rewrite (app_comm_cons l), (app_comm_cons _ _ len1), zset_app_mid by zlia.
    eexists. split; [done|]. exists len1, rest1. rewrite zlen_snoc, <- app_assoc. split; [done|]. cbn [app]. zlia. }
  destruct (Z.eqb_spec (zlen l) len) as [Efull|Hne].
  - unfold txl_need. rewrite (txl_rep_size p l Hrep), Hal. cbn [mbind option_bind].
    destruct (Z.leb_spec (zlen l + txl_granulate) len); [unfold txl_granulate in *; lia|].
    destruct (txl_reserve_spec al p l (zlen l + txl_granulate) Hrep) as (err & p1 & -> & Hrep1 & Hc).
    { unfold txl_granulate. lia. }
    cbn [mbind option_bind]. destruct Hc as [(-> & len1 & Hal1 & Hge)|[(-> & -> & Hfail)|(-> & -> & Hmax)]].
    + rewrite decide_False by (intros H'; by apply H').
      destruct (Happ p1 len1 Hrep1 Hal1) as (p2 & -> & Hrep2); [unfold txl_granulate in *; lia|].
      cbn [mbind option_bind]. eexists _, _. split; [done|]. by left.
    + rewrite decide_True by done. eexists _, _. split; [done|]. right. split; [by left|done].
    + rewrite decide_True by done. eexists _, _. split; [done|]. right. split; [by right|done].
  - cbn [mbind option_bind]. rewrite decide_False by (intros H'; by apply H').
    destruct (Happ p len Hrep Hal) as (p2 & -> & Hrep2); [lia|].
    cbn [mbind option_bind]. eexists _, _. split; [done|]. by left.
Qed.

#[export] Instance TXNID_SORT_CMP_strict_weak : StrictWeak TXNID_SORT_CMP.
Proof. split; unfold TXNID_SORT_CMP; intros; lia. Qed.

(** Descending order. *)
Lemma txl_sort_spec cm p l : txl_rep p l ->
  exists p' l', txl_sort cm p = Some p' /\ txl_rep p' l' /\ l' ≡ₚ l /\ StronglySorted (fun x y => y <= x) l'.
Proof.
  intros Hrep. pose proof Hrep as (len & rest & Hp & Hlen & Hz). unfold txl_sort. rewrite (txl_rep_size p l Hrep). cbn [mbind option_bind].
  destruct (sort_impl_spec TXNID_SORT_CMP cm [len; zlen l] l rest) as (l' & E & HP & Hs).
  { unfold sort_stack_size. lia. }
  assert (zlen l' = zlen l) as El by (unfold zlen; by rewrite HP).
  exists ([len; zlen l] ++ l' ++ rest), l'. split_and!.
  - change (zlen [len; zlen l]) with 2 in E. rewrite (Z.add_comm 2) in E. rewrite Hp. replace (zlen l + 1 + 1) with (zlen l + 2) by lia. exact E.
  - exists len, rest. rewrite El. split; [done|]. rewrite Hp in Hz. zlia.
  - done.
  - eapply StronglySorted_impl; [|exact Hs]. intros x y. unfold TXNID_SORT_CMP. lia.
Qed.

Lemma txl_contain_loop_spec len n id : forall l done rest, exists b,
  txl_contain_loop (length l) (len :: n :: done ++ l ++ rest) (zlen done + 1) id = Some b /\ (b = true <-> id ∈ l).
Proof.
  induction l as [|x l IH]; intros done rest; cbn [length txl_contain_loop].
  { exists false. split; [reflexivity|]. split; [discriminate|]. by intros ?%elem_of_nil. }
  unfold txl_at. pose proof (zget_app_mid (len :: n :: done) (l ++ rest) x (zlen done + 1 + 1)) as E. cbn [app] in E |- *.
  rewrite E by zlia. clear E. cbn [mbind option_bind].
  destruct (Z.eqb_spec x id) as [->|Hne].
  - exists true. split; [reflexivity|]. split; [by constructor|reflexivity].
  - destruct (IH (done ++ [x]) rest) as (b & E & Hb). exists b. split.
    + rewrite <- E. f_equal; [cbn; by rewrite <- app_assoc|zlia].
    + rewrite Hb, elem_of_cons. split; [by right|by intros [->|?]].
Qed.

Lemma txl_contain_spec p l id : txl_rep p l -> exists b, txl_contain p id = Some b /\ (b = true <-> id ∈ l).
Proof.
  intros Hrep. unfold txl_contain. rewrite (txl_rep_size p l Hrep). cbn [mbind option_bind].
  destruct Hrep as (len & rest & -> & _). unfold zlen. rewrite Nat2Z.id.
  apply (txl_contain_loop_spec len (Z.of_nat (length l)) id l [] rest).
Qed.

(** ** Claims *)

(** A list of transaction ids. An id is added at the end within the block
    or after growing it ([MDBX_ENOMEM] comes from a failed allocation only,
    [MDBX_TXN_FULL] only from the limit, and both leave the list), sorting
    puts the same ids in descending order, and the membership test decides
    membership. *)
Theorem txl_operations cm al `{!AllocOk 8 al} p l id : txl_rep p l ->
  (exists err p', txl_append al p id = Some (err, p') /\
    ((err = MDBX_SUCCESS /\ txl_rep p' (l ++ [id])) \/
     ((err = MDBX_ENOMEM /\ alloc_fails al \/ err = MDBX_TXN_FULL /\ txl_max < zlen l + txl_granulate) /\ p' = p))) /\
  (exists p' l', txl_sort cm p = Some p' /\ txl_rep p' l' /\ l' ≡ₚ l /\ StronglySorted (fun x y => y <= x) l') /\
  (exists b, txl_contain p id = Some b /\ (b = true <-> id ∈ l)).
Proof. intros Hrep. split_and!; [by apply txl_append_spec|by apply txl_sort_spec|by apply txl_contain_spec]. Qed.

Lemma txl_operations_witness : exists b, txl_contain [4; 2; 8; 9; 0; 0] 9 = Some b /\ (b = true <-> 9 ∈ [8; 9]).
Proof.
  apply (txl_operations true (exact_allocator 8) (AllocOk0 := exact_allocator_ok 8 ltac:(lia)) [4; 2; 8; 9; 0; 0] [8; 9] 9).
  exists 4, [0; 0]. split; [done|]. by vm_compute.
Defined.
