(* ===== verification/Dpl.v ===== *)
(** * Dirty page lists

    [src/src/dpl.c], [src/src/dpl.h]: the list of the pages a write
    transaction modified. It is a lazily sorted array: [items[1..sorted]] is in
    ascending order of page numbers, the rest is a tail in order of arrival,
    and [items[0]] and [items[length + 1]] are sentinels. The model has the
    64-bit layout with [MDBX_DPL_CACHE_NPAGES] and
    [MDBX_DPL_PREALLOC_FOR_RADIXSORT] (both by default); a page is known by its
    address. *)

From stdpp Require Import base list numbers option sorting gmap.
From Stdlib Require Import ZArith Lia.
From S2P Require Import Prelude Search SortNet QuickSort RadixSort Bits Alloc Pnl PnlOrder.

(** ** Data *)

Record dp : Type := mk_dp { dp_ptr : Z; dp_pgno : Z; dp_npages_ : Z }.

Definition dpl_gap_edging : Z := 2.
Definition dpl_gap_mergesort : Z := 16.
Definition dpl_reserve_gap : Z := dpl_gap_mergesort + dpl_gap_edging.
Definition dpl_insertion_threshold : Z := 42.
Definition CURSOR_STACK_SIZE : Z := 16 + 64 / 4.

(** [items] is the whole array of the block. *)
Record dpl : Type := mk_dpl {
  dl_sorted : Z;
  dl_length : Z;
  dl_pages_including_loose : Z;
  dl_detent : Z;
  dl_items : list dp;
}.

Definition sizeof_dp_t : Z := 16.
Definition sizeof_dpl_t : Z := 4 * 8 + dpl_reserve_gap * sizeof_dp_t.

(** The stub pages of [dpl_init] and [dpl_setlen]: addresses of static objects. *)
Definition dpl_stub_pageB : Z := -1.
Definition dpl_stub_pageE : Z := -2.

Definition with_items (dl : dpl) (m : list dp) : dpl :=
  mk_dpl (dl_sorted dl) (dl_length dl) (dl_pages_including_loose dl) (dl_detent dl) m.

Definition dl_put (dl : dpl) (i : Z) (x : dp) : option dpl := m ← zset (dl_items dl) i x; Some (with_items dl m).

Definition dpl_setlen (dl : dpl) (len : Z) : option dpl :=
  m ← zset (dl_items dl) (len + 1) (mk_dp dpl_stub_pageE P_INVALID 1);
  Some (mk_dpl (dl_sorted dl) len (dl_pages_including_loose dl) (dl_detent dl) m).

(** [dl->sorted = dpl_setlen(dl, len)] *)
Definition set_sorted_len (dl : dpl) (len : Z) : option dpl :=
  dl ← dpl_setlen dl len;
  Some (mk_dpl len (dl_length dl) (dl_pages_including_loose dl) (dl_detent dl) (dl_items dl)).

Definition dpl_init (dl : dpl) : option dpl :=
  let dl := mk_dpl (dl_sorted dl) (dl_length dl) 0 (dl_detent dl) (dl_items dl) in
  dl ← dl_put dl 0 (mk_dp dpl_stub_pageB 0 1);
  set_sorted_len dl 0.

Definition dpl_size2bytes (size : Z) : Z :=
  let size := size + size in
  u64 (ceil_powerof2 (u64 (MDBX_ASSUME_MALLOC_OVERHEAD + sizeof_dpl_t + size * sizeof_dp_t)) (MDBX_PNL_GRANULATE * 8 * 2)
       - MDBX_ASSUME_MALLOC_OVERHEAD).

Definition dpl_bytes2size (bytes : Z) : Z :=
  Z.shiftr (u64 (bytes - sizeof_dpl_t) / sizeof_dp_t) 1.

(** ** The allocator of the blocks

    [osal_realloc] on a block that holds a [dpl_t]: the argument and the result
    are the items of the block, whose usable size is that of the header plus
    that of its items; the null pointer is the empty list. *)
Definition dp_allocator : Type := list dp -> Z -> option (list dp).

Definition items_bytes (m : list dp) : Z := 4 * 8 + sizeof_dp_t * zlen m.

Class DpAllocOk (al : dp_allocator) : Prop := {
  dp_realloc_usable old bytes blk : 0 <= bytes -> al old bytes = Some blk ->
    bytes <= items_bytes blk <= bytes + 2 ^ 32;
  dp_realloc_contents old bytes blk i : 0 <= bytes -> al old bytes = Some blk ->
    0 <= i < zlen old -> i < zlen blk -> zget blk i = zget old i;
}.

Definition dp_alloc_fails (al : dp_allocator) : Prop := exists old bytes, al old bytes = None.

Definition exact_dp_allocator : dp_allocator := fun old bytes =>
  let n := Z.to_nat ((bytes - 32 + 15) / 16) in
  Some (take n old ++ replicate (n - length old) (mk_dp 0 0 0)).

(** ** The parts of the transaction and of the environment it works on *)

(** The reserve of single shadow pages, [env->shadow_reserve] with
    [env->shadow_reserve_len], and the pages given back to the heap. *)
Record shadow : Type := mk_shadow { shadow_reserve : list Z; shadow_freed : list Z; dp_reserve_limit : Z }.

Definition page_shadow_release (env : shadow) (p npages : Z) : shadow :=
  if (npages =? 1) && (zlen (shadow_reserve env) <? dp_reserve_limit env)
  then mk_shadow (p :: shadow_reserve env) (shadow_freed env) (dp_reserve_limit env)
  else mk_shadow (shadow_reserve env) (p :: shadow_freed env) (dp_reserve_limit env).

(** [lru] is the word in front of each shadow page. *)
Record dtxn : Type := mk_dtxn {
  writemap : bool;
  ro_nested : bool;
  dirtylist : option dpl;
  dirtyroom : Z;
  dirtylru : Z;
  lru : gmap Z Z;
  env_shadow : shadow;
}.

Definition with_dirtylist (t : dtxn) (dl : dpl) : dtxn :=
  mk_dtxn (writemap t) (ro_nested t) (Some dl) (dirtyroom t) (dirtylru t) (lru t) (env_shadow t).
Definition with_room (t : dtxn) (room : Z) : dtxn :=
  mk_dtxn (writemap t) (ro_nested t) (dirtylist t) room (dirtylru t) (lru t) (env_shadow t).
Definition with_lru (t : dtxn) (l : Z) (m : gmap Z Z) : dtxn :=
  mk_dtxn (writemap t) (ro_nested t) (dirtylist t) (dirtyroom t) l m (env_shadow t).
Definition with_shadow (t : dtxn) (e : shadow) : dtxn :=
  mk_dtxn (writemap t) (ro_nested t) (dirtylist t) (dirtyroom t) (dirtylru t) (lru t) e.

(** ** Allocation *)

(** [None] inside of the result: the allocation failed. *)
Definition txn_dpl_reserve (al : dp_allocator) (dl : option dpl) (size : Z) : option dpl :=
  let bytes := dpl_size2bytes (if size <? PAGELIST_LIMIT then size else PAGELIST_LIMIT) in
  match al (match dl with Some dl => dl_items dl | None => [] end) bytes with
  | None => None
  | Some m =>
      let detent := dpl_bytes2size (items_bytes m) in
      Some (match dl with
            | Some dl => mk_dpl (dl_sorted dl) (dl_length dl) (dl_pages_including_loose dl) detent m
            | None => mk_dpl 0 0 0 detent m
            end)
  end.

(** [dp_initial] and [upper] are the option of the environment and the upper
    bound of the geometry. *)
Definition txn_dpl_alloc (al : dp_allocator) (t : dtxn) (dp_initial upper : Z) : option (rc * dtxn) :=
  let wanna := if negb (ro_nested t) then (if dp_initial <? upper then dp_initial else upper) else CURSOR_STACK_SIZE in
  let ready := match dirtylist t with
               | None => false
               | Some dl => negb ((dl_detent dl <? wanna) || (wanna + wanna <? dl_detent dl))
               end in
  let reserved := if ready then dirtylist t else txn_dpl_reserve al (dirtylist t) wanna in
  match reserved with
  | None => Some (MDBX_ENOMEM, t)
  | Some dl => dl ← dpl_init dl; Some (MDBX_SUCCESS, with_dirtylist t dl)
  end.

(** ** Sorting and searching *)

Definition MDBX_DPL_EXTRACT_KEY (x : dp) : Z := dp_pgno x.
Definition DP_SORT_CMP (first last : dp) : bool := dp_pgno first <? dp_pgno last.
Definition DP_SEARCH_CMP (x : dp) (id : Z) : bool := dp_pgno x <? id.

(** The merge of the sorted part and the sorted copy of the tail, from the
    end to the begin. *)
Fixpoint dpl_merge_loop (fuel : nat) (m : list dp) (w l r : Z) : option (list dp) :=
  match fuel with
  | O => None
  | S fuel =>
      x ← zget m l;
      y ← zget m r;
      let cmp := dp_pgno y <? dp_pgno x in
      m ← zset m w (if cmp then x else y);
      let l := if cmp then l - 1 else l in
      let r := if cmp then r else r - 1 in
      let w := w - 1 in
      if l <? w then dpl_merge_loop fuel m w l r else Some m
  end.

Section Cmov.
Context (have_cmov : bool).

Definition txn_dpl_sort_slowpath (dl : dpl) : option dpl :=
let unsorted := dl_length dl - dl_sorted dl in
let done m := Some (mk_dpl (dl_length dl) (dl_length dl) (dl_pages_including_loose dl) (dl_detent dl) m) in
if unsorted <? MDBX_RADIXSORT_THRESHOLD then
  if unsorted / 4 + 4 <? dl_sorted dl then
    let end_ := dl_length dl + dl_length dl + 1 in
    let tmp := end_ - unsorted in
    m ← blit (dl_items dl) (1 + dl_sorted dl) (dl_items dl) tmp unsorted;
    m ← sort_impl DP_SORT_CMP have_cmov m tmp (tmp + unsorted);
    m ← dpl_merge_loop (S (Z.to_nat (dl_length dl))) m (dl_length dl) (dl_sorted dl) (end_ - 1);
    done m
  else m ← sort_impl DP_SORT_CMP have_cmov (dl_items dl) 1 (dl_length dl + 1); done m
else m ← radixsort MDBX_DPL_EXTRACT_KEY 1 (dl_items dl) 1 (Z.to_nat (dl_length dl)); done m.

Definition txn_dpl_sort (dl : dpl) : option dpl :=
if dl_sorted dl =? dl_length dl then Some dl else txn_dpl_sort_slowpath dl.

(** The cases [n], [n - 1], ..., [1] of the switch, with fall through: the
    index of the page in the tail. *)
Fixpoint linear_search (n : nat) (dl : dpl) (pgno : Z) : option (option Z) :=
match n with
| O => Some None
| S n' =>
    let i := dl_length dl - Z.of_nat n + 1 in
    x ← zget (dl_items dl) i;
    if dp_pgno x =? pgno then Some (Some i) else linear_search n' dl pgno
end.

(** The search sorts the list when the tail is long. *)
Definition txn_dpl_search (dl : dpl) (pgno : Z) : option (Z * dpl) :=
let tail := dl_length dl - dl_sorted dl in
'(found, dl) ← (if tail =? 0 then Some (None, dl)
                else if tail <=? 7 then found ← linear_search (Z.to_nat tail) dl pgno; Some (found, dl)
                else dl ← txn_dpl_sort_slowpath dl; Some (None, dl));
match (found : option Z) with
| Some i => Some (i, dl)
| None =>
    it ← search_impl DP_SEARCH_CMP have_cmov (dl_items dl) 1 (dl_sorted dl) pgno;
    Some (it, dl)
end.

Definition txn_dpl_exist (dl : dpl) (pgno : Z) : option (Z * dpl) :=
'(i, dl) ← txn_dpl_search dl pgno;
x ← zget (dl_items dl) i;
Some (if dp_pgno x =? pgno then i else 0, dl).

Definition dp_npages (x : dp) : Z := dp_npages_ x.

Definition dpl_npages (dl : dpl) (i : Z) : option Z := x ← zget (dl_items dl) i; Some (dp_npages x).

Definition dpl_endpgno (dl : dpl) (i : Z) : option Z :=
x ← zget (dl_items dl) i; Some (u32 (dp_npages x + dp_pgno x)).

(** The list is sorted when this is called, so that the search does not
    change it. *)
Definition txn_dpl_intersect (dl : dpl) (pgno npages : Z) : option bool :=
'(n, dl) ← txn_dpl_search dl pgno;
x ← zget (dl_items dl) n;
if dp_pgno x <? u64 (pgno + npages) then Some true
else e ← dpl_endpgno dl (n - 1); Some (pgno <? e).

(** [for (i = dl->length; i > dl->sorted; --i)] *)
Fixpoint find_tail (n : nat) (dl : dpl) (pgno : Z) : option (option Z) :=
match n with
| O => Some None
| S n =>
    x ← zget (dl_items dl) (dl_sorted dl + Z.of_nat n + 1);
    if dp_pgno x =? pgno then Some (Some (dp_ptr x)) else find_tail n dl pgno
end.

(** The null pointer is [None] in the result. *)
Definition debug_txn_dpl_find (dl : option dpl) (pgno : Z) : option (option Z) :=
match dl with
| None => Some None
| Some dl =>
    found ← find_tail (Z.to_nat (dl_length dl - dl_sorted dl)) dl pgno;
    match (found : option Z) with
    | Some p => Some (Some p)
    | None =>
        if negb (dl_sorted dl =? 0) then
          i ← search_impl DP_SEARCH_CMP have_cmov (dl_items dl) 1 (dl_sorted dl) pgno;
          x ← zget (dl_items dl) i;
          Some (if dp_pgno x =? pgno then Some (dp_ptr x) else None)
        else Some None
    end
end.

(** ** Removing *)

Definition txn_dpl_remove_ex (dl : dpl) (i npages : Z) : option dpl :=
let pages := u64 (dl_pages_including_loose dl - npages) in
let sorted := if i <=? dl_sorted dl then dl_sorted dl - 1 else dl_sorted dl in
let len := dl_length dl - 1 in
m ← blit (dl_items dl) (i + 1) (dl_items dl) i (len - i + 2);
Some (mk_dpl sorted len pages (dl_detent dl) m).

Definition txn_dpl_remove (dl : dpl) (i : Z) : option dpl :=
n ← dpl_npages dl i; txn_dpl_remove_ex dl i n.

(** ** Adding *)

(** [while (i >= dl->items + dl->sorted) { i[1] = *i; --i; }] *)
Fixpoint shift_tail (fuel : nat) (m : list dp) (i sorted : Z) : option (list dp * Z) :=
match fuel with
| O => None
| S fuel =>
    if sorted <=? i then x ← zget m i; m ← zset m (i + 1) x; shift_tail fuel m (i - 1) sorted
    else Some (m, i)
end.

(** [while (i->pgno > pgno) { i[1] = *i; --i; }] *)
Fixpoint shift_sorted (fuel : nat) (m : list dp) (i pgno : Z) : option (list dp * Z) :=
match fuel with
| O => None
| S fuel =>
    x ← zget m i;
    if pgno <? dp_pgno x then m ← zset m (i + 1) x; shift_sorted fuel m (i - 1) pgno
    else Some (m, i)
end.

(** Whether the new page is to be inserted into the sorted part. *)
Definition append_insert (m : list dp) (length sorted pgno : Z) : option bool :=
let pivot := length - dpl_insertion_threshold in
if have_cmov then
  x ← zget m (if length <? dpl_insertion_threshold then 0 else length - dpl_insertion_threshold);
  Some ((pivot <=? sorted) && (dp_pgno x <? pgno))
else if pivot <=? sorted then
  if pivot <=? 0 then Some true else x ← zget m pivot; Some (dp_pgno x <? pgno)
else Some false.

(** The list after the room was made. *)
Definition append_place (dl : dpl) (x : dp) (npages : Z) : option dpl :=
let pages := u64 (dl_pages_including_loose dl + npages) in
let i := dl_length dl in
insert ← append_insert (dl_items dl) (dl_length dl) (dl_sorted dl) (dp_pgno x);
stub ← zget (dl_items dl) (i + 1);
m ← zset (dl_items dl) (i + 2) stub;
if (insert : bool) then
  '(m, i) ← shift_tail (S (Z.to_nat i)) m i (dl_sorted dl + 1);
  '(m, i) ← shift_sorted (S (Z.to_nat i)) m i (dp_pgno x);
  m ← zset m (i + 1) x;
  Some (mk_dpl (dl_sorted dl + 1) (dl_length dl + 1) pages (dl_detent dl) m)
else
  m ← zset m (i + 1) x;
  Some (mk_dpl (dl_sorted dl) (dl_length dl + 1) pages (dl_detent dl) m).

Definition txn_dpl_append (al : dp_allocator) (t : dtxn) (pgno page npages : Z) : option (rc * dtxn) :=
let x := mk_dp page pgno (u32 npages) in
let t := if negb (writemap t) then with_lru t (dirtylru t) (<[page := dirtylru t]> (lru t)) else t in
dl ← dirtylist t;
if (dl_length dl =? dl_detent dl) && (PAGELIST_LIMIT <=? dl_detent dl) then Some (MDBX_TXN_FULL, t)
else
  let room :=
    if dl_length dl =? dl_detent dl then
      let size := if dl_detent dl <? MDBX_PNL_INITIAL * 42 then dl_detent dl + dl_detent dl
                  else dl_detent dl + dl_detent dl / 2 in
      txn_dpl_reserve al (Some dl) size
    else Some dl in
  match room with
  | None => Some (MDBX_ENOMEM, t)
  | Some dl => dl ← append_place dl x npages; Some (MDBX_SUCCESS, with_dirtylist t dl)
  end.

(** ** Ages of pages *)

Definition txn_dpl_age (t : dtxn) (i : Z) : option Z :=
dl ← dirtylist t;
x ← zget (dl_items dl) i;
c ← lru t !! dp_ptr x;
Some (u32 (dirtylru t - u32 c)).

(** [for (i = 1; i <= dl->length; ++i) *ptr >>= 1;] *)
Fixpoint halve_lru (ps : list dp) (m : gmap Z Z) : option (gmap Z Z) :=
match ps with
| [] => Some m
| x :: ps => c ← m !! dp_ptr x; halve_lru ps (<[dp_ptr x := Z.shiftr c 1]> m)
end.

(** The transaction and its ancestors: the counter and the dirty list of
    each; all of them share the words in front of the pages. *)
Fixpoint txn_dpl_lru_reduce (chain : list (Z * dpl)) (m : gmap Z Z) : option (list Z * gmap Z Z) :=
match chain with
| [] => Some ([], m)
| (c, dl) :: chain =>
    m ← halve_lru (zslice (dl_items dl) 1 (dl_length dl)) m;
    '(cs, m) ← txn_dpl_lru_reduce chain m;
    Some (Z.shiftr c 1 :: cs, m)
end.

(** The counter of the transaction, those of its ancestors and the words. *)
Definition txn_dpl_lru_turn (t : dtxn) (ancestors : list (Z * dpl)) : option (Z * list Z * gmap Z Z) :=
let turned := u32 (dirtylru t + 1) in
if (UINT32_MAX / 3 <? turned) && negb (writemap t) then
  dl ← dirtylist t;
  '(cs, m) ← txn_dpl_lru_reduce ((turned, dl) :: ancestors) (lru t);
  match cs with c :: cs => Some (c, cs, m) | [] => None end
else Some (turned, fst <$> ancestors, lru t).

(** ** Sifting: removing the pages of a page number list *)

(** The scan loop: the positions of the first page of both lists, [None] when
    there is none. *)
Fixpoint dsift_scan (fuel : nat) (dl : dpl) (pl : pnl) (spilled : Z) (i r : Z) : option (option (Z * Z)) :=
match fuel with
| O => None
| S fuel =>
    if r <=? dl_length dl then
      y ← pnl_at pl i;
      x ← zget (dl_items dl) r;
      let pl_pgno := Z.shiftr y spilled in
      if negb (dp_pgno x =? pl_pgno) then
        let cmp := dp_pgno x <? pl_pgno in
        let r := if cmp then r + 1 else r in
        let i := if cmp then i else i - 1 in
        if negb (i =? 0) then dsift_scan fuel dl pl spilled i r else Some None
      else Some (Some (i, r))
    else Some None
end.

(** [while (r <= dl->length) dl->items[w++] = dl->items[r++];] *)
Fixpoint dsift_copy (fuel : nat) (dl : dpl) (w r : Z) : option (dpl * Z * Z) :=
match fuel with
| O => None
| S fuel =>
    if r <=? dl_length dl then
      x ← zget (dl_items dl) r; dl ← dl_put dl w x; dsift_copy fuel dl (w + 1) (r + 1)
    else Some (dl, w, r)
end.

(** From the label [remove_dl] on. *)
Definition dsift_remove (release : bool) (dl : dpl) (env : shadow) (r : Z) : option (dpl * shadow) :=
x ← zget (dl_items dl) r;
let dl := mk_dpl (dl_sorted dl) (dl_length dl) (u64 (dl_pages_including_loose dl - dp_npages x)) (dl_detent dl) (dl_items dl) in
Some (dl, if release then page_shadow_release env (dp_ptr x) (dp_npages x) else env).

(** From the label [next_i] on, after its step. *)
Fixpoint dsift_update (fuel : nat) (release : bool) (dl : dpl) (env : shadow) (pl : pnl) (spilled w r i : Z)
    : option (dpl * shadow * Z * Z) :=
match fuel with
| O => None
| S fuel =>
    if i =? 0 then
      '(dl, w, r) ← dsift_copy (S (Z.to_nat (dl_length dl))) dl w r; Some (dl, env, w, r)
    else if r <=? dl_length dl then
      y ← pnl_at pl i;
      x ← zget (dl_items dl) r;
      let pl_pgno := Z.shiftr y spilled in
      if dp_pgno x <? pl_pgno then dl ← dl_put dl w x; dsift_update fuel release dl env pl spilled (w + 1) (r + 1) i
      else if pl_pgno <? dp_pgno x then dsift_update fuel release dl env pl spilled w r (i - 1)
      else '(dl, env) ← dsift_remove release dl env r; dsift_update fuel release dl env pl spilled w (r + 1) (i - 1)
    else Some (dl, env, w, r)
end.

(** [avoid_msync] is [MDBX_AVOID_MSYNC]. *)
Definition txn_dpl_sift (avoid_msync : bool) (t : dtxn) (pl : pnl) (spilled : bool) : option dtxn :=
dl ← dirtylist t;
size ← pnl_size pl;
if negb (size =? 0) && negb (dl_length dl =? 0) then
  let sp := if spilled then 1 else 0 in
  let release := negb avoid_msync || negb (writemap t) in
  dl ← txn_dpl_sort dl;
  y ← pnl_at pl size;
  '(r, dl) ← txn_dpl_search dl (Z.shiftr y sp);
  found ← dsift_scan (S (Z.to_nat (size + dl_length dl))) dl pl sp size r;
  match (found : option (Z * Z)) with
  | None => Some (with_dirtylist t dl)
  | Some (i, r) =>
      let w := r in
      '(dl, env) ← dsift_remove release dl (env_shadow t) r;
      '(dl, env, w, r) ← dsift_update (S (Z.to_nat (size + dl_length dl))) release dl env pl sp w (r + 1) (i - 1);
      dl ← set_sorted_len dl (w - 1);
      Some (with_shadow (with_room (with_dirtylist t dl) (u64 (dirtyroom t + (r - w)))) env)
  end
else Some t.

(** ** Clearing *)

(** [for (i = 1; i <= dl->length; i++) page_shadow_release(...)] *)
Fixpoint release_pages (ps : list dp) (env : shadow) : shadow :=
match ps with
| [] => env
| x :: ps => release_pages ps (page_shadow_release env (dp_ptr x) (dp_npages x))
end.

Definition txn_dpl_clear (t : dtxn) : option dtxn :=
match dirtylist t with
| None => Some t
| Some dl =>
    let env := if negb (ro_nested t) && negb (writemap t)
               then release_pages (zslice (dl_items dl) 1 (dl_length dl)) (env_shadow t) else env_shadow t in
    dl ← set_sorted_len dl 0;
    Some (with_shadow (with_dirtylist t dl) env)
end.

Definition txn_dpl_free (t : dtxn) : option dtxn :=
match dirtylist t with
| None => Some t
| Some _ =>
    t ← txn_dpl_clear t;
    Some (mk_dtxn (writemap t) (ro_nested t) None (dirtyroom t) (dirtylru t) (lru t) (env_shadow t))
end.
End Cmov.
