(* ===== verification/DplProofs.v ===== *)
(** * Dirty page lists: invariant and correctness

    [dpl_ok dl l]: the list [dl] holds the pages [l] (in the order of the
    array). *)

From stdpp Require Import base list numbers option sorting gmap.
From Stdlib Require Import ZArith Lia.
From S2P Require Import Prelude Search SortNet QuickSort RadixSort Bits Alloc Pnl PnlOrder PnlSets Dpl.

Definition dp_asc : list dp -> Prop := StronglySorted (fun x y => dp_pgno x < dp_pgno y).

Definition dp_valid (x : dp) : Prop := 0 < dp_pgno x < P_INVALID.

(** The number of pages of the entries. *)
Fixpoint dp_total (l : list dp) : Z := match l with [] => 0 | x :: l => dp_npages_ x + dp_total l end.

Definition stubB : dp := mk_dp dpl_stub_pageB 0 1.
Definition stubE : dp := mk_dp dpl_stub_pageE P_INVALID 1.

Record dpl_ok (dl : dpl) (l : list dp) : Prop := {
  dok_items : exists rest, dl_items dl = stubB :: l ++ stubE :: rest;
  dok_length : dl_length dl = zlen l;
  dok_sorted : exists s u, l = s ++ u /\ dl_sorted dl = zlen s /\ dp_asc s;
  dok_nodup : NoDup (dp_pgno <$> l);
  dok_valid : Forall dp_valid l;
  dok_room : zlen l <= dl_detent dl;
  dok_detent : 0 < dl_detent dl < 2 ^ 60;
  dok_alloc : 2 * dl_detent dl + dpl_reserve_gap <= zlen (dl_items dl);
  dok_pages : dl_pages_including_loose dl = u64 (dp_total l);
}.

(** ** Ascending lists of pages *)

#[export] Instance DP_SORT_CMP_strict_weak : StrictWeak DP_SORT_CMP.
Proof. split; unfold DP_SORT_CMP; intros; lia. Qed.

Lemma dp_total_app a b : dp_total (a ++ b) = dp_total a + dp_total b.
Proof. induction a as [|x a IH]; [done|]. cbn. lia. Qed.

#[export] Instance dp_total_proper : Proper (Permutation ==> eq) dp_total.
Proof. intros a b H. induction H; cbn; lia. Qed.

#[export] Instance zlen_proper {A} : Proper (Permutation ==> eq) (@zlen A).
Proof. intros a b H. unfold zlen. by rewrite H. Qed.

(** Weakly ascending with distinct page numbers is ascending. *)
Lemma dp_asc_weak l : StronglySorted (fun x y => dp_pgno x <= dp_pgno y) l -> NoDup (dp_pgno <$> l) -> dp_asc l.
Proof.
  induction 1 as [|x l Hs IH Hall]; [constructor|]. cbn. rewrite NoDup_cons. intros [Hn Hnd].
  constructor; [by apply IH|]. apply Forall_forall. intros y Hy. rewrite Forall_forall in Hall. specialize (Hall y Hy).
  enough (dp_pgno y <> dp_pgno x) by lia. intros E. apply Hn. rewrite <- E. by apply list_elem_of_fmap_2.
Qed.

Lemma dp_asc_app_iff a b : dp_asc (a ++ b) <-> dp_asc a /\ dp_asc b /\ (forall x y, x ∈ a -> y ∈ b -> dp_pgno x < dp_pgno y).
Proof. apply StronglySorted_app_iff. Qed.

Lemma dp_asc_cons_iff x l : dp_asc (x :: l) <-> dp_asc l /\ (forall y, y ∈ l -> dp_pgno x < dp_pgno y).
Proof.
  split; [intros H; inversion H as [|?? Hs Hall]; subst; split; [done|by apply Forall_forall]|].
  intros [Hs Hall]. constructor; [done|]. by apply Forall_forall.
Qed.

Lemma dp_nodup_eq (l : list dp) x y : NoDup (dp_pgno <$> l) -> x ∈ l -> y ∈ l -> dp_pgno x = dp_pgno y -> x = y.
Proof.
  induction l as [|z l IH]; [by intros _ ?%elem_of_nil|]. cbn. rewrite NoDup_cons. intros [Hn Hnd] Hx Hy E.
  apply elem_of_cons in Hx as [->|Hx], Hy as [->|Hy]; [done| | |by apply IH].
  - exfalso. apply Hn. rewrite E. by apply list_elem_of_fmap_2.
  - exfalso. apply Hn. rewrite <- E. by apply list_elem_of_fmap_2.
Qed.

(** ** Rearranging the items *)

(** The same pages in another order, with a sorted prefix. *)
Lemma dpl_ok_reorder dl l l' s u rest : dpl_ok dl l -> l' ≡ₚ l -> l' = s ++ u -> dp_asc s ->
  zlen (stubB :: l' ++ stubE :: rest) = zlen (dl_items dl) ->
  dpl_ok (mk_dpl (zlen s) (zlen l') (dl_pages_including_loose dl) (dl_detent dl) (stubB :: l' ++ stubE :: rest)) l'.
Proof.
  intros [_ Hlen _ Hnd Hv Hroom Hdet Hal Hpg] HP El Hs Hz. split; cbn [dl_items dl_length dl_sorted dl_detent dl_pages_including_loose].
  - by exists rest.
  - done.
  - by exists s, u.
  - by rewrite HP.
  - by rewrite HP.
  - by rewrite HP.
  - done.
  - by rewrite Hz.
  - by rewrite HP.
Qed.

(** ** The merge *)

(** The greater of both last elements goes to the front of the output. *)
Lemma dp_asc_insert a x v y out : dp_asc ((a ++ [x]) ++ out) -> dp_asc ((v ++ [y]) ++ out) -> dp_pgno x < dp_pgno y ->
  dp_asc ((a ++ [x]) ++ y :: out).
Proof.
  intros (Ha & Ho & Hao)%dp_asc_app_iff (_ & _ & Hvo)%dp_asc_app_iff Hlt.
  apply dp_asc_app_iff in Ha as Ha'. destruct Ha' as (_ & _ & Hax).
  apply dp_asc_app_iff. split_and!; [done| |].
  - apply dp_asc_cons_iff. split; [done|]. intros z Hz. apply Hvo; [apply elem_of_app; right; by constructor|done].
  - intros z w Hz [->|Hw]%elem_of_cons; [|by apply Hao].
    apply elem_of_app in Hz as [Hz| ->%list_elem_of_singleton]; [|done].
    specialize (Hax z x Hz ltac:(by constructor)). lia.
Qed.

Lemma dpl_merge_loop_spec : forall (n : nat) h s u gap out mid junk, n = (length s + length u)%nat ->
  zlen gap = zlen u -> 0 < zlen u -> dp_asc ((h :: s) ++ out) -> dp_asc (u ++ out) ->
  (forall x y, x ∈ s -> y ∈ u -> dp_pgno x <> dp_pgno y) -> (forall y, y ∈ u -> dp_pgno h < dp_pgno y) ->
  forall fuel, (n < fuel)%nat ->
  exists out' junk', dpl_merge_loop fuel ((h :: s) ++ gap ++ out ++ mid ++ u ++ junk) (zlen s + zlen gap) (zlen s)
      (zlen s + zlen gap + zlen out + zlen mid + zlen u) = Some (h :: out' ++ mid ++ junk') /\
    out' ≡ₚ s ++ u ++ out /\ dp_asc (h :: out') /\ zlen junk' = zlen u + zlen junk.
Proof.
  induction n as [n IH] using lt_wf_ind. intros h s u gap out mid junk En Hg Hu Hso Huo Hne Hh fuel Hf.
  destruct fuel as [|fuel]; [lia|]. cbn [dpl_merge_loop]. zlen_pos.
  destruct (zsplit_snoc u Hu) as (u0 & y & ->). destruct (zsplit_snoc gap) as (gap0 & g & ->); [lia|].
  destruct (zsplit_snoc (h :: s)) as (s0 & x & Es); [zlia|].
  assert (zlen s0 = zlen s) as Hs0 by (apply (f_equal zlen) in Es; zlia).
  rewrite Es in *. zlen_pos.
  assert (zget ((s0 ++ [x]) ++ (gap0 ++ [g]) ++ out ++ mid ++ (u0 ++ [y]) ++ junk) (zlen s) = Some x) as ->.
  { rewrite <- app_assoc. apply zget_app_mid. lia. }
  assert (zget ((s0 ++ [x]) ++ (gap0 ++ [g]) ++ out ++ mid ++ (u0 ++ [y]) ++ junk)
    (zlen s + zlen (gap0 ++ [g]) + zlen out + zlen mid + zlen (u0 ++ [y])) = Some y) as ->.
  { rewrite !app_assoc. rewrite <- (app_assoc _ [y] junk). apply zget_app_mid. zlia. }
  cbn [mbind option_bind].
  destruct (Z.ltb_spec (dp_pgno y) (dp_pgno x)) as [Hlt|Hge].
  - (** The last of the sorted part is greater, and it is not the first one. *)
    destruct s0 as [|h' s1]; [exfalso; injection Es as -> ->; specialize (Hh y ltac:(apply elem_of_app; right; by constructor)); lia|].
    injection Es as -> ->.
    destruct (zmove_up (h' :: s1) x (gap0 ++ [g]) (out ++ mid ++ (u0 ++ [y]) ++ junk)) as (gap' & Hg' & E0).
    assert (zset (((h' :: s1) ++ [x]) ++ (gap0 ++ [g]) ++ out ++ mid ++ (u0 ++ [y]) ++ junk)
      (zlen (s1 ++ [x]) + zlen (gap0 ++ [g])) x =
      Some ((h' :: s1) ++ gap' ++ (x :: out) ++ mid ++ (u0 ++ [y]) ++ junk)) as ->.
    { rewrite <- (app_assoc (h' :: s1)). cbn [app] in E0 |- *. rewrite <- E0. f_equal. zlia. }
    cbn [mbind option_bind].
    destruct (Z.ltb_spec (zlen (s1 ++ [x]) - 1) (zlen (s1 ++ [x]) + zlen (gap0 ++ [g]) - 1)); [|zlia].
    destruct (IH (length s1 + length (u0 ++ [y]))%nat ltac:(rewrite !length_app in *; cbn in *; lia)
      h' s1 (u0 ++ [y]) gap' (x :: out) mid junk eq_refl) with (fuel := fuel) as (out' & junk' & E & HP & Ha & Hj).
    { zlia. } { zlia. } { by rewrite (cons_middle x), app_assoc. } { by apply (dp_asc_insert u0 y (h' :: s1) x). }
    { intros a b Ha Hb. apply Hne; [apply elem_of_app; by left|done]. } { done. }
    { rewrite !length_app in *. cbn in *. lia. }
    exists out', junk'. split_and!; [|etrans; [exact HP|solve_Permutation]|done|done].
    rewrite <- E. f_equal; zlia.
  - assert (zset ((s0 ++ [x]) ++ (gap0 ++ [g]) ++ out ++ mid ++ (u0 ++ [y]) ++ junk) (zlen s + zlen (gap0 ++ [g])) y =
      Some ((h :: s) ++ gap0 ++ (y :: out) ++ mid ++ u0 ++ (y :: junk))) as ->.
    { rewrite Es. rewrite <- (app_assoc gap0), (app_assoc (s0 ++ [x])). cbn [app]. rewrite zset_app_mid by zlia.
      f_equal. rewrite <- !app_assoc. cbn [app]. done. }
    cbn [mbind option_bind].
    assert (dp_pgno x < dp_pgno y) as Hxy.
    { enough (dp_pgno x <> dp_pgno y) by lia.
      destruct s0 as [|h' s1]; injection Es as -> ->.
      - specialize (Hh y ltac:(apply elem_of_app; right; by constructor)). lia.
      - apply Hne; apply elem_of_app; right; by constructor. }
    assert (dp_asc ((h :: s) ++ y :: out)) as Hasc by (rewrite Es; by apply (dp_asc_insert s0 x u0 y)).
    destruct (Z.ltb_spec (zlen s) (zlen s + zlen (gap0 ++ [g]) - 1)) as [Hl2|Hg2].
    + destruct (IH (length s + length u0)%nat ltac:(rewrite !length_app in *; cbn in *; lia)
        h s u0 gap0 (y :: out) mid (y :: junk) eq_refl) with (fuel := fuel) as (out' & junk' & E & HP & Ha & Hj).
      { zlia. } { zlia. } { done. } { by rewrite (cons_middle y), app_assoc. }
      { intros a b Ha Hb. apply Hne; [done|apply elem_of_app; by left]. } { intros z Hz. apply Hh, elem_of_app. by left. }
      { rewrite !length_app in *. cbn in *. lia. }
      exists out', junk'. split_and!; [|etrans; [exact HP|solve_Permutation]|done|zlia].
      rewrite <- E. f_equal; zlia.
    + assert (gap0 = []) as -> by (apply zlen_0_nil; zlia). assert (u0 = []) as -> by (apply zlen_0_nil; zlia).
      exists (s ++ y :: out), (y :: junk). split_and!; [|solve_Permutation|done|zlia].
      cbn [app]. by rewrite <- !app_assoc.
Qed.

(** ** Sorting *)

Lemma dp_valid_elem dl l x : dpl_ok dl l -> x ∈ l -> 0 < dp_pgno x < P_INVALID.
Proof. intros [_ _ _ _ Hv _ _ _ _] Hx. rewrite Forall_forall in Hv. by apply Hv. Qed.

(** Distinct page numbers are no more than the page numbers there are. *)
Lemma dpl_length_bound dl l : dpl_ok dl l -> zlen l <= UINT32_MAX.
Proof.
  intros Hok. assert (dp_pgno <$> l ⊆+ seqZ 1 UINT32_MAX) as Hsub.
  { apply NoDup_submseteq; [apply (dok_nodup _ _ Hok)|]. intros p (x & -> & Hx)%list_elem_of_fmap_1.
    apply (dp_valid_elem dl l) in Hx; [|done]. apply elem_of_seqZ. unfold P_INVALID in Hx. lia. }
  apply submseteq_length in Hsub. rewrite length_fmap, length_seqZ in Hsub. unfold zlen, UINT32_MAX in *. lia.
Qed.

(** The list with all of its pages in ascending order. *)
Definition resorted (dl : dpl) (l : list dp) (res : option dpl) : Prop :=
  exists dl' l', res = Some dl' /\ dpl_ok dl' l' /\ l' ≡ₚ l /\ dp_asc l' /\ dl_sorted dl' = dl_length dl' /\
    dl_detent dl' = dl_detent dl /\ dl_pages_including_loose dl' = dl_pages_including_loose dl.

Lemma resorted_intro dl l l' rest : dpl_ok dl l -> l' ≡ₚ l ->
  StronglySorted (fun x y => dp_pgno x <= dp_pgno y) l' -> zlen (stubB :: l' ++ stubE :: rest) = zlen (dl_items dl) ->
  resorted dl l (Some (mk_dpl (dl_length dl) (dl_length dl) (dl_pages_including_loose dl) (dl_detent dl) (stubB :: l' ++ stubE :: rest))).
Proof.
  intros Hok HP Hs Hz. assert (zlen l' = zlen l) as El by (by rewrite HP). pose proof (dok_length _ _ Hok) as Hlen.
  assert (dp_asc l') as Ha by (apply dp_asc_weak; [done|rewrite HP; apply (dok_nodup _ _ Hok)]).
  eexists _, l'. split; [done|]. rewrite Hlen, <- El. split_and!; try done.
  apply (dpl_ok_reorder dl l l' l' [] rest); [done|done|by rewrite app_nil_r|done|done].
Qed.

(** The branch that merges the sorted tail into the sorted part. *)
Lemma sort_merge_spec cm dl l s u rest : dpl_ok dl l -> dl_items dl = stubB :: l ++ stubE :: rest -> l = s ++ u -> dp_asc s ->
  0 < zlen u < 142 -> 0 < zlen s ->
  exists l' rest', (m ← blit (dl_items dl) (1 + zlen s) (dl_items dl) (zlen l + zlen l + 1 - zlen u) (zlen u);
    m ← sort_impl DP_SORT_CMP cm m (zlen l + zlen l + 1 - zlen u) (zlen l + zlen l + 1 - zlen u + zlen u);
    dpl_merge_loop (S (Z.to_nat (zlen l))) m (zlen l) (zlen s) (zlen l + zlen l + 1 - 1)) = Some (stubB :: l' ++ stubE :: rest') /\
    l' ≡ₚ l /\ dp_asc l' /\ zlen rest' = zlen rest.
Proof.
  intros Hok Hit El Has Hu Hs. pose proof (dok_alloc _ _ Hok) as Hal. pose proof (dok_room _ _ Hok) as Hroom.
  pose proof (dok_nodup _ _ Hok) as Hnd. rewrite Hit in Hal. unfold dpl_reserve_gap, dpl_gap_mergesort, dpl_gap_edging in Hal.
  assert (zlen l = zlen s + zlen u) as Hzl by (by subst l; rewrite zlen_app).
  destruct (zsplit rest (zlen s - 1)) as (r1 & rr & -> & Hr1); [zlia|].
  destruct (zsplit rr (zlen u)) as (r2 & r3 & -> & Hr2); [zlia|]. rewrite Hit. zlen_pos.
  assert (blit (stubB :: l ++ stubE :: r1 ++ r2 ++ r3) (1 + zlen s) (stubB :: l ++ stubE :: r1 ++ r2 ++ r3)
    (zlen l + zlen l + 1 - zlen u) (zlen u) = Some ((stubB :: l ++ stubE :: r1) ++ u ++ r3)) as ->.
  { replace (stubB :: l ++ stubE :: r1 ++ r2 ++ r3) with ((stubB :: s) ++ u ++ stubE :: r1 ++ r2 ++ r3) at 1
      by (subst l; cbn; by rewrite <- app_assoc).
    replace (stubB :: l ++ stubE :: r1 ++ r2 ++ r3) with ((stubB :: l ++ stubE :: r1) ++ r2 ++ r3)
      by (cbn; by rewrite <- app_assoc). apply blit_split; rewrite ?zlen_cons, ?zlen_app, ?zlen_cons; lia. }
  cbn [mbind option_bind].
  destruct (sort_impl_spec DP_SORT_CMP cm (stubB :: l ++ stubE :: r1) u r3) as (u' & E & HPu & Hsu).
  { unfold sort_stack_size. lia. }
  replace (zlen (stubB :: l ++ stubE :: r1)) with (zlen l + zlen l + 1 - zlen u) in E by zlia.
  rewrite E. cbn [mbind option_bind]. assert (zlen u' = zlen u) as Hzu by (by rewrite HPu).
  assert (NoDup (dp_pgno <$> s ++ u')) as Hnd' by (rewrite HPu; by rewrite <- El).
  assert (dp_asc u') as Hau.
  { apply dp_asc_weak; [|rewrite fmap_app in Hnd'; by apply NoDup_app in Hnd' as (_ & _ & ?)].
    eapply StronglySorted_impl; [|exact Hsu]. intros x y. unfold DP_SORT_CMP. lia. }
  assert (forall x, x ∈ s ++ u' -> 0 < dp_pgno x < P_INVALID) as Hv.
  { intros x. rewrite HPu, <- El. by apply dp_valid_elem with dl. }
  destruct (dpl_merge_loop_spec _ stubB s u' u [] (stubE :: r1) r3 eq_refl) with (fuel := S (Z.to_nat (zlen l)))
    as (l' & junk' & Em & HPl & Hasc & Hj).
  { done. } { lia. }
  { rewrite app_nil_r. apply dp_asc_cons_iff. split; [done|]. intros y Hy. change (dp_pgno stubB) with 0.
    specialize (Hv y). rewrite elem_of_app in Hv. specialize (Hv (or_introl Hy)). lia. }
  { by rewrite app_nil_r. }
  { intros x y Hx Hy Exy. rewrite fmap_app in Hnd'. apply NoDup_app in Hnd' as (_ & Hd & _).
    apply (Hd (dp_pgno x)); [by apply list_elem_of_fmap_2|]. rewrite Exy. by apply list_elem_of_fmap_2. }
  { intros y Hy. change (dp_pgno stubB) with 0. specialize (Hv y). rewrite elem_of_app in Hv. specialize (Hv (or_intror Hy)). lia. }
  { unfold zlen in *. rewrite El, !length_app. lia. }
  exists l', (r1 ++ junk'). split_and!.
  - cbn [app] in Em. rewrite <- Em. f_equal; [|zlia|zlia].
    subst l. cbn. rewrite <- !app_assoc. cbn. by rewrite <- ?app_assoc.
  - rewrite HPl, app_nil_r, HPu. by subst l.
  - by apply dp_asc_cons_iff in Hasc as [? _].
  - zlia.
Qed.

Lemma txn_dpl_sort_slowpath_spec cm dl l : dpl_ok dl l -> dl_sorted dl < dl_length dl ->
  resorted dl l (txn_dpl_sort_slowpath cm dl).
Proof.
  intros Hok Hns. pose proof (dok_items _ _ Hok) as [rest Hit]. pose proof (dok_length _ _ Hok) as Hlen.
  pose proof (dok_sorted _ _ Hok) as (s & u & El & Hso & Has).
  pose proof (dok_alloc _ _ Hok) as Hal. pose proof (dok_room _ _ Hok) as Hroom. pose proof (dok_detent _ _ Hok) as Hdet.
  unfold dpl_reserve_gap, dpl_gap_mergesort, dpl_gap_edging in Hal.
  assert (zlen l = zlen s + zlen u) as Hzl by (by subst l; rewrite zlen_app).
  unfold txn_dpl_sort_slowpath. cbn zeta. rewrite Hso in *. zlen_pos.
  destruct (Z.ltb_spec (dl_length dl - zlen s) MDBX_RADIXSORT_THRESHOLD) as [Ht|Ht]; unfold MDBX_RADIXSORT_THRESHOLD in Ht.
  - destruct (Z.ltb_spec ((dl_length dl - zlen s) / 4 + 4) (zlen s)) as [Hm|Hm].
    + destruct (sort_merge_spec cm dl l s u rest Hok Hit El Has) as (l' & rest' & E & HP & Ha & Hz); [lia| |].
      { pose proof (Z.div_pos (dl_length dl - zlen s) 4 ltac:(lia) ltac:(lia)). lia. }
      replace (dl_length dl - zlen s) with (zlen u) in * by lia. rewrite Hlen.
      destruct (blit (dl_items dl) _ _ _ _) as [m1|]; [|done]. cbn [mbind option_bind] in *.
      destruct (sort_impl DP_SORT_CMP cm m1 _ _) as [m2|]; [|done]. cbn [mbind option_bind] in *. rewrite E. cbn [mbind option_bind].
      rewrite <- Hlen. apply resorted_intro; [done|done| |].
      * eapply StronglySorted_impl; [|exact Ha]. cbn. lia.
      * assert (zlen l' = zlen l) by (by rewrite HP). rewrite Hit. zlia.
    + destruct (sort_impl_spec DP_SORT_CMP cm [stubB] l (stubE :: rest)) as (l' & E & HP & Hs).
      { unfold sort_stack_size. lia. }
      rewrite Hit, Hlen. change (zlen [stubB]) with 1 in E. rewrite (Z.add_comm 1) in E. cbn [app] in E. rewrite E. cbn [mbind option_bind].
      rewrite <- Hlen. apply resorted_intro; [done|done| |].
      * eapply StronglySorted_impl; [|exact Hs]. intros x y. unfold DP_SORT_CMP. lia.
      * assert (zlen l' = zlen l) by (by rewrite HP). rewrite Hit. zlia.
  - destruct (zsplit rest (zlen l)) as (buf & post & -> & Hbuf); [rewrite Hit in Hal; zlia|].
    destruct (radixsort_spec MDBX_DPL_EXTRACT_KEY 1 [stubB] l [stubE] buf post) as (l' & buf' & E & HP & Hb & Hs).
    { split; [lia|by apply dpl_length_bound with dl]. }
    { done. } { done. } { intros x Hx. unfold MDBX_DPL_EXTRACT_KEY. apply (dp_valid_elem dl l) in Hx; [|done]. unfold P_INVALID, UINT32_MAX in Hx. lia. }
    rewrite Hit, Hlen. change (zlen [stubB]) with 1 in E. cbn [app] in E.
    replace (Z.to_nat (zlen l)) with (length l) by (unfold zlen; lia). rewrite E. cbn [mbind option_bind].
    rewrite <- Hlen. apply resorted_intro; [done|done|done|].
    assert (zlen l' = zlen l) by (by rewrite HP). rewrite Hit. zlia.
Qed.

Lemma txn_dpl_sort_spec cm dl l : dpl_ok dl l -> resorted dl l (txn_dpl_sort cm dl).
Proof.
  intros Hok. unfold txn_dpl_sort. destruct (Z.eqb_spec (dl_sorted dl) (dl_length dl)) as [E|Hne].
  - exists dl, l. split; [done|]. split_and!; try done.
    destruct (dok_sorted _ _ Hok) as (s & u & El & Hso & Has). pose proof (dok_length _ _ Hok) as Hlen.
    assert (u = []) as ->. { apply zlen_0_nil. subst l. zlia. }
    rewrite app_nil_r in El. by subst l.
  - apply txn_dpl_sort_slowpath_spec; [done|]. destruct (dok_sorted _ _ Hok) as (s & u & El & Hso & _).
    pose proof (dok_length _ _ Hok) as Hlen. subst l. zlia.
Qed.

(** ** Searching *)

Lemma dp_bsearch_spec cm s rest pgno : dp_asc s -> 0 < zlen rest ->
  exists a b, s = a ++ b /\ (forall x, x ∈ a -> dp_pgno x < pgno) /\ (forall x, x ∈ b -> pgno <= dp_pgno x) /\
    search_impl DP_SEARCH_CMP cm (stubB :: s ++ rest) 1 (zlen s) pgno = Some (zlen a + 1).
Proof.
  intros Ha Hr. zlen_pos.
  destruct (search_impl_spec DP_SEARCH_CMP cm (stubB :: s ++ rest) 1 (zlen s) pgno) as (r & -> & Hb & Hlt & Hge);
    [lia|lia|zlia|zlia| |].
  { intros i j x y Hij Hj. rewrite !zget_cons_pos, !zget_app_l by lia. intros Hx Hy. unfold DP_SEARCH_CMP, dp_asc in *.
    rewrite StronglySorted_zget in Ha. specialize (Ha (i - 1) (j - 1) x y ltac:(lia) Hx Hy). cbn in Ha. lia. }
  destruct (zsplit s (r - 1)) as (a & b & -> & Hza); [lia|]. exists a, b. split_and!; [done| | |f_equal; lia].
  - intros x (i & Hi & Hx)%elem_zget. specialize (Hlt (i + 1) x ltac:(lia)).
    rewrite zget_cons_pos, !zget_app_l, Z.add_simpl_r in Hlt by zlia. unfold DP_SEARCH_CMP in Hlt. specialize (Hlt Hx). lia.
  - intros x (i & Hi & Hx)%elem_zget. specialize (Hge (zlen a + i + 1) x). autorewrite with zlen in Hge. zlen_pos.
    rewrite zget_cons_pos, zget_app_l, (zget_app_skip a b _ i) in Hge by zlia. unfold DP_SEARCH_CMP in Hge.
    specialize (Hge ltac:(lia) Hx). lia.
Qed.

Lemma linear_search_spec dl h t rest pgno : dl_items dl = stubB :: h ++ t ++ rest -> dl_length dl = zlen h + zlen t ->
  exists found, linear_search (length t) dl pgno = Some found /\
    match found with
    | Some i => exists x, x ∈ t /\ dp_pgno x = pgno /\ zget (dl_items dl) i = Some x /\ zlen h < i <= dl_length dl
    | None => forall x, x ∈ t -> dp_pgno x <> pgno
    end.
Proof.
  revert h. induction t as [|x t IH]; intros h Hit Hlen; cbn [length linear_search].
  { exists None. split; [done|]. by intros x ?%elem_of_nil. }
  replace (dl_length dl - Z.of_nat (S (length t)) + 1) with (zlen (stubB :: h)) by (unfold zlen in *; cbn [length] in *; lia).
  assert (zget (dl_items dl) (zlen (stubB :: h)) = Some x) as Ex by (rewrite Hit; cbn [app]; rewrite (app_comm_cons h); by apply zget_app_mid).
  rewrite Ex. cbn [mbind option_bind]. destruct (Z.eqb_spec (dp_pgno x) pgno) as [E|Hne].
  - eexists. split; [done|]. exists x. split_and!; [by constructor|done|done|zlia|]. rewrite Hlen. zlia.
  - destruct (IH (h ++ [x])) as (found & -> & Hf); [by rewrite Hit, <- app_assoc|zlia|]. exists found. split; [done|].
    destruct found as [i|].
    + destruct Hf as (y & Hy & Ey & Hg & Hi). exists y. split_and!; [by constructor|done|done|zlia|lia].
    + intros y [->|Hy]%elem_of_cons; [done|by apply Hf].
Qed.

(** The search of a sorted list: the first page not below. *)
Lemma txn_dpl_search_sorted cm dl l pgno : dpl_ok dl l -> dl_sorted dl = dl_length dl ->
  exists a b, l = a ++ b /\ (forall x, x ∈ a -> dp_pgno x < pgno) /\ (forall x, x ∈ b -> pgno <= dp_pgno x) /\
    txn_dpl_search cm dl pgno = Some (zlen a + 1, dl).
Proof.
  intros Hok E. pose proof (dok_items _ _ Hok) as [rest Hit]. pose proof (dok_length _ _ Hok) as Hlen.
  destruct (dok_sorted _ _ Hok) as (s & u & El & Hso & Has).
  assert (u = []) as -> by (apply zlen_0_nil; subst l; zlia). rewrite app_nil_r in El. subst s.
  destruct (dp_bsearch_spec cm l (stubE :: rest) pgno Has) as (a & b & El & Hlo & Hhi & Es); [zlia|].
  exists a, b. split_and!; [done..|]. unfold txn_dpl_search. rewrite E, Z.sub_diag. cbn [Z.eqb mbind option_bind].
  rewrite Hit, Hso, Es. done.
Qed.

(** The search of any list: the index of the page, or an index of another one. *)
Definition searched (dl : dpl) (l : list dp) (pgno : Z) (res : option (Z * dpl)) : Prop :=
  exists i dl' l', res = Some (i, dl') /\ dpl_ok dl' l' /\ l' ≡ₚ l /\ 1 <= i <= zlen l + 1 /\
    ((exists x, x ∈ l' /\ dp_pgno x = pgno /\ zget (dl_items dl') i = Some x /\ i <= zlen l) \/
     (forall x, x ∈ l' -> dp_pgno x <> pgno)).

Lemma searched_sorted cm dl l pgno : dpl_ok dl l -> dl_sorted dl = dl_length dl -> searched dl l pgno (txn_dpl_search cm dl pgno).
Proof.
  intros Hok E. destruct (txn_dpl_search_sorted cm dl l pgno Hok E) as (a & b & El & Hlo & Hhi & ->).
  pose proof (dok_items _ _ Hok) as [rest Hit].
  eexists _, dl, l. split; [done|]. split_and!; [done|done|zlia|subst l; zlia|].
  destruct b as [|y b]; [right|destruct (Z.eq_dec (dp_pgno y) pgno) as [Ey|Hne]; [left|right]].
  - rewrite app_nil_r in El. subst a. intros x Hx. specialize (Hlo x Hx). lia.
  - exists y. split_and!; [subst l; apply elem_of_app; right; by constructor|done| |subst l; zlia].
    rewrite Hit, El, <- app_assoc. cbn [app]. rewrite (app_comm_cons a). apply zget_app_mid. zlia.
  - assert (dp_asc l) as Ha.
    { destruct (dok_sorted _ _ Hok) as (s & u & El' & Hso & Has). pose proof (dok_length _ _ Hok) as Hlen.
      assert (u = []) as -> by (apply zlen_0_nil; rewrite El' in Hlen; zlia). rewrite app_nil_r in El'. by subst s. }
    rewrite El in Ha |- *. apply dp_asc_app_iff in Ha as (_ & Ha & _). apply dp_asc_cons_iff in Ha as [_ Hy].
    intros x [Hx|[->|Hx]%elem_of_cons]%elem_of_app; [specialize (Hlo x Hx); lia|done|].
    specialize (Hy x Hx). specialize (Hhi y ltac:(by constructor)). lia.
Qed.

Lemma txn_dpl_search_spec cm dl l pgno : dpl_ok dl l -> searched dl l pgno (txn_dpl_search cm dl pgno).
Proof.
  intros Hok. destruct (dok_sorted _ _ Hok) as (s & u & El & Hso & Has). pose proof (dok_length _ _ Hok) as Hlen.
  pose proof (dok_items _ _ Hok) as [rest Hit]. assert (zlen l = zlen s + zlen u) as Hzl by (by subst l; rewrite zlen_app). zlen_pos.
  destruct (decide (dl_sorted dl = dl_length dl)) as [E|Hne]; [by apply searched_sorted|].
  unfold txn_dpl_search. cbn zeta. destruct (Z.eqb_spec (dl_length dl - dl_sorted dl) 0); [lia|].
  destruct (Z.leb_spec (dl_length dl - dl_sorted dl) 7) as [Ht|Ht].
  - replace (Z.to_nat (dl_length dl - dl_sorted dl)) with (length u) by (unfold zlen in *; lia).
    destruct (linear_search_spec dl s u (stubE :: rest) pgno) as (found & -> & Hf).
    { rewrite Hit, El. cbn. by rewrite <- app_assoc. } { lia. }
    cbn [mbind option_bind]. destruct found as [i|].
    + destruct Hf as (x & Hx & Ex & Hg & Hi). eexists _, dl, l. split; [done|]. split_and!; [done|done|lia|lia|].
      left. exists x. split_and!; [subst l; apply elem_of_app; by right|done|done|lia].
    + destruct (dp_bsearch_spec cm s (u ++ stubE :: rest) pgno Has) as (a & b & Es & Hlo & Hhi & E); [zlia|].
      rewrite Hso, Hit, El, <- app_assoc, E. cbn [mbind option_bind].
      assert (zlen s = zlen a + zlen b) as Hzs by (by subst s; rewrite zlen_app). zlen_pos.
      eexists _, dl, l. split; [done|]. rewrite El in Hok |- *. split_and!; [done|done|lia|zlia|].
      destruct b as [|y b]; [right|destruct (Z.eq_dec (dp_pgno y) pgno) as [Ey|Hney]; [left|right]].
      * rewrite app_nil_r in Es. subst a. intros x [Hx|Hx]%elem_of_app; [specialize (Hlo x Hx); lia|by apply Hf].
      * exists y. split_and!; [subst s; rewrite !elem_of_app; left; right; by constructor|done| |zlia].
        rewrite Hit, El, Es, <- !app_assoc. cbn [app]. rewrite (app_comm_cons a). apply zget_app_mid. zlia.
      * rewrite Es in Has. apply dp_asc_app_iff in Has as (_ & Ha & _). apply dp_asc_cons_iff in Ha as [_ Hy].
        intros x [Hx|Hx]%elem_of_app; [|by apply Hf]. rewrite Es in Hx.
        apply elem_of_app in Hx as [Hx|[->|Hx]%elem_of_cons]; [specialize (Hlo x Hx); lia|done|].
        specialize (Hy x Hx). specialize (Hhi y ltac:(by constructor)). lia.
  - destruct (txn_dpl_sort_slowpath_spec cm dl l Hok) as (dl' & l' & -> & Hok' & HP & _ & E' & _); [lia|].
    cbn [mbind option_bind].
    destruct (searched_sorted cm dl' l' pgno Hok' E') as (i & dl2 & l2 & E & Hok2 & HP2 & Hi & Hc).
    unfold txn_dpl_search in E. rewrite E', Z.sub_diag in E. cbn [Z.eqb mbind option_bind] in E. rewrite E.
    assert (zlen l' = zlen l) as Ez by (by rewrite HP). exists i, dl2, l2. split; [done|]. rewrite <- Ez.
    split_and!; [done|by rewrite HP2|lia|lia|done].
Qed.

(** The search always ends at an entry or at the sentinel behind the list. *)
Lemma txn_dpl_exist_found cm dl l pgno : dpl_ok dl l -> pgno <> P_INVALID ->
  exists i dl' l' x, txn_dpl_search cm dl pgno = Some (i, dl') /\ zget (dl_items dl') i = Some x /\ dpl_ok dl' l' /\ l ≡ₚ l' /\
    ((dp_pgno x = pgno /\ x ∈ l /\ 0 < i <= zlen l) \/ (dp_pgno x <> pgno /\ forall y, y ∈ l -> dp_pgno y <> pgno)).
Proof.
  intros Hok Hpg.
  destruct (txn_dpl_search_spec cm dl l pgno Hok) as (i & dl' & l' & -> & Hok' & HP & Hi & Hc).
  destruct Hc as [(x & Hx & Ex & Hg & Hi')|Hno].
  - exists i, dl', l', x. split_and!; [done|done|done|done|]. left. rewrite HP in Hx. split_and!; [done|done|lia|lia].
  - assert (zlen l' = zlen l) as Ez by (by rewrite HP). destruct (dok_items _ _ Hok') as [rest Hit].
    assert (exists x, zget (dl_items dl') i = Some x /\ dp_pgno x <> pgno) as (x & Hg & Hne).
    { rewrite Hit, zget_cons_pos by lia. destruct (decide (i = zlen l + 1)) as [->|Hne].
      - exists stubE. split; [apply zget_app_mid; lia|]. change (dp_pgno stubE) with P_INVALID. done.
      - rewrite zget_app_l by lia. destruct (zget_in l' (i - 1)) as [x Hx]; [lia|]. exists x. split; [done|].
        apply Hno. by eapply zget_elem. }
    exists i, dl', l', x. split_and!; [done|done|done|done|]. right. split; [done|]. intros y Hy. apply Hno. by rewrite HP.
Qed.

Lemma txn_dpl_exist_spec cm dl l pgno : dpl_ok dl l -> 0 < pgno < P_INVALID ->
  exists i dl' l', txn_dpl_exist cm dl pgno = Some (i, dl') /\ dpl_ok dl' l' /\ l' ≡ₚ l /\
    ((i = 0 /\ forall x, x ∈ l -> dp_pgno x <> pgno) \/
     (0 < i <= zlen l /\ exists x, x ∈ l /\ dp_pgno x = pgno /\ zget (dl_items dl') i = Some x)).
Proof.
  intros Hok Hpg. unfold txn_dpl_exist.
  destruct (txn_dpl_exist_found cm dl l pgno Hok) as (i & dl' & l' & x & -> & Hg & Hok' & HP & Hc); [lia|].
  cbn [mbind option_bind]. rewrite Hg. cbn [mbind option_bind].
  destruct (Z.eqb_spec (dp_pgno x) pgno) as [Ex|Ex]; (destruct Hc as [(E & Hx & Hi)|(Hne & Hno)]; [|]); try done.
  - exists i, dl', l'. split_and!; [done|done|done|]. right. split; [lia|]. by exists x.
  - exists 0, dl', l'. split_and!; [done|done|done|]. by left.
Qed.

(** ** Intersection with a span *)

(** The entries do not overlap, each is of one page at least and ends below
    the last page number. *)
Definition dp_disjoint : list dp -> Prop := StronglySorted (fun x y => dp_pgno x + dp_npages_ x <= dp_pgno y).

Definition dp_span_ok (x : dp) : Prop := 0 < dp_npages_ x /\ dp_pgno x + dp_npages_ x <= P_INVALID.

Lemma txn_dpl_intersect_spec cm dl l pgno npages : dpl_ok dl l -> dl_sorted dl = dl_length dl ->
  dp_disjoint l -> Forall dp_span_ok l -> 0 < pgno -> 0 < npages -> pgno + npages <= P_INVALID ->
  exists b, txn_dpl_intersect cm dl pgno npages = Some b /\
    (b = true <-> exists x, x ∈ l /\ dp_pgno x < pgno + npages /\ pgno < dp_pgno x + dp_npages_ x).
Proof.
  intros Hok E Hdis Hspan Hp Hn Hend. unfold txn_dpl_intersect.
  destruct (txn_dpl_search_sorted cm dl l pgno Hok E) as (a & b & El & Hlo & Hhi & ->). cbn [mbind option_bind].
  destruct (dok_items _ _ Hok) as [rest Hit]. rewrite Forall_forall in Hspan. unfold dp_span_ok, P_INVALID in *.
  rewrite u64_small by (unfold UINT64_MAX, UINT32_MAX in *; lia). rewrite El in Hdis.
  apply StronglySorted_app_iff in Hdis as (Hda & Hdb & Hdab).
  assert (exists y, zget (dl_items dl) (zlen a + 1) = Some y /\
    (dp_pgno y < pgno + npages <-> exists x, x ∈ b /\ dp_pgno x < pgno + npages)) as (y & -> & Hy).
  { rewrite Hit, El, zget_cons_pos, Z.add_simpl_r by zlia. rewrite <- app_assoc. destruct b as [|y b].
    - exists stubE. cbn [app]. rewrite zget_app_mid by done. split; [done|]. change (dp_pgno stubE) with UINT32_MAX.
      split; [lia|]. by intros (x & ?%elem_of_nil & _).
    - exists y. cbn [app]. rewrite zget_app_mid by done. split; [done|]. split; [intros; exists y; split; [by constructor|done]|].
      intros (x & [->|Hx]%elem_of_cons & Hlt); [done|]. inversion Hdb as [|?? _ Hall]; subst. rewrite Forall_forall in Hall.
      specialize (Hall x Hx). specialize (Hspan y). rewrite elem_of_app, elem_of_cons in Hspan. specialize (Hspan ltac:(auto)). lia. }
  cbn [mbind option_bind].
  assert (forall x, x ∈ b -> 0 < dp_npages_ x /\ pgno <= dp_pgno x) as Hb.
  { intros x Hx. split; [|by apply Hhi]. apply (Hspan x). subst l. apply elem_of_app. by right. }
  destruct (Z.ltb_spec (dp_pgno y) (pgno + npages)) as [Hlt|Hge].
  { exists true. split; [done|]. split; [|done]. intros _. apply Hy in Hlt as (x & Hx & Hlt). exists x.
    specialize (Hb x Hx). split_and!; [subst l; apply elem_of_app; by right|done|lia]. }
  unfold dpl_endpgno. rewrite Z.add_simpl_r.
  assert (exists z, zget (dl_items dl) (zlen a) = Some z /\ 0 <= dp_npages_ z + dp_pgno z <= UINT32_MAX /\
    (pgno < dp_npages_ z + dp_pgno z <-> exists x, x ∈ a /\ pgno < dp_pgno x + dp_npages_ x)) as (z & -> & Hz0 & Hz).
  { destruct a as [|z a _] using rev_ind.
    - exists stubB. rewrite Hit. split; [done|]. change (dp_npages_ stubB + dp_pgno stubB) with 1. split; [unfold UINT32_MAX; lia|].
      split; [lia|]. by intros (x & ?%elem_of_nil & _).
    - exists z. rewrite Hit, El, zlen_snoc, zget_cons_pos, Z.add_simpl_r by zlia. rewrite <- !app_assoc. cbn [app].
      rewrite zget_app_mid by done. split; [done|].
      assert (z ∈ l) as Hzl by (subst l; rewrite !elem_of_app; left; right; by constructor).
      pose proof (Hspan z Hzl). pose proof (dp_valid_elem dl l z Hok Hzl). split; [lia|]. split.
      + intros Hl. exists z. split; [apply elem_of_app; right; by constructor|lia].
      + intros (x & [Hx| ->%list_elem_of_singleton]%elem_of_app & Hl); [|lia].
        apply StronglySorted_app_iff in Hda as (_ & _ & Hxz). specialize (Hxz x z Hx ltac:(by constructor)).
        specialize (Hlo z ltac:(apply elem_of_app; right; by constructor)). lia. }
  cbn [mbind option_bind]. unfold dp_npages. rewrite u32_small by done.
  exists (pgno <? dp_npages_ z + dp_pgno z). split; [done|]. rewrite Z.ltb_lt, Hz. split.
  - intros (x & Hx & Hl). exists x. specialize (Hlo x Hx). split_and!; [subst l; apply elem_of_app; by left|lia|done].
  - intros (x & Hx & H1 & H2). rewrite El in Hx. apply elem_of_app in Hx as [Hx|Hx]; [by exists x|].
    exfalso. assert (dp_pgno y < pgno + npages) by (apply Hy; by exists x). lia.
Qed.

(** ** Removing *)

Lemma dpl_ok_sub dl l l' s' u' items rest : dpl_ok dl l -> l' = s' ++ u' -> dp_asc s' -> sublist l' l ->
  items = stubB :: l' ++ stubE :: rest -> zlen items = zlen (dl_items dl) ->
  dpl_ok (mk_dpl (zlen s') (zlen l') (u64 (dp_total l')) (dl_detent dl) items) l'.
Proof.
  intros [_ Hlen _ Hnd Hv Hroom Hdet Hal Hpg] El Hs Hsub -> Hz.
  assert (zlen l' <= zlen l) as Hle by (unfold zlen; apply sublist_length in Hsub; lia).
  split; cbn [dl_items dl_length dl_sorted dl_detent dl_pages_including_loose].
  - by exists rest.
  - done.
  - by exists s', u'.
  - eapply sublist_NoDup; [exact Hnd|]. by apply fmap_sublist.
  - apply Forall_forall. intros x Hx. rewrite Forall_forall in Hv. apply Hv. by eapply elem_of_sublist.
  - lia.
  - done.
  - by rewrite Hz.
  - done.
Qed.

Lemma txn_dpl_remove_spec dl l a x b : dpl_ok dl l -> l = a ++ x :: b ->
  exists dl', txn_dpl_remove_ex dl (zlen a + 1) (dp_npages_ x) = Some dl' /\ dpl_ok dl' (a ++ b) /\
    txn_dpl_remove dl (zlen a + 1) = Some dl'.
Proof.
  intros Hok El. destruct (dok_items _ _ Hok) as [rest Hit]. pose proof (dok_length _ _ Hok) as Hlen.
  destruct (dok_sorted _ _ Hok) as (s & u & Esu & Hso & Has). pose proof (dok_pages _ _ Hok) as Hpg.
  unfold txn_dpl_remove, dpl_npages, txn_dpl_remove_ex. rewrite Hit, El, Hlen.
  assert (zget (stubB :: (a ++ x :: b) ++ stubE :: rest) (zlen a + 1) = Some x) as ->.
  { rewrite <- app_assoc. cbn [app]. rewrite (app_comm_cons a). apply zget_app_mid. zlia. }
  cbn [mbind option_bind]. unfold dp_npages.
  assert (blit (stubB :: (a ++ x :: b) ++ stubE :: rest) (zlen a + 1 + 1) (stubB :: (a ++ x :: b) ++ stubE :: rest) (zlen a + 1)
    (zlen l - 1 - (zlen a + 1) + 2) = Some (stubB :: (a ++ b) ++ stubE :: stubE :: rest)) as ->.
  { pose proof (blit_split (stubB :: a) (x :: b) (stubE :: rest) ((stubB :: a) ++ [x]) (b ++ [stubE]) rest
      (zlen a + 1 + 1) (zlen a + 1) (zlen l - 1 - (zlen a + 1) + 2)) as HB.
    cbn [app] in HB |- *. rewrite <- !app_assoc in HB |- *. cbn [app] in HB |- *. subst l. rewrite <- (app_assoc b [stubE] (stubE :: rest)) in HB. apply HB; zlia. }
  cbn [mbind option_bind]. eexists. split; [done|]. split; [|done].
  assert (u64 (dl_pages_including_loose dl - dp_npages_ x) = u64 (dp_total (a ++ b))) as ->.
  { rewrite Hpg, El, !dp_total_app. cbn [dp_total]. unfold u64, wrap. rewrite Zminus_mod_idemp_l. f_equal. lia. }
  assert (sublist (a ++ b) l) as Hsub by (subst l; apply sublist_app; [done|by apply sublist_cons]).
  assert (zlen l - 1 = zlen (a ++ b)) as -> by (subst l; zlia). rewrite Hso.
  destruct (Z.leb_spec (zlen a + 1) (zlen s)) as [Hle|Hgt].
  - assert (exists s2, s = a ++ x :: s2 /\ b = s2 ++ u) as (s2 & -> & ->).
    { rewrite El in Esu. apply app_eq_inv in Esu as [(k & -> & Eb)|(k & -> & Eb)].
      - exfalso. zlia.
      - destruct k as [|y k]; [zlia|]. injection Eb as -> ->. by exists k. }
    replace (zlen (a ++ x :: s2) - 1) with (zlen (a ++ s2)) by zlia.
    apply (dpl_ok_sub dl l (a ++ s2 ++ u) (a ++ s2) u _ (stubE :: rest)); [done|by rewrite <- app_assoc| |done|done|subst l; rewrite Hit; zlia].
    apply dp_asc_app_iff in Has as (H1 & [H2 _]%dp_asc_cons_iff & H3). apply dp_asc_app_iff. split_and!; [done|done|].
    intros y z Hy Hz. apply H3; [done|by constructor].
  - assert (exists a2, a = s ++ a2) as (a2 & ->).
    { rewrite El in Esu. apply app_eq_inv in Esu as [(k & -> & Eb)|(k & -> & Eb)]; [by exists k|].
      destruct k as [|y k]; [exists []; by rewrite !app_nil_r|zlia]. }
    apply (dpl_ok_sub dl l _ s (a2 ++ b) _ (stubE :: rest)); [done|by rewrite <- app_assoc|done|done|done|subst l; rewrite Hit; zlia].
Qed.

(** ** Allocation *)

#[export] Instance exact_dp_allocator_ok : DpAllocOk exact_dp_allocator.
Proof.
  assert (forall bytes, 0 <= bytes -> 0 <= (bytes - 32 + 15) / 16 \/ bytes <= 32) as Hp.
  { intros bytes Hb. destruct (decide (bytes <= 32)); [by right|left]. apply Z.div_pos; lia. }
  assert (forall bytes, bytes <= 32 + 16 * ((bytes - 32 + 15) / 16) <= bytes + 15) as Hr.
  { intros bytes. pose proof (Z.div_mod (bytes - 32 + 15) 16 ltac:(lia)).
    pose proof (Z.mod_pos_bound (bytes - 32 + 15) 16 ltac:(lia)). lia. }
  split; unfold exact_dp_allocator, items_bytes, sizeof_dp_t; intros old bytes blk.
  - intros Hb [= <-]. specialize (Hr bytes). unfold zlen. rewrite length_app, length_take, length_replicate.
    replace (Z.of_nat _) with (Z.of_nat (Z.to_nat ((bytes - 32 + 15) / 16))) by lia. specialize (Hp bytes Hb). lia.
  - intros i Hb [= <-] Hi Hlt. unfold zlen in *. rewrite length_app, length_take, length_replicate in Hlt.
    rewrite zget_app_l by (unfold zlen; rewrite length_take; lia).
    unfold zget. destruct (0 <=? i); [|done]. rewrite lookup_take_lt by lia. done.
Qed.

(** A request for [size] entries: the block is large enough for them and for
    the buffer of the sort. *)
Lemma dpl_capacity size n : 0 < size <= PAGELIST_LIMIT ->
  dpl_size2bytes size <= 4 * 8 + 16 * n <= dpl_size2bytes size + 2 ^ 32 ->
  0 <= dpl_size2bytes size /\ size <= dpl_bytes2size (4 * 8 + 16 * n) < 2 ^ 60 /\
  2 * dpl_bytes2size (4 * 8 + 16 * n) + dpl_reserve_gap <= n.
Proof.
  unfold PAGELIST_LIMIT, dpl_size2bytes, dpl_bytes2size, sizeof_dpl_t, sizeof_dp_t, dpl_reserve_gap, dpl_gap_mergesort,
    dpl_gap_edging, MDBX_ASSUME_MALLOC_OVERHEAD, MDBX_PNL_GRANULATE. intros Hs Hn. cbn zeta in *.
  change (Z.shiftl 1 10 * 8 * 2) with (2 ^ 14) in *. rewrite (u64_small (16 + _ + _)) in * by (unfold UINT64_MAX; lia).
  pose proof (ceil_powerof2_spec (16 + (4 * 8 + (16 + 2) * 16) + (size + size) * 16) 14) as Hc. cbn zeta in Hc.
  set (c := ceil_powerof2 _ _) in *. destruct Hc as [[H1 H2] H3]; [lia|lia|lia|].
  rewrite (u64_small (c - 16)) in * by (unfold UINT64_MAX; lia).
  rewrite (u64_small (_ - _)) by (unfold UINT64_MAX; lia).
  replace (4 * 8 + 16 * n - (4 * 8 + (16 + 2) * 16)) with ((n - 18) * 16) by lia. rewrite Z.div_mul by lia.
  rewrite Z.shiftr_div_pow2 by lia. change (2 ^ 1) with 2.
  pose proof (Z.div_mod (n - 18) 2 ltac:(lia)). pose proof (Z.mod_pos_bound (n - 18) 2 ltac:(lia)). lia.
Qed.

Lemma txn_dpl_reserve_spec al `{!DpAllocOk al} dl l size : dpl_ok dl l -> 0 < size -> zlen l <= Z.min size PAGELIST_LIMIT ->
  match txn_dpl_reserve al (Some dl) size with
  | Some dl' => dpl_ok dl' l /\ Z.min size PAGELIST_LIMIT <= dl_detent dl' /\ dl_sorted dl' = dl_sorted dl
  | None => dp_alloc_fails al
  end.
Proof.
  intros Hok Hs Hl. unfold txn_dpl_reserve. cbn zeta.
  replace (if size <? PAGELIST_LIMIT then size else PAGELIST_LIMIT) with (Z.min size PAGELIST_LIMIT) by (destruct (Z.ltb_spec size PAGELIST_LIMIT); lia).
  destruct (al _ _) as [m|] eqn:E; [|by eexists _, _]. set (sz := Z.min size PAGELIST_LIMIT) in *.
  assert (0 < sz <= PAGELIST_LIMIT) as Hsz by (subst sz; unfold PAGELIST_LIMIT; lia).
  assert (0 <= dpl_size2bytes sz) as H0 by (unfold dpl_size2bytes, u64; apply wrap_range; lia).
  pose proof (dp_realloc_usable _ _ _ H0 E) as Hu.
  destruct (dpl_capacity sz (zlen m) Hsz Hu) as (_ & Hd & Ha).
  destruct Hok as [[rest Hit] Hlen Hso Hnd Hv Hroom Hdet Hal Hpg]. unfold items_bytes, sizeof_dp_t in *.
  destruct (zprefix (stubB :: l ++ [stubE]) m) as [rest' ->].
  { unfold dpl_reserve_gap, dpl_gap_mergesort, dpl_gap_edging in Ha. zlia. }
  { unfold dpl_reserve_gap, dpl_gap_mergesort, dpl_gap_edging in Ha. intros i Hi. rewrite (dp_realloc_contents _ _ _ i H0 E); [|rewrite Hit; zlia|zlia].
    rewrite Hit, (cons_middle stubE), app_assoc, (app_comm_cons (l ++ [stubE])), zget_app_l by lia. done. }
  split_and!; [|cbn [dl_detent]; lia|done]. split; cbn [dl_items dl_length dl_sorted dl_detent dl_pages_including_loose]; try done.
  - exists rest'. cbn. by rewrite <- app_assoc.
  - lia.
  - lia.
Qed.

(** ** Adding *)

Lemma shift_tail_spec : forall u pre g rest (fuel : nat), (length u < fuel)%nat ->
  exists g', shift_tail fuel (pre ++ u ++ g :: rest) (zlen pre + zlen u - 1) (zlen pre) =
    Some (pre ++ g' :: u ++ rest, zlen pre - 1).
Proof.
  induction u as [|x u IH] using rev_ind; intros pre g rest fuel Hf; (destruct fuel as [|fuel]; [lia|]); cbn [shift_tail].
  - exists g. rewrite zlen_nil. destruct (Z.leb_spec (zlen pre) (zlen pre + 0 - 1)); [lia|]. do 2 f_equal. lia.
  - zlen_pos. destruct (Z.leb_spec (zlen pre) (zlen pre + zlen (u ++ [x]) - 1)) as [_|?]; [|zlia].
    assert (pre ++ (u ++ [x]) ++ g :: rest = (pre ++ u) ++ x :: [g] ++ rest) as -> by (rewrite <- !app_assoc; done).
    rewrite zget_app_mid by zlia. cbn [mbind option_bind].
    destruct (zmove_up (pre ++ u) x [g] rest) as (gap & Hg & E).
    replace (zlen pre + zlen (u ++ [x]) - 1 + 1) with (zlen (pre ++ u) + zlen [g]) by zlia. rewrite E. cbn [mbind option_bind].
    destruct gap as [|g1 [|]]; [done| |zlia]. cbn [app]. rewrite <- app_assoc.
    destruct (IH pre g1 (x :: rest) fuel) as (g' & E'); [rewrite length_app in Hf; cbn in Hf; lia|].
    exists g'. replace (zlen pre + zlen (u ++ [x]) - 1 - 1) with (zlen pre + zlen u - 1) by zlia. rewrite E'.
    by rewrite <- app_assoc.
Qed.

Lemma shift_sorted_spec : forall s h g rest pgno (fuel : nat), (length s < fuel)%nat -> dp_asc s ->
  dp_pgno h < pgno -> (forall x, x ∈ s -> dp_pgno x <> pgno) ->
  exists a b g', s = a ++ b /\ (forall x, x ∈ a -> dp_pgno x < pgno) /\ (forall x, x ∈ b -> pgno < dp_pgno x) /\
    shift_sorted fuel (h :: s ++ g :: rest) (zlen s) pgno = Some (h :: a ++ g' :: b ++ rest, zlen a).
Proof.
  induction s as [|x s IH] using rev_ind; intros h g rest pgno fuel Hf Ha Hh Hne; (destruct fuel as [|fuel]; [lia|]); cbn [shift_sorted].
  - rewrite zlen_nil, zget_cons_0. cbn [mbind option_bind]. destruct (Z.ltb_spec pgno (dp_pgno h)); [lia|].
    exists [], [], g. split_and!; [done|by intros x ?%elem_of_nil|by intros x ?%elem_of_nil|done].
  - apply dp_asc_app_iff in Ha as (Ha & _ & Hx).
    assert (h :: (s ++ [x]) ++ g :: rest = (h :: s) ++ x :: [g] ++ rest) as -> by (cbn; by rewrite <- app_assoc).
    rewrite zget_app_mid by zlia. cbn [mbind option_bind].
    specialize (Hne x ltac:(apply elem_of_app; right; by constructor)) as Hnx.
    destruct (Z.ltb_spec pgno (dp_pgno x)) as [Hlt|Hge].
    + destruct (zmove_up (h :: s) x [g] rest) as (gap & Hg & E).
      replace (zlen (s ++ [x]) + 1) with (zlen (h :: s) + zlen [g]) by zlia. rewrite E. cbn [mbind option_bind].
      destruct gap as [|g1 [|]]; [done| |zlia]. cbn [app].
      destruct (IH h g1 (x :: rest) pgno fuel) as (a & b & g' & -> & Hlo & Hhi & E'); [rewrite length_app in Hf; cbn in Hf; lia|done|done| |].
      { intros y Hy. apply Hne, elem_of_app. by left. }
      exists a, (b ++ [x]), g'. split_and!; [by rewrite app_assoc|done| |].
      * intros y [Hy| ->%list_elem_of_singleton]%elem_of_app; [by apply Hhi|done].
      * replace (zlen ((a ++ b) ++ [x]) - 1) with (zlen (a ++ b)) by zlia. rewrite E'. by rewrite <- !app_assoc.
    + exists (s ++ [x]), [], g. split_and!; [by rewrite app_nil_r| |by intros y ?%elem_of_nil|].
      * intros y [Hy| ->%list_elem_of_singleton]%elem_of_app; [|lia]. specialize (Hx y x Hy ltac:(by constructor)). lia.
      * cbn. by rewrite <- app_assoc.
Qed.

(** The decision reads inside of the block, and both variants agree. *)
Lemma append_insert_spec cm dl l pgno : dpl_ok dl l -> 0 < pgno ->
  exists b, append_insert cm (dl_items dl) (dl_length dl) (dl_sorted dl) pgno = Some b /\
    append_insert true (dl_items dl) (dl_length dl) (dl_sorted dl) pgno = Some b.
Proof.
  intros Hok Hp. destruct (dok_items _ _ Hok) as [rest Hit]. pose proof (dok_length _ _ Hok) as Hlen.
  destruct (dok_sorted _ _ Hok) as (s & u & _ & Hso & _). zlen_pos.
  assert (forall i, 0 <= i <= dl_length dl -> exists x, zget (dl_items dl) i = Some x) as Hget.
  { intros i Hi. apply zget_in. rewrite Hit. zlia. }
  unfold append_insert, dpl_insertion_threshold. cbn zeta.
  destruct (Hget (if dl_length dl <? 42 then 0 else dl_length dl - 42)) as [x Hx]; [zcase; lia|]. rewrite Hx. cbn [mbind option_bind].
  destruct cm; [eauto|]. exists ((dl_length dl - 42 <=? dl_sorted dl) && (dp_pgno x <? pgno)). split; [|done].
  destruct (Z.leb_spec (dl_length dl - 42) (dl_sorted dl)); [|done]. cbn [andb].
  destruct (Z.leb_spec (dl_length dl - 42) 0) as [Hle|Hgt].
  - assert (x = stubB) as ->; [|change (dp_pgno stubB) with 0; f_equal; lia].
    replace (if dl_length dl <? 42 then 0 else dl_length dl - 42) with 0 in Hx by (destruct (Z.ltb_spec (dl_length dl) 42); lia).
    rewrite Hit in Hx. by injection Hx.
  - destruct (Z.ltb_spec (dl_length dl) 42); [lia|]. rewrite Hx. done.
Qed.

Lemma append_place_spec cm dl l x npages : dpl_ok dl l -> zlen l < dl_detent dl -> dp_valid x ->
  (forall y, y ∈ l -> dp_pgno y <> dp_pgno x) -> dp_npages_ x = npages ->
  exists dl' l', append_place cm dl x npages = Some dl' /\ dpl_ok dl' l' /\ l' ≡ₚ x :: l.
Proof.
  intros Hok Hroom Hx Hnew Hnp. unfold append_place. cbn zeta.
  destruct (append_insert_spec cm dl l (dp_pgno x) Hok) as (ins & -> & _); [unfold dp_valid in Hx; lia|]. cbn [mbind option_bind].
  pose proof Hok as [[rest Hit] Hlen (s & u & El & Hso & Has) Hnd Hv _ Hdet Hal Hpg].
  unfold dpl_reserve_gap, dpl_gap_mergesort, dpl_gap_edging in Hal.
  destruct rest as [|g rest]; [rewrite Hit in Hal; zlia|]. rewrite Hit, Hlen.
  assert (zget (stubB :: l ++ stubE :: g :: rest) (zlen l + 1) = Some stubE) as ->.
  { rewrite (app_comm_cons l). apply zget_app_mid. zlia. }
  cbn [mbind option_bind].
  assert (zset (stubB :: l ++ stubE :: g :: rest) (zlen l + 2) stubE = Some (stubB :: l ++ stubE :: stubE :: rest)) as ->.
  { rewrite (cons_middle stubE), app_assoc, (app_comm_cons (l ++ [stubE])), zset_app_mid by zlia.
    cbn. by rewrite <- app_assoc. }
  cbn [mbind option_bind].
  (** Every placement that keeps the sorted prefix is fine. *)
  assert (forall l' s', l' ≡ₚ x :: l -> (exists u', l' = s' ++ u') -> dp_asc s' ->
    dpl_ok (mk_dpl (zlen s') (zlen l + 1) (u64 (dl_pages_including_loose dl + npages)) (dl_detent dl) (stubB :: l' ++ stubE :: rest)) l') as Hfin.
  { intros l' s' HP (u' & El') Has'. assert (zlen l' = zlen l + 1) as Hz by (rewrite HP; zlia).
    split; cbn [dl_items dl_length dl_sorted dl_detent dl_pages_including_loose].
    - by exists rest.
    - lia.
    - by exists s', u'.
    - rewrite HP. cbn. apply NoDup_cons. split; [|done]. intros (y & Ey & Hy)%list_elem_of_fmap_1. by apply (Hnew y Hy).
    - rewrite HP. by constructor.
    - lia.
    - done.
    - rewrite Hit in Hal. unfold dpl_reserve_gap, dpl_gap_mergesort, dpl_gap_edging. zlia.
    - rewrite HP. cbn. rewrite Hpg, <- Hnp. unfold u64, wrap. rewrite Zplus_mod_idemp_l. f_equal. lia. }
  destruct ins.
  - destruct (shift_tail_spec u (stubB :: s) stubE (stubE :: rest) (S (Z.to_nat (zlen l)))) as (g1 & E1); [subst l; unfold zlen; rewrite length_app; lia|].
    replace (zlen (stubB :: s) + zlen u - 1) with (zlen l) in E1 by (subst l; zlia).
    replace (zlen (stubB :: s)) with (dl_sorted dl + 1) in E1 by zlia.
    cbn [app] in E1. rewrite (app_assoc s u), <- El in E1. rewrite E1.
    cbn [mbind option_bind]. replace (dl_sorted dl + 1 - 1) with (zlen s) by lia.
    destruct (shift_sorted_spec s stubB g1 (u ++ stubE :: rest) (dp_pgno x) (S (Z.to_nat (zlen s)))) as (a & b & g2 & Es & Hlo & Hhi & E2).
    { unfold zlen. lia. } { done. } { unfold dp_valid in Hx. cbn. lia. } { intros y Hy. apply Hnew. subst l. apply elem_of_app. by left. }
    rewrite E2. cbn [mbind option_bind]. rewrite (app_comm_cons a), zset_app_mid by zlia. cbn [mbind option_bind].
    eexists _, (a ++ x :: b ++ u). split; [done|]. split; [|subst l s; solve_Permutation].
    assert (dl_sorted dl + 1 = zlen (a ++ x :: b)) as -> by (subst s; zlia).
    assert ((stubB :: a) ++ x :: b ++ u ++ stubE :: rest = stubB :: (a ++ x :: b ++ u) ++ stubE :: rest) as ->.
    { cbn. rewrite <- app_assoc. cbn. by rewrite <- app_assoc. }
    apply Hfin; [subst l s; solve_Permutation|exists u; by rewrite <- app_assoc|].
    rewrite Es in Has. apply dp_asc_app_iff in Has as (H1 & H2 & H3). apply dp_asc_app_iff. split_and!; [done| |].
    + apply dp_asc_cons_iff. split; [done|]. intros y Hy. by apply Hhi.
    + intros y z Hy [->|Hz]%elem_of_cons; [by apply Hlo|by apply H3].
  - rewrite (app_comm_cons l), zset_app_mid by zlia. cbn [mbind option_bind].
    eexists _, (l ++ [x]). split; [done|]. split; [|solve_Permutation]. rewrite Hso.
    assert ((stubB :: l) ++ x :: stubE :: rest = stubB :: (l ++ [x]) ++ stubE :: rest) as -> by (cbn; by rewrite <- app_assoc).
    apply Hfin; [solve_Permutation|exists (u ++ [x]); subst l; by rewrite <- app_assoc|done].
Qed.

Definition appended_page (al : dp_allocator) (t : dtxn) (dl : dpl) (l : list dp) (x : dp) (res : option (rc * dtxn)) : Prop :=
  exists err t', res = Some (err, t') /\
    lru t' = (if writemap t then lru t else <[dp_ptr x := dirtylru t]> (lru t)) /\
    ((err = MDBX_SUCCESS /\ exists dl' l', dirtylist t' = Some dl' /\ dpl_ok dl' l' /\ l' ≡ₚ x :: l) \/
     ((err = MDBX_ENOMEM /\ dp_alloc_fails al \/ err = MDBX_TXN_FULL /\ PAGELIST_LIMIT <= zlen l) /\ dirtylist t' = Some dl)).

Lemma txn_dpl_append_spec cm al `{!DpAllocOk al} t dl l pgno page npages : dirtylist t = Some dl -> dpl_ok dl l ->
  0 < pgno < P_INVALID -> (forall y, y ∈ l -> dp_pgno y <> pgno) -> 0 <= npages < 2 ^ 32 ->
  appended_page al t dl l (mk_dp page pgno npages) (txn_dpl_append cm al t pgno page npages).
Proof.
  intros Hdl Hok Hpg Hnew Hnp. unfold txn_dpl_append. cbn zeta. rewrite u32_small by (unfold UINT32_MAX; lia).
  set (t1 := if negb (writemap t) then _ else t).
  assert (dirtylist t1 = Some dl) as Hdl1 by (subst t1; by destruct (writemap t)).
  assert (lru t1 = if writemap t then lru t else <[page := dirtylru t]> (lru t)) as Hlru by (subst t1; by destruct (writemap t)).
  rewrite Hdl1. cbn [mbind option_bind].
  pose proof (dok_length _ _ Hok) as Hlen. pose proof (dok_room _ _ Hok) as Hroom. pose proof (dok_detent _ _ Hok) as Hdet.
  assert (forall dl2, dpl_ok dl2 l -> zlen l < dl_detent dl2 ->
    appended_page al t dl l (mk_dp page pgno npages)
      (dl ← append_place cm dl2 (mk_dp page pgno npages) npages; Some (MDBX_SUCCESS, with_dirtylist t1 dl))) as Hplace.
  { intros dl2 Hok2 Hlt. destruct (append_place_spec cm dl2 l (mk_dp page pgno npages) npages Hok2 Hlt) as (dl' & l' & -> & Hok' & HP); [done|done|done|].
    cbn [mbind option_bind]. eexists _, _. split; [done|]. split; [done|]. left. split; [done|]. by exists dl', l'. }
  destruct (Z.eqb_spec (dl_length dl) (dl_detent dl)) as [Efull|Hne]; cbn [andb]; [|apply Hplace; [done|lia]].
  destruct (Z.leb_spec PAGELIST_LIMIT (dl_detent dl)) as [Hlim|Hlim].
  { eexists _, _. split; [done|]. split; [done|]. right. split; [right; split; [done|lia]|done]. }
  set (size := if _ <? _ then _ else _).
  assert (dl_detent dl < size) as Hsize.
  { subst size. change (MDBX_PNL_INITIAL * 42) with 42756. destruct (Z.ltb_spec (dl_detent dl) 42756); [lia|].
    pose proof (Z.div_le_lower_bound (dl_detent dl) 2 1 ltac:(lia) ltac:(lia)). lia. }
  pose proof (txn_dpl_reserve_spec al dl l size Hok ltac:(lia) ltac:(lia)) as Hr.
  destruct (txn_dpl_reserve al (Some dl) size) as [dl2|].
  - destruct Hr as (Hok2 & Hdet2 & _). apply Hplace; [done|lia].
  - eexists _, _. split; [done|]. split; [done|]. right. split; [by left|done].
Qed.

(** ** Sifting *)

Lemma filter_ext_in {A} (P Q : A -> Prop) `{!forall x, Decision (P x)} `{!forall x, Decision (Q x)} (l : list A) :
  (forall x, x ∈ l -> P x <-> Q x) -> filter P l = filter Q l.
Proof.
  induction l as [|x l IH]; intros Hpq; [done|]. rewrite !filter_cons.
  assert (filter P l = filter Q l) as -> by (apply IH; intros y Hy; apply Hpq; by constructor).
  specialize (Hpq x ltac:(by constructor)). do 2 case_decide; tauto.
Qed.

(** The pages that stay and those that are removed. *)
Definition dp_keep (q : list Z) (l : list dp) : list dp := filter (fun x => dp_pgno x ∉ q) l.
Definition dp_drop (q : list Z) (l : list dp) : list dp := filter (fun x => dp_pgno x ∈ q) l.

Definition shifted (spilled : Z) (P : list Z) : list Z := (fun y => Z.shiftr y spilled) <$> P.

(** Page numbers below those of all entries do not matter. *)
Lemma dp_drop_snoc q y l : (forall x, x ∈ l -> y < dp_pgno x) -> dp_drop (q ++ [y]) l = dp_drop q l /\ dp_keep (q ++ [y]) l = dp_keep q l.
Proof.
  intros H. split; apply filter_ext_in; intros x Hx; specialize (H x Hx); rewrite elem_of_app, list_elem_of_singleton.
  - split; [intros [?|?]; [done|lia]|by left].
  - split; [tauto|intros Hn [?|?]; [done|lia]].
Qed.

Lemma shifted_last_min sp P y z : desc_weak (shifted sp (P ++ [y])) -> z ∈ shifted sp (P ++ [y]) -> Z.shiftr y sp <= z.
Proof.
  unfold shifted. rewrite fmap_app. cbn. intros Hd [Hz| ->%list_elem_of_singleton]%elem_of_app; [|lia].
  apply StronglySorted_app_iff in Hd as (_ & _ & Hd). specialize (Hd z (Z.shiftr y sp) Hz ltac:(by constructor)). cbn in Hd. lia.
Qed.

(** The end of the page [x] of a list with an untouched rest. *)
Lemma dl_get_mid dl pre x post i : dl_items dl = stubB :: pre ++ x :: post -> i = zlen pre + 1 -> zget (dl_items dl) i = Some x.
Proof. intros -> ->. rewrite (app_comm_cons pre). apply zget_app_mid. zlia. Qed.

Section Sift.
Context (pl : pnl) (sp : Z).

Lemma dsift_scan_spec dl rest : forall (fuel : nat) P D a b,
  pnl_rep pl (P ++ D) -> 0 < zlen P -> desc_weak (shifted sp P) -> dp_asc b ->
  dl_items dl = stubB :: a ++ b ++ stubE :: rest -> dl_length dl = zlen a + zlen b ->
  (length P + length b < fuel)%nat ->
  exists res, dsift_scan fuel dl pl sp (zlen P) (zlen a + 1) = Some res /\
    match res with
    | None => forall x, x ∈ b -> dp_pgno x ∉ shifted sp P
    | Some (i, r) => exists b1 x b2 P1 y P2, b = b1 ++ x :: b2 /\ P = P1 ++ y :: P2 /\
        i = zlen P1 + 1 /\ r = zlen a + zlen b1 + 1 /\ dp_pgno x = Z.shiftr y sp /\
        (forall z, z ∈ b1 -> dp_pgno z ∉ shifted sp P)
    end.
Proof.
  induction fuel as [|fuel IH]; intros P D a b Hrep HP Hd Hb Hit Hlen Hf; [lia|]. cbn [dsift_scan]. zlen_pos.
  destruct b as [|x b].
  { destruct (Z.leb_spec (zlen a + 1) (dl_length dl)); [zlia|]. exists None. split; [done|]. by intros x ?%elem_of_nil. }
  destruct (Z.leb_spec (zlen a + 1) (dl_length dl)) as [_|?]; [|zlia].
  destruct (zsplit_snoc P HP) as (P' & y & ->). rewrite <- app_assoc in Hrep.
  rewrite (pnl_rep_at_mid _ _ _ _ (zlen (P' ++ [y])) Hrep) by zlia. rewrite (dl_get_mid dl a x (b ++ stubE :: rest)) by done.
  cbn [mbind option_bind]. apply dp_asc_cons_iff in Hb as [Hb Hxb].
  destruct (Z.eqb_spec (dp_pgno x) (Z.shiftr y sp)) as [E|Hne]; cbn [negb].
  { eexists. split; [done|]. exists [], x, b, P', y, []. split_and!; [done|done|zlia|zlia|done|by intros z ?%elem_of_nil]. }
  destruct (Z.ltb_spec (dp_pgno x) (Z.shiftr y sp)) as [Hlt|Hge].
  - destruct (Z.eqb_spec (zlen (P' ++ [y])) 0); [zlia|]. cbn [negb].
    assert (dp_pgno x ∉ shifted sp (P' ++ [y])) as Hx by (intros Hin; pose proof (shifted_last_min _ _ _ _ Hd Hin); lia).
    destruct (IH (P' ++ [y]) D (a ++ [x]) b) as (res & E & Hres); [by rewrite <- app_assoc|done|done|done| | | |].
    { rewrite Hit, <- app_assoc. done. } { zlia. } { cbn in Hf. lia. }
    exists res. split; [rewrite <- E; f_equal; zlia|]. destruct res as [[i r]|].
    + destruct Hres as (b1 & x' & b2 & P1 & y' & P2 & -> & EP & -> & -> & E' & Hn).
      exists (x :: b1), x', b2, P1, y', P2. split_and!; [done|done|done|zlia|done|]. by intros z [->|Hz]%elem_of_cons; [|apply Hn].
    + by intros z [->|Hz]%elem_of_cons; [|apply Hres].
  - replace (zlen (P' ++ [y]) - 1) with (zlen P') by zlia.
    assert (forall z, z ∈ x :: b -> dp_pgno z ∉ shifted sp P' -> dp_pgno z ∉ shifted sp (P' ++ [y])) as Hdrop.
    { unfold shifted. rewrite fmap_app. intros z Hz Hn [?|E%list_elem_of_singleton]%elem_of_app; [done|].
      apply elem_of_cons in Hz as [->|Hz]; [lia|]. specialize (Hxb z Hz). lia. }
    destruct (Z.eqb_spec (zlen P') 0) as [E0|Hn0]; cbn [negb].
    + exists None. split; [done|]. apply zlen_0_nil in E0. subst P'. intros z Hz. apply Hdrop; [done|]. apply not_elem_of_nil.
    + destruct (IH P' ([y] ++ D) a (x :: b)) as (res & E & Hres); [done|zlia| |by apply dp_asc_cons_iff|done|done| |].
      { unfold shifted in Hd. rewrite fmap_app in Hd. by apply StronglySorted_app_iff in Hd as (? & _). }
      { rewrite length_app in Hf. cbn in *. lia. }
      exists res. split; [done|]. destruct res as [[i r]|].
      * destruct Hres as (b1 & x' & b2 & P1 & y' & P2 & Eb & -> & -> & -> & E' & Hn).
        exists b1, x', b2, P1, y', (P2 ++ [y]). split_and!; [done|by rewrite <- app_assoc|done|done|done|].
        intros z Hz. apply Hdrop; [rewrite Eb; apply elem_of_app; by left|by apply Hn].
      * intros z Hz. apply Hdrop; [done|by apply Hres].
Qed.

(** What the copying leaves: [kept] in front, a gap of stale cells. *)
Record sifted (dl dl' : dpl) (kept : list dp) (rest : list dp) (k : Z) : Prop := {
  sf_items : exists gap, dl_items dl' = stubB :: kept ++ gap ++ stubE :: rest /\ zlen kept + zlen gap = dl_length dl;
  sf_sorted : dl_sorted dl' = dl_sorted dl;
  sf_length : dl_length dl' = dl_length dl;
  sf_detent : dl_detent dl' = dl_detent dl;
  sf_pages : dl_pages_including_loose dl' = u64 k;
}.

Lemma dl_put_move dl kept gap x todo i : dl_items dl = stubB :: kept ++ gap ++ x :: todo -> i = zlen kept + 1 ->
  exists gap', zlen gap' = zlen gap /\ dl_put dl i x = Some (with_items dl (stubB :: (kept ++ [x]) ++ gap' ++ todo)).
Proof.
  intros Hit ->. unfold dl_put. rewrite Hit. destruct (zmove_down (stubB :: kept) gap x todo) as (gap' & Hg & E).
  exists gap'. split; [done|]. cbn [app] in E. rewrite zlen_cons in E. rewrite E. done.
Qed.

Lemma dsift_copy_spec rest k : forall todo kept gap dl (fuel : nat), (length todo < fuel)%nat ->
  dl_items dl = stubB :: kept ++ gap ++ todo ++ stubE :: rest -> dl_length dl = zlen kept + zlen gap + zlen todo ->
  dl_pages_including_loose dl = u64 k ->
  exists dl', dsift_copy fuel dl (zlen kept + 1) (zlen kept + zlen gap + 1) =
      Some (dl', zlen (kept ++ todo) + 1, dl_length dl + 1) /\ sifted dl dl' (kept ++ todo) rest k.
Proof.
  induction todo as [|x todo IH]; intros kept gap dl fuel Hf Hit Hlen Hk; (destruct fuel as [|fuel]; [lia|]); cbn [dsift_copy]; zlen_pos.
  - destruct (Z.leb_spec (zlen kept + zlen gap + 1) (dl_length dl)); [zlia|]. exists dl. split.
    + rewrite app_nil_r. do 2 f_equal. zlia.
    + rewrite app_nil_r. split; try done. exists gap. split; [done|zlia].
  - destruct (Z.leb_spec (zlen kept + zlen gap + 1) (dl_length dl)) as [_|?]; [|zlia].
    rewrite (dl_get_mid dl (kept ++ gap) x (todo ++ stubE :: rest)); [|by rewrite Hit, <- app_assoc|zlia]. cbn [mbind option_bind].
    destruct (dl_put_move dl kept gap x (todo ++ stubE :: rest) (zlen kept + 1) Hit eq_refl) as (gap' & Hg & ->). cbn [mbind option_bind].
    destruct (IH (kept ++ [x]) gap' (with_items dl (stubB :: (kept ++ [x]) ++ gap' ++ todo ++ stubE :: rest)) fuel) as (dl' & E & Hs);
      [cbn in Hf; lia|done|cbn; zlia|done|].
    exists dl'. replace (zlen kept + 1 + 1) with (zlen (kept ++ [x]) + 1) by zlia.
    replace (zlen kept + zlen gap + 1 + 1) with (zlen (kept ++ [x]) + zlen gap' + 1) by zlia. rewrite E.
    rewrite <- (app_assoc kept [x] todo) in Hs |- *. cbn [app] in *. split; [done|]. destruct Hs; by split.
Qed.

Lemma dp_keep_none q l : (forall x, x ∈ l -> dp_pgno x ∉ q) -> dp_keep q l = l /\ dp_drop q l = [].
Proof. intros H. split; [by apply filter_all|]. by apply filter_none. Qed.

Lemma dp_keep_cons_in q x l : dp_pgno x ∈ q -> dp_keep q (x :: l) = dp_keep q l /\ dp_drop q (x :: l) = x :: dp_drop q l.
Proof. intros H. unfold dp_keep, dp_drop. rewrite filter_cons_False, filter_cons_True by tauto. done. Qed.

Lemma dp_keep_cons_out q x l : dp_pgno x ∉ q -> dp_keep q (x :: l) = x :: dp_keep q l /\ dp_drop q (x :: l) = dp_drop q l.
Proof. intros H. unfold dp_keep, dp_drop. rewrite filter_cons_True, filter_cons_False by tauto. done. Qed.

Definition env_release (release : bool) (ps : list dp) (env : shadow) : shadow := if release then release_pages ps env else env.

Lemma dsift_update_spec rest release : forall (fuel : nat) P D kept gap todo dl env k,
  pnl_rep pl (P ++ D) -> desc_weak (shifted sp P) -> dp_asc todo ->
  dl_items dl = stubB :: kept ++ gap ++ todo ++ stubE :: rest -> dl_length dl = zlen kept + zlen gap + zlen todo ->
  dl_pages_including_loose dl = u64 k -> (length P + length todo < fuel)%nat ->
  exists dl', dsift_update fuel release dl env pl sp (zlen kept + 1) (zlen kept + zlen gap + 1) (zlen P) =
      Some (dl', env_release release (dp_drop (shifted sp P) todo) env,
            zlen (kept ++ dp_keep (shifted sp P) todo) + 1, dl_length dl + 1) /\
    sifted dl dl' (kept ++ dp_keep (shifted sp P) todo) rest (k - dp_total (dp_drop (shifted sp P) todo)).
Proof.
  induction fuel as [|fuel IH]; intros P D kept gap todo dl env k Hrep Hd Ha Hit Hlen Hk Hf; [lia|]. cbn [dsift_update]. zlen_pos.
  destruct (Z.eqb_spec (zlen P) 0) as [E0|Hn0].
  { apply zlen_0_nil in E0. subst P. destruct (dp_keep_none (shifted sp []) todo) as [-> ->]; [intros; apply not_elem_of_nil|].
    destruct (dsift_copy_spec rest k todo kept gap dl (S (Z.to_nat (dl_length dl)))) as (dl' & -> & Hs);
      [unfold zlen in *; lia|done|done|done|]. cbn [mbind option_bind dp_total]. rewrite Z.sub_0_r.
    exists dl'. split; [|done]. by destruct release. }
  destruct (zsplit_snoc P ltac:(lia)) as (P' & y & ->). rewrite <- app_assoc in Hrep.
  destruct todo as [|x todo].
  { destruct (Z.leb_spec (zlen kept + zlen gap + 1) (dl_length dl)); [zlia|]. exists dl. cbn [dp_keep dp_drop filter list_filter dp_total].
    rewrite app_nil_r, Z.sub_0_r. split; [|split; try done; exists gap; split; [done|zlia]].
    do 2 f_equal; [|zlia]. by destruct release. }
  destruct (Z.leb_spec (zlen kept + zlen gap + 1) (dl_length dl)) as [_|?]; [|zlia].
  rewrite (pnl_rep_at_mid _ _ _ _ (zlen (P' ++ [y])) Hrep) by zlia.
  rewrite (dl_get_mid dl (kept ++ gap) x (todo ++ stubE :: rest)); [|by rewrite Hit, <- app_assoc|zlia].
  cbn [mbind option_bind]. apply dp_asc_cons_iff in Ha as [Ha Hxa].
  replace (zlen (P' ++ [y]) - 1) with (zlen P') by zlia.
  assert (desc_weak (shifted sp P')) as Hd' by (unfold shifted in Hd; rewrite fmap_app in Hd; by apply StronglySorted_app_iff in Hd as (? & _)).
  assert (shifted sp (P' ++ [y]) = shifted sp P' ++ [Z.shiftr y sp]) as Esh by (unfold shifted; by rewrite fmap_app).
  destruct (Z.ltb_spec (dp_pgno x) (Z.shiftr y sp)) as [Hlt|Hge]; [|destruct (Z.ltb_spec (Z.shiftr y sp) (dp_pgno x)) as [Hgt|Heq]].
  - destruct (dp_keep_cons_out (shifted sp (P' ++ [y])) x todo) as [-> ->];
      [intros Hin; pose proof (shifted_last_min _ _ _ _ Hd Hin); lia|].
    destruct (dl_put_move dl kept gap x (todo ++ stubE :: rest) (zlen kept + 1) Hit eq_refl) as (gap' & Hg & ->). cbn [mbind option_bind].
    destruct (IH (P' ++ [y]) D (kept ++ [x]) gap' todo (with_items dl (stubB :: (kept ++ [x]) ++ gap' ++ todo ++ stubE :: rest)) env k)
      as (dl' & E & Hs); [by rewrite <- app_assoc|done|done|done|cbn; zlia|done|cbn in Hf; lia|].
    exists dl'. replace (zlen kept + 1 + 1) with (zlen (kept ++ [x]) + 1) by zlia.
    replace (zlen kept + zlen gap + 1 + 1) with (zlen (kept ++ [x]) + zlen gap' + 1) by zlia. rewrite E.
    rewrite <- (app_assoc kept [x] (dp_keep _ _)) in Hs |- *. cbn [app] in *. split; [done|]. destruct Hs; by split.
  - destruct (dp_drop_snoc (shifted sp P') (Z.shiftr y sp) (x :: todo)) as [Ed Ek].
    { intros z [->|Hz]%elem_of_cons; [done|]. specialize (Hxa z Hz). lia. }
    rewrite Esh, Ed, Ek. apply (IH P' ([y] ++ D)); [done|done|by apply dp_asc_cons_iff|done|done|done|rewrite length_app in Hf; cbn in *; lia].
  - assert (dp_pgno x = Z.shiftr y sp) as Exy by lia.
    destruct (dp_keep_cons_in (shifted sp (P' ++ [y])) x todo) as [-> ->].
    { rewrite Esh, Exy. apply elem_of_app. right. by constructor. }
    destruct (dp_drop_snoc (shifted sp P') (Z.shiftr y sp) todo) as [Ed Ek].
    { intros z Hz. specialize (Hxa z Hz). lia. }
    rewrite Esh, Ed, Ek. unfold dsift_remove.
    rewrite (dl_get_mid dl (kept ++ gap) x (todo ++ stubE :: rest)); [|by rewrite Hit, <- app_assoc|zlia]. cbn [mbind option_bind].
    set (dl1 := mk_dpl _ _ _ _ _).
    destruct (IH P' ([y] ++ D) kept (gap ++ [x]) todo dl1
      (if release then page_shadow_release env (dp_ptr x) (dp_npages x) else env) (k - dp_npages_ x))
      as (dl' & E & Hs); [done|done|done|subst dl1; cbn; by rewrite Hit, <- app_assoc|subst dl1; cbn; zlia| |rewrite length_app in Hf; cbn in *; lia|].
    { subst dl1. cbn. rewrite Hk. unfold u64, wrap, dp_npages. rewrite Zminus_mod_idemp_l. done. }
    exists dl'. replace (zlen kept + zlen gap + 1 + 1) with (zlen kept + zlen (gap ++ [x]) + 1) by zlia. rewrite E. split.
    + by destruct release.
    + cbn [dp_total]. replace (k - (dp_npages_ x + dp_total (dp_drop (shifted sp P') todo)))
        with (k - dp_npages_ x - dp_total (dp_drop (shifted sp P') todo)) by lia. destruct Hs; by split.
Qed.
End Sift.

Lemma dp_total_split q l : dp_total l = dp_total (dp_keep q l) + dp_total (dp_drop q l).
Proof.
  induction l as [|x l IH]; [done|]. destruct (decide (dp_pgno x ∈ q)).
  - destruct (dp_keep_cons_in q x l) as [-> ->]; [done|]. cbn. lia.
  - destruct (dp_keep_cons_out q x l) as [-> ->]; [done|]. cbn. lia.
Qed.

Lemma zlen_keep_drop q l : zlen l = zlen (dp_keep q l) + zlen (dp_drop q l).
Proof.
  induction l as [|x l IH]; [done|]. destruct (decide (dp_pgno x ∈ q)).
  - destruct (dp_keep_cons_in q x l) as [-> ->]; [done|]. zlia.
  - destruct (dp_keep_cons_out q x l) as [-> ->]; [done|]. zlia.
Qed.

Lemma dp_keep_app q a b : dp_keep q (a ++ b) = dp_keep q a ++ dp_keep q b.
Proof. apply filter_app. Qed.

Lemma dp_drop_app q a b : dp_drop q (a ++ b) = dp_drop q a ++ dp_drop q b.
Proof. apply filter_app. Qed.

(** At the first common page: the rest of the list is sifted by the page
    numbers that are left. *)
Lemma dp_keep_found sp lp P1 y P2 a b1 x b2 : lp = P1 ++ y :: P2 -> desc_weak (shifted sp lp) -> dp_pgno x = Z.shiftr y sp ->
  (forall z, z ∈ a ++ b1 -> dp_pgno z ∉ shifted sp lp) -> (forall z, z ∈ b2 -> dp_pgno x < dp_pgno z) ->
  dp_keep (shifted sp lp) (a ++ b1 ++ x :: b2) = (a ++ b1) ++ dp_keep (shifted sp P1) b2 /\
  dp_drop (shifted sp lp) (a ++ b1 ++ x :: b2) = x :: dp_drop (shifted sp P1) b2.
Proof.
  intros -> Hd Ex Hout Hgt. rewrite app_assoc, dp_keep_app, dp_drop_app.
  destruct (dp_keep_none (shifted sp (P1 ++ y :: P2)) (a ++ b1) Hout) as [-> ->].
  destruct (dp_keep_cons_in (shifted sp (P1 ++ y :: P2)) x b2) as [-> ->].
  { unfold shifted. rewrite fmap_app, elem_of_app. right. rewrite Ex. by constructor. }
  assert (forall z, z ∈ b2 -> dp_pgno z ∈ shifted sp (P1 ++ y :: P2) <-> dp_pgno z ∈ shifted sp P1) as Hiff.
  { intros z Hz. specialize (Hgt z Hz). unfold shifted in *. rewrite fmap_app in Hd |- *. rewrite elem_of_app. split; [|by left].
    intros [?|Hin]; [done|]. exfalso. apply StronglySorted_app_iff in Hd as (_ & Hd & _). cbn in Hd, Hin.
    inversion Hd as [|?? _ Hall]; subst. apply elem_of_cons in Hin as [Hin|Hin]; [lia|].
    rewrite Forall_forall in Hall. specialize (Hall _ Hin). cbn in Hall. lia. }
  split; [f_equal|cbn; f_equal]; apply filter_ext_in; intros z Hz; by rewrite Hiff.
Qed.

Lemma set_sorted_len_spec dl0 l0 dl kept rest k : dpl_ok dl0 l0 -> sublist kept l0 -> dp_asc kept ->
  sifted dl0 dl kept rest k -> u64 k = u64 (dp_total kept) ->
  zlen (dl_items dl) = zlen (dl_items dl0) ->
  exists dl', set_sorted_len dl (zlen kept) = Some dl' /\ dpl_ok dl' kept /\ dl_sorted dl' = dl_length dl' /\ dl_detent dl' = dl_detent dl0.
Proof.
  intros Hok Hsub Ha [(gap & Hit & Hg) Hso Hlen Hdet Hpg] Hk Hz2. unfold set_sorted_len, dpl_setlen. rewrite Hit.
  destruct (gap ++ stubE :: rest) as [|c rest'] eqn:Eg; [by destruct gap|].
  rewrite (app_comm_cons kept), zset_app_mid by zlia. cbn [mbind option_bind dl_length dl_items dl_pages_including_loose dl_detent].
  eexists. split; [done|]. rewrite Hpg, Hk, Hdet. split; [|done].
  apply (dpl_ok_sub dl0 l0 kept kept [] _ rest'); [done|by rewrite app_nil_r|done|done|done|]. rewrite <- Hz2, Hit, ?Eg. zlia.
Qed.

(** The other fields, and the list in order if it was. *)
Definition sift_frame (t t' : dtxn) : Prop :=
  writemap t' = writemap t /\ ro_nested t' = ro_nested t /\ dirtylru t' = dirtylru t /\ lru t' = lru t /\
  forall dl dl', dirtylist t = Some dl -> dirtylist t' = Some dl' ->
    dl_detent dl' = dl_detent dl /\ (dl_sorted dl = dl_length dl -> dl_sorted dl' = dl_length dl').

Definition sift_result (t : dtxn) (l : list dp) (q : list Z) (release : bool) (res : option dtxn) : Prop :=
  exists t' dl' l' gone, res = Some t' /\ dirtylist t' = Some dl' /\ dpl_ok dl' l' /\
    l' ≡ₚ dp_keep q l /\ gone ≡ₚ dp_drop q l /\
    dirtyroom t' = u64 (dirtyroom t + zlen gone) /\ env_shadow t' = env_release release gone (env_shadow t) /\ sift_frame t t'.

Lemma sift_result_none t dl l l' q release : dpl_ok dl l' -> l' ≡ₚ l -> 0 <= dirtyroom t <= UINT64_MAX ->
  sift_frame t (with_dirtylist t dl) -> (forall x, x ∈ l' -> dp_pgno x ∉ q) -> sift_result t l q release (Some (with_dirtylist t dl)).
Proof.
  intros Hok HP Hroom Hfr Hno. destruct (dp_keep_none q l') as [Ek Ed]; [done|].
  exists (with_dirtylist t dl), dl, l', []. split_and!; try done.
  - unfold dp_keep in *. by rewrite <- HP, Ek.
  - unfold dp_drop in *. by rewrite <- HP, Ed.
  - cbn. rewrite zlen_nil, Z.add_0_r, u64_small; done.
  - by destruct release.
Qed.

Lemma txn_dpl_sift_spec cm av t dl l pl lp (spilled : bool) : dirtylist t = Some dl -> dpl_ok dl l -> pnl_rep pl lp ->
  0 <= dirtyroom t <= UINT64_MAX ->
  let q := shifted (if spilled then 1 else 0) lp in
  desc_weak q -> sift_result t l q (negb av || negb (writemap t)) (txn_dpl_sift cm av t pl spilled).
Proof.
  intros Hdl Hok Hrep Hroom q Hd. unfold txn_dpl_sift. rewrite Hdl, (pnl_rep_size pl lp Hrep). cbn [mbind option_bind].
  pose proof (dok_length _ _ Hok) as Hlen. set (sp := if spilled then 1 else 0) in *. zlen_pos.
  assert (Some t = Some (with_dirtylist t dl)) as Hid by (destruct t; cbn in Hdl; by subst).
  assert (forall dl1 d1, dl_detent dl1 = dl_detent dl -> dirtylist d1 = Some dl1 -> (dl_sorted dl = dl_length dl -> dl_sorted dl1 = dl_length dl1) ->
    writemap d1 = writemap t -> ro_nested d1 = ro_nested t -> dirtylru d1 = dirtylru t -> lru d1 = lru t -> sift_frame t d1) as Hfr1.
  { intros dl1 d1 H1 H2 H3 H4 H5 H6 H7. split_and!; [done..|]. intros a b Ha Hb. rewrite Hdl in Ha. rewrite H2 in Hb. by simplify_eq. }
  assert (sift_frame t (with_dirtylist t dl)) as Hfr by (by apply (Hfr1 dl)).
  destruct (Z.eqb_spec (zlen lp) 0) as [E0|Hn0]; cbn [negb andb].
  { apply zlen_0_nil in E0. subst lp. rewrite Hid. apply (sift_result_none t dl l l); [done|done|done|exact Hfr|].
    intros; apply not_elem_of_nil. }
  destruct (Z.eqb_spec (dl_length dl) 0) as [E0|Hm0]; cbn [negb].
  { rewrite Hlen in E0. apply zlen_0_nil in E0. subst l. rewrite Hid.
    apply (sift_result_none t dl [] []); [done|done|done|exact Hfr|]. by intros x ?%elem_of_nil. }
  destruct (txn_dpl_sort_spec cm dl l Hok) as (dl1 & l1 & -> & Hok1 & HP & Ha1 & Eso & Edt & _). cbn [mbind option_bind].
  destruct (zsplit_snoc lp ltac:(lia)) as (P & y & Elp). pose proof Hrep as Hrep'. rewrite Elp in Hrep'.
  rewrite (pnl_rep_at_mid pl P y [] (zlen lp) Hrep') by (subst lp; zlia). cbn [mbind option_bind].
  destruct (txn_dpl_search_sorted cm dl1 l1 (Z.shiftr y sp) Hok1 Eso) as (a & b & El1 & Hlo & Hhi & ->). cbn [mbind option_bind].
  pose proof (dok_items _ _ Hok1) as [rest Hit]. pose proof (dok_length _ _ Hok1) as Hlen1.
  assert (forall z, z ∈ a -> dp_pgno z ∉ q) as Hout.
  { intros z Hz Hin. specialize (Hlo z Hz). subst q lp. pose proof (shifted_last_min _ _ _ _ Hd Hin). lia. }
  rewrite El1 in Ha1. pose proof Ha1 as Ha1'. apply dp_asc_app_iff in Ha1' as (_ & Hab & _).
  destruct (dsift_scan_spec pl sp dl1 rest (S (Z.to_nat (zlen lp + dl_length dl1))) lp (@nil Z) a b) as (res & -> & Hres);
    [by rewrite app_nil_r|lia|done|done|by rewrite Hit, El1, <- app_assoc|rewrite Hlen1, El1; zlia| |].
  { rewrite Hlen1, El1. unfold zlen. rewrite length_app. lia. }
  cbn [mbind option_bind]. destruct res as [[i r]|].
  2:{ apply (sift_result_none t dl1 l l1); [done|done|done|by apply (Hfr1 dl1)|]. rewrite El1. intros x [Hx|Hx]%elem_of_app; [by apply Hout|by apply Hres]. }
  destruct Hres as (b1 & x & b2 & P1 & y1 & P2 & -> & Elp1 & -> & -> & Exy & Hb1).
  rewrite app_assoc in Ha1. pose proof Ha1 as Ha2. apply dp_asc_app_iff in Ha2 as (_ & [Ha2 Hx2]%dp_asc_cons_iff & _).
  destruct (dp_keep_found sp lp P1 y1 P2 a b1 x b2 Elp1 Hd Exy) as [Ek Ed]; [|done|].
  { intros z [Hz|Hz]%elem_of_app; [by apply Hout|by apply Hb1]. }
  assert (dl_items dl1 = stubB :: (a ++ b1) ++ [x] ++ b2 ++ stubE :: rest) as Hit2.
  { rewrite Hit, El1, <- !app_assoc. done. }
  unfold dsift_remove. rewrite (dl_get_mid dl1 (a ++ b1) x (b2 ++ stubE :: rest)) by (done || zlia). cbn [mbind option_bind].
  set (dl2 := mk_dpl _ _ _ _ _). set (release := negb av || negb (writemap t)).
  set (env1 := if release then _ else _).
  destruct (dsift_update_spec pl sp rest release (S (Z.to_nat (zlen lp + dl_length dl2))) P1 (y1 :: P2) (a ++ b1) [x] b2 dl2 env1
    (dp_total l1 - dp_npages_ x)) as (dl3 & E3 & Hs3).
  { by rewrite <- Elp1. } { unfold q, shifted in *. rewrite Elp1, fmap_app in Hd. by apply StronglySorted_app_iff in Hd as (? & _). }
  { done. } { done. } { subst dl2. cbn [dl_length]. rewrite Hlen1, El1. zlia. }
  { subst dl2. cbn. rewrite (dok_pages _ _ Hok1). unfold u64, wrap, dp_npages. by rewrite Zminus_mod_idemp_l. }
  { subst dl2. cbn [dl_length]. rewrite Hlen1, El1, Elp1. unfold zlen. rewrite !length_app; cbn; rewrite ?length_app; cbn; lia. }
  replace (zlen P1 + 1 - 1) with (zlen P1) by lia.
  replace (zlen a + zlen b1 + 1) with (zlen (a ++ b1) + 1) by zlia.
  replace (zlen (a ++ b1) + 1 + 1) with (zlen (a ++ b1) + zlen [x] + 1) by zlia. rewrite E3. cbn [mbind option_bind].
  rewrite Z.add_simpl_r. rewrite <- Ek in *. set (kept := dp_keep (shifted sp lp) (a ++ b1 ++ x :: b2)) in *.
  destruct (set_sorted_len_spec dl1 l1 dl3 kept rest (dp_total l1 - dp_npages_ x - dp_total (dp_drop (shifted sp P1) b2))) as (dl4 & -> & Hok4 & Hso4 & Hdt4).
  { done. } { subst kept. rewrite El1. apply sublist_filter. }
  { subst kept. apply StronglySorted_filter. by rewrite app_assoc. } { destruct Hs3; by split. }
  { f_equal. rewrite (dp_total_split (shifted sp lp) l1), El1. fold kept. rewrite Ed. cbn [dp_total]. lia. }
  { destruct Hs3 as [(gap & Hg & Hgl) _ _ _ _]. rewrite Hg, Hit2. subst dl2. cbn [dl_length] in Hgl. rewrite Hlen1, El1 in Hgl. zlia. }
  cbn [mbind option_bind].
  eexists _, dl4, kept, (x :: dp_drop (shifted sp P1) b2). split; [done|]. split_and!; [done|done| | | | |].
  - subst kept. unfold dp_keep. by rewrite <- HP, El1.
  - rewrite <- Ed. unfold dp_drop. by rewrite <- HP, El1.
  - cbn [dirtyroom with_shadow with_room with_dirtylist]. f_equal. f_equal.
    pose proof (zlen_keep_drop (shifted sp lp) (a ++ b1 ++ x :: b2)) as Hk. fold kept in Hk. rewrite Ed in Hk.
    subst dl2. cbn [dl_length]. rewrite Hlen1, El1. zlia.
  - cbn [env_shadow with_shadow with_room with_dirtylist]. subst env1. by destruct release.
  - apply (Hfr1 dl4); try done. by rewrite Hdt4.
Qed.

(** ** Allocation and clearing *)

Lemma dpl_ok_slice dl l : dpl_ok dl l -> zslice (dl_items dl) 1 (dl_length dl) = l.
Proof.
  intros Hok. destruct (dok_items _ _ Hok) as [rest Hit]. rewrite Hit, (dok_length _ _ Hok). unfold zslice.
  change (Z.to_nat 1) with 1%nat. unfold drop, zlen. rewrite Nat2Z.id. apply (take_app_length l).
Qed.

Lemma dpl_init_ok m sorted len pages detent : 0 < detent < 2 ^ 60 -> 2 * detent + dpl_reserve_gap <= zlen m ->
  exists dl', dpl_init (mk_dpl sorted len pages detent m) = Some dl' /\ dpl_ok dl' [].
Proof.
  intros Hd Hm. unfold dpl_reserve_gap, dpl_gap_mergesort, dpl_gap_edging in Hm.
  destruct m as [|c0 [|c1 m]]; [zlia|zlia|]. unfold dpl_init, dl_put, set_sorted_len, dpl_setlen. cbn [dl_items].
  fold stubB stubE. pose proof (zset_app_mid [] (c1 :: m) c0 stubB 0 eq_refl) as E0. cbn [app] in E0. rewrite E0.
  cbn [mbind option_bind with_items dl_items].
  pose proof (zset_app_mid [stubB] m c1 stubE (0 + 1) eq_refl) as E1. cbn [app] in E1. rewrite E1. cbn [mbind option_bind]. eexists. split; [done|].
  split; cbn [dl_items dl_length dl_sorted dl_detent dl_pages_including_loose with_items]; try done.
  - by exists m.
  - exists [], []. split_and!; [done|done|constructor].
  - constructor.
  - rewrite zlen_nil. lia.
Qed.

Lemma txn_dpl_alloc_spec al `{!DpAllocOk al} t dp_initial upper : 0 < dp_initial -> 0 < upper ->
  (forall dl, dirtylist t = Some dl -> exists l, dpl_ok dl l) ->
  exists err t', txn_dpl_alloc al t dp_initial upper = Some (err, t') /\
    ((err = MDBX_SUCCESS /\ exists dl', dirtylist t' = Some dl' /\ dpl_ok dl' []) \/
     (err = MDBX_ENOMEM /\ dp_alloc_fails al /\ t' = t)).
Proof.
  intros Hi Hu Hdl. unfold txn_dpl_alloc. cbn zeta. set (wanna := if negb (ro_nested t) then _ else _).
  assert (0 < wanna) as Hw.
  { subst wanna. destruct (negb (ro_nested t)); [destruct (dp_initial <? upper); lia|done]. }
  set (ready := match dirtylist t with Some _ => _ | None => _ end).
  assert (forall dl, (if ready then dirtylist t else txn_dpl_reserve al (dirtylist t) wanna) = Some dl ->
    0 < dl_detent dl < 2 ^ 60 /\ 2 * dl_detent dl + dpl_reserve_gap <= zlen (dl_items dl)) as Hcap.
  { intros dl. destruct ready.
    - intros E. destruct (Hdl dl E) as [l Hok]. split; [apply (dok_detent _ _ Hok)|apply (dok_alloc _ _ Hok)].
    - unfold txn_dpl_reserve. cbn zeta. set (sz := if wanna <? PAGELIST_LIMIT then _ else _).
      assert (0 < sz <= PAGELIST_LIMIT) as Hsz by (subst sz; unfold PAGELIST_LIMIT; destruct (Z.ltb_spec wanna 0x7fffffff); lia).
      destruct (al _ _) as [m|] eqn:E; [|done].
      assert (0 <= dpl_size2bytes sz) as H0 by (unfold dpl_size2bytes, u64; apply wrap_range; lia).
      destruct (dpl_capacity sz (zlen m) Hsz (dp_realloc_usable _ _ _ H0 E)) as (_ & Hd & Ha).
      intros [= <-]. destruct (dirtylist t); cbn [dl_detent dl_items]; (split; [unfold items_bytes, sizeof_dp_t; lia|exact Ha]). }
  assert ((if ready then dirtylist t else txn_dpl_reserve al (dirtylist t) wanna) = None -> dp_alloc_fails al) as Hfail.
  { assert (ready = true -> dirtylist t <> None) as Hready by (subst ready; by destruct (dirtylist t)).
    destruct ready; [intros E; by destruct Hready|]. unfold txn_dpl_reserve. cbn zeta.
    destruct (al _ _) as [m|] eqn:E; intros E'; [by destruct (dirtylist t)|by eexists _, _]. }
  destruct (if ready then dirtylist t else txn_dpl_reserve al (dirtylist t) wanna) as [dl|].
  - destruct (Hcap dl eq_refl) as [H1 H2]. destruct dl as [so le pg de m]. cbn [dl_detent dl_items] in *.
    destruct (dpl_init_ok m so le pg de H1 H2) as (dl' & -> & Hok). cbn [mbind option_bind].
    eexists _, _. split; [done|]. left. split; [done|]. by exists dl'.
  - eexists _, _. split; [done|]. right. auto.
Qed.

(** Every page goes to the reserve or to the heap; the reserve has single
    pages only and stays below its limit. *)
Lemma release_pages_spec ps env :
  let env' := release_pages ps env in
  shadow_reserve env' ++ shadow_freed env' ≡ₚ (dp_ptr <$> ps) ++ shadow_reserve env ++ shadow_freed env /\
  dp_reserve_limit env' = dp_reserve_limit env /\
  (zlen (shadow_reserve env) <= dp_reserve_limit env -> zlen (shadow_reserve env') <= dp_reserve_limit env').
Proof.
  revert env. induction ps as [|x ps IH]; intros env; cbn zeta; [done|]. cbn [release_pages].
  destruct (IH (page_shadow_release env (dp_ptr x) (dp_npages x))) as (HP & Hl & Hz). cbn zeta in *.
  unfold page_shadow_release in *. destruct (_ && _) eqn:E; cbn [shadow_reserve shadow_freed dp_reserve_limit] in *.
  - split_and!; [rewrite HP; cbn; solve_Permutation|done|]. intros _. apply Hz. zlia.
  - split_and!; [rewrite HP; cbn; solve_Permutation|done|]. intros H. by apply Hz.
Qed.

Lemma txn_dpl_clear_spec t dl l : dirtylist t = Some dl -> dpl_ok dl l ->
  exists t' dl', txn_dpl_clear t = Some t' /\ dirtylist t' = Some dl' /\ dl_length dl' = 0 /\ dl_sorted dl' = 0 /\
    (exists rest, dl_items dl' = stubB :: stubE :: rest) /\
    env_shadow t' = env_release (negb (ro_nested t) && negb (writemap t)) l (env_shadow t).
Proof.
  intros Hdl Hok. destruct (dok_items _ _ Hok) as [rest Hit]. pose proof (dok_length _ _ Hok) as Hlen.
  unfold txn_dpl_clear. rewrite Hdl. cbn zeta.
  rewrite (dpl_ok_slice dl l Hok).
  unfold set_sorted_len, dpl_setlen. rewrite Hit. destruct (l ++ stubE :: rest) as [|c m] eqn:E; [by destruct l|].
  fold stubE. pose proof (zset_app_mid [stubB] m c stubE (0 + 1) eq_refl) as E1. cbn [app] in E1. rewrite E1. cbn [mbind option_bind].
  eexists _, _. split; [done|]. split_and!; try done. by exists m.
Qed.

(** ** Ages *)

Lemma halve_lru_spec ps : forall m, (forall x, x ∈ ps -> is_Some (m !! dp_ptr x)) -> (forall p v, m !! p = Some v -> 0 <= v) ->
  exists m', halve_lru ps m = Some m' /\ (forall p, is_Some (m !! p) -> is_Some (m' !! p)) /\
    (forall p v', m' !! p = Some v' -> exists v, m !! p = Some v /\ 0 <= v' <= v /\ (p ∈ dp_ptr <$> ps -> v' <= Z.shiftr v 1)).
Proof.
  induction ps as [|x ps IH]; intros m Hin Hpos; cbn [halve_lru].
  { exists m. split; [done|]. split; [done|]. intros p v' E. exists v'. specialize (Hpos p v' E). split_and!; [done|lia|lia|].
    by intros ?%elem_of_nil. }
  destruct (Hin x ltac:(by constructor)) as [c Ec]. rewrite Ec. cbn [mbind option_bind].
  assert (0 <= c) as Hc by (by eapply Hpos). assert (0 <= Z.shiftr c 1 <= c) as Hs.
  { rewrite Z.shiftr_div_pow2 by lia. change (2 ^ 1) with 2. split; [apply Z.div_pos; lia|apply Z.div_le_upper_bound; lia]. }
  assert (forall a b, a <= b -> Z.shiftr a 1 <= Z.shiftr b 1) as Hmono.
  { intros a b Hab. rewrite !Z.shiftr_div_pow2 by lia. by apply Z.div_le_mono. }
  destruct (IH (<[dp_ptr x := Z.shiftr c 1]> m)) as (m' & -> & Hsome & Hval).
  { intros y Hy. destruct (decide (dp_ptr x = dp_ptr y)) as [->|Hne]; [by rewrite lookup_insert_eq|].
    rewrite lookup_insert_ne by done. apply Hin. by constructor. }
  { intros p v. destruct (decide (dp_ptr x = p)) as [->|Hne]; [rewrite lookup_insert_eq; intros [= <-]; lia|].
    rewrite lookup_insert_ne by done. apply Hpos. }
  exists m'. split; [done|]. split.
  - intros p Hp. apply Hsome. destruct (decide (dp_ptr x = p)) as [->|Hne]; [by rewrite lookup_insert_eq|].
    by rewrite lookup_insert_ne by done.
  - intros p v' E. destruct (Hval p v' E) as (v & Ev & Hr & Hh).
    destruct (decide (dp_ptr x = p)) as [<-|Hne].
    + rewrite lookup_insert_eq in Ev. injection Ev as <-. exists c. split_and!; [done|lia|lia|]. intros _. lia.
    + rewrite lookup_insert_ne in Ev by done. exists v. split_and!; [done|lia|lia|].
      cbn. intros [?|Hp]%elem_of_cons; [done|by apply Hh].
Qed.

(** Every list of the chain is well formed and its pages have a word. *)
Definition chain_ok (chain : list (Z * dpl)) (m : gmap Z Z) : Prop :=
  Forall (fun '(_, dl) => exists l, dpl_ok dl l /\ forall x, x ∈ l -> is_Some (m !! dp_ptr x)) chain.

Lemma txn_dpl_lru_reduce_spec chain : forall m, chain_ok chain m -> (forall p v, m !! p = Some v -> 0 <= v) ->
  exists cs m', txn_dpl_lru_reduce chain m = Some (cs, m') /\ cs = (fun '(c, _) => Z.shiftr c 1) <$> chain /\
    (forall p, is_Some (m !! p) -> is_Some (m' !! p)) /\
    (forall p v', m' !! p = Some v' -> exists v, m !! p = Some v /\ 0 <= v' <= v).
Proof.
  induction chain as [|[c dl] chain IH]; intros m Hc Hpos; cbn [txn_dpl_lru_reduce].
  { eexists _, _. split; [done|]. split; [done|]. split; [done|]. intros p v E. exists v. specialize (Hpos p v E). split; [done|lia]. }
  apply Forall_cons in Hc as [(l & Hok & Hl) Hc]. rewrite (dpl_ok_slice dl l Hok).
  destruct (halve_lru_spec l m Hl Hpos) as (m1 & -> & Hs1 & Hv1). cbn [mbind option_bind].
  destruct (IH m1) as (cs & m2 & -> & -> & Hs2 & Hv2).
  { unfold chain_ok in *. rewrite Forall_forall in Hc |- *. intros [c' dl'] Hin. destruct (Hc _ Hin) as (l' & Hok' & Hl').
    exists l'. split; [done|]. intros x Hx. by apply Hs1, Hl'. }
  { intros p v E. destruct (Hv1 p v E) as (v0 & _ & ? & _). lia. }
  cbn [mbind option_bind]. eexists _, _. split; [done|]. split; [done|]. split; [by intros; apply Hs2, Hs1|].
  intros p v' E. destruct (Hv2 p v' E) as (v1 & E1 & H1). destruct (Hv1 p v1 E1) as (v0 & E0 & H0 & _). exists v0. split; [done|lia].
Qed.

(** A turn keeps the counter in the range where ages do not wrap around, and
    no word gets ahead of the counter. *)
Lemma txn_dpl_lru_turn_spec t dl l ancestors : dirtylist t = Some dl -> dpl_ok dl l -> chain_ok ancestors (lru t) ->
  0 <= dirtylru t <= UINT32_MAX / 3 -> writemap t = false -> (forall p v, lru t !! p = Some v -> 0 <= v) ->
  (forall x, x ∈ l -> exists v, lru t !! dp_ptr x = Some v /\ v <= dirtylru t) ->
  exists c cs m, txn_dpl_lru_turn t ancestors = Some (c, cs, m) /\ 0 <= c <= UINT32_MAX / 3 /\
    (forall x, x ∈ l -> exists v, m !! dp_ptr x = Some v /\ 0 <= v <= c).
Proof.
  intros Hdl Hok Hch Hlru Hw Hpos Hwords. unfold txn_dpl_lru_turn. change (UINT32_MAX / 3) with 1431655765 in *.
  rewrite u32_small by (unfold UINT32_MAX; lia). rewrite Hw. cbn [negb]. rewrite andb_true_r.
  destruct (Z.ltb_spec 1431655765 (dirtylru t + 1)) as [Hgt|Hle].
  - rewrite Hdl. cbn [mbind option_bind txn_dpl_lru_reduce]. rewrite (dpl_ok_slice dl l Hok).
    destruct (halve_lru_spec l (lru t)) as (m1 & -> & Hs1 & Hv1); [intros x Hx; destruct (Hwords x Hx) as (v & -> & _); done|done|].
    cbn [mbind option_bind]. destruct (txn_dpl_lru_reduce_spec ancestors m1) as (cs & m2 & -> & _ & Hs2 & Hv2).
    { unfold chain_ok in *. rewrite Forall_forall in Hch |- *. intros [c' dl'] Hin. destruct (Hch _ Hin) as (l' & Hok' & Hl').
      exists l'. split; [done|]. intros x Hx. by apply Hs1, Hl'. }
    { intros p v E. destruct (Hv1 p v E) as (v0 & _ & ? & _). lia. }
    cbn [mbind option_bind]. eexists _, _, _. split; [done|]. replace (dirtylru t + 1) with 1431655766 by lia.
    change (Z.shiftr 1431655766 1) with 715827883. split; [lia|]. intros x Hx. destruct (Hwords x Hx) as (v & Ev & Hv).
    destruct (Hs2 (dp_ptr x)) as [v2 E2]; [apply Hs1; by rewrite Ev|]. destruct (Hv2 _ _ E2) as (v1 & E1 & H1).
    destruct (Hv1 _ _ E1) as (v0 & E0 & H0 & Hh). assert (v0 = v) as -> by congruence.
    specialize (Hh ltac:(by apply list_elem_of_fmap_2)). exists v2. split; [done|].
    rewrite Z.shiftr_div_pow2 in Hh by lia. change (2 ^ 1) with 2 in Hh.
    pose proof (Z.div_le_mono v 1431655765 2 ltac:(lia) ltac:(lia)) as Hm. change (1431655765 / 2) with 715827882 in Hm. lia.
  - eexists _, _, _. split; [done|]. split; [lia|]. intros x Hx. destruct (Hwords x Hx) as (v & Ev & Hv). exists v.
    specialize (Hpos _ _ Ev). split; [done|lia].
Qed.

(** ** Claims *)

(** C17: sorting a dirty-page list (the unsorted tail by the radix or the generic
    sort, then a merge into the free end of the block, or the whole list)
    orders all entries by page number and keeps them, the sentinels and the
    page counter; searching sorts when it has to and returns the index of the
    entry of the page, and the existence test returns that index or 0. *)
Theorem dpl_sort_and_search cm dl l pgno : dpl_ok dl l -> 0 < pgno < P_INVALID ->
  resorted dl l (txn_dpl_sort cm dl) /\ searched dl l pgno (txn_dpl_search cm dl pgno) /\
  (exists i dl' l', txn_dpl_exist cm dl pgno = Some (i, dl') /\ dpl_ok dl' l' /\ l' ≡ₚ l /\
    ((i = 0 /\ forall x, x ∈ l -> dp_pgno x <> pgno) \/
     (0 < i <= zlen l /\ exists x, x ∈ l /\ dp_pgno x = pgno /\ zget (dl_items dl') i = Some x))).
Proof.
  intros Hok Hp. split_and!; [by apply txn_dpl_sort_spec|by apply txn_dpl_search_spec|by apply txn_dpl_exist_spec].
Qed.

(** The pages 7, 3 and 5 (of two pages), of which the first is sorted. *)
Definition sample_dps : list dp := [mk_dp 700 7 1; mk_dp 300 3 1; mk_dp 500 5 2].
Definition sample_dpl : dpl := mk_dpl 1 3 4 8 (stubB :: sample_dps ++ stubE :: replicate 30 (mk_dp 0 0 0)).

Lemma sample_dpl_ok : dpl_ok sample_dpl sample_dps.
Proof.
  split.
  - by exists (replicate 30 (mk_dp 0 0 0)).
  - reflexivity.
  - exists [mk_dp 700 7 1], [mk_dp 300 3 1; mk_dp 500 5 2]. split_and!; [done|done|repeat constructor].
  - cbn. apply NoDup_ListNoDup. repeat constructor; cbn; lia.
  - repeat constructor; by vm_compute.
  - by vm_compute.
  - by vm_compute.
  - by vm_compute.
  - reflexivity.
Qed.

Lemma dpl_sort_and_search_witness : searched sample_dpl sample_dps 5 (txn_dpl_search true sample_dpl 5) /\
  txn_dpl_search true sample_dpl 5 <> None.
Proof.
  split; [|by vm_compute]. apply (dpl_sort_and_search true sample_dpl sample_dps 5); [apply sample_dpl_ok|by vm_compute].
Defined.

(** C16: adding a page to the dirty-page list. The entry goes to its place in the
    sorted part when that is cheap and to the end otherwise; in both cases the
    list has the old entries and the new one, its sorted part stays sorted and
    the counter of pages includes the new ones. The block grows when it is
    full; [MDBX_TXN_FULL] is returned at the limit only, [MDBX_ENOMEM] after a
    failed allocation only, and then the list is as it was. *)
Theorem dpl_append_adds cm al `{!DpAllocOk al} t dl l pgno page npages : dirtylist t = Some dl -> dpl_ok dl l ->
  0 < pgno < P_INVALID -> (forall y, y ∈ l -> dp_pgno y <> pgno) -> 0 <= npages < 2 ^ 32 ->
  appended_page al t dl l (mk_dp page pgno npages) (txn_dpl_append cm al t pgno page npages).
Proof. by apply txn_dpl_append_spec. Qed.

Definition sample_dtxn : dtxn := mk_dtxn false false (Some sample_dpl) 10 4 ∅ (mk_shadow [] [] 2).

Lemma dpl_append_adds_witness :
  appended_page exact_dp_allocator sample_dtxn sample_dpl sample_dps (mk_dp 400 4 1)
    (txn_dpl_append true exact_dp_allocator sample_dtxn 4 400 1) /\
  exists t', txn_dpl_append true exact_dp_allocator sample_dtxn 4 400 1 = Some (MDBX_SUCCESS, t').
Proof.
  split; [|eexists; by vm_compute].
  apply (dpl_append_adds true exact_dp_allocator); [done|apply sample_dpl_ok|by vm_compute| |lia].
  intros y Hy. unfold sample_dps in Hy. rewrite !elem_of_cons, elem_of_nil in Hy. naive_solver.
Defined.

(** Removing an entry takes exactly that entry and its pages out of the
    list; and in a sorted list of disjoint spans the test for an overlap with a
    span of pages decides whether there is one. *)
Theorem dpl_remove_and_intersect cm dl l a x b s ls pgno npages : dpl_ok dl l -> l = a ++ x :: b ->
  dpl_ok s ls -> dl_sorted s = dl_length s -> dp_disjoint ls -> Forall dp_span_ok ls ->
  0 < pgno -> 0 < npages -> pgno + npages <= P_INVALID ->
  (exists dl', txn_dpl_remove_ex dl (zlen a + 1) (dp_npages_ x) = Some dl' /\ dpl_ok dl' (a ++ b) /\
    txn_dpl_remove dl (zlen a + 1) = Some dl') /\
  (exists r, txn_dpl_intersect cm s pgno npages = Some r /\
    (r = true <-> exists y, y ∈ ls /\ dp_pgno y < pgno + npages /\ pgno < dp_pgno y + dp_npages_ y)).
Proof.
  intros. split; [by eapply txn_dpl_remove_spec|by apply txn_dpl_intersect_spec].
Qed.

Lemma dpl_remove_and_intersect_witness :
  exists dl', txn_dpl_remove sample_dpl 2 = Some dl' /\ dpl_ok dl' [mk_dp 700 7 1; mk_dp 500 5 2].
Proof.
  destruct (dpl_remove_and_intersect true sample_dpl sample_dps [mk_dp 700 7 1] (mk_dp 300 3 1) [mk_dp 500 5 2]
    (mk_dpl 0 0 0 8 (stubB :: stubE :: replicate 33 (mk_dp 0 0 0))) [] 5 2) as [(dl' & _ & Hok & E) _].
  - apply sample_dpl_ok.
  - done.
  - split; [by exists (replicate 33 (mk_dp 0 0 0))|reflexivity|exists [], []; split_and!; [done|done|constructor]|constructor|
      constructor|by vm_compute|by vm_compute|by vm_compute|reflexivity].
  - reflexivity.
  - constructor.
  - constructor.
  - lia.
  - lia.
  - by vm_compute.
  - exists dl'. by split.
Defined.

(** C18: sifting a dirty-page list by a descending list of page numbers (shifted
    by one when it is a list of spilled pages) keeps exactly the entries whose
    page is not listed, gives the room of the others back, and releases their
    shadow pages, to the reserve or to the heap, unless the data are mapped
    for writing. *)
Theorem dpl_sift_removes cm av t dl l pl lp (spilled : bool) : dirtylist t = Some dl -> dpl_ok dl l -> pnl_rep pl lp ->
  0 <= dirtyroom t <= UINT64_MAX ->
  let q := shifted (if spilled then 1 else 0) lp in
  desc_weak q -> sift_result t l q (negb av || negb (writemap t)) (txn_dpl_sift cm av t pl spilled).
Proof. apply txn_dpl_sift_spec. Qed.

Lemma dpl_sift_removes_witness :
  sift_result sample_dtxn sample_dps [8; 5; 3] true (txn_dpl_sift true true sample_dtxn (sample_pnl [8; 5; 3] 3) false) /\
  txn_dpl_sift true true sample_dtxn (sample_pnl [8; 5; 3] 3) false <> None.
Proof.
  split; [|by vm_compute].
  apply (dpl_sift_removes true true sample_dtxn sample_dpl sample_dps (sample_pnl [8; 5; 3] 3) [8; 5; 3] false);
    [done|apply sample_dpl_ok|by apply sample_pnl_rep|by vm_compute|repeat constructor; by vm_compute].
Defined.
