(* ===== verification/Bytes.v ===== *)
(** * Bytes and unaligned access ([src/src/unaligned.h])

    Memory that the code views through pointers of different widths is a list
    of bytes; a pointer into it is an offset. The accessors choose between one
    wide access, two half-wide ones and a bytewise copy, by the build option
    [MDBX_UNALIGNED_OK] and the alignment the caller promises. They are written
    against an interface of typed accesses with two machines behind it: one that
    takes any address, and one where the block has an address and a typed access
    faults when it is misaligned and wider than the option tolerates. On the
    second machine no accessor faults as long as the promise is kept, and on a
    little-endian machine all the variants transfer the same bytes.

    The variants for compilers with [__unaligned] are not modelled. *)

From stdpp Require Import base list numbers option.
From Stdlib Require Import ZArith Lia.
From S2P Require Import Prelude Alloc.

(** ** Little-endian words *)

Definition is_byte (b : Z) : Prop := 0 <= b < 256.
Notation bytes := (list Z).

Fixpoint le_decode (l : bytes) : Z :=
match l with
| [] => 0
| b :: l => b + 256 * le_decode l
end.

Fixpoint le_encode (n : nat) (v : Z) : bytes :=
match n with
| O => []
| S n => v mod 256 :: le_encode n (v / 256)
end.

(** One access of [n] bytes at offset [p]. *)
Definition load (n : Z) (m : bytes) (p : Z) : option Z :=
if (0 <=? p) && (p + n <=? zlen m) then Some (le_decode (zslice m p n)) else None.

Definition store (n : Z) (m : bytes) (p v : Z) : option bytes :=
blit (le_encode (Z.to_nat n) v) 0 m p n.

(** ** Typed accesses

    An access through a pointer to a type of [n] bytes. *)
Class Access : Type := {
  typed_load : Z -> bytes -> Z -> option Z;
  typed_store : Z -> bytes -> Z -> Z -> option bytes;
}.

(** Any address will do. *)
#[export] Instance flat_access : Access := {| typed_load := load; typed_store := store |}.

(** The block is at the address [base]; misaligned accesses are tolerated up to
    [unaligned_ok] bytes, and fault beyond. *)
Definition tolerated (unaligned_ok base n p : Z) : bool := (n <=? unaligned_ok) || ((base + p) mod n =? 0).
Definition strict_access (unaligned_ok base : Z) : Access := {|
  typed_load n m p := if tolerated unaligned_ok base n p then load n m p else None;
  typed_store n m p v := if tolerated unaligned_ok base n p then store n m p v else None |}.

(** ** Bytewise copies *)

Definition bcopy_byte (src : bytes) (s i : Z) (dst : bytes) (d : Z) : option bytes :=
x ← zget src (s + i); zset dst (d + i) x.

Definition bcopy_2 (dst : bytes) (d : Z) (src : bytes) (s : Z) : option bytes :=
dst ← bcopy_byte src s 0 dst d;
bcopy_byte src s 1 dst d.

Definition bcopy_4 (dst : bytes) (d : Z) (src : bytes) (s : Z) : option bytes :=
dst ← bcopy_byte src s 0 dst d;
dst ← bcopy_byte src s 1 dst d;
dst ← bcopy_byte src s 2 dst d;
bcopy_byte src s 3 dst d.

Definition bcopy_8 (dst : bytes) (d : Z) (src : bytes) (s : Z) : option bytes :=
dst ← bcopy_byte src s 0 dst d;
dst ← bcopy_byte src s 1 dst d;
dst ← bcopy_byte src s 2 dst d;
dst ← bcopy_byte src s 3 dst d;
dst ← bcopy_byte src s 4 dst d;
dst ← bcopy_byte src s 5 dst d;
dst ← bcopy_byte src s 6 dst d;
bcopy_byte src s 7 dst d.

Definition bcopy_16 (dst : bytes) (d : Z) (src : bytes) (s : Z) : option bytes :=
dst ← bcopy_8 dst d src s;
bcopy_8 dst (d + 8) src (s + 8).

(** ** The accessors *)

Section Access.
(** The machine, and [MDBX_UNALIGNED_OK]. A local variable, the target of the
    bytewise copies, is aligned. *)
Context {machine : Access} (unaligned_ok : Z).

Definition peek_u8 (m : bytes) (p : Z) : option Z := zget m p.
Definition poke_u8 (m : bytes) (p v : Z) : option bytes := zset m p v.

Definition unaligned_peek_u16 (expected_alignment : Z) (m : bytes) (p : Z) : option Z :=
if (2 <=? unaligned_ok) || (expected_alignment mod 2 =? 0) then typed_load 2 m p
else v ← bcopy_2 [0; 0] 0 m p; load 2 v 0.

Definition unaligned_poke_u16 (expected_alignment : Z) (m : bytes) (p v : Z) : option bytes :=
if (2 <=? unaligned_ok) || (expected_alignment mod 2 =? 0) then typed_store 2 m p v
else bcopy_2 m p (le_encode 2 v) 0.

Definition unaligned_peek_u32 (expected_alignment : Z) (m : bytes) (p : Z) : option Z :=
if (4 <=? unaligned_ok) || (expected_alignment mod 4 =? 0) then typed_load 4 m p
else if expected_alignment mod 2 =? 0 then
  lo ← typed_load 2 m p;
  hi ← typed_load 2 m (p + 2);
  Some (Z.lor lo (Z.shiftl hi 16))
else v ← bcopy_4 [0; 0; 0; 0] 0 m p; load 4 v 0.

Definition unaligned_poke_u32 (expected_alignment : Z) (m : bytes) (p v : Z) : option bytes :=
if (4 <=? unaligned_ok) || (expected_alignment mod 4 =? 0) then typed_store 4 m p v
else if expected_alignment mod 2 =? 0 then
  m ← typed_store 2 m p (u16 v);
  typed_store 2 m (p + 2) (u16 (Z.shiftr v 16))
else bcopy_4 m p (le_encode 4 v) 0.

Definition unaligned_peek_u64 (expected_alignment : Z) (m : bytes) (p : Z) : option Z :=
if (8 <=? unaligned_ok) || (expected_alignment mod 8 =? 0) then typed_load 8 m p
else if expected_alignment mod 4 =? 0 then
  lo ← typed_load 4 m p;
  hi ← typed_load 4 m (p + 4);
  Some (Z.lor lo (Z.shiftl hi 32))
else v ← bcopy_8 [0; 0; 0; 0; 0; 0; 0; 0] 0 m p; load 8 v 0.

Definition unaligned_peek_u64_volatile (expected_alignment : Z) (m : bytes) (p : Z) : option Z :=
if (8 <=? unaligned_ok) || (expected_alignment mod 8 =? 0) then typed_load 8 m p
else
  lo ← typed_load 4 m p;
  hi ← typed_load 4 m (p + 4);
  Some (Z.lor lo (Z.shiftl hi 32)).

Definition unaligned_poke_u64 (expected_alignment : Z) (m : bytes) (p v : Z) : option bytes :=
if (8 <=? unaligned_ok) || (expected_alignment mod 8 =? 0) then typed_store 8 m p v
else if expected_alignment mod 4 =? 0 then
  m ← typed_store 4 m p (u32 v);
  typed_store 4 m (p + 4) (u32 (Z.shiftr v 32))
else bcopy_8 m p (le_encode 8 v) 0.

(** [sizeof(pgno_t) == sizeof(uint32_t)] *)
Definition peek_pgno (m : bytes) (p : Z) : option Z := unaligned_peek_u32 1 m p.
Definition poke_pgno (m : bytes) (p v : Z) : option bytes := unaligned_poke_u32 1 m p v.
End Access.

(** [field_alignment]: the alignment of a field from that of its struct. *)
Definition field_alignment (alignment_baseline field_offset : Z) : Z :=
let merge := Z.lor alignment_baseline field_offset in
Z.land merge (u64 (- i32 merge)).

(** ** Words and their bytes *)

Lemma le_decode_app a b : le_decode (a ++ b) = le_decode a + 256 ^ zlen a * le_decode b.
Proof.
  induction a as [|x a IH]; cbn [app le_decode].
  - change (zlen []) with 0. lia.
  - rewrite IH, zlen_cons, Z.pow_add_r by (try apply zlen_nonneg; lia). lia.
Qed.

Lemma le_decode_bound l : Forall is_byte l -> 0 <= le_decode l < 256 ^ zlen l.
Proof.
  induction 1 as [|x l Hx Hl IH]; cbn [le_decode].
  - change (zlen []) with 0. lia.
  - rewrite zlen_cons, Z.pow_add_r by (try apply zlen_nonneg; lia). unfold is_byte in Hx. lia.
Qed.

Lemma zlen_le_encode n v : zlen (le_encode n v) = Z.of_nat n.
Proof. revert v. induction n as [|n IH]; intros v; cbn [le_encode]; [done|]. rewrite zlen_cons, IH. lia. Qed.

#[export] Hint Rewrite zlen_le_encode : zlen.

Lemma bytes_check l : forallb (fun b => (0 <=? b) && (b <? 256)) l = true -> Forall is_byte l.
Proof.
  induction l as [|x l IH]; cbn [forallb]; [constructor|].
  rewrite !andb_true_iff, Z.leb_le, Z.ltb_lt. intros [Hx Hl]. constructor; [exact Hx|by apply IH].
Qed.

Lemma le_encode_bytes n v : Forall is_byte (le_encode n v).
Proof.
  revert v. induction n as [|n IH]; intros v; cbn [le_encode]; constructor; [|done].
  apply Z.mod_pos_bound. lia.
Qed.

Lemma le_decode_encode n v : le_decode (le_encode n v) = v mod 256 ^ Z.of_nat n.
Proof.
  revert v. induction n as [|n IH]; intros v; cbn [le_encode le_decode].
  - by rewrite Z.mod_1_r.
  - rewrite IH, Nat2Z.inj_succ, Z.pow_succ_r by lia. rewrite Z.rem_mul_r by lia. lia.
Qed.

Lemma le_encode_decode l : Forall is_byte l -> le_encode (length l) (le_decode l) = l.
Proof.
  induction 1 as [|x l Hx Hl IH]; cbn [length le_encode le_decode]; [done|]. unfold is_byte in Hx.
  replace (x + 256 * le_decode l) with (x + le_decode l * 256) by lia.
  rewrite Z_mod_plus_full, Z.mod_small, Z_div_plus_full, Z.div_small, Z.add_0_l by lia. by rewrite IH.
Qed.

Lemma le_decode_inj a b : Forall is_byte a -> Forall is_byte b -> zlen a = zlen b ->
  le_decode a = le_decode b -> a = b.
Proof.
  intros Ha Hb Hl E. rewrite <- (le_encode_decode a), <- (le_encode_decode b) by done.
  rewrite E. unfold zlen in Hl. by apply Nat2Z.inj in Hl as ->.
Qed.

Lemma le_encode_app n k v : le_encode (n + k) v = le_encode n v ++ le_encode k (v / 256 ^ Z.of_nat n).
Proof.
  revert v. induction n as [|n IH]; intros v; cbn [le_encode Nat.add app].
  - by rewrite Z.div_1_r.
  - rewrite IH, Nat2Z.inj_succ, Z.pow_succ_r, Z.div_div by lia. done.
Qed.

Lemma le_encode_wrap n v : le_encode n (v mod 256 ^ Z.of_nat n) = le_encode n v.
Proof.
  pose proof (le_encode_decode (le_encode n v) (le_encode_bytes n v)) as H.
  rewrite le_decode_encode in H. rewrite <- H. f_equal.
  pose proof (zlen_le_encode n v). unfold zlen in *. lia.
Qed.

Lemma lor_shiftl_add lo hi k : 0 <= k -> 0 <= lo < 2 ^ k -> Z.lor lo (Z.shiftl hi k) = lo + 2 ^ k * hi.
Proof.
  intros Hk Hlo. rewrite Z.shiftl_mul_pow2 by done. rewrite <- Z.lxor_lor, <- Z.add_nocarry_lxor; [lia|..].
  all: apply Z.bits_inj'; intros i Hi; rewrite Z.land_spec, Z.bits_0, Z.mul_pow2_bits by lia.
  all: destruct (decide (i < k)); [rewrite (Z.testbit_neg_r hi) by lia; apply andb_false_r|].
  all: rewrite <- (Z.mod_small lo (2 ^ k)) by done; by rewrite Z.mod_pow2_bits_high by lia.
Qed.

(** ** Accesses inside of a block and beyond it *)

Lemma zslice_mid {A} (a b c : list A) p n : p = zlen a -> n = zlen b -> zslice (a ++ b ++ c) p n = b.
Proof.
  intros -> ->. unfold zslice, zlen. rewrite !Nat2Z.id, drop_app_length. by rewrite take_app_length.
Qed.

Lemma load_mid n a b c p : p = zlen a -> n = zlen b -> load n (a ++ b ++ c) p = Some (le_decode b).
Proof.
  intros -> ->. unfold load. rewrite zslice_mid by done.
  destruct (Z.leb_spec 0 (zlen a)), (Z.leb_spec (zlen a + zlen b) (zlen (a ++ b ++ c))); done || zlia.
Qed.

Lemma load_out n m p : p < 0 \/ zlen m < p + n -> load n m p = None.
Proof. intros H. unfold load. destruct (Z.leb_spec 0 p), (Z.leb_spec (p + n) (zlen m)); done || lia. Qed.

Lemma store_mid n a b c p v : p = zlen a -> n = zlen b ->
  store n (a ++ b ++ c) p v = Some (a ++ le_encode (Z.to_nat n) v ++ c).
Proof.
  intros -> ->. unfold store. pose proof (zlen_nonneg b).
  pose proof (zlen_le_encode (Z.to_nat (zlen b)) v).
  rewrite <- (app_nil_r (le_encode _ _)) at 1. rewrite <- (app_nil_l (le_encode _ _ ++ [])).
  by apply blit_split; [done|done|lia|].
Qed.

Lemma store_out n m p v : 0 <= n -> p < 0 \/ zlen m < p + n -> store n m p v = None.
Proof.
  intros Hn H. unfold store, blit.
  destruct (Z.leb_spec 0 p), (Z.leb_spec (p + n) (zlen m)); rewrite ?andb_false_r; done || lia.
Qed.

(** Either an access of [n] bytes is out of the block or the block splits
    around it. *)
Lemma access_cases {A} n (m : list A) p : 0 <= n ->
  (p < 0 \/ zlen m < p + n) \/ exists a b c, m = a ++ b ++ c /\ p = zlen a /\ zlen b = n.
Proof.
  intros Hn. destruct (decide (p < 0 \/ zlen m < p + n)) as [|Hin]; [by left|right].
  destruct (zsplit m p) as (a & r & -> & Ha); [lia|].
  destruct (zsplit r n) as (b & c & -> & Hb); [zlia|]. eauto 6.
Qed.

Lemma bcopy_byte_mid (src1 src2 dst1 dst2 : bytes) x y s d i :
  s + i = zlen src1 -> d + i = zlen dst1 ->
  bcopy_byte (src1 ++ x :: src2) s i (dst1 ++ y :: dst2) d = Some (dst1 ++ x :: dst2).
Proof.
  intros Hs Hd. unfold bcopy_byte. rewrite zget_app_mid by done. cbn. by apply zset_app_mid.
Qed.

(** A bytewise copy moves the bytes one after the other. *)
Fixpoint bcopy_run (k : nat) (i : Z) (src : bytes) (s : Z) (dst : bytes) (d : Z) : option bytes :=
match k with
| O => Some dst
| S k => dst ← bcopy_byte src s i dst d; bcopy_run k (i + 1) src s dst d
end.

Lemma bcopy_run_mid l l' : forall i s1 s2 d1 d2 s d, zlen l = zlen l' -> s + i = zlen s1 -> d + i = zlen d1 ->
  bcopy_run (length l) i (s1 ++ l ++ s2) s (d1 ++ l' ++ d2) d = Some (d1 ++ l ++ d2).
Proof.
  revert l'. induction l as [|x l IH]; intros [|y l'] i s1 s2 d1 d2 s d Hl Hs Hd; try done.
  cbn [length bcopy_run app].
  rewrite bcopy_byte_mid by done. cbn [mbind option_bind].
  rewrite (cons_middle x d1), (cons_middle x s1), !app_assoc, <- (app_assoc (s1 ++ [x])), <- (app_assoc (d1 ++ [x])).
  rewrite IH; [|zlia..]. by rewrite <- !app_assoc.
Qed.

Lemma bcopy_run_out k : forall i src s dst d, 0 <= i -> (0 < k)%nat ->
  (s + i < 0 \/ zlen src < s + i + Z.of_nat k) \/ (d + i < 0 \/ zlen dst < d + i + Z.of_nat k) ->
  bcopy_run k i src s dst d = None.
Proof.
  induction k as [|k IH]; intros i src s dst d Hi Hk H; [lia|]. cbn [bcopy_run].
  unfold bcopy_byte. destruct (zget src (s + i)) as [x|] eqn:Ex; [|done].
  apply zget_range in Ex. cbn [mbind option_bind].
  destruct (zset dst (d + i) x) as [dst'|] eqn:Ed; [|done].
  apply zset_inv in Ed as [Hd ->]. cbn [mbind option_bind].
  destruct k as [|k]; [lia|]. apply IH; [lia|lia|]. rewrite zlen_zupd. lia.
Qed.

Ltac bcopy_steps :=
  cbn [bcopy_run];
  change (0 + 1) with 1; change (1 + 1) with 2; change (2 + 1) with 3; change (3 + 1) with 4;
  change (4 + 1) with 5; change (5 + 1) with 6; change (6 + 1) with 7;
  repeat match goal with
  | |- context [bcopy_byte ?a ?b ?c ?d ?e] => destruct (bcopy_byte a b c d e); cbn [mbind option_bind]; [|done]
  end; done.

Lemma bcopy_2_run dst d src s : bcopy_2 dst d src s = bcopy_run 2 0 src s dst d.
Proof. unfold bcopy_2. bcopy_steps. Qed.

Lemma bcopy_4_run dst d src s : bcopy_4 dst d src s = bcopy_run 4 0 src s dst d.
Proof. unfold bcopy_4. bcopy_steps. Qed.

Lemma bcopy_8_run dst d src s : bcopy_8 dst d src s = bcopy_run 8 0 src s dst d.
Proof. unfold bcopy_8. bcopy_steps. Qed.

(** Reading through a bytewise copy, and writing with one. *)
Lemma bcopy_run_load (n : nat) m p zs : (0 < n)%nat -> length zs = n ->
  (v ← bcopy_run n 0 m p zs 0; load (Z.of_nat n) v 0) = load (Z.of_nat n) m p.
Proof.
  intros Hn Hz. destruct (access_cases (Z.of_nat n) m p) as [Hout|(a & b & c & -> & -> & Hb)]; [lia| |].
  - rewrite load_out by done. rewrite bcopy_run_out; [done|lia|lia|left; lia].
  - assert (n = length b) as -> by (unfold zlen in Hb; lia).
    rewrite <- (app_nil_r zs), <- (app_nil_l (zs ++ [])).
    rewrite bcopy_run_mid; [|unfold zlen; lia|lia|done]. cbn [mbind option_bind].
    rewrite !load_mid by (done || unfold zlen; lia). done.
Qed.

Lemma bcopy_run_store (n : nat) m p v : (0 < n)%nat ->
  bcopy_run n 0 (le_encode n v) 0 m p = store (Z.of_nat n) m p v.
Proof.
  intros Hn. pose proof (zlen_le_encode n v) as Hl.
  destruct (access_cases (Z.of_nat n) m p) as [Hout|(a & b & c & -> & -> & Hb)]; [lia| |].
  - rewrite store_out by lia || done. apply bcopy_run_out; [lia|lia|right; lia].
  - rewrite store_mid by done. rewrite Nat2Z.id.
    pose proof (bcopy_run_mid (le_encode n v) b 0 [] [] a c 0 (zlen a)) as H.
    rewrite app_nil_r, app_nil_l in H. replace (length (le_encode n v)) with n in H by (unfold zlen in Hl; lia).
    apply H; [lia|done|lia].
Qed.

(** Two accesses of [n] bytes make one of [2 * n]. *)
Lemma load_halves n m p : 0 < n -> Forall is_byte m ->
  (lo ← load n m p; hi ← load n m (p + n); Some (Z.lor lo (Z.shiftl hi (8 * n)))) = load (n + n) m p.
Proof.
  intros Hn Hm. destruct (access_cases (n + n) m p) as [Hout|(a & b & c & -> & -> & Hb)]; [lia| |].
  - rewrite (load_out (n + n)) by done. destruct (load n m p) eqn:E; [|done]. cbn [mbind option_bind].
    rewrite load_out; [done|]. destruct Hout as [?|?]; [|lia]. rewrite load_out in E by lia. done.
  - destruct (zsplit b n) as (b1 & b2 & -> & Hb1); [lia|]. rewrite zlen_app in Hb.
    rewrite !Forall_app in Hm. destruct Hm as (_ & [H1 H2] & _).
    rewrite (load_mid (n + n)) by (done || zlia). rewrite <- (app_assoc b1).
    rewrite (load_mid n a b1 _ (zlen a)) by lia. cbn [mbind option_bind]. rewrite (app_assoc a).
    rewrite (load_mid n (a ++ b1) b2) by zlia. cbn [mbind option_bind]. f_equal.
    pose proof (le_decode_bound b1 H1). rewrite le_decode_app, Hb1 in *.
    change 256 with (2 ^ 8) in *. rewrite <- Z.pow_mul_r in * by lia. by apply lor_shiftl_add; [lia|].
Qed.

Lemma store_halves (n : nat) m p v : (0 < n)%nat ->
  (m ← store (Z.of_nat n) m p (v mod 256 ^ Z.of_nat n);
   store (Z.of_nat n) m (p + Z.of_nat n) ((Z.shiftr v (8 * Z.of_nat n)) mod 256 ^ Z.of_nat n)) =
  store (Z.of_nat (n + n)) m p v.
Proof.
  intros Hn. destruct (access_cases (Z.of_nat (n + n)) m p) as [Hout|(a & b & c & -> & -> & Hb)]; [lia| |].
  - rewrite (store_out (Z.of_nat (n + n))) by lia.
    destruct (store (Z.of_nat n) m p _) as [m'|] eqn:E; [|done]. cbn [mbind option_bind]. apply store_out; [lia|].
    destruct (access_cases (Z.of_nat n) m p) as [Ho|(a & b & c & -> & -> & Hb)]; [lia| |].
    + rewrite store_out in E by lia. done.
    + rewrite store_mid in E by done. simplify_eq. rewrite Nat2Z.id. zlia.
  - destruct (zsplit b (Z.of_nat n)) as (b1 & b2 & -> & Hb1); [lia|]. rewrite zlen_app in Hb.
    rewrite (store_mid (Z.of_nat (n + n))) by (done || zlia). rewrite <- (app_assoc b1).
    rewrite (store_mid (Z.of_nat n) a b1 _ (zlen a)) by lia. cbn [mbind option_bind].
    rewrite (app_assoc a), (store_mid (Z.of_nat n) _ b2) by (rewrite ?zlen_app, ?zlen_le_encode; lia).
    rewrite !Nat2Z.id, le_encode_app, !le_encode_wrap, Z.shiftr_div_pow2 by lia.
    change 256 with (2 ^ 8). rewrite <- Z.pow_mul_r by lia. by rewrite <- !app_assoc.
Qed.

(** ** Every variant of an accessor transfers the same word *)

(** A machine carries out the accesses that are [ok] for it. *)
Class Permits (machine : Access) (ok : Z -> Z -> Prop) : Prop := {
  permits_load n m p : ok n p -> typed_load n m p = load n m p;
  permits_store n m p v : ok n p -> typed_store n m p v = store n m p v;
}.

#[export] Instance flat_permits : Permits flat_access (fun _ _ => True).
Proof. by split. Qed.

#[export] Instance strict_permits unaligned_ok base :
  Permits (strict_access unaligned_ok base) (fun n p => tolerated unaligned_ok base n p = true).
Proof. split; [intros n m p H|intros n m p v H]; cbn [typed_load typed_store strict_access]; by rewrite H. Qed.

(** With [expected_alignment] promised for the offset [p], the accesses that the
    code derives from the promise or from the option are ok. *)
Definition promised (ok : Z -> Z -> Prop) (unaligned_ok expected_alignment p : Z) : Prop :=
forall n d, 0 < n -> n <= unaligned_ok \/ (expected_alignment mod n = 0 /\ d mod n = 0) -> ok n (p + d).

Lemma strict_promised unaligned_ok expected_alignment base p :
  0 < expected_alignment -> (base + p) mod expected_alignment = 0 ->
  promised (fun n p => tolerated unaligned_ok base n p = true) unaligned_ok expected_alignment p.
Proof.
  intros He Hp n d Hn [Hu|[Ha Hd]]; unfold tolerated; apply orb_true_iff; [left; by apply Z.leb_le|right].
  apply Z.eqb_eq. apply Z.mod_divide; [lia|]. apply Z.mod_divide in Hp, Ha, Hd; [|lia..].
  rewrite Z.add_assoc. apply Z.divide_add_r; [|done]. exact (Z.divide_trans _ _ _ Ha Hp).
Qed.

Section Accessors.
Context {machine : Access} {ok : Z -> Z -> Prop} `{!Permits machine ok} (unaligned_ok expected_alignment p : Z).
Hypothesis Hok : promised ok unaligned_ok expected_alignment p.

Lemma promised_first n : 0 < n -> (n <=? unaligned_ok) || (expected_alignment mod n =? 0) = true -> ok n p.
Proof using All.
  intros Hn H. rewrite <- (Z.add_0_r p). apply Hok; [done|]. rewrite Zmod_0_l.
  apply orb_true_iff in H as [H%Z.leb_le|H%Z.eqb_eq]; auto.
Qed.

Lemma promised_halves n : 0 < n -> (expected_alignment mod n =? 0) = true -> ok n p /\ ok n (p + n).
Proof using All.
  intros Hn H. split; [apply promised_first; [done|]; by rewrite H, orb_true_r|].
  apply Hok; [done|]. rewrite Z_mod_same_full. apply Z.eqb_eq in H. auto.
Qed.

(** Two permitted accesses of half the width. *)
Lemma typed_load_halves n m : 0 < n -> (expected_alignment mod n =? 0) = true -> Forall is_byte m ->
  (lo ← typed_load n m p; hi ← typed_load n m (p + n); Some (Z.lor lo (Z.shiftl hi (8 * n)))) = load (n + n) m p.
Proof using All.
  intros Hn He Hm. destruct (promised_halves n Hn He) as [H1 H2].
  rewrite !permits_load by done. by apply load_halves.
Qed.

Lemma typed_store_halves (n : nat) m v : (0 < n)%nat -> (expected_alignment mod Z.of_nat n =? 0) = true ->
  (m ← typed_store (Z.of_nat n) m p (v mod 256 ^ Z.of_nat n);
   typed_store (Z.of_nat n) m (p + Z.of_nat n) ((Z.shiftr v (8 * Z.of_nat n)) mod 256 ^ Z.of_nat n)) =
  store (Z.of_nat (n + n)) m p v.
Proof using All.
  intros Hn He. destruct (promised_halves (Z.of_nat n)) as [H1 H2]; [lia|done|].
  rewrite <- store_halves by done. rewrite permits_store by done.
  destruct (store _ m p _); [|done]. cbn [mbind option_bind]. by rewrite permits_store.
Qed.

Ltac wide := destruct (_ || _) eqn:Hw; [apply permits_load || apply permits_store; apply promised_first; [lia|exact Hw]|clear Hw].

Lemma typed_peek_u16 m : unaligned_peek_u16 unaligned_ok expected_alignment m p = load 2 m p.
Proof using All.
  unfold unaligned_peek_u16. wide. rewrite bcopy_2_run. by apply (bcopy_run_load 2 m p [0; 0]); [lia|].
Qed.

Lemma typed_peek_u32 m : Forall is_byte m -> unaligned_peek_u32 unaligned_ok expected_alignment m p = load 4 m p.
Proof using All.
  intros Hm. unfold unaligned_peek_u32. wide. destruct (_ =? _) eqn:Hh.
  - by apply (typed_load_halves 2).
  - rewrite bcopy_4_run. by apply (bcopy_run_load 4 m p [0; 0; 0; 0]); [lia|].
Qed.

Lemma typed_peek_u64 m : Forall is_byte m -> unaligned_peek_u64 unaligned_ok expected_alignment m p = load 8 m p.
Proof using All.
  intros Hm. unfold unaligned_peek_u64. wide. destruct (_ =? _) eqn:Hh.
  - by apply (typed_load_halves 4).
  - rewrite bcopy_8_run. by apply (bcopy_run_load 8 m p [0; 0; 0; 0; 0; 0; 0; 0]); [lia|].
Qed.

Lemma typed_peek_u64_volatile m : Forall is_byte m -> expected_alignment mod 4 = 0 ->
  unaligned_peek_u64_volatile unaligned_ok expected_alignment m p = load 8 m p.
Proof using All.
  intros Hm H4. unfold unaligned_peek_u64_volatile. wide. apply (typed_load_halves 4); [lia|by apply Z.eqb_eq|done].
Qed.

Lemma typed_poke_u16 m v : unaligned_poke_u16 unaligned_ok expected_alignment m p v = store 2 m p v.
Proof using All.
  unfold unaligned_poke_u16. wide. rewrite bcopy_2_run. by apply (bcopy_run_store 2); lia.
Qed.

Lemma typed_poke_u32 m v : unaligned_poke_u32 unaligned_ok expected_alignment m p v = store 4 m p v.
Proof using All.
  unfold unaligned_poke_u32. wide. destruct (_ =? _) eqn:Hh.
  - apply (typed_store_halves 2); [lia|done].
  - rewrite bcopy_4_run. by apply (bcopy_run_store 4); lia.
Qed.

Lemma typed_poke_u64 m v : unaligned_poke_u64 unaligned_ok expected_alignment m p v = store 8 m p v.
Proof using All.
  unfold unaligned_poke_u64. wide. destruct (_ =? _) eqn:Hh.
  - apply (typed_store_halves 4); [lia|done].
  - rewrite bcopy_8_run. by apply (bcopy_run_store 8); lia.
Qed.
End Accessors.

(** On the machine that takes any address, which the other components use. *)
Lemma peek_u16_load uok ea m p : unaligned_peek_u16 uok ea m p = load 2 m p.
Proof. by apply (typed_peek_u16 (ok := fun _ _ => True)). Qed.

Lemma peek_u32_load uok ea m p : Forall is_byte m -> unaligned_peek_u32 uok ea m p = load 4 m p.
Proof. by apply (typed_peek_u32 (ok := fun _ _ => True)). Qed.

Lemma peek_u64_load uok ea m p : Forall is_byte m -> unaligned_peek_u64 uok ea m p = load 8 m p.
Proof. by apply (typed_peek_u64 (ok := fun _ _ => True)). Qed.

Lemma poke_u16_store uok ea m p v : unaligned_poke_u16 uok ea m p v = store 2 m p v.
Proof. by apply (typed_poke_u16 (ok := fun _ _ => True)). Qed.

Lemma poke_u32_store uok ea m p v : unaligned_poke_u32 uok ea m p v = store 4 m p v.
Proof. by apply (typed_poke_u32 (ok := fun _ _ => True)). Qed.

Lemma store_load n m p v m' : 0 < n -> store n m p v = Some m' -> load n m' p = Some (v mod 256 ^ n).
Proof.
  intros Hn H. destruct (access_cases n m p) as [Hout|(a & b & c & -> & -> & Hb)]; [lia| |].
  - rewrite store_out in H by lia. done.
  - rewrite store_mid in H by done. simplify_eq. rewrite load_mid; [|done|rewrite zlen_le_encode; lia].
    rewrite le_decode_encode. by rewrite Z2Nat.id by lia.
Qed.

Lemma store_bytes n m p v m' : Forall is_byte m -> store n m p v = Some m' -> Forall is_byte m'.
Proof.
  intros Hm H. destruct (decide (0 <= n)) as [Hn|Hn].
  - destruct (access_cases n m p) as [Hout|(a & b & c & -> & -> & Hb)]; [done| |].
    + rewrite store_out in H by done. done.
    + rewrite store_mid in H by done. simplify_eq. rewrite !Forall_app in *.
      destruct Hm as (? & _ & ?). auto using le_encode_bytes.
  - unfold store, blit in H. destruct (Z.leb_spec 0 n); [lia|]. by rewrite ?andb_false_r in H.
Qed.

(** C30: on a machine where a misaligned access faults unless it is as narrow
    as the build option [MDBX_UNALIGNED_OK] says, no unaligned accessor faults
    when the address is a multiple of the alignment the caller promises (for the
    volatile one a multiple of 4, as the code asserts), whichever of the
    one-access, two-access and bytewise variants it takes: each reads or writes
    exactly the little-endian word at the address, and steps outside of the
    block only if that word does. A word written is the word read back, with
    any other promise that holds and any other setting of the option. *)
Theorem unaligned_access_uniform uok base ea m p v :
  Forall is_byte m -> 0 < ea -> (base + p) mod ea = 0 ->
  let M := strict_access uok base in
  unaligned_peek_u16 (machine := M) uok ea m p = load 2 m p /\
  unaligned_peek_u32 (machine := M) uok ea m p = load 4 m p /\
  unaligned_peek_u64 (machine := M) uok ea m p = load 8 m p /\
  (ea mod 4 = 0 -> unaligned_peek_u64_volatile (machine := M) uok ea m p = load 8 m p) /\
  unaligned_poke_u16 (machine := M) uok ea m p v = store 2 m p v /\
  unaligned_poke_u32 (machine := M) uok ea m p v = store 4 m p v /\
  unaligned_poke_u64 (machine := M) uok ea m p v = store 8 m p v /\
  forall ea' uok' m', 0 < ea' -> (base + p) mod ea' = 0 ->
    let M' := strict_access uok' base in
    (unaligned_poke_u16 (machine := M) uok ea m p v = Some m' -> unaligned_peek_u16 (machine := M') uok' ea' m' p = Some (u16 v)) /\
    (unaligned_poke_u32 (machine := M) uok ea m p v = Some m' -> unaligned_peek_u32 (machine := M') uok' ea' m' p = Some (u32 v)) /\
    (unaligned_poke_u64 (machine := M) uok ea m p v = Some m' -> unaligned_peek_u64 (machine := M') uok' ea' m' p = Some (u64 v)).
Proof.
  intros Hm He Hp M. pose proof (strict_promised uok ea base p He Hp) as Hok.
  assert (unaligned_poke_u16 (machine := M) uok ea m p v = store 2 m p v) as E16 by by eapply typed_poke_u16.
  assert (unaligned_poke_u32 (machine := M) uok ea m p v = store 4 m p v) as E32 by by eapply typed_poke_u32.
  assert (unaligned_poke_u64 (machine := M) uok ea m p v = store 8 m p v) as E64 by by eapply typed_poke_u64.
  split_and!; [by eapply typed_peek_u16|by eapply typed_peek_u32|by eapply typed_peek_u64|
    intros; by eapply typed_peek_u64_volatile|done..|].
  intros ea' uok' m' He' Hp' M'. pose proof (strict_promised uok' ea' base p He' Hp') as Hok'.
  rewrite E16, E32, E64. split_and!; intros E; pose proof (store_bytes _ _ _ _ _ Hm E).
  - erewrite typed_peek_u16 by done. by apply (store_load 2) with (m := m).
  - erewrite typed_peek_u32 by done. by apply (store_load 4) with (m := m).
  - erewrite typed_peek_u64 by done. by apply (store_load 8) with (m := m).
Qed.

Lemma unaligned_access_uniform_witness :
  let M := strict_access 0 1022 in
  unaligned_peek_u32 (machine := M) 0 2 [0; 1; 2; 3; 4; 5] 2 = Some 0x05040302 /\
  unaligned_peek_u32 (machine := M) 0 4 [0; 1; 2; 3; 4; 5] 0 = None /\
  unaligned_poke_u32 (machine := M) 0 1 [0; 1; 2; 3; 4; 5] 1 0xA0B0C0D0 = Some [0; 0xD0; 0xC0; 0xB0; 0xA0; 5].
Proof.
  assert (Forall is_byte [0; 1; 2; 3; 4; 5]) as Hb by (repeat constructor; unfold is_byte; lia).
  intros M. split; [|split; [done|]].
  - destruct (unaligned_access_uniform 0 1022 2 [0; 1; 2; 3; 4; 5] 2 0 Hb) as (_ & E & _); [done..|].
    etrans; [exact E|by vm_compute].
  - destruct (unaligned_access_uniform 0 1022 1 [0; 1; 2; 3; 4; 5] 1 0xA0B0C0D0 Hb) as (_ & _ & _ & _ & _ & E & _); [done..|].
    etrans; [exact E|by vm_compute].
Defined.
