(* ===== verification/Cmp.v ===== *)
(** * Comparators of keys and values ([src/src/comparators.h], [comparators.c])

    The built-in orders of a table: lexicographic, reverse (from the last byte
    to the first), length-first and by native integers, and the fast test of
    equality. An [MDBX_val] is a slice of a block of bytes. [intptr_t] is 64
    bits wide, [int] 32. *)

From stdpp Require Import base list numbers option.
From Stdlib Require Import ZArith Lia.
From S2P Require Import Prelude Bits Alloc Bytes.

(** ** Values *)

Record MDBX_val : Type := mk_val { iov_mem : bytes; iov_base : Z; iov_len : Z }.

Definition val_bytes (v : MDBX_val) : bytes := zslice (iov_mem v) (iov_base v) (iov_len v).

(** A slice of a block, not longer than the code assumes of keys. *)
Record val_ok (v : MDBX_val) : Prop := {
  val_mem : Forall is_byte (iov_mem v);
  val_base : 0 <= iov_base v;
  val_len : 0 <= iov_len v < 2 ^ 31;
  val_in : iov_base v + iov_len v <= zlen (iov_mem v);
}.

(** [memcmp] of the C library: the difference of the first bytes that differ.
    Both objects must have [n] bytes. *)
Fixpoint memcmp_bytes (a b : bytes) : Z :=
match a, b with
| x :: a, y :: b => if x =? y then memcmp_bytes a b else x - y
| _, _ => 0
end.

Definition memcmp (a : bytes) (p : Z) (b : bytes) (q n : Z) : option Z :=
if (0 <=? p) && (p + n <=? zlen a) && (0 <=? q) && (q + n <=? zlen b)
then Some (memcmp_bytes (zslice a p n) (zslice b q n)) else None.

(** ** The comparators *)

Section Comparators.
(** [MDBX_UNALIGNED_OK] *)
Context (unaligned_ok : Z).

Definition cmp_uint32_unchecked (expected_alignment : Z) (a b : MDBX_val) : option Z :=
x ← unaligned_peek_u32 unaligned_ok expected_alignment (iov_mem a) (iov_base a);
y ← unaligned_peek_u32 unaligned_ok expected_alignment (iov_mem b) (iov_base b);
Some (CMP2INT x y).

Definition cmp_uint64_unchecked (expected_alignment : Z) (a b : MDBX_val) : option Z :=
x ← unaligned_peek_u64 unaligned_ok expected_alignment (iov_mem a) (iov_base a);
y ← unaligned_peek_u64 unaligned_ok expected_alignment (iov_mem b) (iov_base b);
Some (CMP2INT x y).

Definition cmp_uint (expected_alignment : Z) (a b : MDBX_val) : option Z :=
if iov_len a =? iov_len b then
  if iov_len a =? 8 then cmp_uint64_unchecked expected_alignment a b
  else if iov_len a =? 4 then cmp_uint32_unchecked expected_alignment a b
  else Some 0
else Some 0.

Definition cmp_uint32 (expected_alignment : Z) (a b : MDBX_val) : option Z :=
if (iov_len a =? iov_len b) && (iov_len a =? 4) then cmp_uint32_unchecked expected_alignment a b else Some 0.

Definition cmp_uint64 (expected_alignment : Z) (a b : MDBX_val) : option Z :=
if (iov_len a =? iov_len b) && (iov_len a =? 8) then cmp_uint64_unchecked expected_alignment a b else Some 0.

(** The variants for aligned operands are macros for the unaligned one where
    that is allowed. *)
Definition align_or (n : Z) : Z := if n <=? unaligned_ok then 1 else n.

Definition cmp_uint_unaligned : MDBX_val -> MDBX_val -> option Z := cmp_uint 1.
Definition cmp_uint_align2 : MDBX_val -> MDBX_val -> option Z := cmp_uint (align_or 2).
Definition cmp_uint_align4 : MDBX_val -> MDBX_val -> option Z := cmp_uint (align_or 4).
Definition cmp_uint32_unaligned : MDBX_val -> MDBX_val -> option Z := cmp_uint32 1.
Definition cmp_uint64_unaligned : MDBX_val -> MDBX_val -> option Z := cmp_uint64 1.
Definition cmp_uint32_unaligned_unchecked : MDBX_val -> MDBX_val -> option Z := cmp_uint32_unchecked 1.
Definition cmp_uint64_unaligned_unchecked : MDBX_val -> MDBX_val -> option Z := cmp_uint64_unchecked 1.
Definition cmp_uint32_align4_unchecked : MDBX_val -> MDBX_val -> option Z := cmp_uint32_unchecked (align_or 4).
Definition cmp_uint64_align4_unchecked : MDBX_val -> MDBX_val -> option Z := cmp_uint64_unchecked (align_or 4).

Definition cmp_len (a b : Z) : Z := i64 (a - b).

Definition cmp_lexical (a b : MDBX_val) : option Z :=
let diff_len := cmp_len (iov_len a) (iov_len b) in
let shortest := if iov_len a <? iov_len b then iov_len a else iov_len b in
diff_data ← (if negb (shortest =? 0) then memcmp (iov_mem a) (iov_base a) (iov_mem b) (iov_base b) shortest
             else Some 0);
Some (if negb (diff_data =? 0) then diff_data else diff_len).

Definition tail3le (m : bytes) (p l : Z) : option Z :=
x ← zget m p;
y ← zget m (p + Z.shiftr l 1);
z ← zget m (p + l - 1);
Some (Z.lor (Z.lor x (Z.shiftl y 8)) (Z.shiftl z 16)).

(** The two [return]s of a difference of words. *)
Definition cmp_words (xa xb : Z) : Z := if xa <? xb then -1 else 1.

(** [while (left >= sizeof(size_t))]: a result, or the pointers and the number
    of bytes left. *)
Fixpoint cmp_reverse_words (fuel : nat) (ma : bytes) (pa : Z) (mb : bytes) (pb left_ : Z) :
  option (Z + Z * Z * Z) :=
if 8 <=? left_ then
  match fuel with
  | O => None
  | S fuel =>
    let pa := pa - 8 in
    let pb := pb - 8 in
    let left_ := left_ - 8 in
    xa ← unaligned_peek_u64 unaligned_ok 1 ma pa;
    xb ← unaligned_peek_u64 unaligned_ok 1 mb pb;
    if negb (xa =? xb) then Some (inl (cmp_words xa xb))
    else cmp_reverse_words fuel ma pa mb pb left_
  end
else Some (inr (pa, pb, left_)).

Definition cmp_reverse_half (ma : bytes) (pa : Z) (mb : bytes) (pb left_ : Z) : option (Z + Z * Z * Z) :=
if 4 <=? left_ then
  let pa := pa - 4 in
  let pb := pb - 4 in
  let left_ := left_ - 4 in
  xa ← unaligned_peek_u32 unaligned_ok 1 ma pa;
  xb ← unaligned_peek_u32 unaligned_ok 1 mb pb;
  if negb (xa =? xb) then Some (inl (cmp_words xa xb)) else Some (inr (pa, pb, left_))
else Some (inr (pa, pb, left_)).

Definition cmp_reverse_tail (ma : bytes) (pa : Z) (mb : bytes) (pb left_ : Z) : option (option Z) :=
if negb (left_ =? 0) then
  xa ← tail3le ma (pa - left_) left_;
  xb ← tail3le mb (pb - left_) left_;
  if negb (xa =? xb) then Some (Some (cmp_words xa xb)) else Some None
else Some None.

Definition cmp_reverse (a b : MDBX_val) : option Z :=
let left_ := if iov_len a <? iov_len b then iov_len a else iov_len b in
let finish := cmp_len (iov_len a) (iov_len b) in
if negb (left_ =? 0) then
  r ← cmp_reverse_words (Z.to_nat left_) (iov_mem a) (iov_base a + iov_len a) (iov_mem b) (iov_base b + iov_len b) left_;
  match r with
  | inl res => Some res
  | inr (pa, pb, left_) =>
    r ← cmp_reverse_half (iov_mem a) pa (iov_mem b) pb left_;
    match r with
    | inl res => Some res
    | inr (pa, pb, left_) =>
      r ← cmp_reverse_tail (iov_mem a) pa (iov_mem b) pb left_;
      Some (match r with Some res => res | None => finish end)
    end
  end
else Some finish.

Definition cmp_lenfast (a b : MDBX_val) : option Z :=
let diff := i32 (cmp_len (iov_len a) (iov_len b)) in
if negb (diff =? 0) || (iov_len a =? 0) then Some diff
else memcmp (iov_mem a) (iov_base a) (iov_mem b) (iov_base b) (iov_len a).

Definition eq_fast_slowpath (ma : bytes) (a : Z) (mb : bytes) (b l : Z) : option bool :=
if 3 <? l then
  if (4 <=? unaligned_ok) && (l <? 9) then
    x ← unaligned_peek_u32 unaligned_ok 1 ma a;
    y ← unaligned_peek_u32 unaligned_ok 1 mb b;
    x' ← unaligned_peek_u32 unaligned_ok 1 ma (a + l - 4);
    y' ← unaligned_peek_u32 unaligned_ok 1 mb (b + l - 4);
    Some (Z.lor (u32 (x - y)) (u32 (x' - y')) =? 0)
  else if (8 <=? unaligned_ok) && (l <? 17) then
    x ← unaligned_peek_u64 unaligned_ok 1 ma a;
    y ← unaligned_peek_u64 unaligned_ok 1 mb b;
    x' ← unaligned_peek_u64 unaligned_ok 1 ma (a + l - 8);
    y' ← unaligned_peek_u64 unaligned_ok 1 mb (b + l - 8);
    Some (Z.lor (u64 (x - y)) (u64 (x' - y')) =? 0)
  else r ← memcmp ma a mb b l; Some (r =? 0)
else if negb (l =? 0) then
  x ← tail3le ma a l;
  y ← tail3le mb b l;
  Some (x =? y)
else Some true.

Definition eq_fast (a b : MDBX_val) : option bool :=
if iov_len a =? iov_len b then eq_fast_slowpath (iov_mem a) (iov_base a) (iov_mem b) (iov_base b) (iov_len a)
else Some false.

Definition ncmp_equal_or_wrong (a b : MDBX_val) : option Z :=
eq ← eq_fast a b; Some (if (eq : bool) then 0 else -1).

(** [NONINLINE_OLDAPI_COMPARATOR] *)
Definition noninline_comparator (cmp : MDBX_val -> MDBX_val -> option Z) (a b : MDBX_val) : option Z :=
diff ← cmp a b; Some (i32 diff).

Definition ncmp_lexical := noninline_comparator cmp_lexical.
Definition ncmp_reverse := noninline_comparator cmp_reverse.
Definition ncmp_lenfast := noninline_comparator cmp_lenfast.
Definition ncmp_uint_unaligned := noninline_comparator cmp_uint_unaligned.
Definition ncmp_uint_align2 := noninline_comparator cmp_uint_align2.
Definition ncmp_uint_align4 := noninline_comparator cmp_uint_align4.
End Comparators.

(** Flags of a table, [MDBX_db_flags_t]. *)
Definition MDBX_DB_DEFAULTS : Z := 0.
Definition MDBX_REVERSEKEY : Z := 0x02.
Definition MDBX_DUPSORT : Z := 0x04.
Definition MDBX_INTEGERKEY : Z := 0x08.
Definition MDBX_DUPFIXED : Z := 0x10.
Definition MDBX_INTEGERDUP : Z := 0x20.
Definition MDBX_REVERSEDUP : Z := 0x40.

Definition has (flags mask : Z) : bool := negb (Z.land flags mask =? 0).

Definition builtin_keycmp (uok flags : Z) : MDBX_val -> MDBX_val -> option Z :=
if has flags MDBX_INTEGERKEY then ncmp_uint_align2 uok
else if negb (has flags MDBX_REVERSEKEY) then ncmp_lexical else ncmp_reverse uok.

Definition builtin_datacmp (uok flags : Z) : MDBX_val -> MDBX_val -> option Z :=
if has flags MDBX_DUPSORT then
  if has flags MDBX_INTEGERDUP then
    if has flags MDBX_INTEGERKEY then ncmp_uint_align4 uok else ncmp_uint_unaligned uok
  else if has flags MDBX_REVERSEDUP then ncmp_reverse uok else ncmp_lexical
else ncmp_lenfast.

(** ** The orders they implement *)

Fixpoint lex_compare (a b : bytes) : comparison :=
match a, b with
| [], [] => Eq
| [], _ :: _ => Lt
| _ :: _, [] => Gt
| x :: a, y :: b => match x ?= y with Eq => lex_compare a b | c => c end
end.

(** Lexicographic on the reversed strings. *)
Definition rev_compare (a b : bytes) : comparison := lex_compare (rev a) (rev b).

(** Shorter strings first, then lexicographic. *)
Definition len_compare (a b : bytes) : comparison :=
match zlen a ?= zlen b with Eq => lex_compare a b | c => c end.

(** As little-endian integers. *)
Definition uint_compare (a b : bytes) : comparison := le_decode a ?= le_decode b.

(** The sign of a result of a comparator. *)
Definition cmp_sign (c : comparison) : Z := match c with Lt => -1 | Eq => 0 | Gt => 1 end.

(** A three-way comparison that is a strict total order on the strings of a class. *)
Class TotalOrder (P : bytes -> Prop) (c : bytes -> bytes -> comparison) : Prop := {
  order_eq x y : P x -> P y -> c x y = Eq <-> x = y;
  order_antisym x y : P x -> P y -> c y x = CompOpp (c x y);
  order_trans x y z : P x -> P y -> P z -> c x y = Lt -> c y z = Lt -> c x z = Lt;
}.

Lemma lex_compare_eq a b : lex_compare a b = Eq <-> a = b.
Proof.
  revert b. induction a as [|x a IH]; intros [|y b]; cbn; try done.
  destruct (Z.compare_spec x y) as [->|H|H].
  - rewrite IH. naive_solver.
  - split; [done|]. intros [= -> ->]. lia.
  - split; [done|]. intros [= -> ->]. lia.
Qed.

Lemma lex_compare_antisym a b : lex_compare b a = CompOpp (lex_compare a b).
Proof.
  revert b. induction a as [|x a IH]; intros [|y b]; cbn; try done.
  rewrite (Z.compare_antisym x y). destruct (x ?= y); cbn; [apply IH|done..].
Qed.

Lemma lex_compare_trans a b c : lex_compare a b = Lt -> lex_compare b c = Lt -> lex_compare a c = Lt.
Proof.
  revert b c. induction a as [|x a IH]; intros [|y b] [|z c]; cbn; try done.
  destruct (Z.compare_spec x y), (Z.compare_spec y z), (Z.compare_spec x z); subst; try done || lia. apply IH.
Qed.

#[export] Instance lex_total : TotalOrder (fun _ => True) lex_compare.
Proof.
  split; intros; [apply lex_compare_eq|apply lex_compare_antisym|by eapply lex_compare_trans].
Qed.

#[export] Instance rev_total : TotalOrder (fun _ => True) rev_compare.
Proof.
  split; unfold rev_compare; intros; [|apply lex_compare_antisym|by eapply lex_compare_trans].
  rewrite lex_compare_eq. split; [|by intros ->]. intros E%(f_equal (@rev Z)). by rewrite !rev_involutive in E.
Qed.

#[export] Instance len_total : TotalOrder (fun _ => True) len_compare.
Proof.
  split; unfold len_compare; intros.
  - destruct (Z.compare_spec (zlen x) (zlen y)); [apply lex_compare_eq|split; [done|intros ->; lia]..].
  - rewrite (Z.compare_antisym (zlen x)). destruct (zlen x ?= zlen y); cbn; [apply lex_compare_antisym|done..].
  - destruct (Z.compare_spec (zlen x) (zlen y)), (Z.compare_spec (zlen y) (zlen z)),
      (Z.compare_spec (zlen x) (zlen z)); try done || lia. by eapply lex_compare_trans.
Qed.

#[export] Instance uint_total n : TotalOrder (fun l => Forall is_byte l /\ zlen l = n) uint_compare.
Proof.
  split; unfold uint_compare; intros.
  - rewrite Z.compare_eq_iff. split; [|by intros ->]. destruct H, H0. apply le_decode_inj; [done..|congruence].
  - by rewrite Z.compare_antisym.
  - rewrite Z.compare_lt_iff in *. lia.
Qed.

(** ** Comparing prefixes and suffixes *)

Lemma lex_compare_app a a' b b' : zlen a = zlen b ->
  lex_compare (a ++ a') (b ++ b') = match lex_compare a b with Eq => lex_compare a' b' | c => c end.
Proof.
  revert b. induction a as [|x a IH]; intros [|y b] Hl; cbn; try (done || zlia).
  destruct (x ?= y); [|done..]. apply IH. zlia.
Qed.

Lemma lex_compare_short a b : a = [] \/ b = [] -> cmp_sign (lex_compare a b) = Z.sgn (zlen a - zlen b).
Proof. intros [->| ->]; [destruct b|destruct a]; cbn [lex_compare cmp_sign]; zlia. Qed.

Lemma memcmp_bytes_lex a b : zlen a = zlen b -> Z.sgn (memcmp_bytes a b) = cmp_sign (lex_compare a b).
Proof.
  revert b. induction a as [|x a IH]; intros [|y b] Hl; cbn; try (done || zlia).
  destruct (Z.eqb_spec x y) as [->|Hne].
  - rewrite Z.compare_refl. apply IH. zlia.
  - destruct (Z.compare_spec x y); cbn; lia.
Qed.

Lemma memcmp_mid n a1 a2 a3 b1 b2 b3 p q : p = zlen a1 -> q = zlen b1 -> n = zlen a2 -> n = zlen b2 ->
  exists r, memcmp (a1 ++ a2 ++ a3) p (b1 ++ b2 ++ b3) q n = Some r /\ Z.sgn r = cmp_sign (lex_compare a2 b2) /\
    (Forall is_byte a2 -> Forall is_byte b2 -> - 256 < r < 256).
Proof.
  intros -> -> Ha Hb. exists (memcmp_bytes a2 b2). unfold memcmp. rewrite !zslice_mid by done. split_and!.
  - destruct (Z.leb_spec 0 (zlen a1)), (Z.leb_spec (zlen a1 + n) (zlen (a1 ++ a2 ++ a3))),
      (Z.leb_spec 0 (zlen b1)), (Z.leb_spec (zlen b1 + n) (zlen (b1 ++ b2 ++ b3))); done || zlia.
  - apply memcmp_bytes_lex. lia.
  - clear. revert b2. induction a2 as [|x a2 IH]; intros [|y b2] HA HB; cbn; try lia.
    inversion HA; inversion HB; subst. unfold is_byte in *. destruct (x =? y); [by apply IH|lia].
Qed.

(** Comparing words is comparing their bytes from the last to the first. *)
Lemma uint_compare_rev a b : Forall is_byte a -> Forall is_byte b -> zlen a = zlen b ->
  uint_compare a b = rev_compare a b.
Proof.
  unfold uint_compare, rev_compare. intros Ha. revert b. induction Ha as [|x a Hx Ha IH]; intros [|y b] Hb Hl;
    cbn [rev le_decode]; try (done || zlia).
  inversion Hb as [|?? Hy Hb']; subst. unfold is_byte in Hx, Hy.
  rewrite lex_compare_app by (unfold zlen in *; rewrite !length_rev; cbn in Hl; lia).
  rewrite <- IH by (done || zlia). cbn.
  destruct (Z.compare_spec (le_decode a) (le_decode b)) as [E|E|E].
  - destruct (Z.compare_spec x y); rewrite ?Z.compare_eq_iff, ?Z.compare_lt_iff, ?Z.compare_gt_iff; lia.
  - rewrite Z.compare_lt_iff. lia.
  - rewrite Z.compare_gt_iff. lia.
Qed.

Lemma rev_compare_app a a' b b' : zlen a' = zlen b' ->
  rev_compare (a ++ a') (b ++ b') = match rev_compare a' b' with Eq => rev_compare a b | c => c end.
Proof.
  intros Hl. unfold rev_compare. rewrite !rev_app_distr. apply lex_compare_app.
  unfold zlen in *. rewrite !length_rev. lia.
Qed.

Lemma rev_compare_eq a b : rev_compare a b = Eq <-> a = b.
Proof. by apply (order_eq (P := fun _ => True)). Qed.

(** One round of the reverse comparison: the last [n] bytes of both strings
    are compared as words. *)
Lemma reverse_round (x w x' w' : bytes) : Forall is_byte w -> Forall is_byte w' -> zlen w = zlen w' ->
  if le_decode w =? le_decode w' then w = w'
  else cmp_words (le_decode w) (le_decode w') = cmp_sign (rev_compare (x ++ w) (x' ++ w')).
Proof.
  intros Hw Hw' Hl. rewrite rev_compare_app, <- uint_compare_rev by done. unfold uint_compare, cmp_words.
  destruct (Z.eqb_spec (le_decode w) (le_decode w')); [by apply le_decode_inj|].
  destruct (Z.compare_spec (le_decode w) (le_decode w')), (Z.ltb_spec (le_decode w) (le_decode w')); done || lia.
Qed.

Section ComparatorProofs.
Context (unaligned_ok : Z).

(** The state of the reverse comparison: both strings end in the same bytes
    [y], which are compared; [x] and [x'] are still to be compared. *)
Definition reverse_rest (pre x pre' x' : bytes) (bound : Z) (r : Z + Z * Z * Z) : Prop :=
match r with
| inl c => c = cmp_sign (rev_compare x x')
| inr (pa, pb, left_) => exists x1 x1' y, x = x1 ++ y /\ x' = x1' ++ y /\
    pa = zlen pre + zlen x1 /\ pb = zlen pre' + zlen x1' /\ left_ = Z.min (zlen x1) (zlen x1') /\ left_ < bound
end.

Lemma reverse_rest_app pre x pre' x' w bound r :
  reverse_rest pre x pre' x' bound r -> reverse_rest pre (x ++ w) pre' (x' ++ w) bound r.
Proof.
  destruct r as [c|[[pa pb] left_]]; cbn.
  - intros ->. rewrite rev_compare_app by done. by assert (rev_compare w w = Eq) as -> by by apply rev_compare_eq.
  - intros (x1 & x1' & y & -> & -> & H). exists x1, x1', (y ++ w). by rewrite <- !app_assoc.
Qed.

Lemma min_split n (x x' : bytes) : 0 <= n <= Z.min (zlen x) (zlen x') ->
  exists x1 w x1' w', x = x1 ++ w /\ x' = x1' ++ w' /\ zlen w = n /\ zlen w' = n.
Proof.
  intros H. destruct (zsplit x (zlen x - n)) as (x1 & w & -> & ?); [lia|].
  destruct (zsplit x' (zlen x' - n)) as (x1' & w' & -> & ?); [lia|]. exists x1, w, x1', w'. zlia || (split_and!; zlia || done).
Qed.

Lemma reverse_words_spec fuel : forall pre x ra pre' x' rb left_,
  Forall is_byte (pre ++ x ++ ra) -> Forall is_byte (pre' ++ x' ++ rb) ->
  left_ = Z.min (zlen x) (zlen x') -> (Z.to_nat left_ <= fuel)%nat ->
  exists r, cmp_reverse_words unaligned_ok fuel (pre ++ x ++ ra) (zlen pre + zlen x) (pre' ++ x' ++ rb) (zlen pre' + zlen x') left_ = Some r /\
    reverse_rest pre x pre' x' 8 r.
Proof.
  induction fuel as [|fuel IH]; intros pre x ra pre' x' rb left_ Ha Hb Hl Hf; cbn [cmp_reverse_words].
  all: destruct (Z.leb_spec 8 left_);
    [|eexists; split; [done|]; exists x, x', []; rewrite !app_nil_r; split_and!; done || lia].
  { lia. }
  destruct (min_split 8 x x') as (x1 & w & x1' & w' & -> & -> & Hw & Hw'); [lia|].
  rewrite !peek_u64_load by done. rewrite !zlen_app, !Z.add_assoc in *. rewrite <- !(app_assoc x1), <- !(app_assoc x1') in *.
  rewrite (app_assoc pre), (load_mid 8 (pre ++ x1) w) by (rewrite ?zlen_app; lia). cbn [mbind option_bind].
  rewrite (app_assoc pre'), (load_mid 8 (pre' ++ x1') w') by (rewrite ?zlen_app; lia). cbn [mbind option_bind].
  rewrite <- !app_assoc. rewrite !Forall_app in Ha, Hb. destruct Ha as (Hpre & Hx1 & HW & Hra), Hb as (Hpre' & Hx1' & HW' & Hrb).
  pose proof (reverse_round x1 w x1' w' HW HW' ltac:(lia)) as HR.
  destruct (_ =? _); cbn [negb]; [subst w'|eexists; split; [done|]; done].
  replace (zlen pre + zlen x1 + zlen w - 8) with (zlen pre + zlen x1) by lia.
  replace (zlen pre' + zlen x1' + zlen w - 8) with (zlen pre' + zlen x1') by lia.
  destruct (IH pre x1 (w ++ ra) pre' x1' (w ++ rb) (left_ - 8)) as (r & Er & Hr).
  - rewrite !Forall_app. done.
  - rewrite !Forall_app. done.
  - lia.
  - lia.
  - exists r. split; [done|]. by apply reverse_rest_app.
Qed.

Lemma reverse_half_spec pre x ra pre' x' rb left_ :
  Forall is_byte (pre ++ x ++ ra) -> Forall is_byte (pre' ++ x' ++ rb) ->
  left_ = Z.min (zlen x) (zlen x') -> left_ < 8 ->
  exists r, cmp_reverse_half unaligned_ok (pre ++ x ++ ra) (zlen pre + zlen x) (pre' ++ x' ++ rb) (zlen pre' + zlen x') left_ = Some r /\
    reverse_rest pre x pre' x' 4 r.
Proof.
  intros Ha Hb Hl Hlt. unfold cmp_reverse_half. destruct (Z.leb_spec 4 left_);
    [|eexists; split; [done|]; exists x, x', []; rewrite !app_nil_r; split_and!; done || lia].
  destruct (min_split 4 x x') as (x1 & w & x1' & w' & -> & -> & Hw & Hw'); [lia|].
  rewrite !peek_u32_load by done. rewrite !zlen_app, !Z.add_assoc in *. rewrite <- !(app_assoc x1), <- !(app_assoc x1') in *.
  rewrite (app_assoc pre), (load_mid 4 (pre ++ x1) w) by (rewrite ?zlen_app; lia). cbn [mbind option_bind].
  rewrite (app_assoc pre'), (load_mid 4 (pre' ++ x1') w') by (rewrite ?zlen_app; lia). cbn [mbind option_bind].
  rewrite !Forall_app in Ha, Hb. destruct Ha as (Hpre & Hx1 & HW & Hra), Hb as (Hpre' & Hx1' & HW' & Hrb).
  pose proof (reverse_round x1 w x1' w' HW HW' ltac:(lia)) as HR.
  destruct (_ =? _); cbn [negb]; [subst w'|eexists; split; [done|]; done].
  eexists. split; [done|]. exists x1, x1', w. split_and!; done || lia.
Qed.

(** What [tail3le] reads: one byte thrice, the second of two twice. *)
Definition tail3 (t : bytes) : bytes :=
match t with
| [x] => [x; x; x]
| [x; y] => [x; y; y]
| t => t
end.

Lemma tail3le_spec pre t ra : Forall is_byte t -> 0 < zlen t < 4 ->
  tail3le (pre ++ t ++ ra) (zlen pre) (zlen t) = Some (le_decode (tail3 t)).
Proof.
  intros Ht Hl. unfold tail3le.
  assert (forall x y z, is_byte x -> is_byte y -> Z.lor (Z.lor x (Z.shiftl y 8)) (Z.shiftl z 16) = le_decode [x; y; z]) as HE.
  { unfold is_byte. intros x y z Hx Hy. rewrite (lor_shiftl_add x y 8), lor_shiftl_add by lia. cbn [le_decode]. lia. }
  rewrite (zget_app_skip pre _ (zlen pre) 0), (zget_app_skip pre _ (zlen pre + _) (Z.shiftr (zlen t) 1)),
    (zget_app_skip pre _ (zlen pre + _ - 1) (zlen t - 1)) by (try apply Z.shiftr_nonneg; lia).
  destruct Ht as [|x ? Hx [|y ? Hy [|z ? Hz [|]]]]; [zlia|..|zlia]; cbn [tail3 app]; by rewrite <- HE by done.
Qed.

Lemma tail3_compare t t' : zlen t = zlen t' -> 0 < zlen t < 4 -> rev_compare (tail3 t) (tail3 t') = rev_compare t t'.
Proof.
  unfold rev_compare. destruct t as [|x [|y [|z [|]]]], t' as [|x' [|y' [|z' [|]]]]; intros Hl Hlt; try zlia; cbn; try done.
  - by destruct (x ?= x').
  - by destruct (y ?= y').
Qed.

Lemma reverse_tail_spec pre x ra pre' x' rb left_ :
  Forall is_byte (pre ++ x ++ ra) -> Forall is_byte (pre' ++ x' ++ rb) ->
  left_ = Z.min (zlen x) (zlen x') -> left_ < 4 ->
  exists r, cmp_reverse_tail (pre ++ x ++ ra) (zlen pre + zlen x) (pre' ++ x' ++ rb) (zlen pre' + zlen x') left_ = Some r /\
    match r with
    | Some c => c = cmp_sign (rev_compare x x')
    | None => cmp_sign (rev_compare x x') = Z.sgn (zlen x - zlen x')
    end.
Proof.
  intros Ha Hb Hl Hlt. unfold cmp_reverse_tail.
  destruct (min_split left_ x x') as (x1 & w & x1' & w' & -> & -> & Hw & Hw'); [zlia|].
  rewrite !zlen_app in *.
  assert (rev_compare w w' = Eq -> cmp_sign (rev_compare (x1 ++ w) (x1' ++ w')) =
            Z.sgn (zlen x1 + zlen w - (zlen x1' + zlen w'))) as Hfin.
  { intros E. rewrite rev_compare_app, E by lia. unfold rev_compare. rewrite lex_compare_short.
    - unfold zlen. rewrite !length_rev. fold (zlen x1) (zlen x1') (zlen w) (zlen w'). f_equal. lia.
    - destruct (decide (zlen x1 = 0)) as [->%zlen_0_nil|]; [by left|].
      right. rewrite (zlen_0_nil x1'); [done|]. zlia. }
  destruct (Z.eqb_spec left_ 0); cbn [negb].
  - eexists. split; [done|]. cbn. apply Hfin. by rewrite (zlen_0_nil w), (zlen_0_nil w') by lia.
  - rewrite <- !(app_assoc x1), <- !(app_assoc x1'), (app_assoc pre), (app_assoc pre') in *.
    apply Forall_app in Ha as [_ [HW _]%Forall_app]. apply Forall_app in Hb as [_ [HW' _]%Forall_app].
    replace (zlen pre + (zlen x1 + zlen w) - left_) with (zlen (pre ++ x1)) by zlia.
    replace (zlen pre' + (zlen x1' + zlen w') - left_) with (zlen (pre' ++ x1')) by zlia.
    assert (forall q t r, Forall is_byte t -> zlen t = left_ -> tail3le (q ++ t ++ r) (zlen q) left_ = Some (le_decode (tail3 t))) as HT.
    { intros q t r Hq <-. apply tail3le_spec; [done|zlia]. }
    rewrite !HT by done. cbn [mbind option_bind]. clear HT.
    assert (Forall is_byte (tail3 w)) as HT by (destruct HW as [|? ? ? [|? ? ? []]]; cbn; auto).
    assert (Forall is_byte (tail3 w')) as HT' by (destruct HW' as [|? ? ? [|? ? ? []]]; cbn; auto).
    assert (zlen (tail3 w) = zlen (tail3 w')) as HL.
    { clear -Hw Hw'. destruct w as [|? [|? [|]]], w' as [|? [|? [|]]]; cbn; zlia. }
    pose proof (zlen_nonneg w). pose proof (tail3_compare w w' ltac:(lia) ltac:(lia)) as HC. rewrite rev_compare_app by lia. rewrite <- HC.
    pose proof (reverse_round [] (tail3 w) [] (tail3 w') HT HT' HL) as HR. cbn [app] in HR.
    destruct (_ =? _); cbn [negb]; (eexists; split; [done|]); cbn.
    + rewrite rev_compare_app in Hfin by lia. rewrite <- HC in Hfin. apply Hfin. by apply rev_compare_eq.
    + rewrite HR. destruct (rev_compare (tail3 w) (tail3 w')) eqn:E; [|done..].
      exfalso. revert HR. unfold cmp_words. cbn. by destruct (_ <? _).
Qed.

Lemma val_split v : val_ok v -> exists pre post, iov_mem v = pre ++ val_bytes v ++ post /\
  iov_base v = zlen pre /\ zlen (val_bytes v) = iov_len v /\ Forall is_byte (val_bytes v).
Proof.
  intros [Hm Hb Hl Hin]. destruct (access_cases (iov_len v) (iov_mem v) (iov_base v)) as [|(a & b & c & E & Ea & Eb)]; [lia..|].
  exists a, c. unfold val_bytes. rewrite E, Ea, zslice_mid by done. rewrite E, !Forall_app in Hm. naive_solver.
Qed.

(** A comparator that computes the sign of an order, in the range of [int]. *)
Definition computes (cmp : MDBX_val -> MDBX_val -> option Z) (c : bytes -> bytes -> comparison) (a b : MDBX_val) : Prop :=
exists r, cmp a b = Some r /\ Z.sgn r = cmp_sign (c (val_bytes a) (val_bytes b)) /\ - 2 ^ 31 <= r < 2 ^ 31.

Lemma signed_small w x : 0 < w -> - 2 ^ (w - 1) <= x < 2 ^ (w - 1) -> signed w x = x.
Proof.
  intros Hw Hx. unfold signed, wrap. assert (2 ^ w = 2 * 2 ^ (w - 1)) as E by (rewrite <- Z.pow_succ_r by lia; f_equal; lia).
  destruct (decide (0 <= x)).
  - rewrite Z.mod_small by lia. destruct (Z.ltb_spec x (2 ^ (w - 1))); lia.
  - rewrite <- (Z_mod_plus_full x 1), Z.mod_small by lia. destruct (Z.ltb_spec (x + 1 * 2 ^ w) (2 ^ (w - 1))); lia.
Qed.

Lemma cmp_len_small a b : 0 <= a < 2 ^ 31 -> 0 <= b < 2 ^ 31 -> cmp_len a b = a - b.
Proof. intros. apply signed_small; lia. Qed.

Lemma noninline_computes cmp c a b : computes cmp c a b -> computes (noninline_comparator cmp) c a b.
Proof.
  intros (r & E & Hs & Hr). exists r. unfold noninline_comparator. rewrite E. cbn. split; [|done].
  f_equal. apply signed_small; lia.
Qed.

Lemma cmp_sign_range c : -1 <= cmp_sign c <= 1.
Proof. destruct c; cbn; lia. Qed.

Lemma cmp_reverse_spec a b : val_ok a -> val_ok b -> computes (cmp_reverse unaligned_ok) rev_compare a b.
Proof.
  intros Ha Hb. destruct (val_split a Ha) as (pa & sa & Ea & Eba & La & Ba), (val_split b Hb) as (pb & sb & Eb & Ebb & Lb & Bb).
  pose proof (val_len a Ha). pose proof (val_len b Hb). pose proof (val_mem a Ha) as Ma. pose proof (val_mem b Hb) as Mb.
  unfold computes, cmp_reverse. rewrite cmp_len_small by done. rewrite Ea in Ma |- *. rewrite Eb in Mb |- *. rewrite Eba, Ebb, <- La, <- Lb.
  set (A := val_bytes a) in *. set (B := val_bytes b) in *.
  assert ((if zlen A <? zlen B then zlen A else zlen B) = Z.min (zlen A) (zlen B)) as -> by (destruct (Z.ltb_spec (zlen A) (zlen B)); lia).
  destruct (Z.eqb_spec (Z.min (zlen A) (zlen B)) 0) as [E0|E0]; cbn [negb].
  { eexists. split; [done|]. split; [|lia]. unfold rev_compare. rewrite lex_compare_short.
    - unfold zlen. by rewrite !length_rev.
    - destruct (decide (zlen A = 0)) as [HA|]; [left; by rewrite (zlen_0_nil A HA)|].
      right. rewrite (zlen_0_nil B); [done|zlia]. }
  destruct (reverse_words_spec (Z.to_nat (Z.min (zlen A) (zlen B))) pa A sa pb B sb (Z.min (zlen A) (zlen B)) Ma Mb eq_refl ltac:(lia)) as (r & -> & Hr).
  cbn [mbind option_bind]. destruct r as [c|[[p q] l]].
  { eexists. split; [done|]. cbn in Hr. rewrite Hr. pose proof (cmp_sign_range (rev_compare A B)). lia. }
  destruct Hr as (x & x' & y & HA & HB & -> & -> & -> & H8). rewrite HA, HB, <- !(app_assoc x), <- !(app_assoc x') in *.
  destruct (reverse_half_spec pa x (y ++ sa) pb x' (y ++ sb) _ Ma Mb eq_refl H8) as (r & -> & Hr).
  apply (reverse_rest_app _ _ _ _ y) in Hr. cbn [mbind option_bind]. destruct r as [c|[[p q] l]].
  { eexists. split; [done|]. cbn in Hr. rewrite Hr. pose proof (cmp_sign_range (rev_compare (x ++ y) (x' ++ y))). lia. }
  destruct Hr as (x1 & x1' & y1 & HA1 & HB1 & -> & -> & -> & H4).
  rewrite (app_assoc x), (app_assoc x'), HA1, HB1, <- !(app_assoc x1), <- !(app_assoc x1') in *.
  destruct (reverse_tail_spec pa x1 (y1 ++ sa) pb x1' (y1 ++ sb) _ Ma Mb eq_refl H4) as (r & -> & Hr).
  cbn [mbind option_bind]. eexists. split; [done|].
  assert (rev_compare (x1 ++ y1) (x1' ++ y1) = rev_compare x1 x1') as ->.
  { rewrite rev_compare_app by done. by assert (rev_compare y1 y1 = Eq) as -> by by apply rev_compare_eq. }
  rewrite !zlen_app in *. destruct r as [c|]; cbn in Hr.
  - rewrite Hr. pose proof (cmp_sign_range (rev_compare x1 x1')). lia.
  - split; [|lia]. rewrite Hr. f_equal. lia.
Qed.

Lemma short_side {A} (x y : list A) : Z.min (zlen x) (zlen y) = 0 -> x = [] \/ y = [].
Proof.
  intros H. destruct (decide (zlen x = 0)) as [E|]; [left; by apply zlen_0_nil|].
  right. apply zlen_0_nil. zlia.
Qed.

Lemma cmp_lexical_spec a b : val_ok a -> val_ok b -> computes cmp_lexical lex_compare a b.
Proof.
  intros Ha Hb. destruct (val_split a Ha) as (pa & sa & Ea & Eba & La & Ba), (val_split b Hb) as (pb & sb & Eb & Ebb & Lb & Bb).
  pose proof (val_len a Ha). pose proof (val_len b Hb).
  unfold computes, cmp_lexical. rewrite cmp_len_small by done. rewrite Ea, Eb, Eba, Ebb, <- La, <- Lb in *.
  set (A := val_bytes a) in *. set (B := val_bytes b) in *. clearbody A B.
  assert ((if zlen A <? zlen B then zlen A else zlen B) = Z.min (zlen A) (zlen B)) as -> by (destruct (Z.ltb_spec (zlen A) (zlen B)); lia).
  remember (Z.min (zlen A) (zlen B)) as n eqn:En.
  destruct (zsplit A n) as (A1 & A2 & -> & HA); [zlia|]. destruct (zsplit B n) as (B1 & B2 & -> & HB); [zlia|].
  rewrite lex_compare_app by lia. rewrite !zlen_app in *. rewrite <- (app_assoc A1), <- (app_assoc B1).
  apply Forall_app in Ba as [Ba _]. apply Forall_app in Bb as [Bb _].
  destruct (memcmp_mid n pa A1 (A2 ++ sa) pb B1 (B2 ++ sb) (zlen pa) (zlen pb)) as (r & Er & Hr & Hb'); [done|done|lia|lia|].
  specialize (Hb' Ba Bb).
  assert (exists r, (if negb (n =? 0) then
      memcmp (pa ++ A1 ++ A2 ++ sa) (zlen pa) (pb ++ B1 ++ B2 ++ sb) (zlen pb) n
    else Some 0) = Some r /\ Z.sgn r = cmp_sign (lex_compare A1 B1) /\ -256 < r < 256) as (r' & -> & Hs & Hlim).
  { destruct (Z.eqb_spec n 0) as [E|E]; cbn [negb]; [|by exists r].
    exists 0. by rewrite (zlen_0_nil A1), (zlen_0_nil B1) by lia. }
  cbn [mbind option_bind]. eexists. split; [done|].
  destruct (Z.eqb_spec r' 0) as [->|Hne]; cbn [negb].
  - destruct (lex_compare A1 B1); try done. split; [|lia]. rewrite lex_compare_short by (apply short_side; lia). f_equal. lia.
  - split; [|lia]. destruct (lex_compare A1 B1); [cbn in Hs; lia|done..].
Qed.

Lemma cmp_lenfast_spec a b : val_ok a -> val_ok b -> computes cmp_lenfast len_compare a b.
Proof.
  intros Ha Hb. destruct (val_split a Ha) as (pa & sa & Ea & Eba & La & Ba), (val_split b Hb) as (pb & sb & Eb & Ebb & Lb & Bb).
  pose proof (val_len a Ha). pose proof (val_len b Hb).
  unfold computes, cmp_lenfast, len_compare. rewrite cmp_len_small by done. unfold i32. rewrite signed_small by lia.
  rewrite Ea, Eb, Eba, Ebb, <- La, <- Lb in *. set (A := val_bytes a) in *. set (B := val_bytes b) in *. clearbody A B.
  destruct (Z.eqb_spec (zlen A - zlen B) 0) as [E|E]; cbn [negb orb].
  - replace (zlen A ?= zlen B) with Eq by (symmetry; rewrite Z.compare_eq_iff; lia).
    destruct (Z.eqb_spec (zlen A) 0) as [E0|E0].
    + eexists. split; [done|]. rewrite E, (zlen_0_nil A), (zlen_0_nil B) by lia. cbn. lia.
    + destruct (memcmp_mid (zlen A) pa A sa pb B sb (zlen pa) (zlen pb)) as (r & Er & Hr & Hlim); [done|done|lia|lia|].
      exists r. split_and!; [done|done|..]; specialize (Hlim Ba Bb); lia.
  - eexists. split; [done|]. split; [|lia]. destruct (Z.compare_spec (zlen A) (zlen B)); cbn; lia.
Qed.

(** Native integers of one size; anything else compares as equal. *)
Lemma cmp_uint_spec ea a b : val_ok a -> val_ok b -> iov_len a = iov_len b -> iov_len a = 4 \/ iov_len a = 8 ->
  computes (cmp_uint unaligned_ok ea) uint_compare a b.
Proof.
  intros Ha Hb Hl Hn. destruct (val_split a Ha) as (pa & sa & Ea & Eba & La & Ba), (val_split b Hb) as (pb & sb & Eb & Ebb & Lb & Bb).
  pose proof (val_mem a Ha) as Ma. pose proof (val_mem b Hb) as Mb.
  unfold computes, cmp_uint, cmp_uint64_unchecked, cmp_uint32_unchecked, uint_compare. rewrite Hl, Z.eqb_refl in *.
  rewrite Ea, Eb, Eba, Ebb in *. set (A := val_bytes a) in *. set (B := val_bytes b) in *. clearbody A B.
  exists (CMP2INT (le_decode A) (le_decode B)). split; [|split].
  - destruct Hn as [E|E]; rewrite E in *; cbn [Z.eqb Pos.eqb].
    + rewrite !peek_u32_load, !load_mid by done. done.
    + rewrite !peek_u64_load, !load_mid by done. done.
  - unfold CMP2INT. destruct (Z.compare_spec (le_decode A) (le_decode B)), (Z.eqb_spec (le_decode A) (le_decode B)),
      (Z.ltb_spec (le_decode A) (le_decode B)); cbn; lia.
  - unfold CMP2INT. repeat zcase; lia.
Qed.

Lemma cmp_uint_wrong ea a b : iov_len a <> iov_len b \/ (iov_len a <> 4 /\ iov_len a <> 8) ->
  cmp_uint unaligned_ok ea a b = Some 0.
Proof. intros H. unfold cmp_uint. repeat zcase; done || lia. Qed.

(** ** Equality *)

(** Two strings are equal if their first and last [n] bytes are and these cover them. *)
Lemma eq_by_ends n (a b : bytes) : zlen a = zlen b -> 0 <= n <= zlen a -> zlen a <= 2 * n ->
  zslice a 0 n = zslice b 0 n -> zslice a (zlen a - n) n = zslice b (zlen b - n) n -> a = b.
Proof.
  intros Hl Hn H2 Hhd Htl. assert (drop (Z.to_nat n) a = drop (Z.to_nat n) b) as Hd.
  { unfold zslice in Htl. rewrite !take_ge in Htl by (rewrite length_drop; unfold zlen in *; lia).
    replace (Z.to_nat n) with (Z.to_nat (zlen a - n) + Z.to_nat (2 * n - zlen a))%nat by lia.
    rewrite <- !drop_drop. rewrite Htl. by rewrite <- Hl. }
  unfold zslice in Hhd. rewrite !drop_0 in Hhd. by rewrite <- (take_drop (Z.to_nat n) a), <- (take_drop (Z.to_nat n) b), Hd, Hhd.
Qed.

Lemma load_inside n pre A post k : 0 <= n -> 0 <= k -> k + n <= zlen A ->
  load n (pre ++ A ++ post) (zlen pre + k) = Some (le_decode (zslice A k n)).
Proof.
  intros Hn Hk Hin. destruct (access_cases n A k) as [|(a & b & c & -> & -> & Hb)]; [lia..|].
  rewrite zslice_mid by done. rewrite <- !(app_assoc a), <- (app_assoc b), (app_assoc pre). by apply load_mid; [zlia|].
Qed.

Lemma load_ends n pre A post p l : 0 <= n <= zlen A -> l = zlen A -> p = zlen pre \/ p = zlen pre + l - n ->
  load n (pre ++ A ++ post) p = Some (le_decode (zslice A (p - zlen pre) n)).
Proof.
  intros Hn -> Hp. replace p with (zlen pre + (p - zlen pre)) at 1 by lia. apply load_inside; lia.
Qed.

Lemma wrap_diff_zero w x y : 0 <= w -> 0 <= x < 2 ^ w -> 0 <= y < 2 ^ w -> wrap w (x - y) = 0 <-> x = y.
Proof.
  intros Hw Hx Hy. unfold wrap. split; [|intros ->; rewrite Z.sub_diag; apply Z.mod_0_l; lia].
  destruct (decide (y <= x)); [rewrite Z.mod_small; lia|].
  rewrite <- (Z_mod_plus_full (x - y) 1), Z.mod_small; lia.
Qed.

Lemma zslice_bytes (A : bytes) k n : Forall is_byte A -> Forall is_byte (zslice A k n).
Proof. intros H. unfold zslice. by apply Forall_take, Forall_drop. Qed.

Lemma zlen_zslice {T} (A : list T) k n : 0 <= n -> 0 <= k -> k + n <= zlen A -> zlen (zslice A k n) = n.
Proof. intros. unfold zslice, zlen in *. rewrite length_take, length_drop. lia. Qed.

(** The test of the two ends with words of [n] bytes. *)
Lemma ends_test n (A B : bytes) : 0 < n -> Forall is_byte A -> Forall is_byte B -> zlen A = zlen B -> n <= zlen A <= 2 * n ->
  (Z.lor (wrap (8 * n) (le_decode (zslice A 0 n) - le_decode (zslice B 0 n)))
         (wrap (8 * n) (le_decode (zslice A (zlen A - n) n) - le_decode (zslice B (zlen A - n) n))) =? 0) = bool_decide (A = B).
Proof.
  intros Hn HA HB Hl Hc.
  assert (forall X k, Forall is_byte X -> 0 <= k -> k + n <= zlen X -> 0 <= le_decode (zslice X k n) < 2 ^ (8 * n)) as Hr.
  { intros X k HX Hk Hi. pose proof (le_decode_bound _ (zslice_bytes X k n HX)) as Hd.
    rewrite zlen_zslice in Hd by lia. change 256 with (2 ^ 8) in Hd. by rewrite <- Z.pow_mul_r in Hd by lia. }
  assert (forall k, 0 <= k -> k + n <= zlen A ->
    wrap (8 * n) (le_decode (zslice A k n) - le_decode (zslice B k n)) = 0 <-> zslice A k n = zslice B k n) as Hw.
  { intros k Hk Hi. rewrite wrap_diff_zero by (try apply Hr; done || lia). split; [|by intros ->].
    apply le_decode_inj; [by apply zslice_bytes..|]. rewrite !zlen_zslice; lia. }
  apply Bool.eq_iff_eq_true. rewrite Z.eqb_eq, Z.lor_eq_0_iff, bool_decide_eq_true, !Hw by lia. split; [|by intros ->].
  intros [H0 H1]. apply (eq_by_ends n); [done|lia|lia|done|]. by rewrite <- Hl.
Qed.

Lemma memcmp_eq (A B : bytes) r : zlen A = zlen B -> Z.sgn r = cmp_sign (lex_compare A B) -> (r =? 0) = bool_decide (A = B).
Proof.
  intros Hl Hr. apply Bool.eq_iff_eq_true. rewrite Z.eqb_eq, bool_decide_eq_true, <- lex_compare_eq.
  split; [intros ->|intros E; rewrite E in Hr; cbn in Hr; lia]. by destruct (lex_compare A B).
Qed.

Lemma eq_fast_slowpath_spec pa A sa pb B sb :
  Forall is_byte (pa ++ A ++ sa) -> Forall is_byte (pb ++ B ++ sb) -> zlen A = zlen B ->
  eq_fast_slowpath unaligned_ok (pa ++ A ++ sa) (zlen pa) (pb ++ B ++ sb) (zlen pb) (zlen A) = Some (bool_decide (A = B)).
Proof.
  intros Ma Mb Hl. unfold eq_fast_slowpath.
  assert (Forall is_byte A) as HA by (rewrite !Forall_app in Ma; naive_solver).
  assert (Forall is_byte B) as HB by (rewrite !Forall_app in Mb; naive_solver).
  destruct (Z.ltb_spec 3 (zlen A)).
  - destruct ((4 <=? unaligned_ok) && (zlen A <? 9)) eqn:E4; [|destruct ((8 <=? unaligned_ok) && (zlen A <? 17)) eqn:E8].
    + rewrite andb_true_iff, Z.ltb_lt in E4. rewrite !peek_u32_load by done.
      rewrite !(load_ends 4 _ _ _ _ (zlen A)) by lia. cbn [mbind option_bind].
      replace (zlen pa - zlen pa) with 0 by lia. replace (zlen pb - zlen pb) with 0 by lia.
      replace (zlen pa + zlen A - 4 - zlen pa) with (zlen A - 4) by lia.
      replace (zlen pb + zlen A - 4 - zlen pb) with (zlen A - 4) by lia.
      f_equal. apply (ends_test 4); done || lia.
    + rewrite andb_false_iff, Z.leb_gt, Z.ltb_ge in E4. rewrite andb_true_iff, Z.ltb_lt, Z.leb_le in E8.
      rewrite !peek_u64_load by done.
      rewrite !(load_ends 8 _ _ _ _ (zlen A)) by lia. cbn [mbind option_bind].
      replace (zlen pa - zlen pa) with 0 by lia. replace (zlen pb - zlen pb) with 0 by lia.
      replace (zlen pa + zlen A - 8 - zlen pa) with (zlen A - 8) by lia.
      replace (zlen pb + zlen A - 8 - zlen pb) with (zlen A - 8) by lia.
      f_equal. apply (ends_test 8); done || lia.
    + destruct (memcmp_mid (zlen A) pa A sa pb B sb (zlen pa) (zlen pb)) as (r & -> & Hr & _); [done..|].
      cbn. f_equal. by apply memcmp_eq.
  - destruct (Z.eqb_spec (zlen A) 0) as [E|E]; cbn [negb].
    + rewrite (zlen_0_nil A), (zlen_0_nil B) by lia. done.
    + assert (0 < zlen A < 4) as Hs by zlia. rewrite tail3le_spec by done. cbn [mbind option_bind].
      rewrite Hl in Hs |- *. rewrite tail3le_spec by done. cbn [mbind option_bind]. f_equal.
      apply Bool.eq_iff_eq_true. rewrite Z.eqb_eq, bool_decide_eq_true. split; [|by intros ->]. intros E'.
      apply rev_compare_eq. rewrite <- tail3_compare by (done || lia).
      apply rev_compare_eq. apply le_decode_inj; [..|done].
      * destruct HA as [|? ? ? [|? ? ? []]]; cbn; auto.
      * destruct HB as [|? ? ? [|? ? ? []]]; cbn; auto.
      * clear -Hl Hs. destruct A as [|? [|? [|]]], B as [|? [|? [|]]]; cbn; zlia.
Qed.

Lemma eq_fast_spec a b : val_ok a -> val_ok b -> eq_fast unaligned_ok a b = Some (bool_decide (val_bytes a = val_bytes b)).
Proof.
  intros Ha Hb. destruct (val_split a Ha) as (pa & sa & Ea & Eba & La & Ba), (val_split b Hb) as (pb & sb & Eb & Ebb & Lb & Bb).
  pose proof (val_mem a Ha) as Ma. pose proof (val_mem b Hb) as Mb. unfold eq_fast.
  destruct (Z.eqb_spec (iov_len a) (iov_len b)) as [E|E].
  - rewrite Ea in Ma |- *. rewrite Eb in Mb |- *. rewrite Eba, Ebb, <- La. apply eq_fast_slowpath_spec; done || lia.
  - rewrite bool_decide_eq_false_2; [done|]. intros E'. rewrite E' in La. lia.
Qed.
End ComparatorProofs.

(** ** The orders of a table *)

Definition key_order (flags : Z) : bytes -> bytes -> comparison :=
if has flags MDBX_INTEGERKEY then uint_compare
else if has flags MDBX_REVERSEKEY then rev_compare else lex_compare.

Definition data_order (flags : Z) : bytes -> bytes -> comparison :=
if has flags MDBX_DUPSORT then
  if has flags MDBX_INTEGERDUP then uint_compare
  else if has flags MDBX_REVERSEDUP then rev_compare else lex_compare
else len_compare.

(** The strings an order is used on: all strings, or those of [n] bytes. *)
Definition key_class (integer : bool) (n : Z) (l : bytes) : Prop :=
if integer then Forall is_byte l /\ zlen l = n else True.

(** The lengths are those of integers of [n] bytes, if integers are expected. *)
Definition fits (integer : bool) (n : Z) (a b : MDBX_val) : Prop :=
integer = true -> (n = 4 \/ n = 8) /\ iov_len a = n /\ iov_len b = n.

Lemma uint_fits uok ea n a b : val_ok a -> val_ok b -> fits true n a b ->
  computes (noninline_comparator (cmp_uint uok ea)) uint_compare a b.
Proof.
  intros Ha Hb H. destruct (H eq_refl) as (Hn & El & Hl). apply noninline_computes, cmp_uint_spec; done || lia.
Qed.

#[export] Instance key_order_total flags n : TotalOrder (key_class (has flags MDBX_INTEGERKEY) n) (key_order flags).
Proof.
  unfold key_order, key_class. destruct (has flags MDBX_INTEGERKEY); [apply uint_total|].
  destruct (has flags MDBX_REVERSEKEY); [apply rev_total|apply lex_total].
Qed.

Lemma builtin_keycmp_spec uok flags n a b : val_ok a -> val_ok b -> fits (has flags MDBX_INTEGERKEY) n a b ->
  computes (builtin_keycmp uok flags) (key_order flags) a b.
Proof.
  unfold builtin_keycmp, key_order. intros Ha Hb H. destruct (has flags MDBX_INTEGERKEY); [by apply (uint_fits _ _ n)|].
  destruct (has flags MDBX_REVERSEKEY); cbn [negb]; apply noninline_computes.
  - by apply cmp_reverse_spec.
  - by apply cmp_lexical_spec.
Qed.

Definition integer_values (flags : Z) : bool := has flags MDBX_DUPSORT && has flags MDBX_INTEGERDUP.

#[export] Instance data_order_total flags n : TotalOrder (key_class (integer_values flags) n) (data_order flags).
Proof.
  unfold data_order, integer_values, key_class. destruct (has flags MDBX_DUPSORT); cbn [andb]; [|apply len_total].
  destruct (has flags MDBX_INTEGERDUP); [apply uint_total|].
  destruct (has flags MDBX_REVERSEDUP); [apply rev_total|apply lex_total].
Qed.

Lemma builtin_datacmp_spec uok flags n a b : val_ok a -> val_ok b -> fits (integer_values flags) n a b ->
  computes (builtin_datacmp uok flags) (data_order flags) a b.
Proof.
  unfold builtin_datacmp, data_order, integer_values. intros Ha Hb H.
  destruct (has flags MDBX_DUPSORT); cbn [andb] in H; [|by apply noninline_computes, cmp_lenfast_spec].
  destruct (has flags MDBX_INTEGERDUP); [by destruct (has flags MDBX_INTEGERKEY); apply (uint_fits _ _ n)|].
  destruct (has flags MDBX_REVERSEDUP); apply noninline_computes.
  - by apply cmp_reverse_spec.
  - by apply cmp_lexical_spec.
Qed.

(** C27: for every combination of table flags the comparator chosen for keys
    and the one chosen for values compute a strict total order of the byte
    strings, the one the flags ask for (lexicographic, from the last byte,
    length first, or of native integers), and the result keeps its sign when
    it is narrowed to [int]. Integer orders are total on integers of one size. *)
Theorem builtin_comparators_order uok flags n a b : val_ok a -> val_ok b ->
  (fits (has flags MDBX_INTEGERKEY) n a b -> computes (builtin_keycmp uok flags) (key_order flags) a b) /\
  (fits (integer_values flags) n a b -> computes (builtin_datacmp uok flags) (data_order flags) a b) /\
  TotalOrder (key_class (has flags MDBX_INTEGERKEY) n) (key_order flags) /\
  TotalOrder (key_class (integer_values flags) n) (data_order flags).
Proof.
  intros Ha Hb. split_and!; [by apply builtin_keycmp_spec|by apply builtin_datacmp_spec|apply _|apply _].
Qed.

Definition sample_val (l : bytes) : MDBX_val := mk_val (7 :: l ++ [9]) 1 (zlen l).

Lemma sample_val_ok l : forallb (fun b => (0 <=? b) && (b <? 256)) l = true -> zlen l < 2 ^ 31 -> val_ok (sample_val l).
Proof.
  intros Hb Hl. split; cbn [iov_mem iov_base iov_len sample_val]; [|lia|zlia|zlia].
  constructor; [unfold is_byte; lia|]. apply Forall_app. split; [|repeat constructor; unfold is_byte; lia].
  by apply bytes_check.
Qed.

Lemma builtin_comparators_order_witness :
  ncmp_reverse 0 (sample_val [9; 1; 2; 3; 4; 5; 6; 7; 8; 9; 1; 3]) (sample_val [1; 2; 3; 4; 5; 6; 7; 8; 9; 1; 3]) = Some 1 /\
  rev_compare (val_bytes (sample_val [9; 1; 2; 3; 4; 5; 6; 7; 8; 9; 1; 3])) (val_bytes (sample_val [1; 2; 3; 4; 5; 6; 7; 8; 9; 1; 3])) = Gt.
Proof.
  destruct (builtin_comparators_order 0 MDBX_REVERSEKEY 0 (sample_val [9; 1; 2; 3; 4; 5; 6; 7; 8; 9; 1; 3])
    (sample_val [1; 2; 3; 4; 5; 6; 7; 8; 9; 1; 3])) as (H & _ & _ & _); [by apply sample_val_ok..|].
  destruct (H ltac:(by intros [=])) as (r & E & Hs & _). vm_compute in E. simplify_eq. by vm_compute.
Defined.

(** C29: the fast test of equality, which compares overlapping words at both
    ends of short strings, is equality of the byte strings for every length
    and every [MDBX_UNALIGNED_OK]; it agrees with the lexicographic
    comparator, and [ncmp_equal_or_wrong] is zero exactly on equal strings. *)
Theorem eq_fast_is_equality uok a b : val_ok a -> val_ok b ->
  exists e r, eq_fast uok a b = Some e /\ ncmp_lexical a b = Some r /\
    (e = true <-> val_bytes a = val_bytes b) /\ (e = true <-> r = 0) /\
    ncmp_equal_or_wrong uok a b = Some (if e then 0 else -1).
Proof.
  intros Ha Hb. destruct (noninline_computes _ _ _ _ (cmp_lexical_spec a b Ha Hb)) as (r & Er & Hs & _).
  pose proof (eq_fast_spec uok a b Ha Hb) as He. unfold ncmp_equal_or_wrong. rewrite He. 
  exists (bool_decide (val_bytes a = val_bytes b)), r. split_and!; [done|done|apply bool_decide_eq_true| |done].
  rewrite bool_decide_eq_true, <- lex_compare_eq. split.
  - intros E. rewrite E in Hs. cbn in Hs. lia.
  - intros ->. by destruct (lex_compare _ _).
Qed.

Lemma eq_fast_is_equality_witness :
  eq_fast 8 (sample_val [1; 2; 3; 4; 5; 6; 7; 8; 9; 10; 11]) (sample_val [1; 2; 3; 4; 5; 6; 7; 8; 9; 10; 12]) = Some false.
Proof.
  destruct (eq_fast_is_equality 8 (sample_val [1; 2; 3; 4; 5; 6; 7; 8; 9; 10; 11]) (sample_val [1; 2; 3; 4; 5; 6; 7; 8; 9; 10; 12]))
    as (e & r & -> & _ & He & _); [by apply sample_val_ok..|].
  destruct e; [|done]. destruct He as [He _]. specialize (He eq_refl). vm_compute in He. done.
Defined.
