(* ===== verification/Page.v ===== *)
(** * Pages and nodes ([src/src/layout-dxb.h], [cogs.h], [node.h], [node.c])

    A B-tree page is a header and the bytes behind it. A branch or leaf page
    keeps an array of 16-bit offsets, [entries], that grows upwards from the
    header, and nodes that are put below one another from the end of the page;
    [lower] and [upper] delimit the free space between both. A page of
    fixed-size items ([P_DUPFIX]) packs them right behind the header and uses
    [lower] and [upper] for counting only. Offsets count from the end of the
    header. *)

From stdpp Require Import base list numbers option.
From Stdlib Require Import ZArith Lia.
From S2P Require Import Prelude Bits Alloc Pnl Bytes Cmp.

(** ** The header *)

Definition P_BRANCH : Z := 0x01.
Definition P_LEAF : Z := 0x02.
Definition P_LARGE : Z := 0x04.
Definition P_META : Z := 0x08.
Definition P_LEGACY_DIRTY : Z := 0x10.
Definition P_DUPFIX : Z := 0x20.
Definition P_SUBP : Z := 0x40.
Definition P_SPILLED : Z := 0x2000.
Definition P_LOOSE : Z := 0x4000.
Definition P_FROZEN : Z := 0x8000.

Definition PAGEHDRSZ : Z := 20.
Definition NODESIZE : Z := 8.
Definition sizeof_indx : Z := 2.
Definition sizeof_pgno : Z := 4.
Definition sizeof_tree : Z := 48.

Record page : Type := mk_page {
  pg_txnid : Z;
  pg_dupfix_ksize : Z;
  pg_flags : Z;
  pg_lower : Z;
  pg_upper : Z;
  pg_pgno : Z;
  pg_body : bytes;
}.

Definition with_body (mp : page) (m : bytes) : page :=
mk_page (pg_txnid mp) (pg_dupfix_ksize mp) (pg_flags mp) (pg_lower mp) (pg_upper mp) (pg_pgno mp) m.
Definition with_bounds (mp : page) (lower upper : Z) : page :=
mk_page (pg_txnid mp) (pg_dupfix_ksize mp) (pg_flags mp) lower upper (pg_pgno mp) (pg_body mp).

Definition page_type (mp : page) : Z := u8 (pg_flags mp).
Definition page_type_compat (mp : page) : Z :=
if has (pg_flags mp) P_SUBP then u8 (Z.land (pg_flags mp) (Z.lnot (Z.lor P_SUBP P_LEGACY_DIRTY))) else u8 (pg_flags mp).
Definition is_leaf (mp : page) : bool := has (pg_flags mp) P_LEAF.
Definition is_dupfix_leaf (mp : page) : bool := has (pg_flags mp) P_DUPFIX.
Definition is_branch (mp : page) : bool := has (pg_flags mp) P_BRANCH.
Definition is_largepage (mp : page) : bool := has (pg_flags mp) P_LARGE.
Definition is_subpage (mp : page) : bool := has (pg_flags mp) P_SUBP.

(** ** Sizes *)

Definition EVEN_CEIL (n : Z) : Z := Z.land (u64 (n + 1)) (u64 (-2)).
Definition EVEN_FLOOR (n : Z) : Z := Z.land n (u64 (Z.lnot 1)).

Definition PAGESPACE (pagesize : Z) : Z := pagesize - PAGEHDRSZ.
Definition BRANCH_NODE_MAX (pagesize : Z) : Z :=
EVEN_FLOOR ((PAGESPACE pagesize - sizeof_indx - NODESIZE) / (3 - 1) - sizeof_indx).
Definition LEAF_NODE_MAX (pagesize : Z) : Z := EVEN_FLOOR (PAGESPACE pagesize / 2) - sizeof_indx.

(** What the page operations use of [MDBX_env]. *)
Record page_env : Type := mk_env {
  env_ps : Z;
  env_ps2ln : Z;
  env_leaf_nodemax : Z;
  env_branch_nodemax : Z;
}.

Definition page_numkeys (mp : page) : Z := Z.shiftr (pg_lower mp) 1.
Definition page_room (mp : page) : Z := u64 (pg_upper mp - pg_lower mp).
Definition page_space (env : page_env) : Z := env_ps env - PAGEHDRSZ.
Definition page_used (env : page_env) (mp : page) : Z := u64 (page_space env - page_room mp).
Definition page_fill_percentum_x10 (env : page_env) (mp : page) : Z :=
let space := page_space env in u32 (u64 (page_used env mp * 1000 + space / 2) / space).
Definition subpage_geometry_ok (sp : page) (limit : Z) : bool :=
negb ((pg_upper sp <? pg_lower sp) || negb (Z.land (pg_lower sp) 1 =? 0) || (limit <? PAGEHDRSZ + pg_upper sp)).

Definition node_size_len (key_len value_len : Z) : Z := NODESIZE + EVEN_CEIL (key_len + value_len).
(** Nullable pointers. *)
Definition opt_len (v : option MDBX_val) : Z := match v with Some v => iov_len v | None => 0 end.
Definition node_size (key value : option MDBX_val) : Z := node_size_len (opt_len key) (opt_len value).

Definition leaf_size (env : page_env) (key data : MDBX_val) : Z :=
let node_bytes := node_size (Some key) (Some data) in
let node_bytes := if env_leaf_nodemax env <? node_bytes then node_size_len (iov_len key) 0 + sizeof_pgno else node_bytes in
node_bytes + sizeof_indx.

(** [None] is [panic_fmt]. *)
Definition branch_size (env : page_env) (key : option MDBX_val) : option Z :=
let node_bytes := node_size key None in
if env_branch_nodemax env <? node_bytes then None else Some (node_bytes + sizeof_indx).

Definition pgno2bytes (env : page_env) (pgno : Z) : Z := u64 (Z.shiftl pgno (env_ps2ln env)).
Definition bytes2pgno (env : page_env) (n : Z) : Z := u32 (Z.shiftr n (env_ps2ln env)).
Definition largechunk_npages (env : page_env) (n : Z) : Z := u32 (bytes2pgno env (u64 (PAGEHDRSZ - 1 + n)) + 1).

(** ** Entries and nodes *)

Definition entry_get (m : bytes) (i : Z) : option Z := load 2 m (2 * i).
Definition entry_set (m : bytes) (i v : Z) : option bytes := store 2 m (2 * i) v.

(** The node's offset in the body. *)
Definition page_node (mp : page) (i : Z) : option Z := entry_get (pg_body mp) i.
Definition page_dupfix_ptr (mp : page) (i keysize : Z) : Z := pg_dupfix_ksize mp * u16 i.

Definition N_BIG : Z := 0x01.
Definition N_TREE : Z := 0x02.
Definition N_DUP : Z := 0x04.
Definition MDBX_RESERVE : Z := 0x10000.

Section Nodes.
(** [MDBX_UNALIGNED_OK] *)
Context (unaligned_ok : Z).

Definition node_pgno (m : bytes) (node : Z) : option Z := unaligned_peek_u32 unaligned_ok 1 m node.
Definition node_set_pgno (m : bytes) (node pgno : Z) : option bytes := unaligned_poke_u32 unaligned_ok 1 m node (u32 pgno).
Definition node_ds (m : bytes) (node : Z) : option Z := unaligned_peek_u32 unaligned_ok 1 m node.
Definition node_set_ds (m : bytes) (node size : Z) : option bytes := unaligned_poke_u32 unaligned_ok 1 m node (u32 size).
Definition node_flags (m : bytes) (node : Z) : option Z := peek_u8 m (node + 4).
Definition node_set_flags (m : bytes) (node flags : Z) : option bytes := poke_u8 m (node + 4) flags.
Definition node_set_extra (m : bytes) (node extra : Z) : option bytes := poke_u8 m (node + 5) extra.
Definition node_ks (m : bytes) (node : Z) : option Z := unaligned_peek_u16 unaligned_ok 1 m (node + 6).
Definition node_set_ks (m : bytes) (node size : Z) : option bytes := unaligned_poke_u16 unaligned_ok 1 m (node + 6) (u16 size).
Definition node_key (node : Z) : Z := node + NODESIZE.
Definition node_data (m : bytes) (node : Z) : option Z := ks ← node_ks m node; Some (node_key node + ks).
Definition node_largedata_pgno (m : bytes) (node : Z) : option Z := d ← node_data m node; peek_pgno unaligned_ok m d.

Definition get_key (m : bytes) (node : Z) : option MDBX_val :=
ks ← node_ks m node; Some (mk_val m (node_key node) ks).
End Nodes.

(** ** Rounding to even sizes *)

Definition even_up (n : Z) : Z := n + n mod 2.

Lemma EVEN_CEIL_even_up n : 0 <= n < 2 ^ 63 -> EVEN_CEIL n = even_up n.
Proof.
  intros Hn. unfold EVEN_CEIL, even_up. rewrite (u64_small (n + 1)) by (unfold UINT64_MAX; lia).
  assert (Z.land (n + 1) (u64 (-2)) = Z.land (n + 1) (Z.lnot (2 ^ 1 - 1))) as ->.
  { change (u64 (-2)) with (Z.land (Z.lnot (2 ^ 1 - 1)) (Z.ones 64)). rewrite Z.land_assoc, Z.land_ones by lia.
    rewrite land_lnot_pow2 by lia. apply Z.mod_small. pose proof (Z.mod_pos_bound (n + 1) (2 ^ 1)). lia. }
  rewrite land_lnot_pow2 by lia. change (2 ^ 1) with 2. Z.div_mod_to_equations. lia.
Qed.

Lemma even_up_bound n : n <= even_up n <= n + 1.
Proof. unfold even_up. pose proof (Z.mod_pos_bound n 2). lia. Qed.
