(* ===== verification/Node.v ===== *)
(** * Adding and deleting nodes ([src/src/node.c])

    [node_add_dupfix], [node_add_branch], [node_add_leaf] and [node_del] work on
    the page on top of a cursor's stack. The model of the cursor has what they
    use of it. The page is read and written byte by byte as the code does it:
    a step outside of the page is [None]. *)

From stdpp Require Import base list numbers option.
From Stdlib Require Import ZArith Lia.
From S2P Require Import Prelude Bits Alloc Pnl Bytes Cmp Page.

Definition MDBX_TXN_ERROR : Z := 0x02.

(** [mc->pg[mc->top]], [mc->ki[mc->top]], [mc->tree->flags],
    [mc->tree->dupfix_size], [mc->txn->flags] and [mc->txn->env]. *)
Record ncursor : Type := mk_nc {
  mc_pg : page;
  mc_ki : Z;
  mc_tree_flags : Z;
  mc_dupfix_size : Z;
  mc_txn_flags : Z;
  mc_env : page_env;
}.

Definition with_pg (mc : ncursor) (mp : page) : ncursor :=
mk_nc mp (mc_ki mc) (mc_tree_flags mc) (mc_dupfix_size mc) (mc_txn_flags mc) (mc_env mc).
Definition txn_error (mc : ncursor) : ncursor :=
mk_nc (mc_pg mc) (mc_ki mc) (mc_tree_flags mc) (mc_dupfix_size mc) (Z.lor (mc_txn_flags mc) MDBX_TXN_ERROR) (mc_env mc).

Section NodeOps.
(** [MDBX_UNALIGNED_OK] *)
Context (unaligned_ok : Z).

Definition node_add_dupfix (mc : ncursor) (indx : Z) (key : MDBX_val) : option (rc * ncursor) :=
let mp := mc_pg mc in
let ksize := mc_dupfix_size mc in
let nkeys := page_numkeys mp in
let lower := pg_lower mp + sizeof_indx in
let upper := i64 (pg_upper mp - (ksize - sizeof_indx)) in
if upper <? lower then Some (MDBX_PAGE_FULL, txn_error mc)
else
  let mp := with_bounds mp (u16 lower) (u16 upper) in
  let ptr := page_dupfix_ptr mp indx ksize in
  let diff := u64 (nkeys - indx) in
  m ← (if 0 <? diff then blit (pg_body mp) ptr (pg_body mp) (ptr + ksize) (diff * ksize) else Some (pg_body mp));
  m ← blit (iov_mem key) (iov_base key) m ptr ksize;
  Some (MDBX_SUCCESS, with_pg mc (with_body mp m)).

(** [for (size_t i = nkeys; i > indx; --i) mp->entries[i] = mp->entries[i - 1];] *)
Fixpoint entries_up (fuel : nat) (m : bytes) (i indx : Z) : option bytes :=
if indx <? i then
  match fuel with
  | O => None
  | S fuel => e ← entry_get m (i - 1); m ← entry_set m i e; entries_up fuel m (i - 1) indx
  end
else Some m.

Definition node_add_branch (mc : ncursor) (indx : Z) (key : option MDBX_val) (pgno : Z) : option (rc * ncursor) :=
let mp := mc_pg mc in
branch_bytes ← branch_size (mc_env mc) key;
let lower := pg_lower mp + sizeof_indx in
let upper := i64 (pg_upper mp - (branch_bytes - sizeof_indx)) in
if upper <? lower then Some (MDBX_PAGE_FULL, txn_error mc)
else
  let nkeys := page_numkeys mp in
  m ← entries_up (Z.to_nat (nkeys - indx)) (pg_body mp) nkeys indx;
  m ← entry_set m indx (u16 upper);
  let mp := with_bounds (with_body mp m) (u16 lower) (u16 upper) in
  node ← page_node mp indx;
  m ← node_set_pgno unaligned_ok m node pgno;
  m ← node_set_flags m node 0;
  m ← node_set_extra m node 0;
  m ← node_set_ks unaligned_ok m node 0;
  m ← match key with
      | Some key =>
        if negb (iov_len key =? 0) then
          m ← node_set_ks unaligned_ok m node (iov_len key);
          blit (iov_mem key) (iov_base key) m (node_key node) (iov_len key)
        else Some m
      | None => Some m
      end;
  Some (MDBX_SUCCESS, with_pg mc (with_body mp m)).

(** Where the caller of [MDBX_RESERVE] shall put the data. *)
Inductive reserved_at : Set :=
| NotReserved
| InPage (offset : Z)
| InLarge.

(** [page_new_large(mc, npages)]: an error, or the number and the payload of
    the new large page. *)
Definition new_large : Type := Z -> rc + Z * bytes.

Record added : Type := mk_added {
  add_mc : ncursor;
  add_large : option (Z * bytes);
  add_data : reserved_at;
}.

(** The part of [node_add_leaf] behind the choice of the node's size, up to
    the copy of the key: the page without room but with the entries already
    moved, or the page, its bytes and the new node. *)
Definition node_put_header (mp : page) (indx : Z) (key : MDBX_val) (dlen flags node_bytes : Z) :
  option (page + page * bytes * Z) :=
let nkeys := page_numkeys mp in
m ← entries_up (Z.to_nat (nkeys - indx)) (pg_body mp) nkeys indx;
let lower := pg_lower mp + sizeof_indx in
let upper := i64 (pg_upper mp - (node_bytes - sizeof_indx)) in
if upper <? lower then Some (inl (with_body mp m))
else
  m ← entry_set m indx (u16 upper);
  let mp := with_bounds (with_body mp m) (u16 lower) (u16 upper) in
  node ← page_node mp indx;
  m ← node_set_ks unaligned_ok m node (iov_len key);
  m ← node_set_flags m node (u8 flags);
  m ← node_set_extra m node 0;
  m ← node_set_ds unaligned_ok m node dlen;
  m ← (if negb (iov_len key =? 0) then blit (iov_mem key) (iov_base key) m (node_key node) (iov_len key) else Some m);
  Some (inr (mp, m, node)).

(** The rest: the data or the number of the large page. *)
Definition node_put_leaf (mc : ncursor) (indx : Z) (key data : MDBX_val) (flags : Z)
  (largepage : option (Z * bytes)) (node_bytes : Z) : option (rc * added) :=
r ← node_put_header (mc_pg mc) indx key (iov_len data) flags node_bytes;
match r with
| inl mp => Some (MDBX_PAGE_FULL, mk_added (txn_error (with_pg mc mp)) largepage NotReserved)
| inr (mp, m, node) =>
  nodedata ← node_data unaligned_ok m node;
  match largepage with
  | None =>
    if has flags N_BIG then
      m ← blit (iov_mem data) (iov_base data) m nodedata sizeof_pgno;
      Some (MDBX_SUCCESS, mk_added (with_pg mc (with_body mp m)) None NotReserved)
    else if has flags MDBX_RESERVE then
      Some (MDBX_SUCCESS, mk_added (with_pg mc (with_body mp m)) None (InPage nodedata))
    else
      m ← (if negb (iov_len data =? 0) then blit (iov_mem data) (iov_base data) m nodedata (iov_len data) else Some m);
      Some (MDBX_SUCCESS, mk_added (with_pg mc (with_body mp m)) None NotReserved)
  | Some (lpgno, payload) =>
    m ← poke_pgno unaligned_ok m nodedata lpgno;
    if has flags MDBX_RESERVE then
      Some (MDBX_SUCCESS, mk_added (with_pg mc (with_body mp m)) (Some (lpgno, payload)) InLarge)
    else
      payload ← (if negb (iov_len data =? 0) then blit (iov_mem data) (iov_base data) payload 0 (iov_len data) else Some payload);
      Some (MDBX_SUCCESS, mk_added (with_pg mc (with_body mp m)) (Some (lpgno, payload)) NotReserved)
  end
end.

Definition node_add_leaf (page_new_large : new_large) (mc : ncursor) (indx : Z) (key data : MDBX_val) (flags : Z) :
  option (rc * added) :=
let fail err := Some (err, mk_added mc None NotReserved) in
if has flags N_BIG then
  node_put_leaf mc indx key data flags None (node_size_len (iov_len key) 0 + sizeof_pgno + sizeof_indx)
else if env_leaf_nodemax (mc_env mc) <? node_size (Some key) (Some data) then
  if has (mc_tree_flags mc) MDBX_DUPSORT then fail MDBX_PROBLEM
  else if has flags (Z.lor N_DUP N_TREE) then fail MDBX_PROBLEM
  else
    let ovpages := largechunk_npages (mc_env mc) (iov_len data) in
    match page_new_large ovpages with
    | inl err => fail err
    | inr largepage =>
      node_put_leaf mc indx key data (Z.lor flags N_BIG) (Some largepage)
        (node_size_len (iov_len key) 0 + sizeof_pgno + sizeof_indx)
    end
else node_put_leaf mc indx key data flags None (node_size (Some key) (Some data) + sizeof_indx).

(** [for (r = w = 0; r < nkeys; r++) if (r != hole) mp->entries[w++] = ...] *)
Fixpoint entries_close (fuel : nat) (m : bytes) (r w nkeys hole hole_offset hole_size : Z) : option bytes :=
if r <? nkeys then
  match fuel with
  | O => None
  | S fuel =>
    if negb (r =? hole) then
      e ← entry_get m r;
      m ← entry_set m w (if e <? hole_offset then u16 (e + u16 hole_size) else e);
      entries_close fuel m (r + 1) (w + 1) nkeys hole hole_offset hole_size
    else entries_close fuel m (r + 1) w nkeys hole hole_offset hole_size
  end
else Some m.

Definition node_del (mc : ncursor) (ksize : Z) : option ncursor :=
let mp := mc_pg mc in
let hole := mc_ki mc in
let nkeys := page_numkeys mp in
if is_dupfix_leaf mp then
  let diff := u64 (nkeys - 1 - hole) in
  let base := page_dupfix_ptr mp hole ksize in
  m ← (if negb (diff =? 0) then blit (pg_body mp) (base + ksize) (pg_body mp) base (diff * ksize) else Some (pg_body mp));
  Some (with_pg mc (with_bounds (with_body mp m) (u16 (pg_lower mp - sizeof_indx))
    (u16 (pg_upper mp + u16 (ksize - sizeof_indx)))))
else
  node ← page_node mp hole;
  ks ← node_ks unaligned_ok (pg_body mp) node;
  let hole_size := NODESIZE + ks in
  hole_size ← (if is_leaf mp then
                 fl ← node_flags (pg_body mp) node;
                 if has fl N_BIG then Some (hole_size + sizeof_pgno)
                 else ds ← node_ds unaligned_ok (pg_body mp) node; Some (hole_size + ds)
               else Some hole_size);
  let hole_size := EVEN_CEIL hole_size in
  hole_offset ← entry_get (pg_body mp) hole;
  m ← entries_close (Z.to_nat nkeys) (pg_body mp) 0 0 nkeys hole hole_offset hole_size;
  m ← blit m (pg_upper mp) m (pg_upper mp + hole_size) (hole_offset - pg_upper mp);
  Some (with_pg mc (with_bounds (with_body mp m) (u16 (pg_lower mp - sizeof_indx)) (u16 (pg_upper mp + u16 hole_size)))).
End NodeOps.
