(* ===== verification/NodeProofs.v ===== *)
(** * Pages as sequences of nodes

    The invariant of a page with nodes, and that [node_add_branch],
    [node_add_leaf] and [node_del] implement insertion into and deletion from
    the sequence of its nodes: the bytes of the other nodes survive the moves
    of the entries and of the node area, and no space is lost. *)

From stdpp Require Import base numbers option list.
From Stdlib Require Import ZArith Lia.
From S2P Require Import Prelude Bits Alloc Pnl Bytes Cmp Page Node.

(** ** Arrays of 16-bit words *)

Fixpoint words16 (l : list Z) : bytes :=
match l with
| [] => []
| x :: l => le_encode 2 x ++ words16 l
end.

Definition is_u16 (x : Z) : Prop := 0 <= x < 65536.

Lemma words16_app a b : words16 (a ++ b) = words16 a ++ words16 b.
Proof. induction a as [|x a IH]; cbn [app words16]; [done|]. by rewrite IH, app_assoc. Qed.

Lemma zlen_words16 l : zlen (words16 l) = 2 * zlen l.
Proof. induction l as [|x l IH]; cbn [words16]; [done|]. rewrite zlen_app, IH, zlen_le_encode, zlen_cons. lia. Qed.

#[export] Hint Rewrite zlen_words16 : zlen.

Lemma words16_bytes l : Forall is_byte (words16 l).
Proof. induction l as [|x l IH]; cbn [words16]; [constructor|]. apply Forall_app. split; [apply le_encode_bytes|done]. Qed.

Lemma entry_get_mid a x b r i : is_u16 x -> i = zlen a ->
  entry_get (words16 (a ++ x :: b) ++ r) i = Some x.
Proof.
  intros Hx ->. unfold entry_get. rewrite words16_app, <- app_assoc. cbn [words16]. rewrite <- app_assoc.
  rewrite load_mid by (by rewrite ?zlen_words16). rewrite le_decode_encode. f_equal. apply Z.mod_small. done.
Qed.

Lemma entry_set_mid a x b r i v : i = zlen a ->
  entry_set (words16 (a ++ x :: b) ++ r) i v = Some (words16 (a ++ v :: b) ++ r).
Proof.
  intros ->. unfold entry_set. rewrite !words16_app, <- !app_assoc. cbn [words16]. rewrite <- !app_assoc.
  by rewrite store_mid by (by rewrite ?zlen_words16).
Qed.

(** Two free bytes are one more word. *)
Lemma free_word (free : bytes) : Forall is_byte free -> 2 <= zlen free ->
  exists y free', free = words16 [y] ++ free' /\ zlen free' = zlen free - 2 /\ Forall is_byte free'.
Proof.
  intros Hb Hl. destruct free as [|c0 [|c1 free]]; [zlia..|].
  exists (le_decode [c0; c1]), free. inversion Hb as [|?? H0 Hb1]; subst. inversion Hb1 as [|?? H1 Hb2]; subst.
  split_and!; [|zlia|done]. cbn [words16]. rewrite app_nil_r.
  assert (le_encode 2 (le_decode [c0; c1]) = [c0; c1]) as ->; [|done].
  apply (le_encode_decode [c0; c1]). repeat constructor; apply H0 || apply H1.
Qed.

Lemma entries_up_spec b : forall a y r, Forall is_u16 b ->
  entries_up (length b) (words16 (a ++ b ++ [y]) ++ r) (zlen a + zlen b) (zlen a) =
  Some (words16 (a ++ take 1 (b ++ [y]) ++ b) ++ r).
Proof.
  induction b as [|x b IH] using rev_ind; intros a y r Hb.
  - rewrite zlen_nil, Z.add_0_r. cbn [length entries_up]. by rewrite Z.ltb_irrefl.
  - rewrite length_app, Nat.add_comm. cbn [length Nat.add entries_up].
    apply Forall_app in Hb as [Hb Hx]. inversion Hx; subst.
    destruct (Z.ltb_spec (zlen a) (zlen a + zlen (b ++ [x]))); [|zlia].
    replace (a ++ (b ++ [x]) ++ [y]) with ((a ++ b) ++ x :: [y]) by (by rewrite <- !app_assoc).
    rewrite entry_get_mid by (done || zlia). cbn [mbind option_bind].
    replace ((a ++ b) ++ [x; y]) with (((a ++ b) ++ [x]) ++ y :: []) by (by rewrite <- !app_assoc).
    rewrite entry_set_mid by zlia. cbn [mbind option_bind].
    rewrite (words16_app ((a ++ b) ++ [x])), <- !app_assoc.
    replace (zlen a + zlen (b ++ [x]) - 1) with (zlen a + zlen b) by zlia.
    rewrite IH by done. f_equal. rewrite !words16_app, <- !app_assoc.
    destruct b; cbn [app take]; by rewrite ?take_0.
Qed.

(** Making room at [indx] and filling it. *)
Lemma entries_insert a b y r : Forall is_u16 b -> exists m,
  entries_up (Z.to_nat (zlen a + zlen b - zlen a)) (words16 (a ++ b ++ [y]) ++ r) (zlen a + zlen b) (zlen a) = Some m /\
  forall v, entry_set m (zlen a) v = Some (words16 (a ++ v :: b) ++ r).
Proof.
  intros Hb. replace (Z.to_nat (zlen a + zlen b - zlen a)) with (length b) by (unfold zlen; lia).
  eexists. split; [by apply entries_up_spec|]. intros v.
  destruct (b ++ [y]) as [|z l] eqn:E; [by destruct b|]. cbn [take app]. by apply entry_set_mid.
Qed.

(** Closing the gap of a deleted entry; entries below [ho] move up by [hs]. *)
Definition moved (ho hs e : Z) : Z := if e <? ho then e + hs else e.

Lemma moved_u16 ho hs e : 0 <= hs -> is_u16 e -> (e < ho -> is_u16 (e + hs)) ->
  (if e <? ho then u16 (e + u16 hs) else e) = moved ho hs e.
Proof.
  unfold moved, is_u16. intros Hs He H. destruct (Z.ltb_spec e ho); [|done].
  unfold u16 in *. rewrite (wrap_small 16 hs) by lia. apply wrap_small. lia.
Qed.

Definition movable (ho hs : Z) (e : Z) : Prop := is_u16 e /\ (e < ho -> is_u16 (e + hs)).

Lemma entries_close_after b : forall kept g fuel nkeys hole ho hs t, 0 <= hs -> Forall (movable ho hs) b ->
  nkeys = zlen kept + 1 + zlen b -> hole <= zlen kept -> (length b <= fuel)%nat ->
  exists g', entries_close fuel (words16 (kept ++ g :: b) ++ t) (zlen kept + 1) (zlen kept) nkeys hole ho hs =
    Some (words16 (kept ++ map (moved ho hs) b ++ [g']) ++ t).
Proof.
  induction b as [|x b IH]; intros kept g fuel nkeys hole ho hs t Hs Hb Hn Hh Hf.
  - rewrite zlen_nil in Hn. exists g. destruct fuel; cbn [entries_close]; destruct (Z.ltb_spec (zlen kept + 1) nkeys); done || lia.
  - destruct fuel as [|fuel]; [cbn in Hf; lia|]. cbn [entries_close]. rewrite zlen_cons in Hn.
    destruct (Z.ltb_spec (zlen kept + 1) nkeys); [|zlia].
    destruct (Z.eqb_spec (zlen kept + 1) hole); [lia|]. cbn [negb]. inversion Hb as [|?? [Hx Hx'] Hb']; subst.
    replace (kept ++ g :: x :: b) with ((kept ++ [g]) ++ x :: b) by (by rewrite <- app_assoc).
    rewrite entry_get_mid by (done || zlia). cbn [mbind option_bind]. rewrite moved_u16 by done.
    replace ((kept ++ [g]) ++ x :: b) with (kept ++ g :: x :: b) by (by rewrite <- app_assoc).
    rewrite entry_set_mid by done. cbn [mbind option_bind].
    destruct (IH (kept ++ [moved ho hs x]) x fuel (zlen kept + 1 + (zlen b + 1)) hole ho hs t) as (g' & E);
      [done|done|zlia|zlia|cbn in Hf; lia|].
    exists g'. rewrite zlen_snoc, <- !app_assoc in E. cbn [app] in E. cbn [map]. rewrite <- app_comm_cons. exact E.
Qed.

Lemma entries_close_spec a : forall kept h b fuel nkeys hole ho hs t, 0 <= hs ->
  Forall (movable ho hs) a -> Forall (movable ho hs) b ->
  nkeys = zlen kept + zlen a + 1 + zlen b -> hole = zlen kept + zlen a -> (length a + 1 + length b <= fuel)%nat ->
  exists g', entries_close fuel (words16 (kept ++ a ++ h :: b) ++ t) (zlen kept) (zlen kept) nkeys hole ho hs =
    Some (words16 (kept ++ map (moved ho hs) (a ++ b) ++ [g']) ++ t).
Proof.
  induction a as [|x a IH]; intros kept h b fuel nkeys hole ho hs t Hs Ha Hb Hn Hh Hf;
    (destruct fuel as [|fuel]; [lia|]); cbn [entries_close].
  - rewrite zlen_nil in *. destruct (Z.ltb_spec (zlen kept) nkeys); [|zlia].
    destruct (Z.eqb_spec (zlen kept) hole); [|lia]. cbn [negb app].
    apply entries_close_after; [done|done|lia|lia|cbn in Hf; lia].
  - rewrite zlen_cons in *. destruct (Z.ltb_spec (zlen kept) nkeys); [|zlia].
    destruct (Z.eqb_spec (zlen kept) hole); [zlia|]. cbn [negb app]. inversion Ha as [|?? [Hx Hx'] Ha']; subst.
    rewrite entry_get_mid by done. cbn [mbind option_bind]. rewrite moved_u16 by done.
    rewrite entry_set_mid by done. cbn [mbind option_bind].
    destruct (IH (kept ++ [moved ho hs x]) h b fuel (zlen kept + (zlen a + 1) + 1 + zlen b) (zlen kept + (zlen a + 1)) ho hs t) as (g' & E);
      [done|done|done|zlia|zlia|cbn in Hf; lia|].
    exists g'. rewrite zlen_snoc, <- !app_assoc in E. cbn [app] in E. cbn [map]. rewrite <- app_comm_cons. exact E.
Qed.

(** ** Nodes *)

Record anode : Type := mk_anode {
  an_word : Z;  (* [dsize] of a leaf node, [child_pgno] of a branch node *)
  an_flags : Z;
  an_extra : Z;
  an_key : bytes;
  an_data : bytes;
}.

Definition node_image (n : anode) : bytes :=
le_encode 4 (an_word n) ++ [an_flags n] ++ [an_extra n] ++ le_encode 2 (zlen (an_key n)) ++ an_key n ++ an_data n.

Record anode_ok (n : anode) : Prop := {
  an_word_ok : 0 <= an_word n < 2 ^ 32;
  an_flags_ok : is_byte (an_flags n);
  an_extra_ok : is_byte (an_extra n);
  an_key_ok : Forall is_byte (an_key n);
  an_klen_ok : zlen (an_key n) < 65536;
  an_data_ok : Forall is_byte (an_data n);
}.

(** The bytes a node occupies. *)
Definition foot (n : anode) : Z := NODESIZE + even_up (zlen (an_key n) + zlen (an_data n)).

Lemma even_up_even n : even_up n mod 2 = 0.
Proof. unfold even_up. Z.div_mod_to_equations. lia. Qed.

Lemma zlen_node_image n : zlen (node_image n) = 8 + zlen (an_key n) + zlen (an_data n).
Proof. unfold node_image. autorewrite with zlen. lia. Qed.

#[export] Hint Rewrite zlen_node_image : zlen.

Lemma foot_image n : zlen (node_image n) <= foot n <= zlen (node_image n) + 1.
Proof. unfold foot, NODESIZE. autorewrite with zlen. pose proof (even_up_bound (zlen (an_key n) + zlen (an_data n))). lia. Qed.

Lemma foot_even n : foot n mod 2 = 0.
Proof. unfold foot, NODESIZE. pose proof (even_up_even (zlen (an_key n) + zlen (an_data n))). Z.div_mod_to_equations. lia. Qed.

Lemma node_image_bytes n : anode_ok n -> Forall is_byte (node_image n).
Proof.
  intros [? ? ? ? ? ?]. unfold node_image. rewrite !Forall_app. split_and!; try apply le_encode_bytes; auto.
Qed.

(** The node lies in a block of bytes at an offset. *)
Definition node_in (m : bytes) (o : Z) (n : anode) : Prop :=
exists pre post, m = pre ++ node_image n ++ post /\ zlen pre = o.

Section NodeReads.
Context (unaligned_ok : Z) (m : bytes) (o : Z) (n : anode) (Hm : Forall is_byte m) (Hn : anode_ok n) (Hin : node_in m o n).

Lemma node_word_read : node_ds unaligned_ok m o = Some (an_word n) /\ node_pgno unaligned_ok m o = Some (an_word n).
Proof.
  destruct Hin as (pre & post & E & Eo). unfold node_ds, node_pgno. rewrite peek_u32_load by done.
  rewrite E. unfold node_image. rewrite <- !app_assoc. rewrite load_mid by done. rewrite le_decode_encode.
  rewrite Z.mod_small; [done|apply (an_word_ok n Hn)].
Qed.

Lemma node_flags_read : node_flags m o = Some (an_flags n).
Proof.
  destruct Hin as (pre & post & E & Eo). unfold node_flags, peek_u8. rewrite E. unfold node_image.
  rewrite <- !app_assoc, (app_assoc pre). cbn [app]. apply zget_app_mid. zlia.
Qed.

Lemma node_ks_read : node_ks unaligned_ok m o = Some (zlen (an_key n)).
Proof.
  destruct Hin as (pre & post & E & Eo). unfold node_ks. rewrite peek_u16_load, E. unfold node_image.
  replace (pre ++ _) with ((pre ++ le_encode 4 (an_word n) ++ [an_flags n] ++ [an_extra n]) ++
    le_encode 2 (zlen (an_key n)) ++ an_key n ++ an_data n ++ post) by (by rewrite <- !app_assoc).
  rewrite load_mid by zlia. rewrite le_decode_encode, Z.mod_small; [done|].
  pose proof (an_klen_ok n Hn). pose proof (zlen_nonneg (an_key n)). change (256 ^ Z.of_nat 2) with 65536. lia.
Qed.

Lemma get_key_read : exists v, get_key unaligned_ok m o = Some v /\ val_ok v /\ val_bytes v = an_key n.
Proof.
  exists (mk_val m (node_key o) (zlen (an_key n))). unfold get_key. rewrite node_ks_read. cbn [mbind option_bind].
  split; [done|]. destruct Hin as (pre & post & E & Eo). unfold node_key, NODESIZE.
  assert (m = (pre ++ le_encode 4 (an_word n) ++ [an_flags n] ++ [an_extra n] ++ le_encode 2 (zlen (an_key n))) ++
    an_key n ++ an_data n ++ post) as E' by (rewrite E; unfold node_image; by rewrite <- !app_assoc).
  pose proof (an_klen_ok n Hn). split.
  - split; cbn [iov_mem iov_base iov_len]; [done|zlia|zlia|]. rewrite E'. zlia.
  - unfold val_bytes. cbn [iov_mem iov_base iov_len]. rewrite E'. apply zslice_mid; [zlia|done].
Qed.
End NodeReads.

(** ** The invariant of a page *)

Fixpoint pairwise {A} (R : A -> A -> Prop) (l : list A) : Prop :=
match l with
| [] => True
| x :: l => Forall (R x) l /\ pairwise R l
end.

Lemma pairwise_insert {A} (R : A -> A -> Prop) (a b : list A) x : (forall x y, R x y -> R y x) ->
  pairwise R (a ++ x :: b) <-> Forall (R x) (a ++ b) /\ pairwise R (a ++ b).
Proof.
  intros Hsym. induction a as [|y a IH]; cbn [app pairwise]; [done|].
  rewrite IH, !Forall_app, !Forall_cons_iff, !Forall_app. naive_solver.
Qed.

(** An entry and the node it points to. *)
Notation slot := (Z * anode)%type.

Definition apart (s t : slot) : Prop := s.1 + foot s.2 <= t.1 \/ t.1 + foot t.2 <= s.1.

Lemma apart_sym s t : apart s t -> apart t s.
Proof. unfold apart. tauto. Qed.

(** The node of the slot lies in the node area, which begins at [upper]. *)
Definition slot_ok (upper : Z) (heap : bytes) (s : slot) : Prop :=
s.1 mod 2 = 0 /\ anode_ok s.2 /\ exists p pad q,
  heap = p ++ node_image s.2 ++ pad ++ q /\ upper + zlen p = s.1 /\ zlen (node_image s.2 ++ pad) = foot s.2.

Definition feet (es : list slot) : Z := foldr (fun s n => foot s.2 + n) 0 es.

(** The page holds the slots [es]: the entries in order, then the free space,
    then the node area, which the nodes fill without overlapping. *)
Record page_holds (mp : page) (es : list slot) (free heap : bytes) : Prop := {
  ph_body : pg_body mp = words16 es.*1 ++ free ++ heap;
  ph_free : Forall is_byte free;
  ph_heap : Forall is_byte heap;
  ph_lower : pg_lower mp = 2 * zlen es;
  ph_upper : pg_upper mp = 2 * zlen es + zlen free;
  ph_space : zlen (pg_body mp) < 65536;
  ph_even : pg_upper mp mod 2 = 0;
  ph_slots : Forall (slot_ok (pg_upper mp) heap) es;
  ph_apart : pairwise apart es;
  ph_filled : feet es = zlen heap;
}.

(** The abstract page: its nodes in order. *)
Definition page_nodes (mp : page) (ns : list anode) : Prop := exists es free heap,
  page_holds mp es free heap /\ ns = es.*2.

Lemma feet_insert a b s : feet (a ++ s :: b) = foot s.2 + feet (a ++ b).
Proof. induction a as [|t a IH]; cbn [app feet foldr] in *; [done|]. unfold feet in IH. rewrite IH. lia. Qed.

Lemma slot_range mp es free heap s : page_holds mp es free heap -> s ∈ es ->
  pg_upper mp <= s.1 /\ s.1 + foot s.2 <= zlen (pg_body mp) /\ is_u16 s.1.
Proof.
  intros H Hs. pose proof (ph_slots _ _ _ _ H) as Hall. rewrite Forall_forall in Hall.
  destruct (Hall s Hs) as (_ & _ & p & pad & q & E & Ep & Ef).
  pose proof (ph_space _ _ _ _ H) as Hsp. pose proof (ph_upper _ _ _ _ H) as Hu.
  apply (f_equal zlen) in E. rewrite (ph_body _ _ _ _ H) in *. unfold is_u16. rewrite (app_assoc (node_image _)) in E.
  rewrite !zlen_app, zlen_words16, zlen_fmap in *. pose proof (foot_image s.2). unfold NODESIZE in *. zlia.
Qed.

Lemma entries_u16 mp es free heap : page_holds mp es free heap -> Forall is_u16 es.*1.
Proof.
  intros H. apply Forall_fmap, Forall_forall. intros s Hs. by apply (slot_range mp es free heap s H).
Qed.

(** A node fits above the node area. *)
Lemma slot_ok_below upper heap s g : slot_ok upper heap s -> slot_ok (upper - zlen g) (g ++ heap) s.
Proof.
  intros (He & Hn & p & pad & q & -> & Ep & Ef). split_and!; [done|done|]. exists (g ++ p), pad, q.
  rewrite <- app_assoc. split_and!; [done|zlia|done].
Qed.

Lemma page_holds_insert mp a b free gap pad heap n : page_holds mp (a ++ b) free heap -> anode_ok n ->
  zlen (node_image n ++ pad) = foot n -> Forall is_byte pad -> Forall is_byte gap ->
  2 + zlen gap + foot n = zlen free ->
  page_holds (with_body (with_bounds mp (pg_lower mp + 2) (pg_upper mp - foot n))
      (words16 (a ++ (pg_upper mp - foot n, n) :: b).*1 ++ gap ++ node_image n ++ pad ++ heap))
    (a ++ (pg_upper mp - foot n, n) :: b) gap (node_image n ++ pad ++ heap).
Proof.
  intros H Hn Hf Hp Hg Hl. pose proof (foot_even n) as Hfe. pose proof (ph_even _ _ _ _ H) as Hue.
  pose proof (ph_upper _ _ _ _ H) as Hu. pose proof (ph_lower _ _ _ _ H) as Hlo.
  pose proof (ph_space _ _ _ _ H) as Hsp. rewrite (ph_body _ _ _ _ H) in Hsp.
  split; cbn [with_body with_bounds pg_body pg_lower pg_upper].
  - done.
  - done.
  - rewrite !Forall_app. split_and!; [by apply node_image_bytes|done|by apply (ph_heap _ _ _ _ H)].
  - rewrite Hlo. zlia.
  - rewrite Hu. zlia.
  - pose proof (foot_image n). autorewrite with zlen in *. zlia.
  - clear -Hfe Hue. Z.div_mod_to_equations. lia.
  - pose proof (ph_slots _ _ _ _ H) as Hs. apply Forall_app in Hs as [Ha Hb]. apply Forall_app. 
    replace (pg_upper mp - foot n) with (pg_upper mp - zlen (node_image n ++ pad)) by lia. rewrite app_assoc. split.
    + eapply Forall_impl; [exact Ha|]. intros s. apply slot_ok_below.
    + constructor; [|eapply Forall_impl; [exact Hb|]; intros s; apply slot_ok_below].
      split_and!; cbn [fst snd]; [|done|].
      * rewrite Hf. clear -Hfe Hue. Z.div_mod_to_equations. lia.
      * exists [], pad, heap. rewrite <- app_assoc. split_and!; [done|zlia|done].
  - apply pairwise_insert; [apply apart_sym|]. split; [|apply (ph_apart _ _ _ _ H)].
    apply Forall_forall. intros s Hs. left. cbn [fst snd]. pose proof (slot_range _ _ _ _ s H Hs). lia.
  - rewrite feet_insert, (ph_filled _ _ _ _ H). cbn [snd]. rewrite app_assoc, zlen_app, Hf. lia.
Qed.

(** ** Writing a node *)

(** The bytes of a node to be: word, flags, extra, key size, the rest. *)
Definition fields (w : bytes) (f e : Z) (k r : bytes) : bytes := w ++ [f] ++ [e] ++ k ++ r.

Lemma carve (g : bytes) kl dl : 0 <= kl -> 0 <= dl -> 8 + kl + dl <= zlen g ->
  exists w f e k gk gd pad, g = fields w f e k (gk ++ gd ++ pad) /\ zlen w = 4 /\ zlen k = 2 /\ zlen gk = kl /\ zlen gd = dl.
Proof.
  intros Hk Hd Hg. destruct (zsplit g 4) as (w & r & -> & Hw); [lia|].
  destruct r as [|f [|e r]]; [zlia..|]. destruct (zsplit r 2) as (k & r' & -> & Hk2); [zlia|].
  destruct (zsplit r' kl) as (gk & r'' & -> & Hgk); [zlia|]. destruct (zsplit r'' dl) as (gd & pad & -> & Hgd); [zlia|].
  exists w, f, e, k, gk, gd, pad. done.
Qed.

Lemma blit_val v d1 d2 d3 p : val_ok v -> p = zlen d1 -> zlen d2 = iov_len v ->
  blit (iov_mem v) (iov_base v) (d1 ++ d2 ++ d3) p (iov_len v) = Some (d1 ++ val_bytes v ++ d3).
Proof.
  intros Hv -> Hd. destruct (val_split v Hv) as (pre & post & E & Eb & El & _). rewrite E.
  by apply blit_split.
Qed.

Section NodeWrites.
Context (unaligned_ok : Z) (pre w k r post : bytes) (f e : Z) (Hw : zlen w = 4) (Hk : zlen k = 2).

Ltac regroup d := match goal with |- context [pre ++ ?rest] =>
  replace (pre ++ rest) with d by (unfold fields; rewrite <- ?app_assoc; reflexivity) end.

Lemma write_word v : 0 <= v < 2 ^ 32 ->
  node_set_pgno unaligned_ok (pre ++ fields w f e k r ++ post) (zlen pre) v = Some (pre ++ fields (le_encode 4 v) f e k r ++ post) /\
  node_set_ds unaligned_ok (pre ++ fields w f e k r ++ post) (zlen pre) v = Some (pre ++ fields (le_encode 4 v) f e k r ++ post).
Proof.
  intros Hv. unfold node_set_pgno, node_set_ds. rewrite !poke_u32_store. unfold u32. rewrite wrap_small by done.
  unfold fields. rewrite <- !app_assoc. rewrite store_mid by (by rewrite ?Hw). done.
Qed.

Lemma write_flags v : node_set_flags (pre ++ fields w f e k r ++ post) (zlen pre) v = Some (pre ++ fields w v e k r ++ post).
Proof.
  unfold node_set_flags, poke_u8. regroup ((pre ++ w) ++ f :: ([e] ++ k ++ r ++ post)).
  rewrite zset_app_mid by zlia. unfold fields. by rewrite <- !app_assoc.
Qed.

Lemma write_extra v : node_set_extra (pre ++ fields w f e k r ++ post) (zlen pre) v = Some (pre ++ fields w f v k r ++ post).
Proof.
  unfold node_set_extra, poke_u8. regroup ((pre ++ w ++ [f]) ++ e :: (k ++ r ++ post)).
  rewrite zset_app_mid by zlia. unfold fields. by rewrite <- !app_assoc.
Qed.

Lemma write_ks v : 0 <= v < 65536 ->
  node_set_ks unaligned_ok (pre ++ fields w f e k r ++ post) (zlen pre) v = Some (pre ++ fields w f e (le_encode 2 v) r ++ post).
Proof.
  intros Hv. unfold node_set_ks. rewrite poke_u16_store. unfold u16. rewrite wrap_small by done.
  regroup ((pre ++ w ++ [f] ++ [e]) ++ k ++ (r ++ post)).
  rewrite store_mid by zlia. unfold fields. by rewrite <- !app_assoc.
Qed.

Lemma write_key v gk rest : val_ok v -> zlen gk = iov_len v -> r = gk ++ rest ->
  blit (iov_mem v) (iov_base v) (pre ++ fields w f e k r ++ post) (node_key (zlen pre)) (iov_len v) =
  Some (pre ++ fields w f e k (val_bytes v ++ rest) ++ post).
Proof.
  intros Hv Hg ->. unfold node_key, NODESIZE. regroup ((pre ++ w ++ [f] ++ [e] ++ k) ++ gk ++ (rest ++ post)).
  rewrite blit_val by (done || zlia). unfold fields. by rewrite <- !app_assoc.
Qed.
End NodeWrites.

Lemma val_len_bytes v : val_ok v -> zlen (val_bytes v) = iov_len v.
Proof. intros Hv. by destruct (val_split v Hv) as (? & ? & _ & _ & ? & _). Qed.

Lemma val_bytes_bytes v : val_ok v -> Forall is_byte (val_bytes v).
Proof. intros Hv. by destruct (val_split v Hv) as (? & ? & _ & _ & _ & ?). Qed.

(** Free space of the right size for one more node. *)
Lemma split_free free n : Forall is_byte free -> 0 < n -> 2 + n <= zlen free ->
  exists y gap g, free = words16 [y] ++ gap ++ g /\ zlen g = n /\ Forall is_byte gap /\ Forall is_byte g /\ zlen gap = zlen free - 2 - n.
Proof.
  intros Hb Hn Hl. destruct (free_word free Hb) as (y & free' & -> & Hl' & Hb'); [lia|].
  destruct (zsplit free' (zlen free' - n)) as (gap & g & -> & Hg); [lia|].
  apply Forall_app in Hb' as [? ?]. exists y, gap, g. split_and!; [done|zlia|done|done|zlia].
Qed.

Lemma page_numkeys_holds mp es free heap : page_holds mp es free heap -> page_numkeys mp = zlen es.
Proof.
  intros H. unfold page_numkeys. rewrite (ph_lower _ _ _ _ H), Z.shiftr_div_pow2 by lia.
  change (2 ^ 1) with 2. rewrite Z.mul_comm. by apply Z.div_mul.
Qed.

Lemma upper_range mp es free heap : page_holds mp es free heap -> 0 <= pg_lower mp <= pg_upper mp /\ pg_upper mp < 65536.
Proof.
  intros H. pose proof (ph_lower _ _ _ _ H). pose proof (ph_upper _ _ _ _ H). pose proof (ph_space _ _ _ _ H) as Hs.
  rewrite (ph_body _ _ _ _ H) in Hs. zlia.
Qed.

Lemma node_size_foot kl dl n : zlen (an_key n) = kl -> zlen (an_data n) = dl -> kl < 2 ^ 31 -> dl < 2 ^ 31 ->
  node_size_len kl dl = foot n.
Proof. intros <- <- Hk Hd. unfold node_size_len, foot. rewrite EVEN_CEIL_even_up; [done|]. zlia. Qed.

(** Entries and node offsets after an insertion of [F] bytes that fits: the
    state in which the code begins to write the node. *)
Lemma insert_room mp a b free heap F : page_holds mp (a ++ b) free heap -> 0 < F -> 2 + F <= zlen free ->
  let offs := a.*1 ++ (pg_upper mp - F) :: b.*1 in
  exists gap g m,
    entries_up (Z.to_nat (page_numkeys mp - zlen a)) (pg_body mp) (page_numkeys mp) (zlen a) = Some m /\
    entry_set m (zlen a) (pg_upper mp - F) = Some ((words16 offs ++ gap) ++ g ++ heap) /\
    zlen (words16 offs ++ gap) = pg_upper mp - F /\ zlen g = F /\ Forall is_byte (gap ++ g) /\
    forall n pad, anode_ok n -> foot n = F -> zlen (node_image n ++ pad) = F -> Forall is_byte pad ->
      page_holds (with_body (with_bounds mp (pg_lower mp + 2) (pg_upper mp - F))
        ((words16 offs ++ gap) ++ (node_image n ++ pad) ++ heap))
        (a ++ (pg_upper mp - foot n, n) :: b) gap (node_image n ++ pad ++ heap).
Proof.
  intros H HF Hf offs. destruct (split_free free F) as (y & gap & g & E & Hg & Bgap & Bg & Lgap);
    [apply (ph_free _ _ _ _ H)|lia|done|].
  rewrite (page_numkeys_holds _ _ _ _ H), (ph_body _ _ _ _ H), fmap_app.
  replace (words16 (a.*1 ++ b.*1) ++ free ++ heap) with (words16 (a.*1 ++ b.*1 ++ [y]) ++ (gap ++ g ++ heap))
    by (rewrite E, !words16_app, <- !app_assoc; done).
  destruct (entries_insert a.*1 b.*1 y (gap ++ g ++ heap)) as (m & Em & Es).
  { pose proof (entries_u16 _ _ _ _ H) as Hu. rewrite fmap_app in Hu. by apply Forall_app in Hu as [_ ?]. }
  rewrite !zlen_fmap in *. rewrite <- zlen_app in Em. exists gap, g, m. split_and!; [done|..|done|by apply Forall_app|].
  - rewrite Es. by rewrite <- !app_assoc.
  - rewrite (ph_upper _ _ _ _ H). unfold offs. autorewrite with zlen. zlia.
  - intros n pad Hn <- Hp Hb. rewrite <- !app_assoc. unfold offs.
    assert (a.*1 ++ (pg_upper mp - foot n) :: b.*1 = (a ++ (pg_upper mp - foot n, n) :: b).*1) as -> by by rewrite fmap_app.
    eapply page_holds_insert; [done|done|done|done|done|lia].
Qed.

Lemma new_node_offset mp (a b : list slot) gap rest u lo up : is_u16 u ->
  page_node (with_bounds (with_body mp ((words16 (a.*1 ++ u :: b.*1) ++ gap) ++ rest)) lo up) (zlen a) = Some u.
Proof.
  intros Hu. unfold page_node. cbn [with_bounds with_body pg_body]. rewrite <- app_assoc.
  apply entry_get_mid; [done|zlia].
Qed.

(** The page after the insertion of a node. *)
Definition inserted (mp mp' : page) (a b : list slot) (n : anode) : Prop :=
exists gap heap', page_holds mp' (a ++ (pg_upper mp - foot n, n) :: b) gap heap' /\
  pg_lower mp' = pg_lower mp + 2 /\ pg_upper mp' = pg_upper mp - foot n /\
  pg_txnid mp' = pg_txnid mp /\ pg_dupfix_ksize mp' = pg_dupfix_ksize mp /\ pg_flags mp' = pg_flags mp /\ pg_pgno mp' = pg_pgno mp.

Section AddNode.
Context (unaligned_ok : Z).

Definition opt_bytes (key : option MDBX_val) : bytes := match key with Some v => val_bytes v | None => [] end.
Definition opt_ok (key : option MDBX_val) : Prop := match key with Some v => val_ok v | None => True end.

Lemma opt_len_bytes key : opt_ok key -> opt_len key = zlen (opt_bytes key) /\ zlen (opt_bytes key) < 2 ^ 31.
Proof.
  destruct key as [v|]; cbn; [|done]. intros Hv. rewrite val_len_bytes by done. pose proof (val_len v Hv). lia.
Qed.

Lemma node_add_branch_spec mc a b free heap key pgno :
  page_holds (mc_pg mc) (a ++ b) free heap -> opt_ok key -> zlen (opt_bytes key) < 65536 -> 0 <= pgno < 2 ^ 32 ->
  let n := mk_anode pgno 0 0 (opt_bytes key) [] in
  foot n <= env_branch_nodemax (mc_env mc) ->
  if zlen free <? 2 + foot n then
    node_add_branch unaligned_ok mc (zlen a) key pgno = Some (MDBX_PAGE_FULL, txn_error mc)
  else exists mp', node_add_branch unaligned_ok mc (zlen a) key pgno = Some (MDBX_SUCCESS, with_pg mc mp') /\
    inserted (mc_pg mc) mp' a b n.
Proof.
  intros H Hk Hkl Hpg n Hmax. destruct (opt_len_bytes key Hk) as [Ekl Hk31].
  assert (anode_ok n) as Hn.
  { split; cbn; [done|unfold is_byte; lia|unfold is_byte; lia| |done|constructor].
    destruct key; [by apply val_bytes_bytes|constructor]. }
  assert (node_size key None = foot n) as Esz by (unfold node_size; apply node_size_foot; cbn; done || lia).
  pose proof (upper_range _ _ _ _ H) as Hur. pose proof (foot_image n) as Hfi.
  pose proof (ph_lower _ _ _ _ H) as Hlo. pose proof (ph_upper _ _ _ _ H) as Hup.
  assert (zlen (node_image n) = 8 + zlen (opt_bytes key)) as Eni by (rewrite zlen_node_image; cbn; zlia).
  pose proof (zlen_nonneg (opt_bytes key)).
  unfold node_add_branch, branch_size. rewrite Esz. destruct (Z.ltb_spec (env_branch_nodemax (mc_env mc)) (foot n)); [lia|].
  cbn [mbind option_bind]. unfold sizeof_indx. replace (pg_upper (mc_pg mc) - (foot n + 2 - 2)) with (pg_upper (mc_pg mc) - foot n) by lia.
  unfold i64. rewrite signed_small by lia.
  destruct (Z.ltb_spec (zlen free) (2 + foot n)).
  { destruct (Z.ltb_spec (pg_upper (mc_pg mc) - foot n) (pg_lower (mc_pg mc) + 2)); [done|lia]. }
  destruct (Z.ltb_spec (pg_upper (mc_pg mc) - foot n) (pg_lower (mc_pg mc) + 2)); [lia|].
  unfold u16. rewrite !wrap_small by lia.
  destruct (insert_room _ a b free heap (foot n) H) as (gap & g & m & Em & Es & Lp & Lg & [Bgap Bg]%Forall_app & Hins); [lia|lia|].
  rewrite Em. cbn [mbind option_bind]. rewrite Es. cbn [mbind option_bind]. rewrite new_node_offset by (unfold is_u16; lia).
  set (pre := words16 (a.*1 ++ (pg_upper (mc_pg mc) - foot n) :: b.*1) ++ gap) in *. cbn [mbind option_bind].
  destruct (carve g (zlen (opt_bytes key)) 0) as (w & f & e & k & gk & gd & pad & -> & Lw & Lk & Lgk & Lgd); [lia..|].
  rewrite <- Lp.
  rewrite (proj1 (write_word _ pre w k _ heap f e Lw pgno Hpg)). cbn [mbind option_bind].
  rewrite write_flags by done. cbn [mbind option_bind]. rewrite write_extra by done. cbn [mbind option_bind].
  rewrite write_ks by (done || lia). cbn [mbind option_bind].
  assert (zlen (node_image n ++ pad) = foot n) as Hpl by (unfold fields in Lg; zlia).
  assert (Forall is_byte pad) as Hpb by (unfold fields in Bg; rewrite !Forall_app in Bg; naive_solver).
  assert (gd = []) as -> by by apply zlen_0_nil.
  specialize (Hins n pad Hn eq_refl Hpl Hpb). eexists. split; [|by exists gap, (node_image n ++ pad ++ heap)].
  destruct key as [v|]; cbn [opt_bytes opt_ok opt_len] in *.
  - destruct (Z.eqb_spec (iov_len v) 0) as [E0|E0]; cbn [negb].
    + rewrite val_len_bytes in Lgk by done. assert (gk = []) as -> by (apply zlen_0_nil; lia).
      cbn [mbind option_bind]. rewrite Lp. unfold node_image, fields, n. cbn [an_word an_flags an_extra an_key an_data].
      assert (val_bytes v = []) as -> by (apply zlen_0_nil; rewrite val_len_bytes by done; lia). by rewrite <- !app_assoc.
    + rewrite write_ks by (done || lia). cbn [mbind option_bind]. rewrite val_len_bytes in Lgk by done.
      erewrite write_key by done. cbn [mbind option_bind].
      rewrite Lp. unfold node_image, fields, n. cbn [an_word an_flags an_extra an_key an_data]. rewrite val_len_bytes by done.
      by rewrite <- !app_assoc.
  - cbn [mbind option_bind]. assert (gk = []) as -> by by apply zlen_0_nil.
    rewrite Lp. unfold node_image, fields, n. cbn [an_word an_flags an_extra an_key an_data]. by rewrite <- !app_assoc.
Qed.

(** The node of a leaf with [dl] bytes of data in the page. *)
Lemma node_put_header_spec mp a b free heap key dlen flags dl :
  page_holds mp (a ++ b) free heap -> val_ok key -> iov_len key < 65536 -> 0 <= dlen < 2 ^ 32 -> 0 <= dl < 2 ^ 31 ->
  let F := NODESIZE + even_up (iov_len key + dl) in
  let mp1 m := with_body (with_bounds mp (pg_lower mp + 2) (pg_upper mp - F)) m in
  2 + F <= zlen free ->
  exists pre gd pad m0, zlen pre = pg_upper mp - F /\ zlen gd = dl /\ Forall is_byte (gd ++ pad) /\
    Forall is_byte (pre ++ fields (le_encode 4 dlen) (u8 flags) 0 (le_encode 2 (iov_len key)) (val_bytes key ++ gd ++ pad) ++ heap) /\
    node_put_header unaligned_ok mp (zlen a) key dlen flags (F + 2) = Some (inr (mp1 m0,
      pre ++ fields (le_encode 4 dlen) (u8 flags) 0 (le_encode 2 (iov_len key)) (val_bytes key ++ gd ++ pad) ++ heap, zlen pre)) /\
    forall d, zlen d = dl -> Forall is_byte d -> let n := mk_anode dlen (u8 flags) 0 (val_bytes key) d in
      foot n = F /\ inserted mp (mp1 (pre ++ (node_image n ++ pad) ++ heap)) a b n.
Proof.
  intros H Hk Hkl Hdl Hd F mp1 Hf. pose proof (upper_range _ _ _ _ H) as Hur.
  pose proof (ph_lower _ _ _ _ H) as Hlo. pose proof (ph_upper _ _ _ _ H) as Hup.
  pose proof (val_len key Hk) as HK. pose proof (val_len_bytes key Hk) as Ekl.
  pose proof (even_up_bound (iov_len key + dl)) as Heu. assert (8 <= F) as HF by (unfold F, NODESIZE; lia).
  assert (F = 8 + even_up (iov_len key + dl)) as EF by done. clearbody F.
  unfold node_put_header, sizeof_indx.
  destruct (insert_room _ a b free heap F H) as (gap & g & m & Em & Es & Lp & Lg & [Bgap Bg]%Forall_app & Hins); [lia|lia|].
  rewrite Em. cbn [mbind option_bind]. replace (pg_upper mp - (F + 2 - 2)) with (pg_upper mp - F) by lia.
  unfold i64. rewrite signed_small by lia. destruct (Z.ltb_spec (pg_upper mp - F) (pg_lower mp + 2)); [lia|].
  unfold u16. rewrite !wrap_small by lia. rewrite Es. cbn [mbind option_bind]. rewrite new_node_offset by (unfold is_u16; lia).
  cbn [mbind option_bind]. set (pre := words16 (a.*1 ++ (pg_upper mp - F) :: b.*1) ++ gap) in *.
  destruct (carve g (iov_len key) dl) as (w & f & e & k & gk & gd & pad & -> & Lw & Lk & Lgk & Lgd); [lia..|].
  assert (zlen pad = F - (8 + iov_len key + dl)) as Lpad by (unfold fields in Lg; zlia).
  assert (Forall is_byte gd /\ Forall is_byte pad) as [Bgd Bpad] by (unfold fields in Bg; rewrite !Forall_app in Bg; naive_solver).
  exists pre, gd, pad, (pre ++ fields w f e k (gk ++ gd ++ pad) ++ heap). split_and!; [done|done|by apply Forall_app| | |].
  - unfold fields, pre. rewrite !Forall_app. split_and!; try apply le_encode_bytes; try apply words16_bytes; try done.
    + repeat constructor; apply wrap_range; lia.
    + repeat constructor; lia.
    + by apply val_bytes_bytes.
    + by apply (ph_heap _ _ _ _ H).
  - rewrite <- Lp. rewrite write_ks by (done || lia). cbn [mbind option_bind].
    rewrite write_flags by done. cbn [mbind option_bind]. rewrite write_extra by done. cbn [mbind option_bind].
    rewrite (proj2 (write_word _ pre _ _ _ heap _ _ Lw dlen Hdl)). cbn [mbind option_bind].
    destruct (Z.eqb_spec (iov_len key) 0) as [E0|E0]; cbn [negb].
    + assert (gk = []) as -> by (apply zlen_0_nil; lia). assert (val_bytes key = []) as -> by (apply zlen_0_nil; lia).
      cbn [mbind option_bind]. unfold mp1. by rewrite Lp.
    + erewrite write_key by done. cbn [mbind option_bind]. unfold mp1. by rewrite Lp.
  - intros d Ld Bd. set (n := mk_anode dlen (u8 flags) 0 (val_bytes key) d). assert (foot n = F) as Efn by (unfold foot, NODESIZE, n; cbn [an_key an_data]; rewrite Ekl, Ld; lia).
    split; [done|]. eexists _, _. split; [apply (Hins n pad); [|done| |done]|by rewrite Efn].
    + split; cbn; [done|apply wrap_range; lia|unfold is_byte; lia|by apply val_bytes_bytes|lia|done].
    + rewrite zlen_app, zlen_node_image. unfold n. cbn [an_key an_data]. lia.
Qed.

Lemma node_data_fields pre w f e v r post : zlen w = 4 -> 0 <= v < 65536 ->
  node_data unaligned_ok (pre ++ fields w f e (le_encode 2 v) r ++ post) (zlen pre) = Some (zlen pre + 8 + v).
Proof.
  intros Hw Hv. unfold node_data, node_ks. rewrite peek_u16_load.
  replace (pre ++ _) with ((pre ++ w ++ [f] ++ [e]) ++ le_encode 2 v ++ (r ++ post)) by (unfold fields; by rewrite <- !app_assoc).
  rewrite load_mid by zlia. rewrite le_decode_encode, Z.mod_small by (change (256 ^ Z.of_nat 2) with 65536; lia).
  cbn [mbind option_bind]. unfold node_key, NODESIZE. done.
Qed.

(** The data behind the key. *)
Lemma put_data pre w f e k v kb gd r post : zlen w = 4 -> zlen k = 2 -> val_ok v -> zlen gd = iov_len v ->
  blit (iov_mem v) (iov_base v) (pre ++ fields w f e k (kb ++ gd ++ r) ++ post) (zlen pre + 8 + zlen kb) (iov_len v) =
  Some (pre ++ fields w f e k (kb ++ val_bytes v ++ r) ++ post).
Proof.
  intros Hw Hk Hv Hg.
  replace (pre ++ _) with ((pre ++ w ++ [f] ++ [e] ++ k ++ kb) ++ gd ++ (r ++ post)) by (unfold fields; by rewrite <- !app_assoc).
  rewrite blit_val by (done || zlia). unfold fields. by rewrite <- !app_assoc.
Qed.

Lemma put_pgno pre w f e k v kb gd r post : zlen w = 4 -> zlen k = 2 -> zlen gd = 4 ->
  poke_pgno unaligned_ok (pre ++ fields w f e k (kb ++ gd ++ r) ++ post) (zlen pre + 8 + zlen kb) v =
  Some (pre ++ fields w f e k (kb ++ le_encode 4 v ++ r) ++ post).
Proof.
  intros Hw Hk Hg. unfold poke_pgno. rewrite poke_u32_store.
  replace (pre ++ _) with ((pre ++ w ++ [f] ++ [e] ++ k ++ kb) ++ gd ++ (r ++ post)) by (unfold fields; by rewrite <- !app_assoc).
  rewrite store_mid by zlia. unfold fields. by rewrite <- !app_assoc.
Qed.

Lemma fields_image pre dlen fl kb d pad post :
  pre ++ fields (le_encode 4 dlen) fl 0 (le_encode 2 (zlen kb)) (kb ++ d ++ pad) ++ post =
  pre ++ (node_image (mk_anode dlen fl 0 kb d) ++ pad) ++ post.
Proof. unfold fields, node_image. cbn [an_word an_flags an_extra an_key an_data]. by rewrite <- !app_assoc. Qed.

(** What the new node of a leaf has for data, [d], and where the caller finds it: the
    number of a large page the caller gave, or of the new one with the caller's data
    or with space reserved for them, or the data themselves, or space reserved. *)
Definition leaf_stored (key data : MDBX_val) (flags : Z) (largepage : option (Z * bytes)) (mp' : page)
  (large : option (Z * bytes)) (at_ : reserved_at) (d : bytes) : Prop :=
match largepage with
| None =>
  large = None /\
  if has flags N_BIG then d = zslice (iov_mem data) (iov_base data) 4 /\ at_ = NotReserved
  else if has flags MDBX_RESERVE then zlen d = iov_len data /\ at_ = InPage (pg_upper mp' + NODESIZE + iov_len key)
  else d = val_bytes data /\ at_ = NotReserved
| Some (lpgno, payload) =>
  d = le_encode 4 lpgno /\
  if has flags MDBX_RESERVE then large = Some (lpgno, payload) /\ at_ = InLarge
  else large = Some (lpgno, val_bytes data ++ drop (Z.to_nat (iov_len data)) payload) /\ at_ = NotReserved
end.

(** What [node_put_leaf] leaves behind when the node fits. *)
Lemma node_put_leaf_spec mc a b free heap key data flags largepage dl :
  page_holds (mc_pg mc) (a ++ b) free heap -> val_ok key -> iov_len key < 65536 -> 0 <= iov_len data < 2 ^ 31 -> 0 <= dl < 2 ^ 31 ->
  let F := NODESIZE + even_up (iov_len key + dl) in
  let node d := mk_anode (iov_len data) (u8 flags) 0 (val_bytes key) d in
  2 + F <= zlen free ->
  match largepage with
  | None =>
    if has flags N_BIG then dl = 4 /\ val_ok (mk_val (iov_mem data) (iov_base data) 4)
    else dl = iov_len data /\ (has flags MDBX_RESERVE = false -> val_ok data)
  | Some (lpgno, payload) =>
    dl = 4 /\ 0 <= lpgno < 2 ^ 32 /\ (has flags MDBX_RESERVE = false -> val_ok data /\ iov_len data <= zlen payload)
  end ->
  exists mp' large at_ d,
    node_put_leaf unaligned_ok mc (zlen a) key data flags largepage (F + 2) =
      Some (MDBX_SUCCESS, mk_added (with_pg mc mp') large at_) /\
    inserted (mc_pg mc) mp' a b (node d) /\ foot (node d) = F /\ leaf_stored key data flags largepage mp' large at_ d.
Proof.
  intros H Hk Hkl Hd31 Hdl F node Hf Hdata. unfold leaf_stored.
  destruct (node_put_header_spec (mc_pg mc) a b free heap key (iov_len data) flags dl H Hk Hkl ltac:(lia) Hdl Hf)
    as (pre & gd & pad & m0 & Lp & Lgd & Bgp & Bm & Ehd & Hins).
  apply Forall_app in Bgp as [Bgd _]. fold F in Ehd, Hins, Lp. pose proof (val_len_bytes key Hk) as Ekl. pose proof (val_len key Hk) as HK.
  unfold node_put_leaf. rewrite Ehd. cbn [mbind option_bind]. rewrite <- Ekl in *.
  rewrite node_data_fields by (done || zlia). cbn [mbind option_bind].
  destruct largepage as [[lpgno payload]|].
  - destruct Hdata as (-> & Hlp & Hdata).
    rewrite put_pgno by done. cbn [mbind option_bind]. destruct (Hins (le_encode 4 lpgno) eq_refl (le_encode_bytes _ _)) as [Ef Hi].
    rewrite fields_image. destruct (has flags MDBX_RESERVE).
    { eexists _, _, _, _. split; [done|]. split; [exact Hi|]. done. }
    destruct (Hdata eq_refl) as [Hdv Hpay]. eexists _, (Some (lpgno, val_bytes data ++ drop (Z.to_nat (iov_len data)) payload)), _, _.
    split; [|split; [exact Hi|done]].
    assert ((if negb (iov_len data =? 0) then blit (iov_mem data) (iov_base data) payload 0 (iov_len data) else Some payload) =
      Some (val_bytes data ++ drop (Z.to_nat (iov_len data)) payload)) as ->; [|done].
    destruct (Z.eqb_spec (iov_len data) 0) as [E0|E0]; cbn [negb].
    + assert (val_bytes data = []) as -> by (apply zlen_0_nil; rewrite val_len_bytes by done; done). by rewrite E0.
    + destruct (zsplit payload (iov_len data)) as (p1 & p2 & -> & Hp1); [lia|].
      rewrite drop_app_length' by (unfold zlen in Hp1; lia). pose proof (blit_val data [] p1 p2 0 Hdv eq_refl Hp1) as Hb. done.
  - destruct (has flags N_BIG).
    + destruct Hdata as (-> & Hv). pose proof (put_data pre (le_encode 4 (iov_len data)) (u8 flags) 0 (le_encode 2 (zlen (val_bytes key)))
        (mk_val (iov_mem data) (iov_base data) 4) (val_bytes key) gd pad heap eq_refl eq_refl Hv Lgd) as Hb.
      cbn [iov_mem iov_base iov_len] in Hb. unfold sizeof_pgno. rewrite Hb. cbn [mbind option_bind]. rewrite fields_image.
      pose proof (val_len_bytes _ Hv) as L4. pose proof (val_bytes_bytes _ Hv) as B4.
      destruct (Hins _ L4 B4) as [Ef Hi]. eexists _, _, _, _. split; [done|]. split; [exact Hi|]. done.
    + destruct Hdata as (-> & Hdata). destruct (has flags MDBX_RESERVE).
      * destruct (Hins gd Lgd Bgd) as [Ef Hi]. rewrite fields_image. eexists _, _, _, gd. split; [done|]. split; [exact Hi|].
        split; [done|]. split; [done|]. split; [done|]. f_equal. cbn [with_body with_bounds pg_upper]. unfold NODESIZE. lia.
      * specialize (Hdata eq_refl). pose proof (val_len_bytes _ Hdata) as Ld.
        destruct (Hins (val_bytes data) Ld (val_bytes_bytes _ Hdata)) as [Ef Hi].
        eexists _, _, _, (val_bytes data). split; [|split; [exact Hi|done]]. rewrite <- fields_image.
        destruct (Z.eqb_spec (iov_len data) 0) as [E0|E0]; cbn [negb].
        -- assert (val_bytes data = []) as -> by (apply zlen_0_nil; lia). assert (gd = []) as -> by (apply zlen_0_nil; lia). done.
        -- rewrite put_data by done. done.
Qed.
End AddNode.

(** ** Deleting a node *)

(** [memmove] to a higher address inside of one block. *)
Lemma blit_shift {A} (p x y q : list A) n k : n = zlen p -> k = zlen y ->
  blit (p ++ x ++ y ++ q) n (p ++ x ++ y ++ q) (n + k) (zlen x) = Some (p ++ take (length y) (x ++ y) ++ x ++ q).
Proof.
  intros -> ->. destruct (zsplit (x ++ y) (zlen y)) as (u & v & E & Lu); [zlia|].
  assert (length u = length y) as Lu' by (unfold zlen in Lu; lia).
  assert (zlen v = zlen x) as Lv by (apply (f_equal zlen) in E; zlia).
  rewrite E, <- Lu', take_app_length. 
  pose proof (blit_split (p ++ u) v q p x (y ++ q) (zlen p) (zlen p + zlen y) (zlen x)) as Hb.
  rewrite <- !app_assoc in Hb. rewrite (app_assoc u v q), <- E, <- app_assoc in Hb. apply Hb; done || zlia.
Qed.

(** The kind of a node agrees with the page: a leaf node's data has the length
    its header says, or is the number of a large page; a branch node has none. *)
Definition kind_ok (leaf : bool) (n : anode) : Prop :=
if leaf then zlen (an_data n) = if has (an_flags n) N_BIG then sizeof_pgno else an_word n
else an_data n = [].

Lemma slot_before upper low hole high s o n : slot_ok upper (low ++ hole ++ high) s -> zlen hole = foot n -> o = upper + zlen low ->
  apart s (o, n) -> s.1 < o -> slot_ok (upper + foot n) (low ++ high) (s.1 + foot n, s.2) /\ s.1 + foot s.2 <= o.
Proof.
  intros (He & Hn & p & pad & q & E & Ep & Ef) Hh Ho Ha Hlt. unfold apart in Ha. cbn [fst snd] in *.
  pose proof (foot_image s.2). pose proof (foot_image n). pose proof (foot_even n) as Hfe.
  assert (s.1 + foot s.2 <= o) as Hle by (destruct Ha; [done|zlia]). split; [|done].
  split_and!; cbn [fst snd]; [clear -He Hfe; Z.div_mod_to_equations; lia|done|].
  rewrite (app_assoc (node_image _)) in E. destruct (zsplit q (o - (s.1 + foot s.2))) as (q1 & q2 & -> & Hq1).
  { apply (f_equal zlen) in E. rewrite !zlen_app in E. rewrite zlen_app in Ef. split; [lia|]. zlia. }
  exists p, pad, (q1 ++ high). split_and!; [|lia|done].
  assert (low = p ++ (node_image s.2 ++ pad) ++ q1) as ->; [|by rewrite <- !app_assoc].
  rewrite (app_assoc (_ ++ pad)), (app_assoc p) in E. apply app_inj_1 in E as [E1 E2].
  - done.
  - pose proof Ef as Ef'. rewrite zlen_app in Ef'. unfold zlen in *. rewrite !length_app in *. lia.
Qed.

Lemma slot_after upper low hole high s o n : slot_ok upper (low ++ hole ++ high) s -> zlen hole = foot n -> o = upper + zlen low ->
  apart s (o, n) -> o <= s.1 -> slot_ok (upper + foot n) (low ++ high) s /\ o + foot n <= s.1.
Proof.
  intros (He & Hn & p & pad & q & E & Ep & Ef) Hh Ho Ha Hge. unfold apart in Ha. cbn [fst snd] in *.
  pose proof (foot_image s.2). pose proof (foot_image n).
  assert (o + foot n <= s.1) as Hle by (destruct Ha; [zlia|done]). split; [|done]. split_and!; [done|done|].
  destruct (zsplit p (zlen low + zlen hole)) as (p1 & p2 & -> & Hp1); [zlia|].
  rewrite <- app_assoc, app_assoc in E. apply app_inj_1 in E as [E1 E2]; [|unfold zlen in *; rewrite length_app; lia].
  exists (low ++ p2), pad, q. rewrite E2, <- !app_assoc. split_and!; [done|zlia|done].
Qed.

Lemma moved_apart o n (s t : slot) : apart s t -> apart s (o, n) -> apart t (o, n) ->
  apart (moved o (foot n) s.1, s.2) (moved o (foot n) t.1, t.2).
Proof.
  unfold apart, moved. cbn [fst snd]. pose proof (foot_image s.2). pose proof (foot_image t.2). pose proof (foot_image n).
  destruct (Z.ltb_spec s.1 o), (Z.ltb_spec t.1 o); zlia.
Qed.

Lemma pairwise_map {A B} (R : A -> A -> Prop) (S : B -> B -> Prop) (P : A -> Prop) (f : A -> B) l :
  (forall x y, P x -> P y -> R x y -> S (f x) (f y)) -> Forall P l -> pairwise R l -> pairwise S (f <$> l).
Proof.
  intros HS. induction 1 as [|x l Hx Hl IH]; cbn [pairwise fmap list_fmap]; [done|]. intros [Hall Hp].
  split; [|by apply IH]. apply Forall_fmap. rewrite Forall_forall in *. intros y Hy. cbn. apply HS; auto.
Qed.

Lemma elem_of_insert {A} (a b : list A) x s : s ∈ a ++ x :: b <-> s = x \/ s ∈ a ++ b.
Proof. rewrite !elem_of_app, elem_of_cons. tauto. Qed.

Definition closed (o : Z) (n : anode) (s : slot) : slot := (moved o (foot n) s.1, s.2).

Lemma feet_closed o n es : feet (closed o n <$> es) = feet es.
Proof. induction es as [|s es IH]; [done|]. cbn [fmap list_fmap feet foldr] in *. unfold feet in IH. by rewrite IH. Qed.

Lemma closed_offsets o n es : map (moved o (foot n)) es.*1 = (closed o n <$> es).*1.
Proof. induction es as [|s es IH]; [done|]. cbn. f_equal. exact IH. Qed.

Lemma hole_split mp a b o n free heap : page_holds mp (a ++ (o, n) :: b) free heap ->
  exists low hole high, heap = low ++ hole ++ high /\ zlen hole = foot n /\ o = pg_upper mp + zlen low /\
    anode_ok n /\ node_in (pg_body mp) o n.
Proof.
  intros H. pose proof (ph_slots _ _ _ _ H) as Hs. rewrite Forall_app in Hs. destruct Hs as [_ Hs].
  inversion Hs as [|?? Hso]; subst. destruct Hso as (He & Hn & p & pad & q & E & Ep & Ef). cbn [fst snd] in *.
  exists p, (node_image n ++ pad), q. rewrite <- app_assoc. split_and!; [done|done|lia|done|].
  exists (words16 (a ++ (o, n) :: b).*1 ++ free ++ p), (pad ++ q). rewrite (ph_body _ _ _ _ H), E, <- !app_assoc.
  split; [done|]. pose proof (ph_upper _ _ _ _ H). zlia.
Qed.

Lemma slot_closed upper low hole high o n s : slot_ok upper (low ++ hole ++ high) s -> zlen hole = foot n -> o = upper + zlen low ->
  apart s (o, n) -> slot_ok (upper + foot n) (low ++ high) (closed o n s).
Proof.
  intros Hs Hh Ho Ha. unfold closed, moved. destruct (Z.ltb_spec s.1 o).
  - by apply (slot_before _ _ _ _ _ _ _ Hs Hh Ho Ha).
  - destruct s. by apply (slot_after _ _ _ _ _ _ _ Hs Hh Ho Ha).
Qed.

Lemma page_holds_delete mp a b o n free low hole high free' : page_holds mp (a ++ (o, n) :: b) free (low ++ hole ++ high) ->
  zlen hole = foot n -> o = pg_upper mp + zlen low -> Forall is_byte free' -> zlen free' = 2 + zlen free + foot n ->
  page_holds (with_bounds (with_body mp (words16 (closed o n <$> (a ++ b)).*1 ++ free' ++ low ++ high)) (pg_lower mp - 2) (pg_upper mp + foot n))
    (closed o n <$> (a ++ b)) free' (low ++ high).
Proof.
  intros H Hh Ho Bf Lf. pose proof (foot_image n) as Hfi. pose proof (foot_even n) as Hfe.
  pose proof (ph_lower _ _ _ _ H) as Hlo. pose proof (ph_upper _ _ _ _ H) as Hup. pose proof (ph_even _ _ _ _ H) as Hue.
  pose proof (ph_space _ _ _ _ H) as Hsp. rewrite (ph_body _ _ _ _ H) in Hsp.
  pose proof (ph_apart _ _ _ _ H) as Hap. apply pairwise_insert in Hap as [Hon Hap]; [|apply apart_sym].
  assert (Forall (fun s => apart s (o, n)) (a ++ b)) as Hon' by (eapply Forall_impl; [exact Hon|]; intros; by apply apart_sym).
  split; cbn [with_body with_bounds pg_body pg_lower pg_upper].
  - done.
  - done.
  - pose proof (ph_heap _ _ _ _ H) as Hb. rewrite !Forall_app in Hb. destruct Hb as (? & ? & ?). by apply Forall_app.
  - zlia.
  - zlia.
  - autorewrite with zlen in *. zlia.
  - clear -Hfe Hue. Z.div_mod_to_equations. lia.
  - apply Forall_fmap, Forall_forall. intros s Hs. cbn. apply (slot_closed _ _ hole); [|done|done|].
    + pose proof (ph_slots _ _ _ _ H) as Hsl. rewrite Forall_forall in Hsl. apply Hsl, elem_of_insert. by right.
    + rewrite Forall_forall in Hon'. by apply Hon'.
  - apply (pairwise_map apart apart (fun s => apart s (o, n))); [|done|done]. intros. by apply moved_apart.
  - rewrite feet_closed. pose proof (ph_filled _ _ _ _ H) as Hfl. rewrite feet_insert in Hfl. cbn [snd] in Hfl. zlia.
Qed.

Section DelNode.
Context (unaligned_ok : Z).

Lemma hole_size_foot mp n o : Forall is_byte (pg_body mp) -> anode_ok n -> node_in (pg_body mp) o n -> kind_ok (is_leaf mp) n -> foot n < 65536 ->
  (hs ← (if is_leaf mp then
           fl ← node_flags (pg_body mp) o;
           if has fl N_BIG then Some (NODESIZE + zlen (an_key n) + sizeof_pgno)
           else ds ← node_ds unaligned_ok (pg_body mp) o; Some (NODESIZE + zlen (an_key n) + ds)
         else Some (NODESIZE + zlen (an_key n))); Some (EVEN_CEIL hs)) = Some (foot n).
Proof.
  intros Hm Hn Hin Hk Hf. pose proof (foot_image n) as Hfi. rewrite zlen_node_image in Hfi.
  assert (EVEN_CEIL (8 + zlen (an_key n) + zlen (an_data n)) = foot n) as Ef.
  { rewrite EVEN_CEIL_even_up by zlia. unfold foot, NODESIZE, even_up. Z.div_mod_to_equations. lia. }
  unfold kind_ok, NODESIZE in *. destruct (is_leaf mp).
  - rewrite (node_flags_read _ _ _ Hin). cbn [mbind option_bind]. destruct (has (an_flags n) N_BIG).
    + cbn [mbind option_bind]. rewrite <- Hk. by rewrite Ef.
    + rewrite (proj1 (node_word_read _ _ _ _ Hm Hn Hin)). cbn [mbind option_bind]. rewrite <- Hk. by rewrite Ef.
  - cbn [mbind option_bind]. rewrite Hk, zlen_nil, Z.add_0_r in Ef. by rewrite Ef.
Qed.

Lemma holds_bytes mp es free heap : page_holds mp es free heap -> Forall is_byte (pg_body mp).
Proof.
  intros H. rewrite (ph_body _ _ _ _ H), !Forall_app. split_and!; [apply words16_bytes|apply (ph_free _ _ _ _ H)|apply (ph_heap _ _ _ _ H)].
Qed.

Lemma node_del_spec mc ksize a b o n free heap : page_holds (mc_pg mc) (a ++ (o, n) :: b) free heap ->
  mc_ki mc = zlen a -> is_dupfix_leaf (mc_pg mc) = false -> kind_ok (is_leaf (mc_pg mc)) n ->
  exists free' heap' body', let mp' := with_bounds (with_body (mc_pg mc) body') (pg_lower (mc_pg mc) - 2) (pg_upper (mc_pg mc) + foot n) in
    node_del unaligned_ok mc ksize = Some (with_pg mc mp') /\ page_holds mp' (closed o n <$> (a ++ b)) free' heap'.
Proof.
  intros H Hki Hdf Hkind. destruct (hole_split _ _ _ _ _ _ _ H) as (low & hole & high & -> & Hh & Ho & Hn & Hin).
  pose proof (foot_image n) as Hfi. rewrite zlen_node_image in Hfi. pose proof (slot_range _ _ _ _ (o, n) H (proj2 (elem_of_insert a b _ _) (or_introl eq_refl))) as (Ho1 & Ho2 & Ho3).
  cbn [fst snd] in *. pose proof (ph_space _ _ _ _ H) as Hsp. pose proof (upper_range _ _ _ _ H) as Hur. pose proof (holds_bytes _ _ _ _ H) as Hbb.
  pose proof (entries_u16 _ _ _ _ H) as Hu16. rewrite fmap_app, fmap_cons in Hu16.
  unfold node_del. rewrite Hdf, Hki, (page_numkeys_holds _ _ _ _ H).
  assert (page_node (mc_pg mc) (zlen a) = Some o) as Epn.
  { unfold page_node. rewrite (ph_body _ _ _ _ H), fmap_app, fmap_cons. apply entry_get_mid; [done|zlia]. }
  rewrite Epn. cbn [mbind option_bind]. rewrite (node_ks_read _ _ _ _ Hn Hin). cbn [mbind option_bind].
  pose proof (hole_size_foot _ n o Hbb Hn Hin Hkind ltac:(zlia)) as Ehs.
  destruct (if is_leaf (mc_pg mc) then _ else _) as [hs|]; [|done]. cbn [mbind option_bind] in Ehs |- *. injection Ehs as ->.
  unfold page_node in Epn. rewrite Epn. cbn [mbind option_bind].
  rewrite (ph_body _ _ _ _ H). rewrite fmap_app, fmap_cons. cbn [fst].
  assert (Forall (movable o (foot n)) (a ++ b).*1) as Hmv.
  { apply Forall_fmap, Forall_forall. intros s Hs. pose proof (slot_range _ _ _ _ s H (proj2 (elem_of_insert a b _ _) (or_intror Hs))) as (Hr1 & Hr2 & Hr3).
    split; [done|]. intros Hlt. unfold is_u16 in *. cbn in Hr3 |- *. zlia. }
  rewrite fmap_app in Hmv. apply Forall_app in Hmv as [Hma Hmb].
  destruct (entries_close_spec a.*1 [] o b.*1 (Z.to_nat (zlen (a ++ (o, n) :: b))) (zlen (a ++ (o, n) :: b)) (zlen a) o (foot n)
    (free ++ low ++ hole ++ high)) as (g' & Eec); [zlia|done|done|zlia|zlia| |].
  { rewrite !length_fmap. unfold zlen. rewrite length_app. cbn. lia. }
  rewrite zlen_nil in Eec. cbn [app] in Eec. rewrite Eec. cbn [mbind option_bind]. rewrite words16_app, <- app_assoc.
  rewrite <- fmap_app, closed_offsets.
  replace (o - pg_upper (mc_pg mc)) with (zlen low) by lia.
  replace (words16 (closed o n <$> a ++ b).*1 ++ words16 [g'] ++ free ++ low ++ hole ++ high) with
    ((words16 (closed o n <$> a ++ b).*1 ++ words16 [g'] ++ free) ++ low ++ hole ++ high) by (by rewrite <- !app_assoc).
  rewrite blit_shift by (rewrite ?(ph_upper _ _ _ _ H); zlia). cbn [mbind option_bind].
  eexists (words16 [g'] ++ free ++ take (length hole) (low ++ hole)), (low ++ high), _. split.
  - unfold sizeof_indx, u16. pose proof (ph_lower _ _ _ _ H). rewrite (wrap_small 16 (foot n)) by zlia. rewrite !wrap_small by zlia. done.
  - replace ((words16 _ ++ _) ++ _) with (words16 (closed o n <$> a ++ b).*1 ++ (words16 [g'] ++ free ++ take (length hole) (low ++ hole)) ++ low ++ high)
      by (by rewrite <- !app_assoc).
    apply (page_holds_delete _ _ _ _ _ free _ hole); [done|done|done| |].
    + pose proof (ph_heap _ _ _ _ H) as Hhb. rewrite !Forall_app in Hhb |- *. destruct Hhb as (? & ? & ?).
      split_and!; [apply words16_bytes|apply (ph_free _ _ _ _ H)|]. apply Forall_take. by apply Forall_app.
    + rewrite !zlen_app, zlen_words16. unfold zlen at 3. rewrite length_take, length_app. unfold zlen in *. cbn. lia.
Qed.
End DelNode.

(** ** Pages of fixed-size items *)

Record dupfix_holds (mp : page) (ks : Z) (items : list bytes) (rest : bytes) : Prop := {
  dh_body : pg_body mp = mjoin items ++ rest;
  dh_ksize : pg_dupfix_ksize mp = ks;
  dh_size : 2 <= ks;
  dh_items : Forall (fun it => zlen it = ks) items;
  dh_lower : pg_lower mp = 2 * zlen items;
  dh_upper : pg_upper mp = zlen (pg_body mp) - zlen items * (ks - 2);
  dh_space : zlen (pg_body mp) < 65536;
}.

Lemma zlen_mjoin ks (items : list bytes) : Forall (fun it => zlen it = ks) items -> zlen (mjoin items) = zlen items * ks.
Proof.
  induction 1 as [|x l Hx Hl IH]; [done|]. change (mjoin (x :: l)) with (x ++ mjoin l).
  rewrite zlen_app, zlen_cons, IH. lia.
Qed.

Lemma dupfix_numkeys mp ks items rest : dupfix_holds mp ks items rest -> page_numkeys mp = zlen items.
Proof.
  intros H. unfold page_numkeys. rewrite (dh_lower _ _ _ _ H), Z.shiftr_div_pow2 by lia.
  change (2 ^ 1) with 2. rewrite Z.mul_comm. by apply Z.div_mul.
Qed.

Lemma dupfix_bounds mp ks items rest : dupfix_holds mp ks items rest ->
  zlen (pg_body mp) = zlen items * ks + zlen rest /\ 0 <= zlen items * ks /\ zlen items < 65536 /\ ks * zlen items < 65536 /\
  2 * zlen items <= zlen items * ks.
Proof.
  intros H. pose proof (dh_space _ _ _ _ H) as Hs. pose proof (dh_size _ _ _ _ H) as Hk. rewrite (dh_body _ _ _ _ H) in *.
  rewrite zlen_app, (zlen_mjoin ks) in * by apply (dh_items _ _ _ _ H). zlen_pos. nia.
Qed.

Lemma node_add_dupfix_spec mc a b rest key : dupfix_holds (mc_pg mc) (mc_dupfix_size mc) (a ++ b) rest ->
  val_ok key -> iov_len key = mc_dupfix_size mc ->
  if zlen rest <? mc_dupfix_size mc then
    node_add_dupfix mc (zlen a) key = Some (MDBX_PAGE_FULL, txn_error mc)
  else exists mp' rest', node_add_dupfix mc (zlen a) key = Some (MDBX_SUCCESS, with_pg mc mp') /\
    dupfix_holds mp' (mc_dupfix_size mc) (a ++ val_bytes key :: b) rest'.
Proof.
  intros H Hv Hks. pose proof (dupfix_bounds _ _ _ _ H) as (Eb & Hb0 & Hn & Hkn & H2n). pose proof (dh_size _ _ _ _ H) as Hk2.
  pose proof (dh_lower _ _ _ _ H) as Hlo. pose proof (dh_upper _ _ _ _ H) as Hup. pose proof (dh_space _ _ _ _ H) as Hsp.
  pose proof (dh_items _ _ _ _ H) as Hit. apply Forall_app in Hit as [Hia Hib].
  set (ks := mc_dupfix_size mc) in *. unfold node_add_dupfix, sizeof_indx. fold ks.
  pose proof (zlen_nonneg rest). pose proof (zlen_nonneg a). pose proof (zlen_nonneg b).
  assert (pg_upper (mc_pg mc) - pg_lower (mc_pg mc) = zlen rest) as Hroom by lia.
  assert (0 <= pg_upper (mc_pg mc) < 65536) as Hur by lia.
  destruct (Z.ltb_spec (zlen rest) ks).
  - destruct (Z.ltb_spec (i64 (pg_upper (mc_pg mc) - (ks - 2))) (pg_lower (mc_pg mc) + 2)) as [|Hge]; [done|].
    assert (ks < 2 ^ 31) by (rewrite <- Hks; apply (val_len key Hv)). unfold i64 in Hge. rewrite signed_small in Hge by lia. lia.
  - unfold i64. rewrite signed_small by lia. destruct (Z.ltb_spec (pg_upper (mc_pg mc) - (ks - 2)) (pg_lower (mc_pg mc) + 2)); [lia|].
    rewrite (dupfix_numkeys _ _ _ _ H). unfold page_dupfix_ptr. cbn [with_bounds pg_dupfix_ksize pg_body].
    rewrite (dh_ksize _ _ _ _ H), (dh_body _ _ _ _ H). rewrite zlen_app in *.
    unfold u16. rewrite !wrap_small by lia. unfold u64. rewrite wrap_small by lia.
    replace (zlen a + zlen b - zlen a) with (zlen b) by lia.
    destruct (zsplit rest ks) as (r1 & r2 & -> & Hr1); [lia|]. rewrite zlen_app in *.
    assert (ks * zlen a = zlen (mjoin a)) as -> by (rewrite (zlen_mjoin ks) by done; lia).
    assert (zlen b * ks = zlen (mjoin b)) as Ejb by (rewrite (zlen_mjoin ks) by done; lia). rewrite Ejb.
    rewrite join_app, <- app_assoc.
    assert ((if 0 <? zlen b then blit (mjoin a ++ mjoin b ++ r1 ++ r2) (zlen (mjoin a)) (mjoin a ++ mjoin b ++ r1 ++ r2) (zlen (mjoin a) + ks) (zlen (mjoin b))
      else Some (mjoin a ++ mjoin b ++ r1 ++ r2)) = Some (mjoin a ++ take (length r1) (mjoin b ++ r1) ++ mjoin b ++ r2)) as ->.
    { destruct (Z.ltb_spec 0 (zlen b)) as [|Hb]; [by apply blit_shift|].
      assert (b = []) as -> by (apply zlen_0_nil; lia). change (mjoin []) with (@nil Z). cbn [app]. by rewrite take_ge. }
    cbn [mbind option_bind]. rewrite <- Hks.
    rewrite blit_val; [|done|done|unfold zlen in *; rewrite length_take, length_app; lia].
    cbn [mbind option_bind]. rewrite Hks. eexists _, r2. split; [done|]. pose proof (val_len_bytes key Hv) as Lk.
    assert (zlen (mjoin a ++ val_bytes key ++ mjoin b ++ r2) = zlen (pg_body (mc_pg mc))) as El by (rewrite !zlen_app, (zlen_mjoin ks), (zlen_mjoin ks) by done; lia).
    split; cbn [with_body with_bounds pg_body pg_lower pg_upper pg_dupfix_ksize]; [|apply (dh_ksize _ _ _ _ H)|done| | |rewrite El|rewrite El; done].
    + rewrite join_app. change (mjoin (val_bytes key :: b)) with (val_bytes key ++ mjoin b). by rewrite <- !app_assoc.
    + apply Forall_app. split; [done|]. by constructor; [rewrite Lk|].
    + zlia.
    + rewrite zlen_app, zlen_cons. lia.
Qed.

Lemma blit_down {A} (p x y q : list A) n k : n = zlen p -> k = zlen x -> exists r, zlen r = k + zlen q /\
  blit (p ++ x ++ y ++ q) (n + k) (p ++ x ++ y ++ q) n (zlen y) = Some (p ++ y ++ r).
Proof.
  intros -> ->. destruct (zsplit (x ++ y) (zlen y)) as (u & v & E & Lu); [zlia|].
  assert (zlen v = zlen x) as Lv by (apply (f_equal zlen) in E; zlia).
  exists (v ++ q). split; [zlia|].
  pose proof (blit_split p u (v ++ q) (p ++ x) y q (zlen p + zlen x) (zlen p) (zlen y)) as Hb.
  rewrite <- !app_assoc in Hb. rewrite (app_assoc u v q), <- E, <- app_assoc in Hb. apply Hb; done || zlia.
Qed.

Lemma node_del_dupfix_spec uok mc a x b rest : dupfix_holds (mc_pg mc) (mc_dupfix_size mc) (a ++ x :: b) rest ->
  mc_ki mc = zlen a -> is_dupfix_leaf (mc_pg mc) = true ->
  exists mp' rest', node_del uok mc (mc_dupfix_size mc) = Some (with_pg mc mp') /\
    dupfix_holds mp' (mc_dupfix_size mc) (a ++ b) rest'.
Proof.
  intros H Hki Hdf. pose proof (dupfix_bounds _ _ _ _ H) as (Eb & Hb0 & Hn & Hkn & H2n). pose proof (dh_size _ _ _ _ H) as Hk2.
  pose proof (dh_lower _ _ _ _ H) as Hlo. pose proof (dh_upper _ _ _ _ H) as Hup. pose proof (dh_space _ _ _ _ H) as Hsp.
  pose proof (dh_items _ _ _ _ H) as Hit. apply Forall_app in Hit as [Hia Hib]. inversion Hib as [|?? Hx Hib']; subst.
  unfold node_del. rewrite Hdf, Hki. set (ks := mc_dupfix_size mc) in *. unfold sizeof_indx. cbn [fst] in Hx.
  rewrite (dupfix_numkeys _ _ _ _ H). unfold page_dupfix_ptr. rewrite (dh_ksize _ _ _ _ H), (dh_body _ _ _ _ H).
  rewrite zlen_app, zlen_cons in *. pose proof (zlen_nonneg rest). pose proof (zlen_nonneg a). pose proof (zlen_nonneg b).
  replace (u16 (zlen a)) with (zlen a) by (unfold u16; rewrite wrap_small; lia). unfold u64. rewrite wrap_small by lia.
  replace (zlen a + (zlen b + 1) - 1 - zlen a) with (zlen b) by lia.
  assert (zlen (mjoin a) = ks * zlen a) as Eja by (rewrite (zlen_mjoin ks) by done; lia).
  assert (zlen (mjoin b) = zlen b * ks) as Ejb by (rewrite (zlen_mjoin ks) by done; lia). rewrite <- Eja, <- Ejb.
  rewrite join_app. change (mjoin (x :: b)) with (x ++ mjoin b). rewrite <- !app_assoc.
  destruct (blit_down (mjoin a) x (mjoin b) rest (zlen (mjoin a)) ks eq_refl ltac:(done)) as (r & Lr & Er).
  assert (exists r, zlen r = ks + zlen rest /\ (if negb (zlen b =? 0) then
      blit (mjoin a ++ x ++ mjoin b ++ rest) (zlen (mjoin a) + ks) (mjoin a ++ x ++ mjoin b ++ rest) (zlen (mjoin a)) (zlen (mjoin b))
    else Some (mjoin a ++ x ++ mjoin b ++ rest)) = Some (mjoin a ++ mjoin b ++ r)) as (r' & Lr' & ->).
  { destruct (Z.eqb_spec (zlen b) 0) as [E0|E0]; cbn [negb]; [|by exists r].
    exists (x ++ rest). split; [zlia|]. assert (b = []) as -> by by apply zlen_0_nil. done. }
  cbn [mbind option_bind]. eexists _, r'. split; [done|].
  assert (zlen (mjoin a ++ mjoin b ++ r') = zlen (pg_body (mc_pg mc))) as El by (rewrite !zlen_app, Eja, Ejb; lia).
  split; cbn [with_body with_bounds pg_body pg_lower pg_upper pg_dupfix_ksize]; [|apply (dh_ksize _ _ _ _ H)|done| | | |rewrite El; done].
  - by rewrite join_app, <- app_assoc.
  - by apply Forall_app.
  - unfold u16. rewrite wrap_small by lia. zlia.
  - rewrite El, zlen_app. unfold u16. rewrite (wrap_small 16 (ks - 2)) by nia. rewrite wrap_small by nia. lia.
Qed.

(** The page is full: [node_add_leaf] finds it out after it has moved the
    entries, so that one entry is doubled and the last one lost. *)
Lemma node_put_full uok mc a s b free heap key data flags largepage node_bytes :
  page_holds (mc_pg mc) (a ++ s :: b) free heap -> 2 <= zlen free < node_bytes -> node_bytes < 2 ^ 31 ->
  exists body, node_put_leaf uok mc (zlen a) key data flags largepage node_bytes =
      Some (MDBX_PAGE_FULL, mk_added (txn_error (with_pg mc (with_body (mc_pg mc) body))) largepage NotReserved) /\
    (exists rest, body = words16 (a ++ s :: s :: b).*1 ++ rest).
Proof.
  intros H Hf Hn. pose proof (upper_range _ _ _ _ H) as Hur. pose proof (ph_lower _ _ _ _ H) as Hlo. pose proof (ph_upper _ _ _ _ H) as Hup.
  destruct (free_word free) as (y & free' & -> & Hl & _); [apply (ph_free _ _ _ _ H)|lia|].
  unfold node_put_leaf, node_put_header. rewrite (page_numkeys_holds _ _ _ _ H), (ph_body _ _ _ _ H).
  replace (words16 (a ++ s :: b).*1 ++ (words16 [y] ++ free') ++ heap) with (words16 (a.*1 ++ (s :: b).*1 ++ [y]) ++ (free' ++ heap))
    by (rewrite fmap_app, !words16_app, <- !app_assoc; done).
  pose proof (entries_u16 _ _ _ _ H) as Hu. rewrite fmap_app in Hu. apply Forall_app in Hu as [_ Hu].
  pose proof (entries_up_spec (s :: b).*1 a.*1 y (free' ++ heap) Hu) as He. rewrite <- zlen_app, <- fmap_app, !zlen_fmap in He.
  replace (Z.to_nat (zlen (a ++ s :: b) - zlen a)) with (length (s :: b).*1) by (rewrite length_fmap; unfold zlen; rewrite length_app; lia).
  rewrite He. cbn [mbind option_bind]. unfold sizeof_indx, i64. rewrite signed_small by lia.
  destruct (Z.ltb_spec (pg_upper (mc_pg mc) - (node_bytes - 2)) (pg_lower (mc_pg mc) + 2)); [|lia].
  cbn [mbind option_bind]. eexists. split; [done|]. exists (free' ++ heap). f_equal. f_equal. by rewrite fmap_app.
Qed.

(** ** The operations on the sequence of nodes *)

Lemma room_free mp es free heap : page_holds mp es free heap -> page_room mp = zlen free.
Proof.
  intros H. unfold page_room. pose proof (upper_range _ _ _ _ H). rewrite (ph_lower _ _ _ _ H), (ph_upper _ _ _ _ H).
  rewrite u64_small; zlia || (unfold UINT64_MAX; pose proof (ph_upper _ _ _ _ H); zlia).
Qed.

Lemma page_nodes_split mp ns ms : page_nodes mp (ns ++ ms) ->
  exists a b free heap, page_holds mp (a ++ b) free heap /\ ns = a.*2 /\ ms = b.*2 /\ page_room mp = zlen free.
Proof.
  intros (es & free & heap & H & E). symmetry in E. apply fmap_app_inv in E as (a & b & -> & -> & ->).
  exists a, b, free, heap. by rewrite (room_free _ _ _ _ H).
Qed.

(** The node was inserted between [ns] and [ms] and took its bytes. *)
Definition node_inserted (mp mp' : page) (ns : list anode) (n : anode) (ms : list anode) : Prop :=
page_nodes mp' (ns ++ n :: ms) /\ page_room mp' = page_room mp - (sizeof_indx + foot n) /\
pg_flags mp' = pg_flags mp /\ pg_pgno mp' = pg_pgno mp.

Lemma inserted_nodes mp mp' a b n free heap : page_holds mp (a ++ b) free heap -> inserted mp mp' a b n ->
  node_inserted mp mp' a.*2 n b.*2.
Proof.
  intros H (gap & heap' & H' & El & Eu & _ & _ & Ef & Ep). split_and!; [|..|done|done].
  - exists (a ++ (pg_upper mp - foot n, n) :: b), gap, heap'. split; [done|]. by rewrite fmap_app.
  - rewrite (room_free _ _ _ _ H'), (room_free _ _ _ _ H). unfold sizeof_indx.
    pose proof (ph_upper _ _ _ _ H). pose proof (ph_upper _ _ _ _ H'). zlia.
Qed.

(** Moving entries stays inside of the page as long as its body is long enough. *)
Lemma entries_up_total : forall (k : nat) m i, Z.of_nat k <= i -> 2 * i + 2 <= zlen m \/ k = 0%nat ->
  exists m', entries_up k m i (i - Z.of_nat k) = Some m'.
Proof.
  induction k as [|k IH]; intros m i Hk Hm; cbn [entries_up]; [destruct (Z.ltb_spec (i - Z.of_nat 0) i); [lia|by eexists]|].
  destruct Hm as [Hm|]; [|done]. destruct (Z.ltb_spec (i - Z.of_nat (S k)) i); [|by eexists].
  unfold entry_get, entry_set. assert (exists e, load 2 m (2 * (i - 1)) = Some e) as [e ->].
  { unfold load. destruct (Z.leb_spec 0 (2 * (i - 1))), (Z.leb_spec (2 * (i - 1) + 2) (zlen m)); [by eexists|lia..]. }
  cbn [mbind option_bind]. destruct (access_cases 2 m (2 * i)) as [|(a & b & c & -> & Ea & Eb)]; [lia|lia|].
  rewrite Ea, store_mid by done. cbn [mbind option_bind]. replace (i - Z.of_nat (S k)) with (i - 1 - Z.of_nat k) by lia.
  apply IH; [lia|left]. rewrite !zlen_app, zlen_le_encode in *. lia.
Qed.

(** A leaf node that does not fit. *)
Lemma node_put_no_room uok mc a b free heap key data flags largepage F :
  page_holds (mc_pg mc) (a ++ b) free heap -> zlen free < 2 + F -> 0 <= F < 2 ^ 40 ->
  exists body, node_put_leaf uok mc (zlen a) key data flags largepage (F + 2) =
    Some (MDBX_PAGE_FULL, mk_added (txn_error (with_pg mc (with_body (mc_pg mc) body))) largepage NotReserved).
Proof.
  intros H Hf Hn. pose proof (upper_range _ _ _ _ H) as Hur. pose proof (ph_lower _ _ _ _ H) as Hlo. pose proof (ph_upper _ _ _ _ H) as Hup.
  unfold node_put_leaf, node_put_header. rewrite (page_numkeys_holds _ _ _ _ H).
  pose proof (zlen_nonneg a). pose proof (zlen_nonneg b). destruct (entries_up_total (length b) (pg_body (mc_pg mc)) (zlen (a ++ b))) as [m Em].
  { rewrite zlen_app. unfold zlen. lia. }
  { destruct b as [|s b]; [by right|left]. destruct (slot_range _ _ _ _ s H) as (Hs & Hs2 & _); [apply elem_of_app; right; left|].
    pose proof (foot_image s.2). pose proof (zlen_node_image s.2). pose proof (zlen_nonneg (an_key s.2)). pose proof (zlen_nonneg (an_data s.2)). lia. }
  replace (zlen (a ++ b) - Z.of_nat (length b)) with (zlen a) in Em by (rewrite zlen_app; unfold zlen; lia).
  replace (Z.to_nat (zlen (a ++ b) - zlen a)) with (length b) by (rewrite zlen_app; unfold zlen; lia).
  rewrite Em. cbn [mbind option_bind]. unfold sizeof_indx, i64. rewrite signed_small by lia.
  destruct (Z.ltb_spec (pg_upper (mc_pg mc) - (F + 2 - 2)) (pg_lower (mc_pg mc) + 2)); [|lia]. cbn [mbind option_bind]. by eexists.
Qed.

(** The answer of [node_add_leaf] for a node with [dl] bytes of data in the page:
    inserted, or without room. *)
Definition leaf_added (uok : Z) (page_new_large : new_large) (mc : ncursor) (ns ms : list anode) (key data : MDBX_val) (flags fl : Z)
  (largepage : option (Z * bytes)) (dl : Z) : Prop :=
let node d := mk_anode (iov_len data) (u8 fl) 0 (val_bytes key) d in
if sizeof_indx + (NODESIZE + even_up (iov_len key + dl)) <=? page_room (mc_pg mc) then
  exists mp' large at_ d, node_add_leaf uok page_new_large mc (zlen ns) key data flags = Some (MDBX_SUCCESS, mk_added (with_pg mc mp') large at_) /\
    node_inserted (mc_pg mc) mp' ns (node d) ms /\ leaf_stored key data fl largepage mp' large at_ d
else exists body, node_add_leaf uok page_new_large mc (zlen ns) key data flags =
  Some (MDBX_PAGE_FULL, mk_added (txn_error (with_pg mc (with_body (mc_pg mc) body))) largepage NotReserved).

(** What the caller must provide of the data. *)
Definition data_there (data : MDBX_val) (flags : Z) : Prop :=
0 <= iov_len data < 2 ^ 31 /\
if has flags N_BIG then val_ok (mk_val (iov_mem data) (iov_base data) 4) else has flags MDBX_RESERVE = false -> val_ok data.

Lemma leaf_put_added uok page_new_large mc ns ms key data flags fl largepage dl :
  page_nodes (mc_pg mc) (ns ++ ms) -> val_ok key -> iov_len key < 65536 -> 0 <= iov_len data < 2 ^ 31 -> 0 <= dl < 2 ^ 31 ->
  match largepage with
  | None =>
    if has fl N_BIG then dl = 4 /\ val_ok (mk_val (iov_mem data) (iov_base data) 4)
    else dl = iov_len data /\ (has fl MDBX_RESERVE = false -> val_ok data)
  | Some (lpgno, payload) =>
    dl = 4 /\ 0 <= lpgno < 2 ^ 32 /\ (has fl MDBX_RESERVE = false -> val_ok data /\ iov_len data <= zlen payload)
  end ->
  node_add_leaf uok page_new_large mc (zlen ns) key data flags =
    node_put_leaf uok mc (zlen ns) key data fl largepage (NODESIZE + even_up (iov_len key + dl) + 2) ->
  leaf_added uok page_new_large mc ns ms key data flags fl largepage dl.
Proof.
  intros (a & b & free & heap & H & -> & -> & Hr)%page_nodes_split Hk Hkl HD Hdl Hdata E.
  unfold leaf_added, sizeof_indx. rewrite E, Hr, zlen_fmap. pose proof (val_len key Hk) as HK.
  assert (0 <= even_up (iov_len key + dl) <= iov_len key + dl + 1) as He by (unfold even_up; Z.div_mod_to_equations; lia).
  destruct (Z.leb_spec (2 + (NODESIZE + even_up (iov_len key + dl))) (zlen free)) as [Hf|Hf].
  - destruct (node_put_leaf_spec uok mc a b free heap key data fl largepage dl H Hk Hkl HD Hdl Hf Hdata) as (mp' & large & at_ & d & E' & Hi & _ & Hs).
    exists mp', large, at_, d. split; [done|]. split; [|done]. by apply (inserted_nodes _ _ _ _ _ _ _ H).
  - apply (node_put_no_room uok mc a b free heap); [done|done|unfold NODESIZE in *; lia].
Qed.

(** C7: adding a node is insertion into the sequence of the page's nodes at the
    index given, for branch nodes with or without a key and for leaf nodes, whose
    data is copied into the page, or left out as space reserved for the caller, or
    is the number of a large page: one that exists already or, when the node would
    be too big, a new one, which gets the data or is reserved. The page keeps its
    invariant (the nodes are intact, do not overlap and leave no gaps) and loses
    exactly the bytes of the node and of its entry. A node that does not fit is
    answered with [MDBX_PAGE_FULL] and the transaction is marked as failed: a branch
    page stays as it was, a leaf page need not (C28). Too big a node is refused
    without any change in a table with duplicates or for the root of a nested tree
    or page, or when no large page can be had. *)
Theorem node_add_inserts uok page_new_large mc ns ms bkey key data flags pgno :
  page_nodes (mc_pg mc) (ns ++ ms) -> opt_ok bkey -> zlen (opt_bytes bkey) < 65536 -> 0 <= pgno < 2 ^ 32 ->
  val_ok key -> iov_len key < 65536 -> data_there data flags ->
  let branch := mk_anode pgno 0 0 (opt_bytes bkey) [] in
  let added fl largepage dl := leaf_added uok page_new_large mc ns ms key data flags fl largepage dl in
  let refused err := node_add_leaf uok page_new_large mc (zlen ns) key data flags = Some (err, mk_added mc None NotReserved) in
  (foot branch <= env_branch_nodemax (mc_env mc) ->
   if sizeof_indx + foot branch <=? page_room (mc_pg mc) then
     exists mp', node_add_branch uok mc (zlen ns) bkey pgno = Some (MDBX_SUCCESS, with_pg mc mp') /\ node_inserted (mc_pg mc) mp' ns branch ms
   else node_add_branch uok mc (zlen ns) bkey pgno = Some (MDBX_PAGE_FULL, txn_error mc)) /\
  if has flags N_BIG then added flags None 4
  else if node_size (Some key) (Some data) <=? env_leaf_nodemax (mc_env mc) then added flags None (iov_len data)
  else if has (mc_tree_flags mc) MDBX_DUPSORT || has flags (Z.lor N_DUP N_TREE) then refused MDBX_PROBLEM
  else match page_new_large (largechunk_npages (mc_env mc) (iov_len data)) with
  | inl err => refused err
  | inr (lpgno, payload) =>
    0 <= lpgno < 2 ^ 32 -> (has flags MDBX_RESERVE = false -> iov_len data <= zlen payload) ->
    added (Z.lor flags N_BIG) (Some (lpgno, payload)) 4
  end.
Proof.
  intros Hns Hbk Hbkl Hpg Hk Hkl [HD Hdata] branch added refused. pose proof (val_len key Hk) as HK. pose proof (val_len_bytes key Hk) as Ek. split.
  { destruct (page_nodes_split _ _ _ Hns) as (a & b & free & heap & H & -> & -> & Hr). intros Hmax. rewrite Hr, zlen_fmap. unfold sizeof_indx.
    pose proof (node_add_branch_spec uok mc a b free heap bkey pgno H Hbk Hbkl Hpg Hmax) as Hs. fold branch in Hs.
    rewrite Z.leb_antisym. destruct (zlen free <? 2 + foot branch); cbn [negb]; [done|].
    destruct Hs as (mp' & E & Hi). exists mp'. split; [done|]. by apply (inserted_nodes _ _ _ _ _ _ _ H). }
  assert (node_size_len (iov_len key) 0 + sizeof_pgno + sizeof_indx = NODESIZE + even_up (iov_len key + 4) + 2) as E4.
  { unfold node_size_len, sizeof_pgno, sizeof_indx, NODESIZE. rewrite EVEN_CEIL_even_up by lia. unfold even_up. Z.div_mod_to_equations. lia. }
  destruct (has flags N_BIG) eqn:Hbig.
  { apply leaf_put_added; [done..|by rewrite Hbig|]. unfold node_add_leaf. by rewrite Hbig, E4. }
  destruct (Z.leb_spec (node_size (Some key) (Some data)) (env_leaf_nodemax (mc_env mc))) as [Hmax|Hmax].
  { apply leaf_put_added; [done..|by rewrite Hbig|]. unfold node_add_leaf. rewrite Hbig, (proj2 (Z.ltb_ge _ _) Hmax). f_equal.
    unfold node_size, node_size_len, sizeof_indx, NODESIZE. cbn [opt_len]. rewrite EVEN_CEIL_even_up by lia. unfold even_up. Z.div_mod_to_equations. lia. }
  subst refused. unfold node_add_leaf. rewrite Hbig, (proj2 (Z.ltb_lt _ _) Hmax).
  destruct (has (mc_tree_flags mc) MDBX_DUPSORT) eqn:Hds, (has flags (Z.lor N_DUP N_TREE)) eqn:Hdt; cbn [orb]; try done.
  destruct (page_new_large _) as [err|[lpgno payload]] eqn:Enew; [done|]. intros Hlp Hpay.
  assert (has (Z.lor flags N_BIG) MDBX_RESERVE = has flags MDBX_RESERVE) as Hres by (unfold has; by rewrite Z.land_lor_distr_l, Z.lor_0_r).
  apply leaf_put_added; [done..|rewrite Hres; split_and!; [done|lia|lia|auto]|].
  unfold node_add_leaf. by rewrite Hbig, (proj2 (Z.ltb_lt _ _) Hmax), Hds, Hdt, Enew, E4.
Qed.

(** An empty page of 64 bytes behind the header. *)
Definition empty_page (flags : Z) : page := mk_page 1 0 flags 0 64 7 (replicate 64 0).
Definition sample_mc (mp : page) (ki : Z) : ncursor := mk_nc mp ki 0 4 0 (mk_env 4096 12 30 30).

Lemma empty_page_nodes flags : page_nodes (empty_page flags) [].
Proof.
  exists [], (replicate 64 0), []. split; [|done]. split; try done.
  by apply bytes_check.
Qed.

Lemma node_add_inserts_witness :
  (exists mp' large at_ d, node_add_leaf 0 (fun _ => inl MDBX_ENOMEM) (sample_mc (empty_page P_LEAF) 0) 0 (sample_val [1; 2; 3]) (sample_val [4; 5]) 0 =
    Some (MDBX_SUCCESS, mk_added (with_pg (sample_mc (empty_page P_LEAF) 0) mp') large at_) /\
    node_inserted (empty_page P_LEAF) mp' [] (mk_anode 2 0 0 [1; 2; 3] d) [] /\ d = [4; 5]) /\
  (exists mp', node_add_branch 0 (sample_mc (empty_page P_BRANCH) 0) 0 None 5 = Some (MDBX_SUCCESS, with_pg (sample_mc (empty_page P_BRANCH) 0) mp') /\
    node_inserted (empty_page P_BRANCH) mp' [] (mk_anode 5 0 0 [] []) []).
Proof.
  split.
  - destruct (node_add_inserts 0 (fun _ => inl MDBX_ENOMEM) (sample_mc (empty_page P_LEAF) 0) [] [] None (sample_val [1; 2; 3]) (sample_val [4; 5]) 0 5)
      as [_ H]; [apply empty_page_nodes|done|done|done|by apply sample_val_ok|done|split; [done|by intros _; apply sample_val_ok]|].
    destruct H as (mp' & large & at_ & d & E & Hi & _ & Hd & _). exists mp', large, at_, d. done.
  - destruct (node_add_inserts 0 (fun _ => inl MDBX_ENOMEM) (sample_mc (empty_page P_BRANCH) 0) [] [] None (sample_val [1; 2; 3]) (sample_val [4; 5]) 0 5)
      as [H _]; [apply empty_page_nodes|done|done|done|by apply sample_val_ok|done|split; [done|by intros _; apply sample_val_ok]|].
    apply H. by vm_compute.
Defined.

(** The node was removed between [ns] and [ms] and its bytes are free again. *)
Definition node_removed (mp mp' : page) (ns : list anode) (n : anode) (ms : list anode) : Prop :=
page_nodes mp' (ns ++ ms) /\ page_room mp' = page_room mp + (sizeof_indx + foot n) /\
pg_flags mp' = pg_flags mp /\ pg_pgno mp' = pg_pgno mp.

(** C8: [node_del] removes exactly the node at the cursor's index: the others
    keep their order and their contents although entries and nodes are moved
    over each other inside of the page, and the space of the node and of its
    entry becomes free. On a page of fixed-size items it removes the item. *)
Theorem node_del_removes uok mc ksize ns n ms :
  mc_ki mc = zlen ns ->
  (page_nodes (mc_pg mc) (ns ++ n :: ms) -> is_dupfix_leaf (mc_pg mc) = false -> kind_ok (is_leaf (mc_pg mc)) n ->
   exists mp', node_del uok mc ksize = Some (with_pg mc mp') /\ node_removed (mc_pg mc) mp' ns n ms) /\
  (forall a x b rest, dupfix_holds (mc_pg mc) (mc_dupfix_size mc) (a ++ x :: b) rest -> zlen a = zlen ns ->
   is_dupfix_leaf (mc_pg mc) = true ->
   exists mp' rest', node_del uok mc (mc_dupfix_size mc) = Some (with_pg mc mp') /\
     dupfix_holds mp' (mc_dupfix_size mc) (a ++ b) rest').
Proof.
  intros Hki. split.
  - intros (a & b' & free & heap & H & Ens & Ems & Hr)%page_nodes_split Hdf Hkind.
    symmetry in Ems. apply fmap_cons_inv in Ems as ([o n'] & b & En & Ems & ->). cbn [snd] in En. subst n' ns ms.
    rewrite zlen_fmap in Hki.
    destruct (node_del_spec uok mc ksize a b o n free heap H Hki Hdf Hkind) as (free' & heap' & body & E & H').
    eexists. split; [done|]. split_and!; [|..|done|done].
    + exists (closed o n <$> a ++ b), free', heap'. split; [done|]. rewrite fmap_app, fmap_app, <- !list_fmap_compose. done.
    + rewrite (room_free _ _ _ _ H'), (room_free _ _ _ _ H). pose proof (ph_upper _ _ _ _ H') as Hu'. pose proof (ph_upper _ _ _ _ H).
      cbn [with_bounds with_body pg_upper] in Hu'. unfold sizeof_indx. zlia.
  - intros a x b rest H Hl Hdf. apply (node_del_dupfix_spec uok mc a x b rest); done || lia.
Qed.

Definition sample_node : anode := mk_anode 1 0 0 [7] [9].
Definition sample_page : page := mk_page 1 0 P_LEAF 2 54 7 (words16 [54] ++ replicate 52 0 ++ node_image sample_node).

Lemma sample_page_nodes : page_nodes sample_page [sample_node].
Proof.
  exists [(54, sample_node)], (replicate 52 0), (node_image sample_node). split; [|done]. split; try done.
  - by apply bytes_check.
  - by apply bytes_check.
  - constructor; [|constructor]. split_and!; [done|by split; try apply bytes_check|].
    exists [], [], []. done.
Qed.

Lemma node_del_removes_witness :
  exists mp', node_del 0 (sample_mc sample_page 0) 0 = Some (with_pg (sample_mc sample_page 0) mp') /\
    node_removed sample_page mp' [] sample_node [].
Proof.
  destruct (node_del_removes 0 (sample_mc sample_page 0) 0 [] sample_node [] eq_refl) as [H _].
  apply H; [apply sample_page_nodes|done|done].
Defined.

(** C28: a page without room. [node_add_branch] and [node_add_dupfix] answer
    [MDBX_PAGE_FULL], mark the transaction as failed and leave the page alone.
    [node_add_leaf] answers the same, but it has already moved the entries of
    the page: the entry at the index is there twice and the last one is lost,
    so the page must not be used any more. *)
Theorem node_add_page_full uok page_new_large mc ns s ms free heap key data flags :
  page_holds (mc_pg mc) (ns ++ s :: ms) free heap -> val_ok key -> iov_len key < 65536 -> val_ok data -> has flags N_BIG = false ->
  node_size (Some key) (Some data) <= env_leaf_nodemax (mc_env mc) -> env_leaf_nodemax (mc_env mc) < 65536 ->
  2 <= page_room (mc_pg mc) < sizeof_indx + node_size (Some key) (Some data) ->
  exists body rest, node_add_leaf uok page_new_large mc (zlen ns) key data flags =
      Some (MDBX_PAGE_FULL, mk_added (txn_error (with_pg mc (with_body (mc_pg mc) body))) None NotReserved) /\
    body = words16 (ns ++ s :: s :: ms).*1 ++ rest /\
    (forall pgno, 0 <= pgno < 2 ^ 32 -> node_size (Some key) None <= env_branch_nodemax (mc_env mc) ->
      page_room (mc_pg mc) < sizeof_indx + node_size (Some key) None ->
      node_add_branch uok mc (zlen ns) (Some key) pgno = Some (MDBX_PAGE_FULL, txn_error mc)) /\
    (forall mc' a b r, dupfix_holds (mc_pg mc') (mc_dupfix_size mc') (a ++ b) r -> iov_len key = mc_dupfix_size mc' ->
      zlen r < mc_dupfix_size mc' -> node_add_dupfix mc' (zlen a) key = Some (MDBX_PAGE_FULL, txn_error mc')).
Proof.
  intros H Hk Hkl Hd Hbig Hmax Hlim Hroom. pose proof (val_len key Hk) as HK. pose proof (val_len_bytes key Hk) as Ek.
  rewrite (room_free _ _ _ _ H) in *. unfold sizeof_indx in *.
  destruct (node_put_full uok mc ns s ms free heap key data flags None (node_size (Some key) (Some data) + 2) H ltac:(lia) ltac:(lia)) as (body & E & rest & ->).
  eexists _, rest. split_and!; [|done|..].
  - unfold node_add_leaf. rewrite Hbig. destruct (Z.ltb_spec (env_leaf_nodemax (mc_env mc)) (node_size (Some key) (Some data))); [lia|]. exact E.
  - intros pgno Hpg Hbm Hbr. set (n := mk_anode pgno 0 0 (val_bytes key) []).
    assert (node_size (Some key) None = foot n) as Esz by (apply node_size_foot; cbn; done || lia).
    pose proof (node_add_branch_spec uok mc ns (s :: ms) free heap (Some key) pgno H Hk ltac:(cbn; lia) Hpg) as Hs. cbn [opt_bytes] in Hs.
    fold n in Hs. specialize (Hs ltac:(lia)). destruct (Z.ltb_spec (zlen free) (2 + foot n)); [done|lia].
  - intros mc' a b r Hd' Hks Hr. pose proof (node_add_dupfix_spec mc' a b r key Hd' Hk Hks) as Hs.
    destruct (Z.ltb_spec (zlen r) (mc_dupfix_size mc')); [done|lia].
Qed.

(** A page with one node of 40 bytes in the place of the free space of [sample_page]. *)
Definition tight_node : anode := mk_anode 31 0 0 [7] (replicate 31 1).
Definition tight_page : page := mk_page 1 0 P_LEAF 2 24 7 (words16 [24] ++ replicate 22 0 ++ node_image tight_node).

Lemma tight_page_holds : page_holds tight_page [(24, tight_node)] (replicate 22 0) (node_image tight_node).
Proof.
  split; try done.
  - by apply bytes_check.
  - by apply bytes_check.
  - constructor; [|constructor]. split_and!; [done|by split; try apply bytes_check|].
    exists [], [], []. done.
Qed.

Lemma node_add_page_full_witness :
  exists body rest, node_add_leaf 0 (fun _ => inl MDBX_ENOMEM) (sample_mc tight_page 0) 0 (sample_val (replicate 10 3)) (sample_val (replicate 8 4)) 0 =
      Some (MDBX_PAGE_FULL, mk_added (txn_error (with_pg (sample_mc tight_page 0) (with_body tight_page body))) None NotReserved) /\
    body = words16 [24; 24] ++ rest.
Proof.
  destruct (node_add_page_full 0 (fun _ => inl MDBX_ENOMEM) (sample_mc tight_page 0) [] (24, tight_node) [] (replicate 22 0) (node_image tight_node)
    (sample_val (replicate 10 3)) (sample_val (replicate 8 4)) 0) as (body & rest & E & Eb & _);
    [apply tight_page_holds|by apply sample_val_ok|done|by apply sample_val_ok|done|by vm_compute|done|by vm_compute|].
  exists body, rest. done.
Defined.
