(* ===== verification/TreeSearch.v ===== *)
(** * Search inside of a page ([src/src/tree-search.c])

    The branchless binary search of [SEARCH_FOLIAGE] and [SEARCH_BRANCH], the
    plain one it replaced ([old_node_search]), which the code keeps for
    cross-checks, and the choice of a variant by the comparator of the table.
    The steps of a search are counted as [MDBX_CURSOR_STC_INC] does. *)

From stdpp Require Import base numbers option sorting list.
From Stdlib Require Import ZArith Lia.
From S2P Require Import Prelude Bits Alloc Pnl Bytes Cmp Page Node NodeProofs.

(** ** The loops

    [cmp_at i] compares the key at index [i] with the key searched for. *)

(** The end of a branchless search: was the key found, the index [it], the
    lower bound [lo], the number of steps. *)
Record found_at : Type := mk_found { fa_exact : bool; fa_it : Z; fa_lo : Z; fa_steps : Z }.

Fixpoint branchless_search (fuel : nat) (cmp_at : Z -> option Z) (lo scope steps : Z) : option found_at :=
match fuel with
| O => None
| S fuel =>
  let steps := steps + 1 in
  let adjust := scope - 1 in
  let half := Z.shiftr adjust 1 in
  let adjust := Z.land adjust 1 in
  let it := lo + half in
  cmp ← cmp_at it;
  if cmp =? 0 then Some (mk_found true it lo steps)
  else
    let cmp := Z.shiftr cmp 63 in
    let lo := lo + Z.land (half + 1) cmp in
    let scope := half + Z.land cmp adjust in
    if 0 <? scope then branchless_search fuel cmp_at lo scope steps
    else Some (mk_found false (it + Z.land cmp 1) lo steps)
end.

(** [old_node_search]: [cmp_at i] compares the key searched for with the key
    at index [i]. The replacement of the comparator for 8-byte keys on 4-byte
    boundaries by one that gives the same result is left out. *)
Fixpoint old_search (fuel : nat) (cmp_at : Z -> option Z) (lo hi steps : Z) : option (bool * Z * Z) :=
match fuel with
| O => None
| S fuel =>
  let steps := steps + 1 in
  let i := Z.shiftr (lo + hi) 1 in
  cmp ← cmp_at i;
  if 0 <? cmp then
    let i := i + 1 in
    let lo := i in
    if lo <=? hi then old_search fuel cmp_at lo hi steps else Some (false, i, steps)
  else if cmp <? 0 then
    let hi := i - 1 in
    if lo <=? hi then old_search fuel cmp_at lo hi steps else Some (false, i, steps)
  else Some (true, i, steps)
end.

(** ** The searches *)

(** [(node_t * )-1], the stand-in for an item of a fixed size. *)
Inductive node_ptr : Set :=
| NodeAt (offset : Z)
| FakeNode.

Record sfr : Type := mk_sfr { sfr_exact : bool; sfr_node : option node_ptr }.

(** The index stored in the cursor, the result and the number of steps. *)
Definition search_result : Type := Z * sfr * Z.

Definition comparator : Type := MDBX_val -> MDBX_val -> option Z.

Section PageSearch.
(** [MDBX_UNALIGNED_OK] *)
Context (unaligned_ok : Z).

Definition node_key_at (mp : page) (i : Z) : option MDBX_val :=
node ← page_node mp i; get_key unaligned_ok (pg_body mp) node.

Definition dupfix_key_at (mp : page) (ksize i : Z) : option MDBX_val :=
Some (mk_val (pg_body mp) (page_dupfix_ptr mp i ksize) ksize).

Definition node_at (mp : page) (i : Z) : option node_ptr := NodeAt <$> page_node mp i.

(** The tail of a search over nodes. *)
Definition finish_nodes (mp : page) (nkeys : Z) (r : found_at) : option search_result :=
if fa_exact r then
  node ← node_at mp (fa_it r); Some (u16 (fa_it r), mk_sfr true (Some node), fa_steps r)
else if fa_it r <? nkeys then
  node ← node_at mp (fa_it r); Some (u16 (fa_it r), mk_sfr false (Some node), fa_steps r)
else Some (u16 (fa_it r), mk_sfr false None, fa_steps r).

(** [SEARCH_FOLIAGE] *)
Definition search_foliage (branch_cmp leaf_cmp : comparator) (different dupfixed : bool) (mp : page) (key : MDBX_val) :
  option search_result :=
let nkeys := page_numkeys mp in
let lo := Z.land (pg_flags mp) P_BRANCH in
let hi := nkeys - 1 in
if hi <? lo then Some (0, mk_sfr false None, 0)
else
  let scope := nkeys - lo in
  let nodes (cmp : comparator) :=
    r ← branchless_search (Z.to_nat nkeys) (fun i => k ← node_key_at mp i; cmp k key) lo scope 0;
    finish_nodes mp nkeys r in
  if (0 <? lo) || negb (different || dupfixed) then nodes branch_cmp
  else if (dupfixed : bool) then
    let ksize := pg_dupfix_ksize mp in
    r ← branchless_search (Z.to_nat nkeys) (fun i => k ← dupfix_key_at mp ksize i; leaf_cmp k key) lo scope 0;
    Some (u16 (fa_it r), mk_sfr (fa_exact r) (if fa_exact r || (fa_it r <? nkeys) then Some FakeNode else None), fa_steps r)
  else nodes leaf_cmp.

(** [old_node_search], with the table's comparator. *)
Definition old_node_search (cmp : comparator) (mp : page) (key : MDBX_val) : option search_result :=
let nkeys := page_numkeys mp in
let lo := Z.land (pg_flags mp) P_BRANCH in
let hi := nkeys - 1 in
if hi <? lo then Some (0, mk_sfr false None, 0)
else if is_dupfix_leaf mp then
  let ksize := pg_dupfix_ksize mp in
  '(exact, i, steps) ← old_search (Z.to_nat nkeys) (fun i => k ← dupfix_key_at mp ksize i; cmp key k) lo hi 0;
  Some (u16 i, mk_sfr exact (if i <? nkeys then Some FakeNode else None), steps)
else
  '(exact, i, steps) ← old_search (Z.to_nat nkeys) (fun i => k ← node_key_at mp i; cmp key k) lo hi 0;
  node ← (if i <? nkeys then node ← node_at mp i; Some (Some node) else Some None);
  Some (u16 i, mk_sfr exact node, steps).

(** [SEARCH_BRANCH]: the index of the child to follow. *)
Definition search_branch (cmp : comparator) (mp : page) (key : MDBX_val) : option (Z * Z) :=
let nkeys := page_numkeys mp in
if 1 <? nkeys then
  r ← branchless_search (Z.to_nat nkeys) (fun i => k ← node_key_at mp i; cmp k key) 1 (nkeys - 1) 0;
  Some (if fa_exact r then fa_it r else fa_lo r - 1, fa_steps r)
else Some (0, 0).

Definition old_branch_search (cmp : comparator) (mp : page) (key : MDBX_val) : option (Z * Z) :=
'(ki, nsr, steps) ← old_node_search cmp mp key;
let indx := page_numkeys mp - 1 in
Some (match sfr_node nsr with Some _ => ki + (if sfr_exact nsr then 1 else 0) - 1 | None => indx end, steps).
End PageSearch.

(** ** The choice of a variant *)

(** The comparator of a table; the code tells them apart by address. *)
Inductive key_cmp : Type :=
| K_lexical
| K_reverse
| K_lenfast
| K_uint_align2
| K_uint_align4
| K_uint_unaligned
| K_custom (f : comparator).

(** The variants of [SEARCH_FOLIAGE] and of [SEARCH_BRANCH]. *)
Inductive search_name : Set :=
| S_lexical
| S_reverse
| S_lenfast
| S_custom
| S_ordinal
| S_uint32
| S_uint64.

(** What the choice depends on: the page, [mc->clc->k.cmp], [mc->tree->flags],
    [mc->tree->dupfix_size], [is_inner(mc)], [MDBX_VALIDATION] in the flags of
    the environment, [mc->clc->k.lmin] and [lmax]. *)
Record scursor : Type := mk_sc {
  sc_pg : page;
  sc_cmp : key_cmp;
  sc_tree_flags : Z;
  sc_dupfix_size : Z;
  sc_inner : bool;
  sc_validation : bool;
  sc_lmin : Z;
  sc_lmax : Z;
}.

Definition with_lens (mc : scursor) (lmin lmax : Z) : scursor :=
mk_sc (sc_pg mc) (sc_cmp mc) (sc_tree_flags mc) (sc_dupfix_size mc) (sc_inner mc) (sc_validation mc) lmin lmax.

Definition is_uint_cmp (k : key_cmp) : bool :=
match k with K_uint_align2 | K_uint_align4 | K_uint_unaligned => true | _ => false end.

(** The fixed-size variant of an integer comparator, if all keys have that size. *)
Definition ordinal_search (mc : scursor) (ordinal : Z) : search_name :=
if negb (sc_validation mc) && (ordinal =? sc_lmin mc) && (ordinal =? sc_lmax mc) then
  if ordinal =? 4 then S_uint32 else if ordinal =? 8 then S_uint64 else S_ordinal
else S_ordinal.

Section Dispatch.
(** [MDBX_UNALIGNED_OK] *)
Context (unaligned_ok : Z).

Definition key_cmp_fn (k : key_cmp) : comparator :=
match k with
| K_lexical => ncmp_lexical
| K_reverse => ncmp_reverse unaligned_ok
| K_lenfast => ncmp_lenfast
| K_uint_align2 => ncmp_uint_align2 unaligned_ok
| K_uint_align4 => ncmp_uint_align4 unaligned_ok
| K_uint_unaligned => ncmp_uint_unaligned unaligned_ok
| K_custom f => f
end.

(** The variant, whether it is the one for fixed-size items, and the cursor
    with the lengths the code may have narrowed. *)
Definition cursor_to_search_foliage (mc : scursor) : option (search_name * bool * scursor) :=
let comparator := sc_cmp mc in
if has (sc_tree_flags mc) MDBX_DUPFIXED && sc_inner mc then
  match comparator with
  | K_lexical => Some (S_lexical, true, mc)
  | K_reverse => Some (S_reverse, true, mc)
  | K_lenfast => Some (S_lenfast, true, mc)
  | _ =>
    if has (sc_tree_flags mc) MDBX_INTEGERKEY then
      let keylen := sc_dupfix_size mc in
      let mc := if (sc_lmin mc <=? keylen) && (keylen <=? sc_lmax mc) && ((keylen =? 4) || (keylen =? 8))
                then with_lens mc keylen keylen else mc in
      let ordinal := if is_uint_cmp comparator then keylen else 0 in
      if negb (ordinal =? 0) then Some (ordinal_search mc ordinal, true, mc) else Some (S_custom, true, mc)
    else Some (S_custom, true, mc)
  end
else
  match comparator with
  | K_lexical => Some (S_lexical, false, mc)
  | K_reverse => Some (S_reverse, false, mc)
  | K_lenfast => Some (S_lenfast, false, mc)
  | _ =>
    if has (sc_tree_flags mc) MDBX_INTEGERKEY then
      node ← page_node (sc_pg mc) 0;
      keylen ← node_ks unaligned_ok (pg_body (sc_pg mc)) node;
      let ordinal := if is_uint_cmp comparator then keylen else 0 in
      if negb (ordinal =? 0) then Some (ordinal_search mc ordinal, false, mc) else Some (S_custom, false, mc)
    else Some (S_custom, false, mc)
  end.

Definition null_comparator : comparator := fun _ _ => None.

(** The instances of [SEARCH_FOLIAGE]: comparators for branch and leaf pages,
    whether they differ. *)
Definition foliage_instance (mc : scursor) (name : search_name) (dupfix : bool) : comparator * comparator * bool :=
let single c := (c, if dupfix then c else null_comparator, false) in
let paired c c' := if dupfix then (c, c', true) else if 4 <=? unaligned_ok then (c, null_comparator, false) else (c, c', true) in
match name with
| S_lexical => single cmp_lexical
| S_reverse => single (cmp_reverse unaligned_ok)
| S_lenfast => single cmp_lenfast
| S_custom => single (key_cmp_fn (sc_cmp mc))
| S_ordinal => paired (cmp_uint_align4 unaligned_ok) (cmp_uint_unaligned unaligned_ok)
| S_uint32 => paired (cmp_uint32_align4_unchecked unaligned_ok) (cmp_uint32_unaligned_unchecked unaligned_ok)
| S_uint64 => paired (cmp_uint64_align4_unchecked unaligned_ok) (cmp_uint64_unaligned_unchecked unaligned_ok)
end.

Definition tree_search_foliage_configure (mc : scursor) (key : MDBX_val) : option (search_result * scursor) :=
'(name, dupfix, mc) ← cursor_to_search_foliage mc;
let '(branch_cmp, leaf_cmp, different) := foliage_instance mc name dupfix in
r ← search_foliage unaligned_ok branch_cmp leaf_cmp different dupfix (sc_pg mc) key;
Some (r, mc).

Definition cursor_to_search_branch (mc : scursor) : option search_name :=
match sc_cmp mc with
| K_lexical => Some S_lexical
| K_reverse => Some S_reverse
| K_lenfast => Some S_lenfast
| comparator =>
  if has (sc_tree_flags mc) MDBX_INTEGERKEY then
    let mp := sc_pg mc in
    keylen ← (if is_dupfix_leaf mp then Some (pg_dupfix_ksize mp)
              else node ← page_node mp (Z.land (pg_flags mp) P_BRANCH); node_ks unaligned_ok (pg_body mp) node);
    let ordinal := if is_uint_cmp comparator then keylen else 0 in
    if negb (ordinal =? 0) then Some (ordinal_search mc ordinal) else Some S_custom
  else Some S_custom
end.

Definition branch_instance (mc : scursor) (name : search_name) : comparator :=
match name with
| S_lexical => cmp_lexical
| S_reverse => cmp_reverse unaligned_ok
| S_lenfast => cmp_lenfast
| S_custom => key_cmp_fn (sc_cmp mc)
| S_ordinal => cmp_uint_align4 unaligned_ok
| S_uint32 => cmp_uint32_align4_unchecked unaligned_ok
| S_uint64 => cmp_uint64_align4_unchecked unaligned_ok
end.

Definition tree_search_branch_configure (mc : scursor) (key : MDBX_val) : option Z :=
name ← cursor_to_search_branch mc;
'(it, _) ← search_branch unaligned_ok (branch_instance mc name) (sc_pg mc) key;
Some it.
End Dispatch.

(** ** One step of the branchless search is one of the plain search *)

Lemma sign_shift c : - 2 ^ 63 <= c < 2 ^ 63 -> c <> 0 -> Z.shiftr c 63 = if c <? 0 then -1 else 0.
Proof.
  intros Hc Hn. rewrite Z.shiftr_div_pow2 by lia. destruct (Z.ltb_spec c 0).
  - symmetry. apply (Z.div_unique _ _ _ (c + 2 ^ 63)); lia.
  - apply Z.div_small. lia.
Qed.

Lemma half_spec2 s : 0 < s -> let half := Z.shiftr (s - 1) 1 in
  0 <= half < s /\ s - 1 - half = half + Z.land (s - 1) 1 /\ 0 <= half + Z.land (s - 1) 1.
Proof.
  intros Hs. cbn zeta. rewrite Z.shiftr_div_pow2 by lia. change (2 ^ 1) with 2.
  assert (Z.land (s - 1) 1 = (s - 1) mod 2) as -> by (apply (Z.land_ones (s - 1) 1); lia).
  pose proof (Z.div_mod (s - 1) 2). pose proof (Z.mod_pos_bound (s - 1) 2). pose proof (Z.div_pos (s - 1) 2). lia.
Qed.

(** Both comparisons answer and are opposite to each other. *)
Definition opposite (cmp_new cmp_old : Z -> option Z) (lo hi : Z) : Prop :=
forall i, lo <= i < hi -> exists n o, cmp_new i = Some n /\ cmp_old i = Some o /\ Z.sgn o = - Z.sgn n /\ - 2 ^ 63 <= n < 2 ^ 63.

Lemma searches_agree fuel : forall cn co lo scope steps, 0 < scope -> (Z.to_nat scope <= fuel)%nat -> opposite cn co lo (lo + scope) ->
  exists r, branchless_search fuel cn lo scope steps = Some r /\
    old_search fuel co lo (lo + scope - 1) steps = Some (fa_exact r, fa_it r, fa_steps r) /\
    lo <= fa_it r <= lo + scope /\ (if fa_exact r then fa_it r < lo + scope else fa_lo r = fa_it r) /\ fa_steps r <= steps + scope.
Proof.
  induction fuel as [|fuel IH]; intros cn co lo scope steps Hs Hf Hop; [lia|]. cbn [branchless_search old_search].
  pose proof (half_spec2 scope Hs) as (Hh & Hr & Hr0). set (half := Z.shiftr (scope - 1) 1) in *.
  assert (Z.shiftr (lo + (lo + scope - 1)) 1 = lo + half) as ->.
  { unfold half. rewrite !Z.shiftr_div_pow2 by lia. change (2 ^ 1) with 2.
    replace (lo + (lo + scope - 1)) with (scope - 1 + lo * 2) by lia. rewrite Z.div_add by lia. lia. }
  destruct (Hop (lo + half)) as (n & o & En & Eo & Hsgn & Hrange); [lia|]. rewrite En, Eo. cbn [mbind option_bind].
  destruct (Z.eqb_spec n 0) as [->|Hn0].
  - destruct (Z.ltb_spec 0 o); [lia|]. destruct (Z.ltb_spec o 0); [lia|]. eexists. split; [done|]. cbn. split; [done|]. lia.
  - rewrite sign_shift by done. destruct (Z.ltb_spec n 0) as [Hneg|Hpos].
    + destruct (Z.ltb_spec 0 o); [|lia]. rewrite Z.land_m1_r, Z.land_m1_l, Z.land_m1_l, <- Hr.
      destruct (Z.ltb_spec 0 (scope - 1 - half)).
      * destruct (Z.leb_spec (lo + half + 1) (lo + scope - 1)); [|lia].
        destruct (IH cn co (lo + (half + 1)) (scope - 1 - half) (steps + 1)) as (r & E1 & E2 & Hit & Hlo & Hst); [lia|lia|intros i Hi; apply Hop; lia|].
        exists r. split; [done|]. replace (lo + half + 1) with (lo + (half + 1)) by lia.
        replace (lo + (half + 1) + (scope - 1 - half) - 1) with (lo + scope - 1) in E2 by lia. split; [done|].
        destruct (fa_exact r); lia.
      * destruct (Z.leb_spec (lo + half + 1) (lo + scope - 1)); [lia|]. eexists. split; [done|]. cbn. split; [done|]. lia.
    + destruct (Z.ltb_spec 0 o); [lia|]. destruct (Z.ltb_spec o 0); [|lia]. rewrite Z.land_0_r, Z.land_0_l, Z.land_0_l, !Z.add_0_r.
      destruct (Z.ltb_spec 0 half).
      * destruct (Z.leb_spec lo (lo + half - 1)); [|lia].
        destruct (IH cn co lo half (steps + 1)) as (r & E1 & E2 & Hit & Hlo & Hst); [lia|lia|intros i Hi; apply Hop; lia|].
        exists r. split; [done|]. split; [done|]. destruct (fa_exact r); lia.
      * destruct (Z.leb_spec lo (lo + half - 1)); [lia|]. eexists. split; [done|]. cbn. split; [done|]. lia.
Qed.

(** ** The result of a search in a sorted sequence *)

(** [r] is where the key belongs: everything before it is less, everything
    behind it greater, and it is the key itself iff [exact]. *)
Definition cut (cmp_at : Z -> option Z) (lo hi r : Z) (exact : bool) : Prop :=
lo <= r <= hi /\
(forall i, lo <= i < r -> exists c, cmp_at i = Some c /\ - 2 ^ 63 <= c < 0) /\
(if exact then r < hi /\ cmp_at r = Some 0 else True) /\
(forall i, r <= i < hi -> exact = false \/ i <> r -> exists c, cmp_at i = Some c /\ 0 < c < 2 ^ 63).

Lemma branchless_cut fuel : forall cmp_at lo scope steps r exact, 0 < scope -> (Z.to_nat scope <= fuel)%nat ->
  cut cmp_at lo (lo + scope) r exact ->
  exists l st, branchless_search fuel cmp_at lo scope steps = Some (mk_found exact r l st) /\ (exact = false -> l = r).
Proof.
  induction fuel as [|fuel IH]; intros cmp_at lo scope steps r exact Hs Hf Hcut; [lia|]. cbn [branchless_search].
  pose proof (half_spec2 scope Hs) as (Hh & Hr & Hr0). set (half := Z.shiftr (scope - 1) 1) in *.
  destruct Hcut as (Hlr & Hbelow & Hex & Habove).
  destruct (decide (lo + half < r)) as [Hlt|Hge].
  - destruct (Hbelow (lo + half)) as (c & Ec & Hc); [lia|]. rewrite Ec. cbn [mbind option_bind].
    destruct (Z.eqb_spec c 0); [lia|]. rewrite sign_shift by lia. destruct (Z.ltb_spec c 0); [|lia].
    rewrite Z.land_m1_r, !Z.land_m1_l, <- Hr. destruct (Z.ltb_spec 0 (scope - 1 - half)).
    + apply IH; [lia|lia|]. replace (lo + (half + 1) + (scope - 1 - half)) with (lo + scope) by lia.
      split_and!; [lia|lia| |done|]; intros i Hi; [apply Hbelow; lia|intros He; apply Habove; [lia|done]].
    + assert (r = lo + half + 1) as -> by lia. destruct exact; [lia|]. eexists _, _. split; [done|intros _; lia].
  - destruct (decide (exact = true /\ lo + half = r)) as [[-> <-]|Hne].
    + destruct Hex as [_ E0]. rewrite E0. cbn. eexists _, _. by split.
    + destruct (Habove (lo + half)) as (c & Ec & Hc); [lia|destruct exact; [right; naive_solver|by left]|].
      rewrite Ec. cbn [mbind option_bind]. destruct (Z.eqb_spec c 0); [lia|]. rewrite sign_shift by lia.
      destruct (Z.ltb_spec c 0); [lia|]. rewrite Z.land_0_r, !Z.land_0_l, !Z.add_0_r.
      assert (r < lo + half \/ exact = false /\ r = lo + half) as Hcase.
      { destruct (decide (r = lo + half)); [|lia]. right. destruct exact; [naive_solver|done]. }
      destruct (Z.ltb_spec 0 half).
      * apply IH; [lia|lia|]. split_and!; [lia|lia|intros i Hi; apply Hbelow; lia| |intros i Hi He; apply Habove; [lia|done]].
        destruct exact; [|done]. destruct Hex. split; [lia|done].
      * destruct Hcase as [?|[-> ->]]; [lia|]. eexists _, _. split; [done|intros _; lia].
Qed.

(** ** The chosen variant compares like the table's comparator *)

Definition answers_like (f g : comparator) (a b : MDBX_val) : Prop :=
exists r r', f a b = Some r /\ g a b = Some r' /\ Z.sgn r = Z.sgn r' /\ - 2 ^ 31 <= r < 2 ^ 31.

Section Variants.
Context (unaligned_ok : Z).

Lemma computes_like f c a b : computes f c a b -> answers_like f (noninline_comparator f) a b.
Proof.
  intros (r & E & _ & Hr). exists r, r. unfold noninline_comparator. rewrite E. cbn. split_and!; [done| |done|lia|lia].
  f_equal. apply signed_small; lia.
Qed.

Lemma cmp_uint_align ea ea' a b : val_ok a -> val_ok b -> cmp_uint unaligned_ok ea a b = cmp_uint unaligned_ok ea' a b.
Proof.
  intros Ha Hb. unfold cmp_uint, cmp_uint64_unchecked, cmp_uint32_unchecked.
  by rewrite !peek_u32_load, !peek_u64_load by (apply (val_mem _ Ha) || apply (val_mem _ Hb)).
Qed.

Lemma cmp_uint_answers ea ea' a b : val_ok a -> val_ok b ->
  answers_like (cmp_uint unaligned_ok ea) (noninline_comparator (cmp_uint unaligned_ok ea')) a b.
Proof.
  intros Ha Hb. destruct (decide (iov_len a = iov_len b /\ (iov_len a = 4 \/ iov_len a = 8))) as [[E H48]|Hn].
  - unfold answers_like, noninline_comparator. rewrite (cmp_uint_align ea' ea) by done.
    apply (computes_like _ uint_compare), cmp_uint_spec; done.
  - exists 0, 0. unfold noninline_comparator. rewrite !cmp_uint_wrong by lia. done.
Qed.

Lemma cmp_uint32_unchecked_eq ea a b : iov_len a = 4 -> iov_len b = 4 ->
  cmp_uint32_unchecked unaligned_ok ea a b = cmp_uint unaligned_ok ea a b.
Proof. intros Ha Hb. unfold cmp_uint. by rewrite Ha, Hb. Qed.

Lemma cmp_uint64_unchecked_eq ea a b : iov_len a = 8 -> iov_len b = 8 ->
  cmp_uint64_unchecked unaligned_ok ea a b = cmp_uint unaligned_ok ea a b.
Proof. intros Ha Hb. unfold cmp_uint. by rewrite Ha, Hb. Qed.

Definition len_fits (mc : scursor) (v : MDBX_val) : Prop := sc_lmin mc <= iov_len v <= sc_lmax mc.

(** An integer variant, whatever the alignment it assumes. *)
Definition uint_variant (name : search_name) (ea : Z) : comparator :=
match name with
| S_uint32 => cmp_uint32_unchecked unaligned_ok ea
| S_uint64 => cmp_uint64_unchecked unaligned_ok ea
| _ => cmp_uint unaligned_ok ea
end.

Lemma ordinal_like mc n ea ea' a b : val_ok a -> val_ok b -> len_fits mc a -> len_fits mc b ->
  answers_like (uint_variant (ordinal_search mc n) ea) (noninline_comparator (cmp_uint unaligned_ok ea')) a b.
Proof.
  unfold len_fits, ordinal_search. intros Ha Hb La Lb.
  destruct (negb (sc_validation mc) && (n =? sc_lmin mc) && (n =? sc_lmax mc)) eqn:E; [|by apply cmp_uint_answers].
  rewrite !andb_true_iff, !Z.eqb_eq in E. destruct E as [[_ E1] E2].
  destruct (Z.eqb_spec n 4); [|destruct (Z.eqb_spec n 8)]; cbn [uint_variant].
  - unfold answers_like. rewrite cmp_uint32_unchecked_eq by lia. by apply cmp_uint_answers.
  - unfold answers_like. rewrite cmp_uint64_unchecked_eq by lia. by apply cmp_uint_answers.
  - by apply cmp_uint_answers.
Qed.

(** The table's comparator answers; the built-in ones always do. *)
Definition answers (mc : scursor) (a b : MDBX_val) : Prop :=
match sc_cmp mc with
| K_custom f => exists r, f a b = Some r /\ - 2 ^ 31 <= r < 2 ^ 31
| _ => True
end.

Lemma ordinal_name mc n : ordinal_search mc n = S_ordinal \/ ordinal_search mc n = S_uint32 \/ ordinal_search mc n = S_uint64.
Proof. unfold ordinal_search. destruct (_ && _), (n =? 4), (n =? 8); auto. Qed.

(** A variant [name] is right for the cursor. *)
Definition variant_ok (mc : scursor) (name : search_name) : Prop :=
match sc_cmp mc with
| K_lexical => name = S_lexical
| K_reverse => name = S_reverse
| K_lenfast => name = S_lenfast
| K_custom _ => name = S_custom
| _ => name = S_custom \/ exists n, name = ordinal_search mc n
end.

Lemma variant_like mc name a b : variant_ok mc name -> val_ok a -> val_ok b -> len_fits mc a -> len_fits mc b -> answers mc a b ->
  answers_like (branch_instance unaligned_ok mc name) (key_cmp_fn unaligned_ok (sc_cmp mc)) a b /\
  (forall bc lc diff, foliage_instance unaligned_ok mc name false = (bc, lc, diff) ->
    answers_like bc (key_cmp_fn unaligned_ok (sc_cmp mc)) a b /\
    (diff = true -> answers_like lc (key_cmp_fn unaligned_ok (sc_cmp mc)) a b)).
Proof.
  unfold variant_ok, answers. intros Hv Ha Hb La Lb Han.
  assert (forall c, answers_like c (key_cmp_fn unaligned_ok (sc_cmp mc)) a b -> name <> S_ordinal -> name <> S_uint32 -> name <> S_uint64 ->
    branch_instance unaligned_ok mc name = c ->
    answers_like (branch_instance unaligned_ok mc name) (key_cmp_fn unaligned_ok (sc_cmp mc)) a b /\
    (forall bc lc diff, foliage_instance unaligned_ok mc name false = (bc, lc, diff) ->
      answers_like bc (key_cmp_fn unaligned_ok (sc_cmp mc)) a b /\ (diff = true -> answers_like lc (key_cmp_fn unaligned_ok (sc_cmp mc)) a b))) as Hsingle.
  { intros c Hc H1 H2 H3 Ec. rewrite Ec. split; [done|]. intros bc lc diff Ei.
    destruct name; try done; cbn in Ei, Ec; simplify_eq; by split. }
  assert (forall ea, key_cmp_fn unaligned_ok (sc_cmp mc) = noninline_comparator (cmp_uint unaligned_ok ea) ->
     (name = S_custom \/ exists n, name = ordinal_search mc n) ->
    answers_like (branch_instance unaligned_ok mc name) (key_cmp_fn unaligned_ok (sc_cmp mc)) a b /\
    (forall bc lc diff, foliage_instance unaligned_ok mc name false = (bc, lc, diff) ->
      answers_like bc (key_cmp_fn unaligned_ok (sc_cmp mc)) a b /\ (diff = true -> answers_like lc (key_cmp_fn unaligned_ok (sc_cmp mc)) a b))) as Huint.
  { intros ea Ek [->|[n En]].
    - apply (Hsingle (key_cmp_fn unaligned_ok (sc_cmp mc))); try done. rewrite Ek.
      destruct (cmp_uint_answers ea ea a b Ha Hb) as (r & r' & E1 & E2 & Hs & Hr).
      assert (r' = r) as -> by (unfold noninline_comparator in E2; rewrite E1 in E2; cbn in E2; simplify_eq; apply signed_small; lia).
      by exists r, r.
    - rewrite Ek. pose proof (fun e => ordinal_like mc n e ea a b Ha Hb La Lb) as Hl. rewrite <- En in Hl.
      destruct (ordinal_name mc n) as [E|[E|E]]; rewrite E in En; subst name; cbn [uint_variant] in Hl; (split; [apply Hl|]);
        intros bc lc diff; unfold foliage_instance; destruct (4 <=? unaligned_ok); intros [= <- <- <-]; (split; [apply Hl|]); intros ?; done || apply Hl. }
  destruct (sc_cmp mc) as [| | | | | |f] eqn:Ek; cbn [key_cmp_fn] in *.
  - subst name. apply (Hsingle cmp_lexical); try done. eapply computes_like. by apply cmp_lexical_spec.
  - subst name. apply (Hsingle (cmp_reverse unaligned_ok)); try done. eapply computes_like. by apply cmp_reverse_spec.
  - subst name. apply (Hsingle cmp_lenfast); try done. eapply computes_like. by apply cmp_lenfast_spec.
  - by apply (Huint (align_or unaligned_ok 2)).
  - by apply (Huint (align_or unaligned_ok 4)).
  - by apply (Huint 1).
  - subst name. apply (Hsingle f); try done; [|cbn; by rewrite Ek]. destruct Han as (r & Er & Hr). by exists r, r.
Qed.
End Variants.

(** ** Searching the nodes of a page *)

Definition keycmp_of (flags : Z) : key_cmp :=
if has flags MDBX_INTEGERKEY then K_uint_align2 else if negb (has flags MDBX_REVERSEKEY) then K_lexical else K_reverse.

Lemma keycmp_of_builtin uok flags : key_cmp_fn uok (keycmp_of flags) = builtin_keycmp uok flags.
Proof. unfold keycmp_of, builtin_keycmp. by destruct (has flags MDBX_INTEGERKEY), (has flags MDBX_REVERSEKEY). Qed.

Lemma node_key_at_spec uok mp ns i n : page_nodes mp ns -> zget ns i = Some n ->
  exists v o, node_key_at uok mp i = Some v /\ page_node mp i = Some o /\ val_ok v /\ val_bytes v = an_key n.
Proof.
  intros (es & free & heap & H & ->) Hn. destruct (zget_in es i) as [[o n'] Hs].
  { apply zget_range in Hn. by rewrite zlen_fmap in Hn. }
  assert (n' = n) as ->.
  { unfold zget in *. destruct (0 <=? i); [|done]. rewrite list_lookup_fmap, Hs in Hn. by simplify_eq/=. }
  destruct (zsplit_mid es i) as (a & s & b & -> & Ha); [by apply zget_range in Hs|].
  rewrite zget_app_mid in Hs by done. simplify_eq.
  assert (page_node mp (zlen a) = Some o) as Ep.
  { unfold page_node. rewrite (ph_body _ _ _ _ H), fmap_app, fmap_cons. pose proof (entries_u16 _ _ _ _ H) as Hu.
    rewrite fmap_app, fmap_cons in Hu. apply Forall_app in Hu as [_ Hu]. inversion Hu; subst. apply entry_get_mid; [done|zlia]. }
  destruct (hole_split _ _ _ _ _ _ _ H) as (low & hole & high & -> & _ & _ & Hok & Hin).
  destruct (get_key_read uok _ _ _ (holds_bytes _ _ _ _ H) Hok Hin) as (v & Ev & Hv & Eb).
  exists v, o. unfold node_key_at. rewrite Ep. cbn. done.
Qed.

Lemma page_nodes_numkeys mp ns : page_nodes mp ns -> page_numkeys mp = zlen ns /\ zlen ns < 32768.
Proof.
  intros (es & free & heap & H & ->). rewrite zlen_fmap. split; [by apply (page_numkeys_holds _ _ _ _ H)|].
  pose proof (ph_space _ _ _ _ H) as Hs. rewrite (ph_body _ _ _ _ H) in Hs. zlia.
Qed.

(** Where a string belongs in a sorted list of strings. *)
Lemma sorted_split P ord `{!TotalOrder P ord} (key : bytes) (keys : list bytes) :
  P key -> Forall P keys -> StronglySorted (fun a b => ord a b = Lt) keys ->
  exists (less rest : list bytes) (exact : bool), keys = less ++ rest /\ Forall (fun k => ord k key = Lt) less /\
    (if exact then exists rest', rest = key :: rest' /\ Forall (fun k => ord k key = Gt) rest'
     else Forall (fun k => ord k key = Gt) rest).
Proof.
  intros HK HP Hs. induction Hs as [|k keys Hs IH Hall].
  - exists [], [], false. split_and!; constructor.
  - inversion HP as [|?? Hk HP']; subst. destruct (IH HP') as (less & rest & exact & -> & Hl & Hr).
    assert (ord k key <> Lt -> Forall (fun x => ord x key = Gt) (less ++ rest)) as Hgt.
    { intros Hn. apply Forall_forall. intros x Hx. rewrite Forall_forall in Hall, HP'. specialize (Hall x Hx). specialize (HP' x Hx).
      rewrite (order_antisym key x) by done. cut (ord key x = Lt); [by intros ->|].
      destruct (ord k key) eqn:E; [|done|].
      - apply (order_eq k key Hk HK) in E as ->. done.
      - apply (order_trans key k x); [done..| |done]. rewrite (order_antisym k key) by done. by rewrite E. }
    destruct (ord k key) eqn:E.
    + exists [], (k :: less ++ rest), true. split_and!; [done|constructor|]. apply (order_eq k key Hk HK) in E as ->.
      eexists. split; [done|]. by apply Hgt.
    + exists (k :: less), rest, exact. split_and!; [done|by constructor|done].
    + exists [], (k :: less ++ rest), false. split_and!; [done|constructor|]. constructor; [done|]. by apply Hgt.
Qed.

(** Comparing the nodes from [lo] on is comparing the keys. *)
Lemma cut_nodes uok (used : comparator) mp ns lo key (ord : bytes -> bytes -> comparison) less rest exact : page_nodes mp ns ->
  0 <= lo -> an_key <$> drop (Z.to_nat lo) ns = less ++ rest ->
  (forall v k, val_ok v -> val_bytes v = k -> k ∈ less ++ rest -> computes used ord v key) ->
  Forall (fun k => ord k (val_bytes key) = Lt) less ->
  (if exact : bool then exists rest', rest = val_bytes key :: rest' /\ ord (val_bytes key) (val_bytes key) = Eq /\
       Forall (fun k => ord k (val_bytes key) = Gt) rest'
   else Forall (fun k => ord k (val_bytes key) = Gt) rest) -> lo <= zlen ns ->
  cut (fun i => k ← node_key_at uok mp i; used k key) lo (zlen ns) (lo + zlen less) exact.
Proof.
  intros Hp Hlo Ek Hused Hless Hrest Hn.
  assert (zlen ns = lo + zlen less + zlen rest) as Hlen.
  { apply (f_equal zlen) in Ek. rewrite zlen_fmap, zlen_app in Ek. unfold zlen in *. rewrite length_drop in Ek. lia. }
  assert (forall i x, zget (less ++ rest) i = Some x ->
    exists c, (k ← node_key_at uok mp (lo + i); used k key) = Some c /\ Z.sgn c = cmp_sign (ord x (val_bytes key)) /\ - 2 ^ 31 <= c < 2 ^ 31) as Hat.
  { intros i x Hx. pose proof (zget_elem _ _ _ Hx) as Hin. pose proof (zget_range _ _ _ Hx) as Hi. rewrite <- Ek in Hx.
    assert (exists n, zget ns (lo + i) = Some n /\ an_key n = x) as (n & Hzn & Hkn).
    { unfold zget in *. destruct (Z.leb_spec 0 i); [|lia]. destruct (Z.leb_spec 0 (lo + i)); [|lia].
      rewrite list_lookup_fmap, lookup_drop, <- Z2Nat.inj_add in Hx by lia. destruct (ns !! Z.to_nat (lo + i)) as [n|]; [|done].
      exists n. by simplify_eq/=. }
    destruct (node_key_at_spec uok mp ns (lo + i) n Hp Hzn) as (v & o & -> & _ & Hv & Eb). cbn [mbind option_bind].
    destruct (Hused v x) as (r & -> & Hs & Hrr); [done|congruence|done|]. exists r. rewrite Eb, Hkn in Hs. done. }
  split_and!; [zlia|zlia|..].
  - intros i Hi. destruct (zget_in less (i - lo)) as [x Hx]; [lia|]. destruct (Hat (i - lo) x) as (c & Ec & Hc & Hcr); [by rewrite zget_app_l by lia|].
    replace (lo + (i - lo)) with i in Ec by lia. exists c. split; [done|]. rewrite Forall_forall in Hless.
    rewrite (Hless x) in Hc by (by eapply zget_elem). cbn in Hc. lia.
  - destruct exact; [|done]. destruct Hrest as (rest' & -> & Heq & _). split; [zlia|].
    destruct (Hat (zlen less) (val_bytes key)) as (c & Ec & Hc & Hcr); [by apply zget_app_mid|]. rewrite Heq in Hc. cbn in Hc.
    rewrite Ec. f_equal. lia.
  - intros i Hi Hex. destruct (zget_in rest (i - lo - zlen less)) as [x Hx]; [lia|].
    destruct (Hat (i - lo) x) as (c & Ec & Hc & Hcr).
    { rewrite zget_app_r by lia. done. }
    replace (lo + (i - lo)) with i in Ec by lia. exists c. split; [done|].
    assert (ord x (val_bytes key) = Gt) as EG; [|rewrite EG in Hc; cbn in Hc; lia].
    destruct exact.
    + destruct Hrest as (rest' & -> & _ & Hgt). destruct Hex as [?|Hne]; [done|]. rewrite zget_cons_pos in Hx by lia.
      rewrite Forall_forall in Hgt. apply Hgt. by eapply zget_elem.
    + rewrite Forall_forall in Hrest. apply Hrest. by eapply zget_elem.
Qed.

Section Equivalence.
Context (unaligned_ok : Z).

(** The comparator [SEARCH_FOLIAGE] uses on the page, and its keys. *)
Definition used_cmp (branch_cmp leaf_cmp : comparator) (different dupfixed : bool) (mp : page) : comparator :=
if (0 <? Z.land (pg_flags mp) P_BRANCH) || negb (different || dupfixed) then branch_cmp else leaf_cmp.

Definition key_at (mp : page) (i : Z) : option MDBX_val :=
if is_dupfix_leaf mp then dupfix_key_at mp (pg_dupfix_ksize mp) i else node_key_at unaligned_ok mp i.

Lemma node_key_node mp i v : node_key_at unaligned_ok mp i = Some v -> exists o, page_node mp i = Some o.
Proof. unfold node_key_at. destruct (page_node mp i); [eauto|done]. Qed.

Lemma numkeys_u16 mp : 0 <= pg_lower mp < 65536 -> 0 <= page_numkeys mp < 32768.
Proof.
  intros H. unfold page_numkeys. rewrite Z.shiftr_div_pow2 by lia. change (2 ^ 1) with 2. Z.div_mod_to_equations. lia.
Qed.

Lemma branch_bit mp : Z.land (pg_flags mp) P_BRANCH = if is_branch mp then 1 else 0.
Proof.
  unfold is_branch, has. change P_BRANCH with (Z.ones 1). rewrite Z.land_ones by lia. change (2 ^ 1) with 2.
  pose proof (Z.mod_pos_bound (pg_flags mp) 2). destruct (Z.eqb_spec (pg_flags mp mod 2) 0); cbn; lia.
Qed.

Lemma search_foliage_eq branch_cmp leaf_cmp different dupfixed cmp mp key :
  0 <= pg_lower mp < 65536 -> is_dupfix_leaf mp = dupfixed && negb (is_branch mp) ->
  opposite (fun i => k ← key_at mp i; used_cmp branch_cmp leaf_cmp different dupfixed mp k key)
    (fun i => k ← key_at mp i; cmp key k) (Z.land (pg_flags mp) P_BRANCH) (page_numkeys mp) ->
  exists r, search_foliage unaligned_ok branch_cmp leaf_cmp different dupfixed mp key = Some r /\
    old_node_search unaligned_ok cmp mp key = Some r.
Proof.
  intros Hl Hdf Hop. pose proof (numkeys_u16 mp Hl) as Hn. unfold search_foliage, old_node_search, used_cmp, key_at in *.
  rewrite branch_bit in *. set (lo := if is_branch mp then 1 else 0) in *.
  destruct (Z.ltb_spec (page_numkeys mp - 1) lo); [by eexists|].
  assert (0 <= lo <= 1) as Hlo by (unfold lo; destruct (is_branch mp); lia).
  assert (forall c, opposite (fun i => k ← node_key_at unaligned_ok mp i; c k key) (fun i => k ← node_key_at unaligned_ok mp i; cmp key k) lo (page_numkeys mp) ->
    exists r, (r ← branchless_search (Z.to_nat (page_numkeys mp)) (fun i => k ← node_key_at unaligned_ok mp i; c k key) lo (page_numkeys mp - lo) 0; finish_nodes mp (page_numkeys mp) r) = Some r /\
      ('(exact, i, steps) ← old_search (Z.to_nat (page_numkeys mp)) (fun i => k ← node_key_at unaligned_ok mp i; cmp key k) lo (page_numkeys mp - 1) 0;
       node ← (if i <? page_numkeys mp then node ← node_at mp i; Some (Some node) else Some None); Some (u16 i, mk_sfr exact node, steps)) = Some r) as Hnodes.
  { intros c Hc. destruct (searches_agree (Z.to_nat (page_numkeys mp)) _ _ lo (page_numkeys mp - lo) 0 ltac:(lia) ltac:(lia)
      ltac:(by replace (lo + (page_numkeys mp - lo)) with (page_numkeys mp) by lia)) as (r & E1 & E2 & Hit & Hex & _).
    replace (lo + (page_numkeys mp - lo) - 1) with (page_numkeys mp - 1) in E2 by lia. rewrite E1, E2. cbn [mbind option_bind].
    replace (lo + (page_numkeys mp - lo)) with (page_numkeys mp) in * by lia. unfold finish_nodes.
    assert (fa_it r < page_numkeys mp -> exists o, page_node mp (fa_it r) = Some o) as Ho.
    { intros Hlt. destruct (Hc (fa_it r) ltac:(lia)) as (n & o & En & _). destruct (node_key_at unaligned_ok mp (fa_it r)) eqn:E; [|done].
      by eapply node_key_node. }
    destruct (fa_exact r); destruct (Z.ltb_spec (fa_it r) (page_numkeys mp)); try lia.
    all: try (destruct Ho as [o Eo]; [done|]; unfold node_at; rewrite Eo; by eexists). by eexists. }
  destruct (0 <? lo) eqn:E0; cbn [orb] in *.
  - assert (is_branch mp = true) as Hbr by (unfold lo in E0; by destruct (is_branch mp)). rewrite Hbr, andb_false_r in Hdf. rewrite Hdf in *. by apply Hnodes.
  - assert (is_branch mp = false) as Hbr by (unfold lo in E0; by destruct (is_branch mp)). rewrite Hbr, andb_true_r in Hdf. rewrite Hdf in *.
    destruct dupfixed; [|destruct different; cbn [orb negb] in *; by apply Hnodes].
    rewrite orb_true_r in *. cbn [negb] in *.
    destruct (searches_agree (Z.to_nat (page_numkeys mp)) _ _ lo (page_numkeys mp - lo) 0 ltac:(lia) ltac:(lia)
      ltac:(by replace (lo + (page_numkeys mp - lo)) with (page_numkeys mp) by lia)) as (r & E1 & E2 & Hit & Hex & _).
    replace (lo + (page_numkeys mp - lo) - 1) with (page_numkeys mp - 1) in E2 by lia. rewrite E1, E2. cbn [mbind option_bind].
    eexists. split; [done|]. do 3 f_equal. destruct (fa_exact r); cbn [orb]; [|done].
    destruct (Z.ltb_spec (fa_it r) (page_numkeys mp)); [done|lia].
Qed.

Lemma search_branch_eq branch_cmp cmp mp key : 0 <= pg_lower mp < 65536 -> is_branch mp = true -> is_dupfix_leaf mp = false ->
  0 < page_numkeys mp ->
  opposite (fun i => k ← key_at mp i; branch_cmp k key) (fun i => k ← key_at mp i; cmp key k) 1 (page_numkeys mp) ->
  exists r, search_branch unaligned_ok branch_cmp mp key = Some r /\ old_branch_search unaligned_ok cmp mp key = Some r.
Proof.
  intros Hl Hbr Hdf Hnk Hop. pose proof (numkeys_u16 mp Hl) as Hn. unfold search_branch, old_branch_search, old_node_search, key_at in *.
  rewrite branch_bit, Hbr, Hdf in *. destruct (Z.ltb_spec 1 (page_numkeys mp)).
  - destruct (Z.ltb_spec (page_numkeys mp - 1) 1); [lia|].
    destruct (searches_agree (Z.to_nat (page_numkeys mp)) _ _ 1 (page_numkeys mp - 1) 0 ltac:(lia) ltac:(lia)
      ltac:(by replace (1 + (page_numkeys mp - 1)) with (page_numkeys mp) by lia)) as (r & E1 & E2 & Hit & Hex & _).
    replace (1 + (page_numkeys mp - 1) - 1) with (page_numkeys mp - 1) in E2 by lia. rewrite E1, E2. cbn [mbind option_bind].
    replace (1 + (page_numkeys mp - 1)) with (page_numkeys mp) in * by lia. eexists. split; [done|].
    destruct (Z.ltb_spec (fa_it r) (page_numkeys mp)) as [Hlt|Hge].
    + destruct (Hop (fa_it r) ltac:(lia)) as (n & o & En & _). destruct (node_key_at unaligned_ok mp (fa_it r)) eqn:E; [|done].
      apply node_key_node in E as [off Eoff]. unfold node_at. rewrite Eoff. cbn. do 2 f_equal. unfold u16. rewrite wrap_small by lia.
      destruct (fa_exact r); lia.
    + cbn. destruct (fa_exact r); [lia|]. do 2 f_equal. lia.
  - assert (page_numkeys mp = 1) as -> by lia. cbn. by eexists.
Qed.
End Equivalence.

(** ** The search of a table's page *)

Section Finds.
Context (unaligned_ok : Z).

Lemma foliage_variant mc : has (sc_tree_flags mc) MDBX_DUPFIXED && sc_inner mc = false ->
  (exists ns, page_nodes (sc_pg mc) ns /\ 0 < zlen ns) ->
  exists name, cursor_to_search_foliage unaligned_ok mc = Some (name, false, mc) /\ variant_ok mc name.
Proof.
  intros Hdf (ns & Hp & Hn). unfold cursor_to_search_foliage, variant_ok. rewrite Hdf.
  destruct (zget_in ns 0) as [n Hn0]; [lia|]. 
  destruct (node_key_at_spec unaligned_ok _ _ _ _ Hp Hn0) as (v & o & Ek & Eo & _). unfold node_key_at, get_key in Ek. rewrite Eo in Ek |- *.
  cbn [mbind option_bind] in Ek |- *. destruct (node_ks unaligned_ok (pg_body (sc_pg mc)) o) as [ks|]; [|done]. cbn [mbind option_bind].
  destruct (sc_cmp mc) eqn:Ec; try by eexists. all: destruct (has (sc_tree_flags mc) MDBX_INTEGERKEY); try by eexists; eauto.
  all: cbn [is_uint_cmp]; try (destruct (negb _); eexists; eauto).
Qed.

Lemma branch_variant mc ns : page_nodes (sc_pg mc) ns -> is_branch (sc_pg mc) = true -> is_dupfix_leaf (sc_pg mc) = false -> 1 < zlen ns ->
  exists name, cursor_to_search_branch unaligned_ok mc = Some name /\ variant_ok mc name.
Proof.
  intros Hp Hbr Hdf Hn. unfold cursor_to_search_branch, variant_ok. rewrite branch_bit, Hbr, Hdf.
  destruct (zget_in ns 1) as [n Hn0]; [lia|].
  destruct (node_key_at_spec unaligned_ok _ _ _ _ Hp Hn0) as (v & o & Ek & Eo & _). unfold node_key_at, get_key in Ek. rewrite Eo in Ek |- *.
  cbn [mbind option_bind] in Ek |- *. destruct (node_ks unaligned_ok (pg_body (sc_pg mc)) o) as [ks|]; [|done]. cbn [mbind option_bind].
  destruct (sc_cmp mc) eqn:Ec; try by eexists. all: destruct (has (sc_tree_flags mc) MDBX_INTEGERKEY); try by eexists; eauto.
  all: cbn [is_uint_cmp]; try (destruct (negb _); eexists; eauto).
Qed.

(** A key is admissible in a table. *)
Definition key_fits (mc : scursor) (n : Z) (k : bytes) : Prop :=
key_class (has (sc_tree_flags mc) MDBX_INTEGERKEY) n k /\ sc_lmin mc <= zlen k <= sc_lmax mc.

(** The table's comparator, and with it every variant, computes the order. *)
Lemma variant_computes mc n key v (c : comparator) :
  sc_cmp mc = keycmp_of (sc_tree_flags mc) -> n = 4 \/ n = 8 -> val_ok key -> key_fits mc n (val_bytes key) ->
  val_ok v -> key_fits mc n (val_bytes v) ->
  answers_like c (key_cmp_fn unaligned_ok (sc_cmp mc)) v key -> computes c (key_order (sc_tree_flags mc)) v key.
Proof.
  intros Hc Hn Hk [HKc _] Hv [HVc _] (r & r' & Er & Er' & Hs & Hr). exists r. split_and!; [done| |lia|lia]. rewrite Hs.
  rewrite Hc, keycmp_of_builtin in Er'.
  destruct (builtin_keycmp_spec unaligned_ok (sc_tree_flags mc) n v key Hv Hk) as (r2 & E2 & Hs2 & _).
  { intros Hint. unfold key_class in *. rewrite Hint in *. rewrite val_len_bytes in HKc, HVc by done. naive_solver. }
  rewrite E2 in Er'. by simplify_eq.
Qed.

Lemma answers_builtin mc a b : sc_cmp mc = keycmp_of (sc_tree_flags mc) -> answers mc a b.
Proof. intros E. unfold answers. rewrite E. unfold keycmp_of. by destruct (has _ _); [|destruct (has _ _)]. Qed.

(** The premises of a search and what it is to find. *)
Record searchable (mc : scursor) (n : Z) (ns : list anode) (key : MDBX_val) : Prop := {
  se_cmp : sc_cmp mc = keycmp_of (sc_tree_flags mc);
  se_usual : has (sc_tree_flags mc) MDBX_DUPFIXED && sc_inner mc = false;
  se_nodes : page_nodes (sc_pg mc) ns;
  se_some : (if is_branch (sc_pg mc) then 1 else 0) < zlen ns;
  se_n : n = 4 \/ n = 8;
  se_key : val_ok key;
  se_fits : key_fits mc n (val_bytes key);
  se_all : Forall (key_fits mc n) (an_key <$> drop (if is_branch (sc_pg mc) then 1 else 0)%nat ns);
  se_sorted : StronglySorted (fun a b => key_order (sc_tree_flags mc) a b = Lt)
    (an_key <$> drop (if is_branch (sc_pg mc) then 1 else 0)%nat ns);
}.

Definition located (mc : scursor) (ns : list anode) (key : bytes) (less : list bytes) (exact : bool) : Prop :=
exists rest, an_key <$> drop (if is_branch (sc_pg mc) then 1 else 0)%nat ns = less ++ rest /\
  Forall (fun k => key_order (sc_tree_flags mc) k key = Lt) less /\
  (if exact then exists rest', rest = key :: rest' /\ Forall (fun k => key_order (sc_tree_flags mc) k key = Gt) rest'
   else Forall (fun k => key_order (sc_tree_flags mc) k key = Gt) rest).

Lemma searchable_located mc n ns key : searchable mc n ns key -> exists less exact, located mc ns (val_bytes key) less exact.
Proof.
  intros H. destruct (sorted_split (key_class (has (sc_tree_flags mc) MDBX_INTEGERKEY) n) (key_order (sc_tree_flags mc)) (val_bytes key)
    (an_key <$> drop (if is_branch (sc_pg mc) then 1 else 0)%nat ns)) as (less & rest & exact & E & Hl & Hr).
  - apply (se_fits _ _ _ _ H).
  - eapply Forall_impl; [apply (se_all _ _ _ _ H)|]. by intros k [? _].
  - apply (se_sorted _ _ _ _ H).
  - exists less, exact, rest. done.
Qed.

Lemma located_cut mc n ns key less exact (c : comparator) : searchable mc n ns key -> located mc ns (val_bytes key) less exact ->
  (forall v, val_ok v -> len_fits mc v -> len_fits mc key -> answers_like c (key_cmp_fn unaligned_ok (sc_cmp mc)) v key) ->
  let lo := if is_branch (sc_pg mc) then 1 else 0 in
  cut (fun i => k ← node_key_at unaligned_ok (sc_pg mc) i; c k key) lo (zlen ns) (lo + zlen less) exact.
Proof.
  intros H (rest & E & Hl & Hr) Hc lo. pose proof (se_fits _ _ _ _ H) as HKf. pose proof (se_key _ _ _ _ H) as HK.
  apply (cut_nodes _ _ _ _ _ _ (key_order (sc_tree_flags mc)) less rest).
  - apply (se_nodes _ _ _ _ H).
  - unfold lo. destruct (is_branch _); lia.
  - unfold lo. by destruct (is_branch _).
  - intros v k Hv Ek Hin. rewrite <- E in Hin. pose proof (se_all _ _ _ _ H) as Hall. rewrite Forall_forall in Hall.
    specialize (Hall k Hin). rewrite <- Ek in Hall.
    apply (variant_computes mc n); [apply (se_cmp _ _ _ _ H)|apply (se_n _ _ _ _ H)|done|done|done|done|].
    destruct Hall as [_ Hlen], HKf as [_ Hlen']. rewrite val_len_bytes in Hlen, Hlen' by done. by apply Hc.
  - done.
  - destruct exact; [|done]. destruct Hr as (rest' & -> & Hg). exists rest'. split_and!; [done| |done].
    apply (order_eq (P := key_class (has (sc_tree_flags mc) MDBX_INTEGERKEY) n)); by destruct HKf.
  - pose proof (se_some _ _ _ _ H). unfold lo. lia.
Qed.
(** The index of the key is one of the page's, or the one behind the last. *)
Lemma located_index mc ns key less exact : located mc ns key less exact ->
  let lo := if is_branch (sc_pg mc) then 1 else 0 in lo <= zlen ns ->
  lo + zlen less <= zlen ns /\ (exact = true -> lo + zlen less < zlen ns).
Proof.
  intros (rest & E & _ & Hr) lo Hlo. apply (f_equal zlen) in E. rewrite zlen_fmap, zlen_app in E. pose proof (zlen_nonneg rest).
  assert (exact = true -> 0 < zlen rest) as Hx by (intros ->; destruct Hr as (rest' & -> & _); zlia).
  unfold lo in *. unfold zlen in *. rewrite length_drop in E. destruct (is_branch (sc_pg mc)); split; [lia|intros Ht; specialize (Hx Ht); lia|lia|intros Ht; specialize (Hx Ht); lia].
Qed.

(** A search with a right variant finds the key's place. *)
Lemma variant_run mc n ns key less exact nm c : searchable mc n ns key -> located mc ns (val_bytes key) less exact -> variant_ok mc nm ->
  (branch_instance unaligned_ok mc nm = c \/
   exists bc lc diff, foliage_instance unaligned_ok mc nm false = (bc, lc, diff) /\ (c = bc \/ diff = true /\ c = lc)) ->
  let lo := if is_branch (sc_pg mc) then 1 else 0 in
  exists l st, branchless_search (Z.to_nat (zlen ns)) (fun i => k ← node_key_at unaligned_ok (sc_pg mc) i; c k key) lo (zlen ns - lo) 0 =
    Some (mk_found exact (lo + zlen less) l st) /\ (exact = false -> l = lo + zlen less).
Proof.
  intros H Hloc Hnm Hc lo. pose proof (se_some _ _ _ _ H) as Hsome. fold lo in Hsome.
  apply branchless_cut; [lia|unfold lo; destruct (is_branch _); lia|]. replace (lo + (zlen ns - lo)) with (zlen ns) by lia.
  apply (located_cut mc n); [done|done|]. intros v Hv Hlv Hlk.
  destruct (variant_like unaligned_ok mc nm v key Hnm Hv (se_key _ _ _ _ H) Hlv Hlk (answers_builtin mc v key (se_cmp _ _ _ _ H))) as [Hb Hf].
  destruct Hc as [<-|(bc & lc & diff & Ei & Hc)]; [done|]. destruct (Hf bc lc diff Ei) as [H1 H2].
  destruct Hc as [->|[Hd ->]]; [done|by apply H2].
Qed.
End Finds.

(** C26: for any page and any comparators that answer and are opposite to each
    other when their arguments are swapped, the branchless searches
    [SEARCH_FOLIAGE] (of nodes or of fixed-size items) and [SEARCH_BRANCH]
    return what the plain search [old_node_search] and [old_branch_search]
    returns: the index, whether the key was found, the node, and even the number
    of comparisons, which is what the debug mode of the code checks at run time.
    No order of the keys is assumed. *)
Theorem branchless_search_equivalent uok branch_cmp leaf_cmp different dupfixed cmp mp key :
  0 <= pg_lower mp < 65536 -> is_dupfix_leaf mp = dupfixed && negb (is_branch mp) ->
  opposite (fun i => k ← key_at uok mp i; used_cmp branch_cmp leaf_cmp different dupfixed mp k key)
    (fun i => k ← key_at uok mp i; cmp key k) (Z.land (pg_flags mp) P_BRANCH) (page_numkeys mp) ->
  (exists r, search_foliage uok branch_cmp leaf_cmp different dupfixed mp key = Some r /\ old_node_search uok cmp mp key = Some r) /\
  (is_branch mp = true -> 0 < page_numkeys mp ->
   exists r, search_branch uok branch_cmp mp key = Some r /\ old_branch_search uok cmp mp key = Some r).
Proof.
  intros Hl Hdf Hop. split; [by apply search_foliage_eq|]. intros Hbr Hn. apply search_branch_eq; [done|done| |done|].
  - by rewrite Hdf, Hbr, andb_false_r.
  - unfold used_cmp in Hop. rewrite branch_bit, Hbr in Hop. done.
Qed.

Lemma sample_key_at : key_at 0 sample_page 0 = Some (mk_val (pg_body sample_page) 62 1).
Proof. by vm_compute. Qed.

Lemma branchless_search_equivalent_witness :
  exists r, search_foliage 0 cmp_lexical null_comparator false false sample_page (sample_val [8]) = Some r /\
    old_node_search 0 ncmp_lexical sample_page (sample_val [8]) = Some r.
Proof.
  refine (proj1 (branchless_search_equivalent 0 cmp_lexical null_comparator false false ncmp_lexical sample_page (sample_val [8]) _ _ _)).
  - cbn. lia.
  - done.
  - intros i Hi. assert (i = 0) as -> by (vm_compute in Hi; destruct Hi; destruct i as [|[]|]; done).
    rewrite sample_key_at. exists (-1), 1. by vm_compute.
Defined.

(** The search on one page. *)
Lemma page_search_finds uok mc n ns key : searchable mc n ns key ->
  exists less exact steps, located mc ns (val_bytes key) less exact /\
    let mp := sc_pg mc in
    let ki := (if is_branch mp then 1 else 0) + zlen less in
    tree_search_foliage_configure uok mc key =
      Some ((ki, mk_sfr exact (if ki <? zlen ns then node_at mp ki else None), steps), mc) /\
    (is_branch mp = true -> is_dupfix_leaf mp = false ->
     tree_search_branch_configure uok mc key = Some (if exact then ki else ki - 1)).
Proof.
  intros H. destruct (searchable_located mc n ns key H) as (less & exact & Hloc).
  pose proof (se_nodes _ _ _ _ H) as Hp. pose proof (se_some _ _ _ _ H) as Hsome. destruct (page_nodes_numkeys _ _ Hp) as [Hnk Hn15].
  set (mp := sc_pg mc) in *. set (lo := if is_branch mp then 1 else 0) in *. assert (0 <= lo <= 1) as Hlo by (unfold lo; destruct (is_branch mp); lia).
  destruct (foliage_variant uok mc (se_usual _ _ _ _ H)) as (name & Ename & Hvar); [exists ns; split; [done|lia]|].
  pose proof (fun nm c => variant_run uok mc n ns key less exact nm c H Hloc) as Hrun. cbn zeta in Hrun. fold mp lo in Hrun.
  pose proof (located_index mc ns _ less exact Hloc) as [Hle Hltx]; [fold mp lo; lia|]. fold mp lo in Hle, Hltx.
  destruct (foliage_instance uok mc name false) as [[bc lc] diff] eqn:Ei.
  set (used := if (0 <? lo) || negb (diff || false) then bc else lc).
  destruct (Hrun name used Hvar) as (l & st & Erun & Hl).
  { right. exists bc, lc, diff. split; [done|]. unfold used. destruct (0 <? lo); [by left|]. destruct diff; cbn; [by right|by left]. }
  exists less, exact, st. split; [done|]. cbn zeta. fold mp lo. split.
  - unfold tree_search_foliage_configure. rewrite Ename. cbn [mbind option_bind]. rewrite Ei. unfold search_foliage. fold mp. rewrite Hnk, branch_bit. fold lo.
    destruct (Z.ltb_spec (zlen ns - 1) lo); [lia|].
    assert (forall X : option search_result, (r ← branchless_search (Z.to_nat (zlen ns)) (fun i => k ← node_key_at uok mp i; used k key) lo (zlen ns - lo) 0; finish_nodes mp (zlen ns) r) = X ->
      (if (0 <? lo) || negb (diff || false) then
        (r ← branchless_search (Z.to_nat (zlen ns)) (fun i => k ← node_key_at uok mp i; bc k key) lo (zlen ns - lo) 0; finish_nodes mp (zlen ns) r)
       else (r ← branchless_search (Z.to_nat (zlen ns)) (fun i => k ← node_key_at uok mp i; lc k key) lo (zlen ns - lo) 0; finish_nodes mp (zlen ns) r)) = X) as Hsel.
    { intros X. unfold used. by destruct ((0 <? lo) || negb (diff || false)). }
    rewrite (Hsel _ eq_refl), Erun. cbn [mbind option_bind]. unfold finish_nodes. cbn [fa_exact fa_it fa_steps].
    unfold u16. rewrite wrap_small by zlia.
    destruct (Z.ltb_spec (lo + zlen less) (zlen ns)) as [Hlt|Hge].
    + destruct (zget_in ns (lo + zlen less)) as [nd Hnd]; [zlia|]. destruct (node_key_at_spec uok mp ns _ nd Hp Hnd) as (v & o & _ & Eo & _).
      unfold node_at. rewrite Eo. by destruct exact.
    + destruct exact; [|done]. specialize (Hltx eq_refl). lia.
  - intros Hbr Hdf. destruct (branch_variant uok mc ns Hp Hbr Hdf) as (nm & Enm & Hnm); [unfold lo in Hsome; rewrite Hbr in Hsome; lia|].
    destruct (Hrun nm (branch_instance uok mc nm) Hnm) as (l' & st' & Erun' & Hl'); [by left|].
    unfold tree_search_branch_configure, search_branch. rewrite Enm. cbn [mbind option_bind]. fold mp. rewrite Hnk.
    assert (lo = 1) as Elo by (unfold lo; by rewrite Hbr). rewrite Elo in *. destruct (Z.ltb_spec 1 (zlen ns)); [|lia].
    rewrite Erun'. cbn. f_equal. destruct exact; [done|]. rewrite Hl' by done. done.
Qed.

(** C10: a page of a table with one of the built-in key orders, whose keys are
    in strict order (from the second node on, on a branch page), is searched by
    the variant of the search that the table's comparator and flags select:
    the cursor's index becomes the place of the key, the number of keys before
    it being those that are less; [exact] says whether the key is there; the
    node is the one at that index, if any. On a branch page the child to
    follow is the last one whose key is not greater than the key. *)
Theorem tree_search_finds uok mc n ns key : searchable mc n ns key ->
  exists less exact steps, located mc ns (val_bytes key) less exact /\
    let mp := sc_pg mc in
    let ki := (if is_branch mp then 1 else 0) + zlen less in
    tree_search_foliage_configure uok mc key =
      Some ((ki, mk_sfr exact (if ki <? zlen ns then node_at mp ki else None), steps), mc) /\
    (is_branch mp = true -> is_dupfix_leaf mp = false ->
     tree_search_branch_configure uok mc key = Some (if exact then ki else ki - 1)).
Proof. apply page_search_finds. Qed.

Lemma tree_search_finds_witness :
  exists less exact steps, located (mk_sc sample_page K_lexical 0 0 false false 0 30) [sample_node] [8] less exact /\
    tree_search_foliage_configure 0 (mk_sc sample_page K_lexical 0 0 false false 0 30) (sample_val [8]) =
      Some ((zlen less, mk_sfr exact (if zlen less <? 1 then node_at sample_page (zlen less) else None), steps), mk_sc sample_page K_lexical 0 0 false false 0 30).
Proof.
  destruct (tree_search_finds 0 (mk_sc sample_page K_lexical 0 0 false false 0 30) 4 [sample_node] (sample_val [8])) as (less & exact & steps & Hloc & E & _).
  - split; [done|done|apply sample_page_nodes|done|by left|by apply sample_val_ok|by vm_compute| |].
    + constructor; [by vm_compute|constructor].
    + constructor; constructor.
  - exists less, exact, steps. split; [exact Hloc|exact E].
Defined.
