(* ===== verification/Cogs.v ===== *)
(** * Packed page counts, rounding, size limits ([src/src/cogs.c], [cogs.h],
      [env.c], [page-ops.c], [tree-ops.c])

    The growth step and the shrink threshold are kept in a meta-page as 16-bit
    codes ([pv]): small counts as they are, greater ones with a three bit
    exponent and an eleven bit mantissa. The other half of the file is the
    arithmetic that derives the limits of nodes, keys and values from the page
    size, and the thresholds of sub-pages. *)

From stdpp Require Import base numbers option list.
From Stdlib Require Import ZArith Lia.
From S2P Require Import Prelude Bits Alloc Pnl Bytes Cmp Page.

(** ** Packed page counts *)

Definition me2v (m e : Z) : Z := u32 (32768 + Z.shiftl (m + 1) (e + 8)).

Definition v2me (v e : Z) : Z :=
let m := Z.shiftr (u64 (v - 32768 + Z.shiftl 1 (e + 8) - 1)) (e + 8) in
let m := if 0 <? m then m - 1 else m in
u16 (0x8001 + Z.shiftl e 12 + Z.shiftl m 1).

Definition pv2pages (pv : Z) : Z :=
if negb (Z.land pv 0x8001 =? 0x8001) then pv
else if pv =? 65535 then 65536
else me2v (Z.land (Z.shiftr pv 1) 2047) (Z.land (Z.shiftr pv 12) 7).

Definition pages2pv (pages : Z) : Z :=
if (pages <? 32769) || ((pages <? 65536) && (Z.land pages 1 =? 0)) then u16 pages
else if pages <=? me2v 2047 0 then v2me pages 0
else if pages <=? me2v 2047 1 then v2me pages 1
else if pages <=? me2v 2047 2 then v2me pages 2
else if pages <=? me2v 2047 3 then v2me pages 3
else if pages <=? me2v 2047 4 then v2me pages 4
else if pages <=? me2v 2047 5 then v2me pages 5
else if pages <=? me2v 2047 6 then v2me pages 6
else if pages <? me2v 2046 7 then v2me pages 7 else 65533.

(** One turn of the loop of [pv2pages_verify] per code, from [i] on. *)
Fixpoint pv_verify_from (n : nat) (i : Z) (ok : bool) : bool :=
match n with
| O => ok
| S n =>
  let pages := pv2pages i in
  let x := pages2pv pages in
  let xp := pv2pages (u16 x) in
  pv_verify_from n (i + 1) (if negb (pages =? xp) then false else ok)
end.
Definition pv2pages_verify : bool := pv_verify_from (Z.to_nat 65536) 0 true.

(** ** Rounding to the units of the system *)

Record globals : Type := mk_globals {
  sys_pagesize : Z;
  sys_allocation_granularity : Z;
  mmap_limit : Z;
  reasonable_db_maxsize : Z;
}.

(** [MDBX_ROUNDING_TO_ALLOCATION_GRANULARITY], off by default. *)
Definition sys_unit (rounding : bool) (g : globals) : Z :=
if rounding then sys_allocation_granularity g else sys_pagesize g.

Definition bytes_ceil2sp_bytes (g : globals) (env : page_env) (n : Z) : Z :=
ceil_powerof2 n (if sys_pagesize g <? env_ps env then env_ps env else sys_pagesize g).
Definition bytes_ceil2sp_pgno (g : globals) (env : page_env) (n : Z) : Z := bytes2pgno env (bytes_ceil2sp_bytes g env n).
Definition pgno_ceil2sp_bytes (g : globals) (env : page_env) (pgno : Z) : Z :=
ceil_powerof2 (pgno2bytes env pgno) (sys_pagesize g).
Definition pgno_ceil2sp_pgno (g : globals) (env : page_env) (pgno : Z) : Z :=
bytes2pgno env (pgno_ceil2sp_bytes g env pgno).
Definition bytes_ceil2os_bytes (rounding : bool) (g : globals) (env : page_env) (n : Z) : Z :=
let u := sys_unit rounding g in ceil_powerof2 n (if u <? env_ps env then env_ps env else u).
Definition bytes_ceil2os_pgno (rounding : bool) (g : globals) (env : page_env) (n : Z) : Z :=
bytes2pgno env (bytes_ceil2os_bytes rounding g env n).
Definition pgno_ceil2os_bytes (rounding : bool) (g : globals) (env : page_env) (pgno : Z) : Z :=
ceil_powerof2 (pgno2bytes env pgno) (sys_unit rounding g).
Definition pgno_ceil2os_pgno (rounding : bool) (g : globals) (env : page_env) (pgno : Z) : Z :=
bytes2pgno env (pgno_ceil2os_bytes rounding g env pgno).

(** ** Durability flags *)

Definition F_ISSET (w f : Z) : bool := Z.land w f =? f.
Definition MDBX_SAFE_NOSYNC : Z := 0x10000.
Definition MDBX_NOMETASYNC : Z := 0x40000.
Definition MDBX_WRITEMAP : Z := 0x80000.
Definition DEPRECATED_MAPASYNC : Z := 0x100000.
Definition MDBX_UTTERLY_NOSYNC : Z := Z.lor MDBX_SAFE_NOSYNC 0x100000.

Definition combine_durability_flags (a b : Z) : Z :=
let r := Z.lor a b in
let r := if F_ISSET r MDBX_UTTERLY_NOSYNC && negb (F_ISSET a MDBX_UTTERLY_NOSYNC) && negb (F_ISSET b MDBX_UTTERLY_NOSYNC)
         then Z.lor (u32 (r - MDBX_UTTERLY_NOSYNC)) MDBX_SAFE_NOSYNC else r in
let r := if F_ISSET r (Z.lor MDBX_WRITEMAP DEPRECATED_MAPASYNC) && negb (F_ISSET r MDBX_UTTERLY_NOSYNC)
         then Z.lor (u32 (r - DEPRECATED_MAPASYNC)) MDBX_SAFE_NOSYNC else r in
if has r (Z.lor MDBX_SAFE_NOSYNC MDBX_UTTERLY_NOSYNC) then Z.lor r MDBX_NOMETASYNC else r.

(** ** Limits of keys and values *)

Definition MDBX_MIN_PAGESIZE : Z := 256.
Definition MDBX_MAX_PAGESIZE : Z := 65536.
Definition MAX_GC1OVPAGE (pagesize : Z) : Z := PAGESPACE pagesize / sizeof_pgno - 1.
Definition DUP_FLAGS : Z := Z.lor MDBX_DUPSORT (Z.lor MDBX_DUPFIXED (Z.lor MDBX_REVERSEDUP MDBX_INTEGERDUP)).

Definition keysize_max (pagesize flags : Z) : Z :=
if has flags MDBX_INTEGERKEY then 8
else
  let max_branch_key := BRANCH_NODE_MAX pagesize - NODESIZE in
  if has flags DUP_FLAGS then
    let max_dupsort_leaf_key := LEAF_NODE_MAX pagesize - NODESIZE - sizeof_tree in
    if max_branch_key <? max_dupsort_leaf_key then max_branch_key else max_dupsort_leaf_key
  else max_branch_key.

Definition env_keysize_max (env : page_env) (flags : Z) : Z :=
if has flags MDBX_INTEGERKEY then 8
else
  let max_branch_key := env_branch_nodemax env - NODESIZE in
  if has flags DUP_FLAGS then
    let max_dupsort_leaf_key := env_leaf_nodemax env - NODESIZE - sizeof_tree in
    if max_branch_key <? max_dupsort_leaf_key then max_branch_key else max_dupsort_leaf_key
  else max_branch_key.

Definition keysize_min (flags : Z) : Z := if has flags MDBX_INTEGERKEY then 4 else 0.
Definition valsize_min (flags : Z) : Z :=
if has flags MDBX_INTEGERDUP then 4 else if has flags MDBX_DUPFIXED then sizeof_indx else 0.

(** The tail the two functions below share: [page_ln2] is the binary logarithm
    of the page size. *)
Definition plain_valsize_max (g : globals) (page_ln2 : Z) : Z :=
let hard := 0x7FF00000 in
let hard_pages := Z.shiftr hard page_ln2 in
let pages_limit := PAGELIST_LIMIT / 4 in
let limit := if hard_pages <? pages_limit then hard else u64 (Z.shiftl pages_limit page_ln2) in
if limit <? mmap_limit g / 2 then limit else mmap_limit g / 2.

Definition valsize_max (g : globals) (pagesize flags : Z) : option Z :=
if has flags MDBX_INTEGERDUP then Some 8
else if has flags (Z.lor MDBX_DUPSORT (Z.lor MDBX_DUPFIXED MDBX_REVERSEDUP)) then Some (keysize_max pagesize 0)
else page_ln2 ← log2n_powerof2 pagesize; Some (plain_valsize_max g page_ln2).

Definition env_valsize_max (g : globals) (env : page_env) (flags : Z) : Z :=
if has flags MDBX_INTEGERDUP then 8
else if has flags (Z.lor MDBX_DUPSORT (Z.lor MDBX_DUPFIXED MDBX_REVERSEDUP)) then env_keysize_max env 0
else plain_valsize_max g (env_ps2ln env).

Definition flags_db2sub (db_flags : Z) : Z :=
let sub_flags := Z.land db_flags MDBX_DUPFIXED in
let sub_flags := Z.lor sub_flags (Z.shiftr (Z.land db_flags MDBX_INTEGERDUP) 2) in
Z.lor sub_flags (Z.shiftr (Z.land db_flags MDBX_REVERSEDUP) 5).

Definition check_table_flags (flags : Z) : bool :=
let keybits := Z.lor MDBX_REVERSEKEY MDBX_INTEGERKEY in
let rest := Z.land flags (u32 (Z.lnot keybits)) in
if existsb (Z.eqb rest)
     [ MDBX_DUPSORT; Z.lor MDBX_DUPSORT MDBX_REVERSEDUP; Z.lor MDBX_DUPSORT MDBX_DUPFIXED;
       Z.lor MDBX_DUPSORT (Z.lor MDBX_DUPFIXED MDBX_REVERSEDUP); Z.lor MDBX_DUPSORT (Z.lor MDBX_DUPFIXED MDBX_INTEGERDUP);
       Z.lor MDBX_DUPSORT (Z.lor MDBX_DUPFIXED (Z.lor MDBX_INTEGERDUP MDBX_REVERSEDUP)); 0 ]
then negb (Z.land flags keybits =? keybits) else false.

(** ** Page size and thresholds *)

Record subpage_options : Type := mk_subopts {
  opt_limit : Z;
  opt_reserve_limit : Z;
  opt_room_threshold : Z;
  opt_reserve_prereq : Z;
}.

Record thresholds : Type := mk_thresholds {
  merge_threshold : Z;
  subpage_limit : Z;
  subpage_reserve_limit : Z;
  subpage_room_threshold : Z;
  subpage_reserve_prereq : Z;
}.

Definition recalculate_merge_thresholds (env : page_env) (merge_threshold_dot16 : Z) : Z :=
let whole_page_space := page_space env in
u16 (whole_page_space - Z.shiftr (whole_page_space * merge_threshold_dot16) 16).

Definition dot16 (whole part : Z) : Z := u16 (Z.shiftr (u64 (whole * part + 32767)) 16).

Definition recalculate_subpage_thresholds (env : page_env) (o : subpage_options) : Z * Z * Z * Z :=
let limit := dot16 (env_leaf_nodemax env - NODESIZE) (opt_limit o) in
let reserve_limit := dot16 limit (opt_reserve_limit o) in
let room_threshold := dot16 (env_leaf_nodemax env) (opt_room_threshold o) in
let reserve_prereq := dot16 (env_leaf_nodemax env) (opt_reserve_prereq o) in
let reserve_prereq :=
  if page_space env <? room_threshold + reserve_limit then u16 (page_space env)
  else if reserve_prereq <? room_threshold + reserve_limit then u16 (room_threshold + reserve_limit)
  else reserve_prereq in
(limit, reserve_limit, room_threshold, reserve_prereq).

Record pagesize_setup : Type := mk_setup {
  ps_env : page_env;
  maxgc_large1page : Z;
  maxgc_per_branch : Z;
  ps_thresholds : thresholds;
}.

Definition sizeof_txnid : Z := 8.

(** [None] is the panic of a failed [ENSURE_OBJ]. [old_ps] is [env->ps] before
    the call, [auxbuf] tells whether [env->page_auxbuf] is set; the limit of
    dirty pages, which [env_options_adjust_dp_limit] takes from the RAM of the
    system, is not part of the result. *)
Definition env_setup_pagesize (old_ps : Z) (auxbuf : bool) (merge_threshold_dot16 : Z) (o : subpage_options)
  (pagesize : Z) : option pagesize_setup :=
if negb (is_powerof2 pagesize) then None
else if negb (MDBX_MIN_PAGESIZE <=? pagesize) then None
else if negb (pagesize <=? MDBX_MAX_PAGESIZE) then None
else if negb (negb auxbuf && negb (old_ps =? pagesize)) then None
else
  let ps := u32 pagesize in
  let maxgc_ov1page := (pagesize - PAGEHDRSZ) / sizeof_pgno - 1 in
  if negb ((42 <? maxgc_ov1page) && (maxgc_ov1page <? PAGELIST_LIMIT / 4)) then None
  else
    let per_branch := u32 ((pagesize - PAGEHDRSZ) / (sizeof_indx + NODESIZE + sizeof_txnid)) in
    let branch_nodemax := BRANCH_NODE_MAX pagesize in
    let leaf_nodemax := LEAF_NODE_MAX pagesize in
    if negb ((NODESIZE + 42 <? branch_nodemax) && (branch_nodemax mod 2 =? 0)
             && (sizeof_tree + NODESIZE + 42 <? leaf_nodemax) && (branch_nodemax <=? leaf_nodemax)
             && (leaf_nodemax <? 65535) && (leaf_nodemax mod 2 =? 0)) then None
    else
      ps2ln ← log2n_powerof2 pagesize;
      let env := mk_env ps (u8 ps2ln) (u16 leaf_nodemax) (u16 branch_nodemax) in
      let merge := recalculate_merge_thresholds env merge_threshold_dot16 in
      let '(limit, reserve_limit, room_threshold, reserve_prereq) := recalculate_subpage_thresholds env o in
      Some (mk_setup env (u32 maxgc_ov1page) per_branch (mk_thresholds merge limit reserve_limit room_threshold reserve_prereq)).

(** Up to five spare items behind a sub-page of fixed-size items. *)
Fixpoint subleaf2_loop (n : nat) (t : thresholds) (host_page_room subpage_len item_len reserve : Z) : Z * Z :=
match n with
| O => (subpage_len, reserve)
| S n =>
  if (reserve + item_len <=? subpage_reserve_limit t)
     && (EVEN_CEIL (subpage_len + item_len) <=? subpage_limit t)
     && (subpage_reserve_prereq t + EVEN_CEIL (subpage_len + item_len) <=? host_page_room)
  then subleaf2_loop n t host_page_room (subpage_len + item_len) item_len (reserve + item_len)
  else (subpage_len, reserve)
end.
Definition page_subleaf2_reserve (t : thresholds) (host_page_room subpage_len item_len : Z) : Z :=
let '(subpage_len, reserve) := subleaf2_loop 5 t host_page_room subpage_len item_len 0 in
reserve + Z.land subpage_len 1.

(** ** Packed counts round up *)

(** A boolean test over a range of integers, counting up in [Z]. *)
Fixpoint range_b (P : Z -> bool) (n : nat) (lo : Z) : bool :=
match n with O => true | S n => P lo && range_b P n (lo + 1) end.

Lemma range_b_spec P n lo i : range_b P n lo = true -> lo <= i < lo + Z.of_nat n -> P i = true.
Proof.
  revert lo. induction n as [|n IH]; intros lo; cbn; [lia|].
  intros [H1 H2]%andb_prop Hi. destruct (decide (i = lo)) as [->|]; [done|]. apply (IH (lo + 1)); [done|lia].
Qed.

Definition pv_code (e m : Z) : Z := 0x8001 + e * 4096 + 2 * m.

Lemma pv_codes_decode :
  range_b (λ e, range_b (λ m, (pv2pages (pv_code e m) =? 32768 + (m + 1) * 2 ^ (e + 8)) && (pv_code e m <? 65536))
                        (Z.to_nat (if e =? 7 then 2047 else 2048)) 0) 8 0 = true.
Proof. vm_cast_no_check (eq_refl true). Qed.

Lemma pv_code_decode e m : 0 <= e < 8 -> 0 <= m < (if e =? 7 then 2047 else 2048) ->
  pv2pages (pv_code e m) = 32768 + (m + 1) * 2 ^ (e + 8) /\ pv_code e m < 65536.
Proof.
  intros He Hm. pose proof (range_b_spec _ _ _ e pv_codes_decode He) as H. cbv beta in H.
  pose proof (range_b_spec _ _ _ m H ltac:(destruct (e =? 7); lia)) as H'. cbv beta in H'.
  apply andb_prop in H' as [H1 H2]. split; [by apply Z.eqb_eq|by apply Z.ltb_lt].
Qed.

(** The counts packed with exponent [e]. *)
Definition pv_base (e : Z) : Z := if e =? 0 then 32768 else 32768 + 1024 * 2 ^ (e + 8).
Definition pv_top (e : Z) : Z := 32768 + (if e =? 7 then 2047 else 2048) * 2 ^ (e + 8).
Definition pv_direct (x : Z) : bool := (x <? 32769) || ((x <? 65536) && (Z.land x 1 =? 0)).

Lemma pv_class x : 32768 < x <= 2 ^ 26 -> exists e, 0 <= e < 8 /\ pv_base e < x <= pv_top e.
Proof.
  intros Hx.
  destruct (decide (x <= pv_top 0)); [exists 0|destruct (decide (x <= pv_top 1)); [exists 1|
  destruct (decide (x <= pv_top 2)); [exists 2|destruct (decide (x <= pv_top 3)); [exists 3|
  destruct (decide (x <= pv_top 4)); [exists 4|destruct (decide (x <= pv_top 5)); [exists 5|
  destruct (decide (x <= pv_top 6)); [exists 6|exists 7]]]]]]];
  (split; [lia|]); cbv -[Z.le Z.lt not] in *; lia.
Qed.

Lemma v2me_code x e : 0 <= e < 8 -> pv_base e < x <= pv_top e ->
  let c := (x - 32768 + 2 ^ (e + 8) - 1) / 2 ^ (e + 8) in
  v2me x e = pv_code e (c - 1) /\ 1 <= c <= (if e =? 7 then 2047 else 2048) /\
  x <= 32768 + c * 2 ^ (e + 8) < x + 2 ^ (e + 8).
Proof.
  intros He Hx c. set (K := 2 ^ (e + 8)) in *.
  assert (256 <= K <= 32768) as HK by (unfold K; split; [apply (Z.pow_le_mono_r 2 8)|apply (Z.pow_le_mono_r 2 _ 15)]; lia).
  assert (32768 < x) as Hlo by (unfold pv_base in Hx; destruct (e =? 0); lia).
  assert (c <= (if e =? 7 then 2047 else 2048)) as Hc2.
  { unfold c, pv_top in *. fold K in Hx. apply Z.lt_succ_r, Z.div_lt_upper_bound; lia. }
  assert (1 <= c) as Hc1 by (unfold c; apply Z.div_le_lower_bound; lia).
  pose proof (Z.mul_div_le (x - 32768 + K - 1) K ltac:(lia)) as Hm1.
  pose proof (Z.mul_succ_div_gt (x - 32768 + K - 1) K ltac:(lia)) as Hm2. fold c in Hm1, Hm2.
  assert (c <= 2048) by (destruct (e =? 7); lia).
  split; [|split; [lia|lia]].
  unfold v2me. rewrite Z.shiftl_1_l. fold K. rewrite u64_small by (unfold UINT64_MAX, pv_top in *; destruct (e =? 7); lia).
  rewrite Z.shiftr_div_pow2 by lia. fold K c. rewrite (proj2 (Z.ltb_lt 0 c)) by lia.
  rewrite !Z.shiftl_mul_pow2 by lia. unfold pv_code, u16, wrap.
  rewrite Z.mod_small; [lia|]. destruct (e =? 7) eqn:E; [apply Z.eqb_eq in E; subst|apply Z.eqb_neq in E]; lia.
Qed.

(** The bounds the encoder compares with, evaluated. *)
Ltac pv_bounds :=
  change (me2v 2047 0) with 557056; change (me2v 2047 1) with 1081344; change (me2v 2047 2) with 2129920;
  change (me2v 2047 3) with 4227072; change (me2v 2047 4) with 8421376; change (me2v 2047 5) with 16809984;
  change (me2v 2047 6) with 33587200; change (me2v 2046 7) with 67108864.

Lemma pages2pv_saturates x : 2 ^ 26 <= x -> pages2pv x = 65533.
Proof.
  intros Hx. unfold pages2pv. pv_bounds. rewrite (proj2 (Z.ltb_ge x 32769)), (proj2 (Z.ltb_ge x 65536)) by lia.
  cbn [orb andb]. repeat case_match; try done; lia.
Qed.

Lemma pages2pv_class x e : pv_direct x = false -> 0 <= e < 8 -> pv_base e < x <= pv_top e -> pages2pv x = v2me x e.
Proof.
  intros Hd He Hx. unfold pages2pv. change ((x <? 32769) || _) with (pv_direct x). rewrite Hd.
  pv_bounds.
  assert (e = 0 \/ e = 1 \/ e = 2 \/ e = 3 \/ e = 4 \/ e = 5 \/ e = 6 \/ e = 7) as Hc by lia.
  destruct Hc as [->|[->|[->|[->|[->|[->|[->| ->]]]]]]]; cbv [pv_base pv_top Z.eqb Pos.eqb] in Hx;
    repeat case_match; try done; try lia.
  assert (x = 67108864) as -> by lia. done.
Qed.

Lemma pv_direct_check : range_b (λ x, negb (pv_direct x) || ((pv2pages x =? x) && (pages2pv x =? x))) (Z.to_nat 65536) 0 = true.
Proof. vm_cast_no_check (eq_refl true). Qed.

Lemma pv_direct_range x : pv_direct x = true -> x < 65536.
Proof. unfold pv_direct. intros [?%Z.ltb_lt|[?%Z.ltb_lt _]%andb_prop]%orb_prop; lia. Qed.

Lemma pv_direct_id x : 0 <= x -> pv_direct x = true -> pv2pages x = x /\ pages2pv x = x.
Proof.
  intros H0 Hd. pose proof (pv_direct_range x Hd).
  pose proof (range_b_spec _ _ _ x pv_direct_check ltac:(lia)) as H1. cbv beta in H1. rewrite Hd in H1.
  apply andb_prop in H1 as [?%Z.eqb_eq ?%Z.eqb_eq]. done.
Qed.

Lemma pages2pv_packed x : 0 <= x <= 2 ^ 26 -> pv_direct x = false ->
  exists e c, 0 <= e < 8 /\ 1 <= c /\ pages2pv x = pv_code e (c - 1) /\ pv_code e (c - 1) < 65536 /\
    let p := 32768 + c * 2 ^ (e + 8) in
    pv2pages (pages2pv x) = p /\ x <= p /\ 128 * (p - x) <= x /\ (pv_direct p = false -> pages2pv p = pages2pv x).
Proof.
  intros Hx Hd.
  assert (32768 < x) as Hlo by (unfold pv_direct in Hd; apply orb_false_elim in Hd as [?%Z.ltb_ge _]; lia).
  destruct (pv_class x ltac:(lia)) as (e & He & Hxe).
  pose proof (v2me_code x e He Hxe) as Hv. cbn zeta in Hv. set (c := _ / _) in Hv.
  destruct Hv as (Hv & Hc & Hp1 & Hp2).
  exists e, c. split; [done|]. split; [lia|]. rewrite (pages2pv_class x e) by done. split; [done|].
  destruct (pv_code_decode e (c - 1) He ltac:(lia)) as [Hdec Hlt]. split; [done|]. cbn zeta.
  assert (2 ^ (e + 8) * 1024 = 2 ^ (e + 18)) as HK by (replace (e + 18) with (e + 8 + 10) by lia; rewrite (Z.pow_add_r 2 (e + 8)); lia).
  assert (0 < 2 ^ (e + 8)) by lia.
  split; [rewrite Hv, Hdec; lia|]. split; [lia|]. split.
  - unfold pv_base in Hxe. destruct (e =? 0) eqn:E; [|lia]. apply Z.eqb_eq in E as ->. change (2 ^ (0 + 8)) with 256 in *. lia.
  - intros Hdp. set (p := 32768 + c * 2 ^ (e + 8)) in *.
    assert (pv_base e < p <= pv_top e) as Hpe by (unfold p, pv_top in *; nia).
    rewrite (pages2pv_class p e) by done.
    pose proof (v2me_code p e He Hpe) as Hv'. cbn zeta in Hv'. destruct Hv' as [Hv' _]. rewrite Hv', Hv. f_equal.
    unfold p. replace (32768 + c * 2 ^ (e + 8) - 32768 + 2 ^ (e + 8) - 1) with (2 ^ (e + 8) - 1 + c * 2 ^ (e + 8)) by lia.
    rewrite Z.div_add, Z.div_small by lia. lia.
Qed.

(** The counts for which encoding, decoding and encoding again changes the
    code. *)
Definition pv_unstable (x : Z) : bool := Z.odd x && (32768 <? x) && (x <? 65280).

Lemma pv_stable_check : range_b (λ x, Bool.eqb (pages2pv (pv2pages (pages2pv x)) =? pages2pv x) (negb (pv_unstable x)))
                          (Z.to_nat 65536) 0 = true.
Proof. vm_cast_no_check (eq_refl true). Qed.

Lemma pv_stable_iff x : 0 <= x -> pages2pv (pv2pages (pages2pv x)) = pages2pv x <-> pv_unstable x = false.
Proof.
  intros Hx. destruct (decide (x < 65536)) as [Hs|Hl].
  - pose proof (range_b_spec _ _ _ x pv_stable_check ltac:(lia)) as H. cbv beta in H. apply Bool.eqb_prop in H.
    rewrite <- Z.eqb_eq, H. by destruct (pv_unstable x).
  - assert (pv_unstable x = false) as -> by (apply andb_false_intro2, Z.ltb_ge; lia).
    split; [done|intros _].
    assert (pv_direct x = false) as Hd by (apply not_true_is_false; intros E%pv_direct_range; lia).
    destruct (decide (x <= 2 ^ 26)) as [Hb|Hb].
    + destruct (pages2pv_packed x ltac:(lia) Hd) as (e & c & _ & _ & _ & _ & Hp & Hxp & _ & Hst).
      rewrite Hp. apply Hst, not_true_is_false. intros E%pv_direct_range. lia.
    + by rewrite (pages2pv_saturates x) by lia.
Qed.

Lemma pv_rounds x : 0 <= x -> let p := pv2pages (pages2pv x) in
  0 <= pages2pv x < 65536 /\ pv2pages (pages2pv p) = p /\
  (x <= 2 ^ 26 -> x <= p /\ 128 * (p - x) <= x) /\ (2 ^ 26 <= x -> p = 2 ^ 26).
Proof.
  intros Hx. cbn zeta. destruct (decide (x < 2 ^ 26)) as [Hb|Hb].
  - destruct (pv_direct x) eqn:Hd.
    + destruct (pv_direct_id x Hx Hd) as [H1 H2]. pose proof (pv_direct_range x Hd). rewrite ?H2, ?H1, ?H2, ?H1. lia.
    + destruct (pages2pv_packed x ltac:(lia) Hd) as (e & c & He & Hc & Hpv & Hlt & Hp & Hxp & Herr & Hst).
      split; [unfold pv_code in *; lia|]. rewrite Hp. split; [|split; lia].
      destruct (pv_direct (32768 + c * 2 ^ (e + 8))) eqn:E; [|by rewrite Hst].
      apply pv_direct_id in E as [E1 E2]; [|lia]. by rewrite E2.
  - rewrite pages2pv_saturates by lia. change (pv2pages 65533) with (2 ^ 26). split; [lia|]. split; [done|]. lia.
Qed.

Lemma pv_verify_true : pv2pages_verify = true.
Proof. vm_cast_no_check (eq_refl true). Qed.

(** ** Limits derived from the page size *)

(** [get_option]/[set_option] keep the merge threshold between an eighth and a
    half and the sub-page options in sixteen bits. *)
Definition merge_option_ok (d : Z) : Prop := 8192 <= d <= 32768.
Definition subopts_ok (o : subpage_options) : Prop :=
0 <= opt_limit o < 65536 /\ 0 <= opt_reserve_limit o < 65536 /\ 0 <= opt_room_threshold o < 65536 /\
0 <= opt_reserve_prereq o < 65536.

Lemma dot16_bounds whole part : 0 <= whole < 65536 -> 0 <= part < 65536 -> 0 <= dot16 whole part <= whole.
Proof.
  intros Hw Hp. unfold dot16. rewrite u64_small by (unfold UINT64_MAX; nia).
  rewrite Z.shiftr_div_pow2 by lia.
  assert (0 <= (whole * part + 32767) / 2 ^ 16 <= whole).
  { split; [apply Z.div_pos; nia|]. apply Z.lt_succ_r, Z.div_lt_upper_bound; nia. }
  unfold u16, wrap. rewrite Z.mod_small; lia.
Qed.

Definition thresholds_ok (env : page_env) (t : thresholds) : Prop :=
page_space env / 2 <= merge_threshold t <= page_space env * 63 / 64 /\
subpage_limit t + NODESIZE <= env_leaf_nodemax env /\
subpage_reserve_limit t <= subpage_limit t /\
subpage_room_threshold t + subpage_reserve_limit t <= subpage_reserve_prereq t <= page_space env.

Lemma merge_threshold_ok env d : merge_option_ok d -> 200 <= page_space env < 65536 ->
  page_space env / 2 <= recalculate_merge_thresholds env d <= page_space env * 63 / 64.
Proof.
  unfold merge_option_ok, recalculate_merge_thresholds. intros Hd Hs. set (s := page_space env) in *.
  rewrite Z.shiftr_div_pow2 by lia.
  assert (s / 8 <= s * d / 2 ^ 16 <= s / 2) as Hb.
  { split; [transitivity (s * 8192 / 2 ^ 16)|transitivity (s * 32768 / 2 ^ 16)].
    - Z.div_mod_to_equations; lia.
    - apply Z.div_le_mono; nia.
    - apply Z.div_le_mono; nia.
    - Z.div_mod_to_equations; lia. }
  unfold u16, wrap. rewrite Z.mod_small by (Z.div_mod_to_equations; lia). Z.div_mod_to_equations; lia.
Qed.

Lemma subpage_thresholds_ok env o : subopts_ok o ->
  8 <= env_leaf_nodemax env -> 2 * env_leaf_nodemax env <= page_space env < 65536 ->
  let '(limit, rlimit, room, prereq) := recalculate_subpage_thresholds env o in
  limit + NODESIZE <= env_leaf_nodemax env /\ rlimit <= limit /\ room + rlimit <= prereq <= page_space env.
Proof.
  unfold subopts_ok, recalculate_subpage_thresholds, NODESIZE. intros Ho Hl Hs.
  pose proof (dot16_bounds (env_leaf_nodemax env - 8) (opt_limit o) ltac:(lia) ltac:(lia)) as H1.
  set (limit := dot16 (env_leaf_nodemax env - 8) (opt_limit o)) in *.
  pose proof (dot16_bounds limit (opt_reserve_limit o) ltac:(lia) ltac:(lia)) as H2.
  pose proof (dot16_bounds (env_leaf_nodemax env) (opt_room_threshold o) ltac:(lia) ltac:(lia)) as H3.
  pose proof (dot16_bounds (env_leaf_nodemax env) (opt_reserve_prereq o) ltac:(lia) ltac:(lia)) as H4.
  split; [lia|]. split; [lia|].
  rewrite (proj2 (Z.ltb_ge (page_space env) _)) by lia.
  case_match; [|lia]. unfold u16, wrap. rewrite Z.mod_small; lia.
Qed.

Ltac pagesize_cases k :=
  let H := fresh in
  assert (k = 8 \/ k = 9 \/ k = 10 \/ k = 11 \/ k = 12 \/ k = 13 \/ k = 14 \/ k = 15 \/ k = 16) as H by lia;
  destruct H as [->|[->|[->|[->|[->|[->|[->|[->| ->]]]]]]]].

(** The sizes a set up page environment has. *)
Record env_limits (k : Z) (env : page_env) : Prop := mk_env_limits {
  lim_ps : env_ps env = 2 ^ k;
  lim_ln : env_ps2ln env = k;
  lim_leaf : env_leaf_nodemax env = 2 ^ (k - 1) - 12;
  lim_branch : env_branch_nodemax env = 2 ^ (k - 1) - 18;
}.

Lemma env_setup_pagesize_ok k old_ps d o : 8 <= k <= 16 -> old_ps <> 2 ^ k -> merge_option_ok d -> subopts_ok o ->
  exists s, env_setup_pagesize old_ps false d o (2 ^ k) = Some s /\ env_limits k (ps_env s) /\
    thresholds_ok (ps_env s) (ps_thresholds s).
Proof.
  intros Hk Hold Hd Ho.
  assert (exists env gc1 gcb, env_limits k env /\ env_setup_pagesize old_ps false d o (2 ^ k) =
    (let merge := recalculate_merge_thresholds env d in
     let '(limit, reserve_limit, room_threshold, reserve_prereq) := recalculate_subpage_thresholds env o in
     Some (mk_setup env gc1 gcb (mk_thresholds merge limit reserve_limit room_threshold reserve_prereq))))
    as (env & gc1 & gcb & Hlim & ->).
  { apply Z.eqb_neq in Hold. exists (mk_env (2 ^ k) k (2 ^ (k - 1) - 12) (2 ^ (k - 1) - 18)).
    eexists _, _. split; [by constructor|].
    unfold env_setup_pagesize. rewrite Hold.
    pagesize_cases k; reflexivity. }
  cbn zeta. destruct Hlim as [Hps Hln Hleaf Hbr].
  assert (256 <= 2 ^ k <= 65536) by (split; [apply (Z.pow_le_mono_r 2 8)|apply (Z.pow_le_mono_r 2 _ 16)]; lia).
  assert (2 ^ k = 2 * 2 ^ (k - 1)) as Hpow by (rewrite <- Z.pow_succ_r by lia; f_equal; lia).
  destruct (recalculate_subpage_thresholds env o) as [[[limit rlimit] room] prereq] eqn:Et.
  eexists. split; [done|]. split; [done|]. unfold thresholds_ok. cbn.
  assert (page_space env = 2 ^ k - 20) as Hsp by (unfold page_space, PAGEHDRSZ; lia).
  split; [apply merge_threshold_ok; [done|lia]|].
  pose proof (subpage_thresholds_ok env o Ho ltac:(lia) ltac:(lia)) as Ht. by rewrite Et in Ht.
Qed.

Lemma env_limits_keys k env flags : 8 <= k <= 16 -> env_limits k env ->
  env_keysize_max env flags = keysize_max (2 ^ k) flags /\
  8 <= env_keysize_max env flags <= env_branch_nodemax env - NODESIZE /\
  (has flags DUP_FLAGS = true -> env_keysize_max env flags + NODESIZE + sizeof_tree <= env_leaf_nodemax env).
Proof.
  intros Hk [Hps Hln Hleaf Hbr]. unfold env_keysize_max, keysize_max. rewrite Hleaf, Hbr.
  pagesize_cases k; destruct (has flags MDBX_INTEGERKEY), (has flags DUP_FLAGS);
    vm_compute; (split; [reflexivity|]); (split; [split; discriminate|]); intros; discriminate.
Qed.

Lemma env_limits_values k env g flags : 8 <= k <= 16 -> env_limits k env ->
  valsize_max g (2 ^ k) flags = Some (env_valsize_max g env flags).
Proof.
  intros Hk Hlim. destruct (env_limits_keys k env 0 Hk Hlim) as [Hkey _].
  destruct Hlim as [Hps Hln Hleaf Hbr].
  unfold valsize_max, env_valsize_max. do 2 (case_match; [by rewrite ?Hkey|]).
  rewrite Hln.
  by pagesize_cases k.
Qed.

Lemma env_limits_nodes k env flags klen dlen : 8 <= k <= 16 -> env_limits k env ->
  0 <= klen <= env_keysize_max env flags -> 0 <= dlen < 2 ^ 32 ->
  let n := node_size_len klen dlen in
  let b := node_size_len klen 0 in
  b <= env_branch_nodemax env /\ b + sizeof_pgno <= env_leaf_nodemax env /\
  2 * (env_branch_nodemax env + sizeof_indx) + NODESIZE + sizeof_indx <= page_space env /\
  2 * (env_leaf_nodemax env + sizeof_indx) <= page_space env /\
  (has flags DUP_FLAGS = true -> dlen <= sizeof_tree -> n <= env_leaf_nodemax env).
Proof.
  intros Hk Hlim Hkl Hdl. cbn zeta.
  destruct (env_limits_keys k env flags Hk Hlim) as (_ & Hk2 & Hdup). destruct Hlim as [Hps Hln Hleaf Hbr].
  unfold node_size_len, page_space, NODESIZE, sizeof_indx, sizeof_pgno, sizeof_tree, PAGEHDRSZ in *.
  assert (2 ^ k = 2 * 2 ^ (k - 1)) as Hpow by (rewrite <- Z.pow_succ_r by lia; f_equal; lia).
  assert (2 ^ (k - 1) = 2 * 2 ^ (k - 2)) as Hpow' by (rewrite <- Z.pow_succ_r by lia; f_equal; lia).
  assert (2 ^ (k - 2) <= 2 ^ 14) by (apply Z.pow_le_mono_r; lia).
  rewrite !EVEN_CEIL_even_up by lia. unfold even_up.
  split; [Z.div_mod_to_equations; lia|]. split; [Z.div_mod_to_equations; lia|]. split; [lia|]. split; [lia|].
  intros Hf Hd. specialize (Hdup Hf). Z.div_mod_to_equations; lia.
Qed.

Lemma land_1_mod x : Z.land x 1 = x mod 2.
Proof. apply (Z.land_ones x 1). lia. Qed.

Lemma subleaf2_loop_spec n t room len item reserve : subpage_limit t < 65536 ->
  0 <= len < 2 ^ 32 -> 0 < item < 65536 -> 0 <= reserve ->
  let '(len', reserve') := subleaf2_loop n t room len item reserve in
  exists j, 0 <= j <= Z.of_nat n /\ len' = len + j * item /\ reserve' = reserve + j * item /\
    (0 < j -> reserve' <= subpage_reserve_limit t /\ even_up len' <= subpage_limit t /\
              subpage_reserve_prereq t + even_up len' <= room).
Proof.
  intros Ht. revert len reserve. induction n as [|n IH]; intros len reserve Hl Hi Hr; [exists 0; cbn; lia|].
  cbn [subleaf2_loop].
  case_if as E; [|exists 0; lia].
  apply andb_prop in E as [[E1%Z.leb_le E2%Z.leb_le]%andb_prop E3%Z.leb_le].
  rewrite EVEN_CEIL_even_up in E2, E3 by lia. pose proof (even_up_bound (len + item)).
  specialize (IH (len + item) (reserve + item) ltac:(lia) Hi ltac:(lia)).
  destruct (subleaf2_loop _ _ _ _ _ _) as [len' reserve']. destruct IH as (j & Hj & -> & -> & Hjj).
  exists (j + 1). split; [lia|]. split; [lia|]. split; [lia|]. intros _.
  destruct (decide (j = 0)) as [->|]; [|apply Hjj; lia]. rewrite !Z.mul_0_l, !Z.add_0_r. done.
Qed.

(** The reserve keeps an even sub-page even and within the limits. *)
Lemma page_subleaf2_reserve_spec t room len item : subpage_limit t < 65536 -> 0 <= len < 2 ^ 32 -> Z.even len = true ->
  0 < item < 65536 ->
  let r := page_subleaf2_reserve t room len item in
  Z.even (len + r) = true /\ 0 <= r <= 5 * item + 1 /\
  (1 < r -> r <= subpage_reserve_limit t + 1 /\ len + r <= subpage_limit t /\ subpage_reserve_prereq t + len + r <= room).
Proof.
  intros Ht Hl He Hi. unfold page_subleaf2_reserve.
  pose proof (subleaf2_loop_spec 5 t room len item 0 Ht Hl Hi ltac:(lia)) as H.
  destruct (subleaf2_loop _ _ _ _ _ _) as [len' reserve']. destruct H as (j & Hj & -> & -> & Hjj). cbn zeta.
  rewrite !land_1_mod.
  pose proof (Z.mod_pos_bound (len + j * item) 2 ltac:(lia)) as Hm. apply Z.even_spec in He as [h Hh].
  split; [apply Z.even_spec; exists ((len + j * item) / 2 + (len + j * item) mod 2); Z.div_mod_to_equations; lia|].
  split; [nia|]. intros Hr. destruct (decide (j = 0)) as [->|Hj0]; [lia|].
  destruct (Hjj ltac:(lia)) as (H1 & H2 & H3). unfold even_up in *. lia.
Qed.

(** ** Theorems *)

(** C32: The 16-bit code of a number of pages stands for at least as many pages
    and for less than one part in 128 more, up to [2^26] pages, where the code
    saturates; a decoded count is reproduced exactly by encoding it again
    ([pv2pages_verify] holds). The code itself is reproduced for every count
    except the odd ones between 32769 and 65279. *)
Theorem pages2pv_roundtrip x : 0 <= x ->
  let p := pv2pages (pages2pv x) in
  0 <= pages2pv x < 65536 /\ (x <= 2 ^ 26 -> x <= p /\ 128 * (p - x) <= x) /\ (2 ^ 26 <= x -> p = 2 ^ 26) /\
  pv2pages (pages2pv p) = p /\ pv2pages_verify = true /\
  (pages2pv p = pages2pv x <-> pv_unstable x = false).
Proof.
  intros Hx p. destruct (pv_rounds x Hx) as (H1 & H2 & H3 & H4).
  split; [done|]. split; [done|]. split; [done|]. split; [done|]. split; [apply pv_verify_true|by apply pv_stable_iff].
Qed.

Lemma pages2pv_roundtrip_witness : 1000000 <= pv2pages (pages2pv 1000000) <= 1007812 /\ pv_unstable 32769 = true.
Proof.
  destruct (pages2pv_roundtrip 1000000 ltac:(lia)) as (_ & H & _). destruct (H ltac:(lia)) as [H1 H2].
  split; [lia|reflexivity].
Defined.

(** C31: Every page size from 256 to 65536 bytes can be set up, whatever the
    options are, and the limits fit the pages: a key no longer than the limit
    of its table never makes [branch_size] panic; a branch page has room for
    two greatest nodes and the node without a key; a leaf page has room for
    two nodes of any data, great ones by reference; the record of a nested
    tree fits beside any key of a table with duplicates. The limits kept in
    the environment are the ones computed from the page size, and the
    thresholds are in the order the assertions ask for. *)
Theorem page_limits_fit k old_ps d o : 8 <= k <= 16 -> old_ps <> 2 ^ k -> merge_option_ok d -> subopts_ok o ->
  exists s, env_setup_pagesize old_ps false d o (2 ^ k) = Some s /\ thresholds_ok (ps_env s) (ps_thresholds s) /\
    pgno2bytes (ps_env s) 1 = 2 ^ k /\
    forall flags g, let env := ps_env s in
      env_keysize_max env flags = keysize_max (2 ^ k) flags /\ valsize_max g (2 ^ k) flags = Some (env_valsize_max g env flags) /\
      forall key data, 0 <= iov_len key <= env_keysize_max env flags -> 0 <= iov_len data < 2 ^ 32 ->
        (exists n, branch_size env (Some key) = Some n /\ 2 * n + NODESIZE + sizeof_indx <= page_space env) /\
        2 * leaf_size env key data <= page_space env /\
        (has flags DUP_FLAGS = true -> iov_len data = sizeof_tree ->
           leaf_size env key data = node_size (Some key) (Some data) + sizeof_indx).
Proof.
  intros Hk Hold Hd Ho. destruct (env_setup_pagesize_ok k old_ps d o Hk Hold Hd Ho) as (s & Hs & Hlim & Ht).
  exists s. split; [done|]. split; [done|].
  split; [unfold pgno2bytes; rewrite (lim_ln _ _ Hlim), Z.shiftl_1_l; apply u64_small; unfold UINT64_MAX;
          pose proof (Z.pow_le_mono_r 2 k 16); lia|].
  intros flags g env. split; [by apply env_limits_keys|]. split; [by apply env_limits_values|].
  intros key data Hkl Hdl.
  destruct (env_limits_nodes k env flags (iov_len key) (iov_len data) Hk Hlim Hkl Hdl) as (H1 & H2 & H3 & H4 & H5).
  unfold branch_size, leaf_size, node_size, opt_len. split; [|split].
  - rewrite (proj2 (Z.ltb_ge (env_branch_nodemax env) _)) by done. eexists. split; [done|]. lia.
  - case_match; lia.
  - intros Hf He. specialize (H5 Hf ltac:(lia)). by rewrite (proj2 (Z.ltb_ge (env_leaf_nodemax env) _)).
Qed.

Lemma page_limits_fit_witness : merge_option_ok 21845 /\ subopts_ok (mk_subopts 65535 2753 0 27525) /\
  exists s, env_setup_pagesize 0 false 21845 (mk_subopts 65535 2753 0 27525) (2 ^ 12) = Some s.
Proof.
  split; [unfold merge_option_ok; lia|]. split; [unfold subopts_ok; cbn; lia|].
  destruct (page_limits_fit 12 0 21845 (mk_subopts 65535 2753 0 27525)) as (s & H & _);
    [lia|lia|unfold merge_option_ok; lia|unfold subopts_ok; cbn; lia|]. by exists s.
Defined.
