(* ===== verification/Geometry.v ===== *)
(** * Geometry of the database file ([src/src/api-env.c], [mdbx_env_set_geometry])

    The caller gives the lower, current and upper size of the file, the growth
    step, the shrink threshold and the page size; negative values ask for a
    default or keep what is set, zero for a minimum, [INTPTR_MAX] for a
    maximum. The function turns them into sizes in whole pages, keeps them for
    a later open when the file is not mapped yet, and otherwise puts them into
    the geometry record of the meta-page. Sizes are [intptr_t], 64 bits wide
    here; comparisons and divisions are signed or unsigned as in the code. *)

From stdpp Require Import base numbers option list.
From Stdlib Require Import ZArith Lia.
From S2P Require Import Prelude Bits Alloc Pnl Bytes Cmp Page Cogs.

(** What a call comes to: a value, an error code, the panic of a failed
    [ENSURE_OBJ], or undefined behaviour (signed overflow). *)
Inductive outcome (A : Type) : Type :=
  | Done (a : A)
  | Error (e : rc)
  | Panic
  | Undefined.
Arguments Done {A} a.
Arguments Error {A} e.
Arguments Panic {A}.
Arguments Undefined {A}.

#[global] Instance outcome_bind : MBind outcome := λ A B f m,
  match m with Done a => f a | Error e => Error e | Panic => Panic | Undefined => Undefined end.

Definition ensure {A} (c : bool) (k : outcome A) : outcome A := if c then k else Panic.

Definition INTPTR_MAX : Z := 2 ^ 63 - 1.
Definition INT_MAX : Z := 2 ^ 31 - 1.
Definition is_intptr (x : Z) : Prop := - 2 ^ 63 <= x < 2 ^ 63.
Definition intptr (x : Z) : outcome Z := if (- 2 ^ 63 <=? x) && (x <=? INTPTR_MAX) then Done x else Undefined.

Definition MIN_MAPSIZE : Z := MDBX_MIN_PAGESIZE * MIN_PAGENO.
Definition MAX_MAPSIZE32 : Z := 0x7f000000.
Definition MAX_MAPSIZE : Z := (MAX_PAGENO + 1) * MDBX_MAX_PAGESIZE.
Definition MEGABYTE : Z := 2 ^ 20.
Definition MDBX_WORDBITS : Z := 64.

(** ** The page size of a file that is not mapped *)

Fixpoint raise_pagesize (fuel : nat) (top pagesize : Z) : outcome Z :=
match fuel with
| O => Undefined
| S fuel =>
  if (pagesize * (MAX_PAGENO + 1) <? top) && (pagesize <? MDBX_MAX_PAGESIZE)
  then raise_pagesize fuel top (Z.shiftl pagesize 1) else Done pagesize
end.

Definition auto_pagesize (g : globals) (size_lower size_now size_upper pagesize : Z) : outcome Z :=
if INT_MAX <=? pagesize then Done MDBX_MAX_PAGESIZE
else if pagesize =? 0 then Done MDBX_MIN_PAGESIZE
else if pagesize <? 0 then
  let pagesize := i64 (sys_pagesize g) in
  let pagesize := if MDBX_MAX_PAGESIZE <? u64 pagesize then MDBX_MAX_PAGESIZE else pagesize in
  let top := if size_lower <? size_now then size_now else size_lower in
  let top := if top <? size_upper then size_upper else top in
  let top := if top <? 0 then i64 (reasonable_db_maxsize g)
             else if top =? 0 then MIN_MAPSIZE
             else if i64 (mmap_limit g) <=? top then i64 (mmap_limit g) else top in
  raise_pagesize 32 top pagesize
else Done pagesize.

(** ** Sizes *)

Definition default_lower (g : globals) (pagesize size_lower : Z) : Z :=
let size_lower :=
  if size_lower <=? 0 then
    let size_lower := if size_lower =? 0 then MIN_MAPSIZE else pagesize * MDBX_WORDBITS in
    if Z.quot size_lower pagesize <? MIN_PAGENO then MIN_PAGENO * pagesize else size_lower
  else size_lower in
if INTPTR_MAX <=? size_lower then
  let size_lower := i64 (reasonable_db_maxsize g) in
  if MAX_PAGENO + 1 <? u64 size_lower / pagesize then pagesize * (MAX_PAGENO + 1) else size_lower
else size_lower.

Definition default_now (g : globals) (pagesize size_now : Z) : Z :=
if INTPTR_MAX <=? size_now then
  let size_now := i64 (reasonable_db_maxsize g) in
  if MAX_PAGENO + 1 <? u64 size_now / pagesize then pagesize * (MAX_PAGENO + 1) else size_now
else size_now.

(** The two clamps at the end of both branches. *)
Definition clamp_upper (g : globals) (pagesize size_upper : Z) : Z :=
let size_upper := if MAX_PAGENO + 1 <? u64 size_upper / pagesize then pagesize * (MAX_PAGENO + 1) else size_upper in
if mmap_limit g <? u64 size_upper then i64 (mmap_limit g) else size_upper.

Definition default_upper (g : globals) (pagesize size_lower size_now growth_step size_upper : Z) : Z :=
if size_upper <=? 0 then
  clamp_upper g pagesize
    (if ((growth_step =? 0) || (size_upper =? 0)) && (size_lower <=? size_now) then size_now
     else if (size_now <=? 0) || (i64 (reasonable_db_maxsize g) / 2 <=? size_now) then i64 (reasonable_db_maxsize g)
     else if (MAX_MAPSIZE32 / 2 <=? u64 size_now) && (u64 size_now <=? MAX_MAPSIZE32 / 4 * 3) then MAX_MAPSIZE32
     else i64 (ceil_powerof2 (u64 (if u64 size_now <? mmap_limit g / 4 then size_now + size_now
                                   else size_now + size_now / 2))
                             (MEGABYTE * MDBX_WORDBITS * MDBX_WORDBITS / 32)))
else if INTPTR_MAX <=? size_upper then clamp_upper g pagesize (i64 (reasonable_db_maxsize g))
else size_upper.

(** The loop that brings the rounded upper size back below the limits. *)
Fixpoint lower_upper (fuel : nat) (g : globals) (pagesize unit_ag size_lower size_upper : Z) : outcome (Z * Z) :=
match fuel with
| O => Undefined
| S fuel =>
  if (mmap_limit g <? u64 size_upper) || (MAX_PAGENO + 1 <? u64 size_upper / pagesize) then
    if (u64 size_upper <? unit_ag + MIN_MAPSIZE) || (u64 size_upper <? u64 (pagesize * (MIN_PAGENO + 1)))
    then Error MDBX_EINVAL
    else
      let size_upper := i64 (size_upper - unit_ag) in
      lower_upper fuel g pagesize unit_ag (if u64 size_upper <? u64 size_lower then size_upper else size_lower) size_upper
  else Done (size_lower, size_upper)
end.

(** ** Growth step and shrink threshold *)

Definition default_growth (size_lower_default : bool) (size_lower size_upper growth_step : Z) : Z :=
if growth_step <? 0 then
  let growth_step := i64 (u64 (size_upper - size_lower) / 42) in
  let growth_step :=
    if negb size_lower_default && (size_lower <? growth_step) && (size_lower <? MEGABYTE) then size_lower
    else if 64 <? Z.quot growth_step size_lower then Z.shiftl size_lower 6 else growth_step in
  let growth_step := if growth_step <? 65536 then 65536 else growth_step in
  let growth_step := if 65536 <? Z.quot (size_upper - size_lower) growth_step
                     then Z.shiftr (size_upper - size_lower) 16 else growth_step in
  let growth_step_limit := MEGABYTE * 4096 in
  if growth_step_limit <? growth_step then growth_step_limit else growth_step
else growth_step.

(** ** Checking and rounding *)

Record sizes : Type := mk_sizes {
  sz_lower : Z;
  sz_now : Z;
  sz_upper : Z;
  sz_grow : Z;
  sz_shrink : Z;
}.

Definition unit_ps (g : globals) (pagesize : Z) : Z := if pagesize <? sys_pagesize g then sys_pagesize g else pagesize.
Definition unit_ag (g : globals) (pagesize growth_step : Z) : Z :=
let ups := unit_ps g pagesize in
if (ups <? sys_allocation_granularity g) && ((growth_step <? 0) || (sys_allocation_granularity g <=? u64 growth_step))
then sys_allocation_granularity g else ups.

(** From the growth step on: what remains once the sizes are settled. *)
Definition settle_steps (size_lower_default : bool) (uag size_lower size_now size_upper growth_step shrink_threshold : Z)
  : outcome sizes :=
let growth_step := default_growth size_lower_default size_lower size_upper growth_step in
let growth_step := if (growth_step =? 0) && (0 <? shrink_threshold) then 1 else growth_step in
let growth_step := i64 (ceil_powerof2 (u64 growth_step) uag) in
shrink_threshold ← (if shrink_threshold <? 0 then intptr (growth_step + growth_step) else Done shrink_threshold);
let shrink_threshold := i64 (ceil_powerof2 (u64 shrink_threshold) uag) in
Done (mk_sizes size_lower size_now size_upper growth_step shrink_threshold).

Definition round_sizes (g : globals) (pagesize : Z) (size_lower_default : bool)
  (size_lower size_now size_upper growth_step shrink_threshold : Z) : outcome sizes :=
let ups := unit_ps g pagesize in
let uag := unit_ag g pagesize growth_step in
let size_lower := i64 (ceil_powerof2 (u64 size_lower) ups) in
let size_upper := i64 (ceil_powerof2 (u64 size_upper) uag) in
let size_now := i64 (ceil_powerof2 (u64 size_now) uag) in
'(size_lower, size_upper) ← lower_upper 4 g pagesize uag size_lower size_upper;
let size_now := if size_now <? size_lower then size_lower else size_now in
let size_now := if size_upper <? size_now then size_upper else size_now in
settle_steps size_lower_default uag size_lower size_now size_upper growth_step shrink_threshold.

Definition settle_sizes (g : globals) (pagesize size_lower size_now size_upper growth_step shrink_threshold : Z)
  : outcome sizes :=
if (pagesize <? MDBX_MIN_PAGESIZE) || (MDBX_MAX_PAGESIZE <? pagesize) || negb (is_powerof2 (u64 pagesize))
then Error MDBX_EINVAL
else
  let size_lower_default := size_lower <? 0 in
  let size_lower := default_lower g pagesize size_lower in
  let size_now := default_now g pagesize size_now in
  let size_upper := default_upper g pagesize size_lower size_now growth_step size_upper in
  if (size_lower <? MIN_MAPSIZE) || (size_upper <? size_lower) then Error MDBX_EINVAL
  else
    let size_now := if size_now <=? 0
                    then if (size_lower <=? size_upper) && (size_upper <? size_lower) then size_upper else size_lower
                    else size_now in
    '(size_lower, size_now) ←
      (if u64 size_lower / pagesize <? MIN_PAGENO then
         let size_lower := pagesize * MIN_PAGENO in
         if size_upper <? size_lower then Error MDBX_EINVAL
         else Done (size_lower, if size_now <? size_lower then size_lower else size_now)
       else Done (size_lower, size_now));
    if (mmap_limit g <? u64 size_upper) || (MAX_PAGENO + 1 <? u64 size_upper / pagesize) then Error MDBX_TOO_LARGE
    else round_sizes g pagesize size_lower_default size_lower size_now size_upper growth_step shrink_threshold.

(** ** A file that is not mapped yet *)

(** The step as it can be kept in a meta-page, in bytes. *)
Definition quantized (env : page_env) (step : Z) : Z := pgno2bytes env (pv2pages (pages2pv (bytes2pgno env (u64 step)))).

(** The fields of [env] the call sets: the page size, if it changes, and
    [env->geo_in_bytes]. *)
Definition set_geometry_unmapped (g : globals) (env : page_env) (auxbuf has_txn : bool) (merge_threshold_dot16 : Z)
  (o : subpage_options) (size_lower size_now size_upper growth_step shrink_threshold pagesize : Z)
  : outcome (page_env * sizes) :=
if has_txn then Error MDBX_PANIC
else
  pagesize ← auto_pagesize g size_lower size_now size_upper pagesize;
  s ← settle_sizes g pagesize size_lower size_now size_upper growth_step shrink_threshold;
  env ← (if pagesize =? env_ps env then Done env
         else match env_setup_pagesize (env_ps env) auxbuf merge_threshold_dot16 o pagesize with
              | Some setup => Done (ps_env setup)
              | None => Panic
              end);
  let geo := mk_sizes (sz_lower s) (sz_now s) (sz_upper s) (quantized env (sz_grow s)) (quantized env (sz_shrink s)) in
  let multiple x := (x mod pagesize =? 0) && (x mod sys_pagesize g =? 0) in
  ensure (MIN_MAPSIZE <=? sz_lower geo)
  (ensure (MIN_PAGENO <=? sz_lower geo / pagesize)
  (ensure (multiple (sz_lower geo))
  (ensure (sz_upper geo <=? MAX_MAPSIZE)
  (ensure (sz_upper geo / pagesize <=? MAX_PAGENO + 1)
  (ensure (multiple (sz_upper geo))
  (ensure (sz_lower geo <=? sz_now geo)
  (ensure (sz_now geo <=? sz_upper geo)
  (ensure (multiple (sz_now geo))
  (ensure (multiple (sz_grow geo))
  (ensure (multiple (sz_shrink geo)) (Done (env, geo)))))))))))).

(** ** A mapped file *)

Record geo_t : Type := mk_geo {
  grow_pv : Z;
  shrink_pv : Z;
  geo_lower : Z;
  geo_upper : Z;
  geo_now : Z;
  first_unallocated : Z;
}.

(** The new record and its checks; [used] is [current_geo->first_unallocated]. *)
Definition new_geometry (g : globals) (env : page_env) (used : Z) (s : sizes) : outcome geo_t :=
let new_geo := mk_geo (pages2pv (bytes2pgno env (u64 (sz_grow s)))) (pages2pv (bytes2pgno env (u64 (sz_shrink s))))
                      (bytes2pgno env (u64 (sz_lower s))) (bytes2pgno env (u64 (sz_upper s)))
                      (bytes2pgno env (u64 (sz_now s))) used in
ensure (pgno_ceil2sp_bytes g env (geo_lower new_geo) =? u64 (sz_lower s))
(ensure (pgno_ceil2sp_bytes g env (geo_upper new_geo) =? u64 (sz_upper s))
(ensure (pgno_ceil2sp_bytes g env (geo_now new_geo) =? u64 (sz_now s))
(ensure (grow_pv new_geo =? pages2pv (pv2pages (grow_pv new_geo)))
(ensure (shrink_pv new_geo =? pages2pv (pv2pages (shrink_pv new_geo)))
(ensure (MIN_MAPSIZE <=? u64 (sz_lower s))
(ensure (MIN_PAGENO <=? geo_lower new_geo)
(ensure (u64 (sz_upper s) <=? MAX_MAPSIZE)
(ensure (geo_upper new_geo <=? MAX_PAGENO + 1)
(ensure (first_unallocated new_geo <=? geo_now new_geo)
(ensure (geo_now new_geo <=? geo_upper new_geo)
(ensure (geo_lower new_geo <=? geo_now new_geo) (Done new_geo)))))))))))).

(** [geo] is the geometry in force and [largest] the result of
    [mvcc_snapshot_largest]. The result is the new record, before it is put
    into the transaction or written out. *)
Definition set_geometry_mapped (rounding : bool) (g : globals) (env : page_env) (geo : geo_t) (largest : Z)
  (size_lower size_now size_upper growth_step shrink_threshold pagesize : Z) : outcome geo_t :=
let pagesize := if (pagesize <=? 0) || (INT_MAX <=? pagesize) then env_ps env else pagesize in
if negb (pagesize =? env_ps env) then Error MDBX_EINVAL
else
  let size_lower := if size_lower <? 0
    then i64 (if rounding then pgno_ceil2os_bytes rounding g env (geo_lower geo) else pgno2bytes env (geo_lower geo))
    else size_lower in
  let size_now := if size_now <? 0 then i64 (pgno_ceil2os_bytes rounding g env (geo_now geo)) else size_now in
  let size_upper := if size_upper <? 0 then i64 (pgno_ceil2os_bytes rounding g env (geo_upper geo)) else size_upper in
  let growth_step := if growth_step <? 0 then i64 (pgno2bytes env (pv2pages (grow_pv geo))) else growth_step in
  let shrink_threshold := if shrink_threshold <? 0 then i64 (pgno2bytes env (pv2pages (shrink_pv geo))) else shrink_threshold in
  let usedbytes := pgno_ceil2os_bytes rounding g env largest in
  if (u64 size_upper <? usedbytes) || (mmap_limit g <? usedbytes) then Error MDBX_MAP_FULL
  else
    let size_now := if u64 size_now <? usedbytes then i64 usedbytes else size_now in
    s ← settle_sizes g pagesize size_lower size_now size_upper growth_step shrink_threshold;
    new_geometry g env (first_unallocated geo) s.

(** ** Settled sizes *)

(** The limits of the system: what [mmap_limit], [reasonable_db_maxsize] and
    the queries of the page size give on a 64-bit system. *)
Record globals_ok (a b : Z) (g : globals) : Prop := mk_globals_ok {
  go_a : 12 <= a <= 16;
  go_ab : a <= b <= 20;
  go_sys : sys_pagesize g = 2 ^ a;
  go_ag : sys_allocation_granularity g = 2 ^ b;
  go_mmap : 2 ^ 32 <= mmap_limit g <= MAX_MAPSIZE;
  go_reas : 2 ^ 20 <= reasonable_db_maxsize g <= mmap_limit g;
}.

(** [u] is the greater exponent of the page size and the system's page size. *)
Record settled (g : globals) (k u : Z) (s : sizes) : Prop := mk_settled {
  st_lower : MIN_PAGENO * 2 ^ k <= sz_lower s;
  st_now : sz_lower s <= sz_now s <= sz_upper s;
  st_upper : sz_upper s <= mmap_limit g /\ sz_upper s <= 2 ^ k * (MAX_PAGENO + 1);
  st_lower_m : (2 ^ u | sz_lower s);
  st_now_m : (2 ^ u | sz_now s);
  st_upper_m : (2 ^ u | sz_upper s);
  st_grow_m : (2 ^ u | sz_grow s);
  st_shrink_m : (2 ^ u | sz_shrink s);
  st_grow_r : is_intptr (sz_grow s);
  st_shrink_r : is_intptr (sz_shrink s);
}.

Lemma i64_id x : is_intptr x -> i64 x = x.
Proof.
  unfold is_intptr, i64, signed, wrap. intros Hx. case_match eqn:E; Z.div_mod_to_equations; lia.
Qed.

Lemma i64_range x : is_intptr (i64 x).
Proof. unfold is_intptr, i64, signed, wrap. case_match eqn:E; Z.div_mod_to_equations; lia. Qed.

Lemma pow_divides u v : 0 <= u <= v -> (2 ^ u | 2 ^ v).
Proof. intros H. exists (2 ^ (v - u)). rewrite <- Z.pow_add_r by lia. f_equal. lia. Qed.

Lemma wrap_divides k w x : 0 <= k <= w -> (2 ^ k | x) -> (2 ^ k | wrap w x).
Proof.
  intros Hk Hx. unfold wrap. rewrite Z.mod_eq by (apply Z.pow_nonzero; lia).
  apply Z.divide_sub_r; [done|]. apply Z.divide_mul_l. by apply pow_divides.
Qed.

Lemma i64_divides k x : 0 <= k <= 64 -> (2 ^ k | x) -> (2 ^ k | i64 x).
Proof.
  intros Hk Hx. pose proof (wrap_divides k 64 x Hk Hx). unfold i64, signed.
  case_match; [done|]. apply Z.divide_sub_r; [done|by apply (pow_divides k 64)].
Qed.

Lemma u64_of_nonneg x : 0 <= x -> is_intptr x -> u64 x = x.
Proof. unfold is_intptr. intros H1 H2. apply u64_small. unfold UINT64_MAX. lia. Qed.

(** Rounding up a non-negative [intptr_t]. *)
Lemma ceil_intptr x k : 0 <= x -> is_intptr x -> 0 <= k <= 20 ->
  let c := i64 (ceil_powerof2 (u64 x) (2 ^ k)) in
  (2 ^ k | c) /\ is_intptr c /\ (x + 2 ^ k <= 2 ^ 63 -> x <= c < x + 2 ^ k) /\ (0 <= c \/ c = - 2 ^ 63).
Proof.
  intros H0 Hx Hk. cbn zeta. unfold is_intptr in Hx. rewrite u64_of_nonneg by done.
  assert (1 <= 2 ^ k <= 2 ^ 20) as Hp by (split; [apply (Z.pow_le_mono_r 2 0)|apply Z.pow_le_mono_r]; lia).
  destruct (ceil_powerof2_spec x k) as [H1 H2]; [lia|lia|lia|]. cbn zeta in H1, H2.
  split; [apply i64_divides; [lia|]; apply Z.mod_divide; [lia|done]|]. split; [apply i64_range|].
  split; [intros Hb; rewrite i64_id; [done|]; unfold is_intptr; lia|].
  apply Z.mod_divide in H2 as [q Hq]; [|lia]. rewrite Hq in *.
  assert (2 ^ 63 = 2 ^ (63 - k) * 2 ^ k) as E by (rewrite <- Z.pow_add_r by lia; f_equal; lia).
  assert (q <= 2 ^ (63 - k)) by nia.
  destruct (decide (q = 2 ^ (63 - k))) as [->|]; [right; by rewrite <- E|left]. rewrite i64_id; unfold is_intptr; nia.
Qed.

Lemma unit_ps_pow g a b k : globals_ok a b g -> 8 <= k <= 16 -> unit_ps g (2 ^ k) = 2 ^ Z.max a k.
Proof.
  intros Hg Hk. unfold unit_ps. rewrite (go_sys _ _ _ Hg). pose proof (go_a _ _ _ Hg).
  destruct (Z.ltb_spec (2 ^ k) (2 ^ a)) as [H'|H'].
  - apply Z.pow_lt_mono_r_iff in H'; [|lia..]. by rewrite Z.max_l by lia.
  - apply Z.pow_le_mono_r_iff in H'; [|lia..]. by rewrite Z.max_r by lia.
Qed.

Lemma unit_ag_pow g a b k growth : globals_ok a b g -> 8 <= k <= 16 ->
  exists v, unit_ag g (2 ^ k) growth = 2 ^ v /\ Z.max a k <= v <= 20.
Proof.
  intros Hg Hk. unfold unit_ag. rewrite (unit_ps_pow g a b) by done. rewrite (go_ag _ _ _ Hg).
  destruct (go_a _ _ _ Hg), (go_ab _ _ _ Hg).
  destruct (Z.ltb_spec (2 ^ Z.max a k) (2 ^ b)) as [H'|H']; cbn [andb]; [|exists (Z.max a k); split; [done|lia]].
  apply Z.pow_lt_mono_r_iff in H'; [|lia..]. case_match; [exists b|exists (Z.max a k)]; (split; [done|lia]).
Qed.

(** The loop makes at most one turn. *)
Lemma lower_upper_spec g a b k v L U0 U : globals_ok a b g -> 8 <= k <= 16 -> Z.max a k <= v <= 20 ->
  MIN_PAGENO * 2 ^ k <= L -> L <= U -> (2 ^ Z.max a k | L) -> (2 ^ v | U) ->
  U0 <= U < U0 + 2 ^ v -> U0 <= mmap_limit g -> U0 / 2 ^ k <= MAX_PAGENO + 1 ->
  match lower_upper 4 g (2 ^ k) (2 ^ v) L U with
  | Done (L', U') => MIN_PAGENO * 2 ^ k <= L' <= U' /\ U' <= mmap_limit g /\ U' <= 2 ^ k * (MAX_PAGENO + 1) /\
      (2 ^ Z.max a k | L') /\ (2 ^ v | U')
  | Error e => e = MDBX_EINVAL
  | _ => False
  end.
Proof.
  intros Hg Hk Hv HL HLU HdL HdU HU Hm Hp.
  destruct (go_a _ _ _ Hg), (go_mmap _ _ _ Hg) as [Hm1 Hm2].
  assert (2 ^ 8 <= 2 ^ k <= 2 ^ 16) as Hk' by (split; apply Z.pow_le_mono_r; lia).
  assert (2 ^ k <= 2 ^ v <= 2 ^ 20) as Hv' by (split; apply Z.pow_le_mono_r; lia).
  assert (U <= 2 ^ k * (MAX_PAGENO + 1) + 2 ^ v) as Htop.
  { assert (U0 < 2 ^ k * (MAX_PAGENO + 2)) by (Z.div_mod_to_equations; unfold MAX_PAGENO in *; nia).
    destruct HdU as [q Hq]. assert (2 ^ k * (MAX_PAGENO + 1) = 2 ^ (k + 31 - v) * 2 ^ v) as E.
    { change (MAX_PAGENO + 1) with (2 ^ 31). rewrite <- !Z.pow_add_r by lia. f_equal. lia. }
    assert (q < 2 ^ (k + 31 - v) + 2) by nia. nia. }
  unfold MAX_MAPSIZE, MIN_PAGENO, MDBX_MAX_PAGESIZE in *.
  assert (forall X, 0 <= X < 2 ^ 63 -> u64 X = X) as Hu by (intros; apply u64_small; unfold UINT64_MAX; lia).
  assert (forall X, X <= 2 ^ k * (MAX_PAGENO + 1) -> X / 2 ^ k <= MAX_PAGENO + 1) as Hdiv.
  { intros X HX. apply Z.lt_succ_r, Z.div_lt_upper_bound; unfold MAX_PAGENO in *; nia. }
  cbn [lower_upper]. rewrite (Hu U) by (unfold MAX_PAGENO in *; lia).
  destruct ((mmap_limit g <? U) || _) eqn:E1.
  - case_if as E2; [done|].
    assert (3 * 2 ^ k <= U - 2 ^ v).
    { apply orb_prop in E1 as [E1%Z.ltb_lt|E1%Z.ltb_lt]; [lia|].
      assert (2 ^ k * (MAX_PAGENO + 2) <= U) by (Z.div_mod_to_equations; unfold MAX_PAGENO in *; nia).
      unfold MAX_PAGENO in *. lia. }
    rewrite i64_id by (unfold is_intptr; unfold MAX_PAGENO in *; lia). rewrite (Hu (U - 2 ^ v)) by (unfold MAX_PAGENO in *; lia).
    rewrite (proj2 (Z.ltb_ge (mmap_limit g) _)) by lia. rewrite (proj2 (Z.ltb_ge (MAX_PAGENO + 1) _)) by (apply Hdiv; lia).
    cbn [orb]. rewrite (Hu L) by (unfold MAX_PAGENO in *; lia).
    assert ((2 ^ v | U - 2 ^ v)) by (apply Z.divide_sub_r; [done|apply Z.divide_refl]).
    assert ((2 ^ Z.max a k | U - 2 ^ v)) by (eapply Z.divide_trans; [apply (pow_divides _ v)|]; [lia|done]).
    case_if as E3; (split; [lia|]); (split; [lia|]); (split; [lia|done]).
  - apply orb_false_elim in E1 as [E1%Z.ltb_ge E2%Z.ltb_ge].
    split; [lia|]. split; [lia|]. split; [|done].
    destruct (decide (U <= 2 ^ k * (MAX_PAGENO + 1))) as [|Hn]; [done|exfalso].
    destruct HdU as [q Hq]. assert (2 ^ k * (MAX_PAGENO + 1) = 2 ^ (k + 31 - v) * 2 ^ v) as E.
    { change (MAX_PAGENO + 1) with (2 ^ 31). rewrite <- !Z.pow_add_r by lia. f_equal. lia. }
    assert (2 ^ (k + 31 - v) + 1 <= q) by nia.
    assert (2 ^ k * (MAX_PAGENO + 1) + 2 ^ k <= U) by nia.
    assert (MAX_PAGENO + 2 <= U / 2 ^ k) by (apply Z.div_le_lower_bound; lia). lia.
Qed.

Definition growth_overflows (growth_step shrink_threshold : Z) : Prop := shrink_threshold < 0 /\ 2 ^ 61 <= growth_step.

Lemma default_growth_range d L U growth : 0 < L <= U -> U <= MAX_MAPSIZE -> is_intptr growth ->
  let x := default_growth d L U growth in 0 <= x /\ is_intptr x /\ (growth < 0 -> x <= 2 ^ 32) /\ (0 <= growth -> x = growth).
Proof.
  intros HL HU Hg. cbn zeta. unfold default_growth. destruct (Z.ltb_spec growth 0) as [Hn|Hn]; [|by split_and!; [lia|..|lia|]].
  assert (U <= 2 ^ 47) by (unfold MAX_MAPSIZE, MAX_PAGENO, MDBX_MAX_PAGESIZE in HU; lia).
  rewrite u64_small by (unfold UINT64_MAX; lia).
  assert (0 <= (U - L) / 42 <= U) by (Z.div_mod_to_equations; lia). rewrite i64_id by (unfold is_intptr; lia).
  set (x1 := if negb d && _ && _ then _ else _).
  set (x2 := if x1 <? 65536 then _ else _). set (x3 := if 65536 <? _ then _ else x2).
  assert (65536 <= x2) by (unfold x2; destruct (Z.ltb_spec x1 65536); lia).
  assert (0 <= x3).
  { unfold x3. case_if as E; [rewrite Z.shiftr_div_pow2 by lia; apply Z.div_pos; lia|lia]. }
  clearbody x3. unfold is_intptr, MEGABYTE. destruct (Z.ltb_spec (2 ^ 20 * 4096) x3); lia.
Qed.

Lemma settle_steps_spec g a b k v d L N U growth shrink : globals_ok a b g -> 8 <= k <= 16 -> Z.max a k <= v <= 20 ->
  MIN_PAGENO * 2 ^ k <= L -> L <= N <= U -> U <= mmap_limit g -> U <= 2 ^ k * (MAX_PAGENO + 1) ->
  (2 ^ Z.max a k | L) -> (2 ^ Z.max a k | N) -> (2 ^ v | U) ->
  is_intptr growth -> is_intptr shrink ->
  match settle_steps d (2 ^ v) L N U growth shrink with
  | Done s => settled g k (Z.max a k) s /\ sz_lower s = L /\ sz_now s = N /\ sz_upper s = U
  | Undefined => growth_overflows growth shrink
  | _ => False
  end.
Proof.
  intros Hg Hk Hv HL HN HU1 HU2 HdL HdN HdU Hgr Hsh.
  destruct (go_a _ _ _ Hg), (go_mmap _ _ _ Hg) as [Hm1 Hm2].
  assert (2 ^ v <= 2 ^ 20) by (apply Z.pow_le_mono_r; lia).
  assert (0 < 2 ^ k) by lia. unfold MIN_PAGENO in HL.
  destruct (default_growth_range d L U growth ltac:(lia) ltac:(lia) Hgr) as (G0 & GR & Gneg & Gpos). cbn zeta in *.
  unfold settle_steps. set (x := default_growth d L U growth) in *. clearbody x.
  set (x1 := if (x =? 0) && (0 <? shrink) then 1 else x).
  assert (0 <= x1 /\ is_intptr x1 /\ x1 <= x + 1) as (X0 & XR & X1).
  { unfold x1, is_intptr in *. case_if as E; lia. }
  destruct (ceil_intptr x1 v X0 XR ltac:(lia)) as (C1 & C2 & C3 & C4). cbn zeta in *.
  set (c := i64 (ceil_powerof2 (u64 x1) (2 ^ v))) in *.
  assert (forall q, (2 ^ v | q) -> (2 ^ Z.max a k | q)) as Hup
    by (intros q Hq; eapply Z.divide_trans; [apply (pow_divides _ v)|]; [lia|done]).
  assert (forall y, 0 <= y -> is_intptr y ->
    let s := mk_sizes L N U c (i64 (ceil_powerof2 (u64 y) (2 ^ v))) in
    settled g k (Z.max a k) s /\ sz_lower s = L /\ sz_now s = N /\ sz_upper s = U) as Hdone.
  { intros y Hy0 Hy. destruct (ceil_intptr y v Hy0 Hy ltac:(lia)) as (Y1 & Y2 & _ & _). cbn zeta in *.
    split; [|done]. constructor; cbn; auto. }
  destruct (Z.ltb_spec shrink 0) as [Hneg|Hnn]; [|cbn; apply Hdone; done].
  unfold intptr. case_if as E; [cbn; apply Hdone|cbn].
  - apply andb_prop in E as [E1%Z.leb_le E2%Z.leb_le]. unfold is_intptr, INTPTR_MAX in *.
    lia.
  - unfold is_intptr, INTPTR_MAX in *. apply andb_prop in E as [E1%Z.leb_le E2%Z.leb_le]. lia.
  - unfold growth_overflows. split; [done|]. unfold INTPTR_MAX, is_intptr in *.
    destruct (decide (2 ^ 61 <= growth)); [done|exfalso].
    apply andb_false_iff in E as [E%Z.leb_gt|E%Z.leb_gt]; lia.
Qed.

Lemma multiples_le m x y : 0 < m -> (m | x) -> (m | y) -> x < y + m -> x <= y.
Proof.
  intros Hm [p ->] [q ->] H. apply Z.mul_le_mono_nonneg_r; [lia|].
  assert (p * m < (q + 1) * m) as H' by lia. apply Z.mul_lt_mono_pos_r in H'; lia.
Qed.

Lemma round_sizes_spec g a b k d L0 N0 U0 growth shrink : globals_ok a b g -> 8 <= k <= 16 ->
  MIN_PAGENO * 2 ^ k <= L0 <= U0 -> 0 < N0 -> is_intptr N0 -> U0 <= mmap_limit g -> U0 / 2 ^ k <= MAX_PAGENO + 1 ->
  is_intptr growth -> is_intptr shrink ->
  match round_sizes g (2 ^ k) d L0 N0 U0 growth shrink with
  | Done s => settled g k (Z.max a k) s
  | Error e => e = MDBX_EINVAL
  | Panic => False
  | Undefined => growth_overflows growth shrink
  end.
Proof.
  intros Hg Hk HL HN HNr HU1 HU2 Hgr Hsh. unfold round_sizes.
  destruct (go_a _ _ _ Hg) as [Ha1 Ha2], (go_mmap _ _ _ Hg) as [Hm1 Hm2].
  rewrite (unit_ps_pow g a b) by done. destruct (unit_ag_pow g a b k growth Hg Hk) as (v & -> & Hv).
  assert (12 <= Z.max a k <= 16) by lia. set (m := Z.max a k) in *.
  assert (2 ^ 8 <= 2 ^ k <= 2 ^ 16) as Hk' by (split; apply Z.pow_le_mono_r; lia).
  assert (2 ^ m <= 2 ^ v <= 2 ^ 20) as Hv' by (split; apply Z.pow_le_mono_r; lia).
  assert (0 < 2 ^ m) by (apply Z.pow_pos_nonneg; lia).
  assert (MAX_MAPSIZE = 2 ^ 47) as HM by reflexivity. unfold MIN_PAGENO in *.
  destruct (ceil_intptr L0 m ltac:(lia) ltac:(unfold is_intptr; lia) ltac:(lia)) as (L1 & L2 & L3 & _). specialize (L3 ltac:(lia)).
  destruct (ceil_intptr U0 v ltac:(lia) ltac:(unfold is_intptr; lia) ltac:(lia)) as (U1 & U2 & U3 & _). specialize (U3 ltac:(lia)).
  destruct (ceil_intptr N0 v ltac:(lia) HNr ltac:(lia)) as (N1 & N2 & _).
  cbn zeta in *. set (L := i64 _) in L1, L2, L3 |- *. set (U := i64 (ceil_powerof2 (u64 U0) _)) in U1, U2, U3 |- *.
  set (N := i64 (ceil_powerof2 (u64 N0) _)) in N1, N2 |- *. clearbody L U N.
  assert (forall q, (2 ^ v | q) -> (2 ^ m | q)) as Hup
    by (intros q Hq; eapply Z.divide_trans; [apply (pow_divides _ v)|]; [lia|done]).
  assert (L <= U) as HLU by (apply (multiples_le (2 ^ m)); [lia|done|by apply Hup|lia]).
  pose proof (lower_upper_spec g a b k v L U0 U Hg Hk Hv ltac:(unfold MIN_PAGENO; lia) HLU L1 U1 U3 HU1 HU2) as Hlu.
  destruct (lower_upper 4 g (2 ^ k) (2 ^ v) L U) as [[L' U']| | |]; [|done..]. cbn.
  destruct Hlu as ((HL' & HLU') & HUm & HUp & HdL & HdU).
  set (N' := if U' <? _ then _ else _).
  assert (L' <= N' <= U' /\ (2 ^ m | N')) as [HN' HdN].
  { unfold N'. destruct (Z.ltb_spec N L'); [destruct (Z.ltb_spec U' L')|destruct (Z.ltb_spec U' N)];
      (split; [lia|]); auto. }
  clearbody N'. pose proof (settle_steps_spec g a b k v d L' N' U' growth shrink Hg Hk Hv HL' HN' HUm HUp HdL HdN HdU Hgr Hsh) as Hst.
  destruct (settle_steps _ _ _ _ _ _ _); [|done..]. apply Hst.
Qed.

Lemma default_lower_range g a b k x : globals_ok a b g -> 8 <= k <= 16 -> is_intptr x -> is_intptr (default_lower g (2 ^ k) x).
Proof.
  intros Hg Hk Hx. assert (0 < 2 ^ k <= 2 ^ 16) by (split; [lia|apply Z.pow_le_mono_r; lia]).
  unfold default_lower, is_intptr, INTPTR_MAX, MIN_MAPSIZE, MIN_PAGENO, MDBX_MIN_PAGESIZE, MDBX_WORDBITS, MAX_PAGENO in *.
  pose proof (i64_range (reasonable_db_maxsize g)) as Hi. unfold is_intptr in Hi.
  destruct (Z.leb_spec x 0); repeat (let E := fresh "E" in case_if as E); lia.
Qed.

Lemma default_now_range g a b k x : globals_ok a b g -> 8 <= k <= 16 -> is_intptr x -> is_intptr (default_now g (2 ^ k) x).
Proof.
  intros Hg Hk Hx. assert (0 < 2 ^ k <= 2 ^ 16) by (split; [lia|apply Z.pow_le_mono_r; lia]).
  unfold default_now, is_intptr, MAX_PAGENO in *.
  pose proof (i64_range (reasonable_db_maxsize g)) as Hi. unfold is_intptr in Hi. repeat (let E := fresh "E" in case_if as E); lia.
Qed.

Lemma clamp_upper_range g k x : 8 <= k <= 16 -> is_intptr x -> is_intptr (clamp_upper g (2 ^ k) x).
Proof.
  intros Hk Hx. assert (0 < 2 ^ k <= 2 ^ 16) by (split; [lia|apply Z.pow_le_mono_r; lia]).
  unfold clamp_upper. set (y := if MAX_PAGENO + 1 <? _ then _ else x).
  assert (is_intptr y) by (unfold y; case_if as E; [unfold is_intptr, MAX_PAGENO; lia|done]).
  case_if as E; [apply i64_range|done].
Qed.

Lemma default_upper_range g k L N growth x : 8 <= k <= 16 -> is_intptr N -> is_intptr x ->
  is_intptr (default_upper g (2 ^ k) L N growth x).
Proof.
  intros Hk HN Hx. unfold default_upper. case_if as E; [apply clamp_upper_range; [done|]|case_if as E1; [|done]].
  - repeat (case_if as E'; [first [done|apply i64_range|unfold is_intptr, MAX_MAPSIZE32; lia]|clear E']). apply i64_range.
  - apply clamp_upper_range; [done|apply i64_range].
Qed.

Lemma powerof2_pagesize p : MDBX_MIN_PAGESIZE <= p <= MDBX_MAX_PAGESIZE -> is_powerof2 p = true ->
  exists k, 8 <= k <= 16 /\ p = 2 ^ k.
Proof.
  unfold MDBX_MIN_PAGESIZE, MDBX_MAX_PAGESIZE. intros Hp H.
  exists (Z.log2 p). pose proof (Z.log2_spec p ltac:(lia)) as [Hl Hu].
  assert (8 <= Z.log2 p <= 16) as Hk by (split; [apply (Z.log2_le_mono (2 ^ 8))|apply (Z.log2_le_mono _ (2 ^ 16))]; lia).
  split; [done|]. unfold is_powerof2 in H. apply Z.eqb_eq in H. rewrite u64_small in H by (unfold UINT64_MAX; lia).
  set (k := Z.log2 p) in *. destruct (decide (p = 2 ^ k)) as [|Hne]; [done|exfalso].
  assert (Z.testbit (Z.land p (p - 1)) k = true) as Hb; [|by rewrite H, Z.bits_0 in Hb].
  assert (forall y, 2 ^ k <= y < 2 ^ Z.succ k -> Z.testbit y k = true) as Hbit.
  { intros y Hy. rewrite <- (Z.log2_unique y k ltac:(lia) Hy). apply Z.bit_log2. lia. }
  rewrite Z.land_spec, !Hbit by lia. done.
Qed.

Lemma settle_sizes_spec g a b p L N U growth shrink : globals_ok a b g -> is_intptr p ->
  is_intptr L -> is_intptr N -> is_intptr U -> is_intptr growth -> is_intptr shrink ->
  match settle_sizes g p L N U growth shrink with
  | Done s => exists k, 8 <= k <= 16 /\ p = 2 ^ k /\ settled g k (Z.max a k) s
  | Error e => e = MDBX_EINVAL \/ e = MDBX_TOO_LARGE
  | Panic => False
  | Undefined => growth_overflows growth shrink
  end.
Proof.
  intros Hg Hp HL HN HU Hgr Hsh. unfold settle_sizes. case_if as E; [by left|].
  apply orb_false_elim in E as [[E1%Z.ltb_ge E2%Z.ltb_ge]%orb_false_elim E3%negb_false_iff].
  rewrite u64_of_nonneg in E3 by (unfold MDBX_MIN_PAGESIZE in *; first [done|lia]).
  destruct (powerof2_pagesize p ltac:(lia) E3) as (k & Hk & ->).
  pose proof (default_lower_range g a b k L Hg Hk HL) as HL1. set (L1 := default_lower _ _ _) in *.
  pose proof (default_now_range g a b k N Hg Hk HN) as HN1. set (N1 := default_now _ _ _) in *.
  pose proof (default_upper_range g k L1 N1 growth U Hk HN1 HU) as HU1. set (U1 := default_upper _ _ _ _ _ _) in *.
  clearbody L1 N1 U1. case_if as E; [by left|].
  apply orb_false_elim in E as [F1%Z.ltb_ge F2%Z.ltb_ge].
  change MIN_MAPSIZE with 768 in F1. set (N2 := if N1 <=? 0 then _ else _).
  assert (0 < N2 /\ is_intptr N2) as [HN2 HN2'].
  { unfold N2. destruct (Z.leb_spec N1 0); [case_if as E; (split; [lia|done])|split; [lia|done]]. }
  clearbody N2. rewrite (u64_of_nonneg L1) by (first [done|lia]). rewrite (u64_of_nonneg U1) by (first [done|lia]).
  assert (forall L2 N3, MIN_PAGENO * 2 ^ k <= L2 <= U1 -> 0 < N3 -> is_intptr N3 ->
    match (if (mmap_limit g <? U1) || (MAX_PAGENO + 1 <? U1 / 2 ^ k) then Error MDBX_TOO_LARGE
           else round_sizes g (2 ^ k) (L <? 0) L2 N3 U1 growth shrink) with
    | Done s => exists k', 8 <= k' <= 16 /\ 2 ^ k = 2 ^ k' /\ settled g k' (Z.max a k') s
    | Error e => e = MDBX_EINVAL \/ e = MDBX_TOO_LARGE
    | Panic => False
    | Undefined => growth_overflows growth shrink
    end) as Hround.
  { intros L2 N3 HL2 HN3 HN3'. case_if as E; [by right|]. apply orb_false_elim in E as [G1%Z.ltb_ge G2%Z.ltb_ge].
    pose proof (round_sizes_spec g a b k (L <? 0) L2 N3 U1 growth shrink Hg Hk HL2 HN3 HN3' G1 G2 Hgr Hsh) as Hr.
    destruct (round_sizes _ _ _ _ _ _ _ _); [by exists k|by left|done..]. }
  destruct (Z.ltb_spec (L1 / 2 ^ k) MIN_PAGENO) as [Hlow|Hlow].
  - destruct (Z.ltb_spec U1 (2 ^ k * MIN_PAGENO)) as [E|E]; cbn; [by left|].
    assert (MIN_PAGENO * 2 ^ k = 2 ^ k * MIN_PAGENO) as Ec by apply Z.mul_comm.
    apply Hround; [lia| |]; destruct (Z.ltb_spec N2 (2 ^ k * MIN_PAGENO)); try done; unfold is_intptr, MIN_PAGENO in *; lia.
  - cbn. apply Hround; [|done..]. split; [|done].
    pose proof (Z.mul_div_le L1 (2 ^ k) ltac:(lia)). nia.
Qed.

Lemma ceil_intptr_multiple j x m : 0 <= x <= 2 ^ 47 -> 0 <= j <= m -> m <= 20 -> (2 ^ m | x) ->
  i64 (ceil_powerof2 (u64 x) (2 ^ j)) = x.
Proof.
  intros Hx Hj Hm Hd. pose proof (Z.pow_le_mono_r 2 j 20 ltac:(lia) ltac:(lia)).
  destruct (ceil_intptr x j ltac:(lia) ltac:(unfold is_intptr; lia) ltac:(lia)) as (C1 & _ & C3 & _). cbn zeta in *.
  specialize (C3 ltac:(lia)). apply Z.le_antisymm; [|lia].
  apply (multiples_le (2 ^ j)); [lia|done| |lia]. eapply Z.divide_trans; [apply (pow_divides _ m)|]; [lia|done].
Qed.

(** Explicit sizes in whole units are kept. *)
Lemma settle_sizes_exact g a b k L N U growth shrink : globals_ok a b g -> 8 <= k <= 16 ->
  MIN_PAGENO * 2 ^ k <= L -> L <= N <= U -> U <= mmap_limit g -> U <= 2 ^ k * (MAX_PAGENO + 1) ->
  (2 ^ Z.max b k | L) -> (2 ^ Z.max b k | N) -> (2 ^ Z.max b k | U) -> 0 <= growth < 2 ^ 63 -> 0 <= shrink < 2 ^ 63 ->
  exists s, settle_sizes g (2 ^ k) L N U growth shrink = Done s /\ sz_lower s = L /\ sz_now s = N /\ sz_upper s = U.
Proof.
  intros Hg Hk HL HN HU1 HU2 HdL HdN HdU Hgr Hsh.
  destruct (go_a _ _ _ Hg) as [Ha1 Ha2], (go_ab _ _ _ Hg) as [Hb1 Hb2], (go_mmap _ _ _ Hg) as [Hm1 Hm2].
  assert (MAX_MAPSIZE = 2 ^ 47) as HM by reflexivity.
  assert (2 ^ 8 <= 2 ^ k <= 2 ^ 16) as Hk' by (split; apply Z.pow_le_mono_r; lia).
  pose proof (Z.pow_le_mono_r 2 (Z.max b k) 20 ltac:(lia) ltac:(lia)) as Hb'.
  unfold MIN_PAGENO in HL.
  assert (forall x, 0 <= x <= U -> u64 x = x) as Hu by (intros; apply u64_small; unfold UINT64_MAX; lia).
  assert (forall j x, 0 <= j <= Z.max b k -> 0 <= x <= U -> (2 ^ Z.max b k | x) -> i64 (ceil_powerof2 (u64 x) (2 ^ j)) = x) as Hc
    by (intros; apply (ceil_intptr_multiple _ _ (Z.max b k)); first [done|lia]).
  unfold settle_sizes. rewrite Hu by lia.
  rewrite is_powerof2_pow2 by lia. rewrite (proj2 (Z.ltb_ge (2 ^ k) MDBX_MIN_PAGESIZE)) by (unfold MDBX_MIN_PAGESIZE; lia).
  rewrite (proj2 (Z.ltb_ge MDBX_MAX_PAGESIZE (2 ^ k))) by (unfold MDBX_MAX_PAGESIZE; lia). cbn [orb negb].
  assert (forall x, 0 < x <= U -> default_lower g (2 ^ k) x = x) as ->.
  { intros x Hx. unfold default_lower, INTPTR_MAX. rewrite (proj2 (Z.leb_gt x 0)), (proj2 (Z.leb_gt (2 ^ 63 - 1) x)) by lia. done. }
  2: lia.
  assert (default_now g (2 ^ k) N = N) as ->
    by (unfold default_now, INTPTR_MAX; rewrite (proj2 (Z.leb_gt (2 ^ 63 - 1) N)) by lia; done).
  assert (default_upper g (2 ^ k) L N growth U = U) as ->
    by (unfold default_upper, INTPTR_MAX; rewrite (proj2 (Z.leb_gt U 0)), (proj2 (Z.leb_gt (2 ^ 63 - 1) U)) by lia; done).
  rewrite (proj2 (Z.ltb_ge L MIN_MAPSIZE)) by (change MIN_MAPSIZE with 768; lia). rewrite (proj2 (Z.ltb_ge U L)) by lia. cbn [orb].
  rewrite (proj2 (Z.leb_gt N 0)), !Hu by lia.
  rewrite (proj2 (Z.ltb_ge (L / 2 ^ k) MIN_PAGENO)) by (apply Z.div_le_lower_bound; unfold MIN_PAGENO; lia).
  assert ((mmap_limit g <? U) || (MAX_PAGENO + 1 <? U / 2 ^ k) = false) as Hguard.
  { apply orb_false_intro; apply Z.ltb_ge; [lia|]. apply Z.lt_succ_r, Z.div_lt_upper_bound; unfold MAX_PAGENO in *; lia. }
  cbn [mbind outcome_bind]. rewrite Hguard. unfold round_sizes.
  rewrite (unit_ps_pow g a b) by done.
  assert (exists v, unit_ag g (2 ^ k) growth = 2 ^ v /\ 0 <= v <= Z.max b k) as (v & -> & Hv).
  { unfold unit_ag. rewrite (unit_ps_pow g a b), (go_ag _ _ _ Hg) by done. case_if as E; [exists b|exists (Z.max a k)]; (split; [done|lia]). }
  rewrite !Hc by (first [done|lia]). cbn [lower_upper]. rewrite Hu, Hguard by lia. cbn [mbind outcome_bind].
  rewrite (proj2 (Z.ltb_ge N L)), (proj2 (Z.ltb_ge U N)) by lia. unfold settle_steps.
  rewrite (proj2 (Z.ltb_ge shrink 0)) by lia. cbn [mbind outcome_bind]. eexists. split; [done|]. done.
Qed.

(** ** What the call keeps *)

Lemma raise_pagesize_ok fuel top j : 8 <= j <= 16 -> 16 - j < Z.of_nat fuel ->
  exists k, j <= k <= 16 /\ raise_pagesize fuel top (2 ^ j) = Done (2 ^ k) /\ (top <= 2 ^ k * (MAX_PAGENO + 1) \/ k = 16).
Proof.
  revert j. induction fuel as [|fuel IH]; intros j Hj Hf; [lia|]. cbn [raise_pagesize].
  case_if as E.
  - apply andb_prop in E as [_ E%Z.ltb_lt]. change MDBX_MAX_PAGESIZE with (2 ^ 16) in E.
    apply Z.pow_lt_mono_r_iff in E; [|lia..].
    rewrite Z.shiftl_mul_pow2 by lia. replace (2 ^ j * 2 ^ 1) with (2 ^ (j + 1)) by (rewrite Z.pow_add_r; lia).
    destruct (IH (j + 1)) as (k & Hk & H1 & H2); [lia|lia|]. exists k. split; [lia|done].
  - exists j. split; [lia|]. split; [done|].
    apply andb_false_iff in E as [E%Z.ltb_ge|E%Z.ltb_ge]; [by left|right].
    change MDBX_MAX_PAGESIZE with (2 ^ 16) in E. apply Z.pow_le_mono_r_iff in E; lia.
Qed.

Lemma auto_pagesize_ok g a b L N U p : globals_ok a b g -> is_intptr p -> exists q, auto_pagesize g L N U p = Done q /\ is_intptr q.
Proof.
  intros Hg Hp. unfold auto_pagesize. destruct (go_a _ _ _ Hg) as [Ha1 Ha2].
  case_if as E1; [eexists; split; [done|unfold is_intptr, MDBX_MAX_PAGESIZE; lia]|].
  case_if as E2; [eexists; split; [done|unfold is_intptr, MDBX_MIN_PAGESIZE; lia]|].
  case_if as E3; [|by exists p]. rewrite (go_sys _ _ _ Hg).
  assert (2 ^ 12 <= 2 ^ a <= 2 ^ 16) as Hpow by (split; apply Z.pow_le_mono_r; lia).
  rewrite (i64_id (2 ^ a)) by (unfold is_intptr; lia). rewrite u64_small by (unfold UINT64_MAX; lia).
  rewrite (proj2 (Z.ltb_ge MDBX_MAX_PAGESIZE _)) by (unfold MDBX_MAX_PAGESIZE; lia).
  set (top := if (if _ <? _ then _ else _) <? 0 then _ else _).
  destruct (raise_pagesize_ok 32 top a ltac:(lia) ltac:(lia)) as (k & Hk & -> & _).
  eexists. split; [done|]. pose proof (Z.pow_le_mono_r 2 k 16). pose proof (Z.pow_pos_nonneg 2 k). unfold is_intptr. lia.
Qed.

Lemma pv_pages_multiple x : 0 <= x ->
  0 <= pv2pages (pages2pv x) <= 2 ^ 27 /\ (pv2pages (pages2pv x) = x \/ (256 | pv2pages (pages2pv x))).
Proof.
  intros Hx. destruct (decide (x < 2 ^ 26)) as [Hb|Hb].
  - destruct (pv_direct x) eqn:Hd.
    + destruct (pv_direct_id x Hx Hd) as [H1 H2]. rewrite H2, H1. split; [lia|by left].
    + destruct (pages2pv_packed x ltac:(lia) Hd) as (e & c & He & Hc & _ & _ & Hp & Hxp & Herr & _).
      rewrite Hp. split; [lia|right].
      apply Z.divide_add_r; [by exists 128|]. apply Z.divide_mul_r. apply (pow_divides 8). lia.
  - rewrite pages2pv_saturates by lia. change (pv2pages 65533) with (2 ^ 26). split; [lia|right]. by exists 262144.
Qed.

Lemma quantized_spec env a k step : 8 <= k <= 16 -> 0 <= a <= 16 -> env_limits k env -> (2 ^ Z.max a k | step) ->
  let q := quantized env step in 0 <= q < 2 ^ 63 /\ (2 ^ k | q) /\ (2 ^ a | q).
Proof.
  intros Hk Ha Hlim Hd. cbn zeta. unfold quantized, pgno2bytes, bytes2pgno. rewrite (lim_ln _ _ Hlim).
  set (x := u32 (Z.shiftr (u64 step) k)).
  assert ((2 ^ (Z.max a k - k) | x)) as Hx.
  { unfold x. apply wrap_divides; [lia|]. rewrite Z.shiftr_div_pow2 by lia.
    destruct (wrap_divides (Z.max a k) 64 step ltac:(lia) Hd) as [t Ht]. unfold u64. rewrite Ht.
    replace (2 ^ Z.max a k) with (2 ^ (Z.max a k - k) * 2 ^ k) by (rewrite <- Z.pow_add_r by lia; f_equal; lia).
    rewrite Z.mul_assoc, Z.div_mul by lia. apply Z.divide_factor_r. }
  assert (0 <= x) as Hx0 by (apply wrap_range; lia).
  destruct (pv_pages_multiple x Hx0) as [Hr Hm]. set (p := pv2pages (pages2pv x)) in *. clearbody p.
  rewrite Z.shiftl_mul_pow2 by lia.
  assert (2 ^ k <= 2 ^ 16) by (apply Z.pow_le_mono_r; lia). assert (0 < 2 ^ k) by lia.
  rewrite u64_small by (unfold UINT64_MAX; nia). split; [nia|]. split; [apply Z.divide_factor_r|].
  assert ((2 ^ Z.max (Z.max a k - k) 0 | p) \/ (2 ^ 8 | p)) as Hp.
  { destruct Hm as [->|Hm]; [left|by right]. by rewrite Z.max_l by lia. }
  assert (forall j, a <= j + k -> 0 <= j -> (2 ^ j | p) -> (2 ^ a | p * 2 ^ k)) as Hj.
  { intros j Hj Hj0 [t ->]. rewrite <- Z.mul_assoc, <- Z.pow_add_r by lia. apply Z.divide_mul_r, pow_divides. lia. }
  destruct Hp as [Hp|Hp]; (eapply Hj; [| |exact Hp]; lia).
Qed.

Definition geo_ok (g : globals) (k : Z) (s : sizes) : Prop :=
MIN_PAGENO * 2 ^ k <= sz_lower s /\ sz_lower s <= sz_now s <= sz_upper s /\
sz_upper s <= mmap_limit g /\ sz_upper s / 2 ^ k <= MAX_PAGENO + 1 /\
Forall (λ x, x mod 2 ^ k = 0 /\ x mod sys_pagesize g = 0) [sz_lower s; sz_now s; sz_upper s; sz_grow s; sz_shrink s].

Definition env_fits (env : page_env) : Prop := env_ps env = 0 \/ exists k, 8 <= k <= 16 /\ env_limits k env.

(** With settled sizes the rest of the call goes through. *)
Lemma keep_sizes g a b env d o k s : globals_ok a b g -> 8 <= k <= 16 -> env_fits env -> merge_option_ok d -> subopts_ok o ->
  settled g k (Z.max a k) s ->
  exists env', (if 2 ^ k =? env_ps env then Done env
                else match env_setup_pagesize (env_ps env) false d o (2 ^ k) with
                     | Some setup => Done (ps_env setup) | None => Panic end) = Done env' /\
    env_limits k env' /\
    geo_ok g k (mk_sizes (sz_lower s) (sz_now s) (sz_upper s) (quantized env' (sz_grow s)) (quantized env' (sz_shrink s))).
Proof.
  intros Hg Hk Henv Hd Ho Hs. destruct (go_a _ _ _ Hg) as [Ha1 Ha2].
  assert (exists env', (if 2 ^ k =? env_ps env then Done env
                else match env_setup_pagesize (env_ps env) false d o (2 ^ k) with
                     | Some setup => Done (ps_env setup) | None => Panic end) = Done env' /\ env_limits k env')
    as (env' & He & Hlim).
  { destruct (Z.eqb_spec (2 ^ k) (env_ps env)) as [E|E].
    - exists env. split; [done|]. assert (0 < 2 ^ k) by lia. destruct Henv as [H0|(k' & Hk' & Hl)]; [lia|].
      rewrite (lim_ps _ _ Hl) in E. apply Z.pow_inj_r in E; [by subst|lia..].
    - destruct (env_setup_pagesize_ok k (env_ps env) d o Hk) as (st & -> & Hl & _); [congruence|done..|]. by exists (ps_env st). }
  exists env'. split; [done|]. split; [done|].
  assert (forall x, (2 ^ Z.max a k | x) -> x mod 2 ^ k = 0 /\ x mod sys_pagesize g = 0) as Hmod.
  { intros x Hx. rewrite (go_sys _ _ _ Hg).
    split; (apply Z.mod_divide; [lia|]); (eapply Z.divide_trans; [apply (pow_divides _ (Z.max a k))|exact Hx]; lia). }
  assert (forall x, (2 ^ Z.max a k | x) -> quantized env' x mod 2 ^ k = 0 /\ quantized env' x mod sys_pagesize g = 0) as Hq.
  { intros x Hx. rewrite (go_sys _ _ _ Hg). destruct (quantized_spec env' a k x Hk ltac:(lia) Hlim Hx) as (_ & H1 & H2).
    split; (apply Z.mod_divide; [lia|done]). }
  destruct Hs. unfold geo_ok; cbn. split; [done|]. split; [done|]. split; [lia|].
  split; [apply Z.lt_succ_r, Z.div_lt_upper_bound; unfold MAX_PAGENO in *; lia|].
  repeat constructor; first [by apply Hmod|by apply Hq].
Qed.

Lemma set_geometry_ensured g a b k (env : page_env) s : globals_ok a b g -> 8 <= k <= 16 -> geo_ok g k s ->
  let multiple x := (x mod 2 ^ k =? 0) && (x mod sys_pagesize g =? 0) in
  ensure (MIN_MAPSIZE <=? sz_lower s)
  (ensure (MIN_PAGENO <=? sz_lower s / 2 ^ k)
  (ensure (multiple (sz_lower s))
  (ensure (sz_upper s <=? MAX_MAPSIZE)
  (ensure (sz_upper s / 2 ^ k <=? MAX_PAGENO + 1)
  (ensure (multiple (sz_upper s))
  (ensure (sz_lower s <=? sz_now s)
  (ensure (sz_now s <=? sz_upper s)
  (ensure (multiple (sz_now s))
  (ensure (multiple (sz_grow s))
  (ensure (multiple (sz_shrink s)) (Done (env, s)))))))))))) = Done (env, s).
Proof.
  intros Hg Hk (H1 & H2 & H3 & H4 & H5). cbn zeta.
  assert (2 ^ 8 <= 2 ^ k) as Hk' by (apply Z.pow_le_mono_r; lia). pose proof (go_mmap _ _ _ Hg).
  unfold MIN_PAGENO in *. rewrite !Forall_cons in H5. destruct H5 as ((M1 & M1') & (M2 & M2') & (M3 & M3') & (M4 & M4') & (M5 & M5') & _).
  rewrite M1, M1', M2, M2', M3, M3', M4, M4', M5, M5'. cbn [Z.eqb andb ensure].
  assert (3 <= sz_lower s / 2 ^ k) by (apply Z.div_le_lower_bound; lia).
  change MIN_MAPSIZE with 768. rewrite (proj2 (Z.leb_le 768 _)) by lia. cbn [ensure].
  repeat (rewrite (proj2 (Z.leb_le _ _)) by lia; cbn [ensure]). done.
Qed.

Lemma set_geometry_settled g a b env d o L N U growth shrink p k s :
  globals_ok a b g -> 8 <= k <= 16 -> env_fits env -> merge_option_ok d -> subopts_ok o ->
  auto_pagesize g L N U p = Done (2 ^ k) -> settle_sizes g (2 ^ k) L N U growth shrink = Done s ->
  settled g k (Z.max a k) s ->
  exists env' geo, set_geometry_unmapped g env false false d o L N U growth shrink p = Done (env', geo) /\
    env_limits k env' /\ geo_ok g k geo /\ sz_lower geo = sz_lower s /\ sz_now geo = sz_now s /\ sz_upper geo = sz_upper s.
Proof.
  intros Hg Hk Henv Hd Ho Hp Hs Hst. unfold set_geometry_unmapped. rewrite Hp. cbn [mbind outcome_bind]. rewrite Hs.
  cbn [mbind outcome_bind]. destruct (keep_sizes g a b env d o k s Hg Hk Henv Hd Ho Hst) as (env' & He & Hlim & Hgeo).
  rewrite He. cbn [mbind outcome_bind].
  eexists env', _. split; [by apply (set_geometry_ensured g a b k env' _ Hg Hk Hgeo)|]. done.
Qed.

(** ** Theorems *)

(** C14: Setting the geometry of a database that is not opened yet never ends
    in a panic. Whatever the arguments are, the call returns an error code or
    keeps sizes with [lower <= now <= upper], within the limits of the system
    and of page numbers, at least three pages, all of them and both steps in
    whole pages of the database and of the system; only a growth step of
    [2^61] bytes or more with a default shrink threshold overflows. Explicit
    sizes in whole units are kept as they are. *)
Theorem set_geometry_unmapped_sound g a b env d o L N U growth shrink p :
  globals_ok a b g -> env_fits env -> merge_option_ok d -> subopts_ok o ->
  is_intptr L -> is_intptr N -> is_intptr U -> is_intptr growth -> is_intptr shrink -> is_intptr p ->
  match set_geometry_unmapped g env false false d o L N U growth shrink p with
  | Done (env', geo) => exists k, 8 <= k <= 16 /\ env_limits k env' /\ geo_ok g k geo
  | Error e => e = MDBX_EINVAL \/ e = MDBX_TOO_LARGE
  | Panic => False
  | Undefined => growth_overflows growth shrink
  end /\
  (forall k, 8 <= k <= 16 -> p = 2 ^ k -> MIN_PAGENO * 2 ^ k <= L -> L <= N <= U -> U <= mmap_limit g ->
     U <= 2 ^ k * (MAX_PAGENO + 1) -> Forall (λ x, (2 ^ Z.max b k | x)) [L; N; U] -> 0 <= growth -> 0 <= shrink ->
     exists env' geo, set_geometry_unmapped g env false false d o L N U growth shrink p = Done (env', geo) /\
       sz_lower geo = L /\ sz_now geo = N /\ sz_upper geo = U).
Proof.
  intros Hg Henv Hd Ho HL HN HU Hgr Hsh Hp. split.
  - destruct (auto_pagesize_ok g a b L N U p Hg Hp) as (q & Hq & Hqr).
    pose proof (settle_sizes_spec g a b q L N U growth shrink Hg Hqr HL HN HU Hgr Hsh) as Hs.
    destruct (settle_sizes g q L N U growth shrink) as [s|e| |] eqn:Es;
      [|by unfold set_geometry_unmapped; rewrite Hq; cbn [mbind outcome_bind]; rewrite Es..].
    destruct Hs as (k & Hk & -> & Hst).
    destruct (set_geometry_settled g a b env d o L N U growth shrink p k s) as (env' & geo & -> & Hlim & Hgeo & _); [done..|].
    by exists k.
  - intros k Hk -> HL' HN' HU1 HU2 Hm G0 S0. rewrite !Forall_cons in Hm. destruct Hm as (M1 & M2 & M3 & _).
    unfold is_intptr in Hgr, Hsh.
    destruct (settle_sizes_exact g a b k L N U growth shrink Hg Hk HL' HN' HU1 HU2 M1 M2 M3) as (s & Es & <- & <- & <-); [lia|lia|].
    pose proof (settle_sizes_spec g a b (2 ^ k) (sz_lower s) (sz_now s) (sz_upper s) growth shrink Hg Hp HL HN HU Hgr Hsh) as Hs.
    rewrite Es in Hs. destruct Hs as (k' & Hk' & Ek & Hst). apply Z.pow_inj_r in Ek as <-; [|lia..].
    assert (2 ^ 8 <= 2 ^ k <= 2 ^ 16) as Hkp by (split; apply Z.pow_le_mono_r; lia).
    destruct (set_geometry_settled g a b env d o (sz_lower s) (sz_now s) (sz_upper s) growth shrink (2 ^ k) k s)
      as (env' & geo & -> & _ & _ & Hgeo); [done..| |done|done|by exists env', geo].
    unfold auto_pagesize, INT_MAX. rewrite (proj2 (Z.leb_gt (2 ^ 31 - 1) _)), (proj2 (Z.eqb_neq _ 0)), (proj2 (Z.ltb_ge _ 0)) by lia.
    done.
Qed.

Definition sample_globals : globals := mk_globals 4096 4096 (2 ^ 47) (2 ^ 34).
Definition sample_env : page_env := mk_env 4096 12 2036 2030.

Lemma sample_globals_ok : globals_ok 12 12 sample_globals.
Proof. by constructor. Qed.

Lemma sample_env_limits : env_limits 12 sample_env.
Proof. by constructor. Qed.

Lemma set_geometry_unmapped_sound_witness :
  match set_geometry_unmapped sample_globals sample_env false false 21845 (mk_subopts 65535 2753 0 27525)
          (-1) (-1) (-1) (-1) (-1) (-1) with
  | Done (env', geo) => geo_ok sample_globals 12 geo
  | _ => False
  end.
Proof.
  destruct (set_geometry_unmapped_sound sample_globals 12 12 sample_env 21845 (mk_subopts 65535 2753 0 27525)
    (-1) (-1) (-1) (-1) (-1) (-1)) as [H _];
    [apply sample_globals_ok|right; exists 12; split; [lia|apply sample_env_limits]|unfold merge_option_ok; lia
    |unfold subopts_ok; cbn; lia|unfold is_intptr; lia..|].
  revert H. destruct (set_geometry_unmapped _ _ _ _ _ _ _ _ _ _ _ _) as [[env' geo]| | |] eqn:E; vm_compute in E; try discriminate E.
  intros (k & Hk & Hlim & Hg). injection E as <- <-. pose proof (lim_ln _ _ Hlim) as Ek. cbn in Ek. by subst k.
Defined.

(** ** Panics of a mapped database *)

(** A growth step of 32769 pages of 4096 bytes: the code 0x8001 stands for
    33024 pages, which has a code of its own, so that the check that a code
    is stable fails. *)
Lemma mapped_growth_step_panics :
  set_geometry_mapped false sample_globals sample_env (mk_geo 0 0 16 (2 ^ 24) (2 ^ 20) 1000) 1000
    (-1) (-1) (-1) (32769 * 4096) (-1) (-1) = Panic.
Proof. vm_compute. reflexivity. Qed.

(** An upper size of [INTPTR_MAX], the maximum, becomes the size considered
    reasonable for the RAM of the system, 16 GiB here. A database that already
    uses more pages fails the check that the current size covers them. *)
Lemma mapped_maximal_upper_panics :
  set_geometry_mapped false sample_globals sample_env (mk_geo 256 512 16 (2 ^ 24) (2 ^ 23) (2 ^ 23)) (2 ^ 23)
    (-1) (-1) INTPTR_MAX (-1) (-1) (-1) = Panic.
Proof. vm_compute. reflexivity. Qed.

(** Ordinary arguments pass. *)
Example mapped_growth_step_passes :
  set_geometry_mapped false sample_globals sample_env (mk_geo 0 0 16 (2 ^ 24) (2 ^ 20) 1000) 1000
    (-1) (-1) (-1) (32768 * 4096) (-1) (-1) = Done (mk_geo 32768 0 16 (2 ^ 24) (2 ^ 20) 1000).
Proof. vm_compute. reflexivity. Qed.
