(* ===== verification/PageCheck.v ===== *)
(** * Validation of pages ([src/src/page-get.c], [page-ops.h])

    A page that was read is checked before it is used: the header always, the
    nodes when validation is asked for. [page_check] goes on after most of the
    defects it meets and returns [MDBX_CORRUPTED] at the end; the model does
    the same, so that the reads of the remaining nodes are part of it. A read
    outside the bytes of the page makes the result [None]. Messages are not
    modelled. *)

From stdpp Require Import base numbers option list.
From Stdlib Require Import ZArith Lia.
From S2P Require Import Prelude Bits Alloc Pnl Bytes Cmp Page Node NodeProofs TreeSearch Cogs.

Definition P_ILL_BITS : Z :=
u16 (Z.lnot (Z.lor P_BRANCH (Z.lor P_LEAF (Z.lor P_DUPFIX (Z.lor P_LARGE P_SPILLED))))).

(** [mc->checking] *)
Definition z_updating : Z := 0x08.
Definition z_ignord : Z := 0x10.
Definition z_dupfix : Z := 0x20.
Definition z_retiring : Z := 0x40.
Definition z_pagecheck : Z := 0x80.

Section Check.
(** [MDBX_UNALIGNED_OK] *)
Context (unaligned_ok : Z).

(** [clc_t]: a comparator and the bounds of the lengths. *)
Record clc : Type := mk_clc {
  clc_cmp : comparator;
  clc_lmin : Z;
  clc_lmax : Z;
}.

(** What the checks use of the cursor, its tree and its transaction. *)
Record kcursor : Type := mk_kc {
  kc_env : page_env;
  kc_writemap : bool;
  kc_inner : bool;
  kc_checking : Z;
  kc_tree_flags : Z;
  kc_dupfix_size : Z;
  kc_height : Z;
  kc_items : Z;
  kc_k : clc;
  kc_v : clc;
  kc_txnid : Z;
  kc_front_txnid : Z;
  kc_first_unallocated : Z;
  kc_now : Z;
}.

Definition is_shadowed (mc : kcursor) (mp : page) : bool := kc_txnid mc <? pg_txnid mp.
Definition is_modifiable (mc : kcursor) (mp : page) : bool := pg_txnid mp =? kc_front_txnid mc.

(** [mp->pages], the other reading of [lower] and [upper]. *)
Definition page_pages (mp : page) : Z := pg_lower mp + pg_upper mp * 65536.

Definition value_clc (mc : kcursor) : clc :=
if negb (kc_inner mc) then kc_v mc else mk_clc (ncmp_equal_or_wrong unaligned_ok) 0 0.

(** ** The header *)

Definition bounds_ok (mp : page) (limit : Z) : bool :=
negb ((pg_upper mp <? pg_lower mp) || negb (Z.land (pg_lower mp) 1 =? 0) || (limit <? PAGEHDRSZ + pg_upper mp)).

Definition large_ok (mc : kcursor) (mp : page) : bool :=
negb ((page_pages mp <? 1) || (MAX_PAGENO / 2 <=? page_pages mp))
&& negb (kc_first_unallocated mc <? u32 (pg_pgno mp + page_pages mp)).

(** [true] stands for [MDBX_SUCCESS], [false] for [MDBX_CORRUPTED]. *)
Definition check_page_header (ILL : Z) (mc : kcursor) (mp : page) (front : Z) : bool :=
if has (pg_flags mp) ILL then false
else if (front <? pg_txnid mp) && ((kc_front_txnid mc <? pg_txnid mp) || (front <? kc_txnid mc)) then false
else if (has ILL P_LARGE || negb (is_largepage mp)) && negb (has ILL (Z.lor P_BRANCH (Z.lor P_LEAF P_DUPFIX)))
then bounds_ok mp (env_ps (kc_env mc))
else if negb (has ILL P_LARGE) then large_ok mc mp
else true.

(** The first part of [page_check]: number, address and flags. [offset] is the
    distance of the page from the start of the map. *)
Definition check_address (mc : kcursor) (mp : page) (offset : Z) : bool :=
let env := kc_env mc in
let outside := (offset <? 0)
  || (pgno2bytes env (kc_first_unallocated mc) - (if is_subpage mp then PAGEHDRSZ + 1 else env_ps env) <? offset) in
let flags_mask := if outside then P_ILL_BITS - P_SUBP else P_ILL_BITS in
let flags_expected := if negb outside && negb (Z.land offset (env_ps env - 1) =? 0) then P_SUBP else 0 in
negb ((pg_pgno mp <? MIN_PAGENO) || (MAX_PAGENO <? pg_pgno mp))
&& negb (outside && (kc_writemap mc || (negb (is_shadowed mc mp) && negb (is_subpage mp))))
&& (Z.land (pg_flags mp) flags_mask =? flags_expected).

(** The [switch] by type: [None] when the function returns there, with the
    verdict; otherwise whether the type fits the cursor. *)
Inductive type_verdict : Set :=
| Verdict (ok : bool)
| Nodes (ok : bool).

Definition check_type (mc : kcursor) (mp : page) : type_verdict :=
let type := page_type mp in
let dupfix := has (kc_checking mc) z_dupfix in
if type =? P_LARGE then Verdict (negb (kc_inner mc) && large_ok mc mp)
else if type =? Z.lor P_LEAF P_SUBP then Nodes ((kc_height mc =? 1) && negb dupfix)
else if type =? P_LEAF then Nodes (negb dupfix)
else if type =? Z.lor P_LEAF (Z.lor P_DUPFIX P_SUBP) then Nodes ((kc_height mc =? 1) && dupfix)
else if type =? Z.lor P_LEAF P_DUPFIX then Nodes dupfix
else if type =? P_BRANCH then Nodes true
else Verdict false.

(** Bounds, number of keys and kind of the items. *)
Definition check_layout (mc : kcursor) (mp : page) : bool :=
let env := kc_env mc in
let nkeys := page_numkeys mp in
bounds_ok mp (env_ps env)
&& negb ((nkeys <=? u8 (Z.land (pg_flags mp) P_BRANCH))
         && (negb (kc_inner mc) || negb (kc_items mc =? 0))
         && (negb (has (kc_checking mc) z_updating) || negb (is_modifiable mc mp || is_subpage mp)))
&& (if is_dupfix_leaf mp then
      kc_inner mc && has (kc_tree_flags mc) MDBX_DUPFIXED
      && (pg_dupfix_ksize mp =? kc_dupfix_size mc)
      && (Z.land (Z.lxor (Z.land (pg_dupfix_ksize mp) nkeys) (pg_upper mp)) 1 =? 0)
    else
      (Z.land (pg_upper mp) 1 =? 0)
      && (u64 (PAGEHDRSZ + pg_upper mp + nkeys * NODESIZE + nkeys - 1) <=? env_ps env)).

(** ** The items *)

(** What the loop over the items carries: whether a defect was met, the
    previous key, the length bounds of the keys, which a page of fixed-size
    items narrows, and those of the values, likewise. *)
Record chk : Type := mk_chk {
  ck_bad : bool;
  ck_prev : option MDBX_val;
  ck_k : clc;
  ck_v : clc;
}.

Definition bad (st : chk) : chk := mk_chk true (ck_prev st) (ck_k st) (ck_v st).
Definition bad_if (c : bool) (st : chk) : chk := if c then bad st else st.

(** Compare with the previous key and become it. *)
Definition check_order (mc : kcursor) (cmp : comparator) (prev : option MDBX_val) (here : MDBX_val)
  : option (bool * option MDBX_val) :=
if has (kc_checking mc) z_ignord then Some (false, prev)
else match prev with
     | None => Some (false, Some here)
     | Some p => c ← cmp p here; Some (0 <=? c, Some here)
     end.

(** Narrow the bounds to the one length of fixed-size items. *)
Definition narrow (c : clc) (ksize : Z) : bool * clc :=
if negb (ksize =? clc_lmin c) then
  if (ksize <? clc_lmin c) || (clc_lmax c <? ksize) then (true, c) else (false, mk_clc (clc_cmp c) ksize ksize)
else (false, c).

Definition check_dupfix_item (mc : kcursor) (mp : page) (i : Z) (st : chk) : option chk :=
let ksize := pg_dupfix_ksize mp in
let key := page_dupfix_ptr mp i (kc_dupfix_size mc) in
if page_space (kc_env mc) <? key + ksize then Some (bad st)
else
  let '(wrong, k) := narrow (ck_k st) ksize in
  '(disorder, prev) ← check_order mc (clc_cmp k) (ck_prev st) (mk_val (pg_body mp) key ksize);
  Some (mk_chk (ck_bad st || wrong || disorder) prev k (ck_v st)).

(** The header of a sub-page at [d]. *)
Record subheader : Type := mk_sub {
  sp_ksize : Z;
  sp_flags : Z;
  sp_lower : Z;
  sp_upper : Z;
}.

Definition read_subheader (m : bytes) (d : Z) : option subheader :=
ksize ← load 2 m (d + 8);
flags ← load 2 m (d + 10);
lower ← load 2 m (d + 12);
upper ← load 2 m (d + 14);
Some (mk_sub ksize flags lower upper).

(** One item of the sub-page at [d] with [dsize] bytes; [sprev] is the previous
    key of the sub-page. *)
Definition check_sub_item (mc : kcursor) (m : bytes) (d dsize : Z) (sp : subheader) (ii : Z)
  (sprev : option MDBX_val) (st : chk) : option (option MDBX_val * chk) :=
let end_of_subpage := d + dsize in
let v := ck_v st in
if has (sp_flags sp) P_DUPFIX then
  let sub_ksize := sp_ksize sp in
  let sub_key := d + PAGEHDRSZ + sub_ksize * u16 ii in
  if end_of_subpage <? sub_key + sub_ksize then Some (sprev, bad st)
  else
    let '(wrong, v) := narrow v sub_ksize in
    '(disorder, sprev) ← check_order mc (clc_cmp v) sprev (mk_val m sub_key sub_ksize);
    Some (sprev, mk_chk (ck_bad st || wrong || disorder) (ck_prev st) (ck_k st) v)
else
  sub_off ← load 2 m (d + PAGEHDRSZ + 2 * ii);
  if (sub_off <? sp_upper sp) || (u64 (dsize - PAGEHDRSZ) <? sub_off) || negb (Z.land sub_off 1 =? 0) then Some (sprev, bad st)
  else
    let sub_node := d + PAGEHDRSZ + sub_off in
    if end_of_subpage <? sub_node + NODESIZE then Some (sprev, bad st)
    else
      fl ← node_flags m sub_node;
      sub_ksize ← node_ks unaligned_ok m sub_node;
      let sub_key := node_key sub_node in
      sub_dsize ← node_ds unaligned_ok m sub_node;
      '(disorder, sprev) ← check_order mc (clc_cmp v) sprev (mk_val m sub_key sub_ksize);
      Some (sprev, bad_if (negb (fl =? 0) || ((sub_ksize <? clc_lmin v) || (clc_lmax v <? sub_ksize)) || disorder
                           || negb (sub_dsize =? 0) || (end_of_subpage <? sub_key + sub_ksize)) st).

Fixpoint check_sub_items (n : nat) (mc : kcursor) (m : bytes) (d dsize : Z) (sp : subheader) (ii : Z)
  (sprev : option MDBX_val) (st : chk) : option chk :=
match n with
| O => Some st
| S n => '(sprev, st) ← check_sub_item mc m d dsize sp ii sprev st; check_sub_items n mc m d dsize sp (ii + 1) sprev st
end.

Definition check_subpage (mc : kcursor) (mp : page) (d dsize : Z) (st : chk) : option chk :=
if dsize <=? PAGEHDRSZ then Some (bad st)
else
  sp ← read_subheader (pg_body mp) d;
  let fl := Z.land (sp_flags sp) (Z.lnot P_LEGACY_DIRTY) in
  if negb ((fl =? Z.lor P_LEAF P_SUBP) || (fl =? Z.lor P_LEAF (Z.lor P_DUPFIX P_SUBP))) then Some (bad st)
  else if (sp_upper sp <? sp_lower sp) || negb (Z.land (sp_lower sp) 1 =? 0) || (dsize <? PAGEHDRSZ + sp_upper sp) then Some (bad st)
  else
    let nsubkeys := Z.shiftr (sp_lower sp) 1 in
    let st := bad_if ((nsubkeys =? 0) && negb (has (kc_checking mc) z_updating) && negb (kc_items mc =? 0)) st in
    check_sub_items (Z.to_nat nsubkeys) mc (pg_body mp) d dsize sp 0 None st.

(** After an item: on to the next one, or out of the function with an error. *)
Inductive flow : Type :=
| Next (st : chk)
| Stop (err : rc).

Definition leaf_flags_ok (fl : Z) : bool :=
(fl =? N_BIG) || (fl =? 0) || (fl =? N_TREE) || (fl =? Z.lor N_TREE N_DUP) || (fl =? N_DUP).

(** The part of a leaf node behind its key. [page_get_large] gives the error or
    the large page. *)
Definition check_leaf_data (page_get_large : Z -> Z -> option (rc + page)) (mc : kcursor) (mp : page) (node : Z) (st : chk)
  : option flow :=
let m := pg_body mp in
let end_of_page := page_space (kc_env mc) in
let v := ck_v st in
fl ← node_flags m node;
let st := bad_if (negb (leaf_flags_ok fl)) st in
dsize ← node_ds unaligned_ok m node;
data ← node_data unaligned_ok m node;
if has fl N_BIG then
  if end_of_page <? data + sizeof_pgno then Some (Next (bad st))
  else
    let st := bad_if ((dsize <=? clc_lmin v) || (clc_lmax v <? dsize)) st in
    if negb (has (kc_checking mc) z_retiring) then
      lpgno ← node_largedata_pgno unaligned_ok m node;
      lp ← page_get_large lpgno (pg_txnid mp);
      match lp with
      | inl err => Some (Stop err)
      | inr lp => Some (Next (bad_if (page_pages lp <? largechunk_npages (kc_env mc) dsize) st))
      end
    else Some (Next st)
else if end_of_page <? data + dsize then Some (Next (bad st))
else if fl =? 0 then Some (Next (bad_if ((dsize <? clc_lmin v) || (clc_lmax v <? dsize)) st))
else if (fl =? N_TREE) || (fl =? Z.lor N_TREE N_DUP) then Some (Next (bad_if (negb (dsize =? sizeof_tree)) st))
else if fl =? N_DUP then st ← check_subpage mc mp data dsize st; Some (Next st)
else Some (Next st).

Definition check_branch_ref (mc : kcursor) (mp : page) (i node ksize : Z) (st : chk) : option chk :=
let m := pg_body mp in
ref ← node_pgno unaligned_ok m node;
fl ← node_flags m node;
Some (bad_if ((negb (has (kc_checking mc) z_updating) && (i =? 0) && negb (ksize =? 0))
              || (ref <? MIN_PAGENO)
              || ((kc_first_unallocated mc <=? ref) && ((kc_now mc <=? ref) || negb (has (kc_checking mc) z_retiring)))
              || negb (fl =? 0)) st).

Definition check_node_item (page_get_large : Z -> Z -> option (rc + page)) (mc : kcursor) (mp : page) (i : Z) (st : chk)
  : option flow :=
let m := pg_body mp in
let end_of_page := page_space (kc_env mc) in
off ← entry_get m i;
if (off <? pg_upper mp) || (env_ps (kc_env mc) - PAGEHDRSZ <? off) || negb (Z.land off 1 =? 0) then Some (Next (bad st))
else
  node ← page_node mp i;
  if end_of_page <? node + NODESIZE then Some (Next (bad st))
  else
    ksize ← node_ks unaligned_ok m node;
    let st := bad_if (keysize_max (env_ps (kc_env mc)) 0 <? ksize) st in
    let key := node_key node in
    if end_of_page <? key + ksize then Some (Next (bad st))
    else
      st ← (if is_leaf mp || (0 <? i) then
              let k := ck_k st in
              '(disorder, prev) ← check_order mc (clc_cmp k) (ck_prev st) (mk_val m key ksize);
              Some (mk_chk (ck_bad st || ((ksize <? clc_lmin k) || (clc_lmax k <? ksize)) || disorder) prev k (ck_v st))
            else Some st);
      if is_branch mp then st ← check_branch_ref mc mp i node ksize st; Some (Next st)
      else check_leaf_data page_get_large mc mp node st.

Fixpoint check_items (page_get_large : Z -> Z -> option (rc + page)) (n : nat) (mc : kcursor) (mp : page) (i : Z) (st : chk)
  : option flow :=
match n with
| O => Some (Next st)
| S n =>
  r ← (if is_dupfix_leaf mp then st ← check_dupfix_item mc mp i st; Some (Next st) else check_node_item page_get_large mc mp i st);
  match r with
  | Next st => check_items page_get_large n mc mp (i + 1) st
  | Stop err => Some (Stop err)
  end
end.

Definition with_k (mc : kcursor) (k : clc) : kcursor :=
mk_kc (kc_env mc) (kc_writemap mc) (kc_inner mc) (kc_checking mc) (kc_tree_flags mc) (kc_dupfix_size mc) (kc_height mc)
      (kc_items mc) k (kc_v mc) (kc_txnid mc) (kc_front_txnid mc) (kc_first_unallocated mc) (kc_now mc).

(** The result and the cursor, whose length bounds a page of fixed-size items
    narrows. *)
Definition page_check (page_get_large : Z -> Z -> option (rc + page)) (mc : kcursor) (mp : page) (offset : Z)
  : option (rc * kcursor) :=
let result (b : bool) := if b then MDBX_SUCCESS else MDBX_CORRUPTED in
let ok := check_address mc mp offset in
match check_type mc mp with
| Verdict ok' => Some (result (ok && ok'), mc)
| Nodes ok' =>
  let ok := ok && ok' && check_layout mc mp in
  r ← check_items page_get_large (Z.to_nat (page_numkeys mp)) mc mp 0 (mk_chk (negb ok) None (kc_k mc) (value_clc mc));
  match r with
  | Next st => Some (result (negb (ck_bad st)), with_k mc (ck_k st))
  | Stop err => Some (err, mc)
  end
end.

(** ** Reading a page *)

(** The error, the page if there is one, whether the transaction is marked as
    failed ([MDBX_TXN_ERROR]), and the cursor. *)
Record pgr : Type := mk_pgr {
  pgr_err : rc;
  pgr_page : option page;
  pgr_failed : bool;
  pgr_mc : kcursor;
}.

Definition check_page_complete (page_get_large : Z -> Z -> option (rc + page)) (ILL : Z) (mc : kcursor) (mp : page)
  (offset front : Z) : option pgr :=
if check_page_header ILL mc mp front then
  '(err, mc') ← page_check page_get_large mc mp offset;
  Some (mk_pgr err (Some mp) (negb (bool_decide (err = MDBX_SUCCESS))) mc')
else Some (mk_pgr MDBX_CORRUPTED (Some mp) true mc).

(** [unchecked] is the call of [page_get_unchecked] ([PageGet.v]): the page and
    its distance from the start of the map, or the error (with the page, if
    there is one). *)
Definition finder : Type := Z -> option (rc * option (page * Z)).

Definition page_get_inline (page_get_large : Z -> Z -> option (rc + page)) (unchecked : finder)
  (ILL : Z) (mc : kcursor) (pgno front : Z) : option pgr :=
r ← unchecked pgno;
match r with
| (MDBX_SUCCESS, Some (mp, offset)) =>
  if negb (has (kc_checking mc) z_pagecheck) then
    if check_page_header ILL mc mp front then Some (mk_pgr MDBX_SUCCESS (Some mp) false mc)
    else Some (mk_pgr MDBX_CORRUPTED (Some mp) true mc)
  else check_page_complete page_get_large ILL mc mp offset front
| (err, r) => Some (mk_pgr err (fst <$> r) true mc)
end.

Definition ILL_large : Z := Z.lor P_ILL_BITS (Z.lor P_BRANCH (Z.lor P_LEAF P_DUPFIX)).
Definition ILL_three : Z := Z.lor P_ILL_BITS P_LARGE.

(** A large page has no nodes, so that its check never asks for another one. *)
Definition page_get_large (unchecked : finder) (mc : kcursor) (pgno front : Z) : option pgr :=
page_get_inline (fun _ _ => None) unchecked ILL_large mc pgno front.

Definition large_of (unchecked : finder) (mc : kcursor) (pgno front : Z) : option (rc + page) :=
r ← page_get_large unchecked mc pgno front;
match pgr_err r, pgr_page r with
| MDBX_SUCCESS, Some mp => Some (inr mp)
| err, _ => Some (inl err)
end.

Definition page_get_any (unchecked : finder) (mc : kcursor) (pgno front : Z) : option pgr :=
page_get_inline (large_of unchecked mc) unchecked P_ILL_BITS mc pgno front.
Definition page_get_three (unchecked : finder) (mc : kcursor) (pgno front : Z) : option pgr :=
page_get_inline (large_of unchecked mc) unchecked ILL_three mc pgno front.
End Check.
