(* ===== verification/PageCheckProofs.v ===== *)
(** * What a page that passed [page_check] promises

    The nodes and their parts lie inside the page, sub-pages and their items
    inside their nodes, branch nodes refer to pages of the database, and the
    keys are in strictly ascending order under the comparator of the table. *)

From stdpp Require Import base numbers option list.
From Stdlib Require Import ZArith Lia.
From S2P Require Import Prelude Bits Alloc Pnl Bytes Cmp Page Node NodeProofs TreeSearch Cogs PageCheck.

(** Takes apart the hypotheses that say that a monadic term returns. *)
Ltac inv_some :=
  repeat match goal with
  | H : (_ ≫= _) = Some _ |- _ => let x := fresh "x" in let E := fresh "E" in apply bind_Some in H as (x & E & H); cbv beta in H
  | H : (let '(_, _) := ?p in _) = Some _ |- _ => destruct p
  | H : Some _ = Some _ |- _ => progress simplify_eq
  | H : (if ?b then _ else _) = Some _ |- _ => let C := fresh "C" in destruct b eqn:C
  | H : None = Some _ |- _ => discriminate H
  end.

(** Splits false disjunctions and comparisons. *)
Ltac inv_bool :=
  repeat match goal with
  | H : _ || _ = false |- _ => apply orb_false_elim in H as [? H]
  | H : _ && _ = true |- _ => apply andb_prop in H as [? H]
  | H : negb _ = false |- _ => apply negb_false_iff in H
  | H : negb _ = true |- _ => apply negb_true_iff in H
  | H : (_ <? _) = false |- _ => apply Z.ltb_ge in H
  | H : (_ <=? _) = false |- _ => apply Z.leb_gt in H
  | H : (_ =? _) = true |- _ => apply Z.eqb_eq in H
  end.

Section Sound.
Context (unaligned_ok : Z).

Lemma ck_bad_if c st : ck_bad (bad_if c st) = c || ck_bad st.
Proof. by destruct c. Qed.
Lemma ck_prev_if c st : ck_prev (bad_if c st) = ck_prev st.
Proof. by destruct c. Qed.
Lemma ck_k_if c st : ck_k (bad_if c st) = ck_k st.
Proof. by destruct c. Qed.
Lemma ck_v_if c st : ck_v (bad_if c st) = ck_v st.
Proof. by destruct c. Qed.

(** The length bounds of the values only get narrower while a page is checked. *)
Definition narrower (v v0 : clc) : Prop := clc_lmin v0 <= clc_lmin v /\ clc_lmax v <= clc_lmax v0.

#[local] Instance narrower_preorder : PreOrder narrower.
Proof. split; unfold narrower; red; lia. Qed.

Lemma narrow_narrower c ksize : narrower (narrow c ksize).2 c.
Proof. unfold narrow, narrower. repeat case_match; cbn; inv_bool; lia. Qed.

(** ** Sub-pages *)

(** The item [ii] of the sub-page at [d] with [dsize] bytes is inside it. *)
Definition sub_item_inside (m : bytes) (d dsize : Z) (sp : subheader) (ii : Z) : Prop :=
if has (sp_flags sp) P_DUPFIX then PAGEHDRSZ + sp_ksize sp * u16 ii + sp_ksize sp <= dsize
else exists off ks, load 2 m (d + PAGEHDRSZ + 2 * ii) = Some off /\ sp_upper sp <= off /\
  node_ks unaligned_ok m (d + PAGEHDRSZ + off) = Some ks /\ PAGEHDRSZ + off + NODESIZE + ks <= dsize /\
  node_flags m (d + PAGEHDRSZ + off) = Some 0 /\ node_ds unaligned_ok m (d + PAGEHDRSZ + off) = Some 0.

Record subpage_inside (m : bytes) (d dsize : Z) : Prop := mk_subpage_inside {
  sub_size : PAGEHDRSZ < dsize;
  sub_items : exists sp, read_subheader m d = Some sp /\ sp_lower sp <= sp_upper sp /\ PAGEHDRSZ + sp_upper sp <= dsize /\
    forall ii, 0 <= ii < Z.shiftr (sp_lower sp) 1 -> sub_item_inside m d dsize sp ii;
}.

Lemma check_sub_item_sound mc m d dsize sp ii sprev st sprev' st' :
  check_sub_item unaligned_ok mc m d dsize sp ii sprev st = Some (sprev', st') -> ck_bad st' = false ->
  ck_bad st = false /\ ck_prev st' = ck_prev st /\ ck_k st' = ck_k st /\ narrower (ck_v st') (ck_v st) /\ sub_item_inside m d dsize sp ii.
Proof.
  unfold check_sub_item, sub_item_inside. intros H Hb. destruct (has (sp_flags sp) P_DUPFIX).
  - destruct (_ <? _) eqn:C in H; [by inv_some|]. pose proof (narrow_narrower (ck_v st) (sp_ksize sp)) as Hn. destruct (narrow _ _) as [wrong v]. inv_some. cbn in *.
    inv_bool. split_and!; [done..|]. lia.
  - inv_some; simplify_eq; cbn in Hb; try done.
    rewrite ck_bad_if in Hb. rewrite ck_prev_if, ck_k_if, ck_v_if. inv_bool. subst. unfold node_key in *.
    split_and!; [done..|]. eexists _, _. split_and!; try done; lia.
Qed.

Lemma check_sub_items_sound n mc m d dsize sp ii sprev st st' :
  check_sub_items unaligned_ok n mc m d dsize sp ii sprev st = Some st' -> ck_bad st' = false ->
  ck_bad st = false /\ ck_prev st' = ck_prev st /\ ck_k st' = ck_k st /\ narrower (ck_v st') (ck_v st) /\
  forall jj, ii <= jj < ii + Z.of_nat n -> sub_item_inside m d dsize sp jj.
Proof.
  revert ii sprev st. induction n as [|n IH]; intros ii sprev st H Hb; cbn in H.
  - simplify_eq. split_and!; [done..|lia].
  - inv_some. destruct (IH _ _ _ H Hb) as (H1 & H2 & H3 & H4 & H5).
    destruct (check_sub_item_sound _ _ _ _ _ _ _ _ _ _ E H1) as (G1 & G2 & G3 & G4 & G5).
    split_and!; [done|congruence|congruence|by etrans|]. intros jj Hj. destruct (decide (jj = ii)) as [->|]; [done|]. apply H5. lia.
Qed.

Lemma check_subpage_sound mc mp d dsize st st' :
  check_subpage unaligned_ok mc mp d dsize st = Some st' -> ck_bad st' = false ->
  ck_bad st = false /\ ck_prev st' = ck_prev st /\ ck_k st' = ck_k st /\ narrower (ck_v st') (ck_v st) /\
  subpage_inside (pg_body mp) d dsize.
Proof.
  unfold check_subpage. intros H Hb. inv_some; try done.
  destruct (check_sub_items_sound _ _ _ _ _ _ _ _ _ _ H Hb) as (H1 & H2 & H3 & H4 & H5).
  rewrite ck_bad_if in H1. rewrite ck_prev_if in H2. rewrite ck_k_if in H3. rewrite ck_v_if in H4. inv_bool.
  split_and!; [done..|]. split; [lia|]. exists x. split_and!; [done|lia|lia|].
  intros ii Hi. apply H5. lia.
Qed.

(** ** Nodes *)

Definition leaf_data_inside (mc : kcursor) (mp : page) (node ks : Z) : Prop :=
exists fl ds, node_flags (pg_body mp) node = Some fl /\ node_ds unaligned_ok (pg_body mp) node = Some ds /\
  leaf_flags_ok fl = true /\
  (if has fl N_BIG then node + NODESIZE + ks + sizeof_pgno <= page_space (kc_env mc)
   else node + NODESIZE + ks + ds <= page_space (kc_env mc)) /\
  (fl = 0 -> clc_lmin (value_clc unaligned_ok mc) <= ds <= clc_lmax (value_clc unaligned_ok mc)) /\
  (has fl N_TREE = true -> ds = sizeof_tree) /\
  (fl = N_DUP -> subpage_inside (pg_body mp) (node + NODESIZE + ks) ds).

Definition branch_ref_ok (mc : kcursor) (mp : page) (node : Z) : Prop :=
exists ref, node_pgno unaligned_ok (pg_body mp) node = Some ref /\ MIN_PAGENO <= ref /\
  (ref < kc_first_unallocated mc \/ has (kc_checking mc) z_retiring = true /\ ref < kc_now mc) /\
  node_flags (pg_body mp) node = Some 0.

(** The node [i] and all its parts are where they belong. *)
Definition node_inside (mc : kcursor) (mp : page) (i : Z) : Prop :=
exists node ks, page_node mp i = Some node /\ pg_upper mp <= node /\ Z.even node = true /\
  node_ks unaligned_ok (pg_body mp) node = Some ks /\ ks <= keysize_max (env_ps (kc_env mc)) 0 /\
  node + NODESIZE + ks <= page_space (kc_env mc) /\
  (if is_branch mp then branch_ref_ok mc mp node else leaf_data_inside mc mp node ks).

Lemma leaf_flags_cases fl : leaf_flags_ok fl = true ->
  fl = 1 /\ has fl N_BIG = true \/ has fl N_BIG = false /\ (fl = 0 \/ fl = 2 \/ fl = 6 \/ fl = 4).
Proof.
  unfold leaf_flags_ok. intros H. repeat (apply orb_prop in H as [H|H]); apply Z.eqb_eq in H; subst; cbn; auto 6.
Qed.

Ltac ck_simpl := repeat rewrite ?ck_bad_if, ?ck_prev_if, ?ck_k_if, ?ck_v_if in *.

Lemma check_leaf_data_sound gl mc mp node ks st st' :
  check_leaf_data unaligned_ok gl mc mp node st = Some (Next st') -> ck_bad st' = false ->
  node_ks unaligned_ok (pg_body mp) node = Some ks ->
  ck_bad st = false /\ ck_prev st' = ck_prev st /\ ck_k st' = ck_k st /\ narrower (ck_v st') (ck_v st) /\
  (narrower (ck_v st) (value_clc unaligned_ok mc) -> leaf_data_inside mc mp node ks).
Proof.
  unfold check_leaf_data, leaf_data_inside. intros H Hb Hks. inv_some.
  all: unfold node_data in E1; rewrite Hks in E1; cbn in E1; simplify_eq.
  5: match goal with H : check_subpage _ _ _ _ _ _ = Some _ |- _ => destruct (check_subpage_sound _ _ _ _ _ _ H Hb) as (G1 & G2 & G3 & G4 & G5) end.
  1: destruct x3; [done|]. all: simplify_eq; ck_simpl; inv_bool.
  all: match goal with Hf : leaf_flags_ok ?x = true |- _ => pose proof (leaf_flags_cases x Hf) as Hc end.
  all: unfold node_key, N_TREE, N_DUP, N_BIG in *; cbn in *.
  all: split_and!; try done; intros [Hv1 Hv2]; exists x, x0.
  all: split_and!; try done; try (destruct Hc as [[-> ?]|[? [->|[->|[->| ->]]]]]; try congruence; lia).
  all: intros Hx; destruct Hc as [[-> ?]|[? [->|[->|[->| ->]]]]]; first [done|congruence].
Qed.

Lemma check_branch_ref_sound mc mp i node ks st st' :
  check_branch_ref unaligned_ok mc mp i node ks st = Some st' -> ck_bad st' = false ->
  ck_bad st = false /\ ck_prev st' = ck_prev st /\ ck_k st' = ck_k st /\ ck_v st' = ck_v st /\
  branch_ref_ok mc mp node.
Proof.
  unfold check_branch_ref, branch_ref_ok. intros H Hb. inv_some. ck_simpl. inv_bool. subst.
  split_and!; [done..|]. exists x. split_and!; [done|done| |done].
  apply andb_false_iff in H0 as [H0%Z.leb_gt|[H0%Z.leb_gt Hr%negb_false_iff]%orb_false_elim]; auto.
Qed.

(** The key of the item takes part in the comparison. *)
Definition compared (mp : page) (i : Z) : bool := is_dupfix_leaf mp || is_leaf mp || (0 <? i).

(** What one turn of the loop establishes. *)
Definition item_step (mc : kcursor) (mp : page) (i : Z) (st st' : chk) : Prop :=
ck_bad st = false /\ clc_cmp (ck_k st') = clc_cmp (ck_k st) /\
(compared mp i = true -> has (kc_checking mc) z_ignord = false ->
 exists a, key_at unaligned_ok mp i = Some a /\ ck_prev st' = Some a /\
   forall p, ck_prev st = Some p -> exists c, clc_cmp (ck_k st) p a = Some c /\ c < 0).

Lemma check_order_sound mc cmp prev here d prev' :
  check_order mc cmp prev here = Some (d, prev') -> d = false -> has (kc_checking mc) z_ignord = false ->
  prev' = Some here /\ forall p, prev = Some p -> exists c, cmp p here = Some c /\ c < 0.
Proof.
  unfold check_order. intros H -> Hi. rewrite Hi in H. destruct prev as [p|]; inv_some; simplify_eq; (split; [done|]); [|done].
  intros q [= <-]. exists x. split; [done|]. inv_bool. done.
Qed.

Lemma check_dupfix_item_sound mc mp i st st' : is_dupfix_leaf mp = true ->
  check_dupfix_item mc mp i st = Some st' -> ck_bad st' = false ->
  item_step mc mp i st st' /\ page_dupfix_ptr mp i (kc_dupfix_size mc) + pg_dupfix_ksize mp <= page_space (kc_env mc).
Proof.
  unfold check_dupfix_item, item_step. intros Hd H Hb. destruct (_ <? _) eqn:C in H; [by simplify_eq|].
  destruct (narrow _ _) as [wrong k] eqn:En. inv_some. cbn in *. inv_bool. split; [|done].
  assert (clc_cmp k = clc_cmp (ck_k st)) as Ek by (unfold narrow in En; repeat case_match; simplify_eq/=; done).
  split_and!; [done..|]. intros _ Hi. rewrite Ek in *.
  destruct (check_order_sound _ _ _ _ _ _ E Hb Hi) as [-> Ho]. eexists. split_and!; [|done|done].
  unfold key_at, dupfix_key_at. by rewrite Hd.
Qed.

(** The comparison inside [check_node_item]. *)
Lemma check_key_sound mc mp i node ksize st st' :
  is_dupfix_leaf mp = false -> page_node mp i = Some node -> node_ks unaligned_ok (pg_body mp) node = Some ksize ->
  (if is_leaf mp || (0 <? i) then
     '(disorder, prev) ← check_order mc (clc_cmp (ck_k st)) (ck_prev st) (mk_val (pg_body mp) (node_key node) ksize);
     Some (mk_chk (ck_bad st || ((ksize <? clc_lmin (ck_k st)) || (clc_lmax (ck_k st) <? ksize)) || disorder) prev (ck_k st) (ck_v st))
   else Some st) = Some st' -> ck_bad st' = false ->
  item_step mc mp i st st' /\ ck_v st' = ck_v st.
Proof.
  intros Hd Hn Hk H Hb. unfold item_step, compared. rewrite Hd. cbn [orb]. destruct (is_leaf mp || (0 <? i)); [|by inv_some].
  inv_some. cbn in *. inv_bool. split_and!; [done..| |done]. intros _ Hi.
  destruct (check_order_sound _ _ _ _ _ _ E Hb Hi) as [-> Ho]. eexists. split_and!; [|done|done].
  unfold key_at, node_key_at, get_key. by rewrite Hd, Hn; cbn; rewrite Hk.
Qed.

Lemma item_step_bad_if mc mp i c st st' : item_step mc mp i (bad_if c st) st' -> c = false /\ item_step mc mp i st st'.
Proof.
  intros (H1 & H2 & H3). rewrite ck_bad_if in H1. inv_bool. subst c. done.
Qed.

Lemma item_step_after mc mp i st st1 st' : item_step mc mp i st st1 -> ck_prev st' = ck_prev st1 -> ck_k st' = ck_k st1 ->
  item_step mc mp i st st'.
Proof. intros (H1 & H2 & H3) Hp Hk. unfold item_step. by rewrite Hp, Hk. Qed.

Lemma check_node_item_sound gl mc mp i st st' : is_dupfix_leaf mp = false ->
  check_node_item unaligned_ok gl mc mp i st = Some (Next st') -> ck_bad st' = false ->
  item_step mc mp i st st' /\ narrower (ck_v st') (ck_v st) /\
  (narrower (ck_v st) (value_clc unaligned_ok mc) -> node_inside mc mp i).
Proof.
  unfold check_node_item, node_inside. intros Hd H Hb.
  apply bind_Some in H as (off & Eoff & H). destruct (_ || _) eqn:Hoff in H; [by simplify_eq|].
  apply bind_Some in H as (node & En & H). assert (node = off) as -> by (unfold page_node in En; congruence).
  destruct (_ <? _) eqn:Hn in H; [by simplify_eq|].
  apply bind_Some in H as (ks & Ek & H). destruct (_ <? _) eqn:Hke in H; [by simplify_eq|].
  apply bind_Some in H as (st1 & E1 & H). inv_bool.
  assert (Z.even off = true) as Hev by (rewrite land_1_mod in Hoff; by rewrite Zeven_mod, Hoff).
  assert (ck_bad st1 = false /\ ck_prev st' = ck_prev st1 /\ ck_k st' = ck_k st1 /\ narrower (ck_v st') (ck_v st1) /\
    (narrower (ck_v st1) (value_clc unaligned_ok mc) ->
     if is_branch mp then branch_ref_ok mc mp off else leaf_data_inside mc mp off ks)) as (B1 & B2 & B3 & B4 & B5).
  { destruct (is_branch mp).
    - apply bind_Some in H as (st2 & E2 & [= ->]).
      destruct (check_branch_ref_sound _ _ _ _ _ _ _ E2 Hb) as (? & ? & ? & Ev & ?). rewrite Ev. done.
    - by apply (check_leaf_data_sound gl). }
  destruct (check_key_sound mc mp i off ks _ st1 Hd En Ek E1 B1) as [Hs Hv].
  apply item_step_bad_if in Hs as [Hkm Hs]. rewrite ck_v_if in Hv. rewrite Hv in *. inv_bool.
  split; [by eapply item_step_after|]. split; [done|]. intros Hnv.
  exists off, ks. unfold node_key, page_space in *. split_and!; try done; [lia..|]. by apply B5.
Qed.

Definition lowest (mp : page) : Z := if is_dupfix_leaf mp || is_leaf mp then 0 else 1.

Definition item_inside (mc : kcursor) (mp : page) (i : Z) : Prop :=
if is_dupfix_leaf mp then page_dupfix_ptr mp i (kc_dupfix_size mc) + pg_dupfix_ksize mp <= page_space (kc_env mc)
else node_inside mc mp i.

Lemma check_item_sound gl mc mp i st st' :
  (if is_dupfix_leaf mp then st ← check_dupfix_item mc mp i st; Some (Next st) else check_node_item unaligned_ok gl mc mp i st)
    = Some (Next st') -> ck_bad st' = false ->
  item_step mc mp i st st' /\ narrower (ck_v st') (ck_v st) /\
  (narrower (ck_v st) (value_clc unaligned_ok mc) -> item_inside mc mp i).
Proof.
  intros H Hb. unfold item_inside. destruct (is_dupfix_leaf mp) eqn:Hd; [|by apply (check_node_item_sound gl)].
  apply bind_Some in H as (st2 & E2 & [= ->]). destruct (check_dupfix_item_sound _ _ _ _ _ Hd E2 Hb) as [H1 H2].
  split_and!; [done| |done]. unfold check_dupfix_item in E2. destruct (_ <? _) in E2; [by simplify_eq|].
  destruct (narrow _ _). by inv_some.
Qed.

Lemma check_items_good gl n mc mp i st st' :
  check_items unaligned_ok gl n mc mp i st = Some (Next st') -> ck_bad st' = false -> ck_bad st = false.
Proof.
  revert i st. induction n as [|n IH]; intros i st H Hb; cbn [check_items] in H; [by simplify_eq|].
  apply bind_Some in H as ([st1|] & Er & H); [|done].
  destruct (check_item_sound _ _ _ _ _ _ Er (IH _ _ H Hb)) as [(H1 & _) _]. done.
Qed.

Lemma check_items_inside gl n mc mp i st st' :
  check_items unaligned_ok gl n mc mp i st = Some (Next st') -> ck_bad st' = false ->
  narrower (ck_v st) (value_clc unaligned_ok mc) -> forall j, i <= j < i + Z.of_nat n -> item_inside mc mp j.
Proof.
  revert i st. induction n as [|n IH]; intros i st H Hb Hv j Hj; [lia|]. cbn [check_items] in H.
  apply bind_Some in H as ([st1|] & Er & H); [|done].
  destruct (check_item_sound _ _ _ _ _ _ Er (check_items_good _ _ _ _ _ _ _ H Hb)) as (_ & Hn & Hin).
  destruct (decide (j = i)) as [->|]; [by apply Hin|].
  apply (IH (i + 1) st1); [done|done|by etrans|lia].
Qed.

Lemma check_items_order gl n mc mp i st st' :
  check_items unaligned_ok gl n mc mp i st = Some (Next st') -> ck_bad st' = false ->
  has (kc_checking mc) z_ignord = false -> lowest mp <= i -> 0 <= i ->
  clc_cmp (ck_k st) = clc_cmp (kc_k mc) ->
  (forall j, i <= j < i + Z.of_nat n -> exists a, key_at unaligned_ok mp j = Some a /\
     forall p, (if j =? i then ck_prev st else key_at unaligned_ok mp (j - 1)) = Some p ->
     exists c, clc_cmp (kc_k mc) p a = Some c /\ c < 0).
Proof.
  intros H Hb Hi. revert i st H. induction n as [|n IH]; intros i st H Hlo H0 Hc j Hj; [lia|]. cbn [check_items] in H.
  apply bind_Some in H as ([st1|] & Er & H); [|done].
  destruct (check_item_sound _ _ _ _ _ _ Er (check_items_good _ _ _ _ _ _ _ H Hb)) as ((_ & Hk & Hcmp) & _ & _).
  destruct Hcmp as (a & Ea & Ep & Ho); [|done|].
  { unfold compared, lowest in *. destruct (is_dupfix_leaf mp || is_leaf mp); [done|]. apply Z.ltb_lt. lia. }
  destruct (Z.eqb_spec j i) as [->|Hne].
  - exists a. split; [done|]. rewrite <- Hc. done.
  - destruct (IH (i + 1) st1 H ltac:(lia) ltac:(lia) ltac:(congruence) j ltac:(lia)) as (b & Eb & Hb').
    exists b. split; [done|]. intros p Hp. apply Hb'. destruct (Z.eqb_spec j (i + 1)) as [->|]; [|done].
    rewrite Ep, <- Ea, <- Hp. f_equal. lia.
Qed.
(** ** The check stays inside the page *)

Definition cmp_total (cmp : comparator) : Prop := forall a b, val_ok a -> val_ok b -> exists c, cmp a b = Some c.

Record page_memory (mc : kcursor) (mp : page) : Prop := mk_page_memory {
  mem_bytes : Forall is_byte (pg_body mp);
  mem_size : zlen (pg_body mp) = page_space (kc_env mc);
  mem_lower : 0 <= pg_lower mp <= pg_upper mp;
  mem_upper : pg_upper mp <= page_space (kc_env mc);
  mem_ksize : 0 <= pg_dupfix_ksize mp < 65536;
}.

(** No node holds a sub-page. *)
Definition no_subpages (mp : page) : Prop :=
forall i node, page_node mp i = Some node -> node_flags (pg_body mp) node <> Some N_DUP.

Definition prev_ok (st : chk) : Prop := forall p, ck_prev st = Some p -> val_ok p.

Lemma load_total n m p : Forall is_byte m -> 0 <= n -> 0 <= p -> p + n <= zlen m -> exists v, load n m p = Some v /\ 0 <= v < 256 ^ n.
Proof.
  intros Hm Hn Hp Hl. unfold load. rewrite (proj2 (Z.leb_le 0 p)), (proj2 (Z.leb_le _ _)) by lia. cbn [andb].
  eexists. split; [done|]. pose proof (le_decode_bound (zslice m p n) (zslice_bytes m p n Hm)) as H.
  by rewrite zlen_zslice in H by lia.
Qed.

Lemma check_order_total mc cmp prev here : cmp_total cmp -> (forall p, prev = Some p -> val_ok p) -> val_ok here ->
  exists d prev', check_order mc cmp prev here = Some (d, prev') /\ (forall p, prev' = Some p -> val_ok p).
Proof.
  intros Hc Hp Hh. unfold check_order. destruct (has _ _); [by eauto|]. destruct prev as [p|].
  - destruct (Hc p here (Hp p eq_refl) Hh) as [c ->]. cbn. eexists _, _. split; [done|]. by intros q [= <-].
  - eexists _, _. split; [done|]. by intros q [= <-].
Qed.

Lemma check_dupfix_item_total mc mp i st : page_memory mc mp -> 0 <= i -> cmp_total (clc_cmp (ck_k st)) -> prev_ok st ->
  exists st', check_dupfix_item mc mp i st = Some st' /\ clc_cmp (ck_k st') = clc_cmp (ck_k st) /\ prev_ok st'.
Proof.
  intros [Hb Hs Hl Hu Hk] Hi Hc Hp. unfold check_dupfix_item, page_dupfix_ptr.
  destruct (Z.ltb_spec (page_space (kc_env mc)) (pg_dupfix_ksize mp * u16 i + pg_dupfix_ksize mp)); [by eexists|].
  assert (0 <= u16 i) by (apply wrap_range; lia).
  destruct (narrow (ck_k st) (pg_dupfix_ksize mp)) as [wrong k] eqn:En.
  assert (clc_cmp k = clc_cmp (ck_k st)) as Ek by (unfold narrow in En; repeat case_match; simplify_eq/=; done).
  destruct (check_order_total mc (clc_cmp k) (ck_prev st) (mk_val (pg_body mp) (pg_dupfix_ksize mp * u16 i) (pg_dupfix_ksize mp)))
    as (d & prev & -> & Hprev); [by rewrite Ek|done|constructor; cbn; [done|nia|lia|lia]|].
  cbn. eexists. split; [done|]. by split.
Qed.

Lemma node_reads m o : Forall is_byte m -> 0 <= o -> o + NODESIZE <= zlen m ->
  (exists ks, node_ks unaligned_ok m o = Some ks /\ 0 <= ks < 65536) /\ (exists fl, node_flags m o = Some fl) /\
  (exists ds, node_ds unaligned_ok m o = Some ds /\ node_pgno unaligned_ok m o = Some ds).
Proof.
  intros Hm H0 Hl. unfold NODESIZE in Hl. unfold node_ks, node_flags, node_ds, node_pgno, peek_u8.
  rewrite peek_u16_load, peek_u32_load by done. split_and!.
  - apply (load_total 2); [done|lia|lia|lia].
  - apply zget_in. lia.
  - destruct (load_total 4 m o) as (v & E & _); [done|lia|lia|lia|]. eauto.
Qed.

Ltac next_ok := eexists; split; [done|]; cbv beta iota; unfold bad; cbn [ck_prev ck_k]; ck_simpl; done.

Lemma check_leaf_data_total gl mc mp node ks st : page_memory mc mp -> 0 <= node -> 0 <= ks ->
  node + NODESIZE + ks <= page_space (kc_env mc) -> node_ks unaligned_ok (pg_body mp) node = Some ks ->
  node_flags (pg_body mp) node <> Some N_DUP -> (forall pgno front, is_Some (gl pgno front)) ->
  exists f, check_leaf_data unaligned_ok gl mc mp node st = Some f /\
    match f with Next st' => ck_prev st' = ck_prev st /\ ck_k st' = ck_k st | Stop _ => True end.
Proof.
  intros [Hb Hs Hl Hu Hk] H0 Hks0 Hin Hks Hdup Hgl. unfold check_leaf_data.
  destruct (node_reads (pg_body mp) node) as (_ & [fl Efl] & [ds [Eds _]]); [done|done|lia|]. rewrite Efl, Eds. cbn [mbind option_bind].
  unfold node_data. rewrite Hks. cbn [mbind option_bind]. unfold node_key.
  case_if as C1.
  - destruct (Z.ltb_spec (page_space (kc_env mc)) (node + NODESIZE + ks + sizeof_pgno)); [next_ok|].
    case_if as C2; [|next_ok].
    unfold node_largedata_pgno, node_data, peek_pgno. rewrite Hks. cbn [mbind option_bind]. rewrite peek_u32_load by done.
    unfold node_key, sizeof_pgno, NODESIZE in *. destruct (load_total 4 (pg_body mp) (node + 8 + ks)) as (lp & -> & _); [done|lia|lia|lia|].
    cbn [mbind option_bind]. destruct (Hgl lp (pg_txnid mp)) as [[err|p] ->]; cbn; [by eexists|next_ok].
  - case_if as C2; [next_ok|]. case_if as C3; [next_ok|].
    case_if as C4; [next_ok|]. case_if as C5; [|next_ok].
    apply Z.eqb_eq in C5. congruence.
Qed.
Lemma check_node_item_total gl mc mp i st : page_memory mc mp -> no_subpages mp -> (forall pgno front, is_Some (gl pgno front)) ->
  0 <= i < page_numkeys mp -> cmp_total (clc_cmp (ck_k st)) -> prev_ok st ->
  exists f, check_node_item unaligned_ok gl mc mp i st = Some f /\
    match f with Next st' => clc_cmp (ck_k st') = clc_cmp (ck_k st) /\ prev_ok st' | Stop _ => True end.
Proof.
  intros Hmem Hsub Hgl Hi Hc Hp. pose proof Hmem as [Hb Hs Hl Hu Hk].
  assert (2 * i + 2 <= zlen (pg_body mp)) as Hent.
  { unfold page_numkeys in Hi. rewrite Z.shiftr_div_pow2 in Hi by lia. change (2 ^ 1) with 2 in Hi. Z.div_mod_to_equations. lia. }
  unfold check_node_item, entry_get. destruct (load_total 2 (pg_body mp) (2 * i)) as (off & Eoff & Hoff); [done|lia|lia|lia|].
  rewrite Eoff. cbn [mbind option_bind]. case_if as C1; [by eexists|]. inv_bool.
  assert (page_node mp i = Some off) as Epn by done. rewrite Epn. cbn [mbind option_bind].
  case_if as C2; [by eexists|]. inv_bool.
  destruct (node_reads (pg_body mp) off) as ([ks [Ek Hks]] & [fl Efl] & [ds [_ Epg]]); [done|lia|lia|].
  rewrite Ek. cbn [mbind option_bind]. case_if as C3; [eexists; split; [done|]; cbn; unfold prev_ok; cbn; by ck_simpl|]. inv_bool.
  set (st1 := bad_if _ st). unfold node_key in *.
  assert (exists st2, (if is_leaf mp || (0 <? i) then
     '(disorder, prev) ← check_order mc (clc_cmp (ck_k st1)) (ck_prev st1) (mk_val (pg_body mp) (off + NODESIZE) ks);
     Some (mk_chk (ck_bad st1 || ((ks <? clc_lmin (ck_k st1)) || (clc_lmax (ck_k st1) <? ks)) || disorder) prev (ck_k st1) (ck_v st1))
   else Some st1) = Some st2 /\ ck_k st2 = ck_k st /\ prev_ok st2) as (st2 & -> & Hk2 & Hp2).
  { unfold st1. case_if as C4; [|eexists; split; [done|]; unfold prev_ok; by ck_simpl].
    destruct (check_order_total mc (clc_cmp (ck_k st)) (ck_prev st) (mk_val (pg_body mp) (off + NODESIZE) ks)) as (d & pv & E & Hpv);
      [done|done|constructor; cbn; [done|unfold NODESIZE; lia|lia|lia]|].
    rewrite ck_prev_if, ck_k_if, E. cbn. eexists. split; [done|]. done. }
  cbn [mbind option_bind]. case_if as C5.
  - unfold check_branch_ref. rewrite Epg, Efl. cbn. eexists. split; [done|]. unfold prev_ok. ck_simpl. by rewrite Hk2.
  - destruct (check_leaf_data_total gl mc mp off ks st2 Hmem) as (f & -> & Hf);
      [lia|lia|done|done|by eapply Hsub|done|]. exists f. split; [done|]. destruct f; [|done]. destruct Hf as [Hf1 Hf2].
    unfold prev_ok. by rewrite Hf1, Hf2, Hk2.
Qed.

Lemma check_items_total gl n mc mp i st : page_memory mc mp -> no_subpages mp -> (forall pgno front, is_Some (gl pgno front)) ->
  0 <= i -> i + Z.of_nat n <= page_numkeys mp -> cmp_total (clc_cmp (ck_k st)) -> prev_ok st ->
  is_Some (check_items unaligned_ok gl n mc mp i st).
Proof.
  intros Hmem Hsub Hgl. revert i st. induction n as [|n IH]; intros i st Hi Hn Hc Hp; [by eexists|]. cbn [check_items].
  destruct (is_dupfix_leaf mp).
  - destruct (check_dupfix_item_total mc mp i st Hmem Hi Hc Hp) as (st' & -> & Hk & Hp'). cbn [mbind option_bind].
    apply IH; [lia|lia|by rewrite Hk|done].
  - destruct (check_node_item_total gl mc mp i st Hmem Hsub Hgl ltac:(lia) Hc Hp) as (f & -> & Hf). cbn [mbind option_bind].
    destruct f as [st'|]; [|by eexists]. destruct Hf as [Hk Hp']. apply IH; [lia|lia|by rewrite Hk|done].
Qed.

Lemma page_check_returns gl mc mp offset : page_memory mc mp -> no_subpages mp -> (forall pgno front, is_Some (gl pgno front)) ->
  cmp_total (clc_cmp (kc_k mc)) -> is_Some (page_check unaligned_ok gl mc mp offset).
Proof.
  intros Hmem Hsub Hgl Hc. unfold page_check. destruct (check_type mc mp); [by eexists|].
  assert (0 <= page_numkeys mp) by (unfold page_numkeys; apply Z.shiftr_nonneg; destruct Hmem; lia).
  destruct (check_items_total gl (Z.to_nat (page_numkeys mp)) mc mp 0
    (mk_chk (negb (check_address mc mp offset && ok && check_layout mc mp)) None (kc_k mc) (value_clc unaligned_ok mc)))
    as [r ->]; [done|done|done|lia|lia|done|by intros ?|]. cbn [mbind option_bind]. by destruct r.
Qed.
(** ** Pages that passed *)

Record page_checked (mc : kcursor) (mp : page) : Prop := mk_page_checked {
  pc_pgno : MIN_PAGENO <= pg_pgno mp <= MAX_PAGENO;
  pc_bounds : pg_lower mp <= pg_upper mp /\ PAGEHDRSZ + pg_upper mp <= env_ps (kc_env mc);
  pc_items : forall i, 0 <= i < page_numkeys mp -> item_inside mc mp i;
  pc_order : has (kc_checking mc) z_ignord = false -> forall i, lowest mp < i < page_numkeys mp ->
    exists a b c, key_at unaligned_ok mp (i - 1) = Some a /\ key_at unaligned_ok mp i = Some b /\
      clc_cmp (kc_k mc) a b = Some c /\ c < 0;
}.

Lemma ordered_from gl mc mp st st' n : check_items unaligned_ok gl n mc mp 0 st = Some (Next st') -> ck_bad st' = false ->
  has (kc_checking mc) z_ignord = false -> clc_cmp (ck_k st) = clc_cmp (kc_k mc) ->
  forall i, lowest mp < i < Z.of_nat n ->
    exists a b c, key_at unaligned_ok mp (i - 1) = Some a /\ key_at unaligned_ok mp i = Some b /\
      clc_cmp (kc_k mc) a b = Some c /\ c < 0.
Proof.
  intros H Hb Hi Hc i Hr.
  assert (exists lo st1, lo = lowest mp /\ 0 <= lo <= Z.of_nat n /\ clc_cmp (ck_k st1) = clc_cmp (kc_k mc) /\
    check_items unaligned_ok gl (Z.to_nat (Z.of_nat n - lo)) mc mp lo st1 = Some (Next st')) as (lo & st1 & Hlo & Hlo' & Hc1 & H1).
  { unfold lowest in *. destruct (is_dupfix_leaf mp || is_leaf mp) eqn:E.
    - exists 0, st. rewrite Z.sub_0_r, Nat2Z.id. split_and!; [done|lia|lia|done|done].
    - destruct n as [|n]; [lia|]. cbn [check_items] in H. apply bind_Some in H as ([st1|] & Er & H); [|done].
      destruct (check_item_sound _ _ _ _ _ _ Er (check_items_good _ _ _ _ _ _ _ H Hb)) as ((_ & Hk & _) & _).
      exists 1, st1. split_and!; [done|lia|lia|congruence|]. by replace (Z.to_nat (Z.of_nat (S n) - 1)) with n by lia. }
  pose proof (check_items_order gl _ mc mp lo st1 st' H1 Hb Hi ltac:(lia) ltac:(lia) Hc1) as Ho.
  destruct (Ho (i - 1) ltac:(lia)) as (a & Ea & _). destruct (Ho i ltac:(lia)) as (b & Eb & Hlt).
  destruct (Z.eqb_spec i lo); [lia|]. destruct (Hlt a Ea) as (c & Ec & Hc0). by exists a, b, c.
Qed.

Lemma check_leaf_data_stop gl mc mp node st err : check_leaf_data unaligned_ok gl mc mp node st = Some (Stop err) ->
  exists pgno front, gl pgno front = Some (inl err).
Proof.
  unfold check_leaf_data. intros H. inv_some; try done.
  match goal with H : gl _ _ = Some ?x |- _ => destruct x; [|done] end. simplify_eq. eauto.
Qed.

Lemma check_items_stop gl n mc mp i st err : check_items unaligned_ok gl n mc mp i st = Some (Stop err) ->
  exists pgno front, gl pgno front = Some (inl err).
Proof.
  revert i st. induction n as [|n IH]; intros i st H; cbn [check_items] in H; [done|].
  apply bind_Some in H as ([st1|err'] & Er & H); [by eapply IH|]. simplify_eq.
  destruct (is_dupfix_leaf mp); [by apply bind_Some in Er as (? & _ & ?)|].
  unfold check_node_item in Er. inv_some; try done.
  all: by eapply check_leaf_data_stop.
Qed.

Lemma page_check_passed gl mc mp offset mc' : page_type mp <> P_LARGE ->
  (forall pgno front, gl pgno front <> Some (inl MDBX_SUCCESS)) -> 0 <= pg_lower mp ->
  page_check unaligned_ok gl mc mp offset = Some (MDBX_SUCCESS, mc') -> page_checked mc mp.
Proof.
  intros Ht Hgl Hlow H. unfold page_check in H.
  assert (forall b, check_type mc mp = Verdict b -> b = false) as Hv.
  { intros b. unfold check_type. rewrite (proj2 (Z.eqb_neq _ _) Ht). repeat case_match; congruence. }
  destruct (check_type mc mp) as [b|b]; [by rewrite (Hv b eq_refl), andb_false_r in H|clear Hv].
  apply bind_Some in H as ([st|err] & Er & H); [|apply check_items_stop in Er as (? & ? & Eg); simplify_eq; by apply Hgl in Eg].
  destruct (ck_bad st) eqn:Hb; [done|]. pose proof (check_items_good _ _ _ _ _ _ _ Er Hb) as Hok. cbn in Hok.
  apply negb_false_iff in Hok. apply andb_prop in Hok as [[Ha _]%andb_prop Hl].
  unfold check_address in Ha. unfold check_layout, bounds_ok in Hl. inv_bool.
  assert (0 <= page_numkeys mp) by (unfold page_numkeys; by apply Z.shiftr_nonneg).
  constructor; [done|done| |].
  - intros i Hi. eapply check_items_inside; [exact Er|done|reflexivity|lia].
  - intros Hig i Hi. eapply ordered_from; [exact Er|done|done|done|lia].
Qed.

Lemma u8_testbit f n : 0 <= n < 8 -> Z.testbit (u8 f) n = Z.testbit f n.
Proof. intros Hn. unfold u8, wrap. apply Z.mod_pow2_bits_low. lia. Qed.

Lemma has_testbit f m n : has f m = false -> Z.testbit m n = true -> Z.testbit f n = false.
Proof.
  unfold has. intros H%negb_false_iff%Z.eqb_eq Hm. apply (f_equal (fun z => Z.testbit z n)) in H.
  rewrite Z.land_spec, Hm, andb_true_r, Z.bits_0 in H. done.
Qed.

(** A page without the bits of tree pages is not looked into. *)
Lemma large_type mc mp : has (pg_flags mp) ILL_large = false -> exists b, check_type mc mp = Verdict b.
Proof.
  intros H. pose proof (has_testbit _ _ 0 H eq_refl) as H0. pose proof (has_testbit _ _ 1 H eq_refl) as H1.
  rewrite <- u8_testbit in H0, H1 by lia. unfold check_type, page_type in *.
  case_if as C; [by eexists|].
  repeat match goal with |- context [if ?x =? ?y then _ else _] => destruct (Z.eqb_spec x y) as [E|E]; [rewrite E in *; done|clear E] end.
  by eexists.
Qed.

(** The finder returns, and success comes with a page. *)
Definition finds (unchecked : finder) : Prop := forall p, exists r, unchecked p = Some r /\ r <> (MDBX_SUCCESS, None).

Lemma large_of_total unchecked mc pgno front : finds unchecked ->
  exists r, large_of unaligned_ok unchecked mc pgno front = Some r /\ r <> inl MDBX_SUCCESS.
Proof.
  intros Hu. destruct (Hu pgno) as ([err r] & E & Hr). unfold large_of, page_get_large, page_get_inline.
  rewrite E. cbn [mbind option_bind]. destruct err; try by (eexists; split; [done|]).
  destruct r as [[mp off]|]; [|done]. case_if as C1; [case_if as C2; cbn; by eexists|].
  unfold check_page_complete. destruct (check_page_header ILL_large mc mp front) eqn:Eh; [|by eexists].
  unfold check_page_header in Eh. destruct (has (pg_flags mp) ILL_large) eqn:Ef; [done|].
  destruct (large_type mc mp Ef) as [b Eb]. unfold page_check. rewrite Eb. cbn.
  case_if as C3; by eexists.
Qed.
End Sound.

Lemma builtin_total uok flags : has flags MDBX_INTEGERKEY = false -> cmp_total (builtin_keycmp uok flags).
Proof.
  intros Hf a b Ha Hb. destruct (builtin_keycmp_spec uok flags 4 a b Ha Hb) as (r & E & _); [|by exists r].
  by rewrite Hf.
Qed.

Lemma three_not_large mp : has (pg_flags mp) ILL_three = false -> page_type mp <> P_LARGE.
Proof.
  intros H E. pose proof (has_testbit _ _ 2 H eq_refl) as H2. rewrite <- u8_testbit in H2 by lia.
  unfold page_type in E. by rewrite E in H2.
Qed.

(** A page fetched with full validation. *)
Lemma page_get_sound uok unchecked mc pgno front mp offset :
  finds unchecked -> unchecked pgno = Some (MDBX_SUCCESS, Some (mp, offset)) ->
  has (kc_checking mc) z_pagecheck = true -> cmp_total (clc_cmp (kc_k mc)) ->
  Forall is_byte (pg_body mp) -> zlen (pg_body mp) = page_space (kc_env mc) ->
  0 <= pg_lower mp -> 0 <= pg_dupfix_ksize mp < 65536 ->
  (no_subpages mp -> is_Some (page_get_three uok unchecked mc pgno front)) /\
  (forall r, page_get_three uok unchecked mc pgno front = Some r ->
     pgr_page r = Some mp /\ pgr_failed r = negb (bool_decide (pgr_err r = MDBX_SUCCESS)) /\
     (pgr_err r = MDBX_SUCCESS -> page_checked uok mc mp)).
Proof.
  intros Hu Hp Hc Hcmp Hb Hs Hl Hk. unfold page_get_three, page_get_inline. rewrite Hp. cbn [mbind option_bind]. rewrite Hc. cbn [negb].
  unfold check_page_complete. destruct (check_page_header ILL_three mc mp front) eqn:Eh.
  - assert (has (pg_flags mp) ILL_three = false) as Hf by (unfold check_page_header in Eh; by destruct (has _ ILL_three)).
    assert (bounds_ok mp (env_ps (kc_env mc)) = true) as Hbo.
    { unfold check_page_header in Eh. rewrite Hf in Eh. by destruct (_ && _) in Eh. }
    unfold bounds_ok in Hbo. apply negb_true_iff in Hbo. inv_bool. split.
    + intros Hsub. destruct (page_check_returns uok (large_of uok unchecked mc) mc mp offset) as [[err mc'] E].
      * constructor; [done|done|lia|unfold page_space; lia|done].
      * done.
      * intros q f. destruct (large_of_total uok unchecked mc q f Hu) as (r & -> & _). by eexists.
      * done.
      * rewrite E. by eexists.
    + intros r Hr. inv_some. cbn. split_and!; [done|done|]. intros ->. eapply page_check_passed; [by apply three_not_large| |done|exact E].
      intros q f Hq. destruct (large_of_total uok unchecked mc q f Hu) as (r & Er & Hne). congruence.
  - split; [by eexists|]. intros r [= <-]. by cbn.
Qed.

Definition check_env : page_env := mk_env 256 8 116 110.
Definition lexical_clc (lmax : Z) : clc := mk_clc (builtin_keycmp 8 0) 0 lmax.
Definition check_cursor (flags : Z) : kcursor :=
mk_kc check_env false false z_pagecheck flags 0 1 1 (lexical_clc 100) (lexical_clc 100) 5 6 100 100.
Definition checked_page : page :=
mk_page 4 0 P_LEAF 2 226 7 (words16 [226] ++ replicate 224 0 ++ node_image (mk_anode 1 0 0 [7] [9])).

(** ** The nested order check reads before it checks *)

(** A leaf page whose last node holds a sub-page with two keys; the length of
    the second one, 1000, reaches beyond the page. *)
Definition nested_page : page :=
mk_page 4 0 P_LEAF 2 184 7
  (words16 [184] ++ replicate 182 0
   ++ [42; 0; 0; 0; 4; 0; 2; 0; 1; 1]
   ++ replicate 8 0 ++ [0; 0; 66; 0; 4; 0; 4; 0; 7; 0; 0; 0] ++ words16 [4; 14]
   ++ [0; 0; 0; 0; 0; 0; 2; 0; 5; 5] ++ [0; 0; 0; 0; 0; 0; 232; 3]).

(** The comparison of the two keys comes before the check that the second one
    is inside the sub-page, so that it reads outside the page. *)
Lemma nested_order_reads_outside :
  zlen (pg_body nested_page) = page_space check_env /\
  check_page_header ILL_three (check_cursor MDBX_DUPSORT) nested_page 5 = true /\
  page_get_three 8 (fun _ => Some (MDBX_SUCCESS, Some (nested_page, 7 * 256))) (check_cursor MDBX_DUPSORT) 7 5 = None.
Proof. split_and!; vm_compute; reflexivity. Qed.
