(* ===== verification/Spill.v ===== *)
(** * Spilled pages ([src/src/spill.h], [src/src/spill.c])

    Dirty pages that were written out before the commit are kept in a sorted
    list of page numbers shifted left by one; removing a page sets the lowest
    bit of its element, and [spill_purge] drops the marked elements later. *)

From stdpp Require Import base numbers option sorting list.
From Stdlib Require Import ZArith Lia.
From S2P Require Import Prelude Search SortNet Bits Alloc Pnl PnlOrder.

Definition INT_MAX32 : Z := 2 ^ 31 - 1.

(** [txn->wr.spilled] *)
Record spilled : Type := mk_spilled { least_removed : Z; sp_list : pnl }.

Section Ops.
(** [MDBX_HAVE_CMOV] *)
Context (cm : bool).

Definition spill_search (s : option spilled) (pgno : Z) : option Z :=
match s with
| None => Some 0
| Some s =>
  let pgno := u32 (Z.shiftl pgno 1) in
  n ← pnl_search_nochk cm (sp_list s) pgno;
  sz ← pnl_size (sp_list s);
  if n <=? sz then x ← pnl_at (sp_list s) n; Some (if x =? pgno then n else 0) else Some 0
end.

Definition spill_intersect (s : option spilled) (pgno npages : Z) : option bool :=
match s with
| None => Some false
| Some s =>
  let spilled_range_begin := u32 (Z.shiftl pgno 1) in
  let spilled_range_last := u32 (u32 (Z.shiftl (u32 (pgno + u32 npages)) 1) - 1) in
  n ← pnl_search_nochk cm (sp_list s) spilled_range_last;
  sz ← pnl_size (sp_list s);
  if n <=? sz then x ← pnl_at (sp_list s) n; Some (spilled_range_begin <=? x) else Some false
end.
End Ops.

(** [list[idx] |= 1] and the cut of the last element. *)
Definition spill_mark (p : pnl) (idx : Z) : option pnl :=
x ← pnl_at p idx;
p ← pnl_put p idx (Z.lor x 1);
sz ← pnl_size p;
pnl_setsize p (sz - (if idx =? sz then 1 else 0)).

Fixpoint spill_remove_loop (fuel : nat) (s : spilled) (idx npages : Z) : option spilled :=
if 1 <? npages then
  match fuel with
  | O => None
  | S fuel =>
    x ← pnl_at (sp_list s) idx;
    let pgno := u32 (Z.shiftr x 1 + 1) in
    let idx := idx - 1 in
    if idx <? 1 then Some s
    else
      y ← pnl_at (sp_list s) idx;
      if negb (Z.shiftr y 1 =? pgno) then Some s
      else
        let least := if idx <? least_removed s then idx else least_removed s in
        p ← spill_mark (sp_list s) idx;
        spill_remove_loop fuel (mk_spilled least p) idx (npages - 1)
  end
else Some s.

Definition spill_remove (s : spilled) (idx npages : Z) : option spilled :=
let least := if idx <? least_removed s then idx else least_removed s in
p ← spill_mark (sp_list s) idx;
spill_remove_loop (Z.to_nat npages) (mk_spilled least p) idx npages.

(** The loop over the tail of the list: reading at [r], writing at [w]. *)
Fixpoint spill_purge_loop (fuel : nat) (p : pnl) (w r len : Z) : option (pnl * Z) :=
if r <=? len then
  match fuel with
  | O => None
  | S fuel =>
    x ← pnl_at p r;
    p ← pnl_put p w x;
    spill_purge_loop fuel p (w + 1 - Z.land x 1) (r + 1) len
  end
else Some (p, w).

Definition spill_purge (s : spilled) : option spilled :=
if negb (least_removed s =? INT_MAX32) then
  len ← pnl_size (sp_list s);
  '(p, w) ← spill_purge_loop (Z.to_nat (len + 1)) (sp_list s) (least_removed s) (least_removed s) len;
  p ← pnl_setsize p (w - 1);
  Some (mk_spilled INT_MAX32 p)
else Some s.

Fixpoint check_odd_loop (n : nat) (p : pnl) (i : Z) : option bool :=
match n with
| O => Some true
| S n => x ← pnl_at p i; if negb (Z.land x 1 =? 0) then Some false else check_odd_loop n p (i + 1)
end.

Definition spill_check_odd (s : spilled) : option bool :=
sz ← pnl_size (sp_list s);
let e := min_unsigned (u64 (least_removed s - 1)) sz in
check_odd_loop (Z.to_nat e) (sp_list s) 1.

(** [spill_gate]: how much to spill, within the limits of the options. *)
Definition spill_gate (spill_min_denominator spill_max_denominator part total : Z) : Z :=
let spill_min := if spill_min_denominator =? 0 then 1 else (total + spill_min_denominator - 1) / spill_min_denominator in
let spill_max := total - (if spill_max_denominator =? 0 then 0 else total / spill_max_denominator) in
let part := if part <? spill_max then part else spill_max in
if spill_min <? part then part else spill_min.

(** ** Representation *)

Definition live (x : Z) : bool := Z.even x.

(** The page of an element, marked or not. *)
Definition spage (x : Z) : Z := Z.shiftr x 1.

Definition spill_mk (x : Z) : Z := Z.lor x 1.

(** The elements [l] of the list: pages in descending order, marked or not, and
    unmarked before [least_removed]. *)
Record spill_rep (s : spilled) (l : list Z) : Prop := {
  sr_list : pnl_rep (sp_list s) l;
  sr_desc : desc (spage <$> l);
  sr_range : Forall (fun x => 0 <= x < 2 ^ 32) l;
  sr_len : zlen l < INT_MAX32;
  sr_least : 0 < least_removed s <= INT_MAX32;
  sr_tail : least_removed s = INT_MAX32 \/ least_removed s <= zlen l + 1;
  sr_even : forall i x, zget l i = Some x -> i + 1 < least_removed s -> live x = true;
}.

(** The spilled pages, and the pages with an element at all. *)
Definition spilled_page (l : list Z) (pgno : Z) : Prop := 2 * pgno ∈ l.
Definition listed (l : list Z) (pgno : Z) : Prop := pgno ∈ spage <$> l.

(** What [spill_remove] takes out from the page [p] on: the unbroken run of
    listed pages, at most [npages] of them. *)
Definition removed_run (l : list Z) (p npages q : Z) : Prop :=
  p <= q < p + npages /\ forall r, p <= r <= q -> listed l r.

(** ** Elements *)

Lemma spage_div x : spage x = x / 2.
Proof. unfold spage. by rewrite Z.shiftr_div_pow2 by lia. Qed.

Lemma live_spec x : live x = true <-> x = 2 * spage x.
Proof.
  unfold live. rewrite spage_div, Zeven_mod. pose proof (Z.div_mod x 2 ltac:(lia)).
  pose proof (Z.mod_pos_bound x 2 ltac:(lia)). rewrite Z.eqb_eq. lia.
Qed.

Lemma live_double p : live (2 * p) = true.
Proof. unfold live. by rewrite Z.even_mul. Qed.

Lemma spage_double p : spage (2 * p) = p.
Proof. rewrite spage_div. rewrite Z.mul_comm. by apply Z.div_mul. Qed.

Lemma spill_mk_spec x : spage (spill_mk x) = spage x /\ live (spill_mk x) = false.
Proof.
  unfold spage, spill_mk, live. split.
  - rewrite Z.shiftr_lor. cbn. apply Z.lor_0_r.
  - rewrite <- Z.negb_odd, <- Z.bit0_odd, Z.lor_spec. cbn. by rewrite orb_true_r.
Qed.

Lemma spill_mk_range x : 0 <= x < 2 ^ 32 -> 0 <= spill_mk x < 2 ^ 32.
Proof.
  intros H. destruct (spill_mk_spec x) as [Hp _]. rewrite !spage_div in Hp.
  pose proof (Z.div_mod (spill_mk x) 2 ltac:(lia)). pose proof (Z.mod_pos_bound (spill_mk x) 2 ltac:(lia)).
  pose proof (Z.div_mod x 2 ltac:(lia)). pose proof (Z.mod_pos_bound x 2 ltac:(lia)).
  change (2 ^ 32) with (2 * 2147483648) in *. lia.
Qed.

Lemma land_1_live x : Z.land x 1 = if live x then 0 else 1.
Proof.
  change 1 with (Z.ones 1) at 1. rewrite Z.land_ones by lia. change (2 ^ 1) with 2.
  unfold live. rewrite Zmod_even. by destruct (Z.even x).
Qed.

Lemma spage_mono x y : spage y < spage x -> y < x.
Proof. rewrite !spage_div. intros H. destruct (Z.le_gt_cases x y) as [Hle|]; [|done].
  pose proof (Z.div_le_mono x y 2 ltac:(lia) Hle). lia. Qed.

Lemma spill_rep_desc l : desc (spage <$> l) -> desc l.
Proof.
  unfold desc. intros H. apply StronglySorted_zget. intros i j x y Hij Hx Hy. rewrite StronglySorted_zget in H.
  apply spage_mono, (H i j); [done|..]; rewrite zget_fmap; [by rewrite Hx|by rewrite Hy].
Qed.

(** ** Searching *)

Lemma spill_search_spec cm s l pgno : spill_rep s l -> 0 <= pgno <= MAX_PAGENO ->
  exists n, spill_search cm (Some s) pgno = Some n /\ 0 <= n <= zlen l /\
    (n <> 0 -> zget l (n - 1) = Some (2 * pgno)) /\ (n = 0 -> ~ spilled_page l pgno).
Proof.
  intros Hr Hp. pose proof (spill_rep_desc _ (sr_desc _ _ Hr)) as Hd.
  destruct (pnl_search_exact_spec cm _ l (2 * pgno) (sr_list _ _ Hr) Hd) as (n & E & Hn).
  exists n. split; [|done]. unfold spill_search. rewrite Z.shiftl_mul_pow2 by lia. change (2 ^ 1) with 2.
  rewrite u32_small by (unfold MAX_PAGENO, UINT32_MAX in *; lia). rewrite (Z.mul_comm pgno). rewrite <- E.
  unfold pnl_search_exact. destruct (pnl_search_nochk cm (sp_list s) (2 * pgno)) as [k|]; [|done].
  cbn [mbind option_bind]. destruct (pnl_size (sp_list s)) as [z|]; [|done]. cbn [mbind option_bind].
  case_if as E1; [|done]. by destruct (pnl_at (sp_list s) k).
Qed.

(** [spill_intersect] looks for any element of the range, marked ones included. *)
Lemma spill_intersect_spec cm s l pgno npages : spill_rep s l -> 0 <= pgno -> 0 < npages -> pgno + npages <= MAX_PAGENO + 1 ->
  exists b, spill_intersect cm (Some s) pgno npages = Some b /\
    (b = true <-> exists q, pgno <= q < pgno + npages /\ listed l q).
Proof.
  intros Hr Hp Hn Hlim. pose proof (spill_rep_desc _ (sr_desc _ _ Hr)) as Hd. unfold MAX_PAGENO in Hlim.
  unfold spill_intersect. rewrite (u32_small npages), (u32_small (pgno + npages)) by (unfold UINT32_MAX; lia).
  rewrite !Z.shiftl_mul_pow2 by lia. change (2 ^ 1) with 2. rewrite (u32_small (pgno * 2)) by (unfold UINT32_MAX; lia).
  assert (u32 (u32 ((pgno + npages) * 2) - 1) = 2 * (pgno + npages) - 1) as ->.
  { unfold u32, wrap. rewrite Zminus_mod_idemp_l. rewrite Z.mod_small; lia. }
  destruct (pnl_search_nochk_spec cm _ l (2 * (pgno + npages) - 1) (sr_list _ _ Hr)) as (hi & lo & El & Hhi & Hlo & ->).
  { by apply desc_desc_weak. }
  cbn [mbind option_bind]. rewrite (pnl_rep_size _ _ (sr_list _ _ Hr)). cbn [mbind option_bind]. zlen_pos.
  assert (forall x, pgno <= spage x < pgno + npages <-> 2 * pgno <= x <= 2 * (pgno + npages) - 1) as Hx.
  { intros x. rewrite spage_div. pose proof (Z.div_mod x 2 ltac:(lia)). pose proof (Z.mod_pos_bound x 2 ltac:(lia)). lia. }
  assert ((exists q, pgno <= q < pgno + npages /\ listed l q) <-> exists x, x ∈ l /\ 2 * pgno <= x <= 2 * (pgno + npages) - 1) as Hq.
  { unfold listed. split.
    - intros (q & Hq & (x & -> & Hin)%list_elem_of_fmap). exists x. by rewrite <- Hx.
    - intros (x & Hin & Hb). exists (spage x). rewrite Hx. split; [done|]. by apply list_elem_of_fmap_2. }
  rewrite Forall_forall in Hhi, Hlo. destruct lo as [|y lo].
  { rewrite app_nil_r in El. subst hi. zcase; [lia|]. eexists. split; [done|]. rewrite Hq. split; [done|].
    intros (x & Hin & Hb). specialize (Hhi _ Hin). lia. }
  subst l. zcase; [|zlia]. rewrite (pnl_rep_at _ _ _ (sr_list _ _ Hr)) by zlia. rewrite zget_app_mid by lia.
  cbn [mbind option_bind]. eexists. split; [done|]. rewrite Z.leb_le, Hq. split.
  - intros Hb. exists y. specialize (Hlo y ltac:(constructor)). rewrite elem_of_app, elem_of_cons. split; [by right; left|lia].
  - intros (x & Hin & Hb). apply elem_of_app in Hin as [Hin|Hin]; [specialize (Hhi _ Hin); lia|].
    apply elem_of_cons in Hin as [->|Hin]; [lia|]. apply StronglySorted_app_iff in Hd as (_ & Hd & _).
    inversion Hd as [|?? _ Hall]; subst. rewrite Forall_forall in Hall. specialize (Hall _ Hin). lia.
Qed.

(** ** Removing *)

(** The cut is made only when the marked element is the last one. *)
Lemma spill_mark_spec a n A x M rest : zlen A <= n <= UINT32_MAX -> n <= UINT32_MAX ->
  spill_mark (a :: n :: A ++ x :: M ++ rest) (zlen A + 1) =
    Some (a :: (n - if n =? zlen A + 1 then 1 else 0) :: A ++ spill_mk x :: M ++ rest).
Proof.
  intros Hn Hmax. unfold spill_mark. rewrite pnl_at_cells by zlia. rewrite zget_app_mid by lia. cbn [mbind option_bind].
  rewrite pnl_put_mid by lia. cbn [mbind option_bind]. rewrite pnl_size_cells. cbn [mbind option_bind].
  rewrite (Z.eqb_sym (zlen A + 1)). zlen_pos. rewrite pnl_setsize_cells; [done|]. destruct (Z.eqb_spec n (zlen A + 1)); lia.
Qed.

Definition kept_size (keep : bool) (A M : list Z) : Z := zlen A + if keep then zlen M else 0.

(** The elements of the pages [p + 1], [p + 2], ..., the last one first. *)
Definition consecutive (p : Z) (run : list Z) : Prop :=
  forall i x, zget run i = Some x -> spage x = p + zlen run - i.

Lemma consecutive_nil p : consecutive p [].
Proof. intros i x H%zget_range. zlia. Qed.

Lemma consecutive_snoc p run y : consecutive (p + 1) run -> spage y = p + 1 -> consecutive p (run ++ [y]).
Proof.
  intros H Hy i x Hi. pose proof (zget_range _ _ _ Hi) as Hb. autorewrite with zlen in *.
  destruct (decide (i = zlen run)) as [->|Hne].
  - rewrite zget_app_mid in Hi by done. simplify_eq. lia.
  - rewrite zget_app_l in Hi by zlia. rewrite (H _ _ Hi). lia.
Qed.

Lemma spill_remove_loop_spec a (keep : bool) rest : forall (fuel : nat) A x M p npages least,
  npages <= Z.of_nat fuel + 1 -> spage x = p -> 0 <= p -> Forall (fun y => 0 <= y < 2 ^ 32) (A ++ [x]) ->
  zlen A + zlen (x :: M) <= UINT32_MAX ->
  exists A1 A2, A = A1 ++ A2 /\ zlen A2 <= Z.max 0 (npages - 1) /\ consecutive p A2 /\
    (zlen A2 = Z.max 0 (npages - 1) \/ forall y, last A1 = Some y -> spage y <> p + zlen A2 + 1) /\
    let M' := (spill_mk <$> A2) ++ x :: M in
    spill_remove_loop fuel (mk_spilled least (a :: kept_size keep A (x :: M) :: A ++ x :: M ++ rest)) (zlen A + 1) npages =
      Some (mk_spilled (if decide (A2 = []) then least else Z.min least (zlen A1 + 1)) (a :: kept_size keep A1 M' :: A1 ++ M' ++ rest)).
Proof.
  induction fuel as [|fuel IH]; intros A x M p npages least Hf Hx Hp Hr Hlen; cbn [spill_remove_loop].
  { zcase; [lia|]. exists A, []. rewrite app_nil_r. split_and!; [done|zlia|apply consecutive_nil|left; zlia|done]. }
  destruct (Z.ltb_spec 1 npages) as [E1|E1].
  2:{ exists A, []. rewrite app_nil_r. split_and!; [done|zlia|apply consecutive_nil|left; zlia|done]. }
  pose proof (zlen_nonneg A) as HA0.
  cbn [sp_list least_removed]. rewrite (pnl_at_cells _ _ _ (zlen A + 1)) by lia. rewrite zget_app_mid by lia. cbn [mbind option_bind].
  rewrite Forall_app, Forall_cons in Hr. destruct Hr as [HA [Hx32 _]]. fold (spage x). rewrite Hx.
  assert (p < 2 ^ 31) as Hp31. { rewrite spage_div in Hx. change (2 ^ 32) with (2 ^ 31 * 2) in Hx32.
    rewrite <- Hx. apply Z.div_lt_upper_bound; lia. }
  rewrite (u32_small (p + 1)) by (unfold UINT32_MAX; lia). replace (zlen A + 1 - 1) with (zlen A) by lia.
  destruct (Z.ltb_spec (zlen A) 1) as [E2|E2].
  { assert (A = []) as -> by (apply zlen_0_nil; zlia). exists [], [].
    split_and!; [done|zlia|apply consecutive_nil|by right|done]. }
  destruct (zsplit_snoc A) as (A' & y & ->); [lia|]. rewrite <- app_assoc. cbn [app].
  rewrite pnl_at_cells by zlia. rewrite zget_app_mid by zlia. cbn [mbind option_bind]. fold (spage y).
  destruct (Z.eqb_spec (spage y) (p + 1)) as [Hy|Hy]; cbn [negb].
  2:{ exists (A' ++ [y]), []. rewrite !app_nil_r, <- app_assoc.
    split_and!; [done|zlia|apply consecutive_nil| |done]. right. intros z. rewrite last_snoc. intros [= ->]. zlia. }
  rewrite Forall_app, Forall_cons in HA. destruct HA as [HA [Hy32 _]]. autorewrite with zlen in Hlen.
  rewrite zlen_snoc, (app_comm_cons M rest x). unfold kept_size at 1. rewrite spill_mark_spec by (destruct keep; zlia).
  cbn [mbind option_bind]. destruct (IH A' (spill_mk y) (x :: M) (p + 1) (npages - 1) (Z.min least (zlen A' + 1)))
    as (A1 & A2 & -> & HA2 & Hc & Hstop & E); [lia|by rewrite (proj1 (spill_mk_spec y))|lia| |zlia|].
  { rewrite Forall_app, Forall_singleton. split; [done|by apply spill_mk_range]. }
  exists A1, (A2 ++ [y]). split_and!.
  - by rewrite app_assoc.
  - zlia.
  - by apply consecutive_snoc.
  - autorewrite with zlen. destruct Hstop as [Hs|Hs]; [left; lia|right]. intros z Hz. specialize (Hs z Hz). lia.
  - cbv zeta in *. rewrite decide_False by (by destruct A2). rewrite fmap_app, <- (app_assoc _ _ (x :: M)).
    cbn [app fmap list_fmap] in *.
    replace (if zlen (A1 ++ A2) + 1 <? least then zlen (A1 ++ A2) + 1 else least) with (Z.min least (zlen (A1 ++ A2) + 1))
      by (zcase; lia).
    replace (_ - _) with (kept_size keep (A1 ++ A2) (spill_mk y :: x :: M)).
    2:{ unfold kept_size. autorewrite with zlen in *. zlen_pos. destruct keep; zcase; lia. }
    rewrite E. f_equal. f_equal. case_decide; subst; zlia.
Qed.

(** The list after the call: the part before the run is kept, the run is marked,
    and it is cut off when it was the end of the list. *)
Lemma spill_remove_list s l A x B npages : spill_rep s l -> l = A ++ x :: B ->
  exists A1 A2 s', A = A1 ++ A2 /\ zlen A2 <= Z.max 0 (npages - 1) /\ consecutive (spage x) A2 /\
    (zlen A2 = Z.max 0 (npages - 1) \/ forall y, last A1 = Some y -> spage y <> spage x + zlen A2 + 1) /\
    spill_remove s (zlen A + 1) npages = Some s' /\ 0 < least_removed s' <= Z.min (least_removed s) (zlen A1 + 1) /\
    (forall i, i < least_removed s -> i < zlen A1 + 1 -> i < least_removed s') /\
    pnl_rep (sp_list s') (A1 ++ if decide (B = []) then [] else (spill_mk <$> A2) ++ spill_mk x :: B).
Proof.
  intros Hr ->. destruct (sr_list _ _ Hr) as (len & rest & E & Hlen & Hroom).
  pose proof (sr_len _ _ Hr) as Hl. pose proof (sr_least _ _ Hr) as Hle. unfold INT_MAX32 in *. zlen_pos.
  pose proof (sr_range _ _ Hr) as HF. rewrite Forall_app, Forall_cons in HF. destruct HF as (HA & Hx & HB).
  unfold spill_remove. rewrite E, <- app_assoc. cbn [app].
  rewrite spill_mark_spec by (unfold UINT32_MAX; zlia). cbn [mbind option_bind].
  set (keep := if decide (B = []) then false else true).
  replace (zlen (A ++ x :: B) - _) with (kept_size keep A (spill_mk x :: B)).
  2:{ unfold kept_size, keep. destruct B as [|b B]; [rewrite decide_True by done|rewrite decide_False by done]; zcase; zlia. }
  destruct (spill_mk_spec x) as [Hmx _].
  destruct (spill_remove_loop_spec len keep rest (Z.to_nat npages) A (spill_mk x) B (spage x) npages
    (if zlen A + 1 <? least_removed s then zlen A + 1 else least_removed s)) as (A1 & A2 & -> & HA2 & Hc & Hstop & ->).
  { lia. } { done. } { rewrite spage_div. apply Z.div_pos; lia. }
  { rewrite Forall_app, Forall_singleton. split; [done|by apply spill_mk_range]. } { unfold UINT32_MAX. zlia. }
  exists A1, A2. eexists. split_and!; [done..| | | |]; cbn [least_removed sp_list].
  - autorewrite with zlen in *. zlen_pos. case_decide; subst; zcase; zlia.
  - autorewrite with zlen in *. zlen_pos. case_decide; subst; zcase; zlia.
  - intros i. autorewrite with zlen in *. zlen_pos. case_decide; subst; zcase; zlia.
  - apply (f_equal zlen) in E. unfold kept_size, keep. exists len. case_decide as HB0.
    + subst B. exists ((spill_mk <$> A2) ++ spill_mk x :: rest). rewrite app_nil_r, <- !app_assoc. cbn [app].
      split_and!; [f_equal; f_equal; lia|zlia|zlia|]. autorewrite with zlen in *. zlia.
    + exists rest. rewrite <- !app_assoc. cbn [app]. autorewrite with zlen in *.
      split_and!; [done|zlia|zlia|zlia].
Qed.

Section Removed.
Context (l A1 A2 B : list Z) (x npages : Z).
Hypothesis (El : l = (A1 ++ A2) ++ x :: B).
Hypothesis (Hd : desc (spage <$> l)).
Hypothesis (Hnp : 0 < npages).
Hypothesis (Hlen : zlen A2 <= Z.max 0 (npages - 1)).
Hypothesis (Hc : consecutive (spage x) A2).
Hypothesis (Hstop : zlen A2 = Z.max 0 (npages - 1) \/ forall y, last A1 = Some y -> spage y <> spage x + zlen A2 + 1).

Lemma run_parts : desc (spage <$> A1) /\ desc (spage <$> A2) /\
  (forall y z, y ∈ A1 -> z ∈ A2 ++ [x] -> spage z < spage y) /\ (forall z, z ∈ B -> spage z < spage x).
Proof using El Hd.
  subst l. rewrite <- app_assoc, cons_middle, fmap_app in Hd. apply StronglySorted_app_iff in Hd as (H1 & H2 & H12).
  rewrite (app_assoc A2), fmap_app in H2. apply StronglySorted_app_iff in H2 as (H2 & H3 & H23).
  rewrite fmap_app in H2. apply StronglySorted_app_iff in H2 as (H2 & _ & _). split_and!; [done|done|..].
  - intros y z Hy Hz. apply H12; [by apply list_elem_of_fmap_2|].
    rewrite app_assoc, fmap_app, elem_of_app. left. by apply list_elem_of_fmap_2.
  - intros z Hz. apply H23; [|by apply list_elem_of_fmap_2]. rewrite fmap_app, elem_of_app. right. by constructor.
Qed.

(** The run [x], [A2] covers exactly the pages from that of [x] on. *)
Lemma run_pages q : spage x <= q <= spage x + zlen A2 <-> q ∈ spage <$> A2 ++ [x].
Proof using Hc npages.
  rewrite fmap_app, elem_of_app. change (spage <$> [x]) with [spage x]. rewrite list_elem_of_singleton. split.
  - intros Hq. destruct (decide (q = spage x)) as [->|Hne]; [by right|left].
    destruct (zget_in A2 (spage x + zlen A2 - q)) as (y & Hy); [lia|]. apply list_elem_of_fmap. exists y.
    split; [rewrite (Hc _ _ Hy); lia|by eapply zget_elem].
  - intros [Hq| ->]; [|zlia]. apply list_elem_of_fmap in Hq as (y & -> & Hy).
    apply elem_zget in Hy as (i & Hi & Hy). rewrite (Hc _ _ Hy). lia.
Qed.

(** The pages before the run do not continue it. *)
Lemma run_stops q : q ∈ spage <$> A1 -> ~ removed_run l (spage x) npages q.
Proof using All.
  destruct run_parts as (H1 & H2 & H12 & HB). intros (y & -> & Hy)%list_elem_of_fmap [Hq Hr].
  assert (spage x + zlen A2 < spage y) as Hgt.
  { pose proof (proj1 (run_pages (spage x + zlen A2)) ltac:(zlia)) as (z & Ez & Hz)%list_elem_of_fmap.
    rewrite Ez. by apply H12. }
  destruct Hstop as [Hs|Hs]; [lia|]. specialize (Hr (spage x + zlen A2 + 1) ltac:(zlia)).
  apply list_elem_of_fmap in Hr as (z & Ez & Hz). subst l. rewrite <- app_assoc, elem_of_app in Hz.
  destruct Hz as [Hz|Hz].
  - destruct (zsplit_snoc A1) as (A & w & EA).
    { destruct A1; [by apply elem_of_nil in Hz|zlia]. }
    specialize (Hs w). rewrite EA, last_snoc in Hs. specialize (Hs eq_refl).
    rewrite EA, fmap_app in H1. apply StronglySorted_app_iff in H1 as (_ & _ & H1). rewrite EA in Hz.
    apply elem_of_app in Hz as [Hz|Hz%list_elem_of_singleton]; [|congruence].
    specialize (H1 (spage z) (spage w) ltac:(by apply list_elem_of_fmap_2) ltac:(by constructor)). cbn in H1.
    assert (spage x + zlen A2 < spage w); [|lia].
    pose proof (proj1 (run_pages (spage x + zlen A2)) ltac:(zlia)) as (v & Ev & Hv)%list_elem_of_fmap.
    rewrite Ev. apply H12; [|done]. rewrite EA, elem_of_app. right. by constructor.
  - rewrite cons_middle, app_assoc, elem_of_app in Hz. destruct Hz as [Hz|Hz].
    + apply (list_elem_of_fmap_2 spage) in Hz. apply run_pages in Hz. lia.
    + specialize (HB _ Hz). zlia.
Qed.

Lemma removed_pages q : spilled_page (A1 ++ if decide (B = []) then [] else (spill_mk <$> A2) ++ spill_mk x :: B) q <->
  spilled_page l q /\ ~ removed_run l (spage x) npages q.
Proof using All.
  destruct run_parts as (H1 & H2 & H12 & HB).
  assert (spilled_page (A1 ++ if decide (B = []) then [] else (spill_mk <$> A2) ++ spill_mk x :: B) q <->
    2 * q ∈ A1 \/ 2 * q ∈ B) as ->.
  { unfold spilled_page. rewrite elem_of_app. case_decide as Hb; [subst B; by rewrite !elem_of_nil|].
    rewrite elem_of_app, elem_of_cons. pose proof (live_double q) as Hl. split; [|tauto].
    intros [?|[(y & E & _)%list_elem_of_fmap|[E|?]]]; [tauto| | |tauto];
      rewrite E in Hl; by rewrite (proj2 (spill_mk_spec _)) in Hl. }
  split.
  - intros [Hq|Hq]; (split; [unfold spilled_page; subst l; rewrite !elem_of_app, elem_of_cons; tauto|]).
    + apply run_stops. rewrite <- (spage_double q). by apply list_elem_of_fmap_2.
    + intros [[Hge _] _]. specialize (HB _ Hq). rewrite spage_double in HB. lia.
  - intros [Hq Hn]. unfold spilled_page in Hq. rewrite El, <- app_assoc, elem_of_app in Hq.
    destruct Hq as [Hq|Hq]; [by left|]. rewrite cons_middle, app_assoc, elem_of_app in Hq.
    destruct Hq as [Hq|Hq]; [|by right]. apply (list_elem_of_fmap_2 spage) in Hq. rewrite spage_double in Hq.
    apply run_pages in Hq. destruct Hn. split; [lia|]. intros r Hr. unfold listed. rewrite El, <- app_assoc.
    rewrite cons_middle, (app_assoc A2), fmap_app, elem_of_app. right. rewrite fmap_app, elem_of_app. left.
    apply run_pages. lia.
Qed.
End Removed.

Lemma spill_remove_spec s l idx x npages : spill_rep s l -> zget l (idx - 1) = Some x -> 0 < npages ->
  exists s' l', spill_remove s idx npages = Some s' /\ spill_rep s' l' /\
    (forall q, spilled_page l' q <-> spilled_page l q /\ ~ removed_run l (spage x) npages q).
Proof.
  intros Hr Hx Hnp. pose proof (zget_range _ _ _ Hx) as Hi.
  destruct (zsplit_mid l (idx - 1) Hi) as (A & x' & B & El & HA).
  assert (x' = x) as ->. { rewrite El, zget_app_mid in Hx by done. by simplify_eq. }
  destruct (spill_remove_list s l A x B npages Hr El) as (A1 & A2 & s' & -> & H1 & H2 & H3 & E & H4 & H5 & H6).
  replace idx with (zlen (A1 ++ A2) + 1) by lia. eexists s', _. split; [done|]. split.
  2:{ intros q. eapply removed_pages; eauto using sr_desc. }
  destruct Hr as [Hl Hd HF Hlen Hle Htail Hev]. rewrite El in Hd, HF, Hlen. split.
  - done.
  - case_decide as Hb.
    + rewrite app_nil_r. rewrite <- app_assoc, fmap_app in Hd. by apply StronglySorted_app_iff in Hd as (Hd & _ & _).
    + rewrite <- app_assoc in Hd. rewrite !fmap_app, !fmap_cons in *. rewrite <- list_fmap_compose.
      rewrite (list_fmap_ext (spage ∘ spill_mk) spage A2); [|intros; apply spill_mk_spec].
      by rewrite (proj1 (spill_mk_spec x)).
  - rewrite !Forall_app, Forall_cons in *. destruct HF as [[HF1 HF2] [HF3 HF4]]. split; [done|].
    case_decide; [done|]. rewrite Forall_app, Forall_cons. split; [|split; [by apply spill_mk_range|done]].
    rewrite Forall_fmap. eapply Forall_impl; [exact HF2|]. intros y Hy. by apply spill_mk_range.
  - case_decide; zlia.
  - lia.
  - right. case_decide; zlia.
  - intros i y Hy Hlt. pose proof (zget_range _ _ _ Hy). destruct (Z.lt_ge_cases i (zlen A1)) as [Hi1|Hi1]; [|lia].
    rewrite zget_app_l in Hy by done. apply (Hev i); [|lia]. rewrite El, <- app_assoc. by rewrite zget_app_l.
Qed.

(** ** Purging *)

Definition live_part (l : list Z) : list Z := filter (fun x => live x = true) l.

Lemma spill_purge_loop_spec a n rest : forall todo kept gap (fuel : nat), (length todo < fuel)%nat ->
  exists gap', zlen gap' = zlen gap + zlen todo - zlen (live_part todo) /\
    spill_purge_loop fuel (a :: n :: kept ++ gap ++ todo ++ rest) (zlen kept + 1) (zlen kept + zlen gap + 1)
      (zlen kept + zlen gap + zlen todo) =
      Some (a :: n :: (kept ++ live_part todo) ++ gap' ++ rest, zlen kept + zlen (live_part todo) + 1).
Proof.
  induction todo as [|x todo IH]; intros kept gap fuel Hf; (destruct fuel as [|fuel]; [cbn in Hf; lia|]); cbn [spill_purge_loop].
  { change (live_part []) with (@nil Z). zcase; [zlia|]. exists gap. split; [zlia|]. cbn [app]. rewrite app_nil_r, zlen_nil, Z.add_0_r. done. }
  cbn [length] in Hf. zcase; [|zlia]. cbn [app]. rewrite pnl_at_after_gap by lia. cbn [mbind option_bind].
  destruct (pnl_move_cell a n kept gap x (todo ++ rest)) as (gap1 & Hgap & ->). cbn [mbind option_bind].
  rewrite land_1_live. unfold live_part. rewrite filter_cons. destruct (live x).
  - rewrite decide_True by done. destruct (IH (kept ++ [x]) gap1 fuel ltac:(lia)) as (gap' & Hg & E).
    exists gap'. split; [unfold live_part in *; zlia|].
    replace (zlen kept + 1 + 1 - 0) with (zlen (kept ++ [x]) + 1) by zlia.
    replace (zlen kept + zlen gap + 1 + 1) with (zlen (kept ++ [x]) + zlen gap1 + 1) by zlia.
    replace (zlen kept + zlen gap + zlen (x :: todo)) with (zlen (kept ++ [x]) + zlen gap1 + zlen todo) by zlia.
    rewrite E. unfold live_part. rewrite <- (app_assoc kept). cbn [app]. f_equal. f_equal. zlia.
  - rewrite decide_False by done. destruct (IH kept (x :: gap1) fuel ltac:(lia)) as (gap' & Hg & E).
    exists gap'. split; [unfold live_part in *; zlia|]. rewrite <- (app_assoc kept). cbn [app] in *.
    replace (zlen kept + 1 + 1 - 1) with (zlen kept + 1) by zlia.
    replace (zlen kept + zlen gap + 1 + 1) with (zlen kept + zlen (x :: gap1) + 1) by zlia.
    replace (zlen kept + zlen gap + zlen (x :: todo)) with (zlen kept + zlen (x :: gap1) + zlen todo) by zlia.
    by rewrite E.
Qed.

Lemma live_part_pages l q : spilled_page (live_part l) q <-> spilled_page l q.
Proof. unfold spilled_page, live_part. rewrite list_elem_of_filter. pose proof (live_double q). tauto. Qed.

Lemma live_prefix s l n : spill_rep s l -> zlen n + 1 <= least_removed s -> (exists r, l = n ++ r) -> live_part n = n.
Proof.
  intros Hr Hn [r ->]. apply filter_all. intros x (i & Hi & Hx)%elem_zget. apply (sr_even _ _ Hr i); [|lia].
  by rewrite zget_app_l by lia.
Qed.

Lemma Forall_sublist {A} (P : A -> Prop) l1 l2 : sublist l1 l2 -> Forall P l2 -> Forall P l1.
Proof. induction 1; intros HP; [done|..]; inversion HP; subst; auto. Qed.

Lemma StronglySorted_sublist {A} (R : A -> A -> Prop) l1 l2 : sublist l1 l2 -> StronglySorted R l2 -> StronglySorted R l1.
Proof.
  induction 1 as [|x l1 l2 Hs IH|x l1 l2 Hs IH]; intros H; [done|..]; inversion H; subst; [|auto].
  constructor; [auto|]. by eapply Forall_sublist.
Qed.

Lemma spill_purge_spec s l : spill_rep s l -> exists s', spill_purge s = Some s' /\ spill_rep s' (live_part l) /\
  least_removed s' = INT_MAX32.
Proof.
  intros Hr. pose proof Hr as [Hl Hd HF Hlen Hle Htail Hev]. unfold spill_purge.
  assert (forall s', pnl_rep (sp_list s') (live_part l) -> least_removed s' = INT_MAX32 -> spill_rep s' (live_part l)) as Hmk.
  { intros s' H1 H2. assert (sublist (live_part l) l) as Hsub by apply sublist_filter.
    split; [done| | | |rewrite H2; done|by left|].
    - unfold desc in *. eapply StronglySorted_sublist; [|exact Hd]. by apply fmap_sublist.
    - eapply Forall_sublist; eauto.
    - apply sublist_length in Hsub. unfold zlen in *. lia.
    - intros i x Hx _. apply zget_elem in Hx. by apply list_elem_of_filter in Hx as [? _]. }
  destruct (Z.eqb_spec (least_removed s) INT_MAX32) as [E|E]; cbn [negb].
  { exists s. split_and!; [done| |done]. apply Hmk; [|done].
    rewrite (live_prefix s l l Hr); [done|lia|]. exists []. by rewrite app_nil_r. }
  destruct Htail as [|Htail]; [done|]. destruct (zsplit l (least_removed s - 1)) as (kept & todo & El & Hk); [lia|].
  assert (live_part kept = kept) as Hkept. { apply (live_prefix s l kept Hr); [lia|eauto]. }
  destruct Hl as (len & rest & Es & Hcap & Hroom). rewrite Es, pnl_size_cells. cbn [mbind option_bind].
  destruct (spill_purge_loop_spec len (zlen l) rest todo kept [] (Z.to_nat (zlen l + 1))) as (gap & Hgap & Ep).
  { subst l. unfold zlen in *. rewrite length_app. lia. }
  cbn [app] in Ep. rewrite zlen_nil in *. rewrite !Z.add_0_r in Ep. replace (zlen kept + 1) with (least_removed s) in Ep by lia.
  replace (zlen kept + zlen todo) with (zlen l) in Ep by (subst l; zlia).
  replace (l ++ rest) with (kept ++ todo ++ rest) by (by rewrite El, <- app_assoc). rewrite Ep. cbn [mbind option_bind]. clear Ep.
  assert (zlen (live_part todo) <= zlen todo). { unfold zlen, live_part. pose proof (length_filter (fun x => live x = true) todo). lia. }
  assert (live_part l = kept ++ live_part todo) as Elive. { rewrite El. unfold live_part in *. by rewrite filter_app, Hkept. }
  assert (zlen l = zlen kept + zlen todo) as Ell by (subst l; zlia). zlen_pos.
  rewrite pnl_setsize_cells by zlia. cbn [mbind option_bind]. eexists. split; [done|]. split; [|done]. apply Hmk; [|done].
  exists len, (gap ++ rest). rewrite Elive. cbn [sp_list]. split_and!; [f_equal; f_equal; zlia|zlia|zlia|].
  apply (f_equal zlen) in Es. zlia.
Qed.

(** ** The self-check and the limits *)

Lemma check_odd_loop_spec s l : spill_rep s l -> forall (n : nat) i, 1 <= i -> i + Z.of_nat n <= Z.min (least_removed s) (zlen l + 1) ->
  check_odd_loop n (sp_list s) i = Some true.
Proof.
  intros Hr. induction n as [|n IH]; intros i Hi Hn; cbn [check_odd_loop]; [done|].
  rewrite (pnl_rep_at _ _ _ (sr_list _ _ Hr)) by lia. destruct (zget_in l (i - 1)) as (x & Hx); [lia|].
  rewrite Hx. cbn [mbind option_bind]. rewrite land_1_live, (sr_even _ _ Hr _ _ Hx) by lia. cbn. apply IH; lia.
Qed.

Lemma spill_check_odd_spec s l : spill_rep s l -> spill_check_odd s = Some true.
Proof.
  intros Hr. pose proof (sr_least _ _ Hr). pose proof (sr_len _ _ Hr). unfold INT_MAX32 in *. unfold spill_check_odd.
  rewrite (pnl_rep_size _ _ (sr_list _ _ Hr)). cbn [mbind option_bind]. rewrite u64_small by (unfold UINT64_MAX; lia).
  apply (check_odd_loop_spec s l Hr); [lia|]. unfold min_unsigned. zlen_pos. zcase; lia.
Qed.

(** The amount is at least one and at most everything, whatever is asked for. *)
Lemma spill_gate_bounds dmin dmax part total : 0 <= dmin <= 255 -> 0 <= dmax <= 255 -> 0 < total <= PAGELIST_LIMIT ->
  1 <= spill_gate dmin dmax part total <= total.
Proof.
  intros Hmin Hmax Ht. unfold spill_gate. cbv zeta.
  assert (0 <= (if dmax =? 0 then 0 else total / dmax) <= total).
  { destruct (Z.eqb_spec dmax 0); [lia|]. split; [apply Z.div_pos; lia|]. apply Z.div_le_upper_bound; nia. }
  assert (1 <= (if dmin =? 0 then 1 else (total + dmin - 1) / dmin) <= total).
  { destruct (Z.eqb_spec dmin 0); [lia|]. split; [apply Z.div_le_lower_bound; lia|].
    enough ((total + dmin - 1) / dmin < total + 1) by lia. apply Z.div_lt_upper_bound; nia. }
  repeat zcase; lia.
Qed.

(** ** Theorem *)

(** C23: The list of spilled pages is a set of pages, with removals marked and
    purged later. Searching finds a page exactly if it is spilled; removing at
    the found index takes out that page and the unbroken run of pages after it
    up to the given number, and no other page; purging drops the marks and
    keeps the set. The invariant is kept and the self-check of the sources
    holds of every list that satisfies it. *)
Theorem spill_list_refines cm s l pgno npages : spill_rep s l -> 0 <= pgno <= MAX_PAGENO -> 0 < npages ->
  (exists n, spill_search cm (Some s) pgno = Some n /\ (n <> 0 <-> spilled_page l pgno) /\
    (n <> 0 -> exists s' l', spill_remove s n npages = Some s' /\ spill_rep s' l' /\
      (forall q, spilled_page l' q <-> spilled_page l q /\ ~ removed_run l pgno npages q))) /\
  (exists s', spill_purge s = Some s' /\ spill_rep s' (live_part l) /\ forall q, spilled_page (live_part l) q <-> spilled_page l q) /\
  spill_check_odd s = Some true.
Proof.
  intros Hr Hp Hn. split_and!; [| |by eapply spill_check_odd_spec].
  - destruct (spill_search_spec cm s l pgno Hr Hp) as (n & E & Hb & Hyes & Hno). exists n. split_and!; [done| |].
    + split; [intros H; eapply zget_elem; by apply Hyes|]. intros H ->. by apply Hno in H.
    + intros H. destruct (spill_remove_spec s l n (2 * pgno) npages Hr (Hyes H) Hn) as (s' & l' & H').
      exists s', l'. by rewrite spage_double in H'.
  - destruct (spill_purge_spec s l Hr) as (s' & E & Hr' & _). exists s'. split_and!; [done|done|]. apply live_part_pages.
Qed.

(** Pages 9, 8, 7 and 4 with 4 removed, then 7 and the page behind it. *)
Definition sample_spilled : spilled := mk_spilled 4 (sample_pnl [18; 16; 14; 9] 8).

Lemma sample_spilled_rep : spill_rep sample_spilled [18; 16; 14; 9].
Proof.
  split.
  - by apply sample_pnl_rep.
  - vm_compute. repeat constructor.
  - repeat constructor; lia.
  - by vm_compute.
  - by vm_compute.
  - right. by vm_compute.
  - intros i x Hx Hi. pose proof (zget_range _ _ _ Hx) as Hb. cbn in Hi.
    assert (i = 0 \/ i = 1 \/ i = 2) as [-> | [-> | ->]] by lia; injection Hx as <-; reflexivity.
Qed.

Lemma spill_list_refines_witness :
  (exists n, spill_search true (Some sample_spilled) 7 = Some n /\ n = 3) /\
  (s ← spill_remove sample_spilled 3 2; s ← spill_purge s; pnl_at (sp_list s) 1) = Some 18 /\
  spill_check_odd sample_spilled = Some true.
Proof.
  destruct (spill_list_refines true sample_spilled [18; 16; 14; 9] 7 2 sample_spilled_rep) as (H1 & _ & H3);
    [by vm_compute|lia|].
  split; [|split; [vm_compute; reflexivity|exact H3]]. destruct H1 as (n & E & _). exists n. split; [done|].
  assert (spill_search true (Some sample_spilled) 7 = Some 3) as E' by (vm_compute; reflexivity). congruence.
Defined.

(** [spill_intersect] also answers yes when the only elements in the range are
    marked as removed, and no page of the range is found by [spill_search],
    unlike what its self-check expects. *)
Lemma spill_intersect_counts_removed :
  spill_intersect true (Some sample_spilled) 4 1 = Some true /\ spill_search true (Some sample_spilled) 4 = Some 0.
Proof. split; vm_compute; reflexivity. Qed.
