(* ===== verification/PageGet.v ===== *)
(** * Finding the current version of a page ([page_get_unchecked] of
    [src/src/page-get.c])

    A page is looked up along the chain of a nested transaction and its
    parents: a spilled version is in the map again, a dirty one is a copy that
    the dirty-page list refers to, and without either the page of the map is the
    current one. *)

From stdpp Require Import base numbers option list.
From Stdlib Require Import ZArith Lia.
From S2P Require Import Prelude Search SortNet Bits Alloc Pnl PnlOrder Dpl DplProofs Bytes Cmp Page Node NodeProofs TreeSearch Cogs PageCheck PageCheckProofs Spill.

(** One transaction of the chain: the flags [MDBX_TXN_SPILLS] and
    [MDBX_TXN_DIRTY], the list of spilled pages and the dirty-page list. *)
Record gtxn : Type := mk_gtxn {
  gt_spills : bool;
  gt_dirty : bool;
  gt_spilled : option spilled;
  gt_dirtylist : dpl;
}.

Definition with_dl (t : gtxn) (dl : dpl) : gtxn := mk_gtxn (gt_spills t) (gt_dirty t) (gt_spilled t) dl.

Section Get.
(** [MDBX_HAVE_CMOV], and the map: its base address and the page size. *)
Context (cm : bool) (base ps : Z).

Definition pgno2page (pgno : Z) : Z := base + pgno * ps.

(** The loop over the transaction and its parents, and the chain with the lists
    that the search may have sorted. *)
Fixpoint get_version (chain : list gtxn) (pgno : Z) : option (Z * list gtxn) :=
match chain with
| [] => Some (pgno2page pgno, [])
| spiller :: parents =>
  n ← (if gt_spills spiller then spill_search cm (gt_spilled spiller) pgno else Some 0);
  if negb (n =? 0) then Some (pgno2page pgno, chain)
  else
    '(found, spiller) ←
      (if gt_dirty spiller then
         '(i, dl) ← txn_dpl_search cm (gt_dirtylist spiller) pgno;
         x ← zget (dl_items dl) i;
         Some (if dp_pgno x =? pgno then Some (dp_ptr x) else None, with_dl spiller dl)
       else Some (None, spiller));
    match (found : option Z) with
    | Some p => Some (p, spiller :: parents)
    | None => '(p, parents) ← get_version parents pgno; Some (p, spiller :: parents)
    end
end.

(** [ro_or_writemap] is [txn->flags & (txn_ro_flat | MDBX_WRITEMAP)], [mem] the
    page at an address. The page is returned next to the error code, if there
    is one. *)
Definition page_get_unchecked (ro_or_writemap : bool) (mem : Z -> page) (chain : list gtxn) (first_unallocated pgno : Z) :
  option (rc * option Z * list gtxn) :=
if first_unallocated <=? pgno then Some (MDBX_PAGE_NOTFOUND, None, chain)
else
  '(p, chain) ← (if ro_or_writemap then Some (pgno2page pgno, chain) else get_version chain pgno);
  Some (if negb (pg_pgno (mem p) =? pgno) then MDBX_CORRUPTED else MDBX_SUCCESS, Some p, chain).

(** The call with its [pgno_t] argument: the page and its distance from the
    start of the map, as the checks take them. *)
Definition page_finder (ro_or_writemap : bool) (mem : Z -> page) (chain : list gtxn) (first_unallocated pgno : Z) :
  option (rc * option (page * Z)) :=
'(e, p, _) ← page_get_unchecked ro_or_writemap mem chain first_unallocated (u32 pgno);
Some (e, (fun p => (mem p, p - base)) <$> (p : option Z)).
End Get.

(** ** The chain as versions of pages *)

(** What a transaction knows of pages: the spilled ones and the dirty ones. *)
Record layer : Type := mk_layer { ly_spilled : list Z; ly_dirty : list dp }.

Definition layer_ok (t : gtxn) (y : layer) : Prop :=
  (if gt_spills t then exists s, gt_spilled t = Some s /\ spill_rep s (ly_spilled y) else ly_spilled y = []) /\
  (if gt_dirty t then dpl_ok (gt_dirtylist t) (ly_dirty y) else ly_dirty y = []).

Definition chain_layers (chain : list gtxn) (ys : list layer) : Prop := Forall2 layer_ok chain ys.

(** The address [p] is that of the nearest version of the page. *)
Inductive nearest (base ps pgno : Z) : list layer -> Z -> Prop :=
| nearest_map : nearest base ps pgno [] (pgno2page base ps pgno)
| nearest_spilled y ys : spilled_page (ly_spilled y) pgno -> nearest base ps pgno (y :: ys) (pgno2page base ps pgno)
| nearest_dirty y ys x : ~ spilled_page (ly_spilled y) pgno -> x ∈ ly_dirty y -> dp_pgno x = pgno ->
    nearest base ps pgno (y :: ys) (dp_ptr x)
| nearest_parent y ys p : ~ spilled_page (ly_spilled y) pgno -> (forall x, x ∈ ly_dirty y -> dp_pgno x <> pgno) ->
    nearest base ps pgno ys p -> nearest base ps pgno (y :: ys) p.

(** The same pages in each layer; the dirty ones maybe in another order. *)
Definition same_layer (y z : layer) : Prop := ly_spilled y = ly_spilled z /\ ly_dirty y ≡ₚ ly_dirty z.

Definition layer_nodup (y : layer) : Prop := NoDup (dp_pgno <$> ly_dirty y).

Lemma layer_ok_nodup t y : layer_ok t y -> layer_nodup y.
Proof.
  intros [_ H]. unfold layer_nodup. destruct (gt_dirty t); [apply (dok_nodup _ _ H)|rewrite H; constructor].
Qed.

#[export] Instance same_layer_equiv : Equivalence same_layer.
Proof.
  split; unfold same_layer.
  - by intros y.
  - intros y z [-> ?]. by split.
  - intros x y z [-> ?] [-> ?]. split; [done|by etrans].
Qed.

Lemma Forall2_refl_layer ys : Forall2 same_layer ys ys.
Proof. by induction ys; constructor. Qed.

Lemma nearest_same base ps pgno ys zs p : Forall2 same_layer ys zs -> nearest base ps pgno ys p -> nearest base ps pgno zs p.
Proof.
  intros Hs Hn. revert zs Hs. induction Hn as [|y ys Hsp|y ys x Hsp Hx Ex|y ys p Hsp Hno Hn IH]; intros zs Hs.
  - inversion Hs. constructor.
  - inversion Hs as [|? z ? zs' [Es Ed] Hzs]; subst. constructor. by rewrite <- Es.
  - inversion Hs as [|? z ? zs' [Es Ed] Hzs]; subst. apply nearest_dirty; [by rewrite <- Es|by rewrite <- Ed|done].
  - inversion Hs as [|? z ? zs' [Es Ed] Hzs]; subst. apply nearest_parent; [by rewrite <- Es| |by apply IH].
    intros x Hx. apply Hno. by rewrite Ed.
Qed.

(** There is one nearest version. *)
Lemma nearest_unique base ps pgno ys p q : Forall layer_nodup ys -> nearest base ps pgno ys p -> nearest base ps pgno ys q -> p = q.
Proof.
  intros Hnd Hp. revert q. induction Hp as [|y ys Hsp|y ys x Hsp Hx Ex|y ys p Hsp Hno Hn IH]; intros q Hq;
    inversion Hq as [|? ? Hsp'|? ? x' Hsp' Hx' Ex'|? ? ? Hsp' Hno' Hn']; subst; try done.
  - apply Forall_cons in Hnd as [Hnd _]. f_equal. by apply (dp_nodup_eq (ly_dirty y)).
  - by apply Hno' in Hx.
  - by apply Hno in Hx'.
  - apply Forall_cons in Hnd as [_ Hnd]. by apply IH.
Qed.

(** ** The lookup *)

Section Lookup.
Context (cm : bool) (base ps : Z).

Lemma spilled_lookup t y pgno : layer_ok t y -> 0 <= pgno <= MAX_PAGENO ->
  exists n, (if gt_spills t then spill_search cm (gt_spilled t) pgno else Some 0) = Some n /\
    (n <> 0 <-> spilled_page (ly_spilled y) pgno).
Proof using.
  intros [Hs _] Hp. destruct (gt_spills t).
  - destruct Hs as (s & -> & Hr). destruct (spill_search_spec cm s _ pgno Hr Hp) as (n & E & Hb & Hyes & Hno).
    exists n. split; [done|]. split; [intros H; eapply zget_elem; by apply Hyes|]. intros H ->. by apply Hno in H.
  - exists 0. rewrite Hs. split; [done|]. split; [done|]. unfold spilled_page. by intros ?%elem_of_nil.
Qed.

Lemma dirty_lookup t y pgno : layer_ok t y -> 0 <= pgno <= MAX_PAGENO ->
  exists found t' y', (if gt_dirty t then
      '(i, dl) ← txn_dpl_search cm (gt_dirtylist t) pgno;
      x ← zget (dl_items dl) i;
      Some (if dp_pgno x =? pgno then Some (dp_ptr x) else None, with_dl t dl)
    else Some (None, t)) = Some (found, t') /\ layer_ok t' y' /\ same_layer y y' /\
    match found with
    | Some p => exists x, x ∈ ly_dirty y /\ dp_pgno x = pgno /\ dp_ptr x = p
    | None => forall x, x ∈ ly_dirty y -> dp_pgno x <> pgno
    end.
Proof using.
  intros [Hs Hd] Hp. destruct (gt_dirty t) eqn:Et.
  - destruct (txn_dpl_exist_found cm _ _ pgno Hd) as (i & dl & l & x & E & Ex & Hok & HP & Hx).
    { unfold MAX_PAGENO, P_INVALID, UINT32_MAX in *. lia. }
    rewrite E. cbn [mbind option_bind]. rewrite Ex. cbn [mbind option_bind].
    exists (if dp_pgno x =? pgno then Some (dp_ptr x) else None), (with_dl t dl), (mk_layer (ly_spilled y) l).
    split; [done|]. split; [|split].
    + split; [exact Hs|]. cbn. by rewrite Et.
    + by split.
    + destruct (Z.eqb_spec (dp_pgno x) pgno) as [E1|E1]; destruct Hx as [(? & Hx & _)|(? & Hx)]; try done. by exists x.
  - exists None, t, y. split; [done|]. split; [split; [done|by rewrite Et]|]. split; [done|]. rewrite Hd. by intros x ?%elem_of_nil.
Qed.

Lemma get_version_spec pgno : 0 <= pgno <= MAX_PAGENO -> forall chain ys, chain_layers chain ys ->
  exists p chain' ys', get_version cm base ps chain pgno = Some (p, chain') /\ nearest base ps pgno ys p /\
    chain_layers chain' ys' /\ Forall2 same_layer ys ys'.
Proof.
  intros Hp. induction chain as [|t chain IH]; intros ys Hys; inversion Hys as [|? y ? ys' Hy Hys']; subst; cbn [get_version].
  { eexists _, [], []. split_and!; [done|constructor..]. }
  destruct (spilled_lookup t y pgno Hy Hp) as (n & -> & Hn). cbn [mbind option_bind].
  destruct (Z.eqb_spec n 0) as [E0|E0]; cbn [negb].
  2:{ eexists _, _, (y :: ys'). split_and!; [done|by apply nearest_spilled, Hn|done|]. by apply Forall2_refl_layer. }
  assert (~ spilled_page (ly_spilled y) pgno) as Hns by (intros H; by apply Hn in H).
  destruct (dirty_lookup t y pgno Hy Hp) as (found & t' & y' & -> & Hy' & Hsame & Hf). cbn [mbind option_bind].
  destruct found as [p|].
  - destruct Hf as (x & Hx & Ex & <-). eexists _, _, (y' :: ys'). split_and!; [done|by apply nearest_dirty|by constructor|].
    constructor; [done|]. by apply Forall2_refl_layer.
  - destruct (IH ys' Hys') as (p & chain' & ys2 & -> & Hnear & Hl & Hs). cbn [mbind option_bind].
    eexists _, _, (y' :: ys2). split_and!; [done|by apply nearest_parent|by constructor|by constructor].
Qed.
End Lookup.

(** ** The validated page *)

Record mem_page_ok (mc : kcursor) (mp : page) : Prop := {
  mp_bytes : Forall is_byte (pg_body mp);
  mp_size : zlen (pg_body mp) = page_space (kc_env mc);
  mp_lower : 0 <= pg_lower mp;
  mp_ksize : 0 <= pg_dupfix_ksize mp < 65536;
}.

(** The address of the page for the transaction. *)
Definition current (base ps : Z) (ro_or_writemap : bool) (ys : list layer) (pgno p : Z) : Prop :=
if ro_or_writemap then p = pgno2page base ps pgno else nearest base ps pgno ys p.

Section Validated.
Context (cm : bool) (base ps : Z) (ro : bool) (mem : Z -> page) (chain : list gtxn) (ys : list layer) (first_unallocated : Z).
Context (Hchain : chain_layers chain ys) (Hfu : first_unallocated <= MAX_PAGENO + 1).

Lemma page_get_unchecked_spec pgno : 0 <= pgno -> exists e p chain' ys',
  page_get_unchecked cm base ps ro mem chain first_unallocated pgno = Some (e, p, chain') /\
  chain_layers chain' ys' /\ Forall2 same_layer ys ys' /\
  (if first_unallocated <=? pgno then e = MDBX_PAGE_NOTFOUND /\ p = None
   else exists a, p = Some a /\ current base ps ro ys pgno a /\
     e = if pg_pgno (mem a) =? pgno then MDBX_SUCCESS else MDBX_CORRUPTED).
Proof using Hchain Hfu.
  intros Hp. unfold page_get_unchecked. destruct (Z.leb_spec first_unallocated pgno) as [Hf|Hf].
  { exists MDBX_PAGE_NOTFOUND, None, chain, ys. split_and!; [done|done|by apply Forall2_refl_layer|done|done]. }
  unfold current. destruct ro.
  - cbn [mbind option_bind]. eexists _, _, chain, ys. split; [done|]. split; [done|]. split; [by apply Forall2_refl_layer|].
    eexists. split; [done|]. split; [done|]. by destruct (_ =? _).
  - destruct (get_version_spec cm base ps pgno ltac:(lia) chain ys Hchain) as (p & chain' & ys' & -> & Hn & Hc & Hs).
    cbn [mbind option_bind]. eexists _, _, chain', ys'. split; [done|]. split; [done|]. split; [done|].
    eexists. split; [done|]. split; [done|]. by destruct (_ =? _).
Qed.

Lemma page_finder_finds : finds (page_finder cm base ps ro mem chain first_unallocated).
Proof using Hchain Hfu.
  intros pgno. unfold page_finder. assert (0 <= u32 pgno) as Hp by (apply wrap_range; lia).
  destruct (page_get_unchecked_spec (u32 pgno) Hp) as (e & p & chain' & ys' & -> & _ & _ & H). cbn [mbind option_bind].
  eexists. split; [done|]. destruct (first_unallocated <=? u32 pgno); [by destruct H as [-> ->]|].
  by destruct H as (a & -> & _).
Qed.
End Validated.

(** C9: Fetching a page with full validation, through the dirty and spilled pages
    of the transaction and its parents. A page number beyond the allocated
    pages is refused. Otherwise the page is that of the nearest transaction of
    the chain that has it dirty or spilled, or that of the map; a page with
    another number in its header is corrupted. If no node of the page holds a
    sub-page, the validation reads nothing outside the page and returns; if the
    result is success, the header is in bounds, every node or item with its key
    and data lies inside the page (a sub-page and its items inside their node),
    branch nodes refer to pages of the database, and the keys are in strictly
    ascending order under the table's comparator. A failure marks the
    transaction. *)
Theorem page_get_validates uok cm base ps ro mem chain ys first_unallocated mc pgno front :
  chain_layers chain ys -> first_unallocated <= MAX_PAGENO + 1 -> 0 <= pgno <= UINT32_MAX ->
  has (kc_checking mc) z_pagecheck = true -> cmp_total (clc_cmp (kc_k mc)) -> (forall p, mem_page_ok mc (mem p)) ->
  let get := page_get_three uok (page_finder cm base ps ro mem chain first_unallocated) mc pgno front in
  (first_unallocated <= pgno -> get = Some (mk_pgr MDBX_PAGE_NOTFOUND None true mc)) /\
  (pgno < first_unallocated -> exists p, current base ps ro ys pgno p /\
    (pg_pgno (mem p) <> pgno -> get = Some (mk_pgr MDBX_CORRUPTED (Some (mem p)) true mc)) /\
    (pg_pgno (mem p) = pgno ->
      (no_subpages (mem p) -> is_Some get) /\
      (forall r, get = Some r -> pgr_page r = Some (mem p) /\ pgr_failed r = negb (bool_decide (pgr_err r = MDBX_SUCCESS)) /\
         (pgr_err r = MDBX_SUCCESS -> page_checked uok mc (mem p))))).
Proof.
  intros Hchain Hfu Hp Hck Hcmp Hmem get. assert (u32 pgno = pgno) as Eu by (by apply u32_small).
  pose proof (page_finder_finds cm base ps ro mem chain ys first_unallocated Hchain Hfu) as Hfinds.
  destruct (page_get_unchecked_spec cm base ps ro mem chain ys first_unallocated Hchain Hfu pgno) as (e & p & chain' & ys' & E & _ & _ & H);
    [lia|].
  assert (page_finder cm base ps ro mem chain first_unallocated pgno = Some (e, (fun p => (mem p, p - base)) <$> p)) as Ef.
  { unfold page_finder. by rewrite Eu, E. }
  destruct (Z.leb_spec first_unallocated pgno) as [Hf|Hf]; (split; [intros Hf'|intros Hf']); try lia.
  { destruct H as [-> ->]. subst get. unfold page_get_three, page_get_inline. by rewrite Ef. }
  destruct H as (a & -> & Hcur & ->). exists a. split; [done|]. destruct (Z.eqb_spec (pg_pgno (mem a)) pgno) as [En|En].
  - split; [done|]. intros _. destruct (Hmem a) as [H1 H2 H3 H4]. exact (page_get_sound uok _ mc pgno front (mem a) (a - base) Hfinds Ef Hck Hcmp H1 H2 H3 H4).
  - split; [|done]. intros _. subst get. unfold page_get_three, page_get_inline. by rewrite Ef.
Qed.

(** Page 3 is dirty in the parent transaction; the nested one has spilled other
    pages. *)
Definition sample_chain : list gtxn :=
[mk_gtxn true false (Some sample_spilled) sample_dpl; mk_gtxn false true None sample_dpl].
Definition sample_layers : list layer := [mk_layer [18; 16; 14; 9] []; mk_layer [] sample_dps].
Definition dirty_page : page := mk_page 6 0 P_LEAF 2 226 3 (pg_body checked_page).

Lemma page_get_validates_witness :
  exists p r, current 4096 256 false sample_layers 3 p /\
    page_get_three 8 (page_finder true 4096 256 false (fun _ => dirty_page) sample_chain 100) (check_cursor 0) 3 6 = Some r /\
    pgr_err r = MDBX_SUCCESS /\ page_checked 8 (check_cursor 0) dirty_page.
Proof.
  destruct (page_get_validates 8 true 4096 256 false (fun _ => dirty_page) sample_chain sample_layers 100 (check_cursor 0) 3 6)
    as [_ H]; [| | | | | |destruct H as (p & Hp & _ & H); [done|]].
  - constructor; [split; [|done]|constructor; [split; [done|apply sample_dpl_ok]|constructor]].
    exists sample_spilled. split; [done|apply sample_spilled_rep].
  - by vm_compute.
  - by vm_compute.
  - done.
  - by apply builtin_total.
  - intros _. split; [by apply bytes_check|done|done|done].
  - assert (pgr_err <$> page_get_three 8 (page_finder true 4096 256 false (fun _ => dirty_page) sample_chain 100) (check_cursor 0) 3 6
      = Some MDBX_SUCCESS) as E by (vm_compute; reflexivity).
    destruct H as [_ H]; [done|]. destruct (page_get_three _ _ _ _ _) as [r|]; [|discriminate E]. injection E as E.
    exists p, r. split; [done|]. split; [done|]. split; [done|]. by apply (H r).
Defined.
