(* ===== verification/Cursor.v ===== *)
(** * Cursors: descent and traversal ([src/src/cursor-nav.c], [cursor.h],
      [tree-search.c])

    A cursor is a stack of pages from the root of a tree to a leaf, with an index
    into every page. Modelled is the cursor without a nested one, that is, the
    instances of the templates [cursor_bring], [cursor_brim] and [cursor_step]
    for [inner == true] ([inner_first], [inner_last], [inner_next],
    [inner_prev]); the functions under them, [tree_search], [tree_deepen_edge],
    [cursor_sibling_left] and [cursor_sibling_right], are those of every cursor.
    [tree_search] is that for reading (without [Z_MODIFY]). *)

From stdpp Require Import base numbers option list.
From Stdlib Require Import ZArith Lia.
From S2P Require Import Prelude Bits Alloc Pnl Dpl Bytes Cmp Page.

(** The states of a cursor; the field is signed. *)
Definition z_inner : Z := 0x01.
Definition z_gcu_preparation : Z := 0x02.
Definition z_fresh : Z := 0x04.
Definition z_after_delete : Z := 0x08.
Definition z_disable_tree_search_fastpath : Z := 0x10.
Definition z_eof_soft : Z := 0x20.
Definition z_eof_hard : Z := 0x40.
Definition z_hollow : Z := -128.
Definition z_clear_mask : Z := Z.lor z_inner z_gcu_preparation.
Definition z_poor_mark : Z := Z.lor z_eof_hard (Z.lor z_hollow z_disable_tree_search_fastpath).

(** The bits of [checking] that [check_leaf_type] compares. *)
Definition z_leaf_type : Z := Z.lor P_BRANCH (Z.lor P_LEAF (Z.lor P_LARGE P_DUPFIX)).

Record cursor : Type := mk_cursor {
  cu_flags : Z;
  cu_top : Z;
  cu_stash : Z;
  cu_root : Z;
  cu_pg : list page;
  cu_ki : list Z;
  cu_txn_error : bool;
}.

Definition cu_state (c : cursor) (flags top stash : Z) : cursor :=
mk_cursor flags top stash (cu_root c) (cu_pg c) (cu_ki c) (cu_txn_error c).
Definition cu_set_flags (c : cursor) (flags : Z) : cursor := cu_state c flags (cu_top c) (cu_stash c).
Definition cu_set_top (c : cursor) (top stash : Z) : cursor := cu_state c (cu_flags c) top stash.

(** The page and the index on top of the stack. *)
Definition cu_page (c : cursor) : option page := zget (cu_pg c) (cu_top c).
Definition cu_index (c : cursor) : option Z := zget (cu_ki c) (cu_top c).

Definition cu_put_index (c : cursor) (ki : Z) : option cursor :=
l ← zset (cu_ki c) (cu_top c) (u16 ki);
Some (mk_cursor (cu_flags c) (cu_top c) (cu_stash c) (cu_root c) (cu_pg c) l (cu_txn_error c)).

(** [combo_state = z_inner | z_poor_mark] sets all three fields. *)
Definition be_poor (c : cursor) : cursor :=
mk_cursor (Z.lor z_inner z_poor_mark) (-1) (-1) 0 (cu_pg c) (cu_ki c) (cu_txn_error c).
Definition be_filled (c : cursor) : cursor := cu_set_flags c (Z.land (cu_flags c) z_clear_mask).
Definition is_poor (c : cursor) : bool := cu_top c <? 0.

Definition cursor_push (c : cursor) (mp : page) (ki : Z) : option (rc * cursor) :=
let new_top := cu_top c + 1 in
if CURSOR_STACK_SIZE <=? new_top then
  let c := be_poor c in
  Some (MDBX_CURSOR_FULL, mk_cursor (cu_flags c) (cu_top c) (cu_stash c) (cu_root c) (cu_pg c) (cu_ki c) true)
else
  pg ← zset (cu_pg c) new_top mp;
  ki ← zset (cu_ki c) new_top (u16 ki);
  Some (MDBX_SUCCESS, mk_cursor (cu_flags c) new_top 0 (cu_root c) pg ki (cu_txn_error c)).

Definition cursor_enroot (c : cursor) (step : Z) : cursor := cu_set_top c (cu_top c - step) (cu_stash c + step).
Definition cursor_undo_enroot (c : cursor) (step : Z) : cursor := cu_set_top c (cu_top c + step) (cu_stash c - step).

Section Navigation.
(** [MDBX_UNALIGNED_OK]; [page_get] for a number and the id of the page that
    refers to it; the expected type of leaf pages; whether the transaction is
    blocked; the outcome of the refresh of a stale table; the id of the root. *)
Context (uok : Z) (page_get : Z -> Z -> option (rc * option page)) (checking : Z).
Context (txn_blocked : bool) (refresh : rc) (root_txnid : Z).

Definition check_leaf_type (mp : page) : bool := Z.land (Z.lxor (page_type mp) checking) z_leaf_type =? 0.

(** The page that the node at the index of the top page refers to. *)
Definition fetch_child (c : cursor) : option (rc * option page) :=
mp ← cu_page c;
ki ← cu_index c;
node ← page_node mp ki;
pgno ← node_pgno uok (pg_body mp) node;
page_get pgno (pg_txnid mp).

(** ** Siblings *)

(** At the end of a level [cursor_sibling_left] and [cursor_sibling_right] stay
    on the page. *)
Definition no_sibling (right : bool) (c : cursor) : option (rc * cursor) :=
mp ← cu_page c;
c ← cu_put_index c (if right then page_numkeys mp - 1 else 0);
Some (MDBX_NOTFOUND, if right then cu_set_flags c (Z.lor z_eof_soft (Z.lor z_eof_hard (Z.land (cu_flags c) z_clear_mask))) else c).

(** [sibling] with what [cursor_sibling_left] and [cursor_sibling_right] do for
    the parent; the fuel is the depth of the stack. *)
Fixpoint cursor_sibling (fuel : nat) (right : bool) (c : cursor) : option (rc * cursor) :=
if cu_top c <? 1 then no_sibling right c
else
  let c := cursor_enroot c 1 in
  mp ← cu_page c;
  ki ← cu_index c;
  '(err, c) ←
    (if (if right then page_numkeys mp <=? ki + 1 else ki =? 0) then
       match fuel with O => None | S fuel => cursor_sibling fuel right c end
     else c ← cu_put_index c (if right then ki + 1 else ki - 1); Some (MDBX_SUCCESS, c));
  match (err : rc) with
  | MDBX_SUCCESS =>
    '(err, mp) ← fetch_child c;
    match (err : rc), (mp : option page) with
    | MDBX_SUCCESS, Some mp =>
      '(err, c) ← cursor_push c mp (if right then 0 else page_numkeys mp - 1);
      Some (err, if decide (err = MDBX_SUCCESS) then c else be_poor c)
    | MDBX_SUCCESS, None => None
    | err, _ => Some (err, be_poor c)
    end
  | MDBX_NOTFOUND => no_sibling right (cursor_undo_enroot c 1)
  | err => Some (err, be_poor c)
  end.

Definition cursor_sibling_left (c : cursor) : option (rc * cursor) := cursor_sibling (Z.to_nat (cu_top c)) false c.
Definition cursor_sibling_right (c : cursor) : option (rc * cursor) := cursor_sibling (Z.to_nat (cu_top c)) true c.

(** ** Descent *)

Fixpoint deepen_loop (fuel : nat) (first : bool) (c : cursor) : option (rc * cursor) :=
mp ← cu_page c;
if is_branch mp then
  '(err, r) ← fetch_child c;
  match (err : rc), (r : option page) with
  | MDBX_SUCCESS, Some mp =>
    '(err, c) ← cursor_push c mp (if first then 0 else page_numkeys mp - 1);
    if decide (err = MDBX_SUCCESS) then match fuel with O => None | S fuel => deepen_loop fuel first c end
    else Some (err, be_poor c)
  | MDBX_SUCCESS, None => None
  | err, _ => Some (err, be_poor c)
  end
else if check_leaf_type mp then Some (MDBX_SUCCESS, c) else Some (MDBX_CORRUPTED, be_poor c).

(** A stack has no more than [CURSOR_STACK_SIZE] pages. *)
Definition tree_deepen_edge (first : bool) (c : cursor) : option (rc * cursor) :=
deepen_loop (Z.to_nat CURSOR_STACK_SIZE) first c.

Definition tree_deepen_lowest (c : cursor) : option (rc * cursor) :=
mp ← cu_page c;
node ← page_node mp 0;
pgno ← node_pgno uok (pg_body mp) node;
'(err, r) ← page_get pgno (pg_txnid mp);
match (err : rc), (r : option page) with
| MDBX_SUCCESS, Some mp =>
  c ← cu_put_index c 0;
  '(err, c) ← cursor_push c mp 0;
  if decide (err = MDBX_SUCCESS) then tree_deepen_edge true c else Some (err, c)
| MDBX_SUCCESS, None => None
| err, _ => Some (err, c)
end.

(** What is sought: an end of the tree, only the root, or a key, given by the
    choice of the child on every branch page ([tree_search_branch]). *)
Inductive target : Type :=
| Z_FIRST
| Z_LAST
| Z_ROOTONLY
| Z_KEY (tree_search_branch : page -> option Z).

Fixpoint search_loop (fuel : nat) (tree_search_branch : page -> option Z) (c : cursor) : option (rc * cursor) :=
mp ← cu_page c;
if is_branch mp then
  ki ← tree_search_branch mp;
  c ← cu_put_index c ki;
  '(err, r) ← fetch_child c;
  match (err : rc), (r : option page) with
  | MDBX_SUCCESS, Some mp =>
    '(err, c) ← cursor_push c mp 0;
    if decide (err = MDBX_SUCCESS) then match fuel with O => None | S fuel => search_loop fuel tree_search_branch c end
    else Some (err, be_poor c)
  | MDBX_SUCCESS, None => None
  | err, _ => Some (err, be_poor c)
  end
else if check_leaf_type mp then Some (MDBX_SUCCESS, c) else Some (MDBX_CORRUPTED, be_poor c).

Definition tree_search (c : cursor) (what : target) : option (rc * cursor) :=
if txn_blocked then Some (MDBX_BAD_TXN, be_poor c)
else if negb (bool_decide (refresh = MDBX_SUCCESS)) then Some (refresh, be_poor c)
else if cu_root c =? P_INVALID then Some (MDBX_NOTFOUND, c)
else
  same ← (if cu_top c <? 0 then Some false else mp ← zget (cu_pg c) 0; Some (pg_pgno mp =? cu_root c));
  '(err, r) ← (if (same : bool) then mp ← zget (cu_pg c) 0; Some (MDBX_SUCCESS, Some mp) else page_get (cu_root c) root_txnid);
  match (err : rc), (r : option page) with
  | MDBX_SUCCESS, Some mp =>
    pg ← zset (cu_pg c) 0 mp;
    ki ← zset (cu_ki c) 0 (match what with Z_LAST => u16 (page_numkeys mp - 1) | _ => 0 end);
    let c := mk_cursor (cu_flags c) 0 0 (cu_root c) pg ki (cu_txn_error c) in
    match what with
    | Z_ROOTONLY => Some (MDBX_SUCCESS, c)
    | Z_FIRST => tree_deepen_edge true c
    | Z_LAST => tree_deepen_edge false c
    | Z_KEY tree_search_branch => search_loop (Z.to_nat CURSOR_STACK_SIZE) tree_search_branch c
    end
  | MDBX_SUCCESS, None => None
  | err, _ => Some (err, be_poor c)
  end.

(** ** Landing on an item *)

(** The item at an index of a leaf page. *)
Definition leaf_item (mp : page) (ki : Z) : option MDBX_val :=
if is_dupfix_leaf mp then Some (mk_val (pg_body mp) (page_dupfix_ptr mp ki (pg_dupfix_ksize mp)) (pg_dupfix_ksize mp))
else node ← page_node mp ki; get_key uok (pg_body mp) node.

Definition cursor_bring (c : cursor) (eof : bool) : option (rc * cursor * option MDBX_val) :=
mp ← cu_page c;
if negb (check_leaf_type mp) then Some (MDBX_CORRUPTED, c, None)
else
  ki ← cu_index c;
  key ← leaf_item mp ki;
  let c := be_filled c in
  Some (MDBX_SUCCESS, if eof then cu_set_flags c (Z.lor (cu_flags c) z_eof_soft) else c, Some key).

Definition cursor_brim (tend2first : bool) (c : cursor) : option (rc * cursor * option MDBX_val) :=
'(err, c) ← (if negb (cu_top c =? 0) then tree_search c (if tend2first then Z_FIRST else Z_LAST) else Some (MDBX_SUCCESS, c));
if negb (bool_decide (err = MDBX_SUCCESS)) then Some (err, c, None)
else
  mp ← cu_page c;
  c ← cu_put_index c (if tend2first then 0 else page_numkeys mp - 1);
  cursor_bring c (negb tend2first).

Definition inner_first (c : cursor) : option (rc * cursor * option MDBX_val) := cursor_brim true c.
Definition inner_last (c : cursor) : option (rc * cursor * option MDBX_val) := cursor_brim false c.

(** ** Steps *)

Definition cursor_move (forward : bool) (c : cursor) (ki nkeys : Z) : option (rc * cursor * option MDBX_val) :=
let next := if forward then ki + 1 else ki - 1 in
'(err, c) ←
  (if (if forward then next <? nkeys else 0 <=? next) then c ← cu_put_index c next; Some (MDBX_SUCCESS, c)
   else if forward then cursor_sibling_right c else cursor_sibling_left c);
if negb (bool_decide (err = MDBX_SUCCESS)) then Some (err, c, None) else cursor_bring c false.

Definition cursor_step (forward : bool) (c : cursor) : option (rc * cursor * option MDBX_val) :=
if is_poor c then
  if has (cu_flags c) z_fresh then (if forward then inner_first c else inner_last c)
  else Some (if has (cu_flags c) z_after_delete then MDBX_NOTFOUND else MDBX_ENODATA, cu_set_flags c (Z.lor z_inner z_poor_mark), None)
else
  mp ← cu_page c;
  ki ← cu_index c;
  let nkeys := page_numkeys mp in
  let state := Z.land (u8 (cu_flags c)) (Z.lor z_after_delete (Z.lor 0x80 (Z.lor z_eof_hard z_eof_soft))) in
  if state =? 0 then cursor_move forward c ki nkeys
  else if has (cu_flags c) z_hollow then Some (MDBX_ENODATA, c, None)
  else if forward then
    if has state z_after_delete then
      if ki <? nkeys then cursor_bring c false else cursor_move forward c ki nkeys
    else Some (MDBX_NOTFOUND, c, None)
  else if has state z_eof_hard then c ← cu_put_index c (nkeys - 1); cursor_bring c false
  else cursor_move forward c ki nkeys.

Definition inner_next (c : cursor) : option (rc * cursor * option MDBX_val) := cursor_step true c.
Definition inner_prev (c : cursor) : option (rc * cursor * option MDBX_val) := cursor_step false c.

(** ** Predicates *)

Fixpoint on_first_loop (n : nat) (ki : list Z) (i : Z) : option bool :=
match n with
| O => Some true
| S n => k ← zget ki i; if negb (k =? 0) then Some false else on_first_loop n ki (i + 1)
end.

Definition cursor_on_first (c : cursor) : option bool := on_first_loop (Z.to_nat (cu_top c + 1)) (cu_ki c) 0.

Fixpoint on_last_loop (n : nat) (pg : list page) (ki : list Z) (i : Z) : option bool :=
match n with
| O => Some true
| S n =>
  mp ← zget pg i;
  k ← zget ki i;
  if k <? u64 (page_numkeys mp - 1) then Some false else on_last_loop n pg ki (i + 1)
end.

Definition cursor_on_last (c : cursor) : option bool := on_last_loop (Z.to_nat (cu_top c + 1)) (cu_pg c) (cu_ki c) 0.
End Navigation.
