(* ===== verification/CursorProofs.v ===== *)
(** * Cursors visit a tree in order

    A tree of pages and the order of its pages and items, and that the
    operations of [Cursor] move a cursor along this order: [cursor_sibling] to
    the next page of a level, [inner_next] and [inner_prev] to the next item. *)

From stdpp Require Import base numbers option list.
From Stdlib Require Import ZArith Lia.
From S2P Require Import Prelude Bits Alloc Pnl Dpl Bytes Cmp Page Cursor.

(** ** Trees *)

Inductive tree : Type :=
| Leaf (p : page)
| Branch (p : page) (cs : list tree).

Definition root_page (t : tree) : page := match t with Leaf p => p | Branch p _ => p end.

(** The way to a page: the pages above it with the indices that lead down. *)
Notation path := (list (page * Z)).

Definition kids (x : path * tree) : list (path * tree) :=
match x with
| (_, Leaf _) => []
| (w, Branch p cs) => imap (fun i c => (w ++ [(p, Z.of_nat i)], c)) cs
end.

(** The subtrees at a depth, from left to right. *)
Fixpoint level (d : nat) (t : tree) : list (path * tree) :=
match d with
| O => [([], t)]
| S d => level d t ≫= kids
end.

(** The items of a leaf page, and of a tree of height [h]. *)
Definition page_items (x : path * tree) : list (path * page * Z) :=
(fun k => (x.1, root_page x.2, k)) <$> seqZ 0 (page_numkeys (root_page x.2)).

Definition tree_items (h : nat) (t : tree) : list (path * page * Z) := level h t ≫= page_items.

(** ** Decompositions *)

(** A place in a concatenation lies in one of its parts. *)
Lemma bind_split {A B} (f : A -> list B) l U x V : l ≫= f = U ++ x :: V ->
  exists l1 y l2 u v, l = l1 ++ y :: l2 /\ f y = u ++ x :: v /\ U = (l1 ≫= f) ++ u /\ V = v ++ (l2 ≫= f).
Proof.
  revert U. induction l as [|y l IH]; intros U H; cbn in H; [by destruct U|].
  destruct (decide (length U < length (f y))%nat) as [Hl|Hl].
  - exists [], y, l, U, (drop (S (length U)) (f y)). split; [done|].
    assert (f y = U ++ x :: drop (S (length U)) (f y)) as E.
    { rewrite <- (take_drop (length U) (f y)) at 1. f_equal.
      - rewrite <- (take_app_le (f y) (l ≫= f)) by lia. by rewrite H, take_app_length.
      - apply drop_S. rewrite <- (lookup_app_l (f y) (l ≫= f)) by lia. rewrite H. by apply list_lookup_middle. }
    split; [done|]. split; [done|]. rewrite E in H. rewrite <- app_assoc in H. apply app_inv_head in H. by injection H.
  - assert (U = f y ++ drop (length (f y)) U) as EU.
    { rewrite <- (take_drop (length (f y)) U) at 1. f_equal.
      rewrite <- (take_app_le U (x :: V)) by lia. by rewrite <- H, take_app_length. }
    rewrite EU, <- app_assoc in H. apply app_inv_head in H.
    destruct (IH _ H) as (l1 & z & l2 & u & v & -> & E & E1 & ->).
    exists (y :: l1), z, l2, u, v. split; [done|]. split; [done|]. split; [|done]. cbn. rewrite EU, E1. by rewrite app_assoc.
Qed.

Lemma imap_split {A B} (f : nat -> A -> B) l u x v : imap f l = u ++ x :: v ->
  exists a, l !! length u = Some a /\ x = f (length u) a /\ length l = (length u + S (length v))%nat /\
    (forall j, v !! j = f (length u + S j)%nat <$> l !! (length u + S j)%nat) /\
    (forall j, (j < length u)%nat -> u !! j = f j <$> l !! j).
Proof.
  intros H. assert (imap f l !! length u = Some x) as Hx by (rewrite H; by apply list_lookup_middle).
  rewrite list_lookup_imap in Hx. destruct (l !! length u) as [a|] eqn:Ea; [|discriminate Hx]. injection Hx as <-.
  exists a. split; [done|]. split; [done|].
  assert (length (imap f l) = length (u ++ f (length u) a :: v)) as Hl by (by rewrite H).
  rewrite length_imap, length_app in Hl. cbn in Hl. split; [done|]. split.
  - intros j. rewrite <- list_lookup_imap, H. rewrite lookup_app_r by lia.
    replace (length u + S j - length u)%nat with (S j) by lia. done.
  - intros j Hj. rewrite <- list_lookup_imap, H. by rewrite lookup_app_l.
Qed.

(** The neighbour in the direction of a movement, and the first element that is
    met when a list is entered. *)
Definition towards {A} (right : bool) (U V : list A) : option A := if right then head V else last U.
Definition enter {A} (right : bool) (l : list A) : option A := if right then head l else last l.

Lemma head_bind {A B} (f : A -> list B) l : (forall y, y ∈ l -> f y <> []) ->
  head (l ≫= f) = match head l with Some y => head (f y) | None => None end.
Proof.
  destruct l as [|y l]; [done|]. intros H. cbn. specialize (H y ltac:(left)). by destruct (f y).
Qed.

Lemma last_bind {A B} (f : A -> list B) l : (forall y, y ∈ l -> f y <> []) ->
  last (l ≫= f) = match last l with Some y => last (f y) | None => None end.
Proof.
  induction l as [|y l _] using rev_ind; [done|]. intros H. rewrite bind_app, last_snoc. cbn. rewrite app_nil_r, last_app.
  specialize (H y ltac:(apply elem_of_app; right; left)). destruct (last (f y)) eqn:E; [done|]. by apply last_None in E.
Qed.

Lemma towards_elem {A} right (U V : list A) x : towards right U V = Some x -> x ∈ U \/ x ∈ V.
Proof.
  destruct right; cbn.
  - destruct V; [done|]. intros H. injection H as ->. right. left.
  - intros H. left. rewrite last_lookup in H. by eapply list_elem_of_lookup_2.
Qed.

Lemma towards_bind {A B} (f : A -> list B) right l1 l2 u v :
  (forall y, y ∈ l1 -> f y <> []) -> (forall y, y ∈ l2 -> f y <> []) ->
  towards right ((l1 ≫= f) ++ u) (v ++ (l2 ≫= f)) =
    match towards right u v with
    | Some x => Some x
    | None => match towards right l1 l2 with Some y => enter right (f y) | None => None end
    end.
Proof.
  intros H1 H2. destruct right; cbn [towards enter].
  - rewrite <- (head_bind f l2 H2). by destruct v.
  - rewrite <- (last_bind f l1 H1), last_app. done.
Qed.

Lemma enter_bind {A B} (f : A -> list B) right l : (forall y, y ∈ l -> f y <> []) ->
  enter right (l ≫= f) = match enter right l with Some y => enter right (f y) | None => None end.
Proof. intros H. destruct right; [by apply head_bind|by apply last_bind]. Qed.

Lemma enter_elem {A} right (l : list A) x : enter right l = Some x -> x ∈ l.
Proof.
  destruct right; cbn.
  - destruct l; [done|]. intros H. injection H as ->. left.
  - intros H. rewrite last_lookup in H. by eapply list_elem_of_lookup_2.
Qed.

(** Places in the list of the items of one page. *)
Lemma page_items_at x i : 0 <= i < page_numkeys (root_page x.2) ->
  page_items x !! Z.to_nat i = Some (x.1, root_page x.2, i).
Proof.
  intros Hi. unfold page_items. rewrite list_lookup_fmap.
  assert (seqZ 0 (page_numkeys (root_page x.2)) !! Z.to_nat i = Some i) as -> by (apply lookup_seqZ; lia). done.
Qed.

Lemma page_items_length x : 0 <= page_numkeys (root_page x.2) -> zlen (page_items x) = page_numkeys (root_page x.2).
Proof. intros H. unfold page_items, zlen. rewrite length_fmap, length_seqZ. lia. Qed.

Lemma towards_page_items (right : bool) x (u v : list (path * page * Z)) y :
  0 <= page_numkeys (root_page x.2) -> page_items x = u ++ y :: v ->
  let k := zlen u in
  let k' := if right then k + 1 else k - 1 in
  y = (x.1, root_page x.2, k) /\ 0 <= k < page_numkeys (root_page x.2) /\
  if (if right then k + 1 <? page_numkeys (root_page x.2) else 0 <=? k - 1)
  then towards right u v = Some (x.1, root_page x.2, k') /\ 0 <= k' < page_numkeys (root_page x.2)
  else towards right u v = None.
Proof.
  intros Hn H k k'. pose proof (page_items_length x Hn) as Hlen. rewrite H in Hlen.
  pose proof (zlen_nonneg u). pose proof (zlen_nonneg v). assert (0 <= k < page_numkeys (root_page x.2)) as Hk by (unfold k; zlia).
  split; [|split; [done|]].
  - pose proof (page_items_at x k Hk) as E. rewrite H in E. unfold k, zlen in E. rewrite Nat2Z.id, list_lookup_middle in E by done. by injection E.
  - destruct right; cbn [towards].
    + destruct (Z.ltb_spec (k + 1) (page_numkeys (root_page x.2))) as [Hlt|Hge].
      * split; [|unfold k'; lia]. pose proof (page_items_at x k' ltac:(unfold k'; lia)) as E. rewrite H in E.
        replace (Z.to_nat k') with (length u + 1)%nat in E by (unfold k', k, zlen; lia).
        rewrite lookup_app_r in E by lia. replace (length u + 1 - length u)%nat with 1%nat in E by lia. cbn in E. by rewrite head_lookup.
      * assert (v = []) as -> by (apply zlen_0_nil; unfold k in *; zlia). done.
    + destruct (Z.leb_spec 0 (k - 1)) as [Hlt|Hge].
      * split; [|unfold k'; lia]. pose proof (page_items_at x k' ltac:(unfold k'; lia)) as E. rewrite H in E.
        rewrite lookup_app_l in E by (unfold k', k, zlen in *; lia). rewrite last_lookup.
        replace (pred (length u)) with (Z.to_nat k') by (unfold k', k, zlen in *; lia). done.
      * assert (u = []) as Hu by (apply zlen_0_nil; unfold k in *; lia). by rewrite Hu.
Qed.

(** ** The cursor as one on a list

    What the four operations promise: a position in the list of the items.
    [Tail] is the last item as [OpLast] leaves it, where the cursor already knows
    that nothing follows; [Behind] is the state after [OpNext] did not find a next
    item, from which [OpPrev] returns to the last item. *)
Inductive cursor_op : Type := OpFirst | OpLast | OpNext | OpPrev.
Inductive spot : Type := Unset | At (i : nat) | Tail | Behind.

(** The next position and the item that is returned, for a list of [n] items. *)
Definition list_step (n : nat) (s : spot) (op : cursor_op) : spot * option nat :=
match op, s with
| OpFirst, _ | OpNext, Unset => (At 0, Some 0%nat)
| OpLast, _ | OpPrev, Unset => (Tail, Some (n - 1)%nat)
| OpNext, At i => if bool_decide (S i < n)%nat then (At (S i), Some (S i)) else (Behind, None)
| OpNext, s => (s, None)
| OpPrev, At O => (At 0, None)
| OpPrev, At (S i) => (At i, Some i)
| OpPrev, Tail => if bool_decide (2 <= n)%nat then (At (n - 2), Some (n - 2)%nat) else (Tail, None)
| OpPrev, Behind => (At (n - 1), Some (n - 1)%nat)
end.

Definition answer (keys : list MDBX_val) (r : option nat) : rc * option MDBX_val :=
match r with Some i => (MDBX_SUCCESS, keys !! i) | None => (MDBX_NOTFOUND, None) end.

Fixpoint list_run (keys : list MDBX_val) (s : spot) (ops : list cursor_op) : list (rc * option MDBX_val) :=
match ops with
| [] => []
| op :: ops => let '(s', r) := list_step (length keys) s op in answer keys r :: list_run keys s' ops
end.

Section Trees.
Context (uok : Z) (page_get : Z -> Z -> option (rc * option page)) (checking : Z).
Context (txn_blocked : bool) (refresh : rc) (root_txnid : Z).

(** ** Well-formed trees *)

(** The node [i] of the page refers to the page [q]. *)
Definition links (p : page) (i : Z) (q : page) : Prop :=
  exists node pgno, page_node p i = Some node /\ node_pgno uok (pg_body p) node = Some pgno /\
    page_get pgno (pg_txnid p) = Some (MDBX_SUCCESS, Some q).

Definition leaf_ok (p : page) : Prop :=
  is_branch p = false /\ check_leaf_type checking p = true /\ 1 <= page_numkeys p <= 65535 /\
  forall k, 0 <= k < page_numkeys p -> is_Some (leaf_item uok p k).

Definition branch_ok (p : page) (cs : list tree) : Prop :=
  is_branch p = true /\ page_numkeys p = zlen cs /\ 1 <= zlen cs <= 65535 /\
  forall i c, zget cs i = Some c -> links p i (root_page c).

Fixpoint tree_ok (h : nat) (t : tree) : Prop :=
match h, t with
| O, Leaf p => leaf_ok p
| S h, Branch p cs => branch_ok p cs /\ Forall (tree_ok h) cs
| _, _ => False
end.

Lemma level_ok h t d w s : tree_ok h t -> (d <= h)%nat -> (w, s) ∈ level d t -> tree_ok (h - d) s /\ length w = d.
Proof.
  intros Ht. revert w s. induction d as [|d IH]; intros w s Hd Hs; cbn [level] in Hs.
  - apply list_elem_of_singleton in Hs. injection Hs as -> ->. rewrite Nat.sub_0_r. done.
  - apply list_elem_of_bind in Hs as ([w' s'] & Hk & Hs). destruct (IH w' s') as [Hok Hw]; [lia|done|].
    destruct (h - d)%nat as [|h'] eqn:Eh; [lia|]. replace (h - S d)%nat with h' by lia.
    destruct s' as [p|p cs]; [done|]. cbn in Hk. destruct Hok as [_ Hcs].
    apply list_elem_of_lookup_1 in Hk as [j Hj]. rewrite list_lookup_imap in Hj.
    destruct (cs !! j) as [c|] eqn:Ej; [|discriminate Hj]. injection Hj as <- <-. split.
    + rewrite Forall_lookup in Hcs. by eapply Hcs.
    + rewrite length_app. cbn. lia.
Qed.

(** ** Stacks *)

(** The stack holds the pages and indices [l], and has room for a path. *)
Record stands (c : cursor) (l : path) : Prop := {
  st_top : cu_top c = zlen l - 1;
  st_pg : zlen (cu_pg c) = CURSOR_STACK_SIZE;
  st_ki : zlen (cu_ki c) = CURSOR_STACK_SIZE;
  st_at : forall j x, l !! j = Some x -> zget (cu_pg c) (Z.of_nat j) = Some x.1 /\ zget (cu_ki c) (Z.of_nat j) = Some x.2;
}.

Lemma stands_top c l p k : stands c (l ++ [(p, k)]) ->
  cu_top c = zlen l /\ cu_page c = Some p /\ cu_index c = Some k /\ 0 <= zlen l < CURSOR_STACK_SIZE.
Proof.
  intros [H1 H2 H3 H4]. assert (cu_top c = zlen l) as Ht by zlia.
  destruct (H4 (length l) (p, k)) as [Hp Hk]; [by apply list_lookup_middle|].
  unfold cu_page, cu_index. rewrite Ht. unfold zlen at 2 3 4. split; [done|]. split; [done|]. split; [done|].
  pose proof (zget_range _ _ _ Hp). rewrite H2 in *. unfold zlen. lia.
Qed.

(** What the movement of a cursor does not touch. *)
Definition same_cursor (c c' : cursor) : Prop :=
  cu_root c' = cu_root c /\ cu_txn_error c' = cu_txn_error c.

Lemma stands_put_index c l p k k' : stands c (l ++ [(p, k)]) -> 0 <= k' <= 65535 ->
  exists c', cu_put_index c k' = Some c' /\ stands c' (l ++ [(p, k')]) /\
    cu_flags c' = cu_flags c /\ cu_stash c' = cu_stash c /\ same_cursor c c'.
Proof.
  intros Hs Hk. destruct (stands_top _ _ _ _ Hs) as (Ht & Hp & _ & Hr). destruct Hs as [H1 H2 H3 H4].
  unfold cu_put_index. rewrite Ht. rewrite zset_ok by (rewrite H3; done). cbn [mbind option_bind]. eexists. split; [done|].
  split; [|done]. constructor; cbn [cu_top cu_pg cu_ki]; [zlia|done|by rewrite zlen_zupd|].
  intros j [p' x] Hj. destruct (decide (j = length l)) as [->|Hne].
  - rewrite list_lookup_middle in Hj by done. injection Hj as <- <-. destruct (H4 (length l) (p, k)) as [Hq _]; [by apply list_lookup_middle|].
    split; [done|]. change (Z.of_nat (length l)) with (zlen l). rewrite zget_zupd_eq by (by rewrite H3). unfold u16. by rewrite wrap_small by lia.
  - assert ((l ++ [(p, k)]) !! j = Some (p', x)) as Hj'.
    { destruct (decide (j < length l)%nat); [|rewrite lookup_ge_None_2 in Hj; [done|rewrite length_app; cbn; lia]].
      rewrite lookup_app_l in Hj |- * by done. done. }
    destruct (H4 _ _ Hj') as [Hq Hx]. split; [done|]. rewrite zget_zupd_ne; [done|lia|unfold zlen; lia].
Qed.

Lemma stands_push c l p k : stands c l -> zlen l < CURSOR_STACK_SIZE -> 0 <= k <= 65535 ->
  exists c', cursor_push c p k = Some (MDBX_SUCCESS, c') /\ stands c' (l ++ [(p, k)]) /\
    cu_flags c' = cu_flags c /\ cu_stash c' = 0 /\ same_cursor c c'.
Proof.
  intros [H1 H2 H3 H4] Hl Hk. unfold cursor_push. replace (cu_top c + 1) with (zlen l) by lia.
  destruct (Z.leb_spec CURSOR_STACK_SIZE (zlen l)); [lia|]. pose proof (zlen_nonneg l).
  rewrite !zset_ok by (rewrite ?H2, ?H3; lia). cbn [mbind option_bind]. eexists. split; [done|]. split; [|done].
  constructor; cbn [cu_top cu_pg cu_ki]; [zlia|by rewrite zlen_zupd|by rewrite zlen_zupd|].
  intros j [p' x] Hj. destruct (decide (j = length l)) as [->|Hne].
  - rewrite list_lookup_middle in Hj by done. injection Hj as <- <-. change (Z.of_nat (length l)) with (zlen l).
    rewrite !zget_zupd_eq by (rewrite ?H2, ?H3; lia). unfold u16. by rewrite wrap_small by lia.
  - assert (l !! j = Some (p', x)) as Hj'.
    { destruct (decide (j < length l)%nat); [by rewrite lookup_app_l in Hj|].
      rewrite lookup_ge_None_2 in Hj; [done|rewrite length_app; cbn; lia]. }
    destruct (H4 _ _ Hj') as [Hq Hx]. cbn [fst snd] in *. rewrite !zget_zupd_ne; try done; unfold zlen in *; lia.
Qed.

Lemma stands_enroot c l x : stands c (l ++ [x]) -> stands (cursor_enroot c 1) l.
Proof.
  intros [H1 H2 H3 H4]. constructor; cbn [cursor_enroot cu_set_top cu_state cu_top cu_pg cu_ki]; [zlia|done|done|].
  intros j y Hj. apply H4. by apply lookup_app_l_Some.
Qed.

(** Back to the page below, which is still in the stack. *)
Lemma stands_undo c l p k : stands c l -> zlen l < CURSOR_STACK_SIZE ->
  zget (cu_pg c) (zlen l) = Some p -> zget (cu_ki c) (zlen l) = Some k -> stands (cursor_undo_enroot c 1) (l ++ [(p, k)]).
Proof.
  intros [H1 H2 H3 H4] Hl Hp Hk. constructor; cbn [cursor_undo_enroot cu_set_top cu_state cu_top cu_pg cu_ki]; [zlia|done|done|].
  intros j y Hj. destruct (decide (j = length l)) as [->|Hne].
  - rewrite list_lookup_middle in Hj by done. by injection Hj as <-.
  - apply H4. destruct (decide (j < length l)%nat); [by rewrite lookup_app_l in Hj|].
    rewrite lookup_ge_None_2 in Hj; [done|rewrite length_app; cbn; lia].
Qed.

(** ** Siblings *)

(** The index at which a page is entered, and the one where the cursor stays at
    the end. *)
Definition entry (right : bool) (p : page) : Z := if right then 0 else page_numkeys p - 1.
Definition brink (right : bool) (p : page) : Z := if right then page_numkeys p - 1 else 0.
Definition past_end (right : bool) (flags : Z) : Z :=
  if right then Z.lor z_eof_soft (Z.lor z_eof_hard (Z.land flags z_clear_mask)) else flags.

Lemma past_end_idem right f : past_end right (past_end right f) = past_end right f.
Proof.
  destruct right; [|done]. cbn [past_end]. f_equal. f_equal. rewrite !Z.land_lor_distr_l, <- Z.land_assoc. done.
Qed.

Lemma subtree_numkeys h s : tree_ok h s -> 1 <= page_numkeys (root_page s) <= 65535.
Proof. destruct h, s; try done; cbn. - intros (_ & _ & H & _). done. - intros [(_ & -> & H & _) _]. done. Qed.

Lemma fetch_linked c l p k q : stands c (l ++ [(p, k)]) -> links p k q ->
  fetch_child uok page_get c = Some (MDBX_SUCCESS, Some q).
Proof.
  intros Hs (node & pgno & H1 & H2 & H3). destruct (stands_top _ _ _ _ Hs) as (_ & Hp & Hk & _).
  unfold fetch_child. rewrite Hp, Hk. cbn [mbind option_bind]. rewrite H1. cbn [mbind option_bind]. rewrite H2. cbn [mbind option_bind]. done.
Qed.

(** The end of a level: the cursor stays on its page. *)
Lemma stay_at_brink c l p k right :
  stands c (l ++ [(p, k)]) -> 1 <= page_numkeys p <= 65535 ->
  exists c', no_sibling right c = Some (MDBX_NOTFOUND, c') /\
    stands c' (l ++ [(p, brink right p)]) /\ cu_flags c' = past_end right (cu_flags c) /\ cu_stash c' = cu_stash c /\
    same_cursor c c' /\ cu_pg c' = cu_pg c /\ forall j, cu_top c < j -> zget (cu_ki c') j = zget (cu_ki c) j.
Proof.
  intros Hs Hn. destruct (stands_top _ _ _ _ Hs) as (Ht & Hp & _ & Hr). unfold no_sibling. rewrite Hp. cbn [mbind option_bind].
  destruct (stands_put_index c l p k (brink right p) Hs) as (c1 & E & Hs1 & Hf & Hst & Hsame); [unfold brink; destruct right; lia|].
  unfold brink in E. rewrite E. cbn [mbind option_bind].
  assert (cu_pg c1 = cu_pg c /\ forall j, cu_top c < j -> zget (cu_ki c1) j = zget (cu_ki c) j) as [Hpg Hki].
  { unfold cu_put_index in E. destruct (zset (cu_ki c) (cu_top c) _) as [ki|] eqn:Ez; [|discriminate E]. injection E as <-.
    split; [done|]. intros j Hj. cbn. apply zset_inv in Ez as [Hz ->]. apply zget_zupd_ne; lia. }
  destruct right; eexists; (split; [done|]); split_and!; try done; cbn; try (by rewrite Hf).
  destruct Hs1. by constructor.
Qed.

(** The child at an index of a branch page. *)
Lemma kids_at w p cs i c : cs !! i = Some c -> kids (w, Branch p cs) !! i = Some (w ++ [(p, Z.of_nat i)], c).
Proof. intros H. cbn. by rewrite list_lookup_imap, H. Qed.

Lemma enter_kids right w p cs : branch_ok p cs ->
  exists c, enter right (kids (w, Branch p cs)) = Some (w ++ [(p, entry right p)], c) /\ links p (entry right p) (root_page c) /\
    c ∈ cs.
Proof.
  intros (_ & Hn & Hcs & Hl). destruct (zget_in cs (entry right p)) as [c Hc]; [unfold entry; destruct right; lia|].
  exists c. split; [|split; [by apply Hl|by eapply zget_elem]].
  pose proof (zget_range _ _ _ Hc) as Hr.
  assert (cs !! Z.to_nat (entry right p) = Some c) as Hc' by (rewrite <- zget_lookup, Z2Nat.id; done || lia).
  pose proof (kids_at w p _ _ _ Hc') as Hk. rewrite Z2Nat.id in Hk by lia. destruct right; cbn [enter entry] in *.
  - by rewrite head_lookup.
  - rewrite last_lookup. cbn [kids] in *. rewrite length_imap. rewrite <- Hk. f_equal. unfold zlen in *. lia.
Qed.

(** The neighbour of a child among the children of its page. *)
Lemma towards_kids (right : bool) w q cs (u v : list (path * tree)) s : branch_ok q cs -> kids (w, Branch q cs) = u ++ s :: v ->
  let i := zlen u in
  let i' := if right then i + 1 else i - 1 in
  if (if right then page_numkeys q <=? i + 1 else i =? 0) then towards right u v = None
  else exists s', zget cs i' = Some s' /\ towards right u v = Some (w ++ [(q, i')], s') /\ 0 <= i' <= 65535.
Proof.
  intros (_ & Hn & Hcs & _) Hk i i'. cbn [kids] in Hk. destruct (imap_split _ _ _ _ _ Hk) as (s0 & Hs0 & _ & Hlen & Hv & Hu).
  assert (0 <= i) as Hi0 by apply zlen_nonneg. assert (zlen cs = i + 1 + zlen v) as Hz by (unfold i, zlen in *; lia).
  destruct right; cbn [towards].
  - destruct (Z.leb_spec (page_numkeys q) (i + 1)) as [H|H].
    + assert (v = []) as -> by (apply zlen_0_nil; zlia). done.
    + destruct (zget_in cs i') as [s' Hs']; [unfold i'; pose proof (zlen_nonneg v); lia|]. exists s'. split; [done|].
      split; [|unfold i' in *; pose proof (zget_range _ _ _ Hs'); lia]. rewrite head_lookup, Hv.
      assert (Z.of_nat (length u + 1) = i') as Ei by (unfold i', i, zlen; lia). rewrite <- Ei, zget_lookup in Hs'. rewrite Hs'. cbn.
      by rewrite <- Ei.
  - destruct (Z.eqb_spec i 0) as [H|H].
    + apply zlen_0_nil in H. by rewrite H.
    + destruct (zget_in cs i') as [s' Hs']; [unfold i'; pose proof (zlen_nonneg v); lia|]. exists s'. split; [done|].
      split; [|unfold i' in *; pose proof (zget_range _ _ _ Hs'); lia]. rewrite last_lookup.
      assert (Z.of_nat (pred (length u)) = i') as Ei by (unfold i', i, zlen in *; lia).
      rewrite Hu by (unfold i, zlen in *; lia). rewrite <- Ei, zget_lookup in Hs'. rewrite Hs'. cbn. by rewrite <- Ei.
Qed.

Lemma level_kids h t d y : tree_ok h t -> (d < h)%nat -> y ∈ level d t ->
  exists q cs, y.2 = Branch q cs /\ branch_ok q cs /\ kids y <> [] /\ length y.1 = d /\ forall s, s ∈ cs -> tree_ok (h - S d) s.
Proof.
  destruct y as [w y]. intros Ht Hd Hy. destruct (level_ok h t d w y Ht ltac:(lia) Hy) as [Hok Hw].
  destruct (h - d)%nat eqn:Eh; [lia|]. destruct y as [|q cs]; [done|]. destruct Hok as [Hb Hcs]. exists q, cs. split; [done|]. split; [done|].
  split; [|split; [done|rewrite Forall_forall in Hcs; by replace (h - S d)%nat with n by lia]]. destruct Hb as (_ & _ & Hc & _). destruct (zget_in cs (Z.of_nat 0)) as [c0 Hc0]; [cbn; lia|].
  rewrite zget_lookup in Hc0. intros E. pose proof (kids_at w q cs 0 c0 Hc0) as Hk. by rewrite E in Hk.
Qed.

Lemma enter_child c w q k r e : stands c (w ++ [(q, k)]) -> links q k r -> zlen w + 1 < CURSOR_STACK_SIZE -> 0 <= e <= 65535 ->
  exists c', fetch_child uok page_get c = Some (MDBX_SUCCESS, Some r) /\ cursor_push c r e = Some (MDBX_SUCCESS, c') /\
    stands c' ((w ++ [(q, k)]) ++ [(r, e)]) /\ cu_flags c' = cu_flags c /\ cu_stash c' = 0 /\ same_cursor c c'.
Proof.
  intros Hs Hl Hw He. destruct (stands_push c (w ++ [(q, k)]) r e Hs) as (c' & E & H); [zlia|done|].
  exists c'. split; [by eapply fetch_linked|]. by split.
Qed.

Lemma same_cursor_trans a b c : same_cursor a b -> same_cursor b c -> same_cursor a c.
Proof. intros [H1 H2] [H3 H4]. split; congruence. Qed.

(** Down to the child at the index of the top page, as [sibling] does it. *)
Lemma enter_sibling (right : bool) c w q k s : stands c (w ++ [(q, k)]) -> links q k (root_page s) -> zlen w + 1 < CURSOR_STACK_SIZE ->
  1 <= page_numkeys (root_page s) <= 65535 ->
  exists c',
    ('(err, mp) ← fetch_child uok page_get c;
     match (err : rc), (mp : option page) with
     | MDBX_SUCCESS, Some mp =>
       '(err, c) ← cursor_push c mp (if right then 0 else page_numkeys mp - 1);
       Some (err, if decide (err = MDBX_SUCCESS) then c else be_poor c)
     | MDBX_SUCCESS, None => None
     | err, _ => Some (err, be_poor c)
     end) = Some (MDBX_SUCCESS, c') /\
    stands c' ((w ++ [(q, k)]) ++ [(root_page s, entry right (root_page s))]) /\ cu_flags c' = cu_flags c /\ cu_stash c' = 0 /\
    same_cursor c c'.
Proof.
  intros Hs Hl Hw Hn. destruct (enter_child c w q k (root_page s) (entry right (root_page s)) Hs Hl Hw) as (c' & -> & E & H).
  { unfold entry. destruct right; lia. }
  exists c'. split; [|done]. cbn [mbind option_bind]. unfold entry in E. rewrite E. done.
Qed.

(** Back from the end of the level above. *)
Lemma back_to_brink right c c2 w q i r k : stands c ((w ++ [(q, i)]) ++ [(r, k)]) -> 1 <= page_numkeys r <= 65535 ->
  stands c2 (w ++ [(q, i)]) -> cu_flags c2 = past_end right (cu_flags c) -> cu_stash c2 = cu_stash c + 1 -> cu_pg c2 = cu_pg c ->
  (forall j, cu_top c - 1 < j -> zget (cu_ki c2) j = zget (cu_ki c) j) -> same_cursor c c2 ->
  exists c', same_cursor c c' /\ no_sibling right (cursor_undo_enroot c2 1) = Some (MDBX_NOTFOUND, c') /\
    stands c' ((w ++ [(q, i)]) ++ [(r, brink right r)]) /\ cu_flags c' = past_end right (cu_flags c) /\ cu_stash c' = cu_stash c /\
    cu_pg c' = cu_pg c /\ forall j, cu_top c < j -> zget (cu_ki c') j = zget (cu_ki c) j.
Proof.
  intros Hs Hn Hs2 Hf2 Hst2 Hpg2 Hki2 Hsame2. destruct (stands_top _ _ _ _ Hs) as (Htop & Hpage & Hidx & Hw32).
  unfold cu_page, cu_index in Hpage, Hidx. rewrite Htop in Hpage, Hidx.
  assert (stands (cursor_undo_enroot c2 1) ((w ++ [(q, i)]) ++ [(r, k)])) as Hs3.
  { apply stands_undo; [done|lia|by rewrite Hpg2|]. rewrite Hki2; [done|lia]. }
  destruct (stay_at_brink _ _ _ _ right Hs3 Hn) as (c3 & E3 & Hs4 & Hf3 & Hst3 & Hsame3 & Hpg3 & Hki3).
  exists c3. split; [by eapply same_cursor_trans, Hsame3|]. split; [done|]. split; [done|].
  split; [by rewrite Hf3; cbn; rewrite Hf2, past_end_idem|]. split; [rewrite Hst3; cbn; lia|].
  split; [rewrite Hpg3; cbn; by rewrite Hpg2|]. intros j Hj. rewrite Hki3; cbn.
  - apply Hki2. lia.
  - destruct (stands_top _ _ _ _ Hs2) as (Ht2 & _). rewrite Ht2. rewrite Htop in Hj. zlia.
Qed.

Lemma sibling_spec h t right d : tree_ok h t -> (d <= h)%nat -> Z.of_nat d < CURSOR_STACK_SIZE ->
  forall fuel U w s V k c, (d <= fuel)%nat -> level d t = U ++ (w, s) :: V -> stands c (w ++ [(root_page s, k)]) ->
  exists c', same_cursor c c' /\
    match towards right U V with
    | Some (w', s') =>
      cursor_sibling uok page_get fuel right c = Some (MDBX_SUCCESS, c') /\
      stands c' (w' ++ [(root_page s', entry right (root_page s'))]) /\ cu_flags c' = cu_flags c /\ cu_stash c' = 0
    | None =>
      cursor_sibling uok page_get fuel right c = Some (MDBX_NOTFOUND, c') /\
      stands c' (w ++ [(root_page s, brink right (root_page s))]) /\ cu_flags c' = past_end right (cu_flags c) /\
      cu_stash c' = cu_stash c /\ cu_pg c' = cu_pg c /\ forall j, cu_top c < j -> zget (cu_ki c') j = zget (cu_ki c) j
    end.
Proof.
  intros Ht. induction d as [|d IH]; intros Hd Hd32 fuel U w s V k c Hf HL Hs.
  - cbn in HL. destruct U as [|u U]; [|by destruct U]. injection HL as <- <- <-.
    assert (1 <= page_numkeys (root_page t) <= 65535) as Hn by (by eapply subtree_numkeys).
    destruct (stay_at_brink c [] _ k right Hs Hn) as (c' & E & H1 & H2 & H3 & H4 & H5 & H6).
    exists c'. split; [done|]. assert (towards right ([] : list (path * tree)) [] = None) as -> by (by destruct right).
    destruct (stands_top _ _ _ _ Hs) as (Htop & _ & _ & _). cbn in Htop.
    split; [|done]. destruct fuel; cbn; rewrite Htop; done.
  - cbn [level] in HL.
    destruct (bind_split _ _ _ _ _ HL) as (l1 & [wy y] & l2 & u & v & El & Ek & -> & ->).
    assert (forall x, x ∈ l1 \/ x ∈ l2 \/ x = (wy, y) -> x ∈ level d t) as Hin.
    { intros x Hx. rewrite El, elem_of_app, elem_of_cons. naive_solver. }
    destruct (level_kids h t d (wy, y)) as (q & cs & Ey & Hb & _ & Hlen & Hsub); [done|lia|apply Hin; auto|]. cbn in Ey, Hlen. subst y.
    destruct (imap_split _ _ _ _ _ Ek) as (s0 & Hs0 & Ews & _). injection Ews as -> <-. change (Z.of_nat (length u)) with (zlen u) in *.
    pose proof (stands_enroot _ _ _ Hs) as Hs1. set (c1 := cursor_enroot c 1) in *. destruct fuel as [|fuel]; [lia|]. cbn [cursor_sibling].
    destruct (stands_top _ _ _ _ Hs) as (Htop & Hpage & _ & Hw32). destruct (stands_top _ _ _ _ Hs1) as (Htop1 & Hp1 & Hk1 & _).
    rewrite (proj2 (Z.ltb_ge _ _)) by (rewrite Htop; zlia). fold c1. rewrite Hp1, Hk1. cbn [mbind option_bind].
    rewrite towards_bind by (intros x Hx; destruct (level_kids h t d x) as (? & ? & _ & _ & ? & _); [done|lia|apply Hin; auto|done]).
    pose proof (towards_kids right wy q cs u v _ Hb Ek) as Htk. cbn zeta in Htk.
    destruct (if right then page_numkeys q <=? zlen u + 1 else zlen u =? 0) eqn:Eedge.
    + rewrite Htk.
      destruct (IH ltac:(lia) ltac:(lia) fuel l1 wy (Branch q cs) l2 (zlen u) c1 ltac:(lia) El Hs1) as (c2 & Hsame2 & H2).
      destruct (towards right l1 l2) as [[w' s']|] eqn:Et.
      * destruct H2 as (-> & Hs2 & Hf2 & Hst2). cbn [mbind option_bind].
        destruct (level_kids h t d (w', s')) as (q' & cs' & Eq & Hb' & _ & Hlen' & Hsub');
          [done|lia|apply Hin; apply towards_elem in Et; tauto|]. cbn in Eq, Hlen'. subst s'.
        destruct (enter_kids right w' q' cs' Hb') as (s'' & -> & Hl' & He').
        destruct (enter_sibling right c2 w' q' _ s'' Hs2 Hl') as (c3 & E3 & Hs3 & Hf3 & Hst3 & Hsame3);
          [unfold zlen in *; lia|by eapply subtree_numkeys, Hsub'|].
        exists c3. split; [by eapply same_cursor_trans, Hsame3|]. rewrite Hf3, Hf2. done.
      * destruct H2 as (-> & Hs2 & Hf2 & Hst2 & Hpg2 & Hki2). cbn [mbind option_bind].
        assert (brink right q = zlen u) as Hbr.
        { destruct Hb as (_ & Hn & _). apply lookup_lt_Some in Hs0. unfold brink, zlen in *. destruct right; lia. }
        cbn [root_page] in Hs2. rewrite Hbr in Hs2.
        destruct (back_to_brink right c c2 wy q (zlen u) (root_page s) k Hs) as (c3 & Hsame3 & H3); try done.
        { eapply subtree_numkeys, Hsub, list_elem_of_lookup_2, Hs0. }
        by exists c3.
    + destruct Htk as (s' & Hs' & -> & Hi').
      destruct (stands_put_index _ _ _ _ _ Hs1 Hi') as (c2 & E2 & Hs2 & Hf2 & Hst2 & Hsame2).
      assert ((c ← cu_put_index c1 (if right then zlen u + 1 else zlen u - 1); Some (MDBX_SUCCESS, c)) = Some (MDBX_SUCCESS, c2)) as ->
        by (by rewrite E2).
      cbn [mbind option_bind].
      destruct (enter_sibling right c2 wy q _ s' Hs2) as (c3 & E3 & Hs3 & Hf3 & Hst3 & Hsame3);
        [by apply Hb|unfold zlen in *; lia|by eapply subtree_numkeys, Hsub, zget_elem|].
      exists c3. split; [by eapply same_cursor_trans, Hsame3|]. rewrite Hf3, Hf2. done.
Qed.

(** ** Descent to an end *)

Lemma enter_level h t right d : tree_ok h t -> (d < h)%nat ->
  enter right (level (S d) t) = match enter right (level d t) with Some y => enter right (kids y) | None => None end.
Proof.
  intros Ht Hd. cbn [level]. apply enter_bind. intros y Hy. by destruct (level_kids h t d y Ht Hd Hy) as (? & ? & _ & _ & ? & _).
Qed.

Lemma deepen_spec h t first : tree_ok h t -> Z.of_nat h < CURSOR_STACK_SIZE ->
  forall n d fuel c w s, n = (h - d)%nat -> (d <= h)%nat -> (n <= fuel)%nat -> enter first (level d t) = Some (w, s) ->
  stands c (w ++ [(root_page s, entry first (root_page s))]) ->
  exists c' w' p, deepen_loop uok page_get checking fuel first c = Some (MDBX_SUCCESS, c') /\
    enter first (level h t) = Some (w', Leaf p) /\ stands c' (w' ++ [(p, entry first p)]) /\ leaf_ok p /\
    cu_flags c' = cu_flags c /\ same_cursor c c'.
Proof.
  intros Ht Hh. induction n as [|n IH]; intros d fuel c w s Hn Hd Hfuel He Hs;
    (destruct (stands_top _ _ _ _ Hs) as (_ & Hpage & _ & _)); pose proof (enter_elem _ _ _ He) as Hin.
  - assert (d = h) as -> by lia. destruct (level_ok h t h w s Ht ltac:(lia) Hin) as [Hok _]. rewrite Nat.sub_diag in Hok.
    destruct s as [p|]; [|done]. destruct (Hok) as (Hb & Hc & _). exists c, w, p.
    split; [|done]. destruct fuel; cbn [deepen_loop]; rewrite Hpage; cbn [mbind option_bind root_page]; by rewrite Hb, Hc.
  - destruct fuel as [|fuel]; [lia|]. cbn [deepen_loop]. rewrite Hpage. cbn [mbind option_bind].
    destruct (level_kids h t d (w, s)) as (q & cs & Eq & Hb & _ & Hlen & Hsub); [done|lia|done|]. cbn in Eq, Hlen. subst s.
    destruct (enter_kids first w q cs Hb) as (s' & Ek & Hl & Hs').
    pose proof (subtree_numkeys _ _ (Hsub _ Hs')) as Hnum.
    destruct (enter_child c w q _ (root_page s') (entry first (root_page s')) Hs Hl) as (c' & Ef & Ep & Hs1 & Hf & _ & Hsame);
      [unfold zlen; lia|unfold entry; destruct first; lia|].
    cbn [root_page]. rewrite (proj1 Hb), Ef. cbn [mbind option_bind]. unfold entry in Ep. rewrite Ep. cbn [mbind option_bind].
    rewrite decide_True by done.
    destruct (IH (S d) fuel c' (w ++ [(q, entry first q)]) s') as (c2 & w2 & p & E & H1 & H2 & H3 & H4 & H5); [lia|lia|lia| |done|].
    { rewrite (enter_level h t) by (done || lia). by rewrite He. }
    exists c2, w2, p. rewrite H4, Hf. split; [done|]. split; [done|]. split; [done|]. split; [done|]. split; [done|].
    by eapply same_cursor_trans.
Qed.

(** ** Landing on items *)

Lemma level_root d t w s k : (w, s) ∈ level d t -> exists k0 r, w ++ [(root_page s, k)] = (root_page t, k0) :: r.
Proof.
  revert w s k. induction d as [|d IH]; intros w s k H; cbn [level] in H.
  - apply list_elem_of_singleton in H. injection H as -> ->. by exists k, [].
  - apply list_elem_of_bind in H as ([w' s'] & Hk & Hs). destruct s' as [|q cs]; [by apply elem_of_nil in Hk|].
    cbn in Hk. apply list_elem_of_lookup_1 in Hk as [j Hj]. rewrite list_lookup_imap in Hj.
    destruct (cs !! j); [|discriminate Hj]. injection Hj as <- <-.
    destruct (IH w' (Branch q cs) (Z.of_nat j) Hs) as (k0 & r & E). cbn in E. rewrite E. by eexists _, _.
Qed.

(** The three states of a cursor with data: in the middle, at the last item, and
    behind it. *)
Definition calm (f : Z) : Prop := 0 <= f <= 3.
Definition soft (f : Z) : Prop := exists m, 0 <= m <= 3 /\ f = Z.lor m z_eof_soft.
Definition hard (f : Z) : Prop := exists m, 0 <= m <= 3 /\ f = Z.lor z_eof_soft (Z.lor z_eof_hard m).

Lemma land_clear_mask f : 0 <= Z.land f z_clear_mask <= 3.
Proof. change z_clear_mask with (Z.ones 2). rewrite Z.land_ones by lia. pose proof (Z.mod_pos_bound f (2 ^ 2)). lia. Qed.

Ltac flag_cases m := assert (m = 0 \/ m = 1 \/ m = 2 \/ m = 3) as [->|[->|[->| ->]]] by lia.

Lemma bring_spec c w p k eof : leaf_ok p -> 0 <= k < page_numkeys p -> stands c (w ++ [(p, k)]) ->
  exists c' v, leaf_item uok p k = Some v /\ cursor_bring uok checking c eof = Some (MDBX_SUCCESS, c', Some v) /\
    stands c' (w ++ [(p, k)]) /\ same_cursor c c' /\ (if eof then soft (cu_flags c') else calm (cu_flags c')).
Proof.
  intros (_ & Hc & _ & Hit) Hk Hs. destruct (stands_top _ _ _ _ Hs) as (_ & Hp & Hi & _). destruct (Hit k Hk) as [v Hv].
  unfold cursor_bring. rewrite Hp, Hi. cbn [mbind option_bind]. rewrite Hc, Hv. cbn [mbind option_bind negb].
  exists (if eof then cu_set_flags (be_filled c) (Z.lor (cu_flags (be_filled c)) z_eof_soft) else be_filled c), v.
  split; [done|]. split; [done|]. pose proof (land_clear_mask (cu_flags c)).
  destruct Hs as [H1 H2 H3 H4]. destruct eof; (split; [by constructor|]); split; try done.
  exists (Z.land (cu_flags c) z_clear_mask). done.
Qed.

Section Rooted.
Context (h : nat) (t : tree) (root : Z).

(** The table is accessible, and its root is that of the tree. *)
Record rooted : Prop := {
  ro_tree : tree_ok h t;
  ro_height : Z.of_nat h < CURSOR_STACK_SIZE;
  ro_valid : root <> P_INVALID;
  ro_pgno : pg_pgno (root_page t) = root;
  ro_get : page_get root root_txnid = Some (MDBX_SUCCESS, Some (root_page t));
  ro_txn : txn_blocked = false;
  ro_refresh : refresh = MDBX_SUCCESS;
}.

(** The cursor stands on an item. *)
Definition on (c : cursor) (x : path * page * Z) : Prop := stands c (x.1.1 ++ [(x.1.2, x.2)]) /\ cu_root c = root.

(** A cursor of this tree, without a position or on an item. *)
Definition ready (c : cursor) : Prop :=
  zlen (cu_pg c) = CURSOR_STACK_SIZE /\ zlen (cu_ki c) = CURSOR_STACK_SIZE /\ cu_root c = root /\
  (cu_top c = -1 \/ exists x, x ∈ tree_items h t /\ on c x).

Hypothesis Hroot : rooted.

Lemma item_page w p k : (w, p, k) ∈ tree_items h t -> (w, Leaf p) ∈ level h t /\ leaf_ok p /\ 0 <= k < page_numkeys p /\ length w = h.
Proof using Hroot.
  intros H. unfold tree_items in H. apply list_elem_of_bind in H as ([w' s] & Hk & Hs).
  destruct (level_ok h t h w' s (ro_tree Hroot) ltac:(lia) Hs) as [Hok Hw]. rewrite Nat.sub_diag in Hok. destruct s as [q|]; [|done].
  unfold page_items in Hk. apply list_elem_of_fmap in Hk as (k' & E & Hk). cbn in E. injection E as -> -> ->. apply elem_of_seqZ in Hk. cbn in Hk.
  split; [done|]. split; [done|]. split; [lia|done].
Qed.

Lemma ready_root c : ready c -> exists same : bool,
  (if cu_top c <? 0 then Some false else mp ← zget (cu_pg c) 0; Some (pg_pgno mp =? cu_root c)) = Some same /\
  (if same then mp ← zget (cu_pg c) 0; Some (MDBX_SUCCESS, Some mp) else page_get (cu_root c) root_txnid) =
    Some (MDBX_SUCCESS, Some (root_page t)).
Proof using Hroot.
  intros (Hp & Hk & Hr & [Ht|([[w p] k] & Hx & [Hs _])]).
  - exists false. rewrite Ht. split; [done|]. rewrite Hr. apply (ro_get Hroot).
  - destruct (item_page _ _ _ Hx) as (Hl & _). destruct (stands_top _ _ _ _ Hs) as (Htop & _ & _ & Hz). cbn [fst snd] in *.
    destruct (level_root h t w (Leaf p) k Hl) as (k0 & r & E). cbn [root_page] in E. rewrite E in Hs. destruct Hs as [_ _ _ Hat].
    destruct (Hat 0%nat (root_page t, k0) eq_refl) as [H0 _]. change (Z.of_nat 0) with 0 in H0. cbn [fst] in H0.
    rewrite (proj2 (Z.ltb_ge _ _)) by lia. rewrite H0. cbn [mbind option_bind]. exists true.
    rewrite Hr, (ro_pgno Hroot), Z.eqb_refl. done.
Qed.

Lemma tree_search_edge (first : bool) c : ready c ->
  exists c' w p, tree_search uok page_get checking txn_blocked refresh root_txnid c (if first then Z_FIRST else Z_LAST) = Some (MDBX_SUCCESS, c') /\
    enter first (level h t) = Some (w, Leaf p) /\ stands c' (w ++ [(p, entry first p)]) /\ leaf_ok p /\ cu_root c' = root.
Proof using Hroot.
  intros Hc. destruct (ready_root c Hc) as (same & E1 & E2). destruct Hc as (Hp & Hk & Hr & _).
  unfold tree_search. rewrite (ro_txn Hroot), (ro_refresh Hroot). rewrite bool_decide_true by done. cbn [negb].
  rewrite Hr. rewrite (proj2 (Z.eqb_neq _ _) (ro_valid Hroot)). rewrite Hr in E1, E2. rewrite E1. cbn [mbind option_bind]. rewrite E2. cbn [mbind option_bind].
  pose proof (subtree_numkeys h t (ro_tree Hroot)) as Hn.
  rewrite !zset_ok by (rewrite ?Hp, ?Hk; done). cbn [mbind option_bind].
  set (c1 := mk_cursor _ _ _ _ _ _ _).
  assert (stands c1 ([] ++ [(root_page t, entry first (root_page t))])) as Hs1.
  { constructor; cbn [c1 cu_top cu_pg cu_ki]; [done|by rewrite zlen_zupd|by rewrite zlen_zupd|].
    intros [|j] x Hx; [|by destruct j]. injection Hx as <-. cbn [fst snd]. change (Z.of_nat 0) with 0.
    rewrite !zget_zupd_eq by (rewrite ?Hp, ?Hk; done). split; [done|]. f_equal. unfold entry. destruct first; [done|].
    unfold u16. rewrite wrap_small; [done|lia]. }
  destruct (deepen_spec h t first (ro_tree Hroot) (ro_height Hroot) h 0 (Z.to_nat CURSOR_STACK_SIZE) c1 [] t)
    as (c' & w & p & E & H1 & H2 & H3 & _ & H4 & _); [lia|lia|pose proof (ro_height Hroot); lia|by destruct first|done|].
  exists c', w, p. split; [by destruct first|]. split; [done|]. split; [done|]. split; [done|]. by rewrite H4.
Qed.

(** A search for a key starts at the root. *)
Lemma search_from_root choose c : ready c ->
  exists c', tree_search uok page_get checking txn_blocked refresh root_txnid c (Z_KEY choose) =
      search_loop uok page_get checking (Z.to_nat CURSOR_STACK_SIZE) choose c' /\
    stands c' ([] ++ [(root_page t, 0)]).
Proof using Hroot.
  intros Hc. destruct (ready_root c Hc) as (same & E1 & E2). destruct Hc as (Hp & Hk & Hr & _).
  unfold tree_search. rewrite (ro_txn Hroot), (ro_refresh Hroot). rewrite bool_decide_true by done. cbn [negb].
  rewrite Hr. rewrite (proj2 (Z.eqb_neq _ _) (ro_valid Hroot)). rewrite Hr in E1, E2. rewrite E1. cbn [mbind option_bind]. rewrite E2. cbn [mbind option_bind].
  rewrite !zset_ok by (rewrite ?Hp, ?Hk; done). cbn [mbind option_bind]. eexists. split; [done|].
  constructor; cbn [cu_top cu_pg cu_ki]; [done|by rewrite zlen_zupd|by rewrite zlen_zupd|].
  intros [|j] x Hx; [|by destruct j]. injection Hx as <-. cbn [fst snd]. change (Z.of_nat 0) with 0.
  by rewrite !zget_zupd_eq by (rewrite ?Hp, ?Hk; done).
Qed.

Definition item_key (x : path * page * Z) : option MDBX_val := leaf_item uok x.1.2 x.2.

Lemma enter_page_items (right : bool) w s : 1 <= page_numkeys (root_page s) ->
  enter right (page_items (w, s)) = Some (w, root_page s, entry right (root_page s)) /\ page_items (w, s) <> [].
Proof using Type.
  intros Hn. assert (0 <= entry right (root_page s) < page_numkeys (root_page s)) as He by (unfold entry; destruct right; lia).
  pose proof (page_items_at (w, s) (entry right (root_page s)) He) as E. cbn [fst snd] in E. split; [|by intros Hnil; rewrite Hnil in E].
  pose proof (page_items_length (w, s) ltac:(cbn; lia)) as Hlen. cbn [snd] in Hlen. destruct right; cbn [enter entry] in *.
  - by rewrite head_lookup.
  - rewrite last_lookup. rewrite <- E. f_equal. unfold zlen in Hlen. lia.
Qed.

Lemma level_items y : y ∈ level h t -> 1 <= page_numkeys (root_page y.2) <= 65535 /\ page_items y <> [] /\ exists p, y.2 = Leaf p /\ leaf_ok p.
Proof using Hroot.
  destruct y as [w s]. intros Hy. destruct (level_ok h t h w s (ro_tree Hroot) ltac:(lia) Hy) as [Hok _]. rewrite Nat.sub_diag in Hok.
  pose proof (subtree_numkeys _ _ Hok) as Hn. split; [done|]. split; [apply (enter_page_items true); cbn; lia|].
  destruct s as [p|]; [|done]. by exists p.
Qed.

Lemma enter_items (right : bool) w p : enter right (level h t) = Some (w, Leaf p) -> enter right (tree_items h t) = Some (w, p, entry right p).
Proof using Hroot.
  intros H. unfold tree_items. rewrite enter_bind by (intros y Hy; by apply level_items). rewrite H.
  destruct (level_items _ (enter_elem _ _ _ H)) as [Hn _]. apply (enter_page_items right w (Leaf p)). cbn in *. lia.
Qed.

Lemma brim_spec (first : bool) c : ready c ->
  exists c' x v, cursor_brim uok page_get checking txn_blocked refresh root_txnid first c = Some (MDBX_SUCCESS, c', Some v) /\
    enter first (tree_items h t) = Some x /\ on c' x /\ item_key x = Some v /\ (if first then calm (cu_flags c') else soft (cu_flags c')).
Proof using Hroot.
  intros Hc. unfold cursor_brim.
  assert (exists c1 w p k, (if negb (cu_top c =? 0)
      then tree_search uok page_get checking txn_blocked refresh root_txnid c (if first then Z_FIRST else Z_LAST)
      else Some (MDBX_SUCCESS, c)) = Some (MDBX_SUCCESS, c1) /\
    enter first (level h t) = Some (w, Leaf p) /\ stands c1 (w ++ [(p, k)]) /\ leaf_ok p /\ cu_root c1 = root) as (c1 & w & p & k & -> & He & Hs & Hp & Hr).
  { destruct (Z.eqb_spec (cu_top c) 0) as [Ht|Ht]; cbn [negb].
    - destruct Hc as (_ & _ & Hr & [?|([[w p] k] & Hx & [Hs _])]); [lia|]. destruct (stands_top _ _ _ _ Hs) as (Htop & _). cbn [fst snd] in *.
      destruct (item_page _ _ _ Hx) as (Hl & Hok & _ & Hw). assert (w = []) as -> by (apply zlen_0_nil; lia).
      assert (h = 0%nat) as Eh by (by rewrite <- Hw). clear Hw Htop. unfold tree_items in *. rewrite Eh in *. cbn [level] in *.
      apply list_elem_of_singleton in Hl. injection Hl as <-. exists c, [], p, k. split; [done|]. by destruct first.
    - destruct (tree_search_edge first c Hc) as (c1 & w & p & E & H1 & H2 & H3 & H4). by exists c1, w, p, (entry first p). }
  cbn [mbind option_bind]. rewrite bool_decide_true by done. cbn [negb].
  destruct (stands_top _ _ _ _ Hs) as (_ & Hpage & _). rewrite Hpage. cbn [mbind option_bind].
  destruct Hp as (Hb & Hty & Hn & Hit) eqn:Ep. clear Ep.
  assert (0 <= entry first p < page_numkeys p) as Hent by (unfold entry; destruct first; lia).
  destruct (stands_put_index _ _ _ _ (entry first p) Hs ltac:(lia)) as (c2 & E2 & Hs2 & _ & _ & Hr2 & _).
  unfold entry in E2. rewrite E2. cbn [mbind option_bind].
  destruct (bring_spec c2 w p (entry first p) (negb first)) as (c3 & v & Hv & E3 & Hs3 & [Hr3 _] & Hf); [done|done|done|].
  exists c3, (w, p, entry first p), v. split; [done|]. split; [by apply enter_items|]. split; [split; [done|congruence]|].
  split; [done|]. by destruct first.
Qed.

(** One item further, or the end. *)
Lemma move_spec (forward : bool) c U w p k V : tree_items h t = U ++ (w, p, k) :: V -> on c (w, p, k) ->
  match towards forward U V with
  | Some y => exists c' v, cursor_move uok page_get checking forward c k (page_numkeys p) = Some (MDBX_SUCCESS, c', Some v) /\
      on c' y /\ item_key y = Some v /\ calm (cu_flags c')
  | None => exists c', cursor_move uok page_get checking forward c k (page_numkeys p) = Some (MDBX_NOTFOUND, c', None) /\
      on c' (w, p, k) /\ cu_flags c' = past_end forward (cu_flags c)
  end.
Proof using Hroot.
  intros HI [Hs Hr]. cbn [fst snd] in Hs. unfold tree_items in HI.
  destruct (bind_split _ _ _ _ _ HI) as (l1 & [w0 s] & l2 & u & v & El & Ek & -> & ->).
  assert (forall x, x ∈ l1 \/ x ∈ l2 \/ x = (w0, s) -> x ∈ level h t) as Hin.
  { intros x Hx. rewrite El, elem_of_app, elem_of_cons. naive_solver. }
  destruct (level_items (w0, s)) as (Hn & _ & p0 & Es & Hok); [auto|]. cbn in Es, Hn. subst s.
  destruct (towards_page_items forward (w0, Leaf p0) u v _ ltac:(cbn in *; lia) Ek) as (E & Hk & Htk). cbn in E, Hk, Htk. injection E as -> -> ->.
  rewrite towards_bind by (intros x Hx; apply level_items; auto). unfold cursor_move. cbn zeta. cbn [root_page] in Hn.
  set (k' := if forward then zlen u + 1 else zlen u - 1) in *.
  assert ((if forward then k' <? page_numkeys p0 else 0 <=? k') = (if forward then zlen u + 1 <? page_numkeys p0 else 0 <=? zlen u - 1)) as ->
    by (unfold k'; by destruct forward).
  destruct (if forward then zlen u + 1 <? page_numkeys p0 else 0 <=? zlen u - 1) eqn:Eedge.
  - destruct Htk as [-> Hk'].
    destruct (stands_put_index _ _ _ _ k' Hs ltac:(lia)) as (c1 & E1 & Hs1 & _ & _ & Hr1 & _).
    rewrite E1. cbn [mbind option_bind]. rewrite bool_decide_true by done. cbn [negb].
    destruct (bring_spec c1 w0 p0 _ false Hok Hk' Hs1) as (c2 & x & Hx & -> & Hs2 & [Hr2 _] & Hf). exists c2, x.
    split; [done|]. split; [|done]. split; [done|congruence].
  - rewrite Htk. destruct (stands_top _ _ _ _ Hs) as (Htop & _ & _ & _).
    assert (length w0 = h) as Hw by (by destruct (level_ok h t h w0 (Leaf p0) (ro_tree Hroot) ltac:(lia) ltac:(auto))).
    destruct (sibling_spec h t forward h (ro_tree Hroot) ltac:(lia) (ro_height Hroot) (Z.to_nat (cu_top c)) l1 w0 (Leaf p0) l2 (zlen u) c
      ltac:(rewrite Htop; unfold zlen; lia) El Hs) as (c1 & [Hr1 _] & H1).
    assert ((if forward then cursor_sibling_right uok page_get c else cursor_sibling_left uok page_get c)
      = cursor_sibling uok page_get (Z.to_nat (cu_top c)) forward c) as -> by (by destruct forward).
    destruct (towards forward l1 l2) as [[w' s']|] eqn:Et.
    + destruct H1 as (-> & Hs1 & _). cbn [mbind option_bind]. rewrite bool_decide_true by done. cbn [negb].
      destruct (level_items (w', s')) as (Hn' & _ & p' & Es' & Hok'); [apply Hin; apply towards_elem in Et; tauto|]. cbn in Es', Hn'. subst s'.
      cbn [root_page] in *. rewrite (proj1 (enter_page_items forward w' (Leaf p') ltac:(cbn [root_page]; lia))). cbn [root_page] in *.
      destruct (bring_spec c1 w' p' (entry forward p') false Hok') as (c2 & x & Hx & -> & Hs2 & [Hr2 _] & Hf);
        [unfold entry; destruct forward; lia|done|]. exists c2, x. split; [done|]. split; [|done]. split; [done|congruence].
    + destruct H1 as (-> & Hs1 & Hf & _). cbn [mbind option_bind]. rewrite bool_decide_false by done. cbn [negb].
      exists c1. split; [done|]. split; [|done]. split; [|congruence].
      assert (brink forward p0 = zlen u) as <-; [|done]. unfold brink. destruct forward; lia.
Qed.

(** ** Refinement *)

Definition cursor_do (op : cursor_op) (c : cursor) : option (rc * cursor * option MDBX_val) :=
  match op with
  | OpFirst => inner_first uok page_get checking txn_blocked refresh root_txnid c
  | OpLast => inner_last uok page_get checking txn_blocked refresh root_txnid c
  | OpNext => inner_next uok page_get checking txn_blocked refresh root_txnid c
  | OpPrev => inner_prev uok page_get checking txn_blocked refresh root_txnid c
  end.

Fixpoint cursor_run (ops : list cursor_op) (c : cursor) : option (list (rc * option MDBX_val)) :=
  match ops with
  | [] => Some []
  | op :: ops => '(err, c, k) ← cursor_do op c; r ← cursor_run ops c; Some ((err, k) :: r)
  end.

(** A cursor of this table that was not positioned yet. *)
Definition fresh (c : cursor) : Prop :=
  zlen (cu_pg c) = CURSOR_STACK_SIZE /\ zlen (cu_ki c) = CURSOR_STACK_SIZE /\ cu_root c = root /\
  cu_top c = -1 /\ has (cu_flags c) z_fresh = true.

Definition items_at (c : cursor) (i : nat) : Prop := exists x, tree_items h t !! i = Some x /\ on c x.

(** The position that a cursor represents. *)
Definition represents (c : cursor) (s : spot) : Prop :=
  match s with
  | Unset => fresh c
  | At i => items_at c i /\ calm (cu_flags c)
  | Tail => items_at c (length (tree_items h t) - 1) /\ soft (cu_flags c)
  | Behind => items_at c (length (tree_items h t) - 1) /\ hard (cu_flags c)
  end.

Lemma represents_ready c s : represents c s -> ready c.
Proof using Type.
  assert (forall i, items_at c i -> ready c) as H.
  { intros i (x & Hx & Hon). pose proof Hon as [Hs Hr]. destruct Hs as [_ H2 H3 _].
    split; [done|]. split; [done|]. split; [done|]. right. exists x. split; [by eapply list_elem_of_lookup_2|done]. }
  destruct s; cbn; [|naive_solver..]. intros (H1 & H2 & H3 & H4 & _). split; [done|]. split; [done|]. split; [done|]. by left.
Qed.

Lemma step_middle (forward : bool) c w p k : on c (w, p, k) -> calm (cu_flags c) \/ (forward = false /\ soft (cu_flags c)) ->
  cursor_step uok page_get checking txn_blocked refresh root_txnid forward c = cursor_move uok page_get checking forward c k (page_numkeys p).
Proof using Type.
  intros [Hs _] Hf. destruct (stands_top _ _ _ _ Hs) as (Ht & Hp & Hi & _). cbn [fst snd] in *.
  unfold cursor_step, is_poor. rewrite (proj2 (Z.ltb_ge _ _)) by (rewrite Ht; zlia). rewrite Hp, Hi. cbn [mbind option_bind].
  destruct Hf as [Hf|[-> (m & Hm & Ef)]].
  - unfold calm in Hf. set (f := cu_flags c) in *. clearbody f. by flag_cases f.
  - rewrite Ef. by flag_cases m.
Qed.

Lemma step_at_end c w p k : on c (w, p, k) -> soft (cu_flags c) \/ hard (cu_flags c) ->
  cursor_step uok page_get checking txn_blocked refresh root_txnid true c = Some (MDBX_NOTFOUND, c, None).
Proof using Type.
  intros [Hs _] Hf. destruct (stands_top _ _ _ _ Hs) as (Ht & Hp & Hi & _). cbn [fst snd] in *.
  unfold cursor_step, is_poor. rewrite (proj2 (Z.ltb_ge _ _)) by (rewrite Ht; zlia). rewrite Hp, Hi. cbn [mbind option_bind].
  destruct Hf as [(m & Hm & Ef)|(m & Hm & Ef)]; rewrite Ef; by flag_cases m.
Qed.

Lemma step_back c w p : on c (w, p, page_numkeys p - 1) -> leaf_ok p -> hard (cu_flags c) ->
  exists c' v, cursor_step uok page_get checking txn_blocked refresh root_txnid false c = Some (MDBX_SUCCESS, c', Some v) /\
    item_key (w, p, page_numkeys p - 1) = Some v /\ on c' (w, p, page_numkeys p - 1) /\ calm (cu_flags c').
Proof using Type.
  intros [Hs Hr] Hok (m & Hm & Ef). destruct (stands_top _ _ _ _ Hs) as (Ht & Hp & Hi & _). cbn [fst snd] in *.
  destruct (Hok) as (_ & _ & Hn & _).
  destruct (stands_put_index _ _ _ _ (page_numkeys p - 1) Hs ltac:(lia)) as (c1 & E1 & Hs1 & _ & _ & Hr1 & _).
  destruct (bring_spec c1 w p (page_numkeys p - 1) false Hok ltac:(lia) Hs1) as (c2 & v & Hv & E2 & Hs2 & [Hr2 _] & Hf).
  exists c2, v. split; [|split; [done|]; split; [split; [done|congruence]|done]].
  unfold cursor_step, is_poor. rewrite (proj2 (Z.ltb_ge _ _)) by (rewrite Ht; zlia). rewrite Hp, Hi. cbn [mbind option_bind].
  rewrite Ef, E1. cbn [mbind option_bind]. rewrite <- E2. by flag_cases m.
Qed.

Lemma step_fresh (forward : bool) c : fresh c -> cursor_step uok page_get checking txn_blocked refresh root_txnid forward c =
  cursor_brim uok page_get checking txn_blocked refresh root_txnid forward c.
Proof using Type.
  intros (_ & _ & _ & Ht & Hf). unfold cursor_step, is_poor. rewrite Ht, Hf. cbn. by destruct forward.
Qed.

(** The neighbours of an item of a list. *)
Lemma towards_lookup {A} (forward : bool) (l : list A) i x : l !! i = Some x ->
  l = take i l ++ x :: drop (S i) l /\
  towards forward (take i l) (drop (S i) l) = if forward then l !! S i else match i with O => None | S j => l !! j end.
Proof using Type.
  intros H. split; [by rewrite take_drop_middle|]. destruct forward; cbn [towards].
  - rewrite head_lookup, lookup_drop. f_equal. lia.
  - rewrite last_lookup. apply lookup_lt_Some in H. rewrite length_take_le by lia. destruct i as [|j]; [done|].
    cbn [Nat.pred]. by rewrite lookup_take_lt by lia.
Qed.

Context (keys : list MDBX_val).
Hypothesis Hkeys : Forall2 (fun x v => item_key x = Some v) (tree_items h t) keys.

Lemma key_at i x v : tree_items h t !! i = Some x -> item_key x = Some v -> keys !! i = Some v.
Proof using Hkeys.
  intros Hi Hv. destruct (Forall2_lookup_l _ _ _ _ _ Hkeys Hi) as (v' & -> & Hv'). congruence.
Qed.

Lemma items_length : length keys = length (tree_items h t).
Proof using Hkeys. by apply Forall2_length in Hkeys. Qed.

Lemma brim_refines (first : bool) c : ready c ->
  exists c', cursor_brim uok page_get checking txn_blocked refresh root_txnid first c =
      Some (MDBX_SUCCESS, c', keys !! (if first then 0 else length keys - 1)%nat) /\
    represents c' (if first then At 0 else Tail) /\ (1 <= length keys)%nat.
Proof using Hroot Hkeys.
  intros Hc. destruct (brim_spec first c Hc) as (c' & x & v & -> & He & Hon & Hv & Hf). exists c'.
  assert (tree_items h t !! (if first then 0 else length keys - 1)%nat = Some x) as Hx.
  { rewrite items_length. destruct first; cbn in He; [by rewrite head_lookup in He|].
    rewrite last_lookup in He. rewrite <- He. f_equal. lia. }
  rewrite (key_at _ _ _ Hx Hv). split; [done|]. rewrite items_length in *. pose proof (lookup_lt_Some _ _ _ Hx). split; [|destruct first; lia].
  destruct first; split; try done; by exists x.
Qed.

Lemma move_refines (forward : bool) c i w p k : tree_items h t !! i = Some (w, p, k) -> on c (w, p, k) ->
  match (if forward then keys !! S i else match i with O => None | S j => keys !! j end) with
  | Some v => exists c', cursor_move uok page_get checking forward c k (page_numkeys p) = Some (MDBX_SUCCESS, c', Some v) /\
      represents c' (At (if forward then S i else i - 1)%nat)
  | None => exists c', cursor_move uok page_get checking forward c k (page_numkeys p) = Some (MDBX_NOTFOUND, c', None) /\
      items_at c' i /\ cu_flags c' = past_end forward (cu_flags c)
  end.
Proof using Hroot Hkeys.
  intros Hi Hon. destruct (towards_lookup forward _ _ _ Hi) as [Hsp Ht]. pose proof (move_spec forward c _ w p k _ Hsp Hon) as Hm.
  rewrite Ht in Hm. clear Ht Hsp.
  assert (forall j, match keys !! j with Some v => exists y, tree_items h t !! j = Some y /\ item_key y = Some v | None => tree_items h t !! j = None end) as Hj.
  { intros j. destruct (keys !! j) as [v|] eqn:E.
    - destruct (Forall2_lookup_r _ _ _ _ _ Hkeys E) as (y & Hy & Hv). by exists y.
    - apply lookup_ge_None in E. apply lookup_ge_None. rewrite <- items_length. done. }
  destruct forward; [|destruct i as [|i]].
  - specialize (Hj (S i)). destruct (keys !! S i) as [v|].
    + destruct Hj as (y & Hy & Hv). rewrite Hy in Hm. destruct Hm as (c' & v' & E & Ho & Hv' & Hf). exists c'.
      replace v' with v in * by congruence. split; [done|]. split; [by exists y|done].
    + rewrite Hj in Hm. destruct Hm as (c' & E & Ho & Hf). exists c'. split; [done|]. split; [by eexists|done].
  - destruct Hm as (c' & E & Ho & Hf). exists c'. split; [done|]. split; [by eexists|done].
  - specialize (Hj i). pose proof (lookup_lt_Some _ _ _ Hi) as Hlt. replace (S i - 1)%nat with i by lia. destruct (keys !! i) as [v|] eqn:Ek.
    + destruct Hj as (y & Hy & Hv). rewrite Hy in Hm. destruct Hm as (c' & v' & E & Ho & Hv' & Hf). exists c'.
      replace v' with v in * by congruence. split; [done|]. split; [by exists y|done].
    + apply lookup_ge_None in Hj. lia.
Qed.

Lemma last_item w p k : tree_items h t !! (length (tree_items h t) - 1)%nat = Some (w, p, k) -> k = page_numkeys p - 1 /\ leaf_ok p.
Proof using Hroot.
  intros H. assert (enter false (tree_items h t) = Some (w, p, k)) as He by (cbn; rewrite last_lookup; rewrite <- H; f_equal; lia).
  destruct (item_page w p k) as (_ & Hok & _); [by eapply list_elem_of_lookup_2|]. split; [|done].
  unfold tree_items in He. rewrite enter_bind in He by (intros y Hy; by apply level_items).
  destruct (enter false (level h t)) as [[w' s]|] eqn:El; [|done].
  destruct (level_items _ (enter_elem _ _ _ El)) as (Hn & _). rewrite (proj1 (enter_page_items false w' s ltac:(cbn in *; lia))) in He.
  injection He as -> <- <-. done.
Qed.

Lemma next_refines c s : represents c s ->
  let '(s', r) := list_step (length keys) s OpNext in
  exists c', cursor_do OpNext c = Some ((answer keys r).1, c', (answer keys r).2) /\ represents c' s'.
Proof using Hroot Hkeys.
  intros Hc. cbn [cursor_do]. unfold inner_next. destruct s as [|i| |]; cbn [list_step].
  - destruct (brim_refines true c (represents_ready _ _ Hc)) as (c' & E & H & _). exists c'. by rewrite step_fresh, E.
  - destruct Hc as [([[w p] k] & Hi & Hon) Hf]. rewrite (step_middle true c w p k) by auto.
    pose proof (move_refines true c i w p k Hi Hon) as Hm. cbn beta iota in Hm. pose proof (lookup_lt_Some _ _ _ Hi) as Hlt.
    destruct (bool_decide_reflect (S i < length keys)%nat) as [Hl|Hl].
    + destruct (lookup_lt_is_Some_2 keys (S i) Hl) as [v Hv]. cbn [answer fst snd]. rewrite Hv in Hm |- *. by destruct Hm as (c' & -> & H); exists c'.
    + rewrite (lookup_ge_None_2 keys (S i)) in Hm by lia. destruct Hm as (c' & -> & H & Hfl). exists c'. split; [done|].
      cbn [represents]. rewrite <- items_length. rewrite items_length in Hl. replace (length keys - 1)%nat with i by (rewrite items_length; lia).
      split; [done|]. rewrite Hfl. pose proof (land_clear_mask (cu_flags c)). by exists (Z.land (cu_flags c) z_clear_mask).
  - pose proof Hc as [([[w p] k] & _ & Hon) Hf]. exists c. by rewrite (step_at_end c w p k) by auto.
  - pose proof Hc as [([[w p] k] & _ & Hon) Hf]. exists c. by rewrite (step_at_end c w p k) by auto.
Qed.

Lemma prev_refines c s : represents c s ->
  let '(s', r) := list_step (length keys) s OpPrev in
  exists c', cursor_do OpPrev c = Some ((answer keys r).1, c', (answer keys r).2) /\ represents c' s'.
Proof using Hroot Hkeys.
  intros Hc. cbn [cursor_do]. unfold inner_prev. destruct s as [|i| |]; cbn [list_step].
  - destruct (brim_refines false c (represents_ready _ _ Hc)) as (c' & E & H & _). exists c'. by rewrite step_fresh, E.
  - pose proof Hc as [([[w p] k] & Hi & Hon) Hf]. rewrite (step_middle false c w p k) by auto.
    pose proof (move_refines false c i w p k Hi Hon) as Hm. cbn beta iota in Hm. pose proof (lookup_lt_Some _ _ _ Hi) as Hlt. rewrite <- items_length in Hlt.
    destruct i as [|i].
    + destruct Hm as (c' & -> & H & Hfl). exists c'. split; [done|]. split; [done|]. by rewrite Hfl.
    + destruct (lookup_lt_is_Some_2 keys i ltac:(lia)) as [v Hv]. cbn [answer fst snd]. rewrite Hv in Hm |- *.
      cbn [Nat.sub] in Hm. rewrite Nat.sub_0_r in Hm. by destruct Hm as (c' & -> & H); exists c'.
  - pose proof Hc as [([[w p] k] & Hi & Hon) Hf]. rewrite (step_middle false c w p k) by auto.
    pose proof (move_refines false c _ w p k Hi Hon) as Hm. cbn beta iota in Hm. pose proof (lookup_lt_Some _ _ _ Hi) as Hlt. rewrite <- items_length in *.
    destruct (bool_decide_reflect (2 <= length keys)%nat) as [Hl|Hl].
    + destruct (length keys - 1)%nat as [|j] eqn:Ej; [lia|]. assert (length keys - 2 = j)%nat as -> by lia.
      destruct (lookup_lt_is_Some_2 keys j ltac:(lia)) as [v Hv]. cbn [answer fst snd]. rewrite Hv in Hm |- *.
      cbn [Nat.sub] in Hm. rewrite Nat.sub_0_r in Hm. by destruct Hm as (c' & -> & H); exists c'.
    + assert (length keys - 1 = 0)%nat as Ej by lia. rewrite Ej in Hm.
      destruct Hm as (c' & -> & H & Hfl). exists c'. split; [done|]. cbn [represents]. rewrite <- items_length, Ej. split; [done|]. by rewrite Hfl.
  - pose proof Hc as [([[w p] k] & Hi & Hon) Hf]. destruct (last_item w p k Hi) as [-> Hok].
    destruct (step_back c w p Hon Hok Hf) as (c' & v & -> & Hv & Hon' & Hf'). exists c'. cbn [answer fst snd]. rewrite items_length.
    rewrite (key_at _ _ _ Hi Hv). split; [done|]. split; [by eexists|done].
Qed.

Lemma do_refines op c s : represents c s ->
  let '(s', r) := list_step (length keys) s op in
  exists c', cursor_do op c = Some ((answer keys r).1, c', (answer keys r).2) /\ represents c' s'.
Proof using Hroot Hkeys.
  intros Hc. destruct op; [..|by apply next_refines|by apply prev_refines].
  - destruct (brim_refines true c (represents_ready _ _ Hc)) as (c' & E & H & _). exists c'. done.
  - destruct (brim_refines false c (represents_ready _ _ Hc)) as (c' & E & H & _). exists c'. done.
Qed.

Lemma run_refines ops : forall c s, represents c s -> cursor_run ops c = Some (list_run keys s ops).
Proof using Hroot Hkeys.
  induction ops as [|op ops IH]; intros c s Hc; [done|]. cbn [cursor_run list_run]. pose proof (do_refines op c s Hc) as H.
  destruct (list_step (length keys) s op) as [s' r]. destruct H as (c' & -> & Hc'). cbn [mbind option_bind].
  rewrite (IH c' s' Hc'). cbn. by destruct (answer keys r).
Qed.
End Rooted.
End Trees.

(** ** Traversal *)

Definition found (keys : list MDBX_val) : list (rc * option MDBX_val) := map (fun k => (MDBX_SUCCESS, Some k)) keys.

Lemma scan_next keys : forall n i, (i + S n = length keys)%nat ->
  list_run keys (At i) (replicate (S n) OpNext) = found (drop (S i) keys) ++ [(MDBX_NOTFOUND, None)].
Proof.
  induction n as [|n IH]; intros i Hi; rewrite replicate_S; cbn [list_run list_step].
  - rewrite bool_decide_false by lia. by rewrite drop_ge by lia.
  - rewrite bool_decide_true by lia. destruct (lookup_lt_is_Some_2 keys (S i) ltac:(lia)) as [k Hk]. cbn [answer]. rewrite Hk.
    rewrite (IH (S i)) by lia. by rewrite (drop_S keys k (S i) Hk).
Qed.

Lemma scan_prev keys : forall i, (i < length keys)%nat ->
  list_run keys (At i) (replicate (S i) OpPrev) = found (rev (take i keys)) ++ [(MDBX_NOTFOUND, None)].
Proof.
  induction i as [|i IH]; intros Hi; [done|]. rewrite replicate_S. cbn [list_run list_step]. destruct (lookup_lt_is_Some_2 keys i ltac:(lia)) as [k Hk].
  rewrite IH by lia. cbn [answer]. rewrite Hk.
  rewrite (take_S_r keys i k Hk), rev_app_distr. done.
Qed.

Lemma scan_forward keys : keys <> [] ->
  list_run keys Unset (replicate (S (length keys)) OpNext) = found keys ++ [(MDBX_NOTFOUND, None)].
Proof.
  destruct keys as [|k keys]; [done|]. intros _. set (l := k :: keys). rewrite replicate_S. cbn [list_run list_step].
  assert (length l = S (length keys)) as -> by done. rewrite (scan_next l (length keys) 0) by done. done.
Qed.

Lemma scan_backward keys : keys <> [] ->
  list_run keys Unset (replicate (S (length keys)) OpPrev) = found (rev keys) ++ [(MDBX_NOTFOUND, None)].
Proof.
  intros H. destruct keys as [|k l _] using rev_ind; [done|]. clear H.
  rewrite rev_app_distr, length_app. cbn [length rev app]. rewrite Nat.add_1_r, !replicate_S. cbn [list_run list_step].
  rewrite length_app. cbn [length]. assert (length l + 1 - 1 = length l)%nat as -> by lia. cbn [answer].
  rewrite lookup_app_r, Nat.sub_diag by lia. cbn [lookup list_lookup found map app]. f_equal.
  destruct l as [|k' l' _] using rev_ind; [done|]. rewrite length_app. cbn [length]. rewrite bool_decide_true by lia.
  assert (length l' + 1 + 1 - 2 = length l')%nat as -> by lia. rewrite (Nat.add_1_r (length l')).
  rewrite scan_prev by (rewrite !length_app; cbn; lia). cbn [answer]. rewrite lookup_app_l by (rewrite length_app; cbn; lia).
  rewrite list_lookup_middle by done. rewrite <- app_assoc, take_app_length, rev_app_distr. done.
Qed.

Lemma items_have_keys uok page_get checking txn_blocked refresh root_txnid h t root :
  rooted uok page_get checking txn_blocked refresh root_txnid h t root ->
  exists keys, mapM (item_key uok) (tree_items h t) = Some keys.
Proof.
  intros H. assert (is_Some (mapM (item_key uok) (tree_items h t))) as [keys Hk].
  { apply mapM_is_Some, Forall_forall. intros [[w p] k] Hx. destruct (item_page _ _ _ _ _ _ _ _ _ H _ _ _ Hx) as (_ & Hok & Hi & _).
    by apply Hok. }
  by exists keys.
Qed.

(** C5: a cursor without a nested one, on a tree of pages that [page_get]
    provides (every branch node refers to the next page, every leaf page has the
    expected type), behaves as a cursor on the list of the keys of the tree from
    left to right: every sequence of first, last, next and prev gives the answers
    of the list, that is, the neighbouring key whatever the boundaries of pages
    between, [MDBX_NOTFOUND] at either end, and the last key again on the way back
    from the end. In particular repeated next from a new cursor gives all keys
    once and in order and then [MDBX_NOTFOUND], and repeated prev gives them in
    reverse. *)
Theorem cursor_refines_list uok page_get checking txn_blocked refresh root_txnid h t root c :
  rooted uok page_get checking txn_blocked refresh root_txnid h t root -> fresh root c ->
  let run := fun ops => cursor_run uok page_get checking txn_blocked refresh root_txnid ops c in
  exists keys, mapM (item_key uok) (tree_items h t) = Some keys /\
    (forall ops, run ops = Some (list_run keys Unset ops)) /\
    run (replicate (S (length keys)) OpNext) = Some (found keys ++ [(MDBX_NOTFOUND, None)]) /\
    run (replicate (S (length keys)) OpPrev) = Some (found (rev keys) ++ [(MDBX_NOTFOUND, None)]).
Proof.
  intros Hr Hc run. destruct (items_have_keys _ _ _ _ _ _ _ _ _ Hr) as (keys & Hk). exists keys. split; [done|].
  assert (forall ops, run ops = Some (list_run keys Unset ops)) as Hrun.
  { intros ops. by apply (run_refines _ _ _ _ _ _ h t root Hr keys (mapM_Some_1 _ _ _ Hk)). }
  destruct (brim_refines _ _ _ _ _ _ h t root Hr keys (mapM_Some_1 _ _ _ Hk) true c) as (_ & _ & _ & Hne); [by apply (represents_ready h t root c Unset)|].
  assert (keys <> []) by (by intros ->; cbn in Hne; lia). split; [done|]. rewrite !Hrun. by rewrite scan_forward, scan_backward.
Qed.

(** A tree of two leaf pages of fixed-size items under one branch page. *)
Definition two_nodes : bytes := [8; 0; 16; 0; 0; 0; 0; 0; 1; 0; 0; 0; 0; 0; 0; 0; 2; 0; 0; 0; 0; 0; 0; 0].
Definition sample_root : page := mk_page 7 0 P_BRANCH 4 8 3 two_nodes.
Definition sample_leaf (pgno : Z) (items : bytes) : page := mk_page 7 1 (Z.lor P_LEAF P_DUPFIX) (2 * zlen items) 16 pgno items.
Definition sample_tree : tree := Branch sample_root [Leaf (sample_leaf 1 [10; 20]); Leaf (sample_leaf 2 [30])].
Definition sample_pages (pgno txnid : Z) : option (rc * option page) :=
match zget [sample_leaf 1 [10; 20]; sample_leaf 2 [30]; sample_root] (pgno - 1) with
| Some mp => Some (MDBX_SUCCESS, Some mp)
| None => Some (MDBX_CORRUPTED, None)
end.
Definition sample_cursor : cursor :=
mk_cursor (Z.lor z_inner z_fresh) (-1) 0 3 (replicate 32 sample_root) (replicate 32 0) false.

Lemma sample_rooted : rooted 7 sample_pages (Z.lor P_LEAF P_DUPFIX) false MDBX_SUCCESS 7 1 sample_tree 3.
Proof.
  assert (forall pgno items, 1 <= zlen items <= 10 -> leaf_ok 7 (Z.lor P_LEAF P_DUPFIX) (sample_leaf pgno items)) as Hl.
  { intros pgno items Hz. assert (page_numkeys (sample_leaf pgno items) = zlen items) as E.
    { unfold page_numkeys, sample_leaf. cbn [pg_lower]. rewrite Z.shiftr_div_pow2, Z.mul_comm by lia. apply Z.div_mul. lia. }
    split; [done|]. split; [done|]. rewrite E. split; [lia|]. intros k _. by eexists. }
  constructor; try done. split; [split; [done|]|].
  - split; [done|]. split; [by vm_compute|]. intros i c Hi. pose proof (zget_range _ _ _ Hi) as Hr. change (zlen _) with 2 in Hr.
    assert (i = 0 \/ i = 1) as [-> | ->] by lia; injection Hi as <-.
    + by exists 8, 1.
    + by exists 16, 2.
  - repeat constructor; by apply Hl.
Qed.

Lemma cursor_refines_list_witness :
  mapM (item_key 7) (tree_items 1 sample_tree) = Some [mk_val [10; 20] 0 1; mk_val [10; 20] 1 1; mk_val [30] 0 1] /\
  cursor_run 7 sample_pages (Z.lor P_LEAF P_DUPFIX) false MDBX_SUCCESS 7 [OpNext; OpNext; OpNext; OpNext; OpPrev; OpPrev] sample_cursor =
    Some (list_run [mk_val [10; 20] 0 1; mk_val [10; 20] 1 1; mk_val [30] 0 1] Unset [OpNext; OpNext; OpNext; OpNext; OpPrev; OpPrev]).
Proof.
  assert (mapM (item_key 7) (tree_items 1 sample_tree) = Some [mk_val [10; 20] 0 1; mk_val [10; 20] 1 1; mk_val [30] 0 1]) as E by (by vm_compute).
  destruct (cursor_refines_list 7 sample_pages (Z.lor P_LEAF P_DUPFIX) false MDBX_SUCCESS 7 1 sample_tree 3 sample_cursor sample_rooted) as (keys & Hk & Hrun & _).
  - repeat split.
  - rewrite E in Hk. injection Hk as <-. split; [exact E|apply Hrun].
Defined.
