(* ===== verification/Lookup.v ===== *)
(** * Lookup of a key in a tree ([tree-search.c] over [cogs.c] and [tree-search] variants)

    The descent of [tree_search] from the root with the search on branch pages
    ([tree_search_branch]), and then the search on the leaf page
    ([tree_search_foliage]), for trees whose separators bound the keys of the
    subtrees. The definitions are those of [Cursor] and [TreeSearch]; here is what
    an ordered tree is, and that the lookup in it is right. *)

From stdpp Require Import base numbers option list.
From Stdlib Require Import ZArith Lia Sorting.Sorted.
From S2P Require Import Prelude Bits Alloc Pnl Dpl Bytes Cmp Page Node NodeProofs TreeSearch Cursor CursorProofs.

(** The cursor of a table on a page. *)
Definition sc_on (mc : scursor) (mp : page) : scursor :=
mk_sc mp (sc_cmp mc) (sc_tree_flags mc) (sc_dupfix_size mc) (sc_inner mc) (sc_validation mc) (sc_lmin mc) (sc_lmax mc).

Section Ordered.
(** A table, and the size of its integer keys, if its keys are integers. *)
Context (mc : scursor) (n : Z).

Definition klt (a b : bytes) : Prop := key_order (sc_tree_flags mc) a b = Lt.

Definition not_below (lo : option bytes) (k : bytes) : Prop := match lo with Some a => a = k \/ klt a k | None => True end.
Definition below (hi : option bytes) (k : bytes) : Prop := match hi with Some b => klt k b | None => True end.
Definition within (lo hi : option bytes) (k : bytes) : Prop := not_below lo k /\ below hi k.

(** Admissible keys in strict order within bounds. *)
Definition sorted_keys (lo hi : option bytes) (ks : list bytes) : Prop :=
Forall (key_fits mc n) ks /\ StronglySorted klt ks /\ Forall (within lo hi) ks.

(** The keys of the nodes of a branch page that separate its subtrees; that of
    the first node is not used. *)
Definition separators (ns : list anode) : list bytes := an_key <$> drop 1 ns.

(** The bounds of the subtree at an index. *)
Definition bound_lo (lo : option bytes) (seps : list bytes) (i : nat) : option bytes :=
match i with O => lo | S i => seps !! i end.
Definition bound_hi (hi : option bytes) (seps : list bytes) (i : nat) : option bytes :=
match seps !! i with Some s => Some s | None => hi end.

(** A tree whose leaf pages hold the keys [ks] from left to right, all of them
    within bounds. *)
Fixpoint ordered (h : nat) (t : tree) (lo hi : option bytes) (ks : list bytes) : Prop :=
match h, t with
| O, Leaf p => exists ns, page_nodes p ns /\ is_branch p = false /\ 0 < zlen ns /\ ks = an_key <$> ns /\ sorted_keys lo hi ks
| S h, Branch p cs => exists ns kss, page_nodes p ns /\ is_branch p = true /\ is_dupfix_leaf p = false /\
    length ns = length cs /\ (2 <= length cs)%nat /\ sorted_keys lo hi (separators ns) /\ ks = concat kss /\ length kss = length cs /\
    forall i c k, cs !! i = Some c -> kss !! i = Some k ->
      ordered h c (bound_lo lo (separators ns) i) (bound_hi hi (separators ns) i) k
| _, _ => False
end.

Definition kc : bytes -> Prop := key_class (has (sc_tree_flags mc) MDBX_INTEGERKEY) n.

Definition opt_class (b : option bytes) : Prop := match b with Some k => kc k | None => True end.

Lemma klt_trans a b c : kc a -> kc b -> kc c -> klt a b -> klt b c -> klt a c.
Proof. intros Ha Hb Hc. unfold klt. by apply (order_trans (P := kc)). Qed.

Lemma klt_irrefl a : kc a -> ~ klt a a.
Proof. intros Ha H. unfold klt in H. by rewrite (proj2 (order_eq (P := kc) a a Ha Ha) eq_refl) in H. Qed.

Lemma klt_gt a b : kc a -> kc b -> key_order (sc_tree_flags mc) a b = Gt -> klt b a.
Proof. intros Ha Hb H. unfold klt. rewrite (order_antisym (P := kc) a b Ha Hb). by rewrite H. Qed.

Lemma fits_class ks : Forall (key_fits mc n) ks -> Forall kc ks.
Proof. intros H. eapply Forall_impl; [done|]. by intros k [? _]. Qed.

(** The bounds of a subtree are within those of the tree. *)
Lemma bounds_nested lo hi seps i k : opt_class lo -> opt_class hi -> sorted_keys lo hi seps -> (i <= length seps)%nat -> kc k ->
  within (bound_lo lo seps i) (bound_hi hi seps i) k -> within lo hi k.
Proof.
  intros Hlo Hhi (Hf & _ & Hw) Hi Hk [H1 H2]. apply fits_class in Hf. rewrite Forall_forall in Hf, Hw. split.
  - destruct i as [|i]; cbn in H1; [done|]. destruct (lookup_lt_is_Some_2 seps i ltac:(lia)) as [s Hs]. rewrite Hs in H1.
    destruct (Hw s (list_elem_of_lookup_2 _ _ _ Hs)) as [Hls _]. specialize (Hf s (list_elem_of_lookup_2 _ _ _ Hs)).
    destruct lo as [a|]; [|done]. cbn in *. destruct Hls as [->|Hls]; [done|]. right. destruct H1 as [<-|H1]; [done|]. by apply (klt_trans a s k).
  - unfold bound_hi in H2. destruct (seps !! i) as [s|] eqn:Hs; [|done]. destruct (Hw s (list_elem_of_lookup_2 _ _ _ Hs)) as [_ Hhs].
    specialize (Hf s (list_elem_of_lookup_2 _ _ _ Hs)). destruct hi as [b|]; [|done]. cbn in *. by apply (klt_trans k s b).
Qed.

Lemma bounds_class lo hi seps i : opt_class lo -> opt_class hi -> Forall (key_fits mc n) seps ->
  opt_class (bound_lo lo seps i) /\ opt_class (bound_hi hi seps i).
Proof.
  intros Hlo Hhi Hf. apply fits_class in Hf. rewrite Forall_forall in Hf. split.
  - destruct i as [|i]; cbn; [done|]. destruct (seps !! i) eqn:E; [|done]. by apply Hf, (list_elem_of_lookup_2 _ _ _ E).
  - unfold bound_hi. destruct (seps !! i) eqn:E; [|done]. by apply Hf, (list_elem_of_lookup_2 _ _ _ E).
Qed.

Lemma separators_length ns : length (separators ns) = (length ns - 1)%nat.
Proof. unfold separators. by rewrite length_fmap, length_drop. Qed.

Lemma ordered_within h : forall t lo hi ks, opt_class lo -> opt_class hi -> ordered h t lo hi ks ->
  Forall (key_fits mc n) ks /\ Forall (within lo hi) ks.
Proof.
  induction h as [|h IH]; intros [p|p cs] lo hi ks Hlo Hhi; try done.
  - by intros (ns & _ & _ & _ & _ & ? & _ & ?).
  - intros (ns & kss & _ & _ & _ & Hlen & _ & Hs & -> & Hkl & Hsub).
    assert (forall j k, kss !! j = Some k -> Forall (key_fits mc n) k /\ Forall (within lo hi) k) as Hall.
    { intros j k Hj. pose proof (lookup_lt_Some _ _ _ Hj) as Hlt. destruct (lookup_lt_is_Some_2 cs j ltac:(lia)) as [c Hc].
      destruct (bounds_class lo hi (separators ns) j Hlo Hhi (proj1 Hs)) as [B1 B2].
      destruct (IH c _ _ k B1 B2 (Hsub j c k Hc Hj)) as [F W]. split; [done|].
      apply Forall_forall. intros x Hx. rewrite Forall_forall in W, F.
      apply (bounds_nested lo hi (separators ns) j); [done|done|done|rewrite separators_length; lia|by apply F|by apply W]. }
    split; apply Forall_concat, Forall_forall; intros k (j & Hj)%list_elem_of_lookup_1; by apply (Hall j).
Qed.

(** The subtrees before and after the one at an index lie before and after any
    key that the separators place there. *)
Lemma subtrees_apart h cs lo hi ns kss key i :
  opt_class lo -> opt_class hi -> kc key -> Forall (key_fits mc n) (separators ns) -> length ns = length cs -> length kss = length cs -> (i < length cs)%nat ->
  (forall j c k, cs !! j = Some c -> kss !! j = Some k -> ordered h c (bound_lo lo (separators ns) j) (bound_hi hi (separators ns) j) k) ->
  (forall j s, separators ns !! j = Some s -> if decide (j < i)%nat then s = key \/ klt s key else klt key s) ->
  Forall (fun k => klt k key) (concat (take i kss)) /\ Forall (fun k => klt key k) (concat (drop (S i) kss)).
Proof.
  intros Hlo Hhi Hkey Hf Hlen Hkl Hic Hsub Hcut. pose proof (separators_length ns) as Hsl.
  assert (forall j k, kss !! j = Some k -> Forall (key_fits mc n) k /\ Forall (within (bound_lo lo (separators ns) j) (bound_hi hi (separators ns) j)) k) as Hall.
  { intros j k Hj. pose proof (lookup_lt_Some _ _ _ Hj). destruct (lookup_lt_is_Some_2 cs j ltac:(lia)) as [c Hc].
    destruct (bounds_class lo hi (separators ns) j Hlo Hhi Hf).
    apply (ordered_within h c); [done|done|by apply Hsub]. }
  apply fits_class in Hf. rewrite Forall_forall in Hf.
  split; apply Forall_concat, Forall_forall; intros k (j & Hj)%list_elem_of_lookup_1; apply Forall_forall; intros x Hx.
  - apply lookup_take_Some in Hj as [Hj Hji]. destruct (Hall j k Hj) as [F W]. rewrite Forall_forall in F, W.
    destruct (lookup_lt_is_Some_2 (separators ns) j ltac:(lia)) as [s Hs]. specialize (Hcut j s Hs). rewrite decide_True in Hcut by done.
    destruct (W x Hx) as [_ Hb]. destruct (F x Hx) as [Hxc _]. unfold bound_hi in Hb. rewrite Hs in Hb. cbn in Hb.
    destruct Hcut as [->|Hc]; [done|]. apply (klt_trans x s key); try done. by apply Hf, (list_elem_of_lookup_2 _ _ _ Hs).
  - rewrite lookup_drop in Hj. cbn [Nat.add] in Hj. pose proof (lookup_lt_Some _ _ _ Hj). destruct (Hall _ k Hj) as [F W]. rewrite Forall_forall in F, W.
    destruct (lookup_lt_is_Some_2 (separators ns) (i + j)%nat ltac:(lia)) as [s Hs]. specialize (Hcut _ s Hs). rewrite decide_False in Hcut by lia.
    destruct (W x Hx) as [Hb _]. destruct (F x Hx) as [Hxc _]. cbn in Hb. rewrite Hs in Hb. cbn in Hb.
    destruct Hb as [<-|Hb]; [done|]. apply (klt_trans key s x); try done. by apply Hf, (list_elem_of_lookup_2 _ _ _ Hs).
Qed.
End Ordered.

Section Descent.
Context (uok : Z) (page_get : Z -> Z -> option (rc * option page)) (checking : Z).
Context (mc : scursor) (n : Z) (key : MDBX_val).

(** The key and the comparator of the table. *)
Record sought : Prop := {
  so_cmp : sc_cmp mc = keycmp_of (sc_tree_flags mc);
  so_usual : has (sc_tree_flags mc) MDBX_DUPFIXED && sc_inner mc = false;
  so_n : n = 4 \/ n = 8;
  so_key : val_ok key;
  so_fits : key_fits mc n (val_bytes key);
}.

Hypothesis Hso : sought.

(** A sorted list is cut by the key: what is before the place is not greater, and
    what is behind it is greater. *)
Definition cut_at (seps : list bytes) (i : nat) : Prop :=
forall j s, seps !! j = Some s -> if decide (j < i)%nat then s = val_bytes key \/ klt mc s (val_bytes key) else klt mc (val_bytes key) s.

Definition choose (mp : page) : option Z := tree_search_branch_configure uok (sc_on mc mp) key.

Lemma located_cut_at p ns less exact : is_branch p = true -> Forall (key_fits mc n) (separators ns) ->
  located (sc_on mc p) ns (val_bytes key) less exact -> cut_at (separators ns) (length less + if exact then 1 else 0).
Proof using Hso.
  intros Hb Hf (rest & E & Hless & Hrest). cbn [sc_on sc_pg sc_tree_flags] in *. rewrite Hb in E. fold (separators ns) in E.
  rewrite E in *. clear E. apply fits_class in Hf. apply Forall_app in Hf as [_ Hf].
  assert (kc mc n (val_bytes key)) as Hk by apply (so_fits Hso). intros j s Hj. rewrite Forall_forall in Hless.
  destruct (decide (j < length less)%nat) as [Hl|Hl].
  - rewrite lookup_app_l in Hj by done. rewrite decide_True by lia. right. by apply Hless, (list_elem_of_lookup_2 _ _ _ Hj).
  - rewrite lookup_app_r in Hj by lia. destruct exact.
    + destruct Hrest as (rest' & -> & Hr). destruct (j - length less)%nat as [|i] eqn:Ei.
      * injection Hj as <-. rewrite decide_True by lia. by left.
      * rewrite decide_False by lia. apply Forall_cons in Hf as [_ Hf]. rewrite Forall_forall in Hr, Hf. cbn in Hj.
        apply (klt_gt mc n); [by apply Hf, (list_elem_of_lookup_2 _ _ _ Hj)|done|by apply Hr, (list_elem_of_lookup_2 _ _ _ Hj)].
    + rewrite decide_False by lia. rewrite Forall_forall in Hrest, Hf.
      apply (klt_gt mc n); [by apply Hf, (list_elem_of_lookup_2 _ _ _ Hj)|done|by apply Hrest, (list_elem_of_lookup_2 _ _ _ Hj)].
Qed.

Lemma branch_choice p ns lo hi : page_nodes p ns -> is_branch p = true -> is_dupfix_leaf p = false -> (2 <= length ns)%nat ->
  sorted_keys mc n lo hi (separators ns) ->
  exists i, choose p = Some (Z.of_nat i) /\ (i < length ns)%nat /\ cut_at (separators ns) i.
Proof using Hso.
  intros Hp Hb Hd Hn (Hf & Hs & _).
  destruct (page_search_finds uok (sc_on mc p) n ns key) as (less & exact & steps & Hloc & _ & Hbr).
  { destruct Hso as [S1 S2 S3 S4 S5]. split; cbn [sc_on sc_pg sc_cmp sc_tree_flags sc_inner]; try done; rewrite Hb; [unfold zlen; lia|done..]. }
  cbn [sc_on sc_pg] in Hbr. specialize (Hbr Hb Hd). rewrite Hb in Hbr.
  exists (length less + if exact then 1 else 0)%nat. split; [|split].
  - unfold choose. rewrite Hbr. f_equal. unfold zlen. destruct exact; lia.
  - destruct Hloc as (rest & E & _ & Hr). cbn [sc_on sc_pg] in E. rewrite Hb in E. fold (separators ns) in E.
    apply (f_equal length) in E. rewrite separators_length, length_app in E. destruct exact; [destruct Hr as (? & -> & _); cbn in E|]; lia.
  - by apply (located_cut_at p).
Qed.

Lemma cut_within lo hi seps i : cut_at seps i -> (i <= length seps)%nat -> within mc lo hi (val_bytes key) ->
  within mc (bound_lo lo seps i) (bound_hi hi seps i) (val_bytes key).
Proof using Type.
  intros Hcut Hi [H1 H2]. split.
  - destruct i as [|i]; cbn; [done|]. destruct (lookup_lt_is_Some_2 seps i ltac:(lia)) as [s Hs]. rewrite Hs.
    specialize (Hcut i s Hs). by rewrite decide_True in Hcut by lia.
  - unfold bound_hi. destruct (seps !! i) as [s|] eqn:Hs; [|done]. specialize (Hcut i s Hs). by rewrite decide_False in Hcut by lia.
Qed.

(** The leaf page where the key belongs, among the keys [ks]. *)
Definition lands (ks : list bytes) (p : page) : Prop :=
exists ns before behind, page_nodes p ns /\ 0 < zlen ns /\ Forall (key_fits mc n) (an_key <$> ns) /\ StronglySorted (klt mc) (an_key <$> ns) /\
  ks = before ++ (an_key <$> ns) ++ behind /\
  Forall (fun k => klt mc k (val_bytes key)) before /\ Forall (fun k => klt mc (val_bytes key) k) behind.

Lemma lands_around a b ks p : Forall (fun k => klt mc k (val_bytes key)) a -> Forall (fun k => klt mc (val_bytes key) k) b ->
  lands ks p -> lands (a ++ ks ++ b) p.
Proof using Type.
  intros Ha Hb (ns & x & y & H1 & H2 & H3 & H4 & -> & Hx & Hy). exists ns, (a ++ x), (y ++ b).
  split; [done|]. split; [done|]. split; [done|]. split; [done|]. rewrite <- !app_assoc, !Forall_app. done.
Qed.

Lemma concat_split (kss : list (list bytes)) i k : kss !! i = Some k -> concat kss = concat (take i kss) ++ k ++ concat (drop (S i) kss).
Proof using Type. intros H. rewrite <- (take_drop_middle kss i k H) at 1. by rewrite concat_app. Qed.

Lemma descend_spec h t : tree_ok uok page_get checking h t -> Z.of_nat h < CURSOR_STACK_SIZE ->
  forall m d fuel c w s lo hi ks, m = (h - d)%nat -> (d <= h)%nat -> (m <= fuel)%nat -> (w, s) ∈ level d t ->
  ordered mc n m s lo hi ks -> opt_class mc n lo -> opt_class mc n hi -> within mc lo hi (val_bytes key) ->
  stands c (w ++ [(root_page s, 0)]) ->
  exists c' w' p, search_loop uok page_get checking fuel choose c = Some (MDBX_SUCCESS, c') /\ (w', Leaf p) ∈ level h t /\
    stands c' (w' ++ [(p, 0)]) /\ lands ks p /\ is_branch p = false /\ same_cursor c c' /\ cu_flags c' = cu_flags c.
Proof using Hso.
  intros Ht Hh. induction m as [|m IH]; intros d fuel c w s lo hi ks Hm Hd Hfuel Hin Hord Hlo Hhi Hkey Hs;
    (destruct (stands_top _ _ _ _ Hs) as (_ & Hpage & _ & _)).
  - assert (d = h) as -> by lia. destruct s as [p|]; [|done]. destruct Hord as (ns & Hns & Hb & Hlen & -> & (Hf & Hsort & _)).
    destruct (level_ok uok page_get checking h t h w _ Ht ltac:(lia) Hin) as [Hok _]. rewrite Nat.sub_diag in Hok. destruct Hok as (_ & Hty & _).
    exists c, w, p. split; [|split; [done|]; split; [done|]; split; [|done]].
    + destruct fuel; cbn [search_loop]; rewrite Hpage; cbn [mbind option_bind root_page]; by rewrite Hb, Hty.
    + exists ns, [], []. rewrite app_nil_r. split_and!; try done; constructor.
  - destruct fuel as [|fuel]; [lia|]. cbn [search_loop]. rewrite Hpage. cbn [mbind option_bind].
    destruct (level_kids uok page_get checking h t d (w, s)) as (q & cs & Eq & Hbr & _ & Hlen & Hsub); [done|lia|done|]. cbn in Eq, Hlen. subst s.
    destruct Hord as (ns & kss & Hns & Hb & Hdf & Hnc & H2 & Hsep & -> & Hkl & Hch). cbn [root_page] in *. rewrite Hb.
    destruct (branch_choice q ns lo hi Hns Hb Hdf ltac:(lia) Hsep) as (i & -> & Hi & Hcut). cbn [mbind option_bind].
    destruct (lookup_lt_is_Some_2 cs i ltac:(lia)) as [s' Hs']. destruct (lookup_lt_is_Some_2 kss i ltac:(lia)) as [k' Hk'].
    pose proof (page_nodes_numkeys _ _ Hns) as [_ H15]. unfold zlen in H15.
    destruct (stands_put_index _ _ _ _ (Z.of_nat i) Hs ltac:(lia)) as (c1 & E1 & Hs1 & Hf1 & _ & Hsame1). rewrite E1. cbn [mbind option_bind].
    assert (links uok page_get q (Z.of_nat i) (root_page s')) as Hl by (destruct Hbr as (_ & _ & _ & Hl); apply Hl; by rewrite zget_lookup).
    destruct (enter_child uok page_get c1 w q _ (root_page s') 0 Hs1 Hl) as (c2 & Ef & Ep & Hs2 & Hf2 & _ & Hsame2); [unfold zlen; lia|lia|].
    rewrite Ef. cbn [mbind option_bind]. rewrite Ep. cbn [mbind option_bind]. rewrite decide_True by done.
    pose proof (separators_length ns) as Hsl. destruct (bounds_class mc n lo hi (separators ns) i Hlo Hhi (proj1 Hsep)) as [B1 B2].
    destruct (IH (S d) fuel c2 (w ++ [(q, Z.of_nat i)]) s' (bound_lo lo (separators ns) i) (bound_hi hi (separators ns) i) k'
      ltac:(lia) ltac:(lia) ltac:(lia)) as (c3 & w' & p & E & H3 & H4 & H5 & H6 & H7 & H8);
      [|by apply (Hch i)|done|done|apply cut_within; [done|lia|done]|done|].
    { cbn [level]. apply list_elem_of_bind. exists (w, Branch q cs). split; [|done]. cbn. by apply list_elem_of_lookup_2 with i, kids_at. }
    exists c3, w', p. split; [done|]. split; [done|]. split; [done|]. split; [|split; [done|]; split; [|congruence]].
    + rewrite (concat_split kss i k' Hk'). destruct (subtrees_apart mc n m cs lo hi ns kss (val_bytes key) i) as [Ha Hz]; try done; [apply Hso|apply Hsep|lia|].
      by apply lands_around.
    + by eapply same_cursor_trans; [|eapply same_cursor_trans].
Qed.

(** The place of the key on its page is its place among all keys. *)
Lemma page_place ks p : lands ks p -> is_branch p = false ->
  exists ns i exact steps, page_nodes p ns /\ 0 <= i <= zlen ns /\
    tree_search_foliage_configure uok (sc_on mc p) key =
      Some ((i, mk_sfr exact (if i <? zlen ns then node_at p i else None), steps), sc_on mc p) /\
    (if exact then exists nd, zget ns i = Some nd /\ an_key nd = val_bytes key else val_bytes key ∉ ks) /\
    exists smaller others, ks = smaller ++ drop (Z.to_nat i) (an_key <$> ns) ++ others /\
      Forall (fun k => klt mc k (val_bytes key)) smaller /\
      Forall (fun k => k = val_bytes key \/ klt mc (val_bytes key) k) (drop (Z.to_nat i) (an_key <$> ns) ++ others).
Proof using Hso.
  intros (ns & before & behind & Hns & Hlen & Hf & Hsort & -> & Hbf & Hbh) Hb.
  destruct (page_search_finds uok (sc_on mc p) n ns key) as (less & exact & steps & (rest & E & Hl & Hr) & Hfol & _).
  { destruct Hso as [S1 S2 S3 S4 S5]. split; cbn [sc_on sc_pg sc_cmp sc_tree_flags sc_inner]; try done; rewrite Hb; done. }
  cbn [sc_on sc_pg sc_tree_flags] in *. rewrite Hb in *. rewrite drop_0 in E. rewrite Z.add_0_l in Hfol. assert (kc mc n (val_bytes key)) as Hk by apply (so_fits Hso).
  assert (zlen less + zlen rest = zlen ns) as Hz by (pose proof (f_equal zlen E) as Ez; rewrite zlen_fmap in Ez; zlia).
  pose proof (zlen_nonneg less). pose proof (zlen_nonneg rest). rewrite E in Hf |- *. apply fits_class, Forall_app in Hf as [Hfl Hfr].
  assert (Forall (fun k => k = val_bytes key \/ klt mc (val_bytes key) k) rest /\
    if exact then exists nd, zget ns (zlen less) = Some nd /\ an_key nd = val_bytes key else Forall (klt mc (val_bytes key)) rest) as [Hge Hex].
  { assert (forall r, Forall (kc mc n) r -> Forall (fun k => key_order (sc_tree_flags mc) k (val_bytes key) = Gt) r -> Forall (klt mc (val_bytes key)) r) as Hgt.
    { intros r H1 H2. rewrite Forall_forall in *. intros k Hin. apply (klt_gt mc n); auto. }
    destruct exact.
    - destruct Hr as (rest' & -> & Hr'). apply Forall_cons in Hfr as [_ Hfr]. split.
      + constructor; [by left|]. eapply Forall_impl; [by apply Hgt|]. by right.
      + unfold zlen. rewrite zget_lookup. assert ((an_key <$> ns) !! length less = Some (val_bytes key)) as Hlk by (rewrite E; by apply list_lookup_middle).
        rewrite list_lookup_fmap in Hlk. destruct (ns !! length less) as [nd|]; [|done]. injection Hlk as Hlk. by exists nd.
    - split; [|by apply Hgt]. eapply Forall_impl; [by apply Hgt|]. by right. }
  exists ns, (zlen less), exact, steps. split; [done|]. split; [lia|]. split; [exact Hfol|].
  assert (drop (Z.to_nat (zlen less)) (less ++ rest) = rest) as Hdrop by (unfold zlen; rewrite Nat2Z.id; apply drop_app_length).
  split.
  - destruct exact; [done|]. rewrite !elem_of_app. rewrite Forall_forall in Hbf, Hbh, Hl, Hex.
    intros [Hin|[[Hin|Hin]|Hin]]; apply (klt_irrefl mc n _ Hk);
      [by apply Hbf|by apply Hl|by apply Hex|by apply Hbh].
  - exists (before ++ less), behind. rewrite E, Hdrop. split; [by rewrite <- !app_assoc|]. split; [by apply Forall_app|].
    apply Forall_app. split; [done|]. eapply Forall_impl; [done|]. by right.
Qed.
End Descent.

(** C4: the lookup of a key. In a tree of pages that [page_get] provides, whose
    separators bound the keys of its subtrees, [tree_search] for a key succeeds
    and leaves the cursor on a leaf page of the tree, on which
    [tree_search_foliage] gives the place of the key: if [exact], the node there
    has the key, and otherwise the key is nowhere in the tree; and the place is
    that of the key among all keys of the tree, those before it being less and
    those from it on being not less. *)
Theorem lookup_finds uok page_get checking txn_blocked refresh root_txnid h t root c mc n key ks :
  rooted uok page_get checking txn_blocked refresh root_txnid h t root -> ordered mc n h t None None ks ->
  sought mc n key -> ready h t root c ->
  exists c' w p ns i exact steps,
    tree_search uok page_get checking txn_blocked refresh root_txnid c (Z_KEY (choose uok mc key)) = Some (MDBX_SUCCESS, c') /\
    (w, Leaf p) ∈ level h t /\ stands c' (w ++ [(p, 0)]) /\ page_nodes p ns /\ 0 <= i <= zlen ns /\
    tree_search_foliage_configure uok (sc_on mc p) key =
      Some ((i, mk_sfr exact (if i <? zlen ns then node_at p i else None), steps), sc_on mc p) /\
    (if exact then exists nd, zget ns i = Some nd /\ an_key nd = val_bytes key else val_bytes key ∉ ks) /\
    exists smaller others, ks = smaller ++ drop (Z.to_nat i) (an_key <$> ns) ++ others /\
      Forall (fun k => klt mc k (val_bytes key)) smaller /\
      Forall (fun k => k = val_bytes key \/ klt mc (val_bytes key) k) (drop (Z.to_nat i) (an_key <$> ns) ++ others).
Proof.
  intros Hr Hord Hso Hc. destruct (search_from_root uok page_get checking txn_blocked refresh root_txnid h t root Hr (choose uok mc key) c Hc)
    as (c1 & -> & Hs1).
  destruct (descend_spec uok page_get checking mc n key Hso h t (ro_tree _ _ _ _ _ _ _ _ _ Hr) (ro_height _ _ _ _ _ _ _ _ _ Hr)
    h 0 (Z.to_nat CURSOR_STACK_SIZE) c1 [] t None None ks) as (c' & w & p & E & Hin & Hs & Hl & Hb & _); try done; try lia.
  { pose proof (ro_height _ _ _ _ _ _ _ _ _ Hr). lia. }
  { cbn [level]. by left. }
  destruct (page_place uok mc n key Hso ks p Hl Hb) as (ns & i & exact & steps & H1 & H2 & H3 & H4 & H5).
  exists c', w, p, ns, i, exact, steps. done.
Qed.

(** A tree of two leaf pages with one key each. *)
Definition two_leaf (pgno k : Z) : page := mk_page 1 0 P_LEAF 2 4 pgno (words16 [4] ++ [0; 0] ++ node_image (mk_anode 1 0 0 [k] [9])).
Definition two_branch_nodes : list anode := [mk_anode 1 0 0 [] []; mk_anode 2 0 0 [15; 0] []].
Definition two_branch : page :=
mk_page 1 0 P_BRANCH 4 6 3 (words16 [6; 14] ++ [0; 0] ++ node_image (mk_anode 1 0 0 [] []) ++ node_image (mk_anode 2 0 0 [15; 0] [])).
Definition two_tree : tree := Branch two_branch [Leaf (two_leaf 1 7); Leaf (two_leaf 2 20)].
Definition two_pages (pgno txnid : Z) : option (rc * option page) :=
match zget [two_leaf 1 7; two_leaf 2 20; two_branch] (pgno - 1) with
| Some mp => Some (MDBX_SUCCESS, Some mp)
| None => Some (MDBX_CORRUPTED, None)
end.
Definition two_cursor : cursor := mk_cursor z_fresh (-1) 0 3 (replicate 32 two_branch) (replicate 32 0) false.
Definition two_table : scursor := mk_sc two_branch K_lexical 0 0 false false 0 30.

Lemma two_leaf_nodes pgno k : is_byte k -> page_nodes (two_leaf pgno k) [mk_anode 1 0 0 [k] [9]].
Proof.
  intros Hk. assert (Forall is_byte (node_image (mk_anode 1 0 0 [k] [9]))) as Hi.
  { unfold node_image. rewrite !Forall_app. split_and!; try by apply bytes_check. cbn. by constructor. }
  exists [(4, mk_anode 1 0 0 [k] [9])], [0; 0], (node_image (mk_anode 1 0 0 [k] [9])). split; [|done]. split; try done.
  - by apply bytes_check.
  - constructor; [|constructor]. split_and!; [done| |exists [], [], []; done].
    split; try done; try by apply bytes_check. by constructor.
Qed.

Lemma two_branch_page_nodes : page_nodes two_branch two_branch_nodes.
Proof.
  exists (zip [6; 14] two_branch_nodes), [0; 0], (node_image (mk_anode 1 0 0 [] []) ++ node_image (mk_anode 2 0 0 [15; 0] [])).
  split; [|done]. split; try done; try by apply bytes_check.
  - constructor; [|constructor; [|constructor]]; (split_and!; [done|by split; try apply bytes_check|]).
    + exists [], [], (node_image (mk_anode 2 0 0 [15; 0] [])). done.
    + exists (node_image (mk_anode 1 0 0 [] [])), [], []. done.
  - split; [|by repeat constructor]. constructor; [|constructor]. left. done.
Qed.

Lemma two_rooted : rooted 7 two_pages P_LEAF false MDBX_SUCCESS 1 1 two_tree 3.
Proof.
  assert (forall pgno k, leaf_ok 7 P_LEAF (two_leaf pgno k)) as Hl.
  { intros pgno k. split; [done|]. split; [done|]. split; [done|]. intros j Hj.
    assert (j = 0) as -> by (change (page_numkeys (two_leaf pgno k)) with 1 in Hj; lia). by eexists. }
  constructor; try done. split; [split; [done|]|].
  - split; [done|]. split; [by vm_compute|]. intros i c Hi. pose proof (zget_range _ _ _ Hi) as Hr. change (zlen _) with 2 in Hr.
    assert (i = 0 \/ i = 1) as [-> | ->] by lia; injection Hi as <-.
    + by exists 6, 1.
    + by exists 14, 2.
  - repeat constructor; apply Hl.
Qed.

Lemma two_ordered : ordered two_table 4 1 two_tree None None [[7]; [20]].
Proof.
  assert (forall k, Forall is_byte k -> zlen k <= 30 -> key_fits two_table 4 k) as Hf.
  { intros k Hk Hz. split; [done|]. cbn. pose proof (zlen_nonneg k). lia. }
  exists two_branch_nodes, [[[7]]; [[20]]]. split; [apply two_branch_page_nodes|]. do 3 (split; [done|]). split; [cbn [length]; lia|].
  split; [split; [|split]|].
  - constructor; [|constructor]. apply Hf; [by apply bytes_check|done].
  - repeat constructor.
  - repeat constructor.
  - split; [done|]. split; [done|]. intros [|[|i]] c k Hc Hk; [..|done]; injection Hc as <-; injection Hk as <-; eexists;
      (split; [by apply two_leaf_nodes|]); do 3 (split; [done|]); (split; [constructor; [apply Hf; [by apply bytes_check|done]|constructor]|]);
      (split; [by repeat constructor|]); constructor; [split; [done|by vm_compute]|constructor|split; [right; by vm_compute|done]|constructor].
Qed.

Lemma lookup_finds_witness : exists c' w p ns i steps nd,
  tree_search 7 two_pages P_LEAF false MDBX_SUCCESS 1 two_cursor (Z_KEY (choose 7 two_table (sample_val [20]))) = Some (MDBX_SUCCESS, c') /\
  stands c' (w ++ [(p, 0)]) /\ zget ns i = Some nd /\ an_key nd = [20] /\
  tree_search_foliage_configure 7 (sc_on two_table p) (sample_val [20]) =
    Some ((i, mk_sfr true (if i <? zlen ns then node_at p i else None), steps), sc_on two_table p).
Proof.
  destruct (lookup_finds 7 two_pages P_LEAF false MDBX_SUCCESS 1 1 two_tree 3 two_cursor two_table 4 (sample_val [20]) [[7]; [20]]
    two_rooted two_ordered) as (c' & w & p & ns & i & exact & steps & E & Hin & Hs & Hns & Hi & Hfol & Hex & _).
  - split; [done|done|by left|by apply sample_val_ok|]. split; [done|split; by vm_compute].
  - repeat split. by left.
  - destruct exact.
    + destruct Hex as (nd & Hnd & Hk). exists c', w, p, ns, i, steps, nd. done.
    + exfalso. apply Hex. right. left.
Defined.
