(* ===== verification/Dbi.v ===== *)
(** * Table handles of a transaction ([src/src/dbi.h])

    With [MDBX_ENABLE_DBI_SPARSE] a transaction marks the slots of the handles it
    has touched in a bitmap, and only the marked slots are initialised. The macro
    [TXN_FOREACH_DBI_FROM] walks the marked slots with one loop, whose step
    consumes a bit, skips zero bits or loads the next word. *)

From stdpp Require Import base numbers option sorting list.
From Stdlib Require Import ZArith Lia.
From S2P Require Import Prelude Bits.

Definition CORE_DBS : Z := 2.

(** [CHAR_BIT * sizeof(txn->dbi_sparse[0])] *)
Definition bitmap_chunk : Z := 32.

(** What the functions use of [MDBX_txn]. *)
Record btxn : Type := mk_btxn {
  n_dbi : Z;
  dbi_sparse : list Z;
  dbi_state_of : list Z;
}.

(** [__builtin_ctz]: undefined for zero. *)
Fixpoint ctz_from (n : nat) (v k : Z) : option Z :=
match n with
| O => None
| S n => if Z.odd v then Some k else ctz_from n (Z.shiftr v 1) (k + 1)
end.

Definition dbi_bitmap_ctz (bmi : Z) : option Z := ctz_from 32 (u32 bmi) 0.

(** One step: whether the body is executed, the bits left and the index. *)
Definition dbi_foreach_step (txn : btxn) (bitmap_item dbi : Z) : option (bool * Z * Z) :=
if Z.odd bitmap_item then
  s ← zget (dbi_state_of txn) dbi;
  Some (negb (s =? 0), Z.shiftr bitmap_item 1, dbi)
else if negb (bitmap_item =? 0) then
  bitmap_skip ← dbi_bitmap_ctz bitmap_item;
  Some (false, Z.shiftr bitmap_item bitmap_skip, u64 (dbi + bitmap_skip - 1))
else
  let dbi := Z.lor (u64 (dbi - 1)) (bitmap_chunk - 1) in
  bitmap_item ← zget (dbi_sparse txn) (u64 (1 + dbi) / bitmap_chunk);
  Some (false, bitmap_item, if bitmap_item =? 0 then u64 (dbi + bitmap_chunk) else dbi).

(** The loop of [TXN_FOREACH_DBI_FROM]; [body] is executed on the visited
    indices, in order. *)
Fixpoint foreach_loop {A} (fuel : nat) (txn : btxn) (body : A -> Z -> A) (bitmap_item i : Z) (acc : A) : option A :=
if i <? n_dbi txn then
  match fuel with
  | O => None
  | S fuel =>
    '(hit, bitmap_item, i) ← dbi_foreach_step txn bitmap_item i;
    foreach_loop fuel txn body bitmap_item (u64 (i + 1)) (if (hit : bool) then body acc i else acc)
  end
else Some acc.

Definition foreach_from {A} (txn : btxn) (from : Z) (body : A -> Z -> A) (acc : A) : option A :=
item ← zget (dbi_sparse txn) 0;
foreach_loop (Z.to_nat (2 * n_dbi txn + 2)) txn body (Z.shiftr item from) from acc.

Definition dbi_state (txn : btxn) (dbi : Z) : option Z :=
let bitmap_indx := dbi / bitmap_chunk in
let bitmap_mask := Z.shiftl 1 (dbi mod bitmap_chunk) in
if dbi <? n_dbi txn then
  w ← zget (dbi_sparse txn) bitmap_indx;
  if negb (Z.land w bitmap_mask =? 0) then zget (dbi_state_of txn) dbi else Some 0
else Some 0.

Definition dbi_seq_next (seq : Z) : Z := let v := u32 (seq + 1) in if v =? 0 then 1 else v.

(** ** Invariant *)

(** The bit of a slot, and the state it has. *)
Definition dbi_bit (txn : btxn) (i : Z) : bool :=
match zget (dbi_sparse txn) (i / bitmap_chunk) with Some w => Z.testbit w (i mod bitmap_chunk) | None => false end.

(** There are words and states for the slots up to [n_dbi], and the last slot,
    for which [n_dbi] was raised, is marked. *)
Record btxn_ok (txn : btxn) : Prop := {
  bo_n : 0 < n_dbi txn < 2 ^ 15;
  bo_words : Forall (fun w => 0 <= w < 2 ^ 32) (dbi_sparse txn);
  bo_sparse : n_dbi txn <= bitmap_chunk * zlen (dbi_sparse txn);
  bo_state : n_dbi txn <= zlen (dbi_state_of txn);
  bo_last : dbi_bit txn (n_dbi txn - 1) = true;
}.

Definition state_at (txn : btxn) (i : Z) : Z := default 0 (zget (dbi_state_of txn) i).

(** The slots a loop visits: marked and in use. *)
Definition in_use (txn : btxn) (i : Z) : bool := dbi_bit txn i && negb (state_at txn i =? 0).

(** The slots from [i] on, in order. *)
Fixpoint slots_from (txn : btxn) (n : nat) (i : Z) : list Z :=
match n with
| O => []
| S n => if in_use txn i then i :: slots_from txn n (i + 1) else slots_from txn n (i + 1)
end.

(** ** Trailing zeros *)

Lemma ctz_from_spec : forall (n : nat) v k, 0 < v < 2 ^ Z.of_nat n ->
  exists z, ctz_from n v k = Some (k + z) /\ 0 <= z < Z.of_nat n /\ Z.testbit v z = true /\ (forall j, 0 <= j < z -> Z.testbit v j = false).
Proof.
  induction n as [|n IH]; intros v k Hv; [cbn in Hv; lia|]. cbn [ctz_from].
  destruct (Z.odd v) eqn:Eo.
  - exists 0. rewrite Z.add_0_r, Z.bit0_odd. split_and!; [done|lia|lia|done|lia].
  - assert (v = 2 * Z.shiftr v 1) as Ev.
    { rewrite Z.shiftr_div_pow2 by lia. change (2 ^ 1) with 2. pose proof (Z.div_mod v 2 ltac:(lia)). rewrite Zmod_odd, Eo in *. lia. }
    rewrite Nat2Z.inj_succ, Z.pow_succ_r in Hv by lia.
    destruct (IH (Z.shiftr v 1) (k + 1)) as (z & E & Hz & Ht & Hj); [lia|].
    exists (z + 1). rewrite E. split_and!; [f_equal; lia|lia|lia| |].
    + rewrite Z.shiftr_spec in Ht by lia. done.
    + intros j Hj'. destruct (decide (j = 0)) as [->|Hne]; [by rewrite Z.bit0_odd|].
      specialize (Hj (j - 1) ltac:(lia)). rewrite Z.shiftr_spec in Hj by lia. by replace (j - 1 + 1) with j in Hj by lia.
Qed.

(** ** The walk *)

Section Walk.
Context (txn : btxn) (Hok : btxn_ok txn).

Definition slots (i : Z) : list Z := slots_from txn (Z.to_nat (n_dbi txn - i)) i.

Lemma slots_step i : i < n_dbi txn -> slots i = if in_use txn i then i :: slots (i + 1) else slots (i + 1).
Proof using.
  intros Hi. unfold slots. replace (Z.to_nat (n_dbi txn - i)) with (S (Z.to_nat (n_dbi txn - (i + 1)))) by lia. done.
Qed.

Lemma slots_end i : n_dbi txn <= i -> slots i = [].
Proof using. intros Hi. unfold slots. by replace (Z.to_nat (n_dbi txn - i)) with O by lia. Qed.

(** Clear bits are skipped. *)
Lemma slots_skip : forall (k : nat) i, (forall m, i <= m < i + Z.of_nat k -> m < n_dbi txn -> dbi_bit txn m = false) ->
  slots i = slots (i + Z.of_nat k).
Proof using.
  induction k as [|k IH]; intros i Hb; [by rewrite Z.add_0_r|].
  destruct (Z.lt_ge_cases i (n_dbi txn)) as [Hi|Hi]; [|by rewrite !slots_end by lia].
  rewrite slots_step by done. unfold in_use. rewrite Hb by lia. cbn [andb].
  rewrite (IH (i + 1)); [f_equal; lia|]. intros m Hm. apply Hb. lia.
Qed.

Lemma slots_jump i j : i <= j -> (forall m, i <= m < j -> m < n_dbi txn -> dbi_bit txn m = false) -> slots i = slots j.
Proof using.
  intros Hij Hb. replace j with (i + Z.of_nat (Z.to_nat (j - i))) by lia. apply slots_skip. intros m Hm. apply Hb. lia.
Qed.

Lemma word_at c : 0 <= c -> bitmap_chunk * c < n_dbi txn -> exists w, zget (dbi_sparse txn) c = Some w /\ 0 <= w < 2 ^ 32.
Proof using Hok.
  intros Hc Hn. pose proof (bo_sparse _ Hok). unfold bitmap_chunk in *. destruct (zget_in (dbi_sparse txn) c) as (w & Hw); [lia|].
  exists w. split; [done|]. pose proof (bo_words _ Hok) as HF. rewrite Forall_forall in HF. apply HF. by eapply zget_elem.
Qed.

(** The bits of a word, by slot. *)
Lemma bit_in_word c w m : zget (dbi_sparse txn) c = Some w -> bitmap_chunk * c <= m < bitmap_chunk * (c + 1) ->
  dbi_bit txn m = Z.testbit w (m - bitmap_chunk * c).
Proof using.
  intros Hw Hm. unfold dbi_bit, bitmap_chunk in *. replace (m / 32) with c.
  - rewrite Hw. f_equal. rewrite Z.mod_eq by lia. replace (m / 32) with c; [lia|].
    apply (Z.div_unique_pos m 32 c (m - 32 * c)); lia.
  - apply (Z.div_unique_pos m 32 c (m - 32 * c)); lia.
Qed.

(** [item] holds the bits of the chunk [c] from the slot [i] on, or the word of
    the chunk that begins at [i] is not loaded yet. *)
Inductive walk_inv (item i : Z) : Prop :=
| walk_in c w : 0 <= c -> bitmap_chunk * c <= i < bitmap_chunk * (c + 1) -> zget (dbi_sparse txn) c = Some w -> 0 <= w < 2 ^ 32 ->
    item = Z.shiftr w (i - bitmap_chunk * c) -> walk_inv item i
| walk_at c : 0 <= c -> i = bitmap_chunk * c -> item = 0 -> walk_inv item i.

Lemma high_bits_clear w k : 0 <= w < 2 ^ 32 -> 32 <= k -> Z.testbit w k = false.
Proof using.
  intros Hw Hk. destruct (decide (w = 0)) as [->|]; [apply Z.bits_0|]. apply Z.bits_above_log2; [lia|].
  assert (Z.log2 w < 32) by (apply Z.log2_lt_pow2; lia). lia.
Qed.

Lemma walk_next c w i : 0 <= c -> bitmap_chunk * c <= i < bitmap_chunk * (c + 1) -> zget (dbi_sparse txn) c = Some w -> 0 <= w < 2 ^ 32 ->
  walk_inv (Z.shiftr w (i + 1 - bitmap_chunk * c)) (i + 1).
Proof using.
  intros Hc Hi Hw Hr. unfold bitmap_chunk in *. destruct (decide (i + 1 = 32 * (c + 1))) as [E|Hne].
  - apply (walk_at _ _ (c + 1)); [lia|unfold bitmap_chunk; lia|]. apply Z.bits_inj_0. intros n.
    destruct (Z.neg_nonneg_cases n); [by apply Z.testbit_neg_r|]. rewrite Z.shiftr_spec by lia. apply high_bits_clear; lia.
  - apply (walk_in _ _ c w); unfold bitmap_chunk; lia || done.
Qed.

(** What one iteration does to the walk. *)
Definition stepped (item i : Z) (res : option (bool * Z * Z)) : Prop :=
  exists hit item' i', res = Some (hit, item', i') /\ walk_inv item' (u64 (i' + 1)) /\ 0 <= u64 (i' + 1) < 2 ^ 16 /\
    2 * u64 (i' + 1) - (if item' =? 0 then 1 else 0) > 2 * i - (if item =? 0 then 1 else 0) /\
    slots i = if hit then i' :: slots (u64 (i' + 1)) else slots (u64 (i' + 1)).

Lemma lor_31 x : Z.lor x 31 = 32 * (x / 32) + 31.
Proof using.
  pose proof (Z.add_lor_land x 31). assert (Z.land x 31 = x mod 32) by (apply (Z.land_ones x 5); lia).
  pose proof (Z.div_mod x 32 ltac:(lia)). lia.
Qed.

Lemma u64_succ x : u64 (u64 x + 1) = u64 (x + 1).
Proof using. unfold u64, wrap. by rewrite Zplus_mod_idemp_l. Qed.

(** The index where the next word is loaded. *)
Lemma load_index i c : 0 <= i <= 32 * c -> 32 * (c - 1) < i -> c < 2 ^ 16 ->
  let d := Z.lor (u64 (i - 1)) 31 in u64 (1 + d) = 32 * c /\ u64 (d + 32 + 1) = 32 * (c + 1).
Proof using.
  intros Hi Hc Hm. cbv zeta. rewrite lor_31. destruct (decide (i = 0)) as [->|Hne].
  - assert (c = 0) as -> by lia. split; by vm_compute.
  - rewrite (u64_small (i - 1)) by (unfold UINT64_MAX; lia). replace ((i - 1) / 32) with (c - 1).
    + rewrite !u64_small by (unfold UINT64_MAX; lia). lia.
    + apply (Z.div_unique_pos (i - 1) 32 (c - 1) (i - 1 - 32 * (c - 1))); lia.
Qed.

(** Loading: the slots before the chunk [c] are clear. *)
Lemma step_load i c : 0 <= i < n_dbi txn -> 0 <= i <= 32 * c -> 32 * (c - 1) < i ->
  (forall m, i <= m < 32 * c -> m < n_dbi txn -> dbi_bit txn m = false) -> stepped 0 i (dbi_foreach_step txn 0 i).
Proof using Hok.
  intros Hi Hc Hc' Hclear. pose proof (bo_n _ Hok) as Hn. pose proof (bo_last _ Hok) as Hlast.
  assert (32 * c < n_dbi txn) as Hcn.
  { destruct (Z.lt_ge_cases (32 * c) (n_dbi txn)); [done|]. rewrite Hclear in Hlast by lia. done. }
  destruct (word_at c) as (w & Hw & Hr); [lia|unfold bitmap_chunk; lia|].
  destruct (load_index i c Hc Hc' ltac:(clear -Hn Hcn; lia)) as [E1 E2]. unfold stepped, dbi_foreach_step.
  change (Z.odd 0) with false. change (0 =? 0) with true. cbn [negb]. cbv zeta. change (bitmap_chunk - 1) with 31. rewrite E1.
  change bitmap_chunk with 32. replace (32 * c / 32) with c by (rewrite Z.mul_comm, Z.div_mul; lia). rewrite Hw. cbn [mbind option_bind].
  eexists _, _, _. split; [done|]. destruct (Z.eqb_spec w 0) as [->|Hw0].
  - rewrite u64_succ, E2. split_and!; [|lia|lia|lia|].
    + apply (walk_at _ _ (c + 1)); [lia|done|done].
    + apply slots_jump; [lia|]. intros m Hm Hmn. destruct (Z.lt_ge_cases m (32 * c)); [apply Hclear; lia|].
      rewrite (bit_in_word c 0 m Hw) by (unfold bitmap_chunk; lia). apply Z.bits_0.
  - rewrite Z.add_comm, E1. split_and!; [|lia|lia|lia|apply slots_jump; [lia|done]].
    apply (walk_in _ _ c w); [lia|unfold bitmap_chunk; lia|done|done|]. unfold bitmap_chunk. by rewrite Z.sub_diag.
Qed.

Lemma step_spec item i : 0 <= i < n_dbi txn -> walk_inv item i -> stepped item i (dbi_foreach_step txn item i).
Proof using Hok.
  intros Hi Hinv. pose proof (bo_n _ Hok) as Hn.
  destruct Hinv as [c w Hc Hic Hw Hr ->|c Hc Ec ->].
  2:{ unfold bitmap_chunk in Ec. apply (step_load i c); [lia..|]. intros m Hm. lia. }
  destruct (decide (Z.shiftr w (i - bitmap_chunk * c) = 0)) as [E0|E0].
  { rewrite E0. unfold bitmap_chunk in *. destruct (decide (i = 32 * c)) as [->|Hne].
    - apply (step_load _ c); lia.
    - apply (step_load _ (c + 1)); [lia..|]. intros m Hm Hmn. rewrite (bit_in_word c w m Hw) by (unfold bitmap_chunk; lia).
      replace (m - bitmap_chunk * c) with (m - i + (i - 32 * c)) by (unfold bitmap_chunk; lia).
      rewrite <- Z.shiftr_spec, E0 by lia. apply Z.bits_0. }
  set (item := Z.shiftr w (i - bitmap_chunk * c)) in *. pose proof (bit_in_word c w i Hw Hic) as Hbit.
  unfold stepped, dbi_foreach_step. destruct (Z.odd item) eqn:Eo.
  - pose proof (bo_state _ Hok). destruct (zget_in (dbi_state_of txn) i) as (s & Hs); [lia|]. rewrite Hs. cbn [mbind option_bind].
    eexists _, _, _. split; [done|]. rewrite u64_small by (unfold UINT64_MAX; lia).
    assert (Z.shiftr item 1 = Z.shiftr w (i + 1 - bitmap_chunk * c)) as ->.
    { unfold item. rewrite Z.shiftr_shiftr by lia. f_equal. lia. }
    split_and!; [by apply walk_next|lia|lia|destruct (_ =? _), (_ =? _); lia|].
    rewrite slots_step by lia. unfold in_use, state_at. rewrite Hs, Hbit. cbn [default].
    unfold item in Eo. rewrite <- Z.bit0_odd, Z.shiftr_spec, Z.add_0_l in Eo by lia. by rewrite Eo.
  - destruct (Z.eqb_spec item 0) as [|_]; [done|]. cbn [negb]. unfold dbi_bitmap_ctz.
    assert (0 < item < 2 ^ 32) as Hitem.
    { assert (0 <= item) by (apply Z.shiftr_nonneg; lia). split; [lia|]. unfold item. rewrite Z.shiftr_div_pow2 by lia.
      eapply Z.le_lt_trans; [|apply Hr]. apply Z.div_le_upper_bound; [|nia]. apply Z.pow_pos_nonneg; lia. }
    rewrite u32_small by (unfold UINT32_MAX; lia). destruct (ctz_from_spec 32 item 0 Hitem) as (z & -> & Hz & Ht & Hj).
    cbn [mbind option_bind]. rewrite Z.add_0_l.
    assert (0 < z) as Hz0. { destruct (decide (z = 0)) as [->|]; [|lia]. by rewrite Z.bit0_odd, Eo in Ht. }
    assert (i - bitmap_chunk * c + z < 32) as Hin.
    { destruct (Z.lt_ge_cases (i - bitmap_chunk * c + z) 32); [done|]. unfold item in Ht. rewrite Z.shiftr_spec in Ht by lia.
      rewrite high_bits_clear in Ht by (done || lia). done. }
    eexists _, _, _. split; [done|]. rewrite u64_succ. replace (i + z - 1 + 1) with (i + z) by lia.
    unfold bitmap_chunk in Hin, Hic. rewrite u64_small by (unfold UINT64_MAX; lia).
    split_and!; [|lia|lia|destruct (_ =? _); lia|].
    + apply (walk_in _ _ c w); [lia|unfold bitmap_chunk; lia|done|done|]. unfold item. rewrite Z.shiftr_shiftr by lia. f_equal. lia.
    + apply slots_jump; [lia|]. intros m Hm _. rewrite (bit_in_word c w m Hw) by (unfold bitmap_chunk; lia).
      specialize (Hj (m - i) ltac:(lia)). unfold item in Hj. rewrite Z.shiftr_spec in Hj by lia. rewrite <- Hj. f_equal. lia.
Qed.

Lemma foreach_loop_spec {A} (body : A -> Z -> A) : forall (fuel : nat) item i acc, 0 <= i < 2 ^ 16 -> walk_inv item i ->
  2 * (n_dbi txn - i) + 1 <= Z.of_nat fuel + (if item =? 0 then 0 else 1) ->
  foreach_loop fuel txn body item i acc = Some (foldl body acc (slots i)).
Proof using Hok.
  induction fuel as [|fuel IH]; intros item i acc Hi Hinv Hf; cbn [foreach_loop].
  { destruct (Z.ltb_spec i (n_dbi txn)); [destruct (item =? 0); lia|]. by rewrite slots_end by lia. }
  destruct (Z.ltb_spec i (n_dbi txn)) as [Hn|Hn]; [|by rewrite slots_end by lia].
  destruct (step_spec item i ltac:(lia) Hinv) as (hit & item' & i' & -> & Hinv' & Hi' & Hm & Es). cbn [mbind option_bind].
  rewrite IH; [|done|done|destruct (item =? 0), (item' =? 0); lia]. rewrite Es. by destruct hit.
Qed.
End Walk.

Lemma dbi_state_spec txn i : btxn_ok txn -> 0 <= i ->
  exists s, dbi_state txn i = Some s /\ (s =? 0) = negb ((i <? n_dbi txn) && in_use txn i).
Proof.
  intros Hok Hi. unfold dbi_state. destruct (Z.ltb_spec i (n_dbi txn)) as [Hn|Hn]; [|by exists 0].
  pose proof (bo_state _ Hok). pose proof (Z.div_mod i bitmap_chunk ltac:(done)) as Hdm.
  pose proof (Z.mod_pos_bound i bitmap_chunk ltac:(done)) as Hmod.
  destruct (word_at txn Hok (i / bitmap_chunk)) as (w & Hw & Hr); [apply Z.div_pos; [lia|done]|lia|].
  rewrite Hw. cbn [mbind option_bind]. rewrite Z.shiftl_1_l.
  assert ((Z.land w (2 ^ (i mod bitmap_chunk)) =? 0) = negb (dbi_bit txn i)) as ->.
  { unfold dbi_bit. rewrite Hw. destruct (Z.testbit w (i mod bitmap_chunk)) eqn:Eb.
    - apply Z.eqb_neq. intros E. apply (f_equal (fun v => Z.testbit v (i mod bitmap_chunk))) in E.
      rewrite Z.land_spec, Eb, Z.pow2_bits_true, Z.bits_0 in E by lia. done.
    - apply Z.eqb_eq, Z.bits_inj_0. intros n. rewrite Z.land_spec. destruct (decide (n = i mod bitmap_chunk)) as [->|Hne];
        [by rewrite Eb|]. rewrite (Z.pow2_bits_false _ n) by done. apply andb_false_r. }
  unfold in_use, state_at. destruct (zget_in (dbi_state_of txn) i) as (s & Hs); [lia|]. rewrite Hs.
  destruct (dbi_bit txn i); cbn; [exists s|exists 0]; split; [done|by rewrite negb_involutive|done|done].
Qed.

Lemma slots_elem txn : btxn_ok txn -> forall (n : nat) i x, x ∈ slots_from txn n i <-> i <= x < i + Z.of_nat n /\ in_use txn x = true.
Proof.
  intros Hok. induction n as [|n IH]; intros i x; cbn [slots_from].
  { rewrite elem_of_nil. split; [done|lia]. }
  destruct (in_use txn i) eqn:Ei; [rewrite elem_of_cons|]; rewrite IH.
  - split; [intros [->|[Hx Hu]]; split; done || lia|]. intros [Hx Hu]. destruct (decide (x = i)); [by left|right]. split; [lia|done].
  - split; [intros [Hx Hu]; split; done || lia|]. intros [Hx Hu]. destruct (decide (x = i)) as [->|]; [congruence|]. split; [lia|done].
Qed.

Lemma slots_ascending txn : btxn_ok txn -> forall (n : nat) i, StronglySorted Z.lt (slots_from txn n i).
Proof.
  intros Hok. induction n as [|n IH]; intros i; cbn [slots_from]; [constructor|]. destruct (in_use txn i); [|apply IH].
  constructor; [apply IH|]. apply Forall_forall. intros x Hx. apply slots_elem in Hx as [Hx _]; [lia|done].
Qed.

(** ** Theorem *)

(** C25: A loop over the handles of a transaction ends, reads nothing outside of
    the bitmap and the states, and executes its body on exactly the handles
    [from <= i < n_dbi] for which [dbi_state] is not zero, each once and in
    ascending order, although the step skips runs of zero bits and words. *)
Theorem foreach_visits {A} txn from (body : A -> Z -> A) acc : btxn_ok txn -> 0 <= from <= CORE_DBS ->
  exists visited, foreach_from txn from body acc = Some (foldl body acc visited) /\ StronglySorted Z.lt visited /\
    (forall i, i ∈ visited <-> from <= i < n_dbi txn /\ exists s, dbi_state txn i = Some s /\ s <> 0).
Proof.
  intros Hok Hf. unfold CORE_DBS in Hf. exists (slots txn from). split_and!.
  - unfold foreach_from. destruct (word_at txn Hok 0) as (w & Hw & Hr); [lia|pose proof (bo_n _ Hok); unfold bitmap_chunk; lia|].
    rewrite Hw. cbn [mbind option_bind]. apply (foreach_loop_spec txn Hok); [lia| |].
    + apply (walk_in txn _ _ 0 w); [lia|unfold bitmap_chunk; lia|done|done|]. f_equal. lia.
    + pose proof (bo_n _ Hok). destruct (_ =? 0); lia.
  - by apply slots_ascending.
  - intros i. unfold slots. rewrite slots_elem by done. split.
    + intros [Hi Hu]. split; [lia|]. destruct (dbi_state_spec txn i Hok) as (s & E & Es); [lia|]. exists s. split; [done|].
      intros ->. destruct (Z.ltb_spec i (n_dbi txn)); [|lia]. rewrite Hu in Es. done.
    + intros (Hi & s & E & Hs). split; [lia|]. destruct (dbi_state_spec txn i Hok) as (s' & E' & Es); [lia|].
      rewrite E in E'. injection E' as <-. destruct (Z.eqb_spec s 0) as [|_]; [done|].
      destruct (in_use txn i); [done|]. by rewrite andb_false_r in Es.
Qed.

(** Handles 0, 1, 5 and 70 are marked, 5 is not in use. *)
Definition sample_btxn : btxn := mk_btxn 71 [35; 0; 64] (16 :: 16 :: replicate 68 0 ++ [16]).

Lemma sample_btxn_ok : btxn_ok sample_btxn.
Proof.
  split; [by vm_compute| |by vm_compute..]. change (dbi_sparse sample_btxn) with [35; 0; 64].
  apply Forall_cons_2; [lia|]. apply Forall_cons_2; [lia|]. apply Forall_singleton. lia.
Qed.

Lemma foreach_visits_witness :
  foreach_from sample_btxn 0 (fun l i => l ++ [i]) [] = Some [0; 1; 70] /\
  exists visited, foreach_from sample_btxn 2 (fun l i => l ++ [i]) [] = Some (foldl (fun l i => l ++ [i]) [] visited) /\ 70 ∈ visited.
Proof.
  split; [vm_compute; reflexivity|].
  destruct (foreach_visits sample_btxn 2 (fun l i => l ++ [i]) [] sample_btxn_ok) as (v & E & _ & H); [by vm_compute|].
  exists v. split; [exact E|]. apply H. split; [by vm_compute|]. exists 16. by split; vm_compute.
Defined.
