(* ===== verification/Refund.v ===== *)
(** * Giving free pages at the end of the file back ([src/src/refund.c])

    When the last allocated pages are free, [txn_refund] lowers the number of
    the first unallocated page instead of keeping them: pages reclaimed from the
    GC ([wr.repnl]) and loose pages, which were dirtied and freed in the same
    transaction and are still in the dirty-page list. *)

From stdpp Require Import base numbers option sorting list gmap.
From Stdlib Require Import ZArith Lia.
From S2P Require Import Prelude Search SortNet Bits Alloc Pnl PnlOrder Dpl DplProofs Page Spill.

(** A loose page: its address and number. *)
Record loose : Type := mk_loose { lp_ptr : Z; lp_pgno : Z }.

(** What the functions use of a write transaction. *)
Record rtxn : Type := mk_rtxn {
  rt_dirty : dtxn;
  first_unallocated : Z;
  repnl : pnl;
  loose_pages : list loose;
  loose_count : Z;
  loose_refund_wl : Z;
  rt_spilled : option spilled;
}.

Definition with_fu (t : rtxn) (fu : Z) : rtxn :=
mk_rtxn (rt_dirty t) fu (repnl t) (loose_pages t) (loose_count t) (loose_refund_wl t) (rt_spilled t).
Definition with_repnl (t : rtxn) (p : pnl) : rtxn :=
mk_rtxn (rt_dirty t) (first_unallocated t) p (loose_pages t) (loose_count t) (loose_refund_wl t) (rt_spilled t).
Definition with_wl (t : rtxn) : rtxn :=
mk_rtxn (rt_dirty t) (first_unallocated t) (repnl t) (loose_pages t) (loose_count t) (first_unallocated t) (rt_spilled t).
Definition with_dirty (t : rtxn) (d : dtxn) (count : Z) : rtxn :=
mk_rtxn d (first_unallocated t) (repnl t) (loose_pages t) count (loose_refund_wl t) (rt_spilled t).
Definition with_loose (t : rtxn) (l : list loose) (e : shadow) : rtxn :=
mk_rtxn (with_shadow (rt_dirty t) e) (first_unallocated t) (repnl t) l (loose_count t) (loose_refund_wl t) (rt_spilled t).
Definition with_spilled (t : rtxn) (s : spilled) : rtxn :=
mk_rtxn (rt_dirty t) (first_unallocated t) (repnl t) (loose_pages t) (loose_count t) (loose_refund_wl t) (Some s).

(** ** Reclaimed pages *)

(** The loop condition [--first_unallocated, ++i <= len && ...]. *)
Fixpoint reclaimed_scan (fuel : nat) (p : pnl) (len fu i : Z) : option (Z * Z) :=
match fuel with
| O => None
| S fuel =>
  let fu := u32 (fu - 1) in
  let i := i + 1 in
  if i <=? len then
    x ← pnl_at p i;
    if x =? u32 (fu - 1) then reclaimed_scan fuel p len fu i else Some (fu, i)
  else Some (fu, i)
end.

Fixpoint reclaimed_move (n : nat) (p : pnl) (i move : Z) : option pnl :=
match n with
| O => Some p
| S n => x ← pnl_at p (i + move); p ← pnl_put p (1 + move) x; reclaimed_move n p i (move + 1)
end.

Definition refund_reclaimed (t : rtxn) : option rtxn :=
len ← pnl_size (repnl t);
'(fu, i) ← reclaimed_scan (S (Z.to_nat len)) (repnl t) len (first_unallocated t) 1;
let len := len - (i - 1) in
p ← pnl_setsize (repnl t) len;
p ← reclaimed_move (Z.to_nat len) p i 0;
Some (with_fu (with_repnl t p) fu).

(** ** Loose pages *)

(** The pages that can be refunded are collected in [suitable]. *)
Fixpoint collect_suitable (ls : list loose) (fu count : Z) (suitable : pnl) (w most : Z) : option (pnl * Z * Z) :=
match ls with
| [] => Some (suitable, w, most)
| lp :: ls =>
  if u64 (fu - count) <=? lp_pgno lp then
    suitable ← pnl_put suitable (w + 1) (lp_pgno lp);
    collect_suitable ls fu count suitable (w + 1) (if most <? lp_pgno lp then lp_pgno lp else most)
  else collect_suitable ls fu count suitable w most
end.

(** [for (i = begin + step; i != end; i += step)] *)
Fixpoint scan_suitable (n : nat) (suitable : pnl) (i most : Z) : option Z :=
match n with
| O => Some most
| S n =>
  x ← pnl_at suitable i;
  if negb (x =? u32 (most - 1)) then Some most else scan_suitable n suitable (i + 1) (u32 (most - 1))
end.

(** [n] rounds of one of the loops that filter the dirty list. *)
Fixpoint filter_items (n : nat) (dl : dpl) (most w r : Z) : option (dpl * Z * Z) :=
match n with
| O => Some (dl, w, r)
| S n =>
  let r := r + 1 in
  x ← zget (dl_items dl) r;
  if dp_pgno x <? most then
    let w := w + 1 in
    dl ← (if negb (w =? r) then dl_put dl w x else Some dl);
    filter_items n dl most w r
  else filter_items n dl most w r
end.

Definition with_sorted (dl : dpl) (n : Z) : dpl :=
mk_dpl n (dl_length dl) (dl_pages_including_loose dl) (dl_detent dl) (dl_items dl).
Definition with_pages (dl : dpl) (n : Z) : dpl :=
mk_dpl (dl_sorted dl) (dl_length dl) n (dl_detent dl) (dl_items dl).

Definition filter_dirty (dl : dpl) (most : Z) : option dpl :=
'(dl, w, r) ← (if dl_sorted dl =? 0 then Some (dl, 0, 0)
               else '(dl, w, r) ← filter_items (Z.to_nat (dl_sorted dl)) dl most 0 0; Some (with_sorted dl w, w, r));
'(dl, w, _) ← filter_items (Z.to_nat (dl_length dl - r)) dl most w r;
dpl_setlen dl w.

(** The label [unlink_loose]: the refunded pages leave the chain. *)
Fixpoint unlink_loose (ls : list loose) (fu : Z) (wm : bool) (env : shadow) : list loose * shadow :=
match ls with
| [] => ([], env)
| dp :: ls =>
  if lp_pgno dp <? fu then let '(ls, env) := unlink_loose ls fu wm env in (dp :: ls, env)
  else unlink_loose ls fu wm (if wm then env else page_shadow_release env (lp_ptr dp) 1)
end.

Definition unlink (t : rtxn) : rtxn :=
let '(ls, env) := unlink_loose (loose_pages t) (first_unallocated t) (writemap (rt_dirty t)) (env_shadow (rt_dirty t)) in
with_loose t ls env.

(** The scan of the sorted dirty list from its end. *)
Fixpoint scan_sorted (fuel : nat) (flags_of : Z -> Z) (dl : dpl) (n fu : Z) : option (Z * Z) :=
match fuel with
| O => None
| S fuel =>
  x ← zget (dl_items dl) n;
  if (dp_pgno x =? u32 (fu - 1)) && (flags_of (dp_ptr x) =? P_LOOSE) then scan_sorted fuel flags_of dl (n - 1) (u32 (fu - 1))
  else Some (n, fu)
end.

Section Refund.
(** The allocator, [MDBX_HAVE_CMOV], the flags of the page at an address, and the
    words of the array on the stack, which are not initialised. *)
Context (al : allocator) (cm : bool) (flags_of : Z -> Z) (stack : list Z).

(** [pnl_bytes2size(sizeof(onstack))], where the array has
    [MDBX_CACHELINE_SIZE * 8 / sizeof(pgno_t)] words. *)
Definition onstack_size : Z := pnl_bytes2size (MDBX_CACHELINE_SIZE * 8).

(** The array as a list. The word in front of it, where a list in the heap has
    its capacity, is not read. *)
Definition onstack : pnl := onstack_size :: stack.

(** The refund of the run of suitable pages that ends at [most]. *)
Definition refund_suitable (t : rtxn) (suitable : pnl) (w most : Z) : option rtxn :=
suitable ← pnl_setsize suitable w;
suitable ← pnl_sort_nochk cm suitable;
most ← scan_suitable (Z.to_nat (w - 1)) suitable 2 most;
let refunded := u32 (first_unallocated t - most) in
let t := with_fu t most in
let count := u64 (loose_count t - refunded) in
match dirtylist (rt_dirty t) with
| None => Some (unlink (with_dirty t (rt_dirty t) count))
| Some dl =>
  dl ← filter_dirty (with_pages dl (u64 (dl_pages_including_loose dl - refunded))) most;
  Some (unlink (with_dirty t (with_room (with_dirtylist (rt_dirty t) dl) (u64 (dirtyroom (rt_dirty t) + refunded))) count))
end.

Definition refund_unsorted (t : rtxn) : option rtxn :=
suitable ← (if onstack_size <? loose_count t then pnl_alloc al (loose_count t) else Some (Some onstack));
match (suitable : option pnl) with
| None => Some t
| Some suitable =>
  '(suitable, w, most) ← collect_suitable (loose_pages t) (first_unallocated t) (loose_count t) suitable 0 MIN_PAGENO;
  t ← (if u32 (most + 1) =? first_unallocated t then refund_suitable t suitable w most else Some t);
  Some (with_wl t)
end.

Definition refund_sorted (t : rtxn) (dl : dpl) : option rtxn :=
dl ← txn_dpl_sort cm dl;
'(n, fu) ← scan_sorted (S (Z.to_nat (dl_length dl))) flags_of dl (dl_length dl) (first_unallocated t);
let t := with_fu t fu in
dl ← dpl_setlen dl n;
if negb (dl_sorted dl =? dl_length dl) then
  let refunded := dl_sorted dl - dl_length dl in
  let dl := with_pages (with_sorted dl (dl_length dl)) (u64 (dl_pages_including_loose dl - refunded)) in
  let d := with_room (with_dirtylist (rt_dirty t) dl) (u64 (dirtyroom (rt_dirty t) + refunded)) in
  Some (with_wl (unlink (with_dirty t d (u64 (loose_count t - refunded)))))
else Some (with_wl (with_dirty t (with_dirtylist (rt_dirty t) dl) (loose_count t))).

Definition refund_loose (t : rtxn) : option rtxn :=
match dirtylist (rt_dirty t) with
| None => refund_unsorted t
| Some dl => if loose_count t <? dl_length dl - dl_sorted dl then refund_unsorted t else refund_sorted t dl
end.

(** ** The whole *)

Definition has_loose (t : rtxn) : bool := match loose_pages t with [] => false | _ => true end.

Fixpoint refund_loop (fuel : nat) (t : rtxn) : option rtxn :=
match fuel with
| O => None
| S fuel =>
  size ← pnl_size (repnl t);
  if size =? 0 then Some t
  else
    most ← pnl_at (repnl t) 1;
    if negb (most =? u32 (first_unallocated t - 1)) then Some t
    else
      t ← refund_reclaimed t;
      if negb (has_loose t) || (loose_refund_wl t <=? first_unallocated t) then Some t
      else
        let memo := first_unallocated t in
        t ← refund_loose t;
        if memo =? first_unallocated t then Some t else refund_loop fuel t
end.

Definition txn_refund (t : rtxn) : option (bool * rtxn) :=
let before := first_unallocated t in
t ← (if has_loose t && (first_unallocated t <? loose_refund_wl t) then refund_loose t else Some t);
t ← refund_loop (S (Z.to_nat before)) t;
if before =? first_unallocated t then Some (false, t)
else
  match rt_spilled t with
  | None => Some (true, t)
  | Some s => s ← spill_purge s; Some (true, with_spilled t s)
  end.
End Refund.
