(* ===== verification/RefundProofs.v ===== *)
(** * The refund of the tail ([Refund.v]): invariant and theorems *)

From stdpp Require Import base numbers option sorting list gmap.
From Stdlib Require Import ZArith Lia.
From S2P Require Import Prelude Search SortNet Bits Alloc Pnl PnlOrder Dpl DplProofs Page Spill Refund.

(** ** Invariant *)

(** The entry of a loose page in the dirty-page list. *)
Definition loose_entry (lp : loose) : dp := mk_dp (lp_ptr lp) (lp_pgno lp) 1.

(** The dirty pages [D] with the loose ones [L] among them; the page flags tell
    which entries are loose. Without a dirty-page list nothing is known of [D]. *)
Definition dirty_ok (flags_of : Z -> Z) (t : rtxn) (D : list dp) : Prop :=
match dirtylist (rt_dirty t) with
| None => D = []
| Some dl =>
    dpl_ok dl D /\ 0 <= dirtyroom (rt_dirty t) /\ dirtyroom (rt_dirty t) + zlen D <= UINT64_MAX /\
    (forall x, x ∈ D -> dp_pgno x < first_unallocated t) /\
    (forall lp, lp ∈ loose_pages t -> loose_entry lp ∈ D) /\
    (forall x, x ∈ D -> flags_of (dp_ptr x) = P_LOOSE -> exists lp, lp ∈ loose_pages t /\ x = loose_entry lp) /\
    (forall lp, lp ∈ loose_pages t -> flags_of (lp_ptr lp) = P_LOOSE)
end.

Record refund_ok (flags_of : Z -> Z) (t : rtxn) (D : list dp) (R : list Z) : Prop := {
  ro_fu : MIN_PAGENO <= first_unallocated t <= MAX_PAGENO + 1;
  ro_dirty : dirty_ok flags_of t D;
  ro_loose : NoDup (lp_pgno <$> loose_pages t);
  ro_range : forall lp, lp ∈ loose_pages t -> MIN_PAGENO <= lp_pgno lp < first_unallocated t;
  ro_count : loose_count t = zlen (loose_pages t);
  ro_repnl : pnl_rep (repnl t) R;
  ro_desc : desc R;
  ro_pages : forall p, p ∈ R -> MIN_PAGENO <= p < first_unallocated t;
  ro_disjoint : forall p, p ∈ R -> (forall lp, lp ∈ loose_pages t -> lp_pgno lp <> p) /\ (forall x, x ∈ D -> dp_pgno x <> p);
  ro_spilled : match rt_spilled t with Some s => exists l, spill_rep s l | None => True end;
}.

(** ** Lists *)

(** Distinct numbers of a range. *)
Lemma range_count (l : list Z) a b : NoDup l -> (forall x, x ∈ l -> a <= x < b) -> a <= b -> zlen l <= b - a.
Proof.
  intros Hnd Hr Hab.
  assert (length l <= length (seqZ a (b - a)))%nat as H.
  { apply submseteq_length, NoDup_submseteq; [done|]. intros x Hx. apply elem_of_seqZ. specialize (Hr x Hx). lia. }
  rewrite length_seqZ in H. unfold zlen. lia.
Qed.

(** All numbers of a range. *)
Lemma range_exact (l : list Z) a b : NoDup l -> (forall x, x ∈ l <-> a <= x < b) -> a <= b -> zlen l = b - a.
Proof.
  intros Hnd Hr Hab. assert (l ≡ₚ seqZ a (b - a)) as HP.
  { apply NoDup_Permutation; [done|apply NoDup_seqZ|]. intros x. rewrite Hr, elem_of_seqZ. lia. }
  unfold zlen. rewrite HP, length_seqZ. lia.
Qed.

Lemma range_covered (l : list Z) a b : (forall x, a <= x < b -> x ∈ l) -> b - a <= zlen l.
Proof.
  intros Hr. assert (length (seqZ a (b - a)) <= length l)%nat as H.
  { apply submseteq_length, NoDup_submseteq; [apply NoDup_seqZ|]. intros x Hx%elem_of_seqZ. apply Hr. lia. }
  rewrite length_seqZ in H. unfold zlen. lia.
Qed.

(** [l] is [p], [p - 1], ... *)
Definition run_down (p : Z) (l : list Z) : Prop := forall j x, zget l j = Some x -> x = p - j.

Lemma run_down_nil p : run_down p [].
Proof. intros j x H%zget_range. zlia. Qed.

Lemma run_down_cons p l : run_down (p - 1) l -> run_down p (p :: l).
Proof.
  intros H j x Hj. pose proof (zget_range _ _ _ Hj) as Hb. destruct (decide (j = 0)) as [->|Hne].
  - rewrite zget_cons_0 in Hj. simplify_eq. lia.
  - rewrite zget_cons_pos in Hj by lia. apply H in Hj. lia.
Qed.

Lemma run_down_elem p l q : run_down p l -> q ∈ l <-> p - zlen l < q <= p.
Proof.
  intros H. split.
  - intros (j & Hj & Hq)%elem_zget. apply H in Hq. lia.
  - intros Hq. destruct (zget_in l (p - q)) as (x & Hx); [lia|]. pose proof (H _ _ Hx) as Ex. replace q with x by lia.
    by eapply zget_elem.
Qed.

(** ** Reclaimed pages *)

Lemma desc_tail x l : desc (x :: l) -> desc l /\ forall y, y ∈ l -> y < x.
Proof. intros H. inversion H as [|?? Hs Hall]; subst. split; [done|]. by apply Forall_forall. Qed.

Lemma reclaimed_scan_spec p R : pnl_rep p R -> forall (fuel : nat) A B fu, R = A ++ B -> 0 < zlen A -> (length B < fuel)%nat ->
  desc B -> (forall x, x ∈ B -> 0 <= x < fu - 1) -> 1 <= fu <= MAX_PAGENO + 1 ->
  exists B1 B2, B = B1 ++ B2 /\ run_down (fu - 2) B1 /\ head B2 <> Some (fu - 2 - zlen B1) /\
    reclaimed_scan fuel p (zlen R) fu (zlen A) = Some (fu - 1 - zlen B1, zlen A + zlen B1 + 1).
Proof.
  intros Hp. unfold MAX_PAGENO. induction fuel as [|fuel IH]; intros A B fu ER HA Hf Hd Hr Hfu; [lia|].
  cbn [reclaimed_scan]. rewrite (u32_small (fu - 1)) by (unfold UINT32_MAX; lia). destruct B as [|b B].
  { exists [], []. rewrite app_nil_r in ER. subst R. zcase; [lia|]. split_and!; [done|apply run_down_nil|done|]. f_equal. f_equal; zlia. }
  cbn [length] in Hf. assert (0 <= b < fu - 1) as Hb by (apply Hr; constructor). apply desc_tail in Hd as [Hd Hlt].
  zcase; [|subst R; zlia]. rewrite (pnl_rep_at _ _ _ Hp) by (subst R; zlia). rewrite ER, zget_app_mid by lia. cbn [mbind option_bind].
  rewrite (u32_small (fu - 1 - 1)) by (unfold UINT32_MAX; lia). destruct (Z.eqb_spec b (fu - 1 - 1)) as [->|Hne].
  - destruct (IH (A ++ [fu - 1 - 1]) B (fu - 1)) as (B1 & B2 & -> & Hrun & Hh & E); [by rewrite <- app_assoc|zlia|lia|done| |lia|].
    { intros x Hx. specialize (Hlt x Hx). specialize (Hr x ltac:(by constructor)). lia. }
    exists ((fu - 1 - 1) :: B1), B2. split_and!; [done| |intros Hx; apply Hh; rewrite Hx; f_equal; zlia|].
    + replace (fu - 2) with (fu - 1 - 1) by lia. apply run_down_cons. by replace (fu - 1 - 1 - 1) with (fu - 1 - 2) by lia.
    + rewrite <- ER, zlen_snoc in *. rewrite E. f_equal. f_equal; zlia.
  - exists [], (b :: B). split_and!; [done|apply run_down_nil|cbn; intros [= ->]; zlia|]. f_equal. f_equal; zlia.
Qed.

Lemma reclaimed_move_spec len n : forall C A B rest, 
  exists B', zlen B' = zlen B /\
    reclaimed_move (length C) (len :: n :: A ++ B ++ C ++ rest) (zlen B + 1) (zlen A) = Some (len :: n :: A ++ C ++ B' ++ rest).
Proof.
  induction C as [|c C IH]; intros A B rest; cbn [reclaimed_move length]; [by exists B|].
  cbn [app]. rewrite pnl_at_after_gap by lia. cbn [mbind option_bind].
  destruct (pnl_move_cell len n A B c (C ++ rest)) as (B1 & HB & E). rewrite (Z.add_comm 1), E. cbn [mbind option_bind].
  destruct (IH (A ++ [c]) B1 rest) as (B' & HB' & E'). exists B'. split; [lia|].
  rewrite zlen_snoc, HB in E'. rewrite E'. by rewrite <- app_assoc.
Qed.

Lemma repnl_tail t R : pnl_rep (repnl t) R -> desc R -> forall R1 R2, R = R1 ++ R2 ->
  exists p, (p ← pnl_setsize (repnl t) (zlen R2); reclaimed_move (length R2) p (zlen R1 + 1) 0) = Some p /\ pnl_rep p R2.
Proof.
  intros (len & rest & E & Hlen & Hroom) Hd R1 R2 ->. zlen_pos. rewrite E, pnl_setsize_cells by zlia. cbn [mbind option_bind].
  destruct (reclaimed_move_spec len (zlen R2) R2 [] R1 rest) as (B' & HB & Em). rewrite zlen_nil in Em. cbn [app] in Em.
  rewrite <- app_assoc, Em. eexists. split; [done|]. exists len, (B' ++ rest). split; [done|]. apply (f_equal zlen) in E. zlia.
Qed.

Lemma filter_below R1 R2 fu : (forall p, p ∈ R1 -> fu <= p) -> (forall p, p ∈ R2 -> p < fu) ->
  filter (fun p => p < fu) (R1 ++ R2) = R2.
Proof.
  intros H1 H2. rewrite filter_app, filter_none, filter_all; [done|done|]. intros x Hx. specialize (H1 x Hx). lia.
Qed.

(** The run of reclaimed pages at the end of the file is given back, all of it. *)
Lemma refund_reclaimed_spec flags_of t D R : refund_ok flags_of t D R -> head R = Some (first_unallocated t - 1) ->
  exists t' fu, refund_reclaimed t = Some t' /\ MIN_PAGENO <= fu < first_unallocated t /\
    (forall p, fu <= p < first_unallocated t -> p ∈ R) /\ fu - 1 ∉ R /\
    exists p, t' = with_fu (with_repnl t p) fu /\ pnl_rep p (filter (fun q => q < fu) R).
Proof.
  intros Hok Hh. destruct Hok as [Hfu _ _ _ _ Hrep Hd Hpg _ _]. destruct R as [|r R]; [done|]. injection Hh as ->.
  pose proof Hd as [Hd' Hlt]%desc_tail. set (fu0 := first_unallocated t) in *.
  destruct (reclaimed_scan_spec _ _ Hrep (S (Z.to_nat (zlen (fu0 - 1 :: R)))) [fu0 - 1] R fu0) as (B1 & B2 & ER & Hrun & Hhead & E);
    [done|zlia|unfold zlen; cbn [length]; lia|done| |unfold MIN_PAGENO in *; lia|].
  { intros x Hx. specialize (Hlt x Hx). specialize (Hpg x ltac:(by constructor)). unfold MIN_PAGENO in *. lia. }
  unfold refund_reclaimed. rewrite (pnl_rep_size _ _ Hrep). cbn [mbind option_bind]. fold fu0.
  change (zlen [fu0 - 1]) with 1 in E. rewrite E. cbn [mbind option_bind]. clear E. subst R.
  set (fu := fu0 - 1 - zlen B1).
  assert (run_down (fu0 - 1) ((fu0 - 1) :: B1)) as Hrun'.
  { apply run_down_cons. by replace (fu0 - 1 - 1) with (fu0 - 2) by lia. }
  assert (forall q, (q ∈ (fu0 - 1) :: B1) <-> fu <= q < fu0) as Hin.
  { intros q. rewrite (run_down_elem _ _ _ Hrun'). unfold fu. zlia. }
  assert (forall q, q ∈ B2 -> q < fu - 1) as HB2.
  { destruct B2 as [|b B2]; [by intros q ?%elem_of_nil|].
    assert (b < fu) as Hb. { destruct (Z.lt_ge_cases b fu) as [|Hge]; [done|].
      assert (b < fu0 - 1) by (apply Hlt; rewrite elem_of_app, elem_of_cons; by right; left).
      assert (b ∈ (fu0 - 1) :: B1) as Hb by (apply Hin; lia). pose proof (desc_NoDup _ Hd) as Hnd.
      rewrite app_comm_cons in Hnd. apply NoDup_app in Hnd as (_ & Hnd & _). destruct (Hnd b Hb). constructor. }
    rewrite app_comm_cons in Hd. apply StronglySorted_app_iff in Hd as (_ & Hd2 & _). apply desc_tail in Hd2 as [_ Hd2].
    assert (b <> fu - 1). { intros ->. apply Hhead. cbn. f_equal. unfold fu. zlia. }
    intros q [->|Hq]%elem_of_cons; [lia|]. specialize (Hd2 q Hq). lia. }
  replace (zlen (fu0 - 1 :: B1 ++ B2) - (1 + zlen B1 + 1 - 1)) with (zlen B2) by zlia.
  destruct (repnl_tail t _ Hrep Hd (fu0 - 1 :: B1) B2 eq_refl) as (p & Ep & Hp').
  replace (Z.to_nat (zlen B2)) with (length B2) by (unfold zlen; lia).
  replace (1 + zlen B1 + 1) with (zlen (fu0 - 1 :: B1) + 1) by zlia.
  destruct (pnl_setsize (repnl t) (zlen B2)) as [p1|]; [|done]. cbn [mbind option_bind] in *. rewrite Ep. cbn [mbind option_bind].
  eexists _, fu. split; [done|].
  assert (MIN_PAGENO <= fu) as Hmin. { apply (Hpg fu). rewrite app_comm_cons, elem_of_app. left. apply Hin. unfold fu. zlia. }
  split_and!; [done|unfold fu; zlia| | |].
  - intros q Hq. rewrite app_comm_cons, elem_of_app. left. by apply Hin.
  - rewrite app_comm_cons, elem_of_app. intros [H|H]; [apply Hin in H; lia|]. specialize (HB2 _ H). lia.
  - exists p. split; [done|]. rewrite app_comm_cons, (filter_below _ _ fu); [done|..].
    + intros q Hq. apply Hin in Hq. lia.
    + intros q Hq. specialize (HB2 q Hq). lia.
Qed.

(** ** Loose pages *)

Definition suitable_of (lo : Z) (ls : list loose) : list Z := filter (fun p => lo <= p) (lp_pgno <$> ls).

Lemma collect_suitable_spec a n fu count : 0 <= fu - count <= UINT64_MAX -> forall ls S0 gap most, zlen ls <= zlen gap ->
  exists gap' most', zlen gap' = zlen gap - zlen (suitable_of (fu - count) ls) /\
    collect_suitable ls fu count (a :: n :: S0 ++ gap) (zlen S0) most =
      Some (a :: n :: (S0 ++ suitable_of (fu - count) ls) ++ gap', zlen S0 + zlen (suitable_of (fu - count) ls), most') /\
    most <= most' /\ (most' = most \/ most' ∈ suitable_of (fu - count) ls) /\
    (forall x, x ∈ suitable_of (fu - count) ls -> x <= most').
Proof.
  intros Hlo. unfold suitable_of. induction ls as [|lp ls IH]; intros S0 gap most Hg; cbn [collect_suitable fmap list_fmap].
  { exists gap, most. change (filter _ []) with (@nil Z). rewrite app_nil_r, zlen_nil, Z.add_0_r. split_and!; [lia|done|lia|by left|by intros x ?%elem_of_nil]. }
  rewrite u64_small by done. rewrite zlen_cons in Hg. rewrite filter_cons.
  destruct (Z.leb_spec (fu - count) (lp_pgno lp)) as [Hle|Hgt].
  2:{ rewrite decide_False by lia. apply IH. lia. }
  rewrite decide_True by done. destruct gap as [|g gap]; [zlia|]. rewrite pnl_put_mid by lia. cbn [mbind option_bind].
  destruct (IH (S0 ++ [lp_pgno lp]) gap (if most <? lp_pgno lp then lp_pgno lp else most)) as (gap' & most' & Hg' & E & Hm & Hc & Hall); [zlia|].
  exists gap', most'. rewrite zlen_snoc, <- !app_assoc in E. cbn [app] in E. rewrite E. split; [zlia|]. split.
  { rewrite <- app_assoc. f_equal. f_equal. f_equal. zlia. }
  destruct (Z.ltb_spec most (lp_pgno lp)) as [Hlt|Hge]; (split; [lia|]); split.
  - right. rewrite elem_of_cons. destruct Hc as [->|Hc]; auto.
  - intros x [->|Hx]%elem_of_cons; [lia|auto].
  - destruct Hc as [->|Hc]; [by left|right]. by constructor.
  - intros x [->|Hx]%elem_of_cons; [lia|auto].
Qed.

Lemma suitable_length lo ls : zlen (suitable_of lo ls) <= zlen ls.
Proof. unfold suitable_of. rewrite <- (zlen_fmap lp_pgno ls). unfold zlen. pose proof (length_filter (fun p => lo <= p) (lp_pgno <$> ls)). lia. Qed.

Lemma scan_suitable_spec p l : pnl_rep p l -> forall B A most, l = A ++ B -> 0 < zlen A -> desc B ->
  (forall x, x ∈ B -> 0 <= x < most) -> 1 <= most <= MAX_PAGENO ->
  exists B1 B2, B = B1 ++ B2 /\ run_down (most - 1) B1 /\ head B2 <> Some (most - 1 - zlen B1) /\
    scan_suitable (length B) p (zlen A + 1) most = Some (most - zlen B1).
Proof.
  intros Hp. unfold MAX_PAGENO. induction B as [|b B IH]; intros A most El HA Hd Hr Hm; cbn [scan_suitable length].
  { exists [], []. split_and!; [done|apply run_down_nil|done|]. f_equal. zlia. }
  assert (0 <= b < most) as Hb by (apply Hr; constructor). apply desc_tail in Hd as [Hd Hlt].
  rewrite (pnl_rep_at _ _ _ Hp) by (subst l; zlia). rewrite El, zget_app_mid by lia. cbn [mbind option_bind].
  rewrite (u32_small (most - 1)) by (unfold UINT32_MAX; lia). destruct (Z.eqb_spec b (most - 1)) as [->|Hne]; cbn [negb].
  2:{ exists [], (b :: B). split_and!; [done|apply run_down_nil|cbn; intros [= ->]; zlia|]. f_equal. zlia. }
  destruct B as [|b B].
  { exists [most - 1], []. split_and!; [done|by apply run_down_cons, run_down_nil|done|]. cbn. f_equal. }
  destruct (IH (A ++ [most - 1]) (most - 1)) as (B1 & B2 & EB & Hrun & Hh & E); [by rewrite <- app_assoc|zlia|done| | |].
  { intros x Hx. specialize (Hlt x Hx). specialize (Hr x ltac:(by constructor)). lia. }
  { specialize (Hr b ltac:(by constructor; constructor)). specialize (Hlt b ltac:(constructor)). lia. }
  exists ((most - 1) :: B1), B2. split_and!; [by rewrite EB|by apply run_down_cons|intros Hx; apply Hh; rewrite Hx; f_equal; zlia|].
  rewrite zlen_snoc in E. rewrite E. f_equal. zlia.
Qed.

(** ** Counting the refunded pages *)

Definition loose_below (fu : Z) (ls : list loose) : list loose := filter (fun lp => lp_pgno lp < fu) ls.
Definition loose_above (fu : Z) (ls : list loose) : list loose := filter (fun lp => ~ lp_pgno lp < fu) ls.
Definition dirty_below (fu : Z) (D : list dp) : list dp := filter (fun x => dp_pgno x < fu) D.

Lemma NoDup_fmap_filter {A B} (f : A -> B) (P : A -> Prop) `{!forall x, Decision (P x)} (l : list A) :
  NoDup (f <$> l) -> NoDup (f <$> filter P l).
Proof. intros Hl. eapply sublist_NoDup; [exact Hl|]. apply fmap_sublist, sublist_filter. Qed.

Section Counting.
Context (t : rtxn) (fu : Z).
Hypothesis (Hfu : fu <= first_unallocated t).
Hypothesis (Hnd : NoDup (lp_pgno <$> loose_pages t)).
Hypothesis (Hrange : forall lp, lp ∈ loose_pages t -> MIN_PAGENO <= lp_pgno lp < first_unallocated t).
Hypothesis (Hcov : forall p, fu <= p < first_unallocated t -> p ∈ lp_pgno <$> loose_pages t).

Lemma loose_above_count : zlen (loose_above fu (loose_pages t)) = first_unallocated t - fu.
Proof using All.
  unfold loose_above. rewrite <- (zlen_fmap lp_pgno). apply range_exact; [by apply NoDup_fmap_filter| |done].
  intros p. rewrite list_elem_of_fmap. split.
  - intros (lp & -> & [Hp Hin]%list_elem_of_filter). specialize (Hrange lp Hin). lia.
  - intros Hp. destruct (proj1 (list_elem_of_fmap _ _ _) (Hcov p Hp)) as (lp & -> & Hin). exists lp. split; [done|].
    apply list_elem_of_filter. split; [lia|done].
Qed.

Lemma loose_below_count : zlen (loose_below fu (loose_pages t)) = zlen (loose_pages t) - (first_unallocated t - fu).
Proof using All.
  rewrite <- loose_above_count.
  pose proof (Permutation_length (filter_app_complement (fun lp => lp_pgno lp < fu) (loose_pages t))) as H.
  rewrite length_app in H. unfold loose_below, loose_above, zlen. lia.
Qed.

Section Dirty.
Context (D : list dp).
Hypothesis (HndD : NoDup (dp_pgno <$> D)).
Hypothesis (HD : forall x, x ∈ D -> dp_pgno x < first_unallocated t).
Hypothesis (HL : forall lp, lp ∈ loose_pages t -> loose_entry lp ∈ D).

(** The dirty pages of the refunded range are the loose ones, of one page each. *)
Lemma above_is_loose x : x ∈ D -> ~ dp_pgno x < fu -> exists lp, lp ∈ loose_pages t /\ x = loose_entry lp.
Proof using All.
  intros Hx Hp. specialize (HD x Hx). destruct (proj1 (list_elem_of_fmap _ _ _) (Hcov (dp_pgno x) ltac:(lia))) as (lp & E & Hin).
  exists lp. split; [done|]. by apply (dp_nodup_eq D); auto.
Qed.

Lemma dirty_above_count : zlen (filter (fun x => ~ dp_pgno x < fu) D) = first_unallocated t - fu.
Proof using All.
  rewrite <- (zlen_fmap dp_pgno). apply range_exact; [by apply NoDup_fmap_filter| |done].
  intros p. rewrite list_elem_of_fmap. split.
  - intros (x & -> & [Hp Hin]%list_elem_of_filter). specialize (HD x Hin). lia.
  - intros Hp. destruct (proj1 (list_elem_of_fmap _ _ _) (Hcov p Hp)) as (lp & -> & Hin). exists (loose_entry lp). split; [done|].
    apply list_elem_of_filter. split; [cbn; lia|auto].
Qed.

Lemma dirty_below_count : zlen (dirty_below fu D) = zlen D - (first_unallocated t - fu) /\
  dp_total (dirty_below fu D) = dp_total D - (first_unallocated t - fu).
Proof using All.
  pose proof dirty_above_count as Hc. pose proof (filter_app_complement (fun x => dp_pgno x < fu) D) as HP. unfold dirty_below.
  assert (dp_total (filter (fun x => ~ dp_pgno x < fu) D) = zlen (filter (fun x => ~ dp_pgno x < fu) D)) as Ht.
  { assert (forall x, x ∈ filter (fun x => ~ dp_pgno x < fu) D -> dp_npages_ x = 1) as H1.
    { intros x [Hp Hx]%list_elem_of_filter. by destruct (above_is_loose x Hx Hp) as (lp & _ & ->). }
    clear -H1. induction (filter (fun x => ~ dp_pgno x < fu) D) as [|x l IH]; [done|]. cbn [dp_total]. rewrite zlen_cons, H1 by constructor.
    rewrite IH; [lia|]. intros y Hy. apply H1. by constructor. }
  split.
  - rewrite <- HP at 2. rewrite zlen_app, Hc. lia.
  - rewrite <- HP at 2. rewrite dp_total_app, Ht, Hc. lia.
Qed.
End Dirty.
End Counting.

(** ** Filtering the dirty list *)

Lemma filter_items_spec dl most rest : forall todo kept gap sorted items, items = stubB :: kept ++ gap ++ todo ++ rest ->
  exists gap', zlen gap' = zlen gap + zlen todo - zlen (dirty_below most todo) /\
    filter_items (length todo) (with_sorted (with_items dl items) sorted) most (zlen kept) (zlen kept + zlen gap) =
      Some (with_sorted (with_items dl (stubB :: (kept ++ dirty_below most todo) ++ gap' ++ rest)) sorted,
        zlen kept + zlen (dirty_below most todo), zlen kept + zlen gap + zlen todo).
Proof.
  unfold dirty_below. induction todo as [|x todo IH]; intros kept gap sorted items Hi; cbn [filter_items length].
  { change (filter _ []) with (@nil dp). exists gap. rewrite app_nil_r, zlen_nil, !Z.add_0_r. split; [lia|]. by rewrite Hi. }
  cbn [app] in Hi.
  assert (zget (dl_items (with_sorted (with_items dl items) sorted)) (zlen kept + zlen gap + 1) = Some x) as ->.
  { cbn [with_sorted with_items dl_items]. rewrite Hi, app_assoc, (app_comm_cons (kept ++ gap)). apply zget_app_mid. zlia. }
  cbn [mbind option_bind]. rewrite filter_cons. destruct (Z.ltb_spec (dp_pgno x) most) as [Hlt|Hge].
  - rewrite decide_True by done.
    assert (exists gap', zlen gap' = zlen gap /\ (if negb (zlen kept + 1 =? zlen kept + zlen gap + 1)
      then dl_put (with_sorted (with_items dl items) sorted) (zlen kept + 1) x else Some (with_sorted (with_items dl items) sorted)) =
      Some (with_sorted (with_items dl (stubB :: (kept ++ [x]) ++ gap' ++ todo ++ rest)) sorted)) as (gap1 & Hg1 & E1).
    { destruct (zmove_down (stubB :: kept) gap x (todo ++ rest)) as (gap1 & Hg1 & Em). rewrite zlen_cons in Em.
      destruct (Z.eqb_spec (zlen kept + 1) (zlen kept + zlen gap + 1)) as [E|E]; cbn [negb].
      - assert (gap = []) as -> by (apply zlen_0_nil; lia). exists []. split; [done|]. rewrite Hi. cbn [app]. by rewrite <- app_assoc.
      - exists gap1. split; [done|]. unfold dl_put. cbn [with_sorted with_items dl_items]. rewrite Hi. cbn [app] in Em |- *. rewrite Em. done. }
    rewrite E1. cbn [mbind option_bind].
    destruct (IH (kept ++ [x]) gap1 sorted _ eq_refl) as (gap' & Hg & E). exists gap'. split; [zlia|].
    rewrite zlen_snoc in E. replace (zlen kept + zlen gap + 1) with (zlen kept + 1 + zlen gap1) by lia. rewrite E.
    rewrite <- (app_assoc kept). cbn [app]. f_equal. f_equal; [f_equal|]; zlia.
  - rewrite decide_False by lia. destruct (IH kept (gap ++ [x]) sorted items) as (gap' & Hg & E).
    { rewrite Hi, <- (app_assoc gap). done. }
    exists gap'. split; [zlia|]. rewrite zlen_snoc in E. replace (zlen kept + zlen gap + 1) with (zlen kept + (zlen gap + 1)) by lia. rewrite E. f_equal. f_equal. zlia.
Qed.

Lemma dirty_below_app fu a b : dirty_below fu (a ++ b) = dirty_below fu a ++ dirty_below fu b.
Proof. apply filter_app. Qed.

Lemma dl_eta dl : dl = with_sorted (with_items dl (dl_items dl)) (dl_sorted dl).
Proof. by destruct dl. Qed.

Lemma filter_dirty_spec dl D most : dpl_ok dl D -> exists dl',
  filter_dirty (with_pages dl (u64 (dp_total (dirty_below most D)))) most = Some dl' /\ dpl_ok dl' (dirty_below most D).
Proof.
  intros Hok. pose proof Hok as [[rest Hit] Hlen (s & u & ED & Hso & Has) _ _ _ _ _ _]. unfold filter_dirty.
  set (n := u64 (dp_total (dirty_below most D))). set (dl1 := with_pages dl n). rewrite ED, <- app_assoc in Hit.
  assert (exists gap1, zlen gap1 = zlen s - zlen (dirty_below most s) /\
    (if dl_sorted dl1 =? 0 then Some (dl1, 0, 0)
     else '(dl, w, r) ← filter_items (Z.to_nat (dl_sorted dl1)) dl1 most 0 0; Some (with_sorted dl w, w, r)) =
    Some (with_sorted (with_items dl1 (stubB :: dirty_below most s ++ gap1 ++ u ++ stubE :: rest)) (zlen (dirty_below most s)),
      zlen (dirty_below most s), zlen s)) as (gap1 & Hg1 & ->).
  { change (dl_sorted dl1) with (dl_sorted dl). rewrite Hso. destruct (Z.eqb_spec (zlen s) 0) as [E0|E0].
    - assert (s = []) as -> by (by apply zlen_0_nil). exists []. split; [done|]. change (dirty_below most []) with (@nil dp). cbn [app].
      cbn [app] in Hit. rewrite <- Hit. change (zlen []) with 0 in *. f_equal. f_equal. f_equal. rewrite (dl_eta dl1) at 1.
      change (dl_sorted dl1) with (dl_sorted dl). by rewrite Hso.
    - destruct (filter_items_spec dl1 most (u ++ stubE :: rest) s [] [] (zlen s) (dl_items dl1)) as (gap1 & Hg1 & E); [exact Hit|].
      exists gap1. rewrite zlen_nil in *. cbn [app] in *. split; [lia|]. replace (Z.to_nat (zlen s)) with (length s) by (unfold zlen; lia).
      rewrite (dl_eta dl1) at 1. change (dl_sorted dl1) with (dl_sorted dl). rewrite Hso, !Z.add_0_l in *. rewrite E. done. }
  cbn [mbind option_bind]. change (dl_length (with_sorted _ _)) with (dl_length dl). rewrite Hlen.
  replace (Z.to_nat (zlen D - zlen s)) with (length u) by (subst D; unfold zlen; rewrite length_app; lia).
  destruct (filter_items_spec dl1 most (stubE :: rest) u (dirty_below most s) gap1 (zlen (dirty_below most s)) _ eq_refl) as (gap2 & Hg2 & E).
  replace (zlen (dirty_below most s) + zlen gap1) with (zlen s) in E by lia. rewrite E. cbn [mbind option_bind]. clear E.
  rewrite <- dirty_below_app, <- ED. unfold dpl_setlen. cbn [with_sorted with_items dl_items].
  destruct (gap2 ++ stubE :: rest) as [|g rest2] eqn:Eg; [by destruct gap2|].
  rewrite (app_comm_cons _ _ stubB), zset_app_mid by (rewrite ED, dirty_below_app; zlia). cbn [mbind option_bind app].
  eexists. split; [done|]. cbn [dl_sorted dl_pages_including_loose dl_detent].
  replace (zlen (dirty_below most s) + zlen (dirty_below most u)) with (zlen (dirty_below most D)) by (rewrite ED, dirty_below_app; zlia).
  eapply (dpl_ok_sub dl D _ (dirty_below most s) (dirty_below most u)); [done|by rewrite ED, dirty_below_app| | |done|].
  - by apply StronglySorted_filter.
  - apply sublist_filter.
  - apply (f_equal zlen) in Eg. rewrite Hit, ED, dirty_below_app. zlia.
Qed.

(** ** Unlinking *)

Definition release_all (env : shadow) (ls : list loose) : shadow :=
  foldl (fun e lp => page_shadow_release e (lp_ptr lp) 1) env ls.

Lemma unlink_loose_spec fu wm : forall ls env, unlink_loose ls fu wm env =
  (loose_below fu ls, if wm then env else release_all env (loose_above fu ls)).
Proof.
  unfold loose_below, loose_above, release_all. induction ls as [|lp ls IH]; intros env; cbn [unlink_loose]; [by destruct wm|].
  rewrite !filter_cons. destruct (Z.ltb_spec (lp_pgno lp) fu) as [Hlt|Hge].
  - rewrite decide_True by done. rewrite decide_False by lia. by rewrite IH.
  - rewrite decide_False by lia. rewrite decide_True by lia. rewrite IH. by destruct wm.
Qed.

(** What a refund of loose pages does: the pages from the new end on were loose,
    they leave the list of loose pages and the dirty list and their shadow pages
    are released; nothing else changes. *)
Record refunded (flags_of : Z -> Z) (t t' : rtxn) (D D' : list dp) : Prop := {
  rf_fu : MIN_PAGENO <= first_unallocated t' <= first_unallocated t;
  rf_pages : forall p, first_unallocated t' <= p < first_unallocated t -> p ∈ lp_pgno <$> loose_pages t;
  rf_loose : loose_pages t' = loose_below (first_unallocated t') (loose_pages t);
  rf_count : loose_count t' = zlen (loose_pages t');
  rf_dirty : dirty_ok flags_of t' D';
  rf_below : D' ≡ₚ dirty_below (first_unallocated t') D;
  rf_room : dirtylist (rt_dirty t) <> None ->
    dirtyroom (rt_dirty t') = dirtyroom (rt_dirty t) + (first_unallocated t - first_unallocated t');
  rf_none : dirtylist (rt_dirty t) = None <-> dirtylist (rt_dirty t') = None;
  rf_shadow : env_shadow (rt_dirty t') = if writemap (rt_dirty t) then env_shadow (rt_dirty t)
    else release_all (env_shadow (rt_dirty t)) (loose_above (first_unallocated t') (loose_pages t));
  rf_repnl : repnl t' = repnl t;
  rf_spilled : rt_spilled t' = rt_spilled t;
  rf_writemap : writemap (rt_dirty t') = writemap (rt_dirty t);
}.

(** The dirty list without the refunded entries. *)
Lemma dirty_ok_below flags_of t t' dl dl' D D' : dirty_ok flags_of t D -> dirtylist (rt_dirty t) = Some dl ->
  dirtylist (rt_dirty t') = Some dl' -> dpl_ok dl' D' -> D' ≡ₚ dirty_below (first_unallocated t') D ->
  loose_pages t' = loose_below (first_unallocated t') (loose_pages t) ->
  0 <= dirtyroom (rt_dirty t') -> dirtyroom (rt_dirty t') + zlen D' <= dirtyroom (rt_dirty t) + zlen D ->
  dirty_ok flags_of t' D'.
Proof.
  unfold dirty_ok. intros H E E' Hok HP HL H0 Hroom. rewrite E in H. rewrite E', HL. destruct H as (_ & _ & Hmax & Hlt & Hin & Hfl & Hfl').
  unfold loose_below, dirty_below in *. split_and!; [done|done|lia|..].
  - intros x Hx. rewrite HP in Hx. by apply list_elem_of_filter in Hx as [? _].
  - intros lp [Hlp Hin']%list_elem_of_filter. rewrite HP. apply list_elem_of_filter. split; [done|auto].
  - intros x Hx Hf. rewrite HP in Hx. apply list_elem_of_filter in Hx as [Hx Hin']. destruct (Hfl x Hin' Hf) as (lp & Hlp & ->).
    exists lp. split; [|done]. by apply list_elem_of_filter.
  - intros lp [Hlp Hin']%list_elem_of_filter. auto.
Qed.

Lemma loose_below_all t : (forall lp, lp ∈ loose_pages t -> MIN_PAGENO <= lp_pgno lp < first_unallocated t) ->
  loose_below (first_unallocated t) (loose_pages t) = loose_pages t /\ loose_above (first_unallocated t) (loose_pages t) = [].
Proof.
  intros H. unfold loose_below, loose_above. split; [apply filter_all|apply filter_none]; intros lp Hlp; specialize (H lp Hlp); lia.
Qed.

(** Nothing refunded: at most the dirty list is in another order. *)
Lemma refunded_none flags_of t D R wl dl D' : refund_ok flags_of t D R ->
  match dirtylist (rt_dirty t) with Some _ => exists dl0, dl = Some dl0 /\ dpl_ok dl0 D' | None => dl = None end -> D' ≡ₚ D ->
  refunded flags_of t
    (mk_rtxn (mk_dtxn (writemap (rt_dirty t)) (ro_nested (rt_dirty t)) dl (dirtyroom (rt_dirty t)) (dirtylru (rt_dirty t)) (lru (rt_dirty t))
      (env_shadow (rt_dirty t))) (first_unallocated t) (repnl t) (loose_pages t) (loose_count t) wl (rt_spilled t)) D D'.
Proof.
  intros Hok Hdl HP. destruct Hok as [Hfu Hd Hnd Hr Hc _ _ _ _ _]. destruct (loose_below_all t Hr) as [Hb Ha].
  assert (D' ≡ₚ dirty_below (first_unallocated t) D) as HP'.
  { rewrite HP. unfold dirty_below. rewrite filter_all; [done|]. intros x Hx. unfold dirty_ok in Hd.
    destruct (dirtylist (rt_dirty t)); [by apply Hd|]. subst D. by apply elem_of_nil in Hx. }
  split; cbn [first_unallocated loose_pages loose_count rt_dirty dirtyroom env_shadow writemap repnl rt_spilled]; try done.
  - lia.
  - intros p Hp. lia.
  - destruct (dirtylist (rt_dirty t)) as [dl1|] eqn:E.
    + destruct Hdl as (dl0 & -> & Hok). eapply dirty_ok_below; [exact Hd|exact E|done|done|done|done|..]; cbn [rt_dirty dirtyroom].
      * unfold dirty_ok in Hd. rewrite E in Hd. lia.
      * assert (zlen D' = zlen D) as -> by (by rewrite HP). lia.
    + subst dl. unfold dirty_ok in *. rewrite E in Hd. cbn. subst D. by apply Permutation_nil_r in HP.
  - intros _. lia.
  - destruct (dirtylist (rt_dirty t)); [by destruct Hdl as (dl0 & -> & _)|by subst].
  - rewrite Ha. by destruct (writemap (rt_dirty t)).
Qed.

Lemma unlink_spec t : unlink t = with_loose t (loose_below (first_unallocated t) (loose_pages t))
  (if writemap (rt_dirty t) then env_shadow (rt_dirty t)
   else release_all (env_shadow (rt_dirty t)) (loose_above (first_unallocated t) (loose_pages t))).
Proof. unfold unlink. by rewrite unlink_loose_spec. Qed.

Lemma refunded_same flags_of t D R wl : refund_ok flags_of t D R ->
  refunded flags_of t (mk_rtxn (rt_dirty t) (first_unallocated t) (repnl t) (loose_pages t) (loose_count t) wl (rt_spilled t)) D D.
Proof.
  intros Hok. pose proof (ro_dirty _ _ _ _ Hok) as Hd. unfold dirty_ok in Hd.
  replace (rt_dirty t) with (mk_dtxn (writemap (rt_dirty t)) (ro_nested (rt_dirty t)) (dirtylist (rt_dirty t)) (dirtyroom (rt_dirty t))
    (dirtylru (rt_dirty t)) (lru (rt_dirty t)) (env_shadow (rt_dirty t))) at 1 by (by destruct (rt_dirty t)).
  eapply refunded_none; [done| |done]. destruct (dirtylist (rt_dirty t)) as [dl|]; [|done]. exists dl. by destruct Hd.
Qed.

Lemma refunded_refl flags_of t D R : refund_ok flags_of t D R -> refunded flags_of t t D D.
Proof. intros Hok. pose proof (refunded_same flags_of t D R (loose_refund_wl t) Hok). by destruct t. Qed.

(** The pages from [fu] on refunded; [dl] is the new dirty list. *)
Definition refund_to (t : rtxn) (fu : Z) (dl : option dpl) : rtxn :=
let d := rt_dirty t in
unlink (with_dirty (with_fu t fu)
  (mk_dtxn (writemap d) (ro_nested d) dl (match dl with Some _ => dirtyroom d + (first_unallocated t - fu) | None => dirtyroom d end)
    (dirtylru d) (lru d) (env_shadow d)) (loose_count t - (first_unallocated t - fu))).

Lemma refund_to_fu t fu dl : first_unallocated (refund_to t fu dl) = fu.
Proof. unfold refund_to. by rewrite unlink_spec. Qed.

Lemma refund_to_refunded flags_of t D R fu dl D' : refund_ok flags_of t D R -> fu <= first_unallocated t ->
  (forall p, fu <= p < first_unallocated t -> p ∈ lp_pgno <$> loose_pages t) ->
  match dirtylist (rt_dirty t) with
  | Some _ => exists dl0, dl = Some dl0 /\ dpl_ok dl0 D' /\ D' ≡ₚ dirty_below fu D
  | None => dl = None /\ D' = []
  end -> refunded flags_of t (with_wl (refund_to t fu dl)) D D'.
Proof.
  intros Hok Hfu Hcov Hdl. pose proof Hok as [Hfu0 Hd Hnd Hr Hc _ _ _ _ _]. unfold refund_to. rewrite unlink_spec.
  assert (MIN_PAGENO <= fu).
  { destruct (Z.eq_dec fu (first_unallocated t)) as [->|Hne]; [lia|].
    destruct (proj1 (list_elem_of_fmap _ _ _) (Hcov fu ltac:(lia))) as (lp & -> & Hin). specialize (Hr lp Hin). lia. }
  pose proof (loose_below_count t fu Hfu Hnd Hr Hcov) as Hbc.
  split; cbn [first_unallocated loose_pages loose_count rt_dirty dirtyroom env_shadow writemap repnl rt_spilled with_wl with_loose with_dirty
    with_fu with_shadow]; try done.
  - lia.
  - destruct (dirtylist (rt_dirty t)) as [dl1|] eqn:E.
    + destruct Hdl as (dl0 & -> & Hok0 & HP). pose proof Hd as Hd'. unfold dirty_ok in Hd'. rewrite E in Hd'. destruct Hd' as (Hdl1 & H0 & _ & HD & HL & _).
      destruct (dirty_below_count t fu Hfu Hnd Hr Hcov D (dok_nodup _ _ Hdl1) HD HL) as [Hz _].
      eapply dirty_ok_below; [exact Hd|exact E|done|done|done|done|..]; cbn [rt_dirty dirtyroom with_wl with_loose with_dirty with_shadow with_fu]; [lia|].
      assert (zlen D' = zlen (dirty_below fu D)) as -> by (by rewrite HP). lia.
    + destruct Hdl as [-> ->]. done.
  - destruct (dirtylist (rt_dirty t)) as [dl1|] eqn:E; [by destruct Hdl as (? & _ & _ & ?)|]. destruct Hdl as [_ ->].
    unfold dirty_ok in Hd. rewrite E in Hd. by subst D.
  - intros Hne. destruct (dirtylist (rt_dirty t)) as [dl1|]; [|done]. by destruct Hdl as (dl0 & -> & _).
  - destruct (dirtylist (rt_dirty t)); [by destruct Hdl as (dl0 & -> & _)|by destruct Hdl as [-> _]].
Qed.

(** The tail of both branches computes it. *)
Lemma refund_to_spec flags_of t D R fu : refund_ok flags_of t D R -> fu <= first_unallocated t ->
  first_unallocated t - fu <= zlen (loose_pages t) ->
  (forall p, fu <= p < first_unallocated t -> p ∈ lp_pgno <$> loose_pages t) -> fu - 1 ∉ lp_pgno <$> loose_pages t ->
  exists t' D', (let refunded := u32 (first_unallocated t - fu) in
    let t := with_fu t fu in
    let count := u64 (loose_count t - refunded) in
    match dirtylist (rt_dirty t) with
    | None => Some (unlink (with_dirty t (rt_dirty t) count))
    | Some dl =>
      dl ← filter_dirty (with_pages dl (u64 (dl_pages_including_loose dl - refunded))) fu;
      Some (unlink (with_dirty t (with_room (with_dirtylist (rt_dirty t) dl) (u64 (dirtyroom (rt_dirty t) + refunded))) count))
    end) = Some t' /\ refunded flags_of t (with_wl t') D D' /\ first_unallocated t' - 1 ∉ lp_pgno <$> loose_pages t.
Proof.
  intros Hok Hle Hk Hcov Hstop. pose proof Hok as [Hfu Hd Hnd Hr Hc _ _ _ _ _]. cbv zeta. unfold MAX_PAGENO in *.
  assert (zlen (loose_pages t) <= first_unallocated t - MIN_PAGENO) as Hb.
  { rewrite <- (zlen_fmap lp_pgno). apply range_count; [done| |lia]. intros x (lp & -> & Hin)%list_elem_of_fmap. auto. }
  unfold MIN_PAGENO in Hb, Hfu.
  change (rt_dirty (with_fu t fu)) with (rt_dirty t). change (loose_count (with_fu t fu)) with (loose_count t).
  rewrite (u32_small (first_unallocated t - fu)) by (unfold UINT32_MAX; lia).
  rewrite (u64_small (loose_count t - (first_unallocated t - fu))) by (unfold UINT64_MAX; lia).
  destruct (dirtylist (rt_dirty t)) as [dl|] eqn:E.
  - pose proof Hd as Hd'. unfold dirty_ok in Hd'. rewrite E in Hd'. destruct Hd' as (Hdl & H0 & Hmax & HD & HL & _).
    destruct (dirty_below_count t fu Hle Hnd Hr Hcov D (dok_nodup _ _ Hdl) HD HL) as [Hz Ht].
    assert (u64 (dl_pages_including_loose dl - (first_unallocated t - fu)) = u64 (dp_total (dirty_below fu D))) as ->.
    { rewrite (dok_pages _ _ Hdl), Ht. unfold u64, wrap. by rewrite Zminus_mod_idemp_l. }
    destruct (filter_dirty_spec dl D fu Hdl) as (dl' & -> & Hdl'). cbn [mbind option_bind].
    rewrite u64_small by (pose proof (zlen_nonneg (dirty_below fu D)); lia).
    eexists (refund_to t fu (Some dl')), (dirty_below fu D). split; [done|]. split; [|by rewrite refund_to_fu].
    eapply refund_to_refunded; [done|done|done|]. rewrite E. by exists dl'.
  - eexists (refund_to t fu None), []. split; [|split; [eapply refund_to_refunded; [done|done|done|by rewrite E]|by rewrite refund_to_fu]].
    unfold refund_to. do 3 f_equal. destruct (rt_dirty t). cbn in E. by subst.
Qed.

(** The run of suitable pages: from the page [fu - 1] down. *)
Lemma suitable_run t S0 B1 B2 : (forall p, p ∈ S0 <-> p ∈ lp_pgno <$> loose_pages t /\ first_unallocated t - zlen (loose_pages t) <= p) ->
  S0 = (first_unallocated t - 1) :: B1 ++ B2 -> desc S0 -> run_down (first_unallocated t - 2) B1 ->
  head B2 <> Some (first_unallocated t - 2 - zlen B1) ->
  let fu := first_unallocated t - 1 - zlen B1 in
  (forall p, fu <= p < first_unallocated t -> p ∈ lp_pgno <$> loose_pages t) /\ fu - 1 ∉ lp_pgno <$> loose_pages t.
Proof.
  intros HS ES Hd Hrun Hhead fu. set (fu0 := first_unallocated t) in *.
  assert (run_down (fu0 - 1) ((fu0 - 1) :: B1)) as Hrun'.
  { apply run_down_cons. by replace (fu0 - 1 - 1) with (fu0 - 2) by lia. }
  assert (forall q, (q ∈ (fu0 - 1) :: B1) <-> fu <= q < fu0) as Hin.
  { intros q. rewrite (run_down_elem _ _ _ Hrun'). unfold fu. zlia. }
  assert (forall p, fu <= p < fu0 -> p ∈ lp_pgno <$> loose_pages t) as Hcov.
  { intros p Hp. apply HS. rewrite ES, app_comm_cons, elem_of_app. left. by apply Hin. }
  split; [done|]. intros Hl. destruct (Z.lt_ge_cases (fu - 1) (fu0 - zlen (loose_pages t))) as [Hlt|Hge].
  - assert (fu0 - (fu - 1) <= zlen (lp_pgno <$> loose_pages t)) as Hc.
    { apply range_covered. intros x Hx. destruct (decide (x = fu - 1)) as [->|Hne]; [done|]. apply Hcov. lia. }
    rewrite zlen_fmap in Hc. lia.
  - assert (fu - 1 ∈ S0) as Hs by (by apply HS). rewrite ES, app_comm_cons, elem_of_app in Hs.
    destruct Hs as [Hs|Hs]; [apply Hin in Hs; lia|]. destruct B2 as [|b B2]; [by apply elem_of_nil in Hs|].
    rewrite ES, app_comm_cons in Hd. pose proof (desc_NoDup _ Hd) as Hnd. apply StronglySorted_app_iff in Hd as (_ & [_ Hd]%desc_tail & Hbb).
    assert (b <> fu - 1). { intros ->. apply Hhead. cbn. f_equal. unfold fu. zlia. }
    apply elem_of_cons in Hs as [Hs|Hs]; [done|]. specialize (Hd _ Hs).
    apply NoDup_app in Hnd as (_ & Hnd & _). apply (Hnd b); [|constructor]. apply Hin.
    specialize (Hbb (fu0 - 1) b ltac:(constructor) ltac:(constructor)). cbn in Hbb. lia.
Qed.

(** ** The branch with the list of suitable pages *)

Section Unsorted.
Context (al : allocator) `{!AllocOk 4 al} (cm : bool) (flags_of : Z -> Z) (stack : list Z).
Context (t : rtxn) (D : list dp) (R : list Z).
Context (Hok : refund_ok flags_of t D R) (Hne : loose_pages t <> []) (Hstack : zlen stack = 128).

Lemma loose_bound : 0 < zlen (loose_pages t) <= first_unallocated t - MIN_PAGENO.
Proof using Hok Hne.
  destruct Hok as [Hfu _ Hnd Hr _ _ _ _ _ _]. split.
  { destruct (loose_pages t) as [|lp ls]; [done|]. rewrite zlen_cons. pose proof (zlen_nonneg ls). lia. }
  rewrite <- (zlen_fmap lp_pgno). apply range_count; [done| |lia]. intros x (lp & -> & Hin)%list_elem_of_fmap. auto.
Qed.

(** The room for the suitable pages: on the stack or in the heap. *)
Lemma suitable_room : exists r,
  (if onstack_size <? loose_count t then pnl_alloc al (loose_count t) else Some (Some (onstack stack))) = Some r /\
  match r with
  | None => alloc_fails al
  | Some p => exists a n gap, p = a :: n :: gap /\ zlen (loose_pages t) <= a <= UINT32_MAX /\ 2 * a + 3 <= zlen p
  end.
Proof using All.
  pose proof loose_bound as Hb. pose proof (ro_fu _ _ _ _ Hok) as Hfu. rewrite (ro_count _ _ _ _ Hok). unfold MAX_PAGENO, MIN_PAGENO in *.
  assert (onstack_size = 62) as Eo by (by vm_compute). destruct (Z.ltb_spec onstack_size (zlen (loose_pages t))) as [Hlt|Hge].
  - destruct (pnl_alloc_spec al (zlen (loose_pages t))) as (r & E & Hr); [unfold PAGELIST_LIMIT; lia|]. exists r. split; [done|].
    destruct r as [p|]; [|eexists [], _; left; exact Hr]. destruct Hr as [(len & rest & -> & Hl & Hroom) (len' & E' & Hcap)].
    cbn in E'. injection E' as <-. exists len, 0, rest. split; [done|]. cbn [app] in *. change (zlen []) with 0 in *. lia.
  - exists (Some (onstack stack)). split; [done|]. unfold onstack. destruct stack as [|n gap]; [by cbn in Hstack|].
    exists onstack_size, n, gap. split; [done|]. rewrite Eo in *. unfold UINT32_MAX. zlia.
Qed.

Lemma suitable_elem p : p ∈ suitable_of (first_unallocated t - zlen (loose_pages t)) (loose_pages t) <->
  p ∈ lp_pgno <$> loose_pages t /\ first_unallocated t - zlen (loose_pages t) <= p.
Proof using. unfold suitable_of. rewrite list_elem_of_filter. tauto. Qed.

(** The greatest suitable page tells whether the last page is loose. *)
Lemma most_suitable most : MIN_PAGENO <= most ->
  most = MIN_PAGENO \/ most ∈ suitable_of (first_unallocated t - zlen (loose_pages t)) (loose_pages t) ->
  (forall x, x ∈ suitable_of (first_unallocated t - zlen (loose_pages t)) (loose_pages t) -> x <= most) ->
  most <= first_unallocated t - 1 /\
  (most = first_unallocated t - 1 -> most ∈ suitable_of (first_unallocated t - zlen (loose_pages t)) (loose_pages t)) /\
  (most <> first_unallocated t - 1 -> first_unallocated t - 1 ∉ lp_pgno <$> loose_pages t).
Proof using Hok Hne.
  intros Hm Hc Hall. pose proof loose_bound as Hb. pose proof (ro_range _ _ _ _ Hok) as Hr.
  assert (most <= first_unallocated t - 1) as Hle.
  { destruct Hc as [->|Hc]; [lia|]. apply suitable_elem in Hc as [(lp & -> & Hin)%list_elem_of_fmap _]. specialize (Hr lp Hin). lia. }
  split_and!; [done| |].
  - intros E. destruct Hc as [Em|Hc]; [|done].
    assert (exists lp, lp ∈ loose_pages t) as [lp Hin] by (destruct (loose_pages t) as [|lp ls]; [done|exists lp; constructor]).
    apply suitable_elem. split; [|lia]. specialize (Hr lp Hin). replace most with (lp_pgno lp) by lia. by apply list_elem_of_fmap_2.
  - intros Hne' Hin. assert (first_unallocated t - 1 <= most); [|lia]. apply Hall, suitable_elem. split; [done|lia].
Qed.

(** The refund of the run that ends at the last page. *)
Lemma refund_suitable_spec a n gap S0 : S0 = suitable_of (first_unallocated t - zlen (loose_pages t)) (loose_pages t) ->
  first_unallocated t - 1 ∈ S0 -> zlen S0 <= a <= UINT32_MAX -> 2 * a + 3 <= zlen (a :: n :: S0 ++ gap) ->
  exists t' D', refund_suitable cm t (a :: n :: S0 ++ gap) (zlen S0) (first_unallocated t - 1) = Some t' /\
    refunded flags_of t (with_wl t') D D' /\ first_unallocated t' - 1 ∉ lp_pgno <$> loose_pages t.
Proof using Hok Hne.
  intros ES Hin Hcap Hroom. pose proof loose_bound as Hb. pose proof Hok as [Hfu Hd Hnd Hr Hc _ _ _ _ _]. unfold MAX_PAGENO in Hfu.
  assert (forall p, p ∈ S0 <-> p ∈ lp_pgno <$> loose_pages t /\ first_unallocated t - zlen (loose_pages t) <= p) as HS.
  { intros p. rewrite ES. apply suitable_elem. }
  assert (forall p, p ∈ S0 -> MIN_PAGENO <= p < first_unallocated t) as HSr.
  { intros p [(lp & -> & Hlp)%list_elem_of_fmap _]%HS. auto. }
  assert (NoDup S0) as HndS by (rewrite ES; by apply NoDup_filter).
  unfold refund_suitable. rewrite pnl_setsize_cells by (pose proof (zlen_nonneg S0); lia). cbn [mbind option_bind].
  destruct (pnl_sort_nochk_spec cm (a :: zlen S0 :: S0 ++ gap) S0) as (p & S1 & -> & Hp & HP & Hdw).
  { exists a, gap. split; [done|]. rewrite !zlen_cons in *. lia. }
  { apply Forall_forall. intros x Hx. specialize (HSr x Hx). unfold MIN_PAGENO, UINT32_MAX in *. lia. }
  cbn [mbind option_bind]. assert (desc S1) as HdS by (apply desc_weak_NoDup; [done|by rewrite HP]).
  assert (zlen S1 = zlen S0) as Ez by (by rewrite HP).
  assert (exists B, S1 = (first_unallocated t - 1) :: B) as (B & EB).
  { rewrite <- HP in Hin. destruct S1 as [|x B]; [by apply elem_of_nil in Hin|]. exists B. f_equal.
    pose proof (desc_tail _ _ HdS) as [_ Hlt]. assert (x < first_unallocated t) by (apply HSr; rewrite <- HP; constructor).
    apply elem_of_cons in Hin as [->|Hin]; [done|]. specialize (Hlt _ Hin). lia. }
  pose proof HdS as HdS'. rewrite EB in HdS'. apply desc_tail in HdS' as [HdB HltB].
  destruct (scan_suitable_spec p S1 Hp B [first_unallocated t - 1] (first_unallocated t - 1)) as (B1 & B2 & -> & Hrun & Hhead & E);
    [done|done|done| |unfold MIN_PAGENO, MAX_PAGENO in *; lia|].
  { intros x Hx. specialize (HltB x Hx). split; [|lia]. assert (MIN_PAGENO <= x); [|unfold MIN_PAGENO in *; lia].
    apply HSr. rewrite <- HP, EB. by constructor. }
  replace (Z.to_nat (zlen S0 - 1)) with (length (B1 ++ B2)).
  2:{ rewrite <- Ez, EB. unfold zlen. cbn [length]. lia. }
  change (zlen [first_unallocated t - 1] + 1) with 2 in E. rewrite E. cbn [mbind option_bind]. clear E.
  replace (first_unallocated t - 1 - 1) with (first_unallocated t - 2) in Hrun by lia.
  replace (first_unallocated t - 1 - 1) with (first_unallocated t - 2) in Hhead by lia.
  destruct (suitable_run t S1 B1 B2) as [Hcov Hstop]; [intros q; rewrite HP; apply HS|done|done|done|done|].
  set (fu := first_unallocated t - 1 - zlen B1) in *. assert (fu <= first_unallocated t) as Hle by (pose proof (zlen_nonneg B1); lia).
  eapply refund_to_spec; [done|done| |done|done].
  pose proof (range_covered _ fu (first_unallocated t) Hcov) as Hk. rewrite zlen_fmap in Hk. lia.
Qed.

Lemma refund_unsorted_spec : exists t' D', refund_unsorted al cm stack t = Some t' /\ refunded flags_of t t' D D' /\
  (first_unallocated t' - 1 ∉ lp_pgno <$> loose_pages t /\ loose_refund_wl t' = first_unallocated t' \/ t' = t /\ alloc_fails al).
Proof using All.
  pose proof loose_bound as Hb. pose proof (ro_fu _ _ _ _ Hok) as Hfu. pose proof (ro_count _ _ _ _ Hok) as Hc. unfold MAX_PAGENO, MIN_PAGENO in *.
  destruct suitable_room as (r & E & Hr). unfold refund_unsorted. rewrite E. cbn [mbind option_bind]. clear E.
  destruct r as [p|]; [|exists t, D; split; [done|]; split; [by eapply refunded_refl|by right]].
  destruct Hr as (a & n & gap & -> & Ha & Hroom). rewrite !zlen_cons in Hroom.
  destruct (collect_suitable_spec a n (first_unallocated t) (loose_count t)) with (ls := loose_pages t) (S0 := @nil Z) (gap := gap) (most := MIN_PAGENO)
    as (gap' & most & Hg & E & Hm & Hc' & Hall); [unfold UINT64_MAX; lia|lia|].
  rewrite zlen_nil in E. cbn [app] in E. rewrite E. cbn [mbind option_bind]. clear E. rewrite Hc in *. rewrite Z.add_0_l in *.
  destruct (most_suitable most Hm Hc' Hall) as (Hle & Hyes & Hno). unfold MIN_PAGENO in Hm.
  rewrite u32_small by (unfold UINT32_MAX; lia). destruct (Z.eqb_spec (most + 1) (first_unallocated t)) as [E|E].
  - assert (most = first_unallocated t - 1) as -> by lia. specialize (Hyes eq_refl).
    pose proof (suitable_length (first_unallocated t - zlen (loose_pages t)) (loose_pages t)) as Hsl.
    destruct (refund_suitable_spec a n gap' _ eq_refl Hyes) as (t' & D' & -> & Href & Hstop); [lia|rewrite !zlen_cons, zlen_app; lia|].
    cbn [mbind option_bind]. exists (with_wl t'), D'. split_and!; [done|done|]. by left.
  - cbn [mbind option_bind]. exists (with_wl t), D. split; [done|]. split; [by eapply refunded_same|]. left. split; [|done].
    apply Hno. cbn. lia.
Qed.
End Unsorted.

(** ** The branch with the sorted dirty list *)

(** The pages of [l] are [p], [p + 1], ... *)
Definition run_up (p : Z) (l : list dp) : Prop := forall j x, zget l j = Some x -> dp_pgno x = p + j.

Lemma run_up_nil p : run_up p [].
Proof. intros j x H%zget_range. zlia. Qed.

Lemma run_up_snoc p l x : run_up p l -> dp_pgno x = p + zlen l -> run_up p (l ++ [x]).
Proof.
  intros H Hx j y Hj. pose proof (zget_range _ _ _ Hj) as Hb. autorewrite with zlen in *.
  destruct (decide (j = zlen l)) as [->|Hne].
  - rewrite zget_app_mid in Hj by done. by simplify_eq.
  - rewrite zget_app_l in Hj by zlia. by apply H.
Qed.

Lemma scan_sorted_spec flags_of dl rest : forall (fuel : nat) A B fu, (length A < fuel)%nat -> dl_items dl = stubB :: A ++ B ++ rest ->
  (forall x, x ∈ A -> flags_of (dp_ptr x) = P_LOOSE -> MIN_PAGENO <= dp_pgno x) -> MIN_PAGENO <= fu <= MAX_PAGENO + 1 ->
  exists A1 A2, A = A1 ++ A2 /\ scan_sorted fuel flags_of dl (zlen A) fu = Some (zlen A1, fu - zlen A2) /\ MIN_PAGENO <= fu - zlen A2 /\
    run_up (fu - zlen A2) A2 /\ (forall x, x ∈ A2 -> flags_of (dp_ptr x) = P_LOOSE) /\
    (forall x, last A1 = Some x -> dp_pgno x = fu - zlen A2 - 1 -> flags_of (dp_ptr x) <> P_LOOSE).
Proof.
  unfold MIN_PAGENO, MAX_PAGENO. induction fuel as [|fuel IH]; intros A B fu Hf Hit HA Hfu; [lia|]. cbn [scan_sorted].
  rewrite (u32_small (fu - 1)) by (unfold UINT32_MAX; lia).
  destruct (decide (A = [])) as [->|Hne].
  { rewrite Hit, zlen_nil, zget_cons_0. cbn [mbind option_bind]. change (dp_pgno stubB) with 0.
    destruct (Z.eqb_spec 0 (fu - 1)); [lia|]. cbn [andb].
    exists [], []. change (@zlen dp []) with 0; rewrite Z.sub_0_r. split_and!; [done|done|lia|apply run_up_nil|by intros x ?%elem_of_nil|done]. }
  destruct (zsplit_snoc A) as (A' & x & ->). { destruct A; [done|]. rewrite zlen_cons. pose proof (zlen_nonneg A). lia. }
  assert (zget (dl_items dl) (zlen (A' ++ [x])) = Some x) as ->.
  { rewrite Hit, <- app_assoc. cbn [app]. rewrite (app_comm_cons A'). apply zget_app_mid. zlia. }
  cbn [mbind option_bind]. destruct ((dp_pgno x =? fu - 1) && (flags_of (dp_ptr x) =? P_LOOSE)) eqn:Ec.
  - apply andb_true_iff in Ec as [E1%Z.eqb_eq E2%Z.eqb_eq].
    assert (3 <= dp_pgno x) as Hx. { apply (HA x); [|done]. apply elem_of_app. right. constructor. }
    destruct (IH A' (x :: B) (fu - 1)) as (A1 & A2 & -> & E & Hmin & Hrun & Hl & Hs); [rewrite length_app in Hf; cbn in Hf; lia| | |lia|].
    { by rewrite Hit, <- app_assoc. } { intros y Hy. apply HA, elem_of_app. by left. }
    exists A1, (A2 ++ [x]). rewrite !zlen_snoc. replace (fu - (zlen A2 + 1)) with (fu - 1 - zlen A2) by lia.
    split_and!; [by rewrite app_assoc| |done| | |done].
    + replace (zlen (A1 ++ A2) + 1 - 1) with (zlen (A1 ++ A2)) by lia. done.
    + apply run_up_snoc; [done|lia].
    + intros y [Hy|Hy%list_elem_of_singleton]%elem_of_app; [auto|by subst].
  - exists (A' ++ [x]), []. rewrite app_nil_r, zlen_nil, Z.sub_0_r. split_and!; [done|done|lia|apply run_up_nil|by intros y ?%elem_of_nil|].
    intros y. rewrite last_snoc. intros [= <-] E1 E2. rewrite E1, E2, !Z.eqb_refl in Ec. done.
Qed.

Lemma run_up_elem p l q : run_up p l -> q ∈ dp_pgno <$> l <-> p <= q < p + zlen l.
Proof.
  intros H. rewrite list_elem_of_fmap. split.
  - intros (x & -> & (j & Hj & Hx)%elem_zget). rewrite (H _ _ Hx). lia.
  - intros Hq. destruct (zget_in l (q - p)) as (x & Hx); [lia|]. exists x. split; [rewrite (H _ _ Hx); lia|by eapply zget_elem].
Qed.

(** The loose pages at the end of the ascending list [A1 ++ A2]. *)
Lemma sorted_run flags_of t D R dl A1 A2 fu : refund_ok flags_of t D R -> dirtylist (rt_dirty t) = Some dl -> A1 ++ A2 ≡ₚ D ->
  dp_asc (A1 ++ A2) -> fu = first_unallocated t - zlen A2 -> run_up fu A2 -> (forall x, x ∈ A2 -> flags_of (dp_ptr x) = P_LOOSE) ->
  (forall x, last A1 = Some x -> dp_pgno x = fu - 1 -> flags_of (dp_ptr x) <> P_LOOSE) ->
  (forall p, fu <= p < first_unallocated t -> p ∈ lp_pgno <$> loose_pages t) /\ fu - 1 ∉ lp_pgno <$> loose_pages t /\ dirty_below fu (A1 ++ A2) = A1.
Proof.
  intros Hok E HP Hasc Efu Hrun Hl Hs. pose proof (ro_dirty _ _ _ _ Hok) as Hd. unfold dirty_ok in Hd. rewrite E in Hd.
  destruct Hd as (Hdl & _ & _ & HD & HL & Hfl & Hfl'). apply dp_asc_app_iff in Hasc as (Ha1 & Ha2 & Ha12).
  assert (forall q, q ∈ dp_pgno <$> A2 <-> fu <= q < first_unallocated t) as Hin.
  { intros q. rewrite (run_up_elem _ _ _ Hrun). lia. }
  assert (forall x, x ∈ A1 -> dp_pgno x < fu) as Hlt.
  { intros x Hx. destruct (decide (A2 = [])) as [->|Hne].
    - rewrite zlen_nil in Efu. rewrite Efu, Z.sub_0_r. apply HD. rewrite <- HP. by rewrite app_nil_r.
    - assert (fu < first_unallocated t) as Hfu. { destruct A2; [done|]. rewrite zlen_cons in Efu. pose proof (zlen_nonneg A2). lia. }
      destruct (proj1 (list_elem_of_fmap _ _ _) (proj2 (Hin fu) ltac:(lia))) as (y & -> & Hy). by apply Ha12. }
  split_and!.
  - intros p Hp. destruct (proj1 (list_elem_of_fmap _ _ _) (proj2 (Hin p) Hp)) as (x & -> & Hx).
    destruct (Hfl x) as (lp & Hlp & ->); [rewrite <- HP, elem_of_app; by right|auto|]. by apply (list_elem_of_fmap_2 lp_pgno).
  - intros (lp & Ep & Hlp)%list_elem_of_fmap. pose proof (HL lp Hlp) as Hx. rewrite <- HP, elem_of_app in Hx. destruct Hx as [Hx|Hx].
    2:{ assert (fu - 1 ∈ dp_pgno <$> A2) as Hq by (rewrite Ep; by apply (list_elem_of_fmap_2 dp_pgno _ (loose_entry lp))). apply Hin in Hq. lia. }
    destruct (zsplit_snoc A1) as (A & y & ->). { destruct A1 as [|z A1]; [by apply elem_of_nil in Hx|]. rewrite zlen_cons. pose proof (zlen_nonneg A1). lia. }
    apply elem_of_app in Hx as [Hx|Hx%list_elem_of_singleton].
    + apply dp_asc_app_iff in Ha1 as (_ & _ & Hay). specialize (Hay _ y Hx ltac:(constructor)). cbn in Hay.
      specialize (Hlt y ltac:(apply elem_of_app; right; constructor)). lia.
    + apply (Hs y); [apply last_snoc|rewrite <- Hx; cbn; lia|rewrite <- Hx; cbn; auto].
  - unfold dirty_below. rewrite filter_app, filter_all, filter_none; [apply app_nil_r| |done].
    intros x Hx Hp. assert (dp_pgno x ∈ dp_pgno <$> A2) as Hq by (by apply list_elem_of_fmap_2). apply Hin in Hq. lia.
Qed.

#[export] Instance dirty_below_proper fu : Proper (Permutation ==> Permutation) (dirty_below fu).
Proof. intros D D' H. unfold dirty_below. by rewrite H. Qed.

Lemma refund_sorted_spec cm flags_of t D R dl : refund_ok flags_of t D R -> dirtylist (rt_dirty t) = Some dl ->
  exists t' D', refund_sorted cm flags_of t dl = Some t' /\ refunded flags_of t t' D D' /\
    first_unallocated t' - 1 ∉ lp_pgno <$> loose_pages t /\ loose_refund_wl t' = first_unallocated t'.
Proof.
  intros Hok E. pose proof Hok as [Hfu Hd Hnd Hr Hc _ _ _ _ _]. pose proof Hd as Hd'. unfold dirty_ok in Hd'. rewrite E in Hd'.
  destruct Hd' as (Hdl & H0 & Hmax & HD & HL & Hfl & Hfl').
  destruct (txn_dpl_sort_spec cm dl D Hdl) as (dl1 & D1 & E1 & Hdl1 & HP & Hasc & Hso & Hdet & Hpg). unfold refund_sorted. rewrite E1.
  cbn [mbind option_bind]. pose proof (dok_length _ _ Hdl1) as Hlen. destruct (dok_items _ _ Hdl1) as [rest Hit]. rewrite Hlen in *.
  destruct (scan_sorted_spec flags_of dl1 (stubE :: rest) (S (Z.to_nat (zlen D1))) D1 [] (first_unallocated t))
    as (A1 & A2 & EA & -> & Hmin & Hrun & Hl & Hs); [unfold zlen; lia|done| |done|].
  { intros x Hx Hf. rewrite HP in Hx. destruct (Hfl x Hx Hf) as (lp & Hlp & ->). by apply Hr. }
  cbn [mbind option_bind]. set (fu := first_unallocated t - zlen A2) in *. rewrite EA in *.
  destruct (sorted_run flags_of t D R dl A1 A2 fu) as (Hcov & Hstop & Hbelow); try done.
  assert (fu <= first_unallocated t) as Hle by (pose proof (zlen_nonneg A2); lia).
  destruct (dirty_below_count t fu Hle Hnd Hr Hcov D (dok_nodup _ _ Hdl) HD HL) as [Hz Ht].
  assert (A1 ≡ₚ dirty_below fu D) as HPb by (by rewrite <- HP, Hbelow).
  assert (zlen A1 = zlen D - (first_unallocated t - fu)) as Hz1 by (rewrite <- Hz; by rewrite HPb).
  assert (dp_total A1 = dp_total D - (first_unallocated t - fu)) as Ht1 by (rewrite <- Ht; by rewrite HPb).
  destruct (A2 ++ stubE :: rest) as [|g rest'] eqn:Eg; [by destruct A2|].
  unfold dpl_setlen. rewrite Hit, <- app_assoc, Eg, (app_comm_cons A1), zset_app_mid by (rewrite zlen_cons; lia).
  cbn [mbind option_bind dl_sorted dl_length app]. rewrite Hso, zlen_app. 
  assert (forall n, n = u64 (dp_total A1) -> dpl_ok (mk_dpl (zlen A1) (zlen A1) n (dl_detent dl1) (stubB :: A1 ++ stubE :: rest')) A1) as Hdl'.
  { intros n ->. eapply (dpl_ok_sub dl1 (A1 ++ A2) A1 A1 []); [done|by rewrite app_nil_r| |by apply sublist_inserts_r|done|].
    - by apply dp_asc_app_iff in Hasc as (? & _ & _).
    - rewrite Hit. apply (f_equal zlen) in Eg. zlia. }
  pose proof (dok_pages _ _ Hdl1) as Hpg1. rewrite dp_total_app in Hpg1.
  assert (dp_total A2 = zlen A2) as Ht2.
  { assert (dp_total (A1 ++ A2) = dp_total D) as Ht3 by (by rewrite HP). rewrite dp_total_app in Ht3. unfold fu in *. lia. }
  destruct (Z.eqb_spec (zlen A1 + zlen A2) (zlen A1)) as [E2|E2]; cbn [negb].
  - assert (A2 = []) as -> by (apply zlen_0_nil; lia). change (@zlen dp []) with 0 in *.
    assert (fu = first_unallocated t) as Ef by (unfold fu; lia). clearbody fu. subst fu. rewrite Z.add_0_r.
    eexists _, A1. split; [done|]. split; [|by split].
    unfold with_wl, with_dirty, with_dirtylist, with_fu.
    cbn [rt_dirty first_unallocated repnl loose_pages loose_count rt_spilled].
    eapply refunded_none; [done| |by rewrite <- HP, app_nil_r]. rewrite E. eexists. split; [done|]. apply Hdl'.
    rewrite Hpg1. f_equal. lia.
  - change (rt_dirty (with_fu t fu)) with (rt_dirty t). change (loose_count (with_fu t fu)) with (loose_count t).
    cbn [dl_sorted dl_length dl_pages_including_loose with_sorted with_pages].
    assert (zlen (loose_pages t) <= first_unallocated t - MIN_PAGENO) as Hb.
    { rewrite <- (zlen_fmap lp_pgno). apply range_count; [done| |lia]. intros x (lp & -> & Hin)%list_elem_of_fmap. auto. }
    pose proof (range_covered _ fu (first_unallocated t) Hcov) as Hk. rewrite zlen_fmap in Hk. pose proof (zlen_nonneg A1). pose proof (zlen_nonneg A2).
    rewrite (u64_small (dirtyroom (rt_dirty t) + (zlen A1 + zlen A2 - zlen A1))) by (unfold fu in *; lia).
    rewrite (u64_small (loose_count t - (zlen A1 + zlen A2 - zlen A1))) by (unfold fu, UINT64_MAX, MIN_PAGENO, MAX_PAGENO in *; lia).
    set (dl' := mk_dpl (zlen A1) (zlen A1) (u64 (dl_pages_including_loose dl1 - (zlen A1 + zlen A2 - zlen A1))) (dl_detent dl1) (stubB :: A1 ++ stubE :: rest')).
    exists (with_wl (refund_to t fu (Some dl'))), A1. split; [|split; [|split]].
    + f_equal. f_equal. unfold refund_to, with_dirty, with_fu, with_room, with_dirtylist. cbn.
      replace (first_unallocated t - fu) with (zlen A1 + zlen A2 - zlen A1) by (unfold fu; lia). done.
    + eapply refund_to_refunded; [done|done|done|]. rewrite E. exists dl'. split; [done|]. split; [|done]. apply Hdl'. rewrite Hpg1.
      unfold u64, wrap. rewrite Zminus_mod_idemp_l. f_equal. lia.
    + cbn. by rewrite refund_to_fu.
    + done.
Qed.

(** ** One refund of loose pages *)

Lemma refund_loose_spec al `{!AllocOk 4 al} cm flags_of stack t D R : refund_ok flags_of t D R -> loose_pages t <> [] -> zlen stack = 128 ->
  exists t' D', refund_loose al cm flags_of stack t = Some t' /\ refunded flags_of t t' D D' /\
    (first_unallocated t' - 1 ∉ lp_pgno <$> loose_pages t /\ loose_refund_wl t' = first_unallocated t' \/ t' = t /\ alloc_fails al).
Proof.
  intros Hok Hne Hst. unfold refund_loose. destruct (dirtylist (rt_dirty t)) as [dl|] eqn:E; [|by eapply refund_unsorted_spec].
  destruct (_ <? _); [by eapply refund_unsorted_spec|].
  destruct (refund_sorted_spec cm flags_of t D R dl Hok E) as (t' & D' & H1 & H2 & H3). exists t', D'. split_and!; [done|done|by left].
Qed.

(** ** The whole tail *)

(** What [txn_refund] does to the transaction; [t'] is well formed again. *)
Record tail_refunded (flags_of : Z -> Z) (t t' : rtxn) (D D' : list dp) (R R' : list Z) : Prop := {
  tr_fu : MIN_PAGENO <= first_unallocated t' <= first_unallocated t;
  tr_pages : forall p, first_unallocated t' <= p < first_unallocated t -> p ∈ R \/ p ∈ lp_pgno <$> loose_pages t;
  tr_loose : loose_pages t' = loose_below (first_unallocated t') (loose_pages t);
  tr_repnl : R' = filter (fun p => p < first_unallocated t') R;
  tr_dirty : D' ≡ₚ dirty_below (first_unallocated t') D;
  tr_room : dirtylist (rt_dirty t) <> None -> dirtyroom (rt_dirty t') + zlen D' = dirtyroom (rt_dirty t) + zlen D;
  tr_none : dirtylist (rt_dirty t) = None <-> dirtylist (rt_dirty t') = None;
  tr_shadow : exists ls, ls ≡ₚ loose_above (first_unallocated t') (loose_pages t) /\
    env_shadow (rt_dirty t') = if writemap (rt_dirty t) then env_shadow (rt_dirty t) else release_all (env_shadow (rt_dirty t)) ls;
  tr_writemap : writemap (rt_dirty t') = writemap (rt_dirty t);
  tr_spilled : rt_spilled t' = rt_spilled t;
  tr_ok : refund_ok flags_of t' D' R';
}.

Lemma filter_filter_below {A} (f : A -> Z) a b (l : list A) : a <= b ->
  filter (fun x => f x < a) (filter (fun x => f x < b) l) = filter (fun x => f x < a) l.
Proof.
  intros Hab. induction l as [|x l IH]; [done|]. rewrite !filter_cons. destruct (decide (f x < b)).
  - rewrite filter_cons, IH. done.
  - rewrite (decide_False (P := f x < a)) by lia. done.
Qed.

Lemma loose_above_split a b ls : a <= b -> loose_above a ls ≡ₚ loose_above b ls ++ loose_above a (loose_below b ls).
Proof.
  intros Hab. unfold loose_above, loose_below. induction ls as [|x ls IH]; [done|]. rewrite !filter_cons.
  destruct (decide (lp_pgno x < b)) as [Hb|Hb].
  - rewrite (decide_False (P := ~ lp_pgno x < b)) by lia. rewrite filter_cons. destruct (decide (~ lp_pgno x < a)); rewrite IH; [|done].
    by rewrite Permutation_middle.
  - rewrite !decide_True by lia. by rewrite IH.
Qed.

Lemma all_below flags_of t D R : refund_ok flags_of t D R ->
  loose_below (first_unallocated t) (loose_pages t) = loose_pages t /\ loose_above (first_unallocated t) (loose_pages t) = [] /\
  dirty_below (first_unallocated t) D = D /\ filter (fun p => p < first_unallocated t) R = R.
Proof.
  intros [_ Hd _ Hr _ _ _ Hp _ _]. destruct (loose_below_all t Hr) as [-> ->]. split_and!; [done|done|..]; apply filter_all.
  - intros x Hx. unfold dirty_ok in Hd. destruct (dirtylist (rt_dirty t)); [by apply Hd|]. subst D. by apply elem_of_nil in Hx.
  - intros p Hx. by apply Hp.
Qed.

Lemma tail_refunded_refl flags_of t D R : refund_ok flags_of t D R -> tail_refunded flags_of t t D D R R.
Proof.
  intros Hok. destruct (all_below _ _ _ _ Hok) as (H1 & H2 & H3 & H4). pose proof (ro_fu _ _ _ _ Hok).
  split; try done; [lia|intros p Hp; lia|by rewrite H3|exists []; rewrite H2; split; [done|by destruct (writemap (rt_dirty t))]].
Qed.

Lemma tail_refunded_trans flags_of t1 t2 t3 D1 D2 D3 R1 R2 R3 :
  tail_refunded flags_of t1 t2 D1 D2 R1 R2 -> tail_refunded flags_of t2 t3 D2 D3 R2 R3 -> tail_refunded flags_of t1 t3 D1 D3 R1 R3.
Proof.
  intros [F1 P1 L1 RR1 DD1 O1 N1 (ls1 & HP1 & S1) W1 SP1 K1] [F2 P2 L2 RR2 DD2 O2 N2 (ls2 & HP2 & S2) W2 SP2 K2]. split.
  - lia.
  - intros p Hp. destruct (Z.lt_ge_cases p (first_unallocated t2)) as [Hlt|Hge]; [|apply P1; lia].
    destruct (P2 p ltac:(lia)) as [H|H].
    + left. rewrite RR1 in H. by apply list_elem_of_filter in H as [_ H].
    + right. rewrite L1 in H. unfold loose_below in H. apply list_elem_of_fmap in H as (lp & -> & [_ H]%list_elem_of_filter).
      by apply list_elem_of_fmap_2.
  - rewrite L2, L1. unfold loose_below. apply filter_filter_below. lia.
  - rewrite RR2, RR1. apply (filter_filter_below id). lia.
  - rewrite DD2, DD1. unfold dirty_below. rewrite filter_filter_below by lia. done.
  - intros Hne. rewrite O2 by (by rewrite <- N1). by apply O1.
  - by rewrite N1.
  - exists (ls1 ++ ls2). split.
    + rewrite (loose_above_split (first_unallocated t3) (first_unallocated t2)) by lia. by rewrite HP1, HP2, L1.
    + rewrite S2, W1, S1. destruct (writemap (rt_dirty t1)); [done|]. unfold release_all. by rewrite foldl_app.
  - congruence.
  - congruence.
  - done.
Qed.

Lemma refunded_tail flags_of t t' D D' R : refund_ok flags_of t D R -> refunded flags_of t t' D D' -> tail_refunded flags_of t t' D D' R R.
Proof.
  intros Hok [F P L C Dok B Ro No Sh Re Sp Wm]. pose proof Hok as [Hfu Hd Hnd Hr Hc Hrep Hdesc Hp Hdis Hspl].
  assert (forall p, p ∈ R -> p < first_unallocated t') as HR.
  { intros p Hin. destruct (Z.lt_ge_cases p (first_unallocated t')) as [|Hge]; [done|]. pose proof (Hp p Hin).
    destruct (proj1 (list_elem_of_fmap _ _ _) (P p ltac:(lia))) as (lp & -> & Hlp). by destruct (proj1 (Hdis _ Hin) lp Hlp). }
  assert (forall lp, lp ∈ loose_pages t' -> lp ∈ loose_pages t /\ lp_pgno lp < first_unallocated t') as HL.
  { intros lp. rewrite L. unfold loose_below. by intros [? ?]%list_elem_of_filter. }
  split; try done.
  - intros p Hp'. right. by apply P.
  - symmetry. apply filter_all. done.
  - intros Hne. rewrite (Ro Hne). destruct (dirtylist (rt_dirty t)) as [dl|] eqn:E; [|done]. unfold dirty_ok in Hd. rewrite E in Hd.
    destruct Hd as (Hdl & _ & _ & HD & HLD & _).
    destruct (dirty_below_count t (first_unallocated t') ltac:(lia) Hnd Hr P D (dok_nodup _ _ Hdl) HD HLD) as [Hz _].
    assert (zlen D' = zlen (dirty_below (first_unallocated t') D)) as -> by (by rewrite B). lia.
  - by eexists.
  - split; try done.
    + lia.
    + rewrite L. by apply NoDup_fmap_filter.
    + intros lp [Hin Hlt]%HL. specialize (Hr lp Hin). lia.
    + by rewrite Re.
    + intros p Hin. specialize (HR p Hin). specialize (Hp p Hin). lia.
    + intros p Hin. split; [intros lp [Hlp _]%HL; by apply (Hdis p Hin)|]. intros x Hx. rewrite B in Hx.
      apply list_elem_of_filter in Hx as [_ Hx]. by apply (Hdis p Hin).
    + by rewrite Sp.
Qed.

Lemma reclaimed_tail flags_of t D R : refund_ok flags_of t D R -> head R = Some (first_unallocated t - 1) ->
  exists t' R', refund_reclaimed t = Some t' /\ tail_refunded flags_of t t' D D R R' /\
    first_unallocated t' < first_unallocated t /\ first_unallocated t' - 1 ∉ R.
Proof.
  intros Hok Hh. pose proof Hok as [Hfu Hd Hnd Hr Hc Hrep Hdesc Hp Hdis Hspl].
  destruct (refund_reclaimed_spec flags_of t D R Hok Hh) as (t' & fu & E & Hlt & Hcov & Hstop & p & -> & Hp').
  assert (forall lp, lp ∈ loose_pages t -> lp_pgno lp < fu) as HL.
  { intros lp Hin. destruct (Z.lt_ge_cases (lp_pgno lp) fu) as [|Hge]; [done|]. specialize (Hr lp Hin).
    by destruct (proj1 (Hdis _ (Hcov (lp_pgno lp) ltac:(lia))) lp Hin). }
  assert (forall x, x ∈ D -> dp_pgno x < fu) as HD.
  { intros x Hx. destruct (Z.lt_ge_cases (dp_pgno x) fu) as [|Hge]; [done|]. unfold dirty_ok in Hd.
    destruct (dirtylist (rt_dirty t)); [|subst D; by apply elem_of_nil in Hx]. destruct Hd as (_ & _ & _ & HD & _). specialize (HD x Hx).
    by destruct (proj2 (Hdis _ (Hcov (dp_pgno x) ltac:(lia))) x Hx). }
  eexists _, (filter (fun q => q < fu) R). split; [done|]. cbn [first_unallocated with_fu with_repnl]. split; [|split; [lia|done]].
  assert (loose_below fu (loose_pages t) = loose_pages t) as Eb by (by apply filter_all).
  split; cbn [first_unallocated with_fu with_repnl rt_dirty loose_pages rt_spilled]; try done.
  - lia.
  - intros q Hq. left. by apply Hcov.
  - unfold dirty_below. by rewrite filter_all.
  - exists []. unfold loose_above. rewrite filter_none; [split; [done|by destruct (writemap (rt_dirty t))]|].
    intros lp Hin Hn. specialize (HL lp Hin). lia.
  - split; cbn [first_unallocated with_fu with_repnl rt_dirty loose_pages loose_count repnl rt_spilled]; try done.
    + lia.
    + unfold dirty_ok in *. cbn [rt_dirty with_fu with_repnl first_unallocated loose_pages]. destruct (dirtylist (rt_dirty t)); [|done].
      destruct Hd as (H1 & H2 & H3 & _ & H5). done.
    + intros lp Hin. specialize (HL lp Hin). specialize (Hr lp Hin). lia.
    + by apply StronglySorted_filter.
    + intros q [Hq Hin]%list_elem_of_filter. specialize (Hp q Hin). lia.
    + intros q [_ Hin]%list_elem_of_filter. by apply Hdis.
Qed.

Section Whole.
Context (al : allocator) `{!AllocOk 4 al} (cm : bool) (flags_of : Z -> Z) (stack : list Z) (Hstack : zlen stack = 128).

Lemma refund_loop_spec : forall (fuel : nat) t D R, refund_ok flags_of t D R -> first_unallocated t < Z.of_nat fuel ->
  exists t' D' R', refund_loop al cm flags_of stack fuel t = Some t' /\ tail_refunded flags_of t t' D D' R R' /\ first_unallocated t' - 1 ∉ R'.
Proof using All.
  induction fuel as [|fuel IH]; intros t D R Hok Hf; [pose proof (ro_fu _ _ _ _ Hok); unfold MIN_PAGENO in *; lia|].
  pose proof Hok as [Hfu _ _ _ _ Hrep Hdesc Hp _ _]. unfold MIN_PAGENO, MAX_PAGENO in *. cbn [refund_loop].
  rewrite (pnl_rep_size _ _ Hrep). cbn [mbind option_bind]. destruct (Z.eqb_spec (zlen R) 0) as [E0|E0].
  { assert (R = []) as -> by (by apply zlen_0_nil). exists t, D, []. split_and!; [done|by apply tail_refunded_refl|by intros ?%elem_of_nil]. }
  destruct R as [|r R]; [done|]. rewrite (pnl_rep_at _ _ _ Hrep) by (rewrite zlen_cons; pose proof (zlen_nonneg R); lia).
  rewrite Z.sub_diag, zget_cons_0. cbn [mbind option_bind]. rewrite u32_small by (unfold UINT32_MAX; lia).
  destruct (Z.eqb_spec r (first_unallocated t - 1)) as [->|Er]; cbn [negb].
  2:{ exists t, D, (r :: R). split_and!; [done|by apply tail_refunded_refl|]. pose proof (desc_tail _ _ Hdesc) as [_ Hlt].
    assert (r < first_unallocated t) by (apply Hp; constructor). intros [Hin|Hin]%elem_of_cons; [lia|]. specialize (Hlt _ Hin). lia. }
  destruct (reclaimed_tail flags_of t D _ Hok eq_refl) as (t1 & R1 & -> & Ht1 & Hlt & Hstop). cbn [mbind option_bind].
  pose proof (tr_ok _ _ _ _ _ _ _ Ht1) as Hok1.
  assert (first_unallocated t1 - 1 ∉ R1) as Hstop1.
  { rewrite (tr_repnl _ _ _ _ _ _ _ Ht1). by intros [_ Hin]%list_elem_of_filter. }
  destruct (negb (has_loose t1) || (loose_refund_wl t1 <=? first_unallocated t1)) eqn:Ec; [by exists t1, D, R1|].
  apply orb_false_iff in Ec as [Eh _]. assert (loose_pages t1 <> []) as Hne by (unfold has_loose in Eh; by destruct (loose_pages t1)).
  destruct (refund_loose_spec al cm flags_of stack t1 D R1 Hok1 Hne Hstack) as (t2 & D2 & -> & Ht2 & _). cbn [mbind option_bind].
  apply (refunded_tail _ _ _ _ _ R1 Hok1) in Ht2. pose proof (tr_fu _ _ _ _ _ _ _ Ht2) as Hfu2.
  destruct (Z.eqb_spec (first_unallocated t1) (first_unallocated t2)) as [E|E].
  - exists t2, D2, R1. split_and!; [done|by eapply tail_refunded_trans|by rewrite <- E].
  - destruct (IH t2 D2 R1) as (t3 & D3 & R3 & E3 & Ht3 & Hs3); [by apply (tr_ok _ _ _ _ _ _ _ Ht2)|lia|].
    exists t3, D3, R3. split_and!; [done| |done]. do 2 (eapply tail_refunded_trans; [done|]). done.
Qed.

Lemma txn_refund_spec t D R : refund_ok flags_of t D R ->
  exists t1 t' D' R', txn_refund al cm flags_of stack t = Some (first_unallocated t' <? first_unallocated t, t') /\
    tail_refunded flags_of t t1 D D' R R' /\ first_unallocated t' = first_unallocated t1 /\ first_unallocated t1 - 1 ∉ R' /\
    (t' = t1 \/ exists s s', rt_spilled t = Some s /\ spill_purge s = Some s' /\ t' = with_spilled t1 s').
Proof using All.
  intros Hok. unfold txn_refund.
  assert (exists t0 D0, (if has_loose t && (first_unallocated t <? loose_refund_wl t) then refund_loose al cm flags_of stack t else Some t) = Some t0 /\
    tail_refunded flags_of t t0 D D0 R R) as (t0 & D0 & -> & Ht0).
  { destruct (has_loose t && _) eqn:Ec; [|exists t, D; split; [done|by apply tail_refunded_refl]]. apply andb_true_iff in Ec as [Eh _].
    assert (loose_pages t <> []) as Hne by (unfold has_loose in Eh; by destruct (loose_pages t)).
    destruct (refund_loose_spec al cm flags_of stack t D R Hok Hne Hstack) as (t2 & D2 & -> & Ht2 & _). exists t2, D2.
    split; [done|by apply refunded_tail]. }
  cbn [mbind option_bind]. pose proof (tr_fu _ _ _ _ _ _ _ Ht0) as Hfu0. unfold MIN_PAGENO in Hfu0.
  destruct (refund_loop_spec (S (Z.to_nat (first_unallocated t))) t0 D0 R) as (t1 & D1 & R1 & -> & Ht1 & Hs1);
    [by apply (tr_ok _ _ _ _ _ _ _ Ht0)|lia|]. cbn [mbind option_bind].
  pose proof (tail_refunded_trans _ _ _ _ _ _ _ _ _ _ Ht0 Ht1) as Ht. pose proof (tr_fu _ _ _ _ _ _ _ Ht) as Hfu1.
  destruct (Z.eqb_spec (first_unallocated t) (first_unallocated t1)) as [E|E].
  { exists t1, t1, D1, R1. rewrite (proj2 (Z.ltb_ge _ _)) by lia. split_and!; [done|done|done|done|by left]. }
  assert ((first_unallocated t1 <? first_unallocated t) = true) as Elt by (apply Z.ltb_lt; lia).
  rewrite (tr_spilled _ _ _ _ _ _ _ Ht). destruct (rt_spilled t) as [s|] eqn:Es.
  - pose proof (ro_spilled _ _ _ _ Hok) as Hsp. rewrite Es in Hsp. destruct Hsp as [l Hl].
    destruct (spill_purge_spec s l Hl) as (s' & Ep & _). rewrite Ep. cbn [mbind option_bind].
    exists t1, (with_spilled t1 s'), D1, R1. cbn [first_unallocated with_spilled]. rewrite Elt. split_and!; [done|done|done|done|].
    right. by exists s, s'.
  - exists t1, t1, D1, R1. rewrite Elt. split_and!; [done|done|done|done|by left].
Qed.
End Whole.

(** ** Theorem *)

(** C19: Giving back the end of the file. [txn_refund] returns, whatever the
    allocator does, and tells whether it lowered the number of the first
    unallocated page. All pages from the new end on were free: reclaimed or
    loose. They leave the list of reclaimed pages, the loose pages and the
    dirty list, the room of the dirty list grows by as many entries, their
    shadow pages are released, and no other page is touched; the lists stay
    well formed. The last page that is left is not a reclaimed one. When pages
    were refunded the list of spilled pages is purged. *)
Theorem txn_refund_gives_back al `{!AllocOk 4 al} cm flags_of stack t D R : refund_ok flags_of t D R -> zlen stack = 128 ->
  exists t1 t' D' R', txn_refund al cm flags_of stack t = Some (first_unallocated t' <? first_unallocated t, t') /\
    tail_refunded flags_of t t1 D D' R R' /\ first_unallocated t' = first_unallocated t1 /\ first_unallocated t1 - 1 ∉ R' /\
    (t' = t1 \/ exists s s', rt_spilled t = Some s /\ spill_purge s = Some s' /\ t' = with_spilled t1 s').
Proof. intros Hok Hst. by apply txn_refund_spec. Qed.

(** Page 8 is reclaimed and page 7 is loose: both are given back. *)
Definition sample_flags (p : Z) : Z := if p =? 700 then P_LOOSE else P_LEAF.
Definition sample_rtxn : rtxn :=
mk_rtxn sample_dtxn 9 (sample_pnl [8] 4) [mk_loose 700 7] 1 10 (Some sample_spilled).

Lemma sample_rtxn_ok : refund_ok sample_flags sample_rtxn sample_dps [8].
Proof.
  split.
  - by vm_compute.
  - split; [apply sample_dpl_ok|]. split_and!; [by vm_compute|by vm_compute|..].
    + intros x Hx. repeat (apply elem_of_cons in Hx as [->|Hx]; [by vm_compute|]). by apply elem_of_nil in Hx.
    + intros lp Hlp%list_elem_of_singleton. subst. constructor.
    + intros x Hx Hf. apply elem_of_cons in Hx as [->|Hx]; [exists (mk_loose 700 7); split; [constructor|done]|].
      repeat (apply elem_of_cons in Hx as [->|Hx]; [by vm_compute in Hf|]). by apply elem_of_nil in Hx.
    + intros lp Hlp%list_elem_of_singleton. by subst.
  - apply NoDup_singleton.
  - intros lp Hlp%list_elem_of_singleton. subst. by vm_compute.
  - done.
  - by apply sample_pnl_rep.
  - repeat constructor.
  - intros p Hp%list_elem_of_singleton. subst. by vm_compute.
  - intros p Hp%list_elem_of_singleton. subst. split.
    + intros lp Hlp%list_elem_of_singleton. by subst.
    + intros x Hx. repeat (apply elem_of_cons in Hx as [->|Hx]; [by vm_compute|]). by apply elem_of_nil in Hx.
  - exists [18; 16; 14; 9]. apply sample_spilled_rep.
Qed.

Lemma txn_refund_gives_back_witness :
  ((fun r => (r.1, first_unallocated r.2, loose_pages r.2)) <$>
    txn_refund (exact_allocator 4) true sample_flags (replicate 128 0) sample_rtxn) = Some (true, 7, []) /\
  exists t' D' R', tail_refunded sample_flags sample_rtxn t' sample_dps D' [8] R' /\ first_unallocated t' - 1 ∉ R'.
Proof.
  split; [vm_compute; reflexivity|].
  destruct (txn_refund_gives_back (exact_allocator 4) (AllocOk0 := exact_allocator_ok 4 ltac:(lia)) true sample_flags (replicate 128 0) sample_rtxn sample_dps [8] sample_rtxn_ok)
    as (t1 & t' & D' & R' & _ & H & _ & Hs & _); [by vm_compute|]. by exists t1, D', R'.
Defined.
