(* ===== verification/Retire.v ===== *)
(** * Releasing and dirtying pages ([src/src/page-ops.c], [page-ops.h])

    A page that is no longer used goes to one of four places: to the list of
    retired pages when a committed version may still refer to it, to the loose
    pages or the reclaimed ones when it was allocated in this transaction, or
    behind the end of the allocated pages. [page_retire_ex] decides this by the
    state of the page, and [page_dirty] registers a new dirty page, for which it
    may have to give up a loose one. Both work on the lists of [Dpl], [Pnl] and
    [Spill], and call [txn_refund] ([Refund]). [page_wash] and [page_dirty] are
    those of a build with [MDBX_AVOID_MSYNC] = 0, as everywhere but on Windows:
    a list of dirty pages exists without [MDBX_WRITEMAP] only, and its pages are
    shadow copies. *)

From stdpp Require Import base numbers option sorting list gmap.
From Stdlib Require Import ZArith Lia.
From S2P Require Import Prelude Search SortNet Bits Alloc Pnl PnlOrder Rkl Dpl Cmp Page Spill PageGet Refund.

Definition P_BAD : Z := P_LEGACY_DIRTY.

(** The words of a page header that are used here. *)
Record hdr : Type := mk_hdr { h_txnid : Z; h_flags : Z; h_pages : Z }.

(** The numbers of pages in a tree. *)
Record counts : Type := mk_counts { branch_pages : Z; leaf_pages : Z; large_pages : Z }.

(** The transaction: the lists of [Refund], the list of retired pages, the
    headers of the pages at their addresses, the outer transactions from the
    parent on, the number of pages written in place, and [MDBX_TXN_ERROR]; with the counts of the tree
    of the cursor and, for a nested tree, of the table around it. *)
Record ptxn : Type := mk_ptxn {
  pt_r : rtxn;
  retired_pages : pnl;
  pt_hdr : Z -> hdr;
  ancestors : list gtxn;
  pt_txnid : Z;
  front_txnid : Z;
  dirty_npages : Z;
  pt_error : bool;
  pt_tree : counts;
  pt_outer : option counts;
}.

Definition set_r (t : ptxn) (r : rtxn) : ptxn :=
mk_ptxn r (retired_pages t) (pt_hdr t) (ancestors t) (pt_txnid t) (front_txnid t) (dirty_npages t) (pt_error t) (pt_tree t) (pt_outer t).
Definition set_retired (t : ptxn) (p : pnl) : ptxn :=
mk_ptxn (pt_r t) p (pt_hdr t) (ancestors t) (pt_txnid t) (front_txnid t) (dirty_npages t) (pt_error t) (pt_tree t) (pt_outer t).
Definition set_hdr (t : ptxn) (ptr : Z) (h : hdr) : ptxn :=
mk_ptxn (pt_r t) (retired_pages t) (fun p => if p =? ptr then h else pt_hdr t p) (ancestors t) (pt_txnid t) (front_txnid t)
  (dirty_npages t) (pt_error t) (pt_tree t) (pt_outer t).
Definition set_ancestors (t : ptxn) (l : list gtxn) : ptxn :=
mk_ptxn (pt_r t) (retired_pages t) (pt_hdr t) l (pt_txnid t) (front_txnid t) (dirty_npages t) (pt_error t) (pt_tree t) (pt_outer t).
Definition set_npages (t : ptxn) (n : Z) : ptxn :=
mk_ptxn (pt_r t) (retired_pages t) (pt_hdr t) (ancestors t) (pt_txnid t) (front_txnid t) n (pt_error t) (pt_tree t) (pt_outer t).
Definition set_error (t : ptxn) : ptxn :=
mk_ptxn (pt_r t) (retired_pages t) (pt_hdr t) (ancestors t) (pt_txnid t) (front_txnid t) (dirty_npages t) true (pt_tree t) (pt_outer t).
Definition set_counts (t : ptxn) (c : counts) (o : option counts) : ptxn :=
mk_ptxn (pt_r t) (retired_pages t) (pt_hdr t) (ancestors t) (pt_txnid t) (front_txnid t) (dirty_npages t) (pt_error t) c o.

Definition pt_dirty (t : ptxn) : option dpl := dirtylist (rt_dirty (pt_r t)).
Definition flags_of (t : ptxn) (ptr : Z) : Z := h_flags (pt_hdr t ptr).

(** A changed dirty-page list of the transaction. *)
Definition set_dpl (t : ptxn) (dl : dpl) : ptxn :=
let r := pt_r t in set_r t (with_dirty r (with_dirtylist (rt_dirty r) dl) (loose_count r)).

(** ** The state of a page *)

Inductive page_status : Set := unknown | frozen | spilled_out | shadowed | modifiable.

#[global] Instance page_status_eq_dec : EqDecision page_status.
Proof. solve_decision. Defined.

Definition is_frozen (t : ptxn) (h : hdr) : bool := h_txnid h <? pt_txnid t.
Definition is_spilled (t : ptxn) (h : hdr) : bool := h_txnid h =? pt_txnid t.
Definition is_shadowed_page (t : ptxn) (h : hdr) : bool := pt_txnid t <? h_txnid h.
Definition is_modifiable_page (t : ptxn) (h : hdr) : bool := h_txnid h =? front_txnid t.

Section Ops.
(** The allocator, [MDBX_HAVE_CMOV], the words of the array on the stack of
    [refund_loose], the option [dp_loose_limit], the flag [MDBX_PAGEPERTURB] and
    the outcome of the write of a stub page for it, and [page_get_any], which
    gives the address of a page. *)
Context (al : allocator) (dal : dp_allocator) (cm : bool) (stack : list Z) (dp_loose_limit : Z) (perturb : bool) (stub_write : rc).
Context (page_get_any : Z -> option (rc * option Z)).

(** The search in the lists of the outer transactions. *)
Fixpoint status_in_ancestors (chain : list gtxn) (pgno : Z) : option (page_status * list gtxn) :=
match chain with
| [] => Some (frozen, [])
| parent :: chain =>
  '(di, dl) ← txn_dpl_exist cm (gt_dirtylist parent) pgno;
  let parent := with_dl parent dl in
  if negb (di =? 0) then Some (shadowed, parent :: chain)
  else
    si ← spill_search cm (gt_spilled parent) pgno;
    if negb (si =? 0) then Some (spilled_out, parent :: chain)
    else '(status, chain) ← status_in_ancestors chain pgno; Some (status, parent :: chain)
end.

(** The state of a page: the index in the dirty list and in the list of spilled
    pages, its address and its flags. *)
Record found_page : Type := mk_found_page { fp_status : page_status; fp_di : Z; fp_si : Z; fp_mp : option Z; fp_flags : Z }.

(** By the id in the header of the page. *)
Definition status_by_header (t : ptxn) (pgno mp pageflags : Z) : option (found_page * ptxn) :=
let h := pt_hdr t mp in
if is_frozen t h then Some (mk_found_page frozen 0 0 (Some mp) pageflags, t)
else if is_modifiable_page t h then
  match pt_dirty t with
  | Some dl => '(di, dl) ← txn_dpl_exist cm dl pgno; Some (mk_found_page modifiable di 0 (Some mp) pageflags, set_dpl t dl)
  | None => Some (mk_found_page modifiable 0 0 (Some mp) pageflags, t)
  end
else if is_shadowed_page t h then Some (mk_found_page shadowed 0 0 (Some mp) pageflags, t)
else si ← spill_search cm (rt_spilled (pt_r t)) pgno; Some (mk_found_page spilled_out 0 si (Some mp) pageflags, t).

(** By the lists, for a page that was not read. *)
Definition status_by_lists (t : ptxn) (pgno pageflags : Z) (dl : dpl) : option (found_page * ptxn) :=
'(di, dl) ← txn_dpl_exist cm dl pgno;
let t := set_dpl t dl in
if negb (di =? 0) then
  x ← zget (dl_items dl) di;
  Some (mk_found_page modifiable di 0 (Some (dp_ptr x)) pageflags, t)
else
  si ← spill_search cm (rt_spilled (pt_r t)) pgno;
  if negb (si =? 0) then Some (mk_found_page spilled_out 0 si None pageflags, t)
  else
    '(status, chain) ← status_in_ancestors (ancestors t) pgno;
    Some (mk_found_page status 0 0 None pageflags, set_ancestors t chain).

Definition page_state (t : ptxn) (pgno : Z) (mp : option Z) (pageflags : Z) : option (rc * option found_page * ptxn) :=
let known r := '(f, t) ← r; Some (MDBX_SUCCESS, Some f, t) in
match mp with
| Some mp => known (status_by_header t pgno mp pageflags)
| None =>
  if has pageflags P_FROZEN then known (Some (mk_found_page frozen 0 0 None pageflags, t))
  else
    let read :=
      '(err, mp) ← page_get_any pgno;
      match (err : rc), (mp : option Z) with
      | MDBX_SUCCESS, Some mp => known (status_by_header t pgno mp (flags_of t mp))
      | MDBX_SUCCESS, None => None
      | err, _ => Some (err, None, t)
      end in
    match pt_dirty t with
    | Some dl => if negb (pageflags =? 0) then known (status_by_lists t pgno pageflags dl) else read
    | None => read
    end
end.

(** ** Counting *)

Definition uncount (c : counts) (is_branch : bool) : counts :=
mk_counts (u32 (branch_pages c - if is_branch then 1 else 0)) (u32 (leaf_pages c - if is_branch then 0 else 1)) (large_pages c).

(** The number of pages, which leave the counts of the tree. *)
Definition count_out (t : ptxn) (f : found_page) : option (Z * ptxn) :=
if negb (has (fp_flags f) P_LARGE) then
  let is_branch := has (fp_flags f) P_BRANCH in
  Some (1, set_counts t (uncount (pt_tree t) is_branch) (match pt_outer t with Some o => Some (uncount o is_branch) | None => None end))
else
  mp ← fp_mp f;
  let npages := h_pages (pt_hdr t mp) in
  let c := pt_tree t in
  Some (npages, set_counts t (mk_counts (branch_pages c) (leaf_pages c) (u32 (large_pages c - npages))) (pt_outer t)).

(** ** Removing from the lists *)

Definition page_wash (t : ptxn) (di mp npages : Z) : option ptxn :=
let t := set_hdr t mp (mk_hdr INVALID_TXNID P_BAD (h_pages (pt_hdr t mp))) in
match pt_dirty t with
| Some dl =>
  dl ← txn_dpl_remove_ex dl di npages;
  let r := pt_r t in
  let d := rt_dirty r in
  let d := with_shadow (with_room (with_dirtylist d dl) (u64 (dirtyroom d + 1))) (page_shadow_release (env_shadow d) mp npages) in
  Some (set_r t (with_dirty r d (loose_count r)))
| None => Some (set_npages t (dirty_npages t - if npages <? dirty_npages t then npages else dirty_npages t))
end.

Definition spill_out (t : ptxn) (si npages : Z) : option ptxn :=
s ← rt_spilled (pt_r t);
s ← spill_remove s si npages;
Some (set_r t (with_spilled (pt_r t) s)).

Definition refund (t : ptxn) : option ptxn :=
'(_, r) ← txn_refund al cm (flags_of t) stack (pt_r t);
Some (set_r t r).

Definition suitable4loose (t : ptxn) (pgno : Z) : bool :=
let fu := first_unallocated (pt_r t) in
(loose_count (pt_r t) <? dp_loose_limit) && ((u32 (pgno + dp_loose_limit) <? fu) || (fu <=? dp_loose_limit)).

(** The label [retire]. *)
Definition retire (t : ptxn) (pgno npages : Z) : option (rc * ptxn) :=
'(err, p) ← pnl_append_span al (Some (retired_pages t)) pgno npages;
p ← p;
Some (err, set_retired t p).

(** The label [reclaim]; [err] is the error of [page_kill]. *)
Definition reclaim (t : ptxn) (pgno npages : Z) (err : rc) : option (rc * ptxn) :=
'(wash_rc, p) ← pnl_insert_span al (Some (repnl (pt_r t))) pgno npages;
p ← p;
let t := set_r t (with_repnl (pt_r t) p) in
most ← pnl_at p 1;
t ← (if most =? u32 (first_unallocated (pt_r t) - 1) then refund t else Some t);
Some (if negb (bool_decide (err = MDBX_SUCCESS)) then err else wash_rc, t).

(** Back behind the end of the allocated pages. *)
Definition unallocate (t : ptxn) (f : found_page) (pgno npages : Z) : option (rc * ptxn) :=
t ← (if decide (fp_status f = modifiable) then mp ← fp_mp f; page_wash t (fp_di f) mp npages
     else if negb (fp_si f =? 0) then spill_out t (fp_si f) npages
     else Some t);
t ← refund (set_r t (with_fu (pt_r t) pgno));
Some (MDBX_SUCCESS, t).

Definition loosen (t : ptxn) (mp pgno : Z) : ptxn :=
let t := set_hdr t mp (mk_hdr INVALID_TXNID P_LOOSE (h_pages (pt_hdr t mp))) in
let r := pt_r t in
let wl := if loose_refund_wl r <? u32 (pgno + 2) then u32 (pgno + 2) else loose_refund_wl r in
set_r t (mk_rtxn (rt_dirty r) (first_unallocated r) (repnl r) (mk_loose mp pgno :: loose_pages r) (loose_count r + 1) wl (rt_spilled r)).

(** Whether an outer transaction has written out or changed the page. *)
Fixpoint kept_by_ancestors (chain : list gtxn) (pgno npages : Z) : option bool :=
match chain with
| [] => Some false
| parent :: chain =>
  if gt_spills parent then
    b ← spill_intersect cm (gt_spilled parent) pgno npages;
    if (b : bool) then Some true
    else
      b ← txn_dpl_intersect cm (gt_dirtylist parent) pgno npages;
      if (b : bool) then Some true else kept_by_ancestors chain pgno npages
  else Some false
end.

(** The page in memory is overwritten, and in the file too when the pages are not
    written in place; [stub_write] is the outcome of the writes after
    [stub_write_errdecide]. *)
Definition page_kill (t : ptxn) (mp : Z) : rc * ptxn :=
if negb (is_frozen t (pt_hdr t mp)) then
  (if negb (writemap (rt_dirty (pt_r t))) then stub_write else MDBX_SUCCESS, set_hdr t mp (mk_hdr UINT64_MAX 0xFFFF UINT32_MAX))
else (stub_write, t).

Definition invalidate (t : ptxn) (mp pgno npages : Z) : option (rc * ptxn) :=
if perturb then
  kept ← kept_by_ancestors (ancestors t) pgno npages;
  if (kept : bool) then Some (MDBX_SUCCESS, t)
  else
    let '(err, t) := page_kill t mp in
    if negb (bool_decide (err = MDBX_SUCCESS)) then Some (err, set_error t) else Some (MDBX_SUCCESS, t)
else Some (MDBX_SUCCESS, t).

Definition release_modifiable (t : ptxn) (di mp pgno npages : Z) : option (rc * ptxn) :=
if (npages =? 1) && suitable4loose t pgno && (negb (di =? 0) || match pt_dirty t with None => true | _ => false end)
then Some (MDBX_SUCCESS, loosen t mp pgno)
else
  '(err, t) ← invalidate t mp pgno npages;
  t ← page_wash t di mp npages;
  reclaim t pgno npages err.

(** Whether an outer transaction has the page in its dirty-page list. *)
Fixpoint dirty_in_ancestors (chain : list gtxn) (pgno : Z) : option (bool * list gtxn) :=
match chain with
| [] => Some (false, [])
| parent :: chain =>
  '(di, dl) ← txn_dpl_exist cm (gt_dirtylist parent) pgno;
  let parent := with_dl parent dl in
  if negb (di =? 0) then Some (true, parent :: chain)
  else '(b, chain) ← dirty_in_ancestors chain pgno; Some (b, parent :: chain)
end.

Definition release_spilled (t : ptxn) (si pgno npages : Z) : option (rc * ptxn) :=
t ← spill_out t si npages;
'(b, chain) ← dirty_in_ancestors (ancestors t) pgno;
let t := set_ancestors t chain in
if (b : bool) then retire t pgno npages else reclaim t pgno npages MDBX_SUCCESS.

(** From the label [status_done] on. *)
Definition release (t : ptxn) (f : found_page) (pgno : Z) : option (rc * ptxn) :=
'(npages, t) ← count_out t f;
if decide (fp_status f = frozen) then retire t pgno npages
else if u64 (pgno + npages) =? first_unallocated (pt_r t) then unallocate t f pgno npages
else if decide (fp_status f = modifiable) then mp ← fp_mp f; release_modifiable t (fp_di f) mp pgno npages
else if negb (fp_si f =? 0) then release_spilled t (fp_si f) pgno npages
else if decide (fp_status f = shadowed) then reclaim t pgno npages MDBX_SUCCESS
else retire t pgno npages.

Definition page_retire_ex (t : ptxn) (pgno : Z) (mp : option Z) (pageflags : Z) : option (rc * ptxn) :=
'(err, f, t) ← page_state t pgno mp pageflags;
match (f : option found_page) with
| None => Some (err, t)
| Some f => release t f pgno
end.

Definition page_retire (t : ptxn) (mp pgno : Z) : option (rc * ptxn) := page_retire_ex t pgno (Some mp) (flags_of t mp).

(** ** A new dirty page *)

(** A loose page is given up to make room. *)
Definition give_up_loose (t : ptxn) (dl : dpl) (lp : loose) (rest : list loose) : option (rc * ptxn) :=
'(err, p) ← pnl_insert_span al (Some (repnl (pt_r t))) (lp_pgno lp) 1;
p ← p;
let t := set_r t (with_repnl (pt_r t) p) in
if negb (bool_decide (err = MDBX_SUCCESS)) then Some (err, t)
else
  '(di, dl) ← txn_dpl_search cm dl (lp_pgno lp);
  dl ← txn_dpl_remove dl di;
  let r := pt_r t in
  let d := rt_dirty r in
  let d := with_shadow (with_room (with_dirtylist d dl) (u64 (dirtyroom d + 1))) (page_shadow_release (env_shadow d) (lp_ptr lp) 1) in
  let t := set_r t (mk_rtxn d (first_unallocated r) (repnl r) rest (u64 (loose_count r - 1)) (loose_refund_wl r) (rt_spilled r)) in
  size ← pnl_size p;
  if size =? 0 then Some (MDBX_SUCCESS, t)
  else
    most ← pnl_at p 1;
    t ← (if most =? u32 (first_unallocated (pt_r t) - 1) then refund t else Some t);
    Some (MDBX_SUCCESS, t).

Definition page_dirty (t : ptxn) (mp pgno npages : Z) : option (rc * ptxn) :=
let h := pt_hdr t mp in
let t := set_hdr t mp (mk_hdr (front_txnid t) (h_flags h) (h_pages h)) in
match pt_dirty t with
| None => Some (MDBX_SUCCESS, set_npages t (u64 (dirty_npages t + npages)))
| Some dl =>
  '(err, t) ←
    (if dirtyroom (rt_dirty (pt_r t)) =? 0 then
       if negb (loose_count (pt_r t) =? 0) then
         match loose_pages (pt_r t) with
         | lp :: rest =>
           '(err, t) ← give_up_loose t dl lp rest;
           Some (err, if negb (bool_decide (err = MDBX_SUCCESS)) then set_error t else t)
         | [] => None
         end
       else
         let r := pt_r t in
         let d := rt_dirty r in
         Some (MDBX_TXN_FULL, set_r t (with_dirty r (with_shadow d (page_shadow_release (env_shadow d) mp npages)) (loose_count r)))
     else Some (MDBX_SUCCESS, t));
  if negb (bool_decide (err = MDBX_SUCCESS)) then Some (err, t)
  else
    let r := pt_r t in
    '(err, d) ← txn_dpl_append cm dal (rt_dirty r) pgno mp npages;
    let t := set_r t (with_dirty r d (loose_count r)) in
    if negb (bool_decide (err = MDBX_SUCCESS)) then Some (err, set_error t)
    else Some (MDBX_SUCCESS, set_r t (with_dirty (pt_r t) (with_room d (u64 (dirtyroom d - 1))) (loose_count r)))
end.
End Ops.
