(* ===== verification/RetireProofs.v ===== *)
(** * Releasing pages: every page has one place

    The invariant of the lists and what [page_retire_ex] and [page_dirty] do to
    it: the pages of a released page become free in exactly one way, and pages
    that a committed version refers to only by the list of retired pages. *)

From stdpp Require Import base numbers option sorting list gmap.
From Stdlib Require Import ZArith Lia.
From S2P Require Import Prelude Search SortNet Bits Alloc Pnl PnlOrder Rkl Dpl DplProofs Cmp Page Spill PageGet Refund RefundProofs Retire.

(** An outer transaction: its dirty-page list is sorted. *)
Definition ancestor_ok (g : gtxn) : Prop :=
(exists l, dpl_ok (gt_dirtylist g) l /\ dl_sorted (gt_dirtylist g) = dl_length (gt_dirtylist g) /\ dp_disjoint l /\ Forall dp_span_ok l) /\
match gt_spilled g with Some s => exists l, spill_rep s l | None => True end.

(** A page that an outer transaction, or the list of spilled pages, does not have. *)
Definition not_dirty_in (g : gtxn) (pgno : Z) : Prop := forall l, dpl_ok (gt_dirtylist g) l -> forall x, x ∈ l -> dp_pgno x <> pgno.
Definition not_spilled_in (s : option spilled) (pgno : Z) : Prop := forall s' l, s = Some s' -> spill_rep s' l -> ~ spilled_page l pgno.
Definition not_in_ancestor (pgno : Z) (g : gtxn) : Prop := not_dirty_in g pgno /\ not_spilled_in (gt_spilled g) pgno.

(** The free pages of a transaction: retired, reclaimed, loose or behind the end. *)
Definition loose_pgnos (t : ptxn) : list Z := lp_pgno <$> loose_pages (pt_r t).
Definition free_page (t : ptxn) (R T : list Z) (q : Z) : Prop :=
q ∈ T \/ q ∈ R \/ q ∈ loose_pgnos t \/ first_unallocated (pt_r t) <= q.

(** The dirty pages [D], the reclaimed ones [R] and the retired ones [T]. *)
Record retire_inv (t : ptxn) (D : list dp) (R T : list Z) : Prop := {
  ri_refund : refund_ok (flags_of t) (pt_r t) D R;
  ri_retired : pnl_rep (retired_pages t) T;
  ri_places : NoDup (T ++ R ++ loose_pgnos t);
  ri_range : forall q, q ∈ T -> MIN_PAGENO <= q < first_unallocated (pt_r t);
  ri_ptrs : NoDup (dp_ptr <$> D);
  ri_writemap : pt_dirty t <> None -> writemap (rt_dirty (pt_r t)) = false;
  ri_ancestors : Forall ancestor_ok (ancestors t);
}.

Definition in_span (pgno n q : Z) : Prop := pgno <= q < pgno + n.

Lemma elem_of_span n pgno q : 0 <= pgno -> pgno + Z.of_nat n <= 2 ^ 32 -> q ∈ desc_run n 1 pgno <-> in_span pgno (Z.of_nat n) q.
Proof.
  revert pgno. induction n as [|n IH]; intros pgno Hp Hn; unfold in_span in *; cbn [desc_run].
  - rewrite elem_of_nil. lia.
  - rewrite elem_of_app, list_elem_of_singleton. destruct (decide (n = 0%nat)) as [->|Hn0].
    { cbn [desc_run]. rewrite elem_of_nil. lia. }
    rewrite u32_small by (unfold UINT32_MAX; lia). rewrite IH by lia. lia.
Qed.

Lemma span_desc n pgno : 0 <= pgno -> pgno + Z.of_nat n <= 2 ^ 32 -> desc (desc_run n 1 pgno).
Proof.
  revert pgno. induction n as [|n IH]; intros pgno Hp Hn; cbn [desc_run]; [constructor|].
  destruct (decide (n = 0%nat)) as [->|Hn0]; [repeat constructor|].
  rewrite u32_small by (unfold UINT32_MAX; lia). apply StronglySorted_app_iff. split; [apply IH; lia|]. split; [repeat constructor|].
  intros x y Hx Hy%list_elem_of_singleton. subst y. rewrite elem_of_span in Hx by lia. unfold in_span in Hx. lia.
Qed.

Lemma desc_nodup l : desc l -> NoDup l.
Proof.
  induction 1 as [|x l _ IH Hall]; constructor; [|done]. rewrite Forall_forall in Hall. intros Hx. specialize (Hall x Hx). lia.
Qed.

(** A span in its place of a descending list. *)
Lemma desc_insert R pgno n hi lo : desc R -> 0 <= pgno -> 0 < n -> pgno + n <= 2 ^ 32 -> R = hi ++ lo ->
  Forall (fun x => x <= pgno) lo -> (forall x, last hi = Some x -> pgno < x) -> (forall q, q ∈ R -> ~ in_span pgno n q) ->
  desc (hi ++ desc_run (Z.to_nat n) 1 pgno ++ lo) /\
  forall q, q ∈ hi ++ desc_run (Z.to_nat n) 1 pgno ++ lo <-> q ∈ R \/ in_span pgno n q.
Proof.
  intros Hd Hp Hn Hlim ER Hlo Hhi HR. rewrite ER in Hd. apply StronglySorted_app_iff in Hd as (Hdh & Hdl & Hhl).
  assert (forall q, q ∈ desc_run (Z.to_nat n) 1 pgno <-> in_span pgno n q) as Hrun.
  { intros q. rewrite elem_of_span by lia. by rewrite Z2Nat.id by lia. }
  assert (forall x, x ∈ hi -> pgno + n <= x) as Hhi2.
  { intros x Hx. assert (pgno < x) as Hgt.
    { destruct (list_elem_of_split _ _ Hx) as (h1 & h2 & Eh). destruct (last hi) as [y|] eqn:El; [|apply last_None in El; subst hi; by apply elem_of_nil in Hx].
      specialize (Hhi y eq_refl). destruct h2 as [|z h2]; [rewrite Eh, last_snoc in El; by simplify_eq|].
      rewrite Eh in Hdh. apply StronglySorted_app_iff in Hdh as (_ & Hdh & _). inversion_clear Hdh as [|? ? _ Hall].
      rewrite Eh, last_app_cons in El. rewrite Forall_forall in Hall. specialize (Hall y ltac:(apply last_Some_elem_of; by rewrite last_cons_cons in El)). lia. }
    destruct (decide (x < pgno + n)); [|lia]. exfalso. apply (HR x); [rewrite ER; apply elem_of_app; by left|unfold in_span; lia]. }
  split.
  - apply StronglySorted_app_iff. split; [done|]. split.
    + apply StronglySorted_app_iff. split; [apply span_desc; lia|]. split; [done|]. intros x y Hx Hy.
      apply Hrun in Hx. unfold in_span in Hx. rewrite Forall_forall in Hlo. specialize (Hlo y Hy).
      destruct (decide (y = pgno)) as [->|]; [|lia]. exfalso. apply (HR pgno); [rewrite ER; apply elem_of_app; by right|unfold in_span; lia].
    + intros x y Hx [Hy|Hy]%elem_of_app; [|by apply Hhl]. apply Hrun in Hy. unfold in_span in Hy. specialize (Hhi2 x Hx). lia.
  - intros q. rewrite !elem_of_app, Hrun, ER, elem_of_app. tauto.
Qed.

Section Retire.
Context (al : allocator) (cm : bool) (stack : list Z).
Context `{!AllocOk 4 al}.
Hypothesis Hstack : zlen stack = 128.

(** What is left alone by changes of the lists. *)
Definition same_page_state (t t' : ptxn) : Prop :=
pt_hdr t' = pt_hdr t /\ ancestors t' = ancestors t /\ pt_txnid t' = pt_txnid t /\ front_txnid t' = front_txnid t.

(** The room of the dirty-page list with its entries. *)
Definition same_room (t t' : ptxn) (D D' : list dp) : Prop :=
(pt_dirty t = None <-> pt_dirty t' = None) /\
(pt_dirty t <> None -> dirtyroom (rt_dirty (pt_r t')) + zlen D' = dirtyroom (rt_dirty (pt_r t)) + zlen D).

Lemma refund_ok_spilled f r D R s l : refund_ok f r D R -> spill_rep s l -> refund_ok f (with_spilled r s) D R.
Proof using Type.
  intros [H1 H2 H3 H4 H5 H6 H7 H8 H9 H10] Hl. split; try done. cbn. by exists l.
Qed.

Lemma refund_spec t D R T : retire_inv t D R T ->
  exists r D' R', refund al cm stack t = Some (set_r t r) /\ retire_inv (set_r t r) D' R' T /\
    (forall q, free_page (set_r t r) R' T q <-> free_page t R T q) /\ first_unallocated r <= first_unallocated (pt_r t) /\
    (forall x, x ∈ D' <-> x ∈ D /\ dp_pgno x < first_unallocated r) /\ same_room t (set_r t r) D D'.
Proof using All.
  intros [Hrf Hre Hpl Hra Hpt Hwm Han]. unfold refund.
  destruct (txn_refund_spec al cm (flags_of t) stack Hstack (pt_r t) D R Hrf) as (r1 & r & D' & R' & -> & Htr & Hfu & _ & Hsp).
  cbn [mbind option_bind]. exists r, D', R'. split; [done|].
  destruct Htr as [F1 F2 F3 F4 F5 F6 F7 _ F9 F10 F11].
  assert (loose_pages r = loose_pages r1 /\ rt_dirty r = rt_dirty r1 /\ refund_ok (flags_of t) r D' R') as (El & Ed & Hok).
  { destruct Hsp as [->|(s & s' & Es & Ep & ->)]; [done|]. split; [done|]. split; [done|].
    pose proof (ro_spilled _ _ _ _ Hrf) as Hl. rewrite Es in Hl. destruct Hl as [l Hl].
    destruct (spill_purge_spec s l Hl) as (s2 & Ep2 & Hs2 & _). replace s' with s2 by congruence. by eapply refund_ok_spilled. }
  assert (forall q, q ∈ T -> q < first_unallocated r) as HT.
  { intros q Hq. destruct (decide (q < first_unallocated r)) as [|Hn]; [done|]. exfalso. specialize (Hra q Hq).
    apply NoDup_app in Hpl as (_ & Hd & _). apply (Hd q Hq). rewrite elem_of_app. apply F2. lia. }
  assert (forall q, q ∈ loose_pgnos (set_r t r) <-> q ∈ loose_pgnos t /\ q < first_unallocated r) as Hlo.
  { intros q. unfold loose_pgnos. cbn [set_r pt_r]. rewrite El, F3, <- Hfu. unfold loose_below. rewrite !list_elem_of_fmap.
    setoid_rewrite list_elem_of_filter. naive_solver. }
  assert (forall q, q ∈ R' <-> q ∈ R /\ q < first_unallocated r) as HR.
  { intros q. rewrite F4, list_elem_of_filter, Hfu. naive_solver. }
  split; [|split; [|split; [lia|split]]].
  - split; cbn [set_r pt_r retired_pages ancestors]; try done.
    + eapply sublist_NoDup; [exact Hpl|]. apply sublist_app; [done|]. apply sublist_app; [rewrite F4; apply sublist_filter|].
      unfold loose_pgnos. cbn [set_r pt_r]. rewrite El, F3. apply fmap_sublist, sublist_filter.
    + intros q Hq. split; [by apply Hra|by apply HT].
    + rewrite F5. eapply sublist_NoDup; [exact Hpt|]. apply fmap_sublist, sublist_filter.
    + unfold pt_dirty. cbn [set_r pt_r]. rewrite Ed, F9. intros Hn. apply Hwm. unfold pt_dirty. intros E. by apply Hn, F7.
  - intros q. unfold free_page. rewrite Hlo, HR. cbn [set_r pt_r]. specialize (F2 q). unfold loose_pgnos.
    destruct (decide (q < first_unallocated r)); [|destruct (decide (q < first_unallocated (pt_r t)))]; naive_solver lia.
  - intros x. rewrite F5. unfold dirty_below. rewrite list_elem_of_filter, Hfu. naive_solver.
  - unfold same_room, pt_dirty. cbn [set_r pt_r]. rewrite Ed. done.
Qed.

(** ** The lists of pages *)

(** The errors of a list that cannot grow. *)
Definition list_full (err : rc) (len : Z) : Prop := err = MDBX_ENOMEM /\ alloc_fails al \/ err = MDBX_TXN_FULL /\ PAGELIST_LIMIT < len.

Lemma need_pointer p m err pp : pnl_need al (Some p) m = Some (err, pp) -> is_Some pp.
Proof using Type.
  unfold pnl_need, pnl_reserve. destruct (pnl_size p); cbn [mbind option_bind]; [|done]. destruct (pnl_alloclen p); cbn [mbind option_bind]; [|done].
  cbn zeta. destruct (_ <=? _); [intros ?; simplify_eq; by eexists|].
  destruct (PAGELIST_LIMIT <? _); [intros ?; simplify_eq; by eexists|]. destruct (osal_realloc _ _ _); [|intros ?; simplify_eq; by eexists].
  destruct (zset _ _ _); cbn [mbind option_bind]; intros ?; simplify_eq; by eexists.
Qed.

Lemma appended_pointer p l l' m (r : option (rc * option pnl)) k : 
  r = ('(rc, ppnl) ← pnl_need al (Some p) m; if decide (rc <> MDBX_SUCCESS) then Some (rc, ppnl) else p ← ppnl; k p) ->
  (forall p err pp, k p = Some (err, pp) -> is_Some pp) -> appended al l l' r ->
  exists err p', r = Some (err, Some p') /\ (err = MDBX_SUCCESS /\ pnl_rep p' l' \/ err <> MDBX_SUCCESS /\ list_full err (zlen l') /\ pnl_rep p' l).
Proof using Type.
  intros Er Hk (err & pp & E & H). rewrite E. assert (is_Some pp) as [p' ->].
  { rewrite E in Er. destruct (pnl_need al (Some p) m) as [[e q]|] eqn:En; cbn [mbind option_bind] in Er; [|done].
    pose proof (need_pointer _ _ _ _ En) as [p' ->]. case_decide; [by simplify_eq; eexists|]. cbn [mbind option_bind] in Er. by eapply Hk. }
  exists err, p'. split; [done|]. destruct H as [(-> & q & Eq & Hq)|[He Hq]]; [left; by simplify_eq|right].
  split; [|done]. destruct He as [[-> _]|[-> _]]; done.
Qed.

Lemma append_span_spec p l pgno n : pnl_rep p l -> 0 < n <= PAGELIST_LIMIT ->
  exists err p', pnl_append_span al (Some p) pgno n = Some (err, Some p') /\
    (err = MDBX_SUCCESS /\ pnl_rep p' (l ++ desc_run (Z.to_nat n) 1 pgno) \/
     err <> MDBX_SUCCESS /\ list_full err (zlen l + n) /\ pnl_rep p' l).
Proof using All.
  intros Hp Hn. pose proof (pnl_append_stepped_spec al 1 (Some p) l pgno n Hp Hn) as H.
  eapply appended_pointer in H; [|done|].
  - rewrite zlen_app, zlen_desc_run, Z2Nat.id in H by lia. done.
  - intros p1 err pp. cbv beta. case_match.
    + destruct (pnl_append_prereserved p1 pgno); cbn [mbind option_bind]; [|done]. intros E. simplify_eq. by eexists.
    + destruct (pnl_size p1); cbn [mbind option_bind]; [|done]. destruct (pnl_setsize _ _); cbn [mbind option_bind]; [|done].
      destruct (append_stepped_loop _ _ _ _ _); cbn [mbind option_bind]; [|done]. intros E. simplify_eq. by eexists.
Qed.

Lemma insert_span_spec p l pgno n : pnl_rep p l -> 0 <= n <= PAGELIST_LIMIT ->
  exists err p' hi lo, pnl_insert_span al (Some p) pgno n = Some (err, Some p') /\ l = hi ++ lo /\ Forall (fun x => x <= pgno) lo /\
    (forall x, last hi = Some x -> pgno < x) /\
    (err = MDBX_SUCCESS /\ pnl_rep p' (hi ++ desc_run (Z.to_nat n) 1 pgno ++ lo) \/
     err <> MDBX_SUCCESS /\ list_full err (zlen l + n) /\ pnl_rep p' l).
Proof using All.
  intros Hp Hn. destruct (pnl_insert_span_spec al (Some p) l pgno n Hp Hn) as (hi & lo & El & Hlo & Hhi & H).
  eapply appended_pointer in H; [|done|].
  - destruct H as (err & p' & E & H). exists err, p', hi, lo. split_and!; try done.
    rewrite !zlen_app, zlen_desc_run, Z2Nat.id in H by lia. rewrite El, zlen_app. replace (zlen hi + zlen lo + n) with (zlen hi + (n + zlen lo)) by lia. by rewrite <- El.
  - intros p1 err pp. cbv beta. destruct (pnl_size p1); cbn [mbind option_bind]; [|done]. destruct (pnl_setsize _ _); cbn [mbind option_bind]; [|done].
    destruct (insert_shift _ _ _ _ _) as [[[]]|]; cbn [mbind option_bind]; [|done]. destruct (insert_fill _ _ _ _ _); cbn [mbind option_bind]; [|done].
    intros E. simplify_eq. by eexists.
Qed.

(** A span of pages that is in use. *)
Definition span_used (t : ptxn) (R T : list Z) (pgno n : Z) : Prop :=
0 < n <= PAGELIST_LIMIT /\ MIN_PAGENO <= pgno /\ forall q, in_span pgno n q -> ~ free_page t R T q.

Lemma span_below t D R T pgno n : retire_inv t D R T -> span_used t R T pgno n ->
  pgno + n <= first_unallocated (pt_r t) <= MAX_PAGENO + 1.
Proof using Type.
  intros H (Hn & Hp & Hs). pose proof (ro_fu _ _ _ _ (ri_refund _ _ _ _ H)) as Hfu.
  destruct (decide (pgno + n <= first_unallocated (pt_r t))) as [|Hgt]; [lia|]. exfalso.
  apply (Hs (pgno + n - 1)); [unfold in_span; lia|]. do 3 right. lia.
Qed.

(** The new places of a span: the list that it is added to. *)
Lemma places_add (A X B : list Z) pgno n : 0 <= pgno -> 0 <= n -> pgno + n <= 2 ^ 32 ->
  (forall q, in_span pgno n q -> q ∉ A ++ B) -> X = desc_run (Z.to_nat n) 1 pgno -> NoDup (A ++ B) -> NoDup (A ++ X ++ B).
Proof using Type.
  intros Hp Hn Hlim Hs -> HN. rewrite Permutation_app_comm, <- app_assoc, (Permutation_app_comm B A). apply NoDup_app.
  split; [apply desc_nodup, span_desc; lia|]. split; [|done]. intros q Hq. apply Hs. rewrite elem_of_span in Hq by lia.
  by rewrite Z2Nat.id in Hq by lia.
Qed.

Lemma retire_spec t D R T pgno n : retire_inv t D R T -> span_used t R T pgno n ->
  exists err p, retire al t pgno n = Some (err, set_retired t p) /\
    (err = MDBX_SUCCESS /\ retire_inv (set_retired t p) D R (T ++ desc_run (Z.to_nat n) 1 pgno) \/
     err <> MDBX_SUCCESS /\ list_full err (zlen T + n) /\ retire_inv (set_retired t p) D R T).
Proof using All.
  intros H Hu. pose proof (span_below _ _ _ _ _ _ H Hu) as Hlim. destruct Hu as (Hn & Hp & Hs). unfold MIN_PAGENO, MAX_PAGENO in *.
  destruct (append_span_spec (retired_pages t) T pgno n (ri_retired _ _ _ _ H) Hn) as (err & p & E & Hc).
  exists err, p. unfold retire. rewrite E. cbn [mbind option_bind]. split; [done|].
  destruct H as [H1 H2 H3 H4 H5 H6 H7]. destruct Hc as [[-> Hc]|(He & Hl & Hc)]; [left|right]; (split; [done|]); [|split; [done|by split]].
  split; try done.
  - rewrite <- app_assoc. apply (places_add T _ _ pgno n); try done; try lia. intros q Hq Hin. apply (Hs q Hq).
    rewrite !elem_of_app in Hin. unfold free_page. tauto.
  - intros q. rewrite elem_of_app, elem_of_span by lia. rewrite Z2Nat.id by lia. intros [Hq|Hq]; [by apply H4|].
    unfold in_span in Hq. cbn [set_retired pt_r]. unfold MIN_PAGENO. lia.
Qed.

(** The end of the allocated pages moves over a span that is in no list. *)
Lemma with_fu_inv t D R T pgno n : retire_inv t D R T -> span_used t R T pgno n -> pgno + n = first_unallocated (pt_r t) ->
  (forall x, x ∈ D -> ~ in_span pgno n (dp_pgno x)) -> let t' := set_r t (with_fu (pt_r t) pgno) in
  retire_inv t' D R T /\ (forall q, free_page t' R T q <-> free_page t R T q \/ in_span pgno n q) /\ same_room t t' D D.
Proof using Type.
  intros H (Hn & Hp & Hs) Hfu HD t'. pose proof H as [[F1 F2 F3 F4 F5 F6 F7 F8 F9 F10] H2 H3 H4 H5 H6 H7].
  assert (forall q, q < first_unallocated (pt_r t) -> (q ∈ T \/ q ∈ R \/ q ∈ loose_pgnos t) -> q < pgno) as Hlt.
  { intros q Hq Hin. destruct (decide (q < pgno)); [done|]. exfalso. apply (Hs q); [unfold in_span; lia|]. unfold free_page. tauto. }
  split; [|split].
  - split; try done; cbn [t' set_r with_fu pt_r first_unallocated].
    + split; cbn [with_fu first_unallocated loose_pages loose_count repnl rt_spilled rt_dirty]; try done.
      * lia.
      * unfold dirty_ok in *. cbn [with_fu rt_dirty first_unallocated loose_pages]. destruct (dirtylist _); [|done].
        destruct F2 as (D1 & D2 & D3 & D4 & D5 & D6 & D7). split_and!; try done. intros x Hx. specialize (HD x Hx). specialize (D4 x Hx).
        unfold in_span in HD. lia.
      * intros lp Hlp. split; [by apply F4|]. apply Hlt; [by apply F4|]. right. right. unfold loose_pgnos. apply list_elem_of_fmap. by exists lp.
      * intros q Hq. split; [by apply F8|]. apply Hlt; [by apply F8|]. tauto.
    + intros q Hq. split; [by apply H4|]. apply Hlt; [by apply H4|]. tauto.
  - intros q. unfold free_page, loose_pgnos, in_span. cbn [t' set_r with_fu pt_r first_unallocated loose_pages].
    destruct (decide (first_unallocated (pt_r t) <= q)); [|destruct (decide (pgno <= q))]; naive_solver lia.
  - done.
Qed.

Lemma same_room_trans t1 t2 t3 D1 D2 D3 : same_room t1 t2 D1 D2 -> same_room t2 t3 D2 D3 -> same_room t1 t3 D1 D3.
Proof using Type.
  intros [A1 A2] [B1 B2]. split; [tauto|]. intros H. rewrite B2 by tauto. by apply A2.
Qed.

(** More reclaimed pages. *)
Lemma repnl_inv t D R R' T p : retire_inv t D R T -> pnl_rep p R' -> desc R' ->
  (forall q, q ∈ R' -> q ∈ R \/ (MIN_PAGENO <= q < first_unallocated (pt_r t) /\ ~ free_page t R T q /\ forall x, x ∈ D -> dp_pgno x <> q)) ->
  retire_inv (set_r t (with_repnl (pt_r t) p)) D R' T.
Proof using Type.
  intros [[F1 F2 F3 F4 F5 F6 F7 F8 F9 F10] H2 H3 H4 H5 H6 H7] Hp Hd Hq. split; try done; cbn [set_r pt_r].
  - split; cbn [with_repnl first_unallocated loose_pages loose_count repnl rt_spilled rt_dirty]; try done.
    + intros q Hin. destruct (Hq q Hin) as [?|(? & _)]; [by apply F8|done].
    + intros q Hin. destruct (Hq q Hin) as [?|(? & Hf & Hx)]; [by apply F9|]. split; [|done]. intros lp Hlp E.
      apply Hf. right. right. left. unfold loose_pgnos. apply list_elem_of_fmap. by exists lp.
  - unfold loose_pgnos in *. cbn [set_r pt_r with_repnl loose_pages]. apply NoDup_app in H3 as (N1 & N2 & N3).
    apply NoDup_app in N3 as (N3 & N4 & N5). apply NoDup_app. split; [done|]. split.
    + intros q HT [Hin|Hin]%elem_of_app; [|by apply (N2 q HT), elem_of_app; right].
      destruct (Hq q Hin) as [?|(? & Hf & _)]; [by apply (N2 q HT), elem_of_app; left|]. apply Hf. by left.
    + apply NoDup_app. split; [by apply desc_nodup|]. split; [|done]. intros q Hin Hl.
      destruct (Hq q Hin) as [?|(? & Hf & _)]; [by apply (N4 q)|]. apply Hf. right. right. by left.
Qed.

Lemma inserted_span t D R T pgno n hi lo : retire_inv t D R T -> span_used t R T pgno n -> R = hi ++ lo ->
  Forall (fun x => x <= pgno) lo -> (forall x, last hi = Some x -> pgno < x) ->
  desc (hi ++ desc_run (Z.to_nat n) 1 pgno ++ lo) /\
  forall q, q ∈ hi ++ desc_run (Z.to_nat n) 1 pgno ++ lo <-> q ∈ R \/ in_span pgno n q.
Proof using Type.
  intros H Hu ER Hlo Hhi. pose proof (span_below _ _ _ _ _ _ H Hu) as Hlim. destruct Hu as (Hn & Hp & Hs). unfold MIN_PAGENO, MAX_PAGENO in *.
  apply desc_insert; [apply (ro_desc _ _ _ _ (ri_refund _ _ _ _ H))|lia|lia|lia|done|done|done|]. intros q Hq Hin. apply (Hs q Hin). unfold free_page. tauto.
Qed.

(** The free pages after a release that succeeded, or after one that failed. *)
Definition freed (t t' : ptxn) (R R' T T' : list Z) (pgno n : Z) : Prop :=
forall q, free_page t' R' T' q <-> free_page t R T q \/ in_span pgno n q.
Definition not_freed (t t' : ptxn) (R R' T T' : list Z) : Prop := forall q, free_page t' R' T' q <-> free_page t R T q.

(** The dirty pages that are left. *)
Definition dirty_left (t' : ptxn) (D D' : list dp) : Prop := forall x, x ∈ D' <-> x ∈ D /\ dp_pgno x < first_unallocated (pt_r t').

Lemma refund_if (b : bool) t D R T : retire_inv t D R T ->
  exists r D' R', (if b then refund al cm stack t else Some t) = Some (set_r t r) /\ retire_inv (set_r t r) D' R' T /\
    not_freed t (set_r t r) R R' T T /\ dirty_left (set_r t r) D D' /\ same_room t (set_r t r) D D' /\
    first_unallocated r <= first_unallocated (pt_r t).
Proof using All.
  intros H. destruct b.
  - destruct (refund_spec t D R T H) as (r & D' & R' & E & Hi & Hf & Hfu & HD & Hr). exists r, D', R'. done.
  - exists (pt_r t), D, R. assert (set_r t (pt_r t) = t) as E by (by destruct t). rewrite E. split_and!; try done.
    intros x. split; [|tauto]. intros Hx. split; [done|].
    pose proof (ro_dirty _ _ _ _ (ri_refund _ _ _ _ H)) as Hd. unfold dirty_ok in Hd. destruct (dirtylist _); [|subst D; by apply elem_of_nil in Hx].
    by apply Hd.
Qed.

Lemma pnl_rep_first p l : pnl_rep p l -> exists x, pnl_at p 1 = Some x.
Proof using Type.
  intros (len & rest & Ep & Hlen & Hz). pose proof (zlen_nonneg l). destruct (zget_in p 2) as [x Hx]; [lia|]. by exists x.
Qed.

Lemma reclaim_spec t D R T pgno n e0 : retire_inv t D R T -> span_used t R T pgno n ->
  (forall x, x ∈ D -> ~ in_span pgno n (dp_pgno x)) ->
  exists wash r D' R', reclaim al cm stack t pgno n e0 = Some (if decide (e0 = MDBX_SUCCESS) then wash else e0, set_r t r) /\
    retire_inv (set_r t r) D' R' T /\ dirty_left (set_r t r) D D' /\ same_room t (set_r t r) D D' /\
    (wash = MDBX_SUCCESS /\ freed t (set_r t r) R R' T T pgno n \/
     wash <> MDBX_SUCCESS /\ list_full wash (zlen R + n) /\ not_freed t (set_r t r) R R' T T).
Proof using All.
  intros H Hu HD. unfold reclaim.
  destruct (insert_span_spec (repnl (pt_r t)) R pgno n (ro_repnl _ _ _ _ (ri_refund _ _ _ _ H))) as (wash & p & hi & lo & E & ER & Hlo & Hhi & Hc);
    [destruct Hu; lia|]. rewrite E. cbn [mbind option_bind].
  assert (exists R1, pnl_rep p R1 /\ retire_inv (set_r t (with_repnl (pt_r t) p)) D R1 T /\
    (wash = MDBX_SUCCESS /\ freed t (set_r t (with_repnl (pt_r t) p)) R R1 T T pgno n \/
     wash <> MDBX_SUCCESS /\ list_full wash (zlen R + n) /\ not_freed t (set_r t (with_repnl (pt_r t) p)) R R1 T T)) as (R1 & Hp & H1 & Hw).
  { destruct Hc as [[-> Hp]|(Hw & Hl & Hp)].
    - destruct (inserted_span t D R T pgno n hi lo H Hu ER Hlo Hhi) as [Hd Hin]. eexists. split; [done|]. split.
      + apply (repnl_inv t D R); try done. intros q Hq. apply Hin in Hq as [Hq|Hq]; [by left|]. right.
        pose proof (span_below _ _ _ _ _ _ H Hu) as Hlim. destruct Hu as (_ & Hmin & Hs). split; [unfold in_span in Hq; lia|]. split; [by apply Hs|].
        intros x Hx E2. apply (HD x Hx). by rewrite E2.
      + left. split; [done|]. intros q. unfold free_page. cbn [set_r pt_r with_repnl first_unallocated]. rewrite Hin.
        unfold loose_pgnos. cbn [set_r pt_r with_repnl loose_pages]. tauto.
    - exists R. split; [done|]. split; [|by right]. apply (repnl_inv t D R); try done; [apply H|]. tauto. }
  destruct (pnl_rep_first _ _ Hp) as [most ->].
  cbn [mbind option_bind].
  destruct (refund_if (most =? u32 (first_unallocated (pt_r (set_r t (with_repnl (pt_r t) p))) - 1)) _ D R1 T H1) as (r & D' & R' & -> & Hi & Hn & HDl & Hr & Hfu).
  cbn [mbind option_bind]. exists wash, r, D', R'. split; [|split; [done|split; [done|split; [done|]]]].
  - f_equal. f_equal. destruct (decide (e0 = MDBX_SUCCESS)); [by rewrite bool_decide_true|by rewrite bool_decide_false].
  - destruct Hw as [[-> Hw]|(Hw & Hl & Hnf)]; [left|right]; (split; [done|]).
    + intros q. rewrite (Hn q). apply Hw.
    + split; [done|]. intros q. rewrite (Hn q). apply Hnf.
Qed.

(** ** The dirty page leaves its list *)

(** The entry of the page at its index. *)
Definition entry_at (t : ptxn) (D : list dp) (di mp pgno n : Z) : Prop :=
match pt_dirty t with
| Some _ => exists a b, D = a ++ mk_dp mp pgno n :: b /\ di = zlen a + 1
| None => True
end.

Lemma loose_apart t D R T pgno n lp mp di : retire_inv t D R T -> span_used t R T pgno n -> entry_at t D di mp pgno n ->
  pt_dirty t <> None -> lp ∈ loose_pages (pt_r t) -> lp_ptr lp <> mp /\ lp_pgno lp <> pgno.
Proof using Type.
  intros H (Hn & _ & Hs) He Hd Hlp.
  assert (lp_pgno lp <> pgno) as Hne.
  { intros E. apply (Hs pgno); [unfold in_span; lia|]. right. right. left. rewrite <- E. unfold loose_pgnos. apply list_elem_of_fmap. by exists lp. }
  split; [|done]. intros E. pose proof (ro_dirty _ _ _ _ (ri_refund _ _ _ _ H)) as Hdo. unfold dirty_ok in Hdo. unfold entry_at, pt_dirty in *.
  destruct (dirtylist (rt_dirty (pt_r t))); [|done]. destruct Hdo as (_ & _ & _ & _ & Hl & _). specialize (Hl lp Hlp).
  destruct He as (a & b & -> & _). pose proof (ri_ptrs _ _ _ _ H) as Hnd. rewrite fmap_app, fmap_cons in Hnd. cbn in Hnd.
  apply NoDup_app in Hnd as (_ & N1 & N2). apply NoDup_cons in N2 as [N2 _].
  apply elem_of_app in Hl as [Hl|[Hl|Hl]%elem_of_cons].
  - apply (N1 mp); [|left]. rewrite <- E. by apply (list_elem_of_fmap_2 dp_ptr) in Hl.
  - unfold loose_entry in Hl. injection Hl as _ E2. done.
  - apply N2. rewrite <- E. by apply (list_elem_of_fmap_2 dp_ptr) in Hl.
Qed.

Lemma page_wash_spec t D R T di mp pgno n : retire_inv t D R T -> span_used t R T pgno n -> entry_at t D di mp pgno n ->
  (forall x, x ∈ D -> in_span pgno n (dp_pgno x) -> dp_pgno x = pgno) ->
  exists t' D', page_wash t di mp n = Some t' /\ retire_inv t' D' R T /\ not_freed t t' R R T T /\ same_room t t' D D' /\
    (forall x, x ∈ D' <-> x ∈ D /\ ~ in_span pgno n (dp_pgno x)) /\ first_unallocated (pt_r t') = first_unallocated (pt_r t) /\
    ancestors t' = ancestors t.
Proof using All.
  intros H Hu He HD. pose proof (loose_apart t D R T pgno n) as Hap. pose proof H as [[F1 F2 F3 F4 F5 F6 F7 F8 F9 F10] H2 H3 H4 H5 H6 H7].
  unfold page_wash. unfold entry_at in He. change (pt_dirty (set_hdr _ _ _)) with (pt_dirty t).
  unfold dirty_ok in F2. unfold pt_dirty in *. destruct (dirtylist (rt_dirty (pt_r t))) as [dl|] eqn:Edl.
  2:{ subst D. eexists _, []. split; [done|]. split; [|split; [done|split; [done|split; [|done]]]].
    - split; try done. split; try done. unfold dirty_ok. cbn [set_npages set_hdr pt_r]. by rewrite Edl.
    - intros x. split; [by intros ?%elem_of_nil|]. by intros [?%elem_of_nil _]. }
  destruct He as (a & b & -> & ->). destruct F2 as (D1 & D2 & D3 & D4 & D5 & D6 & D7).
  destruct (txn_dpl_remove_spec dl (a ++ mk_dp mp pgno n :: b) a (mk_dp mp pgno n) b D1 eq_refl) as (dl' & E & Hok' & _). cbn [dp_npages_] in E.
  rewrite E. cbn [mbind option_bind]. eexists _, (a ++ b). split; [done|].
  pose proof (dok_nodup _ _ D1) as Hnp. rewrite fmap_app, fmap_cons in Hnp, H5. cbn in Hnp, H5.
  apply NoDup_app in Hnp as (P1 & P2 & P3). apply NoDup_cons in P3 as [P3 P4]. apply NoDup_app in H5 as (Q1 & Q2 & Q3). apply NoDup_cons in Q3 as [Q3 Q4].
  assert (forall x, x ∈ a ++ b -> x ∈ a ++ mk_dp mp pgno n :: b /\ dp_pgno x <> pgno /\ dp_ptr x <> mp) as Hab.
  { intros x [Hx|Hx]%elem_of_app; (split; [rewrite elem_of_app, elem_of_cons; tauto|]); split; intros Ex.
    - apply (P2 (dp_pgno x)); [by apply (list_elem_of_fmap_2 dp_pgno)|rewrite Ex; left].
    - apply (Q2 (dp_ptr x)); [by apply (list_elem_of_fmap_2 dp_ptr)|rewrite Ex; left].
    - apply P3. rewrite <- Ex. by apply (list_elem_of_fmap_2 dp_pgno).
    - apply Q3. rewrite <- Ex. by apply (list_elem_of_fmap_2 dp_ptr). }
  assert (zlen (a ++ mk_dp mp pgno n :: b) = zlen (a ++ b) + 1) as Hz by zlia. pose proof (zlen_nonneg (a ++ b)) as Hz0.
  assert (u64 (dirtyroom (rt_dirty (pt_r t)) + 1) = dirtyroom (rt_dirty (pt_r t)) + 1) as Hroom by (apply u64_small; lia).
  assert (forall lp, lp ∈ loose_pages (pt_r t) -> lp_ptr lp <> mp /\ lp_pgno lp <> pgno) as Hlp.
  { intros lp Hlp. apply (Hap lp mp (zlen a + 1)); try done; unfold entry_at, pt_dirty; rewrite Edl; first [by exists a, b|done]. }
  split; [|split; [done|split; [|split; [|done]]]].
  - split; try done.
    + split; try done.
      * unfold dirty_ok. cbn [set_r set_hdr pt_r with_dirty rt_dirty with_shadow with_room with_dirtylist dirtylist dirtyroom first_unallocated loose_pages].
        rewrite Hroom. split; [done|]. split; [lia|]. split; [lia|]. split; [|split; [|split]].
        -- intros x Hx. by apply D4, Hab.
        -- intros lp Hl. specialize (D5 lp Hl). destruct (Hlp lp Hl) as [_ Hne]. rewrite elem_of_app in D5 |- *. rewrite elem_of_cons in D5.
           destruct D5 as [?|[E5|?]]; [tauto| |tauto]. exfalso. apply Hne. by injection E5.
        -- intros x Hx. destruct (Hab x Hx) as (Hx1 & _ & Hx2). unfold flags_of. cbn [set_r set_hdr pt_hdr].
           rewrite (proj2 (Z.eqb_neq _ _) Hx2). by apply D6.
        -- intros lp Hl. destruct (Hlp lp Hl) as [Hne _]. unfold flags_of. cbn [set_r set_hdr pt_hdr].
           rewrite (proj2 (Z.eqb_neq _ _) Hne). by apply D7.
      * intros q Hq. split; [by apply F9|]. intros x Hx. apply F9; [done|]. by apply Hab.
    + rewrite fmap_app. apply NoDup_app. split; [done|]. split; [|done]. intros q Hq Hq2. apply (Q2 q Hq). by right.
    + intros _. by apply H6.
  - split; cbn [set_r set_hdr pt_r with_dirty rt_dirty with_shadow with_room with_dirtylist dirtylist dirtyroom]; unfold pt_dirty; [by rewrite Edl|].
    intros _. cbn [set_r set_hdr pt_r with_dirty rt_dirty with_shadow with_room with_dirtylist dirtylist dirtyroom]. rewrite Hroom. lia.
  - intros x. split.
    + intros Hx. destruct (Hab x Hx) as (Hx1 & Hx2 & _). split; [done|]. intros Hsp. by apply Hx2, HD.
    + intros [Hx Hn]. rewrite elem_of_app in Hx |- *. rewrite elem_of_cons in Hx. destruct Hx as [?|[->|?]]; [tauto| |tauto].
      exfalso. apply Hn. unfold in_span. cbn. destruct Hu. lia.
Qed.

(** ** Spilled and loose pages *)

Lemma spill_out_spec t D R T si pgno n s l : retire_inv t D R T -> 0 < n -> rt_spilled (pt_r t) = Some s -> spill_rep s l ->
  zget l (si - 1) = Some (2 * pgno) ->
  exists r, spill_out t si n = Some (set_r t r) /\ retire_inv (set_r t r) D R T /\ not_freed t (set_r t r) R R T T /\
    same_room t (set_r t r) D D /\ first_unallocated r = first_unallocated (pt_r t).
Proof using Type.
  intros H Hn Es Hl Hsi. destruct (spill_remove_spec s l si (2 * pgno) n Hl Hsi Hn) as (s' & l' & E & Hl' & _).
  unfold spill_out. rewrite Es. cbn [mbind option_bind]. rewrite E. cbn [mbind option_bind]. eexists. split; [done|].
  split; [|done]. destruct H as [H1 H2 H3 H4 H5 H6 H7]. split; try done. by eapply refund_ok_spilled.
Qed.

Lemma loosen_spec t D R T di mp pgno : retire_inv t D R T -> span_used t R T pgno 1 -> entry_at t D di mp pgno 1 ->
  let t' := loosen t mp pgno in
  retire_inv t' D R T /\ freed t t' R R T T pgno 1 /\ same_room t t' D D /\ first_unallocated (pt_r t') = first_unallocated (pt_r t).
Proof using All.
  intros H Hu He t'. pose proof (span_below _ _ _ _ _ _ H Hu) as Hlim.
  pose proof (fun lp => loose_apart t D R T pgno 1 lp mp di H Hu He) as Hap. destruct Hu as (_ & Hp & Hs).
  assert (in_span pgno 1 pgno) as Hin by (unfold in_span; lia). specialize (Hs pgno Hin).
  pose proof H as [[F1 F2 F3 F4 F5 F6 F7 F8 F9 F10] H2 H3 H4 H5 H6 H7].
  assert (pgno ∉ loose_pgnos t) as Hnl by (intros ?; apply Hs; unfold free_page; tauto).
  split; [|split; [|split; [done|done]]].
  - split; try done.
    + split; cbn [t' loosen set_r set_hdr pt_r rt_dirty first_unallocated repnl loose_pages loose_count rt_spilled]; try done.
      * unfold dirty_ok in *. cbn [rt_dirty first_unallocated loose_pages]. unfold entry_at, pt_dirty in *.
        destruct (dirtylist (rt_dirty (pt_r t))) as [dl|]; [|done]. destruct He as (a & b & ED & _). destruct F2 as (D1 & D2 & D3 & D4 & D5 & D6 & D7).
        split; [done|]. split; [done|]. split; [done|]. split; [done|]. unfold flags_of. cbn [t' loosen set_r set_hdr pt_hdr].
        split; [|split].
        -- intros lp [->|Hl]%elem_of_cons; [|by apply D5]. unfold loose_entry. cbn. rewrite ED, elem_of_app, elem_of_cons. tauto.
        -- intros x Hx. destruct (Z.eqb_spec (dp_ptr x) mp) as [E|E].
           ++ intros _. exists (mk_loose mp pgno). split; [left|]. unfold loose_entry. cbn.
              rewrite ED in Hx, H5. rewrite fmap_app, fmap_cons in H5. cbn in H5. apply NoDup_app in H5 as (_ & Q2 & Q3). apply NoDup_cons in Q3 as [Q3 _].
              apply elem_of_app in Hx as [Hx|[Hx|Hx]%elem_of_cons]; [|done|].
              ** exfalso. apply (Q2 (dp_ptr x)); [by apply (list_elem_of_fmap_2 dp_ptr)|rewrite E; left].
              ** exfalso. apply Q3. rewrite <- E. by apply (list_elem_of_fmap_2 dp_ptr).
           ++ intros Hf. destruct (D6 x Hx Hf) as (lp & Hl & Ex). exists lp. split; [by right|done].
        -- intros lp [->|Hl]%elem_of_cons; [by rewrite Z.eqb_refl|]. destruct (Hap lp ltac:(done) Hl) as [Hne _].
           rewrite (proj2 (Z.eqb_neq _ _) Hne). by apply D7.
      * cbn. apply NoDup_cons. done.
      * intros lp [->|Hl]%elem_of_cons; [cbn; lia|by apply F4].
      * rewrite F5. zlia.
      * intros q Hq. split; [|by apply F9]. intros lp [->|Hl]%elem_of_cons; [|by apply F9]. cbn. intros ->. apply Hs. unfold free_page. tauto.
    + unfold loose_pgnos in *. cbn [t' loosen set_r set_hdr pt_r loose_pages fmap list_fmap]. rewrite !app_assoc. rewrite !app_assoc in H3.
      rewrite <- Permutation_middle. apply NoDup_cons. split; [|done]. rewrite !elem_of_app. unfold free_page, loose_pgnos in Hs. tauto.
  - intros q. unfold free_page, loose_pgnos. cbn [t' loosen set_r set_hdr pt_r loose_pages first_unallocated fmap list_fmap]. rewrite elem_of_cons. cbn.
    unfold in_span. assert (pgno <= q < pgno + 1 <-> q = pgno) as -> by lia. tauto.
Qed.

(** ** Headers and outer transactions *)

Lemma set_hdr_inv t D R T mp h : retire_inv t D R T -> h_flags h <> P_LOOSE ->
  (pt_dirty t <> None -> forall lp, lp ∈ loose_pages (pt_r t) -> lp_ptr lp <> mp) -> retire_inv (set_hdr t mp h) D R T.
Proof using Type.
  intros [[F1 F2 F3 F4 F5 F6 F7 F8 F9 F10] H2 H3 H4 H5 H6 H7] Hh Hlp. split; try done. split; try done. unfold dirty_ok in *.
  cbn [set_hdr pt_r]. unfold pt_dirty in Hlp. destruct (dirtylist (rt_dirty (pt_r t))); [|done]. specialize (Hlp ltac:(done)).
  destruct F2 as (D1 & D2 & D3 & D4 & D5 & D6 & D7). split_and!; try done; unfold flags_of; cbn [set_hdr pt_hdr].
  - intros x Hx. destruct (Z.eqb_spec (dp_ptr x) mp); [done|by apply D6].
  - intros lp Hl. rewrite (proj2 (Z.eqb_neq _ _) (Hlp lp Hl)). by apply D7.
Qed.

Lemma exist_in_ancestor g pgno : ancestor_ok g -> 0 < pgno < P_INVALID ->
  exists di, txn_dpl_exist cm (gt_dirtylist g) pgno = Some (di, gt_dirtylist g) /\ (di <> 0 -> ~ not_dirty_in g pgno).
Proof using Type.
  intros [(l & Hok & Hs & _) _] Hp. unfold txn_dpl_exist. destruct (txn_dpl_search_sorted cm _ l pgno Hok Hs) as (a & b & El & _ & _ & E).
  destruct (txn_dpl_exist_found cm _ l pgno Hok ltac:(lia)) as (i & dl' & l' & x & E2 & Hx & _). rewrite E in E2. simplify_eq.
  eexists. split; [rewrite E; cbn [mbind option_bind]; by rewrite Hx|]. intros Hdi Hno.
  destruct (txn_dpl_exist_spec cm _ _ pgno Hok Hp) as (di & dl1 & l1 & E1 & _ & _ & [[-> _]|(_ & y & Hy & Ey & _)]).
  - unfold txn_dpl_exist in E1. rewrite E in E1. cbn [mbind option_bind] in E1. rewrite Hx in E1. cbn [mbind option_bind] in E1. congruence.
  - by apply (Hno _ Hok y Hy).
Qed.

Lemma with_dl_same g : with_dl g (gt_dirtylist g) = g.
Proof using Type. by destruct g. Qed.

Lemma dirty_in_ancestors_spec pgno chain : Forall ancestor_ok chain -> 0 < pgno < P_INVALID ->
  exists b, dirty_in_ancestors cm chain pgno = Some (b, chain).
Proof using Type.
  intros H Hp. induction H as [|g chain Hg _ IH]; cbn [dirty_in_ancestors]; [by eexists|].
  destruct (exist_in_ancestor g pgno Hg Hp) as (di & -> & _). cbn [mbind option_bind]. rewrite with_dl_same.
  destruct (negb (di =? 0)); [by eexists|]. destruct IH as [b ->]. cbn. by eexists.
Qed.

Lemma kept_by_ancestors_spec pgno n chain : Forall ancestor_ok chain -> 0 < pgno -> 0 < n -> pgno + n <= MAX_PAGENO + 1 ->
  exists b, kept_by_ancestors cm chain pgno n = Some b.
Proof using Type.
  intros H Hp Hn Hlim. induction H as [|g chain [(l & Hok & Hs & Hd & Hsp) Hspill] _ IH]; cbn [kept_by_ancestors]; [by eexists|].
  destruct (gt_spills g); [|by eexists].
  assert (exists b, spill_intersect cm (gt_spilled g) pgno n = Some b) as [b ->].
  { destruct (gt_spilled g) as [s|]; [|by eexists]. destruct Hspill as [sl Hsl].
    destruct (spill_intersect_spec cm s sl pgno n) as (b & E & _); try done; [lia|]. by exists b. }
  cbn [mbind option_bind]. destruct b; [by eexists|].
  destruct (txn_dpl_intersect_spec cm _ l pgno n Hok Hs Hd Hsp) as (b & -> & _); [lia|lia|unfold P_INVALID, MAX_PAGENO, UINT32_MAX in *; lia|].
  cbn [mbind option_bind]. destruct b; [by eexists|done].
Qed.

Lemma set_error_inv t D R T : retire_inv t D R T -> retire_inv (set_error t) D R T.
Proof using Type. intros [[] H2 H3 H4 H5 H6 H7]. by split. Qed.

Context (dp_loose_limit : Z) (perturb : bool) (stub_write : rc).

Lemma invalidate_spec t D R T di mp pgno n : retire_inv t D R T -> span_used t R T pgno n -> entry_at t D di mp pgno n ->
  exists err t', invalidate cm perturb stub_write t mp pgno n = Some (err, t') /\ retire_inv t' D R T /\ pt_r t' = pt_r t /\
    ancestors t' = ancestors t /\ (err = MDBX_SUCCESS \/ err = stub_write).
Proof using Type.
  intros H Hu He. unfold invalidate. destruct perturb; [|exists MDBX_SUCCESS, t; split_and!; try done; by left].
  pose proof (span_below _ _ _ _ _ _ H Hu) as Hlim. pose proof (fun lp => loose_apart t D R T pgno n lp mp di H Hu He) as Hap.
  destruct Hu as (Hn & Hp & _). unfold MIN_PAGENO in Hp.
  destruct (kept_by_ancestors_spec pgno n (ancestors t) (ri_ancestors _ _ _ _ H)) as [b ->]; [lia..|]. cbn [mbind option_bind].
  destruct b; [exists MDBX_SUCCESS, t; split_and!; try done; by left|].
  assert (exists e t1, page_kill stub_write t mp = (e, t1) /\ (e = MDBX_SUCCESS \/ e = stub_write) /\ retire_inv t1 D R T /\ pt_r t1 = pt_r t /\ ancestors t1 = ancestors t)
    as (e & t1 & -> & Ee & H1 & Hr & Ha).
  { unfold page_kill. destruct (is_frozen _ _); cbn [negb]; [exists stub_write, t; split_and!; try done; by right|]. eexists _, _. split; [done|].
    split; [destruct (writemap _); tauto|]. split; [|done]. apply set_hdr_inv; [done|done|]. intros Hd lp Hl. by apply Hap. }
  destruct (bool_decide_reflect (e = MDBX_SUCCESS)) as [E|E]; cbn [negb].
  - exists MDBX_SUCCESS, t1. split_and!; try done. by left.
  - exists e, (set_error t1). split; [done|]. split; [by apply set_error_inv|]. done.
Qed.

(** ** The whole *)

Definition release_error (err : rc) : Prop := err = MDBX_ENOMEM /\ alloc_fails al \/ err = MDBX_TXN_FULL \/ err = stub_write.

(** What a release does: the pages of the span become free, and nothing else
    does; the dirty list loses at most the page and refunded loose pages. *)
Record released (t t' : ptxn) (D D' : list dp) (R R' T T' : list Z) (pgno n : Z) (err : rc) : Prop := {
  rl_inv : retire_inv t' D' R' T';
  rl_room : same_room t t' D D';
  rl_sub : forall x, x ∈ D' -> x ∈ D;
  rl_left : forall x, x ∈ D -> x ∈ D' \/ in_span pgno n (dp_pgno x) \/ first_unallocated (pt_r t') <= dp_pgno x;
  rl_freed : err = MDBX_SUCCESS -> freed t t' R R' T T' pgno n;
  rl_keep : forall q, free_page t R T q -> free_page t' R' T' q;
  rl_only : forall q, free_page t' R' T' q -> free_page t R T q \/ in_span pgno n q;
  rl_error : err <> MDBX_SUCCESS -> release_error err;
}.

Record releasable (t : ptxn) (D : list dp) (R T : list Z) (f : found_page) (pgno n : Z) : Prop := {
  re_used : span_used t R T pgno n;
  re_dirty : forall x, x ∈ D -> in_span pgno n (dp_pgno x) -> dp_pgno x = pgno /\ fp_status f = modifiable;
  re_mod : fp_status f = modifiable -> exists mp, fp_mp f = Some mp /\ entry_at t D (fp_di f) mp pgno n;
  re_si : fp_si f <> 0 -> fp_status f = spilled_out /\
    exists s l, rt_spilled (pt_r t) = Some s /\ spill_rep s l /\ zget l (fp_si f - 1) = Some (2 * pgno);
}.

Lemma list_full_error err len : list_full err len -> release_error err.
Proof using Type. unfold list_full, release_error. tauto. Qed.

Lemma dirty_below_end t D R T x : retire_inv t D R T -> x ∈ D -> dp_pgno x < first_unallocated (pt_r t).
Proof using Type.
  intros H Hx. pose proof (ro_dirty _ _ _ _ (ri_refund _ _ _ _ H)) as Hd. unfold dirty_ok in Hd.
  destruct (dirtylist _); [by apply Hd|]. subst D. by apply elem_of_nil in Hx.
Qed.

Lemma retire_released t D R T pgno n : retire_inv t D R T -> span_used t R T pgno n ->
  exists err t' T', retire al t pgno n = Some (err, t') /\ released t t' D D R R T T' pgno n err /\ pt_r t' = pt_r t /\
    (err = MDBX_SUCCESS -> T' = T ++ desc_run (Z.to_nat n) 1 pgno).
Proof using All.
  intros H Hu. pose proof (span_below _ _ _ _ _ _ H Hu) as Hlim.
  destruct (retire_spec t D R T pgno n H Hu) as (err & p & -> & Hc). destruct Hu as (Hn & Hp & _). unfold MIN_PAGENO, MAX_PAGENO in *.
  destruct Hc as [[-> Hi]|(He & Hl & Hi)].
  - exists MDBX_SUCCESS, (set_retired t p), (T ++ desc_run (Z.to_nat n) 1 pgno). split; [done|].
    assert (freed t (set_retired t p) R R T (T ++ desc_run (Z.to_nat n) 1 pgno) pgno n) as Hf.
    { intros q. unfold free_page. rewrite elem_of_app, elem_of_span by lia. rewrite Z2Nat.id by lia. unfold loose_pgnos. cbn [set_retired pt_r]. tauto. }
    split; [|done]. split; try done; [by left|intros q Hq; apply Hf; by left|by intros q Hq; apply Hf].
  - exists err, (set_retired t p), T. split; [done|]. split; [|done]. split; try done; [by left|by left|].
    intros _. by eapply list_full_error.
Qed.

Lemma reclaim_released t t0 D D0 R T pgno n e0 : retire_inv t D R T -> same_room t0 t D0 D -> not_freed t0 t R R T T ->
  (forall x, x ∈ D <-> x ∈ D0 /\ ~ in_span pgno n (dp_pgno x)) -> span_used t R T pgno n -> (e0 = MDBX_SUCCESS \/ e0 = stub_write) ->
  exists err t' D' R', reclaim al cm stack t pgno n e0 = Some (err, t') /\ released t0 t' D0 D' R R' T T pgno n err.
Proof using All.
  intros H Hr Hnf HD Hu He. destruct (reclaim_spec t D R T pgno n e0 H Hu) as (wash & r & D' & R' & -> & Hi & Hl & Hr' & Hw).
  { intros x Hx. by apply HD. }
  eexists _, _, D', R'. split; [done|]. split.
  - done.
  - by eapply same_room_trans.
  - intros x Hx. apply Hl in Hx as [Hx _]. by apply HD in Hx as [? _].
  - intros x Hx. destruct (decide (in_span pgno n (dp_pgno x))) as [|Hn]; [tauto|].
    destruct (decide (dp_pgno x < first_unallocated (pt_r (set_r t r)))); [left|right; right; lia]. apply Hl. split; [by apply HD|done].
  - case_decide as Ee; intros Es; [|done]. destruct Hw as [[_ Hf]|[? _]]; [|done]. intros q. rewrite (Hf q), (Hnf q). done.
  - intros q Hq. destruct Hw as [[_ Hf]|(_ & _ & Hf)]; apply Hf; [left|]; by apply Hnf.
  - intros q Hq. destruct Hw as [[_ Hf]|(_ & _ & Hf)]; apply Hf in Hq; [destruct Hq as [Hq|Hq]; [left|by right]|left]; by apply Hnf.
  - case_decide as Ee; intros Es; [|unfold release_error; tauto]. destruct Hw as [[? _]|(_ & Hl2 & _)]; [done|]. by eapply list_full_error.
Qed.

(** A page that is not dirty has no entry. *)
Lemma none_in_span t D R T f pgno n : releasable t D R T f pgno n -> fp_status f <> modifiable ->
  forall x, x ∈ D <-> x ∈ D /\ ~ in_span pgno n (dp_pgno x).
Proof using Type.
  intros H Hs x. split; [|tauto]. intros Hx. split; [done|]. intros Hin. by destruct (re_dirty _ _ _ _ _ _ _ H x Hx Hin).
Qed.

(** The page leaves the dirty or the spilled list. *)
Lemma taken_out t D R T f pgno n : retire_inv t D R T -> releasable t D R T f pgno n ->
  exists t1 D1, (if decide (fp_status f = modifiable) then mp ← fp_mp f; page_wash t (fp_di f) mp n
     else if negb (fp_si f =? 0) then spill_out t (fp_si f) n else Some t) = Some t1 /\
    retire_inv t1 D1 R T /\ not_freed t t1 R R T T /\ same_room t t1 D D1 /\
    (forall x, x ∈ D1 <-> x ∈ D /\ ~ in_span pgno n (dp_pgno x)) /\ first_unallocated (pt_r t1) = first_unallocated (pt_r t).
Proof using All.
  intros H Hre. pose proof Hre as [Hu Hd Hm Hsi]. case_decide as Es.
  - destruct (Hm Es) as (mp & -> & He). cbn [mbind option_bind].
    destruct (page_wash_spec t D R T (fp_di f) mp pgno n H Hu He) as (t1 & D1 & E & H1 & H2 & H3 & H4 & H5 & _); [intros x Hx Hin; by apply Hd|].
    exists t1, D1. done.
  - pose proof (none_in_span _ _ _ _ _ _ _ Hre Es) as HD. destruct (Z.eqb_spec (fp_si f) 0) as [E0|E0]; cbn [negb].
    + exists t, D. done.
    + destruct (Hsi E0) as (_ & s & l & El & Hl & Hz).
      destruct (spill_out_spec t D R T (fp_si f) pgno n s l H ltac:(destruct Hu; lia) El Hl Hz) as (r & E & H1 & H2 & H3 & H4).
      exists (set_r t r), D. done.
Qed.

Lemma unallocate_released t D R T f pgno n : retire_inv t D R T -> releasable t D R T f pgno n -> pgno + n = first_unallocated (pt_r t) ->
  exists t' D' R', unallocate al cm stack t f pgno n = Some (MDBX_SUCCESS, t') /\ released t t' D D' R R' T T pgno n MDBX_SUCCESS.
Proof using All.
  intros H Hre Hfu. unfold unallocate. destruct (taken_out t D R T f pgno n H Hre) as (t1 & D1 & E & H1 & Hn1 & Hr1 & HD1 & Hf1).
  rewrite E. cbn [mbind option_bind].
  assert (span_used t1 R T pgno n) as Hu1.
  { destruct (re_used _ _ _ _ _ _ _ Hre) as (A & B & C). split; [done|]. split; [done|]. intros q Hq Hf. by apply (C q Hq), Hn1. }
  destruct (with_fu_inv t1 D1 R T pgno n H1 Hu1) as (H2 & Hf2 & Hr2); [lia|intros x Hx; by apply HD1|].
  destruct (refund_spec _ D1 R T H2) as (r & D' & R' & -> & H3 & Hf3 & Hle & HD3 & Hr3). cbn [mbind option_bind].
  assert (forall q, free_page (set_r (set_r t1 (with_fu (pt_r t1) pgno)) r) R' T q <-> free_page t R T q \/ in_span pgno n q) as Hfin.
  { intros q. rewrite (Hf3 q), (Hf2 q), (Hn1 q). done. }
  eexists _, D', R'. split; [done|]. split; try done.
  - eapply same_room_trans; [exact Hr1|]. by eapply same_room_trans.
  - intros x Hx. apply HD3 in Hx as [Hx _]. by apply HD1 in Hx as [? _].
  - intros x Hx. destruct (decide (in_span pgno n (dp_pgno x))); [tauto|].
    destruct (decide (dp_pgno x < first_unallocated r)); [left|right; right; cbn [set_r pt_r]; lia]. apply HD3. split; [by apply HD1|done].
  - intros q Hq. apply Hfin. by left.
  - intros q Hq. by apply Hfin.
Qed.

Lemma release_modifiable_released t D R T f mp pgno n : retire_inv t D R T -> releasable t D R T f pgno n -> fp_status f = modifiable -> fp_mp f = Some mp ->
  exists err t' D' R', release_modifiable al cm stack dp_loose_limit perturb stub_write t (fp_di f) mp pgno n = Some (err, t') /\
    released t t' D D' R R' T T pgno n err.
Proof using All.
  intros H Hre Hs Emp. pose proof Hre as [Hu Hd Hm _]. destruct (Hm Hs) as (mp' & Emp' & He). replace mp' with mp in * by congruence.
  unfold release_modifiable. destruct ((n =? 1) && suitable4loose dp_loose_limit t pgno && _) eqn:Ec.
  - apply andb_true_iff in Ec as [[En _]%andb_true_iff _]. apply Z.eqb_eq in En as ->.
    destruct (loosen_spec t D R T (fp_di f) mp pgno H Hu He) as (H1 & H2 & H3 & H4). eexists _, _, D, R. split; [done|]. split; try done.
    + by left.
    + intros q Hq. apply H2. by left.
    + intros q Hq. by apply H2.
  - destruct (invalidate_spec t D R T (fp_di f) mp pgno n H Hu He) as (e0 & t1 & -> & H1 & Er & Ea & He0). cbn [mbind option_bind].
    assert (forall q, free_page t1 R T q <-> free_page t R T q) as Hf1 by (intros q; unfold free_page, loose_pgnos; by rewrite Er).
    assert (span_used t1 R T pgno n) as Hu1.
    { destruct Hu as (A & B & C). split; [done|]. split; [done|]. intros q Hq Hf. by apply (C q Hq), Hf1. }
    assert (entry_at t1 D (fp_di f) mp pgno n) as He1 by (unfold entry_at, pt_dirty in *; by rewrite Er).
    destruct (page_wash_spec t1 D R T (fp_di f) mp pgno n H1 Hu1 He1) as (t2 & D2 & -> & H2 & Hn2 & Hr2 & HD2 & Hfu2 & Ha2);
      [intros x Hx Hin; by apply Hd|]. cbn [mbind option_bind].
    destruct (reclaim_released t2 t D2 D R T pgno n e0) as (err & t' & D' & R' & E & Hrel); try done.
    + split; [unfold same_room, pt_dirty in *; rewrite Er in Hr2; tauto|]. unfold same_room, pt_dirty in *. rewrite Er in Hr2. tauto.
    + intros q. rewrite (Hn2 q). apply Hf1.
    + destruct Hu1 as (A & B & C). split; [done|]. split; [done|]. intros q Hq Hf. by apply (C q Hq), Hn2.
    + exists err, t', D', R'. done.
Qed.

Lemma released_from t t1 t' D D1 D' R R' T T' pgno n err : D1 ≡ₚ D -> not_freed t t1 R R T T -> same_room t t1 D D1 ->
  released t1 t' D1 D' R R' T T' pgno n err -> released t t' D D' R R' T T' pgno n err.
Proof using Type.
  intros HP Hn Hr [H1 H2 H3 H4 H5 H6 H7 H8]. split; try done.
  - by eapply same_room_trans.
  - intros x Hx. rewrite <- HP. by apply H3.
  - intros x Hx. apply H4. by rewrite HP.
  - intros E q. rewrite (H5 E q), (Hn q). done.
  - intros q Hq. by apply H6, Hn.
  - intros q Hq. rewrite <- (Hn q). by apply H7.
Qed.

Lemma set_ancestors_same t : set_ancestors t (ancestors t) = t.
Proof using Type. by destruct t. Qed.

Lemma release_spilled_released t D R T f pgno n : retire_inv t D R T -> releasable t D R T f pgno n -> fp_si f <> 0 ->
  exists err t' D' R' T', release_spilled al cm stack t (fp_si f) pgno n = Some (err, t') /\ released t t' D D' R R' T T' pgno n err.
Proof using All.
  intros H Hre Hsi. pose proof Hre as [Hu _ _ Hsp]. destruct (Hsp Hsi) as (Es & s & l & El & Hl & Hz).
  pose proof (span_below _ _ _ _ _ _ H Hu) as Hlim. pose proof (none_in_span _ _ _ _ _ _ _ Hre ltac:(by rewrite Es)) as HD.
  destruct (spill_out_spec t D R T (fp_si f) pgno n s l H ltac:(destruct Hu; lia) El Hl Hz) as (r & E & H1 & Hn1 & Hr1 & _).
  unfold release_spilled. rewrite E. cbn [mbind option_bind].
  assert (span_used (set_r t r) R T pgno n) as Hu1.
  { destruct Hu as (A & B & C). split; [done|]. split; [done|]. intros q Hq Hf. by apply (C q Hq), Hn1. }
  destruct (dirty_in_ancestors_spec pgno (ancestors (set_r t r)) (ri_ancestors _ _ _ _ H1)) as [b ->].
  { destruct Hu as (A & B & _). unfold MIN_PAGENO, MAX_PAGENO, P_INVALID, UINT32_MAX in *. lia. }
  cbn [mbind option_bind]. rewrite set_ancestors_same. destruct b.
  - destruct (retire_released (set_r t r) D R T pgno n H1 Hu1) as (err & t' & T' & E2 & Hrel & _).
    exists err, t', D, R, T'. split; [done|]. by eapply released_from.
  - destruct (reclaim_released (set_r t r) t D D R T pgno n MDBX_SUCCESS) as (err & t' & D' & R' & E2 & Hrel); try done; [by left|].
    exists err, t', D', R', T. done.
Qed.

Lemma set_counts_inv t D R T c o : retire_inv t D R T -> retire_inv (set_counts t c o) D R T.
Proof using Type. intros [[] H2 H3 H4 H5 H6 H7]. by split. Qed.

Lemma release_spec t D R T f pgno n t0 : retire_inv t D R T -> releasable t D R T f pgno n -> count_out t f = Some (n, t0) ->
  exists err t' D' R' T', release al cm stack dp_loose_limit perturb stub_write t f pgno = Some (err, t') /\
    released t t' D D' R R' T T' pgno n err /\
    (fp_status f = frozen -> pt_r t' = pt_r t /\ D' = D /\ R' = R /\ (err = MDBX_SUCCESS -> T' = T ++ desc_run (Z.to_nat n) 1 pgno)).
Proof using All.
  intros H Hre Ec. assert (exists c o, t0 = set_counts t c o) as (c & o & ->).
  { unfold count_out in Ec. destruct (negb _); [injection Ec as _ <-; by eexists _, _|]. destruct (fp_mp f); [|done]. cbn in Ec. injection Ec as _ <-. by eexists _, _. }
  apply (set_counts_inv t D R T c o) in H as H0. set (t0 := set_counts t c o) in *.
  assert (not_freed t t0 R R T T) as Hn0 by done. assert (same_room t t0 D D) as Hr0 by done.
  assert (releasable t0 D R T f pgno n) as Hre0 by (by destruct Hre). pose proof Hre0 as [Hu0 Hd0 Hm0 Hs0].
  pose proof (span_below _ _ _ _ _ _ H0 Hu0) as Hlim. unfold release. rewrite Ec. cbn [mbind option_bind].
  destruct (decide (fp_status f = frozen)) as [Ef|Ef].
  { destruct (retire_released t0 D R T pgno n H0 Hu0) as (err & t' & T' & E & Hrel & Er & ET). exists err, t', D, R, T'.
    split; [done|]. split; [by eapply released_from|]. done. }
  rewrite u64_small by (destruct Hu0 as (A & B & _); unfold MIN_PAGENO, MAX_PAGENO, UINT64_MAX in *; lia).
  destruct (Z.eqb_spec (pgno + n) (first_unallocated (pt_r t0))) as [Efu|Efu].
  { destruct (unallocate_released t0 D R T f pgno n H0 Hre0 Efu) as (t' & D' & R' & E & Hrel). eexists _, t', D', R', T.
    split; [done|]. split; [by eapply released_from|done]. }
  destruct (decide (fp_status f = modifiable)) as [Em|Em].
  { destruct (Hm0 Em) as (mp & Emp & _). rewrite Emp. cbn [mbind option_bind].
    destruct (release_modifiable_released t0 D R T f mp pgno n H0 Hre0 Em Emp) as (err & t' & D' & R' & E & Hrel). exists err, t', D', R', T.
    split; [done|]. split; [by eapply released_from|done]. }
  destruct (Z.eqb_spec (fp_si f) 0) as [Esi|Esi]; cbn [negb].
  2:{ destruct (release_spilled_released t0 D R T f pgno n H0 Hre0 Esi) as (err & t' & D' & R' & T' & E & Hrel). exists err, t', D', R', T'.
    split; [done|]. split; [by eapply released_from|done]. }
  destruct (decide (fp_status f = shadowed)) as [Esh|Esh].
  - destruct (reclaim_released t0 t D D R T pgno n MDBX_SUCCESS) as (err & t' & D' & R' & E & Hrel); try done; [by apply (none_in_span _ _ _ _ _ _ _ Hre0)|by left|].
    exists err, t', D', R', T. done.
  - destruct (retire_released t0 D R T pgno n H0 Hu0) as (err & t' & T' & E & Hrel & _). exists err, t', D, R, T'.
    split; [done|]. split; [by eapply released_from|done].
Qed.

(** ** The state of the page *)

Lemma set_dpl_inv t D D2 R T dl dl' : retire_inv t D R T -> pt_dirty t = Some dl -> dpl_ok dl' D2 -> D2 ≡ₚ D -> retire_inv (set_dpl t dl') D2 R T.
Proof using Type.
  intros [[F1 F2 F3 F4 F5 F6 F7 F8 F9 F10] H2 H3 H4 H5 H6 H7] Ed Hok HP. unfold pt_dirty in *. split; try done.
  - split; try done.
    + unfold dirty_ok in *. rewrite Ed in F2. cbn [set_dpl set_r pt_r with_dirty rt_dirty with_dirtylist dirtylist dirtyroom first_unallocated loose_pages].
      destruct F2 as (D1 & D2' & D3 & D4 & D5 & D6 & D7). assert (forall x, x ∈ D2 <-> x ∈ D) as HE by (intros x; by rewrite HP).
      split; [done|]. split; [done|]. split; [by rewrite HP|]. split; [intros x Hx; by apply D4, HE|].
      split; [intros lp Hl; by apply HE, D5|]. split; [|done]. intros x Hx. by apply D6, HE.
    + intros q Hq. split; [by apply F9|]. intros x Hx. apply F9; [done|]. by rewrite <- HP.
  - by rewrite HP.
  - intros _. cbn [set_dpl set_r pt_r with_dirty rt_dirty with_dirtylist writemap]. apply H6. by rewrite Ed.
Qed.

(** The page at the address [p], of [n] pages: dirty in this transaction exactly
    if its header says so. *)
Record held_at (t : ptxn) (D : list dp) (pgno n p : Z) : Prop := {
  ha_entry : forall x, x ∈ D -> in_span pgno n (dp_pgno x) -> x = mk_dp p pgno n;
  ha_dirty : pt_dirty t <> None -> (mk_dp p pgno n ∈ D <-> h_txnid (pt_hdr t p) = front_txnid t);
  ha_front : pt_txnid t <= front_txnid t;
}.

Lemma entry_found t D R T dl pgno n p : retire_inv t D R T -> pt_dirty t = Some dl -> 0 < pgno < P_INVALID -> mk_dp p pgno n ∈ D ->
  exists di dl' D2, txn_dpl_exist cm dl pgno = Some (di, dl') /\ di <> 0 /\ retire_inv (set_dpl t dl') D2 R T /\ D2 ≡ₚ D /\
    zget (dl_items dl') di = Some (mk_dp p pgno n) /\ exists a b, D2 = a ++ mk_dp p pgno n :: b /\ di = zlen a + 1.
Proof using Type.
  intros H Ed Hp Hin. pose proof (ro_dirty _ _ _ _ (ri_refund _ _ _ _ H)) as Hdo. unfold dirty_ok in Hdo. unfold pt_dirty in Ed. rewrite Ed in Hdo.
  destruct Hdo as (Hok & _). destruct (txn_dpl_exist_spec cm dl D pgno Hok Hp) as (di & dl' & D2 & E & Hok' & HP & Hc).
  destruct Hc as [[_ Hno]|(Hdi & x & Hx & Ex & Hg)]; [by specialize (Hno _ Hin)|].
  assert (x = mk_dp p pgno n) as ->.
  { pose proof (dok_nodup _ _ Hok) as Hnd. apply list_elem_of_lookup_1 in Hx as [i Hi]. apply list_elem_of_lookup_1 in Hin as [j Hj].
    assert (i = j) as -> by (eapply NoDup_lookup; [exact Hnd|rewrite list_lookup_fmap, Hi; cbn; by rewrite Ex|by rewrite list_lookup_fmap, Hj]).
    congruence. }
  exists di, dl', D2. split; [done|]. split; [lia|]. split; [by eapply set_dpl_inv|]. split; [done|]. split; [done|].
  destruct (dok_items _ _ Hok') as [rest Hit]. rewrite Hit in Hg. rewrite zget_cons_pos in Hg by lia.
  assert (zlen D2 = zlen D) as Hz by (by rewrite HP). rewrite zget_app_l in Hg by lia.
  destruct (zsplit_mid D2 (di - 1) ltac:(lia)) as (a & y & b & -> & Ha). rewrite zget_app_mid in Hg by lia. injection Hg as ->.
  exists a, b. split; [done|lia].
Qed.

Lemma entry_missing t D R T dl pgno : retire_inv t D R T -> pt_dirty t = Some dl -> 0 < pgno < P_INVALID -> (forall x, x ∈ D -> dp_pgno x <> pgno) ->
  exists dl' D2, txn_dpl_exist cm dl pgno = Some (0, dl') /\ retire_inv (set_dpl t dl') D2 R T /\ D2 ≡ₚ D.
Proof using Type.
  intros H Ed Hp Hno. pose proof (ro_dirty _ _ _ _ (ri_refund _ _ _ _ H)) as Hdo. unfold dirty_ok in Hdo. unfold pt_dirty in Ed. rewrite Ed in Hdo.
  destruct Hdo as (Hok & _). destruct (txn_dpl_exist_spec cm dl D pgno Hok Hp) as (di & dl' & D2 & E & Hok' & HP & Hc).
  destruct Hc as [[-> _]|(_ & x & Hx & Ex & _)]; [|by specialize (Hno x Hx)].
  exists dl', D2. split; [done|]. split; [by eapply set_dpl_inv|done].
Qed.

Lemma spill_index s pgno : match s with Some s => exists l, spill_rep s l | None => True end -> 0 <= pgno <= MAX_PAGENO ->
  exists si, spill_search cm s pgno = Some si /\
    (si <> 0 -> exists s' l, s = Some s' /\ spill_rep s' l /\ zget l (si - 1) = Some (2 * pgno)) /\ (not_spilled_in s pgno -> si = 0).
Proof using Type.
  intros Hs Hp. destruct s as [s|]; [|by exists 0]. destruct Hs as [l Hl]. destruct (spill_search_spec cm s l pgno Hl Hp) as (si & E & _ & H1 & _).
  exists si. split; [done|]. split; [intros Hn; exists s, l; split; [done|]; split; [done|by apply H1]|].
  intros Hno. destruct (decide (si = 0)) as [|Hn]; [done|]. destruct (Hno s l eq_refl Hl). apply H1 in Hn.
  by eapply zget_elem.
Qed.

Lemma spill_found t D R T pgno : retire_inv t D R T -> 0 <= pgno <= MAX_PAGENO ->
  exists si, spill_search cm (rt_spilled (pt_r t)) pgno = Some si /\
    (si <> 0 -> exists s l, rt_spilled (pt_r t) = Some s /\ spill_rep s l /\ zget l (si - 1) = Some (2 * pgno)) /\
    (not_spilled_in (rt_spilled (pt_r t)) pgno -> si = 0).
Proof using Type. intros H Hp. apply spill_index; [|done]. by apply (ro_spilled _ _ _ _ (ri_refund _ _ _ _ H)). Qed.

Lemma status_in_ancestors_spec pgno chain : Forall ancestor_ok chain -> 0 < pgno <= MAX_PAGENO ->
  exists st, status_in_ancestors cm chain pgno = Some (st, chain) /\ st <> modifiable /\ (Forall (not_in_ancestor pgno) chain -> st = frozen).
Proof using Type.
  intros H Hp. induction H as [|g chain Hg _ IH]; cbn [status_in_ancestors]; [by exists frozen|].
  destruct (exist_in_ancestor g pgno Hg) as (di & -> & Hdi); [unfold P_INVALID, MAX_PAGENO, UINT32_MAX in *; lia|]. cbn [mbind option_bind]. rewrite with_dl_same.
  destruct (Z.eqb_spec di 0) as [_|Hn]; cbn [negb].
  2:{ exists shadowed. split; [done|]. split; [done|]. intros [[Hno _] _]%Forall_cons. by destruct (Hdi Hn). }
  destruct (spill_index (gt_spilled g) pgno ltac:(by destruct Hg) ltac:(lia)) as (si & -> & _ & Hsi).
  cbn [mbind option_bind]. destruct (Z.eqb_spec si 0) as [_|Hn]; cbn [negb].
  2:{ exists spilled_out. split; [done|]. split; [done|]. intros [[_ Hno] _]%Forall_cons. by destruct (Hn (Hsi Hno)). }
  destruct IH as (st & -> & Hst & Hfz). cbn. exists st. split; [done|]. split; [done|]. intros [_ Hno]%Forall_cons. by apply Hfz.
Qed.

(** What is known after the state was determined; the search may have sorted the
    dirty-page list. *)
Record determined (t t1 : ptxn) (D D1 : list dp) (R T : list Z) (f : found_page) (pgno n : Z) : Prop := {
  de_inv : retire_inv t1 D1 R T;
  de_perm : D1 ≡ₚ D;
  de_free : not_freed t t1 R R T T;
  de_room : same_room t t1 D D1;
  de_page : releasable t1 D1 R T f pgno n;
  de_count : exists t0, count_out t1 f = Some (n, t0);
}.

Definition page_count (t : ptxn) (pageflags p : Z) : Z := if has pageflags P_LARGE then h_pages (pt_hdr t p) else 1.

Lemma count_out_spec t f n : n = match fp_mp f with Some p => page_count t (fp_flags f) p | None => 1 end ->
  (has (fp_flags f) P_LARGE = true -> fp_mp f <> None) -> exists t0, count_out t f = Some (n, t0).
Proof using Type.
  intros -> Hl. unfold count_out, page_count. destruct (has (fp_flags f) P_LARGE); cbn [negb].
  - destruct (fp_mp f); [by eexists|by destruct (Hl eq_refl)].
  - destruct (fp_mp f); by eexists.
Qed.

Lemma status_by_header_spec t D R T pgno n p pageflags : retire_inv t D R T -> span_used t R T pgno n -> held_at t D pgno n p ->
  n = page_count t pageflags p ->
  exists f t1 D1, status_by_header cm t pgno p pageflags = Some (f, t1) /\ determined t t1 D D1 R T f pgno n /\ 
    (h_txnid (pt_hdr t p) < pt_txnid t <-> fp_status f = frozen) /\ (pt_r t1 = pt_r t \/ fp_status f = modifiable).
Proof using Type.
  intros H Hu [Ha Hd Hfr] Hn. pose proof (span_below _ _ _ _ _ _ H Hu) as Hlim.
  assert (0 < pgno < P_INVALID /\ pgno <= MAX_PAGENO) as [Hpg Hpm].
  { destruct Hu as (A & B & _). unfold MIN_PAGENO, MAX_PAGENO, P_INVALID, UINT32_MAX in *. lia. }
  assert (same_room t t D D) as Hrt by done.
  (* a page that is not dirty *)
  assert (h_txnid (pt_hdr t p) <> front_txnid t -> forall st si, st <> modifiable ->
    (si <> 0 -> st = spilled_out /\ exists s l, rt_spilled (pt_r t) = Some s /\ spill_rep s l /\ zget l (si - 1) = Some (2 * pgno)) ->
    determined t t D D R T (mk_found_page st 0 si (Some p) pageflags) pgno n) as Hclean.
  { intros Hne st si Hst Hsi. split; try done; [|by apply count_out_spec]. split; try done. intros x Hx Hin. exfalso.
    pose proof (Ha x Hx Hin) as ->. apply Hne, Hd; [|done].
    pose proof (ro_dirty _ _ _ _ (ri_refund _ _ _ _ H)) as Hdo. unfold dirty_ok in Hdo. unfold pt_dirty.
    destruct (dirtylist _); [done|]. subst D. by apply elem_of_nil in Hx. }
  unfold status_by_header, is_frozen, is_modifiable_page, is_shadowed_page.
  destruct (Z.ltb_spec (h_txnid (pt_hdr t p)) (pt_txnid t)) as [Hlt|Hge].
  { eexists _, t, D. split; [done|]. split; [apply Hclean; [lia|done|done]|]. cbn. split; [done|by left]. }
  destruct (Z.eqb_spec (h_txnid (pt_hdr t p)) (front_txnid t)) as [Ef|Ef].
  - destruct (pt_dirty t) as [dl|] eqn:Edl.
    + destruct (entry_found t D R T dl pgno n p H Edl Hpg) as (di & dl' & D2 & -> & Hdi & H2 & HP & _ & a & b & ED & Ea); [by apply Hd|].
      cbn [mbind option_bind]. eexists _, _, D2. split; [done|]. split; [|split; [split; [lia|done]|by right]]. split; try done.
      * unfold same_room. rewrite Edl. cbn. split; [done|]. intros _. by rewrite HP.
      * split; try done; cbn [fp_status fp_mp fp_di fp_si].
        -- intros x Hx Hin. rewrite HP in Hx. by rewrite (Ha x Hx Hin).
        -- intros _. exists p. split; [done|]. exists a, b. done.
      * by apply count_out_spec.
    + eexists _, t, D. split; [done|]. split; [|split; [split; [lia|done]|by left]]. split; try done; [|by apply count_out_spec].
      split; try done; cbn [fp_status fp_mp fp_di fp_si].
      * intros x Hx Hin. by rewrite (Ha x Hx Hin).
      * intros _. exists p. split; [done|]. unfold entry_at. by rewrite Edl.
  - destruct (Z.ltb_spec (pt_txnid t) (h_txnid (pt_hdr t p))).
    + eexists _, t, D. split; [done|]. split; [by apply Hclean|]. cbn. split; [split; [lia|done]|by left].
    + destruct (spill_found t D R T pgno H ltac:(lia)) as (si & -> & Hsi & _). cbn [mbind option_bind].
      eexists _, t, D. split; [done|]. split; [apply Hclean; [done|done|intros Hn0; split; [done|by apply Hsi]]|]. cbn. split; [split; [lia|done]|by left].
Qed.

(** A page that neither this transaction nor an outer one has in its lists. *)
Definition in_no_list (t : ptxn) (D : list dp) (pgno : Z) : Prop :=
(forall x, x ∈ D -> dp_pgno x <> pgno) /\ not_spilled_in (rt_spilled (pt_r t)) pgno /\ Forall (not_in_ancestor pgno) (ancestors t).

Lemma status_by_lists_spec t D R T pgno dl pageflags : retire_inv t D R T -> span_used t R T pgno 1 -> pt_dirty t = Some dl ->
  has pageflags P_LARGE = false -> (forall x, x ∈ D -> dp_pgno x = pgno -> dp_npages x = 1) ->
  exists f t1 D1, status_by_lists cm t pgno pageflags dl = Some (f, t1) /\ determined t t1 D D1 R T f pgno 1 /\
    (in_no_list t D pgno -> fp_status f = frozen /\ exists dl', pt_r t1 = pt_r (set_dpl t dl')).
Proof using Type.
  intros H Hu Ed Hl H1. pose proof (span_below _ _ _ _ _ _ H Hu) as Hlim.
  assert (0 < pgno < P_INVALID /\ pgno <= MAX_PAGENO) as [Hpg Hpm].
  { destruct Hu as (A & B & _). unfold MIN_PAGENO, MAX_PAGENO, P_INVALID, UINT32_MAX in *. lia. }
  assert (forall q, in_span pgno 1 q -> q = pgno) as Hspan by (unfold in_span; intros; lia).
  assert (forall dl2 D2, D2 ≡ₚ D -> same_room t (set_dpl t dl2) D D2) as Hroom.
  { intros dl2 D2 HP. unfold same_room. rewrite Ed. cbn. split; [done|]. intros _. by rewrite HP. }
  unfold status_by_lists. destruct (decide (Exists (fun x => dp_pgno x = pgno) D)) as [Hex|Hno].
  - apply Exists_exists in Hex as ([p q m] & Hx & Ex). cbn in Ex. subst q. pose proof (H1 _ Hx eq_refl) as Em. cbn in Em. subst m.
    destruct (entry_found t D R T dl pgno 1 p H Ed Hpg Hx) as (di & dl' & D2 & -> & Hdi & H2 & HP & Hg & a & b & ED & Ea).
    cbn [mbind option_bind]. destruct (Z.eqb_spec di 0) as [->|_]; [done|]. cbn [negb]. rewrite Hg. cbn [mbind option_bind].
    eexists _, _, D2. split; [done|]. split; [|intros [Hno _]; by destruct (Hno _ Hx)]. split; try done; [by apply Hroom| |].
    + split; try done; cbn [fp_status fp_mp fp_di fp_si].
      * intros x _ Hin. split; [by apply Hspan|done].
      * intros _. exists p. split; [done|]. exists a, b. done.
    + apply count_out_spec; cbn [fp_mp fp_flags]; [|by rewrite Hl]. unfold page_count. by rewrite Hl.
  - rewrite <-Forall_Exists_neg in Hno. rewrite Forall_forall in Hno.
    destruct (entry_missing t D R T dl pgno H Ed Hpg Hno) as (dl' & D2 & -> & H2 & HP). cbn [mbind option_bind]. cbn [Z.eqb negb].
    assert (forall st si, st <> modifiable ->
      (si <> 0 -> st = spilled_out /\ exists s l, rt_spilled (pt_r (set_dpl t dl')) = Some s /\ spill_rep s l /\ zget l (si - 1) = Some (2 * pgno)) ->
      determined t (set_dpl t dl') D D2 R T (mk_found_page st 0 si None pageflags) pgno 1) as Hclean.
    { intros st si Hst Hsi. split; try done; [by apply Hroom| |apply count_out_spec; cbn [fp_mp fp_flags]; [done|by rewrite Hl]].
      split; try done. intros x Hx Hin. rewrite HP in Hx. by destruct (Hno x Hx (Hspan _ Hin)). }
    destruct (spill_found _ D2 R T pgno H2 ltac:(lia)) as (si & -> & Hsi & Hsn). cbn [mbind option_bind]. destruct (Z.eqb_spec si 0) as [->|Hn0]; cbn [negb].
    + destruct (status_in_ancestors_spec pgno (ancestors (set_dpl t dl'))) as (st & -> & Hst & Hfz); [apply (ri_ancestors _ _ _ _ H2)|lia|].
      cbn [mbind option_bind]. rewrite set_ancestors_same. eexists _, _, D2. split; [done|]. split; [by apply Hclean|].
      intros (_ & _ & Hno2). split; [by apply Hfz|by exists dl'].
    + eexists _, _, D2. split; [done|]. split; [apply Hclean; [done|]; intros _; split; [done|by apply Hsi]|].
      intros (_ & Hno2 & _). by destruct (Hn0 (Hsn Hno2)).
Qed.

(** The page is the one the caller means: what it gives of it, or what the read
    gives, is true of page [pgno] with its [n] pages. *)
Definition retirable (page_get_any : Z -> option (rc * option Z)) (t : ptxn) (D : list dp) (pgno n : Z) (mp : option Z) (pageflags : Z) : Prop :=
match mp with
| Some p => held_at t D pgno n p /\ n = page_count t pageflags p
| None =>
  if has pageflags P_FROZEN then n = 1 /\ has pageflags P_LARGE = false /\ forall x, x ∈ D -> dp_pgno x <> pgno
  else if bool_decide (pt_dirty t <> None) && negb (pageflags =? 0) then
    n = 1 /\ has pageflags P_LARGE = false /\ forall x, x ∈ D -> dp_pgno x = pgno -> dp_npages x = 1
  else exists err r, page_get_any pgno = Some (err, r) /\
    (err = MDBX_SUCCESS -> exists p, r = Some p /\ held_at t D pgno n p /\ n = page_count t (flags_of t p) p)
end.

(** The page is one of an earlier transaction, which readers may see: by the
    header the caller has or that is read, by the flag of the caller, or because
    it is in none of the lists when these are asked. *)
Definition of_the_past (page_get_any : Z -> option (rc * option Z)) (t : ptxn) (D : list dp) (pgno : Z) (mp : option Z) (pageflags : Z) : Prop :=
match mp with
| Some p => h_txnid (pt_hdr t p) < pt_txnid t
| None =>
  if has pageflags P_FROZEN then True
  else if bool_decide (pt_dirty t <> None) && negb (pageflags =? 0) then in_no_list t D pgno
  else exists p, page_get_any pgno = Some (MDBX_SUCCESS, Some p) /\ h_txnid (pt_hdr t p) < pt_txnid t
end.

(** All lists are as before, the dirty-page list perhaps in another order. *)
Definition lists_same (t t' : ptxn) (D D' : list dp) : Prop :=
D' ≡ₚ D /\ (pt_r t' = pt_r t \/ exists dl, pt_r t' = pt_r (set_dpl t dl)).

Lemma page_state_spec page_get_any t D R T pgno n mp pageflags : retire_inv t D R T -> span_used t R T pgno n ->
  retirable page_get_any t D pgno n mp pageflags ->
  exists err f t1, page_state cm page_get_any t pgno mp pageflags = Some (err, f, t1) /\
  match f with
  | None => err <> MDBX_SUCCESS /\ t1 = t /\ mp = None /\ exists r, page_get_any pgno = Some (err, r)
  | Some f => err = MDBX_SUCCESS /\ exists D1, determined t t1 D D1 R T f pgno n /\
      (of_the_past page_get_any t D pgno mp pageflags -> fp_status f = frozen /\ lists_same t t1 D D1)
  end.
Proof using Type.
  intros H Hu Hr. unfold page_state.
  assert (forall p pageflags, held_at t D pgno n p -> n = page_count t pageflags p ->
    exists f t1 D1, status_by_header cm t pgno p pageflags = Some (f, t1) /\ determined t t1 D D1 R T f pgno n /\
      (h_txnid (pt_hdr t p) < pt_txnid t -> fp_status f = frozen /\ lists_same t t1 D D1)) as Hheader.
  { intros p fl Hh Hn. destruct (status_by_header_spec t D R T pgno n p fl H Hu Hh Hn) as (f & t1 & D1 & E & Hd & Hfz & Hsame).
    exists f, t1, D1. split; [done|]. split; [done|]. intros Hpast. apply Hfz in Hpast. split; [done|]. split; [apply Hd|left].
    destruct Hsame as [?|E2]; [done|]. by rewrite Hpast in E2. }
  destruct mp as [p|]; cbn [retirable of_the_past] in *.
  - destruct Hr as [Hh Hn]. destruct (Hheader p pageflags Hh Hn) as (f & t1 & D1 & -> & Hd & Hpast).
    eexists _, (Some f), t1. split; [done|]. split; [done|]. by exists D1.
  - destruct (has pageflags P_FROZEN) eqn:Efz.
    + destruct Hr as (-> & Hl & Hno). eexists _, (Some _), t. split; [done|]. split; [done|]. exists D.
      split; [|intros _; split; [done|]; split; [done|by left]].
      split; try done; [|apply count_out_spec; cbn [fp_mp fp_flags]; [done|by rewrite Hl]].
      split; try done. intros x Hx Hin. destruct (Hno x Hx). unfold in_span in Hin. lia.
    + destruct (pt_dirty t) as [dl|] eqn:Ed; [destruct (negb (pageflags =? 0)) eqn:Ef|].
      1: { cbn in Hr. destruct Hr as (-> & Hl & H1).
        destruct (status_by_lists_spec t D R T pgno dl pageflags H Hu Ed Hl H1) as (f & t1 & D1 & -> & Hd & Hpast).
        eexists _, (Some f), t1. split; [done|]. split; [done|]. exists D1. split; [done|]. cbn. intros Hno.
        destruct (Hpast Hno) as [? ?]. split; [done|]. split; [apply Hd|by right]. }
      all: rewrite ?andb_false_r in *; cbn [bool_decide andb] in *; rewrite ?bool_decide_eq_false_2 in * by (intros X; by destruct X).
      all: cbn [andb] in *; destruct Hr as (err & r & E & Hok); rewrite E; cbn [mbind option_bind].
      all: destruct (decide (err = MDBX_SUCCESS)) as [->|Herr];
        [destruct (Hok eq_refl) as (p & -> & Hh & Hn); clear Hok;
         destruct (Hheader p _ Hh Hn) as (f & t1 & D1 & -> & Hd & Hpast);
         eexists _, (Some f), t1; split; [done|]; split; [done|]; exists D1; split; [done|];
         intros (p' & [= <-] & Hlt); by apply Hpast
        |exists err, None, t; split; [by destruct err|]; repeat split; try done; by exists r].
Qed.

Lemma page_retire_ex_spec page_get_any t D R T pgno n mp pageflags : retire_inv t D R T -> span_used t R T pgno n ->
  retirable page_get_any t D pgno n mp pageflags ->
  exists err t', page_retire_ex al cm stack dp_loose_limit perturb stub_write page_get_any t pgno mp pageflags = Some (err, t') /\
  ((err <> MDBX_SUCCESS /\ t' = t /\ mp = None /\ exists r, page_get_any pgno = Some (err, r)) \/
   exists D' R' T', released t t' D D' R R' T T' pgno n err /\
     (of_the_past page_get_any t D pgno mp pageflags ->
      lists_same t t' D D' /\ R' = R /\ (err = MDBX_SUCCESS -> T' = T ++ desc_run (Z.to_nat n) 1 pgno))).
Proof using All.
  intros H Hu Hr. unfold page_retire_ex.
  destruct (page_state_spec page_get_any t D R T pgno n mp pageflags H Hu Hr) as (err & f & t1 & -> & Hf). cbn [mbind option_bind].
  destruct f as [f|]; [|exists err, t1; split; [done|]; left; destruct Hf as (A & -> & B & C); done].
  destruct Hf as (-> & D1 & [Hi HP Hfree Hroom Hpg [t0 Hc]] & Hpast).
  destruct (release_spec t1 D1 R T f pgno n t0 Hi Hpg Hc) as (err & t' & D' & R' & T' & -> & Hrel & Hfz).
  exists err, t'. split; [done|]. right. exists D', R', T'. split; [by eapply released_from|].
  intros Hp. destruct (Hpast Hp) as (Es & HP1 & Er). destruct (Hfz Es) as (A & -> & B & C). unfold lists_same. by rewrite A.
Qed.

(** ** A new dirty page *)

Definition without_loose (t : ptxn) (dl : dpl) (rest : list loose) (env : shadow) : ptxn :=
let r := pt_r t in
set_r t (mk_rtxn (with_shadow (with_room (with_dirtylist (rt_dirty r) dl) (u64 (dirtyroom (rt_dirty r) + 1))) env)
  (first_unallocated r) (repnl r) rest (u64 (loose_count r - 1)) (loose_refund_wl r) (rt_spilled r)).

Lemma search_loose t D R T dl lp : retire_inv t D R T -> pt_dirty t = Some dl -> lp ∈ loose_pages (pt_r t) ->
  exists di dl1 a b, txn_dpl_search cm dl (lp_pgno lp) = Some (di, dl1) /\ a ++ loose_entry lp :: b ≡ₚ D /\
    retire_inv (set_dpl t dl1) (a ++ loose_entry lp :: b) R T /\ di = zlen a + 1.
Proof using Type.
  intros H Ed Hl. pose proof (ri_refund _ _ _ _ H) as Hro. pose proof (ro_range _ _ _ _ Hro lp Hl) as Hrg. pose proof (ro_fu _ _ _ _ Hro) as Hfu.
  pose proof (ro_dirty _ _ _ _ Hro) as Hdo. unfold dirty_ok in Hdo. unfold pt_dirty in Ed. rewrite Ed in Hdo. destruct Hdo as (Hok & _ & _ & _ & Hle & _).
  destruct (entry_found t D R T dl (lp_pgno lp) 1 (lp_ptr lp) H Ed) as (di & dl1 & D2 & E & Hdi & H2 & HP & _ & a & b & -> & Hz);
    [unfold MIN_PAGENO, P_INVALID, MAX_PAGENO, UINT32_MAX in *; lia|by apply Hle|].
  exists di, dl1, a, b. split; [|done]. unfold txn_dpl_exist in E.
  destruct (txn_dpl_search cm dl (lp_pgno lp)) as [[i dl0]|]; [|done]. cbn [mbind option_bind] in E.
  destruct (zget (dl_items dl0) i) as [y|]; [|done]. cbn [mbind option_bind] in E. destruct (dp_pgno y =? lp_pgno lp); by simplify_eq.
Qed.

Lemma without_loose_inv t R T lp rest a b dl dl2 env : retire_inv t (a ++ loose_entry lp :: b) R T -> pt_dirty t = Some dl ->
  loose_pages (pt_r t) = lp :: rest -> dpl_ok dl2 (a ++ b) ->
  retire_inv (without_loose t dl2 rest env) (a ++ b) R T /\ same_room t (without_loose t dl2 rest env) (a ++ loose_entry lp :: b) (a ++ b) /\
  span_used (without_loose t dl2 rest env) R T (lp_pgno lp) 1 /\ (forall x, x ∈ a ++ b -> dp_pgno x <> lp_pgno lp).
Proof using All.
  intros H Ed El Hok2. pose proof H as [[F1 F2 F3 F4 F5 F6 F7 F8 F9 F10] H2 H3 H4 H5 H6 H7].
  unfold dirty_ok in F2. unfold pt_dirty in Ed. rewrite Ed in F2. destruct F2 as (D1 & D2 & D3 & D4 & D5 & D6 & D7).
  assert (lp ∈ loose_pages (pt_r t)) as Hl by (rewrite El; left). pose proof (F4 lp Hl) as Hrg.
  assert (zlen (a ++ loose_entry lp :: b) = zlen (a ++ b) + 1) as Hz by zlia. pose proof (zlen_nonneg (a ++ b)) as Hz0.
  assert (u64 (dirtyroom (rt_dirty (pt_r t)) + 1) = dirtyroom (rt_dirty (pt_r t)) + 1) as Hroom by (apply u64_small; lia).
  pose proof (dok_nodup _ _ D1) as Hnp. rewrite fmap_app, fmap_cons in Hnp. rewrite <- Permutation_middle in Hnp. apply NoDup_cons in Hnp as [Hnp _].
  rewrite fmap_app, fmap_cons, <- Permutation_middle in H5. apply NoDup_cons in H5 as [Hpt H5]. rewrite <- fmap_app in *.
  assert (forall x, x ∈ a ++ b -> x ∈ a ++ loose_entry lp :: b) as Hsub by (intros x; rewrite !elem_of_app, elem_of_cons; tauto).
  assert (forall x, x ∈ a ++ b -> dp_pgno x <> lp_pgno lp) as Hne.
  { intros x Hx E. apply Hnp. cbn. rewrite <- E. by apply (list_elem_of_fmap_2 dp_pgno). }
  rewrite El in *. cbn [fmap list_fmap] in F3. apply NoDup_cons in F3 as [F3a F3b].
  assert (forall lp', lp' ∈ rest -> lp' ∈ lp :: rest) as Hr by (intros; by right).
  assert (forall lp', lp' ∈ rest -> lp_pgno lp' <> lp_pgno lp) as Hrn.
  { intros lp' Hlp' E. apply F3a. rewrite <- E. by apply (list_elem_of_fmap_2 lp_pgno). }
  unfold loose_pgnos in H3. rewrite El in H3. cbn [fmap list_fmap] in H3. rewrite app_assoc, <- Permutation_middle in H3.
  apply NoDup_cons in H3 as [H3a H3]. rewrite <- app_assoc in H3. change (list_fmap loose Z lp_pgno rest) with (lp_pgno <$> rest) in *.
  split; [|split; [|split; [|done]]].
  - assert (refund_ok (flags_of t) (pt_r (without_loose t dl2 rest env)) (a ++ b) R) as Hro; [|split; try done; intros _; apply H6; unfold pt_dirty; by rewrite Ed].
    split; try done; cbn [without_loose set_r pt_r rt_dirty first_unallocated repnl loose_pages loose_count rt_spilled].
    + unfold dirty_ok. cbn [without_loose set_r pt_r rt_dirty with_shadow with_room with_dirtylist dirtylist dirtyroom first_unallocated loose_pages].
      rewrite Hroom. split; [done|]. split; [lia|]. split; [lia|]. split; [|split; [|split]].
      * intros x Hx. by apply D4, Hsub.
      * intros lp' Hl'. pose proof (D5 lp' (Hr _ Hl')) as Hx. rewrite elem_of_app in Hx |- *. rewrite elem_of_cons in Hx.
        destruct Hx as [?|[E|?]]; [tauto| |tauto]. exfalso. apply (Hrn lp' Hl'). by injection E.
      * intros x Hx Hf. destruct (D6 x (Hsub _ Hx) Hf) as (lp' & Hlp' & ->). apply elem_of_cons in Hlp' as [->|?]; [|by exists lp'].
        by destruct (Hne _ Hx).
      * intros lp' Hl'. by apply D7, Hr.
    + intros lp' Hl'. by apply F4, Hr.
    + rewrite F5, u64_small; [zlia|]. pose proof (zlen_nonneg rest).
      assert (zlen (lp :: rest) <= first_unallocated (pt_r t)); [|unfold MAX_PAGENO, UINT64_MAX in *; zlia].
      pose proof (range_count (lp_pgno <$> lp :: rest) 0 (first_unallocated (pt_r t))) as Hc. rewrite zlen_fmap in Hc.
      apply Z.le_trans with (first_unallocated (pt_r t) - 0); [|lia]. apply Hc; [cbn; by apply NoDup_cons| |unfold MIN_PAGENO in *; lia].
      intros q Hq. apply list_elem_of_fmap in Hq as (lp' & -> & Hlp'). specialize (F4 lp' Hlp'). unfold MIN_PAGENO in *. lia.
    + intros q Hq. destruct (F9 q Hq) as [A B]. split; [intros lp' Hl'; by apply A, Hr|intros x Hx; by apply B, Hsub].
  - unfold same_room, pt_dirty, without_loose. cbn [set_r pt_r rt_dirty with_shadow with_room with_dirtylist dirtylist dirtyroom]. rewrite Ed, Hroom. split; [done|]. lia.
  - split; [by vm_compute|]. split; [lia|]. intros q Hq Hfree. assert (q = lp_pgno lp) as -> by (unfold in_span in Hq; lia).
    unfold free_page, loose_pgnos, without_loose in Hfree. cbn [set_r pt_r loose_pages first_unallocated] in Hfree. 
    rewrite !elem_of_app in H3a. destruct Hfree as [?|[?|[?|?]]]; [tauto|tauto|tauto|lia].
Qed.

Lemma fewer_dirty t D D' R T : retire_inv t D' R T -> (forall x, x ∈ D' -> x ∈ D) -> zlen D' <= zlen D.
Proof using Type.
  intros H Hs. unfold zlen. apply inj_le, submseteq_length, NoDup_submseteq; [|done]. eapply NoDup_fmap_1, H.
Qed.

Lemma give_up_loose_spec t D R T dl lp rest : retire_inv t D R T -> pt_dirty t = Some dl -> loose_pages (pt_r t) = lp :: rest ->
  exists err t' D' R', give_up_loose al cm stack t dl lp rest = Some (err, t') /\ retire_inv t' D' R' T /\ not_freed t t' R R' T T /\
    same_room t t' D D' /\ (forall x, x ∈ D' -> x ∈ D) /\
    (forall x, x ∈ D -> x ∈ D' \/ x = loose_entry lp \/ first_unallocated (pt_r t') <= dp_pgno x) /\ 
    pt_hdr t' = pt_hdr t /\ front_txnid t' = front_txnid t /\
    (err = MDBX_SUCCESS /\ zlen D' < zlen D \/ err <> MDBX_SUCCESS /\ list_full err (zlen R + 1)).
Proof using All.
  intros H Ed El. unfold give_up_loose.
  destruct (insert_span_spec (repnl (pt_r t)) R (lp_pgno lp) 1 (ro_repnl _ _ _ _ (ri_refund _ _ _ _ H))) as (err & p & hi & lo & -> & ER & Hlo & Hhi & Hc);
    [by vm_compute|]. cbn [mbind option_bind].
  destruct Hc as [[-> Hp]|(Herr & Hfull & Hp)].
  2:{ rewrite bool_decide_false by done. cbn [negb]. eexists err, _, D, R. split; [done|].
    split; [apply (repnl_inv t D R); try done; [apply H|tauto]|]. split_and!; try done; try tauto. }
  rewrite bool_decide_true by done. cbn [negb].
  destruct (search_loose t D R T dl lp H Ed) as (di & dl1 & a & b & -> & HP & H2 & ->); [rewrite El; left|]. cbn [mbind option_bind].
  assert (dpl_ok dl1 (a ++ loose_entry lp :: b)) as Hok1.
  { pose proof (ro_dirty _ _ _ _ (ri_refund _ _ _ _ H2)) as Hdo. by apply Hdo. }
  destruct (txn_dpl_remove_spec dl1 _ a (loose_entry lp) b Hok1 eq_refl) as (dl2 & _ & Hok2 & ->). cbn [mbind option_bind].
  set (env := page_shadow_release _ _ _).
  destruct (without_loose_inv (set_dpl t dl1) R T lp rest a b dl1 dl2 env H2 eq_refl El Hok2) as (H3 & Hroom & Hu & Hne).
  destruct (inserted_span _ _ R T (lp_pgno lp) 1 hi lo H3 Hu ER Hlo Hhi) as [Hd Hin].
  set (t3 := set_r _ (mk_rtxn _ _ _ rest _ _ _)). 
  assert (retire_inv t3 (a ++ b) (hi ++ desc_run (Z.to_nat 1) 1 (lp_pgno lp) ++ lo) T) as H4.
  { apply (repnl_inv (without_loose (set_dpl t dl1) dl2 rest env) (a ++ b) R); try done. intros q Hq. apply Hin in Hq as [Hq|Hq]; [by left|right].
    pose proof (span_below _ _ _ _ _ _ H3 Hu) as Hlim. destruct Hu as (_ & Hmin & Hs). split; [unfold in_span in Hq; lia|]. split; [by apply Hs|].
    intros x Hx E2. apply (Hne x Hx). unfold in_span in Hq. lia. }
  assert (not_freed t t3 R (hi ++ desc_run (Z.to_nat 1) 1 (lp_pgno lp) ++ lo) T T) as Hf3.
  { intros q. unfold free_page. rewrite Hin. unfold loose_pgnos, t3. cbn [set_r pt_r loose_pages first_unallocated]. rewrite El. cbn [fmap list_fmap].
    rewrite elem_of_cons. unfold in_span. assert (lp_pgno lp <= q < lp_pgno lp + 1 <-> q = lp_pgno lp) as -> by lia. tauto. }
  assert (same_room t t3 D (a ++ b)) as Hr3.
  { destruct Hroom as [A B]. unfold same_room. rewrite Ed. cbn. split; [done|]. intros _. rewrite <- HP. by apply B. }
  assert (zlen D = zlen (a ++ b) + 1) as Hz by (rewrite <- HP; zlia).
  assert (forall x, x ∈ D <-> x ∈ a ++ b \/ x = loose_entry lp) as HD3.
  { intros x. rewrite <- HP, !elem_of_app, elem_of_cons. tauto. }
  rewrite (pnl_rep_size _ _ Hp). cbn [mbind option_bind]. destruct (_ =? 0).
  { eexists _, t3, (a ++ b), _. split; [done|]. split; [exact H4|]. split_and!; try done; [intros x Hx; apply HD3; tauto| |left; split; [done|lia]].
    intros x Hx. apply HD3 in Hx. tauto. }
  destruct (pnl_rep_first _ _ Hp) as [most ->].
  cbn [mbind option_bind].
  destruct (refund_if (most =? u32 (first_unallocated (pt_r t3) - 1)) t3 _ _ T H4) as (r & D' & R' & -> & Hi & Hn & HDl & Hr & Hfu).
  cbn [mbind option_bind]. eexists _, _, D', R'. split; [done|]. split; [exact Hi|].
  assert (forall x, x ∈ D' -> x ∈ a ++ b) as Hs by (intros x Hx; by apply HDl).
  split; [intros q; rewrite (Hn q); apply Hf3|]. split; [by eapply same_room_trans|]. split; [intros x Hx; apply HD3; left; by apply Hs|].
  split; [|split; [done|split; [done|left; split; [done|]]]].
  - intros x Hx. apply HD3 in Hx as [Hx|Hx]; [|tauto]. destruct (decide (dp_pgno x < first_unallocated r)); [left; by apply HDl|right; right; cbn; lia].
  - pose proof (fewer_dirty _ _ _ _ _ Hi Hs). lia.
Qed.

Lemma append_frame dal d pgno mp n err d' : txn_dpl_append cm dal d pgno mp n = Some (err, d') ->
  dirtyroom d' = dirtyroom d /\ writemap d' = writemap d.
Proof using Type.
  unfold txn_dpl_append. cbn zeta. set (d1 := if negb (writemap d) then _ else d).
  assert (dirtyroom d1 = dirtyroom d /\ writemap d1 = writemap d) as [E1 E2] by (subst d1; by destruct (negb (writemap d))).
  destruct (dirtylist d1) as [dl|]; [|done]. cbn [mbind option_bind]. destruct (_ && _); [by intros [= _ <-]|].
  destruct (if _ =? _ then _ else _) as [dl1|]; [|by intros [= _ <-]]. destruct (append_place _ _ _ _) as [dl2|]; [|done].
  by intros [= _ <-].
Qed.

(** The page is new: in use, without an entry, at an address of its own. *)
Record new_page (t : ptxn) (D : list dp) (R T : list Z) (mp pgno n : Z) : Prop := {
  np_used : span_used t R T pgno n;
  np_entry : forall x, x ∈ D -> ~ in_span pgno n (dp_pgno x);
  np_ptr : mp ∉ dp_ptr <$> D;
  np_flags : h_flags (pt_hdr t mp) <> P_LOOSE;
}.

Lemma new_page_after t t' D D' R R' T mp pgno n : new_page t D R T mp pgno n -> not_freed t t' R R' T T -> (forall x, x ∈ D' -> x ∈ D) ->
  pt_hdr t' = pt_hdr t -> new_page t' D' R' T mp pgno n.
Proof using Type.
  intros [(A & B & C) N2 N3 N4] Hf Hs Hh. split; [|by intros x Hx; apply N2, Hs| |by rewrite Hh].
  - split; [done|]. split; [done|]. intros q Hq. rewrite (Hf q). by apply C.
  - intros Hm. apply N3. apply list_elem_of_fmap in Hm as (x & -> & Hx). by apply list_elem_of_fmap_2, Hs.
Qed.

Lemma with_dtxn_inv t D D' R T d dl : retire_inv t D R T -> dirtylist d = Some dl -> dpl_ok dl D' -> writemap d = false ->
  0 <= dirtyroom d -> dirtyroom d + zlen D' <= UINT64_MAX ->
  (forall x, x ∈ D' -> x ∈ D \/ (dp_pgno x < first_unallocated (pt_r t) /\ flags_of t (dp_ptr x) <> P_LOOSE /\ dp_pgno x ∉ R)) ->
  (forall x, x ∈ D -> x ∈ D') -> pt_dirty t <> None -> NoDup (dp_ptr <$> D') ->
  retire_inv (set_r t (with_dirty (pt_r t) d (loose_count (pt_r t)))) D' R T.
Proof using Type.
  intros [[F1 F2 F3 F4 F5 F6 F7 F8 F9 F10] H2 H3 H4 H5 H6 H7] Ed Hok Hw Hr1 Hr2 Hnew Hold Hd Hnd.
  unfold dirty_ok in F2. unfold pt_dirty in Hd. destruct (dirtylist (rt_dirty (pt_r t))) as [dl0|]; [|done]. destruct F2 as (D1 & D2 & D3 & D4 & D5 & D6 & D7).
  split; try done. split; try done.
  - unfold dirty_ok. cbn [set_r pt_r with_dirty rt_dirty first_unallocated loose_pages]. rewrite Ed. split_and!; try done.
    + intros x Hx. destruct (Hnew x Hx) as [?|(? & _)]; [by apply D4|done].
    + intros lp Hl. by apply Hold, D5.
    + intros x Hx Hf. destruct (Hnew x Hx) as [?|(_ & Hn & _)]; [by apply D6|]. by destruct Hn.
  - intros q Hq. split; [by apply F9|]. intros x Hx. destruct (Hnew x Hx) as [?|(_ & _ & Hn)]; [by apply F9|]. intros <-. done.
Qed.

Context (dal : dp_allocator) `{!DpAllocOk dal}.

Definition append_tail (t : ptxn) (mp pgno npages : Z) : option (rc * ptxn) :=
let r := pt_r t in
'(err, d) ← txn_dpl_append cm dal (rt_dirty r) pgno mp npages;
let t := set_r t (with_dirty r d (loose_count r)) in
if negb (bool_decide (err = MDBX_SUCCESS)) then Some (err, set_error t)
else Some (MDBX_SUCCESS, set_r t (with_dirty (pt_r t) (with_room d (u64 (dirtyroom d - 1))) (loose_count r))).

Lemma append_tail_spec t D R T dl mp pgno n : retire_inv t D R T -> new_page t D R T mp pgno n -> pt_dirty t = Some dl -> 0 < dirtyroom (rt_dirty (pt_r t)) ->
  exists err t' D', append_tail t mp pgno n = Some (err, t') /\ retire_inv t' D' R T /\ not_freed t t' R R T T /\ same_room t t' D D' /\
    pt_hdr t' = pt_hdr t /\ first_unallocated (pt_r t') = first_unallocated (pt_r t) /\
    (err = MDBX_SUCCESS /\ D' ≡ₚ mk_dp mp pgno n :: D \/
     (err = MDBX_ENOMEM /\ dp_alloc_fails dal \/ err = MDBX_TXN_FULL /\ PAGELIST_LIMIT <= zlen D) /\ D' = D).
Proof using All.
  intros H [Hu Hn Hp Hf] Ed Hroom. pose proof (span_below _ _ _ _ _ _ H Hu) as Hlim. pose proof H as [Hro _ _ _ H5 H6 _].
  pose proof (ro_dirty _ _ _ _ Hro) as Hdo. unfold dirty_ok in Hdo. unfold pt_dirty in *. rewrite Ed in Hdo. destruct Hdo as (Hok & D2 & D3 & D4 & _).
  destruct Hu as (A & B & C).
  assert (0 < pgno < P_INVALID) as Hpg by (unfold MIN_PAGENO, P_INVALID, MAX_PAGENO, UINT32_MAX in *; lia).
  assert (in_span pgno n pgno) as Hin by (unfold in_span; lia).
  destruct (txn_dpl_append_spec cm dal (rt_dirty (pt_r t)) dl D pgno mp n Ed Hok Hpg) as (err & d & E & _ & Hc);
    [intros y Hy Ey; apply (Hn y Hy); by rewrite Ey|unfold PAGELIST_LIMIT in *; lia|].
  unfold append_tail. rewrite E. cbn [mbind option_bind]. destruct (append_frame _ _ _ _ _ _ _ E) as [Er Ew].
  specialize (H6 ltac:(by rewrite Ed)).
  destruct Hc as [(-> & dl' & D' & Ed' & Hok' & HP)|[He Ed']].
  - rewrite bool_decide_true by done. cbn [negb]. eexists _, _, D'. split; [done|].
    assert (zlen D' = zlen D + 1) as Hz by (rewrite HP; zlia). pose proof (zlen_nonneg D) as Hz0.
    assert (u64 (dirtyroom d - 1) = dirtyroom d - 1) as Eu by (apply u64_small; lia).
    split; [|split; [done|split; [|split; [done|split; [done|by left]]]]].
    + apply (with_dtxn_inv t D D' R T (with_room d (u64 (dirtyroom d - 1))) dl'); try done; cbn [with_room writemap dirtyroom].
      * by rewrite Ew.
      * lia.
      * lia.
      * intros x Hx. rewrite HP in Hx. apply elem_of_cons in Hx as [->|Hx]; [right|by left]. cbn. split; [lia|]. split; [done|].
        intros Hr. apply (C pgno Hin). unfold free_page. tauto.
      * intros x Hx. rewrite HP. by right.
      * unfold pt_dirty. by rewrite Ed.
      * rewrite HP. cbn. by apply NoDup_cons.
    + unfold same_room, pt_dirty. cbn [set_r pt_r with_dirty rt_dirty with_room dirtylist dirtyroom]. rewrite Ed, Ed', Eu. split; [done|]. lia.
  - rewrite bool_decide_false by (by destruct He as [[-> _]|[-> _]]). cbn [negb]. eexists err, _, D. split; [done|].
    split; [|split; [done|split; [|split; [done|split; [done|by right]]]]].
    + apply set_error_inv. apply (with_dtxn_inv t D D R T d dl); try done; rewrite ?Er, ?Ew; try done; [by left|unfold pt_dirty; by rewrite Ed].
    + unfold same_room, pt_dirty. cbn [set_error set_r pt_r with_dirty rt_dirty]. rewrite Ed, Ed', Er. done.
Qed.

Definition dirty_error (t : ptxn) (D : list dp) (R : list Z) (err : rc) : Prop :=
err = MDBX_ENOMEM /\ (alloc_fails al \/ dp_alloc_fails dal) \/
err = MDBX_TXN_FULL /\ (dirtyroom (rt_dirty (pt_r t)) = 0 /\ loose_pages (pt_r t) = [] \/ PAGELIST_LIMIT <= zlen R \/ PAGELIST_LIMIT <= zlen D).

Record dirtied (t t' : ptxn) (D D' : list dp) (R R' T : list Z) (mp pgno n : Z) (err : rc) : Prop := {
  dd_inv : retire_inv t' D' R' T;
  dd_free : not_freed t t' R R' T T;
  dd_room : same_room t t' D D';
  dd_stamp : h_txnid (pt_hdr t' mp) = front_txnid t;
  dd_new : err = MDBX_SUCCESS -> pt_dirty t <> None -> mk_dp mp pgno n ∈ D';
  dd_sub : forall x, x ∈ D' -> x ∈ D \/ err = MDBX_SUCCESS /\ x = mk_dp mp pgno n;
  dd_left : forall x, x ∈ D -> x ∈ D' \/ (exists lp, lp ∈ loose_pages (pt_r t) /\ x = loose_entry lp) \/ first_unallocated (pt_r t') <= dp_pgno x;
  dd_error : err <> MDBX_SUCCESS -> dirty_error t D R err;
}.

Lemma page_dirty_spec t D R T mp pgno n : retire_inv t D R T -> new_page t D R T mp pgno n ->
  exists err t' D' R', page_dirty al dal cm stack t mp pgno n = Some (err, t') /\ dirtied t t' D D' R R' T mp pgno n err.
Proof using All.
  intros H Hnew. unfold page_dirty. cbn zeta. set (t1 := set_hdr t mp _).
  assert (retire_inv t1 D R T) as H1.
  { apply set_hdr_inv; [done|apply Hnew|]. intros Hd lp Hl E. apply (np_ptr _ _ _ _ _ _ _ Hnew).
    pose proof (ro_dirty _ _ _ _ (ri_refund _ _ _ _ H)) as Hdo. unfold dirty_ok in Hdo. unfold pt_dirty in Hd. destruct (dirtylist _); [|done].
    destruct Hdo as (_ & _ & _ & _ & Hle & _). rewrite <- E. apply (list_elem_of_fmap_2 dp_ptr _ _ (Hle lp Hl)). }
  assert (h_txnid (pt_hdr t1 mp) = front_txnid t) as Hst by (cbn; by rewrite Z.eqb_refl).
  assert (new_page t1 D R T mp pgno n) as Hnew1 by (destruct Hnew; split; try done; cbn; by rewrite Z.eqb_refl).
  change (pt_dirty t1) with (pt_dirty t). destruct (pt_dirty t) as [dl|] eqn:Ed.
  2:{ eexists _, _, D, R. split; [done|]. split; try done; [|by left|tauto]. destruct H1 as [? ? ? ? ? ? ?]. by split. }
  assert (forall t2 D2 R2, retire_inv t2 D2 R2 T -> not_freed t t2 R R2 T T -> same_room t t2 D D2 -> (forall x, x ∈ D2 -> x ∈ D) ->
    (forall x, x ∈ D -> x ∈ D2 \/ (exists lp, lp ∈ loose_pages (pt_r t) /\ x = loose_entry lp) \/ first_unallocated (pt_r t2) <= dp_pgno x) ->
    pt_hdr t2 = pt_hdr t1 -> 0 < dirtyroom (rt_dirty (pt_r t2)) ->
    exists err t' D' R', append_tail t2 mp pgno n = Some (err, t') /\ dirtied t t' D D' R R' T mp pgno n err) as Htail.
  { intros t2 D2 R2 Hi Hf Hr Hs Hleft Hh Hroom. assert (pt_dirty t2 <> None) as Hd2 by (intros E; apply Hr in E; by rewrite Ed in E).
    destruct (pt_dirty t2) as [dl2|] eqn:Ed2; [|done].
    destruct (append_tail_spec t2 D2 R2 T dl2 mp pgno n Hi (new_page_after _ _ _ _ _ _ _ _ _ _ Hnew1 Hf Hs Hh) Ed2 Hroom)
      as (err & t' & D' & E & Hi' & Hf' & Hr' & Hh' & Hfu & Hc).
    exists err, t', D', R2. split; [done|]. split; try done.
    - intros q. by rewrite (Hf' q).
    - by eapply same_room_trans.
    - by rewrite Hh', Hh.
    - intros Ee _. destruct Hc as [[_ HP]|[[[? _]|[? _]] _]]; [|by subst|by subst]. rewrite HP. left.
    - intros x Hx. destruct Hc as [[Ee HP]|[_ ->]]; [|left; by apply Hs]. rewrite HP in Hx. apply elem_of_cons in Hx as [->|Hx]; [by right|left; by apply Hs].
    - intros x Hx. rewrite Hfu. destruct (Hleft x Hx) as [?|?]; [|tauto]. left. destruct Hc as [[_ HP]|[_ ->]]; [rewrite HP; by right|done].
    - intros Hne. pose proof (fewer_dirty _ _ _ _ _ Hi Hs). destruct Hc as [[? _]|[[[-> ?]|[-> ?]] _]]; [done|left; tauto|right; split; [done|lia]]. }
  change (loose_count (pt_r t1)) with (loose_count (pt_r t)). change (loose_pages (pt_r t1)) with (loose_pages (pt_r t)).
  change (dirtyroom (rt_dirty (pt_r t1))) with (dirtyroom (rt_dirty (pt_r t))).
  destruct (Z.eqb_spec (dirtyroom (rt_dirty (pt_r t))) 0) as [E0|E0]. 
  2:{ cbn [mbind option_bind]. rewrite bool_decide_true by done. cbn [negb]. apply (Htail t1 D R); try done; [tauto|].
    pose proof (ro_dirty _ _ _ _ (ri_refund _ _ _ _ H)) as Hdo. unfold dirty_ok in Hdo. unfold pt_dirty in Ed. rewrite Ed in Hdo. cbn. lia. }
  pose proof (ro_count _ _ _ _ (ri_refund _ _ _ _ H)) as Hcount.
  destruct (loose_pages (pt_r t)) as [|lp rest] eqn:El.
  - assert (loose_count (pt_r t) =? 0 = true) as -> by (by rewrite Hcount). cbn [negb mbind option_bind]. rewrite bool_decide_false by done. cbn [negb].
    eexists _, _, D, R. split; [done|]. split; try done; [|by left|tauto|intros _; right; split; [done|by left]].
    assert (pt_dirty t1 = Some dl) as Ed1 by done. unfold pt_dirty in Ed1. pose proof (ro_dirty _ _ _ _ (ri_refund _ _ _ _ H1)) as Hdo.
    unfold dirty_ok in Hdo. rewrite Ed1 in Hdo. destruct Hdo as (A & B & C & _).
    apply (with_dtxn_inv t1 D D R T _ dl); try done; [apply (ri_writemap _ _ _ _ H1); unfold pt_dirty; by rewrite Ed1|tauto|unfold pt_dirty; by rewrite Ed1|apply H1].
  - assert (loose_count (pt_r t) =? 0 = false) as -> by (rewrite Hcount; apply Z.eqb_neq; pose proof (zlen_nonneg rest); zlia). cbn [negb].
    destruct (give_up_loose_spec t1 D R T dl lp rest H1 Ed El) as (err & t2 & D2 & R2 & -> & Hi & Hf & Hr & Hs & Hleft & Hh & _ & Hc). cbn [mbind option_bind].
    assert (forall x, x ∈ D -> x ∈ D2 \/ (exists lp', lp' ∈ lp :: rest /\ x = loose_entry lp') \/ first_unallocated (pt_r t2) <= dp_pgno x) as Hleft2.
    { intros x Hx. destruct (Hleft x Hx) as [?|[?|?]]; [tauto| |tauto]. right. left. exists lp. split; [left|done]. }
    destruct Hc as [[-> Hz]|[He Hl]].
    + rewrite !bool_decide_true by done. cbn [negb]. apply (Htail t2 D2 R2); try done. destruct Hr as [_ Hr]. specialize (Hr ltac:(change (pt_dirty t <> None); by rewrite Ed)). cbn in Hr. lia.
    + rewrite !bool_decide_false by done. cbn [negb]. eexists err, _, D2, R2. split; [done|]. split; try done.
      * by apply set_error_inv.
      * cbn. by rewrite Hh.
      * intros x Hx. left. by apply Hs.
      * by rewrite El.
      * intros _. unfold list_full in Hl. destruct Hl as [[-> ?]|[-> ?]]; [left; tauto|right; split; [done|right; left; lia]].
Qed.
End Retire.

(** ** The properties *)

(** C20: releasing a page. In a transaction whose lists are well formed, for a page in
    use whose description is true, [page_retire_ex] returns; unless reading the page
    failed, in which case nothing has changed, the lists stay well formed and
    disjoint, exactly the pages of the released one have become free when the call
    succeeds (no other page becomes free on an error, none stops being free), the
    room of the dirty-page list is kept in step with its entries, and only entries of
    the released pages or of pages given back to the end of the file are dropped. A
    page of an earlier transaction, which readers may still see, only gets onto the
    list of retired pages, whichever way the code learns it: from the header the
    caller gave or that was read, from the flag of the caller, or from the lists of
    this transaction and of the outer ones, which do not have it. Then nothing is
    reclaimed, made loose or given back, and no list but that of the retired pages
    changes, apart from the order of the dirty-page list, which the search sorts. *)
Theorem page_retire_accounts al `{!AllocOk 4 al} cm stack dp_loose_limit perturb stub_write page_get_any t D R T pgno n mp pageflags :
  zlen stack = 128 -> retire_inv t D R T -> span_used t R T pgno n -> retirable page_get_any t D pgno n mp pageflags ->
  exists err t', page_retire_ex al cm stack dp_loose_limit perturb stub_write page_get_any t pgno mp pageflags = Some (err, t') /\
  ((err <> MDBX_SUCCESS /\ t' = t /\ mp = None /\ exists r, page_get_any pgno = Some (err, r)) \/
   exists D' R' T', released al stub_write t t' D D' R R' T T' pgno n err /\
     (of_the_past page_get_any t D pgno mp pageflags ->
      lists_same t t' D D' /\ R' = R /\ (err = MDBX_SUCCESS -> T' = T ++ desc_run (Z.to_nat n) 1 pgno))).
Proof. intros Hs. by apply page_retire_ex_spec. Qed.

Definition sample_hdr (p : Z) : hdr :=
mk_hdr (if bool_decide (p ∈ [300; 500; 700]) then 11 else 4) (sample_flags p) (if p =? 500 then 2 else 0).
Definition sample_ptxn : ptxn :=
mk_ptxn sample_rtxn (sample_pnl [6] 4) sample_hdr [] 11 11 0 false (mk_counts 0 4 0) None.

Lemma sample_ptxn_ok : retire_inv sample_ptxn sample_dps [8] [6].
Proof.
  split; [apply sample_rtxn_ok|by apply sample_pnl_rep|by apply (bool_decide_unpack _)| | |done|constructor].
  - intros q Hq%list_elem_of_singleton. subst. by vm_compute.
  - by apply (bool_decide_unpack _).
Qed.

Lemma sample_used pgno : 3 <= pgno <= 4 -> span_used sample_ptxn [8] [6] pgno 1.
Proof.
  intros Hp. split; [by vm_compute|]. split; [unfold MIN_PAGENO; lia|]. intros q Hq [H|[H|[H|H]]]; unfold in_span in Hq.
  1,2,3: apply list_elem_of_singleton in H; cbn in H; lia.
  cbn in H. lia.
Qed.

Lemma sample_retirable get pgno p : (pgno, p) = (3, 300) \/ (pgno, p) = (4, 400) ->
  retirable get sample_ptxn sample_dps pgno 1 (Some p) P_LEAF.
Proof.
  intros Hp. split; [|by destruct Hp as [[= -> ->]|[= -> ->]]]. split; [| |done].
  - intros x Hx Hin. unfold in_span in Hin.
    destruct Hp as [[= -> ->]|[= -> ->]]; repeat (apply elem_of_cons in Hx as [->|Hx]; [cbn in Hin; first [done|lia]|]); by apply elem_of_nil in Hx.
  - intros _. destruct Hp as [[= -> ->]|[= -> ->]]; (split; [intros Hx|intros Hx; cbn in Hx]).
    + done.
    + right. left.
    + repeat (apply elem_of_cons in Hx as [Hx|Hx]; [discriminate Hx|]). by apply elem_of_nil in Hx.
    + by vm_compute in Hx.
Qed.

Lemma sample_past : in_no_list sample_ptxn sample_dps 4.
Proof.
  split; [|split; [|constructor]].
  - intros x Hx. repeat (apply elem_of_cons in Hx as [->|Hx]; [done|]). by apply elem_of_nil in Hx.
  - intros s l [= <-] Hl Hin. pose proof (pnl_rep_inj _ _ _ (sr_list _ _ Hl) (sr_list _ _ sample_spilled_rep)) as ->.
    unfold spilled_page in Hin. repeat (apply elem_of_cons in Hin as [Hin|Hin]; [done|]). by apply elem_of_nil in Hin.
Qed.

Lemma page_retire_accounts_witness :
  (exists t', page_retire_ex (exact_allocator 4) true (replicate 128 0) 64 false MDBX_SUCCESS (fun _ => None) sample_ptxn 3 (Some 300) P_LEAF = Some (MDBX_SUCCESS, t') /\
    lp_pgno <$> loose_pages (pt_r t') = [3; 7]) /\
  (exists t', page_retire_ex (exact_allocator 4) true (replicate 128 0) 64 false MDBX_SUCCESS (fun _ => None) sample_ptxn 4 None P_LEAF = Some (MDBX_SUCCESS, t') /\
    repnl (pt_r t') = repnl sample_rtxn /\ loose_pages (pt_r t') = loose_pages sample_rtxn /\ first_unallocated (pt_r t') = 9 /\ pnl_rep (retired_pages t') [6; 4]).
Proof.
  split.
  - destruct (page_retire_accounts (exact_allocator 4) (AllocOk0 := exact_allocator_ok 4 ltac:(lia)) true (replicate 128 0) 64 false MDBX_SUCCESS (fun _ => None)
      sample_ptxn sample_dps [8] [6] 3 1 (Some 300) P_LEAF) as (err & t' & E & _);
      [by vm_compute|apply sample_ptxn_ok|by apply sample_used|apply sample_retirable; by left|].
    revert E. vm_compute. intros [= <- <-]. eexists. split; [reflexivity|]. reflexivity.
  - destruct (page_retire_accounts (exact_allocator 4) (AllocOk0 := exact_allocator_ok 4 ltac:(lia)) true (replicate 128 0) 64 false MDBX_SUCCESS (fun _ => None)
      sample_ptxn sample_dps [8] [6] 4 1 None P_LEAF) as (err & t' & E & [(_ & _ & _ & ? & ?)|(D' & R' & T' & Hr & Hp)]);
      [by vm_compute|apply sample_ptxn_ok|by apply sample_used| |done|].
    { split; [done|]. split; [done|]. intros x Hx Ex. by destruct (proj1 sample_past x Hx). }
    destruct (Hp sample_past) as ([_ A] & B & C). rewrite E.
    assert (err = MDBX_SUCCESS) as -> by (revert E; vm_compute; congruence).
    pose proof (ri_retired _ _ _ _ (rl_inv _ _ _ _ _ _ _ _ _ _ _ _ _ Hr)) as Hp2. rewrite C in Hp2 by done.
    exists t'. split; [done|]. destruct A as [-> | [dl ->]]; done.
Defined.

(** C21: registering a new dirty page. For a page in use that has no entry yet,
    [page_dirty] returns with the lists well formed and disjoint and no page freed or
    taken; the header carries the number of the writer; on success a transaction
    with a dirty-page list has the entry of the page, the sum of the room and of the number of
    entries is what it was, and nothing else was added; the only entries it drops
    are those of the loose page it gives up when there is no room and of loose pages it gives back to the
    end of the file; it fails only when memory cannot be had or when a list or the
    room is exhausted. *)
Theorem page_dirty_accounts al `{!AllocOk 4 al} dal `{!DpAllocOk dal} cm stack t D R T mp pgno n :
  zlen stack = 128 -> retire_inv t D R T -> new_page t D R T mp pgno n ->
  exists err t' D' R', page_dirty al dal cm stack t mp pgno n = Some (err, t') /\ dirtied al dal t t' D D' R R' T mp pgno n err.
Proof. intros Hs. by apply (page_dirty_spec al cm stack Hs 0 false MDBX_SUCCESS dal). Qed.

Definition sample_full : ptxn := set_r sample_ptxn (with_dirty sample_rtxn (with_room sample_dtxn 0) 1).

Lemma sample_full_ok : retire_inv sample_full sample_dps [8] [6].
Proof.
  apply (with_dtxn_inv sample_ptxn sample_dps sample_dps [8] [6] (with_room sample_dtxn 0) sample_dpl); try done; try by left.
  - apply sample_ptxn_ok.
  - apply sample_dpl_ok.
  - by apply (bool_decide_unpack _).
Qed.

Lemma page_dirty_accounts_witness :
  exists t' D', page_dirty (exact_allocator 4) exact_dp_allocator true (replicate 128 0) sample_full 400 4 1 = Some (MDBX_SUCCESS, t') /\
    loose_pages (pt_r t') = [] /\ first_unallocated (pt_r t') = 7 /\ dirtyroom (rt_dirty (pt_r t')) = 0 /\
    retire_inv t' D' [] [6] /\ mk_dp 400 4 1 ∈ D' /\ zlen D' = 3.
Proof.
  destruct (page_dirty_accounts (exact_allocator 4) (AllocOk0 := exact_allocator_ok 4 ltac:(lia)) exact_dp_allocator true (replicate 128 0)
    sample_full sample_dps [8] [6] 400 4 1) as (err & t' & D' & R' & E & Hd); [by vm_compute|apply sample_full_ok| |].
  - split; [by apply sample_used| | |by vm_compute].
    + intros x Hx Hin. unfold in_span in Hin. repeat (apply elem_of_cons in Hx as [->|Hx]; [cbn in Hin; lia|]). by apply elem_of_nil in Hx.
    + intros Hx. repeat (apply elem_of_cons in Hx as [Hx|Hx]; [discriminate Hx|]). by apply elem_of_nil in Hx.
  - assert (err = MDBX_SUCCESS) as -> by (revert E; vm_compute; congruence).
    exists t', D'. split; [done|].
    assert ((fun r => (loose_pages (pt_r r.2), first_unallocated (pt_r r.2), dirtyroom (rt_dirty (pt_r r.2)), pnl_size (repnl (pt_r r.2)))) <$> Some (MDBX_SUCCESS, t') =
      Some ([], 7, 0, Some 0)) as Et by (rewrite <- E; vm_compute; reflexivity).
    cbn in Et. injection Et as E1 E2 E3 E4. destruct Hd as [Hi _ [_ Hr] _ Hn _ _ _].
    pose proof (ro_repnl _ _ _ _ (ri_refund _ _ _ _ Hi)) as Hp. pose proof (pnl_rep_size _ _ Hp) as Hs.
    assert (R' = []) as -> by (destruct R'; [done|rewrite Hs in E4; by injection E4]).
    split_and!; try done; [by apply Hn|]. specialize (Hr ltac:(done)). rewrite E3 in Hr. cbn in Hr. unfold zlen in *. cbn in Hr. lia.
Defined.
