(* ===== verification/Nested.v ===== *)
(** * The commit of a nested transaction: merging the lists of pages

    [nested_merge] of [src/src/txn-nested.c]: the dirty, spilled and retired pages
    of a nested transaction go to its parent, and what the nested transaction
    has replaced or released leaves the lists of the parent. The list of
    reclaimed pages, the list of retired ones, the loose pages and the geometry
    of the nested transaction are those of the parent before. *)

From stdpp Require Import base numbers option sorting list gmap.
From Stdlib Require Import ZArith Lia.
From S2P Require Import Prelude Search SortNet Bits Alloc Pnl PnlOrder Rkl Dpl Cmp Page Spill PageGet Refund Retire.

(** The parts of the nested transaction that are merged. *)
Record ntxn : Type := mk_ntxn { nt_dirty : dtxn; nt_spilled : option spilled }.

Section Merge.
(** The allocator, [MDBX_HAVE_CMOV] and [MDBX_AVOID_MSYNC]. *)
Context (al : allocator) (cm : bool) (avoid_msync : bool).

(** A changed state of the dirty pages of the parent. *)
Definition set_dtxn (t : ptxn) (d : dtxn) : ptxn := set_r t (with_dirty (pt_r t) d (loose_count (pt_r t))).
Definition set_spilled (t : ptxn) (s : spilled) : ptxn := set_r t (with_spilled (pt_r t) s).

(** ** Refunded pages *)

(** The number of entries that stay. *)
Fixpoint drop_refunded (n : nat) (dl : dpl) (fu : Z) (env : shadow) : option (Z * shadow) :=
match n with
| O => Some (0, env)
| S k =>
  x ← zget (dl_items dl) (Z.of_nat n);
  if fu <=? dp_pgno x then drop_refunded k dl fu (page_shadow_release env (dp_ptr x) (dp_npages x))
  else Some (Z.of_nat n, env)
end.

Definition remove_refunded (t : ptxn) : option ptxn :=
let d := rt_dirty (pt_r t) in
dl ← dirtylist d;
'(n, env) ← drop_refunded (Z.to_nat (dl_length dl)) dl (first_unallocated (pt_r t)) (env_shadow d);
let room := u64 (dirtyroom d + u64 (dl_sorted dl - n)) in
dl ← set_sorted_len dl n;
Some (set_dtxn t (with_shadow (with_room (with_dirtylist d dl) room) env)).

(** ** Retired pages *)

(** The rest of a large page at the end of the elements that stay; the result is
    their number and the length of the run. *)
Fixpoint cut_tail (fuel : nat) (p : pnl) (parent_retired_len w pgno l npages : Z) : option (Z * Z) :=
match fuel with
| O => None
| S fuel =>
  if parent_retired_len <? w then
    x ← pnl_at p (w - 1);
    if x =? pgno + l then
      if l + 1 =? npages then Some (w - 1, l + 1) else cut_tail fuel p parent_retired_len (w - 1) pgno (l + 1) npages
    else Some (w, l)
  else Some (w, l)
end.

(** The room was reserved in advance: an insertion that had to move the block
    would leave [reclaimed_list] dangling. *)
Definition insert_reclaimed (t : ptxn) (pgno n : Z) : option ptxn :=
let p := repnl (pt_r t) in
len ← pnl_alloclen p;
size ← pnl_size p;
if len <? size + n then None
else
  '(err, p) ← pnl_insert_span al (Some p) pgno n;
  p ← p;
  if decide (err = MDBX_SUCCESS) then Some (set_r t (with_repnl (pt_r t) p)) else None.

(** One retired page at [r], with [w] elements that stay. *)
Definition reclaim_retired (t : ptxn) (parent_retired_len r w : Z) : option (ptxn * Z) :=
pgno ← pnl_at (retired_pages t) r;
dl ← pt_dirty t;
'(di, dl) ← txn_dpl_exist cm dl pgno;
let t := set_dpl t dl in
if negb (di =? 0) then
  x ← zget (dl_items dl) di;
  let npages := dp_npages x in
  t ← page_wash t di (dp_ptr x) npages;
  '(w, l) ← (if 1 <? npages then cut_tail (Z.to_nat npages) (retired_pages t) parent_retired_len w pgno 1 npages else Some (w, 1));
  t ← insert_reclaimed t pgno l;
  Some (t, w)
else
  si ← spill_search cm (rt_spilled (pt_r t)) pgno;
  if negb (si =? 0) then
    t ← spill_out t si 1;
    t ← insert_reclaimed t pgno 1;
    Some (t, w)
  else
    p ← pnl_put (retired_pages t) (w + 1) pgno;
    Some (set_retired t p, w + 1).

Fixpoint retired_loop (n : nat) (t : ptxn) (parent_retired_len r w : Z) : option (ptxn * Z) :=
match n with
| O => Some (t, w)
| S n =>
  '(t, w) ← reclaim_retired t parent_retired_len (r + 1) w;
  retired_loop n t parent_retired_len (r + 1) w
end.

Definition move_retired (t : ptxn) (parent_retired_len : Z) : option ptxn :=
size ← pnl_size (retired_pages t);
'(t, w) ← retired_loop (Z.to_nat (size - parent_retired_len)) t parent_retired_len parent_retired_len parent_retired_len;
p ← pnl_setsize (retired_pages t) w;
Some (set_retired t p).

(** ** Spilled pages of the parent *)

(** The number of elements at the begin of the list that are refunded. *)
Fixpoint count_refunded (fuel : nat) (p : pnl) (i len limit : Z) : option Z :=
match fuel with
| O => None
| S fuel =>
  let i := i + 1 in
  if i <? len then
    x ← pnl_at p (i + 1);
    if limit <=? x then count_refunded fuel p i len limit else Some i
  else Some i
end.

Definition cut_refunded (s : spilled) (fu : Z) : option spilled :=
let p := sp_list s in
len ← pnl_size p;
most ← pnl_at p 1;
let limit := u32 (Z.shiftl fu 1) in
if limit <=? most then
  i ← count_refunded (Z.to_nat len) p 0 len limit;
  p ← pnl_setsize p (len - i);
  p ← blit p (2 + i) p 2 (len - i);
  Some (mk_spilled (least_removed s) p)
else Some s.

Fixpoint unspill_reclaimed (fuel : nat) (s : spilled) (reclaimed_list : pnl) (i r : Z) : option spilled :=
if (i =? 0) || (r =? 0) then Some s
else
match fuel with
| O => None
| S fuel =>
  x ← pnl_at (sp_list s) i;
  if negb (Z.land x 1 =? 0) then unspill_reclaimed fuel s reclaimed_list (i - 1) r
  else
    let spilled_pgno := Z.shiftr x 1 in
    reclaimed_pgno ← pnl_at reclaimed_list r;
    if negb (reclaimed_pgno =? spilled_pgno) then
      if MDBX_PNL_ORDERED spilled_pgno reclaimed_pgno then unspill_reclaimed fuel s reclaimed_list i (r - 1)
      else unspill_reclaimed fuel s reclaimed_list (i - 1) r
    else
      s ← spill_remove s i 1;
      unspill_reclaimed fuel s reclaimed_list (i - 1) (r - 1)
end.

Fixpoint unspill_dirty (fuel : nat) (s : spilled) (src : dpl) (i d : Z) : option spilled :=
size ← pnl_size (sp_list s);
if (d =? 0) || (size <? i) then Some s
else
match fuel with
| O => None
| S fuel =>
  x ← pnl_at (sp_list s) i;
  if negb (Z.land x 1 =? 0) then unspill_dirty fuel s src (i + 1) d
  else
    let spilled_pgno := Z.shiftr x 1 in
    e ← zget (dl_items src) d;
    let dirty_pgno_form := dp_pgno e in
    let dirty_pgno_to := u32 (dirty_pgno_form + dp_npages e) in
    if spilled_pgno <? dirty_pgno_form then unspill_dirty fuel s src i (d - 1)
    else if dirty_pgno_to <=? spilled_pgno then unspill_dirty fuel s src (i + 1) d
    else s ← spill_remove s i 1; unspill_dirty fuel s src (i + 1) d
end.

Definition filter_spilled (t : ptxn) (src : dpl) : option ptxn :=
match rt_spilled (pt_r t) with
| None => Some t
| Some s =>
  size ← pnl_size (sp_list s);
  if size =? 0 then Some t
  else
    s ← spill_purge s;
    len ← pnl_size (sp_list s);
    if len =? 0 then Some (set_spilled t s)
    else
      s ← cut_refunded s (first_unallocated (pt_r t));
      i ← pnl_size (sp_list s);
      r ← pnl_size (repnl (pt_r t));
      s ← unspill_reclaimed (Z.to_nat (i + r)) s (repnl (pt_r t)) i r;
      i ← pnl_size (sp_list s);
      s ← unspill_dirty (Z.to_nat (i + dl_length src)) s src 1 (dl_length src);
      s ← spill_purge s;
      Some (set_spilled t s)
end.

(** ** Merging the dirty pages *)

(** A page of the nested transaction becomes one of the parent. *)
Definition adopt (front : Z) (hdrs : Z -> hdr) (sp : Z) : Z -> hdr :=
let h := hdrs sp in
if h_flags h =? P_LOOSE then hdrs
else fun p => if p =? sp then mk_hdr front (Z.land (h_flags h) (Z.lnot P_SPILLED)) (h_pages h) else hdrs p.

(** The length of the result, while entries of the parent that overlap with one
    of the nested transaction are released and marked by a null pointer. *)
Fixpoint count_merged (fuel : nat) (front : Z) (src : dpl) (m : list dp) (env : shadow) (hdrs : Z -> hdr) (l d s : Z)
  : option (list dp * shadow * (Z -> hdr) * Z * Z * Z) :=
if (0 <? d) && (0 <? s) then
  match fuel with
  | O => None
  | S fuel =>
    x ← zget (dl_items src) s;
    y ← zget m d;
    if u32 (dp_pgno x + dp_npages x) <=? dp_pgno y then count_merged fuel front src m env hdrs (l + 1) (d - 1) s
    else if u32 (dp_pgno y + dp_npages y) <=? dp_pgno x then
      count_merged fuel front src m env (adopt front hdrs (dp_ptr x)) (l + 1) d (s - 1)
    else
      m ← zset m d (mk_dp 0 (dp_pgno y) (dp_npages_ y));
      count_merged fuel front src m (page_shadow_release env (dp_ptr y) (dp_npages y)) hdrs l (d - 1) s
  end
else Some (m, env, hdrs, l, d, s).

Fixpoint adopt_rest (n : nat) (front : Z) (src : dpl) (hdrs : Z -> hdr) : option (Z -> hdr) :=
match n with
| O => Some hdrs
| S k => x ← zget (dl_items src) (Z.of_nat n); adopt_rest k front src (adopt front hdrs (dp_ptr x))
end.

(** An entry moves from [r] to [w]. *)
Definition move_entry (m : list dp) (r w : Z) : option (list dp) :=
if negb (w =? r) then
  x ← zget m r;
  m ← zset m w x;
  zset m r (mk_dp 0 (dp_pgno x) (dp_npages_ x))
else Some m.

(** Entries with a page go to the begin of the list. *)
Fixpoint squash_begin (n : nat) (m : list dp) (r w : Z) : option (list dp * Z) :=
match n with
| O => Some (m, w)
| S n =>
  x ← zget m r;
  if negb (dp_ptr x =? 0) then m ← move_entry m r w; squash_begin n m (r + 1) (w + 1)
  else squash_begin n m (r + 1) w
end.

(** From the end to the begin, when the list does not get shorter. *)
Fixpoint extend_loop (fuel : nat) (src : dpl) (m : list dp) (l s d : Z) : option (list dp * Z * Z) :=
if (0 <? s) && (0 <? d) then
  match fuel with
  | O => None
  | S fuel =>
    if l <=? d then '(m, w) ← squash_begin (Z.to_nat d) m 1 1; extend_loop fuel src m l s (w - 1)
    else
      y ← zget m d;
      if negb (dp_ptr y =? 0) then
        x ← zget (dl_items src) s;
        if dp_pgno x <? dp_pgno y then m ← zset m l y; extend_loop fuel src m (l - 1) s (d - 1)
        else m ← zset m l x; extend_loop fuel src m (l - 1) (s - 1) d
      else extend_loop fuel src m l s (d - 1)
  end
else Some (m, l, s).

Fixpoint copy_down (n : nat) (src : dpl) (m : list dp) (l s : Z) : option (list dp) :=
match n with
| O => Some m
| S n => x ← zget (dl_items src) s; m ← zset m l x; copy_down n src m (l - 1) (s - 1)
end.

(** Entries with a page go to the end of the list; [r] from the length down to [d]. *)
Fixpoint squash_end (n : nat) (m : list dp) (r w : Z) : option (list dp * Z) :=
match n with
| O => Some (m, w)
| S n =>
  x ← zget m r;
  if negb (dp_ptr x =? 0) then m ← move_entry m r w; squash_end n m (r - 1) (w - 1)
  else squash_end n m (r - 1) w
end.

(** From the begin to the end, when the list gets shorter. *)
Fixpoint shrink_loop (fuel : nat) (src : dpl) (m : list dp) (length l s d : Z) : option (list dp * Z * Z * Z) :=
if (s <=? dl_length src) && (d <=? length) then
  match fuel with
  | O => None
  | S fuel =>
    if d <=? l then '(m, w) ← squash_end (Z.to_nat (length - d + 1)) m length length; shrink_loop fuel src m length l s (w + 1)
    else
      y ← zget m d;
      if negb (dp_ptr y =? 0) then
        x ← zget (dl_items src) s;
        if dp_pgno y <? dp_pgno x then m ← zset m l y; shrink_loop fuel src m length (l + 1) s (d + 1)
        else m ← zset m l x; shrink_loop fuel src m length (l + 1) (s + 1) d
      else shrink_loop fuel src m length l s (d + 1)
  end
else Some (m, l, s, d).

Fixpoint copy_up (n : nat) (from m : list dp) (l s : Z) : option (list dp) :=
match n with
| O => Some m
| S n => x ← zget from s; m ← zset m l x; copy_up n from m (l + 1) (s + 1)
end.

Fixpoint move_up (n : nat) (m : list dp) (l d : Z) : option (list dp) :=
match n with
| O => Some m
| S n => x ← zget m d; m ← zset m l x; move_up n m (l + 1) (d + 1)
end.

(** [merged] is the length of the result. *)
Definition merge_items (src : dpl) (m : list dp) (length merged : Z) : option (list dp) :=
let fuel := Z.to_nat (2 * (dl_length src + length) + 2) in
if length <=? merged then
  '(m, l, s) ← extend_loop fuel src m merged (dl_length src) length;
  copy_down (Z.to_nat s) src m l s
else
  '(m, l, s, d) ← shrink_loop fuel src m length 1 1 1;
  if s <=? dl_length src then copy_up (Z.to_nat (dl_length src - s + 1)) (dl_items src) m l s
  else move_up (Z.to_nat (merged - l + 1)) m l d.

Fixpoint recount (n : nat) (dl : dpl) (r : Z) : option dpl :=
match n with
| O => Some dl
| S n =>
  npages ← dpl_npages dl r;
  recount n (with_pages dl (u64 (dl_pages_including_loose dl + npages))) (r + 1)
end.

Definition merge_dirty (t : ptxn) (src : dpl) (lru : Z) : option ptxn :=
let d := rt_dirty (pt_r t) in
dst ← dirtylist d;
'(m, env, hdrs, l, di, si) ← count_merged (Z.to_nat (dl_length dst + dl_length src)) (front_txnid t) src (dl_items dst)
  (env_shadow d) (pt_hdr t) 0 (dl_length dst) (dl_length src);
let merged := l + di + si in
hdrs ← adopt_rest (Z.to_nat si) (front_txnid t) src hdrs;
m ← merge_items src m (dl_length dst) merged;
let room := u64 (dirtyroom d - u64 (merged - dl_length dst)) in
dst ← dpl_setlen (with_sorted (with_items dst m) merged) merged;
dst ← recount (Z.to_nat (dl_length dst)) (with_pages dst 0) 1;
let d := mk_dtxn (writemap d) (ro_nested d) (Some dst) room lru (Dpl.lru d) env in
let r := with_dirty (pt_r t) d (loose_count (pt_r t)) in
Some (mk_ptxn r (retired_pages t) hdrs (ancestors t) (pt_txnid t) (front_txnid t) (dirty_npages t) (pt_error t) (pt_tree t) (pt_outer t)).

(** ** Spilled pages of the nested transaction *)

Definition merge_spilled (t : ptxn) (nested : option spilled) : option ptxn :=
match nested, rt_spilled (pt_r t) with
| None, _ => Some t
| Some ns, Some s => '(p, _) ← pnl_merge cm (sp_list s) (sp_list ns); Some (set_spilled t (mk_spilled (least_removed s) p))
| Some ns, None => Some (set_spilled t ns)
end.

(** Whether [MDBX_TXN_SPILLS] is set. *)
Definition has_spilled (s : option spilled) : option bool :=
match s with
| None => Some false
| Some s => size ← pnl_size (sp_list s); Some (negb (size =? 0))
end.

(** [src->sorted = dpl_setlen(src, 0); txn_dpl_free(nested);] *)
Definition drop_nested (nested : ntxn) (src : dpl) : option ntxn :=
src ← set_sorted_len src 0;
d ← txn_dpl_free (with_dirtylist (nt_dirty nested) src);
Some (mk_ntxn d None).

(** The parent, the nested transaction and the flag afterwards. *)
Definition nested_merge (parent : ptxn) (nested : ntxn) (parent_retired_len : Z) : option (ptxn * ntxn * bool) :=
src ← dirtylist (nt_dirty nested);
src ← txn_dpl_sort cm src;
dst ← pt_dirty parent;
dst ← txn_dpl_sort cm dst;
t ← remove_refunded (set_dpl parent dst);
d ← txn_dpl_sift cm avoid_msync (rt_dirty (pt_r t)) (repnl (pt_r t)) false;
t ← move_retired (set_dtxn t d) parent_retired_len;
t ← filter_spilled t src;
d ← match nt_spilled nested with
    | Some s => txn_dpl_sift cm avoid_msync (rt_dirty (pt_r t)) (sp_list s) true
    | None => Some (rt_dirty (pt_r t))
    end;
t ← merge_dirty (set_dtxn t d) src (dirtylru (nt_dirty nested));
nested' ← drop_nested nested src;
t ← merge_spilled t (nt_spilled nested);
spills ← has_spilled (rt_spilled (pt_r t));
Some (t, nested', spills).
End Merge.
