(* ===== verification/NestedDirty.v ===== *)
(** * The dirty pages of a committed nested transaction

    [merge_dirty] of [Nested]: the in-place merge of the dirty-page lists gives the
    entries of the nested transaction and those of the parent that do not overlap
    with them, in ascending order. *)

From stdpp Require Import base numbers option sorting list gmap.
From Stdlib Require Import ZArith Lia.
From S2P Require Import Prelude Search SortNet Bits Alloc Pnl PnlOrder Rkl Dpl DplProofs Cmp Page Spill PageGet Refund Retire Nested.

(** ** Accesses in the middle of a list *)

Lemma get_at {A} (m pre post : list A) x i : m = pre ++ x :: post -> i = zlen pre -> zget m i = Some x.
Proof. intros -> ->. by apply zget_app_mid. Qed.

Lemma set_at {A} (m pre post m' : list A) x v i : m = pre ++ x :: post -> i = zlen pre -> m' = pre ++ v :: post -> zset m i v = Some m'.
Proof. intros -> -> ->. by apply zset_app_mid. Qed.

Ltac lists := repeat (rewrite <- ?app_assoc; cbn [app]); reflexivity.

(** ** Entries with and without a page *)

Definition held (x : dp) : Prop := dp_ptr x <> 0.
Definition held_part (l : list dp) : list dp := filter held l.

Lemma held_part_app a b : held_part (a ++ b) = held_part a ++ held_part b.
Proof. apply filter_app. Qed.

Lemma held_part_cons x l : held_part (x :: l) = if dp_ptr x =? 0 then held_part l else x :: held_part l.
Proof.
  unfold held_part. destruct (Z.eqb_spec (dp_ptr x) 0); [by rewrite filter_cons_False by (unfold held; tauto)|by rewrite filter_cons_True].
Qed.

Lemma held_part_all l : Forall held l -> held_part l = l.
Proof. intros H. rewrite Forall_forall in H. by apply filter_all. Qed.

Lemma held_part_held l : Forall held (held_part l).
Proof. apply Forall_forall. intros x Hx. by apply list_elem_of_filter in Hx as [? _]. Qed.

Lemma held_part_le l : zlen (held_part l) <= zlen l.
Proof. unfold zlen, held_part. pose proof (length_filter held l). lia. Qed.

Lemma move_entry_down K N x post : exists N', zlen N' = zlen N /\
  move_entry (K ++ N ++ x :: post) (zlen K + zlen N) (zlen K) = Some ((K ++ [x]) ++ N' ++ post).
Proof.
  unfold move_entry. destruct (Z.eqb_spec (zlen K) (zlen K + zlen N)) as [E|E]; cbn [negb].
  - assert (N = []) as -> by (apply zlen_0_nil; lia). exists []. split; [done|]. f_equal. lists.
  - destruct N as [|z N]; [zlia|]. exists (N ++ [mk_dp 0 (dp_pgno x) (dp_npages_ x)]). split; [zlia|].
    rewrite (get_at _ (K ++ z :: N) post x) by (lists || zlia). cbn [mbind option_bind].
    rewrite (set_at _ K (N ++ x :: post) (K ++ x :: N ++ x :: post) z) by (lists || zlia). cbn [mbind option_bind].
    apply (set_at _ (K ++ x :: N) post _ x); [lists|zlia|lists].
Qed.

Lemma move_entry_up pre x N K : exists N', zlen N' = zlen N /\
  move_entry (pre ++ x :: N ++ K) (zlen pre) (zlen pre + zlen N) = Some (pre ++ N' ++ x :: K).
Proof.
  unfold move_entry. destruct (Z.eqb_spec (zlen pre + zlen N) (zlen pre)) as [E|E]; cbn [negb].
  - assert (N = []) as -> by (apply zlen_0_nil; lia). exists []. split; done.
  - destruct (zsplit_snoc N) as (N1 & z & ->); [zlia|]. exists (mk_dp 0 (dp_pgno x) (dp_npages_ x) :: N1). split; [zlia|].
    rewrite (get_at _ pre ((N1 ++ [z]) ++ K) x) by (lists || zlia). cbn [mbind option_bind].
    rewrite (set_at _ (pre ++ x :: N1) K (pre ++ x :: N1 ++ x :: K) z) by (lists || zlia). cbn [mbind option_bind].
    apply (set_at _ pre (N1 ++ x :: K) _ x); lists || zlia.
Qed.

Lemma squash_begin_spec rest : forall T K N, exists N', zlen N' = zlen N + zlen T - zlen (held_part T) /\
  squash_begin (length T) (stubB :: K ++ N ++ T ++ rest) (zlen K + zlen N + 1) (zlen K + 1) =
  Some (stubB :: (K ++ held_part T) ++ N' ++ rest, zlen K + zlen (held_part T) + 1).
Proof.
  induction T as [|x T IH]; intros K N; cbn [length squash_begin].
  - exists N. unfold held_part. cbn [filter list_filter]. rewrite app_nil_r. split; [zlia|]. do 2 f_equal. rewrite (@zlen_nil dp). lia.
  - rewrite (get_at _ (stubB :: K ++ N) (T ++ rest) x) by (lists || zlia). cbn [mbind option_bind]. rewrite held_part_cons.
    destruct (dp_ptr x =? 0); cbn [negb].
    + destruct (IH K (N ++ [x])) as (N' & HN & E). exists N'. split; [zlia|].
      replace (zlen K + zlen N + 1 + 1) with (zlen K + zlen (N ++ [x]) + 1) by zlia.
      replace (K ++ N ++ (x :: T) ++ rest) with (K ++ (N ++ [x]) ++ T ++ rest) by lists. exact E.
    + destruct (move_entry_down (stubB :: K) N x (T ++ rest)) as (N1 & HN1 & E1).
      replace (zlen K + zlen N + 1) with (zlen (stubB :: K) + zlen N) by zlia. replace (zlen K + 1) with (zlen (stubB :: K)) by zlia.
      cbn [app] in E1 |- *. rewrite E1. cbn [mbind option_bind].
      destruct (IH (K ++ [x]) N1) as (N' & HN & E). exists N'. split; [zlia|].
      replace (zlen (stubB :: K) + zlen N + 1) with (zlen (K ++ [x]) + zlen N1 + 1) by zlia.
      replace (zlen (stubB :: K) + 1) with (zlen (K ++ [x]) + 1) by zlia.
      rewrite E. f_equal. f_equal; [lists|zlia].
Qed.

Lemma squash_end_spec pre : forall T N K, exists N', zlen N' = zlen N + zlen T - zlen (held_part T) /\
  squash_end (length T) (pre ++ T ++ N ++ K) (zlen pre + zlen T - 1) (zlen pre + zlen T + zlen N - 1) =
  Some (pre ++ N' ++ held_part T ++ K, zlen pre + zlen N' - 1).
Proof.
  induction T as [|x T IH] using rev_ind; intros N K.
  - exists N. unfold held_part. cbn [filter list_filter length squash_end app]. split; [zlia|]. f_equal. f_equal. zlia.
  - rewrite length_app, Nat.add_1_r. cbn [squash_end]. rewrite held_part_app, held_part_cons.
    rewrite (get_at _ (pre ++ T) (N ++ K) x) by (lists || zlia). cbn [mbind option_bind].
    destruct (dp_ptr x =? 0); cbn [negb].
    + destruct (IH (x :: N) K) as (N' & HN & E). exists N'. rewrite app_nil_r. split; [zlia|].
      replace (zlen pre + zlen (T ++ [x]) - 1 - 1) with (zlen pre + zlen T - 1) by zlia.
      replace (zlen pre + zlen (T ++ [x]) + zlen N - 1) with (zlen pre + zlen T + zlen (x :: N) - 1) by zlia.
      rewrite <- E. f_equal. lists.
    + destruct (move_entry_up (pre ++ T) x N K) as (N1 & HN1 & E1).
      replace (pre ++ (T ++ [x]) ++ N ++ K) with ((pre ++ T) ++ x :: N ++ K) by lists.
      replace (zlen pre + zlen (T ++ [x]) - 1) with (zlen (pre ++ T)) by zlia.
      replace (zlen pre + zlen (T ++ [x]) + zlen N - 1) with (zlen (pre ++ T) + zlen N) by zlia. rewrite E1. cbn [mbind option_bind].
      destruct (IH N1 (x :: K)) as (N' & HN & E). exists N'. split; [unfold held_part in *; zlia|].
      replace (zlen (pre ++ T) - 1) with (zlen pre + zlen T - 1) by zlia.
      replace (zlen (pre ++ T) + zlen N - 1) with (zlen pre + zlen T + zlen N1 - 1) by zlia.
      replace ((pre ++ T) ++ N1 ++ x :: K) with (pre ++ T ++ N1 ++ x :: K) by lists. rewrite E. f_equal. f_equal. lists.
Qed.

(** ** Overlapping entries *)

Definition apart (x y : dp) : Prop := dp_pgno x + dp_npages_ x <= dp_pgno y \/ dp_pgno y + dp_npages_ y <= dp_pgno x.

#[export] Instance apart_dec x y : Decision (apart x y).
Proof. unfold apart. apply _. Defined.

Lemma apart_ne x y : dp_span_ok x -> dp_span_ok y -> apart x y -> dp_pgno x <> dp_pgno y.
Proof. intros [? _] [? _] [|]; lia. Qed.

Lemma disjoint_asc l : Forall dp_span_ok l -> dp_disjoint l -> dp_asc l.
Proof.
  intros Hs Hd. induction Hd as [|x l _ IH Hx]; [constructor|]. apply Forall_cons in Hs as [[Hx1 _] Hs]. constructor; [by apply IH|].
  eapply Forall_impl; [exact Hx|]. intros y Hy. cbn beta in Hy. lia.
Qed.

(** Two ascending lists as one; [n] is the length of the first. *)
Definition merge_of (A B M : list dp) : Prop := dp_asc M /\ M ≡ₚ A ++ B.

Lemma merge_of_snoc A B M z A' B' : merge_of A B M -> A' ++ B' ≡ₚ (A ++ B) ++ [z] -> (forall y, y ∈ A ++ B -> dp_pgno y < dp_pgno z) ->
  merge_of A' B' (M ++ [z]).
Proof.
  intros [Ha HP] HP' Hz. split; [|by rewrite HP', HP]. apply dp_asc_app_iff. split_and!; [done|repeat constructor|].
  intros x y Hx Hy%list_elem_of_singleton. subst y. apply Hz. by rewrite <- HP.
Qed.

Lemma merge_of_cons A B M z A' B' : merge_of A B M -> A' ++ B' ≡ₚ z :: A ++ B -> (forall y, y ∈ A ++ B -> dp_pgno z < dp_pgno y) ->
  merge_of A' B' (z :: M).
Proof.
  intros [Ha HP] HP' Hz. split; [|by rewrite HP', HP]. apply dp_asc_cons_iff. split; [done|]. intros y Hy. apply Hz. by rewrite <- HP.
Qed.

Lemma asc_snoc_lt l x y : dp_asc (l ++ [x]) -> y ∈ l -> dp_pgno y < dp_pgno x.
Proof. intros (_ & _ & H)%dp_asc_app_iff Hy. apply H; [done|by constructor]. Qed.

Lemma asc_snoc_init l x : dp_asc (l ++ [x]) -> dp_asc l.
Proof. by intros (H & _ & _)%dp_asc_app_iff. Qed.

Lemma held_part_sub l x : x ∈ held_part l -> x ∈ l.
Proof. by intros [_ ?]%list_elem_of_filter. Qed.

Section Src.
(** The list of the nested transaction. *)
Context (src : dpl) (S : list dp) (srest : list dp).
Hypothesis Hsrc : dl_items src = stubB :: S ++ srest.
Hypothesis Hlen : dl_length src = zlen S.

Lemma src_at S1 x S2 i : S = S1 ++ x :: S2 -> i = zlen S1 + 1 -> zget (dl_items src) i = Some x.
Proof using Hsrc. intros E ->. rewrite Hsrc, E. apply (get_at _ (stubB :: S1) (S2 ++ srest)); [lists|zlia]. Qed.

(** ** Merging from the end *)

Lemma copy_down_spec : forall S1 S2 junk R, S = S1 ++ S2 -> zlen junk = zlen S1 ->
  copy_down (length S1) src (stubB :: junk ++ R) (zlen S1) (zlen S1) = Some (stubB :: S1 ++ R).
Proof using Hsrc.
  induction S1 as [|x S1 IH] using rev_ind; intros S2 junk R E Hj.
  - assert (junk = []) as -> by (apply zlen_0_nil; by rewrite Hj). done.
  - rewrite length_app, Nat.add_1_r. cbn [copy_down]. rewrite <- app_assoc in E. cbn [app] in E.
    rewrite (src_at S1 x S2) by (done || zlia). cbn [mbind option_bind].
    destruct (zsplit_snoc junk) as (j & z & ->); [zlia|].
    rewrite (set_at _ (stubB :: j) R (stubB :: j ++ x :: R) z) by (lists || zlia). cbn [mbind option_bind].
    replace (zlen (S1 ++ [x]) - 1) with (zlen S1) by zlia. rewrite (IH (x :: S2) j (x :: R)) by (done || zlia). f_equal. lists.
Qed.

(** Where an entry without a page is left, the overlapping one is too. *)
Definition gaps_ahead (E S1 : list dp) : Prop := forall z, z ∈ E -> ~ held z -> exists x, x ∈ S1 /\ ~ apart z x.

Definition extended (E1 S1 : list dp) (R : list dp) (res : option (list dp)) : Prop :=
exists M, res = Some (stubB :: M ++ R) /\ merge_of (held_part E1) S1 M.

Definition extend_all (fuel : nat) (m : list dp) (l s d : Z) : option (list dp) :=
'(m, l, s) ← extend_loop fuel src m l s d; copy_down (Z.to_nat s) src m l s.

(** The entries [E1] and [S1] are still to be merged; [junk] is free. *)
Definition extending (E1 S1 junk : list dp) : Prop :=
  (exists S2, S = S1 ++ S2) /\ zlen E1 + zlen junk = zlen (held_part E1) + zlen S1 /\
  dp_disjoint E1 /\ dp_asc E1 /\ dp_asc S1 /\ gaps_ahead E1 S1 /\ (forall y x, y ∈ E1 -> held y -> x ∈ S1 -> apart y x) /\
  Forall dp_span_ok E1 /\ Forall dp_span_ok S1.

Definition steps_left (E1 S1 junk : list dp) : Z := 2 * (zlen E1 + zlen S1) + if zlen junk =? 0 then 1 else 0.

Lemma extending_squash E1 S1 R' : extending E1 S1 [] -> zlen R' = zlen E1 - zlen (held_part E1) -> extending (held_part E1) S1 R'.
Proof.
  intros (HS & Hz & Hd & Ha & HaS & _ & Hap & Hsp & HspS) HR. pose proof (held_part_held E1) as Hh.
  assert (sublist (held_part E1) E1) as Hsub by apply sublist_filter. split_and!; try done.
  - rewrite (held_part_all _ Hh). zlia.
  - by eapply StronglySorted_sublist.
  - by eapply StronglySorted_sublist.
  - intros z Hz1 Hz2. rewrite Forall_forall in Hh. by apply Hh in Hz1.
  - intros y x Hy. apply Hap. by eapply elem_of_sublist.
  - by eapply Forall_sublist.
Qed.

Lemma extending_take_dst E1 y S1 z junk : extending (E1 ++ [y]) S1 (junk ++ [z]) -> held y -> extending E1 S1 (y :: junk).
Proof.
  intros (HS & Hz & Hd & Ha & HaS & Hg & Hap & Hsp & HspS) Hy. rewrite held_part_app, held_part_cons in Hz.
  destruct (Z.eqb_spec (dp_ptr y) 0); [done|]. apply Forall_app in Hsp as [Hsp _]. split_and!; try done.
  - unfold held_part in *. zlia.
  - by apply StronglySorted_app_iff in Hd as (? & _).
  - by apply asc_snoc_init in Ha.
  - intros w Hw. apply Hg. rewrite elem_of_app. by left.
  - intros w x Hw. apply Hap. rewrite elem_of_app. by left.
Qed.

Lemma extending_skip E1 y S1 junk : extending (E1 ++ [y]) S1 junk -> ~ held y -> extending E1 S1 (y :: junk).
Proof.
  intros (HS & Hz & Hd & Ha & HaS & Hg & Hap & Hsp & HspS) Hy. rewrite held_part_app, held_part_cons in Hz.
  destruct (Z.eqb_spec (dp_ptr y) 0); [|done]. rewrite app_nil_r in Hz. apply Forall_app in Hsp as [Hsp _]. split_and!; try done.
  - zlia.
  - by apply StronglySorted_app_iff in Hd as (? & _).
  - by apply asc_snoc_init in Ha.
  - intros w Hw. apply Hg. rewrite elem_of_app. by left.
  - intros w x Hw. apply Hap. rewrite elem_of_app. by left.
Qed.

Lemma extending_take_src E1 y S1 x z junk : extending (E1 ++ [y]) (S1 ++ [x]) (junk ++ [z]) -> held y -> dp_pgno y < dp_pgno x ->
  extending (E1 ++ [y]) S1 junk.
Proof.
  intros (HS & Hz & Hd & Ha & HaS & Hg & Hap & Hsp & HspS) Hy Hlt. pose proof Hsp as [Hsp1 [Hspy _]%Forall_cons]%Forall_app.
  apply Forall_app in HspS as [HspS [Hspx _]%Forall_cons].
  assert (apart y x) as Hyx by (apply Hap; [rewrite elem_of_app, list_elem_of_singleton; tauto|done|rewrite elem_of_app, list_elem_of_singleton; tauto]).
  split_and!; try done.
  - destruct HS as [S2 ->]. exists (x :: S2). lists.
  - zlia.
  - by apply asc_snoc_init in HaS.
  - intros w Hw Hwn. destruct (Hg w Hw Hwn) as (v & Hv & Hna). exists v. split; [|done].
    apply elem_of_app in Hv as [Hv|Hv%list_elem_of_singleton]; [done|]. subst v. exfalso. apply Hna.
    apply elem_of_app in Hw as [Hw|Hw%list_elem_of_singleton]; [|by subst]. apply StronglySorted_app_iff in Hd as (_ & _ & Hd).
    specialize (Hd w y Hw ltac:(by constructor)). left. lia.
  - intros w v Hw Hwh Hv. apply Hap; [done|done|]. rewrite elem_of_app. by left.
Qed.

Lemma extend_exit fuel E1 S1 junk R : extending E1 S1 junk -> E1 = [] \/ S1 = [] ->
  extended E1 S1 R (extend_all fuel (stubB :: E1 ++ junk ++ R) (zlen E1 + zlen junk) (zlen S1) (zlen E1)).
Proof using Hsrc.
  intros (HS & Hz & Hd & Ha & HaS & Hg & _) Hc. unfold extend_all.
  assert (forall m l, extend_loop fuel src m l (zlen S1) (zlen E1) = Some (m, l, zlen S1)) as ->.
  { intros m l. assert ((0 <? zlen S1) && (0 <? zlen E1) = false) as E by (destruct Hc as [-> | ->]; rewrite ?(@zlen_nil dp); cbn; [by rewrite andb_false_r|done]).
    destruct fuel; cbn [extend_loop]; by rewrite E. }
  cbn [mbind option_bind]. destruct (decide (S1 = [])) as [->|Hne].
  - assert (Forall held E1) as Hh.
    { apply Forall_forall. intros z Hin. destruct (decide (held z)) as [|Hn]; [done|]. destruct (Hg z Hin Hn) as (x & Hx%elem_of_nil & _). done. }
    rewrite (held_part_all _ Hh) in *. assert (junk = []) as -> by (apply zlen_0_nil; zlia).
    exists E1. split; [done|]. split; [done|]. by rewrite (held_part_all _ Hh), app_nil_r.
  - destruct Hc as [->|]; [|done]. destruct HS as [S2 HS]. unfold held_part in Hz. cbn in Hz. rewrite (@zlen_nil dp) in *.
    rewrite Z.add_0_l. cbn [app]. replace (zlen junk) with (zlen S1) by lia.
    replace (Z.to_nat (zlen S1)) with (length S1) by (unfold zlen; lia).
    rewrite (copy_down_spec S1 S2) by (done || lia). exists S1. split; [done|]. by split.
Qed.

(** The greater one of the last entries goes to the end. *)
Lemma extended_last E1 S1 E1' S1' z R res : extended E1' S1' (z :: R) res ->
  held_part E1 ++ S1 ≡ₚ (held_part E1' ++ S1') ++ [z] -> (forall y, y ∈ held_part E1' ++ S1' -> dp_pgno y < dp_pgno z) ->
  extended E1 S1 R res.
Proof.
  intros (M & -> & HM) HP Hz. exists (M ++ [z]). split; [f_equal; lists|]. by eapply merge_of_snoc.
Qed.

Definition extend_ok (fuel : nat) : Prop := forall E1 S1 junk R, extending E1 S1 junk -> steps_left E1 S1 junk <= Z.of_nat fuel ->
  extended E1 S1 R (extend_all fuel (stubB :: E1 ++ junk ++ R) (zlen E1 + zlen junk) (zlen S1) (zlen E1)).

Lemma extend_squash fuel E1 S1 R : extend_ok fuel -> extending E1 S1 [] -> S1 <> [] -> 2 * (zlen E1 + zlen S1) <= Z.of_nat fuel ->
  extended E1 S1 R ('(m, w) ← squash_begin (Z.to_nat (zlen E1)) (stubB :: E1 ++ R) 1 1; extend_all fuel m (zlen E1) (zlen S1) (w - 1)).
Proof.
  intros IH Hex HS1 Hf. pose proof Hex as (_ & Hz & _).
  destruct (squash_begin_spec R E1 [] []) as (N & HN & E). cbn [app] in E. rewrite (@zlen_nil dp) in *.
  replace (Z.to_nat (zlen E1)) with (length E1) by (unfold zlen; lia). change (0 + 0 + 1) with 1 in E. change (0 + 1) with 1 in E.
  rewrite E. cbn [mbind option_bind]. rewrite !Z.add_0_l, Z.add_simpl_r in *.
  assert (0 < zlen S1) by (destruct S1; [done|zlia]). pose proof (held_part_le E1).
  assert (zlen E1 = zlen (held_part E1) + zlen N) as Ez by lia.
  destruct (IH (held_part E1) S1 N R) as (M & EM & HM).
  - apply extending_squash; [done|lia].
  - unfold steps_left. destruct (Z.eqb_spec (zlen N) 0); lia.
  - exists M. rewrite (held_part_all _ (held_part_held E1)) in HM. by rewrite <- Ez in EM.
Qed.

Lemma extend_dst fuel E0 y S0 x J w R : extend_ok fuel -> extending (E0 ++ [y]) (S0 ++ [x]) (J ++ [w]) -> held y -> dp_pgno x < dp_pgno y ->
  2 * (zlen (E0 ++ [y]) + zlen (S0 ++ [x])) <= Z.of_nat (Datatypes.S fuel) ->
  extended (E0 ++ [y]) (S0 ++ [x]) R (m ← zset (stubB :: (E0 ++ [y]) ++ (J ++ [w]) ++ R) (zlen (E0 ++ [y]) + zlen (J ++ [w])) y;
    extend_all fuel m (zlen (E0 ++ [y]) + zlen (J ++ [w]) - 1) (zlen (S0 ++ [x])) (zlen (E0 ++ [y]) - 1)).
Proof.
  intros IH Hex Hy Hlt Hf. pose proof Hex as (_ & _ & _ & Ha & HaS & _).
  rewrite (set_at _ (stubB :: E0 ++ y :: J) R (stubB :: E0 ++ (y :: J) ++ y :: R) w) by (lists || zlia). cbn [mbind option_bind].
  apply (extended_last _ _ E0 (S0 ++ [x]) y).
  - eapply extending_take_dst in Hex; [|done]. apply (IH _ _ _ (y :: R)) in Hex. 2:{ unfold steps_left. destruct (Z.eqb_spec (zlen (y :: J)) 0); zlia. }
    replace (zlen (E0 ++ [y]) - 1) with (zlen E0) by zlia.
    replace (zlen (E0 ++ [y]) + zlen (J ++ [w]) - 1) with (zlen E0 + zlen (y :: J)) by zlia. exact Hex.
  - rewrite held_part_app, held_part_cons, <- !app_assoc. destruct (Z.eqb_spec (dp_ptr y) 0); [done|]. change (held_part []) with (@nil dp).
    cbn [app]. apply Permutation_app_head. change [x; y] with ([x] ++ [y]). rewrite app_assoc. apply Permutation_cons_append.
  - intros z [Hz'%held_part_sub|[Hz'|Hz'%list_elem_of_singleton]%elem_of_app]%elem_of_app; [by eapply asc_snoc_lt| |by subst].
    pose proof (asc_snoc_lt _ _ _ HaS Hz'). lia.
Qed.

Lemma extend_src fuel E0 y S0 x J w R : extend_ok fuel -> extending (E0 ++ [y]) (S0 ++ [x]) (J ++ [w]) -> held y -> dp_pgno y <= dp_pgno x ->
  2 * (zlen (E0 ++ [y]) + zlen (S0 ++ [x])) <= Z.of_nat (Datatypes.S fuel) ->
  extended (E0 ++ [y]) (S0 ++ [x]) R (m ← zset (stubB :: (E0 ++ [y]) ++ (J ++ [w]) ++ R) (zlen (E0 ++ [y]) + zlen (J ++ [w])) x;
    extend_all fuel m (zlen (E0 ++ [y]) + zlen (J ++ [w]) - 1) (zlen (S0 ++ [x]) - 1) (zlen (E0 ++ [y]))).
Proof.
  intros IH Hex Hy Hge Hf. pose proof Hex as (_ & _ & _ & Ha & HaS & _ & Hap & Hsp & HspS).
  assert (dp_pgno y < dp_pgno x) as Hlt.
  { assert (dp_pgno y <> dp_pgno x); [|lia]. apply Forall_app in Hsp as [_ [Hspy _]%Forall_cons]. apply Forall_app in HspS as [_ [Hspx _]%Forall_cons].
    apply apart_ne; [done|done|]. apply Hap; [rewrite elem_of_app, list_elem_of_singleton; tauto|done|rewrite elem_of_app, list_elem_of_singleton; tauto]. }
  rewrite (set_at _ (stubB :: E0 ++ y :: J) R (stubB :: (E0 ++ [y]) ++ J ++ x :: R) w) by (lists || zlia). cbn [mbind option_bind].
  apply (extended_last _ _ (E0 ++ [y]) S0 x).
  - eapply extending_take_src in Hex; [|done|done]. apply (IH _ _ _ (x :: R)) in Hex. 2:{ unfold steps_left. destruct (Z.eqb_spec (zlen J) 0); zlia. }
    replace (zlen (S0 ++ [x]) - 1) with (zlen S0) by zlia.
    replace (zlen (E0 ++ [y]) + zlen (J ++ [w]) - 1) with (zlen (E0 ++ [y]) + zlen J) by zlia. exact Hex.
  - by rewrite <- !app_assoc.
  - intros z [Hz'%held_part_sub|Hz']%elem_of_app; [|by eapply asc_snoc_lt].
    apply elem_of_app in Hz' as [Hz'|Hz'%list_elem_of_singleton]; [|by subst]. pose proof (asc_snoc_lt _ _ _ Ha Hz'). lia.
Qed.

Lemma bind_assoc_pair {A B C} (e : option (A * B)) (f : A -> B -> option C) {D} (g : C -> option D) :
  (c ← ('(a, b) ← e; f a b); g c) = ('(a, b) ← e; (c ← f a b; g c)).
Proof. by destruct e as [[]|]. Qed.

Lemma extend_spec (fuel : nat) : extend_ok fuel.
Proof using All.
  induction fuel as [|fuel IH]; intros E1 S1 junk R Hex Hf.
  { apply extend_exit; [done|]. left. apply zlen_0_nil. unfold steps_left in Hf. destruct (_ =? 0); zlia. }
  destruct (decide (E1 = [])) as [->|HE]; [apply extend_exit; [done|by left]|].
  destruct (decide (S1 = [])) as [->|HS1]; [apply extend_exit; [done|by right]|].
  destruct (zsplit_snoc E1) as (E0 & y & ->). { destruct E1; [done|zlia]. }
  destruct (zsplit_snoc S1) as (S0 & x & ->). { destruct S1; [done|zlia]. }
  unfold extend_all. cbn [extend_loop]. zlen_pos. assert ((0 <? zlen (S0 ++ [x])) && (0 <? zlen (E0 ++ [y])) = true) as -> by zlia.
  unfold steps_left in Hf. destruct (Z.eqb_spec (zlen junk) 0) as [Ej|Ej].
  - apply zlen_0_nil in Ej. subst junk. rewrite (@zlen_nil dp), Z.add_0_r, Z.leb_refl, bind_assoc_pair. cbn [app].
    apply extend_squash; [done|done|done|lia].
  - destruct (zsplit_snoc junk) as (J & w & ->); [pose proof (zlen_nonneg junk); lia|]. destruct (Z.leb_spec (zlen (E0 ++ [y]) + zlen (J ++ [w])) (zlen (E0 ++ [y]))); [zlia|].
    rewrite (get_at (stubB :: (E0 ++ [y]) ++ (J ++ [w]) ++ R) (stubB :: E0) ((J ++ [w]) ++ R) y) by (lists || zlia). cbn [mbind option_bind].
    destruct (Z.eqb_spec (dp_ptr y) 0) as [Ey|Ey]; cbn [negb].
    + assert (extending E0 (S0 ++ [x]) (y :: J ++ [w])) as Hex' by (apply extending_skip; [done|by intros []]).
      apply (IH _ _ _ R) in Hex'. 2:{ unfold steps_left. destruct (Z.eqb_spec (zlen (y :: J ++ [w])) 0); zlia. }
      destruct Hex' as (M & EM & HM). exists M. rewrite held_part_app, held_part_cons, Ey, Z.eqb_refl, app_nil_r. split; [|done].
      rewrite <- EM. unfold extend_all. f_equal. f_equal; [lists|zlia|zlia].
    + pose proof Hex as ([S2 HS] & _). rewrite (src_at S0 x S2) by first [zlia | rewrite HS; lists]. cbn [mbind option_bind].
      destruct (Z.ltb_spec (dp_pgno x) (dp_pgno y)).
      * rewrite (option_bind_assoc _ _ _). apply extend_dst; [done..|lia].
      * rewrite (option_bind_assoc _ _ _). apply extend_src; [done..|lia].
Qed.

(** ** Merging from the begin *)

Lemma copy_up_spec R : forall S2 S1 L junk, S = S1 ++ S2 -> zlen S2 <= zlen junk -> exists junk',
  copy_up (length S2) (dl_items src) (stubB :: L ++ junk ++ R) (zlen L + 1) (zlen S1 + 1) = Some (stubB :: L ++ S2 ++ junk' ++ R) /\
  zlen junk' = zlen junk - zlen S2.
Proof using Hsrc.
  induction S2 as [|x S2 IH]; intros S1 L junk E Hj; cbn [length copy_up].
  - exists junk. split; [done|zlia].
  - rewrite (src_at S1 x S2) by (done || zlia). cbn [mbind option_bind]. destruct junk as [|z junk]; [zlia|].
    rewrite (set_at _ (stubB :: L) (junk ++ R) (stubB :: (L ++ [x]) ++ junk ++ R) z) by (lists || zlia). cbn [mbind option_bind].
    destruct (IH (S1 ++ [x]) (L ++ [x]) junk) as (junk' & E1 & H1); [rewrite E; lists|zlia|].
    exists junk'. split; [|zlia]. replace (zlen L + 1 + 1) with (zlen (L ++ [x]) + 1) by zlia.
    replace (zlen S1 + 1 + 1) with (zlen (S1 ++ [x]) + 1) by zlia. rewrite E1. f_equal. lists.
Qed.

Lemma move_up_spec R : forall E L junk, exists junk',
  move_up (length E) (stubB :: L ++ junk ++ E ++ R) (zlen L + 1) (zlen L + zlen junk + 1) = Some (stubB :: L ++ E ++ junk' ++ R) /\
  zlen junk' = zlen junk.
Proof.
  induction E as [|x E IH]; intros L junk; cbn [length move_up].
  - exists junk. by split.
  - rewrite (get_at _ (stubB :: L ++ junk) (E ++ R) x) by (lists || zlia). cbn [mbind option_bind].
    destruct (zmove_down (stubB :: L) junk x (E ++ R)) as (gap & Hgap & Eg).
    replace (zlen L + 1) with (zlen (stubB :: L)) by zlia. cbn [app] in Eg |- *. rewrite Eg. cbn [mbind option_bind].
    destruct (IH (L ++ [x]) gap) as (junk' & E1 & H1). exists junk'. split; [|lia].
    replace (zlen (stubB :: L) + 1) with (zlen (L ++ [x]) + 1) by zlia.
    replace (zlen L + zlen junk + 1 + 1) with (zlen (L ++ [x]) + zlen gap + 1) by zlia. rewrite <- app_assoc in E1. cbn [app] in E1.
    rewrite <- !app_assoc. cbn [app]. rewrite E1. f_equal. lists.
Qed.

Definition shrink_all (fuel : nat) (m : list dp) (length merged l s d : Z) : option (list dp) :=
'(m, l, s, d) ← shrink_loop fuel src m length l s d;
if s <=? dl_length src then copy_up (Z.to_nat (dl_length src - s + 1)) (dl_items src) m l s
else move_up (Z.to_nat (merged - l + 1)) m l d.

(** [L] is merged, [junk] is free, [E2] and the entries behind [S1] are to come. *)
Definition shrunk (L E2 S2 : list dp) (R : list dp) (n : Z) (res : option (list dp)) : Prop :=
exists M junk, res = Some (stubB :: L ++ M ++ junk ++ R) /\ merge_of E2 S2 M /\ zlen junk = n.

Definition shrinking (L junk E2 S1 S2 : list dp) (length merged : Z) : Prop :=
  S = S1 ++ S2 /\ zlen junk = zlen S2 + (length - merged) /\ length = zlen L + zlen junk + zlen E2 /\ merged < length /\
  dp_asc E2 /\ dp_asc S2 /\ Forall held E2 /\ Forall dp_span_ok E2 /\ Forall dp_span_ok S2 /\ (forall y x, y ∈ E2 -> x ∈ S2 -> apart y x).

Lemma shrink_exit fuel L junk E2 S1 S2 R length merged : shrinking L junk E2 S1 S2 length merged -> E2 = [] \/ S2 = [] ->
  shrunk L E2 S2 R (length - merged) (shrink_all fuel (stubB :: L ++ junk ++ E2 ++ R) length merged (zlen L + 1) (zlen S1 + 1) (zlen L + zlen junk + 1)).
Proof using Hsrc Hlen.
  intros (HS & Hj & Hl & Hm & Ha & HaS & _) Hc. unfold shrink_all. assert (zlen S = zlen S1 + zlen S2) as ES by (rewrite HS; zlia).
  assert (forall m l, shrink_loop fuel src m length l (zlen S1 + 1) (zlen L + zlen junk + 1) = Some (m, l, zlen S1 + 1, zlen L + zlen junk + 1)) as ->.
  { intros m l. assert ((zlen S1 + 1 <=? dl_length src) && (zlen L + zlen junk + 1 <=? length) = false) as E.
    { rewrite Hlen. apply andb_false_iff. destruct Hc as [-> | ->]; [right|left]; apply Z.leb_gt; zlia. }
    destruct fuel; cbn [shrink_loop]; by rewrite E. }
  cbn [mbind option_bind]. rewrite Hlen, ES. zlen_pos. destruct (Z.leb_spec (zlen S1 + 1) (zlen S1 + zlen S2)) as [Hlt|Hge].
  - destruct Hc as [-> | ->]; [|zlia]. rewrite (@zlen_nil dp) in *.
    replace (Z.to_nat (zlen S1 + zlen S2 - (zlen S1 + 1) + 1)) with (Datatypes.length S2) by (unfold zlen; lia).
    destruct (copy_up_spec ([] ++ R) S2 S1 L junk HS) as (J & -> & HJ); [lia|]. exists S2, J. split; [done|]. split; [|lia]. by split.
  - assert (S2 = []) as -> by (apply zlen_0_nil; zlia). rewrite (@zlen_nil dp) in *.
    replace (Z.to_nat (merged - (zlen L + 1) + 1)) with (Datatypes.length E2) by (unfold zlen in *; lia).
    destruct (move_up_spec R E2 L junk) as (J & -> & HJ). exists E2, J. split; [done|]. split; [|lia]. split; [done|]. by rewrite app_nil_r.
Qed.

Lemma shrunk_first L z E2 S2 E2' S2' R n res : shrunk (L ++ [z]) E2' S2' R n res -> E2 ++ S2 ≡ₚ z :: E2' ++ S2' ->
  (forall y, y ∈ E2' ++ S2' -> dp_pgno z < dp_pgno y) -> shrunk L E2 S2 R n res.
Proof.
  intros (M & J & -> & HM & HJ) HP Hz. exists (z :: M), J. split; [f_equal; lists|]. split; [|done]. by eapply merge_of_cons.
Qed.

Lemma asc_cons_lt x l y : dp_asc (x :: l) -> y ∈ l -> dp_pgno x < dp_pgno y.
Proof. intros [_ H]%dp_asc_cons_iff. apply H. Qed.

Lemma shrinking_dst L w J y E2 S1 S2 length merged : shrinking L (w :: J) (y :: E2) S1 S2 length merged -> exists J', zlen J' = zlen (w :: J) /\
  (forall R, zset (stubB :: L ++ (w :: J) ++ (y :: E2) ++ R) (zlen L + 1) y = Some (stubB :: (L ++ [y]) ++ J' ++ E2 ++ R)) /\
  shrinking (L ++ [y]) J' E2 S1 S2 length merged.
Proof.
  intros (HS & Hj & Hl & Hm & Ha & HaS & Hh & Hsp & HspS & Hap). exists (J ++ [y]). split; [zlia|]. split.
  - intros R. apply (set_at _ (stubB :: L) (J ++ y :: E2 ++ R) _ w); lists || zlia.
  - apply dp_asc_cons_iff in Ha as [Ha _]. apply Forall_cons in Hh as [_ Hh]. apply Forall_cons in Hsp as [_ Hsp].
    split_and!; try done; [zlia|zlia|]. intros z x Hz. apply Hap. by constructor.
Qed.

Lemma shrinking_src L w J E2 S1 x S2 length merged : shrinking L (w :: J) E2 S1 (x :: S2) length merged ->
  shrinking (L ++ [x]) J E2 (S1 ++ [x]) S2 length merged.
Proof.
  intros (HS & Hj & Hl & Hm & Ha & HaS & Hh & Hsp & HspS & Hap). apply dp_asc_cons_iff in HaS as [HaS _]. apply Forall_cons in HspS as [_ HspS].
  split_and!; try done; [rewrite HS; lists|zlia|zlia|]. intros y z Hy Hz. apply Hap; [done|by constructor].
Qed.

Lemma shrink_spec : forall (fuel : nat) L junk E2 S1 S2 R length merged, shrinking L junk E2 S1 S2 length merged ->
  zlen E2 + zlen S2 <= Z.of_nat fuel ->
  shrunk L E2 S2 R (length - merged) (shrink_all fuel (stubB :: L ++ junk ++ E2 ++ R) length merged (zlen L + 1) (zlen S1 + 1) (zlen L + zlen junk + 1)).
Proof using All.
  induction fuel as [|fuel IH]; intros L junk E2 S1 S2 R length merged Hsh Hf.
  { apply shrink_exit; [done|]. left. apply zlen_0_nil. zlia. }
  destruct E2 as [|y E2]; [apply shrink_exit; [done|by left]|]. destruct S2 as [|x S2]; [apply shrink_exit; [done|by right]|].
  pose proof Hsh as (HS & Hj & Hl & Hm & Ha & HaS & Hh & Hsp & HspS & Hap). destruct junk as [|w J]; [zlia|].
  unfold shrink_all. cbn [shrink_loop]. assert (zlen S = zlen S1 + zlen (x :: S2)) as ES by (rewrite HS; zlia). rewrite Hlen at 1.
  destruct (Z.leb_spec (zlen S1 + 1) (zlen S)); [|zlia]. destruct (Z.leb_spec (zlen L + zlen (w :: J) + 1) length); [|zlia]. cbn [andb].
  destruct (Z.leb_spec (zlen L + zlen (w :: J) + 1) (zlen L + 1)); [zlia|].
  rewrite (get_at (stubB :: L ++ (w :: J) ++ (y :: E2) ++ R) (stubB :: L ++ w :: J) (E2 ++ R) y) by (lists || zlia). cbn [mbind option_bind].
  pose proof Hh as [Hy _]%Forall_cons. destruct (Z.eqb_spec (dp_ptr y) 0); [done|]. cbn [negb].
  rewrite (src_at S1 x S2) by (done || zlia). cbn [mbind option_bind].
  destruct (Z.ltb_spec (dp_pgno y) (dp_pgno x)) as [Hlt|Hge].
  - destruct (shrinking_dst _ _ _ _ _ _ _ _ _ Hsh) as (J' & HJ' & E & Hsh'). rewrite E. cbn [mbind option_bind].
    apply (shrunk_first L y _ _ E2 (x :: S2)).
    + apply (IH _ _ _ _ _ R) in Hsh'; [|zlia]. replace (zlen L + 1 + 1) with (zlen (L ++ [y]) + 1) by zlia.
      replace (zlen L + zlen (w :: J) + 1 + 1) with (zlen (L ++ [y]) + zlen J' + 1) by zlia. exact Hsh'.
    + done.
    + intros z [Hz|Hz]%elem_of_app; [by eapply asc_cons_lt|]. apply elem_of_cons in Hz as [->|Hz]; [done|]. pose proof (asc_cons_lt _ _ _ HaS Hz). lia.
  - assert (dp_pgno x < dp_pgno y) as Hlt.
    { assert (dp_pgno y <> dp_pgno x); [|lia]. apply Forall_cons in Hsp as [Hspy _]. apply Forall_cons in HspS as [Hspx _].
      apply apart_ne; [done|done|]. apply Hap; by constructor. }
    rewrite (set_at _ (stubB :: L) (J ++ (y :: E2) ++ R) (stubB :: (L ++ [x]) ++ J ++ (y :: E2) ++ R) w) by (lists || zlia). cbn [mbind option_bind].
    apply (shrunk_first L x _ _ (y :: E2) S2).
    + apply shrinking_src in Hsh. apply (IH _ _ _ _ _ R) in Hsh; [|zlia]. replace (zlen L + 1 + 1) with (zlen (L ++ [x]) + 1) by zlia.
      replace (zlen S1 + 1 + 1) with (zlen (S1 ++ [x]) + 1) by zlia. replace (zlen L + zlen (w :: J) + 1) with (zlen (L ++ [x]) + zlen J + 1) by zlia. exact Hsh.
    + by rewrite <- Permutation_middle.
    + intros z [Hz|Hz]%elem_of_app; [|by eapply asc_cons_lt]. apply elem_of_cons in Hz as [->|Hz]; [done|]. pose proof (asc_cons_lt _ _ _ Ha Hz). lia.
Qed.

(** ** The entries of the parent *)

(** An entry that overlaps with one of the nested transaction loses its page. *)
Definition mark (y : dp) : dp := if decide (Forall (apart y) S) then y else mk_dp 0 (dp_pgno y) (dp_npages_ y).
Definition spared (D : list dp) : list dp := filter (fun y => Forall (apart y) S) D.
Definition replaced (D : list dp) : list dp := filter (fun y => ~ Forall (apart y) S) D.

Lemma mark_span y : dp_pgno (mark y) = dp_pgno y /\ dp_npages_ (mark y) = dp_npages_ y.
Proof. unfold mark. by case_decide. Qed.

Lemma mark_fmap_sorted (Q : dp -> dp -> Prop) D : (forall x y, Q x y -> Q (mark x) (mark y)) -> StronglySorted Q D -> StronglySorted Q (mark <$> D).
Proof.
  intros HQ. induction 1 as [|x D _ IH Hx]; [constructor|]. cbn. constructor; [done|]. apply Forall_fmap. eapply Forall_impl; [exact Hx|].
  intros y. apply HQ.
Qed.

Lemma held_marked D : Forall held D -> held_part (mark <$> D) = spared D.
Proof.
  induction 1 as [|y D Hy _ IH]; [done|]. cbn [fmap list_fmap]. rewrite held_part_cons, IH. unfold spared, mark.
  destruct (decide (Forall (apart y) S)) as [H|H].
  - rewrite filter_cons_True by done. by destruct (Z.eqb_spec (dp_ptr y) 0).
  - by rewrite filter_cons_False by done.
Qed.

Lemma marked_gap z (D : list dp) : z ∈ mark <$> D -> ~ held z -> Forall held D -> exists x, x ∈ S /\ ~ apart z x.
Proof.
  intros (y & -> & Hy)%list_elem_of_fmap_1 Hn Hh. rewrite Forall_forall in Hh. pose proof (mark_span y) as [E1 E2]. unfold mark in *.
  case_decide as Hd; [by specialize (Hh y Hy)|]. apply not_Forall_Exists, Exists_exists in Hd as (x & Hx & Hna); [|apply _]. by exists x.
Qed.

Lemma marked_held z (D : list dp) x : z ∈ mark <$> D -> held z -> x ∈ S -> apart z x.
Proof.
  intros (y & -> & Hy)%list_elem_of_fmap_1 Hn Hx. unfold mark in *. case_decide as Hd; [|done]. rewrite Forall_forall in Hd. by apply Hd.
Qed.

Lemma spared_le D : zlen (spared D) <= zlen D.
Proof. unfold zlen, spared. pose proof (length_filter (fun y => Forall (apart y) S) D). lia. Qed.

Record entries_ok (D : list dp) : Prop := {
  eo_disjoint : dp_disjoint D;
  eo_span : Forall dp_span_ok D;
  eo_valid : Forall dp_valid D;
}.

Lemma marked_ok D : entries_ok D -> entries_ok (mark <$> D).
Proof.
  intros [Hd Hs Hv]. split.
  - apply mark_fmap_sorted; [|done]. intros x y. destruct (mark_span x) as [-> ->], (mark_span y) as [-> _]. done.
  - apply Forall_fmap. eapply Forall_impl; [exact Hs|]. intros y. unfold compose, dp_span_ok. destruct (mark_span y) as [-> ->]. done.
  - apply Forall_fmap. eapply Forall_impl; [exact Hv|]. intros y. unfold compose, dp_valid. destruct (mark_span y) as [-> _]. done.
Qed.

Lemma held_sub_ok D : entries_ok D -> entries_ok (held_part D).
Proof. intros [Hd Hs Hv]. split; [by apply StronglySorted_filter|..]; (eapply Forall_sublist; [apply sublist_filter|done]). Qed.

Lemma shrink_first D rest : entries_ok D -> Forall held D -> entries_ok S -> zlen (spared D) + zlen S < zlen D ->
  exists M junk, shrink_all (Z.to_nat (2 * (zlen S + zlen D) + 2)) (stubB :: (mark <$> D) ++ rest) (zlen D) (zlen (spared D) + zlen S) 1 1 1 =
    Some (stubB :: M ++ junk ++ rest) /\ merge_of (spared D) S M /\ zlen junk = zlen D - zlen (spared D) - zlen S.
Proof using All.
  intros HD Hh HS Hlt. pose proof (marked_ok D HD) as HE. pose proof (held_marked D Hh) as EhE.
  assert (0 < zlen S). { assert (S <> []); [|destruct S; [done|zlia]]. intros E. unfold spared in Hlt. rewrite filter_all in Hlt; [zlia|]. intros y _. rewrite E. constructor. }
  assert (zlen (mark <$> D) = zlen D) as EzE by apply zlen_fmap. zlen_pos.
  replace (Z.to_nat (2 * (zlen S + zlen D) + 2)) with (Datatypes.S (Z.to_nat (2 * (zlen S + zlen D) + 1))) by lia.
  unfold shrink_all. cbn [shrink_loop]. rewrite Hlen. destruct (Z.leb_spec 1 (zlen S)); [|lia]. destruct (Z.leb_spec 1 (zlen D)); [|lia]. cbn [andb].
  destruct (squash_end_spec [stubB] (mark <$> D) [] rest) as (N & HN & E). rewrite (@zlen_nil dp), EhE, EzE in *.
  replace (zlen D - 1 + 1) with (zlen D) by lia. replace (Z.to_nat (zlen D)) with (Datatypes.length (mark <$> D)) by (rewrite <- EzE; unfold zlen; lia).
  cbn [app] in E. change (1 <=? 1) with true. cbn iota. replace (zlen [stubB] + zlen D - 1) with (zlen D) in E by zlia.
  replace (zlen [stubB] + zlen D + 0 - 1) with (zlen D) in E by zlia. rewrite E. cbn [mbind option_bind].
  pose proof (held_sub_ok _ HE) as [Hd2 Hs2 _]. rewrite EhE in Hd2, Hs2. pose proof (held_part_held (mark <$> D)) as Hh2. rewrite EhE in Hh2.
  destruct (shrink_spec (Z.to_nat (2 * (zlen S + zlen D) + 1)) [] N (spared D) [] S rest (zlen D) (zlen (spared D) + zlen S)) as (M & J & EJ & HM & HJ).
  - split_and!; try done; try zlia; try (by apply disjoint_asc; [apply HS|apply HS]); [by apply disjoint_asc|apply HS|].
    intros y x [Hy _]%list_elem_of_filter Hx. rewrite Forall_forall in Hy. by apply Hy.
  - lia.
  - exists M, J. split; [|split; [done|lia]]. cbn [app] in EJ. rewrite <- EJ. unfold shrink_all. rewrite (@zlen_nil dp), <- Hlen.
    replace (zlen [stubB] + zlen N - 1 + 1) with (0 + zlen N + 1) by zlia. done.
Qed.

Lemma merge_items_spec D rest : entries_ok D -> Forall held D -> entries_ok S -> zlen S <= zlen rest ->
  exists M rest', merge_items src (stubB :: (mark <$> D) ++ rest) (zlen D) (zlen (spared D) + zlen S) = Some (stubB :: M ++ rest') /\
    merge_of (spared D) S M /\ zlen M + zlen rest' = zlen D + zlen rest.
Proof using All.
  intros HD Hh HS Hr. pose proof (marked_ok D HD) as HE. pose proof (held_marked D Hh) as EhE. pose proof (spared_le D).
  assert (zlen (mark <$> D) = zlen D) as EzE by apply zlen_fmap. zlen_pos.
  assert (forall M, merge_of (spared D) S M -> zlen M = zlen (spared D) + zlen S) as HzM.
  { intros M [_ HP]. unfold zlen. rewrite HP, length_app. lia. }
  unfold merge_items. rewrite Hlen. destruct (Z.leb_spec (zlen D) (zlen (spared D) + zlen S)) as [Hle|Hgt].
  - destruct (zsplit rest (zlen (spared D) + zlen S - zlen D)) as (junk & R & -> & Hj); [lia|].
    destruct (extend_spec (Z.to_nat (2 * (zlen S + zlen D) + 2)) (mark <$> D) S junk R) as (M & EM & HM).
    + destruct HE as [Hd2 Hs2 _], HS as [HdS HsS _]. split_and!; try done; [by exists []; rewrite app_nil_r|rewrite EhE; lia|by apply disjoint_asc|by apply disjoint_asc| |].
      * intros z Hz Hn. by eapply marked_gap.
      * intros y x Hy Hyh Hx. by eapply marked_held.
    + unfold steps_left. rewrite EzE. destruct (_ =? 0); lia.
    + rewrite EhE in HM. exists M, R. split; [|split; [done|]]. 2:{ rewrite (HzM M HM). zlia. }
      rewrite EzE, Hj in EM. replace (zlen D + (zlen (spared D) + zlen S - zlen D)) with (zlen (spared D) + zlen S) in EM by lia. exact EM.
  - destruct (shrink_first D rest HD Hh HS Hgt) as (M & J & EJ & HM & HJ). exists M, (J ++ rest). split; [|split; [done|]].
    + rewrite <- EJ. unfold shrink_all. by rewrite <- Hlen.
    + rewrite (HzM M HM). zlia.
Qed.

(** ** Counting *)

Definition adopt_all (front : Z) (hdrs : Z -> hdr) (l : list dp) : Z -> hdr := foldr (fun x h => adopt front h (dp_ptr x)) hdrs l.

Lemma adopt_rest_spec front : forall S1 S2 hdrs, S = S1 ++ S2 -> adopt_rest (length S1) front src hdrs = Some (adopt_all front hdrs S1).
Proof using Hsrc.
  induction S1 as [|x S1 IH] using rev_ind; intros S2 hdrs E; [done|]. rewrite length_app, Nat.add_1_r. cbn [adopt_rest].
  rewrite <- app_assoc in E. cbn [app] in E. rewrite (src_at S1 x S2) by first [done | unfold zlen; lia]. cbn [mbind option_bind].
  rewrite (IH (x :: S2)) by done. unfold adopt_all. by rewrite foldr_app.
Qed.

Lemma entries_app A B : entries_ok (A ++ B) -> entries_ok A /\ entries_ok B /\
  (forall x y, x ∈ A -> y ∈ B -> dp_pgno x + dp_npages_ x <= dp_pgno y).
Proof.
  intros [(Hd1 & Hd2 & Hd)%StronglySorted_app_iff [Hs1 Hs2]%Forall_app [Hv1 Hv2]%Forall_app]. by split_and!.
Qed.

Lemma mark_apart y : (forall x, x ∈ S -> apart y x) -> mark y = y /\ spared [y] = [y] /\ replaced [y] = [].
Proof.
  intros H. assert (Forall (apart y) S) as HF by (by apply Forall_forall). unfold mark, spared, replaced. rewrite decide_True by done.
  rewrite filter_cons_True by done. rewrite filter_cons_False by tauto. done.
Qed.

Lemma mark_overlap y x : x ∈ S -> ~ apart y x -> mark y = mk_dp 0 (dp_pgno y) (dp_npages_ y) /\ spared [y] = [] /\ replaced [y] = [y].
Proof.
  intros Hx Hn. assert (~ Forall (apart y) S) as HF by (rewrite Forall_forall; auto). unfold mark, spared, replaced. rewrite decide_False by done.
  rewrite filter_cons_False by done. rewrite filter_cons_True by done. done.
Qed.

(** [D2] and [S2] have been passed. *)
Definition counted (front : Z) (D1 D2 S1 : list dp) (rest : list dp) (env : shadow) (hdrs : Z -> hdr) (l : Z)
  (res : option (list dp * shadow * (Z -> hdr) * Z * Z * Z)) : Prop :=
exists hdrs1 l' d' s', res = Some (stubB :: (mark <$> D1 ++ D2) ++ rest, release_pages (rev (replaced D1)) env, hdrs1, l', d', s') /\
  l' + d' + s' = l + zlen (spared D1) + zlen S1 /\ adopt_rest (Z.to_nat s') front src hdrs1 = Some (adopt_all front hdrs S1).

Lemma counted_exit front fuel D1 D2 S1 S2 rest env hdrs l : S = S1 ++ S2 -> (forall y x, y ∈ D1 -> x ∈ S2 -> apart y x) -> D1 = [] \/ S1 = [] ->
  counted front D1 D2 S1 rest env hdrs l (count_merged fuel front src (stubB :: D1 ++ (mark <$> D2) ++ rest) env hdrs l (zlen D1) (zlen S1)).
Proof using Hsrc.
  intros HS Hap Hc. assert (count_merged fuel front src (stubB :: D1 ++ (mark <$> D2) ++ rest) env hdrs l (zlen D1) (zlen S1) =
    Some (stubB :: D1 ++ (mark <$> D2) ++ rest, env, hdrs, l, zlen D1, zlen S1)) as ->.
  { assert ((0 <? zlen D1) && (0 <? zlen S1) = false) as E by (destruct Hc as [-> | ->]; rewrite ?(@zlen_nil dp); cbn; [done|by rewrite andb_false_r]).
    destruct fuel; cbn [count_merged]; by rewrite E. }
  assert (Forall (fun y => Forall (apart y) S) D1) as Hall.
  { destruct Hc as [-> | ->]; [constructor|]. cbn [app] in HS. subst S2. apply Forall_forall. intros y Hy. apply Forall_forall. auto. }
  rewrite Forall_forall in Hall. exists hdrs, l, (zlen D1), (zlen S1). split_and!.
  - unfold replaced. rewrite filter_none by auto. cbn [rev release_pages]. rewrite fmap_app, <- app_assoc.
    assert (mark <$> D1 = D1) as ->; [|done]. rewrite <- (list_fmap_id D1) at 2. apply list_fmap_ext. intros i y Hy%list_elem_of_lookup_2.
    unfold mark. by rewrite decide_True by auto.
  - unfold spared. rewrite filter_all by auto. lia.
  - replace (Z.to_nat (zlen S1)) with (length S1) by (unfold zlen; lia). by eapply adopt_rest_spec.
Qed.

Lemma count_merged_spec front rest : forall (fuel : nat) D1 D2 S1 S2 env hdrs l, S = S1 ++ S2 -> entries_ok D1 -> entries_ok S1 ->
  (forall y x, y ∈ D1 -> x ∈ S2 -> apart y x) -> zlen D1 + zlen S1 <= Z.of_nat fuel ->
  counted front D1 D2 S1 rest env hdrs l (count_merged fuel front src (stubB :: D1 ++ (mark <$> D2) ++ rest) env hdrs l (zlen D1) (zlen S1)).
Proof using All.
  induction fuel as [|fuel IH]; intros D1 D2 S1 S2 env hdrs l HS HD HS1 Hap Hf.
  { eapply counted_exit; [done|done|]. left. apply zlen_0_nil. zlia. }
  destruct D1 as [|y D1 _] using rev_ind; [eapply counted_exit; [done|done|by left]|].
  destruct S1 as [|x S1 _] using rev_ind; [eapply counted_exit; [done|done|by right]|].
  cbn [count_merged]. assert ((0 <? zlen (D1 ++ [y])) && (0 <? zlen (S1 ++ [x])) = true) as -> by zlia.
  rewrite (src_at S1 x S2) by first [zlia | rewrite HS; lists].
  cbn [mbind option_bind]. rewrite (get_at _ (stubB :: D1) ((mark <$> D2) ++ rest) y) by (lists || zlia). cbn [mbind option_bind].
  pose proof (entries_app _ _ HD) as (HD1 & HDy & HDl). pose proof (entries_app _ _ HS1) as (HS1' & HSx & HSl).
  pose proof (eo_span _ HDy) as [[Hny Hey] _]%Forall_cons. pose proof (eo_span _ HSx) as [[Hnx Hex] _]%Forall_cons.
  pose proof (eo_valid _ HDy) as [Hvy _]%Forall_cons. pose proof (eo_valid _ HSx) as [Hvx _]%Forall_cons. unfold dp_valid, P_INVALID, UINT32_MAX, dp_npages in *.
  assert (x ∈ S) as HxS by (rewrite HS, !elem_of_app, list_elem_of_singleton; tauto).
  rewrite (u32_small (dp_pgno x + _)), (u32_small (dp_pgno y + _)) by (unfold UINT32_MAX; lia).
  assert (forall z, z ∈ S1 -> dp_pgno z + dp_npages_ z <= dp_pgno x) as HSx' by (intros z Hz; apply HSl; [done|by constructor]).
  assert (forall z, z ∈ D1 -> dp_pgno z + dp_npages_ z <= dp_pgno y) as HDy' by (intros z Hz; apply HDl; [done|by constructor]).
  destruct (Z.leb_spec (dp_pgno x + dp_npages_ x) (dp_pgno y)) as [Hle|Hgt].
  - destruct (mark_apart y) as (Em & Es & Er).
    { intros z. rewrite HS, <- app_assoc, !elem_of_app, list_elem_of_singleton. intros [Hz|[->|Hz]]; [right; specialize (HSx' z Hz); lia|by right|].
      apply Hap; [rewrite elem_of_app, list_elem_of_singleton; tauto|done]. }
    destruct (IH D1 (y :: D2) (S1 ++ [x]) S2 env hdrs (l + 1)) as (h & l' & d' & s' & E & Hs & Hh); try done.
    { intros z v Hz. apply Hap. rewrite elem_of_app. by left. } { zlia. }
    cbn [fmap list_fmap] in E. rewrite Em in E. exists h, l', d', s'. split_and!; [|unfold spared in *; rewrite filter_app, Es; zlia|done].
    unfold replaced in *. rewrite filter_app, Er, app_nil_r. replace (zlen (D1 ++ [y]) - 1) with (zlen D1) by zlia. replace ((D1 ++ [y]) ++ D2) with (D1 ++ y :: D2) by lists.
    replace ((D1 ++ [y]) ++ (mark <$> D2) ++ rest) with (D1 ++ (y :: (mark <$> D2)) ++ rest) by lists. exact E.
  - destruct (Z.leb_spec (dp_pgno y + dp_npages_ y) (dp_pgno x)) as [Hle2|Hgt2].
    + destruct (IH (D1 ++ [y]) D2 S1 (x :: S2) env (adopt front hdrs (dp_ptr x)) (l + 1)) as (h & l' & d' & s' & E & Hs & Hh); try done.
      { rewrite HS. lists. } { intros z v Hz Hv. apply elem_of_cons in Hv as [->|Hv]; [|by apply Hap]. left.
        apply elem_of_app in Hz as [Hz|Hz%list_elem_of_singleton]; [|by subst]. specialize (HDy' z Hz). lia. } { zlia. }
      exists h, l', d', s'. replace (zlen (S1 ++ [x]) - 1) with (zlen S1) by zlia. split_and!; [done|zlia|].
      rewrite Hh. unfold adopt_all. by rewrite foldr_app.
    + destruct (mark_overlap y x) as (Em & Es & Er); [done|unfold apart; lia|].
      rewrite (set_at _ (stubB :: D1) ((mark <$> D2) ++ rest) (stubB :: D1 ++ (mark <$> y :: D2) ++ rest) y) by first [lists | zlia | cbn [fmap list_fmap]; rewrite Em; lists].
      cbn [mbind option_bind].
      destruct (IH D1 (y :: D2) (S1 ++ [x]) S2 (page_shadow_release env (dp_ptr y) (dp_npages_ y)) hdrs l) as (h & l' & d' & s' & E & Hs & Hh); try done.
      { intros z v Hz. apply Hap. rewrite elem_of_app. by left. } { zlia. }
      exists h, l', d', s'. replace (zlen (D1 ++ [y]) - 1) with (zlen D1) by zlia. split_and!; [|unfold spared in *; rewrite filter_app, Es; zlia|done].
      unfold replaced in *. rewrite filter_app, Er, rev_app_distr. cbn [rev app release_pages]. replace ((D1 ++ [y]) ++ D2) with (D1 ++ y :: D2) by lists. exact E.
Qed.
End Src.

(** ** The whole step *)

Lemma recount_spec rest : forall M2 M1 dl, dl_items dl = stubB :: M1 ++ M2 ++ rest -> dl_pages_including_loose dl = u64 (dp_total M1) ->
  recount (length M2) dl (zlen M1 + 1) = Some (with_pages dl (u64 (dp_total (M1 ++ M2)))).
Proof.
  induction M2 as [|x M2 IH]; intros M1 dl Hi Hp; cbn [length recount].
  - rewrite app_nil_r, <- Hp. by destruct dl.
  - unfold dpl_npages. rewrite Hi. rewrite (get_at _ (stubB :: M1) (M2 ++ rest) x) by (lists || zlia). cbn [mbind option_bind].
    set (dl' := with_pages dl _). replace (zlen M1 + 1 + 1) with (zlen (M1 ++ [x]) + 1) by zlia. rewrite (IH (M1 ++ [x]) dl').
    + rewrite <- app_assoc. done.
    + subst dl'. cbn [dl_items with_pages]. rewrite Hi. lists.
    + subst dl'. cbn [dl_pages_including_loose with_pages]. rewrite Hp, dp_total_app. cbn [dp_total]. unfold dp_npages, u64, wrap. rewrite Zplus_mod_idemp_l. f_equal. lia.
Qed.

Lemma merge_of_valid A B M : merge_of A B M -> Forall dp_valid A -> Forall dp_valid B -> Forall dp_valid M.
Proof. intros [_ HP] HA HB. rewrite HP. by apply Forall_app. Qed.

Lemma asc_nodup M : dp_asc M -> NoDup (dp_pgno <$> M).
Proof.
  induction 1 as [|x M _ IH Hx]; cbn; constructor; [|done]. intros (y & E & Hy)%list_elem_of_fmap_1. rewrite Forall_forall in Hx.
  specialize (Hx y Hy). lia.
Qed.

Record merged_dirty (S D : list dp) (t t' : ptxn) (M : list dp) (dst' : dpl) : Prop := {
  md_list : pt_dirty t' = Some dst';
  md_ok : dpl_ok dst' M;
  md_sorted : dl_sorted dst' = dl_length dst';
  md_merge : merge_of (spared S D) S M;
  md_room : dirtyroom (rt_dirty (pt_r t')) + zlen M = dirtyroom (rt_dirty (pt_r t)) + zlen D;
  md_env : env_shadow (rt_dirty (pt_r t')) = release_pages (rev (replaced S D)) (env_shadow (rt_dirty (pt_r t)));
  md_hdr : pt_hdr t' = adopt_all (front_txnid t) (pt_hdr t) S;
  md_lists : repnl (pt_r t') = repnl (pt_r t) /\ retired_pages t' = retired_pages t /\ rt_spilled (pt_r t') = rt_spilled (pt_r t) /\
    loose_pages (pt_r t') = loose_pages (pt_r t) /\ first_unallocated (pt_r t') = first_unallocated (pt_r t);
}.

Lemma merge_dirty_spec t src S dst D n lru : pt_dirty t = Some dst -> dpl_ok (with_pages dst n) D -> entries_ok D -> Forall held D ->
  dpl_ok src S -> entries_ok S -> zlen S + zlen D <= dl_detent dst -> zlen S <= dirtyroom (rt_dirty (pt_r t)) ->
  dirtyroom (rt_dirty (pt_r t)) + zlen D <= UINT64_MAX ->
  exists t' M dst', merge_dirty t src lru = Some t' /\ merged_dirty S D t t' M dst'.
Proof.
  intros Hdl Hok HD Hh Hsrc HS Hroom Hr1 Hr2. unfold pt_dirty in Hdl. unfold merge_dirty. rewrite Hdl. cbn [mbind option_bind].
  destruct (dok_items _ _ Hok) as [rest Hit]. cbn [dl_items with_pages] in Hit. pose proof (dok_length _ _ Hok) as HlD. cbn [dl_length with_pages] in HlD.
  destruct (dok_items _ _ Hsrc) as [srest Hsit]. pose proof (dok_length _ _ Hsrc) as HlS.
  pose proof (dok_alloc _ _ Hok) as Hal. pose proof (dok_detent _ _ Hok) as Hdet. cbn [dl_items dl_detent with_pages] in Hal, Hdet.
  rewrite HlD, HlS, Hit. unfold dpl_reserve_gap, dpl_gap_mergesort, dpl_gap_edging in Hal. zlen_pos.
  pose proof (count_merged_spec src S (stubE :: srest) Hsit HlS (front_txnid t) (stubE :: rest) (Z.to_nat (zlen D + zlen S)) D [] S []
    (env_shadow (rt_dirty (pt_r t))) (pt_hdr t) 0) as (h & l' & d' & s' & E & Hsum & Hh'); try done; [by rewrite app_nil_r|by intros y x _ ?%elem_of_nil|lia|].
  cbn [fmap list_fmap app] in E. rewrite E. rewrite app_nil_r. cbn [mbind option_bind]. rewrite Hh'. cbn [mbind option_bind].
  replace (l' + d' + s') with (zlen (spared S D) + zlen S) by lia. rewrite Hit in Hal.
  destruct (merge_items_spec src S (stubE :: srest) Hsit HlS D (stubE :: rest)) as (M & rest' & EM & HM & Hz); [done..|zlia|].
  rewrite EM. cbn [mbind option_bind]. pose proof (spared_le S D).
  assert (zlen M = zlen (spared S D) + zlen S) as HzM. { destruct HM as [_ HP]. unfold zlen. rewrite HP, length_app. lia. } rewrite <- HzM.
  destruct rest' as [|z rest']; [zlia|]. unfold dpl_setlen. cbn [dl_items with_sorted with_items].
  rewrite (set_at _ (stubB :: M) rest' (stubB :: M ++ stubE :: rest') z) by (lists || zlia). cbn [mbind option_bind].
  cbn [dl_length dl_sorted dl_items dl_detent dl_pages_including_loose with_sorted with_items with_pages].
  replace (Z.to_nat (zlen M)) with (length M) by (unfold zlen; lia).
  match goal with |- context [recount _ ?x _] => set (dl := x) end. change 1 with (zlen (@nil dp) + 1). rewrite (recount_spec (stubE :: rest') M [] dl) by done.
  cbn [mbind option_bind app]. eexists _, M, _. split; [done|]. split; cbn [pt_dirty pt_r rt_dirty dirtylist dirtyroom env_shadow pt_hdr with_dirty repnl retired_pages
    rt_spilled loose_pages first_unallocated]; try done.
  - split; cbn [dl_items dl_length dl_sorted dl_detent dl_pages_including_loose with_pages]; subst dl; cbn [dl_items dl_length dl_sorted dl_detent with_pages with_sorted with_items].
    + by exists rest'.
    + done.
    + exists M, []. rewrite app_nil_r. split_and!; try done. apply HM.
    + apply asc_nodup, HM.
    + eapply merge_of_valid; [exact HM| |apply HS]. eapply Forall_sublist; [apply sublist_filter|apply HD].
    + lia.
    + done.
    + unfold dpl_reserve_gap, dpl_gap_mergesort, dpl_gap_edging. zlia.
    + done.
  - assert (u64 (dirtyroom (rt_dirty (pt_r t)) - u64 (zlen M - zlen D)) = dirtyroom (rt_dirty (pt_r t)) - (zlen M - zlen D)) as ->; [|lia].
    unfold u64, wrap. rewrite Zminus_mod_idemp_r. change ((?x) mod 2 ^ 64) with (u64 x). apply u64_small. zlen_pos. lia.
Qed.
