(* ===== verification/NestedCount.v ===== *)
(** * The count of pages during the commit of a nested transaction

    The count that the dirty-page list of the parent carries is wrong in the
    middle of [nested_merge], and this does not matter: the rest of the merge
    gives the same result as with the right one. *)

From stdpp Require Import base numbers option sorting list gmap.
From Stdlib Require Import ZArith Lia.
From S2P Require Import Prelude Search SortNet Bits Alloc Pnl PnlOrder PnlSets Rkl Dpl DplProofs Cmp Page Spill PageGet Refund RefundProofs Retire RetireProofs Nested NestedDirty.

Ltac bnd := cbn [mbind option_bind fmap option_fmap option_map].

(** ** The count of pages

    [remove_refunded] leaves the count of the pages of the dirty-page list behind
    the list; the count is made anew at the end, and nothing in between looks at
    it. A list with a count that is off by [k]: *)
Definition bump (k : Z) (dl : dpl) : dpl := with_pages dl (u64 (dl_pages_including_loose dl + k)).
Definition bump_d (k : Z) (d : dtxn) : dtxn :=
  mk_dtxn (writemap d) (ro_nested d) (bump k <$> dirtylist d) (dirtyroom d) (dirtylru d) (lru d) (env_shadow d).
Definition bump_t (k : Z) (t : ptxn) : ptxn := set_dtxn t (bump_d k (rt_dirty (pt_r t))).

Lemma u64_bump a k n : u64 (u64 (a + k) - n) = u64 (u64 (a - n) + k).
Proof. unfold u64, wrap. rewrite Zminus_mod_idemp_l, Zplus_mod_idemp_l. f_equal. lia. Qed.

Lemma sort_slowpath_bump cm k dl : txn_dpl_sort_slowpath cm (bump k dl) = bump k <$> txn_dpl_sort_slowpath cm dl.
Proof.
  unfold txn_dpl_sort_slowpath, bump, with_pages. cbn [dl_length dl_sorted dl_items dl_detent dl_pages_including_loose].
  repeat case_match; repeat match goal with |- context [?e ≫= _] => destruct e; bnd; [|done] end; done.
Qed.

Lemma sort_bump cm k dl : txn_dpl_sort cm (bump k dl) = bump k <$> txn_dpl_sort cm dl.
Proof. unfold txn_dpl_sort. cbn [bump with_pages dl_sorted dl_length]. case_match; [done|]. apply sort_slowpath_bump. Qed.

Lemma linear_bump k dl pgno : forall n, linear_search n (bump k dl) pgno = linear_search n dl pgno.
Proof. induction n as [|n IH]; cbn [linear_search]; [done|]. cbn [bump with_pages dl_length dl_items].
  destruct (zget _ _); cbn [mbind option_bind]; [|done]. by rewrite IH. Qed.

Lemma search_bump cm k dl pgno : txn_dpl_search cm (bump k dl) pgno = (fun '(i, dl) => (i, bump k dl)) <$> txn_dpl_search cm dl pgno.
Proof.
  unfold txn_dpl_search. rewrite linear_bump, sort_slowpath_bump. cbn [bump with_pages dl_length dl_sorted].
  destruct (_ =? 0); [|destruct (_ <=? 7)].
  - cbn [mbind option_bind]. cbn [bump with_pages dl_items dl_sorted]. by destruct (search_impl _ _ _ _ _ _).
  - destruct (linear_search _ _ _) as [[i|]|]; cbn [mbind option_bind]; [done| |done]. cbn [bump with_pages dl_items dl_sorted]. by destruct (search_impl _ _ _ _ _ _).
  - destruct (txn_dpl_sort_slowpath _ _) as [d|]; bnd; [|done]. cbn [bump with_pages dl_items dl_sorted].
    by destruct (search_impl _ _ _ _ _ _).
Qed.

Lemma exist_bump cm k dl pgno : txn_dpl_exist cm (bump k dl) pgno = (fun '(i, dl) => (i, bump k dl)) <$> txn_dpl_exist cm dl pgno.
Proof.
  unfold txn_dpl_exist. rewrite search_bump. destruct (txn_dpl_search _ _ _) as [[i d]|]; bnd; [|done].
  cbn [bump with_pages dl_items]. by destruct (zget _ _).
Qed.

Lemma remove_bump k dl i n : txn_dpl_remove_ex (bump k dl) i n = bump k <$> txn_dpl_remove_ex dl i n.
Proof.
  unfold txn_dpl_remove_ex. cbn [bump with_pages dl_items dl_sorted dl_length dl_detent dl_pages_including_loose]. destruct (blit _ _ _ _ _); [|done].
  bnd. unfold bump, with_pages. cbn [dl_items dl_sorted dl_length dl_detent dl_pages_including_loose].
  by rewrite u64_bump.
Qed.

Lemma put_bump k dl i x : dl_put (bump k dl) i x = bump k <$> dl_put dl i x.
Proof. unfold dl_put. cbn [bump with_pages dl_items]. by destruct (zset _ _ _). Qed.

Lemma sorted_len_bump k dl n : set_sorted_len (bump k dl) n = bump k <$> set_sorted_len dl n.
Proof. unfold set_sorted_len, dpl_setlen. cbn [bump with_pages dl_items]. by destruct (zset _ _ _). Qed.

(** ** Sifting with a count that is off *)

Lemma dsift_scan_bump k dl pl sp : forall fuel i r, dsift_scan fuel (bump k dl) pl sp i r = dsift_scan fuel dl pl sp i r.
Proof.
  induction fuel as [|fuel IH]; intros i r; cbn [dsift_scan]; [done|]. cbn [bump with_pages dl_length dl_items]. case_match; [|done].
  destruct (pnl_at pl i); cbn [mbind option_bind]; [|done]. destruct (zget _ r); cbn [mbind option_bind]; [|done]. repeat case_match; auto.
Qed.

Lemma dsift_copy_bump k : forall fuel dl w r, dsift_copy fuel (bump k dl) w r = (fun '(dl, w, r) => (bump k dl, w, r)) <$> dsift_copy fuel dl w r.
Proof.
  induction fuel as [|fuel IH]; intros dl w r; cbn [dsift_copy]; [done|]. change (dl_length (bump k dl)) with (dl_length dl).
  change (dl_items (bump k dl)) with (dl_items dl). case_match; [|done].
  destruct (zget _ r); cbn [mbind option_bind]; [|done]. rewrite put_bump. destruct (dl_put dl w d); bnd; [|done]. apply IH.
Qed.

Lemma dsift_remove_bump k release dl env r : dsift_remove release (bump k dl) env r = (fun '(dl, env) => (bump k dl, env)) <$> dsift_remove release dl env r.
Proof.
  unfold dsift_remove. change (dl_items (bump k dl)) with (dl_items dl). destruct (zget _ r); bnd; [|done].
  unfold bump, with_pages. cbn [dl_items dl_sorted dl_length dl_detent dl_pages_including_loose]. by rewrite u64_bump.
Qed.

Lemma dsift_update_bump k release pl sp : forall fuel dl env w r i, dsift_update fuel release (bump k dl) env pl sp w r i =
  (fun '(dl, env, w, r) => (bump k dl, env, w, r)) <$> dsift_update fuel release dl env pl sp w r i.
Proof.
  induction fuel as [|fuel IH]; intros dl env w r i; cbn [dsift_update]; [done|]. change (dl_length (bump k dl)) with (dl_length dl).
  change (dl_items (bump k dl)) with (dl_items dl). case_match.
  - rewrite dsift_copy_bump. by destruct (dsift_copy _ dl w r) as [[[]]|].
  - case_match; [|done]. destruct (pnl_at pl i); cbn [mbind option_bind]; [|done]. destruct (zget _ r); cbn [mbind option_bind]; [|done].
    case_match; [|case_match].
    + rewrite put_bump. destruct (dl_put dl w _); bnd; [|done]. apply IH.
    + apply IH.
    + rewrite dsift_remove_bump. destruct (dsift_remove _ dl env r) as [[]|]; bnd; [|done]. apply IH.
Qed.

Lemma sift_bump cm av k t pl spilled : txn_dpl_sift cm av (bump_d k t) pl spilled = bump_d k <$> txn_dpl_sift cm av t pl spilled.
Proof.
  unfold txn_dpl_sift. cbn [bump_d dirtylist writemap env_shadow dirtyroom]. destruct (dirtylist t) as [dl|] eqn:Edl; bnd; [|done].
  destruct (pnl_size pl) as [size|]; cbn [mbind option_bind]; [|done]. change (dl_length (bump k dl)) with (dl_length dl).
  assert (forall dl', Some (with_dirtylist (bump_d k t) (bump k dl')) = bump_d k <$> Some (with_dirtylist t dl')) as Hw by (by destruct t).
  case_match; [|done]. rewrite sort_bump. destruct (txn_dpl_sort cm dl) as [dl1|]; bnd; [|done].
  destruct (pnl_at pl size) as [y|]; cbn [mbind option_bind]; [|done]. rewrite search_bump.
  destruct (txn_dpl_search cm dl1 _) as [[r dl2]|]; bnd; [|done].
  rewrite dsift_scan_bump. change (dl_length (bump k dl2)) with (dl_length dl2).
  destruct (dsift_scan _ dl2 _ _ _ _) as [[[i r1]|]|]; bnd; [|apply Hw|done].
  rewrite dsift_remove_bump. destruct (dsift_remove _ dl2 _ r1) as [[dl3 env]|]; bnd; [|done].
  rewrite dsift_update_bump. change (dl_length (bump k dl3)) with (dl_length dl3).
  destruct (dsift_update _ _ dl3 _ _ _ _ _ _) as [[[[dl4 env2] w2] r2]|]; bnd; [|done].
  rewrite sorted_len_bump. destruct (set_sorted_len dl4 _) as [dl5|]; bnd; [|done]. done.
Qed.

(** ** The steps of the merge with a count that is off *)

Lemma page_wash_bump k t di mp n : page_wash (bump_t k t) di mp n = bump_t k <$> page_wash t di mp n.
Proof.
  unfold page_wash, pt_dirty. cbn [bump_t set_dtxn set_r set_hdr pt_r rt_dirty with_dirty bump_d dirtylist].
  destruct (dirtylist (rt_dirty (pt_r t))) as [dl|]; bnd.
  - rewrite remove_bump. destruct (txn_dpl_remove_ex dl di n); bnd; done.
  - reflexivity.
Qed.

Lemma spill_out_bump k t si n : spill_out (bump_t k t) si n = bump_t k <$> spill_out t si n.
Proof. unfold spill_out. cbn [bump_t set_dtxn set_r pt_r with_dirty rt_spilled]. destruct (rt_spilled _); bnd; [|done]. by destruct (spill_remove _ _ _). Qed.

Section Bump.
Context (al : allocator) (cm av : bool).

Lemma insert_reclaimed_bump k t pgno n : insert_reclaimed al (bump_t k t) pgno n = bump_t k <$> insert_reclaimed al t pgno n.
Proof.
  unfold insert_reclaimed. cbn [bump_t set_dtxn set_r pt_r with_dirty repnl]. destruct (pnl_alloclen _); bnd; [|done].
  destruct (pnl_size _); bnd; [|done]. case_match; [done|]. destruct (pnl_insert_span _ _ _ _) as [[err [p|]]|]; bnd; [|done..]. by case_decide.
Qed.

Lemma reclaim_retired_bump k t len r w :
  reclaim_retired al cm (bump_t k t) len r w = (fun '(t, w) => (bump_t k t, w)) <$> reclaim_retired al cm t len r w.
Proof.
  unfold reclaim_retired. change (retired_pages (bump_t k t)) with (retired_pages t). destruct (pnl_at _ r) as [pgno|]; bnd; [|done].
  change (pt_dirty (bump_t k t)) with (bump k <$> pt_dirty t). destruct (pt_dirty t) as [dl|]; bnd; [|done].
  rewrite exist_bump. destruct (txn_dpl_exist cm dl pgno) as [[di dl1]|]; bnd; [|done].
  change (set_dpl (bump_t k t) (bump k dl1)) with (bump_t k (set_dpl t dl1)). change (dl_items (bump k dl1)) with (dl_items dl1).
  destruct (di =? 0); cbn [negb].
  - change (rt_spilled (pt_r (bump_t k (set_dpl t dl1)))) with (rt_spilled (pt_r (set_dpl t dl1))). destruct (spill_search _ _ _) as [si|]; bnd; [|done].
    destruct (si =? 0); cbn [negb].
    + change (retired_pages (bump_t k (set_dpl t dl1))) with (retired_pages (set_dpl t dl1)). by destruct (pnl_put _ _ _).
    + rewrite spill_out_bump. destruct (spill_out _ _ _) as [t1|]; bnd; [|done]. rewrite insert_reclaimed_bump. by destruct (insert_reclaimed _ _ _ _).
  - destruct (zget _ di) as [x|]; bnd; [|done]. rewrite page_wash_bump. destruct (page_wash _ _ _ _) as [t1|]; bnd; [|done].
    change (retired_pages (bump_t k t1)) with (retired_pages t1). destruct (if 1 <? dp_npages x then _ else _) as [[w1 l]|]; bnd; [|done].
    rewrite insert_reclaimed_bump. by destruct (insert_reclaimed _ _ _ _).
Qed.

Lemma retired_loop_bump k len : forall n t r w,
  retired_loop al cm n (bump_t k t) len r w = (fun '(t, w) => (bump_t k t, w)) <$> retired_loop al cm n t len r w.
Proof.
  induction n as [|n IH]; intros t r w; cbn [retired_loop]; [done|]. rewrite reclaim_retired_bump.
  destruct (reclaim_retired _ _ _ _ _ _) as [[t1 w1]|]; bnd; [|done]. apply IH.
Qed.

Lemma move_retired_bump k t len : move_retired al cm (bump_t k t) len = bump_t k <$> move_retired al cm t len.
Proof.
  unfold move_retired. change (retired_pages (bump_t k t)) with (retired_pages t). destruct (pnl_size _); bnd; [|done]. rewrite retired_loop_bump.
  destruct (retired_loop _ _ _ _ _ _ _) as [[t1 w]|]; bnd; [|done]. change (retired_pages (bump_t k t1)) with (retired_pages t1). by destruct (pnl_setsize _ _).
Qed.

Lemma filter_spilled_bump k t src : filter_spilled (bump_t k t) src = bump_t k <$> filter_spilled t src.
Proof.
  unfold filter_spilled. change (rt_spilled (pt_r (bump_t k t))) with (rt_spilled (pt_r t)). change (repnl (pt_r (bump_t k t))) with (repnl (pt_r t)).
  change (first_unallocated (pt_r (bump_t k t))) with (first_unallocated (pt_r t)). destruct (rt_spilled _) as [s|]; [|done].
  repeat match goal with |- context [?e ≫= _] => destruct e; bnd; [|done] | |- context [if ?b then _ else _] => destruct b; [done|] end. done.
Qed.

(** The merge of the dirty pages makes the count anew. *)
Lemma merge_dirty_bump k t src l : merge_dirty (bump_t k t) src l = merge_dirty t src l.
Proof.
  unfold merge_dirty. change (rt_dirty (pt_r (bump_t k t))) with (bump_d k (rt_dirty (pt_r t))). cbn [bump_d dirtylist].
  destruct (dirtylist _) as [dst|]; bnd; [|done]. change (dl_length (bump k dst)) with (dl_length dst). change (dl_items (bump k dst)) with (dl_items dst).
  change (front_txnid (bump_t k t)) with (front_txnid t). change (pt_hdr (bump_t k t)) with (pt_hdr t). cbn [env_shadow dirtyroom].
  destruct (count_merged _ _ _ _ _ _ _ _ _) as [[[[[[m env] hdrs] l1] d1] s1]|]; bnd; [|done]. destruct (adopt_rest _ _ _ _) as [h|]; bnd; [|done].
  destruct (merge_items _ _ _ _) as [m1|]; bnd; [|done].
  unfold dpl_setlen. cbn [with_sorted with_items bump with_pages dl_items dl_length]. destruct (zset _ _ _); bnd; done.
Qed.

(** Everything after [remove_refunded]. *)
Definition merge_rest (t : ptxn) (nested : ntxn) (src : dpl) (parent_retired_len : Z) : option (ptxn * ntxn * bool) :=
d ← txn_dpl_sift cm av (rt_dirty (pt_r t)) (repnl (pt_r t)) false;
t ← move_retired al cm (set_dtxn t d) parent_retired_len;
t ← filter_spilled t src;
d ← match nt_spilled nested with
    | Some s => txn_dpl_sift cm av (rt_dirty (pt_r t)) (sp_list s) true
    | None => Some (rt_dirty (pt_r t))
    end;
t ← merge_dirty (set_dtxn t d) src (dirtylru (nt_dirty nested));
nested' ← drop_nested nested src;
t ← merge_spilled cm t (nt_spilled nested);
spills ← has_spilled (rt_spilled (pt_r t));
Some (t, nested', spills).

Lemma merge_rest_bump k t nested src len : merge_rest (bump_t k t) nested src len = merge_rest t nested src len.
Proof.
  unfold merge_rest. change (rt_dirty (pt_r (bump_t k t))) with (bump_d k (rt_dirty (pt_r t))). change (repnl (pt_r (bump_t k t))) with (repnl (pt_r t)).
  rewrite sift_bump. destruct (txn_dpl_sift _ _ _ _ _) as [d1|]; bnd; [|done].
  change (set_dtxn (bump_t k t) (bump_d k d1)) with (bump_t k (set_dtxn t d1)). rewrite move_retired_bump. destruct (move_retired _ _ _ _) as [t1|]; bnd; [|done].
  rewrite filter_spilled_bump. destruct (filter_spilled _ _) as [t2|]; bnd; [|done]. change (rt_dirty (pt_r (bump_t k t2))) with (bump_d k (rt_dirty (pt_r t2))).
  assert (forall d, merge_dirty (set_dtxn (bump_t k t2) (bump_d k d)) src (dirtylru (nt_dirty nested)) =
    merge_dirty (set_dtxn t2 d) src (dirtylru (nt_dirty nested))) as Hm.
  { intros d. change (set_dtxn (bump_t k t2) (bump_d k d)) with (bump_t k (set_dtxn t2 d)). apply merge_dirty_bump. }
  destruct (nt_spilled nested) as [s|]; bnd.
  - rewrite sift_bump. destruct (txn_dpl_sift _ _ _ _ _) as [d2|]; bnd; [|done]. by rewrite Hm.
  - by rewrite Hm.
Qed.
End Bump.
