(* ===== verification/NestedSpill.v ===== *)
(** * The spilled pages of a committed nested transaction

    [filter_spilled] and [merge_spilled] of [Nested]: what stays in the list of
    spilled pages of the parent and what comes into it. *)

From stdpp Require Import base numbers option sorting list gmap.
From Stdlib Require Import ZArith Lia.
From S2P Require Import Prelude Search SortNet Bits Alloc Pnl PnlOrder PnlSets Rkl Dpl DplProofs Cmp Page Spill PageGet Refund Retire Nested NestedDirty.

(** ** The block of the list stays *)

Lemma put_block p i v p' : pnl_put p i v = Some p' -> 0 <= i -> pnl_alloclen p' = pnl_alloclen p.
Proof. intros [H ->]%zset_inv Hi. unfold pnl_alloclen. apply zget_zupd_ne; lia. Qed.

Lemma mark_block p idx p' : spill_mark p idx = Some p' -> 0 <= idx -> pnl_alloclen p' = pnl_alloclen p.
Proof.
  unfold spill_mark. intros (x & Hx & H)%bind_Some Hi. apply bind_Some in H as (p1 & H1 & H). apply bind_Some in H as (sz & _ & H).
  apply put_block in H1; [|done]. apply put_block in H; [|done]. congruence.
Qed.

Lemma remove_loop_block : forall fuel s idx n s', spill_remove_loop fuel s idx n = Some s' -> pnl_alloclen (sp_list s') = pnl_alloclen (sp_list s).
Proof.
  induction fuel as [|fuel IH]; intros s idx n s'; cbn [spill_remove_loop]; (destruct (1 <? n); [|by intros [= ->]]); [done|].
  intros (x & _ & H)%bind_Some. destruct (Z.ltb_spec (idx - 1) 1); [by simplify_eq|]. apply bind_Some in H as (y & _ & H).
  destruct (negb _); [by simplify_eq|]. apply bind_Some in H as (p & Hp & H). apply mark_block in Hp; [|lia]. apply IH in H. cbn [sp_list] in H. congruence.
Qed.

Lemma remove_block s idx n s' : spill_remove s idx n = Some s' -> 0 <= idx -> pnl_alloclen (sp_list s') = pnl_alloclen (sp_list s).
Proof.
  unfold spill_remove. intros (p & Hp & H)%bind_Some Hi. apply mark_block in Hp; [|done]. apply remove_loop_block in H. cbn [sp_list] in H. congruence.
Qed.

Lemma purge_loop_block : forall fuel p w r len p' w', spill_purge_loop fuel p w r len = Some (p', w') -> 0 <= w -> 0 <= w' /\ pnl_alloclen p' = pnl_alloclen p.
Proof.
  induction fuel as [|fuel IH]; intros p w r len p' w'; cbn [spill_purge_loop]; (destruct (r <=? len); [|by intros [= -> ->]]); [done|].
  intros (x & _ & H)%bind_Some Hw. apply bind_Some in H as (p1 & H1 & H). apply put_block in H1; [|done].
  pose proof (land_1_live x). apply IH in H as [? ?]; [split; [done|congruence]|]. destruct (live x); lia.
Qed.

Lemma purge_block s s' : spill_purge s = Some s' -> 0 < least_removed s -> pnl_alloclen (sp_list s') = pnl_alloclen (sp_list s).
Proof.
  unfold spill_purge. intros H Hl. destruct (negb _); [|by simplify_eq]. apply bind_Some in H as (len & _ & H).
  apply bind_Some in H as ([p w] & Hp & H). apply bind_Some in H as (p1 & H1 & H). simplify_eq. cbn [sp_list].
  apply purge_loop_block in Hp as [? ?]; [|lia]. apply put_block in H1; [congruence|done].
Qed.

(** ** Taking out one page *)

Definition cut_mark (x : Z) (B : list Z) : list Z := if decide (B = []) then [] else spill_mk x :: B.

Lemma spill_remove_one s A x B : spill_rep s (A ++ x :: B) -> live x = true -> exists s', spill_remove s (zlen A + 1) 1 = Some s' /\
  spill_rep s' (A ++ cut_mark x B) /\ pnl_alloclen (sp_list s') = pnl_alloclen (sp_list s) /\
  (forall q, spilled_page (A ++ cut_mark x B) q <-> spilled_page (A ++ x :: B) q /\ q <> spage x).
Proof.
  intros Hr Hx. destruct (spill_remove_list s _ A x B 1 Hr eq_refl) as (A1 & A2 & s1 & -> & Hz & _ & _ & E & _ & _ & Hl).
  assert (A2 = []) as -> by (apply zlen_0_nil; zlia). rewrite app_nil_r in *. cbn [fmap list_fmap app] in Hl.
  destruct (spill_remove_spec s (A1 ++ x :: B) (zlen A1 + 1) x 1 Hr) as (s2 & l2 & E2 & Hr2 & Hq); [by rewrite Z.add_simpl_r, zget_app_mid|lia|].
  rewrite E in E2. simplify_eq. exists s2. split; [done|]. assert (l2 = A1 ++ cut_mark x B) as -> by (eapply pnl_rep_inj; [apply Hr2|exact Hl]).
  split_and!; [done|apply remove_block in E; [done|zlia]|]. intros q. rewrite Hq. unfold removed_run.
  assert (listed (A1 ++ x :: B) (spage x)) as Hlx.
  { unfold listed. apply list_elem_of_fmap_2, elem_of_app. right. by constructor. }
  split; intros [H1 H2]; (split; [done|]).
  - intros ->. apply H2. split; [lia|]. intros r Hr'. by replace r with (spage x) by lia.
  - intros [H3 _]. lia.
Qed.

Lemma spilled_page_app A B q : spilled_page (A ++ B) q <-> spilled_page A q \/ spilled_page B q.
Proof. unfold spilled_page. apply elem_of_app. Qed.

Lemma spilled_elem l q : spilled_page l q <-> exists x, x ∈ l /\ live x = true /\ spage x = q.
Proof.
  unfold spilled_page. split.
  - intros H. exists (2 * q). split; [done|]. split; [apply live_double|apply spage_double].
  - intros (x & Hx & Hl & <-). apply live_spec in Hl. by rewrite <- Hl.
Qed.

Lemma pages_snoc_lt A x B y : desc (spage <$> (A ++ [x]) ++ B) -> y ∈ A -> spage x < spage y.
Proof.
  rewrite <- app_assoc. cbn [app]. rewrite fmap_app. intros (_ & _ & H)%StronglySorted_app_iff Hy.
  apply (H (spage y) (spage x)); [by apply list_elem_of_fmap_2|]. cbn. constructor.
Qed.

Lemma pages_cons_lt A x B y : desc (spage <$> A ++ x :: B) -> y ∈ B -> spage y < spage x.
Proof.
  rewrite fmap_app. intros (_ & H & _)%StronglySorted_app_iff Hy. cbn in H. apply StronglySorted_inv in H as [_ H]. rewrite Forall_forall in H.
  by apply H, list_elem_of_fmap_2.
Qed.

(** What a step leaves of a list [l] of spilled pages. *)
Definition left_of (s s' : spilled) (l l' : list Z) (P : Z -> Prop) : Prop :=
spill_rep s' l' /\ pnl_alloclen (sp_list s') = pnl_alloclen (sp_list s) /\ zlen l' <= zlen l /\ (forall q, spilled_page l' q <-> spilled_page l q /\ P q).

Lemma left_of_refl s l (P : Z -> Prop) : spill_rep s l -> (forall q, spilled_page l q -> P q) -> left_of s s l l P.
Proof. intros Hr HP. split_and!; [done|done|done|]. intros q. specialize (HP q). tauto. Qed.

Lemma left_of_trans s s1 s2 l l1 l2 (P1 P2 P : Z -> Prop) : left_of s s1 l l1 P1 -> left_of s1 s2 l1 l2 P2 ->
  (forall q, P q <-> P1 q /\ P2 q) -> left_of s s2 l l2 P.
Proof.
  intros (_ & H1 & H2 & H3) (H4 & H5 & H6 & H7) HP. split_and!; [done|congruence|lia|]. intros q. rewrite H7, H3, HP. tauto.
Qed.

Lemma zlen_cut_mark x B : zlen (cut_mark x B) <= zlen B + 1.
Proof. unfold cut_mark. case_decide; subst; zlia. Qed.

Lemma left_of_one s s' A x B : spill_rep s' (A ++ cut_mark x B) -> pnl_alloclen (sp_list s') = pnl_alloclen (sp_list s) ->
  (forall q, spilled_page (A ++ cut_mark x B) q <-> spilled_page (A ++ x :: B) q /\ q <> spage x) ->
  left_of s s' (A ++ x :: B) (A ++ cut_mark x B) (fun q => q <> spage x).
Proof. intros H1 H2 H3. split_and!; [done|done| |done]. pose proof (zlen_cut_mark x B). zlia. Qed.

(** ** Reclaimed pages *)

Section Reclaimed.
Context (rl : pnl) (R : list Z).
Hypothesis Hrl : pnl_rep rl R.
Hypothesis Hdesc : desc R.

(** [A] and [R1] are still to be compared. *)
Record comparing (A B R1 R2 : list Z) : Prop := {
  cp_split : R = R1 ++ R2;
  cp_behind : forall x, x ∈ B -> live x = true -> spage x ∉ R;
  cp_ahead : forall x q, x ∈ A -> live x = true -> q ∈ R2 -> spage x <> q;
}.

Lemma comparing_done A B R1 R2 q : comparing A B R1 R2 -> A = [] \/ R1 = [] -> spilled_page (A ++ B) q -> q ∉ R.
Proof.
  intros [HR Hb Ha] Hc (x & Hx & Hl & <-)%spilled_elem. apply elem_of_app in Hx as [Hx|Hx]; [|by apply Hb].
  destruct Hc as [-> | ->]; [by apply elem_of_nil in Hx|]. cbn [app] in HR. subst R2. intros H. by apply (Ha x (spage x)).
Qed.

Lemma comparing_skip A x B R1 R2 : comparing (A ++ [x]) B R1 R2 -> (live x = true -> spage x ∉ R) -> comparing A (x :: B) R1 R2.
Proof.
  intros [HR Hb Ha] Hx. split; [done| |].
  - intros y Hy. apply elem_of_cons in Hy as [->|Hy]; [done|by apply Hb].
  - intros y q Hy. apply Ha, elem_of_app. by left.
Qed.

Lemma comparing_next A B R1 y R2 : comparing A B (R1 ++ [y]) R2 -> (forall x, x ∈ A -> live x = true -> spage x <> y) -> comparing A B R1 (y :: R2).
Proof.
  intros [HR Hb Ha] Hy. split; [rewrite HR; lists|done|]. intros x q Hx Hl [->|Hq]%elem_of_cons; [by apply Hy|by apply Ha].
Qed.

(** A page below the last one that is left is not among the reclaimed ones. *)
Lemma not_reclaimed A x B R1 y R2 : comparing (A ++ [x]) B (R1 ++ [y]) R2 -> live x = true -> spage x < y -> spage x ∉ R.
Proof.
  intros [HR _ Ha] Hl Hlt Hin. rewrite HR in Hin. apply elem_of_app in Hin as [Hin|Hin].
  - assert (y <= spage x); [|lia]. rewrite HR in Hdesc. apply StronglySorted_app_iff in Hdesc as ((_ & _ & Hd)%StronglySorted_app_iff & _ & _).
    apply elem_of_app in Hin as [Hin|Hin%list_elem_of_singleton]; [|lia]. specialize (Hd (spage x) y Hin ltac:(by constructor)). lia.
  - apply (Ha x (spage x)); [rewrite elem_of_app, list_elem_of_singleton; tauto|done|done|done].
Qed.

Lemma unspill_reclaimed_spec : forall (fuel : nat) A B R1 R2 s, spill_rep s (A ++ B) -> comparing A B R1 R2 -> zlen A + zlen R1 <= Z.of_nat fuel ->
  exists s' l', unspill_reclaimed fuel s rl (zlen A) (zlen R1) = Some s' /\ left_of s s' (A ++ B) l' (fun q => q ∉ R).
Proof using All.
  induction fuel as [|fuel IH]; intros A B R1 R2 s Hr Hc Hf; zlen_pos.
  { assert (A = []) as -> by (apply zlen_0_nil; lia). exists s, ([] ++ B). split; [done|]. apply left_of_refl; [done|]. intros q. eapply comparing_done; [done|by left]. }
  destruct A as [|x A _] using rev_ind.
  { exists s, ([] ++ B). split; [done|]. apply left_of_refl; [done|]. intros q. eapply comparing_done; [done|by left]. }
  destruct R1 as [|y R1 _] using rev_ind.
  { exists s, ((A ++ [x]) ++ B). split; [cbn [unspill_reclaimed]; rewrite orb_comm; done|]. apply left_of_refl; [done|]. intros q. eapply comparing_done; [done|by right]. }
  cbn [unspill_reclaimed]. assert ((zlen (A ++ [x]) =? 0) || (zlen (R1 ++ [y]) =? 0) = false) as -> by zlia.
  pose proof Hr as Hr'. rewrite <- app_assoc in Hr'. cbn [app] in Hr'. pose proof (sr_desc _ _ Hr) as Hd.
  rewrite (pnl_rep_at_mid (sp_list s) A x B) by first [exact (sr_list _ _ Hr') | zlia]. cbn [mbind option_bind]. rewrite land_1_live.
  replace (zlen (A ++ [x]) - 1) with (zlen A) by zlia.
  replace ((A ++ [x]) ++ B) with (A ++ x :: B) by lists.
  destruct (live x) eqn:Hlx; cbn [Z.eqb negb].
  2:{ apply (IH A (x :: B) (R1 ++ [y]) R2); [done|apply comparing_skip; [done|by rewrite Hlx]|zlia]. }
  pose proof (cp_split _ _ _ _ Hc) as HR. pose proof Hrl as Hrl'. rewrite HR, <- app_assoc in Hrl'. cbn [app] in Hrl'.
  rewrite (pnl_rep_at_mid rl R1 y R2) by (done || zlia). cbn [mbind option_bind]. fold (spage x). replace (zlen (R1 ++ [y]) - 1) with (zlen R1) by zlia.
  destruct (Z.eqb_spec y (spage x)) as [Ey|Hne]; cbn [negb].
  - destruct (spill_remove_one s A x B Hr' Hlx) as (s1 & E1 & Hr1 & Hb1 & Hq1). replace (zlen (A ++ [x])) with (zlen A + 1) by zlia.
    rewrite E1. cbn [mbind option_bind].
    destruct (IH A (cut_mark x B) R1 (y :: R2) s1) as (s2 & l2 & E2 & H2); [done| |zlia|].
    + destruct Hc as [_ Hcb Hca]. split; [rewrite HR; lists| |].
      * intros z Hz. unfold cut_mark in Hz. case_decide; [by apply elem_of_nil in Hz|]. apply elem_of_cons in Hz as [->|Hz]; [|by apply Hcb].
        by rewrite (proj2 (spill_mk_spec x)).
      * intros z q Hz Hlz Hq. pose proof (pages_snoc_lt A x B z Hd Hz). apply elem_of_cons in Hq as [->|Hq]; [lia|].
        apply Hca; [by apply elem_of_app; left|done|done].
    + exists s2, l2. split; [done|]. eapply left_of_trans; [by apply left_of_one|exact H2|]. intros q. cbn beta.
      assert (spage x ∈ R) as HxR. { rewrite HR, <- Ey, !elem_of_app, list_elem_of_singleton. tauto. }
      split; [|tauto]. intros Hn. split; [|done]. intros ->. done.
  - unfold MDBX_PNL_ORDERED. destruct (Z.ltb_spec y (spage x)) as [Hlt|Hge].
    + replace (A ++ x :: B) with ((A ++ [x]) ++ B) by lists. apply (IH (A ++ [x]) B R1 (y :: R2)); [done| |zlia].
      apply comparing_next; [done|]. intros z Hz _. apply elem_of_app in Hz as [Hz|Hz%list_elem_of_singleton]; [|subst; lia].
      pose proof (pages_snoc_lt A x B z Hd Hz). lia.
    + apply (IH A (x :: B) (R1 ++ [y]) R2); [done| |zlia]. apply comparing_skip; [done|]. intros _. eapply not_reclaimed; [done|done|lia].
Qed.
End Reclaimed.

(** ** Pages that the nested transaction has changed *)

Definition covered (S : list dp) (q : Z) : Prop := exists e, e ∈ S /\ dp_pgno e <= q < dp_pgno e + dp_npages_ e.

Section Dirty.
Context (src : dpl) (S srest : list dp).
Hypothesis Hsrc : dl_items src = stubB :: S ++ srest.
Hypothesis HS : entries_ok S.

Lemma unspill_exit fuel s l i d : spill_rep s l -> d = 0 \/ zlen l < i -> unspill_dirty fuel s src i d = Some s.
Proof.
  intros Hr Hc. assert ((d =? 0) || (zlen l <? i) = true) as E by (destruct Hc; lia).
  destruct fuel; cbn [unspill_dirty]; rewrite (pnl_rep_size _ _ (sr_list _ _ Hr)); cbn [mbind option_bind]; by rewrite E.
Qed.

(** [A] has been passed, [S2] too. *)
Record scanning (A B : list Z) (S1 S2 : list dp) : Prop := {
  sc_split : S = S1 ++ S2;
  sc_passed : forall x, x ∈ A -> live x = true -> ~ covered S (spage x);
  sc_above : forall x e, x ∈ B -> live x = true -> e ∈ S2 -> spage x < dp_pgno e \/ dp_pgno e + dp_npages_ e <= spage x;
}.

Lemma scanning_done A B S1 S2 q : scanning A B S1 S2 -> B = [] \/ S1 = [] -> spilled_page (A ++ B) q -> ~ covered S q.
Proof.
  intros [HSp Hp Ha] Hc (x & Hx & Hl & <-)%spilled_elem. apply elem_of_app in Hx as [Hx|Hx]; [by apply Hp|].
  destruct Hc as [-> | ->]; [by apply elem_of_nil in Hx|]. cbn [app] in HSp. subst S2. intros (e & He & Hin). specialize (Ha x e Hx Hl He). lia.
Qed.

Lemma scanning_pass A x B S1 S2 : scanning A (x :: B) S1 S2 -> (live x = true -> ~ covered S (spage x)) -> scanning (A ++ [x]) B S1 S2.
Proof.
  intros [HSp Hp Ha] Hx. split; [done| |].
  - intros y [Hy|Hy%list_elem_of_singleton]%elem_of_app; [by apply Hp|by subst].
  - intros y e Hy. apply Ha. by constructor.
Qed.

Lemma scanning_next A B S1 e S2 : scanning A B (S1 ++ [e]) S2 -> (forall x, x ∈ B -> spage x < dp_pgno e) -> scanning A B S1 (e :: S2).
Proof.
  intros [HSp Hp Ha] He. split; [rewrite HSp; lists|done|]. intros x e' Hx Hl [->|He']%elem_of_cons; [left; by apply He|by apply Ha].
Qed.

(** Behind the last entry that is left. *)
Lemma not_covered A x B S1 e S2 : scanning A (x :: B) (S1 ++ [e]) S2 -> live x = true -> dp_pgno e + dp_npages_ e <= spage x -> ~ covered S (spage x).
Proof.
  intros [HSp Hp Ha] Hl Hle (e' & He' & Hin). rewrite HSp in He'. apply elem_of_app in He' as [He'|He'].
  - pose proof HS as [Hd _ _]. pose proof (eo_span _ HS) as Hsp. rewrite HSp in Hd, Hsp. apply StronglySorted_app_iff in Hd as ((_ & _ & Hd)%StronglySorted_app_iff & _ & _).
    apply elem_of_app in He' as [He'|He'%list_elem_of_singleton]; [|subst; lia]. specialize (Hd e' e He' ltac:(by constructor)).
    apply Forall_app in Hsp as [[_ [[Hn _] _]%Forall_cons]%Forall_app _]. lia.
  - specialize (Ha x e' ltac:(by constructor) Hl He'). lia.
Qed.

Lemma unspill_dirty_spec : forall (fuel : nat) A B S1 S2 s, spill_rep s (A ++ B) -> scanning A B S1 S2 -> zlen B + zlen S1 <= Z.of_nat fuel ->
  exists s' l', unspill_dirty fuel s src (zlen A + 1) (zlen S1) = Some s' /\ left_of s s' (A ++ B) l' (fun q => ~ covered S q).
Proof using All.
  induction fuel as [|fuel IH]; intros A B S1 S2 s Hr Hc Hf; zlen_pos.
  { assert (B = []) as -> by (apply zlen_0_nil; lia). exists s, (A ++ []). split; [eapply unspill_exit; [done|right; zlia]|]. apply left_of_refl; [done|].
    intros q. eapply scanning_done; [done|by left]. }
  destruct B as [|x B].
  { exists s, (A ++ []). split; [eapply unspill_exit; [done|right; zlia]|]. apply left_of_refl; [done|]. intros q. eapply scanning_done; [done|by left]. }
  destruct S1 as [|e S1 _] using rev_ind.
  { exists s, (A ++ x :: B). split; [eapply unspill_exit; [done|by left]|]. apply left_of_refl; [done|]. intros q. eapply scanning_done; [done|by right]. }
  cbn [unspill_dirty]. rewrite (pnl_rep_size _ _ (sr_list _ _ Hr)). cbn [mbind option_bind].
  assert ((zlen (S1 ++ [e]) =? 0) || (zlen (A ++ x :: B) <? zlen A + 1) = false) as -> by zlia.
  rewrite (pnl_rep_at_mid (sp_list s) A x B) by first [exact (sr_list _ _ Hr) | done]. cbn [mbind option_bind]. rewrite land_1_live.
  destruct (live x) eqn:Hlx; cbn [Z.eqb negb].
  2:{ replace (zlen A + 1 + 1) with (zlen (A ++ [x]) + 1) by zlia. replace (A ++ x :: B) with ((A ++ [x]) ++ B) by lists. apply (IH (A ++ [x]) B (S1 ++ [e]) S2); [by rewrite <- app_assoc| |zlia].
      apply scanning_pass; [done|by rewrite Hlx]. }
  pose proof (sc_split _ _ _ _ Hc) as HSp. rewrite (src_at src S srest Hsrc S1 e S2) by first [zlia | rewrite HSp; lists]. cbn [mbind option_bind].
  assert (e ∈ S) as HeS by (rewrite HSp, !elem_of_app, list_elem_of_singleton; tauto).
  pose proof (eo_span _ HS) as Hsp. rewrite Forall_forall in Hsp. destruct (Hsp e HeS) as [Hn He]. pose proof (eo_valid _ HS) as Hv. rewrite Forall_forall in Hv.
  specialize (Hv e HeS). unfold dp_valid, P_INVALID, UINT32_MAX, dp_npages in *. rewrite u32_small by (unfold UINT32_MAX; lia). fold (spage x).
  pose proof (sr_desc _ _ Hr) as Hd. replace (zlen (S1 ++ [e]) - 1) with (zlen S1) by zlia.
  destruct (Z.ltb_spec (spage x) (dp_pgno e)) as [Hlt|Hge].
  { apply (IH A (x :: B) S1 (e :: S2)); [done| |zlia]. apply scanning_next; [done|]. intros y [->|Hy]%elem_of_cons; [done|].
    pose proof (pages_cons_lt _ _ _ y Hd Hy). lia. }
  replace (zlen A + 1 + 1) with (zlen (A ++ [x]) + 1) by zlia.
  destruct (Z.leb_spec (dp_pgno e + dp_npages_ e) (spage x)) as [Hle|Hgt].
  { replace (A ++ x :: B) with ((A ++ [x]) ++ B) by lists. apply (IH (A ++ [x]) B (S1 ++ [e]) S2); [by rewrite <- app_assoc| |zlia].
    apply scanning_pass; [done|]. intros _. by eapply not_covered. }
  destruct (spill_remove_one s A x B Hr Hlx) as (s1 & E1 & Hr1 & Hb1 & Hq1). rewrite E1. cbn [mbind option_bind].
  pose proof (left_of_one s s1 A x B Hr1 Hb1 Hq1) as HL.
  assert (forall q, ~ covered S q <-> q <> spage x /\ ~ covered S q) as HPq.
  { intros q. split; [|tauto]. intros Hn'. split; [|done]. intros ->. apply Hn'. exists e. split; [done|lia]. }
  unfold cut_mark in *. case_decide as HB.
  - subst B. exists s1, (A ++ []). split; [eapply unspill_exit; [done|right; zlia]|]. eapply left_of_trans; [exact HL| |exact HPq].
    apply left_of_refl; [done|]. intros q Hq. rewrite app_nil_r in Hq. apply spilled_elem in Hq as (y & Hy & Hl & <-). by apply (sc_passed _ _ _ _ Hc).
  - destruct (IH (A ++ [spill_mk x]) B (S1 ++ [e]) S2 s1) as (s2 & l2 & E2 & H2); [by rewrite <- app_assoc| |zlia|].
    + destruct Hc as [_ Hp Ha]. split; [done| |].
      * intros y [Hy|Hy%list_elem_of_singleton]%elem_of_app; [by apply Hp|]. subst y. by rewrite (proj2 (spill_mk_spec x)).
      * intros y e' Hy. apply Ha. by constructor.
    + exists s2, l2. split; [by rewrite zlen_snoc in E2 |- *|]. rewrite <- app_assoc in H2. cbn [app] in H2. by eapply left_of_trans.
Qed.
End Dirty.

(** ** Refunded pages *)

Lemma count_refunded_spec p l limit : pnl_rep p l -> forall (fuel : nat) H h L, l = H ++ h :: L -> zlen L < Z.of_nat fuel -> desc l ->
  exists H' L', h :: L = h :: H' ++ L' /\ count_refunded fuel p (zlen H) (zlen l) limit = Some (zlen H + 1 + zlen H') /\
    (forall x, x ∈ H' -> limit <= x) /\ (forall x, x ∈ L' -> x < limit).
Proof.
  intros Hp. induction fuel as [|fuel IH]; intros H h L El Hf Hd; [zlia|]. cbn [count_refunded]. destruct L as [|x L].
  - exists [], []. destruct (Z.ltb_spec (zlen H + 1) (zlen l)); [subst l; zlia|].
    split_and!; [done|f_equal; zlia|by intros x ?%elem_of_nil|by intros x ?%elem_of_nil].
  - destruct (Z.ltb_spec (zlen H + 1) (zlen l)); [|subst l; zlia]. assert (l = (H ++ [h]) ++ x :: L) as El' by (rewrite El; lists).
    rewrite El' in Hp. rewrite (pnl_rep_at_mid p (H ++ [h]) x L) by (done || zlia). cbn [mbind option_bind]. rewrite <- El' in Hp.
    destruct (Z.leb_spec limit x) as [Hle|Hgt].
    + destruct (IH (H ++ [h]) x L El') as (H' & L' & E & Ec & H1 & H2); [zlia|done|]. injection E as E. exists (x :: H'), L'.
      replace (zlen H + 1) with (zlen (H ++ [h])) by zlia. rewrite Ec. split_and!; [by rewrite E|f_equal; zlia| |done].
      intros y [->|Hy]%elem_of_cons; [done|by apply H1].
    + exists [], (x :: L). split_and!; [done|f_equal; zlia|by intros y ?%elem_of_nil|]. intros y [->|Hy]%elem_of_cons; [done|].
      rewrite El' in Hd. apply StronglySorted_app_iff in Hd as (_ & Hd & _). pose proof (desc_cons_lt x L y Hd Hy). lia.
Qed.

Lemma cut_refunded_spec s l fu : spill_rep s l -> least_removed s = INT_MAX32 -> l <> [] -> 0 <= fu <= MAX_PAGENO ->
  exists s' l', cut_refunded s fu = Some s' /\ left_of s s' l l' (fun q => q < fu) /\ least_removed s' = INT_MAX32.
Proof.
  intros Hr Hlr Hne Hfu. pose proof Hr as [Hl Hdp Hrange Hlen Hle Htail Hev]. pose proof (spill_rep_desc _ Hdp) as Hd. destruct l as [|h L]; [done|].
  unfold cut_refunded. rewrite (pnl_rep_size _ _ Hl). cbn [mbind option_bind]. rewrite (pnl_rep_at_mid (sp_list s) [] h L) by done. cbn [mbind option_bind].
  rewrite Z.shiftl_mul_pow2 by lia. change (2 ^ 1) with 2. rewrite u32_small by (unfold MAX_PAGENO, UINT32_MAX in *; lia).
  destruct (Z.leb_spec (fu * 2) h) as [Hlim|Hlim].
  2:{ exists s, (h :: L). split; [done|]. split; [|done]. apply left_of_refl; [done|]. intros q Hq. unfold spilled_page in Hq.
      apply elem_of_cons in Hq as [Hq|Hq]; [lia|]. pose proof (desc_cons_lt h L _ Hd Hq). lia. }
  destruct (count_refunded_spec (sp_list s) (h :: L) (fu * 2) Hl (Z.to_nat (zlen (h :: L))) [] h L eq_refl) as (H' & L' & E & Ec & H1 & H2); [zlia|done|].
  change (zlen (@nil Z)) with 0 in Ec. rewrite Ec. cbn [mbind option_bind]. injection E as E. destruct Hl as (len & rest & Es & Hcap & Hroom).
  unfold INT_MAX32 in *. rewrite Es, pnl_setsize_cells by (unfold UINT32_MAX; subst L; zlia). cbn [mbind option_bind].
  replace (zlen (h :: L) - (0 + 1 + zlen H')) with (zlen L') by (subst L; zlia).
  destruct (zsplit ((h :: L) ++ rest) (zlen L')) as (d2 & d3 & Ed & Hd2); [subst L; zlia|].
  pose proof (blit_split [len; zlen L'] d2 d3 (len :: zlen L' :: h :: H') L' rest (2 + (0 + 1 + zlen H')) 2 (zlen L')) as HB.
  assert (blit (len :: zlen L' :: (h :: L) ++ rest) (2 + (0 + 1 + zlen H')) (len :: zlen L' :: (h :: L) ++ rest) 2 (zlen L') = Some (len :: zlen L' :: L' ++ d3)) as ->.
  { cbn [app] in HB. rewrite <- Ed in HB. rewrite <- HB by zlia. f_equal. subst L. lists. }
  cbn [mbind option_bind]. eexists _, L'. split; [done|]. split; [|done].
  assert (h :: L = (h :: H') ++ L') as El by (rewrite E; done).
  assert (sublist L' (h :: L)) as Hsub by (rewrite El; apply sublist_inserts_l; done). split_and!.
  - split; cbn [sp_list least_removed]; [|by eapply StronglySorted_sublist; [apply fmap_sublist|exact Hdp]|by eapply Forall_sublist|subst L; unfold INT_MAX32; zlia|unfold INT_MAX32; lia|by left|].
    + exists len, d3. split; [done|]. split; [subst L; zlia|]. apply (f_equal zlen) in Ed. apply (f_equal zlen) in Es. subst L. zlia.
    + intros i x Hx _. apply zget_elem in Hx. apply (elem_of_sublist _ _ _ Hx) in Hsub. apply elem_zget in Hsub as (j & Hj & Hjx). apply (Hev j); [done|subst L; zlia].
  - cbn [sp_list]. by rewrite Es.
  - rewrite El. zlia.
  - intros q. unfold spilled_page. rewrite El, elem_of_app. split.
    + intros Hq. split; [by right|]. specialize (H2 _ Hq). lia.
    + intros [[Hq|Hq] Hlt]; [|done]. apply elem_of_cons in Hq as [Hq|Hq]; [lia|]. specialize (H1 _ Hq). lia.
Qed.

(** ** The whole filter *)

Definition spilled_rep (o : option spilled) (l : list Z) : Prop := match o with Some s => spill_rep s l | None => l = [] end.
Definition all_live (l : list Z) : Prop := Forall (fun x => live x = true) l.

Lemma purge_left s l : spill_rep s l -> exists s', spill_purge s = Some s' /\ left_of s s' l (live_part l) (fun _ => True) /\
  least_removed s' = INT_MAX32 /\ all_live (live_part l).
Proof.
  intros Hr. destruct (spill_purge_spec s l Hr) as (s' & E & Hr' & Hl). exists s'. split; [done|]. unfold left_of. split_and!; [done| | | |done|].
  - eapply purge_block; [done|]. apply (sr_least _ _ Hr).
  - unfold zlen, live_part. pose proof (length_filter (fun x => live x = true) l). lia.
  - intros q. rewrite live_part_pages. tauto.
  - apply Forall_forall. intros x Hx. by apply list_elem_of_filter in Hx as [? _].
Qed.

Lemma set_spilled_same t s : rt_spilled (pt_r t) = Some s -> set_spilled t s = t.
Proof. destruct t as [r]. destruct r. cbn. by intros ->. Qed.

(** What the parent keeps: spilled pages that are neither refunded nor reclaimed nor changed. *)
Definition stays_spilled (fu : Z) (R : list Z) (S : list dp) (q : Z) : Prop := q < fu /\ q ∉ R /\ ~ covered S q.

Record filtered_spilled (t t' : ptxn) (o o' : option spilled) (l l' : list Z) (P : Z -> Prop) : Prop := {
  fs_state : t' = match o' with Some s' => set_spilled t s' | None => t end;
  fs_rep : spilled_rep o' l';
  fs_block : (sp_list <$> o') ≫= pnl_alloclen = (sp_list <$> o) ≫= pnl_alloclen;
  fs_len : zlen l' <= zlen l;
  fs_pages : forall q, spilled_page l' q <-> spilled_page l q /\ P q;
  fs_live : all_live l';
}.

Lemma filtered_some t s s' l l' (P : Z -> Prop) : left_of s s' l l' P -> all_live l' ->
  filtered_spilled t (set_spilled t s') (Some s) (Some s') l l' P.
Proof. intros (H1 & H2 & H3 & H4) H5. by split. Qed.

Lemma filtered_empty (P : Z -> Prop) : forall q, spilled_page [] q -> P q.
Proof. intros q Hq. by apply elem_of_nil in Hq. Qed.

Lemma filter_spilled_spec t src S srest R l : dl_items src = stubB :: S ++ srest -> dl_length src = zlen S -> entries_ok S ->
  spilled_rep (rt_spilled (pt_r t)) l -> pnl_rep (repnl (pt_r t)) R -> desc R -> 0 <= first_unallocated (pt_r t) <= MAX_PAGENO ->
  exists t' o' l', filter_spilled t src = Some t' /\
    filtered_spilled t t' (rt_spilled (pt_r t)) o' l l' (stays_spilled (first_unallocated (pt_r t)) R S).
Proof.
  intros Hsrc Hlen HS Hr HR HdR Hfu. unfold filter_spilled. set (P := stays_spilled _ R S). destruct (rt_spilled (pt_r t)) as [s|] eqn:Es; cbn [spilled_rep] in Hr.
  2:{ subst l. exists t, None, []. split; [done|]. split; try done; [|constructor]. intros q. split; [|tauto]. by intros ?%elem_of_nil. }
  rewrite (pnl_rep_size _ _ (sr_list _ _ Hr)). cbn [mbind option_bind]. destruct (Z.eqb_spec (zlen l) 0) as [E0|Hn0].
  { apply zlen_0_nil in E0. subst l. exists t, (Some s), []. split; [done|]. rewrite <- (set_spilled_same t s Es) at 2.
    apply filtered_some; [apply left_of_refl; [done|apply filtered_empty]|constructor]. }
  destruct (purge_left s l Hr) as (s1 & -> & HL1 & Hlr1 & Hlive1). pose proof HL1 as (Hr1 & _). cbn [mbind option_bind].
  rewrite (pnl_rep_size _ _ (sr_list _ _ Hr1)). cbn [mbind option_bind]. destruct (Z.eqb_spec (zlen (live_part l)) 0) as [E1|Hn1].
  { apply zlen_0_nil in E1. exists (set_spilled t s1), (Some s1), (live_part l). split; [done|]. apply filtered_some; [|done].
    eapply left_of_trans; [exact HL1|apply (left_of_refl s1 _ P); [done|]|intros q; tauto]. rewrite E1. apply filtered_empty. }
  destruct (cut_refunded_spec s1 (live_part l) (first_unallocated (pt_r t)) Hr1 Hlr1) as (s2 & l2 & -> & HL2 & Hlr2); [by intros E; rewrite E in Hn1|done|].
  pose proof HL2 as (Hr2 & _). cbn [mbind option_bind]. rewrite (pnl_rep_size _ _ (sr_list _ _ Hr2)), (pnl_rep_size _ _ HR). cbn [mbind option_bind]. zlen_pos.
  destruct (unspill_reclaimed_spec (repnl (pt_r t)) R HR HdR (Z.to_nat (zlen l2 + zlen R)) l2 [] R [] s2) as (s3 & l3 & -> & HL3);
    [by rewrite app_nil_r|by split; [rewrite app_nil_r|intros x ?%elem_of_nil|intros x q _ _ ?%elem_of_nil]|lia|].
  rewrite app_nil_r in HL3. pose proof HL3 as (Hr3 & _). cbn [mbind option_bind]. rewrite (pnl_rep_size _ _ (sr_list _ _ Hr3)). cbn [mbind option_bind]. rewrite Hlen.
  destruct (unspill_dirty_spec src S srest Hsrc HS (Z.to_nat (zlen l3 + zlen S)) [] l3 S [] s3) as (s4 & l4 & E4 & HL4);
    [done|by split; [rewrite app_nil_r|intros x ?%elem_of_nil|intros x e _ _ ?%elem_of_nil]|zlia|].
  change (zlen (@nil Z) + 1) with 1 in E4. rewrite E4. cbn [mbind option_bind app] in *. pose proof HL4 as (Hr4 & _).
  destruct (purge_left s4 l4 Hr4) as (s5 & -> & HL5 & _ & Hlive5). cbn [mbind option_bind].
  exists (set_spilled t s5), (Some s5), (live_part l4). split; [done|]. apply filtered_some; [|done].
  eapply left_of_trans; [exact HL1| |intros q; split; [intros Hq; split; [exact I|exact Hq]|by intros [_ ?]]].
  eapply left_of_trans; [exact HL2|eapply left_of_trans; [exact HL3|eapply left_of_trans; [exact HL4|exact HL5|]|]|].
  - intros q. instantiate (1 := fun q => ~ covered S q). cbn beta. tauto.
  - intros q. instantiate (1 := fun q => q ∉ R /\ ~ covered S q). cbn beta. tauto.
  - intros q. unfold P, stays_spilled. tauto.
Qed.

(** ** The spilled pages of the nested transaction *)

Lemma live_pages_nodup l : desc (spage <$> l) -> NoDup (spage <$> l).
Proof.
  induction l as [|x l IH]; cbn; [constructor|]. intros Hd. pose proof Hd as [Hd' _]%StronglySorted_inv. constructor; [|by apply IH].
  intros Hx. pose proof (desc_cons_lt _ _ _ Hd Hx). lia.
Qed.

Lemma live_desc l : all_live l -> desc_weak l -> NoDup l -> desc (spage <$> l).
Proof.
  intros Hl Hd Hn. induction l as [|x l IH]; cbn; [constructor|]. apply Forall_cons in Hl as [Hx Hl]. apply StronglySorted_inv in Hd as [Hd Hall].
  apply NoDup_cons in Hn as [Hnx Hn]. constructor; [by apply IH|]. apply Forall_fmap, Forall_forall. intros y Hy. unfold compose.
  rewrite Forall_forall in Hall, Hl. specialize (Hall y Hy). specialize (Hl y Hy). apply live_spec in Hx, Hl.
  assert (x <> y) by (intros ->; done). lia.
Qed.

Lemma merge_spilled_spec cm t ns l ln : spilled_rep (rt_spilled (pt_r t)) l -> all_live l -> spilled_rep ns ln -> all_live ln ->
  (forall q, spilled_page l q -> spilled_page ln q -> False) -> zlen l + zlen ln < INT_MAX32 ->
  (forall s, rt_spilled (pt_r t) = Some s -> has_capacity (sp_list s) (zlen l + zlen ln)) ->
  exists t' o' l', merge_spilled cm t ns = Some t' /\ t' = match o' with Some s' => set_spilled t s' | None => t end /\
    rt_spilled (pt_r t') = o' /\ spilled_rep o' l' /\ (forall q, spilled_page l' q <-> spilled_page l q \/ spilled_page ln q).
Proof.
  intros Hr Hl Hrn Hln Hdis Hlen Hcap. unfold merge_spilled. destruct ns as [ns|]; cbn [spilled_rep] in Hrn.
  2:{ subst ln. exists t, (rt_spilled (pt_r t)), l. split; [done|]. destruct (rt_spilled (pt_r t)) as [s|] eqn:Es.
      - rewrite set_spilled_same by done. split_and!; [done|done|done|]. intros q. split; [tauto|]. intros [?|?%elem_of_nil]; done.
      - split_and!; [done|done|done|]. intros q. split; [tauto|]. intros [?|?%elem_of_nil]; done. }
  destruct (rt_spilled (pt_r t)) as [s|]; cbn [spilled_rep] in Hr.
  2:{ subst l. exists (set_spilled t ns), (Some ns), ln. split_and!; [done|done|done|done|]. intros q. split; [tauto|]. intros [?%elem_of_nil|?]; done. }
  pose proof Hr as [Hp Hd Hrange Hle Hlr Htail Hev]. pose proof Hrn as [Hpn Hdn Hrn' Hlen' Hlrn Htn Hevn]. specialize (Hcap s eq_refl).
  assert (forall k, desc (spage <$> k) -> desc_weak k) as Hweak by (intros k Hk%spill_rep_desc; eapply StronglySorted_impl; [|exact Hk]; cbn beta; lia).
  destruct (pnl_merge_spec cm (sp_list s) (sp_list ns) l ln Hp Hpn Hcap) as (p & l' & -> & Hp' & HP & Hd'); [by apply Hweak|by apply Hweak| |].
  { eapply Forall_impl; [exact Hrn'|]. intros x Hx. cbn beta in Hx. unfold P_INVALID, UINT32_MAX. lia. }
  cbn [mbind option_bind]. assert (zlen l' = zlen l + zlen ln) as Ez by (unfold zlen; rewrite HP, length_app; lia). zlen_pos.
  assert (all_live l') as Hl' by (unfold all_live; rewrite HP; by apply Forall_app).
  assert (forall q, spilled_page l' q <-> spilled_page l q \/ spilled_page ln q) as Hpages by (intros q; unfold spilled_page; by rewrite HP, elem_of_app).
  exists (set_spilled t (mk_spilled (least_removed s) p)), (Some (mk_spilled (least_removed s) p)), l'. split_and!; [done|done|done| |done].
  split; cbn [sp_list least_removed]; [done| |rewrite HP; by apply Forall_app|lia|done|destruct Htail; [by left|right; lia]|].
  - apply live_desc; [done|done|]. rewrite HP. apply NoDup_app. split_and!; [apply (NoDup_fmap_1 spage), live_pages_nodup, Hd| |apply (NoDup_fmap_1 spage), live_pages_nodup, Hdn].
    intros x Hx Hxn. unfold all_live in *. rewrite Forall_forall in Hl. pose proof (Hl x Hx) as Hlx. apply live_spec in Hlx.
    apply (Hdis (spage x)); unfold spilled_page; by rewrite <- Hlx.
  - intros i x Hx _. apply zget_elem in Hx. unfold all_live in Hl'. rewrite Forall_forall in Hl'. by apply Hl'.
Qed.
