(* ===== verification/NestedRetired.v ===== *)
(** * Refunded and retired pages of a committed nested transaction

    [remove_refunded] and [move_retired] of [Nested]: entries of the dirty-page
    list of the parent behind the end of the file leave it, and pages that the
    nested transaction has released and that only the parent has used become
    reclaimed. *)

From stdpp Require Import base numbers option sorting list gmap.
From Stdlib Require Import ZArith Lia.
From S2P Require Import Prelude Search SortNet Bits Alloc Pnl PnlOrder PnlSets Rkl Dpl DplProofs Cmp Page Spill PageGet Refund RefundProofs Retire RetireProofs Nested NestedDirty NestedCount NestedSpill.

(** ** Refunded pages *)

Lemma release_pages_app a b env : release_pages (a ++ b) env = release_pages b (release_pages a env).
Proof. revert env. induction a as [|x a IH]; intros env; cbn [app release_pages]; [done|]. apply IH. Qed.

Lemma drop_refunded_spec dl rest fu : forall D env, (exists l, dl_items dl = stubB :: D ++ l ++ rest) -> dp_asc D ->
  exists D1 D2, D = D1 ++ D2 /\ drop_refunded (length D) dl fu env = Some (zlen D1, release_pages (rev D2) env) /\
    (forall x, x ∈ D1 -> dp_pgno x < fu) /\ (forall x, x ∈ D2 -> fu <= dp_pgno x).
Proof.
  induction D as [|x D IH] using rev_ind; intros env [l Hit] Ha.
  - exists [], []. split_and!; [done|done|by intros x ?%elem_of_nil|by intros x ?%elem_of_nil].
  - rewrite length_app, Nat.add_1_r. cbn [drop_refunded]. rewrite Hit.
    rewrite (get_at _ (stubB :: D) (l ++ rest) x) by first [lists | unfold zlen; cbn; lia]. cbn [mbind option_bind].
    destruct (Z.leb_spec fu (dp_pgno x)) as [Hle|Hgt].
    + destruct (IH (page_shadow_release env (dp_ptr x) (dp_npages x))) as (D1 & D2 & -> & E & H1 & H2).
      { exists ([x] ++ l). rewrite Hit. lists. } { by apply asc_snoc_init in Ha. }
      exists D1, (D2 ++ [x]). rewrite <- app_assoc, E, rev_app_distr. split_and!; [done|done|done|].
      intros y [Hy|Hy%list_elem_of_singleton]%elem_of_app; [by apply H2|by subst].
    + exists (D ++ [x]), []. rewrite app_nil_r. split_and!; [done|f_equal; f_equal; unfold zlen; rewrite length_app; cbn; lia| |by intros y ?%elem_of_nil].
      intros y [Hy|Hy%list_elem_of_singleton]%elem_of_app; [|by subst]. pose proof (asc_snoc_lt _ _ _ Ha Hy). lia.
Qed.

(** The dirty-page list of a transaction, in order. *)
Definition sorted_list (t : ptxn) (dl : dpl) (D : list dp) : Prop := pt_dirty t = Some dl /\ dpl_ok dl D /\ dl_sorted dl = dl_length dl.

Lemma sorted_asc dl D : dpl_ok dl D -> dl_sorted dl = dl_length dl -> dp_asc D.
Proof.
  intros Hok Hs. destruct (dok_sorted _ _ Hok) as (s & u & -> & Es & Ha). pose proof (dok_length _ _ Hok).
  assert (u = []) as -> by (apply zlen_0_nil; zlia). by rewrite app_nil_r.
Qed.

Definition with_dirties (d : dtxn) (dl : dpl) (room : Z) (env : shadow) : dtxn := with_shadow (with_room (with_dirtylist d dl) room) env.

Lemma remove_refunded_spec t dl D : sorted_list t dl D -> 0 <= dirtyroom (rt_dirty (pt_r t)) -> dirtyroom (rt_dirty (pt_r t)) + zlen D <= UINT64_MAX ->
  exists D1 D2 dl1 k, D = D1 ++ D2 /\ (forall x, x ∈ D1 -> dp_pgno x < first_unallocated (pt_r t)) /\ (forall x, x ∈ D2 -> first_unallocated (pt_r t) <= dp_pgno x) /\
    dpl_ok dl1 D1 /\ dl_sorted dl1 = dl_length dl1 /\ dl_detent dl1 = dl_detent dl /\
    remove_refunded t = Some (bump_t k (set_dtxn t (with_dirties (rt_dirty (pt_r t)) dl1 (dirtyroom (rt_dirty (pt_r t)) + zlen D2)
      (release_pages (rev D2) (env_shadow (rt_dirty (pt_r t))))))).
Proof.
  intros (Hdl & Hok & Hs) Hr1 Hr2. pose proof (sorted_asc _ _ Hok Hs) as Ha. destruct (dok_items _ _ Hok) as [rest Hit]. pose proof (dok_length _ _ Hok) as Hlen.
  unfold remove_refunded. unfold pt_dirty in Hdl. rewrite Hdl. cbn [mbind option_bind]. rewrite Hs, Hlen.
  replace (Z.to_nat (zlen D)) with (length D) by (unfold zlen; lia).
  destruct (drop_refunded_spec dl (stubE :: rest) (first_unallocated (pt_r t)) D (env_shadow (rt_dirty (pt_r t)))) as (D1 & D2 & ED & -> & H1 & H2); [by exists []|done|].
  cbn [mbind option_bind]. assert (zlen D = zlen D1 + zlen D2) as Ez by (rewrite ED; zlia). zlen_pos. rewrite !u64_small by (rewrite ?u64_small by lia; lia).
  unfold set_sorted_len, dpl_setlen. rewrite Hit. destruct (D2 ++ stubE :: rest) as [|z rest2] eqn:E2; [by destruct D2|].
  rewrite (set_at _ (stubB :: D1) rest2 (stubB :: D1 ++ stubE :: rest2) z) by first [rewrite ED, <- app_assoc, E2; lists | lists | zlia]. cbn [mbind option_bind dl_length dl_items dl_pages_including_loose dl_detent].
  assert (sublist D1 D) as Hsub by (rewrite ED; by apply sublist_inserts_r).
  exists D1, D2, (mk_dpl (zlen D1) (zlen D1) (u64 (dp_total D1)) (dl_detent dl) (stubB :: D1 ++ stubE :: rest2)), (dp_total D2). split_and!; try done.
  - apply (dpl_ok_sub dl D D1 D1 [] _ rest2); [done|by rewrite app_nil_r|by eapply StronglySorted_sublist|done|done|]. rewrite Hit, ED, <- app_assoc, E2. zlia.
  - f_equal. rewrite Z.add_sub_assoc, Ez. replace (dirtyroom (rt_dirty (pt_r t)) + (zlen D1 + zlen D2) - zlen D1) with (dirtyroom (rt_dirty (pt_r t)) + zlen D2) by lia.
    assert (dl_pages_including_loose dl = u64 (u64 (dp_total D1) + dp_total D2)) as ->; [|reflexivity].
    rewrite (dok_pages _ _ Hok), ED, dp_total_app. unfold u64, wrap. by rewrite Zplus_mod_idemp_l.
Qed.

(** ** Operations on the lists of the parent *)

Lemma shift_block : forall fuel p r w pgno p' r' w', insert_shift fuel p r w pgno = Some (p', r', w') -> 0 <= r <= w ->
  pnl_alloclen p' = pnl_alloclen p /\ 0 <= r' <= w'.
Proof.
  induction fuel as [|fuel IH]; intros p r w pgno p' r' w'; cbn [insert_shift]; [done|]. destruct (Z.eqb_spec r 0); [by intros [= -> -> ->]|].
  intros (x & _ & H)%bind_Some Hrw. destruct (MDBX_PNL_DISORDERED x pgno); [|by simplify_eq]. apply bind_Some in H as (p1 & H1 & H).
  apply put_block in H1; [|lia]. apply IH in H as [? ?]; [split; [congruence|done]|lia].
Qed.

Lemma fill_block : forall fuel p r w f p', insert_fill fuel p r w f = Some p' -> 0 <= r -> pnl_alloclen p' = pnl_alloclen p.
Proof.
  induction fuel as [|fuel IH]; intros p r w f p'; cbn [insert_fill]; [done|]. destruct (Z.ltb_spec r w); [|by intros [= ->]].
  intros (p1 & H1 & H2)%bind_Some Hr. apply put_block in H1; [|lia]. apply IH in H2; [congruence|done].
Qed.

Section Lists.
Context (al : allocator) `{!AllocOk 4 al}.

(** With room for the span the block stays where it is. *)
Lemma insert_in_place p l pgno n : pnl_rep p l -> 0 < n <= PAGELIST_LIMIT -> has_capacity p (zlen l + n) ->
  exists p' hi lo, pnl_insert_span al (Some p) pgno n = Some (MDBX_SUCCESS, Some p') /\ l = hi ++ lo /\ Forall (fun x => x <= pgno) lo /\
    (forall x, last hi = Some x -> pgno < x) /\ pnl_rep p' (hi ++ desc_run (Z.to_nat n) 1 pgno ++ lo) /\ pnl_alloclen p' = pnl_alloclen p.
Proof using All.
  intros Hp Hn (len & Hl & Hcap). destruct (pnl_insert_span_spec al (Some p) l pgno n Hp ltac:(lia)) as (hi & lo & El & Hlo & Hhi & rc' & pp & E & H).
  assert (rc' = MDBX_SUCCESS /\ forall p', pp = Some p' -> pnl_alloclen p' = pnl_alloclen p) as [-> Hb].
  { unfold pnl_insert_span, pnl_need in E. rewrite (pnl_rep_size _ _ Hp), Hl in E. cbn [mbind option_bind] in E. pose proof Hp as (a & rest & Ep & Ha & _).
    assert (a = len) as -> by (rewrite Ep in Hl; by injection Hl). zlen_pos.
    rewrite u64_small in E by (unfold PAGELIST_LIMIT, UINT32_MAX, UINT64_MAX in *; lia). destruct (Z.leb_spec (n + zlen l) len); [|lia]. cbn [mbind option_bind] in E.
    rewrite decide_False in E by auto. rewrite (pnl_rep_size _ _ Hp) in E. cbn [mbind option_bind] in E. apply bind_Some in E as (p1 & E1 & E).
    apply bind_Some in E as ([[p2 r2] w2] & E2 & E). apply bind_Some in E as (p3 & E3 & E). simplify_eq. split; [done|]. intros p' [= <-].
    apply put_block in E1; [|done]. apply shift_block in E2 as [E2 ?]; [|lia]. apply fill_block in E3; [congruence|lia]. }
  destruct H as [(_ & p' & -> & Hp')|[[[? _]|[? _]] _]]; [|done..]. exists p', hi, lo. split_and!; try done. by apply Hb.
Qed.

Lemma insert_reclaimed_spec t l pgno n : pnl_rep (repnl (pt_r t)) l -> desc l -> has_capacity (repnl (pt_r t)) (zlen l + n) ->
  0 <= pgno -> 0 < n <= PAGELIST_LIMIT -> pgno + n <= 2 ^ 32 -> (forall q, q ∈ l -> ~ in_span pgno n q) ->
  exists p' l', insert_reclaimed al t pgno n = Some (set_r t (with_repnl (pt_r t) p')) /\ pnl_rep p' l' /\ desc l' /\
    l' ≡ₚ l ++ desc_run (Z.to_nat n) 1 pgno /\ pnl_alloclen p' = pnl_alloclen (repnl (pt_r t)).
Proof using All.
  intros Hp Hd Hcap H0 Hn Hlim Hout. destruct (insert_in_place _ l pgno n Hp Hn Hcap) as (p' & hi & lo & E & El & Hlo & Hhi & Hp' & Hb).
  unfold insert_reclaimed. destruct Hcap as (len & Hlen & Hcap). rewrite Hlen, (pnl_rep_size _ _ Hp). cbn [mbind option_bind].
  destruct (Z.ltb_spec len (zlen l + n)); [lia|]. rewrite E. cbn [mbind option_bind]. rewrite decide_True by done.
  destruct (desc_insert l pgno n hi lo Hd) as [Hd' _]; try done; [lia|]. exists p', (hi ++ desc_run (Z.to_nat n) 1 pgno ++ lo). split_and!; try done; [|by rewrite Hlen in Hb].
  rewrite El, <- app_assoc. apply Permutation_app_head, Permutation_app_comm.
Qed.
End Lists.

Lemma exist_sorted cm dl l pgno : dpl_ok dl l -> dl_sorted dl = dl_length dl -> 0 < pgno < P_INVALID ->
  (exists a x b, l = a ++ x :: b /\ dp_pgno x = pgno /\ txn_dpl_exist cm dl pgno = Some (zlen a + 1, dl) /\ zget (dl_items dl) (zlen a + 1) = Some x) \/
  (forall x, x ∈ l -> dp_pgno x <> pgno) /\ txn_dpl_exist cm dl pgno = Some (0, dl).
Proof.
  intros Hok Hs Hp. destruct (txn_dpl_search_sorted cm dl l pgno Hok Hs) as (a & b & El & Ha & Hb & E). unfold txn_dpl_exist. rewrite E. cbn [mbind option_bind].
  destruct (dok_items _ _ Hok) as [rest Hit]. pose proof (sorted_asc _ _ Hok Hs) as Hasc. rewrite El in Hasc. apply dp_asc_app_iff in Hasc as (_ & Hab & _).
  destruct b as [|x b].
  - right. rewrite app_nil_r in El. subst a. rewrite Hit. rewrite (get_at _ (stubB :: l) rest stubE) by (lists || zlia). cbn [mbind option_bind].
    change (dp_pgno stubE) with P_INVALID. destruct (Z.eqb_spec P_INVALID pgno); [lia|]. split; [|done]. intros x Hx. specialize (Ha x Hx). lia.
  - assert (zget (dl_items dl) (zlen a + 1) = Some x) as Hg.
    { rewrite Hit, El. apply (get_at _ (stubB :: a) (b ++ stubE :: rest)); [lists|zlia]. }
    rewrite Hg. cbn [mbind option_bind]. destruct (Z.eqb_spec (dp_pgno x) pgno) as [Ex|Ex]; [left; by exists a, x, b|right]. split; [|done].
    rewrite El. intros y [Hy|[->|Hy]%elem_of_cons]%elem_of_app; [specialize (Ha y Hy); lia|done|].
    specialize (Hb x ltac:(by constructor)). pose proof (asc_cons_lt _ _ _ Hab Hy). lia.
Qed.

(** The entry of a page leaves the list, and its shadow page is released. *)
Lemma page_wash_sorted t dl a x b : sorted_list t dl (a ++ x :: b) ->
  exists dl', page_wash t (zlen a + 1) (dp_ptr x) (dp_npages x) =
    Some (set_dtxn (set_hdr t (dp_ptr x) (mk_hdr INVALID_TXNID P_BAD (h_pages (pt_hdr t (dp_ptr x)))))
      (with_dirties (rt_dirty (pt_r t)) dl' (u64 (dirtyroom (rt_dirty (pt_r t)) + 1)) (page_shadow_release (env_shadow (rt_dirty (pt_r t))) (dp_ptr x) (dp_npages x)))) /\
    dpl_ok dl' (a ++ b) /\ dl_sorted dl' = dl_length dl' /\ dl_detent dl' = dl_detent dl.
Proof.
  intros (Hdl & Hok & Hs). unfold page_wash. change (pt_dirty (set_hdr t _ _)) with (pt_dirty t). rewrite Hdl.
  destruct (txn_dpl_remove_spec dl _ a x b Hok eq_refl) as (dl' & E & Hok' & _). unfold dp_npages. rewrite E. cbn [mbind option_bind].
  exists dl'. split; [done|]. split; [done|]. unfold txn_dpl_remove_ex in E. apply bind_Some in E as (m & _ & E). simplify_eq. cbn [dl_sorted dl_length dl_detent].
  pose proof (dok_length _ _ Hok) as Hl. zlen_pos. destruct (Z.leb_spec (zlen a + 1) (dl_sorted dl)); [|autorewrite with zlen in *; zlen_pos; lia]. split; [lia|done].
Qed.

Lemma put_rep p A x B v : pnl_rep p (A ++ x :: B) -> exists p', pnl_put p (zlen A + 1) v = Some p' /\ pnl_rep p' (A ++ v :: B).
Proof.
  intros (len & rest & -> & Hl & Hz). unfold pnl_put. exists (len :: zlen (A ++ x :: B) :: (A ++ v :: B) ++ rest). split.
  - apply (set_at _ (len :: zlen (A ++ x :: B) :: A) (B ++ rest) _ x); [lists|zlia|lists].
  - exists len, rest. split; [f_equal; f_equal; zlia|]. split; [zlia|]. zlia.
Qed.

Lemma set_dpl_same t dl : pt_dirty t = Some dl -> set_dpl t dl = t.
Proof. destruct t as [r]. destruct r as [d]. destruct d. cbn. by intros ->. Qed.

(** The scan for the rest of a large page looks behind the last element: it
    takes that element only by chance. *)
Lemma cut_tail_spec p L q rest len n : pnl_rep p (L ++ q :: rest) -> NoDup (L ++ [q]) -> 1 < n -> 0 <= len <= zlen L ->
  cut_tail (Z.to_nat n) p len (zlen L + 1) (q - 1) 1 n = Some (zlen L + 1, 1) \/
  L = [] /\ cut_tail (Z.to_nat n) p len (zlen L + 1) (q - 1) 1 n = Some (zlen L, 2).
Proof.
  intros Hp Hn Hn1 Hlen. destruct (Z.to_nat n) as [|fuel] eqn:Ef; [lia|]. cbn [cut_tail]. destruct (Z.ltb_spec len (zlen L + 1)); [|lia].
  rewrite Z.add_simpl_r. replace (q - 1 + 1) with q by lia. destruct L as [|y L _] using rev_ind.
  - change (zlen (@nil Z)) with 0 in *. change (pnl_at p 0) with (pnl_size p). rewrite (pnl_rep_size _ _ Hp). cbn [mbind option_bind].
    destruct (zlen ([] ++ q :: rest) =? q); [|by left]. right. split; [done|]. destruct (1 + 1 =? n); [done|].
    destruct fuel as [|fuel]; [lia|]. cbn [cut_tail]. by destruct (Z.ltb_spec len 0); [lia|].
  - left. rewrite <- app_assoc in Hp. cbn [app] in Hp. rewrite (pnl_rep_at_mid p L y (q :: rest)) by (done || zlia). cbn [mbind option_bind].
    destruct (Z.eqb_spec y q) as [->|]; [|done]. apply NoDup_app in Hn as (_ & Hn & _). exfalso. apply (Hn q); [apply elem_of_app; right|]; by constructor.
Qed.

(** It stops at once when the rest is not there. *)
Lemma cut_tail_stops p L rest len n q : pnl_rep p (L ++ rest) -> 0 < n -> 0 <= len <= zlen L -> q + 1 ∉ L ->
  (len = 0 -> zlen (L ++ rest) <> q + 1) -> cut_tail (Z.to_nat n) p len (zlen L) q 1 n = Some (zlen L, 1).
Proof.
  intros Hp Hn Hlen Hq Hsz. destruct (Z.to_nat n) as [|fuel] eqn:Ef; [lia|]. cbn [cut_tail]. destruct (Z.ltb_spec len (zlen L)) as [Hlt|]; [|done].
  destruct L as [|y L _] using rev_ind; [rewrite (@zlen_nil Z) in *; lia|]. replace (zlen (L ++ [y]) - 1) with (zlen L) by zlia.
  destruct L as [|z L _] using rev_ind.
  - change (zlen (@nil Z)) with 0. change (pnl_at p 0) with (pnl_size p). rewrite (pnl_rep_size _ _ Hp). cbn [mbind option_bind].
    change (zlen ([] ++ [y])) with 1 in *. destruct (Z.eqb_spec (zlen (([] ++ [y]) ++ rest)) (q + 1)) as [E|]; [|done]. exfalso. apply Hsz; [lia|exact E].
  - replace (((L ++ [z]) ++ [y]) ++ rest) with (L ++ z :: y :: rest) in Hp by lists. rewrite (pnl_rep_at_mid p L z (y :: rest)) by (done || zlia). cbn [mbind option_bind].
    destruct (Z.eqb_spec z (q + 1)) as [->|]; [|done]. exfalso. apply Hq. rewrite !elem_of_app, list_elem_of_singleton. tauto.
Qed.

Lemma nodup_split_unique (c d : list Z) q l m : c ++ q :: l = d ++ q :: m -> NoDup (c ++ q :: l) -> c = d.
Proof.
  revert d. induction c as [|z c IH]; intros d E Hn; destruct d as [|y d]; cbn [app] in *; [reflexivity|..].
  - injection E as -> E. apply NoDup_cons in Hn as [Hn _]. exfalso. apply Hn. rewrite E, elem_of_app, elem_of_cons. tauto.
  - injection E as -> E. apply NoDup_cons in Hn as [Hn _]. exfalso. apply Hn. rewrite elem_of_app, elem_of_cons. tauto.
  - injection E as -> E. f_equal. apply IH; [exact E|]. by apply NoDup_cons in Hn as [_ Hn].
Qed.

(** ** Retired pages *)

(** The first [k] pages of an entry in the list. When it is only the first one of a
    large page, the next one is not retired; nor must the size of the list, which the
    scan for the rest of the page may read for an element, look like it. *)
Definition retired_run (T0 T1 : list Z) (x : dp) : Prop :=
exists (k : nat) a b, (0 < k)%nat /\ T1 = a ++ desc_run k 1 (dp_pgno x) ++ b /\
  (k = 1%nat -> 1 < dp_npages_ x -> dp_pgno x + 1 ∉ T0 ++ T1 /\ (T0 = [] -> zlen T1 <> dp_pgno x + 1)).

Section Retired.
Context (al : allocator) `{!AllocOk 4 al} (cm : bool).
(** The parent, its dirty pages [D], the reclaimed pages [R], the pages that were
    retired before and by the nested transaction, [T0] and [T1], and the spilled
    ones. *)
Context (t0 : ptxn) (dl0 : dpl) (D : list dp) (R T0 T1 ls : list Z).
Hypothesis Hsorted : sorted_list t0 dl0 D.
Hypothesis Hplaces : NoDup (T0 ++ T1 ++ R).
Hypothesis Hpages : forall q, q ∈ T1 -> 0 < q <= MAX_PAGENO.
Hypothesis Hroom : 0 <= dirtyroom (rt_dirty (pt_r t0)) /\ dirtyroom (rt_dirty (pt_r t0)) + zlen D <= UINT64_MAX.
Hypothesis Hspans : Forall dp_span_ok D.
(** A page is retired as a whole, as [pnl_append_span] does; or only its first
    pages are, when the nested transaction has used the rest by parts. *)
Hypothesis Hwhole : forall x, x ∈ D -> dp_pgno x ∈ T1 -> retired_run T0 T1 x.
(** No page of an entry is spilled, or is the first one of another entry. *)
Hypothesis Hapart : forall x q, x ∈ D -> in_span (dp_pgno x) (dp_npages_ x) q -> ~ spilled_page ls q /\ forall y, y ∈ D -> dp_pgno y = q -> y = x.

(** The room that was reserved for the pages to come. *)
Hypothesis Hcap : has_capacity (repnl (pt_r t0)) (zlen R + zlen T1).
Hypothesis Hlimit : zlen T1 <= PAGELIST_LIMIT.

(** Nothing else of the transaction changes. *)
Definition same_rest (t : ptxn) : Prop :=
first_unallocated (pt_r t) = first_unallocated (pt_r t0) /\ loose_pages (pt_r t) = loose_pages (pt_r t0) /\ front_txnid t = front_txnid t0 /\
writemap (rt_dirty (pt_r t)) = writemap (rt_dirty (pt_r t0)) /\ ancestors t = ancestors t0.

(** [todo] is still to be looked at; [K] are the pages that stay retired, [G] is free. *)
Record moving (t : ptxn) (done todo : list Z) (Dc gone : list dp) (Rc K G moved lc : list Z) : Prop := {
  mv_all : T1 = done ++ todo;
  mv_dirty : exists dl, sorted_list t dl Dc /\ dl_detent dl = dl_detent dl0;
  mv_left : Dc = filter (fun x => dp_pgno x ∉ done) D;
  mv_gone : gone ++ Dc ≡ₚ D;
  mv_room : dirtyroom (rt_dirty (pt_r t)) = dirtyroom (rt_dirty (pt_r t0)) + zlen gone;
  mv_env : env_shadow (rt_dirty (pt_r t)) = release_pages gone (env_shadow (rt_dirty (pt_r t0)));
  mv_hdr : forall p, (forall x, x ∈ gone -> dp_ptr x <> p) -> pt_hdr t p = pt_hdr t0 p;
  mv_repnl : pnl_rep (repnl (pt_r t)) Rc /\ desc Rc /\ Rc ≡ₚ R ++ moved /\ pnl_alloclen (repnl (pt_r t)) = pnl_alloclen (repnl (pt_r t0));
  mv_moved : done ≡ₚ moved ++ K;
  mv_retired : pnl_rep (retired_pages t) (T0 ++ K ++ G ++ todo) /\ zlen K + zlen G = zlen done;
  mv_kept : forall q, q ∈ K -> (forall x, x ∈ D -> dp_pgno x <> q) /\ ~ spilled_page ls q;
  mv_only : forall q, q ∈ moved -> spilled_page ls q \/ exists x, x ∈ D /\ in_span (dp_pgno x) (dp_npages_ x) q;
  mv_last : forall q, last done = Some q -> (forall x, x ∈ D -> dp_pgno x <> q) -> ~ spilled_page ls q -> exists K', K = K' ++ [q];
  mv_spilled : spilled_rep (rt_spilled (pt_r t)) lc /\ (forall q, spilled_page lc q <-> spilled_page ls q /\ q ∉ done) /\ zlen lc <= zlen ls /\
    (sp_list <$> rt_spilled (pt_r t)) ≫= pnl_alloclen = (sp_list <$> rt_spilled (pt_r t0)) ≫= pnl_alloclen;
  mv_rest : same_rest t;
}.

Lemma moving_nodup t done todo Dc gone Rc K G moved lc : moving t done todo Dc gone Rc K G moved lc -> NoDup (T0 ++ K) /\
  (forall q, q ∈ todo -> q ∉ done /\ q ∉ Rc /\ q ∉ T0 /\ q ∉ K) /\ (forall q, q ∈ K -> q ∉ Rc /\ q ∈ T1).
Proof using All.
  intros H. pose proof (mv_all _ _ _ _ _ _ _ _ _ _ H) as ET. destruct (mv_repnl _ _ _ _ _ _ _ _ _ _ H) as (_ & _ & HR & _). pose proof (mv_moved _ _ _ _ _ _ _ _ _ _ H) as Hm.
  rewrite ET, Hm in Hplaces. apply NoDup_app in Hplaces as (N0 & N1 & N2). apply NoDup_app in N2 as (N2 & N3 & N4).
  apply NoDup_app in N2 as (N5 & N6 & N7). apply NoDup_app in N5 as (N8 & N9 & N10). split_and!.
  - apply NoDup_app. split_and!; [done| |done]. intros q Hq HK. apply (N1 q Hq). rewrite !elem_of_app. tauto.
  - intros q Hq. rewrite HR. assert (q ∉ done) as Hnd by (rewrite Hm; intros Hd; by apply (N6 q)). split_and!; [done| | |].
    + rewrite elem_of_app. intros [Hq'|Hq']; [apply (N3 q); [rewrite elem_of_app; tauto|done]|apply Hnd; rewrite Hm, elem_of_app; tauto].
    + intros Hq'. apply (N1 q Hq'). rewrite !elem_of_app. tauto.
    + intros Hq'. apply Hnd. rewrite Hm, elem_of_app. tauto.
  - intros q Hq. split; [|rewrite ET, Hm, !elem_of_app; tauto]. rewrite HR, elem_of_app. intros [Hq'|Hq']; [apply (N3 q); [rewrite !elem_of_app; tauto|done]|by apply (N9 q)].
Qed.

(** One page of the list at the begin of [todo]. *)
Definition one_moved (t : ptxn) (done todo : list Z) (q : Z) (K : list Z) (res : option (ptxn * Z)) : Prop :=
exists t' Dc gone Rc K' G moved lc, res = Some (t', zlen T0 + zlen K') /\ moving t' (done ++ [q]) todo Dc gone Rc K' G moved lc.

Lemma filter_done done q : (forall x, x ∈ D -> dp_pgno x <> q) ->
  filter (fun x => dp_pgno x ∉ done ++ [q]) D = filter (fun x => dp_pgno x ∉ done) D.
Proof using All.
  intros Hq. apply filter_ext_in. intros x Hx. rewrite elem_of_app, list_elem_of_singleton. specialize (Hq x Hx). tauto.
Qed.

Lemma not_spilled_now lc done q : (forall p, spilled_page lc p <-> spilled_page ls p /\ p ∉ done) -> (spilled_page ls q -> False) ->
  forall p, spilled_page lc p <-> spilled_page ls p /\ p ∉ done ++ [q].
Proof using All.
  intros H Hq p. rewrite H, elem_of_app, list_elem_of_singleton. split; [|tauto]. intros [H1 H2]. split; [done|]. intros [? | ->]; tauto.
Qed.

(** The page stays retired. *)
Lemma keep_retired t done todo q Dc gone Rc K G moved lc : moving t done (q :: todo) Dc gone Rc K G moved lc ->
  (forall x, x ∈ D -> dp_pgno x <> q) -> ~ spilled_page ls q ->
  one_moved t done todo q K (p ← pnl_put (retired_pages t) (zlen T0 + zlen K + 1) q; Some (set_retired t p, zlen T0 + zlen K + 1)).
Proof using All.
  intros [M1 M2 M3 M4 M5 M6 M7 M8 M9 [M10 M10'] M11 Mo M12 (M13 & M13b & M13c & M13d) M14] Hd Hs.
  assert (exists p G', pnl_put (retired_pages t) (zlen T0 + zlen K + 1) q = Some p /\ pnl_rep p (T0 ++ (K ++ [q]) ++ G' ++ todo) /\ zlen G' = zlen G) as (p & G' & -> & Hp & HG).
  { replace (zlen T0 + zlen K + 1) with (zlen (T0 ++ K) + 1) by zlia. destruct G as [|g G].
    - destruct (put_rep (retired_pages t) (T0 ++ K) q todo q) as (p & E & Hp); [by rewrite <- app_assoc|]. exists p, []. split_and!; [done| |done].
      by replace (T0 ++ (K ++ [q]) ++ [] ++ todo) with ((T0 ++ K) ++ q :: todo) by lists.
    - destruct (put_rep (retired_pages t) (T0 ++ K) g (G ++ q :: todo) q) as (p & E & Hp); [by rewrite <- app_assoc|]. exists p, (G ++ [q]). split_and!; [done| |zlia].
      by replace (T0 ++ (K ++ [q]) ++ (G ++ [q]) ++ todo) with ((T0 ++ K) ++ q :: G ++ q :: todo) by lists. }
  cbn [mbind option_bind]. exists (set_retired t p), Dc, gone, Rc, (K ++ [q]), G', moved, lc. split; [f_equal; f_equal; zlia|].
  split; try done.
  - rewrite M1. lists.
  - by rewrite filter_done.
  - rewrite M9. by rewrite app_assoc.
  - split; [done|zlia].
  - intros r [Hr|Hr%list_elem_of_singleton]%elem_of_app; [by apply M11|by subst].
  - intros r. rewrite last_snoc. intros [= <-] _ _. by exists K.
  - split_and!; [exact M13|by apply not_spilled_now|exact M13c|exact M13d].
Qed.

Lemma room_for t done todo q Dc gone Rc K G moved lc n : moving t done (q :: todo) Dc gone Rc K G moved lc -> n <= zlen K + 1 ->
  has_capacity (repnl (pt_r t)) (zlen Rc + n).
Proof using All.
  intros H Hn. destruct (mv_repnl _ _ _ _ _ _ _ _ _ _ H) as (_ & _ & HR & Hb). destruct Hcap as (len & Hl & Hle). exists len. rewrite Hb. split; [done|].
  pose proof (mv_moved _ _ _ _ _ _ _ _ _ _ H) as Hm. pose proof (mv_all _ _ _ _ _ _ _ _ _ _ H) as ET.
  assert (zlen Rc = zlen R + zlen moved) by (unfold zlen; rewrite HR, length_app; lia). assert (zlen done = zlen moved + zlen K) by (unfold zlen; rewrite Hm, length_app; lia).
  rewrite ET in Hle. zlia.
Qed.

(** The page was spilled by the parent. *)
Lemma reclaim_spilled t done todo q Dc gone Rc K G moved lc si s : moving t done (q :: todo) Dc gone Rc K G moved lc ->
  (forall x, x ∈ D -> dp_pgno x <> q) -> rt_spilled (pt_r t) = Some s -> si <> 0 -> zget lc (si - 1) = Some (2 * q) ->
  one_moved t done todo q K (t ← spill_out t si 1; t ← insert_reclaimed al t q 1; Some (t, zlen T0 + zlen K)).
Proof using All.
  intros H Hd Es Hsi Hg. pose proof (moving_nodup _ _ _ _ _ _ _ _ _ _ H) as (_ & Hnd & _). destruct (Hnd q ltac:(by constructor)) as (Hq1 & Hq2 & _).
  pose proof (room_for _ _ _ _ _ _ _ _ _ _ _ 1 H ltac:(zlia)) as Hc. pose proof H as [M1 M2 M3 M4 M5 M6 M7 (M8 & M8b & M8c & M8d) M9 [M10 M10'] M11 Mo M12 (M13 & M13b & M13c & M13d) M14].
  assert (0 < q <= MAX_PAGENO) as Hq by (apply Hpages; rewrite M1, elem_of_app, elem_of_cons; tauto). unfold MAX_PAGENO in Hq.
  pose proof (zget_range _ _ _ Hg) as Hi. destruct (zsplit_mid lc (si - 1) Hi) as (A & x & B & El & HA). rewrite El, zget_app_mid in Hg by done. injection Hg as ->.
  unfold spill_out. rewrite Es in *. cbn [spilled_rep] in M13. rewrite El in M13. cbn [mbind option_bind].
  destruct (spill_remove_one s A (2 * q) B M13 (live_double q)) as (s1 & E1 & Hr1 & Hb1 & Hq'). replace si with (zlen A + 1) by lia. rewrite E1. cbn [mbind option_bind].
  set (t1 := set_r t _). destruct (insert_reclaimed_spec al t1 Rc q 1) as (p' & R' & E2 & Hp' & Hd' & HP' & Hb2); [done..|lia|unfold PAGELIST_LIMIT; lia|lia| |].
  { intros r Hr Hin. assert (r = q) as -> by (unfold in_span in Hin; lia). done. }
  rewrite E2. cbn [mbind option_bind]. change (desc_run (Z.to_nat 1) 1 q) with [q] in HP'.
  exists (set_r t1 (with_repnl (pt_r t1) p')), Dc, gone, R', K, (G ++ [q]), (moved ++ [q]), (A ++ cut_mark (2 * q) B). split; [done|].
  assert (spilled_page ls q) as Hsq by (apply M13b; rewrite El; unfold spilled_page; rewrite elem_of_app, elem_of_cons; tauto).
  split; try done.
  - rewrite M1. lists.
  - by rewrite filter_done.
  - split_and!; [done|done| |etrans; [exact Hb2|exact M8d]]. rewrite HP', M8c. by rewrite app_assoc.
  - rewrite M9, <- !app_assoc. apply Permutation_app_head. by rewrite Permutation_app_comm.
  - split; [|zlia]. by replace (T0 ++ K ++ (G ++ [q]) ++ todo) with (T0 ++ K ++ G ++ q :: todo) by lists.
  - intros r [Hr|Hr%list_elem_of_singleton]%elem_of_app; [by apply Mo|subst r; by left].
  - intros r. rewrite last_snoc. by intros [= <-].
  - split_and!; [done| | |].
    + intros r. rewrite Hq', <- El, M13b, elem_of_app, list_elem_of_singleton, spage_double. tauto.
    + pose proof (zlen_cut_mark (2 * q) B). rewrite El in M13c. zlia.
    + etrans; [exact Hb1|exact M13d].
Qed.

(** The transaction after [page_wash]. *)
Definition washed (t : ptxn) (x : dp) (dl : dpl) : ptxn :=
set_dtxn (set_hdr t (dp_ptr x) (mk_hdr INVALID_TXNID P_BAD (h_pages (pt_hdr t (dp_ptr x)))))
  (with_dirties (rt_dirty (pt_r t)) dl (u64 (dirtyroom (rt_dirty (pt_r t)) + 1)) (page_shadow_release (env_shadow (rt_dirty (pt_r t))) (dp_ptr x) (dp_npages x))).

Lemma filter_head done a x b : filter (fun y => dp_pgno y ∉ done) D = a ++ x :: b -> NoDup (dp_pgno <$> a ++ x :: b) ->
  filter (fun y => dp_pgno y ∉ done ++ [dp_pgno x]) D = a ++ b.
Proof using All.
  intros E Hn. assert (filter (fun y => dp_pgno y ∉ done ++ [dp_pgno x]) D = filter (fun y => dp_pgno y <> dp_pgno x) (filter (fun y => dp_pgno y ∉ done) D)) as ->.
  { rewrite list_filter_filter. apply filter_ext_in. intros y _. rewrite elem_of_app, list_elem_of_singleton. tauto. }
  rewrite E, filter_app, filter_cons_False by tauto. rewrite fmap_app in Hn. cbn in Hn. apply NoDup_app in Hn as (_ & H1 & [H2 _]%NoDup_cons).
  rewrite !filter_all; [done| |].
  - intros y Hy Ey. apply H2. rewrite <- Ey. by apply (list_elem_of_fmap_2 dp_pgno).
  - intros y Hy Ey. apply (H1 (dp_pgno y)); [by apply (list_elem_of_fmap_2 dp_pgno)|]. rewrite Ey. constructor.
Qed.

(** The entry has left the list; [l] pages from [q] on become reclaimed. *)
Lemma insert_washed t done todo Dc gone Rc K G moved lc a x b dl l K' G' moved' : moving t done (dp_pgno x :: todo) Dc gone Rc K G moved lc ->
  Dc = a ++ x :: b -> dpl_ok dl (a ++ b) -> dl_sorted dl = dl_length dl -> dl_detent dl = dl_detent dl0 ->
  0 < l <= zlen K + 1 -> l <= 2 -> l <= dp_npages_ x -> (forall r, r ∈ Rc -> ~ in_span (dp_pgno x) l r) -> moved' = moved ++ desc_run (Z.to_nat l) 1 (dp_pgno x) ->
  moved' ++ K' ≡ₚ done ++ [dp_pgno x] -> (forall r, r ∈ K' -> r ∈ K) -> T0 ++ K ++ G ++ dp_pgno x :: todo = T0 ++ K' ++ G' ++ todo -> zlen K' + zlen G' = zlen done + 1 ->
  one_moved t done todo (dp_pgno x) K (t ← insert_reclaimed al (washed t x dl) (dp_pgno x) l; Some (t, zlen T0 + zlen K')).
Proof using All.
  intros H EDc Hok Hso Hdt Hl Hl2 Hlx Hout Em HP HK ET Hz. pose proof (room_for _ _ _ _ _ _ _ _ _ _ _ l H ltac:(lia)) as Hc.
  pose proof H as [M1 (dlc & (Mdl & Mok & Mso) & Mdt) M3 M4 M5 M6 M7 (M8 & M8b & M8c & M8d) M9 [M10 M10'] M11 Mo M12 (M13 & M13b & M13c & M13d) M14].
  assert (0 < dp_pgno x <= MAX_PAGENO) as Hq by (apply Hpages; rewrite M1, elem_of_app, elem_of_cons; tauto). unfold MAX_PAGENO in Hq.
  assert (x ∈ D) as HxD by (rewrite <- M4, EDc, !elem_of_app, elem_of_cons; tauto).
  destruct (insert_reclaimed_spec al (washed t x dl) Rc (dp_pgno x) l) as (p' & R' & E2 & Hp' & Hd' & HP' & Hb2); [done..|lia|unfold PAGELIST_LIMIT; lia|lia|done|].
  rewrite E2. cbn [mbind option_bind]. rewrite EDc in M4. assert (zlen D = zlen gone + 1 + zlen (a ++ b)) as HzD by (unfold zlen; rewrite <- M4, !length_app; cbn; lia). zlen_pos.
  exists (set_r (washed t x dl) (with_repnl (pt_r (washed t x dl)) p')), (a ++ b), (gone ++ [x]), R', K', G', moved', lc. split; [done|]. split.
  - rewrite M1. lists.
  - exists dl. done.
  - symmetry. apply filter_head; [by rewrite <- M3, EDc|]. rewrite <- EDc. apply (dok_nodup _ _ Mok).
  - rewrite <- M4, <- app_assoc. cbn [app]. apply Permutation_app_head. by rewrite Permutation_middle.
  - change (u64 (dirtyroom (rt_dirty (pt_r t)) + 1) = dirtyroom (rt_dirty (pt_r t0)) + zlen (gone ++ [x])). rewrite M5, u64_small by lia. zlia.
  - change (page_shadow_release (env_shadow (rt_dirty (pt_r t))) (dp_ptr x) (dp_npages x) = release_pages (gone ++ [x]) (env_shadow (rt_dirty (pt_r t0)))).
    by rewrite M6, release_pages_app.
  - intros p Hp. change ((if p =? dp_ptr x then mk_hdr INVALID_TXNID P_BAD (h_pages (pt_hdr t (dp_ptr x))) else pt_hdr t p) = pt_hdr t0 p).
    destruct (Z.eqb_spec p (dp_ptr x)) as [->|_]; [exfalso; apply (Hp x); [rewrite elem_of_app, list_elem_of_singleton; tauto|done]|]. apply M7. intros y Hy. apply Hp. apply elem_of_app. by left.
  - split_and!; [done|done| |etrans; [exact Hb2|exact M8d]]. rewrite HP', M8c, Em. by rewrite app_assoc.
  - by rewrite HP.
  - split; [|zlia]. rewrite <- ET. exact M10.
  - intros r Hr. by apply M11, HK.
  - intros r. rewrite Em, elem_of_app. intros [Hr|Hr]; [by apply Mo|]. right. exists x. split; [done|]. rewrite elem_of_span in Hr by lia.
    unfold in_span in *. lia.
  - intros r. rewrite last_snoc. intros [= <-] Hno. by specialize (Hno x HxD).
  - split_and!; [exact M13| |exact M13c|exact M13d]. apply not_spilled_now; [done|]. intros Hs. pose proof Hspans as Hsp. rewrite Forall_forall in Hsp. destruct (Hsp x HxD) as [? _].
    destruct (Hapart x (dp_pgno x) HxD) as [Hns _]; [unfold in_span; lia|done].
  - exact M14.
Qed.

(** The page behind the first one of a large page stays retired, just before it. *)
Lemma rest_kept t done todo Dc gone Rc K G moved lc x : moving t done (dp_pgno x :: todo) Dc gone Rc K G moved lc -> x ∈ D -> 1 < dp_npages_ x ->
  (exists K', K = K' ++ [dp_pgno x + 1]) \/ dp_pgno x + 1 ∉ T0 ++ T1 /\ (T0 = [] -> zlen T1 <> dp_pgno x + 1).
Proof using All.
  intros H HxD Hn. pose proof (mv_all _ _ _ _ _ _ _ _ _ _ H) as ET. destruct (Hwhole x HxD) as (k & a & b & Hk & EW & H1). { rewrite ET, elem_of_app, elem_of_cons. tauto. }
  assert (0 < dp_pgno x <= MAX_PAGENO) as Hq by (apply Hpages; rewrite ET, elem_of_app, elem_of_cons; tauto). unfold MAX_PAGENO in Hq.
  destruct k as [|[|n]]; [lia|right; by apply H1|left]. cbn [desc_run] in EW. rewrite (u32_small (dp_pgno x + 1)) in EW by (unfold UINT32_MAX; lia).
  set (r := desc_run n 1 _) in EW.
  assert (done = a ++ r ++ [dp_pgno x + 1]) as ->.
  { assert (NoDup T1) as HnT by (by apply NoDup_app in Hplaces as (_ & _ & [? _]%NoDup_app)). rewrite ET in EW. replace (a ++ ((r ++ [dp_pgno x + 1]) ++ [dp_pgno x]) ++ b) with ((a ++ r ++ [dp_pgno x + 1]) ++ dp_pgno x :: b) in EW by lists.
    rewrite ET in HnT. by apply (nodup_split_unique done (a ++ r ++ [dp_pgno x + 1]) (dp_pgno x) todo b). }
  apply (mv_last _ _ _ _ _ _ _ _ _ _ H).
  - by rewrite app_assoc, last_snoc.
  - intros y Hy Ey. destruct (Hapart x (dp_pgno x + 1) HxD) as [_ Hu]; [unfold in_span; lia|]. rewrite (Hu y Hy Ey) in Ey. lia.
  - apply (Hapart x (dp_pgno x + 1) HxD). unfold in_span. lia.
Qed.

(** The page is a dirty one of the parent. *)
Lemma reclaim_dirty t done todo Dc gone Rc K G moved lc a x b dl : moving t done (dp_pgno x :: todo) Dc gone Rc K G moved lc -> Dc = a ++ x :: b -> sorted_list t dl Dc ->
  one_moved t done todo (dp_pgno x) K (t ← page_wash t (zlen a + 1) (dp_ptr x) (dp_npages x);
    '(w, l) ← (if 1 <? dp_npages x then cut_tail (Z.to_nat (dp_npages x)) (retired_pages t) (zlen T0) (zlen T0 + zlen K) (dp_pgno x) 1 (dp_npages x) else Some (zlen T0 + zlen K, 1));
    t ← insert_reclaimed al t (dp_pgno x) l; Some (t, w)).
Proof using All.
  intros H EDc Hsl. pose proof Hsl as (Hpd & _). rewrite EDc in Hsl. destruct (page_wash_sorted t dl a x b Hsl) as (dl' & -> & Hok' & Hso' & Hdt'). cbn [mbind option_bind]. fold (washed t x dl').
  change (retired_pages (washed t x dl')) with (retired_pages t). unfold dp_npages.
  pose proof (moving_nodup _ _ _ _ _ _ _ _ _ _ H) as (HnK & Hnd & HnR). destruct (Hnd (dp_pgno x) ltac:(by constructor)) as (Hq1 & Hq2 & _).
  assert (dl_detent dl' = dl_detent dl0) as Hdt. { destruct (mv_dirty _ _ _ _ _ _ _ _ _ _ H) as (d2 & (Hd2 & _) & E2). rewrite Hpd in Hd2. injection Hd2 as <-. congruence. }
  assert (x ∈ D) as HxD by (rewrite <- (mv_gone _ _ _ _ _ _ _ _ _ _ H), EDc, !elem_of_app, elem_of_cons; tauto).
  pose proof (mv_moved _ _ _ _ _ _ _ _ _ _ H) as Hm. destruct (mv_retired _ _ _ _ _ _ _ _ _ _ H) as [Hret Hzk].
  assert (one_moved t done todo (dp_pgno x) K (t ← insert_reclaimed al (washed t x dl') (dp_pgno x) 1; Some (t, zlen T0 + zlen K))) as H1.
  { apply (insert_washed _ _ _ _ _ _ _ _ _ _ a x b dl' 1 K (G ++ [dp_pgno x]) (moved ++ [dp_pgno x]) H EDc); try done; [zlia|by rewrite Forall_forall in Hspans; apply Hspans in HxD as [? _]; lia| | |lists|zlia].
    - intros r Hr Hin. assert (r = dp_pgno x) as -> by (unfold in_span in Hin; lia). done.
    - rewrite Hm, <- !app_assoc. apply Permutation_app_head. apply Permutation_app_comm. }
  destruct (Z.ltb_spec 1 (dp_npages_ x)) as [Hlt|_]; [|exact H1]. destruct (rest_kept _ _ _ _ _ _ _ _ _ _ _ H HxD Hlt) as [(K' & EK)|[Hgone Hsize]].
  2:{ rewrite (app_assoc T0 K) in Hret. pose proof (cut_tail_stops _ _ _ (zlen T0) (dp_npages_ x) (dp_pgno x) Hret ltac:(lia) ltac:(zlia)) as Ec. rewrite (zlen_app T0 K) in Ec. rewrite Ec.
    - exact H1.
    - rewrite elem_of_app in *. intros [?|HK]; [tauto|]. destruct (HnR _ HK). tauto.
    - intros E0. assert (T0 = []) as ET0 by (by apply zlen_0_nil). specialize (Hsize ET0). rewrite (mv_all _ _ _ _ _ _ _ _ _ _ H) in Hsize. rewrite ET0. cbn [app]. zlia. }
  set (q := dp_pgno x) in *. assert (Hret' : pnl_rep (retired_pages t) ((T0 ++ K') ++ (q + 1) :: G ++ q :: todo)) by (rewrite EK in Hret; rewrite <- !app_assoc in Hret |- *; exact Hret).
  destruct (cut_tail_spec _ _ _ _ (zlen T0) (dp_npages_ x) Hret') as [Ec|[EL Ec]].
  { rewrite EK, app_assoc in HnK. exact HnK. } { done. } { zlia. }
  - replace (zlen T0 + zlen K) with (zlen (T0 ++ K') + 1) by (rewrite EK; zlia). replace (q + 1 - 1) with q in Ec by lia. rewrite Ec. cbn [mbind option_bind].
    replace (zlen (T0 ++ K') + 1) with (zlen T0 + zlen K) by (rewrite EK; zlia). exact H1.
  - replace (zlen T0 + zlen K) with (zlen (T0 ++ K') + 1) by (rewrite EK; zlia). replace (q + 1 - 1) with q in Ec by lia. rewrite Ec. cbn [mbind option_bind].
    apply app_eq_nil in EL as [ET0 ->]. cbn [app] in EK. replace (zlen (T0 ++ [])) with (zlen T0 + zlen (@nil Z)) by zlia.
    assert (0 < q <= MAX_PAGENO) as Hq by (apply Hpages; rewrite (mv_all _ _ _ _ _ _ _ _ _ _ H), elem_of_app, elem_of_cons; tauto). unfold MAX_PAGENO in Hq.
    assert (desc_run (Z.to_nat 2) 1 q = [q + 1; q]) as Erun by (change (Z.to_nat 2) with 2%nat; cbn [desc_run app]; by rewrite u32_small by (unfold UINT32_MAX; lia)).
    apply (insert_washed _ _ _ _ _ _ _ _ _ _ a x b dl' 2 [] ([q + 1] ++ G ++ [q]) (moved ++ [q + 1; q]) H EDc); try done; [rewrite EK; zlia|lia| |by fold q; rewrite Erun| |by intros r ?%elem_of_nil|rewrite EK; fold q; lists|rewrite EK in Hzk; zlia].
    + intros r Hr Hin. fold q in Hin. assert (r = q \/ r = q + 1) as [-> | ->] by (unfold in_span in Hin; lia); [done|]. apply (HnR (q + 1)); [rewrite EK; by constructor|done].
    + fold q. rewrite app_nil_r, Hm, EK, <- app_assoc. done.
Qed.

Lemma reclaim_retired_spec t done todo q Dc gone Rc K G moved lc : moving t done (q :: todo) Dc gone Rc K G moved lc ->
  one_moved t done todo q K (reclaim_retired al cm t (zlen T0) (zlen T0 + zlen done + 1) (zlen T0 + zlen K)).
Proof using All.
  intros H. pose proof (mv_retired _ _ _ _ _ _ _ _ _ _ H) as [Hret Hz]. unfold reclaim_retired.
  assert (pnl_rep (retired_pages t) ((T0 ++ K ++ G) ++ q :: todo)) as Hret' by (rewrite <- !app_assoc; exact Hret).
  rewrite (pnl_rep_at_mid _ _ _ _ _ Hret') by zlia. cbn [mbind option_bind]. destruct (mv_dirty _ _ _ _ _ _ _ _ _ _ H) as (dl & Hsl & _). pose proof Hsl as (Hpd & Hok & Hso).
  rewrite Hpd. cbn [mbind option_bind]. assert (0 < q <= MAX_PAGENO) as Hq by (apply Hpages; rewrite (mv_all _ _ _ _ _ _ _ _ _ _ H), elem_of_app, elem_of_cons; tauto). unfold MAX_PAGENO in Hq.
  pose proof (moving_nodup _ _ _ _ _ _ _ _ _ _ H) as (_ & Hnd & _). destruct (Hnd q ltac:(by constructor)) as (Hq1 & _).
  destruct (exist_sorted cm dl Dc q Hok Hso) as [(a & x & b & EDc & Ex & -> & Hg)|[Hno ->]]; [unfold P_INVALID, UINT32_MAX; lia|..]; cbn [mbind option_bind]; rewrite set_dpl_same by done.
  - destruct (Z.eqb_spec (zlen a + 1) 0); [zlia|]. cbn [negb]. rewrite Hg. cbn [mbind option_bind]. subst q. by eapply reclaim_dirty.
  - cbn [Z.eqb negb]. assert (forall x, x ∈ D -> dp_pgno x <> q) as HD.
    { intros x Hx Ex. apply (Hno x); [|done]. rewrite (mv_left _ _ _ _ _ _ _ _ _ _ H). apply list_elem_of_filter. split; [by rewrite Ex|done]. }
    destruct (mv_spilled _ _ _ _ _ _ _ _ _ _ H) as (Hsr & Hsp & _). destruct (rt_spilled (pt_r t)) as [s|] eqn:Es; cbn [spilled_rep] in Hsr.
    + destruct (spill_search_spec cm s lc q Hsr) as (n & -> & Hn & Hf & Hnf); [unfold MAX_PAGENO; lia|]. cbn [mbind option_bind]. destruct (Z.eqb_spec n 0) as [->|Hn0]; cbn [negb].
      * eapply keep_retired; [done|done|]. intros Hs. apply (Hnf eq_refl), Hsp. done.
      * eapply reclaim_spilled; [done..|by apply Hf].
    + cbn [spill_search mbind option_bind Z.eqb negb]. eapply keep_retired; [done|done|]. intros Hs. assert (spilled_page lc q) as Hl by (by apply Hsp). subst lc. by apply elem_of_nil in Hl.
Qed.

Lemma retired_loop_spec : forall todo t done Dc gone Rc K G moved lc, moving t done todo Dc gone Rc K G moved lc ->
  exists t' Dc' gone' Rc' K' G' moved' lc', retired_loop al cm (length todo) t (zlen T0) (zlen T0 + zlen done) (zlen T0 + zlen K) = Some (t', zlen T0 + zlen K') /\
    moving t' T1 [] Dc' gone' Rc' K' G' moved' lc'.
Proof using All.
  induction todo as [|q todo IH]; intros t done Dc gone Rc K G moved lc H; cbn [length retired_loop].
  - exists t, Dc, gone, Rc, K, G, moved, lc. split; [done|]. pose proof (mv_all _ _ _ _ _ _ _ _ _ _ H) as ->. by rewrite app_nil_r.
  - destruct (reclaim_retired_spec _ _ _ _ _ _ _ _ _ _ _ H) as (t1 & D1 & g1 & R1 & K1 & G1 & m1 & l1 & -> & H1). cbn [mbind option_bind].
    replace (zlen T0 + zlen done + 1) with (zlen T0 + zlen (done ++ [q])) by zlia. by eapply IH.
Qed.

(** What is left of the lists afterwards. *)
Record all_moved (t : ptxn) (D' gone : list dp) (R' K moved ls' : list Z) : Prop := {
  am_dirty : exists dl, sorted_list t dl D' /\ dl_detent dl = dl_detent dl0;
  am_left : D' = filter (fun x => dp_pgno x ∉ T1) D;
  am_gone : gone ++ D' ≡ₚ D;
  am_room : dirtyroom (rt_dirty (pt_r t)) = dirtyroom (rt_dirty (pt_r t0)) + zlen gone;
  am_env : env_shadow (rt_dirty (pt_r t)) = release_pages gone (env_shadow (rt_dirty (pt_r t0)));
  am_hdr : forall p, (forall x, x ∈ gone -> dp_ptr x <> p) -> pt_hdr t p = pt_hdr t0 p;
  am_repnl : pnl_rep (repnl (pt_r t)) R' /\ desc R' /\ R' ≡ₚ R ++ moved;
  am_moved : T1 ≡ₚ moved ++ K;
  am_retired : pnl_rep (retired_pages t) (T0 ++ K);
  am_kept : forall q, q ∈ K -> (forall x, x ∈ D -> dp_pgno x <> q) /\ ~ spilled_page ls q;
  am_only : forall q, q ∈ moved -> spilled_page ls q \/ exists x, x ∈ D /\ in_span (dp_pgno x) (dp_npages_ x) q;
  am_spilled : spilled_rep (rt_spilled (pt_r t)) ls' /\ (forall q, spilled_page ls' q <-> spilled_page ls q /\ q ∉ T1) /\ zlen ls' <= zlen ls /\
    (sp_list <$> rt_spilled (pt_r t)) ≫= pnl_alloclen = (sp_list <$> rt_spilled (pt_r t0)) ≫= pnl_alloclen;
  am_rest : same_rest t;
}.

Lemma move_retired_spec : pnl_rep (repnl (pt_r t0)) R -> desc R -> pnl_rep (retired_pages t0) (T0 ++ T1) -> spilled_rep (rt_spilled (pt_r t0)) ls ->
  exists t' D' gone R' K moved ls', move_retired al cm t0 (zlen T0) = Some t' /\ all_moved t' D' gone R' K moved ls'.
Proof using All.
  intros HR HdR Hret Hsp. assert (moving t0 [] T1 D [] R [] [] [] ls) as H0.
  { split; try done.
    - by exists dl0.
    - symmetry. apply filter_all. intros x _. apply not_elem_of_nil.
    - rewrite zlen_nil. lia.
    - split_and!; [done|done| |done]. by rewrite app_nil_r.
    - by intros q ?%elem_of_nil.
    - by intros q ?%elem_of_nil.
    - split_and!; [done| |done|done]. intros q. pose proof (not_elem_of_nil q). tauto. }
  unfold move_retired. rewrite (pnl_rep_size _ _ Hret). cbn [mbind option_bind].
  destruct (retired_loop_spec _ _ _ _ _ _ _ _ _ _ H0) as (t' & D' & gone & R' & K & G & moved & lc & E & H). rewrite (@zlen_nil Z), !Z.add_0_r in E.
  replace (Z.to_nat (zlen (T0 ++ T1) - zlen T0)) with (length T1) by (autorewrite with zlen; unfold zlen; lia). rewrite E. cbn [mbind option_bind].
  destruct H as [_ M2 M3 M4 M5 M6 M7 (M8 & M8b & M8c & _) M9 [M10 M10'] M11 Mo _ M13 M14].
  destruct M10 as (len & rest & Er & Hl & Hz). rewrite app_nil_r in Er, Hl. zlen_pos. rewrite Er. rewrite pnl_setsize_cells by zlia. cbn [mbind option_bind].
  exists (set_retired t' (len :: zlen T0 + zlen K :: (T0 ++ K ++ G) ++ rest)), D', gone, R', K, moved, lc. split; [done|]. split; try done.
  exists len, (G ++ rest). split; [cbn [set_retired retired_pages]; rewrite (zlen_app T0 K); lists|]. split; [zlia|]. apply (f_equal zlen) in Er. cbn [set_retired retired_pages]. zlia.
Qed.
End Retired.
