(* ===== verification/NestedProofs.v ===== *)
(** * The commit of a nested transaction: every page keeps one place

    What [nested_merge] of [Nested] does to the lists of the parent, composed
    from its steps. *)

From stdpp Require Import base numbers option sorting list gmap.
From Stdlib Require Import ZArith Lia.
From S2P Require Import Prelude Search SortNet Bits Alloc Pnl PnlOrder PnlSets Rkl Dpl DplProofs Cmp Page Spill PageGet Refund RefundProofs Retire RetireProofs Nested NestedDirty NestedCount NestedSpill NestedRetired.

(** ** Entries that do not overlap *)

Definition pairwise_apart (l : list dp) : Prop := forall x y, x ∈ l -> y ∈ l -> x <> y -> apart x y.

#[export] Instance dp_eq_dec : EqDecision dp.
Proof. solve_decision. Defined.

Record dirty_pages (l : list dp) : Prop := {
  dg_apart : pairwise_apart l;
  dg_span : Forall dp_span_ok l;
}.

Lemma dirty_pages_sub l l' : dirty_pages l -> (forall x, x ∈ l' -> x ∈ l) -> dirty_pages l'.
Proof.
  intros [Ha Hs] Hsub. split; [intros x y Hx Hy; apply Ha; by apply Hsub|]. rewrite Forall_forall in *. intros x Hx. by apply Hs, Hsub.
Qed.

(** Only an entry itself has its first page in its span. *)
Lemma dirty_head l x y q : dirty_pages l -> x ∈ l -> y ∈ l -> in_span (dp_pgno x) (dp_npages_ x) q -> dp_pgno y = q -> y = x.
Proof.
  intros [Ha Hs] Hx Hy Hin Ey. destruct (decide (y = x)) as [|Hne]; [done|exfalso]. rewrite Forall_forall in Hs. destruct (Hs y Hy) as [? _].
  unfold in_span in Hin. destruct (Ha y x Hy Hx Hne); lia.
Qed.

Lemma dirty_entries dl l : dirty_pages l -> dpl_ok dl l -> dp_asc l -> entries_ok l.
Proof.
  intros [Ha Hs] Hok Hasc. split; [|done|apply (dok_valid _ _ Hok)]. clear Hok. induction Hasc as [|x l Hasc IH Hx]; [constructor|].
  pose proof Hs as [[Hnx _] Hsl]%Forall_cons. constructor.
  - apply IH; [|done]. intros y z Hy Hz. apply Ha; by constructor.
  - rewrite Forall_forall in *. intros y Hy. specialize (Hx y Hy). destruct (Hsl y Hy) as [Hny _].
    destruct (Ha x y ltac:(by constructor) ltac:(by constructor)); [by intros ->; lia|done|lia].
Qed.

(** Whether an entry of the parent stays in its list. *)
Definition outlives (fu : Z) (R T ln : list Z) (S : list dp) (x : dp) : Prop :=
dp_pgno x < fu /\ dp_pgno x ∉ R /\ dp_pgno x ∉ T /\ dp_pgno x ∉ spage <$> ln /\ Forall (apart x) S.

#[export] Instance outlives_dec fu R T ln S x : Decision (outlives fu R T ln S x).
Proof. unfold outlives. apply _. Defined.

(** ** What is known before *)

(** The dirty pages [D] of the parent and [S] of the nested transaction, the
    reclaimed pages [R], the retired ones from before and from the nested
    transaction, the spilled ones of both. *)
Record mergeable (t : ptxn) (n : ntxn) (D S : list dp) (R T0 T1 ls ln : list Z) : Prop := {
  mb_dirty : exists dst, pt_dirty t = Some dst /\ dpl_ok dst D /\ zlen S + zlen D <= dl_detent dst;
  mb_src : exists src, dirtylist (nt_dirty n) = Some src /\ dpl_ok src S;
  mb_pages : dirty_pages D /\ dirty_pages S;
  mb_held : Forall held D /\ NoDup (dp_ptr <$> D ++ S);
  mb_writemap : writemap (rt_dirty (pt_r t)) = false;
  mb_room : zlen S <= dirtyroom (rt_dirty (pt_r t)) /\ dirtyroom (rt_dirty (pt_r t)) + zlen D <= UINT64_MAX;
  mb_end : 0 <= first_unallocated (pt_r t) <= MAX_PAGENO;
  mb_reclaimed : pnl_rep (repnl (pt_r t)) R /\ desc R /\ has_capacity (repnl (pt_r t)) (zlen R + zlen T1);
  mb_retired : pnl_rep (retired_pages t) (T0 ++ T1) /\ zlen T1 <= PAGELIST_LIMIT /\ (forall q, q ∈ T1 -> 0 < q < first_unallocated (pt_r t));
  mb_places : NoDup (T0 ++ T1 ++ R);
  mb_runs : forall x, x ∈ D -> dp_pgno x ∈ T1 -> retired_run T0 T1 x;
  mb_spilled : spilled_rep (rt_spilled (pt_r t)) ls /\ spilled_rep (nt_spilled n) ln /\ all_live ln /\ zlen ls + zlen ln < INT_MAX32 /\
    (forall s, rt_spilled (pt_r t) = Some s -> has_capacity (sp_list s) (zlen ls + zlen ln));
  mb_disjoint : (forall x q, x ∈ D -> in_span (dp_pgno x) (dp_npages_ x) q -> ~ spilled_page ls q) /\ (forall q, spilled_page ls q -> spilled_page ln q -> False);
}.

(** ** What is known afterwards *)

Record nested_merged (t t' : ptxn) (n' : ntxn) (spills : bool) (D S D' : list dp) (R R' T0 T1 K ls ls' ln : list Z) : Prop := {
  nm_dirty : exists dl, sorted_list t' dl D';
  nm_entries : dp_asc D' /\ D' ≡ₚ filter (outlives (first_unallocated (pt_r t)) R T1 ln S) D ++ S;
  nm_room : dirtyroom (rt_dirty (pt_r t')) + zlen D' = dirtyroom (rt_dirty (pt_r t)) + zlen D;
  nm_released : exists gone, env_shadow (rt_dirty (pt_r t')) = release_pages gone (env_shadow (rt_dirty (pt_r t))) /\ gone ++ D' ≡ₚ D ++ S;
  nm_headers : forall x, x ∈ S -> pt_hdr t' (dp_ptr x) = let h := pt_hdr t (dp_ptr x) in
    if h_flags h =? P_LOOSE then h else mk_hdr (front_txnid t) (Z.land (h_flags h) (Z.lnot P_SPILLED)) (h_pages h);
  nm_reclaimed : pnl_rep (repnl (pt_r t')) R' /\ desc R' /\ R' ++ K ≡ₚ R ++ T1;
  nm_retired : pnl_rep (retired_pages t') (T0 ++ K);
  nm_kept : forall q, q ∈ K -> (forall x, x ∈ D -> dp_pgno x <> q) /\ ~ spilled_page ls q;
  nm_others : forall q, q ∈ T1 -> (forall x, x ∈ D -> ~ in_span (dp_pgno x) (dp_npages_ x) q) -> ~ spilled_page ls q -> q ∈ K;
  nm_spilled : spilled_rep (rt_spilled (pt_r t')) ls' /\ forall q, spilled_page ls' q <-> spilled_page ln q \/
    spilled_page ls q /\ q < first_unallocated (pt_r t) /\ q ∉ R /\ q ∉ T1 /\ ~ covered S q;
  nm_nested : dirtylist (nt_dirty n') = None /\ nt_spilled n' = None;
  nm_flag : spills = true <-> ls' <> [];
}.

(** ** Headers *)

Lemma adopt_all_other front hdrs l p : (forall x, x ∈ l -> dp_ptr x <> p) -> adopt_all front hdrs l p = hdrs p.
Proof.
  induction l as [|x l IH]; intros Hp; [done|]. cbn [adopt_all foldr]. unfold adopt at 1. fold (adopt_all front hdrs l). pose proof (Hp x ltac:(by constructor)) as Hx.
  case_match; [by apply IH; intros y Hy; apply Hp; constructor|]. destruct (Z.eqb_spec p (dp_ptr x)); [done|]. apply IH. intros y Hy. apply Hp. by constructor.
Qed.

Lemma adopt_all_spec front hdrs l x : NoDup (dp_ptr <$> l) -> x ∈ l -> adopt_all front hdrs l (dp_ptr x) = let h := hdrs (dp_ptr x) in
  if h_flags h =? P_LOOSE then h else mk_hdr front (Z.land (h_flags h) (Z.lnot P_SPILLED)) (h_pages h).
Proof.
  induction l as [|y l IH]; [by intros _ ?%elem_of_nil|]. cbn [fmap list_fmap]. intros [Hny Hn]%NoDup_cons Hx. cbn [adopt_all foldr]. fold (adopt_all front hdrs l).
  apply elem_of_cons in Hx as [->|Hx].
  - unfold adopt. assert (adopt_all front hdrs l (dp_ptr y) = hdrs (dp_ptr y)) as ->; [|cbv zeta; case_match; [|by rewrite Z.eqb_refl]].
    + apply adopt_all_other. intros z Hz E. apply Hny. rewrite <- E. by apply (list_elem_of_fmap_2 dp_ptr).
    + apply adopt_all_other. intros z Hz E. apply Hny. rewrite <- E. by apply (list_elem_of_fmap_2 dp_ptr).
  - etrans; [|exact (IH Hn Hx)]. unfold adopt. case_match; [done|]. destruct (Z.eqb_spec (dp_ptr x) (dp_ptr y)) as [E|]; [|done].
    exfalso. apply Hny. rewrite <- E. by apply (list_elem_of_fmap_2 dp_ptr).
Qed.

Lemma drop_nested_spec n src S : dpl_ok src S -> exists n', drop_nested n src = Some n' /\ dirtylist (nt_dirty n') = None /\ nt_spilled n' = None.
Proof.
  intros Hok. destruct (dok_items _ _ Hok) as [rest Hit]. unfold drop_nested, set_sorted_len, dpl_setlen. rewrite Hit.
  destruct (S ++ stubE :: rest) as [|z r] eqn:E; [by destruct S|]. rewrite (set_at _ [stubB] r (stubB :: stubE :: r) z) by done. cbn [mbind option_bind].
  unfold txn_dpl_free, txn_dpl_clear, set_sorted_len, dpl_setlen. cbn [with_dirtylist dirtylist dl_items dl_length].
  rewrite (set_at _ [stubB] r (stubB :: stubE :: r) stubE) by done. cbn [mbind option_bind]. by eexists.
Qed.

(** ** Steps that only take entries out of the dirty-page list *)

Record thinned (t t' : ptxn) (D D' gone : list dp) : Prop := {
  th_list : forall dl, pt_dirty t = Some dl -> exists dl', sorted_list t' dl' D' /\ dl_detent dl' = dl_detent dl;
  th_gone : gone ++ D' ≡ₚ D;
  th_room : dirtyroom (rt_dirty (pt_r t')) = dirtyroom (rt_dirty (pt_r t)) + zlen gone;
  th_env : env_shadow (rt_dirty (pt_r t')) = release_pages gone (env_shadow (rt_dirty (pt_r t)));
  th_hdr : forall p, (forall x, x ∈ gone -> dp_ptr x <> p) -> pt_hdr t' p = pt_hdr t p;
  th_rest : same_rest t t';
}.

Lemma thinned_trans t1 t2 t3 D1 D2 D3 g1 g2 : thinned t1 t2 D1 D2 g1 -> thinned t2 t3 D2 D3 g2 -> thinned t1 t3 D1 D3 (g1 ++ g2).
Proof.
  intros [A1 A2 A3 A4 A5 A6] [B1 B2 B3 B4 B5 B6]. split.
  - intros dl Hdl. destruct (A1 dl Hdl) as (dl2 & Hs & Hd). destruct (B1 dl2) as (dl3 & Hs3 & Hd3); [apply Hs|]. exists dl3. split; [done|congruence].
  - by rewrite <- A2, <- B2, app_assoc.
  - rewrite B3, A3. zlia.
  - by rewrite B4, A4, release_pages_app.
  - intros p Hp. rewrite B5, A5; [done|..]; intros x Hx; apply Hp, elem_of_app; tauto.
  - destruct A6 as (? & ? & ? & ? & ?), B6 as (? & ? & ? & ? & ?). split_and!; congruence.
Qed.

Lemma thinned_room t t' D D' gone : thinned t t' D D' gone -> 0 <= dirtyroom (rt_dirty (pt_r t)) -> dirtyroom (rt_dirty (pt_r t)) + zlen D <= UINT64_MAX ->
  dirtyroom (rt_dirty (pt_r t)) <= dirtyroom (rt_dirty (pt_r t')) /\ dirtyroom (rt_dirty (pt_r t')) + zlen D' <= UINT64_MAX.
Proof.
  intros H H0 H1. rewrite (th_room _ _ _ _ _ H). assert (zlen D = zlen gone + zlen D') by (unfold zlen; rewrite <- (th_gone _ _ _ _ _ H), length_app; lia). zlen_pos. lia.
Qed.

Lemma thinned_sub t t' D D' gone x : thinned t t' D D' gone -> x ∈ D' -> x ∈ D.
Proof. intros H Hx. rewrite <- (th_gone _ _ _ _ _ H), elem_of_app. by right. Qed.

Lemma sift_thinned cm av t dl D pl lp (sp : bool) : sorted_list t dl D -> writemap (rt_dirty (pt_r t)) = false -> 0 <= dirtyroom (rt_dirty (pt_r t)) ->
  dirtyroom (rt_dirty (pt_r t)) + zlen D <= UINT64_MAX -> pnl_rep pl lp -> desc_weak (shifted (if sp then 1 else 0) lp) ->
  exists d D' gone, txn_dpl_sift cm av (rt_dirty (pt_r t)) pl sp = Some d /\ thinned t (set_dtxn t d) D D' gone /\ D' ≡ₚ dp_keep (shifted (if sp then 1 else 0) lp) D.
Proof.
  intros (Hdl & Hok & Hso) Hwm Hr0 Hr1 Hp Hd. unfold pt_dirty in Hdl. zlen_pos.
  destruct (txn_dpl_sift_spec cm av (rt_dirty (pt_r t)) dl D pl lp sp Hdl Hok Hp ltac:(lia) Hd) as (d & dl' & D' & gone & -> & Hdl' & Hok' & HD' & Hg & Hroom & Henv & (F1 & F2 & F3 & F4 & F5)).
  destruct (F5 dl dl' Hdl Hdl') as [Hdt Hso']. rewrite Hwm, orb_true_r in Henv. exists d, D', gone. split; [done|]. split; [|done].
  assert (gone ++ D' ≡ₚ D) as HP.
  { rewrite Hg, HD'. clear. unfold dp_keep, dp_drop. induction D as [|x D IH]; [done|]. rewrite !filter_cons. destruct (decide (dp_pgno x ∈ _)) as [Hx|Hx].
    - rewrite decide_False by tauto. cbn [app]. by rewrite IH.
    - rewrite decide_True by done. by rewrite <- Permutation_middle, IH. }
  assert (zlen D = zlen gone + zlen D') by (unfold zlen; rewrite <- HP, length_app; lia). zlen_pos. split; try done.
  - intros dl1 Hdl1. unfold pt_dirty in Hdl1. rewrite Hdl in Hdl1. injection Hdl1 as <-. exists dl'. split; [|done]. split_and!; [done|done|by apply Hso'].
  - change (dirtyroom d = dirtyroom (rt_dirty (pt_r t)) + zlen gone). rewrite Hroom. apply u64_small. lia.
Qed.

(** Sorting the list and taking out what is behind the end. *)
Lemma refund_thinned cm t dst D : pt_dirty t = Some dst -> dpl_ok dst D -> 0 <= dirtyroom (rt_dirty (pt_r t)) -> dirtyroom (rt_dirty (pt_r t)) + zlen D <= UINT64_MAX ->
  exists dst1 t1 k D1 gone, txn_dpl_sort cm dst = Some dst1 /\ remove_refunded (set_dpl t dst1) = Some (bump_t k t1) /\ thinned t t1 D D1 gone /\
    D1 ≡ₚ filter (fun x => dp_pgno x < first_unallocated (pt_r t)) D /\ repnl (pt_r t1) = repnl (pt_r t) /\ retired_pages t1 = retired_pages t /\ rt_spilled (pt_r t1) = rt_spilled (pt_r t).
Proof.
  intros Hdl Hok Hr0 Hr1. destruct (txn_dpl_sort_spec cm dst D Hok) as (dst1 & Da & E & Hoka & HP & Haa & Hsoa & Hdta & _). exists dst1.
  assert (zlen Da = zlen D) as Hza by (by rewrite HP).
  destruct (remove_refunded_spec (set_dpl t dst1) dst1 Da) as (D1 & D2 & dl1 & k & EDa & H1 & H2 & Hok1 & Hso1 & Hdt1 & Er); [by split_and!|done|rewrite Hza; done|].
  match type of Er with _ = Some (bump_t _ ?u) => exists u, k, D1, (rev D2) end. split; [done|]. split; [done|].
  split; [|split; [|done]].
  - split; try done.
    + intros dl Hdl'. rewrite Hdl in Hdl'. injection Hdl' as <-. exists dl1. split; [by split_and!|congruence].
    + rewrite <- HP, EDa, <- Permutation_rev. apply Permutation_app_comm.
    + change (dirtyroom (rt_dirty (pt_r t)) + zlen D2 = dirtyroom (rt_dirty (pt_r t)) + zlen (rev D2)). unfold zlen. by rewrite length_rev.
  - rewrite <- HP, EDa, filter_app. rewrite filter_all by done. rewrite filter_none; [by rewrite app_nil_r|]. intros x Hx. specialize (H2 x Hx). change (first_unallocated (pt_r t) <= dp_pgno x) in H2. lia.
Qed.

Lemma shifted_none l : shifted 0 l = l.
Proof. unfold shifted. rewrite <- (list_fmap_id l) at 2. apply list_fmap_ext. intros i x _. apply Z.shiftr_0_r. Qed.

Lemma desc_is_weak l : desc l -> desc_weak l.
Proof. intros H. eapply StronglySorted_impl; [|exact H]. cbn beta. lia. Qed.

Lemma NoDup_fmap_app {A B} (f : A -> B) (a b : list A) : NoDup (f <$> a ++ b) ->
  NoDup (f <$> a) /\ (forall x y, x ∈ a -> y ∈ b -> f x <> f y) /\ NoDup (f <$> b).
Proof.
  rewrite fmap_app. intros (H1 & H2 & H3)%NoDup_app. split_and!; [done| |done]. intros x y Hx Hy E. apply (H2 (f x)); [by apply list_elem_of_fmap_2|].
  rewrite E. by apply list_elem_of_fmap_2.
Qed.

Section Merge.
Context (al : allocator) `{!AllocOk 4 al} (cm av : bool).
Context (t : ptxn) (n : ntxn) (D S : list dp) (R T0 T1 ls ln : list Z).
Hypothesis Hmb : mergeable t n D S R T0 T1 ls ln.

(** The lists that are changed besides the dirty pages, after the filters. *)
Record filtered (t' : ptxn) (R' K ls' : list Z) : Prop := {
  ft_reclaimed : pnl_rep (repnl (pt_r t')) R' /\ desc R' /\ R' ++ K ≡ₚ R ++ T1;
  ft_retired : pnl_rep (retired_pages t') (T0 ++ K);
  ft_kept : forall q, q ∈ K -> (forall x, x ∈ D -> dp_pgno x <> q) /\ ~ spilled_page ls q;
  ft_others : forall q, q ∈ T1 -> (forall x, x ∈ D -> ~ in_span (dp_pgno x) (dp_npages_ x) q) -> ~ spilled_page ls q -> q ∈ K;
  ft_spilled : spilled_rep (rt_spilled (pt_r t')) ls' /\ all_live ls' /\ zlen ls' <= zlen ls;
  ft_pages : forall q, spilled_page ls' q <-> spilled_page ls q /\ q < first_unallocated (pt_r t) /\ q ∉ R /\ q ∉ T1 /\ ~ covered S q;
  ft_block : forall s, rt_spilled (pt_r t') = Some s -> has_capacity (sp_list s) (zlen ls + zlen ln);
}.

(** The pages that became reclaimed and the retired ones of the parent. *)
Lemma moved_thinned t2 dl2 D2 t3 D3 gone R' K moved ls' : sorted_list t2 dl2 D2 -> all_moved t2 dl2 D2 R T0 T1 ls t3 D3 gone R' K moved ls' -> thinned t2 t3 D2 D3 gone.
Proof using Type.
  intros (Hdl & _) [A1 A2 A3 A4 A5 A6 A7 A8 A9 A10 Ao A11 A12]. split; try done. intros dl Hdl'. rewrite Hdl in Hdl'. by injection Hdl' as <-.
Qed.

Lemma covered_perm S1 q : S1 ≡ₚ S -> covered S1 q <-> covered S q.
Proof using Type. intros HP. unfold covered. split; intros (e & He & H); exists e; [rewrite HP in He|rewrite <- HP in He]; done. Qed.

Lemma block_none o l : spilled_rep o l -> (None : option Z) = (sp_list <$> o) ≫= pnl_alloclen -> o = None.
Proof using Type.
  destruct o as [s|]; [|done]. cbn [spilled_rep]. intros [(len & rest & Es & _) _ _ _ _ _ _] E. cbn in E. rewrite Es in E. done.
Qed.

Lemma block_capacity s o o0 l k : o = Some s -> spilled_rep o l -> (sp_list <$> o) ≫= pnl_alloclen = (sp_list <$> o0) ≫= pnl_alloclen ->
  (forall s0, o0 = Some s0 -> has_capacity (sp_list s0) k) -> has_capacity (sp_list s) k.
Proof using Type.
  intros -> Hr E Hc. destruct o0 as [s0|]; [|by apply (block_none (Some s) l) in Hr]. destruct (Hc s0 eq_refl) as (len & Hl & Hle). exists len. split; [|done]. etrans; [exact E|exact Hl].
Qed.

(** The kept pages of the list that was sifted are those of the whole list. *)
Lemma kept_everywhere D2 D1 q : q ∈ T1 -> (forall x, x ∈ D2 -> dp_pgno x <> q) ->
  D2 ≡ₚ dp_keep R D1 -> D1 ≡ₚ filter (fun x => dp_pgno x < first_unallocated (pt_r t)) D -> forall x, x ∈ D -> dp_pgno x <> q.
Proof using Hmb.
  intros Hq HD2 HP2 HP1 x Hx Ex. apply (HD2 x); [|done]. rewrite HP2. apply list_elem_of_filter. split.
  - rewrite Ex. pose proof (mb_places _ _ _ _ _ _ _ _ _ Hmb) as (_ & _ & (_ & H & _)%NoDup_app)%NoDup_app. by apply H.
  - rewrite HP1. apply list_elem_of_filter. split; [|done]. rewrite Ex. by apply (mb_retired _ _ _ _ _ _ _ _ _ Hmb).
Qed.

Lemma filter_steps t1 D1 g1 src S1 srest : thinned t t1 D D1 g1 -> D1 ≡ₚ filter (fun x => dp_pgno x < first_unallocated (pt_r t)) D ->
  repnl (pt_r t1) = repnl (pt_r t) -> retired_pages t1 = retired_pages t -> rt_spilled (pt_r t1) = rt_spilled (pt_r t) ->
  dl_items src = stubB :: S1 ++ srest -> dl_length src = zlen S1 -> entries_ok S1 -> S1 ≡ₚ S ->
  exists d1 t3 t4 D3 g R' K ls', txn_dpl_sift cm av (rt_dirty (pt_r t1)) (repnl (pt_r t1)) false = Some d1 /\ move_retired al cm (set_dtxn t1 d1) (zlen T0) = Some t3 /\
    filter_spilled t3 src = Some t4 /\ thinned t t4 D D3 g /\ D3 ≡ₚ filter (fun x => dp_pgno x < first_unallocated (pt_r t) /\ dp_pgno x ∉ R /\ dp_pgno x ∉ T1) D /\
    filtered t4 R' K ls'.
Proof using All.
  intros Hth HD1 Erp Ert Esp Hsrc Hlen HS1 HPS. pose proof Hmb as [(dst & B1 & B1b & B1c) B2 [B3 B3b] [B4 B4b] B5 [B6 B6b] B7 (B8 & B8b & B8c) (B9 & B9b & B9c) B10 B11 (B12 & B12b & B12c & B12d & B12e) [B13 B13b]].
  zlen_pos. assert (0 <= dirtyroom (rt_dirty (pt_r t))) as Hr0 by lia. destruct (thinned_room _ _ _ _ _ Hth Hr0 B6b) as [Hr1 Hr1b]. destruct (th_list _ _ _ _ _ Hth dst B1) as (dl1 & Hsl1 & Hdt1).
  pose proof (th_rest _ _ _ _ _ Hth) as (Hfu & Hlo & Hfr & Hwm & Han).
  destruct (sift_thinned cm av t1 dl1 D1 (repnl (pt_r t1)) R false Hsl1) as (d1 & D2 & g2 & E1 & Hth2 & HD2); [congruence|lia|lia|by rewrite Erp|by rewrite shifted_none; apply desc_is_weak|]. rewrite shifted_none in HD2.
  destruct (th_list _ _ _ _ _ Hth2 dl1) as (dl2 & Hsl2 & Hdt2); [apply Hsl1|]. pose proof (thinned_trans _ _ _ _ _ _ _ _ Hth Hth2) as Hth02.
  destruct (thinned_room _ _ _ _ _ Hth02 Hr0 B6b) as [Hr2 Hr2b]. assert (forall x, x ∈ D2 -> x ∈ D) as Hsub by (intros x; by apply (thinned_sub _ _ _ _ _ x Hth02)).
  destruct (move_retired_spec al cm (set_dtxn t1 d1) dl2 D2 R T0 T1 ls) as (t3 & D3 & g3 & R' & K & moved & ls3 & E3 & Ham); try done.
  { intros q Hq. specialize (B9c q Hq). lia. } { split; [lia|done]. } { apply (dirty_pages_sub D); [done|apply Hsub]. } { intros x Hx. apply B11. by apply Hsub. }
  { intros x q Hx Hin. split; [by apply (B13 x); [apply Hsub|]|]. intros y Hy Ey. by apply (dirty_head D x y q); auto. }
  { change (has_capacity (repnl (pt_r t1)) (zlen R + zlen T1)). by rewrite Erp. } { change (pnl_rep (repnl (pt_r t1)) R). by rewrite Erp. }
  { change (pnl_rep (retired_pages t1) (T0 ++ T1)). by rewrite Ert. } { change (spilled_rep (rt_spilled (pt_r t1)) ls). by rewrite Esp. }
  pose proof (moved_thinned _ _ _ _ _ _ _ _ _ _ Hsl2 Ham) as Hth3. destruct Ham as [A1 A2 A3 A4 A5 A6 (A7 & A7b & A7c) A8 A9 A10 Ao (A11 & A11b & A11c & A11d) A12].
  pose proof (thinned_trans _ _ _ _ _ _ _ _ Hth02 Hth3) as Hth03. pose proof (th_rest _ _ _ _ _ Hth03) as (Hfu3 & _).
  destruct (filter_spilled_spec t3 src S1 srest R' ls3 Hsrc Hlen HS1 A11 A7 A7b) as (t4 & o' & ls4 & E4 & [C1 C2 C3 C4 C5 C6]); [by rewrite Hfu3|].
  exists d1, t3, t4, D3, ((g1 ++ g2) ++ g3), R', K, ls4. split_and!; try done.
  - destruct o'; subst t4; destruct Hth03; split; done.
  - unfold dp_keep in HD2. rewrite A2, HD2, HD1. rewrite !list_filter_filter. apply reflexive_eq, filter_ext_in. intros x _. tauto.
  - assert (forall (P : ptxn -> Prop), P (set_spilled t3 (default (mk_spilled 0 []) o')) -> P t3 -> P t4) as Hcase by (intros P; subst t4; by destruct o').
    assert (rt_spilled (pt_r t4) = o') as Eo by (subst t4; destruct o'; [done|by eapply block_none]). split.
    + split_and!; [by apply Hcase|done|]. rewrite A7c, A8. by rewrite <- app_assoc.
    + by apply Hcase.
    + intros q Hq. destruct (A10 q Hq) as [HK HKs]. split; [|done]. apply (kept_everywhere D2 D1 q); [rewrite A8, elem_of_app; by right|done|done|done].
    + intros q Hq Hsp Hns. rewrite A8, elem_of_app in Hq. destruct Hq as [Hq|]; [|done]. destruct (Ao q Hq) as [?|(x & Hx & Hin)]; [done|]. by destruct (Hsp x (Hsub x Hx)).
    + rewrite Eo. split_and!; [done|done|lia].
    + intros q. rewrite C5, A11b. unfold stays_spilled. rewrite Hfu3, A7c, (covered_perm S1 q HPS), elem_of_app. assert (q ∈ moved -> q ∈ T1) by (intros; rewrite A8, elem_of_app; by left). tauto.
    + intros s Es. apply (block_capacity s (rt_spilled (pt_r t4)) (rt_spilled (pt_r t)) ls4); [done|by rewrite Eo|rewrite Eo|done].
      etrans; [exact C3|]. etrans; [exact A11d|]. exact (f_equal (fun o => (sp_list <$> o) ≫= pnl_alloclen) Esp).
Qed.

Lemma set_dtxn_same u : set_dtxn u (rt_dirty (pt_r u)) = u.
Proof using Type. destruct u as [r]. by destruct r. Qed.

(** Pages that the nested transaction has spilled. *)
Lemma sift_spilled t4 D3 dl : sorted_list t4 dl D3 -> writemap (rt_dirty (pt_r t4)) = false -> 0 <= dirtyroom (rt_dirty (pt_r t4)) ->
  dirtyroom (rt_dirty (pt_r t4)) + zlen D3 <= UINT64_MAX ->
  exists d D4 g, match nt_spilled n with Some s => txn_dpl_sift cm av (rt_dirty (pt_r t4)) (sp_list s) true | None => Some (rt_dirty (pt_r t4)) end = Some d /\
    thinned t4 (set_dtxn t4 d) D3 D4 g /\ D4 ≡ₚ filter (fun x => dp_pgno x ∉ spage <$> ln) D3.
Proof using Hmb.
  intros Hsl Hwm H0 H1. destruct (mb_spilled _ _ _ _ _ _ _ _ _ Hmb) as (_ & Hrn & _). destruct (nt_spilled n) as [s|]; cbn [spilled_rep] in Hrn.
  - destruct (sift_thinned cm av t4 dl D3 (sp_list s) ln true Hsl Hwm H0 H1 (sr_list _ _ Hrn)) as (d & D4 & g & E & Hth & HD); [apply desc_is_weak, (sr_desc _ _ Hrn)|].
    by exists d, D4, g.
  - rewrite Hrn. exists (rt_dirty (pt_r t4)), D3, []. split; [done|]. rewrite set_dtxn_same. split.
    + split; try done; [|rewrite zlen_nil; lia]. intros dl' Hdl'. destruct Hsl as (Hdl & Hsl). rewrite Hdl in Hdl'. injection Hdl' as <-. by exists dl.
    + cbn. rewrite filter_all; [done|]. intros x _. apply not_elem_of_nil.
Qed.

Lemma replaced_spared S1 D4 : rev (replaced S1 D4) ++ spared S1 D4 ≡ₚ D4.
Proof using Type.
  rewrite <- Permutation_rev. unfold replaced, spared. induction D4 as [|x l IH]; [done|]. rewrite !filter_cons. destruct (decide (Forall (apart x) S1)) as [Hx|Hx].
  - rewrite decide_False by tauto. by rewrite <- Permutation_middle, IH.
  - rewrite decide_True by tauto. cbn [app]. by rewrite IH.
Qed.

Lemma spared_outlives S1 D3 D4 : S1 ≡ₚ S -> D4 ≡ₚ filter (fun x => dp_pgno x ∉ spage <$> ln) D3 ->
  D3 ≡ₚ filter (fun x => dp_pgno x < first_unallocated (pt_r t) /\ dp_pgno x ∉ R /\ dp_pgno x ∉ T1) D ->
  spared S1 D4 ≡ₚ filter (outlives (first_unallocated (pt_r t)) R T1 ln S) D.
Proof using Type.
  intros HPS HD4 HD3. unfold spared. rewrite HD4, HD3, !list_filter_filter. apply reflexive_eq, filter_ext_in. intros x _. unfold outlives. rewrite HPS. tauto.
Qed.

(** The state with the merged dirty pages. *)
Record dirty_joined (u : ptxn) (D' : list dp) : Prop := {
  dj_list : exists dl, sorted_list u dl D';
  dj_entries : dp_asc D' /\ D' ≡ₚ filter (outlives (first_unallocated (pt_r t)) R T1 ln S) D ++ S;
  dj_room : dirtyroom (rt_dirty (pt_r u)) + zlen D' = dirtyroom (rt_dirty (pt_r t)) + zlen D;
  dj_released : exists gone, env_shadow (rt_dirty (pt_r u)) = release_pages gone (env_shadow (rt_dirty (pt_r t))) /\ gone ++ D' ≡ₚ D ++ S;
  dj_headers : forall x, x ∈ S -> pt_hdr u (dp_ptr x) = let h := pt_hdr t (dp_ptr x) in
    if h_flags h =? P_LOOSE then h else mk_hdr (front_txnid t) (Z.land (h_flags h) (Z.lnot P_SPILLED)) (h_pages h);
}.

Lemma with_pages_same dl : with_pages dl (dl_pages_including_loose dl) = dl.
Proof using Type. by destruct dl. Qed.

Lemma join_dirty t5 D3 D4 g src S1 : thinned t t5 D D4 g -> D4 ≡ₚ filter (fun x => dp_pgno x ∉ spage <$> ln) D3 ->
  D3 ≡ₚ filter (fun x => dp_pgno x < first_unallocated (pt_r t) /\ dp_pgno x ∉ R /\ dp_pgno x ∉ T1) D -> dpl_ok src S1 -> entries_ok S1 -> S1 ≡ₚ S ->
  exists u D', merge_dirty t5 src (dirtylru (nt_dirty n)) = Some u /\ dirty_joined u D' /\ repnl (pt_r u) = repnl (pt_r t5) /\
    retired_pages u = retired_pages t5 /\ rt_spilled (pt_r u) = rt_spilled (pt_r t5).
Proof using Hmb.
  intros Hth HD4 HD3 Hsrc HS1 HPS. pose proof Hmb as [(dst & B1 & B1b & B1c) _ [B3 B3b] [B4 B4b] B5 [B6 B6b] _ _ _ _ _ _ _].
  destruct (th_list _ _ _ _ _ Hth dst B1) as (dl & (Hdl & Hok & Hso) & Hdt). pose proof (sorted_asc _ _ Hok Hso) as Hasc.
  assert (forall x, x ∈ D4 -> x ∈ D) as Hsub by (intros x; by apply (thinned_sub _ _ _ _ _ x Hth)). pose proof (th_gone _ _ _ _ _ Hth) as Hg.
  assert (zlen D = zlen g + zlen D4) as HzD by (unfold zlen; rewrite <- Hg, length_app; lia). assert (zlen S1 = zlen S) as HzS by (by rewrite HPS). zlen_pos.
  assert (Forall held D4) as Hh by (rewrite Forall_forall in *; auto). pose proof (th_room _ _ _ _ _ Hth) as Hroom.
  destruct (merge_dirty_spec t5 src S1 dl D4 (dl_pages_including_loose dl) (dirtylru (nt_dirty n)) Hdl) as (u & M & dl' & E & [N1 N2 N3 [N4 N4b] N5 N6 N7 (N8 & N9 & N10 & _)]);
    [by rewrite with_pages_same|eapply dirty_entries; [by apply (dirty_pages_sub D)|done|done]|done|done|done|lia|lia|lia|].
  exists u, M. split; [done|]. split; [|done]. apply NoDup_fmap_app in B4b as (Hp1 & Hp2 & Hp3). split.
  - by exists dl'.
  - split; [done|]. by rewrite N4b, (spared_outlives S1 D3 D4), HPS.
  - lia.
  - exists (g ++ rev (replaced S1 D4)). rewrite N6, (th_env _ _ _ _ _ Hth), release_pages_app. split; [done|].
    rewrite N4b, <- app_assoc, (app_assoc (rev _)), replaced_spared, app_assoc, Hg. by rewrite HPS.
  - intros x Hx. rewrite N7. rewrite adopt_all_spec; [|by rewrite HPS|by rewrite HPS]. destruct (th_rest _ _ _ _ _ Hth) as (_ & _ & -> & _).
    rewrite (th_hdr _ _ _ _ _ Hth); [done|]. intros y Hy Ey. apply (Hp2 y x); [|done|done]. rewrite <- Hg, elem_of_app. by left.
Qed.

Lemma has_spilled_spec o l : spilled_rep o l -> exists b, has_spilled o = Some b /\ (b = true <-> l <> []).
Proof using Type.
  destruct o as [s|]; cbn [spilled_rep has_spilled]; intros H; [|by exists false; subst]. rewrite (pnl_rep_size _ _ (sr_list _ _ H)). cbn [mbind option_bind].
  eexists. split; [done|]. destruct (Z.eqb_spec (zlen l) 0) as [E|E]; cbn [negb].
  - apply zlen_0_nil in E. by subst.
  - split; [|done]. by intros _ ->.
Qed.

Lemma nested_merge_spec : exists t' n' spills D' R' K ls', nested_merge al cm av t n (zlen T0) = Some (t', n', spills) /\
  nested_merged t t' n' spills D S D' R R' T0 T1 K ls ls' ln.
Proof using All.
  pose proof Hmb as [(dst & B1 & B1b & B1c) (src & B2 & B2b) [B3 B3b] _ B5 [B6 B6b] _ _ _ _ _ (_ & B12b & B12c & B12d & _) [_ B13b]]. zlen_pos.
  destruct (txn_dpl_sort_spec cm src S B2b) as (src1 & S1 & Es & Hok1 & HPS & Has & _).
  assert (entries_ok S1) as HS1 by (eapply dirty_entries; [apply (dirty_pages_sub S); [done|intros x; by rewrite HPS]|done|done]).
  destruct (refund_thinned cm t dst D B1 B1b ltac:(lia) B6b) as (dst1 & t1 & k & D1 & g1 & Ed & Er & Hth1 & HD1 & L1 & L2 & L3).
  destruct (dok_items _ _ Hok1) as [srest Hsrc]. pose proof (dok_length _ _ Hok1) as Hlen.
  destruct (filter_steps t1 D1 g1 src1 S1 (stubE :: srest) Hth1 HD1 L1 L2 L3 Hsrc Hlen HS1 HPS) as (d1 & t3 & t4 & D3 & g3 & R' & K & ls4 & E1 & E3 & E4 & Hth4 & HD3 & [F1 F2 F3 F3b (F4 & F4b & F4c) F5 F6]).
  destruct (th_list _ _ _ _ _ Hth4 dst B1) as (dl4 & Hsl4 & _). destruct (thinned_room _ _ _ _ _ Hth4 ltac:(lia) B6b) as [Hr4 Hr4b]. pose proof (th_rest _ _ _ _ _ Hth4) as (_ & _ & _ & Hwm & _).
  destruct (sift_spilled t4 D3 dl4 Hsl4) as (d5 & D4 & g5 & E5 & Hth5 & HD4); [congruence|lia|done|].
  destruct (join_dirty (set_dtxn t4 d5) D3 D4 (g3 ++ g5) src1 S1 (thinned_trans _ _ _ _ _ _ _ _ Hth4 Hth5) HD4 HD3 Hok1 HS1 HPS) as (u & D' & E6 & HJ & J1 & J2 & J3).
  destruct (drop_nested_spec n src1 S1 Hok1) as (n' & E7 & Hn').
  destruct (merge_spilled_spec cm u (nt_spilled n) ls4 ln) as (t' & o' & ls' & E8 & Et' & Eo' & Hr' & Hp'); try done; [by rewrite J3|intros q Hq; by apply B13b, F5|lia| |].
  { intros s Hs. rewrite J3 in Hs. destruct (F6 s Hs) as (len & Hl & Hle). exists len. split; [done|lia]. }
  destruct (has_spilled_spec o' ls' Hr') as (b & E9 & Hb). exists t', n', b, D', R', K, ls'. split.
  - unfold nested_merge. rewrite B2. cbn [mbind option_bind]. rewrite Es. cbn [mbind option_bind]. rewrite B1. cbn [mbind option_bind]. rewrite Ed. cbn [mbind option_bind].
    rewrite Er. cbn [mbind option_bind]. fold (merge_rest al cm av (bump_t k t1) n src1 (zlen T0)). rewrite merge_rest_bump. unfold merge_rest.
    rewrite E1. cbn [mbind option_bind]. rewrite E3. cbn [mbind option_bind]. rewrite E4. cbn [mbind option_bind]. rewrite E5. cbn [mbind option_bind].
    rewrite E6. cbn [mbind option_bind]. rewrite E7. cbn [mbind option_bind]. rewrite E8. cbn [mbind option_bind]. rewrite Eo', E9. done.
  - assert (forall P : ptxn -> Prop, (forall s, P (set_spilled u s)) -> P u -> P t') as Hcase by (intros P HP Hu; subst t'; by destruct o'). destruct HJ as [J4 J5 J6 J7 J8]. split; try done.
    + by apply Hcase.
    + by apply (Hcase (fun v => dirtyroom (rt_dirty (pt_r v)) + zlen D' = dirtyroom (rt_dirty (pt_r t)) + zlen D)).
    + by apply (Hcase (fun v => exists gone, env_shadow (rt_dirty (pt_r v)) = release_pages gone (env_shadow (rt_dirty (pt_r t))) /\ gone ++ D' ≡ₚ D ++ S)).
    + intros x Hx. by apply (Hcase (fun v => pt_hdr v (dp_ptr x) = _)); [intros s|]; apply J8.
    + apply (Hcase (fun v => pnl_rep (repnl (pt_r v)) R' /\ desc R' /\ R' ++ K ≡ₚ R ++ T1)); [intros s; change (repnl (pt_r (set_spilled u s))) with (repnl (pt_r u))|]; by rewrite J1.
    + apply (Hcase (fun v => pnl_rep (retired_pages v) (T0 ++ K))); [intros s; change (retired_pages (set_spilled u s)) with (retired_pages u)|]; by rewrite J2.
    + rewrite Eo'. split; [done|]. intros q. rewrite Hp', F5. tauto.
Qed.
End Merge.


(** A parent with the pages 3, 5 to 6 and 7, of which the nested transaction has
    changed 3 and released 5 to 6. *)
Definition sample_parent : ptxn :=
mk_ptxn (mk_rtxn sample_dtxn 20 (sample_pnl [8] 4) [] 0 0 (Some (mk_spilled INT_MAX32 (sample_pnl [26; 24] 4)))) (sample_pnl [4; 6; 5] 4) sample_hdr [] 11 11 0 false
  (mk_counts 0 4 0) None.
Definition sample_new : list dp := [mk_dp 900 9 1; mk_dp 301 3 1].
Definition sample_nested : ntxn :=
mk_ntxn (mk_dtxn false false (Some (mk_dpl 1 2 2 8 (stubB :: sample_new ++ stubE :: replicate 31 (mk_dp 0 0 0)))) 8 4 ∅ (mk_shadow [] [] 2)) (Some (mk_spilled INT_MAX32 (sample_pnl [22] 4))).

Ltac sample_elem H := repeat (apply elem_of_cons in H as [->|H]; [first [by vm_compute | auto]|]); try by apply elem_of_nil in H.

Lemma sample_spill_rep l : (length l <=? 4)%nat = true -> desc (spage <$> l) -> Forall (fun x => 0 <= x < 2 ^ 32) l -> all_live l -> spill_rep (mk_spilled INT_MAX32 (sample_pnl l 4)) l.
Proof.
  intros Hl Hd HF Hlive. split; cbn [sp_list least_removed]; [by apply sample_pnl_rep; rewrite Hl|done|done| |by vm_compute|by left|].
  - apply Nat.leb_le in Hl. unfold zlen, INT_MAX32. lia.
  - intros i x Hx _. apply zget_elem in Hx. unfold all_live in Hlive. rewrite Forall_forall in Hlive. by apply Hlive.
Qed.

Lemma sample_src_ok : dpl_ok (mk_dpl 1 2 2 8 (stubB :: sample_new ++ stubE :: replicate 31 (mk_dp 0 0 0))) sample_new.
Proof.
  split.
  - by exists (replicate 31 (mk_dp 0 0 0)).
  - reflexivity.
  - exists [mk_dp 900 9 1], [mk_dp 301 3 1]. split_and!; [done|done|repeat constructor].
  - by apply (bool_decide_unpack _).
  - repeat constructor; by vm_compute.
  - by vm_compute.
  - by vm_compute.
  - by vm_compute.
  - reflexivity.
Qed.

Lemma sample_dirty_pages l : bool_decide (Forall (fun x => Forall (fun y => x = y \/ apart x y) l /\ 0 < dp_npages_ x /\ dp_pgno x + dp_npages_ x <= P_INVALID) l) = true -> dirty_pages l.
Proof.
  intros H%bool_decide_eq_true. split.
  - intros x y Hx Hy Hne. rewrite Forall_forall in H. destruct (H x Hx) as [Ha _]. rewrite Forall_forall in Ha. by destruct (Ha y Hy).
  - eapply Forall_impl; [exact H|]. intros x [_ Hx]. exact Hx.
Qed.

Lemma sample_mergeable : mergeable sample_parent sample_nested sample_dps sample_new [8] [4] [6; 5] [26; 24] [22].
Proof.
  split.
  - exists sample_dpl. split_and!; [done|apply sample_dpl_ok|by vm_compute].
  - eexists. split; [done|apply sample_src_ok].
  - split; apply sample_dirty_pages; by vm_compute.
  - split; [repeat constructor; by vm_compute|by apply (bool_decide_unpack _)].
  - done.
  - split; by vm_compute.
  - by vm_compute.
  - split_and!; [by apply sample_pnl_rep|repeat constructor|]. exists 4. by vm_compute.
  - split_and!; [by apply sample_pnl_rep|by vm_compute|]. intros q Hq. sample_elem Hq.
  - by apply (bool_decide_unpack _).
  - intros x Hx. repeat (apply elem_of_cons in Hx as [->|Hx]); [..|by apply elem_of_nil in Hx]; intros Hq.
    + apply elem_of_cons in Hq as [?|[?|?%elem_of_nil]%elem_of_cons]; done.
    + apply elem_of_cons in Hq as [?|[?|?%elem_of_nil]%elem_of_cons]; done.
    + exists 2%nat, [], []. split_and!; [lia|done|done].
  - split_and!; [apply sample_spill_rep; [done|repeat constructor; by vm_compute|repeat constructor; by vm_compute|repeat constructor]|
      apply sample_spill_rep; [done|repeat constructor; by vm_compute|repeat constructor; by vm_compute|repeat constructor]|repeat constructor|by vm_compute|].
    intros s [= <-]. exists 4. by vm_compute.
  - unfold spilled_page, in_span. split.
    + intros x q Hx Hin Hq. apply elem_of_cons in Hq as [?|[?|?%elem_of_nil]%elem_of_cons]; [| |done];
      repeat (apply elem_of_cons in Hx as [->|Hx]; [cbn in Hin; lia|]); by apply elem_of_nil in Hx.
    + intros q Hq Hn%list_elem_of_singleton. apply elem_of_cons in Hq as [?|[?|?%elem_of_nil]%elem_of_cons]; [lia|lia|done].
Qed.


(** Of a large page that the nested transaction has released only the first page
    becomes reclaimed: the loop over the rest looks at the element before the last
    one that stays, where the rest never is. *)
Lemma rest_of_large_page_stays_retired :
  ('(t, _, _) ← nested_merge (exact_allocator 4) true true sample_parent sample_nested 1;
   r1 ← pnl_at (repnl (pt_r t)) 1; r2 ← pnl_at (repnl (pt_r t)) 2; size ← pnl_size (retired_pages t); last ← pnl_at (retired_pages t) 2;
   Some ([r1; r2], size, last)) = Some ([8; 5], 2, 6).
Proof. vm_compute. reflexivity. Qed.

(** When the element before the only one that stays is looked at, the loop reads the
    size of the list. Here the parent has retired nothing, and the nested
    transaction has retired five pages: with the large page 4 to 5 of the parent,
    reused by parts, the first page 4 only. The size 5 looks like its second page,
    so page 10 leaves the retired pages and page 5, which is in use, is reclaimed. *)
Definition sample_misread : ptxn :=
mk_ptxn (mk_rtxn (mk_dtxn false false (Some (mk_dpl 1 1 2 8 (stubB :: [mk_dp 500 4 2] ++ stubE :: replicate 32 (mk_dp 0 0 0)))) 8 4 ∅ (mk_shadow [] [] 2)) 20
  (sample_pnl [8] 8) [] 0 0 (Some (mk_spilled INT_MAX32 (sample_pnl [26; 24; 22] 4)))) (sample_pnl [10; 13; 12; 4; 11] 8) sample_hdr [] 11 11 0 false (mk_counts 0 4 0) None.

Lemma size_read_for_a_page :
  ('(t, _, _) ← nested_merge (exact_allocator 4) true true sample_misread (mk_ntxn (nt_dirty sample_nested) None) 0;
   r5 ← pnl_at (repnl (pt_r t)) 5; r6 ← pnl_at (repnl (pt_r t)) 6; n ← pnl_size (repnl (pt_r t)); size ← pnl_size (retired_pages t);
   Some ([r5; r6], n, size)) = Some ([5; 4], 6, 0).
Proof. vm_compute. reflexivity. Qed.
