(* ===== verification/Transcode.v ===== *)
(** * Texts made from bytes ([src/src/mdbx.c++], [mdbx++/decl-transcoders.h++])

    The encoders and decoders of slices of the C++ API: hexadecimal, Base58 and
    Base64, with wrapped lines and with spaces that are ignored, each as a
    [transcoder] with the three operations of the concept [SliceTranscoder]; the
    same texts written to a stream; and [slice::is_printable]. The proofs are in
    [TranscodeProofs] and [Base58]. *)

From stdpp Require Import base numbers option list.
From Stdlib Require Import ZArith Lia.
From S2P Require Import Prelude Bytes.

(** The exceptions: [std::length_error] and [std::domain_error]. *)
Inductive exn : Set := length_error | domain_error.

#[global] Instance exn_eq_dec : EqDecision exn.
Proof. solve_decision. Defined.

(** The concept [SliceTranscoder]. [write_bytes] gives the bytes from the
    destination up to the returned pointer, or an exception; [None] is a write
    behind the end of the destination. *)
Record transcoder : Type := mk_transcoder {
  envisage_result_length : bytes -> Z;
  write_bytes : bytes -> Z -> option (exn + bytes);
  is_erroneous : bytes -> bool;
}.

(** The bytes are stored one after the other from the destination on, the last
    [scratch] of them behind the returned pointer. *)
Definition fill (dest_size : Z) (text : bytes) (scratch : Z) : option (exn + bytes) :=
if zlen text + scratch <=? dest_size then Some (inr text) else None.

(** An exception behind [stored] bytes in the destination. *)
Definition throw (dest_size : Z) (e : exn) (stored : Z) : option (exn + bytes) :=
if stored <=? dest_size then Some (inl e) else None.

(** The functions of [<cctype>], in the C locale. *)
Definition isspace (c : Z) : bool := ((9 <=? c) && (c <=? 13)) || (c =? 32).
Definition isxdigit (c : Z) : bool :=
((48 <=? c) && (c <=? 57)) || ((65 <=? c) && (c <=? 70)) || ((97 <=? c) && (c <=? 102)).

Definition wrapped_length (size wrap_width : Z) : Z := if negb (wrap_width =? 0) then u64 (size + size / wrap_width) else size.

(** ** Hexadecimal *)

Definition hex_digit (alpha_offset x : Z) : Z := u8 (48 + x + Z.land (Z.shiftr (9 - x) 7) alpha_offset).

Definition hex_byte (uppercase : bool) (b : Z) : bytes :=
let alpha_offset := (if uppercase then 65 else 97) - 57 - 1 in
[hex_digit alpha_offset (Z.shiftr b 4); hex_digit alpha_offset (Z.land b 15)].

(** [width] is [ptr - line]. *)
Fixpoint to_hex_loop (uppercase : bool) (wrap_width width : Z) (src : bytes) : bytes :=
match src with
| [] => []
| b :: src =>
  if negb (wrap_width =? 0) && (wrap_width <=? width) then 10 :: hex_byte uppercase b ++ to_hex_loop uppercase wrap_width 2 src
  else hex_byte uppercase b ++ to_hex_loop uppercase wrap_width (width + 2) src
end.

Definition to_hex_length (wrap_width : Z) (source : bytes) : Z := wrapped_length (u64 (Z.shiftl (zlen source) 1)) wrap_width.

Definition to_hex_write_bytes (uppercase : bool) (wrap_width : Z) (source : bytes) (dest_size : Z) : option (exn + bytes) :=
if dest_size <? to_hex_length wrap_width source then Some (inl length_error)
else fill dest_size (to_hex_loop uppercase wrap_width 0 source) 0.

(** The stream; [width] is an [unsigned]. *)
Fixpoint to_hex_stream (uppercase : bool) (wrap_width width : Z) (src : bytes) : bytes :=
match src with
| [] => []
| b :: src =>
  let '(endl, width) := if negb (wrap_width =? 0) && (wrap_width <=? width) then ([10], 0) else ([], width) in
  endl ++ hex_byte uppercase b ++ to_hex_stream uppercase wrap_width (u32 (width + 2)) src
end.

Definition to_hex_output (uppercase : bool) (wrap_width : Z) (source : bytes) : bytes :=
match source with [] => [] | _ => to_hex_stream uppercase wrap_width 0 source end.

(** A digit: the arithmetic on [int8_t]. *)
Definition hex_value (c : Z) : Z :=
let hi := signed 8 (Z.lor (signed 8 c) 0x20 - 97) in
signed 8 (hi + 10 + Z.land (Z.shiftr hi 7) 39).

(** The loop ends with the bytes, or with an exception and the number of bytes
    stored before it. *)
Fixpoint from_hex_loop (ignore_spaces : bool) (src : bytes) : exn * Z + bytes :=
match src with
| [] => inr []
| c :: rest =>
  if (c <=? 32) && (ignore_spaces && isspace c) then from_hex_loop ignore_spaces rest
  else
    match rest with
    | [] => inl (domain_error, 0)
    | d :: rest =>
      if negb (isxdigit c) || negb (isxdigit d) then inl (domain_error, 0)
      else
        match from_hex_loop ignore_spaces rest with
        | inl (e, stored) => inl (e, 1 + stored)
        | inr out => inr (u8 (Z.lor (Z.shiftl (hex_value c) 4) (hex_value d)) :: out)
        end
    end
end.

Definition from_hex_length (source : bytes) : Z := Z.shiftr (zlen source) 1.

Definition from_hex_write_bytes (ignore_spaces : bool) (source : bytes) (dest_size : Z) : option (exn + bytes) :=
if negb (zlen source mod 2 =? 0) && negb ignore_spaces then Some (inl domain_error)
else if dest_size <? from_hex_length source then Some (inl length_error)
else
  match from_hex_loop ignore_spaces source with
  | inl (e, stored) => throw dest_size e stored
  | inr out => fill dest_size out 0
  end.

Fixpoint from_hex_scan (ignore_spaces got : bool) (src : bytes) : bool :=
match src with
| [] => negb got
| c :: rest =>
  if (c <=? 32) && (ignore_spaces && isspace c) then from_hex_scan ignore_spaces got rest
  else
    match rest with
    | [] => true
    | d :: rest => if negb (isxdigit c) || negb (isxdigit d) then true else from_hex_scan ignore_spaces true rest
    end
end.

Definition from_hex_is_erroneous (ignore_spaces : bool) (source : bytes) : bool :=
if negb (zlen source mod 2 =? 0) && negb ignore_spaces then true else from_hex_scan ignore_spaces false source.

Definition to_hex (uppercase : bool) (wrap_width : Z) : transcoder :=
mk_transcoder (to_hex_length wrap_width) (to_hex_write_bytes uppercase wrap_width) (fun _ => false).
Definition from_hex (ignore_spaces : bool) : transcoder :=
mk_transcoder from_hex_length (from_hex_write_bytes ignore_spaces) (from_hex_is_erroneous ignore_spaces).

(** ** Base64 *)

(** The classes of characters in the tables. *)
Definition OO : Z := -8.
Definition EQ : Z := -4.
Definition SP : Z := -2.
Definition IL : Z := -1.

(** [A .. Z], [a .. z], [0 .. 9], [+] and [/]. *)
Definition b64_alphabet : bytes :=
 [65; 66; 67; 68; 69; 70; 71; 72; 73; 74; 75; 76; 77; 78; 79; 80;
  81; 82; 83; 84; 85; 86; 87; 88; 89; 90; 97; 98; 99; 100; 101; 102;
  103; 104; 105; 106; 107; 108; 109; 110; 111; 112; 113; 114; 115; 116; 117; 118;
  119; 120; 121; 122; 48; 49; 50; 51; 52; 53; 54; 55; 56; 57; 43; 47].

Definition b64_char (i : Z) : Z := default 0 (zget b64_alphabet i).

Definition b64_3to4 (x y z : Z) : bytes :=
[b64_char (Z.shiftr (Z.land x 0xfc) 2);
 b64_char (Z.shiftl (Z.land x 0x03) 4 + Z.shiftr (Z.land y 0xf0) 4);
 b64_char (Z.shiftl (Z.land y 0x0f) 2 + Z.shiftr (Z.land z 0xc0) 6);
 b64_char (Z.land z 0x3f)].

(** The switch on the number of bytes left; 61 is the padding. *)
Fixpoint to_base64_loop (wrap_width width : Z) (src : bytes) : bytes :=
match src with
| x :: y :: z :: src =>
  let width := width + 4 in
  if negb (wrap_width =? 0) && (wrap_width <=? width) && negb (zlen src =? 0)
  then b64_3to4 x y z ++ 10 :: to_base64_loop wrap_width 0 src
  else b64_3to4 x y z ++ to_base64_loop wrap_width width src
| [x; y] => take 3 (b64_3to4 x y 0) ++ [61]
| [x] => take 2 (b64_3to4 x 0 0) ++ [61; 61]
| [] => []
end.

Definition to_base64_length (wrap_width : Z) (source : bytes) : Z := wrapped_length (u64 (u64 (zlen source + 2) / 3 * 4)) wrap_width.

Definition to_base64_write_bytes (wrap_width : Z) (source : bytes) (dest_size : Z) : option (exn + bytes) :=
if dest_size <? to_base64_length wrap_width source then Some (inl length_error)
else fill dest_size (to_base64_loop wrap_width 0 source) 0.

Fixpoint to_base64_stream (wrap_width width : Z) (src : bytes) : bytes :=
match src with
| x :: y :: z :: src =>
  if negb (wrap_width =? 0) then
    let width := u32 (width + 4) in
    if (wrap_width <=? width) && negb (zlen src =? 0)
    then b64_3to4 x y z ++ 10 :: to_base64_stream wrap_width 0 src
    else b64_3to4 x y z ++ to_base64_stream wrap_width width src
  else b64_3to4 x y z ++ to_base64_stream wrap_width width src
| [x; y] => take 3 (b64_3to4 x y 0) ++ [61]
| [x] => take 2 (b64_3to4 x 0 0) ++ [61; 61]
| [] => []
end.

Definition to_base64_output (wrap_width : Z) (source : bytes) : bytes :=
match source with [] => [] | _ => to_base64_stream wrap_width 0 source end.

Definition b64_map : list Z :=
 [OO; IL; IL; IL; IL; IL; IL; IL; IL; SP; SP; SP; SP; SP; IL; IL;
  IL; IL; IL; IL; IL; IL; IL; IL; IL; IL; IL; IL; IL; IL; IL; IL;
  SP; IL; IL; IL; IL; IL; IL; IL; IL; IL; IL; 62; IL; IL; IL; 63;
  52; 53; 54; 55; 56; 57; 58; 59; 60; 61; IL; IL; IL; EQ; IL; IL;
  IL; 0; 1; 2; 3; 4; 5; 6; 7; 8; 9; 10; 11; 12; 13; 14;
  15; 16; 17; 18; 19; 20; 21; 22; 23; 24; 25; IL; IL; IL; IL; IL;
  IL; 26; 27; 28; 29; 30; 31; 32; 33; 34; 35; 36; 37; 38; 39; 40;
  41; 42; 43; 44; 45; 46; 47; 48; 49; 50; 51; IL; IL; IL; IL; IL;
  IL; IL; IL; IL; IL; IL; IL; IL; IL; IL; IL; IL; IL; IL; IL; IL;
  IL; IL; IL; IL; IL; IL; IL; IL; IL; IL; IL; IL; IL; IL; IL; IL;
  IL; IL; IL; IL; IL; IL; IL; IL; IL; IL; IL; IL; IL; IL; IL; IL;
  IL; IL; IL; IL; IL; IL; IL; IL; IL; IL; IL; IL; IL; IL; IL; IL;
  IL; IL; IL; IL; IL; IL; IL; IL; IL; IL; IL; IL; IL; IL; IL; IL;
  IL; IL; IL; IL; IL; IL; IL; IL; IL; IL; IL; IL; IL; IL; IL; IL;
  IL; IL; IL; IL; IL; IL; IL; IL; IL; IL; IL; IL; IL; IL; IL; IL;
  IL; IL; IL; IL; IL; IL; IL; IL; IL; IL; IL; IL; IL; IL; IL; IL].

Definition b64_code (c : Z) : Z := default IL (zget b64_map c).

Definition b64_4to3 (a b c d : Z) : bytes * Z :=
([u8 (Z.shiftl a 2 + Z.shiftr (Z.land b 0x30) 4);
  u8 (Z.shiftl (Z.land b 0xf) 4 + Z.shiftr (Z.land c 0x3c) 2);
  u8 (Z.shiftl (Z.land c 0x3) 6 + d)], Z.lor (Z.lor (Z.lor a b) c) d).

(** Three bytes are always stored, of the last ones some behind the returned
    pointer: the second component. They are stored before the group is found
    invalid, too. *)
Fixpoint from_base64_loop (ignore_spaces : bool) (src : bytes) : exn * Z + bytes * Z :=
match src with
| [] => inr ([], 0)
| s0 :: rest =>
  if (s0 <=? 32) && (ignore_spaces && isspace s0) then from_base64_loop ignore_spaces rest
  else
    match rest with
    | s1 :: s2 :: s3 :: rest =>
      let a := b64_code s0 in let b := b64_code s1 in let c := b64_code s2 in let d := b64_code s3 in
      let '(out, bits) := b64_4to3 a b c d in
      if bits <? 0 then
        if (zlen rest =? 0) && (0 <=? Z.lor a b) && (d =? EQ) then
          if 0 <=? c then inr (take 2 out, 1)
          else if c =? d then inr (take 1 out, 2)
          else inl (domain_error, 3)
        else inl (domain_error, 3)
      else
        match from_base64_loop ignore_spaces rest with
        | inl (e, stored) => inl (e, 3 + stored)
        | inr (text, scratch) => inr (out ++ text, scratch)
        end
    | _ => inl (domain_error, 0)
    end
end.

Definition from_base64_length (source : bytes) : Z := u64 (u64 (zlen source + 3) / 4 * 3).

Definition from_base64_write_bytes (ignore_spaces : bool) (source : bytes) (dest_size : Z) : option (exn + bytes) :=
if negb (zlen source mod 4 =? 0) && negb ignore_spaces then Some (inl domain_error)
else if dest_size <? from_base64_length source then Some (inl length_error)
else
  match from_base64_loop ignore_spaces source with
  | inl (e, stored) => throw dest_size e stored
  | inr (out, scratch) => fill dest_size out scratch
  end.

Fixpoint from_base64_scan (ignore_spaces got : bool) (src : bytes) : bool :=
match src with
| [] => negb got
| s0 :: rest =>
  if (s0 <=? 32) && (ignore_spaces && isspace s0) then from_base64_scan ignore_spaces got rest
  else
    match rest with
    | s1 :: s2 :: s3 :: rest =>
      let a := b64_code s0 in let b := b64_code s1 in let c := b64_code s2 in let d := b64_code s3 in
      if Z.lor (Z.lor (Z.lor a b) c) d <? 0 then
        negb ((zlen rest =? 0) && (0 <=? Z.lor a b) && (d =? EQ) && ((0 <=? c) || (c =? d)))
      else from_base64_scan ignore_spaces true rest
    | _ => true
    end
end.

Definition from_base64_is_erroneous (ignore_spaces : bool) (source : bytes) : bool :=
if negb (zlen source mod 4 =? 0) && negb ignore_spaces then true else from_base64_scan ignore_spaces false source.

Definition to_base64 (wrap_width : Z) : transcoder :=
mk_transcoder (to_base64_length wrap_width) (to_base64_write_bytes wrap_width) (fun _ => false).
Definition from_base64 (ignore_spaces : bool) : transcoder :=
mk_transcoder from_base64_length (from_base64_write_bytes ignore_spaces) (from_base64_is_erroneous ignore_spaces).

(** ** Base58 *)

(** [1 .. 9] and the letters without [I], [O] and [l]. *)
Definition b58_alphabet : bytes :=
 [49; 50; 51; 52; 53; 54; 55; 56; 57; 65; 66; 67; 68; 69; 70; 71;
  72; 74; 75; 76; 77; 78; 80; 81; 82; 83; 84; 85; 86; 87; 88; 89;
  90; 97; 98; 99; 100; 101; 102; 103; 104; 105; 106; 107; 109; 110; 111; 112;
  113; 114; 115; 116; 117; 118; 119; 120; 121; 122].

Definition b58_map : list Z :=
 [OO; IL; IL; IL; IL; IL; IL; IL; IL; SP; SP; SP; SP; SP; IL; IL;
  IL; IL; IL; IL; IL; IL; IL; IL; IL; IL; IL; IL; IL; IL; IL; IL;
  SP; IL; IL; IL; IL; IL; IL; IL; IL; IL; IL; IL; IL; IL; IL; IL;
  IL; 0; 1; 2; 3; 4; 5; 6; 7; 8; IL; IL; IL; IL; IL; IL;
  IL; 9; 10; 11; 12; 13; 14; 15; 16; IL; 17; 18; 19; 20; 21; IL;
  22; 23; 24; 25; 26; 27; 28; 29; 30; 31; 32; IL; IL; IL; IL; IL;
  IL; 33; 34; 35; 36; 37; 38; 39; 40; 41; 42; 43; IL; 44; 45; 46;
  47; 48; 49; 50; 51; 52; 53; 54; 55; 56; 57; IL; IL; IL; IL; IL;
  IL; IL; IL; IL; IL; IL; IL; IL; IL; IL; IL; IL; IL; IL; IL; IL;
  IL; IL; IL; IL; IL; IL; IL; IL; IL; IL; IL; IL; IL; IL; IL; IL;
  IL; IL; IL; IL; IL; IL; IL; IL; IL; IL; IL; IL; IL; IL; IL; IL;
  IL; IL; IL; IL; IL; IL; IL; IL; IL; IL; IL; IL; IL; IL; IL; IL;
  IL; IL; IL; IL; IL; IL; IL; IL; IL; IL; IL; IL; IL; IL; IL; IL;
  IL; IL; IL; IL; IL; IL; IL; IL; IL; IL; IL; IL; IL; IL; IL; IL;
  IL; IL; IL; IL; IL; IL; IL; IL; IL; IL; IL; IL; IL; IL; IL; IL;
  IL; IL; IL; IL; IL; IL; IL; IL; IL; IL; IL; IL; IL; IL; IL; IL].

Definition b58_code (c : Z) : Z := default IL (zget b58_map c).

(** [line_wrapper]: one character, with the width of the line after it. *)
Definition put (wrap_width width c : Z) : bytes * Z :=
if negb (wrap_width =? 0) && (wrap_width <=? width + 1) then ([c; 10], 0) else ([c], width + 1).

Fixpoint put_chars (wrap_width width : Z) (chunk : bytes) : bytes * Z :=
match chunk with
| [] => ([], width)
| c :: chunk =>
  let '(text, width) := put wrap_width width c in
  let '(more, width) := put_chars wrap_width width chunk in
  (text ++ more, width)
end.

Definition put_slice (wrap_width width : Z) (chunk : bytes) : bytes * Z :=
if (wrap_width =? 0) || (width + zlen chunk <? wrap_width) then (chunk, width + zlen chunk)
else put_chars wrap_width width chunk.

(** The leading zero bytes. *)
Fixpoint put_zeros (wrap_width width : Z) (src : bytes) : bytes * Z * bytes :=
match src with
| b :: rest =>
  if b =? 0 then
    let '(text, width) := put wrap_width width 49 in
    let '(more, width, rest) := put_zeros wrap_width width rest in
    (text ++ more, width, rest)
  else ([], width, src)
| [] => ([], width, [])
end.

(** The words of [b58_buffer], all zero. *)
Definition b58_buffer (size numerator denominator : Z) : list Z :=
let size := u64 (u64 (size * numerator) + denominator - 1) / denominator in
replicate (Z.to_nat (u64 (u64 (u64 (size + 6) / 7 * 8) * 8 + 7) / 8)) 0.

Definition b58_modulo : Z := 0x1A636A90B07A00.

(** The loop that both directions have: the carry goes through the words from the
    last one on, [step] gives the new word and the carry; [ptr] is the index of
    the word after the next one. *)
Fixpoint carry_up (step : Z -> Z -> Z * Z) (ptr : nat) (area : list Z) (high carry : Z) : option (list Z * Z) :=
match ptr with
| O => None
| S ptr =>
  x ← zget area (Z.of_nat ptr);
  let '(x, carry) := step x carry in
  area ← zset area (Z.of_nat ptr) x;
  if negb (carry =? 0) || (high <? Z.of_nat ptr) then carry_up step ptr area high carry
  else Some (area, Z.of_nat ptr)
end.

Definition encode_step (x carry : Z) : Z * Z :=
let carry := u64 (carry + u64 (Z.shiftl x 8)) in
(carry mod b58_modulo, carry / b58_modulo).

Fixpoint encode_bytes (src : bytes) (area : list Z) (high : Z) : option (list Z * Z) :=
match src with
| [] => Some (area, high)
| b :: src => '(area, high) ← carry_up encode_step (length area) area high b; encode_bytes src area high
end.

(** The characters of a word, from the last one on ([b58_8to11]). *)
Fixpoint b58_chars (n : nat) (v : Z) (tail : bytes) : option bytes :=
match n with
| O => Some tail
| S n => c ← zget b58_alphabet (v mod 58); b58_chars n (v / 58) (c :: tail)
end.

(** They replace the words in the same memory: the nine characters of a word must
    not reach the words that are still to be read. *)
Fixpoint encode_words (words : list Z) (written porous : Z) : option bytes :=
match words with
| [] => Some []
| chunk :: words =>
  if 8 * (porous + 1) <=? written + 9 then None
  else
    chars ← b58_chars 9 chunk [];
    more ← encode_words words (written + 9) (porous + 1);
    Some (chars ++ more)
end.

Fixpoint skip_leading (c : Z) (text : bytes) : bytes :=
match text with
| x :: rest => if x =? c then skip_leading c rest else text
| [] => []
end.

Definition b58_encode (buf : list Z) (src : bytes) : option bytes :=
'(area, high) ← encode_bytes src buf (zlen buf);
text ← encode_words (drop (Z.to_nat high) area) 0 high;
Some (skip_leading 49 text).

Definition to_base58_length (wrap_width : Z) (source : bytes) : Z :=
wrapped_length (u64 (u64 (zlen source * 11) + 7) / 8) wrap_width.

Definition to_base58_write_bytes (wrap_width : Z) (source : bytes) (dest_size : Z) : option (exn + bytes) :=
if dest_size <? to_base58_length wrap_width source then Some (inl length_error)
else
  let '(zeros, width, src) := put_zeros wrap_width 0 source in
  chunk ← b58_encode (b58_buffer (zlen src) 11 8) src;
  fill dest_size (zeros ++ (put_slice wrap_width width chunk).1) 0.

(** The stream; [width] is an [unsigned]. *)
Definition out_put (wrap_width width c : Z) : bytes * Z :=
if negb (wrap_width =? 0) then
  let width := u32 (width + 1) in
  if wrap_width <=? width then ([c; 10], 0) else ([c], width)
else ([c], width).

Fixpoint out_zeros (wrap_width width : Z) (src : bytes) : bytes * Z * bytes :=
match src with
| b :: rest =>
  if b =? 0 then
    let '(text, width) := out_put wrap_width width 49 in
    let '(more, width, rest) := out_zeros wrap_width width rest in
    (text ++ more, width, rest)
  else ([], width, src)
| [] => ([], width, [])
end.

Fixpoint out_chars (wrap_width width : Z) (chunk : bytes) : bytes :=
match chunk with
| [] => []
| c :: chunk => let '(text, width) := out_put wrap_width width c in text ++ out_chars wrap_width width chunk
end.

Definition to_base58_output (wrap_width : Z) (source : bytes) : option bytes :=
match source with
| [] => Some []
| _ =>
  let '(zeros, width, src) := out_zeros wrap_width 0 source in
  chunk ← b58_encode (b58_buffer (zlen src) 11 8) src;
  Some (zeros ++ if (wrap_width =? 0) || (u64 (width + zlen chunk) <? wrap_width) then chunk else out_chars wrap_width width chunk)
end.

Definition decode_step (x carry : Z) : Z * Z :=
let carry := u64 (carry + u64 (x * 58)) in
(Z.land carry (Z.shiftr UINT64_MAX 8), Z.shiftr carry 56).

Fixpoint decode_chars (ignore_spaces : bool) (src : bytes) (area : list Z) (high : Z) : option (exn + list Z * Z) :=
match src with
| [] => Some (inr (area, high))
| s :: src =>
  let c := b58_code s in
  if 0 <=? c then '(area, high) ← carry_up decode_step (length area) area high c; decode_chars ignore_spaces src area high
  else if negb ignore_spaces || negb (isspace s) then Some (inl domain_error)
  else decode_chars ignore_spaces src area high
end.

(** The seven bytes of a word. *)
Definition word_bytes (chunk : Z) : bytes :=
[u8 (Z.shiftr chunk 48); u8 (Z.shiftr chunk 40); u8 (Z.shiftr chunk 32); u8 (Z.shiftr chunk 24);
 u8 (Z.shiftr chunk 16); u8 (Z.shiftr chunk 8); u8 chunk].

Definition b58_decode (buf : list Z) (src : bytes) (ignore_spaces : bool) : option (exn + bytes) :=
r ← decode_chars ignore_spaces src buf (zlen buf);
match r with
| inl e => Some (inl e)
| inr (area, high) => Some (inr (skip_leading 0 (drop (Z.to_nat high) area ≫= word_bytes)))
end.

(** The leading ones, with the rest of the source. *)
Fixpoint take_ones (ignore_spaces : bool) (src : bytes) : exn * Z + bytes * bytes :=
match src with
| s :: rest =>
  if s <=? 49 then
    if s =? 49 then
      match take_ones ignore_spaces rest with
      | inl (e, stored) => inl (e, 1 + stored)
      | inr (zeros, rest) => inr (0 :: zeros, rest)
      end
    else if negb ignore_spaces || negb (isspace s) then inl (domain_error, 0)
    else take_ones ignore_spaces rest
  else inr ([], src)
| [] => inr ([], [])
end.

Definition from_base58_length (source : bytes) : Z := zlen source.

Definition from_base58_write_bytes (ignore_spaces : bool) (source : bytes) (dest_size : Z) : option (exn + bytes) :=
if dest_size <? from_base58_length source then Some (inl length_error)
else
  match take_ones ignore_spaces source with
  | inl (e, stored) => throw dest_size e stored
  | inr (zeros, rest) =>
    r ← b58_decode (b58_buffer (zlen rest) 47 64) rest ignore_spaces;
    match (r : exn + bytes) with
    | inl e => throw dest_size e (zlen zeros)
    | inr text => fill dest_size (zeros ++ text) 0
    end
  end.

Fixpoint from_base58_is_erroneous (ignore_spaces : bool) (source : bytes) : bool :=
match source with
| [] => false
| s :: rest => if (b58_code s <? 0) && negb (ignore_spaces && isspace s) then true else from_base58_is_erroneous ignore_spaces rest
end.

Definition to_base58 (wrap_width : Z) : transcoder :=
mk_transcoder (to_base58_length wrap_width) (to_base58_write_bytes wrap_width) (fun _ => false).
Definition from_base58 (ignore_spaces : bool) : transcoder :=
mk_transcoder from_base58_length (from_base58_write_bytes ignore_spaces) (from_base58_is_erroneous ignore_spaces).

(** ** Printable texts *)

(** The table of [slice::is_printable]: the length of a sequence in the upper
    half, a flag for the range of its second byte in the lower one. *)
Definition LS : Z := 4.
Definition P_ : Z := Z.shiftl 1 LS.
Definition X_ : Z := Z.shiftl 1 (LS - 1).
Definition N_ : Z := 0.
Definition second_range_mask : Z := 7.
Definition C2 : Z := Z.shiftl 2 LS.
Definition E0 : Z := Z.lor (Z.shiftl 3 LS) 1.
Definition E1 : Z := Z.shiftl 3 LS.
Definition ED : Z := Z.lor (Z.shiftl 3 LS) 2.
Definition EE : Z := Z.shiftl 3 LS.
Definition F0 : Z := Z.lor (Z.shiftl 4 LS) 3.
Definition F1 : Z := Z.shiftl 4 LS.
Definition F4 : Z := Z.lor (Z.shiftl 4 LS) 4.

Definition range_from : list Z := [0x80; 0xA0; 0x80; 0x90; 0x80].
Definition range_to : list Z := [0xBF; 0xBF; 0x9F; 0xBF; 0x8F].

Definition printable_map : list Z :=
[N_; N_; N_; N_; N_; N_; N_; N_; N_; N_; N_; N_; N_; N_; N_; N_;
 N_; N_; N_; N_; N_; N_; N_; N_; N_; N_; N_; N_; N_; N_; N_; N_;
 P_; P_; P_; P_; P_; P_; P_; P_; P_; P_; P_; P_; P_; P_; P_; P_;
 P_; P_; P_; P_; P_; P_; P_; P_; P_; P_; P_; P_; P_; P_; P_; P_;
 P_; P_; P_; P_; P_; P_; P_; P_; P_; P_; P_; P_; P_; P_; P_; P_;
 P_; P_; P_; P_; P_; P_; P_; P_; P_; P_; P_; P_; P_; P_; P_; P_;
 P_; P_; P_; P_; P_; P_; P_; P_; P_; P_; P_; P_; P_; P_; P_; P_;
 P_; P_; P_; P_; P_; P_; P_; P_; P_; P_; P_; P_; P_; P_; P_; N_;
 N_; N_; X_; X_; X_; X_; X_; X_; X_; X_; X_; X_; X_; N_; X_; N_;
 N_; X_; X_; X_; X_; X_; X_; X_; X_; X_; X_; X_; X_; N_; X_; X_;
 X_; X_; X_; X_; X_; X_; X_; X_; X_; X_; X_; X_; X_; X_; X_; X_;
 X_; X_; X_; X_; X_; X_; X_; X_; X_; X_; X_; X_; X_; X_; X_; X_;
 X_; X_; C2; C2; C2; C2; C2; C2; C2; C2; C2; C2; C2; C2; C2; C2;
 C2; C2; C2; C2; C2; C2; C2; C2; C2; C2; C2; C2; C2; C2; C2; C2;
 E0; E1; E1; E1; E1; E1; E1; E1; E1; E1; E1; E1; E1; ED; EE; EE;
 F0; F1; F1; F1; F4; X_; X_; X_; X_; X_; X_; X_; X_; X_; X_; X_].

Fixpoint printable_bytes (src : bytes) : option bool :=
match src with
| [] => Some true
| b :: src => x ← zget printable_map b; if Z.land (Z.lor P_ X_) x =? 0 then Some false else printable_bytes src
end.

Fixpoint printable_utf8 (src : bytes) : option bool :=
match src with
| [] => Some true
| s0 :: rest =>
  bits ← zget printable_map s0;
  second_from ← zget range_from (Z.land bits second_range_mask);
  second_to ← zget range_to (Z.land bits second_range_mask);
  match Z.shiftr bits LS, rest with
  | 1, rest => printable_utf8 rest
  | 2, s1 :: rest => if (s1 <? second_from) || (second_to <? s1) then Some false else printable_utf8 rest
  | 3, s1 :: s2 :: rest =>
    if (s1 <? second_from) || (second_to <? s1) then Some false
    else if (s2 <? 0x80) || (0xBF <? s2) then Some false
    else printable_utf8 rest
  | 4, s1 :: s2 :: s3 :: rest =>
    if (s1 <? second_from) || (second_to <? s1) then Some false
    else if (s2 <? 0x80) || (0xBF <? s2) then Some false
    else if (s3 <? 0x80) || (0xBF <? s3) then Some false
    else printable_utf8 rest
  | _, _ => Some false
  end
end.

Definition is_printable (disable_utf8 : bool) (source : bytes) : option bool :=
if zlen source <? 1 then Some false
else if disable_utf8 then printable_bytes source
else printable_utf8 source.
