(* ===== verification/TranscodeProofs.v ===== *)
(** * Texts made from bytes: the round trips

    What the encoders and decoders of [Transcode] promise, as classes with one
    instance for each format ([Base58] has that of Base58): a decoder gives back
    what the encoder was given, for every width of the lines, within the announced
    lengths ([Decodes]); a decoder never writes behind its destination, not even
    before it throws, and fails exactly on the texts that are erroneous and for
    destinations that are too small ([DecoderSafe]). *)

From stdpp Require Import base numbers option list.
From Stdlib Require Import ZArith Lia.
From S2P Require Import Prelude Bytes Transcode.

(** The encoder fits its announced length and refuses smaller destinations; the decoder inverts it. *)
Class Decodes (enc dec : transcoder) : Prop := {
  decodes src n : Forall is_byte src -> zlen src < 2 ^ 56 -> envisage_result_length enc src <= n ->
    exists text, write_bytes enc src n = Some (inr text) /\ zlen text <= envisage_result_length enc src /\ Forall is_byte text /\
      (src <> [] -> is_erroneous dec text = false) /\
      forall m, envisage_result_length dec text <= m -> write_bytes dec text m = Some (inr src);
  refuses src n : n < envisage_result_length enc src -> write_bytes enc src n = Some (inl length_error);
}.

(** [blank] are the texts without anything to decode. *)
Class DecoderSafe (dec : transcoder) (blank : bytes -> bool) : Prop :=
  decoder_safe text m : Forall is_byte text -> zlen text < 2 ^ 56 ->
    exists r, write_bytes dec text m = Some r /\
      match r with
      | inr out => envisage_result_length dec text <= m /\ Forall is_byte out /\ zlen out <= envisage_result_length dec text /\
          (is_erroneous dec text = false \/ blank text = true)
      | inl domain_error => is_erroneous dec text = true /\ blank text = false
      | inl length_error => m < envisage_result_length dec text
      end.

(** ** Bytes *)

Lemma byte_cases (P : Z -> bool) k : forallb P (seqZ 0 k) = true -> forall b, 0 <= b < k -> P b = true.
Proof. intros H b Hb. rewrite forallb_forall in H. apply H, list_elem_of_In, elem_of_seqZ. lia. Qed.

Lemma isspace_low c : isspace c = true -> c <=? 32 = true.
Proof. unfold isspace. rewrite orb_true_iff, andb_true_iff, !Z.leb_le, Z.eqb_eq. lia. Qed.

Lemma newline_skipped ignore_spaces : (10 <=? 32) && (ignore_spaces && isspace 10) = ignore_spaces.
Proof. by destruct ignore_spaces. Qed.

Lemma wrapped_length_ge size wrap_width : 0 <= size < 2 ^ 62 -> 0 <= wrap_width ->
  wrapped_length size wrap_width = size + (if wrap_width =? 0 then 0 else size / wrap_width).
Proof.
  intros Hs Hw. unfold wrapped_length. destruct (Z.eqb_spec wrap_width 0); cbn [negb]; [lia|]. apply u64_small.
  assert (0 <= size / wrap_width <= size) by (split; [apply Z.div_pos; lia|apply Z.div_le_upper_bound; nia]). unfold UINT64_MAX. lia.
Qed.

Lemma fill_ok dest_size text scratch : zlen text + scratch <= dest_size -> fill dest_size text scratch = Some (inr text).
Proof. intros H. unfold fill. by rewrite (proj2 (Z.leb_le _ _) H). Qed.

Lemma throw_ok dest_size e stored : stored <= dest_size -> throw dest_size e stored = Some (inl e).
Proof. intros H. unfold throw. by rewrite (proj2 (Z.leb_le _ _) H). Qed.

(** ** Hexadecimal *)

Definition hex_ok (uppercase : bool) (b : Z) : bool :=
match hex_byte uppercase b with
| [c; d] => isxdigit c && isxdigit d && (u8 (Z.lor (Z.shiftl (hex_value c) 4) (hex_value d)) =? b) && (33 <=? c) && (c <? 256) && (33 <=? d) && (d <? 256)
| _ => false
end.

Lemma hex_byte_ok uppercase b : is_byte b -> exists c d, hex_byte uppercase b = [c; d] /\ isxdigit c = true /\ isxdigit d = true /\
  u8 (Z.lor (Z.shiftl (hex_value c) 4) (hex_value d)) = b /\ 33 <= c < 256 /\ 33 <= d < 256.
Proof.
  intros Hb. assert (hex_ok uppercase b = true) as H by (apply (byte_cases _ 256); [by destruct uppercase; vm_compute|exact Hb]).
  unfold hex_ok in H. destruct (hex_byte uppercase b) as [|c [|d [|? ?]]]; [done..| |done]. exists c, d.
  rewrite !andb_true_iff, !Z.leb_le, !Z.ltb_lt, Z.eqb_eq in H. destruct H as [[[[[[? ?] ?] ?] ?] ?] ?]. split_and!; done || lia.
Qed.

Lemma from_hex_pair ignore_spaces c d rest : isxdigit c = true -> isxdigit d = true -> 33 <= c ->
  from_hex_loop ignore_spaces (c :: d :: rest) =
  match from_hex_loop ignore_spaces rest with inl (e, stored) => inl (e, 1 + stored) | inr out => inr (u8 (Z.lor (Z.shiftl (hex_value c) 4) (hex_value d)) :: out) end.
Proof. intros H1 H2 Hc. cbn [from_hex_loop]. rewrite (proj2 (Z.leb_gt c 32)) by lia. cbn [andb]. by rewrite H1, H2. Qed.

Lemma from_hex_to_hex uppercase ignore_spaces wrap_width src : Forall is_byte src -> wrap_width = 0 \/ ignore_spaces = true ->
  forall width, from_hex_loop ignore_spaces (to_hex_loop uppercase wrap_width width src) = inr src.
Proof.
  intros Hs Hw. induction Hs as [|b src Hb _ IH]; intros width; [done|]. cbn [to_hex_loop].
  destruct (hex_byte_ok uppercase b Hb) as (c & d & -> & Hc & Hd & E & Hc' & Hd').
  destruct (negb _ && _) eqn:Enl.
  - destruct Hw as [->| ->]; [done|]. cbn [app]. change (10 :: c :: ?l) with (10 :: (c :: l)). cbn [from_hex_loop].
    rewrite newline_skipped. change (from_hex_loop true (c :: d :: to_hex_loop uppercase wrap_width 2 src) = inr (b :: src)).
    rewrite from_hex_pair by (done || lia). by rewrite IH, E.
  - cbn [app]. rewrite from_hex_pair by (done || lia). by rewrite IH, E.
Qed.

Lemma to_hex_loop_length uppercase wrap_width src : 0 <= wrap_width -> forall width, 0 <= width ->
  2 * zlen src <= zlen (to_hex_loop uppercase wrap_width width src) <=
    2 * zlen src + (if wrap_width =? 0 then 0 else (width + 2 * zlen src) / wrap_width) /\
  (wrap_width = 0 -> zlen (to_hex_loop uppercase wrap_width width src) = 2 * zlen src).
Proof.
  intros Hw. induction src as [|b src IH]; intros width Hwd; cbn [to_hex_loop].
  - rewrite !(@zlen_nil Z). destruct (Z.eqb_spec wrap_width 0); [lia|]. pose proof (Z.div_pos (width + 2 * 0) wrap_width). lia.
  - unfold hex_byte. rewrite !zlen_cons.
    destruct (Z.eqb_spec wrap_width 0) as [->|Hn]; cbn [negb andb].
    + rewrite zlen_app, !zlen_cons, zlen_nil. specialize (IH (width + 2) ltac:(lia)). cbn [Z.eqb] in IH. lia.
    + destruct (Z.leb_spec wrap_width width) as [Hle|Hgt].
      * rewrite zlen_cons, zlen_app, !zlen_cons, zlen_nil. specialize (IH 2 ltac:(lia)).
        assert ((2 + 2 * zlen src) / wrap_width + 1 <= (width + 2 * (zlen src + 1)) / wrap_width).
        { rewrite <- Z.div_add by lia. apply Z.div_le_mono; lia. } lia.
      * rewrite zlen_app, !zlen_cons, zlen_nil. specialize (IH (width + 2) ltac:(lia)).
        replace (width + 2 * (zlen src + 1)) with (width + 2 + 2 * zlen src) by lia. lia.
Qed.

(** Induction for the loops that take several bytes at once. *)
Lemma bytes_ind (P : bytes -> Prop) : (forall l, (forall l', zlen l' < zlen l -> P l') -> P l) -> forall l, P l.
Proof.
  intros H l. remember (length l) as n eqn:E. revert l E. induction (lt_wf n) as [n _ IH]. intros l ->. apply H.
  intros l' Hl. apply (IH (length l')); [unfold zlen in Hl; lia|done].
Qed.

Definition blank (ignore_spaces : bool) (text : bytes) : bool := forallb (fun c => ignore_spaces && isspace c) text.

Lemma blank_cons ignore_spaces c text :
  (c <=? 32) && (ignore_spaces && isspace c) = false -> blank ignore_spaces (c :: text) = false.
Proof.
  intros H. cbn [blank forallb]. destruct (ignore_spaces && isspace c) eqn:E; [|done].
  apply andb_true_iff in E as [_ E%isspace_low]. by rewrite E in H.
Qed.

Lemma blank_skip ignore_spaces c text :
  (c <=? 32) && (ignore_spaces && isspace c) = true -> blank ignore_spaces (c :: text) = blank ignore_spaces text.
Proof. intros [_ H]%andb_true_iff. cbn [blank forallb]. by rewrite H. Qed.

Lemma from_hex_loop_safe ignore_spaces text : forall got,
  match from_hex_loop ignore_spaces text with
  | inl (e, stored) => e = domain_error /\ 2 * stored <= zlen text /\
      from_hex_scan ignore_spaces got text = true /\ blank ignore_spaces text = false
  | inr out => Forall is_byte out /\ 2 * zlen out <= zlen text /\
      (from_hex_scan ignore_spaces got text = negb got /\ blank ignore_spaces text = true \/ from_hex_scan ignore_spaces got text = false)
  end.
Proof.
  induction text as [[|c text] IH] using bytes_ind; intros got; cbn [from_hex_loop from_hex_scan].
  { split; [constructor|]. split; [done|]. by left. }
  pose proof (zlen_nonneg text). destruct (_ && _) eqn:Esp.
  - specialize (IH text ltac:(rewrite zlen_cons; lia) got). rewrite (blank_skip _ _ _ Esp), zlen_cons.
    destruct (from_hex_loop ignore_spaces text) as [[e stored]|out].
    + destruct IH as (H1 & H2 & H3). split; [done|]. split; [lia|done].
    + destruct IH as (H1 & H2 & H3). split; [done|]. split; [lia|done].
  - rewrite (blank_cons _ _ _ Esp), zlen_cons. destruct text as [|d text]; [done|]. rewrite zlen_cons. pose proof (zlen_nonneg text).
    destruct (negb (isxdigit c) || negb (isxdigit d)); [split_and!; done || lia|].
    specialize (IH text ltac:(rewrite !zlen_cons; lia) true). destruct (from_hex_loop ignore_spaces text) as [[e stored]|out].
    + destruct IH as (H1 & H2 & H3 & _). split; [done|]. split; [lia|done].
    + destruct IH as (H1 & H2 & H3). rewrite zlen_cons. split; [constructor; [|done]; apply wrap_range; lia|]. split; [lia|].
      right. by destruct H3 as [[-> _]|H3].
Qed.

#[export] Instance from_hex_safe ignore_spaces : DecoderSafe (from_hex ignore_spaces) (blank ignore_spaces).
Proof.
  intros text m Hb Hl. cbn [write_bytes envisage_result_length is_erroneous from_hex] in *.
  unfold from_hex_write_bytes, from_hex_is_erroneous. destruct (negb _ && _) eqn:Eodd.
  { eexists. split; [done|]. split; [done|]. apply andb_true_iff in Eodd as [Ho Hi]. destruct ignore_spaces, text; done. }
  destruct (Z.ltb_spec m (from_hex_length text)) as [Hm|Hm]; [by eexists|].
  assert (forall x, 2 * x <= zlen text -> x <= from_hex_length text) as Hx.
  { intros x Hx. unfold from_hex_length. rewrite Z.shiftr_div_pow2 by lia. apply Z.div_le_lower_bound; lia. }
  pose proof (from_hex_loop_safe ignore_spaces text false) as H.
  destruct (from_hex_loop ignore_spaces text) as [[e stored]|out].
  - destruct H as (-> & H1 & H2). apply Hx in H1. exists (inl domain_error). split; [apply throw_ok; lia|done].
  - destruct H as (H1 & H2 & H3). apply Hx in H2. exists (inr out). split; [apply fill_ok; lia|].
    split_and!; try done. destruct H3 as [[_ H3]|H3]; tauto.
Qed.

Lemma to_hex_loop_bytes uppercase wrap_width src : Forall is_byte src -> forall width, Forall is_byte (to_hex_loop uppercase wrap_width width src).
Proof.
  induction 1 as [|b src Hb _ IH]; intros width; cbn [to_hex_loop]; [constructor|].
  destruct (hex_byte_ok uppercase b Hb) as (c & d & -> & _ & _ & _ & Hc & Hd). unfold is_byte in *.
  destruct (negb _ && _); repeat (constructor; [lia|]); apply IH.
Qed.

Lemma from_hex_scan_to_hex uppercase ignore_spaces wrap_width src : Forall is_byte src -> wrap_width = 0 \/ ignore_spaces = true ->
  forall width got, (src <> [] \/ got = true) -> from_hex_scan ignore_spaces got (to_hex_loop uppercase wrap_width width src) = false.
Proof.
  intros Hs Hw. induction Hs as [|b src Hb _ IH]; intros width got Hg; [by destruct Hg as [?| ->]|]. cbn [to_hex_loop].
  destruct (hex_byte_ok uppercase b Hb) as (c & d & -> & Hc & Hd & _ & Hc' & Hd').
  assert (forall w, from_hex_scan ignore_spaces got ([c; d] ++ to_hex_loop uppercase wrap_width w src) = false) as Hpair.
  { intros w. cbn [app from_hex_scan]. rewrite (proj2 (Z.leb_gt c 32)) by lia. cbn [andb]. rewrite Hc, Hd. cbn [negb orb]. apply IH. by right. }
  destruct (negb _ && _) eqn:Enl; [|apply Hpair]. destruct Hw as [->| ->]; [done|].
  change (from_hex_scan true got (10 :: ([c; d] ++ to_hex_loop uppercase wrap_width 2 src)) = false). cbn [from_hex_scan]. apply Hpair.
Qed.

(** Wrapped lines are decoded when spaces are ignored. *)
Definition lines_ok (wrap_width : Z) (ignore_spaces : bool) : Prop := 0 <= wrap_width <= UINT32_MAX /\ (wrap_width = 0 \/ ignore_spaces = true).

Lemma hex_decodes uppercase wrap_width ignore_spaces : lines_ok wrap_width ignore_spaces -> Decodes (to_hex uppercase wrap_width) (from_hex ignore_spaces).
Proof.
  intros [Hw Hi]. split; cbn [write_bytes envisage_result_length is_erroneous from_hex to_hex]; unfold to_hex_write_bytes.
  - intros src n Hs Hl Hn. rewrite (proj2 (Z.ltb_ge _ _) Hn). pose proof (zlen_nonneg src) as H0.
    assert (u64 (Z.shiftl (zlen src) 1) = 2 * zlen src) as E by (rewrite Z.shiftl_mul_pow2, u64_small by (unfold UINT64_MAX; lia); lia).
    destruct (to_hex_loop_length uppercase wrap_width src ltac:(lia) 0 ltac:(lia)) as [Hlen Heven].
    unfold to_hex_length in *. rewrite E, wrapped_length_ge in * by lia. rewrite Z.add_0_l in Hlen.
    eexists. split; [apply fill_ok; lia|]. split; [lia|]. split; [by apply to_hex_loop_bytes|].
    assert (negb (zlen (to_hex_loop uppercase wrap_width 0 src) mod 2 =? 0) && negb ignore_spaces = false) as Eodd.
    { destruct Hi as [->| ->]; [|by rewrite andb_false_r]. rewrite Heven, Z.mul_comm, Z.mod_mul by lia. done. }
    split.
    + intros Hne. unfold from_hex_is_erroneous. rewrite Eodd. apply from_hex_scan_to_hex; [done|done|by left].
    + intros m Hm. unfold from_hex_write_bytes. rewrite Eodd, (proj2 (Z.ltb_ge _ _) Hm), from_hex_to_hex by done. apply fill_ok.
      unfold from_hex_length in Hm. rewrite Z.shiftr_div_pow2 in Hm by lia. apply Z.le_trans with (2 := Hm). apply Z.div_le_lower_bound; lia.
  - intros src n Hn. by rewrite (proj2 (Z.ltb_lt _ _) Hn).
Qed.

Lemma to_hex_stream_same uppercase wrap_width src : 0 <= wrap_width <= UINT32_MAX - 2 -> forall width, 0 <= width < wrap_width + 2 \/ wrap_width = 0 ->
  to_hex_stream uppercase wrap_width width src = to_hex_loop uppercase wrap_width width src.
Proof.
  intros Hw. induction src as [|b src IH]; intros width Hwd; [done|]. cbn [to_hex_stream to_hex_loop].
  destruct (Z.eqb_spec wrap_width 0) as [->|Hn]; cbn [negb andb].
  - cbn [app]. f_equal. f_equal. rewrite IH by (by right). clear. generalize (u32 (width + 2)). generalize (width + 2).
    induction src as [|b src IH]; intros; [done|]. cbn [to_hex_loop Z.eqb negb andb]. f_equal. apply IH.
  - destruct (Z.leb_spec wrap_width width) as [Hle|Hgt]; cbn [app].
    + rewrite u32_small by (unfold UINT32_MAX in *; lia). by rewrite IH by lia.
    + rewrite u32_small by (unfold UINT32_MAX in *; lia). by rewrite IH by lia.
Qed.

(** ** Base64 *)

Lemma b64_code_char i : 0 <= i < 64 -> b64_code (b64_char i) = i /\ 33 <= b64_char i < 256 /\ b64_char i <> 61.
Proof.
  intros Hi.
  assert ((b64_code (b64_char i) =? i) && (33 <=? b64_char i) && (b64_char i <? 256) && negb (b64_char i =? 61) = true) as H
    by (apply (byte_cases (fun i => (b64_code (b64_char i) =? i) && (33 <=? b64_char i) && (b64_char i <? 256) && negb (b64_char i =? 61)) 64); [by vm_compute|done]).
  rewrite !andb_true_iff, negb_true_iff, Z.leb_le, Z.ltb_lt, Z.eqb_eq, Z.eqb_neq in H. lia.
Qed.

Definition sextets_ok (b : Z) : bool :=
(Z.shiftr (Z.land b 0xfc) 2 =? b / 4) && (Z.shiftl (Z.land b 0x03) 4 =? b mod 4 * 16) && (Z.shiftr (Z.land b 0xf0) 4 =? b / 16) &&
(Z.shiftl (Z.land b 0x0f) 2 =? b mod 16 * 4) && (Z.shiftr (Z.land b 0xc0) 6 =? b / 64) && (Z.land b 0x3f =? b mod 64).

Lemma b64_3to4_codes x y z : is_byte x -> is_byte y -> is_byte z ->
  b64_3to4 x y z = b64_char <$> [x / 4; x mod 4 * 16 + y / 16; y mod 16 * 4 + z / 64; z mod 64].
Proof.
  intros Hx Hy Hz. assert (forall b, is_byte b -> sextets_ok b = true) as H by (intros b; apply (byte_cases _ 256); by vm_compute).
  pose proof (H x Hx) as H1. pose proof (H y Hy) as H2. pose proof (H z Hz) as H3. unfold sextets_ok in *. rewrite !andb_true_iff, !Z.eqb_eq in *.
  destruct H1 as [[[[[E1 E2] _] _] _] _], H2 as [[[[[_ _] E3] E4] _] _], H3 as [[[[[_ _] _] _] E5] E6].
  unfold b64_3to4. by rewrite E1, E2, E3, E4, E5, E6.
Qed.

Definition octets_ok (v : Z) : bool :=
(Z.shiftl v 2 =? v * 4) && (Z.shiftr (Z.land v 0x30) 4 =? v / 16) && (Z.shiftl (Z.land v 0xf) 4 =? v mod 16 * 16) &&
(Z.shiftr (Z.land v 0x3c) 2 =? v / 4) && (Z.shiftl (Z.land v 0x3) 6 =? v mod 4 * 64).

Lemma b64_4to3_bytes a b c d : 0 <= a < 64 -> 0 <= b < 64 -> 0 <= c < 64 -> 
  (b64_4to3 a b c d).1 = [u8 (a * 4 + b / 16); u8 (b mod 16 * 16 + c / 4); u8 (c mod 4 * 64 + d)].
Proof.
  intros Ha Hb Hc. assert (forall v, 0 <= v < 64 -> octets_ok v = true) as H by (intros v; apply (byte_cases _ 64); by vm_compute).
  pose proof (H a Ha) as H1. pose proof (H b Hb) as H2. pose proof (H c Hc) as H3. unfold octets_ok in *. rewrite !andb_true_iff, !Z.eqb_eq in *.
  destruct H1 as [[[[E1 _] _] _] _], H2 as [[[[_ E2] E3] _] _], H3 as [[[[_ _] _] E4] E5].
  unfold b64_4to3. cbn [fst]. by rewrite E1, E2, E3, E4, E5.
Qed.

Lemma u8_byte x b : x = b -> is_byte b -> u8 x = b.
Proof. intros -> Hb. apply wrap_small. exact Hb. Qed.

Lemma sextets x y z : is_byte x -> is_byte y -> is_byte z ->
  0 <= x / 4 < 64 /\ 0 <= x mod 4 * 16 + y / 16 < 64 /\ 0 <= y mod 16 * 4 + z / 64 < 64 /\ 0 <= z mod 64 < 64.
Proof. unfold is_byte. intros. Z.to_euclidean_division_equations. lia. Qed.

Lemma b64_round x y z : is_byte x -> is_byte y -> is_byte z ->
  (b64_4to3 (x / 4) (x mod 4 * 16 + y / 16) (y mod 16 * 4 + z / 64) (z mod 64)).1 = [x; y; z].
Proof.
  intros Hx Hy Hz. destruct (sextets x y z Hx Hy Hz) as (S1 & S2 & S3 & S4). rewrite b64_4to3_bytes by done.
  unfold is_byte in *. f_equal; [|f_equal; [|f_equal]]; apply u8_byte; try done; clear - Hx Hy Hz; Z.to_euclidean_division_equations; lia.
Qed.

Lemma lor4_nonneg a b c d : 0 <= a -> 0 <= b -> 0 <= c -> 0 <= d -> Z.lor (Z.lor (Z.lor a b) c) d <? 0 = false.
Proof. intros. apply Z.ltb_ge. rewrite !Z.lor_nonneg. done. Qed.

Lemma lor4_neg a b c : Z.lor (Z.lor (Z.lor a b) c) EQ <? 0 = true.
Proof. apply Z.ltb_lt. rewrite Z.lor_neg. by right. Qed.

(** A full group, in the decoder and in the check. *)
Lemma from_base64_group ignore_spaces x y z rest : is_byte x -> is_byte y -> is_byte z ->
  from_base64_loop ignore_spaces (b64_3to4 x y z ++ rest) =
    match from_base64_loop ignore_spaces rest with inl (e, stored) => inl (e, 3 + stored) | inr (text, scratch) => inr (x :: y :: z :: text, scratch) end /\
  forall got, from_base64_scan ignore_spaces got (b64_3to4 x y z ++ rest) = from_base64_scan ignore_spaces true rest.
Proof.
  intros Hx Hy Hz. rewrite b64_3to4_codes by done. destruct (sextets x y z Hx Hy Hz) as (S1 & S2 & S3 & S4).
  destruct (b64_code_char _ S1) as (C1 & L1 & _), (b64_code_char _ S2) as (C2 & _), (b64_code_char _ S3) as (C3 & _), (b64_code_char _ S4) as (C4 & _).
  cbn [fmap list_fmap app from_base64_loop from_base64_scan]. rewrite (proj2 (Z.leb_gt (b64_char (x / 4)) 32)) by lia. cbn [andb].
  rewrite C1, C2, C3, C4, lor4_nonneg by lia. split; [|done].
  pose proof (b64_round x y z Hx Hy Hz) as R. destruct (b64_4to3 _ _ _ _) as [out bits] eqn:E. cbn [fst] in R. subst out.
  replace bits with (Z.lor (Z.lor (Z.lor (x / 4) (x mod 4 * 16 + y / 16)) (y mod 16 * 4 + z / 64)) (z mod 64)) by (by injection E).
  by rewrite lor4_nonneg by lia.
Qed.

(** The last group, of two bytes and of one. *)
Lemma from_base64_two ignore_spaces x y : is_byte x -> is_byte y ->
  from_base64_loop ignore_spaces (take 3 (b64_3to4 x y 0) ++ [61]) = inr ([x; y], 1) /\
  forall got, from_base64_scan ignore_spaces got (take 3 (b64_3to4 x y 0) ++ [61]) = false.
Proof.
  intros Hx Hy. assert (is_byte 0) as H0 by done. rewrite b64_3to4_codes by done. destruct (sextets x y 0 Hx Hy H0) as (S1 & S2 & S3 & _).
  destruct (b64_code_char _ S1) as (C1 & L1 & _), (b64_code_char _ S2) as (C2 & _), (b64_code_char _ S3) as (C3 & _).
  cbn [fmap list_fmap take app from_base64_loop from_base64_scan]. rewrite (proj2 (Z.leb_gt (b64_char (x / 4)) 32)) by lia. cbn [andb].
  rewrite C1, C2, C3. change (b64_code 61) with EQ. rewrite lor4_neg. change (zlen [] =? 0) with true. cbn [andb].
  rewrite (proj2 (Z.leb_le 0 (Z.lor _ _))) by (rewrite Z.lor_nonneg; lia). cbn [andb Z.eqb]. rewrite (proj2 (Z.leb_le 0 (y mod 16 * 4 + 0 / 64))) by lia.
  split; [|done]. pose proof (b64_4to3_bytes (x / 4) (x mod 4 * 16 + y / 16) (y mod 16 * 4 + 0 / 64) EQ S1 S2 S3) as R.
  destruct (b64_4to3 _ _ _ _) as [out bits] eqn:E. cbn [fst] in R. subst out.
  replace bits with (Z.lor (Z.lor (Z.lor (x / 4) (x mod 4 * 16 + y / 16)) (y mod 16 * 4 + 0 / 64)) EQ) by (by injection E).
  rewrite lor4_neg. cbn [take]. unfold is_byte in *. do 2 f_equal. f_equal; [|f_equal]; apply u8_byte; try done; clear - Hx Hy; Z.to_euclidean_division_equations; lia.
Qed.

Lemma from_base64_one ignore_spaces x : is_byte x ->
  from_base64_loop ignore_spaces (take 2 (b64_3to4 x 0 0) ++ [61; 61]) = inr ([x], 2) /\
  forall got, from_base64_scan ignore_spaces got (take 2 (b64_3to4 x 0 0) ++ [61; 61]) = false.
Proof.
  intros Hx. assert (is_byte 0) as H0 by done. rewrite b64_3to4_codes by done. destruct (sextets x 0 0 Hx H0 H0) as (S1 & S2 & _).
  destruct (b64_code_char _ S1) as (C1 & L1 & _), (b64_code_char _ S2) as (C2 & _).
  cbn [fmap list_fmap take app from_base64_loop from_base64_scan]. rewrite (proj2 (Z.leb_gt (b64_char (x / 4)) 32)) by lia. cbn [andb].
  rewrite C1, C2. change (b64_code 61) with EQ. rewrite lor4_neg. change (zlen [] =? 0) with true. cbn [andb].
  rewrite (proj2 (Z.leb_le 0 (Z.lor _ _))) by (rewrite Z.lor_nonneg; lia). cbn [andb]. split; [|done].
  unfold b64_4to3. rewrite lor4_neg. change (0 <=? EQ) with false. change (EQ =? EQ) with true. cbn [take].
  assert (octets_ok (x / 4) = true) as O1 by (apply (byte_cases _ 64); [by vm_compute|done]).
  assert (octets_ok (x mod 4 * 16 + 0 / 16) = true) as O2 by (apply (byte_cases _ 64); [by vm_compute|done]).
  unfold octets_ok in *. rewrite !andb_true_iff, !Z.eqb_eq in *. destruct O1 as [[[[-> _] _] _] _], O2 as [[[[_ ->] _] _] _].
  do 2 f_equal. f_equal. apply u8_byte; [|done]. unfold is_byte in *. clear - Hx. Z.to_euclidean_division_equations. lia.
Qed.

Lemma from_base64_newline ignore_spaces got text : ignore_spaces = true ->
  from_base64_loop ignore_spaces (10 :: text) = from_base64_loop ignore_spaces text /\
  from_base64_scan ignore_spaces got (10 :: text) = from_base64_scan ignore_spaces got text.
Proof. by intros ->. Qed.

(** The number of groups. *)
Definition groups (src : bytes) : Z := (zlen src + 2) / 3.

Lemma groups_cons x y z src : groups (x :: y :: z :: src) = groups src + 1.
Proof. unfold groups. rewrite !zlen_cons. replace (zlen src + 1 + 1 + 1 + 2) with (zlen src + 2 + 1 * 3) by lia. by rewrite Z.div_add. Qed.

Lemma from_base64_to_base64 ignore_spaces wrap_width src : wrap_width = 0 \/ ignore_spaces = true -> Forall is_byte src -> forall width,
  from_base64_loop ignore_spaces (to_base64_loop wrap_width width src) = inr (src, 3 * groups src - zlen src) /\
  forall got, src <> [] \/ got = true -> from_base64_scan ignore_spaces got (to_base64_loop wrap_width width src) = false.
Proof.
  intros Hw. induction src as [src IH] using bytes_ind. intros Hs width. destruct src as [|x [|y [|z src]]].
  - split; [done|]. intros got [?| ->]; done.
  - apply Forall_cons in Hs as [Hx _]. destruct (from_base64_one ignore_spaces x Hx) as [E1 E2]. cbn [to_base64_loop]. by rewrite E1.
  - apply Forall_cons in Hs as [Hx Hs]. apply Forall_cons in Hs as [Hy _]. destruct (from_base64_two ignore_spaces x y Hx Hy) as [E1 E2].
    cbn [to_base64_loop]. by rewrite E1.
  - apply Forall_cons in Hs as [Hx Hs]. apply Forall_cons in Hs as [Hy Hs]. apply Forall_cons in Hs as [Hz Hs].
    specialize (IH src ltac:(rewrite !zlen_cons; lia) Hs).
    assert (forall nl w, nl = [] \/ (nl = [10] /\ ignore_spaces = true) ->
      from_base64_loop ignore_spaces (b64_3to4 x y z ++ nl ++ to_base64_loop wrap_width w src) =
        inr (x :: y :: z :: src, 3 * groups (x :: y :: z :: src) - zlen (x :: y :: z :: src)) /\
      forall got, from_base64_scan ignore_spaces got (b64_3to4 x y z ++ nl ++ to_base64_loop wrap_width w src) = false) as Hgroup.
    { intros nl w Hnl. destruct (IH w) as [E E2].
      destruct (from_base64_group ignore_spaces x y z (nl ++ to_base64_loop wrap_width w src) Hx Hy Hz) as [G1 G2].
      assert (from_base64_loop ignore_spaces (nl ++ to_base64_loop wrap_width w src) = inr (src, 3 * groups src - zlen src) /\
        from_base64_scan ignore_spaces true (nl ++ to_base64_loop wrap_width w src) = false) as [N1 N2].
      { destruct Hnl as [->|[-> Hi]]; [cbn [app]; split; [done|apply E2; by right]|].
        destruct (from_base64_newline ignore_spaces true (to_base64_loop wrap_width w src) Hi) as [F1 F2]. cbn [app]. rewrite F1, F2.
        split; [done|apply E2; by right]. }
      rewrite G1, N1, groups_cons, !zlen_cons. split; [do 2 f_equal; lia|]. intros got. by rewrite G2, N2. }
    cbn [to_base64_loop]. destruct (negb (wrap_width =? 0) && _ && _) eqn:Enl.
    + destruct Hw as [->|Hi]; [done|]. destruct (Hgroup [10] 0) as [A B]; [by right|]. cbn [app] in A, B. split; [exact A|]. intros got _. apply B.
    + destruct (Hgroup [] (width + 4)) as [A B]; [by left|]. split; [exact A|]. intros got _. apply B.
Qed.

Lemma b64_3to4_length x y z : zlen (b64_3to4 x y z) = 4.
Proof. done. Qed.

Lemma to_base64_loop_length wrap_width src : 0 <= wrap_width -> forall width, 0 <= width ->
  4 * groups src <= zlen (to_base64_loop wrap_width width src) <=
    4 * groups src + (if wrap_width =? 0 then 0 else (width + 4 * groups src) / wrap_width) /\
  (wrap_width = 0 -> zlen (to_base64_loop wrap_width width src) = 4 * groups src).
Proof.
  intros Hw. induction src as [src IH] using bytes_ind. intros width Hwd.
  assert (forall g, 0 <= g -> 0 <= if wrap_width =? 0 then 0 else (width + 4 * g) / wrap_width) as Hpos.
  { intros g Hg. destruct (Z.eqb_spec wrap_width 0); [lia|]. apply Z.div_pos; lia. }
  destruct src as [|x [|y [|z src]]].
  - specialize (Hpos 0). change (groups []) with 0. cbn [to_base64_loop]. rewrite (@zlen_nil Z). lia.
  - specialize (Hpos 1). change (groups [x]) with 1. change (zlen (to_base64_loop wrap_width width [x])) with 4. lia.
  - specialize (Hpos 1). change (groups [x; y]) with 1. change (zlen (to_base64_loop wrap_width width [x; y])) with 4. lia.
  - rewrite groups_cons. specialize (IH src ltac:(rewrite !zlen_cons; lia)). cbn [to_base64_loop].
    destruct (Z.eqb_spec wrap_width 0) as [->|Hn]; cbn [negb andb].
    + rewrite zlen_app, b64_3to4_length. specialize (IH (width + 4) ltac:(lia)). cbn [Z.eqb] in IH. lia.
    + destruct (Z.leb_spec wrap_width (width + 4)) as [Hle|Hgt]; cbn [andb]; [destruct (negb _)|].
      * rewrite zlen_app, zlen_cons, b64_3to4_length. specialize (IH 0 ltac:(lia)).
        assert ((0 + 4 * groups src) / wrap_width + 1 <= (width + 4 * (groups src + 1)) / wrap_width).
        { rewrite <- Z.div_add by lia. apply Z.div_le_mono; lia. } lia.
      * rewrite zlen_app, b64_3to4_length. specialize (IH (width + 4) ltac:(lia)).
        replace (width + 4 * (groups src + 1)) with (width + 4 + 4 * groups src) by lia. lia.
      * rewrite zlen_app, b64_3to4_length. specialize (IH (width + 4) ltac:(lia)).
        replace (width + 4 * (groups src + 1)) with (width + 4 + 4 * groups src) by lia. lia.
Qed.

Lemma b64_3to4_is_bytes x y z : is_byte x -> is_byte y -> is_byte z -> Forall is_byte (b64_3to4 x y z).
Proof.
  intros Hx Hy Hz. rewrite b64_3to4_codes by done. destruct (sextets x y z Hx Hy Hz) as (S1 & S2 & S3 & S4). cbn [fmap list_fmap]. unfold is_byte.
  repeat constructor; match goal with H : 0 <= ?i < 64 |- context [b64_char ?i] => destruct (b64_code_char i H) as (_ & ? & _) end; lia.
Qed.

Lemma to_base64_loop_bytes wrap_width src : Forall is_byte src -> forall width, Forall is_byte (to_base64_loop wrap_width width src).
Proof.
  induction src as [src IH] using bytes_ind. intros Hs width. assert (is_byte 0 /\ is_byte 61 /\ is_byte 10) as (B0 & B61 & B10) by (unfold is_byte; lia).
  destruct src as [|x [|y [|z src]]].
  - constructor.
  - apply Forall_cons in Hs as [Hx _]. cbn [to_base64_loop]. apply Forall_app. split; [by apply Forall_take, b64_3to4_is_bytes|by repeat constructor].
  - apply Forall_cons in Hs as [Hx Hs]. apply Forall_cons in Hs as [Hy _]. cbn [to_base64_loop]. apply Forall_app.
    split; [by apply Forall_take, b64_3to4_is_bytes|by repeat constructor].
  - apply Forall_cons in Hs as [Hx Hs]. apply Forall_cons in Hs as [Hy Hs]. apply Forall_cons in Hs as [Hz Hs].
    specialize (IH src ltac:(rewrite !zlen_cons; lia) Hs). cbn [to_base64_loop].
    destruct (_ && _ && _); apply Forall_app; (split; [by apply b64_3to4_is_bytes|]); [constructor; [done|]|]; apply IH.
Qed.

Lemma from_base64_length_eq text : zlen text < 2 ^ 60 -> from_base64_length text = (zlen text + 3) / 4 * 3.
Proof.
  intros Hl. pose proof (zlen_nonneg text). unfold from_base64_length. rewrite (u64_small (zlen text + 3)) by (unfold UINT64_MAX; lia).
  apply u64_small. unfold UINT64_MAX. Z.to_euclidean_division_equations. lia.
Qed.

Lemma base64_decodes wrap_width ignore_spaces : lines_ok wrap_width ignore_spaces -> Decodes (to_base64 wrap_width) (from_base64 ignore_spaces).
Proof.
  intros [Hw Hi]. split; cbn [write_bytes envisage_result_length is_erroneous from_base64 to_base64]; unfold to_base64_write_bytes.
  - intros src n Hs Hl Hn. rewrite (proj2 (Z.ltb_ge _ _) Hn). pose proof (zlen_nonneg src) as H0.
    assert (0 <= groups src /\ zlen src <= 3 * groups src <= zlen src + 2) as [Hg Hg'] by (unfold groups; Z.to_euclidean_division_equations; lia).
    assert (u64 (u64 (zlen src + 2) / 3 * 4) = 4 * groups src) as E.
    { rewrite (u64_small (zlen src + 2)) by (unfold UINT64_MAX; lia). fold (groups src). rewrite u64_small by (unfold UINT64_MAX; lia). lia. }
    destruct (to_base64_loop_length wrap_width src ltac:(lia) 0 ltac:(lia)) as [Hlen Heven].
    unfold to_base64_length in *. rewrite E, wrapped_length_ge in * by lia. rewrite Z.add_0_l in Hlen.
    assert (zlen (to_base64_loop wrap_width 0 src) < 2 ^ 60) as Hlt.
    { destruct (Z.eqb_spec wrap_width 0); [lia|]. assert (4 * groups src / wrap_width <= 4 * groups src) by (apply Z.div_le_upper_bound; nia). lia. }
    destruct (from_base64_to_base64 ignore_spaces wrap_width src Hi Hs 0) as [Hdec Hscan].
    eexists. split; [apply fill_ok; lia|]. split; [lia|]. split; [by apply to_base64_loop_bytes|].
    assert (negb (zlen (to_base64_loop wrap_width 0 src) mod 4 =? 0) && negb ignore_spaces = false) as Eodd.
    { destruct Hi as [->| ->]; [|by rewrite andb_false_r]. rewrite Heven, Z.mul_comm, Z.mod_mul by lia. done. }
    split.
    + intros Hne. unfold from_base64_is_erroneous. rewrite Eodd. apply Hscan. by left.
    + intros m Hm. unfold from_base64_write_bytes. rewrite Eodd, (proj2 (Z.ltb_ge _ _) Hm), Hdec. apply fill_ok.
      rewrite from_base64_length_eq in Hm by done. apply Z.le_trans with (2 := Hm).
      clear - Hlen Hg Hg'. Z.to_euclidean_division_equations. lia.
  - intros src n Hn. by rewrite (proj2 (Z.ltb_lt _ _) Hn).
Qed.

Lemma b64_4to3_is_bytes a b c d : Forall is_byte (b64_4to3 a b c d).1.
Proof. unfold b64_4to3. cbn [fst]. repeat constructor; apply wrap_range; lia. Qed.

Lemma from_base64_loop_safe ignore_spaces text : forall got,
  match from_base64_loop ignore_spaces text with
  | inl (e, stored) => e = domain_error /\ 4 * stored <= 3 * zlen text /\
      from_base64_scan ignore_spaces got text = true /\ blank ignore_spaces text = false
  | inr (out, scratch) => Forall is_byte out /\ 0 <= scratch /\ 4 * (zlen out + scratch) <= 3 * zlen text /\
      (from_base64_scan ignore_spaces got text = negb got /\ blank ignore_spaces text = true \/ from_base64_scan ignore_spaces got text = false)
  end.
Proof.
  induction text as [[|s0 text] IH] using bytes_ind; intros got; cbn [from_base64_loop from_base64_scan].
  { split; [constructor|]. split; [done|]. split; [done|]. by left. }
  destruct (_ && _) eqn:Esp.
  - specialize (IH text ltac:(rewrite zlen_cons; lia) got). rewrite (blank_skip _ _ _ Esp), zlen_cons.
    destruct (from_base64_loop ignore_spaces text) as [[e stored]|[out scratch]].
    + destruct IH as (H1 & H2 & H3). split; [done|]. split; [lia|done].
    + destruct IH as (H1 & H2 & H3 & H4). split; [done|]. split; [done|]. split; [lia|done].
  - rewrite (blank_cons _ _ _ Esp). destruct text as [|s1 [|s2 [|s3 text]]]; try done.
    pose proof (zlen_nonneg text). rewrite !zlen_cons.
    set (a := b64_code s0). set (b := b64_code s1). set (c := b64_code s2). set (d := b64_code s3).
    pose proof (b64_4to3_is_bytes a b c d) as Hb. assert (zlen (b64_4to3 a b c d).1 = 3) as Hz by done.
    assert ((b64_4to3 a b c d).2 = Z.lor (Z.lor (Z.lor a b) c) d) as Ebits by done. destruct (b64_4to3 a b c d) as [out bits]. cbn [fst snd] in *.
    rewrite <- Ebits. destruct (bits <? 0).
    + assert (domain_error = domain_error /\ 4 * 3 <= 3 * (zlen text + 1 + 1 + 1 + 1) /\ true = true /\ false = false) as Hbad by (split_and!; done || lia).
      destruct (Z.eqb_spec (zlen text) 0) as [Et|]; cbn [andb]; [|done]. destruct (0 <=? Z.lor a b); cbn [andb]; [|done].
      destruct (d =? EQ); cbn [andb]; [|done].
      destruct (0 <=? c); cbn [orb negb]; [|destruct (c =? d); [|done]].
      * split; [by apply Forall_take|]. split; [done|]. split; [|by right]. unfold zlen in *. rewrite length_take. lia.
      * split; [by apply Forall_take|]. split; [done|]. split; [|by right]. unfold zlen in *. rewrite length_take. lia.
    + specialize (IH text ltac:(rewrite !zlen_cons; lia) true). destruct (from_base64_loop ignore_spaces text) as [[e stored]|[more scratch]].
      * destruct IH as (H1 & H2 & H3 & _). split; [done|]. split; [lia|done].
      * destruct IH as (H1 & H2 & H3 & H4). rewrite zlen_app, Hz. split; [by apply Forall_app|]. split; [done|]. split; [lia|].
        right. by destruct H4 as [[-> _]|H4].
Qed.

#[export] Instance from_base64_safe ignore_spaces : DecoderSafe (from_base64 ignore_spaces) (blank ignore_spaces).
Proof.
  intros text m Hb Hl. cbn [write_bytes envisage_result_length is_erroneous from_base64] in *.
  unfold from_base64_write_bytes, from_base64_is_erroneous. destruct (negb _ && _) eqn:Eodd.
  { eexists. split; [done|]. split; [done|]. apply andb_true_iff in Eodd as [Ho Hi]. destruct ignore_spaces, text; done. }
  destruct (Z.ltb_spec m (from_base64_length text)) as [Hm|Hm]; [by eexists|].
  assert (forall x, 4 * x <= 3 * zlen text -> x <= from_base64_length text) as Hx.
  { intros x Hx. rewrite from_base64_length_eq by lia. Z.to_euclidean_division_equations. lia. }
  pose proof (from_base64_loop_safe ignore_spaces text false) as H.
  destruct (from_base64_loop ignore_spaces text) as [[e stored]|[out scratch]].
  - destruct H as (-> & H1 & H2). apply Hx in H1. exists (inl domain_error). split; [apply throw_ok; lia|done].
  - destruct H as (H1 & H2 & H3 & H4). apply Hx in H3. exists (inr out). split; [apply fill_ok; lia|].
    split; [done|]. split; [done|]. split; [lia|]. destruct H4 as [[_ H4]|H4]; tauto.
Qed.

Lemma to_base64_stream_same wrap_width src : 0 <= wrap_width <= UINT32_MAX - 4 -> forall width, 0 <= width < wrap_width \/ src = [] \/ wrap_width = 0 \/ width = 0 ->
  to_base64_stream wrap_width width src = to_base64_loop wrap_width width src.
Proof.
  intros Hw. induction src as [src IH] using bytes_ind. intros width Hwd. destruct src as [|x [|y [|z src]]]; [done..|].
  specialize (IH src ltac:(rewrite !zlen_cons; lia)). cbn [to_base64_stream to_base64_loop].
  destruct (Z.eqb_spec wrap_width 0) as [->|Hn]; cbn [negb andb].
  - f_equal. rewrite IH by tauto. clear. generalize (width + 4). revert width. induction src as [src IH] using bytes_ind. intros width w.
    destruct src as [|x [|y [|z src]]]; [done..|]. cbn [to_base64_loop Z.eqb negb andb]. f_equal. apply IH. rewrite !zlen_cons. lia.
  - assert (0 <= width < wrap_width \/ width = 0) as Hwd' by (destruct Hwd as [?|[?|[?|?]]]; [tauto|done|lia|tauto]).
    rewrite u32_small by (unfold UINT32_MAX in *; lia). destruct (Z.leb_spec wrap_width (width + 4)); cbn [andb].
    + destruct (Z.eqb_spec (zlen src) 0) as [E0|]; cbn [negb].
      * apply zlen_0_nil in E0 as ->. done.
      * by rewrite IH by tauto.
    + by rewrite IH by lia.
Qed.
