(* ===== verification/Base58.v ===== *)
(** * Base58: numbers in two bases

    The conversion of a string of bytes to Base58 and back ([b58_encode],
    [b58_decode] of [src/src/mdbx.c++]) is that of a number between the bases 256
    and 58, through words in base 58^9 or 2^56 that a carry goes through. A string
    of digits without a leading zero is determined by its value, so that the two
    directions invert each other. *)

From stdpp Require Import base numbers option list.
From Stdlib Require Import ZArith Lia.
From S2P Require Import Prelude Bytes Transcode TranscodeProofs.

(** ** Digits *)

Definition be_val (base : Z) (l : list Z) : Z := fold_left (fun acc d => acc * base + d) l 0.
Definition digits (base : Z) (l : list Z) : Prop := Forall (fun d => 0 <= d < base) l.

Lemma be_val_acc base l acc : fold_left (fun acc d => acc * base + d) l acc = acc * base ^ zlen l + be_val base l.
Proof.
  unfold be_val. revert acc. induction l as [|d l IH]; intros acc; cbn [fold_left].
  - rewrite (@zlen_nil Z). lia.
  - rewrite IH, (IH (0 * base + d)), zlen_cons, Z.pow_add_r by (pose proof (zlen_nonneg l); lia). lia.
Qed.

Lemma be_val_cons base d l : be_val base (d :: l) = d * base ^ zlen l + be_val base l.
Proof. unfold be_val at 1. cbn [fold_left]. rewrite be_val_acc. lia. Qed.

Lemma be_val_app base a b : be_val base (a ++ b) = be_val base a * base ^ zlen b + be_val base b.
Proof. unfold be_val at 1. rewrite fold_left_app. apply be_val_acc. Qed.

Lemma be_val_snoc base a d : be_val base (a ++ [d]) = be_val base a * base + d.
Proof. rewrite be_val_app. change (zlen [d]) with 1. change (be_val base [d]) with (0 * base + d). lia. Qed.

Lemma be_val_zeros base n l : be_val base (replicate n 0 ++ l) = be_val base l.
Proof. induction n as [|n IH]; [done|]. cbn [replicate app]. rewrite be_val_cons, IH. lia. Qed.

Lemma be_val_range base l : 0 < base -> digits base l -> 0 <= be_val base l < base ^ zlen l.
Proof.
  intros Hb. induction 1 as [|d l Hd _ IH]; [done|]. rewrite be_val_cons, zlen_cons, Z.pow_add_r by (pose proof (zlen_nonneg l); lia).
  pose proof (Z.pow_pos_nonneg base (zlen l) Hb (zlen_nonneg l)). nia.
Qed.

(** Without a leading zero the length is determined, and so are the digits. *)
Definition no_zero (l : list Z) : Prop := head l <> Some 0.

Lemma be_val_low base d l : 1 < base -> digits base (d :: l) -> d <> 0 -> base ^ zlen l <= be_val base (d :: l).
Proof.
  intros Hb [Hd Hl]%Forall_cons Hn. pose proof (be_val_range base l ltac:(lia) Hl). rewrite be_val_cons.
  pose proof (Z.pow_pos_nonneg base (zlen l) ltac:(lia) (zlen_nonneg l)). nia.
Qed.

Lemma be_val_length base a b : 1 < base -> digits base a -> digits base b -> no_zero a -> be_val base a = be_val base b -> zlen a <= zlen b.
Proof.
  intros Hb Ha Hb' Hn E. destruct a as [|d a]; [apply zlen_nonneg|]. rewrite zlen_cons.
  pose proof (be_val_low base d a Hb Ha ltac:(by intros ->)) as Hlow. pose proof (be_val_range base b ltac:(lia) Hb') as Hr.
  assert (zlen a < zlen b); [|lia]. apply (Z.pow_lt_mono_r_iff base); [lia|apply zlen_nonneg|lia].
Qed.

Lemma be_val_inj_len base a : 0 < base -> digits base a -> forall b, digits base b -> zlen a = zlen b -> be_val base a = be_val base b -> a = b.
Proof.
  intros Hb. induction 1 as [|d a Hd Ha IH]; intros b Hb' Hz E.
  { symmetry in Hz. by apply zlen_0_nil in Hz as ->. }
  destruct Hb' as [|e b He Hb']; [rewrite zlen_cons, (@zlen_nil Z) in Hz; pose proof (zlen_nonneg a); lia|].
  rewrite !zlen_cons in Hz. assert (zlen a = zlen b) as Hz' by lia. rewrite !be_val_cons, Hz' in E.
  pose proof (be_val_range base a ltac:(lia) Ha) as R1. pose proof (be_val_range base b ltac:(lia) Hb') as R2. rewrite Hz' in R1.
  assert (d = e) as -> by nia. f_equal. apply IH; [done|done|lia].
Qed.

Lemma be_val_inj base a b : 1 < base -> digits base a -> digits base b -> no_zero a -> no_zero b -> be_val base a = be_val base b -> a = b.
Proof.
  intros Hb Ha Hb' Na Nb E. apply (be_val_inj_len base); try done; [lia|].
  pose proof (be_val_length base a b Hb Ha Hb' Na E). pose proof (be_val_length base b a Hb Hb' Ha Nb (eq_sym E)). lia.
Qed.

(** A digit of a large base written in a smaller one. *)
Lemma be_val_words base n f ws : 0 < base -> 0 <= n ->
  Forall (fun w => zlen (f w) = n /\ be_val base (f w) = w) ws -> be_val base (ws ≫= f) = be_val (base ^ n) ws /\ zlen (ws ≫= f) = n * zlen ws.
Proof.
  intros Hb Hn. induction 1 as [|w ws [Hz Hv] _ [IH1 IH2]]; [split; [done|rewrite (@zlen_nil Z); cbn; rewrite (@zlen_nil Z); lia]|].
  cbn [mbind list_bind] in *. rewrite be_val_app, be_val_cons, zlen_app, zlen_cons, Hv, Hz, IH1, IH2, <- Z.pow_mul_r by (done || apply zlen_nonneg).
  split; [done|lia].
Qed.

Lemma skip_leading_spec c l : exists k, l = replicate k c ++ skip_leading c l /\ head (skip_leading c l) <> Some c.
Proof.
  induction l as [|x l (k & E & Hh)]; [by exists O|]. cbn [skip_leading]. destruct (Z.eqb_spec x c) as [->|Hn].
  - exists (S k). cbn [replicate app]. by rewrite <- E.
  - exists O. split; [done|]. cbn. congruence.
Qed.

(** ** The carry *)

Section Carry.
Context (base mult : Z) (step : Z -> Z -> Z * Z).
Hypothesis Hmult : 0 < mult <= base.
Hypothesis Hstep : forall x c, 0 <= x < base -> 0 <= c < mult -> step x c = ((c + x * mult) mod base, (c + x * mult) / base).

Definition zeros_to (high : Z) (l : list Z) : Prop := forall i, 0 <= i < high -> i < zlen l -> zget l i = Some 0.

Lemma zeros_val l : zeros_to (zlen l) l -> be_val base l = 0.
Proof using Type.
  induction l as [|d l IH]; intros H; [done|]. pose proof (zlen_nonneg l) as Hl. rewrite zlen_cons in H.
  assert (d = 0) as -> by (specialize (H 0 ltac:(lia) ltac:(rewrite zlen_cons; lia)); rewrite zget_cons_0 in H; congruence).
  rewrite be_val_cons, IH; [lia|]. intros i Hi Hi'. specialize (H (i + 1) ltac:(lia) ltac:(rewrite zlen_cons; lia)).
  rewrite zget_cons_pos in H by lia. by rewrite Z.add_simpl_r in H.
Qed.

Record carried (a a' : list Z) (high carry q : Z) : Prop := {
  ca_len : zlen a' = zlen a;
  ca_digits : digits base a';
  ca_val : be_val base a' = be_val base a * mult + carry;
  ca_high : 0 <= q < zlen a;
  ca_zeros : zeros_to q a';
  ca_top : zget a high <> Some 0 -> (carry <> 0 \/ high < zlen a) -> zget a' q <> Some 0;
}.

Lemma carry_up_spec a : digits base a -> forall b high carry, a <> [] -> 0 <= carry < mult -> 0 <= high -> zeros_to high a ->
  be_val base a * mult + carry < base ^ zlen a ->
  exists a' q, carry_up step (length a) (a ++ b) high carry = Some (a' ++ b, q) /\ carried a a' high carry q.
Proof using All.
  induction a as [|x a IH] using rev_ind; intros Ha b high carry Hne Hc Hh Hz Hr; [done|]. clear Hne.
  apply Forall_app in Ha as [Ha Hx]. apply Forall_cons in Hx as [Hx _]. rewrite length_app. cbn [length]. rewrite Nat.add_1_r. cbn [carry_up].
  rewrite <- app_assoc. cbn [app]. change (Z.of_nat (length a)) with (zlen a). rewrite zget_app_mid by done. cbn [mbind option_bind].
  rewrite (Hstep x carry Hx Hc). rewrite zset_app_mid by done. cbn [mbind option_bind].
  set (t := carry + x * mult). assert (0 <= t < base * mult) as Ht by (unfold t; nia).
  assert (0 <= t / base < mult) as Hc' by (split; [apply Z.div_pos; lia|apply Z.div_lt_upper_bound; lia]).
  assert (0 <= t mod base < base) as Hd by (apply Z.mod_pos_bound; lia). assert (t = base * (t / base) + t mod base) as Edm by (apply Z.div_mod; lia).
  assert (forall y, zlen (a ++ [y]) = zlen a + 1) as Ezl by (intros y; rewrite zlen_app; done). rewrite Ezl in *. pose proof (zlen_nonneg a) as Hl0.
  rewrite be_val_snoc, Z.pow_add_r, Z.pow_1_r in Hr by lia.
  assert (zeros_to high a) as Hza.
  { intros i Hi Hi'. rewrite <- (Hz i Hi) by (rewrite Ezl; lia). symmetry. by apply zget_app_l. }
  destruct ((negb (t / base =? 0)) || (high <? zlen a)) eqn:Ego.
  - (* the carry goes on *)
    assert (t / base <> 0 \/ high < zlen a) as Hgo by (rewrite orb_true_iff, negb_true_iff, Z.eqb_neq, Z.ltb_lt in Ego; done).
    assert (be_val base a * mult + t / base < base ^ zlen a) as Hr' by (unfold t in *; nia).
    assert (a <> []) as Hne.
    { intros ->. destruct Hgo as [Hgo|Hgo]; [|rewrite (@zlen_nil Z) in Hgo; lia]. change (be_val base []) with 0 in Hr'. rewrite (@zlen_nil Z) in Hr'. lia. }
    destruct (IH Ha (t mod base :: b) high (t / base) Hne Hc' Hh Hza Hr') as (a' & q & E & [C1 C2 C3 C4 C5 C6]). rewrite E.
    exists (a' ++ [t mod base]), q. split; [by rewrite <- app_assoc|]. split.
    + by rewrite !zlen_app, C1.
    + apply Forall_app. split; [done|by apply Forall_singleton].
    + rewrite !be_val_snoc, C3. unfold t in *. lia.
    + rewrite Ezl. lia.
    + intros i Hi _. rewrite zget_app_l by lia. apply C5; lia.
    + intros Htop _. rewrite zget_app_l by lia. apply C6; [|done]. intros Htop'. apply Htop. rewrite zget_app_l; [done|]. apply zget_range in Htop'. lia.
  - (* the last word *)
    rewrite orb_false_iff, negb_false_iff, Z.eqb_eq, Z.ltb_ge in Ego. destruct Ego as [E0 Hge].
    assert (be_val base a = 0) as Ev by (apply zeros_val; intros i Hi Hi'; apply Hza; lia).
    exists (a ++ [t mod base]), (zlen a). split; [by rewrite <- app_assoc|]. split.
    + by rewrite !Ezl.
    + apply Forall_app. split; [done|by apply Forall_singleton].
    + rewrite !be_val_snoc, Ev. unfold t in *. lia.
    + rewrite Ezl. lia.
    + intros i Hi _. rewrite zget_app_l by lia. apply Hza; lia.
    + rewrite (zget_app_mid a [] (t mod base)) by done. intros Htop Hcl [= E1]. rewrite Ezl in Hcl.
      assert (t = 0) by lia. assert (carry = 0 /\ x = 0) as [-> ->] by (unfold t in *; nia).
      destruct Hcl as [?|Hcl]; [done|]. assert (high = zlen a) as -> by lia. apply Htop. by apply zget_app_mid.
Qed.

(** All digits, one after the other. *)
Fixpoint feed (cs : list Z) (area : list Z) (high : Z) : option (list Z * Z) :=
match cs with
| [] => Some (area, high)
| c :: cs => '(area, high) ← carry_up step (length area) area high c; feed cs area high
end.

Record number (a : list Z) (high v : Z) : Prop := {
  nu_digits : digits base a;
  nu_high : 0 <= high <= zlen a;
  nu_zeros : zeros_to high a;
  nu_val : be_val base a = v;
}.

Lemma feed_spec cs : digits mult cs -> forall a high v, number a high v -> v * mult ^ zlen cs + be_val mult cs < base ^ zlen a -> (cs <> [] -> a <> []) ->
  exists a' q, feed cs a high = Some (a', q) /\ number a' q (v * mult ^ zlen cs + be_val mult cs) /\ zlen a' = zlen a /\
    ((high < zlen a -> zget a high <> Some 0) -> (high = zlen a -> head cs <> Some 0) -> q < zlen a -> zget a' q <> Some 0).
Proof using All.
  induction 1 as [|c cs Hc Hcs IH]; intros a high v [Nd Nh Nz Nv] Hb Hne.
  - exists a, high. rewrite (@zlen_nil Z). change (be_val mult []) with 0. split; [done|]. split; [split; try done; lia|]. split; [done|]. tauto.
  - cbn [feed]. rewrite be_val_cons, zlen_cons, Z.pow_add_r, Z.pow_1_r in * by (pose proof (zlen_nonneg cs); lia).
    pose proof (be_val_range mult cs ltac:(lia) Hcs) as Rc. pose proof (Z.pow_pos_nonneg mult (zlen cs) ltac:(lia) (zlen_nonneg cs)) as Rp.
    pose proof (be_val_range base a ltac:(lia) Nd) as Ra. rewrite Nv in Ra.
    destruct (carry_up_spec a Nd [] high c) as (a1 & q1 & E & [C1 C2 C3 C4 C5 C6]); [by apply Hne|done|lia|done|rewrite Nv; nia|].
    rewrite !app_nil_r in E. rewrite E. cbn [mbind option_bind].
    destruct (IH a1 q1 (v * mult + c)) as (a' & q & E2 & Hnum & Hz & Htop).
    + split; [done|lia|done|by rewrite C3, Nv].
    + rewrite C1. nia.
    + intros _ ->. specialize (Hne ltac:(done)). symmetry in C1. rewrite (@zlen_nil Z) in C1. by apply Hne, zlen_0_nil.
    + exists a', q. split; [done|]. split; [|split; [by rewrite Hz|]].
      * replace (v * (mult ^ zlen cs * mult) + (c * mult ^ zlen cs + be_val mult cs)) with ((v * mult + c) * mult ^ zlen cs + be_val mult cs) by lia. done.
      * intros T1 T2 Hq. rewrite C1 in Htop. apply Htop; [intros _|lia|done]. apply C6.
        -- destruct (decide (high < zlen a)) as [|Hge]; [by apply T1|]. intros Hg. apply zget_range in Hg. lia.
        -- destruct (decide (high < zlen a)) as [|Hge]; [by right|left]. intros ->. by apply T2; [lia|].
Qed.
End Carry.

Lemma zeros_number base n : 0 < base -> number base (replicate n 0) (Z.of_nat n) 0.
Proof.
  intros Hb. split.
  - apply Forall_replicate. lia.
  - unfold zlen. rewrite length_replicate. lia.
  - intros i Hi Hi'. unfold zget. destruct (Z.leb_spec 0 i); [|lia]. apply lookup_replicate_2. lia.
  - rewrite <- (app_nil_r (replicate n 0)). apply be_val_zeros.
Qed.

(** The words from [high] on carry the value. *)
Lemma number_words base a high v : number base a high v -> digits base (drop (Z.to_nat high) a) /\ be_val base (drop (Z.to_nat high) a) = v /\
  zlen (drop (Z.to_nat high) a) = zlen a - high.
Proof.
  intros [Nd Nh Nz Nv]. split; [by apply Forall_drop|]. split; [|unfold zlen in *; rewrite length_drop; lia].
  rewrite <- Nv. rewrite <- (take_drop (Z.to_nat high) a) at 2. rewrite be_val_app, (zeros_val base (take _ _)); [lia|].
  intros i Hi Hi'. assert (zlen (take (Z.to_nat high) a) = high) as Ez by (unfold zlen in *; rewrite length_take; lia). rewrite Ez in *.
  specialize (Nz i ltac:(lia) ltac:(lia)). rewrite <- (take_drop (Z.to_nat high) a), zget_app_l in Nz by lia. done.
Qed.

(** ** Digits of a word *)

Fixpoint digs (base : Z) (n : nat) (v : Z) : list Z :=
match n with
| O => []
| S n => digs base n (v / base) ++ [v mod base]
end.

Lemma digs_spec base n : 0 < base -> forall v, 0 <= v -> digits base (digs base n v) /\ zlen (digs base n v) = Z.of_nat n /\
  be_val base (digs base n v) = v mod base ^ Z.of_nat n.
Proof.
  intros Hb. induction n as [|n IH]; intros v Hv.
  - split; [constructor|]. split; [done|]. cbn. by rewrite Z.mod_1_r.
  - destruct (IH (v / base) ltac:(apply Z.div_pos; lia)) as (D & L & V). cbn [digs]. split; [|split].
    + apply Forall_app. split; [done|]. apply Forall_singleton, Z.mod_pos_bound. lia.
    + rewrite zlen_app, L. change (zlen [v mod base]) with 1. lia.
    + rewrite be_val_snoc, V, Nat2Z.inj_succ, Z.pow_succ_r by lia. pose proof (Z.pow_pos_nonneg base (Z.of_nat n) Hb ltac:(lia)).
      rewrite Z.rem_mul_r by lia. ring.
Qed.

Lemma words_digs base (n : nat) ws : 1 < base -> digits (base ^ Z.of_nat n) ws ->
  digits base (ws ≫= digs base n) /\ be_val base (ws ≫= digs base n) = be_val (base ^ Z.of_nat n) ws /\ zlen (ws ≫= digs base n) = Z.of_nat n * zlen ws.
Proof.
  intros Hb Hd. destruct (be_val_words base (Z.of_nat n) (digs base n) ws) as [E1 E2]; [lia|lia| |].
  - eapply Forall_impl; [exact Hd|]. intros w Hw. cbn beta in Hw. destruct (digs_spec base n ltac:(lia) w ltac:(lia)) as (_ & L & V). by rewrite V, Z.mod_small.
  - split; [|done]. clear - Hb Hd. induction Hd as [|w ws Hw _ IH]; [constructor|]. cbn beta in Hw. cbn [mbind list_bind]. apply Forall_app. split; [|exact IH].
    apply digs_spec; lia.
Qed.

Lemma skip_zeros base l : digits base l -> 0 < base -> digits base (skip_leading 0 l) /\ be_val base (skip_leading 0 l) = be_val base l /\ no_zero (skip_leading 0 l).
Proof.
  intros Hd Hb. destruct (skip_leading_spec 0 l) as (k & E & Hh). split; [|split; [|done]].
  - rewrite E in Hd. apply Forall_app in Hd. apply Hd.
  - rewrite E at 2. by rewrite be_val_zeros.
Qed.

(** ** To Base58 *)

Definition b58_char (i : Z) : Z := default 0 (zget b58_alphabet i).

Lemma b58_char_ok i : 0 <= i < 58 -> zget b58_alphabet i = Some (b58_char i) /\ b58_code (b58_char i) = i /\ 49 <= b58_char i < 256 /\ isspace (b58_char i) = false /\
  (b58_char i = 49 <-> i = 0).
Proof.
  intros Hi.
  assert ((b58_code (b58_char i) =? i) && (49 <=? b58_char i) && (b58_char i <? 256) && negb (isspace (b58_char i)) && Bool.eqb (b58_char i =? 49) (i =? 0) = true) as H.
  { apply (byte_cases (fun i => (b58_code (b58_char i) =? i) && (49 <=? b58_char i) && (b58_char i <? 256) && negb (isspace (b58_char i)) && Bool.eqb (b58_char i =? 49) (i =? 0)) 58);
      [by vm_compute|done]. }
  rewrite !andb_true_iff, negb_true_iff, Z.leb_le, Z.ltb_lt, Z.eqb_eq, eqb_true_iff in H. destruct H as [[[[H1 H2] H3] H4] H5].
  split; [|split; [done|split; [lia|split; [done|]]]].
  - unfold b58_char. destruct (zget_in b58_alphabet i) as [x ->]; [done|done].
  - destruct (Z.eqb_spec (b58_char i) 49), (Z.eqb_spec i 0); naive_solver.
Qed.

Lemma b58_chars_digs n : forall v tail, 0 <= v -> b58_chars n v tail = Some ((b58_char <$> digs 58 n v) ++ tail).
Proof.
  induction n as [|n IH]; intros v tail Hv; [done|]. cbn [b58_chars digs]. pose proof (Z.mod_pos_bound v 58 ltac:(lia)) as Hm.
  destruct (b58_char_ok _ Hm) as (-> & _). cbn [mbind option_bind]. rewrite IH by (apply Z.div_pos; lia). by rewrite fmap_app, <- app_assoc.
Qed.

Lemma encode_words_digs ws : Forall (fun w => 0 <= w) ws -> forall written porous, (0 < zlen ws -> written + 9 * zlen ws < 8 * (porous + zlen ws)) ->
  encode_words ws written porous = Some (b58_char <$> (ws ≫= digs 58 9)).
Proof.
  induction 1 as [|w ws Hw _ IH]; intros written porous Hg; [done|]. rewrite zlen_cons in Hg. pose proof (zlen_nonneg ws). specialize (Hg ltac:(lia)). cbn [encode_words].
  destruct (Z.leb_spec (8 * (porous + 1)) (written + 9)); [lia|]. rewrite b58_chars_digs by done. cbn [mbind option_bind].
  rewrite IH by lia. cbn [mbind option_bind list_bind]. by rewrite app_nil_r, fmap_app.
Qed.

Lemma skip_ones ds : digits 58 ds -> skip_leading 49 (b58_char <$> ds) = b58_char <$> skip_leading 0 ds.
Proof.
  induction 1 as [|d ds Hd _ IH]; [done|]. cbn [fmap list_fmap skip_leading]. destruct (b58_char_ok d Hd) as (_ & _ & _ & _ & H).
  destruct (Z.eqb_spec (b58_char d) 49), (Z.eqb_spec d 0); naive_solver.
Qed.

Lemma encode_step_ok x c : 0 <= x < b58_modulo -> 0 <= c < 256 -> encode_step x c = ((c + x * 256) mod b58_modulo, (c + x * 256) / b58_modulo).
Proof.
  unfold encode_step, b58_modulo. intros Hx Hc. rewrite Z.shiftl_mul_pow2 by lia. rewrite (u64_small (x * 2 ^ 8)) by (unfold UINT64_MAX; lia).
  rewrite u64_small by (unfold UINT64_MAX; lia). done.
Qed.

Lemma encode_bytes_feed src : forall area high, encode_bytes src area high = feed encode_step src area high.
Proof. induction src as [|b src IH]; intros area high; [done|]. cbn [encode_bytes feed]. destruct (carry_up _ _ _ _ _) as [[a q]|]; [apply IH|done]. Qed.

(** The sizes of the buffers. *)
Lemma b58_buffer_size size num den : 0 <= size < 2 ^ 58 -> 0 < num <= 47 -> num <= 2 * den <= 128 ->
  b58_buffer size num den = replicate (Z.to_nat (((size * num + den - 1) / den + 6) / 7 * 8)) 0.
Proof.
  intros Hs Hn Hd. unfold b58_buffer. f_equal. f_equal. assert (0 <= size * num < 2 ^ 64 - 128) as Hm by nia.
  rewrite (u64_small (size * num)) by (unfold UINT64_MAX; lia). rewrite (u64_small (size * num + den - 1)) by (unfold UINT64_MAX; lia).
  assert (0 <= (size * num + den - 1) / den < 2 ^ 60) as Hq by (split; [apply Z.div_pos; lia|apply Z.div_lt_upper_bound; nia]).
  set (k := (size * num + den - 1) / den) in *. clearbody k. rewrite (u64_small (k + 6)) by (unfold UINT64_MAX; lia).
  assert (0 <= (k + 6) / 7 < 192153584101141162) as Hk by (split; [apply Z.div_pos; lia|apply Z.div_lt_upper_bound; lia]).
  set (w := (k + 6) / 7) in *. clearbody w. rewrite (u64_small (w * 8)) by (unfold UINT64_MAX; lia).
  rewrite u64_small by (unfold UINT64_MAX; lia). Z.to_euclidean_division_equations. lia.
Qed.

(** Base58 digits of a string of bytes without leading zeros. *)
Lemma pow_fits m b n e : 1 < m -> 0 <= n -> m <= 2 ^ e -> 0 <= e -> e * n <= b -> m ^ n <= 2 ^ b.
Proof.
  intros Hm Hn He He0 Hb. apply Z.le_trans with ((2 ^ e) ^ n); [apply Z.pow_le_mono_l; lia|]. rewrite <- Z.pow_mul_r by lia. apply Z.pow_le_mono_r; lia.
Qed.

Lemma b58_encode_spec src : digits 256 src -> no_zero src -> zlen src < 2 ^ 56 ->
  exists ds, b58_encode (b58_buffer (zlen src) 11 8) src = Some (b58_char <$> ds) /\ digits 58 ds /\ no_zero ds /\ be_val 58 ds = be_val 256 src.
Proof.
  intros Hd Hn Hl. pose proof (zlen_nonneg src) as H0. rewrite b58_buffer_size by lia. set (W := ((zlen src * 11 + 8 - 1) / 8 + 6) / 7 * 8).
  assert (0 <= W /\ 11 * zlen src <= 7 * W /\ (0 < zlen src -> 8 <= W)) as (HW0 & HW & HW8) by (unfold W; Z.to_euclidean_division_equations; lia).
  assert (zlen (replicate (Z.to_nat W) 0) = W) as EW by (unfold zlen; rewrite length_replicate; lia).
  pose proof (be_val_range 256 src ltac:(lia) Hd) as Rv.
  assert (256 ^ zlen src <= b58_modulo ^ W) as Hfit.
  { apply Z.le_trans with ((2 ^ 52) ^ W); [rewrite <- Z.pow_mul_r by lia; apply (pow_fits 256 (52 * W) (zlen src) 8); lia|].
    apply Z.pow_le_mono_l. unfold b58_modulo. lia. }
  unfold b58_encode. rewrite encode_bytes_feed, EW.
  destruct (feed_spec b58_modulo 256 encode_step ltac:(unfold b58_modulo; lia) encode_step_ok src Hd (replicate (Z.to_nat W) 0) W 0) as (a & q & E & Hnum & Hz & Htop).
  { pose proof (zeros_number b58_modulo (Z.to_nat W) ltac:(unfold b58_modulo; lia)) as Hzn. by rewrite Z2Nat.id in Hzn. }
  { rewrite EW. lia. }
  { intros Hne Hr. assert (0 < zlen src) as Hp by (destruct src; [done|rewrite zlen_cons; pose proof (zlen_nonneg src); lia]).
    rewrite Hr, (@zlen_nil Z) in EW. specialize (HW8 Hp). lia. }
  rewrite E. cbn [mbind option_bind]. rewrite EW in Hz, Htop. rewrite Z.mul_0_l, Z.add_0_l in Hnum.
  destruct (number_words _ _ _ _ Hnum) as (Dw & Vw & Lw). pose proof (nu_high _ _ _ _ Hnum) as Hq. set (ws := drop (Z.to_nat q) a) in *.
  assert (0 < zlen ws -> 9 * zlen ws < 8 * (q + zlen ws)) as Hguard.
  { intros Hpos. destruct ws as [|w ws'] eqn:Ews; [rewrite (@zlen_nil Z) in Hpos; lia|].
    assert (w <> 0) as Hw.
    { intros ->. apply Htop; [lia|intros _; exact Hn|lia|]. unfold zget. destruct (Z.leb_spec 0 q); [|lia].
      rewrite <- (Nat.add_0_r (Z.to_nat q)), <- lookup_drop. fold ws. by rewrite Ews. }
    pose proof (be_val_low b58_modulo w ws' ltac:(unfold b58_modulo; lia) Dw Hw) as Hlow. rewrite Vw in Hlow. rewrite zlen_cons in *.
    assert (52 * zlen ws' < 8 * zlen src) as Hbits.
    { apply (Z.pow_lt_mono_r_iff 2); [lia|lia|]. rewrite !Z.pow_mul_r by (lia || apply zlen_nonneg).
      apply Z.le_lt_trans with (b58_modulo ^ zlen ws'); [apply Z.pow_le_mono_l; unfold b58_modulo; lia|]. change (2 ^ 8) with 256. lia. }
    lia. }
  rewrite encode_words_digs; [|eapply Forall_impl; [exact Dw|]; cbn; lia|by rewrite Z.add_0_l]. cbn [mbind option_bind].
  change b58_modulo with (58 ^ Z.of_nat 9) in Dw, Vw. destruct (words_digs 58 9 ws ltac:(lia) Dw) as (D58 & V58 & _). rewrite skip_ones by done.
  destruct (skip_zeros 58 _ D58 ltac:(lia)) as (S1 & S2 & S3). eexists. split; [done|]. split; [done|]. split; [done|]. by rewrite S2, V58, Vw.
Qed.

(** ** From Base58 *)

Lemma decode_step_ok x c : 0 <= x < 2 ^ 56 -> 0 <= c < 58 -> decode_step x c = ((c + x * 58) mod 2 ^ 56, (c + x * 58) / 2 ^ 56).
Proof.
  intros Hx Hc. unfold decode_step. rewrite (u64_small (x * 58)) by (unfold UINT64_MAX; lia). rewrite u64_small by (unfold UINT64_MAX; lia).
  change (Z.shiftr UINT64_MAX 8) with (Z.ones 56). rewrite Z.land_ones, Z.shiftr_div_pow2 by lia. done.
Qed.

(** The digits of a text. *)
Definition codes (text : bytes) : list Z := b58_code <$> filter (fun s => 0 <= b58_code s) text.

Lemma codes_app a b : codes (a ++ b) = codes a ++ codes b.
Proof. unfold codes. by rewrite filter_app, fmap_app. Qed.

Lemma codes_cons s text : codes (s :: text) = (if decide (0 <= b58_code s) then [b58_code s] else []) ++ codes text.
Proof. unfold codes. rewrite filter_cons. by destruct (decide _). Qed.

Lemma b58_code_range s : is_byte s -> b58_code s < 58 /\ (isspace s = true -> b58_code s < 0) /\ (s < 49 -> b58_code s < 0) /\ (s = 49 <-> b58_code s = 0).
Proof.
  intros Hs. assert ((b58_code s <? 58) && (negb (isspace s) || (b58_code s <? 0)) && ((49 <=? s) || (b58_code s <? 0)) && Bool.eqb (s =? 49) (b58_code s =? 0) = true) as H.
  { apply (byte_cases (fun s => (b58_code s <? 58) && (negb (isspace s) || (b58_code s <? 0)) && ((49 <=? s) || (b58_code s <? 0)) && Bool.eqb (s =? 49) (b58_code s =? 0)) 256);
      [by vm_compute|done]. }
  rewrite !andb_true_iff, !orb_true_iff, negb_true_iff, !Z.ltb_lt, Z.leb_le, eqb_true_iff in H. destruct H as [[[H1 H2] H3] H4].
  split; [done|]. split; [intros E; rewrite E in H2; naive_solver|]. split; [lia|]. destruct (Z.eqb_spec s 49), (Z.eqb_spec (b58_code s) 0); naive_solver.
Qed.

Lemma codes_digits text : Forall is_byte text -> digits 58 (codes text).
Proof.
  induction 1 as [|s text Hs _ IH]; [constructor|]. rewrite codes_cons. destruct (b58_code_range s Hs) as (Hr & _).
  apply Forall_app. split; [|exact IH]. destruct (decide _); [apply Forall_singleton; lia|constructor].
Qed.

Lemma codes_length text : zlen (codes text) <= zlen text.
Proof.
  induction text as [|s text IH]; [done|]. rewrite codes_cons, zlen_app, zlen_cons. destruct (decide _); [change (zlen [b58_code s]) with 1|change (zlen []) with 0]; lia.
Qed.

Lemma decode_chars_spec ignore_spaces text : Forall is_byte text -> forall a high v, number (2 ^ 56) a high v -> (v + 1) * 58 ^ zlen text <= (2 ^ 56) ^ zlen a ->
  (text <> [] -> a <> []) ->
  exists r, decode_chars ignore_spaces text a high = Some r /\
  match r with
  | inl e => e = domain_error /\ from_base58_is_erroneous ignore_spaces text = true
  | inr (a', q) => from_base58_is_erroneous ignore_spaces text = false /\ number (2 ^ 56) a' q (v * 58 ^ zlen (codes text) + be_val 58 (codes text))
  end.
Proof.
  induction 1 as [|s text Hs Ht IH]; intros a high v Hnum Hb Hne.
  - eexists. split; [done|]. split; [done|]. change (codes []) with (@nil Z). change (be_val 58 []) with 0. rewrite (@zlen_nil Z), Z.pow_0_r.
    by replace (v * 1 + 0) with v by lia.
  - cbn [decode_chars from_base58_is_erroneous]. destruct (b58_code_range s Hs) as (Hr & Hsp & _). pose proof (zlen_nonneg text) as Hl0.
    rewrite zlen_cons, Z.pow_add_r, Z.pow_1_r in Hb by lia. pose proof (Z.pow_pos_nonneg 58 (zlen text) ltac:(lia) Hl0) as Hp.
    pose proof (be_val_range (2 ^ 56) a ltac:(lia) (nu_digits _ _ _ _ Hnum)) as Ra. rewrite (nu_val _ _ _ _ Hnum) in Ra.
    destruct (Z.leb_spec 0 (b58_code s)) as [Hc|Hc].
    + destruct Hnum as [Nd Nh Nz Nv].
      destruct (carry_up_spec (2 ^ 56) 58 decode_step ltac:(lia) decode_step_ok a Nd [] high (b58_code s)) as (a1 & q1 & E & [C1 C2 C3 C4 C5 _]);
        [by apply Hne|lia|lia|done|rewrite Nv; nia|].
      rewrite !app_nil_r in E. rewrite E. cbn [mbind option_bind]. rewrite (proj2 (Z.ltb_ge _ _) Hc). cbn [andb].
      destruct (IH a1 q1 (v * 58 + b58_code s)) as (r & Er & Hres).
      { split; [done|lia|done|by rewrite C3, Nv]. } { rewrite C1. nia. } { intros _ ->. rewrite (@zlen_nil Z) in C1. lia. }
      exists r. split; [done|]. destruct r as [e|[a' q]]; [done|]. destruct Hres as [H1 H2]. split; [done|].
      rewrite codes_cons, decide_True by done. cbn [app]. rewrite be_val_cons, zlen_cons, Z.pow_add_r, Z.pow_1_r by (lia || apply zlen_nonneg).
      replace (v * (58 ^ zlen (codes text) * 58) + (b58_code s * 58 ^ zlen (codes text) + be_val 58 (codes text)))
        with ((v * 58 + b58_code s) * 58 ^ zlen (codes text) + be_val 58 (codes text)) by lia. done.
    + rewrite (proj2 (Z.ltb_lt _ _) Hc). cbn [andb]. destruct ignore_spaces, (isspace s) eqn:Es; cbn [negb orb andb]; [|by eexists..].
      destruct (IH a high v Hnum) as (r & Er & Hres); [nia|intros _; by apply Hne|]. exists r. split; [done|].
      rewrite codes_cons, decide_False by lia. done.
Qed.

Lemma word_bytes_digs w : 0 <= w < 2 ^ 56 -> word_bytes w = digs 256 7 w.
Proof.
  intros Hw. unfold word_bytes. cbn [digs app]. rewrite !Z.div_div by lia. unfold u8, wrap. rewrite !Z.shiftr_div_pow2 by lia. done.
Qed.

Lemma b58_decode_spec ignore_spaces text : Forall is_byte text -> zlen text < 2 ^ 58 ->
  exists r, b58_decode (b58_buffer (zlen text) 47 64) text ignore_spaces = Some r /\
  match r with
  | inl e => e = domain_error /\ from_base58_is_erroneous ignore_spaces text = true
  | inr out => from_base58_is_erroneous ignore_spaces text = false /\ digits 256 out /\ no_zero out /\ be_val 256 out = be_val 58 (codes text)
  end.
Proof.
  intros Ht Hl. pose proof (zlen_nonneg text) as H0. rewrite b58_buffer_size by lia. set (W := ((zlen text * 47 + 64 - 1) / 64 + 6) / 7 * 8).
  assert (0 <= W /\ 6 * zlen text <= 56 * W) as (HW0 & HW) by (unfold W; Z.to_euclidean_division_equations; lia).
  assert (zlen (replicate (Z.to_nat W) 0) = W) as EW by (unfold zlen; rewrite length_replicate; lia).
  assert (58 ^ zlen text <= (2 ^ 56) ^ W) as Hfit by (rewrite <- Z.pow_mul_r by lia; apply (pow_fits 58 (56 * W) (zlen text) 6); lia).
  unfold b58_decode. rewrite EW.
  destruct (decode_chars_spec ignore_spaces text Ht (replicate (Z.to_nat W) 0) W 0) as (r & E & Hr).
  { pose proof (zeros_number (2 ^ 56) (Z.to_nat W) ltac:(lia)) as Hzn. by rewrite Z2Nat.id in Hzn. }
  { rewrite EW. lia. }
  { intros Hne Hr. assert (0 < zlen text) as Hp by (destruct text; [done|rewrite zlen_cons; pose proof (zlen_nonneg text); lia]).
    rewrite Hr, (@zlen_nil Z) in EW. lia. }
  rewrite E. cbn [mbind option_bind]. destruct r as [e|[a q]]; [by eexists|]. destruct Hr as [He Hnum]. eexists. split; [done|]. split; [done|].
  rewrite Z.mul_0_l, Z.add_0_l in Hnum. destruct (number_words _ _ _ _ Hnum) as (Dw & Vw & _). set (ws := drop (Z.to_nat q) a) in *.
  assert ((ws ≫= word_bytes) = (ws ≫= digs 256 7)) as ->.
  { clear - Dw. induction Dw as [|w ws Hw _ IH]; [done|]. cbn [mbind list_bind] in *. by rewrite IH, word_bytes_digs. }
  change (2 ^ 56) with (256 ^ Z.of_nat 7) in Dw, Vw. destruct (words_digs 256 7 ws ltac:(lia) Dw) as (D & V & _).
  destruct (skip_zeros 256 _ D ltac:(lia)) as (S1 & S2 & S3). by rewrite S2, V, Vw.
Qed.

Lemma take_ones_spec ignore_spaces text : Forall is_byte text ->
  match take_ones ignore_spaces text with
  | inl (e, stored) => e = domain_error /\ stored <= zlen text /\ from_base58_is_erroneous ignore_spaces text = true
  | inr (zeros, rest) => exists k, zeros = replicate k 0 /\ codes text = replicate k 0 ++ codes rest /\ Forall is_byte rest /\ zlen zeros + zlen rest <= zlen text /\
      from_base58_is_erroneous ignore_spaces text = from_base58_is_erroneous ignore_spaces rest /\ (rest = [] \/ exists s r, rest = s :: r /\ 49 < s)
  end.
Proof.
  induction 1 as [|s text Hs Ht IH]; cbn [take_ones from_base58_is_erroneous].
  { exists O. split_and!; try done. by left. }
  destruct (b58_code_range s Hs) as (Hr & Hsp & Hlow & H49). destruct (Z.leb_spec s 49) as [Hle|Hgt].
  - destruct (Z.eqb_spec s 49) as [E49|Hne].
    + assert (b58_code s = 0) as Ec by tauto. rewrite Ec. cbn [Z.ltb Z.compare andb].
      rewrite ?zlen_cons.
      destruct (take_ones ignore_spaces text) as [[e stored]|[zeros rest]]; [destruct IH as (? & ? & ?); split_and!; done || lia|]. destruct IH as (k & -> & Ek & Hrest & Hlen & Her & Hh). exists (S k).
      split; [done|]. rewrite codes_cons, Ec, decide_True, Ek by done. split_and!; try done. rewrite zlen_cons. lia.
    + assert (b58_code s < 0) as Hneg by lia. rewrite (proj2 (Z.ltb_lt _ _) Hneg). cbn [andb].
      pose proof (zlen_nonneg text). rewrite zlen_cons.
      destruct ignore_spaces, (isspace s); cbn [negb orb andb]; try (split_and!; done || lia).
      destruct (take_ones true text) as [[e stored]|[zeros rest]]; [destruct IH as (? & ? & ?); split_and!; done || lia|]. destruct IH as (k & -> & Ek & Hrest & Hlen & Her & Hh). exists k.
      split; [done|]. rewrite codes_cons, decide_False, Ek by lia. split_and!; try done. lia.
  - exists O. split_and!; try done; [by constructor|]. right. eauto.
Qed.

(** The decoder as a whole. *)
Lemma from_base58_spec ignore_spaces text m : Forall is_byte text -> zlen text < 2 ^ 58 -> zlen text <= m ->
  exists r, from_base58_write_bytes ignore_spaces text m = Some r /\
  match r with
  | inl e => e = domain_error /\ from_base58_is_erroneous ignore_spaces text = true
  | inr out => from_base58_is_erroneous ignore_spaces text = false /\ zlen out <= zlen text /\ digits 256 out /\
      exists k bs cs, out = replicate k 0 ++ bs /\ codes text = replicate k 0 ++ cs /\ no_zero cs /\ no_zero bs /\ digits 256 bs /\ be_val 256 bs = be_val 58 cs
  end.
Proof.
  intros Ht Hl Hm. unfold from_base58_write_bytes, from_base58_length. rewrite (proj2 (Z.ltb_ge _ _) Hm).
  pose proof (take_ones_spec ignore_spaces text Ht) as H1. destruct (take_ones ignore_spaces text) as [[e stored]|[zeros rest]].
  { destruct H1 as (-> & Hst & He). exists (inl domain_error). split; [apply throw_ok; lia|done]. }
  destruct H1 as (k & -> & Ek & Hrest & Hlen & -> & Hh).
  assert (zlen (replicate k 0) = Z.of_nat k) as Ezk by (unfold zlen; by rewrite length_replicate).
  destruct (b58_decode_spec ignore_spaces rest Hrest ltac:(lia)) as (r & -> & Hr). cbn [mbind option_bind].
  pose proof (zlen_nonneg rest) as Hr0. destruct r as [e|bs]; [exists (inl e); split; [apply throw_ok; lia|done]|].
  destruct Hr as (He & Db & Nb & Vb).
  assert (zlen bs <= zlen rest) as Hbs.
  { apply Z.le_trans with (zlen (codes rest)); [|apply codes_length].
    destruct bs as [|b bs]; [apply zlen_nonneg|]. rewrite zlen_cons. pose proof (be_val_low 256 b bs ltac:(lia) Db ltac:(by intros ->)) as Hlow.
    pose proof (be_val_range 58 (codes rest) ltac:(lia) (codes_digits rest Hrest)) as Hhi.
    assert (zlen bs < zlen (codes rest)); [|lia]. apply (Z.pow_lt_mono_r_iff 58); [lia|apply zlen_nonneg|].
    apply Z.le_lt_trans with (256 ^ zlen bs); [apply Z.pow_le_mono_l; lia|lia]. }
  assert (no_zero (codes rest)) as Ncs.
  { destruct Hh as [->|(s & r & -> & Hs)]; [done|]. apply Forall_cons in Hrest as [Hsb _]. destruct (b58_code_range s Hsb) as (_ & _ & _ & H49).
    rewrite codes_cons. destruct (decide _) as [Hd|Hd]; [cbn; intros [= E]; lia|]. exfalso. cbn [from_base58_is_erroneous] in He.
    rewrite (proj2 (Z.ltb_lt (b58_code s) 0) ltac:(lia)) in He. destruct (isspace s) eqn:Es; [apply isspace_low, Z.leb_le in Es; lia|]. by rewrite andb_false_r in He. }
  assert (zlen (replicate k 0 ++ bs) <= zlen text) as Hout by (rewrite zlen_app; lia).
  exists (inr (replicate k 0 ++ bs)). split; [apply fill_ok; lia|]. split; [done|]. split; [done|].
  split; [apply Forall_app; split; [apply Forall_replicate; lia|done]|]. exists k, bs, (codes rest). done.
Qed.

#[export] Instance from_base58_safe ignore_spaces : DecoderSafe (from_base58 ignore_spaces) (fun _ => false).
Proof.
  intros text m Hb Hl. cbn [write_bytes envisage_result_length is_erroneous from_base58] in *. unfold from_base58_length in *.
  destruct (decide (zlen text <= m)) as [Hm|Hm].
  - destruct (from_base58_spec ignore_spaces text m Hb ltac:(lia) Hm) as (r & -> & Hr). exists r. split; [done|].
    destruct r as [e|out]; [by destruct Hr as [-> Hr]|]. destruct Hr as (He & Hz & Hd & _). split; [done|]. split; [exact Hd|]. split; [done|by left].
  - unfold from_base58_write_bytes, from_base58_length. rewrite (proj2 (Z.ltb_lt m (zlen text))) by lia. eexists. split; [done|]. cbn [from_base58]. lia.
Qed.

(** ** Lines *)

Lemma put_chars_app wrap_width a : forall width b, put_chars wrap_width width (a ++ b) =
  let '(ta, width) := put_chars wrap_width width a in let '(tb, width) := put_chars wrap_width width b in (ta ++ tb, width).
Proof.
  induction a as [|c a IH]; intros width b; cbn [app put_chars]; [by destruct (put_chars wrap_width width b)|].
  destruct (put wrap_width width c) as [t w]. rewrite IH. destruct (put_chars wrap_width w a) as [ta wa]. destruct (put_chars wrap_width wa b) as [tb wb].
  by rewrite app_assoc.
Qed.

Lemma put_chars_width wrap_width cs : 0 <= wrap_width -> forall width, 0 <= width < wrap_width \/ wrap_width = 0 ->
  zlen (put_chars wrap_width width cs).1 = zlen cs + (if wrap_width =? 0 then 0 else (width + zlen cs) / wrap_width) /\
  (put_chars wrap_width width cs).2 = (if wrap_width =? 0 then width + zlen cs else (width + zlen cs) mod wrap_width).
Proof.
  intros Hw. induction cs as [|c cs IH]; intros width Hwd; cbn [put_chars].
  - cbn [fst snd]. rewrite (@zlen_nil Z). destruct (Z.eqb_spec wrap_width 0); [lia|]. rewrite Z.add_0_r, Z.div_small, Z.mod_small by lia. done.
  - unfold put. destruct (Z.eqb_spec wrap_width 0) as [->|Hn]; cbn [negb andb].
    + destruct (IH (width + 1)) as [E1 E2]; [by right|]. destruct (put_chars 0 (width + 1) cs) as [t w]. cbn [fst snd app] in *.
      rewrite !zlen_cons, E1, E2. cbn [Z.eqb]. lia.
    + destruct (Z.leb_spec wrap_width (width + 1)) as [Hle|Hgt].
      * destruct (IH 0) as [E1 E2]; [lia|]. destruct (put_chars wrap_width 0 cs) as [t w]. cbn [fst snd app] in *. rewrite !zlen_cons, E1, E2.
        replace (width + (zlen cs + 1)) with (0 + zlen cs + 1 * wrap_width) by lia.
        rewrite Z.div_add, Z.mod_add by lia. lia.
      * destruct (IH (width + 1)) as [E1 E2]; [lia|]. destruct (put_chars wrap_width (width + 1) cs) as [t w]. cbn [fst snd app] in *. rewrite !zlen_cons, E1, E2.
        replace (width + (zlen cs + 1)) with (width + 1 + zlen cs) by lia. lia.
Qed.

(** Copying a chunk that fits is the same as putting its characters. *)
Lemma put_slice_chars wrap_width cs : forall width, 0 <= width -> (put_slice wrap_width width cs).1 = (put_chars wrap_width width cs).1.
Proof.
  intros width Hwd. unfold put_slice. destruct (Z.eqb_spec wrap_width 0) as [->|Hn]; cbn [orb].
  - cbn [fst]. revert width Hwd. induction cs as [|c cs IH]; intros width Hwd; [done|]. cbn [put_chars put Z.eqb negb andb].
    specialize (IH (width + 1) ltac:(lia)). destruct (put_chars 0 (width + 1) cs). cbn [fst app] in *. by rewrite <- IH.
  - destruct (Z.ltb_spec (width + zlen cs) wrap_width) as [Hlt|]; [|done]. cbn [fst]. revert width Hwd Hlt.
    induction cs as [|c cs IH]; intros width Hwd Hlt; [done|]. rewrite zlen_cons in Hlt. pose proof (zlen_nonneg cs). cbn [put_chars]. unfold put.
    rewrite (proj2 (Z.eqb_neq _ _) Hn), (proj2 (Z.leb_gt wrap_width (width + 1))) by lia. cbn [negb andb].
    specialize (IH (width + 1) ltac:(lia) ltac:(lia)). destruct (put_chars wrap_width (width + 1) cs). cbn [fst app] in *. by rewrite <- IH.
Qed.

Lemma put_zeros_chars wrap_width src : forall width, exists k rest, src = replicate k 0 ++ rest /\ no_zero rest /\
  put_zeros wrap_width width src = (put_chars wrap_width width (replicate k 49), rest).
Proof.
  induction src as [|b src IH]; intros width; cbn [put_zeros]; [by exists O, []|].
  destruct (Z.eqb_spec b 0) as [->|Hn]; [|exists O, (b :: src); split_and!; try done; by intros [= ?]].
  destruct (put wrap_width width 49) as [t w] eqn:Ep. destruct (IH w) as (k & rest & -> & Hr & ->). exists (S k), rest. split_and!; try done.
  cbn [replicate put_chars]. rewrite Ep. by destruct (put_chars wrap_width w (replicate k 49)).
Qed.

Lemma put_chars_codes wrap_width cs : forall width, codes (put_chars wrap_width width cs).1 = codes cs.
Proof.
  induction cs as [|c cs IH]; intros width; [done|]. cbn [put_chars]. unfold put. destruct (negb _ && _).
  - specialize (IH 0). destruct (put_chars wrap_width 0 cs). cbn [fst app] in *. rewrite !codes_cons, IH. done.
  - specialize (IH (width + 1)). destruct (put_chars wrap_width (width + 1) cs). cbn [fst app] in *. by rewrite !codes_cons, IH.
Qed.

(** Only line feeds are added, and only for wrapped lines. *)
Lemma put_chars_clean wrap_width ignore_spaces cs : Forall is_byte cs -> Forall (fun c => 0 <= b58_code c) cs -> wrap_width = 0 \/ ignore_spaces = true ->
  forall width, Forall is_byte (put_chars wrap_width width cs).1 /\ from_base58_is_erroneous ignore_spaces (put_chars wrap_width width cs).1 = false.
Proof.
  intros Hb Hc Hw. induction cs as [|c cs IH]; intros width; [done|]. apply Forall_cons in Hb as [Hcb Hb]. apply Forall_cons in Hc as [Hcc Hc].
  specialize (IH Hb Hc). cbn [put_chars]. unfold put. destruct (negb _ && _) eqn:En.
  - destruct Hw as [->| ->]; [done|]. specialize (IH 0). destruct (put_chars wrap_width 0 cs) as [t w]. cbn [fst app from_base58_is_erroneous] in *.
    rewrite (proj2 (Z.ltb_ge _ _) Hcc). change ((b58_code 10 <? 0) && negb (true && isspace 10)) with false. cbn [andb]. split; [|tauto].
    constructor; [done|]. constructor; [done|tauto].
  - specialize (IH (width + 1)). destruct (put_chars wrap_width (width + 1) cs) as [t w]. cbn [fst app from_base58_is_erroneous] in *.
    rewrite (proj2 (Z.ltb_ge _ _) Hcc). cbn [andb]. split; [|tauto]. constructor; tauto.
Qed.

(** ** The round trip *)

Lemma codes_chars ds : digits 58 ds -> codes (b58_char <$> ds) = ds /\ Forall is_byte (b58_char <$> ds) /\ Forall (fun c => 0 <= b58_code c) (b58_char <$> ds).
Proof.
  induction 1 as [|d ds Hd _ (IH1 & IH2 & IH3)]; [done|]. cbn [fmap list_fmap]. destruct (b58_char_ok d Hd) as (_ & E & Hr & _).
  rewrite codes_cons, E, decide_True by lia. split; [cbn [app]; f_equal; exact IH1|]. split; constructor; try done; [unfold is_byte; lia|lia].
Qed.

(** A text has at most eleven digits for eight bytes. *)
Lemma digits_length ds src : digits 58 ds -> digits 256 src -> no_zero ds -> be_val 58 ds = be_val 256 src -> 8 * zlen ds <= 11 * zlen src + 7.
Proof.
  intros Hd Hs Hn E. destruct ds as [|d ds]; [rewrite (@zlen_nil Z); pose proof (zlen_nonneg src); lia|]. rewrite zlen_cons.
  pose proof (be_val_low 58 d ds ltac:(lia) Hd ltac:(by intros ->)) as Hlow. pose proof (be_val_range 256 src ltac:(lia) Hs) as Hhi.
  assert (8 * zlen ds < 11 * zlen src); [|lia]. pose proof (zlen_nonneg ds). pose proof (zlen_nonneg src).
  apply (Z.pow_lt_mono_r_iff 58); [lia|lia|]. rewrite (Z.mul_comm 8), !Z.pow_mul_r by lia.
  apply Z.lt_le_trans with ((256 ^ zlen src) ^ 8); [apply Z.pow_lt_mono_l; lia|]. rewrite <- Z.pow_mul_r, Z.mul_comm, Z.pow_mul_r by lia.
  apply Z.pow_le_mono_l. vm_compute. split; congruence.
Qed.

(** What is written, before the lines are wrapped. *)
Lemma to_base58_text wrap_width src : Forall is_byte src -> zlen src < 2 ^ 56 -> 0 <= wrap_width ->
  exists k rest ds, src = replicate k 0 ++ rest /\ no_zero rest /\ digits 256 rest /\ digits 58 ds /\ no_zero ds /\ be_val 58 ds = be_val 256 rest /\
    forall n, to_base58_length wrap_width src <= n -> to_base58_write_bytes wrap_width src n =
      fill n (put_chars wrap_width 0 (b58_char <$> replicate k 0 ++ ds)).1 0.
Proof.
  intros Hs Hl Hw. destruct (put_zeros_chars wrap_width src 0) as (k & rest & E & Hn & Ez). subst src. apply Forall_app in Hs as [_ Hr].
  rewrite zlen_app in Hl. pose proof (zlen_nonneg (replicate k 0)).
  destruct (b58_encode_spec rest Hr Hn ltac:(lia)) as (ds & Ee & Dd & Nd & Vd). exists k, rest, ds. split_and!; try done.
  intros n Hlen. unfold to_base58_write_bytes. rewrite (proj2 (Z.ltb_ge _ _) Hlen), Ez.
  assert (0 <= (put_chars wrap_width 0 (replicate k 49)).2) as Hw0.
  { destruct (put_chars_width wrap_width (replicate k 49) Hw 0) as [_ ->]; [lia|]. pose proof (zlen_nonneg (replicate k 49)).
    destruct (Z.eqb_spec wrap_width 0); [lia|]. apply Z.mod_pos_bound. lia. }
  rewrite fmap_app, put_chars_app. assert (b58_char <$> replicate k 0 = replicate k 49) as -> by (rewrite fmap_replicate; done).
  destruct (put_chars wrap_width 0 (replicate k 49)) as [tz wz]. cbn [snd] in Hw0. rewrite Ee. cbn [mbind option_bind]. rewrite put_slice_chars by done.
  by destruct (put_chars wrap_width wz (b58_char <$> ds)).
Qed.

Lemma to_base58_length_eq wrap_width src : zlen src < 2 ^ 56 -> 0 <= wrap_width ->
  to_base58_length wrap_width src = (11 * zlen src + 7) / 8 + (if wrap_width =? 0 then 0 else (11 * zlen src + 7) / 8 / wrap_width).
Proof.
  intros Hl Hw. pose proof (zlen_nonneg src). unfold to_base58_length. rewrite (u64_small (zlen src * 11)) by (unfold UINT64_MAX; lia).
  rewrite (u64_small (zlen src * 11 + 7)) by (unfold UINT64_MAX; lia). rewrite (Z.mul_comm (zlen src)). apply wrapped_length_ge; [|done].
  split; [apply Z.div_pos; lia|apply Z.div_lt_upper_bound; lia].
Qed.

Lemma base58_decodes wrap_width ignore_spaces : lines_ok wrap_width ignore_spaces -> Decodes (to_base58 wrap_width) (from_base58 ignore_spaces).
Proof.
  intros [Hw Hi]. split; cbn [write_bytes envisage_result_length is_erroneous from_base58 to_base58].
  2:{ intros src n Hn. unfold to_base58_write_bytes. by rewrite (proj2 (Z.ltb_lt _ _) Hn). }
  intros src n Hs Hl Hn. destruct (to_base58_text wrap_width src Hs Hl ltac:(lia)) as (k & rest & ds & E & Nr & Dr & Dd & Nd & Vd & Ew).
  rewrite (Ew n Hn). rewrite to_base58_length_eq in * by lia.
  assert (digits 58 (replicate k 0 ++ ds)) as Dall by (apply Forall_app; split; [apply Forall_replicate; lia|done]).
  destruct (codes_chars _ Dall) as (Cc & Cb & Cv). set (chars := b58_char <$> replicate k 0 ++ ds) in *.
  pose proof (digits_length ds rest Dd Dr Nd Vd) as Hlen.
  assert (zlen chars <= (11 * zlen src + 7) / 8) as Hchars.
  { apply Z.div_le_lower_bound; [lia|]. unfold chars. rewrite E. unfold zlen in *. rewrite length_fmap, !length_app, !length_replicate. lia. }
  destruct (put_chars_width wrap_width chars ltac:(lia) 0 ltac:(lia)) as [Htext _]. rewrite Z.add_0_l in Htext.
  destruct (put_chars_clean wrap_width ignore_spaces chars Cb Cv Hi 0) as [Tb Te]. pose proof (put_chars_codes wrap_width chars 0) as Tc.
  set (text := (put_chars wrap_width 0 chars).1) in *. pose proof (zlen_nonneg chars) as Hc0. pose proof (zlen_nonneg src) as Hs0.
  assert (zlen text <= (11 * zlen src + 7) / 8 + (if wrap_width =? 0 then 0 else (11 * zlen src + 7) / 8 / wrap_width)) as Hfit.
  { rewrite Htext. destruct (Z.eqb_spec wrap_width 0); [lia|]. assert (zlen chars / wrap_width <= (11 * zlen src + 7) / 8 / wrap_width) by (apply Z.div_le_mono; lia). lia. }
  exists text. split; [apply fill_ok; lia|]. split; [done|]. split; [done|]. split; [done|].
  intros m Hm. unfold from_base58_length in Hm.
  assert (zlen text < 2 ^ 58) as Ht58.
  { rewrite Htext. assert ((11 * zlen src + 7) / 8 < 2 ^ 57) by (apply Z.div_lt_upper_bound; lia). destruct (Z.eqb_spec wrap_width 0); [lia|].
    assert (zlen chars / wrap_width <= zlen chars) by (apply Z.div_le_upper_bound; nia). lia. }
  destruct (from_base58_spec ignore_spaces text m Tb Ht58 Hm) as (r & -> & Hr). rewrite Te in Hr. destruct r as [e|out]; [by destruct Hr|].
  destruct Hr as (_ & _ & _ & k' & bs & cs & -> & Ec & Nc & Nb & Db & Vb). rewrite Tc, Cc in Ec.
  assert (k' = k /\ cs = ds) as [-> ->].
  { clear - Ec Nc Nd. revert k' Ec. induction k as [|k IH]; intros [|k'] Ec; cbn [replicate app] in Ec.
    - done.
    - subst ds. by destruct Nd.
    - subst cs. by destruct Nc.
    - injection Ec as Ec. destruct (IH k' Ec) as [-> ->]. done. }
  subst src. do 2 f_equal. f_equal. apply (be_val_inj 256); try done. by rewrite Vb, Vd.
Qed.

(** The stream gets the same text. *)
Lemma out_chars_same wrap_width cs : 0 <= wrap_width <= UINT32_MAX -> forall width, 0 <= width < wrap_width \/ wrap_width = 0 ->
  out_chars wrap_width width cs = (put_chars wrap_width width cs).1.
Proof.
  intros Hw. induction cs as [|c cs IH]; intros width Hwd; [done|]. cbn [out_chars put_chars]. unfold out_put, put.
  destruct (Z.eqb_spec wrap_width 0) as [->|Hn]; cbn [negb andb].
  - cbn [app]. rewrite IH by (by right). assert (forall w w', (put_chars 0 w cs).1 = (put_chars 0 w' cs).1) as Hww.
    { clear. induction cs as [|c cs IH]; intros w w'; [done|]. cbn [put_chars put Z.eqb negb andb]. specialize (IH (w + 1) (w' + 1)).
      destruct (put_chars 0 (w + 1) cs), (put_chars 0 (w' + 1) cs). cbn in *. by rewrite IH. }
    rewrite (Hww width (width + 1)). by destruct (put_chars 0 (width + 1) cs).
  - rewrite u32_small by lia. destruct (Z.leb_spec wrap_width (width + 1)); rewrite IH by lia; by destruct (put_chars wrap_width _ cs).
Qed.

Lemma out_zeros_same wrap_width src : 0 <= wrap_width <= UINT32_MAX -> forall width, 0 <= width < wrap_width \/ wrap_width = 0 ->
  exists w, out_zeros wrap_width width src = ((put_zeros wrap_width width src).1.1, w, (put_zeros wrap_width width src).2) /\
    (wrap_width <> 0 -> w = (put_zeros wrap_width width src).1.2 /\ 0 <= w < wrap_width).
Proof.
  intros Hw. induction src as [|b src IH]; intros width Hwd; cbn [out_zeros put_zeros]; [exists width; split; [done|]; split; [done|lia]|].
  destruct (b =? 0); [|exists width; split; [done|]; split; [done|lia]]. unfold out_put, put.
  destruct (Z.eqb_spec wrap_width 0) as [->|Hn]; cbn [negb andb].
  - destruct (IH width) as (w & -> & _); [by right|]. assert (forall v v', (put_zeros 0 v src).1.1 = (put_zeros 0 v' src).1.1 /\ (put_zeros 0 v src).2 = (put_zeros 0 v' src).2) as Hvv.
    { clear. induction src as [|b src IH]; intros v v'; [done|]. cbn [put_zeros]. destruct (b =? 0); [|done]. cbn [put Z.eqb negb andb].
      specialize (IH (v + 1) (v' + 1)). destruct (put_zeros 0 (v + 1) src) as [[? ?] ?], (put_zeros 0 (v' + 1) src) as [[? ?] ?]. cbn in *. naive_solver. }
    destruct (Hvv width (width + 1)) as [-> ->]. destruct (put_zeros 0 (width + 1) src) as [[? ?] ?]. by exists w.
  - rewrite u32_small by lia. destruct (Z.leb_spec wrap_width (width + 1)) as [Hle|Hgt].
    + destruct (IH 0) as (w & -> & Hww); [lia|]. destruct (put_zeros wrap_width 0 src) as [[? ?] ?]. exists w. split; [done|exact Hww].
    + destruct (IH (width + 1)) as (w & -> & Hww); [lia|]. destruct (put_zeros wrap_width (width + 1) src) as [[? ?] ?]. exists w. split; [done|exact Hww].
Qed.

Lemma to_base58_stream_same wrap_width src n text : 0 <= wrap_width <= UINT32_MAX -> Forall is_byte src -> zlen src < 2 ^ 56 ->
  to_base58_write_bytes wrap_width src n = Some (inr text) -> to_base58_output wrap_width src = Some text.
Proof.
  intros Hw Hs Hl. unfold to_base58_write_bytes. destruct (n <? _); [done|]. intros Hwr.
  destruct src as [|b0 src0] eqn:Esrc.
  { cbn [put_zeros] in Hwr. change (b58_encode (b58_buffer (zlen []) 11 8) []) with (Some (@nil Z)) in Hwr. cbn [mbind option_bind app] in Hwr.
    assert ((put_slice wrap_width 0 []).1 = []) as E0 by (unfold put_slice; by destruct (_ || _)). rewrite E0 in Hwr. unfold fill in Hwr.
    destruct (_ <=? n) in Hwr; [|done]. by injection Hwr as <-. }
  unfold to_base58_output. rewrite <- Esrc in *. clear Esrc b0 src0.
  destruct (out_zeros_same wrap_width src Hw 0 ltac:(lia)) as (w & -> & Hww). destruct (put_zeros_chars wrap_width src 0) as (k & rest & Es & Hn & Ez).
  rewrite Ez in *. destruct (put_chars wrap_width 0 (replicate k 49)) as [tz wz] eqn:Epz. cbn [fst snd] in *.
  assert (digits 256 rest /\ zlen rest < 2 ^ 56) as [Dr Lr].
  { subst src. apply Forall_app in Hs as [_ Hr]. rewrite zlen_app in Hl. pose proof (zlen_nonneg (replicate k 0)). split; [exact Hr|lia]. }
  destruct (b58_encode_spec rest Dr Hn Lr) as (ds & Ee & Dd & Nd & Vd). rewrite Ee in *. pose proof (digits_length ds rest Dd Dr Nd Vd) as Hlen.
  set (chunk := b58_char <$> ds) in *. assert (zlen chunk = zlen ds) as Ez' by (unfold zlen, chunk; by rewrite length_fmap).
  cbn [mbind option_bind] in *. unfold fill in Hwr. destruct (_ <=? n); [|done]. injection Hwr as <-. do 2 f_equal.
  unfold put_slice. destruct (Z.eqb_spec wrap_width 0) as [E0|E0]; cbn [orb]; [done|]. destruct (Hww E0) as [-> Hwz]. pose proof (zlen_nonneg chunk).
  rewrite u64_small by (unfold UINT64_MAX, UINT32_MAX in *; lia). destruct (_ <? wrap_width); [done|]. by apply out_chars_same; [|left].
Qed.

(** ** The properties *)

(** C11: texts made from bytes. For hexadecimal, Base58 and Base64, with lines of
    any width (decoded with ignored spaces when they are wrapped): into a
    destination of the announced length an encoder writes a text that is not
    longer, and that the decoder accepts and turns into the same bytes within its own announced
    length; a smaller destination is refused; and the text written to a stream is
    the same one. *)
Theorem transcoders_invert uppercase wrap_width ignore_spaces : lines_ok wrap_width ignore_spaces -> wrap_width <= UINT32_MAX - 4 ->
  Decodes (to_hex uppercase wrap_width) (from_hex ignore_spaces) /\
  Decodes (to_base58 wrap_width) (from_base58 ignore_spaces) /\
  Decodes (to_base64 wrap_width) (from_base64 ignore_spaces) /\
  forall src n text, Forall is_byte src -> zlen src < 2 ^ 56 ->
    (to_hex_write_bytes uppercase wrap_width src n = Some (inr text) -> to_hex_output uppercase wrap_width src = text) /\
    (to_base58_write_bytes wrap_width src n = Some (inr text) -> to_base58_output wrap_width src = Some text) /\
    (to_base64_write_bytes wrap_width src n = Some (inr text) -> to_base64_output wrap_width src = text).
Proof.
  intros Hl Hw. pose proof Hl as [Hw0 _].
  split; [by apply hex_decodes|]. split; [by apply base58_decodes|]. split; [by apply base64_decodes|].
  assert (forall n text text', fill n text 0 = Some (inr text') -> text = text') as Hfill.
  { intros n text text'. unfold fill. destruct (_ <=? _); [|done]. by intros [= ->]. }
  intros src n text Hs Hz. split; [|split; [apply to_base58_stream_same; (done || lia)|]].
  - unfold to_hex_write_bytes, to_hex_output. destruct (_ <? _); [done|]. intros <-%Hfill. rewrite to_hex_stream_same by lia. by destruct src.
  - unfold to_base64_write_bytes, to_base64_output. destruct (_ <? _); [done|]. intros <-%Hfill. rewrite to_base64_stream_same by (lia || tauto). by destruct src.
Qed.

Lemma transcoders_invert_witness :
  exists text, write_bytes (to_base58 5) [0; 0; 72; 101; 108; 108; 111] 40 = Some (inr text) /\ text = [49; 49; 57; 65; 106; 10; 100; 118; 122; 114] /\
    write_bytes (from_base58 true) text 10 = Some (inr [0; 0; 72; 101; 108; 108; 111]) /\
  to_base64_output 0 [77; 97] = [84; 87; 69; 61].
Proof.
  destruct (transcoders_invert false 5 true) as (_ & [H58 _] & _ & _); [by split; [|right]|by vm_compute|].
  destruct (H58 [0; 0; 72; 101; 108; 108; 111] 40) as (text & E & _ & _ & _ & Hd); [repeat constructor; done|done|by vm_compute|].
  exists text. split; [done|]. assert (text = [49; 49; 57; 65; 106; 10; 100; 118; 122; 114]) as Et by (revert E; vm_compute; congruence).
  split; [done|]. split; [apply Hd; by rewrite Et|].
  destruct (transcoders_invert false 0 false) as (_ & _ & _ & Hs); [by split; [|left]|by vm_compute|].
  destruct (Hs [77; 97] 4 [84; 87; 69; 61]) as (_ & _ & H64); [repeat constructor; done|done|]. apply H64. by vm_compute.
Defined.



(** Spaces are skipped between groups only: behind the padding, where a text file
    has its last line feed, they make the text invalid. *)
Lemma padding_then_newline_refused : from_base64_write_bytes true [81; 81; 61; 61] 6 = Some (inr [65]) /\
  from_base64_write_bytes true [81; 81; 61; 61; 10] 6 = Some (inl domain_error) /\
  from_base64_write_bytes true [81; 85; 70; 66; 10] 6 = Some (inr [65; 65; 65 + 0]).
Proof. vm_compute. done. Qed.
