(* ===== verification/Utf8.v ===== *)
(** * Printable texts are well-formed UTF-8

    The tables of [slice::is_printable] ([src/src/mdbx.c++]) against the encoding
    of code points: the check accepts exactly the non-empty sequences of encoded
    scalar values without the control characters of ASCII. *)

From stdpp Require Import base numbers option list.
From Stdlib Require Import ZArith Lia.
From S2P Require Import Prelude Bytes Transcode TranscodeProofs.

(** The encoding of a code point. *)
Definition utf8 (cp : Z) : bytes :=
if cp <? 0x80 then [cp]
else if cp <? 0x800 then [0xC0 + cp / 64; 0x80 + cp mod 64]
else if cp <? 0x10000 then [0xE0 + cp / 4096; 0x80 + cp / 64 mod 64; 0x80 + cp mod 64]
else [0xF0 + cp / 262144; 0x80 + cp / 4096 mod 64; 0x80 + cp / 64 mod 64; 0x80 + cp mod 64].

(** Scalar values without the control characters of ASCII. *)
Definition printable_cp (cp : Z) : Prop := 0x20 <= cp < 0x7F \/ 0x80 <= cp < 0xD800 \/ 0xE000 <= cp <= 0x10FFFF.

(** The length of the sequence that a byte starts, and the range of the second byte. *)
Definition lead (s : Z) : Z * Z * Z :=
if (0x20 <=? s) && (s <? 0x7F) then (1, 0x80, 0xBF)
else if (0xC2 <=? s) && (s <? 0xE0) then (2, 0x80, 0xBF)
else if s =? 0xE0 then (3, 0xA0, 0xBF)
else if s =? 0xED then (3, 0x80, 0x9F)
else if (0xE1 <=? s) && (s <? 0xF0) then (3, 0x80, 0xBF)
else if s =? 0xF0 then (4, 0x90, 0xBF)
else if (0xF1 <=? s) && (s <? 0xF4) then (4, 0x80, 0xBF)
else if s =? 0xF4 then (4, 0x80, 0x8F)
else (0, 0x80, 0xBF).

Definition table_ok (s : Z) : bool :=
match zget printable_map s with
| Some bits => match zget range_from (Z.land bits second_range_mask), zget range_to (Z.land bits second_range_mask) with
  | Some a, Some b => bool_decide ((Z.shiftr bits LS, a, b) = lead s)
  | _, _ => false
  end
| None => false
end.

Lemma table_lead s : is_byte s -> exists bits, zget printable_map s = Some bits /\
  zget range_from (Z.land bits second_range_mask) = Some (lead s).1.2 /\ zget range_to (Z.land bits second_range_mask) = Some (lead s).2 /\ Z.shiftr bits LS = (lead s).1.1.
Proof.
  intros Hs. assert (table_ok s = true) as H by (apply (byte_cases _ 256); [by vm_compute|done]). unfold table_ok in H.
  destruct (zget printable_map s) as [bits|]; [|done]. exists bits. split; [done|].
  destruct (zget range_from _) as [a|], (zget range_to _) as [b|]; try done. apply bool_decide_eq_true in H. by rewrite <- H.
Qed.

(** A sequence of the given length and ranges. *)
Definition follows (s : Z) (rest tail : bytes) : Prop :=
let '(n, from, to) := lead s in
exists seq, rest = seq ++ tail /\
match n, seq with
| 1, [] => True
| 2, [s1] => from <= s1 <= to
| 3, [s1; s2] => from <= s1 <= to /\ 0x80 <= s2 <= 0xBF
| 4, [s1; s2; s3] => from <= s1 <= to /\ 0x80 <= s2 <= 0xBF /\ 0x80 <= s3 <= 0xBF
| _, _ => False
end.

Lemma between_spec a b x : ((x <? a) || (b <? x) = false) <-> a <= x <= b.
Proof. rewrite orb_false_iff, !Z.ltb_ge. lia. Qed.

Lemma between_dec a b x : {a <= x <= b} + {(x <? a) || (b <? x) = true}.
Proof. destruct ((x <? a) || (b <? x)) eqn:E; [by right|left]. by apply between_spec. Qed.

Lemma printable_step s rest : is_byte s ->
  (exists tail, follows s rest tail /\ printable_utf8 (s :: rest) = printable_utf8 tail) \/
  ((forall tail, ~ follows s rest tail) /\ printable_utf8 (s :: rest) = Some false).
Proof.
  intros Hs. destruct (table_lead s Hs) as (bits & E1 & E2 & E3 & E4). cbn [printable_utf8]. rewrite E1. cbn [mbind option_bind]. rewrite E2, E3. cbn [mbind option_bind].
  rewrite E4. unfold follows.
  assert (let n := (lead s).1.1 in n = 0 \/ n = 1 \/ n = 2 \/ n = 3 \/ n = 4) as Hn by (unfold lead; repeat case_match; cbn; tauto).
  destruct (lead s) as [[n from] to]. cbn [fst snd] in *. clear E1 E2 E3 E4 Hs bits s.
  destruct Hn as [->|[->|[->|[->| ->]]]].
  - right. split; [|done]. intros tail (seq & _ & F). by destruct seq.
  - left. exists rest. split; [|done]. by exists [].
  - destruct rest as [|s1 rest].
    { right. split; [|done]. intros tail ([|? [|? ?]] & E & F); done. }
    destruct (between_dec from to s1) as [H1|H1].
    + left. exists rest. rewrite (proj2 (between_spec _ _ _) H1). split; [|done]. by exists [s1].
    + right. rewrite H1. split; [|done]. intros tail ([|x [|? ?]] & E & F); try done. injection E as -> _. apply between_spec in F. congruence.
  - destruct rest as [|s1 [|s2 rest]].
    1,2: right; split; [|done]; intros tail ([|? [|? [|? ?]]] & E & F); done.
    destruct (between_dec from to s1) as [H1|H1]; [destruct (between_dec 0x80 0xBF s2) as [H2|H2]|].
    + left. exists rest. rewrite (proj2 (between_spec _ _ _) H1), (proj2 (between_spec _ _ _) H2). split; [|done]. by exists [s1; s2].
    + right. rewrite (proj2 (between_spec _ _ _) H1), H2. split; [|done].
      intros tail ([|x [|y [|? ?]]] & E & F); try done. injection E as -> -> _. destruct F as [_ F]. apply between_spec in F. congruence.
    + right. rewrite H1. split; [|done]. intros tail ([|x [|y [|? ?]]] & E & F); try done. injection E as -> -> _. destruct F as [F _]. apply between_spec in F. congruence.
  - destruct rest as [|s1 [|s2 [|s3 rest]]].
    1,2,3: right; split; [|done]; intros tail ([|? [|? [|? [|? ?]]]] & E & F); done.
    destruct (between_dec from to s1) as [H1|H1]; [destruct (between_dec 0x80 0xBF s2) as [H2|H2]; [destruct (between_dec 0x80 0xBF s3) as [H3|H3]|]|].
    + left. exists rest. rewrite (proj2 (between_spec _ _ _) H1), (proj2 (between_spec _ _ _) H2), (proj2 (between_spec _ _ _) H3). split; [|done]. by exists [s1; s2; s3].
    + right. rewrite (proj2 (between_spec _ _ _) H1), (proj2 (between_spec _ _ _) H2), H3. split; [|done].
      intros tail ([|x [|y [|z [|? ?]]]] & E & F); try done. injection E as -> -> -> _. destruct F as (_ & _ & F). apply between_spec in F. congruence.
    + right. rewrite (proj2 (between_spec _ _ _) H1), H2. split; [|done].
      intros tail ([|x [|y [|z [|? ?]]]] & E & F); try done. injection E as -> -> -> _. destruct F as (_ & F & _). apply between_spec in F. congruence.
    + right. rewrite H1. split; [|done].
      intros tail ([|x [|y [|z [|? ?]]]] & E & F); try done. injection E as -> -> -> _. destruct F as (F & _). apply between_spec in F. congruence.
Qed.

Ltac bools := repeat match goal with
| H : (_ && _) = true |- _ => apply andb_true_iff in H as [? ?]
| H : (_ <=? _) = true |- _ => apply Z.leb_le in H
| H : (_ <? _) = true |- _ => apply Z.ltb_lt in H
| H : (_ <? _) = false |- _ => apply Z.ltb_ge in H
| H : (_ =? _) = true |- _ => apply Z.eqb_eq in H
| H : (_ =? _) = false |- _ => apply Z.eqb_neq in H
| H : (_ && _) = false |- _ => rewrite andb_false_iff, Z.leb_gt, Z.ltb_ge in H
end.

Lemma utf8_2 cp s s1 : 0x80 <= cp < 0x800 -> cp = (s - 0xC0) * 64 + (s1 - 0x80) -> 0x80 <= s1 <= 0xBF -> utf8 cp = [s; s1].
Proof.
  intros Hcp E H1. unfold utf8. rewrite (proj2 (Z.ltb_ge cp 0x80)), (proj2 (Z.ltb_lt cp 0x800)) by lia.
  f_equal; [|f_equal]; Z.to_euclidean_division_equations; lia.
Qed.

Lemma utf8_3 cp s s1 s2 : 0x800 <= cp < 0x10000 -> cp = (s - 0xE0) * 4096 + (s1 - 0x80) * 64 + (s2 - 0x80) -> 0x80 <= s1 <= 0xBF -> 0x80 <= s2 <= 0xBF ->
  utf8 cp = [s; s1; s2].
Proof.
  intros Hcp E H1 H2. unfold utf8. rewrite (proj2 (Z.ltb_ge cp 0x80)), (proj2 (Z.ltb_ge cp 0x800)), (proj2 (Z.ltb_lt cp 0x10000)) by lia.
  f_equal; [|f_equal; [|f_equal]]; Z.to_euclidean_division_equations; lia.
Qed.

Lemma utf8_4 cp s s1 s2 s3 : 0x10000 <= cp -> cp = (s - 0xF0) * 262144 + (s1 - 0x80) * 4096 + (s2 - 0x80) * 64 + (s3 - 0x80) ->
  0x80 <= s1 <= 0xBF -> 0x80 <= s2 <= 0xBF -> 0x80 <= s3 <= 0xBF -> utf8 cp = [s; s1; s2; s3].
Proof.
  intros Hcp E H1 H2 H3. unfold utf8. rewrite (proj2 (Z.ltb_ge cp 0x80)), (proj2 (Z.ltb_ge cp 0x800)), (proj2 (Z.ltb_ge cp 0x10000)) by lia.
  f_equal; [|f_equal; [|f_equal; [|f_equal]]]; Z.to_euclidean_division_equations; lia.
Qed.

(** The sequences are the encoded code points. *)
Lemma follows_utf8 s rest tail : follows s rest tail -> exists cp, printable_cp cp /\ s :: rest = utf8 cp ++ tail.
Proof.
  unfold follows, printable_cp. destruct (lead s) as [[n from] to] eqn:El. intros (seq & -> & F). unfold lead in El.
  destruct n as [|n|n]; [by destruct seq| |by destruct seq].
  destruct n as [[n|n|]|[n|[n|n|]|]|]; try done; destruct seq as [|s1 [|s2 [|s3 [|? ?]]]]; try done.
  - set (cp := (s - 0xE0) * 4096 + (s1 - 0x80) * 64 + (s2 - 0x80)). exists cp.
    assert (0x800 <= cp < 0x10000 /\ (cp < 0xD800 \/ 0xE000 <= cp)) as [? ?] by (repeat case_match; simplify_eq; bools; unfold cp; lia).
    assert (0x80 <= s1 <= 0xBF) by (repeat case_match; simplify_eq; lia). split; [lia|]. by rewrite (utf8_3 cp s s1 s2) by (done || lia).
  - set (cp := (s - 0xF0) * 262144 + (s1 - 0x80) * 4096 + (s2 - 0x80) * 64 + (s3 - 0x80)). exists cp.
    assert (0x10000 <= cp <= 0x10FFFF) by (repeat case_match; simplify_eq; bools; unfold cp; lia).
    assert (0x80 <= s1 <= 0xBF) by (repeat case_match; simplify_eq; lia). split; [lia|]. by rewrite (utf8_4 cp s s1 s2 s3) by (done || lia).
  - set (cp := (s - 0xC0) * 64 + (s1 - 0x80)). exists cp.
    assert (0x80 <= cp < 0x800) by (repeat case_match; simplify_eq; bools; unfold cp; lia).
    assert (0x80 <= s1 <= 0xBF) by (repeat case_match; simplify_eq; lia). split; [lia|]. by rewrite (utf8_2 cp s s1) by (done || lia).
  - exists s. assert (0x20 <= s < 0x7F) by (repeat case_match; simplify_eq; bools; lia). split; [lia|].
    unfold utf8. by rewrite (proj2 (Z.ltb_lt s 0x80)) by lia.
Qed.

Lemma utf8_follows cp tail : printable_cp cp -> exists s rest, utf8 cp ++ tail = s :: rest /\ follows s rest tail.
Proof.
  unfold printable_cp. intros Hcp. destruct (decide (cp < 0x80)); [|destruct (decide (cp < 0x800)); [|destruct (decide (cp < 0x10000))]].
  - exists cp, tail. unfold utf8. rewrite (proj2 (Z.ltb_lt cp 0x80)) by lia. split; [done|]. unfold follows, lead.
    rewrite (proj2 (Z.leb_le 0x20 cp)), (proj2 (Z.ltb_lt cp 0x7F)) by lia. by exists [].
  - set (s := 0xC0 + cp / 64). set (s1 := 0x80 + cp mod 64). exists s, (s1 :: tail).
    assert (cp = (s - 0xC0) * 64 + (s1 - 0x80) /\ 0x80 <= s1 <= 0xBF) as [E H1] by (unfold s, s1; Z.to_euclidean_division_equations; lia).
    rewrite (utf8_2 cp s s1) by (done || lia). split; [done|]. unfold follows, lead. clearbody s s1.
    repeat case_match; simplify_eq; bools; try lia; exists [s1]; (split; [done|lia]).
  - set (s := 0xE0 + cp / 4096). set (s1 := 0x80 + cp / 64 mod 64). set (s2 := 0x80 + cp mod 64). exists s, (s1 :: s2 :: tail).
    assert (cp = (s - 0xE0) * 4096 + (s1 - 0x80) * 64 + (s2 - 0x80) /\ 0x80 <= s1 <= 0xBF /\ 0x80 <= s2 <= 0xBF) as (E & H1 & H2)
      by (unfold s, s1, s2; Z.to_euclidean_division_equations; lia).
    rewrite (utf8_3 cp s s1 s2) by (done || lia). split; [done|]. unfold follows, lead. clearbody s s1 s2.
    repeat case_match; simplify_eq; bools; try lia; exists [s1; s2]; (split; [done|lia]).
  - set (s := 0xF0 + cp / 262144). set (s1 := 0x80 + cp / 4096 mod 64). set (s2 := 0x80 + cp / 64 mod 64). set (s3 := 0x80 + cp mod 64).
    exists s, (s1 :: s2 :: s3 :: tail).
    assert (cp = (s - 0xF0) * 262144 + (s1 - 0x80) * 4096 + (s2 - 0x80) * 64 + (s3 - 0x80) /\ 0x80 <= s1 <= 0xBF /\ 0x80 <= s2 <= 0xBF /\ 0x80 <= s3 <= 0xBF)
      as (E & H1 & H2 & H3) by (unfold s, s1, s2, s3; Z.to_euclidean_division_equations; lia).
    rewrite (utf8_4 cp s s1 s2 s3) by (done || lia). split; [done|]. unfold follows, lead. clearbody s s1 s2 s3.
    repeat case_match; simplify_eq; bools; try lia; exists [s1; s2; s3]; (split; [done|lia]).
Qed.

Lemma follows_unique s rest t1 t2 : follows s rest t1 -> follows s rest t2 -> t1 = t2.
Proof.
  unfold follows. destruct (lead s) as [[n from] to]. intros (a & E1 & F1) (b & E2 & F2). rewrite E1 in E2.
  assert (length a = length b) as Hl by (destruct n as [|n|n]; [by destruct a| |by destruct a];
    destruct n as [[n|n|]|[n|[n|n|]|]|]; try (by destruct a); destruct a as [|? [|? [|? [|? ?]]]]; try done; destruct b as [|? [|? [|? [|? ?]]]]; done).
  by apply app_inj_1 in E2 as [_ ?].
Qed.

Lemma follows_tail s rest tail : follows s rest tail -> exists seq, rest = seq ++ tail.
Proof. unfold follows. destruct (lead s) as [[n from] to]. intros (seq & E & _). by exists seq. Qed.

Lemma printable_utf8_spec src : Forall is_byte src ->
  exists b, printable_utf8 src = Some b /\ (b = true <-> exists cps, Forall printable_cp cps /\ src = cps ≫= utf8).
Proof.
  induction src as [[|s rest] IH] using bytes_ind; intros Hs.
  { exists true. split; [done|]. split; [|done]. intros _. by exists []. }
  apply Forall_cons in Hs as [Hsb Hr]. destruct (printable_step s rest Hsb) as [(tail & Hf & ->)|[Hno ->]].
  - destruct (follows_tail _ _ _ Hf) as [seq Eseq].
    destruct (IH tail) as (b & -> & Hb); [rewrite Eseq, zlen_cons, zlen_app; pose proof (zlen_nonneg seq); lia|subst rest; by apply Forall_app in Hr as [_ ?]|].
    exists b. split; [done|]. rewrite Hb. destruct (follows_utf8 s rest tail Hf) as (cp & Hcp & E). split.
    + intros (cps & Hcps & ->). exists (cp :: cps). split; [by constructor|]. by rewrite E.
    + intros (cps & Hcps & Ec). destruct Hcps as [|cp' cps Hcp' Hcps]; [done|]. cbn [mbind list_bind] in Ec. exists cps. split; [done|].
      destruct (utf8_follows cp' (cps ≫= utf8) Hcp') as (s' & rest' & E' & Hf'). unfold mbind in *. rewrite E' in Ec. injection Ec as <- <-.
      by apply (follows_unique s rest).
  - exists false. split; [done|]. split; [done|]. intros (cps & Hcps & Ec). exfalso. destruct Hcps as [|cp' cps Hcp' Hcps]; [done|]. cbn [mbind list_bind] in Ec.
    destruct (utf8_follows cp' (cps ≫= utf8) Hcp') as (s' & rest' & E' & Hf'). unfold mbind in *. rewrite E' in Ec. injection Ec as <- <-. by apply (Hno _ Hf').
Qed.

(** C13: the check for printable texts. On bytes [is_printable] without
    [disable_utf8] stays inside of its tables and accepts exactly the non-empty
    concatenations of the UTF-8 encodings of scalar values other than the control
    characters of ASCII: overlong forms, surrogates, values above 10FFFF and cut
    sequences are refused. *)
Theorem printable_is_utf8 src : Forall is_byte src ->
  exists b, is_printable false src = Some b /\ (b = true <-> src <> [] /\ exists cps, Forall printable_cp cps /\ src = cps ≫= utf8).
Proof.
  intros Hs. unfold is_printable. destruct src as [|s rest]; [exists false; split; [done|]; split; [done|]; by intros [? _]|].
  rewrite zlen_cons. destruct (Z.ltb_spec (zlen rest + 1) 1); [pose proof (zlen_nonneg rest); lia|].
  destruct (printable_utf8_spec (s :: rest) Hs) as (b & -> & Hb). exists b. split; [done|]. rewrite Hb. split; [by split|by intros [_ ?]].
Qed.

Lemma printable_is_utf8_witness : is_printable false [0xE2; 0x82; 0xAC; 0x20; 0xF0; 0x9F; 0x98; 0x80] = Some true /\
  exists cps, Forall printable_cp cps /\ [0xE2; 0x82; 0xAC; 0x20; 0xF0; 0x9F; 0x98; 0x80] = cps ≫= utf8.
Proof.
  destruct (printable_is_utf8 [0xE2; 0x82; 0xAC; 0x20; 0xF0; 0x9F; 0x98; 0x80]) as (b & E & H); [repeat constructor; done|].
  split; [by vm_compute|]. apply H. revert E. vm_compute. congruence.
Defined.

(** The check for extended ASCII refuses the letters that start sequences of two
    or four bytes in UTF-8, since their entries of the table lack the flag: with
    [disable_utf8] the byte E4 (in Latin-1 a small letter) is printable, its capital C4 is
    not, and neither are the 37 bytes C2 to DF and F0 to F4. *)
Lemma extended_letters_refused : is_printable true [0xE4] = Some true /\ is_printable true [0xC4] = Some false /\
  forall s, 0xC2 <= s <= 0xDF \/ 0xF0 <= s <= 0xF4 -> is_printable true [s] = Some false.
Proof.
  split; [done|]. split; [done|]. intros s Hs.
  assert (negb (((0xC2 <=? s) && (s <=? 0xDF)) || ((0xF0 <=? s) && (s <=? 0xF4))) || match is_printable true [s] with Some false => true | _ => false end = true) as H.
  { apply (byte_cases (fun s => negb (((0xC2 <=? s) && (s <=? 0xDF)) || ((0xF0 <=? s) && (s <=? 0xF4))) || match is_printable true [s] with Some false => true | _ => false end) 256);
      [by vm_compute|lia]. }
  apply orb_true_iff in H as [H|H]; [|by destruct (is_printable true [s]) as [[]|]]. exfalso.
  rewrite negb_true_iff, orb_false_iff, !andb_false_iff, !Z.leb_gt in H. lia.
Qed.
